(* ===== verification/_CoqProject ===== *)
-Q . S2P
Prelude.v
AsyncWriter.v
KVCache.v
RadixCache.v
Float64.v
SlotManager.v
SessionHandles.v
PrefixCache.v
Utf8.v
MarkerScan.v
HarmonySplitter.v
ReasoningSplitter.v
ChatTemplate.v
ResponseSplitter.v
RateLimiter.v
StringUtils.v
Json.v
AccessControl.v
PolicyStore.v
Tokenizer.v
Speculative.v
LaneDispatcher.v
KVTransport.v
BatchBuilder.v
Gguf.v
GgufNative.v
Backends.v
ModelFormat.v
ModelRouter.v
ModelSelection.v
ModelRegistry.v
SeqSlots.v
RequestRelease.v
Base64.v
HttpClient.v
Media.v
Oidc.v
BpeTokenizer.v
ToolCalls.v
HttpRequests.v
HttpFrames.v
HttpServer.v
HttpConnections.v
HttpAdmin.v
HttpGeneration.v
Advisor.v
GeneratedText.v
Executor.v
StepExecutor.v
PhasedPrefill.v
Accounts.v
Admission.v
Lifecycle.v
SingleExecution.v
BatchExecution.v
NativeDecode.v
NativeMemory.v
Safetensors.v
SafetensorsModel.v
PipelinedBurst.v
