(* ===== verification/Prelude.v ===== *)
(** * InferFlux: a verification development

    InferFlux is an inference server for large language models.  An HTTP request is
    authenticated, rate-limited and screened; the router selects a loaded model for
    it; the scheduler queues it, builds batches under a token budget, reuses cached
    prefixes, and leases a sequence slot and KV pages to it; a backend generates
    tokens, which are assembled into UTF-8 and split into reasoning and content on
    the way out.  The sources are C++; [src/] below is the repository.

    ** How the code is modelled

    Pure functions are Rocq functions.  A class is a record of its fields and each
    method is a function from the record to the record and a result; a method that may
    throw returns an [outcome], one that may fail an [option] or a sum.  Code that
    holds a mutex for the whole of a method is one step; code that releases it is cut
    into its critical sections, and interleavings are sequences of labels
    (AsyncWriter.v, LaneDispatcher.v).  Machine integers are [Z] with the wrap-around
    written out ([u64], [i32]); [double] and [float] are IEEE binary64 and binary32
    (Float64.v), [float] pages bit patterns; strings are lists of bytes.  Clocks, environment variables, file
    systems, hash-map orders, allocation failures and the libraries the program
    links (AES, SHA-256, RSA, JSON and YAML parsers, llama.cpp) are arguments.

    ** Files

    - Prelude.v: machine integers, exceptions, sub-lists and searching in byte
      strings, [gmap] and list lemmas shared by the components.
    - AsyncWriter.v: src/io/async_file_writer.cpp.  KVCache.v:
      src/runtime/kv_cache/paged_kv_cache.cpp, with the abstract block pool
      ([BlockPool]) that clients of the cache rely on.  RadixCache.v:
      src/runtime/prefix_cache/radix_prefix_cache.cpp, over any block pool.
      PrefixCache.v: src/runtime/prefix_cache/prefix_cache.cpp.
    - SlotManager.v: src/runtime/scheduler/sequence_slot_manager.cpp.
      SessionHandles.v: src/scheduler/session_handle_manager.cpp.  BatchBuilder.v:
      batch selection, fairness and swapping of src/scheduler/scheduler.cpp with
      batch_selection_policy.cpp and fairness_controller.cpp.  LaneDispatcher.v:
      src/runtime/execution/unified_batch_lane_dispatcher.cpp.  SeqSlots.v and
      RequestRelease.v: the slot paths of src/scheduler/scheduler.cpp and what finished
      requests and sessions give back, which compose the slot manager, the prefix cache,
      the sessions, the pool of blocks and the frees a backend has not finished.
    - Utf8.v, MarkerScan.v, HarmonySplitter.v, ReasoningSplitter.v,
      ResponseSplitter.v: src/runtime/text.  ChatTemplate.v:
      src/model/chat_template_renderer.cpp.  Tokenizer.v: src/model/tokenizer.
      BpeTokenizer.v: src/runtime/backends/mlx/mlx_tokenizer.cpp.
      Speculative.v: src/runtime/speculative.
    - RateLimiter.v, AccessControl.v, PolicyStore.v: src/server/auth, src/policy and
      src/server/policy, over StringUtils.v (src/runtime/string_utils.h) and Float64.v.
    - KVTransport.v: src/runtime/disaggregated.
    - Gguf.v, GgufNative.v: the two readers of GGUF files and the quantization
      detector (src/runtime/core/gguf, src/runtime/backends/cuda/native/gguf_util.cpp,
      src/server/cpu_quantization_detector.cpp).
    - Backends.v: backend capabilities, targets, configuration and the backend factory
      (src/runtime/backends), load specifications (src/model/model_load_spec.cpp).
      ModelFormat.v: src/model/model_format.cpp.  ModelRouter.v:
      src/scheduler/single_model_router.cpp.  ModelSelection.v:
      src/scheduler/model_selection.cpp.  ModelRegistry.v:
      src/scheduler/model_registry.cpp.
    - Json.v: the JSON values that requests, policies and tokens are read from.
      Base64.v: the two base64 decoders.  HttpClient.v: src/net/http_client.cpp, with
      what it opens and closes.  Oidc.v: src/server/auth/oidc_validator.cpp, over the
      client.  Media.v: src/runtime/multimodal/image_preprocessor.cpp and
      src/server/http/embedding_payload.cpp.  ToolCalls.v:
      src/server/http/completion_payload.cpp.
    - The HTTP server, src/server/http/http_server.cpp and http_utils.h: HttpRequests.v
      reads request bodies and makes prompts of messages; HttpFrames.v builds responses,
      bodies and stream frames; HttpServer.v reads a request from a connection, finds the
      identity behind its token and decides readiness; HttpConnections.v is the
      listeners, the queue of connections and their workers; HttpAdmin.v is the routes,
      their guards and the administration endpoints; HttpGeneration.v is the completions
      endpoint, from the prompt to the last frame.
    - Advisor.v: src/server/startup_advisor.cpp.
    - Execution: GeneratedText.v makes text of sampled pieces
      (src/runtime/backends/backend_utils.h and the batch executor); Executor.v is
      [ExecuteUnifiedBatchPhased] of src/runtime/execution/batch_executor.cpp with slices and lanes;
      StepExecutor.v is [ExecuteUnifiedBatchStep] with the preparation and finalization of
      requests in src/scheduler/scheduler.cpp; PhasedPrefill.v is
      [ExecutePhasedPrefillStep] there; SingleExecution.v is [ExecuteRequest] with embeddings, and
      BatchExecution.v [ExecuteBatch], which divides a batch among devices, backends and
      single requests.
    - The native backend: NativeDecode.v is the token loops of
      src/runtime/backends/native/native_gpu_backend.cpp with the bursts of the CUDA executor;
      PipelinedBurst.v the bursts of a batch that the device runs ahead (cuda/native/decode_burst.cu);
      NativeMemory.v the plan of the KV cache and the ledger of device memory
      (src/runtime/backends/cuda/native/kv_cache_planner.h, model_memory_ledger.cpp); Safetensors.v the
      parser of safetensors files and the conversion of BF16 weights (safetensors_parser.cpp there);
      SafetensorsModel.v the loader of a model directory in
      src/runtime/backends/cuda/inferflux_cuda_executor.cpp, its upload and the weight map
      (native/weight_map.cpp).
    - The life of a request in src/scheduler/scheduler.cpp: Accounts.v is the accounting of blocks and
      slots over caches, sessions and requests; Admission.v is [ProcessBatch] from the tokens of
      a prompt to the staged request and what it gives back at its end; Lifecycle.v is [Generate],
      the two worker loops and the shutdown as a transition system over the places of a request.

    ** Interfaces

    Components that the code keeps apart by a contract meet in a class: [BlockPool]
    (the KV cache as the prefix cache and the batch builder see it), the KV
    transports, the append-only accumulators behind the response splitter,
    [ModelResolver] and [ModelLifecycle] (the router as selection and the registry see
    it).  Clients are proved against the class and the implementation is an instance.

    ** What the theorems show

    - Resources are conserved: KV blocks and their reference counts (the pages refine a
      counter per block), sequence slots, the requests of a scheduling round, lane
      permits, retained sessions.
    - Caches answer correctly: the radix cache finds the longest cached prefix and what
      was inserted; the LRU and eviction orders are the stated ones.
    - Stale names do no harm: leases by generation, session leases, model ids that are
      never reused.
    - Streaming does not depend on how bytes are cut: UTF-8 assembly, markers, splitters.
    - Data survives: pages swapped out and in, the policy file across restarts and
      failed saves, texts through the tokenizers, GGUF values, KV state through either transport.
    - Concurrency: what interleaved workers deliver, exactly once, and that a submitted
      batch completes.
    - Requests get what they asked for: capabilities and readiness of the selected
      model, admission of loads, independence of hash and directory order, batch limits
      and policy order, verdicts of guardrail and authentication.
    - A token is accepted exactly when its form, claims, key and signature are right, and
      only with keys its issuer served; connections are closed on every path.
    - The HTTP server reads what its client sends however it is segmented, keeps every
      payload within its limits, runs a handler only behind its scope and rate limit,
      keeps keys in memory and in the store together, leaks no connection, and streams
      exactly the reasoning and content of the finished text.
    - Generation: a backend is fed each prompt and then the samples of the request, without gap
      or overlap, whatever it answers; a request generates no more than it may, ends, and
      resumes where a slice stopped; the two executors agree; completion and stream are
      the text sampled, cut at a stop string.  Splitting a batch over devices changes no
      outcome; embeddings come one per input and in order.  The loops of the native backend end
      and agree with and without bursts.
    - Weights: a safetensors file is read back as written, every tensor of a model is found on the
      device with its own bytes, and the conversion of BF16 words is the exact one where there is
      one; the plan of the KV cache keeps its bounds and its budget.
    - A request that is admitted, executed and finished leaves nothing behind: blocks and slots are those
      of the caches, the sessions and the requests in progress.  It is in one place at any time,
      is answered once, and is answered when the scheduler has shut down.
    - Where the code does not do what it or its documentation says, a theorem exhibits
      the behaviour on a concrete input.

    ** Fuel

    Recursion that is not structural carries fuel, and the theorems include that it is
    enough: a walk in the prefix tree takes a step per token; eviction loops one per
    node; GGUF skipping one per byte of the file; the search for an unused model id one
    per id in use; the marker machines one per pending byte; a prefill one per token.  The
    phased executor stops after 10000 iterations by a guard of its own.  A reader that runs out of
    fuel has a result of its own, which the theorems exclude.

    ** Not modelled

    GPU kernels and the streams and graphs that launch them, quantized weights on the device, the llama.cpp and MLX backends,
    JSON and YAML documents, metrics, tracing, audit and other logs, the command line
    client and the web interface: code whose behaviour is that of a device, a library or
    the network.  Of the scheduler, waiting for a minimal batch, the packets of a KV transport and
    the distributed mode; of the
    HTTP server, the endpoints that report status, the listing of models, cache warming and embeddings. *)

From stdpp Require Import base tactics numbers list strings gmap pretty.
From Stdlib Require Import Ascii.
From Stdlib Require String.

(** ** Machine integers *)

Declare Scope machine_scope.
Delimit Scope machine_scope with machine.

(** [std::uint64_t] / [std::size_t] arithmetic wraps modulo 2^64. *)
Definition u64 (z : Z) : Z := (z mod 2 ^ 64)%Z.

(** Conversion to a 32-bit two's-complement [int]. *)
Definition i32 (z : Z) : Z := ((z + 2 ^ 31) mod 2 ^ 32 - 2 ^ 31)%Z.

Notation "a +u b" := (u64 (a + b)%Z) (at level 50, left associativity) : machine_scope.

Lemma u64_range z : (0 <= u64 z < 2 ^ 64)%Z.
Proof. apply Z.mod_pos_bound. lia. Qed.

Lemma u64_small z : (0 <= z < 2 ^ 64)%Z -> u64 z = z.
Proof. intros. by apply Z.mod_small. Qed.

Lemma i32_range z : (- 2 ^ 31 <= i32 z < 2 ^ 31)%Z.
Proof. unfold i32. pose proof (Z.mod_pos_bound (z + 2 ^ 31) (2 ^ 32)). lia. Qed.

Lemma i32_small z : (- 2 ^ 31 <= z < 2 ^ 31)%Z -> i32 z = z.
Proof. intros. unfold i32. rewrite Z.mod_small; lia. Qed.

(** ** Exceptions

    A C++ operation that may throw returns the state it left behind together
    with an [outcome]. *)

Inductive exn :=
  | runtime_error (what : string)
  | out_of_range (what : string)
  | invalid_argument (what : string)
  | length_error (what : string).

Inductive outcome (A : Type) :=
  | Ret (a : A)
  | Throw (e : exn).
Arguments Ret {A} a.
Arguments Throw {A} e.

#[export] Instance exn_eq_dec : EqDecision exn.
Proof. solve_decision. Defined.

#[export] Instance outcome_eq_dec `{EqDecision A} : EqDecision (outcome A).
Proof. solve_decision. Defined.

(** ** Index checks: [id < 0 || static_cast<size_t>(id) >= v.size()] *)

Definition in_range {A} (l : list A) (i : Z) : bool :=
  (0 <=? i)%Z && (i <? Z.of_nat (length l))%Z.

Lemma in_range_lookup {A} (l : list A) i :
  in_range l i = true -> exists x, l !! Z.to_nat i = Some x.
Proof.
  unfold in_range. intros [Hi Hj]%andb_true_iff.
  apply Z.leb_le in Hi. apply Z.ltb_lt in Hj.
  apply lookup_lt_is_Some. lia.
Qed.

Lemma in_range_of_nat {A} (l : list A) (i : nat) :
  i < length l -> in_range l (Z.of_nat i) = true.
Proof.
  intros. unfold in_range. apply andb_true_iff.
  split; [apply Z.leb_le | apply Z.ltb_lt]; lia.
Qed.

Lemma in_range_same_length {A B} (l : list A) (l' : list B) i :
  length l = length l' -> in_range l i = in_range l' i.
Proof. intros H. unfold in_range. by rewrite H. Qed.

Lemma in_range_false_lookup {A} (l : list A) (i : nat) :
  in_range l (Z.of_nat i) = false -> l !! i = None.
Proof.
  unfold in_range. intros [H|H]%andb_false_iff.
  - apply Z.leb_gt in H. lia.
  - apply Z.ltb_ge in H. apply lookup_ge_None. lia.
Qed.

(** ** Linear searches over vectors *)

Section Searches.
Context {A : Type}.

(** [std::find_if] as an index. *)
Fixpoint find_index (p : A -> bool) (l : list A) : option nat :=
  match l with
  | [] => None
  | x :: l' => if p x then Some 0 else S <$> find_index p l'
  end.

(** [std::count_if]. *)
Fixpoint count_if (p : A -> bool) (l : list A) : nat :=
  match l with
  | [] => 0
  | x :: l' => (if p x then 1 else 0) + count_if p l'
  end.

(** [std::min_element]/[std::max_element]: scan left to right, replacing the
    current best [(bi, b)] by the element at the running index when
    [better x b]. *)
Fixpoint scan_best (better : A -> A -> bool) (l : list A) (i : nat) (best : nat * A) : nat * A :=
  match l with
  | [] => best
  | x :: l' => scan_best better l' (S i) (if better x best.2 then (i, x) else best)
  end.

Definition best_element (better : A -> A -> bool) (l : list A) : option (nat * A) :=
  match l with
  | [] => None
  | x :: l' => Some (scan_best better l' 1 (0, x))
  end.

Definition min_element (lt : A -> A -> bool) (l : list A) : option (nat * A) :=
  best_element (fun x b => lt x b) l.

Definition max_element (lt : A -> A -> bool) (l : list A) : option (nat * A) :=
  best_element (fun x b => lt b x) l.

Lemma find_index_Some p (l : list A) i :
  find_index p l = Some i <->
  (exists x, l !! i = Some x /\ p x = true) /\
  (forall j y, j < i -> l !! j = Some y -> p y = false).
Proof.
  revert i. induction l as [|x l IH]; intros i; simpl.
  - split; [done|]. intros [(y & Hy & _) _]. done.
  - destruct (p x) eqn:Hp.
    + split.
      * intros [= <-]. split; [eauto|]. intros; lia.
      * intros [_ H]. destruct i as [|i]; [done|].
        specialize (H 0 x ltac:(lia) eq_refl). congruence.
    + rewrite fmap_Some. split.
      * intros (k & Hk & ->). apply IH in Hk as [Hk Hlt]. split; [done|].
        intros [|j] y Hj Hy; simpl in Hy; [congruence|]. apply (Hlt j); [lia|done].
      * intros [(y & Hy & Hpy) Hlt]. destruct i as [|i]; simpl in Hy; [congruence|].
        exists i. split; [|done]. apply IH. split; [eauto|].
        intros j z Hj Hz. apply (Hlt (S j)); [lia|done].
Qed.

Lemma find_index_None p (l : list A) :
  find_index p l = None <-> Forall (fun x => p x = false) l.
Proof.
  induction l as [|x l IH]; simpl; [split; [constructor|done]|].
  rewrite Forall_cons. destruct (p x) eqn:Hp.
  - split; [done|]. intros [? _]. done.
  - rewrite fmap_None, IH. naive_solver.
Qed.

Lemma count_if_le p (l : list A) : count_if p l <= length l.
Proof. induction l as [|x l IH]; simpl; [lia|]. destruct (p x); lia. Qed.

Lemma count_if_app p (l k : list A) : count_if p (l ++ k) = count_if p l + count_if p k.
Proof. induction l as [|x l IH]; simpl; [done|]. rewrite IH. lia. Qed.

Lemma count_if_neg p (l : list A) :
  count_if p l + count_if (fun x => negb (p x)) l = length l.
Proof. induction l as [|x l IH]; simpl; [done|]. destruct (p x); simpl; lia. Qed.

Lemma count_if_ext p q (l : list A) :
  (forall x, x ∈ l -> p x = q x) -> count_if p l = count_if q l.
Proof.
  induction l as [|x l IH]; simpl; intros H; [done|].
  rewrite IH by set_solver. rewrite (H x) by set_solver. done.
Qed.

Lemma count_if_zero p (l : list A) :
  count_if p l = 0 <-> Forall (fun x => p x = false) l.
Proof.
  induction l as [|x l IH]; simpl; [split; [constructor|done]|].
  rewrite Forall_cons, <- IH. destruct (p x); split; intros; naive_solver lia.
Qed.

(** Replacing one element changes the count by the difference of the two
    indicator values. *)
Lemma count_if_insert p (l : list A) i x y :
  l !! i = Some x ->
  count_if p (<[i:=y]> l) + (if p x then 1 else 0) =
  count_if p l + (if p y then 1 else 0).
Proof.
  revert i. induction l as [|z l IH]; intros [|i] H; simpl in *; try done.
  - injection H as ->. lia.
  - specialize (IH _ H). lia.
Qed.

Lemma scan_best_spec (better : A -> A -> bool) (key : A -> Z) (l pre : list A) bi b :
  (forall x c, better x c = (key x <? key c)%Z) ->
  pre !! bi = Some b ->
  (forall j y, pre !! j = Some y -> (key b <= key y)%Z /\ (j < bi -> (key b < key y)%Z)) ->
  exists mi m, scan_best better l (length pre) (bi, b) = (mi, m) /\
    (pre ++ l) !! mi = Some m /\
    forall j y, (pre ++ l) !! j = Some y ->
      (key m <= key y)%Z /\ (j < mi -> (key m < key y)%Z).
Proof.
  intros Hb. revert pre bi b. induction l as [|x l IH]; intros pre bi b Hbi Hmin; simpl.
  - rewrite app_nil_r. eauto.
  - replace (pre ++ x :: l) with ((pre ++ [x]) ++ l) by (by rewrite <- app_assoc).
    assert (Hlen : S (length pre) = length (pre ++ [x])) by (rewrite length_app; simpl; lia).
    rewrite Hlen. rewrite Hb. destruct (key x <? key b)%Z eqn:Hlt.
    + apply Z.ltb_lt in Hlt. apply IH.
      * by rewrite list_lookup_middle.
      * intros j y Hy. apply lookup_app_Some in Hy as [Hy|[Hj Hy]].
        -- apply lookup_lt_Some in Hy as Hj. destruct (Hmin _ _ Hy). lia.
        -- apply list_lookup_singleton_Some in Hy as [? ->]. lia.
    + apply Z.ltb_ge in Hlt. apply IH.
      * by apply lookup_app_l_Some.
      * intros j y Hy. apply lookup_lt_Some in Hbi as Hb'.
        apply lookup_app_Some in Hy as [Hy|[Hj Hy]]; [by apply Hmin|].
        apply list_lookup_singleton_Some in Hy as [? ->]. lia.
Qed.

(** The selected element has the smallest key, and is the first such. *)
Lemma best_element_spec (better : A -> A -> bool) (key : A -> Z) (l : list A) mi m :
  (forall x c, better x c = (key x <? key c)%Z) ->
  best_element better l = Some (mi, m) ->
  l !! mi = Some m /\
  forall j y, l !! j = Some y -> (key m <= key y)%Z /\ (j < mi -> (key m < key y)%Z).
Proof.
  intros Hb. destruct l as [|x l]; [done|]. simpl. intros [= Heq].
  destruct (scan_best_spec better key l [x] 0 x Hb eq_refl) as (mi' & m' & Hs & ? & ?).
  - intros [|j] y Hy; simpl in Hy; [|done]. injection Hy as ->. lia.
  - simpl in Hs. rewrite Hs in Heq. by simplify_eq.
Qed.

Lemma min_element_spec (key : A -> Z) (l : list A) mi m :
  min_element (fun a b => (key a <? key b)%Z) l = Some (mi, m) ->
  l !! mi = Some m /\
  forall j y, l !! j = Some y -> (key m <= key y)%Z /\ (j < mi -> (key m < key y)%Z).
Proof. by apply best_element_spec. Qed.

Lemma max_element_spec (key : A -> Z) (l : list A) mi m :
  max_element (fun a b => (key a <? key b)%Z) l = Some (mi, m) ->
  l !! mi = Some m /\
  forall j y, l !! j = Some y -> (key y <= key m)%Z /\ (j < mi -> (key y < key m)%Z).
Proof.
  intros H. apply (best_element_spec _ (fun a => - key a)%Z) in H as [H1 H2].
  - split; [done|]. intros j y Hy. destruct (H2 j y Hy). split; intros; lia.
  - intros. destruct (key c <? key x)%Z eqn:E; symmetry;
      [apply Z.ltb_lt in E; apply Z.ltb_lt | apply Z.ltb_ge in E; apply Z.ltb_ge]; lia.
Qed.

Lemma best_element_None better (l : list A) : best_element better l = None <-> l = [].
Proof. by destruct l. Qed.
End Searches.

Lemma count_if_fmap {A B} (f : B -> A) p (l : list B) :
  count_if p (f <$> l) = count_if (fun x => p (f x)) l.
Proof. induction l as [|x l IH]; [done|]. rewrite fmap_cons. simpl. by rewrite IH. Qed.

(** ** Filters *)

Lemma filter_all {A} (P : A -> Prop) `{forall x, Decision (P x)} (l : list A) :
  (forall x, x ∈ l -> P x) -> filter P l = l.
Proof.
  induction l as [|x l IH]; intros Hl; [done|]. rewrite filter_cons, decide_True by set_solver.
  f_equal. apply IH. set_solver.
Qed.

Lemma filter_none {A} (P : A -> Prop) `{forall x, Decision (P x)} (l : list A) :
  (forall x, x ∈ l -> ~ P x) -> filter P l = [].
Proof.
  induction l as [|x l IH]; intros HP; [done|]. rewrite filter_cons_False by (apply HP; set_solver).
  apply IH. intros y Hy. apply HP. set_solver.
Qed.

Lemma filter_ext_in {A} (P Q : A -> Prop) `{forall x, Decision (P x)} `{forall x, Decision (Q x)} (l : list A) :
  (forall x, x ∈ l -> P x <-> Q x) -> filter P l = filter Q l.
Proof.
  induction l as [|x l IH]; intros HPQ; [done|]. rewrite !filter_cons, IH by (intros; apply HPQ; set_solver).
  pose proof (HPQ x ltac:(set_solver)). destruct (decide (P x)), (decide (Q x)); tauto.
Qed.

Lemma NoDup_fmap_filter {A B} (f : A -> B) (P : A -> Prop) `{forall x, Decision (P x)} (l : list A) :
  NoDup (f <$> l) -> NoDup (f <$> filter P l).
Proof.
  induction l as [|x l IH]; intros Hl; [done|]. inversion_clear Hl as [|?? Hx Hl'].
  rewrite filter_cons. case_decide; [|by apply IH]. simpl. constructor; [|by apply IH].
  intros (y & Hxy & [_ Hy]%list_elem_of_filter)%list_elem_of_fmap. apply Hx.
  rewrite Hxy. apply list_elem_of_fmap. eauto.
Qed.

Lemma NoDup_fmap_eq {A B} (f : A -> B) (l : list A) x y :
  NoDup (f <$> l) -> x ∈ l -> y ∈ l -> f x = f y -> x = y.
Proof.
  induction l as [|z l IH]; intros Hl Hx Hy E; [set_solver|]. inversion_clear Hl as [|?? Hz Hl'].
  apply elem_of_cons in Hx as [->|Hx], Hy as [->|Hy]; try done; [..|by apply IH];
    exfalso; apply Hz; apply list_elem_of_fmap; eauto.
Qed.

(** ** Byte strings

    [std::string] and [std::string_view] are lists of bytes. *)

Abbreviation bytes := (list ascii).

Definition bytes_of (s : string) : bytes := String.list_ascii_of_string s.

Definition byte_val (c : ascii) : Z := Z.of_N (N_of_ascii c).

Lemma byte_val_range c : (0 <= byte_val c < 256)%Z.
Proof. unfold byte_val. pose proof (N_ascii_bounded c). lia. Qed.

Section Substrings.
Context {A : Type} `{EqDecision A}.

(** [text.compare(0, pre.size(), pre) == 0] with the length test. *)
Fixpoint starts_with (pre text : list A) : bool :=
  match pre, text with
  | [], _ => true
  | _ :: _, [] => false
  | p :: pre', t :: text' => bool_decide (p = t) && starts_with pre' text'
  end.

(** [std::string::find]: the first position at which [needle] occurs. *)
Fixpoint find_sub (needle text : list A) : option nat :=
  if starts_with needle text then Some 0
  else match text with
       | [] => None
       | _ :: text' => S <$> find_sub needle text'
       end.

Lemma starts_with_spec (pre text : list A) :
  starts_with pre text = true <-> exists rest, text = pre ++ rest.
Proof.
  revert text. induction pre as [|p pre IH]; intros text; simpl; [naive_solver|].
  destruct text as [|t text]; [naive_solver|].
  rewrite andb_true_iff, bool_decide_eq_true, IH. naive_solver.
Qed.

Lemma starts_with_length (pre text : list A) :
  starts_with pre text = true -> length pre <= length text.
Proof. intros [rest ->]%starts_with_spec. rewrite length_app. lia. Qed.

Lemma starts_with_app (pre text more : list A) :
  starts_with pre text = true -> starts_with pre (text ++ more) = true.
Proof.
  intros [rest ->]%starts_with_spec. apply starts_with_spec.
  exists (rest ++ more). by rewrite app_assoc.
Qed.

Lemma find_sub_Some (needle text : list A) i :
  find_sub needle text = Some i ->
  starts_with needle (drop i text) = true /\ i <= length text /\
  (forall j, j < i -> starts_with needle (drop j text) = false).
Proof.
  revert i. induction text as [|t text IH]; intros i; simpl.
  - destruct (starts_with needle []) eqn:E; [|done].
    intros [= <-]. simpl. split_and!; [done|lia|]. intros; lia.
  - destruct (starts_with needle (t :: text)) eqn:E.
    + intros [= <-]. simpl. split_and!; [done|lia|]. intros; lia.
    + rewrite fmap_Some. intros (k & Hk & ->). apply IH in Hk as (H1 & H2 & H3).
      split_and!; [done|lia|]. intros [|j] Hj; [done|]. simpl. apply H3. lia.
Qed.

Lemma find_sub_None (needle text : list A) :
  find_sub needle text = None -> forall j, starts_with needle (drop j text) = false.
Proof.
  induction text as [|t text IH]; simpl; intros H j.
  - rewrite drop_nil. by destruct (starts_with needle []).
  - destruct (starts_with needle (t :: text)) eqn:E; [done|].
    apply fmap_None in H. destruct j as [|j]; [done|]. simpl. by apply IH.
Qed.

(** Splitting at the first occurrence. *)
Lemma find_sub_split (needle text : list A) i :
  find_sub needle text = Some i ->
  text = take i text ++ needle ++ drop (i + length needle) text /\
  i + length needle <= length text.
Proof.
  intros (H & Hi & _)%find_sub_Some. apply starts_with_spec in H as [rest Hr].
  assert (Hd : drop (i + length needle) text = rest).
  { rewrite <- drop_drop, Hr. by rewrite drop_app_length. }
  split.
  - rewrite Hd, <- Hr. by rewrite take_drop.
  - apply (f_equal length) in Hr. rewrite length_app, length_drop in Hr. lia.
Qed.
(** A search past a prefix that the needle cannot start in. *)
Lemma find_sub_skip (c : A) needle s t : c ∉ s -> find_sub (c :: needle) (s ++ t) = Nat.add (length s) <$> find_sub (c :: needle) t.
Proof.
  induction s as [|x s IH]; intros Hc; [cbn [app length]; by destruct (find_sub _ t)|].
  apply not_elem_of_cons in Hc as [Hx Hs]. cbn [app find_sub starts_with]. rewrite bool_decide_eq_false_2 by done. cbn [andb].
  rewrite IH by done. by destruct (find_sub _ t).
Qed.

(** Searching for one character. *)
Lemma find_sub_char (c : A) a b : c ∉ a -> find_sub [c] (a ++ c :: b) = Some (length a).
Proof.
  induction a as [|x a IH]; intros Hc; cbn.
  - by rewrite bool_decide_eq_true_2.
  - apply not_elem_of_cons in Hc as [Hx Ha]. rewrite bool_decide_eq_false_2 by done. cbn. by rewrite IH.
Qed.

Lemma find_sub_char_None (c : A) s : find_sub [c] s = None <-> c ∉ s.
Proof.
  induction s as [|x s IH]; cbn; [split; [intros _; apply not_elem_of_nil|done]|].
  rewrite not_elem_of_cons, andb_true_r. case_bool_decide; [naive_solver|]. cbn. rewrite fmap_None. naive_solver.
Qed.

Lemma find_sub_char_Some (c : A) s i : find_sub [c] s = Some i <-> exists a b, s = a ++ c :: b /\ c ∉ a /\ i = length a.
Proof.
  split; [|intros (a & b & -> & Hc & ->); by apply find_sub_char].
  revert i. induction s as [|x s IH]; cbn; intros i Hi; [done|]. rewrite andb_true_r in Hi. case_bool_decide.
  - subst x. injection Hi as <-. exists [], s. split_and!; [done|apply not_elem_of_nil|done].
  - cbn in Hi. apply fmap_Some in Hi as (j & (a & b & -> & Ha & ->)%IH & ->). exists (x :: a), b.
    split_and!; [done| |done]. by apply not_elem_of_cons.
Qed.
End Substrings.

(** How often page [j] occurs in a vector of [int] ids. *)
Definition occurrences (j : nat) (ids : list Z) : nat :=
  count_if (fun z => bool_decide (z = Z.of_nat j)) ids.

Lemma occurrences_app j l k : occurrences j (l ++ k) = occurrences j l + occurrences j k.
Proof. apply count_if_app. Qed.

#[export] Instance count_if_perm {A} (p : A -> bool) : Proper ((≡ₚ) ==> (=)) (count_if p).
Proof. intros l k H. induction H; simpl; lia. Qed.

#[export] Instance occurrences_perm j : Proper ((≡ₚ) ==> (=)) (occurrences j).
Proof. apply count_if_perm. Qed.

(** ** Block pools

    What a client that owns block references (the radix prefix cache) relies
    on: releasing an id vector drops one reference per occurrence and keeps the
    set of pages.  [KVCache.v] provides the instance for [PagedKVCache]. *)

Class BlockPool (P : Type) := {
  pool_has : P -> nat -> bool;
  pool_refs : P -> nat -> Z;
  pool_release_blocks : P -> list Z -> P;
  pool_page_bytes : P -> nat }.

Class BlockPoolLaws (P : Type) `{BlockPool P} := {
  pool_release_has p ids j : pool_has (pool_release_blocks p ids) j = pool_has p j;
  pool_release_refs p ids j :
    pool_has p j = true ->
    pool_refs (pool_release_blocks p ids) j = (pool_refs p j - Z.of_nat (occurrences j ids))%Z }.
