(* ===== verification/KVCache.v ===== *)
(** * runtime/kv_cache: the paged KV cache

    [PagedKVCache] hands out fixed-size pages with reference counts, swaps
    pages to a host pool, and persists released or written pages through the
    asynchronous writer.  A 32-bit float is its bit pattern (a [Z] below 2^32),
    so [PersistPage]/[LoadPage] are the byte encodings the code reinterprets.
    Page and block ids are [int]s: the model takes them as [Z] and assumes the
    vectors are shorter than 2^31.  [std::move] of a vector leaves it empty. *)

From stdpp Require Import base tactics numbers list strings gmap pretty.
From Stdlib Require Import Ascii.
From S2P Require Import Prelude AsyncWriter.

Create HintDb kv.

(** ** State *)

Record KVPage := mkPage {
  data : list Z;
  in_use : bool;
  ref_count : Z;
  last_used : Z;
  dirty : bool }.

#[export] Instance page_eq_dec : EqDecision KVPage.
Proof. solve_decision. Defined.

Definition freshPage : KVPage := mkPage [] false 0 0 false.
#[export] Instance page_inhabited : Inhabited KVPage := populate freshPage.

Inductive EvictionPolicy := kLRU | kClock.

Record PagedKVCache := mkCache {
  page_size_bytes : nat;
  pages : list KVPage;
  host_blocks : list KVPage;
  offload_path : string;
  writer : option AsyncFileWriter;
  usage_counter : Z;
  eviction_policy : EvictionPolicy;
  clock_ref_bits : list bool;
  clock_hand : nat;
  writer_workers : nat;
  writer_queue_depth : nat;
  files : gmap string (list Z) (* the file system seen through the writer *) }.

Section Setters.
Implicit Types st : PagedKVCache.

Definition set_pages st ps := mkCache (page_size_bytes st) ps (host_blocks st)
  (offload_path st) (writer st) (usage_counter st) (eviction_policy st) (clock_ref_bits st)
  (clock_hand st) (writer_workers st) (writer_queue_depth st) (files st).
Definition set_host st hs := mkCache (page_size_bytes st) (pages st) hs
  (offload_path st) (writer st) (usage_counter st) (eviction_policy st) (clock_ref_bits st)
  (clock_hand st) (writer_workers st) (writer_queue_depth st) (files st).
Definition set_usage st u := mkCache (page_size_bytes st) (pages st) (host_blocks st)
  (offload_path st) (writer st) u (eviction_policy st) (clock_ref_bits st)
  (clock_hand st) (writer_workers st) (writer_queue_depth st) (files st).
Definition set_clock st hand bits := mkCache (page_size_bytes st) (pages st) (host_blocks st)
  (offload_path st) (writer st) (usage_counter st) (eviction_policy st) bits
  hand (writer_workers st) (writer_queue_depth st) (files st).
Definition set_io st path w fs := mkCache (page_size_bytes st) (pages st) (host_blocks st)
  path w (usage_counter st) (eviction_policy st) (clock_ref_bits st)
  (clock_hand st) (writer_workers st) (writer_queue_depth st) fs.
Definition set_writer_config st workers depth := mkCache (page_size_bytes st) (pages st)
  (host_blocks st) (offload_path st) (writer st) (usage_counter st) (eviction_policy st)
  (clock_ref_bits st) (clock_hand st) workers depth (files st).

Definition SetEvictionPolicy st policy := mkCache (page_size_bytes st) (pages st)
  (host_blocks st) (offload_path st) (writer st) (usage_counter st) policy (clock_ref_bits st)
  (clock_hand st) (writer_workers st) (writer_queue_depth st) (files st).

(** [usage_counter_++] *)
Definition tick st := set_usage st (u64 (usage_counter st + 1)).

(** [clock_ref_bits_[i] = b], guarded by its size test. *)
Definition set_ref_bit st (i : nat) (b : bool) :=
  set_clock st (clock_hand st) (<[i := b]> (clock_ref_bits st)).

Definition update_page st (i : nat) (f : KVPage -> KVPage) :=
  set_pages st (alter f i (pages st)).
End Setters.

Definition newCache (n size_bytes : nat) (policy : EvictionPolicy) : PagedKVCache :=
  mkCache size_bytes (replicate n freshPage) (replicate (n * 2) freshPage) EmptyString None 0
    policy (replicate n false) 0 1 256 ∅.

(** ** Victim selection *)

(** The bounded sweep of the clock hand; [None] after the loop bound. *)
Fixpoint clock_scan (fuel : nat) (ps : list KVPage) (hand : nat) (bits : list bool) :
    nat * list bool * option nat :=
  match fuel with
  | 0 => (hand, bits, None)
  | S fuel' =>
      let idx := if length ps <=? hand then 0 else hand in
      let hand' := (idx + 1) mod length ps in
      if in_use (ps !!! idx) then clock_scan fuel' ps hand' bits
      else if negb (bits !!! idx) then (hand', bits, Some idx)
      else clock_scan fuel' ps hand' (<[idx := false]> bits)
  end.

Fixpoint lru_scan (ps : list KVPage) (i : nat) (cand : option nat) (oldest : Z) : option nat :=
  match ps with
  | [] => cand
  | p :: ps' =>
      if negb (in_use p) && (last_used p <=? oldest)%Z
      then lru_scan ps' (S i) (Some i) (last_used p)
      else lru_scan ps' (S i) cand oldest
  end.

Definition uint64_max : Z := 2 ^ 64 - 1.

(** [-1] is [None]. *)
Definition SelectEvictionCandidate (st : PagedKVCache) : PagedKVCache * option nat :=
  match pages st with
  | [] => (st, None)
  | _ =>
      match eviction_policy st with
      | kClock =>
          let '(hand, bits, c) :=
            clock_scan (length (pages st) * 2) (pages st) (clock_hand st) (clock_ref_bits st) in
          let st' := set_clock st hand bits in
          match c with
          | Some i => (st', Some i)
          | None => (st', find_index (fun p => negb (in_use p)) (pages st))
          end
      | kLRU => (st, lru_scan (pages st) 0 None uint64_max)
      end
  end.

(** ** Persistence *)

Definition float_bytes (v : Z) : list Z :=
  [v mod 256; (v / 256) mod 256; (v / 65536) mod 256; (v / 16777216) mod 256]%Z.

Definition encode_floats (vs : list Z) : list Z := flat_map float_bytes vs.

Fixpoint decode_floats (bs : list Z) : list Z :=
  match bs with
  | b0 :: b1 :: b2 :: b3 :: bs' =>
      (b0 + 256 * b1 + 65536 * b2 + 16777216 * b3)%Z :: decode_floats bs'
  | _ => []
  end.

(** [std::filesystem::path(dir) / name]: one separator unless [dir] ends in it. *)
Definition path_join (dir name : string) : string :=
  match last (bytes_of dir) with
  | Some c => if bool_decide (c = "/"%char) then dir +:+ name else dir +:+ "/" +:+ name
  | None => name
  end.

Definition page_file (st : PagedKVCache) (page_id : nat) : string :=
  path_join (offload_path st) ("page_" +:+ pretty page_id +:+ ".bin").

Definition PersistPage (st : PagedKVCache) (page_id : nat) (values : list Z) : PagedKVCache :=
  if bool_decide (offload_path st = EmptyString) then st
  else
    let task := mkTask (page_file st page_id) (encode_floats values) in
    match writer st with
    | Some w =>
        match EnqueueWait w (files st) task with
        | Some (w', fs') => set_io st (offload_path st) (Some w') fs'
        | None => st (* the caller blocks; excluded by [kv_wf] *)
        end
    | None => set_io st (offload_path st) None (apply_task (files st) task)
    end.

Definition LoadPage (st : PagedKVCache) (page_id : nat) : list Z :=
  if bool_decide (offload_path st = EmptyString) then []
  else
    match files st !! page_file st page_id with
    | None => []
    | Some bs => if length bs mod 4 =? 0 then decode_floats bs else []
    end.

Definition SetOffloadPath (st : PagedKVCache) (p : string) : PagedKVCache :=
  if bool_decide (p = EmptyString) then
    match writer st with
    | Some w => let '(_, fs) := StopDrain w (files st) in set_io st p None fs
    | None => set_io st p None (files st)
    end
  else
    let w := default (newWriter (writer_queue_depth st)) (writer st) in
    let w := Configure w (writer_workers st) (writer_queue_depth st) in
    set_io st p (Some (Start w (writer_workers st))) (files st).

Definition ConfigureAsyncWriter (st : PagedKVCache) (workers queue_depth : nat) : PagedKVCache :=
  let workers := if workers =? 0 then 1 else workers in
  let queue_depth := if queue_depth =? 0 then 64 else queue_depth in
  let st := set_writer_config st workers queue_depth in
  match writer st with
  | Some w => set_io st (offload_path st)
      (Some (Start (Configure w workers queue_depth) workers)) (files st)
  | None => st
  end.

(** ** Reservation and reference counting *)

Definition page_floats (st : PagedKVCache) : nat := page_size_bytes st / 4.

Definition AcquirePageLocked (st : PagedKVCache) (candidate : nat) : PagedKVCache * Z :=
  let st1 := update_page st candidate (fun p =>
    mkPage (if length (data p) =? page_floats st then data p else replicate (page_floats st) 0%Z)
      true 1 (usage_counter st) false) in
  (set_ref_bit (tick st1) candidate true, Z.of_nat candidate).

#[global] Arguments AcquirePageLocked : simpl never.

Definition ReleasePageLocked (st : PagedKVCache) (page_id : Z) : PagedKVCache :=
  if in_range (pages st) page_id then
    let i := Z.to_nat page_id in
    let p := pages st !!! i in
    let st := update_page st i (fun p =>
      mkPage (data p) (in_use p) (ref_count p - 1) (last_used p) (dirty p)) in
    if (0 <? ref_count p - 1)%Z then st
    else
      let st :=
        if negb (bool_decide (offload_path st = EmptyString)) &&
           negb (bool_decide (data p = [])) && dirty p
        then PersistPage st i (data p) else st in
      let st := update_page st i (fun p => mkPage [] false (ref_count p) (last_used p) false) in
      set_ref_bit st i false
  else st.

Definition ReservePage (st : PagedKVCache) : PagedKVCache * outcome Z :=
  match SelectEvictionCandidate st with
  | (st, None) => (st, Throw (runtime_error "KV cache exhausted"))
  | (st, Some c) => let '(st, id) := AcquirePageLocked st c in (st, Ret id)
  end.

(** The roll-back of a failed multi-block reservation. *)
Definition unreserve (st : PagedKVCache) (reserved : list Z) : PagedKVCache :=
  foldl (fun st id => update_page st (Z.to_nat id) (fun p =>
    mkPage (data p) false (ref_count p) (last_used p) (dirty p))) st reserved.

Fixpoint reserve_loop (n : nat) (st : PagedKVCache) (reserved : list Z) :
    PagedKVCache * outcome (list Z) :=
  match n with
  | 0 => (st, Ret reserved)
  | S n' =>
      match SelectEvictionCandidate st with
      | (st, None) =>
          (unreserve st reserved,
           Throw (runtime_error "KV cache exhausted during multi-block allocation"))
      | (st, Some c) => let '(st, id) := AcquirePageLocked st c in
                        reserve_loop n' st (reserved ++ [id])
      end
  end.

Definition ReserveBlocks (st : PagedKVCache) (n : nat) : PagedKVCache * outcome (list Z) :=
  reserve_loop n st [].

Definition ReleasePage (st : PagedKVCache) (page_id : Z) : PagedKVCache :=
  ReleasePageLocked st page_id.

Definition ReleaseBlocks (st : PagedKVCache) (blocks : list Z) : PagedKVCache :=
  foldl ReleasePageLocked st blocks.

Definition ReleaseBlocksRef (st : PagedKVCache) (blocks : list Z) : PagedKVCache :=
  ReleaseBlocks st blocks.

Definition acquire_ref (st : PagedKVCache) (page_id : Z) : PagedKVCache :=
  if in_range (pages st) page_id then
    update_page st (Z.to_nat page_id) (fun p =>
      mkPage (data p) (in_use p) (ref_count p + 1) (last_used p) (dirty p))
  else st.

Definition AcquireBlocks (st : PagedKVCache) (blocks : list Z) : PagedKVCache :=
  foldl acquire_ref st blocks.

(** ** Access *)

Definition Write (st : PagedKVCache) (page_id : Z) (values : list Z) :
    PagedKVCache * outcome unit :=
  if in_range (pages st) page_id then
    let i := Z.to_nat page_id in
    let st1 := update_page st i (fun p =>
      mkPage values (in_use p) (ref_count p) (usage_counter st) true) in
    let st2 := set_ref_bit (tick st1) i true in
    ((if bool_decide (offload_path st2 = EmptyString) then st2 else PersistPage st2 i values),
     Ret tt)
  else (st, Throw (out_of_range "invalid page id")).

Definition Read (st : PagedKVCache) (page_id : Z) : PagedKVCache * outcome (list Z) :=
  if in_range (pages st) page_id then
    let i := Z.to_nat page_id in
    let d := data (pages st !!! i) in
    let d' := if bool_decide (d = []) && negb (bool_decide (offload_path st = EmptyString))
              then LoadPage st i else d in
    let st1 := update_page st i (fun p =>
      mkPage d' (in_use p) (ref_count p) (usage_counter st) (dirty p)) in
    (set_ref_bit (tick st1) i true, Ret d')
  else (st, Throw (out_of_range "invalid page id")).

(** ** Swapping *)

Fixpoint swap_out_loop (blocks : list Z) (st : PagedKVCache) (handles : list Z) :
    PagedKVCache * outcome (list Z) :=
  match blocks with
  | [] => (st, Ret handles)
  | page_id :: rest =>
      if in_range (pages st) page_id then
        match find_index (fun b => negb (in_use b)) (host_blocks st) with
        | None => (st, Throw (runtime_error "Host KV block pool exhausted during SwapOut"))
        | Some h =>
            let i := Z.to_nat page_id in
            let d := data (pages st !!! i) in
            let st1 := set_host st (alter (fun b =>
              mkPage d true (ref_count b) (usage_counter st) (dirty b)) h (host_blocks st)) in
            let st2 := update_page (tick st1) i (fun p =>
              mkPage [] false (ref_count p) (last_used p) false) in
            swap_out_loop rest (set_ref_bit st2 i false) (handles ++ [Z.of_nat h])
        end
      else swap_out_loop rest st handles
  end.

Definition SwapOut (st : PagedKVCache) (blocks : list Z) : PagedKVCache * outcome (list Z) :=
  swap_out_loop blocks st [].

Definition swap_in_one (st : PagedKVCache) (hp : Z * Z) : PagedKVCache :=
  let '(host_idx, page_id) := hp in
  if in_range (host_blocks st) host_idx && in_range (pages st) page_id then
    let h := Z.to_nat host_idx in
    let i := Z.to_nat page_id in
    let d := data (host_blocks st !!! h) in
    let st1 := update_page st i (fun p => mkPage d true (ref_count p) (usage_counter st) true) in
    set_host (tick st1) (alter (fun b =>
      mkPage [] false (ref_count b) (last_used b) (dirty b)) h (host_blocks st))
  else st.

Definition SwapIn (st : PagedKVCache) (host_handles target_blocks : list Z) :
    PagedKVCache * outcome unit :=
  if length host_handles =? length target_blocks then
    (foldl swap_in_one st (zip host_handles target_blocks), Ret tt)
  else (st, Throw (invalid_argument "SwapIn: handles and targets size mismatch")).

(** ** Accounting *)

Definition is_free (p : KVPage) : bool := negb (in_use p).

Definition NumAvailableHostBlocks (st : PagedKVCache) : nat := count_if is_free (host_blocks st).
Definition NumFreeBlocks (st : PagedKVCache) : nat := count_if is_free (pages st).

Record UsageSnapshot := mkSnapshot {
  total_blocks : nat; used_blocks : nat; free_blocks : nat; snapshot_page_bytes : nat }.

Definition total_bytes (s : UsageSnapshot) : nat := total_blocks s * snapshot_page_bytes s.
Definition used_bytes (s : UsageSnapshot) : nat := used_blocks s * snapshot_page_bytes s.
Definition free_bytes (s : UsageSnapshot) : nat := free_blocks s * snapshot_page_bytes s.

Definition GetUsageSnapshot (st : PagedKVCache) : UsageSnapshot :=
  let used := count_if in_use (pages st) in
  mkSnapshot (length (pages st)) used (length (pages st) - used) (page_size_bytes st).

(** ** Well-formedness *)

Definition stamped (p : KVPage) : Prop := (0 <= last_used p <= uint64_max)%Z.

Definition writer_live (w : AsyncFileWriter) : Prop :=
  running w = true /\ stop w = false /\ 0 < workers w /\ 0 < max_queue_depth w.

(** The writer exists exactly while an offload directory is set, and is then
    running, so the synchronous branch of [PersistPage] is dead and its callers
    never block forever. *)
Definition io_wf (st : PagedKVCache) : Prop :=
  match writer st with
  | None => offload_path st = EmptyString
  | Some w => offload_path st <> EmptyString /\ writer_live w
  end.

Record kv_wf (st : PagedKVCache) : Prop := {
  wf_bits : length (clock_ref_bits st) = length (pages st);
  wf_host : length (host_blocks st) = length (pages st) * 2;
  wf_usage : (0 <= usage_counter st <= uint64_max)%Z;
  wf_stamps : Forall stamped (pages st);
  wf_workers : 0 < writer_workers st;
  wf_depth : 0 < writer_queue_depth st;
  wf_io : io_wf st }.

Lemma u64_stamp z : (0 <= u64 z <= uint64_max)%Z.
Proof. pose proof (u64_range z). unfold uint64_max. lia. Qed.
#[export] Hint Resolve u64_stamp : kv.

(** *** Shape lemmas: which fields an operation touches *)

Lemma PersistPage_io st i v :
  exists w fs, PersistPage st i v = set_io st (offload_path st) w fs.
Proof.
  unfold PersistPage. destruct (bool_decide _).
  - exists (writer st), (files st). by destruct st.
  - destruct (writer st) as [w|] eqn:Hw; [|eauto].
    destruct (EnqueueWait w (files st) _) as [[w' fs']|]; [eauto|].
    exists (writer st), (files st). by destruct st.
Qed.

Lemma Enqueue_live w t : writer_live w -> writer_live (Enqueue w t).
Proof.
  intros (Hr & Hs & Hw & Hd). unfold Enqueue. rewrite Hs, Hr. split_and!; simpl; done.
Qed.

Lemma EnqueueWait_live w d t :
  writer_live w -> exists w' d', EnqueueWait w d t = Some (w', d') /\ writer_live w'.
Proof.
  intros Hl. pose proof Hl as (Hr & Hs & Hw & Hd). unfold EnqueueWait. rewrite Hs.
  rewrite drain_spec. set (g := _ || _). assert (g = true) as ->.
  { unfold g. apply orb_true_iff. right. apply andb_true_iff. split.
    - apply negb_true_iff, Nat.eqb_neq. lia.
    - by apply Nat.ltb_lt. }
  do 2 eexists. split; [done|]. apply Enqueue_live. done.
Qed.

Lemma PersistPage_io_wf st i v : io_wf st -> io_wf (PersistPage st i v).
Proof.
  intros Hio. unfold PersistPage. case_bool_decide; [done|].
  unfold io_wf in Hio. destruct (writer st) as [w|] eqn:Hw; [|done].
  destruct Hio as [Hp Hl].
  destruct (EnqueueWait_live w (files st) (mkTask (page_file st i) (encode_floats v)) Hl)
    as (w' & d' & -> & Hl'). done.
Qed.

Lemma PersistPage_wf st i v : kv_wf st -> kv_wf (PersistPage st i v).
Proof.
  intros Hwf. pose proof (PersistPage_io_wf st i v (wf_io _ Hwf)) as Hio.
  destruct (PersistPage_io st i v) as (w & fs & E). rewrite E in *.
  destruct Hwf. by constructor.
Qed.

(** What one [ReleasePageLocked] does to its page. *)
Definition release_page (p : KVPage) : KVPage :=
  if (0 <? ref_count p - 1)%Z
  then mkPage (data p) (in_use p) (ref_count p - 1) (last_used p) (dirty p)
  else mkPage [] false (ref_count p - 1) (last_used p) false.

Lemma ReleasePageLocked_pages st id :
  pages (ReleasePageLocked st id) =
  if in_range (pages st) id then alter release_page (Z.to_nat id) (pages st) else pages st.
Proof.
  unfold ReleasePageLocked. destruct (in_range (pages st) id) eqn:Hr; [|done].
  destruct (in_range_lookup _ _ Hr) as [p Hp].
  assert (Htot : pages st !!! Z.to_nat id = p) by by apply list_lookup_total_correct.
  rewrite Htot. set (st1 := update_page _ _ _).
  assert (H1 : pages st1 = alter (fun p => mkPage (data p) (in_use p) (ref_count p - 1)
     (last_used p) (dirty p)) (Z.to_nat id) (pages st)) by done.
  assert (Halt : forall f g, f p = g p ->
     alter f (Z.to_nat id) (pages st) = alter g (Z.to_nat id) (pages st)).
  { intros f g Hfg. apply list_alter_ext; [|done]. intros x Hx. simplify_eq. done. }
  destruct (0 <? ref_count p - 1)%Z eqn:Hpos.
  - rewrite H1. apply Halt. unfold release_page. by rewrite Hpos.
  - assert (Hp2 : forall st2, pages st2 = pages st1 ->
      pages (set_ref_bit (update_page st2 (Z.to_nat id) (fun p =>
        mkPage [] false (ref_count p) (last_used p) false)) (Z.to_nat id) false) =
      alter release_page (Z.to_nat id) (pages st)).
    { intros st2 E. simpl. rewrite E, H1, list_alter_alter_eq. apply Halt.
      unfold release_page; simpl. by rewrite Hpos. }
    apply Hp2. destruct (_ && _ && _); [|done].
    destruct (PersistPage_io st1 (Z.to_nat id) (data p)) as (w & fs & ->). done.
Qed.

Lemma AcquirePageLocked_pages st c :
  pages (AcquirePageLocked st c).1 =
  alter (fun p => mkPage (if length (data p) =? page_floats st then data p
                          else replicate (page_floats st) 0%Z)
                   true 1 (usage_counter st) false) c (pages st).
Proof. done. Qed.

(** *** Victim selection *)

Lemma clock_scan_spec fuel ps hand bits hand' bits' c :
  ps <> [] -> clock_scan fuel ps hand bits = (hand', bits', c) ->
  length bits' = length bits /\
  forall i, c = Some i -> exists p, ps !! i = Some p /\ in_use p = false.
Proof.
  intros Hne. revert hand bits. induction fuel as [|fuel IH]; intros hand bits Hs;
    simpl in Hs; [by simplify_eq|].
  set (idx := if length ps <=? hand then 0 else hand) in *.
  assert (Hidx : idx < length ps).
  { unfold idx. destruct (Nat.leb_spec (length ps) hand); [|done].
    destruct ps; simpl; [done|lia]. }
  destruct (in_use (ps !!! idx)) eqn:Hu; [by apply IH in Hs|].
  destruct (negb (bits !!! idx)); [|apply IH in Hs; by rewrite length_insert in Hs].
  simplify_eq. split; [done|]. intros i [= <-].
  exists (ps !!! idx). split; [by apply list_lookup_lookup_total_lt|done].
Qed.

(** Result of a scan over the pages [pre ++ ps] whose prefix is summarised by
    [cand]/[oldest]. *)
Definition lru_best (ps : list KVPage) (cand : option nat) (oldest : Z) : Prop :=
  match cand with
  | None => oldest = uint64_max /\ Forall (fun p => in_use p = true) ps
  | Some i => exists p, ps !! i = Some p /\ in_use p = false /\ last_used p = oldest /\
      forall j q, ps !! j = Some q -> in_use q = false ->
        (oldest <= last_used q)%Z /\ (i < j -> (oldest < last_used q)%Z)
  end.

Lemma lru_best_snoc pre p cand oldest :
  stamped p -> lru_best pre cand oldest ->
  if negb (in_use p) && (last_used p <=? oldest)%Z
  then lru_best (pre ++ [p]) (Some (length pre)) (last_used p)
  else lru_best (pre ++ [p]) cand oldest.
Proof.
  intros [Hlo Hhi] Hb. destruct (in_use p) eqn:Hu; simpl.
  - destruct cand as [i|]; simpl in *.
    + destruct Hb as (q & Hq & Hqu & Hql & Hmin). exists q.
      split_and!; [by apply lookup_app_l_Some|done..|]. intros j r Hr Hru.
      apply lookup_app_Some in Hr as [Hr|[_ Hr]]; [by apply Hmin|].
      apply list_lookup_singleton_Some in Hr as [_ ->]. congruence.
    + destruct Hb as [-> Hall]. split; [done|]. apply Forall_app. auto.
  - destruct (Z.leb_spec (last_used p) oldest) as [Hle|Hgt].
    + exists p. split_and!; [by rewrite list_lookup_middle|done..|]. intros j q Hq Hqu.
      apply lookup_app_Some in Hq as [Hq|[Hge Hq]].
      * destruct cand as [i|]; simpl in Hb.
        -- destruct Hb as (r & ? & ? & ? & Hmin). destruct (Hmin _ _ Hq Hqu).
           apply lookup_lt_Some in Hq. lia.
        -- destruct Hb as [_ Hall]. rewrite Forall_lookup in Hall.
           specialize (Hall _ _ Hq). congruence.
      * apply list_lookup_singleton_Some in Hq as [? ->]. lia.
    + destruct cand as [i|]; simpl in *.
      * destruct Hb as (r & Hr & Hru & Hrl & Hmin). exists r.
        split_and!; [by apply lookup_app_l_Some|done..|]. intros j q Hq Hqu.
        apply lookup_app_Some in Hq as [Hq|[Hge Hq]]; [by apply Hmin|].
        apply list_lookup_singleton_Some in Hq as [? ->]. lia.
      * destruct Hb as [-> _]. lia.
Qed.

Lemma lru_scan_spec ps pre cand oldest :
  Forall stamped ps -> lru_best pre cand oldest ->
  exists oldest', lru_best (pre ++ ps) (lru_scan ps (length pre) cand oldest) oldest'.
Proof.
  revert pre cand oldest. induction ps as [|p ps IH]; intros pre cand oldest Hst Hb; simpl.
  - rewrite app_nil_r. eauto.
  - inversion_clear Hst as [|?? Hp Hps]. pose proof (lru_best_snoc _ _ _ _ Hp Hb) as Hs.
    replace (pre ++ p :: ps) with ((pre ++ [p]) ++ ps) by (by rewrite <- app_assoc).
    replace (S (length pre)) with (length (pre ++ [p])) by (rewrite length_app; simpl; lia).
    destruct (negb (in_use p) && _); by apply IH.
Qed.

Lemma free_zero ps : count_if is_free ps = 0 <-> Forall (fun p => in_use p = true) ps.
Proof.
  rewrite count_if_zero. apply Forall_proper; [|done]. intros p.
  unfold is_free. by destruct (in_use p).
Qed.

(** Both policies find a page exactly when one is free, and only free pages. *)
Lemma SelectEvictionCandidate_spec st st' c :
  kv_wf st -> SelectEvictionCandidate st = (st', c) ->
  pages st' = pages st /\ (c = None <-> NumFreeBlocks st = 0) /\
  (forall i, c = Some i -> exists p, pages st !! i = Some p /\ in_use p = false) /\
  kv_wf st' /\ usage_counter st' = usage_counter st /\ host_blocks st' = host_blocks st /\
  page_size_bytes st' = page_size_bytes st.
Proof.
  intros Hwf. unfold SelectEvictionCandidate, NumFreeBlocks. rewrite free_zero.
  destruct (pages st) as [|p0 ps0] eqn:Hps.
  - intros [= <- <-]. rewrite Hps. split_and!; done || naive_solver.
  - assert (Hne : pages st <> []) by congruence. rewrite <- !Hps. clear Hps p0 ps0.
    destruct (eviction_policy st).
    + intros [= <- <-]. split; [done|].
      destruct (lru_scan_spec (pages st) [] None uint64_max) as [o Ho];
        [apply (wf_stamps _ Hwf)|split; [done|constructor]|]. 
      simpl in Ho |- *. destruct (lru_scan _ _ _ _) as [i|]; simpl in Ho.
      * destruct Ho as (q & Hq & Hqu & _ & _). split_and!; try done.
        -- split; [done|]. intros Hall. rewrite Forall_lookup in Hall.
           specialize (Hall _ _ Hq). congruence.
        -- intros ? [= <-]. eauto.
      * destruct Ho as [_ Hall]. split_and!; done.
    + destruct (clock_scan _ _ _ _) as [[hand bits] c0] eqn:Hs.
      apply clock_scan_spec in Hs as [Hlen Hfree]; [|done].
      assert (Hwf' : kv_wf (set_clock st hand bits)).
      { destruct Hwf. constructor; simpl; try done. congruence. }
      destruct c0 as [i|]; intros [= <- <-]; (split; [done|]); split_and!; try done.
      * destruct (Hfree _ eq_refl) as (q & Hq & Hqu). split; [done|]. intros Hall.
        rewrite Forall_lookup in Hall. specialize (Hall _ _ Hq). congruence.
      * rewrite find_index_None. apply Forall_proper; [|done]. intros q.
        by destruct (in_use q).
      * intros i [(q & Hq & Hqu) _]%find_index_Some. exists q. split; [done|].
        by destruct (in_use q).
Qed.

(** *** Preservation of [kv_wf] *)

Lemma update_page_wf st i f :
  kv_wf st -> (forall p, stamped p -> stamped (f p)) -> kv_wf (update_page st i f).
Proof.
  intros [] Hf. constructor; simpl; rewrite ?length_alter; try done.
  apply Forall_alter; auto.
Qed.

Lemma tick_wf st : kv_wf st -> kv_wf (tick st).
Proof. intros []. constructor; simpl; try done. apply u64_stamp. Qed.

Lemma set_ref_bit_wf st i b : kv_wf st -> kv_wf (set_ref_bit st i b).
Proof. intros []. constructor; simpl; try done. by rewrite length_insert. Qed.

Lemma set_host_wf st i f : kv_wf st -> kv_wf (set_host st (alter f i (host_blocks st))).
Proof. intros []. constructor; simpl; try done. by rewrite length_alter. Qed.

#[export] Hint Resolve update_page_wf tick_wf set_ref_bit_wf set_host_wf PersistPage_wf : kv.

Lemma stamped_usage st d u r x : kv_wf st -> stamped (mkPage d u r (usage_counter st) x).
Proof. intros []. done. Qed.
#[export] Hint Resolve stamped_usage : kv.

Lemma AcquirePageLocked_wf st c : kv_wf st -> kv_wf (AcquirePageLocked st c).1.
Proof. intros Hwf. apply set_ref_bit_wf, tick_wf, update_page_wf; auto with kv. Qed.

Lemma ReleasePageLocked_wf st id : kv_wf st -> kv_wf (ReleasePageLocked st id).
Proof.
  intros Hwf. unfold ReleasePageLocked. destruct (in_range _ _); [|done].
  set (st1 := update_page st _ _). assert (kv_wf st1) by (apply update_page_wf; auto).
  destruct (_ <? _)%Z; [done|]. apply set_ref_bit_wf, update_page_wf; [|done].
  destruct (_ && _ && _); auto with kv.
Qed.

Lemma foldl_wf {A} (f : PagedKVCache -> A -> PagedKVCache) l st :
  (forall st a, kv_wf st -> kv_wf (f st a)) -> kv_wf st -> kv_wf (foldl f st l).
Proof. intros Hf. revert st. induction l; simpl; auto. Qed.

Lemma reserve_loop_wf n st res : kv_wf st -> kv_wf (reserve_loop n st res).1.
Proof.
  revert st res. induction n as [|n IH]; intros st res Hwf; simpl; [done|].
  destruct (SelectEvictionCandidate st) as [st1 [c|]] eqn:Hs;
    apply SelectEvictionCandidate_spec in Hs as (_ & _ & _ & Hwf1 & _); try done.
  - apply IH. by apply (AcquirePageLocked_wf st1 c).
  - apply foldl_wf; [|done]. intros. by apply update_page_wf.
Qed.

Lemma swap_out_loop_wf bs st hs : kv_wf st -> kv_wf (swap_out_loop bs st hs).1.
Proof.
  revert st hs. induction bs as [|b bs IH]; intros st hs Hwf; simpl; [done|].
  destruct (in_range _ _); [|by apply IH]. destruct (find_index _ _) as [h|]; [|done].
  apply IH. apply set_ref_bit_wf, update_page_wf; [|done]. auto with kv.
Qed.

Lemma swap_in_one_wf st hp : kv_wf st -> kv_wf (swap_in_one st hp).
Proof.
  intros Hwf. destruct hp as [h i]. unfold swap_in_one. destruct (_ && _); [|done].
  apply (set_host_wf (tick (update_page st (Z.to_nat i) _))).
  apply tick_wf, update_page_wf; auto with kv.
Qed.

Lemma Configure_Start_live w n d m :
  writer_live w \/ (running w = false /\ workers w = 0) ->
  0 < d -> writer_live (Start (Configure w n d) m).
Proof.
  intros Hw Hd. unfold Start, Configure; simpl.
  rewrite (proj2 (Nat.ltb_lt 0 d)) by done.
  destruct Hw as [(Hr & Hs & Hk & Hq)|[Hr Hk]]; rewrite Hr; simpl; [done|].
  split_and!; simpl; try done. rewrite Hk.
  destruct (m =? 0) eqn:Em; simpl; [|apply Nat.eqb_neq in Em; rewrite (proj2 (Nat.eqb_neq m 0)); lia].
  destruct (n =? 0) eqn:En; simpl; [lia|]. rewrite En. apply Nat.eqb_neq in En. lia.
Qed.

Lemma SetOffloadPath_wf st p : kv_wf st -> kv_wf (SetOffloadPath st p).
Proof.
  intros Hwf. pose proof (wf_io _ Hwf) as Hio. pose proof (wf_depth _ Hwf) as Hdep.
  unfold SetOffloadPath. case_bool_decide as Hp.
  - destruct (writer st); [destruct (StopDrain _ _)|]; destruct Hwf; by constructor.
  - assert (writer_live (Start (Configure (default (newWriter (writer_queue_depth st)) (writer st))
        (writer_workers st) (writer_queue_depth st)) (writer_workers st))).
    { apply Configure_Start_live; [|done]. unfold io_wf in Hio.
      destruct (writer st); simpl; [left|right]; naive_solver. }
    destruct Hwf. by constructor.
Qed.

Lemma ConfigureAsyncWriter_wf st n d : kv_wf st -> kv_wf (ConfigureAsyncWriter st n d).
Proof.
  intros Hwf. pose proof (wf_io _ Hwf) as Hio. unfold ConfigureAsyncWriter.
  set (n' := if n =? 0 then 1 else n). set (d' := if d =? 0 then 64 else d).
  assert (0 < n') by (unfold n'; destruct (Nat.eqb_spec n 0); lia).
  assert (0 < d') by (unfold d'; destruct (Nat.eqb_spec d 0); lia). simpl.
  unfold io_wf in Hio. destruct (writer st) as [w|] eqn:Hw.
  - destruct Hwf. constructor; simpl; try done. unfold io_wf; simpl.
    split; [naive_solver|]. apply Configure_Start_live; [left; naive_solver|done].
  - destruct Hwf. constructor; simpl; try done.
Qed.

(** ** The cache as a state machine *)

Inductive kv_op :=
  | OpReservePage | OpReserveBlocks (n : nat)
  | OpReleasePage (id : Z) | OpReleaseBlocks (ids : list Z) | OpReleaseBlocksRef (ids : list Z)
  | OpAcquireBlocks (ids : list Z)
  | OpWrite (id : Z) (values : list Z) | OpRead (id : Z)
  | OpSwapOut (ids : list Z) | OpSwapIn (handles targets : list Z)
  | OpSetOffloadPath (p : string) | OpSetEvictionPolicy (policy : EvictionPolicy)
  | OpConfigureAsyncWriter (workers depth : nat).

Definition kv_exec (op : kv_op) (st : PagedKVCache) : PagedKVCache :=
  match op with
  | OpReservePage => (ReservePage st).1
  | OpReserveBlocks n => (ReserveBlocks st n).1
  | OpReleasePage id => ReleasePage st id
  | OpReleaseBlocks ids => ReleaseBlocks st ids
  | OpReleaseBlocksRef ids => ReleaseBlocksRef st ids
  | OpAcquireBlocks ids => AcquireBlocks st ids
  | OpWrite id vs => (Write st id vs).1
  | OpRead id => (Read st id).1
  | OpSwapOut ids => (SwapOut st ids).1
  | OpSwapIn hs ts => (SwapIn st hs ts).1
  | OpSetOffloadPath p => SetOffloadPath st p
  | OpSetEvictionPolicy p => SetEvictionPolicy st p
  | OpConfigureAsyncWriter n d => ConfigureAsyncWriter st n d
  end.

Inductive kv_reachable (n size_bytes : nat) (policy : EvictionPolicy) : PagedKVCache -> Prop :=
  | kv_init : kv_reachable n size_bytes policy (newCache n size_bytes policy)
  | kv_step st op :
      kv_reachable n size_bytes policy st -> kv_reachable n size_bytes policy (kv_exec op st).

Lemma newCache_wf n b p : kv_wf (newCache n b p).
Proof.
  constructor; simpl; rewrite ?length_replicate; try done || lia.
  apply Forall_replicate. done.
Qed.

Lemma kv_exec_wf op st : kv_wf st -> kv_wf (kv_exec op st).
Proof.
  intros Hwf. destruct op; simpl.
  - unfold ReservePage. destruct (SelectEvictionCandidate st) as [st1 [c|]] eqn:Hs;
      apply SelectEvictionCandidate_spec in Hs as (_ & _ & _ & Hwf1 & _); try done.
    by apply (AcquirePageLocked_wf st1 c).
  - by apply reserve_loop_wf.
  - by apply ReleasePageLocked_wf.
  - by apply foldl_wf; [apply ReleasePageLocked_wf|].
  - by apply foldl_wf; [apply ReleasePageLocked_wf|].
  - apply foldl_wf; [|done]. intros st' id H. unfold acquire_ref.
    destruct (in_range _ _); [|done]. by apply update_page_wf.
  - unfold Write. destruct (in_range _ _); [|done]. simpl.
    set (st2 := set_ref_bit _ _ _).
    assert (kv_wf st2) by (apply set_ref_bit_wf, tick_wf, update_page_wf; auto with kv).
    destruct (bool_decide _); auto with kv.
  - unfold Read. destruct (in_range _ _); [|done]. simpl.
    apply set_ref_bit_wf, tick_wf, update_page_wf; auto with kv.
  - by apply swap_out_loop_wf.
  - unfold SwapIn. destruct (_ =? _); [|done]. simpl. apply foldl_wf; [apply swap_in_one_wf|done].
  - by apply SetOffloadPath_wf.
  - destruct Hwf. by constructor.
  - by apply ConfigureAsyncWriter_wf.
Qed.

(** ** Reservation *)

Definition page_free (st : PagedKVCache) (i : nat) : Prop :=
  exists p, pages st !! i = Some p /\ in_use p = false.

Definition page_owned_once (st : PagedKVCache) (i : nat) : Prop :=
  exists p, pages st !! i = Some p /\ in_use p = true /\ ref_count p = 1%Z.

Lemma count_free_alter ps i p f :
  ps !! i = Some p -> in_use p = false -> in_use (f p) = true ->
  count_if is_free ps = S (count_if is_free (alter f i ps)).
Proof.
  intros Hp Hu Hf.
  assert (E : alter f i ps = <[i := f p]> ps).
  { apply list_eq. intros j. destruct (decide (i = j)) as [<-|].
    - rewrite list_lookup_alter_eq, list_lookup_insert_eq by (by eapply lookup_lt_Some).
      by rewrite Hp.
    - by rewrite list_lookup_alter_ne, list_lookup_insert_ne. }
  rewrite E. pose proof (count_if_insert is_free ps i p (f p) Hp) as Hc.
  unfold is_free in Hc at 2 4. rewrite Hu, Hf in Hc. simpl in Hc. lia.
Qed.

(** One iteration of the reservation loop that found a candidate. *)
Lemma acquire_step st st1 c :
  kv_wf st -> SelectEvictionCandidate st = (st1, Some c) ->
  let st2 := (AcquirePageLocked st1 c).1 in
  kv_wf st2 /\ page_free st c /\ page_owned_once st2 c /\
  (forall j, j <> c -> pages st2 !! j = pages st !! j) /\
  NumFreeBlocks st = S (NumFreeBlocks st2).
Proof.
  intros Hwf Hs st2. apply SelectEvictionCandidate_spec in Hs as (Hp & _ & Hfree & Hwf1 & _); [|done].
  destruct (Hfree _ eq_refl) as (p & Hc & Hu).
  split_and!.
  - by apply AcquirePageLocked_wf.
  - by exists p.
  - eexists. unfold st2. rewrite AcquirePageLocked_pages, Hp, list_lookup_alter_eq, Hc. done.
  - intros j Hj. unfold st2. rewrite AcquirePageLocked_pages, Hp. by rewrite list_lookup_alter_ne.
  - unfold NumFreeBlocks, st2. rewrite AcquirePageLocked_pages, Hp. by eapply count_free_alter.
Qed.

Lemma reserve_loop_success n st res :
  kv_wf st -> n <= NumFreeBlocks st ->
  exists st' new, reserve_loop n st res = (st', Ret (res ++ (Z.of_nat <$> new))) /\
    length new = n /\ NoDup new /\
    (forall i, i ∈ new -> page_free st i /\ page_owned_once st' i) /\
    (forall j, j ∉ new -> pages st' !! j = pages st !! j) /\
    NumFreeBlocks st = NumFreeBlocks st' + n.
Proof.
  revert st res. induction n as [|n IH]; intros st res Hwf Hn; cbn [reserve_loop].
  - exists st, []. rewrite app_nil_r. split_and!; try done || lia. constructor. set_solver.
  - destruct (SelectEvictionCandidate st) as [st1 [c|]] eqn:Hs.
    + destruct (acquire_step _ _ _ Hwf Hs) as (Hwf2 & Hfc & Hoc & Hsame & Hcnt).
      destruct (AcquirePageLocked st1 c) as [st2 id] eqn:Ha. simpl in *.
      assert (id = Z.of_nat c) as -> by (by unfold AcquirePageLocked in Ha; simplify_eq).
      destruct (IH st2 (res ++ [Z.of_nat c]) Hwf2) as (st' & new & Hr & Hl & Hnd & Hnew & Hold & Hc);
        [lia|].
      assert (Hcn : c ∉ new).
      { intros Hin. destruct (Hnew _ Hin) as [(q & Hq & Hqu) _].
        destruct Hoc as (r & Hr' & Hru & _). congruence. }
      exists st', (c :: new). simpl. rewrite Hr, <- app_assoc. split_and!; try done || lia.
      * by constructor.
      * intros i [->|Hi]%elem_of_cons.
        -- split; [done|]. destruct Hoc as (r & Hr' & ?). exists r. by rewrite Hold.
        -- destruct (Hnew _ Hi) as [(q & Hq & Hqu) ?]. split; [|done].
           exists q. rewrite <- Hsame; [done|]. set_solver.
      * intros j Hj. rewrite Hold by set_solver. apply Hsame. set_solver.
    + apply SelectEvictionCandidate_spec in Hs as (_ & Hnone & _); [|done].
      destruct Hnone as [Hnone _]. specialize (Hnone eq_refl). lia.
Qed.

Lemma unreserve_lookup st res j :
  in_use <$> pages (unreserve st res) !! j =
  (fun p => if bool_decide (j ∈ (Z.to_nat <$> res)) then false else in_use p) <$> pages st !! j.
Proof.
  unfold unreserve. revert st. induction res as [|r res IH]; intros st; simpl.
  - by destruct (pages st !! j).
  - rewrite IH. simpl. destruct (decide (Z.to_nat r = j)) as [<-|Hne].
    + rewrite list_lookup_alter_eq. destruct (pages st !! _); simpl; [|done]. f_equal.
      rewrite (bool_decide_eq_true_2 (_ ∈ _ :: _)) by set_solver. by case_bool_decide.
    + rewrite list_lookup_alter_ne by done. destruct (pages st !! j); simpl; [|done]. f_equal.
      assert (bool_decide (j ∈ Z.to_nat <$> res) = bool_decide (j ∈ Z.to_nat r :: (Z.to_nat <$> res)))
        as -> by (apply bool_decide_ext; set_solver). done.
Qed.

Lemma reserve_loop_failure n st res :
  kv_wf st -> NumFreeBlocks st < n ->
  exists st', reserve_loop n st res =
      (st', Throw (runtime_error "KV cache exhausted during multi-block allocation")) /\
    forall j, in_use <$> pages st' !! j =
      (fun p => if bool_decide (j ∈ (Z.to_nat <$> res)) then false else in_use p) <$> pages st !! j.
Proof.
  revert st res. induction n as [|n IH]; intros st res Hwf Hn; cbn [reserve_loop]; [lia|].
  destruct (SelectEvictionCandidate st) as [st1 [c|]] eqn:Hs.
  - destruct (acquire_step _ _ _ Hwf Hs) as (Hwf2 & (p & Hp & Hpu) & (q & Hq & _) & Hsame & Hcnt).
    destruct (AcquirePageLocked st1 c) as [st2 id] eqn:Ha. simpl in *.
    assert (id = Z.of_nat c) as -> by (by unfold AcquirePageLocked in Ha; simplify_eq).
    destruct (IH st2 (res ++ [Z.of_nat c]) Hwf2) as (st' & Hr & Hfl); [lia|].
    exists st'. split; [done|]. intros j. rewrite Hfl, fmap_app. simpl. rewrite Nat2Z.id.
    destruct (decide (j = c)) as [->|Hne].
    + rewrite Hp, Hq. simpl. f_equal. rewrite Hpu.
      rewrite bool_decide_eq_true_2 by set_solver. by case_bool_decide.
    + rewrite Hsame by done. destruct (pages st !! j); simpl; [|done]. f_equal.
      assert (bool_decide (j ∈ (Z.to_nat <$> res) ++ [c]) = bool_decide (j ∈ Z.to_nat <$> res))
        as -> by (apply bool_decide_ext; set_solver). done.
  - apply SelectEvictionCandidate_spec in Hs as (Hp & _); [|done].
    eexists. split; [done|]. intros j. by rewrite unreserve_lookup, Hp.
Qed.

(** ** Reference counting *)

Definition add_refs (n : Z) (p : KVPage) : KVPage :=
  mkPage (data p) (in_use p) (ref_count p + n) (last_used p) (dirty p).

Lemma in_range_neq {A} (l : list A) z j :
  in_range l z = true -> z <> Z.of_nat j -> Z.to_nat z <> j.
Proof. unfold in_range. intros [H _]%andb_true_iff. apply Z.leb_le in H. lia. Qed.

Lemma AcquireBlocks_lookup st ids j :
  pages (AcquireBlocks st ids) !! j = add_refs (Z.of_nat (occurrences j ids)) <$> pages st !! j.
Proof.
  unfold AcquireBlocks, occurrences. revert st. induction ids as [|z ids IH]; intros st; simpl.
  - destruct (pages st !! j) as [[]|]; simpl; [|done]. unfold add_refs; simpl. do 2 f_equal. lia.
  - rewrite IH. unfold acquire_ref. destruct (in_range (pages st) z) eqn:Hr; simpl.
    + case_bool_decide as Hz.
      * rewrite Hz, Nat2Z.id, list_lookup_alter_eq. destruct (pages st !! j); simpl; [|done].
        unfold add_refs; simpl. do 2 f_equal. lia.
      * rewrite list_lookup_alter_ne by (by eapply in_range_neq). done.
    + case_bool_decide as Hz; [|done]. rewrite Hz in Hr.
      by rewrite (in_range_false_lookup _ _ Hr).
Qed.

Lemma ReleaseBlocks_lookup st ids j :
  pages (ReleaseBlocks st ids) !! j =
    Nat.iter (occurrences j ids) release_page <$> pages st !! j.
Proof.
  unfold ReleaseBlocks, occurrences. revert st. induction ids as [|z ids IH]; intros st; simpl.
  - by destruct (pages st !! j).
  - rewrite IH, ReleasePageLocked_pages. destruct (in_range (pages st) z) eqn:Hr.
    + case_bool_decide as Hz.
      * rewrite Hz, Nat2Z.id, list_lookup_alter_eq. destruct (pages st !! j); simpl; [|done].
        f_equal. by rewrite <- Nat.iter_succ_r.
      * rewrite list_lookup_alter_ne by (by eapply in_range_neq). done.
    + case_bool_decide as Hz; [|done]. rewrite Hz in Hr.
      by rewrite (in_range_false_lookup _ _ Hr).
Qed.

Lemma iter_release_refs n p :
  ref_count (Nat.iter n release_page p) = (ref_count p - Z.of_nat n)%Z.
Proof.
  induction n as [|n IH]; [simpl; lia|]. rewrite Nat.iter_succ. unfold release_page at 1.
  destruct (_ <? _)%Z; simpl; lia.
Qed.

(** While references remain, releasing only counts down. *)
Lemma iter_release_shared n p :
  (0 < ref_count p - Z.of_nat n)%Z -> Nat.iter n release_page p = add_refs (- Z.of_nat n) p.
Proof.
  induction n as [|n IH]; intros Hn.
  - destruct p; simpl. unfold add_refs; simpl. f_equal. lia.
  - rewrite Nat.iter_succ, IH by lia. unfold release_page, add_refs; simpl.
    rewrite (proj2 (Z.ltb_lt _ _)) by lia. f_equal. lia.
Qed.

(** The last reference frees the page and drops its contents. *)
Lemma iter_release_last n p :
  0 < n -> (ref_count p - Z.of_nat n <= 0)%Z ->
  in_use (Nat.iter n release_page p) = false /\ data (Nat.iter n release_page p) = [].
Proof.
  destruct n as [|n]; [lia|]. intros _ Hn. rewrite Nat.iter_succ.
  pose proof (iter_release_refs n p) as Hr. unfold release_page at 1 3.
  rewrite (proj2 (Z.ltb_ge _ _)) by lia. done.
Qed.

(** The cache as a block pool. *)
#[export] Instance kv_block_pool : BlockPool PagedKVCache := {
  pool_has st j := bool_decide (is_Some (pages st !! j));
  pool_refs st j := from_option ref_count 0%Z (pages st !! j);
  pool_release_blocks := ReleaseBlocksRef;
  pool_page_bytes := page_size_bytes }.

#[export] Instance kv_block_pool_laws : BlockPoolLaws PagedKVCache.
Proof.
  split; simpl; unfold ReleaseBlocksRef.
  - intros st ids j. rewrite ReleaseBlocks_lookup. apply bool_decide_ext.
    by rewrite fmap_is_Some.
  - intros st ids j [p Hp]%bool_decide_eq_true. rewrite ReleaseBlocks_lookup, Hp. simpl.
    apply iter_release_refs.
Qed.

(** *** Abstract pool: held pages with their reference counts *)

Definition page_held (p : KVPage) : option Z := if in_use p then Some (ref_count p) else None.

Definition held (st : PagedKVCache) : gmap nat Z :=
  omap page_held (map_seq 0 (pages st) : gmap nat KVPage).

Definition pool_release (m : gmap nat Z) (i : nat) : gmap nat Z :=
  match m !! i with
  | Some r => if (1 <? r)%Z then <[i := (r - 1)%Z]> m else delete i m
  | None => m
  end.

Definition pool_acquire (m : gmap nat Z) (i : nat) : gmap nat Z := alter (fun r => r + 1)%Z i m.

Lemma held_lookup st i : held st !! i = pages st !! i ≫= page_held.
Proof. unfold held. by rewrite lookup_omap, lookup_map_seq_0. Qed.

Lemma held_release st id :
  held (ReleasePageLocked st id) =
  if in_range (pages st) id then pool_release (held st) (Z.to_nat id) else held st.
Proof.
  apply map_eq. intros j. rewrite held_lookup, ReleasePageLocked_pages.
  destruct (in_range (pages st) id) eqn:Hr; [|by rewrite held_lookup].
  destruct (in_range_lookup _ _ Hr) as [p Hp]. unfold pool_release.
  rewrite (held_lookup st (Z.to_nat id)), Hp. simpl.
  destruct (decide (Z.to_nat id = j)) as [<-|Hne].
  - rewrite list_lookup_alter_eq, Hp. simpl. unfold page_held, release_page.
    destruct (in_use p) eqn:Hu.
    + destruct (Z.ltb_spec 0 (ref_count p - 1)); destruct (Z.ltb_spec 1 (ref_count p)); try lia; simpl.
      * by rewrite lookup_insert_eq.
      * by rewrite lookup_delete_eq.
    + rewrite held_lookup, Hp. simpl. unfold page_held. rewrite Hu.
      destruct (_ <? _)%Z; simpl; by rewrite ?Hu.
  - rewrite list_lookup_alter_ne by done. rewrite <- held_lookup.
    destruct (page_held p) as [r|]; [|done].
    destruct (1 <? r)%Z; [by rewrite lookup_insert_ne|by rewrite lookup_delete_ne].
Qed.

Lemma held_acquire st id :
  held (acquire_ref st id) =
  if in_range (pages st) id then pool_acquire (held st) (Z.to_nat id) else held st.
Proof.
  unfold acquire_ref. destruct (in_range (pages st) id) eqn:Hr; [|done].
  apply map_eq. intros j. unfold pool_acquire. rewrite held_lookup. simpl.
  destruct (decide (Z.to_nat id = j)) as [<-|Hne].
  - rewrite list_lookup_alter_eq, lookup_alter_eq, held_lookup.
    destruct (pages st !! Z.to_nat id) as [p|]; [|done]. simpl. unfold page_held; simpl.
    by destruct (in_use p).
  - rewrite list_lookup_alter_ne, lookup_alter_ne by done. by rewrite held_lookup.
Qed.

Definition valid_ids (st : PagedKVCache) (ids : list Z) : list nat :=
  Z.to_nat <$> filter (fun z => in_range (pages st) z = true) ids.

Lemma ReleaseBlocks_length st ids : length (pages (ReleaseBlocks st ids)) = length (pages st).
Proof.
  unfold ReleaseBlocks. revert st. induction ids as [|z ids IH]; intros st; simpl; [done|].
  rewrite IH, ReleasePageLocked_pages. destruct (in_range _ _); [|done]. by rewrite length_alter.
Qed.

Lemma held_foldl (f : PagedKVCache -> Z -> PagedKVCache) (g : gmap nat Z -> nat -> gmap nat Z) ids st :
  (forall st z, length (pages (f st z)) = length (pages st)) ->
  (forall st z, held (f st z) =
     if in_range (pages st) z then g (held st) (Z.to_nat z) else held st) ->
  held (foldl f st ids) = foldl g (held st) (valid_ids st ids).
Proof.
  intros Hlen Hf. unfold valid_ids. revert st. induction ids as [|z ids IH]; intros st; simpl; [done|].
  rewrite IH, Hf. rewrite filter_cons. unfold in_range in *. rewrite Hlen.
  destruct (_ && _) eqn:Hr; [rewrite decide_True by done|rewrite decide_False by congruence]; done.
Qed.

(** ** Swapping *)

Section Swap.
Implicit Types (st : PagedKVCache) (bs hs ts : list nat).

Definition page_data st (i : nat) : option (list Z) := data <$> pages st !! i.
Definition host_data st (i : nat) : option (list Z) := data <$> host_blocks st !! i.

(** Outcome of moving the pages [bs] into the host blocks [hs]. *)
Record swapped_out st st' bs hs : Prop := {
  so_length : length hs = length bs;
  so_nodup : NoDup hs;
  so_free : forall h, h ∈ hs -> in_use <$> host_blocks st !! h = Some false;
  so_used : forall h, h ∈ hs -> in_use <$> host_blocks st' !! h = Some true;
  so_host : forall h, h ∉ hs -> host_blocks st' !! h = host_blocks st !! h;
  so_page : forall i, i ∉ bs -> pages st' !! i = pages st !! i;
  so_freed : forall i, i ∈ bs -> in_use <$> pages st' !! i = Some false;
  so_data : forall k b h, bs !! k = Some b -> hs !! k = Some h ->
    host_data st' h = page_data st b }.

Lemma swap_out_loop_spec bs st (acc : list Z) st' out :
  NoDup bs -> Forall (fun b => b < length (pages st)) bs ->
  swap_out_loop (Z.of_nat <$> bs) st acc = (st', Ret out) ->
  exists hs, out = acc ++ (Z.of_nat <$> hs) /\ swapped_out st st' bs hs.
Proof.
  revert st acc. induction bs as [|b bs IH]; intros st acc Hnd Hin Hs; simpl in Hs.
  - simplify_eq. exists []. rewrite app_nil_r. split; [done|].
    constructor; set_solver || (try by constructor).
  - inversion_clear Hnd as [|?? Hb Hnd']. inversion_clear Hin as [|?? Hlt Hin'].
    rewrite in_range_of_nat, Nat2Z.id in Hs by done.
    destruct (find_index _ (host_blocks st)) as [h|] eqn:Hf; [|done].
    apply find_index_Some in Hf as [(hb & Hhb & Hfree) _].
    apply negb_true_iff in Hfree.
    destruct (lookup_lt_is_Some_2 _ _ Hlt) as [p Hp].
    rewrite (list_lookup_total_correct _ _ _ Hp) in Hs.
    match type of Hs with swap_out_loop _ ?s _ = _ => set (st1 := s) in * end.
    assert (Hpg : forall j, pages st1 !! j = if decide (b = j) then
        Some (mkPage [] false (ref_count p) (last_used p) false) else pages st !! j).
    { intros j. unfold st1. simpl. case_decide as Hj; [subst j|].
      - by rewrite list_lookup_alter_eq, Hp.
      - by rewrite list_lookup_alter_ne. }
    assert (Hho : forall j, host_blocks st1 !! j = if decide (h = j) then
        Some (mkPage (data p) true (ref_count hb) (usage_counter st) (dirty hb))
        else host_blocks st !! j).
    { intros j. unfold st1. simpl. case_decide as Hj; [subst j|].
      - by rewrite list_lookup_alter_eq, Hhb.
      - by rewrite list_lookup_alter_ne. }
    apply IH in Hs as (hs & -> & Hso); [|done|].
    2: { eapply Forall_impl; [done|]. intros x Hx. unfold st1. simpl. by rewrite length_alter. }
    destruct Hso as [Hl Hn Hfr Hus Hht Hpt Hfd Hdt].
    assert (Hhn : h ∉ hs).
    { intros Hx. specialize (Hfr _ Hx). rewrite Hho, decide_True in Hfr by done. done. }
    exists (h :: hs). split; [by rewrite <- app_assoc|]. constructor; simpl.
    + by rewrite Hl.
    + by constructor.
    + intros x [->|Hx]%elem_of_cons; [by rewrite Hhb; simpl; rewrite Hfree|].
      specialize (Hfr _ Hx). rewrite Hho, decide_False in Hfr by set_solver. done.
    + intros x [->|Hx]%elem_of_cons; [|by apply Hus].
      by rewrite Hht, Hho, decide_True by done.
    + intros x Hx. rewrite Hht by set_solver. by rewrite Hho, decide_False by set_solver.
    + intros x Hx. rewrite Hpt by set_solver. by rewrite Hpg, decide_False by set_solver.
    + intros x [->|Hx]%elem_of_cons; [|by apply Hfd]. by rewrite Hpt, Hpg, decide_True by done.
    + intros [|k] b' h' Hk Hk'; simpl in Hk, Hk'; simplify_eq.
      * unfold host_data, page_data. by rewrite Hht, Hho, decide_True, Hp by done.
      * rewrite (Hdt k b' h') by done. unfold page_data. rewrite Hpg, decide_False; [done|].
        intros ->. apply Hb. by eapply list_elem_of_lookup_2.
Qed.

Lemma swap_in_one_lookup st h t :
  h < length (host_blocks st) -> t < length (pages st) ->
  let st' := swap_in_one st (Z.of_nat h, Z.of_nat t) in
  (forall j, page_data st' j = if decide (t = j) then host_data st h else page_data st j) /\
  (forall j, j <> t -> pages st' !! j = pages st !! j) /\
  in_use <$> pages st' !! t = Some true /\
  (forall j, j <> h -> host_blocks st' !! j = host_blocks st !! j) /\
  in_use <$> host_blocks st' !! h = Some false /\
  length (pages st') = length (pages st) /\ length (host_blocks st') = length (host_blocks st).
Proof.
  intros Hh Ht. simpl. rewrite !in_range_of_nat by done. rewrite !Nat2Z.id. simpl.
  destruct (lookup_lt_is_Some_2 _ _ Hh) as [hb Hhb].
  destruct (lookup_lt_is_Some_2 _ _ Ht) as [p Hp].
  unfold page_data, host_data. simpl. rewrite (list_lookup_total_correct _ _ _ Hhb), Hhb.
  split_and!.
  - intros j. case_decide as Hj; [subst j|].
    + by rewrite list_lookup_alter_eq, Hp.
    + by rewrite list_lookup_alter_ne.
  - intros j Hj. by rewrite list_lookup_alter_ne.
  - by rewrite list_lookup_alter_eq, Hp.
  - intros j Hj. by rewrite list_lookup_alter_ne.
  - by rewrite list_lookup_alter_eq, Hhb.
  - by rewrite length_alter.
  - by rewrite length_alter.
Qed.

(** Outcome of moving the host blocks [hs] into the pages [ts]. *)
Record swapped_in st st' hs ts : Prop := {
  si_data : forall k h t, hs !! k = Some h -> ts !! k = Some t ->
    page_data st' t = host_data st h;
  si_used : forall t, t ∈ ts -> in_use <$> pages st' !! t = Some true;
  si_page : forall j, j ∉ ts -> pages st' !! j = pages st !! j;
  si_host : forall j, j ∉ hs -> host_blocks st' !! j = host_blocks st !! j;
  si_free : forall h, h ∈ hs -> in_use <$> host_blocks st' !! h = Some false }.

Lemma swap_in_fold_spec hs ts st :
  length hs = length ts -> NoDup hs -> NoDup ts ->
  Forall (fun h => h < length (host_blocks st)) hs ->
  Forall (fun t => t < length (pages st)) ts ->
  swapped_in st (foldl swap_in_one st (zip (Z.of_nat <$> hs) (Z.of_nat <$> ts))) hs ts.
Proof.
  revert ts st. induction hs as [|h hs IH]; intros [|t ts] st Hl Hnh Hnt Hh Ht;
    try (simpl in Hl; lia).
  - constructor; set_solver || done.
  - inversion_clear Hnh as [|?? Hhn Hnh']. inversion_clear Hnt as [|?? Htn Hnt'].
    inversion_clear Hh as [|?? Hhl Hh']. inversion_clear Ht as [|?? Htl Ht'].
    destruct (swap_in_one_lookup st h t Hhl Htl) as (Hd & Hpo & Hpu & Hho & Hhf & Hlp & Hlh).
    cbn [zip zip_with fmap list_fmap foldl]. set (st1 := swap_in_one _ _) in *.
    destruct (IH ts st1) as [Hd' Hu' Hp' Hh'' Hf']; try done.
    + by injection Hl.
    + by rewrite Hlh.
    + by rewrite Hlp.
    + constructor.
      * intros [|k] h' t' Hk Hk'; simpl in Hk, Hk'; simplify_eq.
        -- specialize (Hd t'). rewrite decide_True in Hd by done. rewrite <- Hd.
           unfold page_data. by rewrite Hp'.
        -- rewrite (Hd' k h' t') by done. unfold host_data. rewrite Hho; [done|].
           intros ->. apply Hhn. by eapply list_elem_of_lookup_2.
      * intros x [->|Hx]%elem_of_cons; [by rewrite Hp'|by apply Hu'].
      * intros j Hj. rewrite Hp' by set_solver. apply Hpo. set_solver.
      * intros j Hj. rewrite Hh'' by set_solver. apply Hho. set_solver.
      * intros x [->|Hx]%elem_of_cons; [by rewrite Hh''|by apply Hf'].
Qed.
End Swap.

(** ** Persistence *)

Definition is_float (v : Z) : Prop := (0 <= v < 2 ^ 32)%Z.

Lemma decode_float_bytes v rest :
  is_float v -> decode_floats (float_bytes v ++ rest) = v :: decode_floats rest.
Proof.
  intros Hv. unfold is_float in Hv. cbn [float_bytes app decode_floats]. f_equal.
  rewrite (Z.mod_small (v / 16777216) 256) by (split; [apply Z.div_pos|apply Z.div_lt_upper_bound]; lia).
  replace (v / 16777216)%Z with (v / 256 / 256 / 256)%Z by (rewrite !Z.div_div by lia; reflexivity).
  replace (v / 65536)%Z with (v / 256 / 256)%Z by (rewrite Z.div_div by lia; reflexivity).
  pose proof (Z_div_mod_eq_full v 256). pose proof (Z_div_mod_eq_full (v / 256) 256).
  pose proof (Z_div_mod_eq_full (v / 256 / 256) 256). lia.
Qed.

Lemma decode_encode_floats vs : Forall is_float vs -> decode_floats (encode_floats vs) = vs.
Proof.
  induction 1 as [|v vs Hv _ IH]; [done|]. unfold encode_floats in *.
  change (flat_map float_bytes (v :: vs)) with (float_bytes v ++ flat_map float_bytes vs).
  rewrite decode_float_bytes by done. by rewrite IH.
Qed.

Lemma encode_floats_length vs : length (encode_floats vs) = length vs * 4.
Proof. induction vs as [|v vs IH]; [done|]. simpl in *. lia. Qed.

(** The files once the writer has caught up. *)
Definition pending_files (st : PagedKVCache) : gmap string (list Z) :=
  match writer st with
  | Some w => apply_all (tasks w) (files st)
  | None => files st
  end.

(** The background workers run until the queue is empty. *)
Definition FlushWriter (st : PagedKVCache) : PagedKVCache :=
  match writer st with
  | Some w => let '(w', fs) := drain (length (tasks w)) w (files st) in
              set_io st (offload_path st) (Some w') fs
  | None => st
  end.

Lemma FlushWriter_files st :
  files (FlushWriter st) = pending_files st /\ pages (FlushWriter st) = pages st /\
  offload_path (FlushWriter st) = offload_path st.
Proof.
  unfold FlushWriter, pending_files. destruct (writer st) as [w|]; [|done].
  rewrite drain_spec. simpl. by rewrite firstn_all.
Qed.

Lemma PersistPage_pending st i v :
  io_wf st -> offload_path st <> EmptyString ->
  pending_files (PersistPage st i v) = <[page_file st i := encode_floats v]> (pending_files st).
Proof.
  intros Hio Hp. unfold io_wf in Hio. destruct (writer st) as [w|] eqn:Hw; [|done].
  destruct Hio as (_ & Hr & Hs & Hk & Hd). unfold PersistPage, pending_files at 2.
  rewrite bool_decide_eq_false_2, Hw by done. unfold EnqueueWait. rewrite Hs, drain_spec.
  set (g := _ || _). assert (g = true) as ->.
  { unfold g. rewrite (proj2 (Nat.ltb_lt _ _) Hd), (proj2 (Nat.eqb_neq (workers w) 0)) by lia.
    simpl. by rewrite orb_true_r. }
  unfold pending_files, Enqueue; simpl. rewrite Hs, Hr; simpl.
  rewrite apply_all_app, <- (apply_all_app (take _ _)), take_drop. done.
Qed.

Lemma page_file_set_path st st' i : offload_path st' = offload_path st -> page_file st' i = page_file st i.
Proof. intros H. unfold page_file. by rewrite H. Qed.

Lemma ReleasePageLocked_path st id : offload_path (ReleasePageLocked st id) = offload_path st.
Proof.
  unfold ReleasePageLocked. destruct (in_range _ _); [|done]. destruct (_ <? _)%Z; [done|].
  simpl. destruct (_ && _ && _); [|done].
  match goal with |- offload_path (PersistPage ?s ?i ?v) = _ =>
    destruct (PersistPage_io s i v) as (w & fs & ->) end. done.
Qed.

(** A release either leaves the pending files alone or writes the page's own
    contents to its file. *)
Lemma ReleasePageLocked_pending st i p :
  io_wf st -> pages st !! i = Some p ->
  pending_files (ReleasePageLocked st (Z.of_nat i)) = pending_files st \/
  pending_files (ReleasePageLocked st (Z.of_nat i)) =
    <[page_file st i := encode_floats (data p)]> (pending_files st).
Proof.
  intros Hio Hp. unfold ReleasePageLocked. rewrite in_range_of_nat by (by eapply lookup_lt_Some).
  rewrite Nat2Z.id, (list_lookup_total_correct _ _ _ Hp).
  destruct (_ <? _)%Z; [by left|]. simpl.
  destruct (bool_decide (offload_path st = EmptyString)) eqn:He; [by left|].
  apply bool_decide_eq_false in He. destruct (_ && dirty p); [|by left]. right.
  by apply (PersistPage_pending (update_page st i (fun p =>
      mkPage (data p) (in_use p) (ref_count p - 1) (last_used p) (dirty p)))).
Qed.

Lemma Write_effect st i vs :
  kv_wf st -> i < length (pages st) -> offload_path st <> EmptyString ->
  let st' := (Write st (Z.of_nat i) vs).1 in
  kv_wf st' /\ offload_path st' = offload_path st /\
  (exists p, pages st !! i = Some p /\
     pages st' !! i = Some (mkPage vs (in_use p) (ref_count p) (usage_counter st) true)) /\
  pending_files st' = <[page_file st i := encode_floats vs]> (pending_files st) /\
  length (pages st') = length (pages st).
Proof.
  intros Hwf Hi Hp st'.
  assert (Hwf' : kv_wf st') by apply (kv_exec_wf (OpWrite (Z.of_nat i) vs) st Hwf).
  destruct (lookup_lt_is_Some_2 _ _ Hi) as [p Hpi].
  revert Hwf'. unfold st', Write. rewrite in_range_of_nat, Nat2Z.id by done. simpl.
  rewrite bool_decide_eq_false_2 by done. set (st2 := set_ref_bit _ _ _).
  intros Hwf'. assert (Hwf2 : kv_wf st2)
    by (apply set_ref_bit_wf, tick_wf, update_page_wf; auto with kv).
  assert (Hpend : pending_files (PersistPage st2 i vs) =
            <[page_file st i := encode_floats vs]> (pending_files st)).
  { rewrite (PersistPage_pending st2 i vs); [done|apply (wf_io _ Hwf2)|done]. }
  destruct (PersistPage_io st2 i vs) as (w & fs & E). rewrite E in *. simpl.
  split_and!; try done.
  - exists p. rewrite list_lookup_alter_eq, Hpi. done.
  - by rewrite length_alter.
Qed.

(** ** Properties *)



(** [ReservePage] throws exactly when no page is free and then changes no
    page; otherwise it returns the id of a page that was free, which is now in
    use with a single reference and clean, storage of [page_size_bytes] when
    the size differed, and no other page changes. *)
Theorem ReservePage_spec (st : PagedKVCache) (Hwf : kv_wf st) :
  match ReservePage st with
  | (st', Throw e) =>
      e = runtime_error "KV cache exhausted" /\ NumFreeBlocks st = 0 /\ pages st' = pages st
  | (st', Ret id) =>
      exists i, id = Z.of_nat i /\ page_free st i /\ page_owned_once st' i /\
        (length <$> page_data st' i) = Some (page_floats st) /\
        (forall j, j <> i -> pages st' !! j = pages st !! j) /\
        NumFreeBlocks st = S (NumFreeBlocks st')
  end.
Proof.
  unfold ReservePage. destruct (SelectEvictionCandidate st) as [st1 [c|]] eqn:Hs.
  - destruct (acquire_step _ _ _ Hwf Hs) as (_ & Hf & Ho & Hsame & Hcnt).
    destruct (AcquirePageLocked st1 c) as [st2 id] eqn:Ha. simpl in *.
    assert (id = Z.of_nat c) as -> by (by unfold AcquirePageLocked in Ha; simplify_eq).
    exists c. split_and!; try done.
    apply SelectEvictionCandidate_spec in Hs as (Hp & _ & _ & _ & _ & _ & Hb); [|done].
    destruct Hf as (p & Hpc & _).
    replace st2 with (AcquirePageLocked st1 c).1 by (by rewrite Ha).
    unfold page_data. rewrite AcquirePageLocked_pages, Hp, list_lookup_alter_eq, Hpc. simpl.
    unfold page_floats. rewrite Hb.
    destruct (Nat.eqb_spec (length (data p)) (page_size_bytes st / 4)); simpl; f_equal; [done|].
    apply length_replicate.
  - apply SelectEvictionCandidate_spec in Hs as (Hp & Hn & _); [|done].
    split_and!; [done|by apply Hn|done].
Qed.

Lemma ReservePage_spec_witness :
  exists st' : PagedKVCache, ReservePage (newCache 2 8 kLRU) = (st', Ret 1%Z) /\
    NumFreeBlocks (newCache 2 8 kLRU) = S (NumFreeBlocks st').
Proof.
  pose proof (ReservePage_spec (newCache 2 8 kLRU) (newCache_wf _ _ _)) as H.
  destruct (ReservePage (newCache 2 8 kLRU)) as [st' o] eqn:E. exists st'.
  assert (o = Ret 1%Z) as -> by (vm_compute in E; congruence).
  split; [reflexivity|]. destruct H as (i & _ & _ & _ & _ & _ & H). exact H.
Defined.

(** Under the LRU policy the reserved page carries the smallest use stamp
    of all free pages, and the highest index among equals. *)
Theorem ReservePage_lru (st st' : PagedKVCache) (i : nat) (Hwf : kv_wf st)
    (Hpol : eviction_policy st = kLRU) (Hres : ReservePage st = (st', Ret (Z.of_nat i))) :
  exists p, pages st !! i = Some p /\ in_use p = false /\
    forall j q, pages st !! j = Some q -> in_use q = false ->
      (last_used p <= last_used q)%Z /\ (i < j -> (last_used p < last_used q)%Z).
Proof.
  unfold ReservePage, SelectEvictionCandidate in Hres.
  destruct (pages st) as [|p0 ps0] eqn:Hps; [done|]. rewrite Hpol, <- !Hps in *. clear Hps p0 ps0.
  destruct (lru_scan_spec (pages st) [] None uint64_max) as [o Ho];
    [apply (wf_stamps _ Hwf)|split; [done|constructor]|].
  change (length (A := KVPage) []) with 0 in Ho. rewrite app_nil_l in Ho.
  destruct (lru_scan (pages st) 0 None uint64_max) as [c|]; [|done].
  assert (c = i) as -> by (unfold AcquirePageLocked in Hres; simplify_eq; lia).
  simpl in Ho. destruct Ho as (p & Hp & Hu & <- & Hmin). eauto.
Qed.

Lemma ReservePage_lru_witness :
  exists p, pages (newCache 3 8 kLRU) !! 2 = Some p /\ in_use p = false.
Proof.
  destruct (ReservePage_lru (newCache 3 8 kLRU) (ReservePage (newCache 3 8 kLRU)).1 2
              (newCache_wf _ _ _)) as (p & H1 & H2 & _).
  - reflexivity.
  - vm_compute. reflexivity.
  - exists p. split; assumption.
Defined.

(** [ReserveBlocks n] is all or nothing.  With at least [n] free pages it
    returns [n] distinct ids of pages that were free and are now held once, and
    leaves every other page alone; with fewer it throws and every page keeps
    its in-use flag (the partial reservation is undone). *)
Theorem ReserveBlocks_all_or_nothing (st : PagedKVCache) (n : nat) (Hwf : kv_wf st) :
  if n <=? NumFreeBlocks st then
    exists st' ids, ReserveBlocks st n = (st', Ret (Z.of_nat <$> ids)) /\
      length ids = n /\ NoDup ids /\
      (forall i, i ∈ ids -> page_free st i /\ page_owned_once st' i) /\
      (forall j, j ∉ ids -> pages st' !! j = pages st !! j) /\
      NumFreeBlocks st = NumFreeBlocks st' + n
  else
    exists st', ReserveBlocks st n =
        (st', Throw (runtime_error "KV cache exhausted during multi-block allocation")) /\
      forall j, in_use <$> pages st' !! j = in_use <$> pages st !! j.
Proof.
  destruct (Nat.leb_spec n (NumFreeBlocks st)) as [Hn|Hn].
  - destruct (reserve_loop_success n st [] Hwf Hn) as (st' & new & H). by exists st', new.
  - destruct (reserve_loop_failure n st [] Hwf Hn) as (st' & Hr & Hf). exists st'.
    split; [done|]. intros j. rewrite Hf. by destruct (pages st !! j).
Qed.

Lemma ReserveBlocks_all_or_nothing_witness :
  (exists st', ReserveBlocks (newCache 2 8 kClock) 3 =
    (st', Throw (runtime_error "KV cache exhausted during multi-block allocation"))) /\
  (exists st' ids, ReserveBlocks (newCache 2 8 kClock) 2 = (st', Ret (Z.of_nat <$> ids)) /\
     NoDup ids).
Proof.
  split.
  - destruct (ReserveBlocks_all_or_nothing (newCache 2 8 kClock) 3 (newCache_wf _ _ _))
      as (st' & H & _). by exists st'.
  - destruct (ReserveBlocks_all_or_nothing (newCache 2 8 kClock) 2 (newCache_wf _ _ _))
      as (st' & ids & H & _ & Hn & _). by exists st', ids.
Defined.


(** Acquiring references to held pages and releasing them again restores
    every page exactly, contents included: sharing a block (prefix cache)
    never disturbs its owner. *)
Theorem acquire_release_roundtrip (st : PagedKVCache) (ids : list Z)
    (Hheld : forall z p, z ∈ ids -> pages st !! Z.to_nat z = Some p -> (1 <= ref_count p)%Z) :
  pages (ReleaseBlocks (AcquireBlocks st ids) ids) = pages st.
Proof.
  apply list_eq. intros j. rewrite ReleaseBlocks_lookup, AcquireBlocks_lookup.
  destruct (pages st !! j) as [p|] eqn:Hp; simpl; [|done]. f_equal.
  destruct (decide (occurrences j ids = 0)) as [->|Hne].
  - destruct p; simpl. unfold add_refs; simpl. f_equal. lia.
  - rewrite iter_release_shared.
    + destruct p; unfold add_refs; simpl. f_equal. lia.
    + simpl. cut (1 <= ref_count p)%Z; [lia|]. apply (Hheld (Z.of_nat j)); [|by rewrite Nat2Z.id].
      unfold occurrences in Hne. rewrite count_if_zero in Hne.
      apply not_Forall_Exists in Hne; [|intros x; apply _].
      apply Exists_exists in Hne as (z & Hz & Hzj). apply not_false_is_true in Hzj.
      apply bool_decide_eq_true in Hzj. by rewrite <- Hzj.
Qed.

Lemma acquire_release_roundtrip_witness :
  pages (ReleaseBlocks (AcquireBlocks (ReservePage (newCache 2 8 kLRU)).1 [1; 1; 9]%Z) [1; 1; 9]%Z) =
  pages (ReservePage (newCache 2 8 kLRU)).1.
Proof.
  apply acquire_release_roundtrip. intros z p Hz Hp.
  repeat (apply elem_of_cons in Hz as [->|Hz]; [vm_compute in Hp; simplify_eq/=; lia || congruence|]).
  apply elem_of_nil in Hz. contradiction.
Defined.

(** Swapping distinct pages out and back in preserves their contents: if
    [SwapOut] returned the handles [hs], then swapping those handles into any
    distinct target pages (for instance newly reserved ones) while the host
    pool is untouched puts the contents of the k-th swapped page into the k-th
    target, marks the targets used, and gives every host block its former
    in-use flag back. *)
Theorem swap_roundtrip (st st1 st2 : PagedKVCache) (bs ts : list nat) (hs : list Z)
    (Hnd : NoDup bs) (Hbs : Forall (fun b => b < length (pages st)) bs)
    (Hout : SwapOut st (Z.of_nat <$> bs) = (st1, Ret hs))
    (Hhost : host_blocks st2 = host_blocks st1)
    (Hts : NoDup ts) (Htsr : Forall (fun t => t < length (pages st2)) ts)
    (Hlen : length ts = length bs) :
  exists st3, SwapIn st2 hs (Z.of_nat <$> ts) = (st3, Ret tt) /\
    (forall k b t, bs !! k = Some b -> ts !! k = Some t -> page_data st3 t = page_data st b) /\
    (forall t, t ∈ ts -> in_use <$> pages st3 !! t = Some true) /\
    (forall h, in_use <$> host_blocks st3 !! h = in_use <$> host_blocks st !! h).
Proof.
  apply swap_out_loop_spec in Hout as (hn & -> & [Hl Hn Hfr Hus Hht _ _ Hdt]); [|done..]. simpl.
  assert (Hhr : Forall (fun h => h < length (host_blocks st2)) hn).
  { apply Forall_forall. intros h Hh. specialize (Hus _ Hh).
    rewrite Hhost. destruct (host_blocks st1 !! h) eqn:E; [|done]. by eapply lookup_lt_Some. }
  unfold SwapIn. rewrite !length_fmap, Hl, Hlen, Nat.eqb_refl.
  destruct (swap_in_fold_spec hn ts st2) as [Hd Hu _ Hho Hhf]; try done; [congruence|].
  eexists. split; [done|]. split_and!.
  - intros k b t Hb Ht. destruct (lookup_lt_is_Some_2 hn k) as [h Hh].
    { rewrite Hl. by eapply lookup_lt_Some. }
    rewrite (Hd k h t), <- (Hdt k b h) by done. unfold host_data. by rewrite Hhost.
  - done.
  - intros h. destruct (decide (h ∈ hn)) as [Hin|Hin]; [by rewrite Hhf, Hfr|].
    by rewrite Hho, Hhost, Hht.
Qed.

Lemma swap_roundtrip_witness :
  exists st3, SwapIn (SwapOut (Write (newCache 2 8 kLRU) 0 [5%Z]).1 [0%Z]).1 [0%Z] [1%Z] = (st3, Ret tt) /\
    page_data st3 1 = Some [5%Z].
Proof.
  destruct (swap_roundtrip (Write (newCache 2 8 kLRU) 0 [5%Z]).1
     (SwapOut (Write (newCache 2 8 kLRU) 0 [5%Z]).1 [0%Z]).1
     (SwapOut (Write (newCache 2 8 kLRU) 0 [5%Z]).1 [0%Z]).1 [0] [1] [0%Z])
    as (st3 & H & Hd & _).
  - repeat constructor; set_solver.
  - repeat constructor.
  - vm_compute. reflexivity.
  - reflexivity.
  - repeat constructor; set_solver.
  - repeat constructor.
  - reflexivity.
  - exists st3. split; [exact H|]. rewrite (Hd 0 0 1 eq_refl eq_refl). reflexivity.
Defined.

(** With offloading on, a page that is written, released by its last owner
    (which drops its storage) and read back after the writer has caught up
    yields the written values, bit for bit. *)
Theorem offloaded_page_reads_back (st : PagedKVCache) (i : nat) (vs : list Z)
    (Hwf : kv_wf st) (Hi : i < length (pages st)) (Hpath : offload_path st <> EmptyString)
    (Hvs : Forall is_float vs) :
  let released := ReleasePage (Write st (Z.of_nat i) vs).1 (Z.of_nat i) in
  (Read (FlushWriter released) (Z.of_nat i)).2 = Ret vs.
Proof.
  intros released. set (st1 := (Write st (Z.of_nat i) vs).1) in *.
  destruct (Write_effect st i vs Hwf Hi Hpath) as (Hwf1 & Hp1 & (p & _ & Hpg) & Hpend & Hlen1).
  fold st1 in Hwf1, Hp1, Hpg, Hpend, Hlen1.
  destruct (FlushWriter_files released) as (Hff & Hfp & Hfo).
  assert (Hpath2 : offload_path (FlushWriter released) = offload_path st).
  { rewrite Hfo. unfold released, ReleasePage. by rewrite ReleasePageLocked_path. }
  assert (Hfile : files (FlushWriter released) !! page_file st i = Some (encode_floats vs)).
  { rewrite Hff. unfold released, ReleasePage.
    destruct (ReleasePageLocked_pending st1 i _ (wf_io _ Hwf1) Hpg) as [->| ->].
    - by rewrite Hpend, lookup_insert_eq.
    - by rewrite (page_file_set_path st st1) , lookup_insert_eq. }
  assert (Hpages : pages (FlushWriter released) !! i =
     Some (release_page (mkPage vs (in_use p) (ref_count p) (usage_counter st) true))).
  { rewrite Hfp. unfold released, ReleasePage. rewrite ReleasePageLocked_pages.
    rewrite in_range_of_nat, Nat2Z.id by (rewrite Hlen1; done).
    by rewrite list_lookup_alter_eq, Hpg. }
  unfold Read. rewrite in_range_of_nat by (by eapply lookup_lt_Some).
  rewrite Nat2Z.id. simpl. rewrite (list_lookup_total_correct _ _ _ Hpages). f_equal.
  rewrite Hpath2, (bool_decide_eq_false_2 (offload_path st = _)) by done. simpl.
  rewrite andb_true_r. unfold release_page. simpl.
  assert (Hload : LoadPage (FlushWriter released) i = vs).
  { unfold LoadPage. rewrite Hpath2, bool_decide_eq_false_2 by done.
    rewrite (page_file_set_path st) by done. rewrite Hfile, encode_floats_length.
    rewrite Nat.Div0.mod_mul. simpl. by apply decode_encode_floats. }
  destruct (0 <? ref_count p - 1)%Z; simpl; [|done].
  case_bool_decide as Hnil; [by rewrite Hload|done].
Qed.

Lemma offloaded_page_reads_back_witness :
  (Read (FlushWriter (ReleasePage (Write (SetOffloadPath (ReservePage (newCache 2 8 kLRU)).1 "/kv")
     1 [3%Z; 4%Z]).1 1)) 1).2 = Ret [3%Z; 4%Z].
Proof.
  apply (offloaded_page_reads_back (SetOffloadPath (ReservePage (newCache 2 8 kLRU)).1 "/kv") 1 [3%Z; 4%Z]).
  - apply SetOffloadPath_wf, (kv_exec_wf OpReservePage), newCache_wf.
  - vm_compute. lia.
  - discriminate.
  - repeat (constructor; [unfold is_float; lia|]). constructor.
Defined.
