(* ===== verification/RadixCache.v ===== *)
(** * runtime/prefix_cache/radix_prefix_cache: the radix prefix cache

    A trie over token ids whose nodes may be donors: a donor holds the sequence
    slot and the complete block table of a finished prompt.  A C++ node pointer
    is the list of child keys that leads to it ([parent] is the path without
    its last key).  [children] is an association list in the container's
    iteration order; nothing below depends on that order except ties between
    equal LRU stamps.  [n_tokens] of [RadixNode] is never written by the code
    and is left out.  Backends are named by numbers; [alive] says which of them
    a [weak_ptr] can still lock.  Calls out of the cache ([FreeSequence], the
    eviction callback) are recorded as [events] in order; the KV cache is any
    [BlockPool]. *)

From stdpp Require Import base tactics numbers list strings gmap.
From S2P Require Import Prelude AsyncWriter KVCache.

Create HintDb radix.

(** ** Data *)

Record NodeInfo := mkInfo {
  block_table : list Z;
  sequence_id : Z;
  backend : option nat;
  last_used : Z }.

Inductive RadixNode := Node (edge : list Z) (info : NodeInfo) (children : list (Z * RadixNode)).

Definition edge (n : RadixNode) : list Z := let 'Node e _ _ := n in e.
Definition info (n : RadixNode) : NodeInfo := let 'Node _ i _ := n in i.
Definition children (n : RadixNode) : list (Z * RadixNode) := let 'Node _ _ c := n in c.

(** A default-constructed node's fields. *)
Definition blankInfo : NodeInfo := mkInfo [] (-1) None 0.

Definition is_donor (i : NodeInfo) : bool := (0 <=? sequence_id i)%Z.

Definition set_children (n : RadixNode) (cs : list (Z * RadixNode)) : RadixNode :=
  Node (edge n) (info n) cs.
Definition set_info (n : RadixNode) (i : NodeInfo) : RadixNode := Node (edge n) i (children n).

(** [std::unordered_map] operations on the children. *)
Fixpoint assoc_find (k : Z) (l : list (Z * RadixNode)) : option RadixNode :=
  match l with
  | [] => None
  | (k', c) :: l' => if bool_decide (k' = k) then Some c else assoc_find k l'
  end.

Fixpoint assoc_set (k : Z) (c : RadixNode) (l : list (Z * RadixNode)) : list (Z * RadixNode) :=
  match l with
  | [] => [(k, c)]
  | (k', c') :: l' => if bool_decide (k' = k) then (k, c) :: l' else (k', c') :: assoc_set k c l'
  end.

Definition assoc_erase (k : Z) (l : list (Z * RadixNode)) : list (Z * RadixNode) :=
  filter (fun kc => kc.1 <> k) l.

(** Longest common prefix of an edge and the remaining tokens. *)
Fixpoint CommonPrefixLength (e toks : list Z) : nat :=
  match e, toks with
  | x :: e', t :: toks' => if bool_decide (x = t) then S (CommonPrefixLength e' toks') else 0
  | _, _ => 0
  end.

Inductive event :=
  | EvFreeSequence (be : nat) (seq : Z)
  | EvEvictCallback (seq : Z) (be : option nat).

Record RadixLookupResult := mkResult {
  res_block_table : list Z; res_sequence_id : Z; res_matched_tokens : Z }.

Section Cache.
Context {P : Type} `{BlockPool P}.

Record RadixPrefixCache := mkRadix {
  kv_cache : option P;
  on_evict_seq : bool;   (* the callback is set *)
  capacity : nat;
  max_sequences : nat;
  size_ : Z;
  live_sequences : Z;
  clock : Z;
  root : RadixNode;
  events : list event }.

Definition newRadix (kv : option P) (cb : bool) (cap maxs : nat) : RadixPrefixCache :=
  mkRadix kv cb cap maxs 0 0 0 (Node [] blankInfo []) [].

Variable alive : nat -> bool.

(** [std::weak_ptr::lock] *)
Definition lock (b : option nat) : option nat :=
  match b with Some x => if alive x then Some x else None | None => None end.

(** ** Lookup *)

Record walk := mkWalk {
  w_blocks : list Z; w_seq : Z; w_tokens : nat; w_hit : bool; w_off : nat; w_clock : Z }.

(** The descent; [toks] is [tokens] from [offset] on.  Each full edge match
    stamps the node. *)
Fixpoint lookup_walk (fuel : nat) (n : RadixNode) (toks : list Z) (be : option nat) (w : walk) :
    RadixNode * walk :=
  match fuel, toks with
  | S fuel', t :: _ =>
      match assoc_find t (children n) with
      | None => (n, w)
      | Some child =>
          let common := CommonPrefixLength (edge child) toks in
          if common <? length (edge child) then
            (n, mkWalk (w_blocks w) (w_seq w) (w_tokens w) false (w_off w + common) (w_clock w))
          else if is_donor (info child) && negb (bool_decide (lock (backend (info child)) = be)) then
            (n, mkWalk (w_blocks w) (w_seq w) (w_tokens w) false (w_off w + common) (w_clock w))
          else
            let off := w_off w + common in
            let stamp := u64 (w_clock w + 1) in
            let i := info child in
            let w1 := if is_donor i
                      then mkWalk (block_table i) (sequence_id i) off true off stamp
                      else mkWalk (w_blocks w) (w_seq w) (w_tokens w) true off stamp in
            let child1 := set_info child
              (mkInfo (block_table i) (sequence_id i) (backend i) stamp) in
            let '(child2, w2) := lookup_walk fuel' child1 (drop common toks) be w1 in
            (set_children n (assoc_set t child2 (children n)), w2)
      end
  | _, _ => (n, w)
  end.

Definition Lookup (st : RadixPrefixCache) (tokens : list Z) (be : option nat) :
    RadixPrefixCache * (bool * RadixLookupResult) :=
  if (capacity st =? 0) || bool_decide (tokens = []) then (st, (false, mkResult [] (-1) 0))
  else
    let '(root', w) := lookup_walk (length tokens) (root st) tokens be
                         (mkWalk [] (-1) 0 false 0 (clock st)) in
    let st' := mkRadix (kv_cache st) (on_evict_seq st) (capacity st) (max_sequences st)
                 (size_ st) (live_sequences st) (w_clock w) root' (events st) in
    if w_hit w && (0 <=? w_seq w)%Z && negb (bool_decide (w_blocks w = [])) then
      (st', (true, mkResult (w_blocks w) (w_seq w) (Z.of_nat (w_tokens w))))
    else (st', (false, mkResult [] (-1) (Z.of_nat (w_off w)))).

(** ** Insertion *)

(** The intermediate node [SplitEdge] puts above [original]. *)
Definition SplitEdge (original : RadixNode) (split_at : nat) : RadixNode :=
  Node (take split_at (edge original)) blankInfo
    [(edge original !!! split_at,
      Node (drop split_at (edge original)) (info original) (children original))].

(** How the descent ended: at a new leaf, or at an existing node whose old
    fields are returned; [splits] counts the edges split. *)
Inductive insert_res :=
  | NewLeaf (splits : nat)
  | Redonate (splits : nat) (old : NodeInfo).

Definition add_splits (s : nat) (r : insert_res) : insert_res :=
  match r with
  | NewLeaf k => NewLeaf (s + k)
  | Redonate k old => Redonate (s + k) old
  end.

Fixpoint insert_walk (fuel : nat) (n : RadixNode) (toks : list Z) (new : NodeInfo) :
    RadixNode * insert_res :=
  match fuel, toks with
  | S fuel', t :: _ =>
      match assoc_find t (children n) with
      | None => (set_children n (children n ++ [(t, Node toks new [])]), NewLeaf 0)
      | Some child =>
          let common := CommonPrefixLength (edge child) toks in
          let '(child1, s) := if common <? length (edge child)
                              then (SplitEdge child common, 1) else (child, 0) in
          let '(child2, r) := insert_walk fuel' child1 (drop common toks) new in
          (set_children n (assoc_set t child2 (children n)), add_splits s r)
      end
  | _, _ => (set_info n new, Redonate 0 (info n))
  end.

(** ** Eviction *)

(** Pre-order list of the stamps and addresses of the nodes that satisfy
    [criteria]. *)
Fixpoint CollectNodes (criteria : list Z -> RadixNode -> bool) (addr : list Z) (n : RadixNode) :
    list (Z * list Z) :=
  match n with
  | Node _ i cs =>
      (if criteria addr n then [(last_used i, addr)] else []) ++
      flat_map (fun kc => let '(k, c) := kc in CollectNodes criteria (addr ++ [k]) c) cs
  end.

Fixpoint node_at (addr : list Z) (n : RadixNode) : option RadixNode :=
  match addr with
  | [] => Some n
  | k :: addr' => match assoc_find k (children n) with
                  | Some c => node_at addr' c
                  | None => None
                  end
  end.

Fixpoint update_at (addr : list Z) (f : RadixNode -> RadixNode) (n : RadixNode) : RadixNode :=
  match addr with
  | [] => f n
  | k :: addr' => match assoc_find k (children n) with
                  | Some c => set_children n (assoc_set k (update_at addr' f c) (children n))
                  | None => n
                  end
  end.

(** [parent->children.erase(first_token)] *)
Definition prune (addr : list Z) (first_token : Z) (n : RadixNode) : RadixNode :=
  update_at (removelast addr) (fun p => set_children p (assoc_erase first_token (children p))) n.

Definition oldest (l : list (Z * list Z)) : option (nat * (Z * list Z)) :=
  min_element (fun a b => (a.1 <? b.1)%Z) l.

(** [ReleaseBlocksRef] when a KV cache is attached and the table is not empty. *)
Definition release_table (kv : option P) (bt : list Z) : option P :=
  match kv, bt with
  | Some p, _ :: _ => Some (pool_release_blocks p bt)
  | _, _ => kv
  end.

(** [FreeSequence] on a live backend, then the callback. *)
Definition retire_events (cb : bool) (seq : Z) (be : option nat) : list event :=
  match lock be with Some b => [EvFreeSequence b seq] | None => [] end ++
  (if cb then [EvEvictCallback seq (lock be)] else []).

Definition is_leaf (addr : list Z) (n : RadixNode) : bool :=
  bool_decide (length (children n) = 0) && negb (bool_decide (addr = [])).

Definition EvictOne (st : RadixPrefixCache) : RadixPrefixCache :=
  match oldest (CollectNodes is_leaf [] (root st)) with
  | None => st
  | Some (_, (_, addr)) =>
      match node_at addr (root st) with
      | None => st
      | Some v =>
          let i := info v in
          mkRadix (release_table (kv_cache st) (block_table i)) (on_evict_seq st)
            (capacity st) (max_sequences st) (size_ st - 1)
            (if is_donor i then live_sequences st - 1 else live_sequences st)%Z
            (clock st) (prune addr (edge v !!! 0) (root st))
            (events st ++ if is_donor i
                          then retire_events (on_evict_seq st) (sequence_id i) (backend i) else [])
      end
  end.

(** The flag is the returned [bool]; on success the retired sequence comes
    with it. *)
Definition EvictOneSequenceLocked (st : RadixPrefixCache) : RadixPrefixCache * option Z :=
  match oldest (CollectNodes (fun _ n => is_donor (info n)) [] (root st)) with
  | None => (st, None)
  | Some (_, (_, addr)) =>
      match node_at addr (root st) with
      | None => (st, None)
      | Some v =>
          let i := info v in
          let cleared := update_at addr (fun n =>
            set_info n (mkInfo [] (-1) (backend i) (last_used i))) (root st) in
          let husk := is_leaf addr v in
          (mkRadix (release_table (kv_cache st) (block_table i)) (on_evict_seq st)
             (capacity st) (max_sequences st) (if husk then size_ st - 1 else size_ st)%Z
             (live_sequences st - 1) (clock st)
             (if husk then prune addr (edge v !!! 0) cleared else cleared)
             (events st ++ retire_events (on_evict_seq st) (sequence_id i) (backend i)),
           Some (sequence_id i))
      end
  end.

Definition EvictOneSequence (st : RadixPrefixCache) : RadixPrefixCache * option Z :=
  EvictOneSequenceLocked st.

(** The two [while] loops after a new leaf. *)
Fixpoint evict_sequences_loop (fuel : nat) (st : RadixPrefixCache) : RadixPrefixCache :=
  match fuel with
  | 0 => st
  | S fuel' => if (Z.of_nat (max_sequences st) <? live_sequences st)%Z
               then evict_sequences_loop fuel' (EvictOneSequenceLocked st).1 else st
  end.

Fixpoint evict_nodes_loop (fuel : nat) (st : RadixPrefixCache) : RadixPrefixCache :=
  match fuel with
  | 0 => st
  | S fuel' => if (Z.of_nat (capacity st) <? size_ st)%Z
               then evict_nodes_loop fuel' (EvictOne st) else st
  end.

Definition Insert (st : RadixPrefixCache) (tokens bt : list Z) (seq : Z) (be : option nat) :
    RadixPrefixCache * bool :=
  if (capacity st =? 0) || bool_decide (tokens = []) || bool_decide (bt = []) then (st, false)
  else
    let stamp := u64 (clock st + 1) in
    let '(root', r) := insert_walk (S (length tokens)) (root st) tokens (mkInfo bt seq be stamp) in
    let donor := (0 <=? seq)%Z in
    match r with
    | NewLeaf s =>
        let st1 := mkRadix (kv_cache st) (on_evict_seq st) (capacity st) (max_sequences st)
          (size_ st + Z.of_nat s + 1) (live_sequences st + (if donor then 1 else 0))
          stamp root' (events st) in
        let st2 := evict_sequences_loop (Z.to_nat (live_sequences st1)) st1 in
        (evict_nodes_loop (Z.to_nat (size_ st2)) st2, true)
    | Redonate s old =>
        let displaced := is_donor old && negb (bool_decide (sequence_id old = seq)) in
        (mkRadix (release_table (kv_cache st) (block_table old)) (on_evict_seq st)
           (capacity st) (max_sequences st) (size_ st + Z.of_nat s)
           (live_sequences st - (if displaced then 1 else 0) +
              (if donor && negb (bool_decide (seq = sequence_id old)) then 1 else 0))
           stamp root'
           (events st ++ if displaced
                         then retire_events (on_evict_seq st) (sequence_id old) (backend old)
                         else []), true)
    end.

Record RadixPrefixMemorySnapshot := mkMemory {
  unique_retained_blocks : nat; retained_bytes : nat; snapshot_live : Z }.

(** The block ids retained by the donors at the given addresses. *)
Definition retained_blocks (st : RadixPrefixCache) : gset Z :=
  list_to_set (filter (fun b => (0 <= b)%Z)
    (flat_map (fun la => from_option (fun n => block_table (info n)) [] (node_at la.2 (root st)))
       (CollectNodes (fun _ n => is_donor (info n)) [] (root st)))).

Definition MemorySnapshot (st : RadixPrefixCache) : RadixPrefixMemorySnapshot :=
  let n := size (retained_blocks st) in
  mkMemory n (match kv_cache st with Some p => n * pool_page_bytes p | None => 0 end)
    (live_sequences st).

Definition ReuseEnabled (st : RadixPrefixCache) : bool :=
  (0 <? capacity st) && (0 <? max_sequences st).
End Cache.

(** ** Contents of a trie

    [items pre n] lists every node below and including [n] with the token path
    that leads to it (the concatenation of the edges). *)

Fixpoint items (pre : list Z) (n : RadixNode) : list (list Z * NodeInfo) :=
  match n with
  | Node e i cs =>
      (pre ++ e, i) :: flat_map (fun kc => let '(_, c) := kc in items (pre ++ e) c) cs
  end.

Definition child_items (pre : list Z) (cs : list (Z * RadixNode)) : list (list Z * NodeInfo) :=
  flat_map (fun kc => items pre kc.2) cs.

(** Children are keyed by the first token of their (non-empty) edge. *)
Inductive wf_node : RadixNode -> Prop :=
  | wf_intro n :
      NoDup (children n).*1 ->
      (forall k c, (k, c) ∈ children n -> head (edge c) = Some k) ->
      (forall k c, (k, c) ∈ children n -> wf_node c) ->
      wf_node n.

Lemma items_unfold pre n :
  items pre n = (pre ++ edge n, info n) :: child_items (pre ++ edge n) (children n).
Proof.
  destruct n as [e i cs]. simpl. f_equal. unfold child_items.
  induction cs as [|[k c] cs IH]; simpl; [done|]. by rewrite IH.
Qed.

Lemma child_items_app pre l k : child_items pre (l ++ k) = child_items pre l ++ child_items pre k.
Proof. unfold child_items. induction l; simpl; [done|]. by rewrite IHl, app_assoc. Qed.

Lemma child_items_cons pre k c l : child_items pre ((k, c) :: l) = items pre c ++ child_items pre l.
Proof. done. Qed.

Lemma CommonPrefixLength_spec e toks :
  let k := CommonPrefixLength e toks in
  take k e = take k toks /\ k <= length e /\ k <= length toks.
Proof.
  revert toks. induction e as [|x e IH]; intros [|t toks]; simpl; try (split_and!; done || lia).
  case_bool_decide as Hx; simpl; [|split_and!; done || lia].
  destruct (IH toks) as (Ht & ? & ?). rewrite Ht, Hx. split_and!; done || lia.
Qed.

Lemma CommonPrefixLength_full e toks :
  CommonPrefixLength e toks = length e -> toks = e ++ drop (length e) toks.
Proof.
  intros Hk. destruct (CommonPrefixLength_spec e toks) as (Ht & _ & _). rewrite Hk in Ht.
  rewrite firstn_all in Ht. rewrite Ht at 1. by rewrite take_drop.
Qed.

Lemma CommonPrefixLength_app e rest : CommonPrefixLength e (e ++ rest) = length e.
Proof.
  induction e as [|x e IH]; simpl; [by destruct rest|].
  rewrite bool_decide_eq_true_2 by done. by rewrite IH.
Qed.

Lemma CommonPrefixLength_self e : CommonPrefixLength e e = length e.
Proof. rewrite <- (app_nil_r e) at 2. apply CommonPrefixLength_app. Qed.

Lemma CommonPrefixLength_pos e t toks : head e = Some t -> 0 < CommonPrefixLength e (t :: toks).
Proof. destruct e; simpl; [done|]. intros [= ->]. rewrite bool_decide_eq_true_2 by done. lia. Qed.

(** *** Association lists *)

Lemma assoc_find_split k l c :
  assoc_find k l = Some c ->
  exists l1 l2, l = l1 ++ (k, c) :: l2 /\
    (forall c', assoc_set k c' l = l1 ++ (k, c') :: l2) /\ k ∉ l1.*1.
Proof.
  induction l as [|[k' c0] l IH]; simpl; [done|]. case_bool_decide as Hk.
  - intros [= ->]. subst k'. exists [], l. split_and!; [done|done|set_solver].
  - intros (l1 & l2 & -> & Hs & Hn)%IH. exists ((k', c0) :: l1), l2. split_and!; [done| |set_solver].
    intros c'. simpl. by rewrite Hs.
Qed.

Lemma assoc_find_In k l c : assoc_find k l = Some c -> (k, c) ∈ l.
Proof. intros (l1 & l2 & -> & _)%assoc_find_split. set_solver. Qed.

Lemma assoc_find_None k l : assoc_find k l = None -> k ∉ l.*1.
Proof.
  induction l as [|[k' c] l IH]; simpl; [set_solver|]. case_bool_decide; [done|]. set_solver.
Qed.

Lemma assoc_find_app_None k l c : assoc_find k l = None -> assoc_find k (l ++ [(k, c)]) = Some c.
Proof.
  induction l as [|[k' c0] l IH]; simpl.
  - by rewrite bool_decide_eq_true_2.
  - case_bool_decide; [done|]. auto.
Qed.

Lemma assoc_find_set k l c c' : assoc_find k l = Some c -> assoc_find k (assoc_set k c' l) = Some c'.
Proof.
  induction l as [|[k' c0] l IH]; simpl; [done|]. case_bool_decide as Hk; simpl.
  - intros _. by rewrite bool_decide_eq_true_2.
  - by rewrite bool_decide_eq_false_2.
Qed.

Lemma assoc_set_keys k l c c' : assoc_find k l = Some c -> (assoc_set k c' l).*1 = l.*1.
Proof.
  intros (l1 & l2 & -> & Hs & _)%assoc_find_split. rewrite Hs. by rewrite !fmap_app.
Qed.

Lemma assoc_set_elem k l c c' k0 c0 :
  assoc_find k l = Some c -> (k0, c0) ∈ assoc_set k c' l -> (k0, c0) ∈ l \/ (k0 = k /\ c0 = c').
Proof.
  intros (l1 & l2 & -> & Hs & _)%assoc_find_split. rewrite Hs. set_solver.
Qed.

Lemma assoc_find_NoDup k l c : NoDup l.*1 -> (k, c) ∈ l -> assoc_find k l = Some c.
Proof.
  induction l as [|[k' c0] l IH]; intros Hn Hin; simpl; [set_solver|].
  inversion_clear Hn as [|?? Hk Hn']. apply elem_of_cons in Hin as [[= -> ->]|Hin].
  - by rewrite bool_decide_eq_true_2.
  - rewrite bool_decide_eq_false_2; [by apply IH|]. intros ->. apply Hk.
    apply list_elem_of_fmap. by exists (k, c).
Qed.

Lemma assoc_erase_split l1 l2 k c :
  NoDup (l1 ++ (k, c) :: l2).*1 -> assoc_erase k (l1 ++ (k, c) :: l2) = l1 ++ l2.
Proof.
  intros Hn. rewrite fmap_app in Hn. simpl in Hn.
  apply NoDup_app in Hn as (_ & Hd & [Hk _]%NoDup_cons).
  unfold assoc_erase. rewrite filter_app, filter_cons. simpl. rewrite decide_False by naive_solver.
  f_equal; apply filter_all; intros [k' c'] Hin; simpl; intros ->.
  - apply (Hd k); [apply list_elem_of_fmap; by exists (k, c')|set_solver].
  - apply Hk. apply list_elem_of_fmap. by exists (k, c').
Qed.

(** Replacing the child under [k] replaces its items and nothing else. *)
Lemma child_items_set pre k l c :
  assoc_find k l = Some c ->
  exists rest, child_items pre l ≡ₚ items pre c ++ rest /\
    forall c', child_items pre (assoc_set k c' l) ≡ₚ items pre c' ++ rest.
Proof.
  intros (l1 & l2 & -> & Hs & _)%assoc_find_split.
  exists (child_items pre l1 ++ child_items pre l2). split; [|intros c'; rewrite Hs];
    rewrite child_items_app, child_items_cons; apply Permutation_app_swap_app.
Qed.

(** *** Well-formedness of updates *)

Lemma wf_children n k c : wf_node n -> assoc_find k (children n) = Some c ->
  wf_node c /\ head (edge c) = Some k.
Proof. intros Hn Hf%assoc_find_In. inversion_clear Hn as [? ? H1 H2]. eauto. Qed.

Lemma wf_set_info n i : wf_node n -> wf_node (set_info n i).
Proof. intros Hn. inversion_clear Hn. by constructor. Qed.

Lemma wf_set_child n k c c' :
  wf_node n -> assoc_find k (children n) = Some c -> wf_node c' -> head (edge c') = Some k ->
  wf_node (set_children n (assoc_set k c' (children n))).
Proof.
  intros Hn Hf Hc' He. inversion_clear Hn as [? Hnd H1 H2]. constructor; simpl.
  - by erewrite assoc_set_keys.
  - intros k0 c0 [Hin|[-> ->]]%(assoc_set_elem _ _ _ _ _ _ Hf); eauto.
  - intros k0 c0 [Hin|[-> ->]]%(assoc_set_elem _ _ _ _ _ _ Hf); eauto.
Qed.

Lemma wf_add_child n k c :
  wf_node n -> assoc_find k (children n) = None -> wf_node c -> head (edge c) = Some k ->
  wf_node (set_children n (children n ++ [(k, c)])).
Proof.
  intros Hn Hf%assoc_find_None Hc He. inversion_clear Hn as [? Hnd H1 H2]. constructor; simpl.
  - rewrite fmap_app. apply NoDup_app. split_and!; [done|set_solver|by repeat constructor; set_solver].
  - intros k0 c0 [Hin|Hin]%elem_of_app; [eauto|]. apply list_elem_of_singleton in Hin. by simplify_eq.
  - intros k0 c0 [Hin|Hin]%elem_of_app; [eauto|]. apply list_elem_of_singleton in Hin. by simplify_eq.
Qed.

Lemma wf_erase n k : wf_node n -> wf_node (set_children n (assoc_erase k (children n))).
Proof.
  intros Hn. inversion_clear Hn as [? Hnd H1 H2]. unfold assoc_erase. constructor; simpl.
  - by apply NoDup_fmap_filter.
  - intros k0 c0 [_ Hin]%list_elem_of_filter. eauto.
  - intros k0 c0 [_ Hin]%list_elem_of_filter. eauto.
Qed.

Lemma wf_blank : wf_node (Node [] blankInfo []).
Proof. constructor; simpl; [constructor|set_solver..]. Qed.

Lemma wf_leaf e i : wf_node (Node e i []).
Proof. constructor; simpl; [constructor|set_solver..]. Qed.
#[export] Hint Resolve wf_blank wf_leaf wf_set_info : radix.

(** ** Insertion *)

Lemma items_split pre c k :
  k <= length (edge c) ->
  items pre (SplitEdge c k) = (pre ++ take k (edge c), blankInfo) :: items pre c.
Proof.
  intros Hk. destruct c as [e i cs]. simpl. rewrite app_nil_r.
  by rewrite <- app_assoc, take_drop.
Qed.

Lemma wf_split c k : 0 < k -> k < length (edge c) -> wf_node c -> wf_node (SplitEdge c k).
Proof.
  intros Hk Hl Hc. constructor; simpl; [by apply NoDup_singleton| |].
  - intros k0 c0 Hin%list_elem_of_singleton. simplify_eq. simpl.
    destruct (lookup_lt_is_Some_2 _ _ Hl) as [x Hx].
    rewrite (list_lookup_total_correct _ _ _ Hx). erewrite drop_S by done. done.
  - intros k0 c0 Hin%list_elem_of_singleton. simplify_eq. by inversion_clear Hc; constructor.
Qed.

Lemma insert_walk_edge fuel n toks new : edge (insert_walk fuel n toks new).1 = edge n.
Proof.
  destruct fuel as [|fuel]; simpl; [done|]. destruct toks as [|t toks]; [done|].
  destruct (assoc_find t (children n)) as [c|]; [|done].
  destruct (_ <? _); destruct (insert_walk _ _ _ _); done.
Qed.

(** One descent step: the (possibly split) child carries exactly the common
    tokens on its edge, is well formed, and splitting adds one blank node. *)
Lemma insert_step n t toks c :
  wf_node n -> assoc_find t (children n) = Some c ->
  let common := CommonPrefixLength (edge c) (t :: toks) in
  let split := common <? length (edge c) in
  let c1 := if split then SplitEdge c common else c in
  0 < common <= S (length toks) /\ wf_node c1 /\ head (edge c1) = Some t /\
  edge c1 = take common (t :: toks) /\
  (forall pre, exists blanks, length blanks = (if split then 1 else 0) /\
     Forall (fun it : list Z * NodeInfo => it.2 = blankInfo) blanks /\
     items pre c1 = blanks ++ items pre c).
Proof.
  intros Hn Hf common split c1. destruct (wf_children _ _ _ Hn Hf) as [Hc He].
  destruct (CommonPrefixLength_spec (edge c) (t :: toks)) as (Htk & Hle & Hlt).
  fold common in Htk, Hle, Hlt. simpl in Hlt.
  assert (Hpos : 0 < common) by (apply CommonPrefixLength_pos; done).
  unfold c1, split. destruct (Nat.ltb_spec common (length (edge c))) as [Hs|Hs].
  - split_and!; try lia.
    + by apply wf_split.
    + simpl. rewrite Htk. destruct common; [lia|done].
    + done.
    + intros pre. exists [(pre ++ take common (edge c), blankInfo)]. split_and!; [done|by repeat constructor|].
      by rewrite items_split.
  - split_and!; try lia; try done.
    + rewrite <- Htk. symmetry. apply take_ge. lia.
    + intros pre. by exists [].
Qed.

Lemma insert_walk_wf fuel n toks new :
  wf_node n -> wf_node (insert_walk fuel n toks new).1.
Proof.
  revert n toks. induction fuel as [|fuel IH]; intros n toks Hn; simpl; [by apply wf_set_info|].
  destruct toks as [|t toks]; [by apply wf_set_info|].
  destruct (assoc_find t (children n)) as [c|] eqn:Hf; [|apply wf_add_child; auto with radix].
  destruct (insert_step n t toks c Hn Hf) as (_ & Hc1 & He1 & _ & _).
  destruct (_ <? _); simpl in *;
    match goal with |- context [insert_walk fuel ?c1 ?ts new] =>
      specialize (IH c1 ts Hc1); pose proof (insert_walk_edge fuel c1 ts new) as He;
      destruct (insert_walk fuel c1 ts new) as [c2 r] end;
    simpl in *; eapply wf_set_child; eauto; congruence.
Qed.

(** What a descent does to the contents: it adds the new entry (and possibly
    one blank node), or overwrites the entry already at that token path. *)
Definition inserted (pre toks : list Z) (new : NodeInfo) (n n' : RadixNode) (r : insert_res) : Prop :=
  exists blanks, Forall (fun it : list Z * NodeInfo => it.2 = blankInfo) blanks /\
  match r with
  | NewLeaf s => length blanks = s /\
      items pre n' ≡ₚ (pre ++ edge n ++ toks, new) :: blanks ++ items pre n
  | Redonate s old => length blanks = s /\
      exists rest, blanks ++ items pre n ≡ₚ (pre ++ edge n ++ toks, old) :: rest /\
                   items pre n' ≡ₚ (pre ++ edge n ++ toks, new) :: rest
  end.

Lemma insert_walk_items fuel n toks new n' r pre :
  wf_node n -> length toks < fuel -> insert_walk fuel n toks new = (n', r) ->
  inserted pre toks new n n' r.
Proof.
  revert n toks n' r pre. induction fuel as [|fuel IH]; intros n toks n' r pre Hn Hlen Hw; [lia|].
  simpl in Hw. destruct toks as [|t toks].
  - simplify_eq. exists []. split; [constructor|]. split; [done|].
    exists (child_items (pre ++ edge n) (children n)).
    rewrite !items_unfold, app_nil_r. simpl. done.
  - destruct (assoc_find t (children n)) as [c|] eqn:Hf.
    + destruct (insert_step n t toks c Hn Hf) as (Hcm & Hc1 & He1 & Hed & Hbl).
      set (common := CommonPrefixLength (edge c) (t :: toks)) in *.
      set (s := if common <? length (edge c) then 1 else 0) in *.
      set (c1 := if common <? length (edge c) then SplitEdge c common else c) in *.
      destruct (insert_walk fuel c1 (drop common (t :: toks)) new) as [c2 r2] eqn:Hw2.
      assert (Hres : n' = set_children n (assoc_set t c2 (children n)) /\ r = add_splits s r2).
      { unfold c1, s in *. destruct (common <? length (edge c)); rewrite Hw2 in Hw; by simplify_eq. }
      destruct Hres as [-> ->].
      assert (Hlen2 : length (drop common (t :: toks)) < fuel) by (rewrite length_drop; simpl in *; lia).
      destruct (IH _ _ _ _ (pre ++ edge n) Hc1 Hlen2 Hw2) as (bl2 & Hb2 & H2).
      destruct (Hbl (pre ++ edge n)) as (bl1 & Hl1 & Hb1 & Hi1). fold s in Hl1.
      destruct (child_items_set (pre ++ edge n) t _ _ Hf) as (rest & Hc & Hset).
      assert (Hpath : (pre ++ edge n) ++ edge c1 ++ drop common (t :: toks) = pre ++ edge n ++ t :: toks).
      { rewrite Hed, take_drop. by rewrite <- app_assoc. }
      rewrite Hpath in H2.
      exists (bl2 ++ bl1). split; [by apply Forall_app|].
      rewrite !items_unfold. simpl. set (own := (pre ++ edge n, info n)). specialize (Hset c2).
      destruct r2 as [k|k old]; simpl.
      * destruct H2 as [Hk H2]. rewrite length_app. split; [lia|].
        rewrite Hset, H2, Hi1, Hc. solve_Permutation.
      * destruct H2 as (Hk & rest2 & H2 & H2'). rewrite length_app. split; [lia|].
        exists (own :: rest2 ++ rest). split.
        -- rewrite Hc. transitivity (own :: (bl2 ++ items (pre ++ edge n) c1) ++ rest).
           { rewrite Hi1. solve_Permutation. }
           rewrite H2. solve_Permutation.
        -- rewrite Hset, H2'. solve_Permutation.
    + simplify_eq. exists []. split; [constructor|]. split; [done|].
      rewrite !items_unfold. simpl. rewrite child_items_app, child_items_cons.
      rewrite (items_unfold _ (Node _ _ _)). simpl. rewrite <- !app_assoc. solve_Permutation.
Qed.

(** ** Addresses and eviction *)

(** Tokens on the edges above the node at an address. *)
Fixpoint path_to (addr : list Z) (n : RadixNode) : list Z :=
  match addr with
  | [] => []
  | k :: addr' => edge n ++ from_option (path_to addr') [] (assoc_find k (children n))
  end.

Lemma update_at_items addr n v pre :
  node_at addr n = Some v ->
  exists rest, items pre n ≡ₚ items (pre ++ path_to addr n) v ++ rest /\
    forall f, items pre (update_at addr f n) ≡ₚ items (pre ++ path_to addr n) (f v) ++ rest.
Proof.
  revert n pre. induction addr as [|k addr IH]; intros n pre Hv; simpl in *.
  - simplify_eq. exists []. rewrite !app_nil_r. split; [done|]. intros f. by rewrite app_nil_r.
  - destruct (assoc_find k (children n)) as [c|] eqn:Hf; [|done]. cbn [from_option]. rewrite app_assoc.
    destruct (IH _ (pre ++ edge n) Hv) as (rest & H1 & H2).
    destruct (child_items_set (pre ++ edge n) k _ _ Hf) as (rest' & Hc & Hset).
    exists ((pre ++ edge n, info n) :: rest ++ rest'). split.
    + rewrite items_unfold, Hc, H1. solve_Permutation.
    + intros f. rewrite items_unfold. simpl. rewrite Hset, H2. solve_Permutation.
Qed.

Lemma path_to_update addr n f : path_to addr (update_at addr f n) = path_to addr n.
Proof.
  revert n. induction addr as [|k addr IH]; intros n; simpl; [done|].
  destruct (assoc_find k (children n)) as [c|] eqn:Hf; simpl; [|by rewrite Hf].
  rewrite (assoc_find_set _ _ _ _ Hf). simpl. by rewrite IH.
Qed.

Lemma path_to_snoc addr k n p :
  node_at addr n = Some p -> path_to (addr ++ [k]) n = path_to addr n ++ edge p.
Proof.
  revert n. induction addr as [|k' addr IH]; intros n Hp; simpl in *.
  - simplify_eq. destruct (assoc_find _ _); simpl; by rewrite app_nil_r.
  - destruct (assoc_find k' (children n)); [|done]. simpl. by rewrite IH, app_assoc.
Qed.

Lemma node_at_update addr n v f :
  node_at addr n = Some v -> node_at addr (update_at addr f n) = Some (f v).
Proof.
  revert n. induction addr as [|k addr IH]; intros n Hv; simpl in *; [by simplify_eq|].
  destruct (assoc_find k (children n)) as [c|] eqn:Hf; [|done]. simpl.
  rewrite (assoc_find_set _ _ _ _ Hf). by apply IH.
Qed.

Lemma update_at_edge addr n f : (forall m, edge (f m) = edge m) -> edge (update_at addr f n) = edge n.
Proof. intros Hf. destruct addr as [|k addr]; simpl; [done|]. by destruct (assoc_find _ _). Qed.

Lemma update_at_wf addr n f :
  (forall m, wf_node m -> wf_node (f m)) -> (forall m, edge (f m) = edge m) ->
  wf_node n -> wf_node (update_at addr f n).
Proof.
  intros Hf He. revert n. induction addr as [|k addr IH]; intros n Hn; simpl; [auto|].
  destruct (assoc_find k (children n)) as [c|] eqn:Hk; [|done].
  destruct (wf_children _ _ _ Hn Hk). eapply wf_set_child; eauto.
  by rewrite update_at_edge.
Qed.

Lemma update_at_info addr n f : addr <> [] -> info (update_at addr f n) = info n.
Proof. destruct addr as [|k addr]; [done|]. intros _. simpl. by destruct (assoc_find _ _). Qed.

Lemma node_at_snoc addr k n v :
  node_at (addr ++ [k]) n = Some v ->
  exists p, node_at addr n = Some p /\ assoc_find k (children p) = Some v.
Proof.
  revert n. induction addr as [|k' addr IH]; intros n Hv; simpl in *.
  - destruct (assoc_find k (children n)) eqn:Hf; simplify_eq. eauto.
  - destruct (assoc_find k' (children n)); [|done]. by apply IH.
Qed.

Lemma node_at_wf addr n v : wf_node n -> node_at addr n = Some v -> wf_node v.
Proof.
  revert n. induction addr as [|k addr IH]; intros n Hn Hv; simpl in *; [by simplify_eq|].
  destruct (assoc_find k (children n)) as [c|] eqn:Hf; [|done].
  destruct (wf_children _ _ _ Hn Hf). eauto.
Qed.

(** Pruning a child removes exactly that child's items. *)
Lemma prune_items addr n v pre :
  wf_node n -> addr <> [] -> node_at addr n = Some v ->
  (items pre n ≡ₚ items (pre ++ path_to addr n) v ++ items pre (prune addr (edge v !!! 0) n)) /\
  wf_node (prune addr (edge v !!! 0) n) /\
  edge (prune addr (edge v !!! 0) n) = edge n /\ info (prune addr (edge v !!! 0) n) = info n.
Proof.
  intros Hn Hne Hv. destruct (exists_last Hne) as (pp & k & ->). unfold prune.
  rewrite removelast_last. destruct (node_at_snoc _ _ _ _ Hv) as (par & Hpar & Hk).
  pose proof (node_at_wf _ _ _ Hn Hpar) as Hwp. destruct (wf_children _ _ _ Hwp Hk) as [_ He].
  assert (edge v !!! 0 = k) as -> by (destruct (edge v); simpl in *; by simplify_eq).
  split_and!.
  - destruct (update_at_items pp n par pre Hpar) as (rest & H1 & H2).
    rewrite H1, H2, (path_to_snoc _ _ _ _ Hpar), (app_assoc pre).
    set (p := pre ++ path_to pp n). rewrite !items_unfold. simpl.
    inversion_clear Hwp as [? Hnd _ _].
    apply assoc_find_split in Hk as (l1 & l2 & E & _). rewrite E in *.
    rewrite assoc_erase_split by done.
    rewrite !child_items_app, child_items_cons, items_unfold. solve_Permutation.
  - apply update_at_wf; [intros; by apply wf_erase|done|done].
  - by rewrite update_at_edge.
  - destruct pp as [|k' pp]; [done|]. by apply update_at_info.
Qed.

Lemma CollectNodes_unfold crit addr n :
  CollectNodes crit addr n =
    (if crit addr n then [(last_used (info n), addr)] else []) ++
    flat_map (fun kc => CollectNodes crit (addr ++ [kc.1]) kc.2) (children n).
Proof.
  destruct n as [e i cs]. simpl. f_equal. induction cs as [|[k c] cs IH]; simpl; [done|]. by rewrite IH.
Qed.

Lemma CollectNodes_sound crit addr n lu a :
  wf_node n -> (lu, a) ∈ CollectNodes crit addr n ->
  exists q v, a = addr ++ q /\ node_at q n = Some v /\ crit a v = true /\ lu = last_used (info v).
Proof.
  intros Hn. revert addr. induction Hn as [n Hnd Hh Hc IH]; intros addr Hin.
  rewrite CollectNodes_unfold in Hin. apply elem_of_app in Hin as [Hin|Hin].
  - destruct (crit addr n) eqn:Hcr; [|set_solver]. apply list_elem_of_singleton in Hin. simplify_eq.
    exists [], n. by rewrite app_nil_r.
  - apply list_elem_of_In, in_flat_map in Hin as ([k c] & Hkc & Hin). simpl in Hin.
    apply list_elem_of_In in Hin, Hkc. apply IH with (k := k) in Hin as (q & v & -> & Hv & Hcr & ->);
      [|done].
    exists (k :: q), v. simpl. rewrite (assoc_find_NoDup _ _ _ Hnd Hkc).
    split_and!; [by rewrite <- app_assoc|done..].
Qed.

(** For criteria on the node's own fields, the collected stamps are those of
    the matching items. *)
Lemma CollectNodes_stamps (g : NodeInfo -> bool) addr n pre :
  wf_node n ->
  (CollectNodes (fun _ m => g (info m)) addr n).*1 =
  last_used <$> (filter (fun it => g it.2 = true) (items pre n)).*2.
Proof.
  intros Hn. revert addr pre. induction Hn as [n _ _ _ IH]; intros addr pre.
  rewrite CollectNodes_unfold, items_unfold, fmap_app, filter_cons. simpl.
  assert (Hch : (flat_map (fun kc => CollectNodes (fun _ m => g (info m)) (addr ++ [kc.1]) kc.2)
             (children n)).*1 =
           last_used <$> (filter (fun it => g it.2 = true) (child_items (pre ++ edge n) (children n))).*2).
  { revert IH. generalize (children n). intros l IH. induction l as [|[k c] l IHl]; [done|].
    rewrite child_items_cons. simpl. rewrite filter_app, !fmap_app. f_equal.
    - apply (IH k). set_solver.
    - apply IHl. intros k' c' Hin. apply (IH k'). set_solver. }
  rewrite Hch. destruct (g (info n)); [rewrite decide_True by done|rewrite decide_False by done]; done.
Qed.

Lemma CollectNodes_leaf addr n : wf_node n -> addr <> [] -> CollectNodes is_leaf addr n <> [].
Proof.
  intros Hn. revert addr. induction Hn as [n _ _ _ IH]; intros addr Hne.
  rewrite CollectNodes_unfold. unfold is_leaf at 1. destruct (children n) as [|[k c] cs] eqn:Hc; simpl.
  - rewrite (bool_decide_eq_false_2 (addr = [])) by done. done.
  - intros Hnil. apply app_nil in Hnil as [Hnil _]. apply (IH k c ltac:(set_solver) (addr ++ [k])); [|done].
    by destruct addr.
Qed.

(** ** Lookup *)

(** A node's identity without its LRU stamp. *)
Definition strip (it : list Z * NodeInfo) : list Z * (list Z * Z * option nat) :=
  (it.1, (block_table it.2, sequence_id it.2, backend it.2)).

Section LookupFacts.
Variable alive : nat -> bool.
Abbreviation lookup_walk := (lookup_walk alive).

Lemma lookup_walk_shape fuel n toks be w :
  wf_node n ->
  let n' := (lookup_walk fuel n toks be w).1 in
  wf_node n' /\ edge n' = edge n /\ info n' = info n /\
  forall pre, strip <$> items pre n' ≡ₚ strip <$> items pre n.
Proof.
  revert n toks w. induction fuel as [|fuel IH]; intros n toks w Hn; simpl; [done|].
  destruct toks as [|t toks]; [done|].
  destruct (assoc_find t (children n)) as [c|] eqn:Hf; [|done].
  destruct (_ <? _); [done|]. destruct (is_donor (info c) && _); [done|].
  destruct (wf_children _ _ _ Hn Hf) as [Hc He].
  set (c1 := set_info c _). set (w1 := if is_donor _ then _ else _).
  destruct (IH c1 (drop (CommonPrefixLength (edge c) (t :: toks)) (t :: toks)) w1) as (Hw & Hed & _ & Hit).
  { by apply wf_set_info. }
  destruct (lookup_walk fuel c1 _ be w1) as [c2 w2]. cbn [fst] in *.
  split_and!; [|done..|].
  - eapply wf_set_child; eauto. by rewrite Hed.
  - intros pre. rewrite !items_unfold, !fmap_cons. apply Permutation_skip.
    cbn [children edge set_children].
    destruct (child_items_set (pre ++ edge n) t _ _ Hf) as (rest & H1 & H2).
    rewrite H2, H1, !fmap_app, Hit. by rewrite !items_unfold.
Qed.

(** Whatever donor the walk reports lies on the path of the query, belongs to
    the asking backend and covers exactly [w_tokens] tokens of it. *)
Definition reported (pre toks : list Z) (n : RadixNode) (be : option nat) (w w' : walk) : Prop :=
  exists k d, k <= length toks /\
    (pre ++ edge n ++ take k toks, (w_blocks w', w_seq w', d)) ∈ strip <$> items pre n /\
    (0 <= w_seq w')%Z /\ lock alive d = be /\ w_tokens w' = w_off w + k.

Lemma lookup_walk_sound fuel n toks be w pre n' w' :
  wf_node n -> lookup_walk fuel n toks be w = (n', w') ->
  (w_seq w' = w_seq w /\ w_tokens w' = w_tokens w /\ w_blocks w' = w_blocks w) \/
  reported pre toks n be w w'.
Proof.
  revert n toks w pre n' w'. induction fuel as [|fuel IH]; intros n toks w pre n' w' Hn Hw;
    simpl in Hw; [simplify_eq; by left|].
  destruct toks as [|t toks]; [simplify_eq; by left|].
  destruct (assoc_find t (children n)) as [c|] eqn:Hf; [|simplify_eq; by left].
  set (common := CommonPrefixLength (edge c) (t :: toks)) in *.
  destruct (Nat.ltb_spec common (length (edge c))) as [|Hfull]; [simplify_eq; by left|].
  destruct (is_donor (info c) && _) eqn:Hbe; [simplify_eq; by left|].
  destruct (wf_children _ _ _ Hn Hf) as [Hc He].
  destruct (CommonPrefixLength_spec (edge c) (t :: toks)) as (_ & Hle & Hlt). fold common in Hle, Hlt.
  assert (Hcl : common = length (edge c)) by lia.
  pose proof (CommonPrefixLength_full _ _ Hcl) as Htoks.
  set (c1 := set_info c _) in *. set (w1 := if is_donor _ then _ else _) in *.
  destruct (lookup_walk fuel c1 (drop common (t :: toks)) be w1) as [c2 w2] eqn:Hrec.
  injection Hw as <- <-.
  assert (Hpath : forall k, (pre ++ edge n) ++ edge c ++ take k (drop common (t :: toks)) =
                       pre ++ edge n ++ take (common + k) (t :: toks)).
  { intros k. rewrite <- app_assoc. do 2 f_equal. rewrite Htoks at 2.
    rewrite Hcl, take_app_ge by lia. rewrite <- Hcl.
    by replace (common + k - common) with k by lia. }
  assert (Hsub : forall x, x ∈ strip <$> items (pre ++ edge n) c1 -> x ∈ strip <$> items pre n).
  { intros x Hx. destruct (child_items_set (pre ++ edge n) t _ _ Hf) as (rest & Hperm & _).
    rewrite items_unfold, fmap_cons, Hperm, fmap_app. right. apply elem_of_app. left.
    by rewrite items_unfold in *. }
  assert (Hoff : w_off w1 = w_off w + common) by (unfold w1; by destruct (is_donor _)).
  apply IH with (pre := pre ++ edge n) in Hrec; [|by apply wf_set_info].
  destruct Hrec as [(H1 & H2 & H3)|(k & d & Hk & Hin & Hd & Hl & H3)].
  - destruct (is_donor (info c)) eqn:Hdon; unfold w1 in *; simpl in H1, H2, H3; [|left; by split_and!].
    right. exists common, (backend (info c)). rewrite H1, H2, H3. split_and!; try done.
    + apply Hsub. specialize (Hpath 0). rewrite take_0, app_nil_r, Nat.add_0_r in Hpath.
      rewrite <- Hpath, items_unfold, fmap_cons. left.
    + by apply Z.leb_le.
    + by apply negb_false_iff, bool_decide_eq_true in Hbe.
  - right. exists (common + k), d. rewrite length_drop in Hk. simpl in Hk.
    split_and!; try done; [simpl in *; lia| |lia].
    rewrite <- Hpath. apply Hsub. done.
Qed.
End LookupFacts.

(** The node fields of a trie, without their paths. *)
Definition infos (n : RadixNode) : list NodeInfo := (items [] n).*2.

Lemma items_infos pre n : wf_node n -> (items pre n).*2 = infos n.
Proof.
  unfold infos. intros Hn. generalize (@nil Z) as pre'. revert pre.
  induction Hn as [n _ _ _ IH]; intros pre pre'. rewrite !items_unfold, !fmap_cons. simpl. f_equal.
  revert IH. generalize (children n). intros l IH. induction l as [|[k c] l IHl]; [done|].
  rewrite !child_items_cons, !fmap_app. f_equal.
  - apply (IH k). set_solver.
  - apply IHl. intros k' c' Hin. apply (IH k'). set_solver.
Qed.

Lemma infos_child n k c i : wf_node n -> assoc_find k (children n) = Some c -> i ∈ infos c -> i ∈ infos n.
Proof.
  intros Hn Hf Hi. destruct (wf_children _ _ _ Hn Hf) as [Hc _].
  rewrite <- (items_infos (edge n)) in Hi by done. unfold infos. rewrite items_unfold, fmap_cons.
  right. destruct (child_items_set (edge n) k _ _ Hf) as (rest & -> & _).
  rewrite fmap_app. apply elem_of_app. by left.
Qed.

Lemma insert_walk_info fuel n toks new :
  fuel <> 0 -> toks <> [] -> info (insert_walk fuel n toks new).1 = info n.
Proof.
  intros Hf Ht. destruct fuel as [|fuel], toks as [|t toks]; try done. simpl.
  destruct (assoc_find t (children n)) as [c|]; [|done].
  destruct (_ <? _); by destruct (insert_walk _ _ _ _).
Qed.

Lemma lookup_walk_set_info alive fuel n i toks be w :
  (lookup_walk alive fuel (set_info n i) toks be w).2 = (lookup_walk alive fuel n toks be w).2.
Proof.
  destruct fuel as [|fuel], toks as [|t toks]; try done. cbn [lookup_walk children set_info].
  destruct (assoc_find t (children n)) as [c|]; [|done].
  destruct (_ <? _); [done|]. destruct (_ && _); [done|]. by destruct (lookup_walk _ _ _ _ _ _).
Qed.

(** Looking up what was just inserted: the walk passes only donors of the asking
    backend and ends on the new entry. *)
Lemma insert_then_lookup alive fuel fuel2 n toks new n' r be w :
  wf_node n -> length toks < fuel -> length toks <= fuel2 -> toks <> [] ->
  insert_walk fuel n toks new = (n', r) ->
  is_donor new = true -> lock alive (backend new) = be ->
  (forall i, i ∈ infos n -> is_donor i = true -> lock alive (backend i) = be) ->
  let w' := (lookup_walk alive fuel2 n' toks be w).2 in
  w_hit w' = true /\ w_seq w' = sequence_id new /\ w_blocks w' = block_table new /\
  w_tokens w' = w_off w + length toks.
Proof.
  revert fuel2 n toks n' r w. induction fuel as [|fuel IH];
    intros fuel2 n toks n' r w Hn Hlen Hlen2 Hne Hw Hd Hbe Hall; [lia|].
  destruct toks as [|t toks]; [done|]. destruct fuel2 as [|fuel2]; [simpl in Hlen2; lia|].
  cbn [insert_walk] in Hw. destruct (assoc_find t (children n)) as [c|] eqn:Hf.
  - destruct (insert_step n t toks c Hn Hf) as (Hcm & Hc1 & He1 & Hed & Hbl).
    set (common := CommonPrefixLength (edge c) (t :: toks)) in *.
    set (c1 := if common <? length (edge c) then SplitEdge c common else c) in *.
    destruct (insert_walk fuel c1 (drop common (t :: toks)) new) as [c2 r2] eqn:Hw2.
    assert (Hn' : n' = set_children n (assoc_set t c2 (children n))).
    { unfold c1 in *. destruct (common <? length (edge c)); rewrite Hw2 in Hw; by simplify_eq. }
    subst n'. cbn [lookup_walk children set_children].
    rewrite (assoc_find_set _ _ _ _ Hf).
    assert (Hec2 : edge c2 = take common (t :: toks)).
    { pose proof (insert_walk_edge fuel c1 (drop common (t :: toks)) new) as E.
      rewrite Hw2 in E. simpl in E. by rewrite E. }
    assert (Hcl : length (edge c2) = common) by (rewrite Hec2, length_take; simpl; lia).
    assert (Hcom : CommonPrefixLength (edge c2) (t :: toks) = common).
    { rewrite <- (take_drop common (t :: toks)), <- Hec2. by rewrite CommonPrefixLength_app. }
    rewrite Hcom, Hcl, Nat.ltb_irrefl.
    assert (Hall1 : forall i, i ∈ infos c1 -> is_donor i = true -> lock alive (backend i) = be).
    { intros i Hin Hdon. destruct (Hbl []) as (bl & _ & Hblank & E). unfold infos in Hin.
      rewrite E, fmap_app in Hin. apply elem_of_app in Hin as [Hin|Hin].
      - apply list_elem_of_fmap in Hin as (it & -> & Hin).
        rewrite Forall_forall in Hblank. rewrite (Hblank _ Hin) in Hdon. done.
      - apply Hall; [|done]. by eapply infos_child. }
    set (toks2 := drop common (t :: toks)) in *.
    assert (Hl2 : length toks2 = S (length toks) - common) by (unfold toks2; by rewrite length_drop).
    destruct (decide (toks2 = [])) as [Hnil|Hnn].
    + rewrite Hnil in *. simpl in Hl2.
      assert (c2 = set_info c1 new) as -> by (destruct fuel; simpl in Hw2; by simplify_eq).
      cbn [info set_info]. rewrite Hd, Hbe, bool_decide_eq_true_2 by done. simpl.
      destruct fuel2; simpl; split_and!; done || lia.
    + assert (Hinfo : info c2 = info c1).
      { pose proof (insert_walk_info fuel c1 toks2 new) as E. rewrite Hw2 in E. apply E; [|done].
        destruct toks2; [done|]. simpl in *. lia. }
      assert (Hguard : is_donor (info c2) && negb (bool_decide (lock alive (backend (info c2)) = be)) = false).
      { rewrite Hinfo. destruct (is_donor (info c1)) eqn:Hdon; [|done].
        rewrite bool_decide_eq_true_2; [done|]. apply Hall1; [|done].
        unfold infos. rewrite items_unfold, fmap_cons. left. }
      rewrite Hguard. set (w1 := if is_donor _ then _ else _).
      destruct (IH fuel2 c1 toks2 c2 r2 w1) as (H1 & H2 & H3 & H4); try done; simpl in *; try lia.
      rewrite <- (lookup_walk_set_info alive fuel2 c2 (mkInfo (block_table (info c2))
        (sequence_id (info c2)) (backend (info c2)) (u64 (w_clock w + 1)))) in H1, H2, H3, H4.
      destruct (lookup_walk alive fuel2 (set_info c2 _) toks2 be w1) as [c3 w3]. simpl in *.
      split_and!; try done. rewrite H4. unfold w1. destruct (is_donor (info c2)); simpl; lia.
  - simplify_eq. cbn [lookup_walk children set_children].
    rewrite (assoc_find_app_None _ _ _ Hf). cbn [edge info].
    rewrite CommonPrefixLength_self, Nat.ltb_irrefl, drop_all.
    rewrite Hd, bool_decide_eq_true_2 by done.
    destruct fuel2; simpl; split_and!; done || lia.
Qed.

(** *** The reported match is the longest one *)

Lemma items_prefix pre n it : wf_node n -> it ∈ items pre n -> exists s, it.1 = pre ++ edge n ++ s.
Proof.
  intros Hn. revert pre. induction Hn as [n _ _ _ IH]; intros pre Hin.
  rewrite items_unfold in Hin. apply elem_of_cons in Hin as [->|Hin].
  - exists []. by rewrite app_nil_r.
  - unfold child_items in Hin. apply list_elem_of_In, in_flat_map in Hin as ([k c] & Hc & Hin).
    apply list_elem_of_In in Hc, Hin. destruct (IH k c Hc _ Hin) as [s ->].
    exists (edge c ++ s). by rewrite <- app_assoc.
Qed.

(** An entry below [n] whose path continues with [t] lies below the child of [t]. *)
Lemma items_step pre n t s i :
  wf_node n -> (pre ++ edge n ++ t :: s, i) ∈ items pre n ->
  exists c s', assoc_find t (children n) = Some c /\ t :: s = edge c ++ s' /\
    (pre ++ edge n ++ t :: s, i) ∈ items (pre ++ edge n) c.
Proof.
  intros Hn Hin. rewrite items_unfold in Hin. apply elem_of_cons in Hin as [E|Hin].
  - apply (f_equal (fun it => length it.1)) in E. simpl in E.
    rewrite !length_app in E. simpl in E. lia.
  - unfold child_items in Hin. apply list_elem_of_In, in_flat_map in Hin as ([k c] & Hc & Hin).
    apply list_elem_of_In in Hc, Hin. simpl in Hin. inversion_clear Hn as [? Hnd Hh Hch].
    destruct (items_prefix _ _ _ (Hch _ _ Hc) Hin) as [s' E]. simpl in E.
    rewrite <- app_assoc in E. apply app_inv_head, app_inv_head in E.
    pose proof (Hh _ _ Hc) as Hk. exists c, s'. split; [|done]. apply assoc_find_NoDup; [done|].
    destruct (edge c) as [|x e]; simpl in *; [done|]. by simplify_eq.
Qed.

Lemma lookup_walk_longest alive fuel n toks be w pre :
  wf_node n -> length toks <= fuel -> w_tokens w <= w_off w ->
  (forall i, i ∈ infos n -> is_donor i = true -> lock alive (backend i) = be) ->
  let w' := (lookup_walk alive fuel n toks be w).2 in
  w_tokens w <= w_tokens w' /\
  forall k i, 0 < k <= length toks -> is_donor i = true ->
    (pre ++ edge n ++ take k toks, i) ∈ items pre n -> w_off w + k <= w_tokens w'.
Proof.
  revert n toks w pre. induction fuel as [|fuel IH]; intros n toks w pre Hn Hlen Hw Hall.
  { destruct toks; simpl in *; [|lia]. split; lia. }
  destruct toks as [|t toks]; [simpl; split; lia|]. cbn [lookup_walk].
  assert (Hstep : forall k i, 0 < k -> (pre ++ edge n ++ take k (t :: toks), i) ∈ items pre n ->
    exists c s', assoc_find t (children n) = Some c /\ take k (t :: toks) = edge c ++ s' /\
      (pre ++ edge n ++ take k (t :: toks), i) ∈ items (pre ++ edge n) c).
  { intros [|k] i Hk Hin; [lia|]. by apply items_step. }
  destruct (assoc_find t (children n)) as [c|] eqn:Hf.
  2: { split; [done|]. intros k i [Hk _] _ Hin. by destruct (Hstep k i Hk Hin) as (c & s' & ? & _). }
  set (common := CommonPrefixLength (edge c) (t :: toks)).
  assert (Hfull : forall k s', take k (t :: toks) = edge c ++ s' -> common = length (edge c)).
  { intros k s' E. unfold common. rewrite <- (take_drop k (t :: toks)), E, <- app_assoc.
    apply CommonPrefixLength_app. }
  destruct (Nat.ltb_spec common (length (edge c))) as [Hlt|Hge].
  { split; [done|]. intros k i [Hk _] _ Hin. destruct (Hstep k i Hk Hin) as (c' & s' & [= <-] & E & _).
    apply Hfull in E. lia. }
  destruct (CommonPrefixLength_spec (edge c) (t :: toks)) as (_ & Hle & Hlt2). fold common in Hle, Hlt2.
  destruct (wf_children _ _ _ Hn Hf) as [Hc He].
  pose proof (CommonPrefixLength_pos _ _ toks He) as Hpos. fold common in Hpos.
  assert (Hallc : forall i, i ∈ infos c -> is_donor i = true -> lock alive (backend i) = be).
  { intros i Hi. apply Hall. by eapply infos_child. }
  assert (Hg : is_donor (info c) && negb (bool_decide (lock alive (backend (info c)) = be)) = false).
  { destruct (is_donor (info c)) eqn:Hd; [|done]. rewrite bool_decide_eq_true_2; [done|].
    apply Hallc; [|done]. unfold infos. rewrite items_unfold, fmap_cons. left. }
  rewrite Hg. set (w1 := if is_donor _ then _ else _).
  assert (Hw1 : w_off w1 = w_off w + common /\ w_tokens w1 <= w_off w1 /\ w_tokens w <= w_tokens w1 /\
    (is_donor (info c) = true -> w_tokens w1 = w_off w1)).
  { unfold w1. destruct (is_donor (info c)); simpl; split_and!; done || lia. }
  destruct Hw1 as (Ho1 & Ht1 & Hm1 & Hd1).
  destruct (IH c (drop common (t :: toks)) w1 (pre ++ edge n) Hc) as [IH1 IH2]; try done.
  { rewrite length_drop. simpl in *. lia. }
  rewrite <- (lookup_walk_set_info alive fuel c (mkInfo (block_table (info c))
    (sequence_id (info c)) (backend (info c)) (u64 (w_clock w + 1)))) in IH1, IH2.
  destruct (lookup_walk alive fuel (set_info c _) _ be w1) as [c2 w2]. cbn [snd] in *.
  split; [lia|]. intros k i Hk Hdon Hin.
  destruct (Hstep k i (proj1 Hk) Hin) as (c' & s' & [= <-] & E & Hinc).
  assert (Hkc : common <= k).
  { apply (f_equal length) in E. rewrite length_take, length_app in E. lia. }
  destruct (decide (k = common)) as [->|Hne].
  - assert (Hd : is_donor (info c) = true); [|specialize (Hd1 Hd); lia].
    rewrite items_unfold in Hinc. apply elem_of_cons in Hinc as [[= _ ->]|Hinc]; [done|exfalso].
    unfold child_items in Hinc. apply list_elem_of_In, in_flat_map in Hinc as ([k' d] & Hkd & Hinc).
    apply list_elem_of_In in Hkd, Hinc. inversion_clear Hc as [? _ Hh Hch].
    destruct (items_prefix _ _ _ (Hch _ _ Hkd) Hinc) as [s2 E2]. simpl in E2.
    pose proof (Hh _ _ Hkd) as Hhd. apply (f_equal length) in E2.
    rewrite !length_app, length_take in E2. destruct (edge d); simpl in *; [done|lia].
  - assert (w_off w1 + (k - common) <= w_tokens w2); [|lia]. apply (IH2 (k - common) i); [|done|].
    + rewrite length_drop. lia.
    + assert (Ek : take k (t :: toks) = edge c ++ take (k - common) (drop common (t :: toks))).
      { assert (common = length (edge c)) as Hcl by lia.
        rewrite (CommonPrefixLength_full _ _ Hcl) at 1. rewrite take_app_ge by lia.
        by rewrite <- Hcl. }
      by rewrite Ek in Hinc; rewrite <- app_assoc.
Qed.

(** *** Splits and re-donations *)

Definition splits_of (r : insert_res) : nat :=
  match r with NewLeaf s => s | Redonate s _ => s end.

Lemma CommonPrefixLength_diverges e toks x :
  let k := CommonPrefixLength e toks in
  k < length e -> toks !! k = Some x -> e !!! k <> x.
Proof.
  revert toks. induction e as [|y e IH]; intros [|t toks]; simpl; try (done || lia).
  case_bool_decide as Hx; simpl; [|by intros _ [= ->]].
  intros Hk Ht. apply IH; [lia|done].
Qed.

(** An insertion splits at most one edge. *)
Lemma insert_walk_splits fuel n toks new :
  wf_node n -> length toks < fuel -> splits_of (insert_walk fuel n toks new).2 <= 1.
Proof.
  revert n toks. induction fuel as [|fuel IH]; intros n toks Hn Hlen; [lia|].
  destruct toks as [|t toks]; [simpl; lia|]. cbn [insert_walk].
  destruct (assoc_find t (children n)) as [c|] eqn:Hf; [|simpl; lia].
  destruct (insert_step n t toks c Hn Hf) as (Hcm & _ & _ & _ & _).
  destruct (wf_children _ _ _ Hn Hf) as [Hc He].
  set (common := CommonPrefixLength (edge c) (t :: toks)) in *.
  assert (Hlen2 : length (drop common (t :: toks)) < fuel) by (rewrite length_drop; simpl in *; lia).
  destruct (Nat.ltb_spec common (length (edge c))) as [Hlt|Hge].
  - destruct (drop common (t :: toks)) as [|x rest] eqn:Hd.
    + destruct fuel; [simpl in Hlen2; lia|]. simpl. lia.
    + assert (Hx : (t :: toks) !! common = Some x).
      { by rewrite <- (Nat.add_0_r common), <- lookup_drop, Hd. }
      pose proof (CommonPrefixLength_diverges _ _ _ Hlt Hx) as Hne. fold common in Hne.
      destruct fuel; [simpl in Hlen2; lia|]. simpl. by rewrite bool_decide_eq_false_2.
  - specialize (IH c _ Hc Hlen2). destruct (insert_walk fuel c _ new) as [c2 r]. by destruct r.
Qed.

(** Ending on an existing node means the tokens are a prefix of an entry. *)
Lemma insert_walk_redonate fuel n toks new s old pre :
  wf_node n -> length toks < fuel -> (insert_walk fuel n toks new).2 = Redonate s old ->
  exists it, it ∈ items pre n /\ (pre ++ edge n ++ toks) `prefix_of` it.1.
Proof.
  revert n toks s pre. induction fuel as [|fuel IH]; intros n toks s pre Hn Hlen Hr; [lia|].
  destruct toks as [|t toks].
  { exists (pre ++ edge n, info n). rewrite items_unfold, app_nil_r. split; [left|done]. }
  cbn [insert_walk] in Hr. destruct (assoc_find t (children n)) as [c|] eqn:Hf; [|done].
  destruct (insert_step n t toks c Hn Hf) as (Hcm & Hc1 & _ & He1 & _).
  destruct (wf_children _ _ _ Hn Hf) as [Hc He].
  set (common := CommonPrefixLength (edge c) (t :: toks)) in *.
  assert (Hlen2 : length (drop common (t :: toks)) < fuel) by (rewrite length_drop; simpl in *; lia).
  set (c1 := if common <? length (edge c) then SplitEdge c common else c) in *.
  assert (Hr1 : exists s1, (insert_walk fuel c1 (drop common (t :: toks)) new).2 = Redonate s1 old).
  { unfold c1 in *. destruct (_ <? _); destruct (insert_walk fuel _ _ new) as [c2 [|]]; simpl in *;
      simplify_eq; eauto. }
  destruct Hr1 as [s1 Hr1]. destruct (IH _ _ _ (pre ++ edge n) Hc1 Hlen2 Hr1) as (it & Hit & Hpre).
  assert (Hpath : (pre ++ edge n) ++ edge c1 ++ drop common (t :: toks) = pre ++ edge n ++ t :: toks).
  { rewrite <- app_assoc. do 2 f_equal. rewrite He1. apply take_drop. }
  rewrite Hpath in Hpre.
  assert (Hsub : forall it, it ∈ items (pre ++ edge n) c -> it ∈ items pre n).
  { intros it' Hin. rewrite items_unfold. right.
    destruct (child_items_set (pre ++ edge n) t _ _ Hf) as (rest & -> & _). set_solver. }
  assert (Hcc : exists it', it' ∈ items (pre ++ edge n) c /\ it.1 `prefix_of` it'.1).
  { unfold c1 in Hit. destruct (_ <? _); [|by exists it].
    unfold SplitEdge in Hit. rewrite items_unfold in Hit. cbn [edge info children] in Hit.
    rewrite child_items_cons, app_nil_r, items_unfold in Hit. cbn [edge info children] in Hit.
    rewrite <- (app_assoc _ (take _ _)), take_drop in Hit. apply elem_of_cons in Hit as [->|Hit].
    - exists ((pre ++ edge n) ++ edge c, info c). rewrite items_unfold. split; [left|]. simpl.
      apply prefix_app. rewrite <- (take_drop common (edge c)) at 2. by apply prefix_app_r.
    - exists it. split; [|done]. by rewrite items_unfold. }
  destruct Hcc as (it' & Hin' & Hp'). exists it'. split; [by apply Hsub|]. by etransitivity.
Qed.

(** ** Cache invariant *)

Section CacheFacts.
Context {P : Type} `{BlockPoolLaws P}.
Variable alive : nat -> bool.
Implicit Types st : RadixPrefixCache (P := P).

Definition contents st : list (list Z * NodeInfo) := items [] (root st).

(** Every block reference the trie owns, with multiplicity. *)
Definition blocks_of (l : list (list Z * NodeInfo)) : list Z :=
  flat_map (fun it => block_table it.2) l.

Definition donor_count (l : list (list Z * NodeInfo)) : nat :=
  count_if (fun it => is_donor it.2) l.

(** The counters agree with the trie; the root is never a donor. *)
Record radix_inv st : Prop := {
  inv_wf : wf_node (root st);
  inv_edge : edge (root st) = [];
  inv_root : info (root st) = blankInfo;
  inv_size : (size_ st = Z.of_nat (length (contents st)) - 1)%Z;
  inv_live : live_sequences st = Z.of_nat (donor_count (contents st)) }.

Lemma newRadix_inv (kv : option P) cb cap maxs : radix_inv (newRadix kv cb cap maxs).
Proof.
  constructor; [|done..]. apply wf_intro; simpl; [constructor| |]; intros k c Hin; set_solver.
Qed.

Lemma blocks_of_perm l k : l ≡ₚ k -> blocks_of l ≡ₚ blocks_of k.
Proof. apply Permutation_flat_map. Qed.

Lemma donor_count_perm l k : l ≡ₚ k -> donor_count l = donor_count k.
Proof. intros E. unfold donor_count. by rewrite E. Qed.

Definition clear_info (i : NodeInfo) : NodeInfo := mkInfo [] (-1) (backend i) (last_used i).

Definition same_limits st st' : Prop :=
  capacity st' = capacity st /\ max_sequences st' = max_sequences st /\
  on_evict_seq st' = on_evict_seq st.

(** What retiring one entry does, for both evictions: the entry [(path, i)]
    leaves the trie or is cleared, its blocks are released, its donor (if it
    is one) is reported. *)
Record retired (st st' : RadixPrefixCache (P := P)) (path : list Z) (i : NodeInfo)
    (rest : list (list Z * NodeInfo)) : Prop := {
  ret_before : contents st ≡ₚ (path, i) :: rest;
  ret_after : contents st' ≡ₚ rest \/ contents st' ≡ₚ (path, clear_info i) :: rest;
  ret_kv : kv_cache st' = release_table (kv_cache st) (block_table i);
  ret_events : events st' = events st ++
    (if is_donor i then retire_events alive (on_evict_seq st) (sequence_id i) (backend i) else []);
  ret_limits : same_limits st st';
  ret_inv : radix_inv st' }.

Lemma retired_live st st' path i rest :
  radix_inv st -> retired st st' path i rest ->
  live_sequences st' = (live_sequences st - if is_donor i then 1 else 0)%Z.
Proof.
  intros Hi [H1 H2 _ _ _ H3]. rewrite (inv_live _ Hi), (inv_live _ H3).
  rewrite (donor_count_perm _ _ H1). destruct H2 as [H2|H2]; rewrite (donor_count_perm _ _ H2);
    unfold donor_count; simpl; destruct (is_donor i); lia.
Qed.

Lemma leaf_items p v : children v = [] -> items p v = [(p ++ edge v, info v)].
Proof. intros Hc. rewrite items_unfold, Hc. done. Qed.

Lemma oldest_In l k x : oldest l = Some (k, x) -> x ∈ l.
Proof.
  intros Ho. apply min_element_spec in Ho as [Hx _]. by eapply list_elem_of_lookup_2.
Qed.

Lemma oldest_None l : oldest l = None <-> l = [].
Proof. apply best_element_None. Qed.

Lemma contents_leaf_node st addr v :
  is_leaf addr v = true -> items (path_to addr (root st)) v =
    [(path_to addr (root st) ++ edge v, info v)] /\ children v = [].
Proof.
  unfold is_leaf. intros [Hl _]%andb_true_iff.
  apply bool_decide_eq_true, length_zero_iff_nil in Hl. by rewrite leaf_items.
Qed.

Lemma EvictOneSequenceLocked_effect st st' o :
  radix_inv st -> EvictOneSequenceLocked alive st = (st', o) ->
  match o with
  | None => st' = st /\ live_sequences st = 0%Z
  | Some s => exists path i rest, s = sequence_id i /\ is_donor i = true /\
      (forall it, it ∈ contents st -> is_donor it.2 = true -> (last_used i <= last_used it.2)%Z) /\
      retired st st' path i rest
  end.
Proof.
  intros [Hwf Hed Hroot Hsize Hlive] He. unfold EvictOneSequenceLocked in He.
  pose proof (CollectNodes_stamps is_donor [] (root st) [] Hwf) as Hst.
  destruct (oldest _) as [[k [lu addr]]|] eqn:Ho.
  2: { injection He as <- <-. apply oldest_None in Ho. rewrite Ho in Hst. simpl in Hst. split; [done|].
       rewrite Hlive. unfold donor_count, contents.
       rewrite (proj2 (count_if_zero _ _)); [done|]. apply Forall_forall. intros it Hin.
       destruct (is_donor it.2) eqn:Hd; [|done]. exfalso.
       assert (Hin' : it ∈ filter (fun it => is_donor it.2 = true) (items [] (root st)))
         by (by apply list_elem_of_filter).
       destruct (filter _ _); simpl in *; [set_solver|done]. }
  apply oldest_In in Ho as Hin.
  destruct (CollectNodes_sound _ _ _ _ _ Hwf Hin) as (q & v & Hq & Hv & Hd & Hlu).
  simpl in Hq. subst q. rewrite Hv in He. injection He as <- <-.
  assert (Hne : addr <> []).
  { intros ->. simpl in Hv. simplify_eq. rewrite Hroot in Hd. done. }
  set (f := fun n => set_info n (clear_info (info v))).
  destruct (update_at_items addr (root st) v [] Hv) as (rest & H1 & H2).
  rewrite app_nil_l in H1, H2. specialize (H2 f). set (p := path_to addr (root st)) in *.
  assert (Hcw : wf_node (update_at addr f (root st))).
  { apply update_at_wf; [|done|done]. intros. by apply wf_set_info. }
  assert (Hce : edge (update_at addr f (root st)) = []) by (by rewrite update_at_edge).
  assert (Hci : info (update_at addr f (root st)) = blankInfo) by (by rewrite update_at_info).
  exists (p ++ edge v), (info v), (child_items (p ++ edge v) (children v) ++ rest).
  assert (Hb : contents st ≡ₚ (p ++ edge v, info v) :: child_items (p ++ edge v) (children v) ++ rest).
  { unfold contents. rewrite H1, items_unfold. done. }
  split_and!; [done|done| |].
  - intros it Hit Hdon. apply min_element_spec in Ho as [_ Hmin].
    assert (Hx : last_used it.2 ∈ (CollectNodes (fun _ n => is_donor (info n)) [] (root st)).*1).
    { rewrite Hst. apply list_elem_of_fmap. exists it.2. split; [done|]. apply list_elem_of_fmap.
      exists it. split; [done|]. by apply list_elem_of_filter. }
    apply list_elem_of_fmap in Hx as (y & -> & Hy). apply list_elem_of_lookup in Hy as [j Hj].
    destruct (Hmin _ _ Hj) as [Hle _]. simpl in Hle. rewrite <- Hlu. done.
  - destruct (is_leaf addr v) eqn:Hl.
    + destruct (contents_leaf_node st addr v Hl) as [_ Hcv].
      destruct (prune_items addr (update_at addr f (root st)) (f v) [] Hcw Hne) as
        (Hp2 & Hpw & Hpe & Hpi); [by apply node_at_update|].
      change (edge (f v)) with (edge v) in *. rewrite H2, app_nil_l, path_to_update in Hp2.
      fold p in Hp2. apply Permutation_app_inv_l in Hp2.
      rewrite Hcv in *. constructor; simpl; try done; [left; symmetry; exact Hp2|by rewrite Hd|].
      constructor; simpl; try done; [exact (eq_trans Hpe Hce)|exact (eq_trans Hpi Hci)|..]; unfold contents; simpl.
      * etransitivity; [|exact (f_equal (fun k => Z.of_nat k - 1)%Z (Permutation_length Hp2))].
        rewrite Hsize, Hb. simpl. lia.
      * etransitivity; [|exact (f_equal Z.of_nat (donor_count_perm _ _ Hp2))].
        rewrite Hlive, (donor_count_perm _ _ Hb). unfold donor_count. simpl. rewrite Hd. lia.
    + rewrite (items_unfold p (f v)) in H2. cbn [f edge info children set_info app] in H2.
      symmetry in H2.
      constructor; simpl; try done; [right; symmetry; exact H2|by rewrite Hd|].
      constructor; simpl; try done; unfold contents; simpl.
      * etransitivity; [|exact (f_equal (fun k => Z.of_nat k - 1)%Z (Permutation_length H2))].
        rewrite Hsize, Hb. simpl. lia.
      * etransitivity; [|exact (f_equal Z.of_nat (donor_count_perm _ _ H2))].
        rewrite Hlive, (donor_count_perm _ _ Hb). unfold donor_count. simpl. rewrite Hd. lia.
Qed.

Lemma EvictOne_effect st :
  radix_inv st ->
  (EvictOne alive st = st /\ size_ st = 0%Z) \/
  exists path i rest, retired st (EvictOne alive st) path i rest /\
    contents (EvictOne alive st) ≡ₚ rest.
Proof.
  intros [Hwf Hed Hroot Hsize Hlive]. unfold EvictOne.
  destruct (oldest _) as [[k [lu addr]]|] eqn:Ho.
  2: { left. split; [done|]. apply oldest_None in Ho. rewrite Hsize. unfold contents.
       rewrite CollectNodes_unfold in Ho. apply app_nil in Ho as [_ Ho].
       rewrite items_unfold. destruct (children (root st)) as [|[k c] cs] eqn:Hc; [done|].
       simpl in Ho. apply app_nil in Ho as [Ho _]. exfalso. revert Ho. apply CollectNodes_leaf; [|done].
       inversion_clear Hwf as [? _ _ Hch]. apply (Hch k). rewrite Hc. left. }
  right. apply oldest_In in Ho as Hin.
  destruct (CollectNodes_sound _ _ _ _ _ Hwf Hin) as (q & v & Hq & Hv & Hl & Hlu).
  simpl in Hq. subst q. rewrite Hv.
  assert (Hne : addr <> []).
  { intros ->. unfold is_leaf in Hl. apply andb_true_iff in Hl as [_ Hl].
    by rewrite bool_decide_eq_true_2 in Hl. }
  destruct (prune_items addr (root st) v [] Hwf Hne Hv) as (Hp & Hpw & Hpe & Hpi).
  rewrite app_nil_l in Hp. destruct (contents_leaf_node st addr v Hl) as [Hitems _].
  rewrite Hitems in Hp. do 3 eexists. split; [|reflexivity]. constructor; simpl; try done.
  - by left.
  - constructor; simpl; try done; [congruence|congruence|..]; unfold contents; simpl.
    + rewrite Hsize. unfold contents. rewrite Hp. simpl. lia.
    + rewrite Hlive. unfold contents. rewrite (donor_count_perm _ _ Hp).
      unfold donor_count. simpl. destruct (is_donor (info v)); lia.
Qed.

(** *** The eviction loops *)

Definition evict_step st st' : Prop := exists path i rest, retired st st' path i rest.

Lemma evict_sequences_loop_spec fuel st :
  radix_inv st ->
  let st' := evict_sequences_loop alive fuel st in
  rtc evict_step st st' /\ radix_inv st' /\
  ((live_sequences st <= Z.of_nat (fuel + max_sequences st))%Z ->
   (live_sequences st' <= Z.of_nat (max_sequences st))%Z) /\
  capacity st' = capacity st /\ max_sequences st' = max_sequences st.
Proof.
  revert st. induction fuel as [|fuel IH]; intros st Hi; simpl.
  { split_and!; try done. }
  destruct (Z.ltb_spec (Z.of_nat (max_sequences st)) (live_sequences st)) as [Hgt|Hle];
    [|split_and!; done || lia].
  destruct (EvictOneSequenceLocked alive st) as [st1 o] eqn:He.
  pose proof (EvictOneSequenceLocked_effect _ _ _ Hi He) as Heff. simpl.
  destruct o as [s|]; [|destruct Heff as [-> ?]; lia].
  destruct Heff as (path & i & rest & _ & Hd & _ & Hr).
  pose proof (retired_live _ _ _ _ _ Hi Hr) as Hl. rewrite Hd in Hl.
  pose proof (ret_limits _ _ _ _ _ Hr) as (Hcap & Hmax & _).
  pose proof (ret_inv _ _ _ _ _ Hr) as Hi1.
  destruct (IH st1 Hi1) as (H1 & H2 & H3 & H4 & H5). rewrite Hmax in *.
  split_and!; try done; try congruence.
  - eapply rtc_l; [|done]. by exists path, i, rest.
  - intros Hf. apply H3. lia.
Qed.

Lemma evict_nodes_loop_spec fuel st :
  radix_inv st ->
  let st' := evict_nodes_loop alive fuel st in
  rtc evict_step st st' /\ radix_inv st' /\
  ((size_ st <= Z.of_nat (fuel + capacity st))%Z -> (size_ st' <= Z.of_nat (capacity st))%Z) /\
  (live_sequences st' <= live_sequences st)%Z /\
  capacity st' = capacity st /\ max_sequences st' = max_sequences st.
Proof.
  revert st. induction fuel as [|fuel IH]; intros st Hi; simpl; [split_and!; done|].
  destruct (Z.ltb_spec (Z.of_nat (capacity st)) (size_ st)) as [Hgt|Hle];
    [|split_and!; done || lia].
  destruct (EvictOne_effect st Hi) as [[_ Hz]|(path & i & rest & Hr & Hc)]; [lia|].
  pose proof (retired_live _ _ _ _ _ Hi Hr) as Hl.
  pose proof (ret_limits _ _ _ _ _ Hr) as (Hcap & Hmax & _).
  pose proof (ret_inv _ _ _ _ _ Hr) as Hi1.
  assert (Hsz : size_ (EvictOne alive st) = (size_ st - 1)%Z).
  { rewrite (inv_size _ Hi), (inv_size _ Hi1), Hc, (ret_before _ _ _ _ _ Hr). simpl. lia. }
  destruct (IH _ Hi1) as (H1 & H2 & H3 & H4 & H5 & H6). rewrite Hcap in *.
  split_and!; try done; try congruence.
  - eapply rtc_l; [|done]. by exists path, i, rest.
  - intros Hf. apply H3. lia.
  - destruct (is_donor i); lia.
Qed.

Lemma evictions_limits st st' : rtc evict_step st st' -> same_limits st st'.
Proof.
  induction 1 as [st|st1 st2 st3 (path & i & rest & Hr) _ (H1 & H2 & H3)]; [done|].
  destruct (ret_limits _ _ _ _ _ Hr) as (E1 & E2 & E3). split_and!; congruence.
Qed.

(** *** Conservation of block references and sequence slots *)

Definition owned st (j : nat) : Z := Z.of_nat (occurrences j (blocks_of (contents st))).

Lemma release_table_refs kv bt p :
  kv = Some p -> exists p', release_table kv bt = Some p' /\
    forall j, pool_has p' j = pool_has p j /\
      (pool_has p j = true -> pool_refs p' j = (pool_refs p j - Z.of_nat (occurrences j bt))%Z).
Proof.
  intros ->. destruct bt as [|b bt]; simpl.
  - exists p. split; [done|]. intros j. split; [done|]. unfold occurrences; simpl. lia.
  - exists (pool_release_blocks p (b :: bt)). split; [done|]. intros j. split.
    + apply pool_release_has.
    + apply pool_release_refs.
Qed.

(** [st'] keeps the pages of [st], and for every page the references not
    owned by the trie change by [delta]. *)
Definition refs_balance st st' (delta : nat -> Z) : Prop :=
  forall p, kv_cache st = Some p ->
  exists p', kv_cache st' = Some p' /\
    forall j, pool_has p' j = pool_has p j /\
      (pool_has p j = true ->
       (pool_refs p' j - owned st' j = pool_refs p j - owned st j + delta j)%Z).

Lemma refs_balance_trans st1 st2 st3 d1 d2 :
  refs_balance st1 st2 d1 -> refs_balance st2 st3 d2 ->
  refs_balance st1 st3 (fun j => d1 j + d2 j)%Z.
Proof.
  intros H1 H2 p Hp. destruct (H1 p Hp) as (p2 & Hp2 & HA).
  destruct (H2 p2 Hp2) as (p3 & Hp3 & HB). exists p3. split; [done|]. intros j.
  destruct (HA j) as [HA1 HA2]. destruct (HB j) as [HB1 HB2]. split; [congruence|].
  intros Hj. specialize (HA2 Hj). rewrite HA1 in HB2. specialize (HB2 Hj). lia.
Qed.

Lemma retired_balance st st' path i rest :
  retired st st' path i rest -> refs_balance st st' (fun _ => 0%Z).
Proof.
  intros [Hb Ha Hkv _ _ _] p Hp. destruct (release_table_refs _ (block_table i) _ Hp) as (p' & Hr & Hj).
  exists p'. split; [by rewrite Hkv|]. intros j. destruct (Hj j) as [Hh Hrefs]. split; [done|].
  intros Hin. rewrite (Hrefs Hin). unfold owned. rewrite (blocks_of_perm _ _ Hb).
  destruct Ha as [Ha|Ha]; rewrite (blocks_of_perm _ _ Ha); simpl; rewrite ?occurrences_app; lia.
Qed.

Lemma evictions_balance st st' : rtc evict_step st st' -> refs_balance st st' (fun _ => 0%Z).
Proof.
  induction 1 as [st|st1 st2 st3 (path & i & rest & Hr) _ IH].
  - intros p Hp. exists p. split; [done|]. intros j. split; [done|]. lia.
  - by apply (refs_balance_trans _ _ _ _ _ (retired_balance _ _ _ _ _ Hr) IH).
Qed.

(** Sequence slots held by donors, and slots handed back by the callback. *)
Definition donor_seqs (l : list (list Z * NodeInfo)) : list Z :=
  sequence_id <$> filter (fun i => is_donor i = true) l.*2.

Definition callback_seqs (evs : list event) : list Z :=
  omap (fun e => match e with EvEvictCallback s _ => Some s | _ => None end) evs.

Definition slot_ledger st : list Z := donor_seqs (contents st) ++ callback_seqs (events st).

Lemma donor_seqs_perm l k : l ≡ₚ k -> donor_seqs l ≡ₚ donor_seqs k.
Proof. intros E. unfold donor_seqs. by rewrite E. Qed.

Lemma donor_seqs_cons path i l :
  donor_seqs ((path, i) :: l) = (if is_donor i then [sequence_id i] else []) ++ donor_seqs l.
Proof. unfold donor_seqs. simpl. rewrite filter_cons. by destruct (is_donor i). Qed.

Lemma callback_seqs_retire b s evs :
  callback_seqs (evs ++ retire_events alive true s b) = callback_seqs evs ++ [s].
Proof.
  unfold callback_seqs, retire_events. rewrite omap_app. f_equal. by destruct (lock alive b).
Qed.

Lemma retired_ledger st st' path i rest :
  on_evict_seq st = true -> retired st st' path i rest -> slot_ledger st' ≡ₚ slot_ledger st.
Proof.
  intros Hcb [Hb Ha _ Hev _ _]. unfold slot_ledger.
  assert (Hd : donor_seqs (contents st') ≡ₚ donor_seqs rest).
  { destruct Ha as [Ha|Ha]; rewrite (donor_seqs_perm _ _ Ha); [done|]. by rewrite donor_seqs_cons. }
  rewrite Hd, (donor_seqs_perm _ _ Hb), donor_seqs_cons, Hev, Hcb.
  destruct (is_donor i); [rewrite callback_seqs_retire|rewrite app_nil_r]; solve_Permutation.
Qed.

Lemma evictions_ledger st st' :
  on_evict_seq st = true -> rtc evict_step st st' -> slot_ledger st' ≡ₚ slot_ledger st.
Proof.
  intros Hcb Hr. induction Hr as [|st1 st2 st3 (path & i & rest & Hr) _ IH]; [done|].
  rewrite IH by (by rewrite (proj2 (proj2 (ret_limits _ _ _ _ _ Hr)))).
  by eapply retired_ledger.
Qed.

(** *** Whole operations *)

Definition blank_items (bl : list (list Z * NodeInfo)) : Prop :=
  Forall (fun it : list Z * NodeInfo => it.2 = blankInfo) bl.

Lemma blank_items_facts bl :
  blank_items bl -> blocks_of bl = [] /\ donor_count bl = 0 /\ donor_seqs bl = [].
Proof.
  induction 1 as [|[path i] bl Hi _ (H1 & H2 & H3)]; [done|]. simpl in Hi. subst i.
  rewrite donor_seqs_cons. unfold donor_count in *. simpl. rewrite H1, H2, H3. done.
Qed.

Definition stamped_info st bt seq be : NodeInfo := mkInfo bt seq be (u64 (clock st + 1)).

(** A completed insertion: the new entry joins the contents (with a blank
    node per split edge), then evictions run; or it overwrites the entry at
    the same token path, whose blocks and donor are released. *)
Lemma Insert_effect st tokens bt seq be st' :
  radix_inv st -> Insert alive st tokens bt seq be = (st', true) ->
  let new := stamped_info st bt seq be in
  let r := (insert_walk (S (length tokens)) (root st) tokens new).2 in
  exists st1 bl, blank_items bl /\ radix_inv st1 /\ same_limits st st1 /\
    length bl = splits_of r /\ tokens <> [] /\
    (insert_walk (S (length tokens)) (root st) tokens new).1 = root st1 /\
    match r with
    | NewLeaf _ =>
        contents st1 ≡ₚ (tokens, new) :: bl ++ contents st /\
        kv_cache st1 = kv_cache st /\ events st1 = events st /\
        rtc evict_step st1 st' /\ radix_inv st' /\
        (size_ st' <= Z.of_nat (capacity st))%Z /\
        (live_sequences st' <= Z.of_nat (max_sequences st))%Z /\
        ((size_ st1 <= Z.of_nat (capacity st))%Z ->
         (live_sequences st1 <= Z.of_nat (max_sequences st))%Z -> st' = st1)
    | Redonate _ old =>
        st' = st1 /\ (exists rest, bl ++ contents st ≡ₚ (tokens, old) :: rest /\
                         contents st1 ≡ₚ (tokens, new) :: rest) /\
        kv_cache st1 = release_table (kv_cache st) (block_table old) /\
        events st1 = events st ++
          (if is_donor old && negb (bool_decide (sequence_id old = seq))
           then retire_events alive (on_evict_seq st) (sequence_id old) (backend old) else [])
    end.
Proof.
  intros Hi Hins new r. unfold Insert in Hins.
  destruct ((capacity st =? 0) || _ || _) eqn:Hg; [done|].
  apply orb_false_iff in Hg as [[_ Ht]%orb_false_iff Hbt].
  apply bool_decide_eq_false in Ht, Hbt.
  change (mkInfo bt seq be (u64 (clock st + 1))) with new in Hins.
  destruct Hi as [Hwf Hed Hroot Hsize Hlive].
  pose proof (insert_walk_wf (S (length tokens)) (root st) tokens new Hwf) as Hwf'.
  pose proof (insert_walk_edge (S (length tokens)) (root st) tokens new) as Hed'.
  pose proof (insert_walk_info (S (length tokens)) (root st) tokens new ltac:(lia) Ht) as Hin'.
  unfold r. destruct (insert_walk (S (length tokens)) (root st) tokens new) as [root' r0] eqn:Hw.
  simpl in Hwf', Hed', Hin'. rewrite Hed in Hed'. rewrite Hroot in Hin'.
  destruct (insert_walk_items _ _ _ _ _ _ [] Hwf (Nat.lt_succ_diag_r _) Hw) as (bl & Hbl & Hit).
  rewrite Hed in Hit. simpl in Hit. destruct (blank_items_facts bl Hbl) as (_ & Hdc & _).
  cbn [fst snd]. destruct r0 as [s|s old].
  - destruct Hit as [Hs Hit]. set (st1 := mkRadix _ _ _ _ _ _ _ root' _) in Hins.
    assert (Hc1 : contents st1 ≡ₚ (tokens, new) :: bl ++ contents st) by exact Hit.
    assert (Hi1 : radix_inv st1).
    { constructor; try done.
      - rewrite Hc1. simpl. rewrite length_app, Hsize, Hs. lia.
      - rewrite (donor_count_perm _ _ Hc1). unfold donor_count in *. cbn [live_sequences st1 count_if].
        rewrite count_if_app, Hlive, Hdc. change (is_donor (tokens, new).2) with (0 <=? seq)%Z. destruct (0 <=? seq)%Z; lia. }
    exists st1, bl. injection Hins as <-.
    destruct (evict_sequences_loop_spec (Z.to_nat (live_sequences st1)) st1 Hi1)
      as (Hr2 & Hi2 & Hl2 & Hcap2 & Hmax2).
    set (st2 := evict_sequences_loop alive (Z.to_nat (live_sequences st1)) st1) in *.
    destruct (evict_nodes_loop_spec (Z.to_nat (size_ st2)) st2 Hi2)
      as (Hr3 & Hi3 & Hs3 & Hl3 & _ & _).
    split_and!; try done.
    + by etransitivity.
    + rewrite Hcap2 in Hs3. simpl in Hs3. apply Hs3. lia.
    + etransitivity; [exact Hl3|]. simpl in Hl2. apply Hl2. lia.
    + intros Hcap Hmax.
      assert (st2 = st1) as E2.
      { unfold st2. destruct (Z.to_nat (live_sequences st1)); simpl; [done|].
        by rewrite (proj2 (Z.ltb_ge _ _)). }
      change (evict_nodes_loop alive (Z.to_nat (size_ st2)) st2 = st1). rewrite E2. destruct (Z.to_nat (size_ st1)); simpl; [done|].
      by rewrite (proj2 (Z.ltb_ge _ _)).
  - destruct Hit as (Hs & rest & Hb & Ha). injection Hins as Hst'.
    exists st', bl. split; [exact Hbl|].
    split; [|subst st'; split_and!; try done; exists rest; by split].
    subst st'. constructor; try done; unfold contents in *; simpl in *.
    + rewrite Ha. apply Permutation_length in Hb. rewrite length_app in Hb. simpl in *. lia.
    + apply donor_count_perm in Hb, Ha. rewrite Ha, Hlive. unfold donor_count in *.
      rewrite count_if_app, Hdc in Hb. simpl in *. unfold is_donor in *. simpl in *.
      destruct (Z.leb_spec 0 (sequence_id old)), (Z.leb_spec 0 seq); simpl;
        repeat case_bool_decide; simpl; lia.
Qed.
(** *** Lookup *)

Lemma strip_facts l k :
  strip <$> l ≡ₚ strip <$> k ->
  length l = length k /\ donor_count l = donor_count k /\ donor_seqs l ≡ₚ donor_seqs k /\
  blocks_of l ≡ₚ blocks_of k.
Proof.
  intros E.
  assert (Hc : forall m, donor_count m = count_if (fun s => (0 <=? s.2.1.2)%Z) (strip <$> m)).
  { intros m. unfold donor_count. by rewrite count_if_fmap. }
  assert (Hs : forall m, donor_seqs m = filter (fun z => (0 <=? z)%Z = true) ((fun s => s.2.1.2) <$> (strip <$> m))).
  { intros m. induction m as [|[pa i] m IH]; [done|].
    rewrite donor_seqs_cons, IH, !fmap_cons, filter_cons. unfold is_donor. simpl.
    by destruct (0 <=? sequence_id i)%Z. }
  assert (Hb : forall m, blocks_of m = flat_map (fun s => s.2.1.1) (strip <$> m)).
  { intros m. unfold blocks_of. induction m as [|[pa i] m IH]; [done|]. simpl. by rewrite IH. }
  split_and!.
  - apply Permutation_length in E. by rewrite !length_fmap in E.
  - rewrite !Hc. by rewrite E.
  - rewrite !Hs. by rewrite E.
  - rewrite !Hb. by apply Permutation_flat_map.
Qed.

Definition same_but_clock st st' : Prop :=
  kv_cache st' = kv_cache st /\ on_evict_seq st' = on_evict_seq st /\
  capacity st' = capacity st /\ max_sequences st' = max_sequences st /\
  size_ st' = size_ st /\ live_sequences st' = live_sequences st /\ events st' = events st.

Lemma Lookup_effect st tokens be :
  radix_inv st ->
  let st' := (Lookup alive st tokens be).1 in
  radix_inv st' /\ (strip <$> contents st') ≡ₚ (strip <$> contents st) /\ same_but_clock st st'.
Proof.
  intros [Hwf Hed Hroot Hsize Hlive]. unfold Lookup.
  unfold same_but_clock. destruct (_ || _); [by split_and!|].
  pose proof (lookup_walk_shape alive (length tokens) (root st) tokens be
                (mkWalk [] (-1) 0 false 0 (clock st)) Hwf) as Hsh.
  destruct (lookup_walk _ _ _ _ _ _) as [root' w]. cbn [fst] in Hsh.
  destruct Hsh as (Hw & He & Hi & Hit). specialize (Hit []).
  destruct (strip_facts _ _ Hit) as (Hl & Hd & _ & _).
  set (st' := mkRadix _ _ _ _ _ _ (w_clock w) root' _).
  assert (Hres : radix_inv st' /\ (strip <$> contents st') ≡ₚ (strip <$> contents st) /\ same_but_clock st st').
  { split; [|by unfold same_but_clock; split_and!]. constructor; simpl; try congruence.
    - rewrite Hsize. unfold contents in *. simpl. by rewrite Hl.
    - rewrite Hlive. unfold contents in *. simpl. by rewrite Hd. }
  by destruct (_ && _ && _).
Qed.

(** *** Operation sequences *)

Inductive radix_op :=
  | OpLookup (tokens : list Z) (be : option nat)
  | OpInsert (tokens bt : list Z) (seq : Z) (be : option nat)
  | OpEvictOneSequence.

Definition radix_exec st (op : radix_op) : RadixPrefixCache :=
  match op with
  | OpLookup tokens be => (Lookup alive st tokens be).1
  | OpInsert tokens bt seq be => (Insert alive st tokens bt seq be).1
  | OpEvictOneSequence => (EvictOneSequence alive st).1
  end.

Definition radix_run (st : RadixPrefixCache) (ops : list radix_op) : RadixPrefixCache := foldl radix_exec st ops.

(** The block references the caller hands over with an operation: those of an
    insertion that is not refused. *)
Definition transferred (cap : nat) (op : radix_op) : list Z :=
  match op with
  | OpInsert tokens bt _ _ =>
      if (cap =? 0) || bool_decide (tokens = []) || bool_decide (bt = []) then [] else bt
  | _ => []
  end.

Lemma refs_balance_same st st' :
  kv_cache st' = kv_cache st -> blocks_of (contents st') ≡ₚ blocks_of (contents st) ->
  refs_balance st st' (fun _ => 0%Z).
Proof.
  intros Hk Hb p Hp. exists p. split; [congruence|]. intros j. split; [done|].
  unfold owned. rewrite Hb. lia.
Qed.

Lemma refs_balance_ext st st' d1 d2 :
  (forall j, d1 j = d2 j) -> refs_balance st st' d1 -> refs_balance st st' d2.
Proof.
  intros E Hr p Hp. destruct (Hr p Hp) as (p' & Hp' & HA). exists p'. split; [done|].
  intros j. destruct (HA j) as [H1 H2]. split; [done|]. intros Hj. rewrite <- E. auto.
Qed.

Lemma Insert_refused st tokens bt seq be :
  (capacity st =? 0) || bool_decide (tokens = []) || bool_decide (bt = []) = true ->
  Insert alive st tokens bt seq be = (st, false).
Proof. intros E. unfold Insert. by rewrite E. Qed.

Lemma Insert_accepted st tokens bt seq be :
  (capacity st =? 0) || bool_decide (tokens = []) || bool_decide (bt = []) = false ->
  exists st', Insert alive st tokens bt seq be = (st', true).
Proof.
  intros E. unfold Insert. rewrite E. destruct (insert_walk _ _ _ _) as [root' []]; eauto.
Qed.

Lemma blocks_of_app l k : blocks_of (l ++ k) = blocks_of l ++ blocks_of k.
Proof. apply flat_map_app. Qed.

Lemma Insert_balance st tokens bt seq be st' :
  radix_inv st -> Insert alive st tokens bt seq be = (st', true) ->
  refs_balance st st' (fun j => - Z.of_nat (occurrences j bt))%Z.
Proof.
  intros Hi Hins. destruct (Insert_effect _ _ _ _ _ _ Hi Hins) as (st1 & bl & Hbl & _ & _ & _ & _ & _ & Hr).
  destruct (blank_items_facts bl Hbl) as (Hbb & _ & _).
  destruct (insert_walk _ _ _ _).2 as [s|s old].
  - destruct Hr as (Hc & Hk & _ & Hev & _). apply evictions_balance in Hev.
    eapply refs_balance_ext; [|eapply refs_balance_trans; [|exact Hev]].
    { intros j. apply Z.add_0_r. }
    intros p Hp. exists p. split; [congruence|]. intros j. split; [done|]. intros _.
    unfold owned. rewrite (blocks_of_perm _ _ Hc). simpl.
    rewrite blocks_of_app, Hbb, occurrences_app. simpl. lia.
  - destruct Hr as (-> & (rest & Hb & Ha) & Hk & _). intros p Hp.
    destruct (release_table_refs _ (block_table old) _ Hp) as (p' & Hr & Hj).
    exists p'. split; [by rewrite Hk|]. intros j. destruct (Hj j) as [Hh Hrefs]. split; [done|].
    intros Hin. rewrite (Hrefs Hin). unfold owned. rewrite (blocks_of_perm _ _ Ha).
    apply blocks_of_perm in Hb. rewrite blocks_of_app, Hbb in Hb. simpl in Hb.
    rewrite Hb. simpl. rewrite !occurrences_app. lia.
Qed.

Lemma Insert_capacity st tokens bt seq be st' :
  radix_inv st -> Insert alive st tokens bt seq be = (st', true) -> capacity st' = capacity st.
Proof.
  intros Hi Hins. destruct (Insert_effect _ _ _ _ _ _ Hi Hins)
    as (st1 & bl & _ & _ & Hl & _ & _ & _ & Hr).
  destruct (insert_walk _ _ _ _).2 as [s|s old].
  - destruct Hr as (_ & _ & _ & Hev & _). apply evictions_limits in Hev as [Hev _].
    etransitivity; [exact Hev|apply Hl].
  - destruct Hr as [-> _]. apply Hl.
Qed.

Lemma radix_exec_step st op :
  radix_inv st ->
  radix_inv (radix_exec st op) /\ capacity (radix_exec st op) = capacity st /\
  refs_balance st (radix_exec st op)
    (fun j => - Z.of_nat (occurrences j (transferred (capacity st) op)))%Z.
Proof.
  intros Hi. destruct op as [tokens be|tokens bt seq be|]; simpl.
  - destruct (Lookup_effect st tokens be Hi) as (Hi' & Hst & Hk & _ & Hcap & _).
    destruct (strip_facts _ _ Hst) as (_ & _ & _ & Hb). split_and!; [done|done|].
    by apply refs_balance_same.
  - destruct (_ || _ || _) eqn:Hg.
    + rewrite Insert_refused by done. split_and!; [done|done|]. by apply refs_balance_same.
    + destruct (Insert_accepted st tokens bt seq be Hg) as [st' Hins]. rewrite Hins. simpl.
      split_and!; [..|by eapply Insert_balance].
      * destruct (Insert_effect _ _ _ _ _ _ Hi Hins) as (st1 & bl & _ & Hi1 & _ & _ & _ & _ & Hr).
        destruct (insert_walk _ _ _ _).2; [apply Hr|]. by destruct Hr as [-> _].
      * by eapply Insert_capacity.
  - unfold EvictOneSequence. destruct (EvictOneSequenceLocked alive st) as [st' o] eqn:He. simpl.
    pose proof (EvictOneSequenceLocked_effect _ _ _ Hi He) as Heff. destruct o as [s|].
    + destruct Heff as (path & i & rest & _ & _ & _ & Hr). split_and!.
      * by eapply ret_inv.
      * apply (ret_limits _ _ _ _ _ Hr).
      * by eapply retired_balance.
    + destruct Heff as [-> _]. split_and!; [done..|]. by apply refs_balance_same.
Qed.
Lemma radix_run_inv st ops : radix_inv st -> radix_inv (radix_run st ops).
Proof.
  revert st. induction ops as [|op ops IH]; intros st Hi; simpl; [exact Hi|].
  apply IH. by apply radix_exec_step.
Qed.

Lemma Insert_ledger st tokens bt seq be st' :
  radix_inv st -> on_evict_seq st = true -> Insert alive st tokens bt seq be = (st', true) ->
  (0 <= seq)%Z -> seq ∉ donor_seqs (contents st) -> slot_ledger st' ≡ₚ seq :: slot_ledger st.
Proof.
  intros Hi Hcb Hins Hseq Hfresh.
  destruct (Insert_effect _ _ _ _ _ _ Hi Hins) as (st1 & bl & Hbl & _ & Hl & _ & _ & _ & Hr).
  destruct (blank_items_facts bl Hbl) as (_ & _ & Hbs).
  assert (Happ : forall l k, donor_seqs (l ++ k) = donor_seqs l ++ donor_seqs k).
  { intros l k. unfold donor_seqs. by rewrite fmap_app, filter_app, fmap_app. }
  assert (Hnew : is_donor (stamped_info st bt seq be) = true) by (by apply Z.leb_le).
  destruct (insert_walk _ _ _ _).2 as [s|s old].
  - destruct Hr as (Hc & _ & He & Hev & _).
    rewrite (evictions_ledger _ _ (eq_trans (proj2 (proj2 Hl)) Hcb) Hev).
    unfold slot_ledger. rewrite (donor_seqs_perm _ _ Hc), donor_seqs_cons, Hnew, Happ, Hbs, He. done.
  - destruct Hr as (-> & (rest & Hb & Ha) & _ & He). unfold slot_ledger.
    rewrite (donor_seqs_perm _ _ Ha), donor_seqs_cons, Hnew, He, Hcb.
    apply donor_seqs_perm in Hb. rewrite Happ, Hbs, donor_seqs_cons in Hb. simpl in Hb.
    rewrite Hb in Hfresh |- *. destruct (is_donor old) eqn:Hold; simpl.
    + rewrite bool_decide_eq_false_2 by set_solver. simpl. rewrite callback_seqs_retire.
      simpl. solve_Permutation.
    + by rewrite app_nil_r.
Qed.

(** *** Properties *)

(** In every state reached from an empty cache by lookups, insertions and
    sequence evictions, the trie is well formed (children keyed by the first
    token of a non-empty edge, keys distinct), the root is no donor, [size_]
    is the number of nodes below the root and [live_sequences_] the number of
    donors. *)
Theorem radix_reachable_inv (kv : option P) (cb : bool) (cap maxs : nat) (ops : list radix_op) :
  radix_inv (radix_run (newRadix kv cb cap maxs) ops).
Proof. apply radix_run_inv, newRadix_inv. Qed.


(** C1: no block reference is lost or released twice.  Along any sequence of
    operations on an initially empty cache, for every page of the pool: the
    page's final reference count plus the references handed over with accepted
    insertions equals its initial count plus the references the trie still
    owns.  Splits, re-donations and both evictions included. *)
Theorem block_references_conserved (p : P) (cb : bool) (cap maxs : nat) (ops : list radix_op) (j : nat)
    (Hj : pool_has p j = true) :
  let st := radix_run (newRadix (Some p) cb cap maxs) ops in
  exists p', kv_cache st = Some p' /\ pool_has p' j = true /\
    (pool_refs p' j + Z.of_nat (occurrences j (flat_map (transferred cap) ops)) =
     pool_refs p j + owned st j)%Z.
Proof.
  assert (Hrun : forall ops st, radix_inv st -> refs_balance st (radix_run st ops)
    (fun j => - Z.of_nat (occurrences j (flat_map (transferred (capacity st)) ops)))%Z).
  { clear Hj ops j p. induction ops as [|op ops IH]; intros st Hi.
    - eapply refs_balance_ext; [|by apply refs_balance_same]. intros j. simpl.
      done.
    - destruct (radix_exec_step st op Hi) as (Hi' & Hcap & Hb). specialize (IH _ Hi').
      rewrite Hcap in IH. eapply refs_balance_ext; [|eapply refs_balance_trans; [exact Hb|exact IH]].
      intros j. simpl. rewrite occurrences_app. lia. }
  destruct (Hrun ops _ (newRadix_inv (Some p) cb cap maxs) p eq_refl) as (p' & Hp' & HA).
  simpl in HA. intros st. exists p'. destruct (HA j) as [H1 H2]. split_and!; [done|congruence|].
  specialize (H2 Hj). fold st in H2. unfold owned at 2 in H2. simpl in H2.
  change (occurrences j []) with 0 in H2. lia.
Qed.

(** C24: no sequence slot is lost.  With the eviction callback set, an accepted
    insertion of a sequence that no donor holds adds exactly that sequence to
    the ledger (slots held by donors together with slots handed back through
    the callback), and a sequence eviction leaves the ledger unchanged: every
    slot handed to the cache is held by one donor or has been handed back
    once. *)
Theorem sequence_slots_conserved (st : RadixPrefixCache) (tokens bt : list Z) (seq : Z) (be : option nat)
    (Hi : radix_inv st) (Hcb : on_evict_seq st = true) (Hseq : (0 <= seq)%Z)
    (Hfresh : seq ∉ donor_seqs (contents st)) :
  (forall st', Insert alive st tokens bt seq be = (st', true) ->
     slot_ledger st' ≡ₚ seq :: slot_ledger st) /\
  slot_ledger (EvictOneSequence alive st).1 ≡ₚ slot_ledger st.
Proof.
  split; [intros st' Hins; by eapply Insert_ledger|].
  unfold EvictOneSequence. destruct (EvictOneSequenceLocked alive st) as [st' o] eqn:He.
  pose proof (EvictOneSequenceLocked_effect _ _ _ Hi He) as Heff. simpl.
  destruct o as [s|]; [|by destruct Heff as [-> _]].
  destruct Heff as (path & i & rest & _ & _ & _ & Hr). by eapply retired_ledger.
Qed.

(** An insertion that adds a leaf (no entry's path extends the inserted
    tokens) ends within both limits: the eviction loops terminate with at most
    [capacity] nodes and [max_sequences] donors. *)
Theorem Insert_new_leaf_within_limits (st st' : RadixPrefixCache) (tokens bt : list Z) (seq : Z) (be : option nat)
    (Hi : radix_inv st) (Hins : Insert alive st tokens bt seq be = (st', true))
    (Hnew : forall it, it ∈ contents st -> ~ tokens `prefix_of` it.1) :
  (size_ st' <= Z.of_nat (capacity st))%Z /\
  (live_sequences st' <= Z.of_nat (max_sequences st))%Z /\ radix_inv st'.
Proof.
  destruct (Insert_effect _ _ _ _ _ _ Hi Hins) as (st1 & bl & _ & _ & _ & _ & _ & _ & Hr).
  pose proof (insert_walk_redonate (S (length tokens)) (root st) tokens (stamped_info st bt seq be))
    as Hre.
  destruct (insert_walk _ _ _ _).2 as [s|s old]; [by split_and!; apply Hr|exfalso].
  destruct (Hre s old [] (inv_wf _ Hi) (Nat.lt_succ_diag_r _) eq_refl) as (it & Hit & Hpre).
  rewrite (inv_edge _ Hi) in Hpre. by apply (Hnew it).
Qed.

(** [EvictOneSequence] retires the least recently used donor.  It returns
    [false] exactly when there is no donor, and then changes nothing;
    otherwise the reported sequence is that of a donor whose stamp is minimal
    among the donors, that donor is gone, one donor fewer is live, its blocks
    are released and its backend and slot are notified. *)
Theorem EvictOneSequence_lru (st : RadixPrefixCache) (Hi : radix_inv st) :
  match EvictOneSequence alive st with
  | (st', None) => st' = st /\ live_sequences st = 0%Z
  | (st', Some s) =>
      exists path i rest, s = sequence_id i /\ is_donor i = true /\
        contents st ≡ₚ (path, i) :: rest /\
        (forall it, it ∈ contents st -> is_donor it.2 = true -> (last_used i <= last_used it.2)%Z) /\
        (contents st' ≡ₚ rest \/ contents st' ≡ₚ (path, clear_info i) :: rest) /\
        live_sequences st' = (live_sequences st - 1)%Z /\
        kv_cache st' = release_table (kv_cache st) (block_table i) /\
        events st' = events st ++ retire_events alive (on_evict_seq st) s (backend i)
  end.
Proof.
  unfold EvictOneSequence. destruct (EvictOneSequenceLocked alive st) as [st' [s|]] eqn:He.
  - destruct (EvictOneSequenceLocked_effect _ _ _ Hi He) as (path & i & rest & -> & Hd & Hmin & Hr).
    pose proof (retired_live _ _ _ _ _ Hi Hr) as Hl. destruct Hr as [Hb Ha Hk Hev _ _].
    rewrite Hd in *. exists path, i, rest. by split_and!.
  - by apply (EvictOneSequenceLocked_effect _ _ _ Hi He).
Qed.
End CacheFacts.

(** ** Concrete runs *)

Definition demo_pool : PagedKVCache := newCache 4 8 kLRU.

Definition demo_alive (_ : nat) : bool := true.

(** Two donors on one backend sharing the prefix [1; 2]. *)
Definition demo_radix : RadixPrefixCache (P := PagedKVCache) :=
  radix_run demo_alive (newRadix (Some demo_pool) true 8 4)
    [OpInsert [1; 2; 3] [0; 1] 7 (Some 0%nat); OpInsert [1; 2; 4] [2; 3] 8 (Some 0%nat)]%Z.

Lemma demo_radix_inv : radix_inv demo_radix.
Proof. apply radix_run_inv, newRadix_inv. Qed.

Lemma demo_backends it :
  it ∈ contents demo_radix -> is_donor it.2 = true ->
  lock demo_alive (backend it.2) = lock demo_alive (Some 0%nat).
Proof.
  intros Hin. vm_compute in Hin.
  repeat (apply elem_of_cons in Hin as [->|Hin]; [by vm_compute|]). set_solver.
Qed.

Lemma radix_reachable_inv_witness :
  radix_inv (radix_run demo_alive (newRadix (Some demo_pool) true 1 1)
    [OpInsert [1; 2; 3] [0] 7 (Some 0%nat); OpLookup [1; 2] None; OpEvictOneSequence]%Z).
Proof. apply (radix_reachable_inv demo_alive (Some demo_pool) true 1 1). Defined.



Lemma block_references_conserved_witness :
  exists p', kv_cache demo_radix = Some p' /\ pool_has p' 2 = true /\
    (pool_refs p' 2 + 1 = pool_refs demo_pool 2 + owned demo_radix 2)%Z.
Proof.
  apply (block_references_conserved demo_alive demo_pool true 8 4
    [OpInsert [1; 2; 3] [0; 1] 7 (Some 0%nat); OpInsert [1; 2; 4] [2; 3] 8 (Some 0%nat)]%Z 2).
  vm_compute. reflexivity.
Defined.

Lemma sequence_slots_conserved_witness :
  slot_ledger (EvictOneSequence demo_alive demo_radix).1 ≡ₚ slot_ledger demo_radix.
Proof.
  apply (sequence_slots_conserved demo_alive demo_radix [5]%Z [1]%Z 9 None demo_radix_inv).
  - reflexivity.
  - lia.
  - vm_compute. intros H. repeat (apply elem_of_cons in H as [H|H]; [discriminate|]).
    by apply elem_of_nil in H.
Defined.

Lemma Insert_new_leaf_within_limits_witness :
  (size_ (Insert demo_alive demo_radix [5; 6]%Z [1]%Z 9 None).1 <= 8)%Z.
Proof.
  apply (Insert_new_leaf_within_limits demo_alive demo_radix _ [5; 6]%Z [1]%Z 9 None demo_radix_inv).
  - vm_compute. reflexivity.
  - intros it Hin. vm_compute in Hin.
    repeat (apply elem_of_cons in Hin as [->|Hin]; [intros [k Hk]; discriminate Hk|]).
    apply elem_of_nil in Hin. contradiction.
Defined.

Lemma EvictOneSequence_lru_witness :
  exists st', EvictOneSequence demo_alive demo_radix = (st', Some 7%Z) /\
    live_sequences st' = 1%Z.
Proof.
  pose proof (EvictOneSequence_lru demo_alive demo_radix demo_radix_inv) as H.
  destruct (EvictOneSequence demo_alive demo_radix) as [st' o] eqn:E. exists st'.
  assert (o = Some 7%Z) as -> by (vm_compute in E; congruence). split; [reflexivity|].
  destruct H as (path & i & rest & _ & _ & _ & _ & _ & H & _). exact H.
Defined.

(** Inserting a proper prefix of an existing edge bypasses both limits.  The
    edge is split (one more node) and the tokens end on the new intermediate
    node, so the insertion takes the re-donation path, which runs no eviction: a
    cache limited to one node and one donor holds two of each after inserting
    [1; 2; 3] and then [1; 2]. *)
Theorem Insert_prefix_exceeds_limits :
  let st := radix_run demo_alive (newRadix (Some demo_pool) true 1 1)
    [OpInsert [1; 2; 3] [0] 7 (Some 0%nat); OpInsert [1; 2] [1] 8 (Some 0%nat)]%Z in
  capacity st = 1 /\ max_sequences st = 1 /\ size_ st = 2%Z /\ live_sequences st = 2%Z.
Proof. vm_compute. done. Qed.
