(* ===== verification/Float64.v ===== *)
(** * Double-precision arithmetic

    [double] in the sources is IEEE 754 binary64, rounding to nearest even: the
    Standard Library's executable [SpecFloat] at precision 53 and maximal
    exponent 1024. *)

From stdpp Require Import base tactics numbers list.
From Stdlib Require Import Floats.SpecFloat.

Abbreviation double := spec_float.

Definition dadd : double -> double -> double := SFadd 53 1024.
Definition dsub : double -> double -> double := SFsub 53 1024.
Definition dmul : double -> double -> double := SFmul 53 1024.
Definition ddiv : double -> double -> double := SFdiv 53 1024.

(** The C++ comparisons: false on NaN. *)
Definition dltb : double -> double -> bool := SFltb.
Definition dleb : double -> double -> bool := SFleb.

(** [static_cast<double>] of an integer; also exact decimal literals. *)
Definition d_of_Z (z : Z) : double := binary_normalize 53 1024 z 0 false.

(** [static_cast<int>]: truncation towards zero (the casts in the sources are
    applied to finite values in range only). *)
Definition d_trunc (d : double) : Z :=
  match d with
  | S754_finite s m e =>
      let v := if (0 <=? e)%Z then (Z.pos m * 2 ^ e)%Z else (Z.pos m / 2 ^ (- e))%Z in
      if s then (- v)%Z else v
  | _ => 0%Z
  end.

(** [std::min] and [std::max] *)
Definition dmin (a b : double) : double := if dltb b a then b else a.
Definition dmax (a b : double) : double := if dltb a b then b else a.

(** [static_cast<int>(std::ceil(d))] *)
Definition d_ceil (d : double) : Z :=
  match d with
  | S754_finite s m e =>
      if (0 <=? e)%Z then (if s then - (Z.pos m * 2 ^ e) else Z.pos m * 2 ^ e)%Z
      else if s then (- (Z.pos m / 2 ^ (- e)))%Z else (- (- Z.pos m / 2 ^ (- e)))%Z
  | _ => 0%Z
  end.

Lemma SFcompare_swap a b : SFcompare b a = CompOpp <$> SFcompare a b.
Proof.
  unfold SFcompare. destruct a as [s1|s1| |s1 m1 e1], b as [s2|s2| |s2 m2 e2];
    try (by destruct s1); try (by destruct s2); try (by destruct s1, s2); try done.
  destruct s1, s2; try done; rewrite (Z.compare_antisym e1 e2); destruct (Z.compare e1 e2); try done;
    simpl; rewrite (Pos.compare_cont_antisym m1 m2 Eq); simpl; by rewrite ?CompOpp_involutive.
Qed.

Lemma dltb_asym a b : dltb a b = true -> dltb b a = false.
Proof.
  unfold dltb, SFltb. rewrite (SFcompare_swap a b). by destruct (SFcompare a b) as [[]|].
Qed.

Lemma dltb_irrefl a : dltb a a = false.
Proof. destruct (dltb a a) eqn:E; [|done]. by rewrite (dltb_asym _ _ E) in E. Qed.

(** [std::min(a, b)] never exceeds [a]. *)
Lemma dmin_le a b : dltb a (dmin a b) = false.
Proof.
  unfold dmin. destruct (dltb b a) eqn:E; [by apply dltb_asym|apply dltb_irrefl].
Qed.

(** ** The order of doubles

    Away from NaN, [dltb] compares sign, then exponent, then mantissa: it is the
    lexicographic order of these keys, hence a strict weak order. *)

Definition deqb : double -> double -> bool := SFeqb.

Definition is_nan (d : double) : bool := match d with S754_nan => true | _ => false end.

Definition key (d : double) : Z * Z * Z :=
  match d with
  | S754_zero _ | S754_nan => (0, 0, 0)
  | S754_infinity s => ((if s then -2 else 2), 0, 0)
  | S754_finite s m e => if s then (-1, - e, - Z.pos m) else (1, e, Z.pos m)
  end%Z.

Definition key_lt (a b : Z * Z * Z) : Prop :=
  (a.1.1 < b.1.1 \/ (a.1.1 = b.1.1 /\ (a.1.2 < b.1.2 \/ (a.1.2 = b.1.2 /\ a.2 < b.2))))%Z.

Lemma SFcompare_key a b :
  is_nan a = false -> is_nan b = false ->
  match SFcompare a b with
  | Some Lt => key_lt (key a) (key b)
  | Some Gt => key_lt (key b) (key a)
  | Some Eq => key a = key b
  | None => False
  end.
Proof.
  unfold SFcompare, key_lt, key. destruct a as [s1|s1| |s1 m1 e1], b as [s2|s2| |s2 m2 e2]; intros Ha Hb; try done;
    try (destruct s1; try destruct s2; simpl; lia || done); try (destruct s2; simpl; lia || done).
  assert (Hm : match Pos.compare_cont Eq m1 m2 with
    | Lt => (Z.pos m1 < Z.pos m2)%Z | Gt => (Z.pos m2 < Z.pos m1)%Z | Eq => m1 = m2 end).
  { change (Pos.compare_cont Eq m1 m2) with (Pos.compare m1 m2).
    destruct (Pos.compare_spec m1 m2); subst; lia || done. }
  destruct s1, s2; simpl; try lia;
    (destruct (Z.compare_spec e1 e2); simpl; [|lia..]);
    destruct (Pos.compare_cont Eq m1 m2); simpl; subst; lia || done.
Qed.

Lemma dltb_key a b : is_nan a = false -> is_nan b = false -> dltb a b = true <-> key_lt (key a) (key b).
Proof.
  intros Ha Hb. pose proof (SFcompare_key a b Ha Hb) as H. unfold dltb, SFltb.
  destruct (SFcompare a b) as [[]|]; try done; split; try done; unfold key_lt in *; try rewrite H; intros; exfalso; lia.
Qed.

Lemma deqb_key a b : is_nan a = false -> is_nan b = false -> deqb a b = true <-> key a = key b.
Proof.
  intros Ha Hb. pose proof (SFcompare_key a b Ha Hb) as H. unfold deqb, SFeqb.
  destruct (SFcompare a b) as [[]|]; try done; split; try done; intros E; exfalso; unfold key_lt in H; rewrite E in H; lia.
Qed.

Lemma dleb_not_dltb a b : dleb a b = true -> dltb b a = false.
Proof. unfold dleb, dltb, SFleb, SFltb. rewrite (SFcompare_swap a b). by destruct (SFcompare a b) as [[]|]. Qed.

Lemma not_dltb_dleb a b : is_nan a = false -> is_nan b = false -> dltb b a = false -> dleb a b = true.
Proof.
  intros Ha Hb. pose proof (SFcompare_key a b Ha Hb) as H. unfold dleb, dltb, SFleb, SFltb.
  rewrite (SFcompare_swap a b). by destruct (SFcompare a b) as [[]|].
Qed.

(** ** Single precision

    [float] is binary32: precision 24, maximal exponent 128.  The comparisons do
    not depend on the format. *)

Abbreviation float := spec_float.

(** [static_cast<float>] of an integer and of a double *)
Definition f_of_Z (z : Z) : float := binary_normalize 24 128 z 0 false.

Definition f_of_d (d : double) : float :=
  match d with
  | S754_finite s m e => binary_normalize 24 128 (cond_Zopp s (Z.pos m)) e s
  | _ => d
  end.

Lemma dmin_not_nan a b : is_nan a = false -> is_nan (dmin a b) = false.
Proof. unfold dmin. destruct (dltb b a) eqn:E; [|done]. by destruct b. Qed.

Lemma dmax_not_nan a b : is_nan a = false -> is_nan (dmax a b) = false.
Proof. unfold dmax. destruct (dltb a b) eqn:E; [|done]. by destruct b, a as [[]|[]| |[]]. Qed.

Lemma dltb_trans a b c : is_nan a = false -> is_nan b = false -> is_nan c = false ->
  dltb a b = true -> dltb b c = true -> dltb a c = true.
Proof. intros Ha Hb Hc. rewrite !dltb_key by done. unfold key_lt. lia. Qed.

(** [std::max(lo, std::min(hi, x))] is between [lo] and [hi], whatever [x] is. *)
Lemma clamp_between lo hi x :
  is_nan lo = false -> is_nan hi = false -> dltb hi lo = false ->
  dltb (dmax lo (dmin hi x)) lo = false /\ dltb hi (dmax lo (dmin hi x)) = false.
Proof.
  intros Hl Hh Hlh. split; unfold dmax; destruct (dltb lo (dmin hi x)) eqn:E; try done.
  - by apply dltb_asym.
  - apply dltb_irrefl.
  - apply dmin_le.
Qed.
