(* ===== verification/SlotManager.v ===== *)
(** * runtime/scheduler/sequence_slot_manager: leases on sequence slots

    Every slot is a small state machine; a lease is a slot index stamped with
    the slot's acquisition generation.  Operations run under the manager's lock,
    so each is one atomic step, except [ReleaseLease], which drops the lock
    between retiring and reaping and is therefore two steps.  Readings of
    [steady_clock] are arguments ([Z], one tick unit); [time_point{}] is 0 and
    [time_point::max()] is [time_max].  The result of [cudaMemGetInfo] is an
    argument ([None] for an error), and so is whether the build has CUDA.
    Logging is left out. *)

From stdpp Require Import base tactics numbers list relations.
From S2P Require Import Prelude Float64.

Create HintDb slots.

Inductive SequenceState := kIdle | kPrefilling | kDecoding | kRetiring | kCompleted | kEvicted.

#[export] Instance SequenceState_eq_dec : EqDecision SequenceState.
Proof. solve_decision. Defined.

Record SequenceSlot := mkSlot {
  slot_id : Z;
  request_id : Z;
  sequence_id : Z;
  generation : Z;
  state : SequenceState;
  last_access : Z;
  acquired_at : Z;
  retire_ready_at : Z;
  token_count : Z }.

Record SequenceLease := mkLease {
  lease_slot : Z;
  lease_generation : Z;
  lease_request : Z }.

Definition time_max : Z := (2 ^ 63 - 1)%Z.

(** [SequenceRetireFence]: [Immediate], [After] and [Pending]. *)
Definition Immediate (now : Z) : Z := now.
Definition After (now grace : Z) : Z := (now + Z.max 0 grace)%Z.
Definition Pending : Z := time_max.

Definition lease_IsValid (l : SequenceLease) : bool := (0 <=? lease_slot l)%Z.

Definition IsIdle (s : SequenceSlot) (timeout now : Z) : bool :=
  if negb (bool_decide (state s = kDecoding)) then true
  else (timeout <? now - last_access s)%Z.

Record SequenceSlotManager := mkManager {
  slots : list SequenceSlot;
  max_slots : nat;
  idle_timeout : Z }.

Definition set_slots (m : SequenceSlotManager) (ss : list SequenceSlot) : SequenceSlotManager :=
  mkManager ss (max_slots m) (idle_timeout m).

Definition update_slot (m : SequenceSlotManager) (i : nat) (f : SequenceSlot -> SequenceSlot) :
    SequenceSlotManager :=
  set_slots m (alter f i (slots m)).

(** The slot every entry is initialised to. *)
Definition blank_slot (now : Z) (i : nat) : SequenceSlot :=
  mkSlot (Z.of_nat i) (-1) (-1) 0 kIdle now now 0 0.

(** [resize] keeps a prefix of the old entries, but all [max_slots_] entries are
    then overwritten. *)
Definition InitializeSlots (m : SequenceSlotManager) (now : Z) : SequenceSlotManager :=
  set_slots m (blank_slot now <$> seq 0 (max_slots m)).

Definition newManager (n : nat) (now : Z) : SequenceSlotManager :=
  InitializeSlots (mkManager [] n 300000) now.

Definition ResetSlotForReuse (s : SequenceSlot) : SequenceSlot :=
  mkSlot (slot_id s) (-1) (-1) (generation s) kIdle (last_access s) (acquired_at s) 0 0.

Definition reapable (now : Z) (s : SequenceSlot) : bool :=
  bool_decide (state s = kRetiring) && (retire_ready_at s <=? now)%Z.

Definition ReapRetiredSlotsLocked (m : SequenceSlotManager) (now : Z) : SequenceSlotManager * nat :=
  (set_slots m ((fun s => if reapable now s then ResetSlotForReuse s else s) <$> slots m),
   count_if (reapable now) (slots m)).

Definition ReapRetiredSlots (m : SequenceSlotManager) (now : Z) : SequenceSlotManager * nat :=
  ReapRetiredSlotsLocked m now.

Definition is_free (s : SequenceSlot) : bool :=
  bool_decide (state s = kIdle) || bool_decide (state s = kEvicted).

Definition is_used (s : SequenceSlot) : bool :=
  bool_decide (state s = kPrefilling) || bool_decide (state s = kDecoding).

Definition eligible (sequence_capacity : Z) (s : SequenceSlot) : bool :=
  ((sequence_capacity <=? 0)%Z || (slot_id s <? sequence_capacity)%Z) && is_free s.

Definition FindFreeSlot (m : SequenceSlotManager) (sequence_capacity : Z) : option nat :=
  find_index (eligible sequence_capacity) (slots m).

Definition FindSlotByRequestId (m : SequenceSlotManager) (req : Z) : option nat :=
  find_index (fun s => bool_decide (request_id s = req) && is_used s) (slots m).

Definition GetFreeSlotCountLocked (m : SequenceSlotManager) : nat := count_if is_free (slots m).
Definition GetUsedSlotCountLocked (m : SequenceSlotManager) : nat := count_if is_used (slots m).
Definition GetFreeSlotCount := GetFreeSlotCountLocked.
Definition GetUsedSlotCount := GetUsedSlotCountLocked.
Definition GetRetiringSlotCount (m : SequenceSlotManager) : nat :=
  count_if (fun s => bool_decide (state s = kRetiring)) (slots m).
Definition GetSlotStatus (m : SequenceSlotManager) : list SequenceSlot := slots m.

(** The update of the entry that is handed out. *)
Definition acquire_entry (req now : Z) (s : SequenceSlot) : SequenceSlot :=
  mkSlot (slot_id s) req (-1) (u64 (generation s + 1)) kPrefilling now now 0 0.

(** [t0] and [t1] are the two clock readings. *)
Definition AcquireLease (m : SequenceSlotManager) (req sequence_capacity t0 t1 : Z) :
    SequenceSlotManager * option SequenceLease :=
  let m1 := (ReapRetiredSlotsLocked m t0).1 in
  match FindFreeSlot m1 sequence_capacity with
  | None => (m1, None)
  | Some i =>
      let m2 := update_slot m1 i (acquire_entry req t1) in
      (m2, (fun s => mkLease (Z.of_nat i) (generation s) req) <$> (slots m2 !! i))
  end.

Definition AcquireSlot (m : SequenceSlotManager) (req t0 t1 : Z) : SequenceSlotManager * option Z :=
  let '(m', l) := AcquireLease m req 0 t0 t1 in (m', lease_slot <$> l).

(** [slot_id < 0 || slot_id >= static_cast<int>(max_slots_)], negated *)
Definition valid_slot (m : SequenceSlotManager) (id : Z) : bool :=
  (0 <=? id)%Z && (id <? i32 (Z.of_nat (max_slots m)))%Z.

Definition ReleaseSlot (m : SequenceSlotManager) (id : Z) : SequenceSlotManager :=
  if valid_slot m id then update_slot m (Z.to_nat id) ResetSlotForReuse else m.

(** The index of the leased slot when the lease is valid, in range, of the
    slot's generation and the slot's state is accepted. *)
Definition LockAndValidateLease (m : SequenceSlotManager) (l : SequenceLease)
    (accepted : list SequenceState) : option nat :=
  if negb (lease_IsValid l) then None
  else if negb (valid_slot m (lease_slot l)) then None
  else
    let i := Z.to_nat (lease_slot l) in
    match slots m !! i with
    | Some s =>
        if negb (bool_decide (generation s = lease_generation l)) then None
        else if bool_decide (state s ∈ accepted) then Some i else None
    | None => None
    end.

Definition RetireLease (m : SequenceSlotManager) (l : SequenceLease) (fence now : Z) :
    SequenceSlotManager * bool :=
  match LockAndValidateLease m l [kPrefilling; kDecoding; kCompleted] with
  | None => (m, false)
  | Some i =>
      (update_slot m i (fun s => mkSlot (slot_id s) (request_id s) (sequence_id s) (generation s)
         kRetiring now (acquired_at s) fence (token_count s)), true)
  end.

(** [ReleaseLease] in two lock regions; the second runs only when the first
    succeeded. *)
Definition ReleaseLease_retire (m : SequenceSlotManager) (l : SequenceLease) (t0 t1 : Z) :
    SequenceSlotManager * bool :=
  RetireLease m l (Immediate t0) t1.

Definition ReleaseLease_reap (m : SequenceSlotManager) (t2 : Z) : SequenceSlotManager * bool :=
  let '(m', n) := ReapRetiredSlotsLocked m t2 in (m', 0 <? n).

(** Both regions without interference. *)
Definition ReleaseLease (m : SequenceSlotManager) (l : SequenceLease) (t0 t1 t2 : Z) :
    SequenceSlotManager * bool :=
  let '(m1, ok) := ReleaseLease_retire m l t0 t1 in
  if ok then ReleaseLease_reap m1 t2 else (m1, false).

Definition CompleteRetiredLease (m : SequenceSlotManager) (l : SequenceLease) :
    SequenceSlotManager * bool :=
  match LockAndValidateLease m l [kRetiring] with
  | None => (m, false)
  | Some i => (update_slot m i ResetSlotForReuse, true)
  end.

Definition evictable (timeout now : Z) (s : SequenceSlot) : bool :=
  bool_decide (state s = kDecoding) && IsIdle s timeout now.

Definition EvictIdleSlotsLocked (m : SequenceSlotManager) (timeout now : Z) :
    SequenceSlotManager * list (Z * Z) :=
  (set_slots m ((fun s => if evictable timeout now s
                          then mkSlot (slot_id s) (request_id s) (sequence_id s) (generation s)
                                 kEvicted (last_access s) (acquired_at s) (retire_ready_at s) (token_count s)
                          else s) <$> slots m),
   (fun s => (slot_id s, sequence_id s)) <$> filter (fun s => evictable timeout now s = true) (slots m)).

Definition EvictIdleSlots := EvictIdleSlotsLocked.

Definition MarkProcessing (m : SequenceSlotManager) (id now : Z) : SequenceSlotManager :=
  if valid_slot m id then
    update_slot m (Z.to_nat id) (fun s =>
      mkSlot (slot_id s) (request_id s) (sequence_id s) (generation s)
        (if bool_decide (state s = kPrefilling) then kDecoding else state s)
        now (acquired_at s) (retire_ready_at s) (token_count s))
  else m.

Definition UpdateTokenCount (m : SequenceSlotManager) (id n : Z) : SequenceSlotManager :=
  if valid_slot m id then
    update_slot m (Z.to_nat id) (fun s =>
      mkSlot (slot_id s) (request_id s) (sequence_id s) (generation s) (state s)
        (last_access s) (acquired_at s) (retire_ready_at s) n)
  else m.

Definition CurrentGeneration (m : SequenceSlotManager) (id : Z) : option Z :=
  if valid_slot m id then generation <$> (slots m !! Z.to_nat id) else None.

Definition IsLiveLease (m : SequenceSlotManager) (l : SequenceLease) : bool :=
  if negb (lease_IsValid l) then false
  else if negb (valid_slot m (lease_slot l)) then false
  else
    match slots m !! Z.to_nat (lease_slot l) with
    | Some s => bool_decide (generation s = lease_generation l) &&
                bool_decide (request_id s = lease_request l) && is_used s
    | None => false
    end.

Definition MarkCompleted (m : SequenceSlotManager) (l : SequenceLease) (n now : Z) :
    SequenceSlotManager * bool :=
  match LockAndValidateLease m l [kPrefilling; kDecoding; kCompleted] with
  | None => (m, false)
  | Some i =>
      (update_slot m i (fun s => mkSlot (slot_id s) (request_id s) (sequence_id s) (generation s)
         kCompleted now (acquired_at s) (retire_ready_at s) (Z.max 0 n)), true)
  end.

Definition RestoreLease (m : SequenceSlotManager) (l : SequenceLease) (req seq n now : Z) :
    SequenceSlotManager * bool :=
  match LockAndValidateLease m l [kCompleted] with
  | None => (m, false)
  | Some i =>
      (update_slot m i (fun s => mkSlot (slot_id s) req seq (generation s)
         kPrefilling now now 0 (Z.max 0 n)), true)
  end.

Definition SetMaxSlots (m : SequenceSlotManager) (n : nat) (now : Z) : SequenceSlotManager :=
  if n =? max_slots m then m
  else InitializeSlots (mkManager (slots m) n (idle_timeout m)) now.

Definition SetIdleTimeout (m : SequenceSlotManager) (timeout : Z) : SequenceSlotManager :=
  mkManager (slots m) (max_slots m) timeout.

(** ** Memory pressure *)

(** [(free_bytes, total_bytes)] of a successful [cudaMemGetInfo]. *)
Abbreviation mem_info := (option (Z * Z)).

Definition pressure_pct (free total : Z) : double :=
  dmul (ddiv (d_of_Z (u64 (total - free))) (d_of_Z total)) (d_of_Z 100).

Definition CanAcceptRequest (cuda : bool) (mem : mem_info) : bool :=
  if cuda then
    match mem with
    | None => true
    | Some (free, total) => negb (dltb (d_of_Z 90) (pressure_pct free total))
    end
  else true.

Definition GetMemoryPressure (cuda : bool) (mem : mem_info) : Z :=
  if cuda then
    match mem with
    | None => (-1)%Z
    | Some (free, total) => d_trunc (pressure_pct free total)
    end
  else (-1)%Z.

Definition PerformGracefulDegradation (m : SequenceSlotManager) (cuda : bool) (mem : mem_info) :
    SequenceSlotManager * bool :=
  if cuda then
    let pressure := GetMemoryPressure cuda mem in
    let shrink n := if n <? max_slots m then (mkManager (slots m) n (idle_timeout m), true)
                    else (m, false) in
    if (pressure <? 0)%Z then (m, false)
    else if (90 <=? pressure)%Z then shrink (Nat.max 8 (max_slots m / 2))
    else if (85 <=? pressure)%Z then shrink (Nat.max 16 (max_slots m * 3 / 4))
    else (m, false)
  else (m, false).

(** ** Per-slot state machine *)

(** One atomic change of one slot.  Only an acquisition changes the generation,
    and only from a free state. *)
Inductive slot_step : SequenceSlot -> SequenceSlot -> Prop :=
  | step_touch s s' :
      slot_id s' = slot_id s -> generation s' = generation s -> state s' = state s -> slot_step s s'
  | step_acquire s s' :
      slot_id s' = slot_id s -> is_free s = true -> state s' = kPrefilling ->
      generation s' = u64 (generation s + 1) -> slot_step s s'
  | step_decode s s' :
      slot_id s' = slot_id s -> generation s' = generation s ->
      state s = kPrefilling -> state s' = kDecoding -> slot_step s s'
  | step_leave s s' :
      slot_id s' = slot_id s -> generation s' = generation s ->
      state s ∈ [kPrefilling; kDecoding; kCompleted] ->
      state s' = kRetiring \/ state s' = kCompleted -> slot_step s s'
  | step_restore s s' :
      slot_id s' = slot_id s -> generation s' = generation s ->
      state s = kCompleted -> state s' = kPrefilling -> slot_step s s'
  | step_evict s s' :
      slot_id s' = slot_id s -> generation s' = generation s ->
      state s = kDecoding -> state s' = kEvicted -> slot_step s s'
  | step_reap s s' :
      slot_id s' = slot_id s -> generation s' = generation s ->
      state s = kRetiring -> state s' = kIdle -> slot_step s s'.

#[export] Hint Constructors slot_step : slots.

Definition steps (m m' : SequenceSlotManager) : Prop := Forall2 (rtc slot_step) (slots m) (slots m').

Definition gens (m : SequenceSlotManager) : list Z := generation <$> slots m.
Definition ids (m : SequenceSlotManager) : list Z := slot_id <$> slots m.

(** The operations; leases are passed by their holders. [ReleaseSlot] (which
    bypasses leases) and [SetMaxSlots] are kept apart. *)
Inductive slot_op :=
  | OpAcquire (req cap t0 t1 : Z)
  | OpRetire (l : SequenceLease) (fence now : Z)
  | OpReap (now : Z)
  | OpComplete (l : SequenceLease)
  | OpEvictIdle (timeout now : Z)
  | OpMarkProcessing (id now : Z)
  | OpUpdateTokens (id n : Z)
  | OpMarkCompleted (l : SequenceLease) (n now : Z)
  | OpRestore (l : SequenceLease) (req seq n now : Z)
  | OpSetIdleTimeout (timeout : Z)
  | OpDegrade (cuda : bool) (mem : mem_info).

Definition slot_exec (op : slot_op) (m : SequenceSlotManager) : SequenceSlotManager * option SequenceLease :=
  match op with
  | OpAcquire req cap t0 t1 => AcquireLease m req cap t0 t1
  | OpRetire l fence now => ((RetireLease m l fence now).1, None)
  | OpReap now => ((ReapRetiredSlots m now).1, None)
  | OpComplete l => ((CompleteRetiredLease m l).1, None)
  | OpEvictIdle timeout now => ((EvictIdleSlots m timeout now).1, None)
  | OpMarkProcessing id now => (MarkProcessing m id now, None)
  | OpUpdateTokens id n => (UpdateTokenCount m id n, None)
  | OpMarkCompleted l n now => ((MarkCompleted m l n now).1, None)
  | OpRestore l req seq n now => ((RestoreLease m l req seq n now).1, None)
  | OpSetIdleTimeout timeout => (SetIdleTimeout m timeout, None)
  | OpDegrade cuda mem => ((PerformGracefulDegradation m cuda mem).1, None)
  end.

(** A run collects the leases it issued, newest first. *)
Definition slot_run1 (c : SequenceSlotManager * list SequenceLease) (op : slot_op) :
    SequenceSlotManager * list SequenceLease :=
  let '(m', l) := slot_exec op c.1 in (m', option_list l ++ c.2).

Definition slot_run (c : SequenceSlotManager * list SequenceLease) (ops : list slot_op) :
    SequenceSlotManager * list SequenceLease := foldl slot_run1 c ops.

Lemma Forall2_rtc_refl (ss : list SequenceSlot) : Forall2 (rtc slot_step) ss ss.
Proof. by apply Forall_Forall2_diag, Forall_forall. Qed.

Lemma Forall2_rtc_trans (s1 s2 s3 : list SequenceSlot) :
  Forall2 (rtc slot_step) s1 s2 -> Forall2 (rtc slot_step) s2 s3 -> Forall2 (rtc slot_step) s1 s3.
Proof.
  intros H1. revert s3. induction H1 as [|x y s1 s2 Hxy _ IH]; intros s3 H2; inversion_clear H2;
    constructor; [by etransitivity|auto].
Qed.

Lemma fmap_steps f (ss : list SequenceSlot) :
  (forall s, s ∈ ss -> slot_step s (f s)) -> Forall2 (rtc slot_step) ss (f <$> ss).
Proof.
  intros Hf. apply Forall2_fmap_r, Forall_Forall2_diag, Forall_forall.
  intros s Hs. by apply rtc_once, Hf.
Qed.

Lemma alter_steps f i (ss : list SequenceSlot) :
  (forall s, ss !! i = Some s -> slot_step s (f s)) -> Forall2 (rtc slot_step) ss (alter f i ss).
Proof.
  revert i. induction ss as [|s ss IH]; intros [|i] Hf; simpl; try apply Forall2_rtc_refl.
  - constructor; [by apply rtc_once, Hf|apply Forall2_rtc_refl].
  - constructor; [done|]. by apply IH.
Qed.

Lemma LockAndValidateLease_Some m l acc i :
  LockAndValidateLease m l acc = Some i ->
  exists s, slots m !! i = Some s /\ lease_slot l = Z.of_nat i /\
    generation s = lease_generation l /\ state s ∈ acc /\ valid_slot m (lease_slot l) = true.
Proof.
  unfold LockAndValidateLease. destruct (lease_IsValid l) eqn:Hv; simpl; [|done].
  destruct (valid_slot m (lease_slot l)) eqn:Hr; simpl; [|done].
  destruct (slots m !! Z.to_nat (lease_slot l)) as [s|] eqn:Hs; [|done].
  case_bool_decide as Hg; simpl; [|done]. case_bool_decide as Ha; [|done].
  intros [= <-]. apply Z.leb_le in Hv. exists s. split_and!; try done. lia.
Qed.

(** A lease operation that rewrites the leased slot, or does nothing. *)
Ltac lease_op :=
  destruct (LockAndValidateLease _ _ _) as [i|] eqn:Hl; [|apply Forall2_rtc_refl];
  apply LockAndValidateLease_Some in Hl as (s & Hs & _ & _ & Ha & _);
  apply alter_steps; intros s' Hs'; rewrite Hs in Hs'; injection Hs' as <-.

Lemma ReapRetired_steps m now : steps m (ReapRetiredSlotsLocked m now).1.
Proof.
  apply fmap_steps. intros s _. destruct (reapable now s) eqn:Hr; [|by apply step_touch].
  apply andb_true_iff in Hr as [Hr _]. apply bool_decide_eq_true in Hr. by apply step_reap.
Qed.

Lemma AcquireLease_effect m req cap t0 t1 :
  let m1 := (ReapRetiredSlotsLocked m t0).1 in
  match AcquireLease m req cap t0 t1 with
  | (m', None) => m' = m1 /\ FindFreeSlot m1 cap = None
  | (m', Some l) =>
      exists i s, FindFreeSlot m1 cap = Some i /\ slots m1 !! i = Some s /\ eligible cap s = true /\
        l = mkLease (Z.of_nat i) (u64 (generation s + 1)) req /\
        m' = update_slot m1 i (acquire_entry req t1)
  end.
Proof.
  intros m1. unfold AcquireLease. fold m1. destruct (FindFreeSlot m1 cap) as [i|] eqn:Hf; [|done].
  pose proof Hf as Hf'. apply find_index_Some in Hf' as [(s & Hs & He) _].
  cbn [slots update_slot set_slots]. rewrite list_lookup_alter_eq, Hs. by exists i, s.
Qed.

Lemma slot_exec_steps op m : steps m (slot_exec op m).1.
Proof.
  destruct op; cbn [slot_exec fst].
  - pose proof (AcquireLease_effect m req cap t0 t1) as He.
    destruct (AcquireLease m req cap t0 t1) as [m' [l|]]; cbn [fst].
    + destruct He as (i & s & _ & Hs & He & _ & ->). eapply Forall2_rtc_trans; [apply ReapRetired_steps|].
      apply alter_steps. intros s' Hs'. rewrite Hs in Hs'. injection Hs' as <-.
      apply andb_true_iff in He as [_ He]. by apply step_acquire.
    + destruct He as [-> _]. apply ReapRetired_steps.
  - unfold RetireLease. lease_op. apply step_leave; auto.
  - apply ReapRetired_steps.
  - unfold CompleteRetiredLease. lease_op. apply step_reap; set_solver.
  - apply fmap_steps. intros s _. destruct (evictable timeout now s) eqn:Hr; [|by apply step_touch].
    apply andb_true_iff in Hr as [Hr _]. apply bool_decide_eq_true in Hr. by apply step_evict.
  - unfold MarkProcessing. destruct (valid_slot m id); [|apply Forall2_rtc_refl].
    apply alter_steps. intros s _. destruct (bool_decide (state s = kPrefilling)) eqn:Hp.
    + apply bool_decide_eq_true in Hp. apply step_decode; simpl; done.
    + by apply step_touch.
  - unfold UpdateTokenCount. destruct (valid_slot m id); [|apply Forall2_rtc_refl].
    apply alter_steps. intros s _. by apply step_touch.
  - unfold MarkCompleted. lease_op. apply step_leave; auto.
  - unfold RestoreLease. lease_op. apply step_restore; set_solver.
  - apply Forall2_rtc_refl.
  - unfold PerformGracefulDegradation. destruct cuda; [|apply Forall2_rtc_refl].
    repeat case_match; simplify_eq/=; apply Forall2_rtc_refl.
Qed.

(** ** Issued leases *)

Definition keeps_identity (f : SequenceSlot -> SequenceSlot) : Prop :=
  forall s, generation (f s) = generation s /\ slot_id (f s) = slot_id s.

Definition same_identity (ss ss' : list SequenceSlot) : Prop :=
  generation <$> ss' = generation <$> ss /\ slot_id <$> ss' = slot_id <$> ss.

Lemma fmap_identity f ss : keeps_identity f -> same_identity ss (f <$> ss).
Proof.
  intros Hf. unfold same_identity. rewrite <- !list_fmap_compose.
  split; apply list_fmap_ext; intros i s _; apply Hf.
Qed.

Lemma alter_identity f i ss : keeps_identity f -> same_identity ss (alter f i ss).
Proof.
  intros Hf. revert i. induction ss as [|s ss IH]; intros [|i]; try done.
  - destruct (Hf s) as [H1 H2]. split; simpl; by f_equal.
  - destruct (IH i) as [H1 H2]. split; simpl; by f_equal.
Qed.

Lemma update_identity m i f : keeps_identity f -> same_identity (slots m) (slots (update_slot m i f)).
Proof. apply alter_identity. Qed.

Lemma reap_identity m now : same_identity (slots m) (slots (ReapRetiredSlotsLocked m now).1).
Proof. apply fmap_identity. intros s. by destruct (reapable now s). Qed.

Lemma lease_identity m l acc f :
  keeps_identity f ->
  same_identity (slots m)
    (slots (match LockAndValidateLease m l acc with
            | Some i => (update_slot m i f, true) | None => (m, false) end).1).
Proof. intros Hf. destruct (LockAndValidateLease m l acc); [by apply update_identity|done]. Qed.

Lemma acquire_gens (i : nat) s req t (ss : list SequenceSlot) :
  ss !! i = Some s ->
  generation <$> alter (acquire_entry req t) i ss = <[i := u64 (generation s + 1)]> (generation <$> ss) /\
  slot_id <$> alter (acquire_entry req t) i ss = slot_id <$> ss.
Proof.
  revert i. induction ss as [|s' ss IH]; intros [|i] Hs; try done; simpl in *.
  - by simplify_eq.
  - destruct (IH i Hs) as [H1 H2]. split; [exact (f_equal (cons _) H1)|exact (f_equal (cons _) H2)].
Qed.

Lemma slot_exec_identity op m :
  match slot_exec op m with
  | (m', None) => same_identity (slots m) (slots m')
  | (m', Some l) => exists i g, gens m !! i = Some g /\ lease_slot l = Z.of_nat i /\
      lease_generation l = u64 (g + 1) /\ gens m' = <[i := u64 (g + 1)]> (gens m) /\ ids m' = ids m
  end.
Proof.
  destruct op; cbn [slot_exec].
  - pose proof (AcquireLease_effect m req cap t0 t1) as He.
    destruct (AcquireLease m req cap t0 t1) as [m' [l|]].
    + destruct He as (i & s & _ & Hs & _ & -> & ->). exists i, (generation s).
      destruct (reap_identity m t0) as [Hg Hi]. unfold gens, ids.
      destruct (acquire_gens i s req t1 _ Hs) as [H1 H2].
      split_and!; try done.
      * rewrite <- Hg. by rewrite list_lookup_fmap, Hs.
      * rewrite <- Hg. exact H1.
      * rewrite <- Hi. exact H2.
    + destruct He as [-> _]. apply reap_identity.
  - by apply lease_identity.
  - apply reap_identity.
  - by apply lease_identity.
  - apply fmap_identity. intros s. by destruct (evictable timeout now s).
  - unfold MarkProcessing. destruct (valid_slot m id); [|done]. by apply update_identity.
  - unfold UpdateTokenCount. destruct (valid_slot m id); [|done]. by apply update_identity.
  - by apply lease_identity.
  - by apply lease_identity.
  - done.
  - unfold PerformGracefulDegradation. destruct cuda; [|done]. simpl.
    repeat (case_match; simplify_eq/=; try done).
Qed.

Definition stamp (l : SequenceLease) : Z * Z := (lease_slot l, lease_generation l).

(** Every issued lease carries a generation its slot has reached, no two leases
    carry the same stamp, and generations count acquisitions. *)
Record lease_inv (c : SequenceSlotManager * list SequenceLease) : Prop := {
  li_gen i g : gens c.1 !! i = Some g -> (0 <= g <= Z.of_nat (length c.2))%Z;
  li_issued l : l ∈ c.2 -> exists i g, lease_slot l = Z.of_nat i /\ gens c.1 !! i = Some g /\
                  (0 < lease_generation l <= g)%Z;
  li_nodup : NoDup (stamp <$> c.2) }.

Lemma newManager_inv n now : lease_inv (newManager n now, []).
Proof.
  constructor; simpl; [|set_solver|constructor].
  intros i g. unfold gens. simpl. rewrite !list_lookup_fmap.
  destruct (seq 0 n !! i); simpl; [|done]. intros [= <-]. lia.
Qed.

Lemma slot_run1_inv c op :
  lease_inv c -> (Z.of_nat (length c.2) + 1 < 2 ^ 64)%Z -> lease_inv (slot_run1 c op).
Proof.
  destruct c as [m ls]. intros [Hg Hiss Hnd] Hlen. unfold slot_run1. simpl in *.
  pose proof (slot_exec_identity op m) as Hid. destruct (slot_exec op m) as [m' [l|]]; simpl.
  2: { destruct Hid as [Hgens _]. fold (gens m) (gens m') in Hgens.
       constructor; simpl; rewrite ?Hgens; auto. }
  destruct Hid as (i & g & Hi & Hslot & Hgen & Hgens & _).
  pose proof (Hg _ _ Hi) as Hgb. rewrite u64_small in * by lia.
  assert (Hother : forall j g', gens m !! j = Some g' ->
    exists g'', gens m' !! j = Some g'' /\ (g' <= g'')%Z /\ (j = i -> g'' = g' + 1)%Z).
  { intros j g' Hj. rewrite Hgens. destruct (decide (j = i)) as [->|Hne].
    - rewrite list_lookup_insert_eq by (by eapply lookup_lt_Some). assert (g' = g) as -> by congruence.
      exists (g + 1)%Z. split_and!; [done|lia|done].
    - rewrite list_lookup_insert_ne by done. exists g'. split_and!; [done|lia|done]. }
  constructor; simpl.
  - intros j g' Hj. rewrite Hgens in Hj. destruct (decide (j = i)) as [->|Hne].
    + rewrite list_lookup_insert_eq in Hj by (by eapply lookup_lt_Some). simplify_eq. lia.
    + rewrite list_lookup_insert_ne in Hj by done. specialize (Hg _ _ Hj). lia.
  - intros l' [->|Hl']%elem_of_cons.
    + destruct (Hother i g Hi) as (g2 & H2 & _ & H3). exists i, g2. rewrite H3 by done.
      split_and!; [done|by rewrite H2, H3|lia..].
    + destruct (Hiss _ Hl') as (j & gj & Hs & Hj & Hb).
      destruct (Hother _ _ Hj) as (g2 & H2 & H3 & _). exists j, g2. split_and!; [done|done|lia..].
  - constructor; [|done]. intros (l' & Heq & Hl')%list_elem_of_fmap.
    destruct (Hiss _ Hl') as (j & gj & Hs & Hj & Hb). unfold stamp in Heq. simplify_eq.
    assert (j = i) as -> by lia. simplify_eq. lia.
Qed.

Lemma slot_run_length c ops : length (slot_run c ops).2 <= length c.2 + length ops.
Proof.
  revert c. induction ops as [|op ops IH]; intros c; simpl; [lia|].
  specialize (IH (slot_run1 c op)). unfold slot_run in *. etransitivity; [exact IH|].
  unfold slot_run1. destruct (slot_exec op c.1) as [m' [l|]]; simpl; lia.
Qed.

Lemma slot_run_inv c ops :
  lease_inv c -> (Z.of_nat (length c.2 + length ops) < 2 ^ 64)%Z -> lease_inv (slot_run c ops).
Proof.
  revert c. induction ops as [|op ops IH]; intros c Hi Hlen; simpl in *; [done|].
  apply IH.
  - apply slot_run1_inv; [done|lia].
  - unfold slot_run1. destruct (slot_exec op c.1) as [m' [l|]]; simpl; lia.
Qed.

(** A lease whose generation is not the slot's is rejected everywhere. *)
Lemma stale_rejected m l g :
  gens m !! Z.to_nat (lease_slot l) = Some g -> g <> lease_generation l ->
  (forall acc, LockAndValidateLease m l acc = None) /\ IsLiveLease m l = false.
Proof.
  unfold gens. rewrite list_lookup_fmap. intros Hs Hne.
  destruct (slots m !! Z.to_nat (lease_slot l)) as [s|] eqn:E; simplify_eq/=.
  unfold LockAndValidateLease, IsLiveLease. rewrite E.
  rewrite (bool_decide_eq_false_2 (generation s = _)) by done.
  split; [intros acc|]; by destruct (lease_IsValid l), (valid_slot m _).
Qed.

Lemma reap_lookup m now i :
  slots (ReapRetiredSlotsLocked m now).1 !! i =
  (fun s => if reapable now s then ResetSlotForReuse s else s) <$> (slots m !! i).
Proof. apply list_lookup_fmap. Qed.

(** A slot [AcquireLease] may hand out at time [t]. *)
Definition available (cap t : Z) (s : SequenceSlot) : bool :=
  ((cap <=? 0)%Z || (slot_id s <? cap)%Z) && (is_free s || reapable t s).

Lemma eligible_reaped cap t s :
  eligible cap (if reapable t s then ResetSlotForReuse s else s) = available cap t s.
Proof.
  unfold eligible, available. destruct (reapable t s) eqn:Hr; simpl.
  - by rewrite orb_true_r.
  - by rewrite orb_false_r.
Qed.

(** ** Properties *)


Definition two_tenants : list slot_op :=
  [OpAcquire 10 0 0 0; OpRetire (mkLease 0 1 10) 5 5; OpAcquire 11 0 6 6].


(** [AcquireLease] hands out the lowest-numbered available slot, where a slot
    is available when it is idle, evicted, or retiring behind a fence that has
    passed (and below the capacity bound if one is given).  A slot that is in
    use, retained or still fenced is never handed out.  The slot's generation is
    bumped and stamped into the lease; every other slot is at most reaped.
    Without an available slot the result is [nullopt]. *)
Theorem AcquireLease_spec (m : SequenceSlotManager) (req cap t0 t1 : Z) :
  match AcquireLease m req cap t0 t1 with
  | (m', None) =>
      (forall i s, slots m !! i = Some s -> available cap t0 s = false) /\
      m' = (ReapRetiredSlots m t0).1
  | (m', Some l) =>
      exists i s, slots m !! i = Some s /\ available cap t0 s = true /\
        (forall j s', j < i -> slots m !! j = Some s' -> available cap t0 s' = false) /\
        l = mkLease (Z.of_nat i) (u64 (generation s + 1)) req /\
        slots m' !! i = Some (acquire_entry req t1 s) /\
        (forall j, j <> i -> slots m' !! j = slots (ReapRetiredSlots m t0).1 !! j)
  end.
Proof.
  pose proof (AcquireLease_effect m req cap t0 t1) as He.
  destruct (AcquireLease m req cap t0 t1) as [m' [l|]].
  - destruct He as (i & s1 & Hf & Hs1 & _ & -> & ->).
    apply find_index_Some in Hf as [(s1' & Hs1' & He) Hmin].
    rewrite reap_lookup in Hs1, Hs1'.
    destruct (slots m !! i) as [s|] eqn:Hs; [|done]. simpl in Hs1, Hs1'. simplify_eq. exists i, s.
    rewrite eligible_reaped in He.
    split_and!; try done.
    + intros j s' Hj Hs'. rewrite <- eligible_reaped. apply (Hmin j _ Hj).
      etransitivity; [exact (reap_lookup m t0 j)|]. by rewrite Hs'.
    + by destruct (reapable t0 s).
    + cbn [slots update_slot set_slots]. rewrite list_lookup_alter_eq, reap_lookup, Hs. simpl.
      by destruct (reapable t0 s).
    + intros j Hj. cbn [slots update_slot set_slots]. by rewrite list_lookup_alter_ne.
  - destruct He as [-> Hf]. split; [|done]. intros i s Hs.
    apply find_index_None in Hf. rewrite Forall_lookup in Hf.
    rewrite <- eligible_reaped. apply (Hf i). by rewrite reap_lookup, Hs.
Qed.

(** The slot state machine.  Along any sequence of operations every slot only
    moves along the transitions idle/evicted -> prefilling (the only one that
    changes the generation, by one), prefilling -> decoding, prefilling/decoding/
    completed -> retiring or completed, completed -> prefilling, decoding ->
    evicted and retiring -> idle; in particular an occupied slot becomes free
    only through retirement or idle eviction, and slots neither appear nor
    disappear. *)
Theorem slot_transitions (m : SequenceSlotManager) (ls : list SequenceLease) (ops : list slot_op) :
  Forall2 (rtc slot_step) (slots m) (slots (slot_run (m, ls) ops).1).
Proof.
  revert m ls. induction ops as [|op ops IH]; intros m ls; [apply Forall2_rtc_refl|].
  simpl. unfold slot_run1 at 1. simpl. pose proof (slot_exec_steps op m) as H.
  destruct (slot_exec op m) as [m' l]. by eapply Forall2_rtc_trans.
Qed.

(** Releasing a valid lease works.  If the lease is of the slot's current
    generation and the slot is prefilling, decoding or completed, then
    [ReleaseLease] (undisturbed between its two lock regions, with a clock that
    does not run backwards) returns [true] and leaves the slot idle with its
    generation unchanged, and every other slot is at most reaped. *)
Theorem ReleaseLease_frees (m : SequenceSlotManager) (l : SequenceLease) (i : nat) (t0 t1 t2 : Z)
    (Hv : LockAndValidateLease m l [kPrefilling; kDecoding; kCompleted] = Some i) (Ht : (t0 <= t2)%Z) :
  exists m' s s', ReleaseLease m l t0 t1 t2 = (m', true) /\
    slots m !! i = Some s /\ slots m' !! i = Some s' /\ state s' = kIdle /\
    generation s' = generation s /\ IsLiveLease m' l = false /\
    (forall j, j <> i -> slots m' !! j = slots (ReapRetiredSlots m t2).1 !! j).
Proof.
  destruct (LockAndValidateLease_Some _ _ _ _ Hv) as (s & Hs & Hsl & Hg & _ & _).
  unfold ReleaseLease, ReleaseLease_retire, RetireLease. rewrite Hv.
  set (s1 := mkSlot (slot_id s) (request_id s) (sequence_id s) (generation s) kRetiring t1
               (acquired_at s) (Immediate t0) (token_count s)).
  set (m1 := update_slot m i _).
  assert (H1 : slots m1 !! i = Some s1).
  { unfold m1. cbn [slots update_slot set_slots]. by rewrite list_lookup_alter_eq, Hs. }
  assert (Hr : reapable t2 s1 = true).
  { unfold reapable, s1. simpl. unfold Immediate. by apply Z.leb_le. }
  assert (H2 : slots (ReapRetiredSlotsLocked m1 t2).1 !! i = Some (ResetSlotForReuse s1)).
  { rewrite reap_lookup, H1. simpl. by rewrite Hr. }
  assert (Hc : 0 <? count_if (reapable t2) (slots m1) = true).
  { apply Nat.ltb_lt. destruct (count_if (reapable t2) (slots m1)) eqn:E; [|lia].
    apply count_if_zero in E. rewrite Forall_lookup in E. rewrite (E _ _ H1) in Hr. done. }
  exists (ReapRetiredSlotsLocked m1 t2).1, s, (ResetSlotForReuse s1). unfold ReleaseLease_reap.
  cbn [ReapRetiredSlotsLocked fst]. rewrite Hc. split_and!; try done.
  - unfold IsLiveLease. rewrite Hsl, Nat2Z.id. cbn [ReapRetiredSlotsLocked fst] in H2. rewrite H2.
    rewrite andb_false_r. by repeat case_match.
  - intros j Hj. transitivity ((fun s => if reapable t2 s then ResetSlotForReuse s else s) <$> slots m1 !! j).
    + exact (reap_lookup m1 t2 j).
    + unfold m1, ReapRetiredSlots. cbn [slots update_slot set_slots].
      by rewrite list_lookup_alter_ne, reap_lookup.
Qed.

Lemma ReleaseLease_frees_witness :
  exists m', ReleaseLease (slot_run (newManager 2 0, []) [OpAcquire 10 0 0 0]).1
               (mkLease 0 1 10) 7 7 8 = (m', true) /\
    IsLiveLease m' (mkLease 0 1 10) = false.
Proof.
  destruct (ReleaseLease_frees (slot_run (newManager 2 0, []) [OpAcquire 10 0 0 0]).1
              (mkLease 0 1 10) 0 7 7 8) as (m' & s & s' & H & _ & _ & _ & _ & H' & _).
  - vm_compute. reflexivity.
  - lia.
  - exists m'. split; [exact H|exact H'].
Defined.

(** ** Divergences *)

Definition occupy (n : nat) : list slot_op := replicate n (OpAcquire 1 0 0 0).

(** Shrinking under memory pressure leaves unreachable slots.  After
    [PerformGracefulDegradation] lowered [max_slots_] (32 slots, 16 in use, 95%
    pressure), the free-slot search still covers all 32 entries and hands out
    slot 16; the lease is not live, and neither [ReleaseLease], [MarkCompleted]
    nor [ReleaseSlot] reaches the slot, which stays occupied. *)
Theorem degraded_slot_is_lost :
  let m0 := (slot_run (newManager 32 0, []) (occupy 16)).1 in
  let m1 := (PerformGracefulDegradation m0 true (Some (5, 100)%Z)).1 in
  let '(m2, l) := AcquireLease m1 7 0 1 1 in
  max_slots m1 = 16 /\ l = Some (mkLease 16 1 7) /\
  IsLiveLease m2 (mkLease 16 1 7) = false /\
  ReleaseLease m2 (mkLease 16 1 7) 2 2 2 = (m2, false) /\
  MarkCompleted m2 (mkLease 16 1 7) 0 2 = (m2, false) /\ ReleaseSlot m2 16 = m2 /\
  state <$> (slots m2 !! 16) = Some kPrefilling.
Proof. vm_compute. split_and!; reflexivity. Qed.

(** [ReleaseLease] drops the lock between its two regions: when another thread
    reaps the slot in between, the lease is released but [false] is returned. *)
Example ReleaseLease_race :
  let m0 := (slot_run (newManager 1 0, []) [OpAcquire 10 0 0 0]).1 in
  let '(m1, ok) := ReleaseLease_retire m0 (mkLease 0 1 10) 5 5 in
  let m2 := (ReapRetiredSlots m1 6).1 in
  ok = true /\ (state <$> (slots m2 !! 0)) = Some kIdle /\ (ReleaseLease_reap m2 7).2 = false.
Proof. vm_compute. split_and!; reflexivity. Qed.

(** [SetMaxSlots] resets the generations, so a lease from before it can match a
    slot handed out after it: the old holder of generation 1 releases the slot
    of another request. *)
Example SetMaxSlots_revives_stale_lease :
  let m0 := (slot_run (newManager 1 0, []) [OpAcquire 10 0 0 0]).1 in
  let '(m1, l) := AcquireLease (SetMaxSlots m0 2 1) 11 0 2 2 in
  l = Some (mkLease 0 1 11) /\ (ReleaseLease m1 (mkLease 0 1 10) 3 3 3).2 = true.
Proof. vm_compute. split_and!; reflexivity. Qed.
