(* ===== verification/SessionHandles.v ===== *)
(** * scheduler/session_handle_manager: retained session state

    A map from session ids to entries that keep the KV state of a finished turn
    until the session returns, expires or is evicted.  Every operation runs
    under the manager's mutex.  Time is the reading of [steady_clock] passed as
    an argument; the iteration order of the [unordered_map] is the parameter
    [iteration], of which only "each entry exactly once" is assumed. *)

From stdpp Require Import base tactics numbers list strings gmap.
From S2P Require Import Prelude.

Create HintDb sessions.

Record SessionHandleState := mkState {
  model_id : string;
  ss_sequence_id : Z;
  sequence_generation : Z;
  prompt_tokens : list Z;
  ss_block_table : list Z }.

Definition emptyState : SessionHandleState := mkState "" (-1) 0 [] [].

Record Entry := mkEntry {
  entry_state : SessionHandleState;
  has_state : bool;
  in_use : bool;
  last_access : Z;
  expires_at : Z }.

Record SessionHandleManager := mkSessions {
  max_sessions : nat;
  ttl : Z;
  entries : gmap string Entry }.

(** The constructor's normalisation of the configuration. *)
Definition newSessions (max_s : nat) (ttl_ms : Z) : SessionHandleManager :=
  mkSessions (if max_s =? 0 then 1 else max_s) (if (ttl_ms <=? 0)%Z then 1%Z else ttl_ms) ∅.

Definition set_entries (m : SessionHandleManager) (es : gmap string Entry) : SessionHandleManager :=
  mkSessions (max_sessions m) (ttl m) es.

Inductive LeaseStatus := kAcquired | kBusy.

Record LeaseResult := mkLeaseResult {
  status : LeaseStatus;
  lr_state : option SessionHandleState;   (* [has_state] and [state] *)
  cleanup_states : list SessionHandleState }.

Definition busy : LeaseResult := mkLeaseResult kBusy None [].

(** The state an entry holds, as the list pushed to a clean-up vector. *)
Definition held_state (e : Entry) : list SessionHandleState :=
  if has_state e then [entry_state e] else [].

Section Manager.
Variable iteration : gmap string Entry -> list (string * Entry).

(** The first unused entry with the smallest access time. *)
Fixpoint find_candidate (l : list (string * Entry)) (best : option (string * Entry)) :
    option (string * Entry) :=
  match l with
  | [] => best
  | (k, e) :: l' =>
      if in_use e then find_candidate l' best
      else match best with
           | None => find_candidate l' (Some (k, e))
           | Some (_, b) => if (last_access e <? last_access b)%Z
                            then find_candidate l' (Some (k, e)) else find_candidate l' best
           end
  end.

Definition FindEvictionCandidateLocked (m : SessionHandleManager) : option (string * Entry) :=
  find_candidate (iteration (entries m)) None.

Definition AcquireLease (m : SessionHandleManager) (session_id : string) (now : Z) :
    SessionHandleManager * LeaseResult :=
  if bool_decide (session_id = "") then (m, busy)
  else
    match entries m !! session_id with
    | None =>
        let fresh := mkEntry emptyState false true now (now + ttl m) in
        if max_sessions m <=? size (entries m) then
          match FindEvictionCandidateLocked m with
          | None => (m, busy)
          | Some (k, e) =>
              (set_entries m (<[session_id := fresh]> (delete k (entries m))),
               mkLeaseResult kAcquired None (held_state e))
          end
        else (set_entries m (<[session_id := fresh]> (entries m)), mkLeaseResult kAcquired None [])
    | Some e =>
        if in_use e then (m, busy)
        else
          let expired := has_state e && (expires_at e <=? now)%Z in
          let cleanup := if expired then [entry_state e] else [] in
          let keep := has_state e && negb expired in
          let st := if expired then emptyState else entry_state e in
          (set_entries m (<[session_id := mkEntry st keep true now (now + ttl m)]> (entries m)),
           mkLeaseResult kAcquired (if keep then Some st else None) cleanup)
    end.

(** [entries_\[session_id\]] default-constructs a missing entry. *)
Definition CommitLease (m : SessionHandleManager) (session_id : string) (st : SessionHandleState)
    (now : Z) : SessionHandleManager :=
  if bool_decide (session_id = "") then m
  else set_entries m (<[session_id := mkEntry st true false now (now + ttl m)]> (entries m)).

Definition ReleaseLease (m : SessionHandleManager) (session_id : string) (now : Z) :
    SessionHandleManager :=
  if bool_decide (session_id = "") then m
  else
    match entries m !! session_id with
    | None => m
    | Some e =>
        if has_state e
        then set_entries m (<[session_id := mkEntry (entry_state e) true false now (now + ttl m)]> (entries m))
        else set_entries m (delete session_id (entries m))
    end.

Definition DiscardLeasedState (m : SessionHandleManager) (session_id : string) : SessionHandleManager :=
  if bool_decide (session_id = "") then m
  else
    match entries m !! session_id with
    | None => m
    | Some e => set_entries m (<[session_id :=
        mkEntry emptyState false (in_use e) (last_access e) (expires_at e)]> (entries m))
    end.

Definition is_expired (now : Z) (e : Entry) : bool := negb (in_use e || (now <? expires_at e)%Z).

(** One iteration of the sweep. *)
Definition sweep (now : Z) (acc : gmap string Entry * list SessionHandleState) (ke : string * Entry) :
    gmap string Entry * list SessionHandleState :=
  if is_expired now ke.2 then (delete ke.1 acc.1, acc.2 ++ held_state ke.2) else acc.

Definition CollectExpired (m : SessionHandleManager) (now : Z) :
    SessionHandleManager * list SessionHandleState :=
  let '(es, expired) := foldl (sweep now) (entries m, []) (iteration (entries m)) in
  (set_entries m es, expired).

Definition DrainAll (m : SessionHandleManager) : SessionHandleManager * list SessionHandleState :=
  (set_entries m ∅, flat_map (fun ke => held_state ke.2) (iteration (entries m))).

Definition SessionCount (m : SessionHandleManager) : nat := size (entries m).

(** ** Facts *)

(** Every state the manager holds. *)
Definition stored (es : gmap string Entry) : list SessionHandleState :=
  flat_map (fun ke => held_state ke.2) (map_to_list es).

Lemma stored_insert es k e :
  es !! k = None -> stored (<[k := e]> es) ≡ₚ held_state e ++ stored es.
Proof.
  intros Hk. unfold stored. by rewrite (Permutation_flat_map _ (map_to_list_insert es k e Hk)).
Qed.

Lemma stored_delete es k e :
  es !! k = Some e -> stored es ≡ₚ held_state e ++ stored (delete k es).
Proof.
  intros Hk. rewrite <- stored_insert by apply lookup_delete_eq.
  by rewrite insert_delete_id.
Qed.

Lemma stored_update es k e e' :
  es !! k = Some e -> stored (<[k := e']> es) ≡ₚ held_state e' ++ stored (delete k es).
Proof.
  intros Hk. rewrite <- insert_delete_eq. apply stored_insert, lookup_delete_eq.
Qed.

Hypothesis iteration_perm : forall es, iteration es ≡ₚ map_to_list es.

Lemma iteration_lookup es k e : (k, e) ∈ iteration es -> es !! k = Some e.
Proof. rewrite iteration_perm. apply elem_of_map_to_list. Qed.

Lemma iteration_NoDup es : NoDup (iteration es).*1.
Proof. rewrite iteration_perm. apply NoDup_fst_map_to_list. Qed.

Lemma find_candidate_spec l best k e :
  find_candidate l best = Some (k, e) ->
  (best = Some (k, e) \/ ((k, e) ∈ l /\ in_use e = false)) /\
  (forall k' e', (k', e') ∈ l -> in_use e' = false -> (last_access e <= last_access e')%Z) /\
  (forall k' e', best = Some (k', e') -> (last_access e <= last_access e')%Z).
Proof.
  revert best. induction l as [|[k1 e1] l IH]; intros best Hf; simpl in Hf.
  { subst best. split_and!; [by left|set_solver|naive_solver lia]. }
  destruct (in_use e1) eqn:Hu.
  { destruct (IH _ Hf) as (H1 & H2 & H3). split_and!; [set_solver| |done].
    intros k' e' [[= -> ->]|Hin]%elem_of_cons Hu'; [congruence|eauto]. }
  destruct best as [[kb b]|]; [destruct (Z.ltb_spec (last_access e1) (last_access b))|];
    destruct (IH _ Hf) as (H1 & H2 & H3).
  - specialize (H3 k1 e1 eq_refl). split_and!.
    + right. destruct H1 as [[= -> ->]|[? ?]]; set_solver.
    + intros k' e' [[= -> ->]|Hin]%elem_of_cons Hu'; eauto.
    + intros k' e' [= <- <-]. lia.
  - specialize (H3 kb b eq_refl). split_and!.
    + destruct H1 as [->|[? ?]]; [by left|right; set_solver].
    + intros k' e' [[= -> ->]|Hin]%elem_of_cons Hu'; [lia|eauto].
    + intros k' e' [= <- <-]. lia.
  - specialize (H3 k1 e1 eq_refl). split_and!; [|..|done].
    + right. destruct H1 as [[= -> ->]|[? ?]]; set_solver.
    + intros k' e' [[= -> ->]|Hin]%elem_of_cons Hu'; [lia|eauto].
Qed.

Lemma sweep_spec now l es out :
  NoDup l.*1 -> (forall k e, (k, e) ∈ l -> es !! k = Some e) ->
  let r := foldl (sweep now) (es, out) l in
  out ++ stored es ≡ₚ r.2 ++ stored r.1 /\
  (forall k e, r.1 !! k = Some e <-> es !! k = Some e /\ (k ∈ l.*1 -> is_expired now e = false)).
Proof.
  revert es out. induction l as [|[k1 e1] l IH]; intros es out Hn Hl; cbn [foldl].
  { split; [done|]. intros k e. split; [|tauto]. intros H. split; [done|]. set_solver. }
  inversion_clear Hn as [|?? Hk1 Hn']. pose proof (Hl k1 e1 ltac:(left)) as H1.
  destruct (is_expired now e1) eqn:He.
  - replace (sweep now (es, out) (k1, e1)) with (delete k1 es, out ++ held_state e1)
      by (unfold sweep; simpl; by rewrite He).
    assert (Hl' : forall k e, (k, e) ∈ l -> delete k1 es !! k = Some e).
    { intros k e Hin. rewrite lookup_delete_ne; [apply Hl; by right|]. intros ->. apply Hk1.
      apply list_elem_of_fmap. by exists (k, e). }
    destruct (IH (delete k1 es) (out ++ held_state e1) Hn' Hl') as [Hp Hlk]. split.
    + rewrite <- Hp, (stored_delete _ _ _ H1). by rewrite app_assoc.
    + intros k e. rewrite Hlk. destruct (decide (k = k1)) as [->|Hne].
      * rewrite lookup_delete_eq. split; [naive_solver|]. intros [He1 Hx]. simplify_eq.
        rewrite Hx in He by set_solver. done.
      * rewrite lookup_delete_ne by done. set_solver.
  - replace (sweep now (es, out) (k1, e1)) with (es, out) by (unfold sweep; simpl; by rewrite He).
    destruct (IH es out Hn') as [Hp Hlk]; [intros; apply Hl; by right|]. split; [done|].
    intros k e. rewrite Hlk. split; intros [He1 Hx]; split; try done; [|set_solver].
    rewrite fmap_cons, elem_of_cons. simpl. intros [->|Hin]; [congruence|auto].
Qed.

(** ** Properties *)

(** No retained KV state is lost or handed out twice.  Every state held
    before an operation is, after it, either still held or in the clean-up list
    the operation returns: this holds for acquiring (with eviction of another
    session and with expiry), releasing, sweeping expired sessions and draining;
    committing adds exactly the committed state and replaces only the same
    session's previous one. *)
Theorem session_states_conserved (m : SessionHandleManager) (id : string) (st : SessionHandleState) (now : Z) :
  (let '(m', r) := AcquireLease m id now in
   stored (entries m) ≡ₚ cleanup_states r ++ stored (entries m')) /\
  stored (entries m) ≡ₚ stored (entries (ReleaseLease m id now)) /\
  (let '(m', out) := CollectExpired m now in stored (entries m) ≡ₚ out ++ stored (entries m')) /\
  (let '(m', out) := DrainAll m in stored (entries m) ≡ₚ out ++ stored (entries m')) /\
  (id <> "" -> stored (entries (CommitLease m id st now)) ≡ₚ st :: stored (delete id (entries m))).
Proof.
  split_and!.
  - unfold AcquireLease. case_bool_decide as Hid; [done|].
    destruct (entries m !! id) as [e|] eqn:He.
    + destruct (in_use e); [done|]. simpl. rewrite (stored_delete _ _ _ He), (stored_update _ _ _ _ He).
      unfold held_state. simpl. by destruct (has_state e), (expires_at e <=? now)%Z.
    + destruct (_ <=? _); [|simpl; by rewrite stored_insert].
      destruct (FindEvictionCandidateLocked m) as [[k e]|] eqn:Hf; [|done]. simpl.
      apply find_candidate_spec in Hf as [[[=]|[Hin _]] _]. apply iteration_lookup in Hin.
      rewrite stored_insert.
      * simpl. by rewrite <- stored_delete.
      * by rewrite lookup_delete_None, He; right.
  - unfold ReleaseLease. case_bool_decide; [done|]. destruct (entries m !! id) as [e|] eqn:He; [|done].
    rewrite (stored_delete _ _ _ He). destruct (has_state e) eqn:Hs; simpl.
    + rewrite (stored_update _ _ _ _ He). unfold held_state. by rewrite Hs.
    + unfold held_state. by rewrite Hs.
  - unfold CollectExpired. destruct (sweep_spec now (iteration (entries m)) (entries m) []) as [Hp _].
    + apply iteration_NoDup.
    + apply iteration_lookup.
    + destruct (foldl _ _ _) as [es out]. simpl in *. done.
  - simpl. unfold stored at 2. rewrite map_to_list_empty. simpl. rewrite app_nil_r.
    apply Permutation_flat_map. by rewrite iteration_perm.
  - intros Hid. unfold CommitLease. rewrite bool_decide_eq_false_2 by done. simpl.
    rewrite <- insert_delete_eq. by rewrite stored_insert by apply lookup_delete_eq.
Qed.

(** A leased session is exclusive and cannot be taken away: acquiring it
    again reports busy and changes nothing, and neither an eviction made by
    another session's acquisition nor a sweep removes or changes its entry. *)
Theorem leased_session_protected (m : SessionHandleManager) (id other : string) (e : Entry) (now : Z)
    (He : entries m !! id = Some e) (Hu : in_use e = true) :
  AcquireLease m id now = (m, busy) /\
  (other <> id -> entries (AcquireLease m other now).1 !! id = Some e) /\
  entries (CollectExpired m now).1 !! id = Some e.
Proof.
  split_and!.
  - unfold AcquireLease. rewrite He, Hu. by case_bool_decide.
  - intros Hne. unfold AcquireLease. case_bool_decide; [done|].
    destruct (entries m !! other) as [e'|] eqn:He'.
    + destruct (in_use e'); [done|]. simpl. by rewrite lookup_insert_ne.
    + destruct (_ <=? _); [|simpl; by rewrite lookup_insert_ne].
      destruct (FindEvictionCandidateLocked m) as [[k ek]|] eqn:Hf; [|done]. simpl.
      apply find_candidate_spec in Hf as [[[=]|[Hin Hk]] _]. apply iteration_lookup in Hin.
      rewrite lookup_insert_ne by done. rewrite lookup_delete_ne; [done|]. intros ->. congruence.
  - unfold CollectExpired.
    destruct (sweep_spec now (iteration (entries m)) (entries m) []) as [_ Hlk].
    + apply iteration_NoDup.
    + apply iteration_lookup.
    + destruct (foldl _ _ _) as [es out]. simpl in *. apply Hlk. split; [done|].
      intros _. unfold is_expired. by rewrite Hu.
Qed.

(** Acquiring keeps the session table within [max_sessions]: a table within
    the bound stays within it, since a full table first evicts the unused
    session with the smallest access time, or reports busy when all are leased. *)
Theorem AcquireLease_bounded (m : SessionHandleManager) (id : string) (now : Z)
    (Hb : SessionCount m <= max_sessions m) :
  SessionCount (AcquireLease m id now).1 <= max_sessions m /\
  (forall k e, entries m !! id = None -> max_sessions m <= SessionCount m ->
     FindEvictionCandidateLocked m = Some (k, e) ->
     entries m !! k = Some e /\ in_use e = false /\
     forall k' e', entries m !! k' = Some e' -> in_use e' = false -> (last_access e <= last_access e')%Z).
Proof.
  split.
  - unfold AcquireLease, SessionCount in *. case_bool_decide; [done|].
    destruct (entries m !! id) as [e|] eqn:He.
    + destruct (in_use e); [done|]. simpl. by rewrite map_size_insert, He.
    + destruct (Nat.leb_spec (max_sessions m) (size (entries m))).
      * destruct (FindEvictionCandidateLocked m) as [[k e]|] eqn:Hf; [|done]. simpl.
        apply find_candidate_spec in Hf as [[[=]|[Hin _]] _]. apply iteration_lookup in Hin.
        assert (Hd : delete k (entries m) !! id = None) by (apply lookup_delete_None; by right).
        rewrite map_size_insert, Hd, map_size_delete, Hin.
        assert (size (entries m) <> 0); [|lia]. rewrite map_size_non_empty_iff.
        intros E. by rewrite E in Hin.
      * simpl. rewrite map_size_insert, He. lia.
  - intros k e _ _ Hf. apply find_candidate_spec in Hf as ([[=]|[Hin Hu]] & Hmin & _).
    apply iteration_lookup in Hin. split_and!; try done. intros k' e' He'. apply (Hmin k').
    rewrite iteration_perm. by apply elem_of_map_to_list.
Qed.
End Manager.

(** ** Concrete runs *)

Definition one_leased : SessionHandleManager :=
  (AcquireLease map_to_list (newSessions 1 100) "a" 0).1.

Lemma session_states_conserved_witness :
  stored (entries (CommitLease one_leased "a" emptyState 5)) ≡ₚ [emptyState].
Proof.
  destruct (session_states_conserved map_to_list (fun _ => reflexivity _) one_leased "a" emptyState 5)
    as (_ & _ & _ & _ & H).
  exact (H ltac:(discriminate)).
Defined.

Lemma leased_session_protected_witness :
  AcquireLease map_to_list one_leased "a" 7 = (one_leased, busy).
Proof.
  apply (leased_session_protected map_to_list (fun _ => reflexivity _) one_leased "a" "b"
           (mkEntry emptyState false true 0 100) 7); reflexivity.
Defined.

Lemma AcquireLease_bounded_witness :
  SessionCount (AcquireLease map_to_list one_leased "b" 7).1 <= 1.
Proof.
  apply (AcquireLease_bounded map_to_list (fun _ => reflexivity _) one_leased "b" 7).
  vm_compute. constructor.
Defined.
