(* ===== verification/PrefixCache.v ===== *)
(** * runtime/prefix_cache/prefix_cache: the completion cache

    A hash table of completions keyed by the serialised prompt, with a linked
    list of keys in order of use.  An iterator [lru_it] always points at the
    list node that holds its own key, so [splice] to the front is modelled as
    moving the key.  The cache is shown to be a bounded LRU map on token
    vectors. *)

From stdpp Require Import base tactics numbers list strings gmap pretty.
From Stdlib Require Import Ascii.
From S2P Require Import Prelude.

Record PrefixCacheEntry := mkPrefixEntry {
  completion : string;
  completion_tokens : Z;
  entry_last_used : Z;
  hits : Z }.

Record PrefixCache := mkPrefix {
  capacity : nat;
  table : gmap string PrefixCacheEntry;
  lru : list string }.

Definition newPrefix (cap : nat) : PrefixCache := mkPrefix cap ∅ [].

(** [oss << token << ','] for every token. *)
Fixpoint Serialize (tokens : list Z) : string :=
  match tokens with
  | [] => ""
  | t :: tokens' => pretty t +:+ "," +:+ Serialize tokens'
  end.

(** [lru_.splice(lru_.begin(), lru_, it)] where [it] points at [key]. *)
Definition splice_front (key : string) (l : list string) : list string :=
  key :: filter (fun k => k <> key) l.

Definition Lookup (c : PrefixCache) (tokens : list Z) (now : Z) : PrefixCache * option (string * Z) :=
  if capacity c =? 0 then (c, None)
  else
    let key := Serialize tokens in
    match table c !! key with
    | None => (c, None)
    | Some e =>
        let e' := mkPrefixEntry (completion e) (completion_tokens e) now (u64 (hits e + 1)) in
        (mkPrefix (capacity c) (<[key := e']> (table c)) (splice_front key (lru c)),
         Some (completion e, completion_tokens e))
    end.

Definition Insert (c : PrefixCache) (tokens : list Z) (text : string) (n now : Z) : PrefixCache :=
  if capacity c =? 0 then c
  else
    let key := Serialize tokens in
    match table c !! key with
    | Some e =>
        mkPrefix (capacity c) (<[key := mkPrefixEntry text n now (hits e)]> (table c))
          (splice_front key (lru c))
    | None =>
        let '(tbl, l) :=
          if (capacity c <=? size (table c)) && negb (bool_decide (lru c = []))
          then (match last (lru c) with Some victim => delete victim (table c) | None => table c end,
                removelast (lru c))
          else (table c, lru c) in
        mkPrefix (capacity c) (<[key := mkPrefixEntry text n now 0]> tbl) (key :: l)
    end.

(** ** The key determines the tokens *)

Definition no_comma (s : string) : Prop := forall s1 s2, s <> s1 +:+ "," +:+ s2.

Lemma no_comma_cons c s : c <> ","%char -> no_comma s -> no_comma (String c s).
Proof. intros Hc Hs [|c' s1] s2; simpl; intros [=]; [done|]. by eapply Hs. Qed.

Lemma pretty_N_go_no_comma x s : no_comma s -> no_comma (pretty_N_go x s).
Proof.
  revert s. induction (N.lt_wf_0 x) as [x _ IH]; intros s Hs.
  assert (x = 0 \/ 0 < x)%N as [->|Hx] by lia; [by rewrite pretty_N_go_0|].
  rewrite pretty_N_go_step by done. apply IH; [by apply N.div_lt|].
  apply no_comma_cons; [|done]. unfold pretty_N_char. by repeat case_match.
Qed.

Lemma pretty_Z_no_comma (z : Z) : no_comma (pretty z).
Proof.
  assert (H0 : no_comma "") by (by intros [|? ?] ?).
  assert (HN : forall n : N, no_comma (pretty n)).
  { intros n. unfold pretty, pretty_N. case_decide; [by apply no_comma_cons|].
    by apply pretty_N_go_no_comma. }
  destruct z as [|p|p]; unfold pretty, pretty_Z; simpl.
  - by apply no_comma_cons.
  - apply HN.
  - apply no_comma_cons; [done|apply HN].
Qed.

(** Two comma-free strings followed by a comma are told apart. *)
Lemma comma_split s s' t t' :
  no_comma s -> no_comma s' -> s +:+ "," +:+ t = s' +:+ "," +:+ t' -> s = s' /\ t = t'.
Proof.
  revert s'. induction s as [|c s IH]; intros [|c' s'] Hs Hs' E; simpl in E.
  - by injection E.
  - injection E as <- _. exfalso. apply (Hs' "" s'). done.
  - injection E as -> _. exfalso. apply (Hs "" s). done.
  - injection E as <- E. destruct (IH s') as [-> ->]; try done.
    + intros s1 s2 ->. by apply (Hs (String c s1) s2).
    + intros s1 s2 ->. by apply (Hs' (String c s1) s2).
Qed.

#[export] Instance Serialize_inj : Inj (=) (=) Serialize.
Proof.
  intros l. induction l as [|t l IH]; intros [|t' l'] E; try done.
  - simpl in E. by destruct (pretty t').
  - simpl in E. by destruct (pretty t).
  - apply comma_split in E as [Ht%(inj pretty) Hl]; [|apply pretty_Z_no_comma..].
    by rewrite Ht, (IH _ Hl).
Qed.

(** ** Specification: a bounded map in order of recency *)

Abbreviation lru_map := (list (list Z * (string * Z))).

Definition spec_find (tokens : list Z) (l : lru_map) : option (string * Z) :=
  snd <$> (snd <$> list_find (fun kv => kv.1 = tokens) l).

Definition spec_remove (tokens : list Z) (l : lru_map) : lru_map :=
  filter (fun kv => kv.1 <> tokens) l.

Definition spec_lookup (cap : nat) (tokens : list Z) (l : lru_map) : lru_map * option (string * Z) :=
  match spec_find tokens l with
  | Some v => ((tokens, v) :: spec_remove tokens l, Some v)
  | None => (l, None)
  end.

Definition spec_insert (cap : nat) (tokens : list Z) (v : string * Z) (l : lru_map) : lru_map :=
  take cap ((tokens, v) :: spec_remove tokens l).

Inductive prefix_op :=
  | OpLookup (tokens : list Z) (now : Z)
  | OpInsert (tokens : list Z) (text : string) (n now : Z).

Definition impl_step (op : prefix_op) (c : PrefixCache) : PrefixCache * option (string * Z) :=
  match op with
  | OpLookup tokens now => Lookup c tokens now
  | OpInsert tokens text n now => (Insert c tokens text n now, None)
  end.

Definition spec_step (cap : nat) (op : prefix_op) (l : lru_map) : lru_map * option (string * Z) :=
  match op with
  | OpLookup tokens _ => spec_lookup cap tokens l
  | OpInsert tokens text n _ => (spec_insert cap tokens (text, n) l, None)
  end.

(** The results of a sequence of operations. *)
Fixpoint results {S} (step : prefix_op -> S -> S * option (string * Z)) (ops : list prefix_op) (s : S) :
    list (option (string * Z)) :=
  match ops with
  | [] => []
  | op :: ops' => let '(s', r) := step op s in r :: results step ops' s'
  end.

(** ** Simulation *)

Definition value (e : PrefixCacheEntry) : string * Z := (completion e, completion_tokens e).

Record represents (c : PrefixCache) (l : lru_map) : Prop := {
  rep_lru : lru c = Serialize <$> l.*1;
  rep_table k : value <$> (table c !! Serialize k) = spec_find k l;
  rep_dom s : is_Some (table c !! s) -> s ∈ lru c;
  rep_nodup : NoDup l.*1;
  rep_size : length l <= capacity c }.

Lemma spec_find_cons tokens kv l :
  spec_find tokens (kv :: l) = if decide (kv.1 = tokens) then Some kv.2 else spec_find tokens l.
Proof.
  unfold spec_find. simpl. case_decide; [done|].
  by destruct (list_find _ l) as [[i x]|].
Qed.

Lemma spec_find_remove tokens k l :
  spec_find k (spec_remove tokens l) = if decide (k = tokens) then None else spec_find k l.
Proof.
  unfold spec_remove. induction l as [|[k' v] l IH]; [by case_decide|].
  rewrite filter_cons. simpl. destruct (decide (k' <> tokens)) as [Hk|Hk].
  - rewrite !spec_find_cons, IH. simpl. repeat case_decide; congruence.
  - rewrite IH, spec_find_cons. simpl. apply dec_stable in Hk. repeat case_decide; congruence.
Qed.

Lemma spec_find_None tokens l : spec_find tokens l = None <-> tokens ∉ l.*1.
Proof.
  induction l as [|[k v] l IH]; [set_solver|]. rewrite spec_find_cons. simpl.
  case_decide; [set_solver|]. rewrite IH. set_solver.
Qed.

Lemma spec_remove_absent tokens l : tokens ∉ l.*1 -> spec_remove tokens l = l.
Proof.
  intros Hn. apply filter_all. intros kv Hin E. apply Hn. subst. apply list_elem_of_fmap. by exists kv.
Qed.

Lemma spec_remove_length tokens l :
  tokens ∈ l.*1 -> length (spec_remove tokens l) < length l.
Proof.
  unfold spec_remove. induction l as [|kv l IH]; [set_solver|]. rewrite filter_cons. intros Hin.
  case_decide as Hk; simpl.
  - apply -> Nat.succ_lt_mono. apply IH. set_solver.
  - pose proof (length_filter (fun kv => kv.1 <> tokens) l). lia.
Qed.

Lemma splice_keys tokens (l : lru_map) :
  filter (fun k => k <> Serialize tokens) (Serialize <$> l.*1) = Serialize <$> (spec_remove tokens l).*1.
Proof.
  unfold spec_remove. induction l as [|kv l IH]; [done|]. rewrite !fmap_cons, !filter_cons.
  destruct (decide (kv.1 <> tokens)) as [Hk|Hk].
  - rewrite decide_True by (intros E; by apply (inj Serialize) in E). by rewrite !fmap_cons, IH.
  - rewrite decide_False by (intros E; apply Hk; intros E2; apply E; by rewrite E2). done.
Qed.

(** Moving a present key to the front with a new value. *)
Lemma represents_touch c l tokens e' :
  represents c l -> is_Some (table c !! Serialize tokens) ->
  represents (mkPrefix (capacity c) (<[Serialize tokens := e']> (table c)) (splice_front (Serialize tokens) (lru c)))
    ((tokens, value e') :: spec_remove tokens l).
Proof.
  intros [Hlru Htab Hdom Hnd Hsz] Hin. assert (Hk : tokens ∈ l.*1).
  { destruct (decide (tokens ∈ l.*1)) as [|Hn]; [done|]. apply spec_find_None in Hn.
    rewrite <- Htab in Hn. destruct Hin as [e He]. by rewrite He in Hn. }
  constructor; simpl.
  - unfold splice_front. by rewrite Hlru, splice_keys.
  - intros k. rewrite spec_find_cons, spec_find_remove. simpl. destruct (decide (tokens = k)) as [->|Hne].
    + by rewrite lookup_insert_eq.
    + rewrite lookup_insert_ne by (intros E; by apply (inj Serialize) in E). rewrite Htab.
      by rewrite decide_False by congruence.
  - intros s Hs. unfold splice_front. destruct (decide (s = Serialize tokens)) as [->|Hne]; [left|].
    rewrite lookup_insert_ne in Hs by done. right. apply list_elem_of_filter. split; [done|]. by apply Hdom.
  - constructor; [|by apply NoDup_fmap_filter]. unfold spec_remove.
    intros (kv & E & [Hkv _]%list_elem_of_filter)%list_elem_of_fmap. by apply Hkv.
  - pose proof (spec_remove_length tokens l Hk). lia.
Qed.

Lemma represents_size c l : represents c l -> size (table c) = length l.
Proof.
  intros [Hlru Htab Hdom Hnd Hsz].
  assert (Hd : dom (table c) = list_to_set (Serialize <$> l.*1)).
  { apply set_eq. intros s. rewrite elem_of_list_to_set, <- Hlru. split.
    - intros Hs%elem_of_dom. by apply Hdom.
    - rewrite Hlru. intros (k & -> & Hk)%list_elem_of_fmap. apply elem_of_dom.
      destruct (table c !! Serialize k) as [e|] eqn:E; [by eexists|].
      specialize (Htab k). rewrite E in Htab. simpl in Htab. symmetry in Htab.
      by apply spec_find_None in Htab. }
  rewrite <- size_dom, Hd, size_list_to_set.
  - by rewrite !length_fmap.
  - by apply (NoDup_fmap_2 Serialize).
Qed.

(** Dropping the least recently used key. *)
Lemma represents_evict c l k v :
  represents c (l ++ [(k, v)]) ->
  last (lru c) = Some (Serialize k) /\
  represents (mkPrefix (capacity c) (delete (Serialize k) (table c)) (removelast (lru c))) l.
Proof.
  intros [Hlru Htab Hdom Hnd Hsz]. rewrite !fmap_app in Hlru. simpl in Hlru.
  rewrite length_app in Hsz. simpl in Hsz. rewrite fmap_app in Hnd.
  apply NoDup_app in Hnd as (Hnd & Hdis & _).
  assert (Hk : k ∉ l.*1) by (intros Hin; apply (Hdis k Hin); simpl; left).
  assert (Hrl : removelast (lru c) = Serialize <$> l.*1) by (rewrite Hlru; apply removelast_last).
  split; [rewrite Hlru; apply last_snoc|]. constructor; simpl; try done.
  - intros k'. destruct (decide (k' = k)) as [->|Hne].
    + rewrite lookup_delete_eq. symmetry. by apply spec_find_None.
    + rewrite lookup_delete_ne by (intros E; by apply (inj Serialize) in E). rewrite Htab. clear -Hne.
      induction l as [|kv l IH]; simpl.
      * by rewrite spec_find_cons, decide_False by done.
      * rewrite !spec_find_cons. by rewrite IH.
  - intros s Hs. destruct (decide (s = Serialize k)) as [->|Hne].
    + rewrite lookup_delete_eq in Hs. by destruct Hs.
    + rewrite lookup_delete_ne in Hs by done. apply Hdom in Hs. rewrite Hrl. rewrite Hlru in Hs.
      set_solver.
  - lia.
Qed.

(** Adding an absent key when there is room. *)
Lemma represents_add c l tokens e :
  represents c l -> tokens ∉ l.*1 -> length l < capacity c ->
  represents (mkPrefix (capacity c) (<[Serialize tokens := e]> (table c)) (Serialize tokens :: lru c))
    ((tokens, value e) :: l).
Proof.
  intros [Hlru Htab Hdom Hnd Hsz] Hn Hlt. constructor; simpl; try done; [by rewrite Hlru|..|by constructor].
  - intros k. rewrite spec_find_cons. simpl. destruct (decide (tokens = k)) as [->|Hne].
    + by rewrite lookup_insert_eq.
    + by rewrite lookup_insert_ne by (intros E; by apply (inj Serialize) in E).
  - intros s Hs. destruct (decide (s = Serialize tokens)) as [->|Hne]; [left|].
    rewrite lookup_insert_ne in Hs by done. right. by apply Hdom.
Qed.

Lemma Lookup_simulates c l tokens now :
  capacity c <> 0 -> represents c l ->
  let '(c', r) := Lookup c tokens now in
  let '(l', r') := spec_lookup (capacity c) tokens l in
  r = r' /\ represents c' l' /\ capacity c' = capacity c.
Proof.
  intros Hc Hr. unfold Lookup, spec_lookup. rewrite (proj2 (Nat.eqb_neq _ _)) by done.
  rewrite <- (rep_table _ _ Hr). destruct (table c !! Serialize tokens) as [e|] eqn:He; simpl; [|done].
  split_and!; [done| |done].
  apply (represents_touch c l tokens (mkPrefixEntry (completion e) (completion_tokens e) now (u64 (hits e + 1))));
    [done|by eexists].
Qed.

Lemma Insert_simulates c l tokens text n now :
  capacity c <> 0 -> represents c l ->
  represents (Insert c tokens text n now) (spec_insert (capacity c) tokens (text, n) l) /\
  capacity (Insert c tokens text n now) = capacity c.
Proof.
  intros Hc Hr. unfold Insert, spec_insert. rewrite (proj2 (Nat.eqb_neq _ _)) by done.
  pose proof (rep_size _ _ Hr) as Hsz. pose proof (represents_size _ _ Hr) as Hsize.
  destruct (table c !! Serialize tokens) as [e|] eqn:He.
  - pose proof (represents_touch c l tokens (mkPrefixEntry text n now (hits e)) Hr ltac:(by eexists)) as Ht.
    pose proof (rep_size _ _ Ht) as Hl. cbn [capacity] in Hl. split; [|done]. by rewrite take_ge.
  - assert (Hn : tokens ∉ l.*1).
    { apply spec_find_None. rewrite <- (rep_table _ _ Hr), He. done. }
    rewrite spec_remove_absent by done.
    destruct (Nat.leb_spec (capacity c) (size (table c))) as [Hfull|Hroom]; simpl.
    + destruct l as [|[k v] l' _] using rev_ind; [simpl in *; lia|].
      destruct (represents_evict _ _ _ _ Hr) as [Hlast Hr'].
      rewrite bool_decide_eq_false_2 by (intros E; by rewrite E in Hlast). rewrite Hlast. simpl.
      rewrite length_app in *. simpl in *. split; [|done].
      assert (Htk : take (capacity c) ((tokens, (text, n)) :: l' ++ [(k, v)]) = (tokens, (text, n)) :: l').
      { destruct (capacity c) as [|cap]; [done|]. simpl. f_equal. apply take_app_length'. lia. }
      rewrite Htk. apply (represents_add _ _ tokens (mkPrefixEntry text n now 0) Hr'); [set_solver|].
      simpl. lia.
    + split; [|done]. rewrite take_ge by (simpl; lia).
      apply (represents_add _ _ tokens (mkPrefixEntry text n now 0) Hr); [done|lia].
Qed.

(** ** Properties *)

(** The completion cache is a bounded LRU map.  Any sequence of lookups and
    insertions on a new cache of positive capacity returns exactly the results
    of the specification: a list of at most [capacity] (token vector, completion)
    pairs, most recently used first, where a lookup moves its entry to the front
    and an insertion puts its entry in front and drops what exceeds the
    capacity.  In particular two different token vectors never share an entry. *)
Theorem prefix_cache_is_lru_map (cap : nat) (ops : list prefix_op) (Hcap : cap <> 0) :
  results impl_step ops (newPrefix cap) = results (spec_step cap) ops [].
Proof.
  assert (Hgen : forall c l, represents c l -> capacity c = cap ->
    results impl_step ops c = results (spec_step cap) ops l).
  { induction ops as [|op ops IH]; intros c l Hr Hc; [done|]. simpl. destruct op as [tokens now|tokens text n now]; simpl.
    - pose proof (Lookup_simulates c l tokens now ltac:(congruence) Hr) as Hs. rewrite Hc in Hs.
      destruct (Lookup c tokens now) as [c' r], (spec_lookup cap tokens l) as [l' r'].
      destruct Hs as (-> & Hr' & Hc'). f_equal. by apply IH.
    - destruct (Insert_simulates c l tokens text n now ltac:(congruence) Hr) as [Hr' Hc'].
      rewrite Hc in Hr', Hc'. f_equal. by apply IH. }
  apply Hgen; [|done]. constructor; simpl; try done; [|constructor|lia].
  intros s [e He]. by rewrite lookup_empty in He.
Qed.

Lemma prefix_cache_is_lru_map_witness :
  results impl_step [OpInsert [1; 2]%Z "x" 1 0; OpInsert [12]%Z "y" 1 1; OpLookup [1; 2]%Z 2] (newPrefix 1) =
  results (spec_step 1) [OpInsert [1; 2]%Z "x" 1 0; OpInsert [12]%Z "y" 1 1; OpLookup [1; 2]%Z 2] [].
Proof. apply prefix_cache_is_lru_map. discriminate. Defined.
