(* ===== verification/Utf8.v ===== *)
(** * runtime/text/incremental_utf8: reassembling UTF-8 from byte pieces

    The assembler buffers incomplete trailing sequences and replaces malformed
    bytes by U+FFFD.  It is compared with UTF-8 itself, given as the encoding of
    Unicode scalar values. *)

From stdpp Require Import base tactics numbers list strings.
From Stdlib Require Import Ascii.
From S2P Require Import Prelude.

Local Open Scope Z_scope.

(** A byte from its value. *)
Definition byte_of (z : Z) : ascii := ascii_of_N (Z.to_N z).

Definition kReplacementCharacter : bytes := byte_of <$> [0xEF; 0xBF; 0xBD].

Definition IsContinuation (b : Z) : bool := (0x80 <=? b) && (b <=? 0xBF).

Definition SequenceLength (lead : Z) : nat :=
  if lead <=? 0x7F then 1%nat
  else if (0xC2 <=? lead) && (lead <=? 0xDF) then 2%nat
  else if (0xE0 <=? lead) && (lead <=? 0xEF) then 3%nat
  else if (0xF0 <=? lead) && (lead <=? 0xF4) then 4%nat
  else 0%nat.

Definition IsValidSecondByte (lead second : Z) : bool :=
  if negb (IsContinuation second) then false
  else if lead =? 0xE0 then 0xA0 <=? second
  else if lead =? 0xED then second <=? 0x9F
  else if lead =? 0xF0 then 0x90 <=? second
  else if lead =? 0xF4 then second <=? 0x8F
  else true.

Record Utf8AssemblyResult := mkUtf8 { text : bytes; replacements : nat }.

(** [valid_available_prefix]: the second byte and the following continuation
    bytes among the [n] first bytes of [p]. *)
Definition valid_available_prefix (p : bytes) (n : nat) : bool :=
  match take n p with
  | lead :: second :: more =>
      IsValidSecondByte (byte_val lead) (byte_val second) && forallb (fun c => IsContinuation (byte_val c)) more
  | _ => true
  end.

(** The loop of [Consume]; [p] is [pending_] from [offset] on. The result is the
    unconsumed rest, the text and the number of replacements. *)
Fixpoint consume_loop (fuel : nat) (finish : bool) (p : bytes) (r : Utf8AssemblyResult) :
    bytes * Utf8AssemblyResult :=
  match fuel, p with
  | S fuel', c :: p' =>
      let replace_invalid := mkUtf8 (text r ++ kReplacementCharacter) (S (replacements r)) in
      let len := SequenceLength (byte_val c) in
      if (len =? 1)%nat then consume_loop fuel' finish p' (mkUtf8 (text r ++ [c]) (replacements r))
      else if (len =? 0)%nat then consume_loop fuel' finish p' replace_invalid
      else
        let available := length p in
        let available_tail := Nat.min available len in
        if negb (valid_available_prefix p available_tail) then consume_loop fuel' finish p' replace_invalid
        else if (available <? len)%nat then
          if finish then ([], replace_invalid) else (p, r)
        else consume_loop fuel' finish (drop len p) (mkUtf8 (text r ++ take len p) (replacements r))
  | _, _ => (p, r)
  end.

Definition Consume (pending : bytes) (finish : bool) : bytes * Utf8AssemblyResult :=
  consume_loop (length pending) finish pending (mkUtf8 [] 0).

Definition Append (pending piece : bytes) : bytes * Utf8AssemblyResult := Consume (pending ++ piece) false.

Definition Finish (pending : bytes) : bytes * Utf8AssemblyResult := Consume pending true.

Definition HasPendingBytes (pending : bytes) : bool := negb (bool_decide (pending = [])).

(** Feeding pieces and closing the stream: everything that was emitted. *)
Fixpoint assemble (pending : bytes) (pieces : list bytes) (r : Utf8AssemblyResult) : Utf8AssemblyResult :=
  match pieces with
  | [] => let '(_, f) := Finish pending in mkUtf8 (text r ++ text f) (replacements r + replacements f)
  | piece :: pieces' =>
      let '(pending', a) := Append pending piece in
      assemble pending' pieces' (mkUtf8 (text r ++ text a) (replacements r + replacements a))
  end.

(** ** UTF-8 as an encoding of scalar values *)

Definition is_scalar (cp : Z) : Prop := 0 <= cp <= 0x10FFFF /\ ~ (0xD800 <= cp <= 0xDFFF).

Definition encode (cp : Z) : bytes :=
  byte_of <$>
  (if cp <=? 0x7F then [cp]
   else if cp <=? 0x7FF then [0xC0 + cp / 64; 0x80 + cp mod 64]
   else if cp <=? 0xFFFF then [0xE0 + cp / 4096; 0x80 + (cp / 64) mod 64; 0x80 + cp mod 64]
   else [0xF0 + cp / 262144; 0x80 + (cp / 4096) mod 64; 0x80 + (cp / 64) mod 64; 0x80 + cp mod 64]).

(** Well-formed UTF-8: the encoding of a list of scalar values. *)
Definition valid_utf8 (bs : bytes) : Prop :=
  exists cps, Forall is_scalar cps /\ bs = flat_map encode cps.

(** ** One step of the loop *)

Inductive step_result := SEmit (n : nat) | SReplace | SWait.

(** What the loop does at a non-empty [p]. *)
Definition step (p : bytes) : step_result :=
  match p with
  | [] => SWait
  | c :: _ =>
      let len := SequenceLength (byte_val c) in
      if (len =? 1)%nat then SEmit 1
      else if (len =? 0)%nat then SReplace
      else if negb (valid_available_prefix p (Nat.min (length p) len)) then SReplace
      else if (length p <? len)%nat then SWait else SEmit len
  end.

Lemma byte_val_of z : 0 <= z < 256 -> byte_val (byte_of z) = z.
Proof.
  intros Hz. unfold byte_val, byte_of. rewrite N_ascii_embedding by lia. lia.
Qed.

Lemma byte_of_val c : byte_of (byte_val c) = c.
Proof. unfold byte_val, byte_of. rewrite N2Z.id. apply ascii_N_embedding. Qed.

Lemma SequenceLength_le lead : (SequenceLength lead <= 4)%nat.
Proof. unfold SequenceLength. repeat case_match; lia. Qed.

(** The loop in terms of [step]. *)
Lemma consume_loop_step fuel finish c p r :
  consume_loop (S fuel) finish (c :: p) r =
  match step (c :: p) with
  | SEmit n => consume_loop fuel finish (drop n (c :: p)) (mkUtf8 (text r ++ take n (c :: p)) (replacements r))
  | SReplace => consume_loop fuel finish p (mkUtf8 (text r ++ kReplacementCharacter) (S (replacements r)))
  | SWait => if finish then ([], mkUtf8 (text r ++ kReplacementCharacter) (S (replacements r)))
             else (c :: p, r)
  end.
Proof.
  cbn [consume_loop step]. set (len := SequenceLength (byte_val c)).
  destruct (len =? 1)%nat eqn:E1; [done|]. destruct (len =? 0)%nat; [done|].
  destruct (negb _); [done|]. by destruct (length (c :: p) <? len)%nat.
Qed.

Lemma step_emit_pos p n : step p = SEmit n -> (0 < n <= length p)%nat.
Proof.
  destruct p as [|c p]; [done|]. cbn [step]. set (len := SequenceLength (byte_val c)).
  destruct (Nat.eqb_spec len 1); [intros [= <-]; simpl; lia|]. destruct (Nat.eqb_spec len 0); [done|].
  destruct (negb _); [done|]. destruct (Nat.ltb_spec (length (c :: p)) len); [done|].
  intros [= <-]. lia.
Qed.

(** Growing the input does not change a decision that was made. *)
Lemma valid_prefix_app p q n :
  valid_available_prefix p (Nat.min (length p) n) = false ->
  valid_available_prefix (p ++ q) (Nat.min (length (p ++ q)) n) = false.
Proof.
  unfold valid_available_prefix. rewrite length_app.
  assert (Ht : exists q', take (Nat.min (length p + length q) n) (p ++ q) =
            take (Nat.min (length p) n) p ++ q').
  { exists (take (Nat.min (length p + length q) n - length p) q). rewrite take_app. f_equal.
    destruct (Nat.le_ge_cases n (length p)).
    - f_equal. lia.
    - rewrite !take_ge by lia. done. }
  destruct Ht as [q' ->]. destruct (take (Nat.min (length p) n) p) as [|c1 [|c2 more]]; simpl; try done.
  rewrite forallb_app. intros [H|H]%andb_false_iff; rewrite H; simpl; [done|].
  by rewrite andb_false_r.
Qed.

Lemma valid_prefix_long p q n :
  (n <= length p)%nat ->
  valid_available_prefix (p ++ q) (Nat.min (length (p ++ q)) n) = valid_available_prefix p (Nat.min (length p) n).
Proof.
  intros Hn. unfold valid_available_prefix. rewrite length_app, !Nat.min_r by lia.
  by rewrite take_app_le by lia.
Qed.

Lemma step_app p q : step p <> SWait -> step (p ++ q) = step p.
Proof.
  destruct p as [|c p]; [done|]. rewrite <- app_comm_cons. cbn [step].
  set (len := SequenceLength (byte_val c)).
  destruct (len =? 1)%nat; [done|]. destruct (len =? 0)%nat; [done|].
  destruct (valid_available_prefix (c :: p) (Nat.min (length (c :: p)) len)) eqn:Hv; cbv [negb].
  - destruct (Nat.ltb_spec (length (c :: p)) len) as [|Hl]; [done|]. intros _.
    change (c :: p ++ q) with ((c :: p) ++ q). rewrite valid_prefix_long, Hv by done.
    destruct (Nat.ltb_spec (length ((c :: p) ++ q)) len) as [Hlt|]; [|done].
    rewrite length_app in Hlt. lia.
  - intros _. change (c :: p ++ q) with ((c :: p) ++ q). by rewrite (valid_prefix_app _ q _ Hv).
Qed.

(** ** The loop *)

Definition plus (r a : Utf8AssemblyResult) : Utf8AssemblyResult :=
  mkUtf8 (text r ++ text a) (replacements r + replacements a).

Lemma plus_assoc r a b : plus (plus r a) b = plus r (plus a b).
Proof. unfold plus. simpl. by rewrite app_assoc, Nat.add_assoc. Qed.

Lemma plus_nil r : plus (mkUtf8 [] 0) r = r.
Proof. by destruct r. Qed.

Lemma consume_loop_fuel f f' finish p r :
  (length p <= f)%nat -> (length p <= f')%nat ->
  consume_loop f finish p r = consume_loop f' finish p r.
Proof.
  revert f' p r. induction f as [|f IH]; intros f' p r Hf Hf'; destruct p as [|c p]; simpl in Hf, Hf';
    [by destruct f'|lia|by destruct f'|].
  destruct f' as [|f']; [lia|]. rewrite !consume_loop_step.
  destruct (step (c :: p)) as [n| |] eqn:Hs; [|apply IH; lia|done].
  apply step_emit_pos in Hs. apply IH; rewrite length_drop; simpl; lia.
Qed.

Lemma consume_loop_plus f finish p r :
  consume_loop f finish p r =
  let '(rest, a) := consume_loop f finish p (mkUtf8 [] 0) in (rest, plus r a).
Proof.
  revert p r. induction f as [|f IH]; intros p r; destruct p as [|c p];
    try (simpl; unfold plus; simpl; rewrite app_nil_r, Nat.add_0_r; by destruct r).
  rewrite !consume_loop_step. destruct (step (c :: p)) as [n| |] eqn:Hs.
  - cbn [text replacements].
    rewrite (IH _ (mkUtf8 (text r ++ _) _)), (IH _ (mkUtf8 ([] ++ take n (c :: p)) _)).
    destruct (consume_loop f finish _ _) as [rest a].
    f_equal. unfold plus. simpl. by rewrite <- app_assoc.
  - cbn [text replacements].
    rewrite (IH _ (mkUtf8 (text r ++ _) _)), (IH _ (mkUtf8 ([] ++ kReplacementCharacter) _)).
    destruct (consume_loop f finish _ _) as [rest a].
    f_equal. unfold plus. simpl. by rewrite <- app_assoc, Nat.add_succ_r.
  - destruct finish; f_equal; unfold plus; simpl; [by rewrite Nat.add_comm|].
    rewrite app_nil_r, Nat.add_0_r. by destruct r.
Qed.

(** Consuming [p] first and the rest of the stream later is consuming [p ++ q]. *)
Lemma consume_loop_app n finish p q r :
  (length p <= n)%nat ->
  let '(rest, r1) := consume_loop (length p) false p r in
  consume_loop (length (p ++ q)) finish (p ++ q) r = consume_loop (length (rest ++ q)) finish (rest ++ q) r1.
Proof.
  revert p r. induction n as [|n IH]; intros p r Hn; (destruct p as [|c p]; [done|]); simpl in Hn; [lia|].
  change (length (c :: p)) with (S (length p)). rewrite consume_loop_step.
  destruct (step (c :: p)) as [k| |] eqn:Hs; [..|done];
    change (length ((c :: p) ++ q)) with (S (length (p ++ q)));
    change ((c :: p) ++ q) with (c :: p ++ q); rewrite (consume_loop_step (length (p ++ q)));
    change (c :: p ++ q) with ((c :: p) ++ q); rewrite step_app, Hs by (by rewrite Hs).
  - pose proof (step_emit_pos _ _ Hs) as Hk. rewrite drop_app_le, take_app_le by lia.
    specialize (IH (drop k (c :: p)) (mkUtf8 (text r ++ take k (c :: p)) (replacements r))).
    rewrite length_drop in IH. simpl length in IH, Hk.
    rewrite (consume_loop_fuel (length p) (S (length p) - k)) by (rewrite length_drop; simpl; lia).
    destruct (consume_loop (S (length p) - k) false (drop k (c :: p)) _) as [rest r1].
    rewrite <- IH by lia. apply consume_loop_fuel; rewrite !length_app, ?length_drop; simpl; lia.
  - specialize (IH p (mkUtf8 (text r ++ kReplacementCharacter) (S (replacements r)))).
    destruct (consume_loop (length p) false p _) as [rest r1]. rewrite <- IH by lia. done.
Qed.

Lemma Append_then (finish : bool) p q :
  let '(rest, a) := Consume p false in
  let '(rest', b) := Consume (rest ++ q) finish in
  Consume (p ++ q) finish = (rest', plus a b).
Proof.
  unfold Consume. pose proof (consume_loop_app (length p) finish p q (mkUtf8 [] 0) ltac:(lia)) as H.
  destruct (consume_loop (length p) false p _) as [rest a]. rewrite H, (consume_loop_plus _ _ _ a).
  by destruct (consume_loop (length (rest ++ q)) finish (rest ++ q) (mkUtf8 [] 0)).
Qed.

Lemma assemble_spec pieces pending r :
  (exists p, pending = (Consume p false).1) \/ pending = [] ->
  assemble pending pieces r = plus r (Finish (pending ++ concat pieces)).2.
Proof.
  revert pending r. induction pieces as [|piece pieces IH]; intros pending r Hp; simpl.
  - rewrite app_nil_r. by destruct (Finish pending).
  - pose proof (Append_then true (pending ++ piece) (concat pieces)) as H. unfold Append, Finish.
    destruct (Consume (pending ++ piece) false) as [rest a] eqn:E.
    rewrite IH by (left; exists (pending ++ piece); by rewrite E).
    unfold Finish. rewrite app_assoc. destruct (Consume (rest ++ concat pieces) true) as [rest' b].
    rewrite H. simpl. apply plus_assoc.
Qed.

(** ** Sequences and scalar values *)

Ltac byte_bool :=
  repeat match goal with
  | H : (_ && _) = true |- _ => apply andb_true_iff in H as [? ?]
  | H : (_ <=? _) = true |- _ => apply Z.leb_le in H
  | H : (_ <=? _) = false |- _ => apply Z.leb_gt in H
  | H : (_ =? _) = true |- _ => apply Z.eqb_eq in H
  | H : (_ =? _) = false |- _ => apply Z.eqb_neq in H
  | H : IsContinuation _ = true |- _ => unfold IsContinuation in H
  end.

Lemma encode1 c : byte_val c <= 0x7F -> encode (byte_val c) = [c] /\ is_scalar (byte_val c).
Proof.
  intros H. pose proof (byte_val_range c). unfold encode, is_scalar.
  rewrite (proj2 (Z.leb_le _ _) H). simpl. rewrite byte_of_val. split; [done|]. lia.
Qed.

Lemma encode2 a b :
  0xC2 <= byte_val a <= 0xDF -> IsContinuation (byte_val b) = true ->
  let cp := (byte_val a - 0xC0) * 64 + (byte_val b - 0x80) in
  encode cp = [a; b] /\ is_scalar cp.
Proof.
  intros Ha Hb cp. byte_bool. unfold encode, is_scalar.
  assert (E1 : cp / 64 = byte_val a - 0xC0) by (symmetry; apply (Z.div_unique _ _ _ (byte_val b - 0x80)); lia).
  assert (E2 : cp mod 64 = byte_val b - 0x80) by (symmetry; apply (Z.mod_unique _ _ (byte_val a - 0xC0)); lia).
  rewrite (proj2 (Z.leb_gt _ _)), (proj2 (Z.leb_le cp 0x7FF)) by lia.
  rewrite E1, E2. simpl. split; [|lia].
  replace (0xC0 + (byte_val a - 0xC0)) with (byte_val a) by lia.
  replace (0x80 + (byte_val b - 0x80)) with (byte_val b) by lia. by rewrite !byte_of_val.
Qed.

Lemma encode3 a b c :
  0xE0 <= byte_val a <= 0xEF -> IsValidSecondByte (byte_val a) (byte_val b) = true ->
  IsContinuation (byte_val c) = true ->
  let cp := (byte_val a - 0xE0) * 4096 + (byte_val b - 0x80) * 64 + (byte_val c - 0x80) in
  encode cp = [a; b; c] /\ is_scalar cp.
Proof.
  intros Ha Hb Hc cp. unfold IsValidSecondByte in Hb.
  destruct (IsContinuation (byte_val b)) eqn:Hbc; [|done]. simpl negb in Hb. cbv iota in Hb. byte_bool.
  assert (Hr : 0x800 <= cp <= 0xFFFF /\ ~ (0xD800 <= cp <= 0xDFFF)).
  { destruct (byte_val a =? 0xE0) eqn:E1; byte_bool; [lia|].
    destruct (byte_val a =? 0xED) eqn:E2; byte_bool; lia. }
  unfold encode, is_scalar.
  assert (E1 : cp / 64 = (byte_val a - 0xE0) * 64 + (byte_val b - 0x80))
    by (symmetry; apply (Z.div_unique _ _ _ (byte_val c - 0x80)); lia).
  assert (E2 : cp mod 64 = byte_val c - 0x80)
    by (symmetry; apply (Z.mod_unique _ _ ((byte_val a - 0xE0) * 64 + (byte_val b - 0x80))); lia).
  assert (E3 : cp / 4096 = byte_val a - 0xE0)
    by (symmetry; apply (Z.div_unique _ _ _ ((byte_val b - 0x80) * 64 + (byte_val c - 0x80))); lia).
  assert (E4 : (cp / 64) mod 64 = byte_val b - 0x80)
    by (rewrite E1; symmetry; apply (Z.mod_unique _ _ (byte_val a - 0xE0)); lia).
  rewrite !(proj2 (Z.leb_gt _ _)), (proj2 (Z.leb_le cp 0xFFFF)) by lia.
  rewrite E2, E3, E4. simpl. split; [|lia].
  replace (0xE0 + (byte_val a - 0xE0)) with (byte_val a) by lia.
  replace (0x80 + (byte_val b - 0x80)) with (byte_val b) by lia.
  replace (0x80 + (byte_val c - 0x80)) with (byte_val c) by lia. by rewrite !byte_of_val.
Qed.

Lemma encode4 a b c d :
  0xF0 <= byte_val a <= 0xF4 -> IsValidSecondByte (byte_val a) (byte_val b) = true ->
  IsContinuation (byte_val c) = true -> IsContinuation (byte_val d) = true ->
  let cp := (byte_val a - 0xF0) * 262144 + (byte_val b - 0x80) * 4096 + (byte_val c - 0x80) * 64 + (byte_val d - 0x80) in
  encode cp = [a; b; c; d] /\ is_scalar cp.
Proof.
  intros Ha Hb Hc Hd cp. unfold IsValidSecondByte in Hb.
  destruct (IsContinuation (byte_val b)) eqn:Hbc; [|done]. simpl negb in Hb. cbv iota in Hb. byte_bool.
  rewrite (proj2 (Z.eqb_neq (byte_val a) 0xE0)), (proj2 (Z.eqb_neq (byte_val a) 0xED)) in Hb by lia.
  assert (Hr : 0x10000 <= cp <= 0x10FFFF).
  { destruct (byte_val a =? 0xF0) eqn:E1; byte_bool; [lia|].
    destruct (byte_val a =? 0xF4) eqn:E2; byte_bool; lia. }
  unfold encode, is_scalar.
  assert (E0 : cp / 64 = (byte_val a - 0xF0) * 4096 + (byte_val b - 0x80) * 64 + (byte_val c - 0x80))
    by (symmetry; apply (Z.div_unique _ _ _ (byte_val d - 0x80)); lia).
  assert (E1 : cp mod 64 = byte_val d - 0x80)
    by (symmetry; apply (Z.mod_unique _ _ ((byte_val a - 0xF0) * 4096 + (byte_val b - 0x80) * 64 + (byte_val c - 0x80))); lia).
  assert (E2 : (cp / 64) mod 64 = byte_val c - 0x80)
    by (rewrite E0; symmetry; apply (Z.mod_unique _ _ ((byte_val a - 0xF0) * 64 + (byte_val b - 0x80))); lia).
  assert (E3 : cp / 4096 = (byte_val a - 0xF0) * 64 + (byte_val b - 0x80))
    by (symmetry; apply (Z.div_unique _ _ _ ((byte_val c - 0x80) * 64 + (byte_val d - 0x80))); lia).
  assert (E4 : (cp / 4096) mod 64 = byte_val b - 0x80)
    by (rewrite E3; symmetry; apply (Z.mod_unique _ _ (byte_val a - 0xF0)); lia).
  assert (E5 : cp / 262144 = byte_val a - 0xF0)
    by (symmetry; apply (Z.div_unique _ _ _ ((byte_val b - 0x80) * 4096 + (byte_val c - 0x80) * 64 + (byte_val d - 0x80))); lia).
  rewrite !(proj2 (Z.leb_gt _ _)) by lia. rewrite E1, E2, E4, E5. simpl. split; [|lia].
  replace (0xF0 + (byte_val a - 0xF0)) with (byte_val a) by lia.
  replace (0x80 + (byte_val b - 0x80)) with (byte_val b) by lia.
  replace (0x80 + (byte_val c - 0x80)) with (byte_val c) by lia.
  replace (0x80 + (byte_val d - 0x80)) with (byte_val d) by lia. by rewrite !byte_of_val.
Qed.

Lemma SequenceLength_cases lead :
  match SequenceLength lead with
  | 1%nat => lead <= 0x7F
  | 2%nat => 0xC2 <= lead <= 0xDF
  | 3%nat => 0xE0 <= lead <= 0xEF
  | 4%nat => 0xF0 <= lead <= 0xF4
  | _ => True
  end.
Proof. unfold SequenceLength. repeat case_match; byte_bool; done || lia. Qed.

Lemma second_continuation a b : IsValidSecondByte a b = true -> IsContinuation b = true.
Proof. unfold IsValidSecondByte. by destruct (IsContinuation b). Qed.

(** What the loop emits unchanged is the encoding of one scalar value. *)
Lemma step_emit_encode p n : step p = SEmit n -> exists cp, is_scalar cp /\ take n p = encode cp.
Proof.
  intros Hs. pose proof (step_emit_pos _ _ Hs) as Hn. destruct p as [|a p]; [done|].
  cbn [step] in Hs. pose proof (SequenceLength_cases (byte_val a)) as Hc.
  destruct (SequenceLength (byte_val a)) as [|[|[|[|[|k]]]]] eqn:Hl; cbn [Nat.eqb] in Hs; try done.
  - injection Hs as <-. destruct (encode1 a Hc) as [E Hsc]. eexists. by rewrite E.
  - destruct (valid_available_prefix _ _) eqn:Hv; [|done]. cbv [negb] in Hs.
    destruct (Nat.ltb_spec (length (a :: p)) 2) as [|Hge]; [done|]. injection Hs as <-.
    destruct p as [|b p]; [simpl in Hge; lia|]. rewrite Nat.min_r in Hv by done.
    unfold valid_available_prefix in Hv. simpl in Hv.
    apply andb_true_iff in Hv as [Hv%second_continuation _].
    destruct (encode2 a b Hc Hv) as [E Hsc]. eexists. split; [exact Hsc|]. by rewrite E.
  - destruct (valid_available_prefix _ _) eqn:Hv; [|done]. cbv [negb] in Hs.
    destruct (Nat.ltb_spec (length (a :: p)) 3) as [|Hge]; [done|]. injection Hs as <-.
    destruct p as [|b [|c p]]; simpl in Hge; try lia. rewrite Nat.min_r in Hv by (simpl; lia).
    unfold valid_available_prefix in Hv. simpl in Hv.
    apply andb_true_iff in Hv as [Hv [Hc2 _]%andb_true_iff].
    destruct (encode3 a b c Hc Hv Hc2) as [E Hsc]. eexists. split; [exact Hsc|]. by rewrite E.
  - destruct (valid_available_prefix _ _) eqn:Hv; [|done]. cbv [negb] in Hs.
    destruct (Nat.ltb_spec (length (a :: p)) 4) as [|Hge]; [done|]. injection Hs as <-.
    destruct p as [|b [|c [|d p]]]; simpl in Hge; try lia. rewrite Nat.min_r in Hv by (simpl; lia).
    unfold valid_available_prefix in Hv. simpl in Hv.
    apply andb_true_iff in Hv as [Hv [Hc2 [Hd _]%andb_true_iff]%andb_true_iff].
    destruct (encode4 a b c d Hc Hv Hc2 Hd) as [E Hsc]. eexists. split; [exact Hsc|]. by rewrite E.
  - exfalso. pose proof (SequenceLength_le (byte_val a)). lia.
Qed.

Lemma IsContinuation_intro b : 0x80 <= b <= 0xBF -> IsContinuation b = true.
Proof. intros. apply andb_true_iff. split; apply Z.leb_le; lia. Qed.

(** The encoding of a scalar value is emitted unchanged, whatever follows. *)
Lemma step_encode cp q : is_scalar cp -> step (encode cp ++ q) = SEmit (length (encode cp)) /\ encode cp <> [].
Proof.
  intros [Hr Hns]. unfold encode.
  pose proof (Z.div_mod cp 64 ltac:(lia)) as D1. pose proof (Z.mod_pos_bound cp 64 ltac:(lia)) as B1.
  pose proof (Z.div_mod (cp / 64) 64 ltac:(lia)) as D2. pose proof (Z.mod_pos_bound (cp / 64) 64 ltac:(lia)) as B2.
  pose proof (Z.div_mod (cp / 4096) 64 ltac:(lia)) as D3. pose proof (Z.mod_pos_bound (cp / 4096) 64 ltac:(lia)) as B3.
  rewrite Z.div_div in D2 by lia. rewrite Z.div_div in D3 by lia. change (64 * 64) with 4096 in D2.
  change (4096 * 64) with 262144 in D3.
  set (x := cp mod 64) in *. set (y := (cp / 64) mod 64) in *. set (z := (cp / 4096) mod 64) in *.
  destruct (Z.leb_spec cp 0x7F); [|destruct (Z.leb_spec cp 0x7FF); [|destruct (Z.leb_spec cp 0xFFFF)]];
    cbn [fmap list_fmap app length]; (split; [|done]).
  - cbn [step]. rewrite byte_val_of by lia. unfold SequenceLength.
    by rewrite (proj2 (Z.leb_le cp 0x7F)).
  - assert (Hlen : SequenceLength (0xC0 + cp / 64) = 2%nat).
    { unfold SequenceLength. rewrite (proj2 (Z.leb_gt _ 0x7F)), !(proj2 (Z.leb_le _ _)) by lia. done. }
    cbn [step]. rewrite byte_val_of, Hlen by lia. cbn [Nat.eqb length]. rewrite Nat.min_r by lia.
    unfold valid_available_prefix. cbn [take]. rewrite !byte_val_of by lia. cbn [forallb].
    unfold IsValidSecondByte. rewrite IsContinuation_intro by lia. cbn [negb].
    rewrite !(proj2 (Z.eqb_neq _ _)) by lia. simpl andb. cbn [negb].
    by rewrite (proj2 (Nat.ltb_ge _ _)) by lia.
  - assert (Hlen : SequenceLength (0xE0 + cp / 4096) = 3%nat).
    { unfold SequenceLength. rewrite (proj2 (Z.leb_gt _ 0x7F)) by lia.
      rewrite (proj2 (Z.leb_le 0xC2 _)), (proj2 (Z.leb_gt _ 0xDF)), !(proj2 (Z.leb_le _ _)) by lia. done. }
    assert (Hv : IsValidSecondByte (0xE0 + cp / 4096) (0x80 + y) = true).
    { unfold IsValidSecondByte. rewrite IsContinuation_intro by lia. cbn [negb].
      destruct (Z.eqb_spec (0xE0 + cp / 4096) 0xE0); [apply Z.leb_le; lia|].
      destruct (Z.eqb_spec (0xE0 + cp / 4096) 0xED); [apply Z.leb_le; lia|].
      by rewrite !(proj2 (Z.eqb_neq _ _)) by lia. }
    cbn [step]. rewrite byte_val_of, Hlen by lia. cbn [Nat.eqb length]. rewrite Nat.min_r by lia.
    unfold valid_available_prefix. cbn [take]. rewrite !byte_val_of by lia. cbn [forallb].
    rewrite Hv, byte_val_of, IsContinuation_intro by lia. simpl andb. cbn [negb].
    by rewrite (proj2 (Nat.ltb_ge _ _)) by lia.
  - assert (Hlen : SequenceLength (0xF0 + cp / 262144) = 4%nat).
    { unfold SequenceLength. rewrite (proj2 (Z.leb_gt _ 0x7F)) by lia.
      rewrite (proj2 (Z.leb_le 0xC2 _)), (proj2 (Z.leb_gt _ 0xDF)) by lia.
      rewrite (proj2 (Z.leb_le 0xE0 _)), (proj2 (Z.leb_gt _ 0xEF)), !(proj2 (Z.leb_le _ _)) by lia. done. }
    assert (Hv : IsValidSecondByte (0xF0 + cp / 262144) (0x80 + z) = true).
    { unfold IsValidSecondByte. rewrite IsContinuation_intro by lia. cbn [negb].
      rewrite (proj2 (Z.eqb_neq _ 0xE0)), (proj2 (Z.eqb_neq _ 0xED)) by lia.
      destruct (Z.eqb_spec (0xF0 + cp / 262144) 0xF0); [apply Z.leb_le; lia|].
      destruct (Z.eqb_spec (0xF0 + cp / 262144) 0xF4); [apply Z.leb_le; lia|done]. }
    cbn [step]. rewrite byte_val_of, Hlen by lia. cbn [Nat.eqb length]. rewrite Nat.min_r by lia.
    unfold valid_available_prefix. cbn [take]. rewrite !byte_val_of by lia. cbn [forallb].
    rewrite Hv, !byte_val_of, !IsContinuation_intro by lia. simpl andb. cbn [negb].
    by rewrite (proj2 (Nat.ltb_ge _ _)) by lia.
Qed.

Lemma valid_utf8_app a b : valid_utf8 a -> valid_utf8 b -> valid_utf8 (a ++ b).
Proof.
  intros (x & Hx & ->) (y & Hy & ->). exists (x ++ y). split; [by apply Forall_app|].
  by rewrite flat_map_app.
Qed.

Lemma valid_utf8_encode cp : is_scalar cp -> valid_utf8 (encode cp).
Proof. intros H. exists [cp]. simpl. rewrite app_nil_r. split; [by constructor|done]. Qed.

Lemma valid_replacement : valid_utf8 kReplacementCharacter.
Proof. apply (valid_utf8_encode 0xFFFD). unfold is_scalar. lia. Qed.

Lemma consume_loop_valid f finish p r :
  valid_utf8 (text r) -> valid_utf8 (text (consume_loop f finish p r).2).
Proof.
  revert p r. induction f as [|f IH]; intros p r Hr; (destruct p as [|c p]; [done|]); [done|].
  rewrite consume_loop_step. destruct (step (c :: p)) as [n| |] eqn:Hs.
  - apply IH. destruct (step_emit_encode _ _ Hs) as (cp & Hcp & E). cbn [text]. rewrite E.
    by apply valid_utf8_app, valid_utf8_encode.
  - apply IH. apply valid_utf8_app, valid_replacement. done.
  - destruct finish; [|done]. apply valid_utf8_app, valid_replacement. done.
Qed.

Lemma consume_encoded cps f finish r :
  Forall is_scalar cps -> (length (flat_map encode cps) <= f)%nat ->
  consume_loop f finish (flat_map encode cps) r = ([], mkUtf8 (text r ++ flat_map encode cps) (replacements r)).
Proof.
  revert f r. induction cps as [|cp cps IH]; intros f r Hs Hf.
  { simpl. rewrite app_nil_r. destruct f, r; done. }
  inversion_clear Hs as [|?? Hcp Hs']. simpl in *. rewrite length_app in Hf.
  destruct (step_encode cp (flat_map encode cps) Hcp) as [Hst Hne].
  destruct (encode cp) as [|c e] eqn:E; [done|]. destruct f as [|f]; [simpl in Hf; lia|].
  rewrite <- app_comm_cons. rewrite consume_loop_step. rewrite app_comm_cons, Hst.
  rewrite drop_app_length, take_app_length, IH by (done || (simpl in Hf; lia)).
  cbn [text replacements]. by rewrite <- app_assoc.
Qed.

(** ** Properties *)

(** The boundaries between pieces do not matter.  However a byte stream is
    cut into pieces, appending the pieces and finishing emits the same text and
    counts the same number of replacements as appending the whole stream at
    once. *)
Theorem utf8_chunking_invariant (pieces : list bytes) :
  assemble [] pieces (mkUtf8 [] 0) = assemble [] [concat pieces] (mkUtf8 [] 0).
Proof. rewrite !assemble_spec by (by right). simpl. by rewrite app_nil_r. Qed.

(** The assembler always emits well-formed UTF-8, for arbitrary input bytes
    and piece boundaries: the text is the encoding of Unicode scalar values (no
    overlong forms, no surrogates, nothing above U+10FFFF). *)
Theorem utf8_output_well_formed (pieces : list bytes) :
  valid_utf8 (text (assemble [] pieces (mkUtf8 [] 0))).
Proof.
  rewrite assemble_spec by (by right). rewrite plus_nil. unfold Finish, Consume.
  apply consume_loop_valid. exists []. by split.
Qed.

(** Well-formed UTF-8 passes through unchanged and without replacements,
    however it is cut into pieces, also in the middle of characters. *)
Theorem utf8_well_formed_unchanged (pieces : list bytes) (Hv : valid_utf8 (concat pieces)) :
  assemble [] pieces (mkUtf8 [] 0) = mkUtf8 (concat pieces) 0.
Proof.
  destruct Hv as (cps & Hcps & E). rewrite assemble_spec by (by right). rewrite plus_nil.
  unfold Finish, Consume. rewrite app_nil_l, E. by rewrite consume_encoded.
Qed.

(** The euro sign cut after its second byte. *)
Lemma utf8_well_formed_unchanged_witness :
  assemble [] [byte_of <$> [0xE2; 0x82]; byte_of <$> [0xAC; 0x21]] (mkUtf8 [] 0) =
  mkUtf8 (concat [byte_of <$> [0xE2; 0x82]; byte_of <$> [0xAC; 0x21]]) 0.
Proof.
  apply (utf8_well_formed_unchanged [byte_of <$> [0xE2; 0x82]; byte_of <$> [0xAC; 0x21]]).
  exists [0x20AC; 0x21]. split; [|reflexivity]. repeat constructor; unfold is_scalar; lia.
Defined.
