(* ===== verification/MarkerScan.v ===== *)
(** * Streaming recognition of markers

    The two helpers of runtime/text/harmony_splitter.cpp that both response
    splitters are built on (find the earliest marker; hold back a suffix that
    may still become one), and a theory of machines that consume a text with
    them: cutting the text into pieces does not change what such a machine
    emits, provided no marker of a state occurs inside a proper prefix of
    another one. *)

From stdpp Require Import base tactics numbers list strings sets.
From Stdlib Require Import Ascii.
From S2P Require Import Prelude.

(** The fold over the candidates; [None] is [npos]. *)
Definition FindEarliestMarker (text : bytes) (candidates : list bytes) : option (nat * bytes) :=
  foldl (fun best cand =>
    match find_sub cand text with
    | None => best
    | Some pos => match best with
                  | Some (bpos, _) => if pos <? bpos then Some (pos, cand) else best
                  | None => Some (pos, cand)
                  end
    end) None candidates.

(** The loop from the largest candidate length down. *)
Fixpoint holdback_loop (k : nat) (text : bytes) (candidates : list bytes) : nat :=
  match k with
  | 0 => 0
  | S k' =>
      let tail := drop (length text - k) text in
      if existsb (fun cand => (k <? length cand) && bool_decide (take k cand = tail)) candidates
      then k else holdback_loop k' text candidates
  end.

Definition HoldbackSuffixLen (text : bytes) (candidates : list bytes) : nat :=
  let max_len := foldl (fun m cand => Nat.max m (length cand - 1)) 0 candidates in
  holdback_loop (Nat.min max_len (length text)) text candidates.

(** The emitted prefix and the bytes left in [pending]; [None] when nothing was
    emitted. *)
Definition EmitSafePrefix (pending : bytes) (candidates : list bytes) : option (bytes * bytes) :=
  let emit := length pending - HoldbackSuffixLen pending candidates in
  if emit =? 0 then None else Some (take emit pending, drop emit pending).

(** ** Occurrences *)

(** [c] occurs in [t] at [j]. *)
Definition occ (c : bytes) (j : nat) (t : bytes) : Prop := starts_with c (drop j t) = true.

Lemma occ_spec c j t : occ c j t <-> exists rest, drop j t = c ++ rest.
Proof. apply starts_with_spec. Qed.

Lemma occ_bound c j t : c <> [] -> occ c j t -> j + length c <= length t.
Proof.
  intros Hc H. apply starts_with_length in H. rewrite length_drop in H.
  destruct c; [done|]. simpl in *. lia.
Qed.

Lemma occ_app_l c j t u : occ c j t -> occ c j (t ++ u).
Proof.
  rewrite !occ_spec. intros [rest H]. destruct (Nat.le_ge_cases j (length t)).
  - exists (rest ++ u). by rewrite drop_app_le, H, app_assoc.
  - rewrite drop_ge in H by done. destruct c; [|done]. by exists (drop j (t ++ u)).
Qed.

Lemma occ_app_inv c j t u :
  occ c j (t ++ u) -> j + length c <= length t -> occ c j t.
Proof.
  rewrite !occ_spec. intros [rest H] Hl. exists (drop (length c) (drop j t)).
  rewrite drop_app_le in H by lia. rewrite <- (take_drop (length c) (drop j t)) at 1. f_equal.
  apply (f_equal (take (length c))) in H. rewrite take_app_length in H.
  rewrite take_app_le in H by (rewrite length_drop; lia). done.
Qed.

Lemma occ_shift c j e t : occ c (length e + j) (e ++ t) <-> occ c j t.
Proof. unfold occ. by rewrite drop_app_ge, Nat.add_sub' by lia. Qed.

(** An occurrence that starts in [t] and ends beyond it leaves a proper prefix
    of the marker at the end of [t]. *)
Lemma occ_straddle c j t u :
  occ c j (t ++ u) -> j <= length t -> length t < j + length c ->
  drop j t = take (length t - j) c.
Proof.
  rewrite occ_spec. intros [rest H] Hj Hl. rewrite drop_app_le in H by lia.
  apply (f_equal (take (length t - j))) in H.
  rewrite take_app_le in H by (rewrite length_drop; lia).
  rewrite take_app_le in H by lia. rewrite take_ge in H by (rewrite length_drop; lia). done.
Qed.

Lemma find_sub_None_occ c t : find_sub c t = None <-> forall j, ~ occ c j t.
Proof.
  split.
  - intros H j Hj. pose proof (find_sub_None _ _ H j) as E. unfold occ in Hj. congruence.
  - intros H. destruct (find_sub c t) as [i|] eqn:E; [|done].
    apply find_sub_Some in E as [E _]. by destruct (H i).
Qed.

(** ** Marker sets without interference *)

Definition non_interfering (cands : list bytes) : bool :=
  forallb (fun c => negb (bool_decide (c = [])) &&
    forallb (fun m => bool_decide (find_sub m (take (length c - 1) c) = None)) cands) cands.

Section Scan.
Variable cands : list bytes.
Hypothesis Hgood : non_interfering cands = true.

Lemma cands_nonempty c : c ∈ cands -> c <> [].
Proof.
  intros Hc. unfold non_interfering in Hgood. rewrite forallb_forall in Hgood.
  apply list_elem_of_In, Hgood, andb_true_iff in Hc as [Hc _].
  by apply negb_true_iff, bool_decide_eq_false in Hc.
Qed.

Lemma cands_free c m j k : c ∈ cands -> m ∈ cands -> k < length c -> ~ occ m j (take k c).
Proof.
  intros Hc Hm Hk Hocc. unfold non_interfering in Hgood. rewrite forallb_forall in Hgood.
  apply list_elem_of_In, Hgood, andb_true_iff in Hc as [_ Hc].
  rewrite forallb_forall in Hc. apply list_elem_of_In, Hc, bool_decide_eq_true in Hm.
  rewrite find_sub_None_occ in Hm. apply (Hm j).
  replace (take (length c - 1) c) with (take k c ++ drop k (take (length c - 1) c)).
  - by apply occ_app_l.
  - rewrite <- (take_drop k (take (length c - 1) c)) at 2. f_equal. rewrite take_take. f_equal. lia.
Qed.

(** [m] occurs at [p] and no marker occurs earlier. *)
Definition first_hit (t : bytes) (p : nat) (m : bytes) : Prop :=
  m ∈ cands /\ occ m p t /\ forall j c, j < p -> c ∈ cands -> ~ occ c j t.

Definition no_hit (t : bytes) : Prop := forall j c, c ∈ cands -> ~ occ c j t.

(** Nothing else occurs where a marker occurs. *)
Lemma occ_unique t p m c : m ∈ cands -> c ∈ cands -> occ m p t -> occ c p t -> c = m.
Proof.
  assert (Hlt : forall m c, m ∈ cands -> c ∈ cands -> occ m p t -> occ c p t -> length m < length c -> False).
  { intros m' c' Hm Hc Ho Ho' Hl. apply (cands_free c' m' 0 (length m') Hc Hm Hl).
    apply occ_spec in Ho as [r1 E1], Ho' as [r2 E2]. apply occ_spec. exists [].
    rewrite drop_0, app_nil_r. rewrite E1 in E2. apply (f_equal (take (length m'))) in E2.
    rewrite take_app_length, take_app_le in E2 by lia. done. }
  intros Hm Hc Ho Ho'. destruct (Nat.lt_trichotomy (length m) (length c)) as [Hl|[Hl|Hl]].
  - exfalso. by apply (Hlt m c).
  - apply occ_spec in Ho as [r1 E1], Ho' as [r2 E2]. rewrite E1 in E2.
    by apply app_inj_1 in E2 as [-> _].
  - exfalso. by apply (Hlt c m).
Qed.

Lemma first_hit_unique t p m p' m' : first_hit t p m -> first_hit t p' m' -> p = p' /\ m = m'.
Proof.
  intros (Hm & Ho & Hmin) (Hm' & Ho' & Hmin'). destruct (Nat.lt_trichotomy p p') as [Hl|[->|Hl]].
  - exfalso. by apply (Hmin' p m).
  - split; [done|]. by apply (occ_unique t p' m' m).
  - exfalso. by apply (Hmin p' m').
Qed.

Lemma FindEarliestMarker_spec t :
  match FindEarliestMarker t cands with
  | Some (p, m) => first_hit t p m
  | None => no_hit t
  end.
Proof.
  unfold FindEarliestMarker, first_hit, no_hit.
  set (inv := fun (done : list bytes) (best : option (nat * bytes)) =>
    match best with
    | Some (p, m) => m ∈ done /\ occ m p t /\ forall j c, j < p -> c ∈ done -> ~ occ c j t
    | None => forall j c, c ∈ done -> ~ occ c j t
    end).
  assert (Hgen : forall todo done best, inv done best -> inv (done ++ todo)
    (foldl (fun best cand => match find_sub cand t with
      | None => best
      | Some pos => match best with
                    | Some (bpos, _) => if pos <? bpos then Some (pos, cand) else best
                    | None => Some (pos, cand) end end) best todo)).
  { induction todo as [|cand todo IH]; intros done best Hinv; simpl.
    { by rewrite app_nil_r. }
    replace (done ++ cand :: todo) with ((done ++ [cand]) ++ todo) by (by rewrite <- app_assoc).
    apply IH. clear IH. destruct (find_sub cand t) as [pos|] eqn:E.
    - apply find_sub_Some in E as (Ho & _ & Hmin).
      destruct best as [[bp bm]|]; simpl in Hinv |- *.
      + destruct (Nat.ltb_spec pos bp); simpl.
        * split_and!; [set_solver|done|]. intros j c Hj [Hc| ->%list_elem_of_singleton]%elem_of_app.
          -- apply Hinv; [lia|done].
          -- unfold occ. rewrite Hmin by done. done.
        * split_and!; [set_solver|apply Hinv|]. intros j c Hj [Hc| ->%list_elem_of_singleton]%elem_of_app.
          -- by apply Hinv.
          -- unfold occ. rewrite Hmin by lia. done.
      + split_and!; [set_solver|done|]. intros j c Hj [Hc| ->%list_elem_of_singleton]%elem_of_app.
        * by apply Hinv.
        * unfold occ. rewrite Hmin by done. done.
    - rewrite find_sub_None_occ in E. destruct best as [[bp bm]|]; simpl in Hinv |- *.
      + split_and!; [set_solver|apply Hinv|]. intros j c Hj [Hc| ->%list_elem_of_singleton]%elem_of_app.
        * by apply Hinv.
        * apply E.
      + intros j c [Hc| ->%list_elem_of_singleton]%elem_of_app; [by apply Hinv|apply E]. }
  specialize (Hgen cands [] None). simpl in Hgen. apply Hgen. set_solver.
Qed.

Lemma FindEarliest_Some t p m : FindEarliestMarker t cands = Some (p, m) <-> first_hit t p m.
Proof.
  pose proof (FindEarliestMarker_spec t) as H. destruct (FindEarliestMarker t cands) as [[p' m']|].
  - split; [by intros [= <- <-]|]. intros Hf. by destruct (first_hit_unique _ _ _ _ _ H Hf) as [-> ->].
  - split; [done|]. intros (Hm & Ho & _). by destruct (H p m Hm).
Qed.

Lemma FindEarliest_None t : FindEarliestMarker t cands = None <-> no_hit t.
Proof.
  pose proof (FindEarliestMarker_spec t) as H. destruct (FindEarliestMarker t cands) as [[p' m']|].
  - split; [done|]. intros Hn. destruct H as (Hm & Ho & _). by destruct (Hn p' m' Hm).
  - done.
Qed.

(** *** Held-back suffixes *)

(** The last [k] bytes of [t] are a proper prefix of a marker. *)
Definition partial (t : bytes) (k : nat) : Prop :=
  1 <= k <= length t /\ exists c, c ∈ cands /\ k < length c /\ drop (length t - k) t = take k c.

Lemma holdback_loop_spec K t :
  K <= length t ->
  let h := holdback_loop K t cands in
  h <= K /\ (h = 0 \/ partial t h) /\ forall k, k <= K -> partial t k -> k <= h.
Proof.
  induction K as [|K IH]; intros HK; cbn [holdback_loop].
  { split_and!; [done|by left|]. intros k Hk. lia. }
  destruct (existsb _ cands) eqn:E.
  - apply existsb_exists in E as (c & Hc & [Hl He]%andb_true_iff).
    apply list_elem_of_In in Hc. apply Nat.ltb_lt in Hl. apply bool_decide_eq_true in He.
    split_and!; [done| |lia..]. right. split; [lia|]. exists c. done.
  - destruct (IH ltac:(lia)) as (H1 & H2 & H3). split_and!; [lia|done|].
    intros k Hk Hp. destruct (decide (k = S K)) as [->|Hne]; [|apply H3; [lia|done]].
    exfalso. destruct Hp as [_ (c & Hc & Hl & He)].
    assert (Htrue : existsb (fun cand => (S K <? length cand) &&
      bool_decide (take (S K) cand = drop (length t - S K) t)) cands = true); [|congruence].
    apply existsb_exists. exists c. split; [by apply list_elem_of_In|].
    apply andb_true_iff. split; [by apply Nat.ltb_lt|by apply bool_decide_eq_true].
Qed.

Lemma max_len_bound (c : bytes) (l : list bytes) m :
  c ∈ l \/ length c - 1 <= m -> length c - 1 <= foldl (fun m cand => Nat.max m (length cand - 1)) m l.
Proof.
  revert m. induction l as [|d l IH]; intros m [Hc|Hm]; simpl; [set_solver|done|..].
  - apply IH. apply elem_of_cons in Hc as [->|Hc]; [right; lia|by left].
  - apply IH. right. lia.
Qed.

Lemma Holdback_spec t :
  let h := HoldbackSuffixLen t cands in
  h <= length t /\ (h = 0 \/ partial t h) /\ forall k, partial t k -> k <= h.
Proof.
  unfold HoldbackSuffixLen. set (max_len := foldl _ _ _).
  destruct (holdback_loop_spec (Nat.min max_len (length t)) t) as (H1 & H2 & H3); [lia|].
  split_and!; [lia|done|]. intros k Hk. apply H3; [|done].
  destruct Hk as [Hk (c & Hc & Hl & _)].
  pose proof (max_len_bound c cands 0 (or_introl Hc)) as Hm. fold max_len in Hm. lia.
Qed.

Lemma Holdback_unique t h :
  h <= length t -> (h = 0 \/ partial t h) -> (forall k, partial t k -> k <= h) ->
  HoldbackSuffixLen t cands = h.
Proof.
  intros H1 H2 H3. destruct (Holdback_spec t) as (H1' & H2' & H3').
  assert (HoldbackSuffixLen t cands <= h) by (destruct H2' as [->|?]; [lia|by apply H3]).
  assert (h <= HoldbackSuffixLen t cands) by (destruct H2 as [->|?]; [lia|by apply H3']). lia.
Qed.

(** *** Extending the text *)

Lemma first_hit_app t u p m : first_hit t p m -> first_hit (t ++ u) p m.
Proof.
  intros (Hm & Ho & Hmin). split_and!; [done|by apply occ_app_l|]. intros j c Hj Hc Hocc.
  pose proof (occ_bound _ _ _ (cands_nonempty _ Hm) Ho) as Hb.
  destruct (decide (j + length c <= length t)) as [Hin|Hout].
  - apply (Hmin j c Hj Hc). by eapply occ_app_inv.
  - pose proof (occ_straddle _ _ _ _ Hocc ltac:(lia) ltac:(lia)) as Hs.
    apply (cands_free c m (p - j) (length t - j) Hc Hm ltac:(lia)). rewrite <- Hs. unfold occ in *.
    rewrite drop_drop. by replace (j + (p - j)) with p by lia.
Qed.

(** A later hit starts no earlier than the held-back suffix. *)
Lemma no_hit_straddle t u j c :
  no_hit t -> c ∈ cands -> occ c j (t ++ u) -> length t - HoldbackSuffixLen t cands <= j.
Proof.
  intros Hn Hc Hocc. destruct (decide (j < length t)) as [Hj|Hj]; [|lia].
  destruct (decide (j + length c <= length t)) as [Hin|Hout].
  { exfalso. apply (Hn j c Hc). by eapply occ_app_inv. }
  pose proof (occ_straddle _ _ _ _ Hocc ltac:(lia) ltac:(lia)) as Hs.
  destruct (Holdback_spec t) as (_ & _ & Hmax).
  assert (partial t (length t - j)).
  { split; [lia|]. exists c. split_and!; [done|lia|].
    by replace (length t - (length t - j)) with j by lia. }
  specialize (Hmax _ H). lia.
Qed.

Section Split.
Variables (t u : bytes).
Hypothesis Ht : no_hit t.
Let n := length t - HoldbackSuffixLen t cands.
Let e := take n t.
Let w := drop n t.

Lemma split_eq : t ++ u = e ++ w ++ u.
Proof. unfold e, w. by rewrite app_assoc, take_drop. Qed.

Lemma split_len : length e = n.
Proof. unfold e. rewrite length_take. unfold n. lia. Qed.

Lemma first_hit_split p m : first_hit (w ++ u) p m <-> first_hit (t ++ u) (n + p) m.
Proof.
  rewrite split_eq. rewrite <- split_len. split.
  - intros (Hm & Ho & Hmin). split_and!; [done|by apply occ_shift|]. intros j c Hj Hc Hocc.
    destruct (decide (j < length e)) as [Hl|Hl].
    + rewrite <- split_eq in Hocc. pose proof (no_hit_straddle _ _ _ _ Ht Hc Hocc) as Hx.
      rewrite split_len in Hl. unfold n in Hl. lia.
    + replace j with (length e + (j - length e)) in Hocc by lia. apply occ_shift in Hocc.
      by apply (Hmin (j - length e) c ltac:(lia)).
  - intros (Hm & Ho & Hmin). apply occ_shift in Ho. split_and!; [done|done|].
    intros j c Hj Hc Hocc. apply (Hmin (length e + j) c ltac:(lia) Hc). by apply occ_shift.
Qed.

Lemma first_hit_after p m : first_hit (t ++ u) p m -> n <= p.
Proof. intros (Hm & Ho & _). by apply (no_hit_straddle t u p m). Qed.

Lemma no_hit_split : no_hit (w ++ u) <-> no_hit (t ++ u).
Proof.
  rewrite split_eq. split; intros Hn j c Hc Hocc.
  - destruct (decide (j < length e)) as [Hl|Hl].
    + rewrite <- split_eq in Hocc. pose proof (no_hit_straddle _ _ _ _ Ht Hc Hocc) as Hx.
      rewrite split_len in Hl. unfold n in Hl. lia.
    + replace j with (length e + (j - length e)) in Hocc by lia. apply occ_shift in Hocc.
      by apply (Hn (j - length e) c Hc).
  - apply (Hn (length e + j) c Hc). by apply occ_shift.
Qed.

Lemma partial_split k : partial (t ++ u) k <-> partial (w ++ u) k.
Proof.
  assert (Hlen : length (t ++ u) = n + length (w ++ u)).
  { rewrite split_eq, length_app, split_len. done. }
  assert (Hdrop : forall k, k <= length (w ++ u) ->
    drop (length (t ++ u) - k) (t ++ u) = drop (length (w ++ u) - k) (w ++ u)).
  { intros k' Hk. rewrite Hlen, split_eq. rewrite drop_app_ge by (rewrite split_len; lia).
    rewrite split_len. f_equal. lia. }
  split.
  - intros [Hk (c & Hc & Hl & He)].
    assert (Hkw : k <= length (w ++ u)).
    { destruct (decide (k <= length u)) as [|Hku]; [rewrite length_app; lia|].
      assert (Hp : partial t (k - length u)).
      { rewrite length_app in Hk. split; [lia|]. exists c. split_and!; [done|lia|].
        rewrite length_app, drop_app_le in He by lia.
        apply (f_equal (take (k - length u))) in He. rewrite take_take in He.
        rewrite take_app_le in He by (rewrite length_drop; lia).
        rewrite take_ge in He by (rewrite length_drop; lia).
        replace (length t - (k - length u)) with (length t + length u - k) by lia.
        rewrite He. f_equal. lia. }
      destruct (Holdback_spec t) as (Hh & _ & Hmax). apply Hmax in Hp.
      rewrite length_app. unfold w. rewrite length_drop. unfold n. lia. }
    split; [lia|]. exists c. split_and!; [done|done|]. by rewrite <- Hdrop.
  - intros [Hk (c & Hc & Hl & He)]. split; [lia|]. exists c. split_and!; [done|done|].
    by rewrite Hdrop by lia.
Qed.

Lemma Holdback_split : HoldbackSuffixLen (t ++ u) cands = HoldbackSuffixLen (w ++ u) cands.
Proof.
  destruct (Holdback_spec (w ++ u)) as (H1 & H2 & H3). apply Holdback_unique.
  - rewrite split_eq, length_app. lia.
  - destruct H2 as [->|Hp]; [by left|right]. by apply partial_split.
  - intros k Hk. by apply H3, partial_split.
Qed.
End Split.
End Scan.

(** ** Machines over markers *)

Section Machine.
Context {St Out : Type}.
(** The markers a state looks for, the state after a marker, and where a state's
    text goes. *)
Variable cands : St -> list bytes.
Variable next : St -> bytes -> St.
Variable emit : St -> bytes -> Out -> Out.

Abbreviation config := (St * bytes * Out)%type.

(** One iteration of the feeding loop; [None] leaves the loop. *)
Definition scan_step (c : config) : option config :=
  let '(s, p, o) := c in
  match p with
  | [] => None
  | _ => match FindEarliestMarker p (cands s) with
         | Some (pos, m) => Some (next s m, drop (pos + length m) p, emit s (take pos p) o)
         | None => match EmitSafePrefix p (cands s) with
                   | Some (e, w) => Some (s, w, emit s e o)
                   | None => None
                   end
         end
  end.

Fixpoint scan_loop (fuel : nat) (c : config) : config :=
  match fuel with
  | 0 => c
  | S fuel' => match scan_step c with Some c' => scan_loop fuel' c' | None => c end
  end.

Definition feed (c : config) (piece : bytes) : config :=
  let '(s, p, o) := c in scan_loop (length (p ++ piece)) (s, p ++ piece, o).

Hypothesis Hgood : forall s, non_interfering (cands s) = true.
Hypothesis emit_app : forall s a b o, emit s (a ++ b) o = emit s b (emit s a o).
Hypothesis emit_nil : forall s o, emit s [] o = o.
Local Hint Resolve Hgood : core.

(** Markers one after the other, then the safe prefix of the rest. *)
Inductive runs : config -> config -> Prop :=
  | runs_hit s p o pos m c :
      first_hit (cands s) p pos m ->
      runs (next s m, drop (pos + length m) p, emit s (take pos p) o) c -> runs (s, p, o) c
  | runs_stop s p o :
      no_hit (cands s) p ->
      runs (s, p, o) (s, drop (length p - HoldbackSuffixLen p (cands s)) p,
                      emit s (take (length p - HoldbackSuffixLen p (cands s)) p) o).

Lemma no_hit_nil s : no_hit (cands s) [].
Proof.
  intros j c Hc Ho. apply occ_bound in Ho; [|by eapply cands_nonempty].
  destruct c; [by eapply cands_nonempty in Hc|]. simpl in Ho. lia.
Qed.

Lemma Holdback_nil l : HoldbackSuffixLen [] l = 0.
Proof. unfold HoldbackSuffixLen. by rewrite Nat.min_r by (simpl; lia). Qed.

(** What is held back stays held back. *)
Lemma held_stable s p :
  no_hit (cands s) p ->
  let w := drop (length p - HoldbackSuffixLen p (cands s)) p in
  no_hit (cands s) w /\ HoldbackSuffixLen w (cands s) = length w.
Proof.
  intros Hn w. pose proof (no_hit_split (cands s) (Hgood s) p [] Hn) as H1.
  pose proof (Holdback_split (cands s) (Hgood s) p []) as H2. rewrite !app_nil_r in H1, H2. fold w in H1, H2.
  split; [by apply H1|]. rewrite <- H2. unfold w. rewrite length_drop.
  destruct (Holdback_spec (cands s) (Hgood s) p) as (Hh & _). lia.
Qed.

Lemma held_step s w o :
  no_hit (cands s) w -> HoldbackSuffixLen w (cands s) = length w -> scan_step (s, w, o) = None.
Proof.
  intros Hn Hh. unfold scan_step. destruct w as [|c w]; [done|].
  rewrite (proj2 (FindEarliest_None _ (Hgood s) _) Hn). unfold EmitSafePrefix. by rewrite Hh, Nat.sub_diag.
Qed.

Lemma scan_loop_stop fuel c : scan_step c = None -> scan_loop fuel c = c.
Proof. intros H. destruct fuel; simpl; [done|]. by rewrite H. Qed.

(** The loop terminates within as many iterations as there are bytes. *)
Lemma scan_loop_runs fuel s p o : length p <= fuel -> runs (s, p, o) (scan_loop fuel (s, p, o)).
Proof.
  revert s p o. induction fuel as [|fuel IH]; intros s p o Hf.
  { destruct p; [|simpl in Hf; lia]. simpl. pose proof (runs_stop s [] o (no_hit_nil s)) as H.
    simpl in H. by rewrite emit_nil in H. }
  cbn [scan_loop]. pose proof (FindEarliestMarker_spec (cands s) (Hgood s) p) as Hspec.
  destruct p as [|x p].
  { simpl. pose proof (runs_stop s [] o (no_hit_nil s)) as H. simpl in H. by rewrite emit_nil in H. }
  cbn [scan_step]. destruct (FindEarliestMarker (x :: p) (cands s)) as [[pos m]|] eqn:Hf'.
  - eapply runs_hit; [exact Hspec|]. apply IH. rewrite length_drop.
    assert (m <> []) by (by eapply cands_nonempty, Hspec). destruct m; [done|]. simpl in *. lia.
  - unfold EmitSafePrefix. destruct (Nat.eqb_spec (length (x :: p) - HoldbackSuffixLen (x :: p) (cands s)) 0) as [E|E].
    + pose proof (runs_stop s _ o Hspec) as H. rewrite E in H. by rewrite take_0, drop_0, emit_nil in H.
    + destruct (held_stable s _ Hspec) as [H1 H2].
      rewrite scan_loop_stop by (by apply held_step). by apply runs_stop.
Qed.

Lemma runs_det c c1 c2 : runs c c1 -> runs c c2 -> c1 = c2.
Proof.
  intros H. revert c2. induction H as [s p o pos m c Hf _ IH|s p o Hn]; intros c2 H2; inversion H2; subst.
  - destruct (first_hit_unique _ (Hgood s) _ _ _ _ _ Hf H4) as [-> ->]. by apply IH.
  - destruct Hf as (Hm & Ho & _). by destruct (H4 pos m Hm).
  - destruct H4 as (Hm & Ho & _). by destruct (Hn pos m Hm).
  - done.
Qed.

(** Running on a first part and then on what is held back plus the rest is
    running on the whole. *)
Lemma runs_app s t o s1 w o1 u c :
  runs (s, t, o) (s1, w, o1) -> runs (s1, w ++ u, o1) c -> runs (s, t ++ u, o) c.
Proof.
  intros H. remember (s, t, o) as c0 eqn:E0. remember (s1, w, o1) as c1 eqn:E1.
  revert s t o E0 E1. induction H as [s p o pos m c' Hf _ IH|s p o Hn]; intros s' t o' [= -> -> ->] E1 H2.
  - apply (runs_hit _ _ _ pos m).
    + by apply first_hit_app.
    + pose proof Hf as (Hm & Ho & _).
      apply occ_bound in Ho; [|by eapply cands_nonempty]. rewrite drop_app_le, take_app_le by lia.
      by apply (IH _ _ _ eq_refl E1).
  - injection E1 as <- <- <-. set (n := length t - HoldbackSuffixLen t (cands s')) in *.
    assert (Hn' : n <= length t) by (unfold n; lia).
    assert (Htk : forall k, take (n + k) (t ++ u) = take n t ++ take k (drop n t ++ u)).
    { intros k. rewrite <- (take_drop n t) at 1. rewrite <- app_assoc.
      rewrite take_app_ge by (rewrite length_take; lia). rewrite length_take, Nat.min_l by lia.
      by replace (n + k - n) with k by lia. }
    assert (Hdr : forall k, drop (n + k) (t ++ u) = drop k (drop n t ++ u)).
    { intros k. rewrite <- (take_drop n t) at 1. rewrite <- app_assoc.
      rewrite drop_app_ge by (rewrite length_take; lia). rewrite length_take, Nat.min_l by lia.
      by replace (n + k - n) with k by lia. }
    inversion H2 as [s0 p0 o0 pos m c0 Hf Hr|s0 p0 o0 Hn2]; subst.
    + apply (runs_hit _ _ _ (n + pos) m); [by apply first_hit_split|].
      rewrite <- Nat.add_assoc, Hdr, Htk, emit_app. done.
    + pose proof (proj1 (no_hit_split (cands s') (Hgood s') t u Hn) Hn2) as Hno.
      pose proof (runs_stop s' (t ++ u) o' Hno) as Hr.
      rewrite (Holdback_split (cands s') (Hgood s') t u) in Hr. fold n in Hr.
      destruct (Holdback_spec (cands s') (Hgood s') (drop n t ++ u)) as (Hh & _).
      replace (length (t ++ u) - HoldbackSuffixLen (drop n t ++ u) (cands s'))
        with (n + (length (drop n t ++ u) - HoldbackSuffixLen (drop n t ++ u) (cands s'))) in Hr.
      * by rewrite Hdr, Htk, emit_app in Hr.
      * rewrite !length_app, length_drop in *. lia.
Qed.

Lemma feed_runs c piece :
  let '(s, p, o) := c in runs (s, p ++ piece, o) (feed c piece).
Proof. destruct c as [[s p] o]. unfold feed. by apply scan_loop_runs. Qed.

(** Feeding a text in pieces is running on the whole text. *)
Lemma feed_pieces_runs s o pieces : runs (s, concat pieces, o) (foldl feed (s, [], o) pieces).
Proof.
  assert (Hgen : forall t c, runs (s, t, o) c -> runs (s, t ++ concat pieces, o) (foldl feed c pieces)).
  { induction pieces as [|piece pieces IH]; intros t c Hr; simpl; [by rewrite app_nil_r|].
    rewrite app_assoc. apply IH. destruct c as [[s1 w] o1].
    eapply runs_app; [exact Hr|]. apply (feed_runs (s1, w, o1)). }
  apply (Hgen []). pose proof (runs_stop s [] o (no_hit_nil s)) as H. simpl in H.
  by rewrite emit_nil in H.
Qed.

(** *** Texts whose markers sit at the front in some states *)

Variable restricted : St -> bool.

Inductive aligned : St -> bytes -> Prop :=
  | aligned_none s t : no_hit (cands s) t -> aligned s t
  | aligned_hit s t p m :
      first_hit (cands s) t p m -> (restricted s = true -> p = 0) ->
      aligned (next s m) (drop (p + length m) t) -> aligned s t.

Lemma aligned_app s t o s1 w o1 u :
  runs (s, t, o) (s1, w, o1) -> aligned s (t ++ u) -> aligned s t /\ aligned s1 (w ++ u).
Proof.
  intros H. remember (s, t, o) as c0 eqn:E0. remember (s1, w, o1) as c1 eqn:E1.
  revert s t o E0 E1. induction H as [s p o pos m c' Hf _ IH|s p o Hn]; intros s' t o' [= -> -> ->] E1 Ha.
  - pose proof (first_hit_app _ (Hgood s') _ u _ _ Hf) as Hf2. pose proof Hf as (Hm & Ho & _).
    apply occ_bound in Ho; [|by eapply cands_nonempty].
    inversion Ha as [s0 t0 Hno|s0 t0 p0 m0 Hf0 Hz Ha']; subst.
    { by destruct (Hno pos m Hm (proj1 (proj2 Hf2))). }
    destruct (first_hit_unique _ (Hgood s') _ _ _ _ _ Hf2 Hf0) as [<- <-].
    rewrite drop_app_le in Ha' by lia. destruct (IH _ _ _ eq_refl eq_refl Ha') as [H1 H2].
    split; [|done]. by eapply aligned_hit.
  - injection E1 as <- <- <-. split; [by apply aligned_none|].
    inversion Ha as [s0 t0 Hno|s0 t0 p0 m0 Hf0 Hz Ha']; subst.
    + apply aligned_none. by apply no_hit_split.
    + pose proof (first_hit_after _ (Hgood s') _ _ Hn _ _ Hf0) as Hge.
      set (n := length t - HoldbackSuffixLen t (cands s')) in *.
      assert (Hp : p0 = n + (p0 - n)) by lia. rewrite Hp in Hf0. apply first_hit_split in Hf0; [|done..].
      eapply aligned_hit; [exact Hf0|intros Hr; specialize (Hz Hr); lia|].
      rewrite Hp in Ha'. rewrite <- (take_drop n t) in Ha' at 1. rewrite <- app_assoc in Ha'.
      rewrite <- Nat.add_assoc, drop_app_ge in Ha' by (rewrite length_take; lia).
      rewrite length_take, Nat.min_l in Ha' by (unfold n; lia).
      by replace (n + (p0 - n + length m0) - n) with (p0 - n + length m0) in Ha' by lia.
Qed.
End Machine.
