(* ===== verification/HarmonySplitter.v ===== *)
(** * runtime/text/harmony_splitter: gpt-oss channel markers

    Splits generated text into reasoning (analysis channel) and content (final
    channel, and anything outside channels), dropping commentary.  The splitter
    is an instance of the marker machines of [MarkerScan]. *)

From stdpp Require Import base tactics numbers list strings.
From Stdlib Require Import Ascii.
From S2P Require Import Prelude MarkerScan.

Definition kAnalysisOpen : bytes := bytes_of "<|channel|>analysis<|message|>".
Definition kFinalOpen : bytes := bytes_of "<|channel|>final<|message|>".
Definition kCommentaryOpen : bytes := bytes_of "<|channel|>commentary".
Definition kMessage : bytes := bytes_of "<|message|>".
Definition kEnd : bytes := bytes_of "<|end|>".
Definition kReturn : bytes := bytes_of "<|return|>".
Definition kStartAssistant : bytes := bytes_of "<|start|>assistant".

Inductive State := Normal | Analysis | Final | CommentaryScan | Commentary.

Record Parts := mkParts { parts_reasoning : bytes; parts_content : bytes }.

Record HarmonySplitter := mkHarmony {
  state : State;
  pending : bytes;
  reasoning : bytes;
  content : bytes;
  drained_reasoning_bytes : nat;
  drained_content_bytes : nat }.

Definition newHarmony : HarmonySplitter := mkHarmony Normal [] [] [] 0 0.

Definition in_reasoning (h : HarmonySplitter) : bool :=
  match state h with Analysis => true | _ => false end.

(** [h] with a new state, pending bytes and text appended to either sink. *)
Definition advance (h : HarmonySplitter) (s : State) (p r c : bytes) : HarmonySplitter :=
  mkHarmony s p (reasoning h ++ r) (content h ++ c) (drained_reasoning_bytes h) (drained_content_bytes h).

(** One iteration of the loop in [Feed]; [None] when the loop ends. *)
Definition feed_step (h : HarmonySplitter) : option HarmonySplitter :=
  match pending h with
  | [] => None
  | (_ :: _) as text =>
      match state h with
      | Normal =>
          let candidates := [kAnalysisOpen; kFinalOpen; kCommentaryOpen; kStartAssistant] in
          match FindEarliestMarker text candidates with
          | None => match EmitSafePrefix text candidates with
                    | Some (e, w) => Some (advance h Normal w [] e)
                    | None => None
                    end
          | Some (pos, marker) =>
              let s := if bool_decide (marker = kAnalysisOpen) then Analysis
                       else if bool_decide (marker = kFinalOpen) then Final
                       else if bool_decide (marker = kCommentaryOpen) then CommentaryScan
                       else Normal in
              Some (advance h s (drop (pos + length marker) text) [] (take pos text))
          end
      | Analysis | Final =>
          let to_sink s p e := match state h with
                               | Analysis => advance h s p e []
                               | _ => advance h s p [] e
                               end in
          let candidates := [kEnd; kReturn] in
          match FindEarliestMarker text candidates with
          | None => match EmitSafePrefix text candidates with
                    | Some (e, w) => Some (to_sink (state h) w e)
                    | None => None
                    end
          | Some (pos, marker) => Some (to_sink Normal (drop (pos + length marker) text) (take pos text))
          end
      | CommentaryScan =>
          let candidates := [kMessage; kAnalysisOpen; kFinalOpen] in
          match FindEarliestMarker text candidates with
          | None => match EmitSafePrefix text candidates with
                    | Some (_, w) => Some (advance h CommentaryScan w [] [])
                    | None => None
                    end
          | Some (pos, marker) =>
              let s := if bool_decide (marker = kMessage) then Commentary
                       else if bool_decide (marker = kAnalysisOpen) then Analysis
                       else Final in
              Some (advance h s (drop (pos + length marker) text) [] [])
          end
      | Commentary =>
          let candidates := [kEnd; kReturn] in
          match FindEarliestMarker text candidates with
          | None => match EmitSafePrefix text candidates with
                    | Some (_, w) => Some (advance h Commentary w [] [])
                    | None => None
                    end
          | Some (pos, marker) => Some (advance h Normal (drop (pos + length marker) text) [] [])
          end
      end
  end.

Fixpoint feed_loop (fuel : nat) (h : HarmonySplitter) : HarmonySplitter :=
  match fuel with
  | 0 => h
  | S fuel' => match feed_step h with Some h' => feed_loop fuel' h' | None => h end
  end.

(** Every iteration consumes a byte, so the number of pending bytes bounds the
    iterations ([feed_loop_exhausted]). *)
Definition Feed (h : HarmonySplitter) (piece : bytes) : HarmonySplitter :=
  feed_loop (length (pending h ++ piece)) (advance h (state h) (pending h ++ piece) [] []).

(** The accumulators are moved out; the splitter is not used afterwards. *)
Definition Finish (h : HarmonySplitter) : Parts :=
  match state h with
  | Analysis => mkParts (reasoning h ++ pending h) (content h)
  | Final | Normal => mkParts (reasoning h) (content h ++ pending h)
  | CommentaryScan | Commentary => mkParts (reasoning h) (content h)
  end.

(** [std::string::substr] throws when the position is past the end. *)
Definition Drain (h : HarmonySplitter) : HarmonySplitter * outcome Parts :=
  if (length (reasoning h) <? drained_reasoning_bytes h) || (length (content h) <? drained_content_bytes h)
  then (h, Throw (out_of_range "basic_string::substr"))
  else (mkHarmony (state h) (pending h) (reasoning h) (content h) (length (reasoning h)) (length (content h)),
        Ret (mkParts (drop (drained_reasoning_bytes h) (reasoning h))
                     (drop (drained_content_bytes h) (content h)))).

Definition Split (output : bytes) : Parts := Finish (Feed newHarmony output).

(** ** As a marker machine *)

Definition cands (s : State) : list bytes :=
  match s with
  | Normal => [kAnalysisOpen; kFinalOpen; kCommentaryOpen; kStartAssistant]
  | Analysis | Final | Commentary => [kEnd; kReturn]
  | CommentaryScan => [kMessage; kAnalysisOpen; kFinalOpen]
  end.

Definition next (s : State) (marker : bytes) : State :=
  match s with
  | Normal => if bool_decide (marker = kAnalysisOpen) then Analysis
              else if bool_decide (marker = kFinalOpen) then Final
              else if bool_decide (marker = kCommentaryOpen) then CommentaryScan else Normal
  | Analysis | Final | Commentary => Normal
  | CommentaryScan => if bool_decide (marker = kMessage) then Commentary
                      else if bool_decide (marker = kAnalysisOpen) then Analysis else Final
  end.

Definition emit (s : State) (b : bytes) (o : bytes * bytes) : bytes * bytes :=
  match s with
  | Analysis => (o.1 ++ b, o.2)
  | Normal | Final => (o.1, o.2 ++ b)
  | CommentaryScan | Commentary => o
  end.

Definition proj (h : HarmonySplitter) : State * bytes * (bytes * bytes) :=
  (state h, pending h, (reasoning h, content h)).

Lemma cands_good s : non_interfering (cands s) = true.
Proof. destruct s; vm_compute; reflexivity. Qed.

Lemma emit_app s a b o : emit s (a ++ b) o = emit s b (emit s a o).
Proof. destruct s; simpl; by rewrite ?app_assoc. Qed.

Lemma emit_nil s o : emit s [] o = o.
Proof. destruct s, o; simpl; by rewrite ?app_nil_r. Qed.

Lemma feed_step_scan h : proj <$> feed_step h = scan_step cands next emit (proj h).
Proof.
  unfold feed_step, scan_step, proj, advance. destruct h as [s p r c dr dc].
  cbn [state pending reasoning content]. destruct p as [|x p]; [done|].
  set (text := x :: p).
  destruct s; cbn [cands next emit state pending reasoning content];
    (destruct (FindEarliestMarker text _) as [[pos m]|];
     [|destruct (EmitSafePrefix text _) as [[e w]|]]);
    cbn [fmap option_fmap option_map state pending reasoning content fst snd]; by rewrite ?app_nil_r.
Qed.

Lemma feed_loop_scan fuel h : proj (feed_loop fuel h) = scan_loop cands next emit fuel (proj h).
Proof.
  revert h. induction fuel as [|fuel IH]; intros h; cbn [feed_loop scan_loop]; [done|].
  rewrite <- feed_step_scan. destruct (feed_step h) as [h'|]; simpl; [apply IH|done].
Qed.

Lemma Feed_scan h piece : proj (Feed h piece) = feed cands next emit (proj h) piece.
Proof.
  unfold Feed. rewrite feed_loop_scan. unfold proj, advance. simpl. by rewrite !app_nil_r.
Qed.

Lemma Feed_pieces h pieces : proj (foldl Feed h pieces) = foldl (feed cands next emit) (proj h) pieces.
Proof. revert h. induction pieces as [|p ps IH]; intros h; simpl; [done|]. by rewrite IH, Feed_scan. Qed.

(** What [Finish] returns is determined by the projection. *)
Definition finish_proj (c : State * bytes * (bytes * bytes)) : Parts :=
  let '(s, p, o) := c in
  let o' := emit s p o in mkParts o'.1 o'.2.

Lemma Finish_proj h : Finish h = finish_proj (proj h).
Proof. unfold Finish, finish_proj, proj. by destruct (state h). Qed.

Lemma harmony_runs pieces :
  runs cands next emit (Normal, concat pieces, ([], [])) (proj (foldl Feed newHarmony pieces)).
Proof.
  rewrite Feed_pieces. apply (feed_pieces_runs cands next emit cands_good emit_app emit_nil).
Qed.

(** After [Feed] the loop has nothing left to do: it ran to completion. *)
Lemma feed_loop_exhausted h piece : feed_step (Feed h piece) = None.
Proof.
  apply fmap_None with (f := proj). rewrite feed_step_scan, Feed_scan.
  pose proof (feed_runs cands next emit cands_good emit_nil (proj h) piece) as Hr.
  destruct (proj h) as [[s p] o]. revert Hr. generalize (feed cands next emit (s, p, o) piece).
  generalize (p ++ piece). clear p. intros p c Hr.
  remember (s, p, o) as c0 eqn:E0. revert s p o E0.
  induction Hr as [s p o pos m c Hf Hr IH|s p o Hn]; intros s' p' o' E0; [by eapply IH|].
  destruct (held_stable cands cands_good s p Hn) as [H1 H2].
  apply (held_step cands next emit cands_good s _ _ H1 H2).
Qed.

Lemma harmony_split_of pieces c :
  runs cands next emit (Normal, concat pieces, ([], [])) c ->
  Finish (foldl Feed newHarmony pieces) = finish_proj c.
Proof.
  intros Hr. rewrite Finish_proj. f_equal.
  apply (runs_det cands next emit cands_good _ _ _ (harmony_runs pieces) Hr).
Qed.

(** Text up to the first marker, and the marker. *)
Lemma runs_marker s x m rest o c :
  FindEarliestMarker (x ++ m) (cands s) = Some (length x, m) ->
  runs cands next emit (next s m, rest, emit s x o) c ->
  runs cands next emit (s, x ++ m ++ rest, o) c.
Proof.
  intros Hf Hr. apply FindEarliest_Some in Hf; [|apply cands_good].
  apply (runs_hit _ _ _ _ _ _ (length x) m).
  - rewrite app_assoc. apply first_hit_app; [apply cands_good|done].
  - rewrite take_app_length, <- drop_drop, !drop_app_length. done.
Qed.

(** ** Properties *)

(** Streaming gives the same split as the whole text.  However the generated
    text is cut into pieces, feeding the pieces and finishing returns exactly
    what [Split] returns for the concatenation; no marker is missed or split at
    a piece boundary. *)
Theorem harmony_chunking_invariant (pieces : list bytes) :
  Finish (foldl Feed newHarmony pieces) = Split (concat pieces).
Proof.
  unfold Split. rewrite (harmony_split_of pieces (proj (Feed newHarmony (concat pieces)))).
  - by rewrite Finish_proj.
  - pose proof (harmony_runs [concat pieces]) as H. simpl in H. by rewrite app_nil_r in H.
Qed.

(** A well-formed turn is split as documented.  An analysis message [r] that
    is closed by [<|end|>], the repeated assistant marker, a commentary message
    [k] that is dropped, and a final message [c] closed by [<|return|>] give
    reasoning [r] and content [c], in whatever pieces they arrive. *)
Theorem harmony_turn_split (r k c : bytes) (pieces : list bytes)
    (Hr : FindEarliestMarker (r ++ kEnd) [kEnd; kReturn] = Some (length r, kEnd))
    (Hk : FindEarliestMarker (k ++ kEnd) [kEnd; kReturn] = Some (length k, kEnd))
    (Hc : FindEarliestMarker (c ++ kReturn) [kEnd; kReturn] = Some (length c, kReturn))
    (Hp : concat pieces =
       kAnalysisOpen ++ r ++ kEnd ++ kStartAssistant ++ kCommentaryOpen ++ kMessage ++ k ++ kEnd ++
       kFinalOpen ++ c ++ kReturn) :
  Finish (foldl Feed newHarmony pieces) = mkParts r c.
Proof.
  rewrite (harmony_split_of pieces (Normal, [], (r, c))); [simpl; by rewrite app_nil_r|]. rewrite Hp.
  rewrite <- (app_nil_r kReturn) at 1.
  apply (runs_marker Normal [] kAnalysisOpen); [vm_compute; reflexivity|].
  apply (runs_marker Analysis r kEnd); [exact Hr|].
  apply (runs_marker Normal [] kStartAssistant); [vm_compute; reflexivity|].
  apply (runs_marker Normal [] kCommentaryOpen); [vm_compute; reflexivity|].
  apply (runs_marker CommentaryScan [] kMessage); [vm_compute; reflexivity|].
  apply (runs_marker Commentary k kEnd); [exact Hk|].
  apply (runs_marker Normal [] kFinalOpen); [vm_compute; reflexivity|].
  apply (runs_marker Final c kReturn); [exact Hc|].
  pose proof (runs_stop cands next emit Normal [] ([] ++ r, [] ++ c)
                (no_hit_nil cands cands_good Normal)) as Hs.
  simpl in Hs. rewrite app_nil_r in Hs. exact Hs.
Qed.

Definition demo_turn : bytes :=
  kAnalysisOpen ++ bytes_of "2+2" ++ kEnd ++ kStartAssistant ++ kCommentaryOpen ++ kMessage ++
  bytes_of "{}" ++ kEnd ++ kFinalOpen ++ bytes_of "4" ++ kReturn.

Lemma harmony_turn_split_witness :
  Finish (foldl Feed newHarmony ((fun c => [c]) <$> demo_turn)) = mkParts (bytes_of "2+2") (bytes_of "4").
Proof.
  apply (harmony_turn_split (bytes_of "2+2") (bytes_of "{}") (bytes_of "4")); vm_compute; reflexivity.
Defined.
