(* ===== verification/ReasoningSplitter.v ===== *)
(** * runtime/text/reasoning_splitter: <think> blocks

    Splits generated text into reasoning (inside <think> ... </think>) and
    content.  Inside a block the splitter searches for the closing tag anywhere
    in the pending bytes; outside a block it looks for a tag only at the front
    of them.  It therefore agrees with the marker machine that searches
    everywhere exactly on texts whose tags outside blocks sit at the front. *)

From stdpp Require Import base tactics numbers list strings sets.
From Stdlib Require Import Ascii.
From S2P Require Import Prelude MarkerScan.

Definition kOpenTag : bytes := bytes_of "<think>".
Definition kCloseTag : bytes := bytes_of "</think>".
Definition kMaxTagLen : nat := length kCloseTag.

Definition StartsWithTag (text tag : bytes) : bool :=
  (length tag <=? length text) && bool_decide (take (length tag) text = tag).

Definition MaybePartialTag (text tag : bytes) : bool :=
  (length text <? length tag) && bool_decide (take (length text) tag = text).

Inductive State := Normal | InThink.

Record Parts := mkParts { parts_reasoning : bytes; parts_content : bytes }.

Record ReasoningSplitter := mkReasoning {
  state : State;
  pending : bytes;
  reasoning : bytes;
  content : bytes;
  reasoning_bytes : nat;
  content_bytes : nat;
  drained_reasoning_bytes : nat;
  drained_content_bytes : nat }.

Definition newReasoning : ReasoningSplitter := mkReasoning Normal [] [] [] 0 0 0 0.

Definition in_reasoning (h : ReasoningSplitter) : bool :=
  match state h with InThink => true | Normal => false end.

Definition advance (h : ReasoningSplitter) (s : State) (p r c : bytes) : ReasoningSplitter :=
  mkReasoning s p (reasoning h ++ r) (content h ++ c) (reasoning_bytes h) (content_bytes h)
    (drained_reasoning_bytes h) (drained_content_bytes h).

(** The longest suffix, of at most [k] bytes, that is a prefix of the closing
    tag. *)
Fixpoint keep_loop (k : nat) (p : bytes) : nat :=
  match k with
  | 0 => 0
  | S k' => if (k <=? length p) && bool_decide (drop (length p - k) p = take k kCloseTag)
            then k else keep_loop k' p
  end.

(** The longest suffix, of at most [k] bytes, that could complete a tag. *)
Fixpoint hold_loop (k : nat) (p : bytes) : nat :=
  match k with
  | 0 => 0
  | S k' =>
      if (k <=? length p) &&
         (let tail := drop (length p - k) p in MaybePartialTag tail kOpenTag || MaybePartialTag tail kCloseTag)
      then k else hold_loop k' p
  end.

(** One iteration of the loop in [Feed]; [None] when the loop ends. *)
Definition feed_step (h : ReasoningSplitter) : option ReasoningSplitter :=
  match pending h with
  | [] => None
  | (_ :: _) as p =>
      match state h with
      | InThink =>
          match find_sub kCloseTag p with
          | Some close => Some (advance h Normal (drop (close + length kCloseTag) p) (take close p) [])
          | None =>
              let emit := length p - keep_loop (length kCloseTag - 1) p in
              if emit =? 0 then None else Some (advance h InThink (drop emit p) (take emit p) [])
          end
      | Normal =>
          if StartsWithTag p kOpenTag then Some (advance h InThink (drop (length kOpenTag) p) [] [])
          else if StartsWithTag p kCloseTag then Some (advance h Normal (drop (length kCloseTag) p) [] [])
          else
            let emit := length p - hold_loop kMaxTagLen p in
            if emit =? 0 then None else Some (advance h Normal (drop emit p) [] (take emit p))
      end
  end.

Fixpoint feed_loop (fuel : nat) (h : ReasoningSplitter) : ReasoningSplitter :=
  match fuel with
  | 0 => h
  | S fuel' => match feed_step h with Some h' => feed_loop fuel' h' | None => h end
  end.

(** Every iteration consumes a byte ([feed_step_consumes]). *)
Definition Feed (h : ReasoningSplitter) (piece : bytes) : ReasoningSplitter :=
  feed_loop (length (pending h ++ piece)) (advance h (state h) (pending h ++ piece) [] []).

(** The parts, and the byte counts [Finish] records. *)
Definition Finish (h : ReasoningSplitter) : ReasoningSplitter * Parts :=
  let parts := match state h with
               | InThink => mkParts (reasoning h ++ pending h) (content h)
               | Normal => mkParts (reasoning h) (content h ++ pending h)
               end in
  (mkReasoning (state h) [] [] [] (length (parts_reasoning parts)) (length (parts_content parts))
     (drained_reasoning_bytes h) (drained_content_bytes h), parts).

(** [std::string::substr] throws when the position is past the end. *)
Definition Drain (h : ReasoningSplitter) : ReasoningSplitter * outcome Parts :=
  if (length (reasoning h) <? drained_reasoning_bytes h) || (length (content h) <? drained_content_bytes h)
  then (h, Throw (out_of_range "basic_string::substr"))
  else (mkReasoning (state h) (pending h) (reasoning h) (content h) (reasoning_bytes h) (content_bytes h)
          (length (reasoning h)) (length (content h)),
        Ret (mkParts (drop (drained_reasoning_bytes h) (reasoning h))
                     (drop (drained_content_bytes h) (content h)))).

Definition Split (output : bytes) : Parts := (Finish (Feed newReasoning output)).2.

(** ** The marker machine it stands for *)

Definition cands (s : State) : list bytes :=
  match s with Normal => [kOpenTag; kCloseTag] | InThink => [kCloseTag] end.

Definition next (s : State) (marker : bytes) : State :=
  match s with
  | Normal => if bool_decide (marker = kOpenTag) then InThink else Normal
  | InThink => Normal
  end.

Definition emit (s : State) (b : bytes) (o : bytes * bytes) : bytes * bytes :=
  match s with InThink => (o.1 ++ b, o.2) | Normal => (o.1, o.2 ++ b) end.

Definition restricted (s : State) : bool := match s with Normal => true | InThink => false end.

Definition proj (h : ReasoningSplitter) : State * bytes * (bytes * bytes) :=
  (state h, pending h, (reasoning h, content h)).

Lemma think_cands_good s : non_interfering (cands s) = true.
Proof. destruct s; vm_compute; reflexivity. Qed.

Lemma think_emit_app s a b o : emit s (a ++ b) o = emit s b (emit s a o).
Proof. destruct s; simpl; by rewrite app_assoc. Qed.

Lemma think_emit_nil s o : emit s [] o = o.
Proof. destruct s, o; simpl; by rewrite app_nil_r. Qed.

Lemma StartsWithTag_occ p tag : StartsWithTag p tag = true <-> occ tag 0 p.
Proof.
  unfold StartsWithTag. rewrite andb_true_iff, Nat.leb_le, bool_decide_eq_true, occ_spec, drop_0. split.
  - intros [_ E]. exists (drop (length tag) p). by rewrite <- E at 1; rewrite take_drop.
  - intros [rest ->]. rewrite length_app, take_app_length. split; [lia|done].
Qed.

(** Both hold-back loops compute [HoldbackSuffixLen] of the state's markers. *)
Lemma keep_loop_holdback p : keep_loop (length kCloseTag - 1) p = HoldbackSuffixLen p [kCloseTag].
Proof.
  assert (Hgen : forall k, k < length kCloseTag ->
    keep_loop k p = holdback_loop (Nat.min k (length p)) p [kCloseTag]).
  { induction k as [|k IH]; intros Hk; [done|]. cbn [keep_loop].
    destruct (Nat.leb_spec (S k) (length p)) as [Hle|Hgt].
    - rewrite Nat.min_l by done. cbn [holdback_loop existsb].
      rewrite (proj2 (Nat.ltb_lt _ _)), orb_false_r by done. simpl andb.
      rewrite (bool_decide_ext _ (take (S k) kCloseTag = drop (length p - S k) p)) by done.
      rewrite IH, Nat.min_l by lia. done.
    - simpl andb. rewrite IH by lia. f_equal. lia. }
  rewrite Hgen by (vm_compute; lia). done.
Qed.

Lemma hold_loop_holdback p : hold_loop kMaxTagLen p = HoldbackSuffixLen p [kOpenTag; kCloseTag].
Proof.
  assert (Hpart : forall k tag, k <= length p ->
    MaybePartialTag (drop (length p - k) p) tag =
    (k <? length tag) && bool_decide (take k tag = drop (length p - k) p)).
  { intros k tag Hk. unfold MaybePartialTag. rewrite length_drop.
    by replace (length p - (length p - k)) with k by lia. }
  assert (Hgen : forall k, hold_loop k p = holdback_loop (Nat.min k (length p)) p [kOpenTag; kCloseTag]).
  { induction k as [|k IH]; [done|]. cbn [hold_loop].
    destruct (Nat.leb_spec (S k) (length p)) as [Hle|Hgt].
    - rewrite Nat.min_l by done. cbn [holdback_loop existsb]. rewrite !Hpart, orb_false_r by done.
      simpl andb at 1. rewrite IH, Nat.min_l by lia. done.
    - simpl andb. rewrite IH. f_equal. lia. }
  rewrite Hgen. unfold HoldbackSuffixLen. change (foldl _ 0 _) with 7. change kMaxTagLen with 8.
  destruct (Nat.leb_spec 8 (length p)) as [Hle|Hgt].
  - rewrite !Nat.min_l by lia. cbn [holdback_loop existsb]. by vm_compute (8 <? length _).
  - f_equal. lia.
Qed.

Lemma FindEarliest_single p m :
  FindEarliestMarker p [m] = (fun pos => (pos, m)) <$> find_sub m p.
Proof. unfold FindEarliestMarker. simpl. by destruct (find_sub m p). Qed.

(** On aligned texts an iteration is an iteration of the machine, and what is
    left is aligned again. *)
Lemma think_feed_step_scan h :
  aligned cands next restricted (state h) (pending h) ->
  proj <$> feed_step h = scan_step cands next emit (proj h) /\
  forall h', feed_step h = Some h' -> aligned cands next restricted (state h') (pending h').
Proof.
  destruct h as [s p r c rb cb dr dc]. unfold feed_step, scan_step, proj, advance.
  cbn [state pending reasoning content]. intros Ha. destruct p as [|x p]; [done|].
  set (text := x :: p) in *. destruct s.
  - inversion Ha as [s0 t0 Hn|s0 t0 pos m Hf Hz Ha']; subst s0 t0.
    + rewrite (proj2 (FindEarliest_None _ (think_cands_good Normal) text) Hn).
      assert (E : forall tag, tag ∈ cands Normal -> StartsWithTag text tag = false).
      { intros tag Ht. apply not_true_iff_false. rewrite StartsWithTag_occ. by apply Hn. }
      rewrite !E by (simpl; set_solver). rewrite hold_loop_holdback.
      change [kOpenTag; kCloseTag] with (cands Normal). unfold EmitSafePrefix.
      destruct (_ =? 0); simpl; rewrite ?app_nil_r; (split; [done|]); intros h' [= <-].
      simpl. apply aligned_none. apply (held_stable cands think_cands_good Normal text Hn).
    + specialize (Hz eq_refl). subst pos.
      rewrite (proj2 (FindEarliest_Some _ (think_cands_good Normal) text _ _) Hf).
      destruct Hf as (Hm & Ho & _). simpl in Hm.
      apply elem_of_cons in Hm as [->|Hm%list_elem_of_singleton]; [|subst m].
      * rewrite (proj2 (StartsWithTag_occ _ _) Ho). split.
        -- by rewrite take_0; simpl; rewrite !app_nil_r.
        -- intros h' [= <-]. exact Ha'.
      * assert (E : StartsWithTag text kOpenTag = false).
        { apply not_true_iff_false. rewrite StartsWithTag_occ. intros Ho'.
          pose proof (occ_unique _ (think_cands_good Normal) text 0 kCloseTag kOpenTag
                        ltac:(simpl; set_solver) ltac:(simpl; set_solver) Ho Ho') as E. done. }
        rewrite E, (proj2 (StartsWithTag_occ _ _) Ho). split.
        -- by rewrite take_0; simpl; rewrite !app_nil_r.
        -- intros h' [= <-]. exact Ha'.
  - change (cands InThink) with [kCloseTag]. rewrite FindEarliest_single, keep_loop_holdback.
    pose proof (FindEarliest_single text kCloseTag) as Hfs.
    destruct (find_sub kCloseTag text) as [close|] eqn:Hfind; cbn [fmap option_fmap option_map] in *.
    + split; [cbn [state pending reasoning content]; by rewrite app_nil_r|].
      intros h' [= <-]. apply (FindEarliest_Some _ (think_cands_good InThink)) in Hfs.
      inversion Ha as [s0 t0 Hn|s0 t0 pos m Hf Hz Ha']; subst s0 t0.
      { destruct Hfs as (Hm & Ho & _). by destruct (Hn close kCloseTag Hm). }
      by destruct (first_hit_unique _ (think_cands_good InThink) _ _ _ _ _ Hfs Hf) as [<- <-].
    + apply (FindEarliest_None _ (think_cands_good InThink)) in Hfs. unfold EmitSafePrefix.
      destruct (_ =? 0); simpl; rewrite ?app_nil_r; (split; [done|]); intros h' [= <-].
      simpl. apply aligned_none. apply (held_stable cands think_cands_good InThink text Hfs).
Qed.

Lemma think_feed_loop_scan fuel h :
  aligned cands next restricted (state h) (pending h) ->
  proj (feed_loop fuel h) = scan_loop cands next emit fuel (proj h).
Proof.
  revert h. induction fuel as [|fuel IH]; intros h Ha; cbn [feed_loop scan_loop]; [done|].
  destruct (think_feed_step_scan h Ha) as [<- Hnext]. destruct (feed_step h) as [h'|]; simpl; [|done].
  apply IH. by apply Hnext.
Qed.

Lemma think_Feed_scan h piece :
  aligned cands next restricted (state h) (pending h ++ piece) ->
  proj (Feed h piece) = feed cands next emit (proj h) piece.
Proof.
  intros Ha. unfold Feed. rewrite think_feed_loop_scan by done. unfold proj, advance. simpl.
  by rewrite !app_nil_r.
Qed.

Lemma think_Feed_pieces pieces t h :
  runs cands next emit (Normal, t, ([], [])) (proj h) ->
  aligned cands next restricted Normal (t ++ concat pieces) ->
  proj (foldl Feed h pieces) = foldl (feed cands next emit) (proj h) pieces.
Proof.
  revert t h. induction pieces as [|piece pieces IH]; intros t h Hr Ha; simpl; [done|].
  assert (Ha1 : aligned cands next restricted (state h) (pending h ++ piece ++ concat pieces)).
  { by apply (aligned_app _ _ _ think_cands_good _ _ _ _ _ _ _ _ Hr) in Ha as [_ Ha]. }
  assert (Hf : runs cands next emit (state h, pending h ++ piece, (reasoning h, content h))
                 (feed cands next emit (proj h) piece))
    by exact (feed_runs cands next emit think_cands_good think_emit_nil (proj h) piece).
  assert (Ha2 : aligned cands next restricted (state h) (pending h ++ piece)).
  { rewrite app_assoc in Ha1. destruct (feed cands next emit (proj h) piece) as [[s1 w] o1] eqn:E.
    exact (proj1 (aligned_app _ _ _ think_cands_good _ _ _ _ _ _ _ _ Hf Ha1)). }
  rewrite (IH (t ++ piece)).
  - by rewrite think_Feed_scan.
  - rewrite think_Feed_scan by done. eapply runs_app; [apply think_cands_good|apply think_emit_app|exact Hr|exact Hf].
  - by rewrite <- app_assoc.
Qed.

Lemma reasoning_runs pieces :
  aligned cands next restricted Normal (concat pieces) ->
  runs cands next emit (Normal, concat pieces, ([], [])) (proj (foldl Feed newReasoning pieces)).
Proof.
  intros Ha. rewrite (think_Feed_pieces pieces []); [|..|done].
  - apply (feed_pieces_runs cands next emit think_cands_good think_emit_app think_emit_nil).
  - pose proof (runs_stop cands next emit Normal [] ([], []) (no_hit_nil cands think_cands_good Normal)) as H.
    exact H.
Qed.

Definition finish_proj (c : State * bytes * (bytes * bytes)) : Parts :=
  let '(s, p, o) := c in
  let o' := emit s p o in mkParts o'.1 o'.2.

Lemma think_Finish_proj h : (Finish h).2 = finish_proj (proj h).
Proof. unfold Finish, finish_proj, proj. by destruct (state h). Qed.

Lemma reasoning_split_of pieces c :
  aligned cands next restricted Normal (concat pieces) ->
  runs cands next emit (Normal, concat pieces, ([], [])) c ->
  (Finish (foldl Feed newReasoning pieces)).2 = finish_proj c.
Proof.
  intros Ha Hr. rewrite think_Finish_proj. f_equal.
  apply (runs_det cands next emit think_cands_good _ _ _ (reasoning_runs pieces Ha) Hr).
Qed.

Lemma first_marker s x m rest :
  FindEarliestMarker (x ++ m) (cands s) = Some (length x, m) ->
  first_hit (cands s) (x ++ m ++ rest) (length x) m.
Proof.
  intros Hf. apply FindEarliest_Some in Hf; [|apply think_cands_good].
  rewrite app_assoc. apply first_hit_app; [apply think_cands_good|done].
Qed.

Lemma think_runs_marker s x m rest o c :
  FindEarliestMarker (x ++ m) (cands s) = Some (length x, m) ->
  runs cands next emit (next s m, rest, emit s x o) c ->
  runs cands next emit (s, x ++ m ++ rest, o) c.
Proof.
  intros Hf Hr. apply (runs_hit _ _ _ _ _ _ (length x) m); [by apply first_marker|].
  rewrite take_app_length, <- drop_drop, !drop_app_length. done.
Qed.

Lemma aligned_marker s x m rest :
  FindEarliestMarker (x ++ m) (cands s) = Some (length x, m) -> (restricted s = true -> x = []) ->
  aligned cands next restricted (next s m) rest -> aligned cands next restricted s (x ++ m ++ rest).
Proof.
  intros Hf Hz Ha. apply (aligned_hit _ _ _ _ _ (length x) m).
  - by apply first_marker.
  - intros Hr. by rewrite Hz.
  - rewrite <- drop_drop, !drop_app_length. done.
Qed.

(** An iteration consumes at least one pending byte, so the bound on the
    iterations of [Feed] is never reached early. *)
Lemma feed_step_consumes h h' : feed_step h = Some h' -> length (pending h') < length (pending h).
Proof.
  assert (Hd : forall (p q : bytes) n, q = drop n p -> p <> [] -> n <> 0 -> length q < length p).
  { intros p q n -> Hp Hn. rewrite length_drop. destruct p; [done|]. simpl. lia. }
  unfold feed_step. destruct (pending h) as [|x p]; [done|]. set (t := x :: p).
  assert (Ht : t <> []) by done. clearbody t. intros Hs.
  destruct (state h).
  - destruct (StartsWithTag t kOpenTag); [injection Hs as <-; by eapply Hd|].
    destruct (StartsWithTag t kCloseTag); [injection Hs as <-; by eapply Hd|].
    destruct (Nat.eqb_spec (length t - hold_loop kMaxTagLen t) 0); [done|].
    injection Hs as <-. by eapply Hd.
  - destruct (find_sub kCloseTag t) as [close|].
    + injection Hs as <-. eapply Hd; [done..|]. change (length kCloseTag) with 8. lia.
    + destruct (Nat.eqb_spec (length t - keep_loop (length kCloseTag - 1) t) 0); [done|].
      injection Hs as <-. by eapply Hd.
Qed.

(** ** Properties *)

(** A leading think block is split exactly, however the text is cut into
    pieces: for the text <think> [r] </think> [c], where the first closing tag is
    the one after [r] and [c] contains no tag, the reasoning is [r] and the
    content is [c]. *)
Theorem think_block_split (r c : bytes) (pieces : list bytes)
    (Hr : FindEarliestMarker (r ++ kCloseTag) [kCloseTag] = Some (length r, kCloseTag))
    (Hc : FindEarliestMarker c [kOpenTag; kCloseTag] = None)
    (Hp : concat pieces = kOpenTag ++ r ++ kCloseTag ++ c) :
  (Finish (foldl Feed newReasoning pieces)).2 = mkParts r c.
Proof.
  assert (Hno : no_hit (cands Normal) c) by (by apply FindEarliest_None; [apply think_cands_good|]).
  set (n := length c - HoldbackSuffixLen c (cands Normal)).
  rewrite (reasoning_split_of pieces (Normal, drop n c, (r, take n c))).
  - simpl. by rewrite take_drop.
  - rewrite Hp. apply (aligned_marker Normal [] kOpenTag); [vm_compute; reflexivity|done|].
    apply (aligned_marker InThink r kCloseTag); [exact Hr|done|]. by apply aligned_none.
  - rewrite Hp. apply (think_runs_marker Normal [] kOpenTag); [vm_compute; reflexivity|].
    apply (think_runs_marker InThink r kCloseTag); [exact Hr|].
    exact (runs_stop cands next emit Normal c ([] ++ r, [] ++ []) Hno).
Qed.

Lemma think_block_split_witness :
  (Finish (foldl Feed newReasoning
     [bytes_of "<thi"; bytes_of "nk>a<b</th"; bytes_of "ink> ok"])).2 = mkParts (bytes_of "a<b") (bytes_of " ok").
Proof.
  apply (think_block_split (bytes_of "a<b") (bytes_of " ok")); vm_compute; reflexivity.
Defined.

(** Streaming gives the same split as the whole text, for every text whose
    tags outside think blocks directly follow the start, the previous closing
    tag, or each other. *)
Theorem reasoning_chunking_aligned (pieces : list bytes)
    (Ha : aligned cands next restricted Normal (concat pieces)) :
  (Finish (foldl Feed newReasoning pieces)).2 = Split (concat pieces).
Proof.
  unfold Split. rewrite (reasoning_split_of pieces (proj (Feed newReasoning (concat pieces)))); [|done|].
  - by rewrite think_Finish_proj.
  - pose proof (reasoning_runs [concat pieces]) as H. simpl in H. rewrite app_nil_r in H. by apply H.
Qed.

Lemma reasoning_chunking_aligned_witness :
  (Finish (foldl Feed newReasoning [bytes_of "<think>a</thi"; bytes_of "nk>b"])).2 =
  Split (bytes_of "<think>a</think>b").
Proof.
  apply (reasoning_chunking_aligned [bytes_of "<think>a</thi"; bytes_of "nk>b"]).
  apply (aligned_marker Normal [] kOpenTag (bytes_of "a</think>b")); [vm_compute; reflexivity|reflexivity|].
  apply (aligned_marker InThink (bytes_of "a") kCloseTag (bytes_of "b")); [vm_compute; reflexivity|discriminate|].
  apply aligned_none. apply FindEarliest_None; [apply think_cands_good|]. vm_compute. reflexivity.
Defined.

(** Text before a think block makes the split depend on the pieces.  Outside
    a block a tag is recognised only at the front of the pending bytes: fed in
    one piece, a<think>b</think>c is all content, tags included; fed byte by
    byte, it has reasoning b and content ac. *)
Theorem leading_text_hides_think_tag :
  Split (bytes_of "a<think>b</think>c") = mkParts [] (bytes_of "a<think>b</think>c") /\
  (Finish (foldl Feed newReasoning ((fun c => [c]) <$> bytes_of "a<think>b</think>c"))).2 =
    mkParts (bytes_of "b") (bytes_of "ac").
Proof. split; vm_compute; reflexivity. Qed.
