(* ===== verification/ChatTemplate.v ===== *)
(** * model/chat_template_renderer: prompts from chat messages

    Family detection and the five rendering strategies.  Strings are byte lists;
    the date that [RenderHarmony] reads from the server clock is an argument
    ([date], already formatted, empty when the clock cannot be read). *)

From stdpp Require Import base tactics numbers list strings.
From Stdlib Require Import Ascii.
From S2P Require Import Prelude.

Inductive ChatTemplateFamily := kChatML | kLlama | kMistral | kGemma | kHarmony.

#[export] Instance ChatTemplateFamily_eq_dec : EqDecision ChatTemplateFamily.
Proof. solve_decision. Defined.

(** A message is a role and a content. *)
Abbreviation message := (bytes * bytes)%type.

Definition nl : bytes := [ascii_of_N 10].

#[local] Abbreviation b := bytes_of.

Definition RenderChatML (messages : list message) (add_assistant_prefix : bool) : bytes :=
  flat_map (fun m => b "<|im_start|>" ++ m.1 ++ nl ++ m.2 ++ b "<|im_end|>" ++ nl) messages ++
  (if add_assistant_prefix then b "<|im_start|>assistant" ++ nl else []).

(** One message of the Llama format; the state is [out] and [first_user]. *)
Definition llama_message (st : bytes * bool) (m : message) : bytes * bool :=
  let '(out, first_user) := st in
  if bool_decide (m.1 = b "system") then
    (out ++ b "[INST] <<SYS>>" ++ nl ++ m.2 ++ nl ++ b "<</SYS>>" ++ nl ++ nl, first_user)
  else if bool_decide (m.1 = b "user") then
    let open := if first_user && bool_decide (out = []) then b "[INST] "
                else if negb first_user then b "[INST] " else [] in
    (out ++ open ++ m.2 ++ b " [/INST]", false)
  else if bool_decide (m.1 = b "assistant") then (out ++ b " " ++ m.2 ++ b " </s>", first_user)
  else (out, first_user).

Definition RenderLlama (messages : list message) (add_assistant_prefix : bool) : bytes :=
  (foldl llama_message ([], true) messages).1.

Definition mistral_message (m : message) : bytes :=
  if bool_decide (m.1 = b "user") then b "[INST] " ++ m.2 ++ b " [/INST]"
  else if bool_decide (m.1 = b "assistant") then m.2 ++ b "</s> "
  else if bool_decide (m.1 = b "system") then b "[INST] " ++ m.2 ++ nl ++ nl
  else [].

Definition RenderMistral (messages : list message) (add_assistant_prefix : bool) : bytes :=
  flat_map mistral_message messages.

Definition RenderGemma (messages : list message) (add_assistant_prefix : bool) : bytes :=
  flat_map (fun m => b "<start_of_turn>" ++ m.1 ++ nl ++ m.2 ++ b "<end_of_turn>" ++ nl) messages ++
  (if add_assistant_prefix then b "<start_of_turn>model" ++ nl else []).

Definition is_instruction (m : message) : bool :=
  bool_decide (m.1 = b "system") || bool_decide (m.1 = b "developer").

(** The [while] loop over leading instructions: their combined text and the
    messages from [start_idx] on. *)
Fixpoint fold_instructions (messages : list message) (developer_content : bytes) : bytes * list message :=
  match messages with
  | m :: rest =>
      if is_instruction m then
        fold_instructions rest
          ((if bool_decide (developer_content = []) then [] else developer_content ++ nl ++ nl) ++ m.2)
      else (developer_content, messages)
  | [] => (developer_content, [])
  end.

Definition harmony_message (m : message) : bytes :=
  if bool_decide (m.1 = b "user") then b "<|start|>user<|message|>" ++ m.2 ++ b "<|end|>"
  else if bool_decide (m.1 = b "assistant") then
    b "<|start|>assistant<|channel|>final<|message|>" ++ m.2 ++ b "<|end|>"
  else [].

Definition harmony_preamble (date : bytes) : bytes :=
  b "<|start|>system<|message|>" ++
  b "You are ChatGPT, a large language model trained by OpenAI." ++ nl ++
  b "Knowledge cutoff: 2024-06" ++ nl ++
  b "Current date: " ++ date ++ nl ++ nl ++
  b "Reasoning: medium" ++ nl ++ nl ++
  b "# Valid channels: analysis, commentary, final. Channel must be included for every message." ++
  b "<|end|>".

Definition harmony_developer (content : bytes) : bytes :=
  if bool_decide (content = []) then []
  else b "<|start|>developer<|message|># Instructions" ++ nl ++ nl ++ content ++ nl ++ nl ++ b "<|end|>".

Definition RenderHarmony (date : bytes) (messages : list message) (add_assistant_prefix : bool) : bytes :=
  let '(developer_content, rest) := fold_instructions messages [] in
  harmony_preamble date ++ harmony_developer developer_content ++ flat_map harmony_message rest ++
  (if add_assistant_prefix then b "<|start|>assistant" else []).

(** [jinja_template.find(s) != npos] *)
Definition contains (s text : bytes) : bool := match find_sub s text with Some _ => true | None => false end.

Definition DetectTemplateFamilyImpl (jinja_template : bytes) : ChatTemplateFamily :=
  if contains (b "<|channel|>") jinja_template then kHarmony
  else if contains (b "im_start") jinja_template then kChatML
  else if contains (b "start_of_turn") jinja_template then kGemma
  else if contains (b "[INST]") jinja_template then
    if contains (b "<<SYS>>") jinja_template || contains (b "bos_token") jinja_template
    then kLlama else kMistral
  else kChatML.

Definition DetectChatTemplateFamily (jinja_template : bytes) : ChatTemplateFamily :=
  DetectTemplateFamilyImpl jinja_template.

Definition RenderChatTemplate (date jinja_template : bytes) (messages : list message)
    (add_assistant_prefix : bool) : bytes :=
  match DetectTemplateFamilyImpl jinja_template with
  | kHarmony => RenderHarmony date messages add_assistant_prefix
  | kGemma => RenderGemma messages add_assistant_prefix
  | kLlama => RenderLlama messages add_assistant_prefix
  | kMistral => RenderMistral messages add_assistant_prefix
  | kChatML => RenderChatML messages add_assistant_prefix
  end.

(** ** Reading a ChatML or Gemma prompt back *)

(** Split at the first occurrence of [sep]. *)
Definition split_at_sep (sep text : bytes) : option (bytes * bytes) :=
  match find_sub sep text with
  | Some i => Some (take i text, drop (i + length sep) text)
  | None => None
  end.

(** A reader of turn-based prompts: [open] role newline content [close]; it stops
    at the first text that is not a complete turn. *)
Fixpoint parse_turns (fuel : nat) (open close text : bytes) : list message * bytes :=
  match fuel with
  | 0 => ([], text)
  | S fuel' =>
      if starts_with open text then
        match split_at_sep nl (drop (length open) text) with
        | Some (role, rest) =>
            match split_at_sep close rest with
            | Some (content, rest') =>
                let '(ms, tail) := parse_turns fuel' open close rest' in ((role, content) :: ms, tail)
            | None => ([], text)
            end
        | None => ([], text)
        end
      else ([], text)
  end.

(** The first occurrence of [sep] in [x ++ sep] is the one at the end. *)
Definition ends_at (sep x : bytes) : Prop := find_sub sep (x ++ sep) = Some (length x).

Lemma find_sub_app (sep x rest : bytes) :
  find_sub sep (x ++ sep) = Some (length x) -> find_sub sep (x ++ sep ++ rest) = Some (length x).
Proof.
  intros H. induction x as [|c x IH].
  - destruct sep as [|s sep]; simpl; [by destruct rest|]. rewrite bool_decide_eq_true_2 by done.
    rewrite (proj2 (starts_with_spec sep (sep ++ rest))) by eauto. done.
  - simpl in H |- *. destruct (starts_with sep (c :: x ++ sep)) eqn:E.
    + injection H as H. done.
    + destruct (starts_with sep (c :: x ++ sep ++ rest)) eqn:E2.
      * exfalso. apply starts_with_spec in E2 as [r2 E2].
        apply (f_equal (take (length sep))) in E2. rewrite take_app_length in E2.
        assert (Hs : starts_with sep (c :: x ++ sep) = true); [|congruence].
        replace (c :: x ++ sep ++ rest) with ((c :: x ++ sep) ++ rest) in E2
          by (simpl; by rewrite <- app_assoc).
        rewrite take_app_le in E2 by (simpl; rewrite length_app; lia).
        apply starts_with_spec. exists (drop (length sep) (c :: x ++ sep)).
        pose proof (take_drop (length sep) (c :: x ++ sep)) as T. rewrite E2 in T. by symmetry.
      * apply fmap_Some in H as (k & Hk & Hl). injection Hl as <-. by rewrite (IH Hk).
Qed.

Lemma split_at_sep_app sep x rest :
  ends_at sep x -> split_at_sep sep (x ++ sep ++ rest) = Some (x, rest).
Proof.
  intros H. unfold split_at_sep. rewrite (find_sub_app _ _ _ H), take_app_length.
  by rewrite <- drop_drop, !drop_app_length.
Qed.

Lemma parse_render open close ms tail fuel :
  Forall (fun m => ends_at nl m.1 /\ ends_at close m.2) ms -> length ms < fuel ->
  (forall f, parse_turns f open close tail = ([], tail)) ->
  parse_turns fuel open close (flat_map (fun m => open ++ m.1 ++ nl ++ m.2 ++ close) ms ++ tail) = (ms, tail).
Proof.
  revert fuel. induction ms as [|m ms IH]; intros fuel Hms Hf Ht; (destruct fuel as [|fuel]; [simpl in Hf; lia|]).
  - apply Ht.
  - inversion_clear Hms as [|?? [H1 H2] Hms']. cbn [parse_turns flat_map].
    rewrite <- !app_assoc.
    rewrite (proj2 (starts_with_spec open (open ++ _))) by eauto.
    rewrite drop_app_length, split_at_sep_app by done. rewrite split_at_sep_app by done.
    rewrite IH by (done || (simpl in Hf; lia)). by destruct m.
Qed.

(** ** Properties *)

(** A ChatML prompt determines its messages.  When no role contains a newline
    and no content contains the end marker, reading the rendered prompt back
    turn by turn yields exactly the messages, followed by the assistant prefix if
    one was asked for; the same holds for the Gemma format. *)
Theorem turns_roundtrip (messages : list message) (prefix : bool)
    (Hml : Forall (fun m => ends_at nl m.1 /\ ends_at (b "<|im_end|>" ++ nl) m.2) messages)
    (Hg : Forall (fun m => ends_at nl m.1 /\ ends_at (b "<end_of_turn>" ++ nl) m.2) messages) :
  parse_turns (S (length messages)) (b "<|im_start|>") (b "<|im_end|>" ++ nl) (RenderChatML messages prefix) =
    (messages, if prefix then b "<|im_start|>assistant" ++ nl else []) /\
  parse_turns (S (length messages)) (b "<start_of_turn>") (b "<end_of_turn>" ++ nl) (RenderGemma messages prefix) =
    (messages, if prefix then b "<start_of_turn>model" ++ nl else []).
Proof.
  unfold RenderChatML, RenderGemma.
  split; (rewrite parse_render; [done|done|lia|]; intros [|f]; destruct prefix; vm_compute; reflexivity).
Qed.

Definition demo_chat : list message := [(b "system", b "be brief"); (b "user", b "hi")].

Lemma turns_roundtrip_witness :
  parse_turns 3 (b "<|im_start|>") (b "<|im_end|>" ++ nl) (RenderChatML demo_chat true) =
  (demo_chat, b "<|im_start|>assistant" ++ nl).
Proof.
  apply (turns_roundtrip demo_chat true); repeat constructor; vm_compute; reflexivity.
Defined.

(** [x] occurs in [text]. *)
Definition infix_of (x text : bytes) : Prop := exists pre post, text = pre ++ x ++ post.

Lemma infix_app_l x a c : infix_of x a -> infix_of x (a ++ c).
Proof. intros (p & q & ->). exists p, (q ++ c). by rewrite <- !app_assoc. Qed.

Lemma infix_app_r x a c : infix_of x c -> infix_of x (a ++ c).
Proof. intros (p & q & ->). exists (a ++ p), q. by rewrite <- !app_assoc. Qed.

Lemma infix_refl x : infix_of x x.
Proof. exists [], []. by rewrite app_nil_r. Qed.

Lemma infix_trans x y z : infix_of x y -> infix_of y z -> infix_of x z.
Proof.
  intros (p & q & ->) (p' & q' & ->). exists (p' ++ p), (q ++ q'). by rewrite <- !app_assoc.
Qed.

Lemma fold_instructions_spec lead rest acc :
  Forall (fun m => is_instruction m = true) lead ->
  match rest with [] => True | m :: _ => is_instruction m = false end ->
  let '(dev, rest') := fold_instructions (lead ++ rest) acc in
  rest' = rest /\ infix_of acc dev /\ forall m, m ∈ lead -> infix_of m.2 dev.
Proof.
  revert acc. induction lead as [|m lead IH]; intros acc Hl Hr.
  - destruct rest as [|m rest]; simpl; [|rewrite Hr]; (split_and!; [done|apply infix_refl|]);
      intros m' Hm'; by apply elem_of_nil in Hm'.
  - inversion_clear Hl as [|?? Hm Hl']. rewrite <- app_comm_cons. cbn [fold_instructions]. rewrite Hm.
    set (acc' := (if bool_decide (acc = []) then [] else acc ++ nl ++ nl) ++ m.2).
    assert (Hacc : infix_of acc acc').
    { unfold acc'. case_bool_decide as E; [rewrite E; exists [], m.2; done|].
      apply infix_app_l, infix_app_l, infix_refl. }
    assert (Hm2 : infix_of m.2 acc') by (apply infix_app_r, infix_refl).
    specialize (IH acc' Hl' Hr). destruct (fold_instructions (lead ++ rest) acc') as [dev rest'].
    destruct IH as (H1 & H2 & H3). split_and!; [done|by eapply infix_trans|].
    intros m' [->|Hin]%elem_of_cons; [by eapply infix_trans|auto].
Qed.

(** The Harmony rendering loses no instruction and no turn.  Every leading
    system or developer message (all of them, not only the first), and every
    user and assistant message after them, appears in full in the prompt. *)
Theorem harmony_keeps_messages (date : bytes) (lead rest : list message) (prefix : bool) (m : message)
    (Hlead : Forall (fun m => is_instruction m = true) lead)
    (Hrest : match rest with [] => True | m :: _ => is_instruction m = false end)
    (Hm : m ∈ lead \/ (m ∈ rest /\ (m.1 = b "user" \/ m.1 = b "assistant"))) :
  infix_of m.2 (RenderHarmony date (lead ++ rest) prefix).
Proof.
  unfold RenderHarmony. pose proof (fold_instructions_spec lead rest [] Hlead Hrest) as Hf.
  destruct (fold_instructions (lead ++ rest) []) as [dev rest']. destruct Hf as (-> & _ & Hdev).
  apply infix_app_r. destruct Hm as [Hm|[Hm Hrole]].
  - apply infix_app_l. specialize (Hdev _ Hm). unfold harmony_developer. case_bool_decide as E.
    + rewrite E in Hdev. done.
    + apply infix_app_r, infix_app_r, infix_app_r, infix_app_l. done.
  - apply infix_app_r, infix_app_l. apply list_elem_of_split in Hm as (l1 & l2 & ->).
    rewrite flat_map_app. apply infix_app_r. simpl. apply infix_app_l. unfold harmony_message.
    destruct Hrole as [->| ->].
    + rewrite bool_decide_eq_true_2 by done. apply infix_app_r, infix_app_l, infix_refl.
    + rewrite bool_decide_eq_false_2 by (vm_compute; discriminate).
      rewrite bool_decide_eq_true_2 by done. apply infix_app_r, infix_app_l, infix_refl.
Qed.

Lemma harmony_keeps_messages_witness :
  infix_of (b "be brief") (RenderHarmony (b "2026-01-01")
    ([(b "system", b "tools"); (b "system", b "be brief")] ++ [(b "user", b "hi")]) true).
Proof.
  apply (harmony_keeps_messages (b "2026-01-01") [(b "system", b "tools"); (b "system", b "be brief")]
           [(b "user", b "hi")] true (b "system", b "be brief")).
  - repeat constructor.
  - reflexivity.
  - left. right. left.
Defined.

(** The Llama rendering of a conversation that starts with an assistant message
    closes an instruction it never opened. *)
Example llama_missing_inst :
  RenderLlama [(b "assistant", b "Hello!"); (b "user", b "hi")] true = b " Hello! </s>hi [/INST]".
Proof. vm_compute. reflexivity. Qed.
