(* ===== verification/ResponseSplitter.v ===== *)
(** * runtime/text/response_splitter: the splitter of a request

    A variant of the two splitters, chosen by the chat template family, that
    forwards [Feed], [Drain] and [Finish].  What streaming sinks rely on, the
    deltas returned by [Drain], is proved once against an interface that both
    splitters implement. *)

From stdpp Require Import base tactics numbers list strings.
From Stdlib Require Import Ascii.
From S2P Require Import Prelude MarkerScan HarmonySplitter ReasoningSplitter ChatTemplate.

(** ** Interface: append-only accumulators with a drain position *)

Class Splitter (T : Type) := {
  sp_feed : T -> bytes -> T;
  sp_drain : T -> T * outcome (bytes * bytes);
  sp_finish : T -> bytes * bytes;
  sp_acc : T -> bytes * bytes;        (* reasoning and content so far *)
  sp_drained : T -> nat * nat }.      (* how much of them was drained *)

Class SplitterLaws (T : Type) `{Splitter T} := {
  sp_feed_extends s p :
    exists r c, sp_acc (sp_feed s p) = ((sp_acc s).1 ++ r, (sp_acc s).2 ++ c) /\
      sp_drained (sp_feed s p) = sp_drained s;
  sp_drain_delta s :
    (sp_drained s).1 <= length (sp_acc s).1 -> (sp_drained s).2 <= length (sp_acc s).2 ->
    exists s', sp_drain s = (s', Ret (drop (sp_drained s).1 (sp_acc s).1, drop (sp_drained s).2 (sp_acc s).2)) /\
      sp_acc s' = sp_acc s /\ sp_drained s' = (length (sp_acc s).1, length (sp_acc s).2);
  sp_finish_extends s :
    exists r c, sp_finish s = ((sp_acc s).1 ++ r, (sp_acc s).2 ++ c) }.

Section Streaming.
Context {T : Type} `{SplitterLaws T}.

(** Feed and drain piece by piece; the deltas in order. *)
Fixpoint stream (s : T) (pieces : list bytes) : T * outcome (list (bytes * bytes)) :=
  match pieces with
  | [] => (s, Ret [])
  | p :: pieces' =>
      match sp_drain (sp_feed s p) with
      | (s', Ret d) => match stream s' pieces' with
                       | (s'', Ret ds) => (s'', Ret (d :: ds))
                       | (s'', Throw e) => (s'', Throw e)
                       end
      | (s', Throw e) => (s', Throw e)
      end
  end.

(** Everything accumulated has been drained. *)
Definition drained_all (s : T) : Prop := sp_drained s = (length (sp_acc s).1, length (sp_acc s).2).

Lemma stream_spec s pieces :
  drained_all s ->
  exists s' ds, stream s pieces = (s', Ret ds) /\ drained_all s' /\
    sp_acc s' = ((sp_acc s).1 ++ concat ds.*1, (sp_acc s).2 ++ concat ds.*2).
Proof.
  revert s. induction pieces as [|p pieces IH]; intros s Hd; simpl.
  { exists s, []. simpl. rewrite !app_nil_r. by destruct (sp_acc s). }
  destruct (sp_feed_extends s p) as (r & c & Ha & Hdr). rewrite Hd in Hdr.
  destruct (sp_drain_delta (sp_feed s p)) as (s1 & E & Ha1 & Hd1);
    [rewrite Hdr, Ha; simpl; rewrite length_app; lia..|].
  rewrite E. destruct (IH s1) as (s2 & ds & E2 & Hd2 & Ha2); [unfold drained_all; by rewrite Hd1, Ha1|].
  rewrite E2. eexists _, _. split_and!; [done|done|].
  rewrite Ha2, Ha1, Hdr, Ha. simpl. by rewrite !drop_app_length, !app_assoc.
Qed.
End Streaming.

(** ** The two splitters implement it *)

#[export] Instance harmony_splitter : Splitter HarmonySplitter := {
  sp_feed := HarmonySplitter.Feed;
  sp_drain s := let '(s', o) := HarmonySplitter.Drain s in
    (s', match o with
         | Ret p => Ret (HarmonySplitter.parts_reasoning p, HarmonySplitter.parts_content p)
         | Throw e => Throw e
         end);
  sp_finish s := let p := HarmonySplitter.Finish s in
    (HarmonySplitter.parts_reasoning p, HarmonySplitter.parts_content p);
  sp_acc s := (HarmonySplitter.reasoning s, HarmonySplitter.content s);
  sp_drained s := (HarmonySplitter.drained_reasoning_bytes s, HarmonySplitter.drained_content_bytes s) }.

#[export] Instance reasoning_splitter : Splitter ReasoningSplitter := {
  sp_feed := ReasoningSplitter.Feed;
  sp_drain s := let '(s', o) := ReasoningSplitter.Drain s in
    (s', match o with
         | Ret p => Ret (ReasoningSplitter.parts_reasoning p, ReasoningSplitter.parts_content p)
         | Throw e => Throw e
         end);
  sp_finish s := let p := (ReasoningSplitter.Finish s).2 in
    (ReasoningSplitter.parts_reasoning p, ReasoningSplitter.parts_content p);
  sp_acc s := (ReasoningSplitter.reasoning s, ReasoningSplitter.content s);
  sp_drained s := (ReasoningSplitter.drained_reasoning_bytes s, ReasoningSplitter.drained_content_bytes s) }.

(** A step or loop that only appends to the accumulators. *)
Definition extends {T} `{Splitter T} (s s' : T) : Prop :=
  exists r c, sp_acc s' = ((sp_acc s).1 ++ r, (sp_acc s).2 ++ c) /\ sp_drained s' = sp_drained s.

Lemma extends_refl {T} `{Splitter T} (s : T) : extends s s.
Proof. exists [], []. rewrite !app_nil_r. by destruct (sp_acc s). Qed.

Lemma extends_trans {T} `{Splitter T} (s1 s2 s3 : T) : extends s1 s2 -> extends s2 s3 -> extends s1 s3.
Proof.
  intros (r & c & Ha & Hd) (r' & c' & Ha' & Hd'). exists (r ++ r'), (c ++ c').
  rewrite Ha', Ha, Hd', Hd. simpl. by rewrite !app_assoc.
Qed.

Lemma harmony_advance_extends h s p r c : extends h (HarmonySplitter.advance h s p r c).
Proof. by exists r, c. Qed.

Lemma harmony_loop_extends fuel h : extends h (HarmonySplitter.feed_loop fuel h).
Proof.
  revert h. induction fuel as [|fuel IH]; intros h; simpl; [apply extends_refl|].
  destruct (HarmonySplitter.feed_step h) as [h'|] eqn:E; [|apply extends_refl].
  apply (extends_trans _ h'); [|apply IH]. unfold HarmonySplitter.feed_step in E.
  repeat case_match; simplify_eq; apply harmony_advance_extends.
Qed.

Lemma reasoning_advance_extends h s p r c : extends h (ReasoningSplitter.advance h s p r c).
Proof. by exists r, c. Qed.

Lemma reasoning_loop_extends fuel h : extends h (ReasoningSplitter.feed_loop fuel h).
Proof.
  revert h. induction fuel as [|fuel IH]; intros h; simpl; [apply extends_refl|].
  destruct (ReasoningSplitter.feed_step h) as [h'|] eqn:E; [|apply extends_refl].
  apply (extends_trans _ h'); [|apply IH]. unfold ReasoningSplitter.feed_step in E.
  repeat case_match; simplify_eq; apply reasoning_advance_extends.
Qed.

#[export] Instance harmony_splitter_laws : SplitterLaws HarmonySplitter.
Proof.
  split.
  - intros s p. eapply (extends_trans s); [apply harmony_advance_extends|apply harmony_loop_extends].
  - intros s H1 H2. simpl in *. unfold HarmonySplitter.Drain.
    rewrite !(proj2 (Nat.ltb_ge _ _)) by done. simpl. eexists. by split_and!.
  - intros s. unfold sp_finish. simpl. unfold HarmonySplitter.Finish.
    destruct (HarmonySplitter.state s); simpl.
    + exists [], (HarmonySplitter.pending s). by rewrite app_nil_r.
    + exists (HarmonySplitter.pending s), []. by rewrite app_nil_r.
    + exists [], (HarmonySplitter.pending s). by rewrite app_nil_r.
    + exists [], []. by rewrite !app_nil_r.
    + exists [], []. by rewrite !app_nil_r.
Qed.

#[export] Instance reasoning_splitter_laws : SplitterLaws ReasoningSplitter.
Proof.
  split.
  - intros s p. eapply (extends_trans s); [apply reasoning_advance_extends|apply reasoning_loop_extends].
  - intros s H1 H2. simpl in *. unfold ReasoningSplitter.Drain.
    rewrite !(proj2 (Nat.ltb_ge _ _)) by done. simpl. eexists. by split_and!.
  - intros s. unfold sp_finish. simpl. destruct (ReasoningSplitter.state s); simpl.
    + exists [], (ReasoningSplitter.pending s). by rewrite app_nil_r.
    + exists (ReasoningSplitter.pending s), []. by rewrite app_nil_r.
Qed.

(** ** The variant *)

Inductive ResponseSplitter :=
  | ImplReasoning (s : ReasoningSplitter)
  | ImplHarmony (s : HarmonySplitter).

Definition newResponse (family : ChatTemplateFamily) : ResponseSplitter :=
  if bool_decide (family = kHarmony) then ImplHarmony newHarmony else ImplReasoning newReasoning.

Definition Feed (s : ResponseSplitter) (piece : bytes) : ResponseSplitter :=
  match s with
  | ImplReasoning r => ImplReasoning (sp_feed r piece)
  | ImplHarmony h => ImplHarmony (sp_feed h piece)
  end.

Definition Finish (s : ResponseSplitter) : bytes * bytes :=
  match s with ImplReasoning r => sp_finish r | ImplHarmony h => sp_finish h end.

Definition Drain (s : ResponseSplitter) : ResponseSplitter * outcome (bytes * bytes) :=
  match s with
  | ImplReasoning r => let '(r', o) := sp_drain r in (ImplReasoning r', o)
  | ImplHarmony h => let '(h', o) := sp_drain h in (ImplHarmony h', o)
  end.

Definition in_reasoning (s : ResponseSplitter) : bool :=
  match s with
  | ImplReasoning r => ReasoningSplitter.in_reasoning r
  | ImplHarmony h => HarmonySplitter.in_reasoning h
  end.

Definition Split (family : ChatTemplateFamily) (output : bytes) : bytes * bytes :=
  if bool_decide (family = kHarmony)
  then let p := HarmonySplitter.Split output in (HarmonySplitter.parts_reasoning p, HarmonySplitter.parts_content p)
  else let p := ReasoningSplitter.Split output in (ReasoningSplitter.parts_reasoning p, ReasoningSplitter.parts_content p).

#[export] Instance response_splitter : Splitter ResponseSplitter := {
  sp_feed := Feed;
  sp_drain := Drain;
  sp_finish := Finish;
  sp_acc s := match s with ImplReasoning r => sp_acc r | ImplHarmony h => sp_acc h end;
  sp_drained s := match s with ImplReasoning r => sp_drained r | ImplHarmony h => sp_drained h end }.

#[export] Instance response_splitter_laws : SplitterLaws ResponseSplitter.
Proof.
  split.
  - intros [r|h] p; [exact (sp_feed_extends r p)|exact (sp_feed_extends h p)].
  - intros [r|h] H1 H2.
    + destruct (sp_drain_delta r H1 H2) as (r' & E & Ha & Hd). exists (ImplReasoning r').
      cbn [sp_drain response_splitter Drain]. rewrite E. by split_and!.
    + destruct (sp_drain_delta h H1 H2) as (h' & E & Ha & Hd). exists (ImplHarmony h').
      cbn [sp_drain response_splitter Drain]. rewrite E. by split_and!.
  - intros [r|h]; [exact (sp_finish_extends r)|exact (sp_finish_extends h)].
Qed.

(** ** Properties *)

(** Streamed deltas add up.  For either template family, feeding pieces and
    draining after each never fails, and the concatenated deltas followed by the
    bytes [Finish] flushes are exactly the final reasoning and content: nothing
    is emitted twice, dropped or retracted. *)
Theorem streamed_deltas_add_up (family : ChatTemplateFamily) (pieces : list bytes) :
  exists s ds r c, stream (newResponse family) pieces = (s, Ret ds) /\
    Finish s = (concat ds.*1 ++ r, concat ds.*2 ++ c).
Proof.
  destruct (stream_spec (newResponse family) pieces) as (s & ds & E & _ & Ha).
  { unfold newResponse, drained_all. by case_bool_decide. }
  assert (Hnil : sp_acc (newResponse family) = ([], [])) by (unfold newResponse; by case_bool_decide).
  rewrite Hnil in Ha. cbn [fst snd app] in Ha. destruct (sp_finish_extends s) as (r & c & Hf).
  exists s, ds, r, c. split; [done|]. rewrite Ha in Hf. exact Hf.
Qed.
