(* ===== verification/RateLimiter.v ===== *)
(** * server/auth/rate_limiter: token buckets per principal

    One aggregate bucket and one bucket per endpoint class, refilled by elapsed
    time in double arithmetic.  [Admit] runs in one critical section; the
    injected clock [now_] is an argument (nanoseconds).  YAML nodes of
    rate_limit_config.cpp are given by their shape. *)

From stdpp Require Import base tactics numbers list strings gmap.
From S2P Require Import Prelude Float64.

Inductive RequestClass := kOther | kGeneration | kEmbeddings.

#[export] Instance RequestClass_eq_dec : EqDecision RequestClass.
Proof. solve_decision. Defined.

Definition RequestClassName (c : RequestClass) : string :=
  match c with kGeneration => "generation" | kEmbeddings => "embeddings" | kOther => "aggregate" end.

(** [static_cast<std::size_t>(request_class)] and back *)
Definition class_index (c : RequestClass) : nat :=
  match c with kOther => 0 | kGeneration => 1 | kEmbeddings => 2 end.

Definition class_of (i : nat) : RequestClass :=
  match i with 0 => kOther | 1 => kGeneration | _ => kEmbeddings end.

Record RequestBucketPolicy := mkPolicy { requests_per_minute : Z; burst : Z }.

Record EndpointRateLimits := mkLimits {
  generation : option RequestBucketPolicy;
  embeddings : option RequestBucketPolicy }.

Definition endpoints_Enabled (l : EndpointRateLimits) : bool :=
  match generation l, embeddings l with None, None => false | _, _ => true end.

Definition valid_policy (p : RequestBucketPolicy) : bool :=
  negb ((requests_per_minute p <=? 0) || (burst p <=? 0) || (requests_per_minute p <? burst p))%Z.

Definition ValidateEndpointRateLimits (l : EndpointRateLimits) : outcome unit :=
  if forallb (fun o => match o with Some p => valid_policy p | None => true end)
       [generation l; embeddings l]
  then Ret tt
  else Throw (invalid_argument "endpoint rate limits require 0 < burst <= requests_per_minute").

Record RateLimitDecision := mkDecision {
  allowed : bool;
  endpoint_policy : bool;
  scope : RequestClass;
  decision_rpm : Z;
  retry_after_seconds : Z }.

Record Bucket := mkBucket { tokens : double; bucket_last : Z }.

Record Principal := mkPrincipal { buckets : list Bucket; principal_last : Z }.

Record RateLimiter := mkLimiter {
  tokens_per_minute : Z;
  endpoints : EndpointRateLimits;
  source : string;
  entries : gmap string Principal;
  last_eviction : Z }.

Definition newLimiter (tpm : Z) (eps : EndpointRateLimits) (src : string) : outcome RateLimiter :=
  match ValidateEndpointRateLimits eps with
  | Throw e => Throw e
  | Ret _ =>
      if endpoints_Enabled eps && (tpm <=? 0)%Z
      then Throw (invalid_argument "endpoint rate limits require a positive aggregate request limit")
      else Ret (mkLimiter tpm eps src ∅ 0)
  end.

Definition set_entries (l : RateLimiter) (es : gmap string Principal) : RateLimiter :=
  mkLimiter (tokens_per_minute l) (endpoints l) (source l) es (last_eviction l).

Definition second_ns : Z := 1000000000.

Definition EvictStaleLocked (l : RateLimiter) (now : Z) : RateLimiter :=
  if (now - last_eviction l <? 60 * second_ns)%Z then l
  else mkLimiter (tokens_per_minute l) (endpoints l) (source l)
         (filter (fun kp => (now - principal_last kp.2 <= 120 * second_ns)%Z) (entries l)) now.

(** The three policies; slot 0 is the aggregate one. *)
Definition policies (l : RateLimiter) : list (option RequestBucketPolicy) :=
  [Some (mkPolicy (tokens_per_minute l) (tokens_per_minute l)); generation (endpoints l); embeddings (endpoints l)].

Definition applies (l : RateLimiter) (endpoint i : nat) : option RequestBucketPolicy :=
  match policies l !! i with
  | Some (Some p) => if (i =? 0) || (i =? endpoint) then Some p else None
  | _ => None
  end.

(** A new principal's buckets: full. *)
Definition fresh_principal (l : RateLimiter) (now : Z) : Principal :=
  mkPrincipal ((fun p => mkBucket (match p with Some p => d_of_Z (burst p) | None => d_of_Z 0 end) now) <$> policies l) now.

Definition one : double := d_of_Z 1.

Definition refill_rate (p : RequestBucketPolicy) : double := ddiv (d_of_Z (requests_per_minute p)) (d_of_Z 60).

Definition refilled (p : RequestBucketPolicy) (now : Z) (b : Bucket) : Bucket :=
  let elapsed := ddiv (d_of_Z (now - bucket_last b)) (d_of_Z second_ns) in
  mkBucket (dmin (d_of_Z (burst p)) (dadd (tokens b) (dmul elapsed (refill_rate p)))) now.

(** One iteration of the refill loop on bucket [i]. *)
Definition refill_step (l : RateLimiter) (endpoint : nat) (now : Z)
    (acc : list Bucket * RateLimitDecision) (i : nat) : list Bucket * RateLimitDecision :=
  let '(bs, d) := acc in
  match applies l endpoint i, bs !! i with
  | Some p, Some b =>
      let b' := refilled p now b in
      let bs' := <[i := b']> bs in
      if dltb (tokens b') one then
        let retry := d_ceil (ddiv (dsub one (tokens b')) (refill_rate p)) in
        let d' := if allowed d || (retry_after_seconds d <? retry)%Z
                  then mkDecision (allowed d) (endpoint_policy d) (class_of i) (requests_per_minute p) retry
                  else d in
        (bs', mkDecision false (endpoint_policy d') (scope d') (decision_rpm d') (retry_after_seconds d'))
      else (bs', d)
  | _, _ => acc
  end.

(** The debit of bucket [i]. *)
Definition debit_step (l : RateLimiter) (endpoint : nat) (bs : list Bucket) (i : nat) : list Bucket :=
  match applies l endpoint i with
  | Some _ => alter (fun b => mkBucket (dsub (tokens b) one) (bucket_last b)) i bs
  | None => bs
  end.

Definition Admit (l : RateLimiter) (key : string) (request_class : RequestClass) (now : Z) :
    RateLimiter * RateLimitDecision :=
  let d0 := mkDecision true (endpoints_Enabled (endpoints l)) kOther 0 0 in
  if (tokens_per_minute l <=? 0)%Z then (l, d0)
  else
    let l1 := EvictStaleLocked l now in
    let bs := match entries l1 !! key with
              | Some p => buckets p
              | None => buckets (fresh_principal l1 now)
              end in
    let endpoint := class_index request_class in
    let '(bs1, d) := foldl (refill_step l1 endpoint now) (bs, d0) [0; 1; 2] in
    let bs2 := if allowed d then foldl (debit_step l1 endpoint) bs1 [0; 1; 2] else bs1 in
    (set_entries l1 (<[key := mkPrincipal bs2 now]> (entries l1)), d).

Definition Allow (l : RateLimiter) (key : string) (now : Z) : RateLimiter * bool :=
  let '(l', d) := Admit l key kOther now in (l', allowed d).

Definition UpdateLimit (l : RateLimiter) (tpm : Z) (src : string) (now : Z) : RateLimiter * outcome unit :=
  if endpoints_Enabled (endpoints l) && (tpm <=? 0)%Z
  then (l, Throw (invalid_argument "endpoint rate limits require a positive aggregate request limit"))
  else
    let es := if negb (endpoints_Enabled (endpoints l)) then ∅
              else (fun p => mkPrincipal (<[0 := mkBucket (d_of_Z tpm) now]> (buckets p)) (principal_last p)) <$> entries l in
    (mkLimiter tpm (endpoints l) src es (last_eviction l), Ret tt).

Definition limiter_Enabled (l : RateLimiter) : bool := (0 <? tokens_per_minute l)%Z.
Definition CurrentLimit (l : RateLimiter) : Z := tokens_per_minute l.
Definition Snapshot (l : RateLimiter) : Z * string * EndpointRateLimits :=
  (tokens_per_minute l, source l, endpoints l).

(** ** Configuration: rate_limit_config.cpp *)

(** A YAML value as the parser sees it; [as<int>] of a scalar may throw a YAML
    exception ([None]). *)
Inductive yaml :=
  | YUndefined
  | YScalar (s : string) (as_int : option Z)
  | YMap (items : list (yaml * yaml))
  | YOther.

(** Results of parsing: a value, [std::invalid_argument], or a YAML exception. *)
Inductive parsed (A : Type) := POk (a : A) | PInvalid (msg : string) | PYaml.
Arguments POk {A}. Arguments PInvalid {A}. Arguments PYaml {A}.

Definition scalar_key (k : yaml) : option string := match k with YScalar s _ => Some s | _ => None end.

Definition as_int (y : yaml) : parsed Z :=
  match y with YScalar _ (Some z) => POk z | _ => PYaml end.

(** [node\[key\]]: the first item with that key. *)
Fixpoint yaml_get (items : list (yaml * yaml)) (key : string) : yaml :=
  match items with
  | [] => YUndefined
  | (k, v) :: items' => if bool_decide (scalar_key k = Some key) then v else yaml_get items' key
  end.

(** The scan over the fields of a bucket. *)
Fixpoint check_fields (items : list (yaml * yaml)) (seen : list string) : parsed unit :=
  match items with
  | [] => POk tt
  | (k, _) :: items' =>
      match scalar_key k with
      | None => PYaml
      | Some key =>
          if (negb (bool_decide (key = "requests_per_minute")) && negb (bool_decide (key = "burst")))
             || bool_decide (key ∈ seen)
          then PInvalid "unknown or duplicate endpoint limit field"
          else check_fields items' (key :: seen)
      end
  end.

Definition ParseBucket (node : yaml) : parsed RequestBucketPolicy :=
  match node with
  | YMap items =>
      if negb (length items =? 2) then PInvalid "endpoint limit requires requests_per_minute and burst"
      else
        match check_fields items [] with
        | POk _ =>
            match as_int (yaml_get items "requests_per_minute"), as_int (yaml_get items "burst") with
            | POk r, POk b => POk (mkPolicy r b)
            | _, _ => PYaml
            end
        | PInvalid m => PInvalid m
        | PYaml => PYaml
        end
  | _ => PInvalid "endpoint limit requires requests_per_minute and burst"
  end.

Fixpoint parse_classes (items : list (yaml * yaml)) (seen : list string) (l : EndpointRateLimits) :
    parsed EndpointRateLimits :=
  match items with
  | [] => POk l
  | (k, v) :: items' =>
      match scalar_key k with
      | None => PYaml
      | Some key =>
          if bool_decide (key ∈ seen) then PInvalid "duplicate endpoint rate class"
          else if bool_decide (key = "generation") then
            match ParseBucket v with
            | POk p => parse_classes items' (key :: seen) (mkLimits (Some p) (embeddings l))
            | PInvalid m => PInvalid m
            | PYaml => PYaml
            end
          else if bool_decide (key = "embeddings") then
            match ParseBucket v with
            | POk p => parse_classes items' (key :: seen) (mkLimits (generation l) (Some p))
            | PInvalid m => PInvalid m
            | PYaml => PYaml
            end
          else PInvalid "unknown endpoint rate class"
      end
  end.

Definition ParseEndpointMap (node : yaml) : outcome EndpointRateLimits :=
  match node with
  | YUndefined => Ret (mkLimits None None)
  | YMap (i :: items) =>
      match parse_classes (i :: items) [] (mkLimits None None) with
      | PYaml => Throw (invalid_argument "endpoint limits must contain integer rates and bursts")
      | PInvalid m => Throw (invalid_argument m)
      | POk l => match ValidateEndpointRateLimits l with Ret _ => Ret l | Throw e => Throw e end
      end
  | _ => Throw (invalid_argument "endpoint_limits must be a nonempty mapping")
  end.

Definition has_field (key : string) (y : yaml) : bool :=
  match y with
  | YMap items => existsb (fun kv => bool_decide (scalar_key kv.1 = Some key)) items
  | _ => false
  end.

(** How often a scalar key occurs. *)
Definition field_count (key : string) (y : yaml) : nat :=
  match y with
  | YMap items => count_if (fun kv => bool_decide (scalar_key kv.1 = Some key)) items
  | _ => 0
  end.

Definition ParseEndpointRateLimits (config : yaml) : outcome EndpointRateLimits :=
  match config with
  | YMap items =>
      let auth_nodes := snd <$> filter (fun kv => scalar_key kv.1 = Some "auth") items in
      if negb (existsb (has_field "endpoint_limits") auth_nodes) then Ret (mkLimits None None)
      else
        match auth_nodes with
        | [auth] =>
            if (1 <? field_count "endpoint_limits" auth) || (1 <? field_count "rate_limit_per_minute" auth)
            then Throw (invalid_argument "duplicate auth request rate policy field")
            else ParseEndpointMap (match auth with YMap fs => yaml_get fs "endpoint_limits" | _ => YUndefined end)
        | _ => Throw (invalid_argument "duplicate auth mapping with endpoint rate policy")
        end
  | _ => Ret (mkLimits None None)
  end.

(** ** Facts *)

Definition limiter_wf (l : RateLimiter) : Prop :=
  forall k p, entries l !! k = Some p -> length (buckets p) = 3.

Lemma EvictStale_wf l now : limiter_wf l -> limiter_wf (EvictStaleLocked l now).
Proof.
  intros Hl k p. unfold EvictStaleLocked. destruct (_ <? _)%Z; simpl; [apply Hl|].
  intros [Hk _]%map_lookup_filter_Some. by eapply Hl.
Qed.

(** Bucket [i] after the refill loop, and whether it admits. *)
Definition refill_bucket (l : RateLimiter) (ep : nat) (now : Z) (i : nat) (b : Bucket) : Bucket :=
  match applies l ep i with Some p => refilled p now b | None => b end.

Definition admits (l : RateLimiter) (ep : nat) (now : Z) (i : nat) (b : Bucket) : bool :=
  match applies l ep i with Some p => negb (dltb (tokens (refilled p now b)) one) | None => true end.

Definition debit_bucket (l : RateLimiter) (ep : nat) (i : nat) (b : Bucket) : Bucket :=
  match applies l ep i with Some _ => mkBucket (dsub (tokens b) one) (bucket_last b) | None => b end.

Lemma refill_step_spec l ep now bs d i b :
  bs !! i = Some b ->
  let r := refill_step l ep now (bs, d) i in
  r.1 = <[i := refill_bucket l ep now i b]> bs /\ allowed r.2 = allowed d && admits l ep now i b /\
  endpoint_policy r.2 = endpoint_policy d.
Proof.
  intros Hb. unfold refill_step, refill_bucket, admits. rewrite Hb.
  destruct (applies l ep i) as [p|].
  - destruct (dltb _ one) eqn:E; simpl.
    + split_and!; [done|by rewrite andb_false_r|by destruct (_ || _)].
    + by rewrite andb_true_r.
  - simpl. by rewrite list_insert_id, andb_true_r.
Qed.

Lemma refill_fold l ep now b0 b1 b2 d :
  let r := foldl (refill_step l ep now) ([b0; b1; b2], d) [0; 1; 2] in
  r.1 = imap (refill_bucket l ep now) [b0; b1; b2] /\
  allowed r.2 = allowed d && (admits l ep now 0 b0 && (admits l ep now 1 b1 && admits l ep now 2 b2)) /\
  endpoint_policy r.2 = endpoint_policy d.
Proof.
  cbn [foldl].
  destruct (refill_step l ep now ([b0; b1; b2], d) 0) as [bs1 d1] eqn:E1.
  destruct (refill_step_spec l ep now [b0; b1; b2] d 0 b0 eq_refl) as (H1 & H2 & H3). rewrite E1 in *.
  simpl in H1, H2, H3. subst bs1.
  destruct (refill_step l ep now (_, d1) 1) as [bs2 d2] eqn:E2.
  match type of E2 with refill_step _ _ _ (?bs, _) _ = _ =>
    destruct (refill_step_spec l ep now bs d1 1 b1 eq_refl) as (H4 & H5 & H6) end. rewrite E2 in *.
  simpl in H4, H5, H6. subst bs2.
  match goal with |- context [refill_step _ _ _ (?bs, _) 2] =>
    destruct (refill_step_spec l ep now bs d2 2 b2 eq_refl) as (H7 & H8 & H9) end.
  rewrite H7, H8, H9, H5, H2, H6, H3. simpl. by rewrite !andb_assoc.
Qed.

Lemma debit_fold l ep b0 b1 b2 :
  foldl (debit_step l ep) [b0; b1; b2] [0; 1; 2] = imap (debit_bucket l ep) [b0; b1; b2].
Proof.
  simpl. unfold debit_step, debit_bucket.
  by destruct (applies l ep 0), (applies l ep 1), (applies l ep 2).
Qed.

(** The buckets [Admit] starts from. *)
Definition buckets_before (l : RateLimiter) (key : string) (now : Z) : list Bucket :=
  let l1 := EvictStaleLocked l now in
  match entries l1 !! key with Some p => buckets p | None => buckets (fresh_principal l1 now) end.

Lemma buckets_before_3 l key now :
  limiter_wf l -> exists b0 b1 b2, buckets_before l key now = [b0; b1; b2].
Proof.
  intros Hl. unfold buckets_before. destruct (entries _ !! key) as [p|] eqn:E.
  - apply (EvictStale_wf _ now Hl) in E. destruct (buckets p) as [|b0 [|b1 [|b2 [|]]]]; simpl in E; try lia.
    by exists b0, b1, b2.
  - by eexists _, _, _.
Qed.

(** ** Properties *)

(** Admission is atomic over all buckets.  With limiting enabled, a request is
    admitted exactly when every bucket that applies to it (the aggregate one and
    its endpoint class's) holds at least one token after refilling, and no bucket
    ever holds more than its burst.  An admitted request takes one token from
    each applicable bucket; a denied one takes none, so a request refused by its
    endpoint bucket does not consume the shared allowance.  Buckets that do not
    apply and other principals that are not stale are untouched. *)
Theorem Admit_atomic (l : RateLimiter) (key : string) (c : RequestClass) (now : Z)
    (Hwf : limiter_wf l) (Hon : (0 < tokens_per_minute l)%Z) :
  let ep := class_index c in
  let l1 := EvictStaleLocked l now in
  let before := buckets_before l key now in
  let '(l', d) := Admit l key c now in
  allowed d = forallb (fun ib => admits l1 ep now ib.1 ib.2) (zip [0; 1; 2] before) /\
  entries l' !! key = Some (mkPrincipal
    (imap (fun i b => if allowed d then debit_bucket l1 ep i (refill_bucket l1 ep now i b)
                      else refill_bucket l1 ep now i b) before) now) /\
  (forall i p b, applies l1 ep i = Some p -> before !! i = Some b ->
     dltb (d_of_Z (burst p)) (tokens (refill_bucket l1 ep now i b)) = false) /\
  (forall k, k <> key -> entries l' !! k = entries l1 !! k) /\ limiter_wf l'.
Proof.
  intros ep l1 before. unfold Admit. rewrite (proj2 (Z.leb_gt _ _)) by done. fold l1 ep.
  change (match entries l1 !! key with Some p => buckets p | None => buckets (fresh_principal l1 now) end)
    with before.
  destruct (buckets_before_3 l key now Hwf) as (b0 & b1 & b2 & Hb). fold before in Hb. rewrite Hb.
  pose proof (refill_fold l1 ep now b0 b1 b2 (mkDecision true (endpoints_Enabled (endpoints l)) kOther 0 0)) as Hf.
  destruct (foldl (refill_step l1 ep now) _ _) as [bs1 d]. simpl in Hf. destruct Hf as (-> & Hd & _).
  split_and!.
  - rewrite Hd. simpl. by rewrite andb_true_r.
  - cbn [entries set_entries]. rewrite lookup_insert_eq. f_equal. f_equal.
    destruct (allowed d); [|done]. exact (debit_fold l1 ep _ _ _).
  - intros i p b Hp _. unfold refill_bucket. rewrite Hp. apply dmin_le.
  - intros k Hk. cbn [entries set_entries]. by rewrite lookup_insert_ne.
  - intros k p. cbn [entries set_entries]. destruct (decide (k = key)) as [->|Hk].
    + rewrite lookup_insert_eq. intros [= <-]. cbn [buckets]. destruct (allowed d); [|done].
      exact (f_equal length (debit_fold l1 ep _ _ _)).
    + rewrite lookup_insert_ne by done. by apply EvictStale_wf.
Qed.

Definition demo_limiter : RateLimiter :=
  mkLimiter 60 (mkLimits (Some (mkPolicy 60 1)) None) "test" ∅ 0.

Lemma Admit_atomic_witness :
  (Admit demo_limiter "k" kGeneration 5).2 = mkDecision true true kOther 0 0 /\
  forall k, k <> "k" -> entries (Admit demo_limiter "k" kGeneration 5).1 !! k = None.
Proof.
  pose proof (Admit_atomic demo_limiter "k" kGeneration 5) as H.
  destruct (Admit demo_limiter "k" kGeneration 5) as [l' d] eqn:E.
  destruct H as (_ & _ & _ & Hk & _).
  - intros k p Hp. vm_compute in Hp. discriminate.
  - vm_compute. reflexivity.
  - split; [vm_compute in E; simpl; congruence|].
    intros k Hne. simpl. rewrite (Hk k Hne). reflexivity.
Defined.

(** A parse result that is not the empty policy passed validation. *)
Lemma ParseEndpointMap_valid node l :
  ParseEndpointMap node = Ret l ->
  l = mkLimits None None \/ ValidateEndpointRateLimits l = Ret tt.
Proof.
  unfold ParseEndpointMap. destruct node as [| | [|i items]|]; try done; [intros [= <-]; by left|].
  destruct (parse_classes _ _ _) as [l0| |]; try done.
  destruct (ValidateEndpointRateLimits l0) as [[]|] eqn:E; [|done]. intros [= <-]. by right.
Qed.

(** An accepted configuration is usable.  Whatever the YAML document,
    [ParseEndpointRateLimits] either throws or returns limits in which every
    configured class has 0 < burst <= requests per minute, so that constructing
    a limiter with a positive aggregate limit succeeds. *)
Theorem parsed_limits_valid (config : yaml) (l : EndpointRateLimits) (tpm : Z) (src : string)
    (Hp : ParseEndpointRateLimits config = Ret l) (Htpm : (0 < tpm)%Z) :
  (forall p, generation l = Some p \/ embeddings l = Some p ->
     (0 < burst p <= requests_per_minute p)%Z) /\
  exists lim, newLimiter tpm l src = Ret lim.
Proof.
  assert (Hv : ValidateEndpointRateLimits l = Ret tt).
  { unfold ParseEndpointRateLimits in Hp. destruct config as [| | items|]; try (simplify_eq; done).
    destruct (negb _); [by simplify_eq|]. destruct (snd <$> _) as [|auth [|]]; try done.
    destruct (_ || _); [done|]. by apply ParseEndpointMap_valid in Hp as [->|Hp]. }
  split.
  - unfold ValidateEndpointRateLimits in Hv. destruct (forallb _ _) eqn:Hf; [|done].
    cbn [forallb] in Hf. apply andb_true_iff in Hf as [H1 [H2 _]%andb_true_iff].
    assert (Hok : forall p, valid_policy p = true -> (0 < burst p <= requests_per_minute p)%Z).
    { intros p [[H3 H4]%orb_false_iff H5]%negb_true_iff%orb_false_iff.
      apply Z.leb_gt in H3, H4. apply Z.ltb_ge in H5. lia. }
    intros p [E|E]; rewrite E in *; by apply Hok.
  - unfold newLimiter. rewrite Hv, (proj2 (Z.leb_gt _ _)), andb_false_r by done. eauto.
Qed.

Definition demo_config : yaml :=
  YMap [(YScalar "auth" None, YMap [(YScalar "endpoint_limits" None,
    YMap [(YScalar "generation" None, YMap [(YScalar "requests_per_minute" None, YScalar "60" (Some 60%Z));
                                            (YScalar "burst" None, YScalar "5" (Some 5%Z))])])])].

Lemma parsed_limits_valid_witness :
  exists lim, newLimiter 100 (mkLimits (Some (mkPolicy 60 5)) None) "yaml" = Ret lim.
Proof.
  apply (parsed_limits_valid demo_config (mkLimits (Some (mkPolicy 60 5)) None) 100 "yaml").
  - vm_compute. reflexivity.
  - lia.
Defined.
