(* ===== verification/StringUtils.v ===== *)
(** * runtime/string_utils.h and the text helpers of policy/policy_store.cpp

    Trimming, lower-casing, boolean and integer parsing, line and comma
    splitting, and hexadecimal, on byte lists.  [std::getline] loops are
    [getlines]; [std::tolower] and [isspace] are those of the C locale; an
    environment variable is an optional string. *)

From stdpp Require Import base tactics numbers list strings pretty sets.
From Stdlib Require Import Ascii.
From S2P Require Import Prelude.

Create HintDb text.

Abbreviation chr := ascii_of_nat.

Definition nl : ascii := chr 10.

(** [" \t\r\n"] *)
Definition trim_set : list ascii := [chr 32; chr 9; chr 13; nl].

Definition is_trim (c : ascii) : bool := bool_decide (c ∈ trim_set).

Definition tolower (c : ascii) : ascii :=
  let n := nat_of_ascii c in if (65 <=? n) && (n <=? 90) then chr (n + 32) else c.

Definition ToLower (s : bytes) : bytes := tolower <$> s.

Fixpoint drop_while (p : ascii -> bool) (s : bytes) : bytes :=
  match s with
  | c :: s' => if p c then drop_while p s' else s
  | [] => []
  end.

(** Comparison with a literal. *)
Definition named (s : bytes) (t : string) : bool := bool_decide (s = bytes_of t).
Definition one_of (s : bytes) (l : list string) : bool := existsb (named s) l.

(** From the first to the last byte that is not in [trim_set]. *)
Definition Trim (s : bytes) : bytes := reverse (drop_while is_trim (reverse (drop_while is_trim s))).

Definition truthy : list bytes := [bytes_of "true"; bytes_of "1"; bytes_of "yes"; bytes_of "on"].

(** A null pointer is [None]. *)
Definition IsTruthyCStr (val : option bytes) : bool :=
  match val with None => false | Some s => bool_decide (ToLower s ∈ truthy) end.

Definition ParseBool (val : bytes) : bool := bool_decide (ToLower val ∈ truthy).

Definition ParseBoolEnv (env : option bytes) (fallback : bool) : bool :=
  match env with
  | None | Some [] => fallback
  | Some val =>
      if IsTruthyCStr (Some val) then true
      else if bool_decide (ToLower val ∈ [bytes_of "0"; bytes_of "false"; bytes_of "no"; bytes_of "off"])
      then false else fallback
  end.

(** *** Decimal numbers *)

Definition is_space (c : ascii) : bool :=
  let n := nat_of_ascii c in (n =? 32) || ((9 <=? n) && (n <=? 13)).

Definition digit_val (c : ascii) : option Z :=
  let n := nat_of_ascii c in if (48 <=? n) && (n <=? 57) then Some (Z.of_nat (n - 48)) else None.

(** The value of the longest run of digits, and what follows it. *)
Fixpoint scan_digits (s : bytes) (acc : Z) : Z * bytes :=
  match s with
  | c :: s' => match digit_val c with
               | Some d => scan_digits s' (acc * 10 + d)
               | None => (acc, s)
               end
  | [] => (acc, [])
  end.

(** [strtol] in base 10 without the range check: optional white space and sign,
    then digits; [None] when there is no digit. *)
Definition scan_int (s : bytes) : option (Z * bytes) :=
  let s1 := drop_while is_space s in
  let '(neg, s2) := match s1 with
                    | c :: s' => if bool_decide (c = "-"%char) then (true, s')
                                 else if bool_decide (c = "+"%char) then (false, s') else (false, s1)
                    | [] => (false, s1)
                    end in
  match s2 with
  | c :: _ => match digit_val c with
              | Some _ => let '(v, rest) := scan_digits s2 0 in Some (if neg then (- v)%Z else v, rest)
              | None => None
              end
  | [] => None
  end.

(** [std::stoi]; [None] for either exception. *)
Definition stoi (s : bytes) : option Z :=
  match scan_int s with
  | Some (v, _) => if ((- 2 ^ 31 <=? v) && (v <? 2 ^ 31))%Z then Some v else None
  | None => None
  end.

(** [strtol] clamps to [long]. *)
Definition clamp_long (v : Z) : Z := Z.max (- 2 ^ 63) (Z.min (2 ^ 63 - 1) v).

Definition ParseIntEnv (env : option bytes) (default_value min_value max_value : Z) : Z :=
  match env with
  | None | Some [] => default_value
  | Some raw =>
      match scan_int raw with
      | Some (v, []) =>
          let parsed := clamp_long v in
          if ((parsed <? min_value) || (max_value <? parsed))%Z then default_value else i32 parsed
      | _ => default_value
      end
  end.

(** *** Lines and lists *)

Fixpoint split_on (sep : ascii) (s : bytes) : list bytes :=
  match s with
  | [] => [[]]
  | c :: s' => if bool_decide (c = sep) then [] :: split_on sep s'
               else match split_on sep s' with
                    | p :: ps => (c :: p) :: ps
                    | [] => [[c]]
                    end
  end.

(** The items of a [std::getline] loop: an empty last piece is not an item. *)
Definition getlines (sep : ascii) (s : bytes) : list bytes :=
  let ps := split_on sep s in
  match last ps with Some [] => removelast ps | _ => ps end.

Definition SplitCSV (line : bytes) : list bytes :=
  filter (fun x => x <> []) (Trim <$> getlines ","%char line).

Fixpoint JoinCSV (values : list bytes) : bytes :=
  match values with
  | [] => []
  | [v] => v
  | v :: values' => v ++ "," %char :: JoinCSV values'
  end.

(** *** Hexadecimal *)

Definition hex_digit (n : Z) : ascii :=
  if (n <? 10)%Z then chr (48 + Z.to_nat n) else chr (97 + Z.to_nat (n - 10)).

Definition HexEncode (data : list Z) : bytes :=
  flat_map (fun b => [hex_digit (Z.land (Z.shiftr b 4) 15); hex_digit (Z.land b 15)]) data.

Definition hex_val (c : ascii) : option Z :=
  let n := nat_of_ascii c in
  if (48 <=? n) && (n <=? 57) then Some (Z.of_nat (n - 48))
  else if (97 <=? n) && (n <=? 102) then Some (Z.of_nat (n - 97 + 10))
  else None.

(** The pairs; [None] when a character is not a hex digit. *)
Fixpoint hex_pairs (hex : bytes) : option (list Z) :=
  match hex with
  | hi :: lo :: hex' =>
      match hex_val (tolower hi), hex_val (tolower lo) with
      | Some h, Some l => cons (Z.lor (Z.shiftl h 4) l) <$> hex_pairs hex'
      | _, _ => None
      end
  | _ => Some []
  end.

Definition HexDecode (hex : bytes) : list Z :=
  if negb (length hex mod 2 =? 0) then []
  else match hex_pairs hex with Some out => out | None => [] end.

(** ** Facts *)

(** A byte string that [Trim] leaves alone, because its ends are not blank. *)
Definition trimmed (s : bytes) : Prop :=
  match s with
  | [] => True
  | c :: _ => is_trim c = false /\ match last s with Some d => is_trim d = false | None => True end
  end.

#[export] Instance trimmed_dec s : Decision (trimmed s).
Proof. destruct s; simpl; [apply _|]. destruct (last _); apply _. Defined.

Lemma Trim_trimmed s : trimmed s -> Trim s = s.
Proof.
  destruct s as [|c s]; [done|]. intros [Hc Hl]. unfold Trim. cbn [drop_while]. rewrite Hc.
  assert (Hr : exists d l, reverse (c :: s) = d :: l /\ is_trim d = false).
  { destruct (last (c :: s)) as [d|] eqn:E; [|by apply last_None in E].
    apply last_Some in E as [l' El]. rewrite El, reverse_snoc. eauto. }
  destruct Hr as (d & l & E & Hd). rewrite E. cbn [drop_while]. rewrite Hd, <- E.
  apply reverse_involutive.
Qed.

Lemma trimmed_app a c b : trimmed (a ++ [c]) -> a <> [] -> trimmed b -> b <> [] -> trimmed (a ++ c :: b).
Proof.
  destruct a as [|x a]; [done|]. intros [Hx _] _ Hb Hne. split; [done|].
  destruct b as [|y b]; [done|]. destruct Hb as [_ Hb].
  change (c :: y :: b) with ([c] ++ y :: b). rewrite app_assoc, last_app.
  by destruct (last (y :: b)) eqn:E; [|apply last_None in E].
Qed.

(** *** Splitting what was joined *)

Lemma split_on_app sep a s : sep ∉ a -> split_on sep (a ++ sep :: s) = a :: split_on sep s.
Proof.
  induction a as [|c a IH]; intros Hn; simpl.
  - by rewrite bool_decide_eq_true_2.
  - rewrite bool_decide_eq_false_2 by set_solver. by rewrite IH by set_solver.
Qed.

Lemma split_on_none sep a : sep ∉ a -> split_on sep a = [a].
Proof.
  induction a as [|c a IH]; intros Hn; simpl; [done|].
  rewrite bool_decide_eq_false_2 by set_solver. by rewrite IH by set_solver.
Qed.

Lemma split_on_nonempty sep s : split_on sep s <> [].
Proof. destruct s; simpl; [done|]. case_bool_decide; [done|]. by destruct (split_on sep s). Qed.

(** A text made of terminated lines is split into them. *)
Lemma getlines_lines ls :
  Forall (fun l => nl ∉ l) ls -> getlines nl (flat_map (fun l => l ++ [nl]) ls) = ls.
Proof.
  intros Hls.
  assert (E : split_on nl (flat_map (fun l => l ++ [nl]) ls) = ls ++ [[]]).
  { induction Hls as [|l ls Hl _ IH]; [done|]. simpl. rewrite <- app_assoc. simpl.
    by rewrite split_on_app, IH. }
  unfold getlines. rewrite E, last_snoc. apply removelast_last.
Qed.

Definition csv_item (v : bytes) : Prop := v <> [] /\ trimmed v /\ ","%char ∉ v.

Lemma split_join values :
  values <> [] -> Forall csv_item values -> split_on ","%char (JoinCSV values) = values.
Proof.
  intros Hne Hv. induction Hv as [|v values (_ & _ & Hc) Hv IH]; [done|].
  destruct values as [|v' values]; [by apply split_on_none|].
  change (JoinCSV (v :: v' :: values)) with (v ++ ","%char :: JoinCSV (v' :: values)).
  rewrite split_on_app by done. by rewrite IH.
Qed.

Lemma SplitCSV_JoinCSV values : Forall csv_item values -> SplitCSV (JoinCSV values) = values.
Proof.
  intros Hv. destruct values as [|v0 values0] eqn:E0; [done|]. rewrite <- E0 in *.
  unfold SplitCSV, getlines. rewrite split_join by (done || by rewrite E0).
  assert (El : exists l, last values = Some l /\ l <> []).
  { destruct (last values) as [l|] eqn:E; [|apply last_None in E; by rewrite E in E0].
    exists l. split; [done|]. apply last_Some in E as [l' ->].
    by apply Forall_app in Hv as [_ [(Hl & _) _]%Forall_cons]. }
  destruct El as (l & -> & Hl). destruct l as [|c l]; [done|]. clear -Hv.
  induction Hv as [|v values (Hne & Ht & _) _ IH]; [done|]. rewrite fmap_cons, filter_cons.
  rewrite Trim_trimmed by done. rewrite decide_True by done. by rewrite IH.
Qed.

Lemma JoinCSV_trimmed values : Forall csv_item values -> trimmed (JoinCSV values).
Proof.
  intros Hv. induction Hv as [|v values (Hne & Ht & _) Hv IH]; [done|].
  destruct values as [|v' values]; [done|].
  change (JoinCSV (v :: v' :: values)) with (v ++ ","%char :: JoinCSV (v' :: values)).
  apply trimmed_app; try done.
  - destruct v as [|x v]; [done|]. destruct Ht as [Hx _]. split; [done|].
    rewrite <- app_comm_cons. simpl. by rewrite app_comm_cons, last_snoc.
  - inversion_clear Hv as [|?? (Hne' & _) _]. destruct v' as [|y v']; [done|]. by destruct values.
Qed.

Lemma JoinCSV_elem c values : c <> ","%char -> Forall (fun v : bytes => c ∉ v) values -> c ∉ JoinCSV values.
Proof.
  intros Hc Hv. induction Hv as [|v values Hn Hv IH]; [set_solver|].
  destruct values as [|v' values]; [done|].
  change (JoinCSV (v :: v' :: values)) with (v ++ ","%char :: JoinCSV (v' :: values)). set_solver.
Qed.

(** *** Printing and reading integers *)

Lemma bytes_of_String c s : bytes_of (String c s) = c :: bytes_of s.
Proof. done. Qed.

(** A decidable fact about a bounded integer, by evaluating it everywhere. *)
Lemma range_check (P : Z -> Prop) `{forall z, Decision (P z)} (n : nat) z :
  forallb (fun k => bool_decide (P (Z.of_nat k))) (seq 0 n) = true -> (0 <= z < Z.of_nat n)%Z -> P z.
Proof.
  intros Hall Hz. rewrite forallb_forall in Hall. specialize (Hall (Z.to_nat z)).
  rewrite Z2Nat.id in Hall by lia. eapply bool_decide_eq_true, Hall. apply in_seq. lia.
Qed.

Lemma digit_val_char n : (n < 10)%N -> digit_val (pretty_N_char n) = Some (Z.of_N n).
Proof.
  intros Hn. rewrite <- (N2Z.id n) at 1.
  refine (range_check (fun z => digit_val (pretty_N_char (Z.to_N z)) = Some z) 10 (Z.of_N n) _ _);
    [reflexivity|lia].
Qed.

Lemma scan_digits_pretty x s acc :
  exists k, scan_digits (bytes_of (pretty_N_go x s)) acc =
            scan_digits (bytes_of s) (acc * 10 ^ Z.of_nat k + Z.of_N x) /\ (x < 10 ^ N.of_nat k)%N.
Proof.
  revert s acc. induction (N.lt_wf_0 x) as [x _ IH]; intros s acc.
  assert (x = 0 \/ 0 < x)%N as [->|Hx] by lia.
  { exists 0. rewrite pretty_N_go_0. split; [|simpl; lia]. f_equal. simpl. lia. }
  rewrite pretty_N_go_step by done.
  destruct (IH (x `div` 10)%N ltac:(by apply N.div_lt) (String (pretty_N_char (x `mod` 10)) s) acc)
    as (k & E & Hk).
  pose proof (N.mod_lt x 10 ltac:(done)) as Hm. pose proof (N.div_mod x 10 ltac:(done)) as Hd.
  exists (S k). rewrite E, bytes_of_String. cbn [scan_digits]. rewrite digit_val_char by done. split.
  - f_equal. rewrite Nat2Z.inj_succ, Z.pow_succ_r by lia. 
    assert (Z.of_N x = 10 * Z.of_N (x `div` 10) + Z.of_N (x `mod` 10))%Z as -> by lia. ring.
  - rewrite Nat2N.inj_succ, N.pow_succ_r'. lia.
Qed.

Lemma pretty_N_head (n : N) : exists c l, bytes_of (pretty n) = c :: l /\ is_Some (digit_val c).
Proof.
  unfold pretty, pretty_N. case_decide as H; [by eexists _, _|].
  assert (Hgen : forall x s, (0 < x)%N -> exists c l, bytes_of (pretty_N_go x s) = c :: l /\ is_Some (digit_val c)).
  { intros x. induction (N.lt_wf_0 x) as [x _ IH]. intros s Hx. rewrite pretty_N_go_step by done.
    pose proof (N.mod_lt x 10 ltac:(done)) as Hm.
    destruct (N.eq_0_gt_0_cases (x `div` 10)) as [E|Hp].
    - rewrite E, pretty_N_go_0, bytes_of_String. eexists _, _. split; [done|].
      by rewrite digit_val_char by done.
    - apply IH; [by apply N.div_lt|done]. }
  apply Hgen. lia.
Qed.

Lemma scan_digits_N (n : N) : scan_digits (bytes_of (pretty n)) 0 = (Z.of_N n, []).
Proof.
  unfold pretty, pretty_N. case_decide as H; [by subst|].
  destruct (scan_digits_pretty n "" 0) as (k & E & _). rewrite E. simpl. f_equal; lia.
Qed.

Lemma digit_not_special c : is_Some (digit_val c) -> is_space c = false /\ c <> "-"%char /\ c <> "+"%char.
Proof.
  unfold digit_val, is_space. destruct (_ && _) eqn:E; [|by intros []]. intros _.
  apply andb_true_iff in E as [E1 E2]. apply Nat.leb_le in E1, E2. split_and!.
  - apply orb_false_iff. split; [apply Nat.eqb_neq; lia|]. apply andb_false_iff. right. apply Nat.leb_gt. lia.
  - intros ->. vm_compute in E1. lia.
  - intros ->. vm_compute in E1. lia.
Qed.

Lemma scan_int_pretty (z : Z) : scan_int (bytes_of (pretty z)) = Some (z, []).
Proof.
  assert (HN : forall (n : N) (neg : bool), match bytes_of (pretty n) with
    | c :: _ => match digit_val c with
                | Some _ => let '(v, rest) := scan_digits (bytes_of (pretty n)) 0 in
                            Some (if neg then (- v)%Z else v, rest)
                | None => None end
    | [] => None end = Some (if neg then (- Z.of_N n)%Z else Z.of_N n, [])).
  { intros n neg. destruct (pretty_N_head n) as (c & l & E & [d Hd]).
    pose proof (scan_digits_N n) as Hs. rewrite E in *. by rewrite Hd, Hs. }
  unfold scan_int. destruct z as [|p|p].
  - reflexivity.
  - change (pretty (Z.pos p)) with (pretty (N.pos p)).
    pose proof (HN (N.pos p) false) as H. destruct (pretty_N_head (N.pos p)) as (c & l & E & Hd).
    rewrite E in *. destruct (digit_not_special c Hd) as (H1 & H2 & H3). cbn [drop_while]. rewrite H1.
    rewrite !bool_decide_eq_false_2 by done. exact H.
  - change (bytes_of (pretty (Z.neg p))) with ("-"%char :: bytes_of (pretty (N.pos p))).
    cbn [drop_while]. change (is_space "-") with false. cbv iota. rewrite bool_decide_eq_true_2 by done.
    apply (HN (N.pos p) true).
Qed.

(** What a printed integer is made of. *)
Lemma pretty_chars (z : Z) : Forall (fun c => is_Some (digit_val c) \/ c = "-"%char) (bytes_of (pretty z)).
Proof.
  set (Q := fun c => is_Some (digit_val c) \/ c = "-"%char).
  assert (Hgo : forall x s, Forall Q (bytes_of s) -> Forall Q (bytes_of (pretty_N_go x s))).
  { intros x. induction (N.lt_wf_0 x) as [x _ IH]. intros s Hs.
    destruct (N.eq_0_gt_0_cases x) as [->|Hx]; [by rewrite pretty_N_go_0|].
    rewrite pretty_N_go_step by done. apply IH; [by apply N.div_lt|]. rewrite bytes_of_String.
    constructor; [|done]. left. rewrite digit_val_char by (by apply N.mod_lt). done. }
  assert (HN : forall n : N, Forall Q (bytes_of (pretty n))).
  { intros n. unfold pretty, pretty_N. case_decide; [|by apply Hgo].
    constructor; [by left|constructor]. }
  destruct z as [|p|p].
  - constructor; [by left|constructor].
  - apply (HN (N.pos p)).
  - change (bytes_of (pretty (Z.neg p))) with ("-"%char :: bytes_of (pretty (N.pos p))).
    constructor; [by right|apply HN].
Qed.

Lemma pretty_clean (z : Z) c : c ∈ bytes_of (pretty z) -> is_trim c = false /\ c <> nl.
Proof.
  intros Hc. pose proof (pretty_chars z) as HF. rewrite Forall_forall in HF.
  assert (Ht : is_trim c = false).
  { destruct (HF c Hc) as [Hd| ->]; [|done]. destruct (digit_not_special c Hd) as (Hs & _).
    unfold is_trim. apply bool_decide_eq_false_2. intros Hin. revert Hs.
    unfold trim_set in Hin. repeat (apply elem_of_cons in Hin as [->|Hin]; [done|]). by apply not_elem_of_nil in Hin. }
  split; [done|]. by intros ->.
Qed.

(** A text without blanks needs no trimming. *)
Lemma clean_trimmed s : (forall c, c ∈ s -> is_trim c = false) -> trimmed s.
Proof.
  intros H. destruct s as [|c l]; [done|]. split; [apply H; left|].
  destruct (last (c :: l)) as [d|] eqn:El; [|done]. by apply H, last_Some_elem_of.
Qed.

Lemma stoi_pretty (z : Z) : (- 2 ^ 31 <= z < 2 ^ 31)%Z -> stoi (bytes_of (pretty z)) = Some z.
Proof.
  intros Hz. unfold stoi. rewrite scan_int_pretty.
  by rewrite (proj2 (Z.leb_le _ _)), (proj2 (Z.ltb_lt _ _)) by lia.
Qed.

(** *** Hexadecimal is faithful *)

Definition is_byte (b : Z) : Prop := (0 <= b < 256)%Z.

Lemma hex_val_digit n : (0 <= n < 16)%Z -> hex_val (tolower (hex_digit n)) = Some n.
Proof. apply (range_check (fun n => hex_val (tolower (hex_digit n)) = Some n) 16). reflexivity. Qed.

Lemma nibbles b : is_byte b -> Z.lor (Z.shiftl (Z.land (Z.shiftr b 4) 15) 4) (Z.land b 15) = b.
Proof.
  apply (range_check (fun b => Z.lor (Z.shiftl (Z.land (Z.shiftr b 4) 15) 4) (Z.land b 15) = b) 256).
  vm_compute. reflexivity.
Qed.

Lemma nibble_range x : (0 <= Z.land x 15 < 16)%Z.
Proof. change 15%Z with (Z.ones 4). rewrite Z.land_ones by lia. apply Z.mod_pos_bound. lia. Qed.

Lemma HexDecode_HexEncode data : Forall is_byte data -> HexDecode (HexEncode data) = data.
Proof.
  intros Hd. assert (Hp : hex_pairs (HexEncode data) = Some data).
  { induction Hd as [|b data Hb _ IH]; [done|]. cbn [HexEncode flat_map app hex_pairs].
    rewrite !hex_val_digit by apply nibble_range. rewrite nibbles by done.
    unfold HexEncode in IH. by rewrite IH. }
  assert (Hl : length (HexEncode data) = 2 * length data).
  { clear. induction data as [|b data IH]; [done|]. cbn [HexEncode flat_map app length].
    unfold HexEncode in IH. rewrite IH. simpl. lia. }
  unfold HexDecode. rewrite Hp, Hl.
  replace (2 * length data) with (0 + length data * 2) by lia. by rewrite Nat.Div0.mod_add.
Qed.

(** A hex text holds hexadecimal digits only. *)
Lemma HexEncode_chars data c : c ∈ HexEncode data -> exists n, (0 <= n < 16)%Z /\ c = hex_digit n.
Proof.
  intros Hc. apply list_elem_of_In, in_flat_map in Hc as (b & _ & [<-|[<-|[]]]);
    eexists; (split; [apply nibble_range|done]).
Qed.

Lemma HexEncode_clean data c :
  c ∈ HexEncode data -> is_trim c = false /\ c <> "="%char /\ c <> "#"%char /\ c <> "["%char /\ c <> nl.
Proof.
  intros (n & Hn & ->)%HexEncode_chars.
  refine (range_check (fun n => let c := hex_digit n in
    is_trim c = false /\ c <> "="%char /\ c <> "#"%char /\ c <> "["%char /\ c <> nl) 16 n _ Hn). reflexivity.
Qed.

Lemma HexEncode_trimmed data : trimmed (HexEncode data).
Proof. apply clean_trimmed. intros c Hc. by apply (HexEncode_clean data). Qed.

Lemma lower_lower s : ToLower (ToLower s) = ToLower s.
Proof.
  unfold ToLower. rewrite <- list_fmap_compose. apply list_fmap_ext. intros i c _. cbn. unfold tolower.
  destruct ((65 <=? nat_of_ascii c) && (nat_of_ascii c <=? 90)) eqn:E; [|by rewrite E].
  apply andb_prop in E as [E1%Nat.leb_le E2%Nat.leb_le]. rewrite nat_ascii_embedding by lia.
  rewrite (proj2 (Nat.leb_gt (nat_of_ascii c + 32) 90)) by lia. by rewrite andb_false_r.
Qed.
