(* ===== verification/Json.v ===== *)
(** * The JSON values that requests, policies, tokens and key sets are read from

    The values of [nlohmann::json] that the components look at, with the
    library's three kinds of number.  The parser is the library's: it is a
    parameter of the functions that call it. *)

From stdpp Require Import base tactics numbers list strings.
From Stdlib Require Import Ascii.
From S2P Require Import Prelude.

Inductive json :=
  | JNull
  | JBool (b : bool)
  | JInteger (z : Z)
  | JUnsigned (z : Z)
  | JFloat (literal : bytes)
  | JString (s : bytes)
  | JArray (l : list json)
  | JObject (fields : list (bytes * json)).

Fixpoint assoc (k : bytes) (fields : list (bytes * json)) : option json :=
  match fields with
  | [] => None
  | (k', v) :: fields' => if bool_decide (k = k') then Some v else assoc k fields'
  end.

(** [j.contains(k)] is false for what is not an object. *)
Definition get (k : string) (j : json) : option json :=
  match j with JObject fields => assoc (bytes_of k) fields | _ => None end.

(** [j.contains(k) && j[k].is_string()], then the string. *)
Definition get_string (k : string) (j : json) : option bytes :=
  match get k j with Some (JString s) => Some s | _ => None end.

Lemma get_string_Some k j s : get_string k j = Some s <-> get k j = Some (JString s).
Proof. unfold get_string. destruct (get k j) as [[]|]; naive_solver. Qed.
