(* ===== verification/AccessControl.v ===== *)
(** * server/auth/api_key_auth, policy/opa_client and server/policy/guardrail

    Who may call the server, and which prompts it refuses.  SHA-256, the JSON
    parser and the outcome of the HTTP exchange and of the file read are
    parameters; the decisions taken on them are the code's. *)

From stdpp Require Import base tactics numbers list strings pretty sets gmap.
From Stdlib Require Import Ascii.
From S2P Require Import Prelude StringUtils Json.

(** ** ApiKeyAuth *)
Module ApiKeyAuth.
Section with_sha.
(** [SHA256], 32 bytes. *)
Context (sha256 : bytes -> list Z).

(** [keys_]: scopes by the hash of the key. *)
Abbreviation t := (gmap bytes (gset bytes)).

Definition MakeScopes (scopes : list bytes) : gset bytes :=
  match scopes with
  | [] => {[ bytes_of "generate"; bytes_of "read" ]}
  | _ => list_to_set (filter (fun s => s <> []) scopes)
  end.

(** Two lower-case hexadecimal digits a byte. *)
Definition HashKey (key : bytes) : bytes := HexEncode (sha256 key).

Definition SubjectFromHash (hash : bytes) : bytes := bytes_of "api-key:" ++ hash.

Definition AddKeyHashed (hash : bytes) (scopes : list bytes) (keys : t) : t :=
  let s := MakeScopes scopes in
  <[hash := if bool_decide (bytes_of "read" ∈ s) then s else {[ bytes_of "read" ]} ∪ s]> keys.

Definition AddKey (key : bytes) (scopes : list bytes) (keys : t) : t :=
  AddKeyHashed (HashKey key) scopes keys.

Definition IsAllowedByHash (hash : bytes) (keys : t) : bool := bool_decide (is_Some (keys !! hash)).

Definition IsAllowed (key : bytes) (keys : t) : bool := IsAllowedByHash (HashKey key) keys.

Definition HasKeys (keys : t) : bool := bool_decide (keys <> ∅).

(** The order of the vector is that of an [unordered_set]: any. *)
Definition ScopesByHash (hash : bytes) (keys : t) : list bytes :=
  match keys !! hash with None => [] | Some s => elements s end.

Definition Scopes (key : bytes) (keys : t) : list bytes := ScopesByHash (HashKey key) keys.

Definition RemoveKey (key : bytes) (keys : t) : t := delete (HashKey key) keys.

End with_sha.

Lemma AddKeyHashed_lookup h scopes keys h' :
  AddKeyHashed h scopes keys !! h' =
  if decide (h = h') then Some ({[ bytes_of "read" ]} ∪ MakeScopes scopes) else keys !! h'.
Proof.
  unfold AddKeyHashed. rewrite lookup_insert. case_decide; [|done]. f_equal.
  case_bool_decide; [|done]. set_solver.
Qed.

Lemma MakeScopes_elem scopes s :
  s ∈ MakeScopes scopes <->
  (scopes = [] /\ (s = bytes_of "generate" \/ s = bytes_of "read")) \/ (s ∈ scopes /\ s <> []).
Proof.
  destruct scopes as [|x l]; unfold MakeScopes; [set_solver|].
  rewrite elem_of_list_to_set, list_elem_of_filter. naive_solver.
Qed.
End ApiKeyAuth.

(** ** OPAClient *)
Module OPA.
Record OPAResult := { allow : bool; reason : bytes }.

(** The [allow] and [reason] members of [j], when they have the right type. *)
Definition read_verdict (j : json) (result : OPAResult) : OPAResult :=
  {| allow := match get "allow" j with Some (JBool b) => b | _ => allow result end;
     reason := match get "reason" j with Some (JString s) => s | _ => reason result end |}.

Section with_io.
(** [json::parse]; the left side is [ex.what()]. *)
Context (parse : bytes -> bytes + json).
(** [None]: the file does not exist; [Some None]: it cannot be opened. *)
Context (read_file : bytes -> option (option bytes)).
(** [HttpClient::Post] of the prompt's payload to the endpoint: the [what()] of
    the exception, or status and body. *)
Context (post : bytes -> bytes -> bytes + Z * bytes).

Definition ParseOPAResponse (body : bytes) (result : OPAResult) : OPAResult :=
  match parse body with
  | inl what =>
      if bool_decide (reason result = [])
      then {| allow := allow result; reason := bytes_of "OPA parse failure: " ++ what |} else result
  | inr j =>
      let result := read_verdict j result in
      match get "result" j with
      | Some (JObject fields) => read_verdict (JObject fields) result
      | _ => result
      end
  end.

Definition file_scheme : bytes := bytes_of "file://".
Definition http_scheme : bytes := bytes_of "http://".

(** The returned flag, and [*result]. *)
Definition Evaluate (endpoint prompt : bytes) : bool * OPAResult :=
  let start := {| allow := true; reason := [] |} in
  let say (r : bytes) := {| allow := true; reason := r |} in
  if bool_decide (endpoint = []) then (true, start)
  else if starts_with file_scheme endpoint then
    match read_file (drop (length file_scheme) endpoint) with
    | None => (true, say (bytes_of "OPA file not found"))
    | Some None => (true, say (bytes_of "OPA file unreadable"))
    | Some (Some body) =>
        let r := ParseOPAResponse body start in
        let r := if negb (allow r) && bool_decide (reason r = [])
                 then {| allow := allow r; reason := bytes_of "OPA policy denied prompt" |} else r in
        (allow r, r)
    end
  else if starts_with http_scheme endpoint then
    match post endpoint prompt with
    | inr (status, body) =>
        if ((200 <=? status) && (status <? 300))%Z
        then let r := ParseOPAResponse body start in (allow r, r)
        else (true, say (bytes_of "OPA HTTP error: " ++ bytes_of (pretty status)))
    | inl what => (true, say what)
    end
  else (true, say (bytes_of "OPA endpoint configured")).

(** An explicit denial: the answer parses and its effective [allow] is false. *)
Definition denies (body : bytes) : Prop :=
  exists j, parse body = inr j /\
    match get "result" j with
    | Some (JObject fields) =>
        match assoc (bytes_of "allow") fields with
        | Some (JBool b) => b = false
        | _ => get "allow" j = Some (JBool false)
        end
    | _ => get "allow" j = Some (JBool false)
    end.

Lemma ParseOPAResponse_denies body r :
  allow r = true -> allow (ParseOPAResponse body r) = false <-> denies body.
Proof.
  intros Hr. unfold ParseOPAResponse, denies. destruct (parse body) as [what|j].
  - split; [case_bool_decide; simpl; congruence|naive_solver].
  - assert (E : allow (read_verdict j r) = false <-> get "allow" j = Some (JBool false)).
    { unfold read_verdict. simpl. rewrite Hr. destruct (get "allow" j) as [[]|]; naive_solver. }
    transitivity (match get "result" j with
      | Some (JObject fields) => match assoc (bytes_of "allow") fields with
        | Some (JBool b) => b = false | _ => get "allow" j = Some (JBool false) end
      | _ => get "allow" j = Some (JBool false) end); [|naive_solver].
    destruct (get "result" j) as [[| | | | | | |fields]|]; try exact E.
    unfold read_verdict at 1. cbn [allow get]. by destruct (assoc _ fields) as [[]|].
Qed.

(** The policy server denies the prompt: a readable file, or a 2xx answer. *)
Definition opa_denies (endpoint prompt : bytes) : Prop :=
  if bool_decide (endpoint = []) then False
  else if starts_with file_scheme endpoint then
    exists body, read_file (drop (length file_scheme) endpoint) = Some (Some body) /\ denies body
  else if starts_with http_scheme endpoint then
    exists status body, post endpoint prompt = inr (status, body) /\ (200 <= status < 300)%Z /\ denies body
  else False.

(** Every failure of the exchange leaves the prompt allowed; only an explicit
    denial refuses it, and the returned flag is the verdict. *)
Lemma Evaluate_verdict endpoint prompt :
  (allow (Evaluate endpoint prompt).2 = false <-> opa_denies endpoint prompt) /\
  (Evaluate endpoint prompt).1 = allow (Evaluate endpoint prompt).2.
Proof.
  unfold Evaluate, opa_denies. case_bool_decide; [naive_solver|].
  destruct (starts_with file_scheme endpoint).
  { destruct (read_file _) as [[body|]|]; [|naive_solver..].
    pose proof (ParseOPAResponse_denies body {| allow := true; reason := [] |} eq_refl) as HP.
    destruct (ParseOPAResponse body _) as [a rr]. simpl in *.
    destruct (negb a && bool_decide (rr = [])); simpl; rewrite HP; naive_solver. }
  destruct (starts_with http_scheme endpoint); [|naive_solver].
  destruct (post endpoint prompt) as [what|[status body]]; [naive_solver|].
  pose proof (ParseOPAResponse_denies body {| allow := true; reason := [] |} eq_refl) as HP.
  destruct (_ && _)%Z eqn:E; simpl.
  - rewrite HP. split; [|done]. split; [|naive_solver]. intros. exists status, body. split_and!; lia || done.
  - split; [|done]. split; [done|]. intros (s & b & Heq & Hs & _). simplify_eq. lia.
Qed.
End with_io.
End OPA.

(** ** Guardrail *)
Module Guardrail.
Section with_io.
Context (parse : bytes -> bytes + json) (read_file : bytes -> option (option bytes)).
Context (post : bytes -> bytes -> bytes + Z * bytes).

(** [opa_client_] is always [OPAClient(opa_endpoint_)]. *)
Record Guardrail := { blocklist : list bytes; opa_endpoint : bytes }.

Definition fresh : Guardrail := {| blocklist := []; opa_endpoint := [] |}.

Definition NormalizeWords (words : list bytes) : list bytes :=
  filter (fun w => w <> []) (ToLower <$> words).

Definition UpdateBlocklist (words : list bytes) (g : Guardrail) : Guardrail :=
  {| blocklist := NormalizeWords words; opa_endpoint := opa_endpoint g |}.

Definition SetBlocklist (words : list bytes) (g : Guardrail) : Guardrail := UpdateBlocklist words g.

Definition SetOPAEndpoint (endpoint : bytes) (g : Guardrail) : Guardrail :=
  {| blocklist := blocklist g; opa_endpoint := endpoint |}.

Definition Enabled (g : Guardrail) : bool :=
  bool_decide (blocklist g <> []) || bool_decide (opa_endpoint g <> []).

(** The first word of the list that the text holds. *)
Fixpoint first_blocked (lower : bytes) (words : list bytes) : option bytes :=
  match words with
  | [] => None
  | w :: words' =>
      if bool_decide (w = []) then first_blocked lower words'
      else match find_sub w lower with
           | Some _ => Some w
           | None => first_blocked lower words'
           end
  end.

(** [None] when the text is allowed; the refusal's reason otherwise. *)
Definition Check_text (text : bytes) (g : Guardrail) : option bytes :=
  match (if bool_decide (blocklist g <> []) then first_blocked (ToLower text) (blocklist g) else None) with
  | Some word => Some (bytes_of "Blocked content keyword: " ++ word)
  | None =>
      if bool_decide (opa_endpoint g <> [])
      then let r := (OPA.Evaluate parse read_file post (opa_endpoint g) text).2 in
           if OPA.allow r then None
           else Some (if bool_decide (OPA.reason r = []) then bytes_of "OPA denied prompt" else OPA.reason r)
      else None
  end.

Lemma first_blocked_None lower words :
  first_blocked lower words = None <-> forall w, w ∈ words -> w <> [] -> find_sub w lower = None.
Proof.
  induction words as [|w words IH]; simpl; [set_solver|].
  case_bool_decide as Hw; [rewrite IH; set_solver|].
  destruct (find_sub w lower) eqn:E; [|rewrite IH; set_solver].
  split; [done|]. intros H. specialize (H w ltac:(left) Hw). congruence.
Qed.

Lemma NormalizeWords_elem words w :
  w ∈ NormalizeWords words <-> w <> [] /\ exists v, v ∈ words /\ w = ToLower v.
Proof. unfold NormalizeWords. rewrite list_elem_of_filter, list_elem_of_fmap. naive_solver. Qed.

(** Once a block list is set, a prompt is refused exactly when one of its
    non-empty words occurs in the prompt, letter case aside, or the policy server
    explicitly denies it.  Any failure to reach, read or parse the policy leaves
    the prompt allowed: the check is fail-open, as its comment says. *)
Theorem guardrail_verdict words text g :
  Check_text text (UpdateBlocklist words g) <> None <->
  (exists w, w ∈ words /\ w <> [] /\ exists pre post', ToLower text = pre ++ ToLower w ++ post') \/
  OPA.opa_denies parse read_file post (opa_endpoint g) text.
Proof.
  unfold Check_text. cbn [UpdateBlocklist blocklist opa_endpoint].
  destruct (OPA.Evaluate_verdict parse read_file post (opa_endpoint g) text) as [HO _].
  assert (Hend : opa_endpoint g = [] -> ~ OPA.opa_denies parse read_file post (opa_endpoint g) text)
    by (intros -> Hd; unfold OPA.opa_denies in Hd; by rewrite bool_decide_eq_true_2 in Hd).
  set (hit := if bool_decide (NormalizeWords words <> []) then _ else None).
  assert (Hhit : hit = None <-> forall w, w ∈ words -> w <> [] -> find_sub (ToLower w) (ToLower text) = None).
  { assert (Hh : hit = first_blocked (ToLower text) (NormalizeWords words)).
    { unfold hit. case_bool_decide as Hb; [done|]. by rewrite Hb. }
    rewrite Hh, first_blocked_None. split; intros H w Hw Hne.
    - assert (ToLower w <> []) by by destruct w. apply H; [|done]. apply NormalizeWords_elem. eauto.
    - apply NormalizeWords_elem in Hw as (_ & v & Hv & ->). apply H; [done|]. by destruct v. }
  destruct hit as [word|].
  - split; [intros _; left|naive_solver]. destruct (decide (Exists (fun w => w <> [] /\
      find_sub (ToLower w) (ToLower text) <> None) words)) as [HE|HE].
    + apply Exists_exists in HE as (w & Hw & Hne & Hf). exists w. split_and!; [done..|].
      destruct (find_sub (ToLower w) (ToLower text)) as [i|] eqn:E; [|done].
      apply find_sub_split in E as [E _]. eauto.
    + exfalso. assert (Some word = None) as Hc; [|done]. apply Hhit. intros w Hw Hne.
      apply dec_stable. intros Hf. apply HE, Exists_exists. eauto.
  - assert (Hno : ~ exists w, w ∈ words /\ w <> [] /\ exists pre post', ToLower text = pre ++ ToLower w ++ post').
    { intros (w & Hw & Hne & pre & post' & E). pose proof (proj1 Hhit eq_refl w Hw Hne) as Hf.
      pose proof (find_sub_None _ _ Hf (length pre)) as Hs. rewrite E, drop_app_length in Hs.
      assert (starts_with (ToLower w) (ToLower w ++ post') = true) by (apply starts_with_spec; eauto). congruence. }
    case_bool_decide as He.
    + destruct (OPA.allow _) eqn:Ea; naive_solver.
    + naive_solver.
Qed.
End with_io.
End Guardrail.
