(* ===== verification/PolicyStore.v ===== *)
(** * policy/policy_store: the policy file

    The INI text of [Save], the line parser of [Load], the encrypted container
    around it, and the sequence of file operations with its backup.  AES-256-GCM,
    SHA-256 and the random nonce are parameters; the order in which the
    [unordered_map] of keys is written is a parameter too.  The file system is a
    map from paths to contents, and the outcome of each call that may fail is an
    argument of [Save]. *)

From stdpp Require Import base tactics numbers list strings pretty sets gmap.
From Stdlib Require Import Ascii.
From S2P Require Import Prelude StringUtils AccessControl.

Record RoutingPolicyEntry := {
  allow_default_fallback : bool;
  require_ready_backend : bool;
  fallback_scope : bytes }.

Definition default_routing : RoutingPolicyEntry :=
  {| allow_default_fallback := true; require_ready_backend := false;
     fallback_scope := bytes_of "any_compatible" |}.

(** What the file holds. *)
Record policy := {
  api_keys : gmap bytes (list bytes);
  guardrail_blocklist : list bytes;
  rate_limit_per_minute : Z;
  routing_policy : option RoutingPolicyEntry }.

Definition empty_policy : policy :=
  {| api_keys := ∅; guardrail_blocklist := []; rate_limit_per_minute := 0; routing_policy := None |}.

(** The bool of the value and whether it was one. *)
Definition ParseBoolValue (value : bytes) : option bool :=
  let lowered := ToLower value in
  if bool_decide (lowered ∈ [bytes_of "true"; bytes_of "1"; bytes_of "yes"]) then Some true
  else if bool_decide (lowered ∈ [bytes_of "false"; bytes_of "0"; bytes_of "no"]) then Some false
  else None.

(** ** The parser of [Load] *)

(** The text before and after the first ['=']. *)
Fixpoint split_eq (line : bytes) : option (bytes * bytes) :=
  match line with
  | [] => None
  | c :: line' => if bool_decide (c = "="%char) then Some ([], line')
                  else '(k, v) ← split_eq line'; Some (c :: k, v)
  end.

Record parser := {
  section : bytes;
  loaded_api_keys : gmap bytes (list bytes);
  loaded_guardrail : list bytes;
  loaded_rate_limit : Z;
  parsed_routing_policy : RoutingPolicyEntry;
  has_routing_policy : bool }.

Definition parser_start : parser :=
  {| section := []; loaded_api_keys := ∅; loaded_guardrail := []; loaded_rate_limit := 0;
     parsed_routing_policy := default_routing; has_routing_policy := false |}.

Definition set_section (s : bytes) (p : parser) : parser :=
  {| section := s; loaded_api_keys := loaded_api_keys p; loaded_guardrail := loaded_guardrail p;
     loaded_rate_limit := loaded_rate_limit p; parsed_routing_policy := parsed_routing_policy p;
     has_routing_policy := has_routing_policy p |}.

Definition add_key (k : bytes) (scopes : list bytes) (p : parser) : parser :=
  {| section := section p; loaded_api_keys := <[k := scopes]> (loaded_api_keys p);
     loaded_guardrail := loaded_guardrail p; loaded_rate_limit := loaded_rate_limit p;
     parsed_routing_policy := parsed_routing_policy p; has_routing_policy := has_routing_policy p |}.

Definition set_words (ws : list bytes) (p : parser) : parser :=
  {| section := section p; loaded_api_keys := loaded_api_keys p; loaded_guardrail := ws;
     loaded_rate_limit := loaded_rate_limit p; parsed_routing_policy := parsed_routing_policy p;
     has_routing_policy := has_routing_policy p |}.

Definition set_limit (n : Z) (p : parser) : parser :=
  {| section := section p; loaded_api_keys := loaded_api_keys p; loaded_guardrail := loaded_guardrail p;
     loaded_rate_limit := n; parsed_routing_policy := parsed_routing_policy p;
     has_routing_policy := has_routing_policy p |}.

Definition set_routing (r : RoutingPolicyEntry) (p : parser) : parser :=
  {| section := section p; loaded_api_keys := loaded_api_keys p; loaded_guardrail := loaded_guardrail p;
     loaded_rate_limit := loaded_rate_limit p; parsed_routing_policy := r; has_routing_policy := true |}.

(** The chain of [else if]s on a [key=value] line. *)
Definition assign (key value : bytes) (p : parser) : parser :=
  let s := section p in
  let r := parsed_routing_policy p in
  if bool_decide (s = bytes_of "api_keys") then add_key key (SplitCSV value) p
  else if bool_decide (s = bytes_of "guardrail") && bool_decide (key = bytes_of "words")
  then set_words (SplitCSV value) p
  else if bool_decide (s = bytes_of "rate_limit") && bool_decide (key = bytes_of "tokens")
  then set_limit (default 0%Z (stoi value)) p
  else if bool_decide (s = bytes_of "routing") && bool_decide (key = bytes_of "allow_default_fallback")
  then set_routing {| allow_default_fallback := default (allow_default_fallback r) (ParseBoolValue value);
                      require_ready_backend := require_ready_backend r;
                      fallback_scope := fallback_scope r |} p
  else if bool_decide (s = bytes_of "routing") && bool_decide (key = bytes_of "require_ready_backend")
  then set_routing {| allow_default_fallback := allow_default_fallback r;
                      require_ready_backend := default (require_ready_backend r) (ParseBoolValue value);
                      fallback_scope := fallback_scope r |} p
  else if bool_decide (s = bytes_of "routing") && bool_decide (key = bytes_of "fallback_scope")
  then set_routing {| allow_default_fallback := allow_default_fallback r;
                      require_ready_backend := require_ready_backend r;
                      fallback_scope := if bool_decide (value = []) then fallback_scope r else value |} p
  else p.

(** One turn of the [getline] loop. *)
Definition parse_line (p : parser) (raw : bytes) : parser :=
  match Trim raw with
  | [] => p
  | (c :: rest) as line =>
      if bool_decide (c = "#"%char) then p
      else if bool_decide (c = "["%char) && bool_decide (last line = Some "]"%char)
      then set_section (removelast rest) p
      else match split_eq line with
           | None => p
           | Some (k, v) => assign (Trim k) (Trim v) p
           end
  end.

Definition parse_text (plaintext : bytes) : policy :=
  let p := foldl parse_line parser_start (getlines nl plaintext) in
  {| api_keys := loaded_api_keys p; guardrail_blocklist := loaded_guardrail p;
     rate_limit_per_minute := loaded_rate_limit p;
     routing_policy := if has_routing_policy p then Some (parsed_routing_policy p) else None |}.

(** ** The text of [Save] *)

Definition line_of (s : string) : bytes := bytes_of s ++ [nl].

Definition bool_text (b : bool) : bytes := bytes_of (if b then "true" else "false").

Definition text_head (entries : list (bytes * list bytes)) (c : policy) : bytes :=
  line_of "[api_keys]"
  ++ flat_map (fun e => e.1 ++ "="%char :: JoinCSV e.2 ++ [nl]) entries
  ++ nl :: line_of "[guardrail]"
  ++ bytes_of "words=" ++ JoinCSV (guardrail_blocklist c) ++ [nl]
  ++ nl :: line_of "[rate_limit]"
  ++ bytes_of "tokens=" ++ bytes_of (pretty (rate_limit_per_minute c)) ++ [nl].

Definition text_routing (r : RoutingPolicyEntry) : bytes :=
  nl :: line_of "[routing]"
  ++ bytes_of "allow_default_fallback=" ++ bool_text (allow_default_fallback r) ++ [nl]
  ++ bytes_of "require_ready_backend=" ++ bool_text (require_ready_backend r) ++ [nl]
  ++ bytes_of "fallback_scope=" ++ fallback_scope r ++ [nl].

(** The whole text, given the order in which the map of keys is walked. *)
Definition policy_text (entries : list (bytes * list bytes)) (c : policy) : bytes :=
  text_head entries c ++ match routing_policy c with Some r => text_routing r | None => [] end.

(** ** The text reads back as the policy *)

Definition one_line (s : bytes) : Prop := nl ∉ s.

(** A key the format can hold; the hexadecimal hashes are such keys. *)
Definition key_ok (k : bytes) : Prop :=
  trimmed k /\ "="%char ∉ k /\ one_line k /\
  match k with [] => False | c :: _ => c <> "#"%char /\ c <> "["%char end.

Definition items_ok (vs : list bytes) : Prop := Forall csv_item vs /\ Forall one_line vs.

Definition routing_ok (r : RoutingPolicyEntry) : Prop :=
  fallback_scope r <> [] /\ trimmed (fallback_scope r) /\ one_line (fallback_scope r).

Definition policy_ok (c : policy) : Prop :=
  map_Forall (fun k vs => key_ok k /\ items_ok vs) (api_keys c) /\
  items_ok (guardrail_blocklist c) /\
  (- 2 ^ 31 <= rate_limit_per_minute c < 2 ^ 31)%Z /\
  match routing_policy c with Some r => routing_ok r | None => True end.

Lemma split_eq_app k v : "="%char ∉ k -> split_eq (k ++ "="%char :: v) = Some (k, v).
Proof.
  induction k as [|c k IH]; intros Hn; [done|]; cbn [app split_eq].
  rewrite bool_decide_eq_false_2 by set_solver. by rewrite IH by set_solver.
Qed.

Lemma trimmed_snoc k c : trimmed k -> k <> [] -> is_trim c = false -> trimmed (k ++ [c]).
Proof.
  destruct k as [|x k]; [done|]. intros [Hx _] _ Hc. split; [done|].
  by rewrite last_snoc.
Qed.

Lemma trimmed_kv k v : key_ok k -> trimmed v -> trimmed (k ++ "="%char :: v).
Proof.
  intros (Ht & _ & _ & Hk) Hv. assert (k <> []) by by destruct k.
  assert (trimmed (k ++ ["="%char])) by by apply trimmed_snoc.
  destruct v as [|y v]; [done|]. by apply trimmed_app.
Qed.

Lemma parse_kv p k v : key_ok k -> trimmed v -> parse_line p (k ++ "="%char :: v) = assign k v p.
Proof.
  intros Hk Hv. unfold parse_line. rewrite Trim_trimmed by by apply trimmed_kv.
  destruct Hk as (Ht & Heq & _ & Hc). destruct k as [|c k]; [done|]. destruct Hc as [H1 H2].
  rewrite <- app_comm_cons. rewrite !bool_decide_eq_false_2 by done. rewrite app_comm_cons. simpl andb.
  rewrite split_eq_app by done. by rewrite !Trim_trimmed.
Qed.

Definition kv_line (k v : bytes) : bytes := k ++ "="%char :: v.

Definition head_lines (entries : list (bytes * list bytes)) (c : policy) : list bytes :=
  [bytes_of "[api_keys]"] ++ ((fun e => kv_line e.1 (JoinCSV e.2)) <$> entries) ++
  [[]; bytes_of "[guardrail]"; kv_line (bytes_of "words") (JoinCSV (guardrail_blocklist c));
   []; bytes_of "[rate_limit]"; kv_line (bytes_of "tokens") (bytes_of (pretty (rate_limit_per_minute c)))].

Definition routing_lines (r : option RoutingPolicyEntry) : list bytes :=
  match r with
  | None => []
  | Some r =>
      [[]; bytes_of "[routing]";
       kv_line (bytes_of "allow_default_fallback") (bool_text (allow_default_fallback r));
       kv_line (bytes_of "require_ready_backend") (bool_text (require_ready_backend r));
       kv_line (bytes_of "fallback_scope") (fallback_scope r)]
  end.

Abbreviation join_lines := (flat_map (fun l : bytes => l ++ [nl])).

Lemma policy_text_lines entries c :
  policy_text entries c = join_lines (head_lines entries c ++ routing_lines (routing_policy c)).
Proof.
  unfold policy_text. rewrite flat_map_app. f_equal.
  - unfold text_head, head_lines, line_of, kv_line. rewrite !flat_map_app.
    assert (He : flat_map (fun e : bytes * list bytes => e.1 ++ "="%char :: JoinCSV e.2 ++ [nl]) entries =
      join_lines ((fun e => e.1 ++ "="%char :: JoinCSV e.2) <$> entries)).
    { induction entries as [|e entries IH]; [done|]. rewrite fmap_cons. cbn [flat_map]. rewrite <- IH.
      rewrite <- ?app_assoc. simpl. by rewrite <- ?app_assoc. }
    rewrite He. cbn [flat_map]. rewrite ?app_nil_r, <- ?app_assoc. reflexivity.
  - destruct (routing_policy c) as [r|]; [|done]. unfold text_routing, routing_lines, line_of, kv_line.
    cbn [flat_map]. rewrite ?app_nil_r, <- ?app_assoc. reflexivity.
Qed.

Lemma kv_one_line k v : one_line k -> one_line v -> one_line (kv_line k v).
Proof.
  unfold one_line, kv_line. rewrite elem_of_app, elem_of_cons. intros Hk Hv [?|[Hc|?]]; [done| |done].
  discriminate Hc.
Qed.


(** The map of keys after the lines of the section. *)
Definition set_keys (m : gmap bytes (list bytes)) (p : parser) : parser :=
  {| section := section p; loaded_api_keys := m; loaded_guardrail := loaded_guardrail p;
     loaded_rate_limit := loaded_rate_limit p; parsed_routing_policy := parsed_routing_policy p;
     has_routing_policy := has_routing_policy p |}.

Lemma parse_entries entries p :
  section p = bytes_of "api_keys" -> Forall (fun e => key_ok e.1 /\ items_ok e.2) entries ->
  foldl parse_line p ((fun e => kv_line e.1 (JoinCSV e.2)) <$> entries) =
  set_keys (foldl (fun m e => <[e.1 := e.2]> m) (loaded_api_keys p) entries) p.
Proof.
  intros Hs He. revert p Hs. induction He as [|[k vs] entries [Hk [Hv _]] _ IH]; intros p Hs; [by destruct p|].
  rewrite fmap_cons. cbn [foldl fst snd]. unfold kv_line at 1.
  rewrite parse_kv by (done || by apply JoinCSV_trimmed). unfold assign. rewrite Hs.
  rewrite bool_decide_eq_true_2 by done. simpl fst in *. simpl snd in *. rewrite SplitCSV_JoinCSV by done.
  by rewrite IH.
Qed.

Lemma foldl_insert_map (entries : list (bytes * list bytes)) m :
  entries ≡ₚ map_to_list m -> foldl (fun m e => <[e.1 := e.2]> m) ∅ entries = m.
Proof.
  intros HP. assert (E : foldl (fun m e => <[e.1 := e.2]> m) ∅ entries =
    (list_to_map (reverse entries) : gmap bytes (list bytes))).
  { clear HP. induction entries as [|e l IH] using rev_ind; [done|].
    rewrite foldl_snoc, reverse_snoc, IH. by destruct e. }
  rewrite E. rewrite (list_to_map_proper (reverse entries) (map_to_list m)).
  - apply list_to_map_to_list.
  - rewrite reverse_Permutation, HP. apply NoDup_fst_map_to_list.
  - by rewrite reverse_Permutation.
Qed.

#[local] Instance key_ok_dec k : Decision (key_ok k).
Proof. unfold key_ok, one_line. destruct k; apply _. Defined.

Lemma const_key_ok k : bool_decide (key_ok k) = true -> key_ok k.
Proof. apply bool_decide_eq_true_1. Qed.

Lemma entries_ok entries c :
  policy_ok c -> entries ≡ₚ map_to_list (api_keys c) -> Forall (fun e => key_ok e.1 /\ items_ok e.2) entries.
Proof.
  intros (Hk & _) HP. rewrite HP. apply Forall_forall. intros [k vs] He.
  apply elem_of_map_to_list in He. by apply (Hk k vs).
Qed.

Lemma JoinCSV_one_line vs : Forall one_line vs -> one_line (JoinCSV vs).
Proof. intros Hv. by apply JoinCSV_elem. Qed.

Lemma lines_one_line entries c :
  policy_ok c -> entries ≡ₚ map_to_list (api_keys c) ->
  Forall (fun l => nl ∉ l) (head_lines entries c ++ routing_lines (routing_policy c)).
Proof.
  intros Hok HP. pose proof (entries_ok entries c Hok HP) as He.
  destruct Hok as (_ & [_ Hw] & _ & Hr).
  assert (Hc : forall s, bool_decide (nl ∉ bytes_of s) = true -> one_line (bytes_of s))
    by (intros s Hs; by apply bool_decide_eq_true in Hs).
  apply Forall_app. split; [apply Forall_app; split; [|apply Forall_app; split]|].
  - constructor; [by apply Hc|constructor].
  - apply Forall_fmap, (Forall_impl _ _ _ He). intros [k vs] [(_ & _ & Hk & _) [_ Hv]].
    by apply kv_one_line, JoinCSV_one_line.
  - repeat constructor; try (by apply Hc); try by apply not_elem_of_nil.
    + apply kv_one_line; [by apply Hc|by apply JoinCSV_one_line].
    + apply kv_one_line; [by apply Hc|]. intros Hn. by apply pretty_clean in Hn as [_ []].
  - destruct (routing_policy c) as [[a b f]|]; [|constructor]. destruct Hr as (_ & _ & Hf).
    repeat constructor; try (by apply Hc); try (by apply not_elem_of_nil);
      apply kv_one_line; try (by apply Hc); [by destruct a; apply Hc|by destruct b; apply Hc|done].
Qed.

Lemma parse_bool_text b : ParseBoolValue (bool_text b) = Some b.
Proof. by destruct b. Qed.

Lemma bool_text_trimmed b : trimmed (bool_text b).
Proof. by destruct b; apply (bool_decide_eq_true_1 (trimmed _)). Qed.

(** The lines of the routing section, read after the others. *)
Lemma parse_routing p r :
  routing_ok r -> foldl parse_line p (routing_lines (Some r)) = set_routing r (set_section (bytes_of "routing") p).
Proof.
  intros (Hne & Ht & _). destruct r as [a b f]. simpl in Hne, Ht. cbn [routing_lines foldl].
  change (parse_line (parse_line p []) (bytes_of "[routing]")) with (set_section (bytes_of "routing") p).
  unfold kv_line. rewrite !parse_kv by (by apply const_key_ok) || apply bool_text_trimmed || done.
  cbn [allow_default_fallback require_ready_backend fallback_scope].
  unfold assign at 3. cbn -[ParseBoolValue bool_text]. rewrite parse_bool_text.
  unfold assign at 2. cbn -[ParseBoolValue bool_text]. rewrite parse_bool_text.
  destruct f as [|x f]; [done|]. reflexivity.
Qed.

Lemma parse_guardrail p ws :
  Forall csv_item ws ->
  foldl parse_line p [[]; bytes_of "[guardrail]"; kv_line (bytes_of "words") (JoinCSV ws)] =
  set_words ws (set_section (bytes_of "guardrail") p).
Proof.
  intros Hw. cbn [foldl].
  change (parse_line (parse_line p []) (bytes_of "[guardrail]")) with (set_section (bytes_of "guardrail") p).
  unfold kv_line. rewrite parse_kv by (by apply const_key_ok) || by apply JoinCSV_trimmed.
  unfold assign. cbn -[SplitCSV JoinCSV]. by rewrite SplitCSV_JoinCSV.
Qed.

Lemma parse_limit p n :
  (- 2 ^ 31 <= n < 2 ^ 31)%Z ->
  foldl parse_line p [[]; bytes_of "[rate_limit]"; kv_line (bytes_of "tokens") (bytes_of (pretty n))] =
  set_limit n (set_section (bytes_of "rate_limit") p).
Proof.
  intros Hn. cbn [foldl].
  change (parse_line (parse_line p []) (bytes_of "[rate_limit]")) with (set_section (bytes_of "rate_limit") p).
  unfold kv_line. rewrite parse_kv.
  - unfold assign. cbn -[stoi pretty]. by rewrite stoi_pretty.
  - by apply const_key_ok.
  - apply clean_trimmed. intros c Hc. by apply pretty_clean in Hc as [].
Qed.

(** *** The text of a policy reads back as that policy *)
Lemma policy_text_roundtrip entries c :
  policy_ok c -> entries ≡ₚ map_to_list (api_keys c) -> parse_text (policy_text entries c) = c.
Proof.
  intros Hok HP. pose proof (entries_ok entries c Hok HP) as He. unfold parse_text.
  rewrite policy_text_lines, getlines_lines by by apply lines_one_line.
  rewrite foldl_app. unfold head_lines. rewrite !foldl_app.
  change (foldl parse_line parser_start [bytes_of "[api_keys]"]) with (set_section (bytes_of "api_keys") parser_start).
  rewrite parse_entries by done. cbn [set_section loaded_api_keys parser_start].
  rewrite (foldl_insert_map entries (api_keys c)) by done.
  destruct Hok as (_ & [Hw _] & Hn & Hr). set (p0 := set_keys _ _).
  change (foldl parse_line p0 [[]; ?g; ?w; []; ?l; ?t]) with
    (foldl parse_line (foldl parse_line p0 [[]; g; w]) [[]; l; t]).
  rewrite parse_guardrail, parse_limit by done.
  destruct c as [ks ws n [r|]]; cbn [routing_policy] in *; [|done].
  by rewrite parse_routing.
Qed.

(** ** The store *)

Record PolicyStore := {
  path : bytes;
  encryption_enabled : bool;
  key : list Z;
  contents : policy }.

Definition with_contents (c : policy) (s : PolicyStore) : PolicyStore :=
  {| path := path s; encryption_enabled := encryption_enabled s; key := key s; contents := c |}.

(** [SizeToInt]: a size above [INT_MAX] is refused. *)
Definition size_fits_int (n : nat) : bool := (Z.of_nat n <? 2 ^ 31)%Z.

(** The outcomes of the file operations of one [Save].  [exists_ok] is false when
    the query of the target fails; [partial] is what a failed write left behind. *)
Record save_io := {
  open_ok : bool; write_ok : bool; partial : bytes; remove_temp_ok : bool;
  exists_ok : bool; copy_ok : bool; rename1_ok : bool; remove_ok : bool; rename2_ok : bool }.

Definition all_ok : save_io :=
  {| open_ok := true; write_ok := true; partial := []; remove_temp_ok := true;
     exists_ok := true; copy_ok := true; rename1_ok := true; remove_ok := true; rename2_ok := true |}.

(** Regular files by path. *)
Abbreviation files := (gmap bytes bytes).

Definition tmp_path (s : PolicyStore) : bytes := path s ++ bytes_of ".tmp".
Definition bak_path (s : PolicyStore) : bytes := path s ++ bytes_of ".bak".

Section with_crypto.
(** [SHA256]. *)
Context (sha256 : bytes -> list Z).
(** AES-256-GCM under key and nonce: ciphertext and tag; [None] when a call of
    the library fails. *)
Context (gcm_encrypt : list Z -> list Z -> list Z -> option (list Z * list Z)).
(** Under key, nonce and tag; [None] also when the tag does not match. *)
Context (gcm_decrypt : list Z -> list Z -> list Z -> list Z -> option (list Z)).
(** The order in which the [unordered_map] of keys is walked. *)
Context (walk : gmap bytes (list bytes) -> list (bytes * list bytes)).

Definition make_store (p passphrase : bytes) : PolicyStore :=
  {| path := p; encryption_enabled := bool_decide (passphrase <> []);
     key := if bool_decide (passphrase <> []) then sha256 passphrase else repeat 0%Z 32;
     contents := empty_policy |}.

Definition field (name : string) (data : list Z) : bytes :=
  bytes_of name ++ "="%char :: HexEncode data ++ [nl].

(** [nonce] is [None] when [RAND_bytes] fails. *)
Definition Encrypt (nonce : option (list Z)) (s : PolicyStore) (plaintext : bytes) : option bytes :=
  if negb (encryption_enabled s) then Some plaintext
  else
    nonce ← nonce;
    if negb (size_fits_int (length plaintext)) then None
    else
      '(ciphertext, tag) ← gcm_encrypt (key s) nonce (byte_val <$> plaintext);
      Some (line_of "ENC" ++ field "nonce" nonce ++ field "tag" tag ++ field "data" ciphertext).

(** The next line, if there is one, must be [name=<hex>] with some data. *)
Definition parseLine (expected_prefix : string) (lines : list bytes) : option (list Z * list bytes) :=
  match lines with
  | [] => None
  | line :: rest =>
      '(k, v) ← split_eq line;
      if bool_decide (Trim k = bytes_of expected_prefix)
      then let out := HexDecode (Trim v) in
           if bool_decide (out = []) then None else Some (out, rest)
      else None
  end.

Definition byte_chr (b : Z) : ascii := ascii_of_N (Z.to_N b).

Definition Decrypt (s : PolicyStore) (encrypted : bytes) : option bytes :=
  if negb (encryption_enabled s) then Some encrypted
  else match getlines nl encrypted with
       | [] => None
       | header :: lines =>
           if negb (bool_decide (Trim header = bytes_of "ENC")) then None
           else
             '(nonce, lines) ← parseLine "nonce" lines;
             '(tag, lines) ← parseLine "tag" lines;
             '(data, _) ← parseLine "data" lines;
             if size_fits_int (length nonce) && size_fits_int (length data) && size_fits_int (length tag)
             then (fun plain : list Z => byte_chr <$> plain) <$> gcm_decrypt (key s) nonce tag data
             else None
       end.

(** [parse_from_path]: [None] when the file is missing or cannot be decrypted. *)
Definition parse_file (s : PolicyStore) (raw : bytes) : option policy :=
  if starts_with (bytes_of "ENC") raw
  then if negb (encryption_enabled s) then None else parse_text <$> Decrypt s raw
  else Some (parse_text raw).

Definition parse_from_path (s : PolicyStore) (fs : files) (p : bytes) : option policy :=
  raw ← fs !! p; parse_file s raw.

Definition Load (fs : files) (s : PolicyStore) : bool * PolicyStore :=
  match parse_from_path s fs (path s) with
  | Some c => (true, with_contents c s)
  | None => match parse_from_path s fs (bak_path s) with
            | Some c => (true, with_contents c s)
            | None => (false, with_contents empty_policy s)
            end
  end.

(** Moves the file at [p] over the one at [q]. *)
Definition rename_file (p q : bytes) (fs : files) : files :=
  match fs !! p with Some d => <[q := d]> (delete p fs) | None => fs end.

Definition copy_to (p q : bytes) (fs : files) : files :=
  match fs !! p with Some d => <[q := d]> fs | None => fs end.

Definition Save (io : save_io) (nonce : option (list Z)) (s : PolicyStore) (fs : files) : bool * files :=
  match Encrypt nonce s (policy_text (walk (api_keys (contents s))) (contents s)) with
  | None => (false, fs)
  | Some serialized =>
      let target := path s in
      let temp := tmp_path s in
      if negb (open_ok io) then (false, fs)
      else if negb (write_ok io) then
        let fs := <[temp := partial io]> fs in
        (false, if remove_temp_ok io then delete temp fs else fs)
      else
        let fs := <[temp := serialized]> fs in
        let fs := if exists_ok io && copy_ok io then copy_to target (bak_path s) fs else fs in
        if rename1_ok io then (true, rename_file temp target fs)
        else
          let fs := if remove_ok io then delete target fs else fs in
          if rename2_ok io then (true, rename_file temp target fs)
          else (false, if remove_temp_ok io then delete temp fs else fs)
  end.

(** *** Accessors *)

Definition ApiKeys (s : PolicyStore) : list (bytes * list bytes) := walk (api_keys (contents s)).

Definition set_api_keys (m : gmap bytes (list bytes)) (c : policy) : policy :=
  {| api_keys := m; guardrail_blocklist := guardrail_blocklist c;
     rate_limit_per_minute := rate_limit_per_minute c; routing_policy := routing_policy c |}.

Definition SetApiKey (k : bytes) (scopes : list bytes) (s : PolicyStore) : PolicyStore :=
  let c := contents s in
  with_contents (set_api_keys (<[ApiKeyAuth.HashKey sha256 k := scopes]> (api_keys c)) c) s.

Definition RemoveApiKey (k : bytes) (s : PolicyStore) : bool * PolicyStore :=
  let c := contents s in
  let h := ApiKeyAuth.HashKey sha256 k in
  (bool_decide (is_Some (api_keys c !! h)), with_contents (set_api_keys (delete h (api_keys c)) c) s).

Definition SetGuardrailBlocklist (blocklist : list bytes) (s : PolicyStore) : PolicyStore :=
  let c := contents s in
  with_contents {| api_keys := api_keys c; guardrail_blocklist := blocklist;
                   rate_limit_per_minute := rate_limit_per_minute c; routing_policy := routing_policy c |} s.

Definition SetRateLimitPerMinute (limit : Z) (s : PolicyStore) : PolicyStore :=
  let c := contents s in
  with_contents {| api_keys := api_keys c; guardrail_blocklist := guardrail_blocklist c;
                   rate_limit_per_minute := limit; routing_policy := routing_policy c |} s.

Definition SetRoutingPolicy (p : RoutingPolicyEntry) (s : PolicyStore) : PolicyStore :=
  let c := contents s in
  with_contents {| api_keys := api_keys c; guardrail_blocklist := guardrail_blocklist c;
                   rate_limit_per_minute := rate_limit_per_minute c; routing_policy := Some p |} s.

Definition ClearRoutingPolicy (s : PolicyStore) : PolicyStore :=
  let c := contents s in
  with_contents {| api_keys := api_keys c; guardrail_blocklist := guardrail_blocklist c;
                   rate_limit_per_minute := rate_limit_per_minute c; routing_policy := None |} s.

(** *** What is saved can be read back *)

(** What the cryptographic library promises: bytes, as many as the plaintext, a
    tag, and decryption of what was encrypted. *)
Definition gcm_correct : Prop :=
  forall k n p ciphertext tag, gcm_encrypt k n p = Some (ciphertext, tag) ->
    Forall is_byte ciphertext /\ length ciphertext = length p /\
    Forall is_byte tag /\ length tag = 16 /\ gcm_decrypt k n tag ciphertext = Some p.

Definition nonce_correct (nonce : option (list Z)) : Prop :=
  match nonce with Some n => Forall is_byte n /\ length n = 12 | None => True end.

Lemma field_line name data : field name data = kv_line (bytes_of name) (HexEncode data) ++ [nl].
Proof. unfold field, kv_line. by rewrite <- app_assoc. Qed.

Lemma parseLine_field name data rest :
  key_ok (bytes_of name) -> Forall is_byte data -> data <> [] ->
  parseLine name (kv_line (bytes_of name) (HexEncode data) :: rest) = Some (data, rest).
Proof.
  intros (Ht & Heq & _) Hd Hne. unfold parseLine, kv_line. rewrite split_eq_app by done. simpl.
  rewrite Trim_trimmed, bool_decide_eq_true_2 by done.
  rewrite Trim_trimmed by apply HexEncode_trimmed. rewrite HexDecode_HexEncode by done.
  by rewrite bool_decide_eq_false_2.
Qed.

Lemma byte_chr_val c : byte_chr (byte_val c) = c.
Proof. unfold byte_chr, byte_val. by rewrite N2Z.id, ascii_N_embedding. Qed.

Lemma Decrypt_Encrypt nonce s plaintext out :
  gcm_correct -> nonce_correct nonce -> encryption_enabled s = true -> plaintext <> [] ->
  Encrypt nonce s plaintext = Some out ->
  Decrypt s out = Some plaintext /\ starts_with (bytes_of "ENC") out = true.
Proof.
  intros Hg Hn He Hp. unfold Encrypt, Decrypt. rewrite He. cbn [negb].
  destruct nonce as [nonce|]; [|done]. destruct Hn as [Hnb Hnl]. cbn [mbind option_bind].
  destruct (size_fits_int (length plaintext)) eqn:Hs; [|done]. cbn [negb].
  destruct (gcm_encrypt _ _ _) as [[ciphertext tag]|] eqn:E; [|done]. cbn [mbind option_bind]. intros Hout. apply (inj Some) in Hout as <-.
  apply Hg in E as (Hcb & Hcl & Htb & Htl & Hdec). rewrite length_fmap in Hcl.
  split; [|reflexivity].
  assert (El : getlines nl (line_of "ENC" ++ field "nonce" nonce ++ field "tag" tag ++ field "data" ciphertext) =
    [bytes_of "ENC"; kv_line (bytes_of "nonce") (HexEncode nonce);
     kv_line (bytes_of "tag") (HexEncode tag); kv_line (bytes_of "data") (HexEncode ciphertext)]).
  { rewrite !field_line. unfold line_of.
    assert (Hhex : forall name d, bool_decide (nl ∉ bytes_of name) = true ->
      nl ∉ kv_line (bytes_of name) (HexEncode d)).
    { intros name d H%bool_decide_eq_true. apply kv_one_line; [done|]. intros Hin.
      by apply HexEncode_clean in Hin as (_ & _ & _ & _ & []). }
    etransitivity; [|apply getlines_lines].
    - f_equal. cbn [flat_map]. by rewrite app_nil_r.
    - constructor; [by apply (bool_decide_eq_true_1 (nl ∉ _))|].
      repeat (constructor; [by apply Hhex|]). constructor. }
  rewrite El. rewrite Trim_trimmed by by apply (bool_decide_eq_true_1 (trimmed _)).
  rewrite bool_decide_eq_true_2 by done. cbn [negb].
  rewrite parseLine_field; [|by apply const_key_ok|done|by destruct nonce]. cbn [mbind option_bind].
  rewrite parseLine_field; [|by apply const_key_ok|done|by destruct tag]. cbn [mbind option_bind].
  rewrite parseLine_field; [|by apply const_key_ok|done|].
  2: { destruct ciphertext; [|done]. by destruct plaintext. }
  cbn [mbind option_bind]. rewrite Hcl, Hnl, Htl, Hs. simpl. rewrite Hdec. simpl. f_equal.
  rewrite <- list_fmap_compose. rewrite <- (list_fmap_id plaintext) at 2.
  apply list_fmap_ext. intros i c _. apply byte_chr_val.
Qed.

(** The promises of the environment, together. *)
Definition walk_correct : Prop := forall m, walk m ≡ₚ map_to_list m.
Definition sha_correct : Prop := forall x, length (sha256 x) = 32.

Lemma text_nonempty entries c : policy_text entries c <> [].
Proof. done. Qed.

(** The serialized form of a store's policy is parsed back by any store with the
    same key. *)
Lemma parse_serialized nonce s c0 out :
  gcm_correct -> walk_correct -> nonce_correct nonce -> policy_ok (contents s) ->
  Encrypt nonce s (policy_text (walk (api_keys (contents s))) (contents s)) = Some out ->
  parse_file (with_contents c0 s) out = Some (contents s).
Proof.
  intros Hg Hw Hn Hok HE. unfold parse_file. cbn [with_contents encryption_enabled].
  destruct (encryption_enabled s) eqn:Henc.
  - destruct (Decrypt_Encrypt nonce s _ out Hg Hn Henc (text_nonempty _ _) HE) as [HD ->].
    cbn [negb]. change (Decrypt (with_contents c0 s) out) with (Decrypt s out). rewrite HD. simpl.
    by rewrite policy_text_roundtrip.
  - unfold Encrypt in HE. rewrite Henc in HE. cbn [negb] in HE. apply (inj Some) in HE as <-.
    change (starts_with (bytes_of "ENC") _) with false. cbv iota.
    by rewrite policy_text_roundtrip.
Qed.

Lemma path_ext (p e e' : bytes) : e <> e' -> p ++ e <> p ++ e'.
Proof. by intros He ?%(inj _). Qed.

Lemma paths_differ s : path s <> tmp_path s /\ path s <> bak_path s /\ tmp_path s <> bak_path s.
Proof.
  unfold tmp_path, bak_path. split_and!; [| |by apply path_ext];
    rewrite <- (app_nil_r (path s)) at 1; by apply path_ext.
Qed.

Lemma rename_lookup p q fs d : fs !! p = Some d -> rename_file p q fs !! q = Some d.
Proof. intros H. unfold rename_file. rewrite H. by rewrite lookup_insert_eq. Qed.

Lemma copy_lookup_ne p q fs r : q <> r -> copy_to p q fs !! r = fs !! r.
Proof. intros H. unfold copy_to. destruct (fs !! p); [|done]. by rewrite lookup_insert_ne. Qed.

Lemma Save_true io nonce s fs fs' :
  Save io nonce s fs = (true, fs') ->
  exists out, Encrypt nonce s (policy_text (walk (api_keys (contents s))) (contents s)) = Some out /\
              fs' !! path s = Some out.
Proof.
  unfold Save. destruct (Encrypt _ _ _) as [out|]; [|done]. intros H. exists out. split; [done|].
  destruct (paths_differ s) as (H1 & H2 & H3).
  destruct (open_ok io), (write_ok io); try done. cbn [negb] in H.
  assert (Ht : forall fs0 : files, fs0 !! tmp_path s = Some out ->
    (if exists_ok io && copy_ok io then copy_to (path s) (bak_path s) fs0 else fs0) !! tmp_path s = Some out).
  { intros fs0 H0. destruct (_ && _); [|done]. by rewrite copy_lookup_ne. }
  specialize (Ht (<[tmp_path s := out]> fs) ltac:(by rewrite lookup_insert_eq)).
  destruct (rename1_ok io); [simplify_eq; by apply rename_lookup|].
  destruct (rename2_ok io); [|done]. simplify_eq. apply rename_lookup.
  destruct (remove_ok io); [|done]. by rewrite lookup_delete_ne.
Qed.


(** A failed [Save] leaves the target, or at least its copy. *)
Lemma Save_false io nonce s fs fs' d :
  (exists_ok io && copy_ok io = true \/ remove_ok io = false) ->
  fs !! path s = Some d -> Save io nonce s fs = (false, fs') ->
  fs' !! path s = Some d \/ (fs' !! path s = None /\ fs' !! bak_path s = Some d).
Proof.
  intros Hio Hd. unfold Save. destruct (paths_differ s) as (H1 & H2 & H3).
  destruct (Encrypt _ _ _) as [out|]; [|intros; simplify_eq; by left].
  destruct (open_ok io); cbn [negb]; [|intros; simplify_eq; by left].
  destruct (write_ok io); cbn [negb].
  2: { intros; simplify_eq. left. destruct (remove_temp_ok io); by rewrite ?lookup_delete_ne, lookup_insert_ne. }
  destruct (rename1_ok io), (rename2_ok io); try done. intros [= <-].
  set (fs1 := if exists_ok io && copy_ok io then _ else _).
  assert (Hp : fs1 !! path s = Some d).
  { subst fs1. destruct (_ && _); rewrite ?copy_lookup_ne by done; by rewrite lookup_insert_ne. }
  assert (Hrm : forall (f : files) p, p <> tmp_path s ->
    (if remove_temp_ok io then delete (tmp_path s) f else f) !! p = f !! p).
  { intros f p Hne. destruct (remove_temp_ok io); [|done]. by rewrite lookup_delete_ne. }
  rewrite !Hrm by done. destruct (remove_ok io); [|left; exact Hp].
  right. rewrite lookup_delete_eq. split; [done|].
  rewrite lookup_delete_ne by done. destruct Hio as [Hc|]; [|done]. subst fs1. rewrite Hc.
  unfold copy_to. rewrite lookup_insert_ne by done. rewrite Hd. by rewrite lookup_insert_eq.
Qed.

(** A [Save] that reports failure does not lose the policy on disk: if the
    policy file could be read before, and the backup copy was made or the target
    was not removed, then [Load] still succeeds and gives the old policy. *)
Theorem failed_save_keeps_policy io nonce s fs fs' c :
  (exists_ok io && copy_ok io = true \/ remove_ok io = false) ->
  parse_from_path s fs (path s) = Some c ->
  Save io nonce s fs = (false, fs') ->
  Load fs' s = (true, with_contents c s).
Proof.
  intros Hio Hp HS. unfold parse_from_path in Hp. destruct (fs !! path s) as [d|] eqn:Hd; [|done].
  cbn [mbind option_bind] in Hp. unfold Load, parse_from_path.
  destruct (Save_false io nonce s fs fs' d Hio Hd HS) as [H|[H H']]; rewrite H; cbn [mbind option_bind].
  - by rewrite Hp.
  - rewrite H'. cbn [mbind option_bind]. by rewrite Hp.
Qed.

(** *** Keys across a restart *)

(** main.cpp, after [Load]: the stored hashes go into the authenticator; without
    stored keys, the configured ones go into both. *)
Definition startup_keys (api_key_entries : list (bytes * list bytes)) (s : PolicyStore)
    (auth : gmap bytes (gset bytes)) : PolicyStore * gmap bytes (gset bytes) :=
  let stored := ApiKeys s in
  let auth := foldl (fun a e => ApiKeyAuth.AddKeyHashed e.1 e.2 a) auth stored in
  if bool_decide (stored = [])
  then foldl (fun '(st, a) e => (SetApiKey e.1 e.2 st, ApiKeyAuth.AddKey sha256 e.1 e.2 a)) (s, auth) api_key_entries
  else (s, auth).

Lemma AddKeyHashed_dom stored auth h :
  is_Some (foldl (fun a (e : bytes * list bytes) => ApiKeyAuth.AddKeyHashed e.1 e.2 a) auth stored !! h) <->
  is_Some (auth !! h) \/ h ∈ stored.*1.
Proof.
  revert auth. induction stored as [|[k vs] stored IH]; intros auth.
  { simpl. rewrite elem_of_nil. tauto. }
  cbn [foldl].
  rewrite IH, ApiKeyAuth.AddKeyHashed_lookup. simpl. rewrite elem_of_cons.
  case_decide as Hk; [|naive_solver]. subst.
  split; intros _; [right; by left|left; eauto].
Qed.

Lemma HashKey_ok k : sha_correct -> key_ok (ApiKeyAuth.HashKey sha256 k).
Proof.
  intros Hs. specialize (Hs k). unfold ApiKeyAuth.HashKey, key_ok.
  pose proof (HexEncode_clean (sha256 k)) as Hc. split_and!.
  - apply HexEncode_trimmed.
  - intros Hin. by apply Hc in Hin as (_ & [] & _).
  - intros Hin. by apply Hc in Hin as (_ & _ & _ & _ & []).
  - destruct (HexEncode (sha256 k)) as [|c l] eqn:E.
    + by destruct (sha256 k).
    + destruct (Hc c) as (_ & _ & ? & ? & _); [left|done].
Qed.

Lemma SetApiKey_ok k scopes s :
  sha_correct -> policy_ok (contents s) -> items_ok scopes -> policy_ok (contents (SetApiKey k scopes s)).
Proof.
  intros Hs (Hk & Hrest) Hi. split; [|exact Hrest]. simpl. apply map_Forall_insert_2; [|done].
  split; [by apply HashKey_ok|done].
Qed.

(** An API key added to the store and saved is accepted after a restart, and
    nothing else is: the authenticator built from the reloaded file accepts a key
    exactly when it hashes to the added key's hash or to a hash that was in the
    store before.  The file never needs the key itself. *)
Theorem api_keys_survive_restart io nonce s k scopes fs fs' cfg k' :
  gcm_correct -> walk_correct -> sha_correct -> nonce_correct nonce ->
  policy_ok (contents s) -> items_ok scopes ->
  Save io nonce (SetApiKey k scopes s) fs = (true, fs') ->
  ApiKeyAuth.IsAllowed sha256 k' (startup_keys cfg (Load fs' (with_contents empty_policy s)).2 ∅).2 =
  bool_decide (ApiKeyAuth.HashKey sha256 k' = ApiKeyAuth.HashKey sha256 k \/
               is_Some (api_keys (contents s) !! ApiKeyAuth.HashKey sha256 k')).
Proof.
  intros Hg Hw Hsha Hn Hok Hi (out & HE & Hl)%Save_true.
  change (path (SetApiKey k scopes s)) with (path s) in Hl.
  pose proof (SetApiKey_ok k scopes s Hsha Hok Hi) as Hok'.
  unfold Load, parse_from_path. cbn [with_contents path]. rewrite Hl. cbn [mbind option_bind].
  change (with_contents empty_policy s) with (with_contents empty_policy (SetApiKey k scopes s)).
  rewrite (parse_serialized nonce _ empty_policy out) by done. cbn [snd].
  unfold startup_keys, ApiKeys. cbn [with_contents contents].
  set (m := api_keys (contents (SetApiKey k scopes s))).
  assert (Hdom : forall h, h ∈ (walk m).*1 <-> is_Some (m !! h)).
  { intros h. rewrite (Hw m), list_elem_of_fmap. split.
    - intros ([h' vs] & -> & He%elem_of_map_to_list). simpl. eauto.
    - intros [vs Hv]. exists (h, vs). split; [done|]. by apply elem_of_map_to_list. }
  rewrite bool_decide_eq_false_2.
  2: { intros Hnil. specialize (Hdom (ApiKeyAuth.HashKey sha256 k)). rewrite Hnil in Hdom.
       destruct Hdom as [_ Hd]. eapply not_elem_of_nil, Hd. subst m. simpl. rewrite lookup_insert_eq. eauto. }
  unfold ApiKeyAuth.IsAllowed, ApiKeyAuth.IsAllowedByHash. cbn [snd]. apply bool_decide_ext.
  rewrite AddKeyHashed_dom, Hdom. subst m. simpl. rewrite lookup_empty, lookup_insert_is_Some'.
  split; [intros [[? [=]]|[->|?]]; auto|intros [->|?]; auto].
Qed.
End with_crypto.

(** ** A concrete environment *)

(** Stand-ins with the promised behaviour. *)
Definition toy_sha (x : bytes) : list Z := take 32 ((byte_val <$> x) ++ repeat 0%Z 32).
Definition toy_encrypt (k n p : list Z) : option (list Z * list Z) :=
  if decide (Forall is_byte p) then Some (p, repeat 7%Z 16) else None.
Definition toy_decrypt (k n tag c : list Z) : option (list Z) := Some c.
Definition toy_walk (m : gmap bytes (list bytes)) : list (bytes * list bytes) := map_to_list m.

Lemma toy_gcm : gcm_correct toy_encrypt toy_decrypt.
Proof.
  intros k n p c tag. unfold toy_encrypt. case_decide; [|done]. intros [= <- <-].
  split_and!; try done. by repeat constructor.
Qed.

Lemma toy_walk_correct : walk_correct toy_walk.
Proof. intros m. reflexivity. Qed.

Lemma toy_sha_correct : sha_correct toy_sha.
Proof. intros x. unfold toy_sha. rewrite length_take, length_app, repeat_length. lia. Qed.

Definition sample_nonce : list Z := [1; 2; 3; 4; 5; 6; 7; 8; 9; 10; 11; 12]%Z.

Definition sample_store (passphrase : string) : PolicyStore :=
  SetRoutingPolicy {| allow_default_fallback := false; require_ready_backend := true;
                      fallback_scope := bytes_of "same_path_only" |}
   (SetRateLimitPerMinute 60
    (SetGuardrailBlocklist [bytes_of "secret"; bytes_of "top secret"]
     (SetApiKey toy_sha (bytes_of "k1") [bytes_of "admin"; bytes_of "read"]
       (make_store toy_sha (bytes_of "policy.conf") (bytes_of passphrase))))).

Lemma items_ok_dec vs :
  bool_decide (Forall (fun v => v <> [] /\ trimmed v /\ ","%char ∉ v /\ nl ∉ v) vs) = true -> items_ok vs.
Proof.
  intros H%bool_decide_eq_true. split; apply (Forall_impl _ _ _ H); [|by intros v (_ & _ & _ & ?)].
  intros v (? & ? & ? & _). done.
Qed.

Lemma sample_policy_ok passphrase : policy_ok (contents (sample_store passphrase)).
Proof.
  split; [|split; [|split]].
  - simpl. apply map_Forall_insert_2; [|apply map_Forall_empty].
    split; [apply HashKey_ok, toy_sha_correct|by apply items_ok_dec].
  - by apply items_ok_dec.
  - simpl. lia.
  - simpl. split_and!; [done|by apply (bool_decide_eq_true_1 (trimmed _))|by apply (bool_decide_eq_true_1 (nl ∉ _))].
Qed.

(** The save of the sample store on an empty disk. *)
Definition sample_save : bool * files :=
  Save toy_encrypt toy_walk all_ok (Some sample_nonce) (sample_store "pw") ∅.

Lemma sample_save_true : sample_save.1 = true.
Proof. vm_compute. reflexivity. Qed.

Lemma sample_nonce_correct : nonce_correct (Some sample_nonce).
Proof. split; [by repeat constructor|done]. Qed.


(** A save whose renames fail after the target was removed. *)
Definition failing_renames : save_io :=
  {| open_ok := true; write_ok := true; partial := []; remove_temp_ok := true;
     exists_ok := true; copy_ok := true; rename1_ok := false; remove_ok := true; rename2_ok := false |}.

Definition resave : bool * files :=
  Save toy_encrypt toy_walk failing_renames (Some sample_nonce)
    (with_contents empty_policy (sample_store "pw")) sample_save.2.

Lemma failed_save_keeps_policy_witness :
  resave.1 = false /\
  Load toy_decrypt resave.2 (with_contents empty_policy (sample_store "pw")) = (true, sample_store "pw").
Proof.
  assert (Hf : resave.1 = false) by (vm_compute; reflexivity). split; [exact Hf|].
  apply (failed_save_keeps_policy toy_encrypt toy_decrypt toy_walk failing_renames (Some sample_nonce)
           (with_contents empty_policy (sample_store "pw")) sample_save.2 resave.2 (contents (sample_store "pw"))).
  - left. reflexivity.
  - vm_compute. reflexivity.
  - rewrite <- Hf. apply surjective_pairing.
Defined.

Lemma api_keys_survive_restart_witness :
  let fs' := (Save toy_encrypt toy_walk all_ok (Some sample_nonce)
                (SetApiKey toy_sha (bytes_of "k2") [] (sample_store "pw")) ∅).2 in
  let auth := (startup_keys toy_sha toy_walk [] (Load toy_decrypt fs' (with_contents empty_policy (sample_store "pw"))).2 ∅).2 in
  ApiKeyAuth.IsAllowed toy_sha (bytes_of "k2") auth = true /\
  ApiKeyAuth.IsAllowed toy_sha (bytes_of "k1") auth = true /\
  ApiKeyAuth.IsAllowed toy_sha (bytes_of "k3") auth = false.
Proof.
  intros fs' auth.
  assert (Hs : (Save toy_encrypt toy_walk all_ok (Some sample_nonce)
                (SetApiKey toy_sha (bytes_of "k2") [] (sample_store "pw")) ∅) = (true, fs')).
  { transitivity ((Save toy_encrypt toy_walk all_ok (Some sample_nonce)
                (SetApiKey toy_sha (bytes_of "k2") [] (sample_store "pw")) ∅).1, fs'); [apply surjective_pairing|].
    f_equal; try (vm_compute; reflexivity). }
  assert (Hi : items_ok []) by (split; constructor).
  pose proof (fun k' => api_keys_survive_restart toy_sha toy_encrypt toy_decrypt toy_walk all_ok (Some sample_nonce)
    (sample_store "pw") (bytes_of "k2") [] ∅ fs' [] k' toy_gcm toy_walk_correct toy_sha_correct
    sample_nonce_correct (sample_policy_ok "pw") Hi Hs) as H.
  subst auth. rewrite !H. split_and!; vm_compute; reflexivity.
Defined.

(** *** Limits of the format *)

(** Every file operation fails after the target was removed, the copy included:
    the policy is gone, although the temporary file held the new one. *)
Example failed_save_can_lose_policy :
  let io := {| open_ok := true; write_ok := true; partial := []; remove_temp_ok := true;
               exists_ok := true; copy_ok := false; rename1_ok := false; remove_ok := true; rename2_ok := false |} in
  let r := Save toy_encrypt toy_walk io (Some sample_nonce) (sample_store "pw") sample_save.2 in
  r = (false, ∅) /\ (Load toy_decrypt r.2 (sample_store "pw")).1 = false.
Proof. split; vm_compute; reflexivity. Qed.

(** A word with a comma is stored without quoting and comes back as two words. *)
Example comma_word_is_split :
  guardrail_blocklist (parse_text (policy_text []
    {| api_keys := ∅; guardrail_blocklist := [bytes_of "drop, table"]; rate_limit_per_minute := 0;
       routing_policy := None |})) = [bytes_of "drop"; bytes_of "table"].
Proof. vm_compute. reflexivity. Qed.
