(* ===== verification/Tokenizer.v ===== *)
(** * model/tokenizer/simple_tokenizer: the built-in word tokenizer

    Words of lower-cased letters and digits and single punctuation characters,
    with a vocabulary that grows as texts are encoded.  [isalnum], [isspace] and
    [tolower] are those of the C locale. *)

From stdpp Require Import base tactics numbers list strings gmap sets.
From Stdlib Require Import Ascii.
From S2P Require Import Prelude StringUtils.

Record SimpleTokenizer := mkTok { vocab : gmap bytes Z; reverse_ : list bytes }.

Definition kBos : bytes := bytes_of "<bos>".
Definition kEos : bytes := bytes_of "<eos>".

Definition newTokenizer : SimpleTokenizer :=
  mkTok (<[kEos := 2%Z]> (<[kBos := 1%Z]> ∅)) [[]; kBos; kEos].

Definition AddToken (t : SimpleTokenizer) (token : bytes) : SimpleTokenizer * Z :=
  match vocab t !! token with
  | Some id => (t, id)
  | None => let id := Z.of_nat (length (reverse_ t)) in
            (mkTok (<[token := id]> (vocab t)) (reverse_ t ++ [token]), id)
  end.

Definition isalnum (c : ascii) : bool :=
  let n := nat_of_ascii c in
  ((48 <=? n) && (n <=? 57)) || ((65 <=? n) && (n <=? 90)) || ((97 <=? n) && (n <=? 122)).

(** The loop of [Tokenize]: [current] is the word being read. *)
Fixpoint tokenize_loop (text current : bytes) : list bytes :=
  match text with
  | [] => if bool_decide (current = []) then [] else [current]
  | c :: text' =>
      if isalnum c then tokenize_loop text' (current ++ [tolower c])
      else (if bool_decide (current = []) then [] else [current])
           ++ (if is_space c then [] else [[c]])
           ++ tokenize_loop text' []
  end.

Definition Tokenize (text : bytes) : list bytes := tokenize_loop text [].

Fixpoint add_all (t : SimpleTokenizer) (words : list bytes) : SimpleTokenizer * list Z :=
  match words with
  | [] => (t, [])
  | w :: words' => let '(t1, id) := AddToken t w in
                   let '(t2, ids) := add_all t1 words' in (t2, id :: ids)
  end.

Definition Encode (t : SimpleTokenizer) (text : bytes) : SimpleTokenizer * list Z :=
  match Tokenize text with
  | [] => (t, [])
  | words => let '(t', ids) := add_all t words in (t', 1%Z :: ids)
  end.

Definition sticky (word : bytes) : bool :=
  bool_decide (word ∈ [bytes_of "."; bytes_of ","; bytes_of "!"; bytes_of "?"]).

Fixpoint decode_loop (t : SimpleTokenizer) (tokens : list Z) (first_word : bool) : bytes :=
  match tokens with
  | [] => []
  | token :: tokens' =>
      if ((token <=? 1) || (Z.of_nat (length (reverse_ t)) <=? token))%Z then decode_loop t tokens' first_word
      else
        let word := default [] (reverse_ t !! Z.to_nat token) in
        (if negb first_word && negb (sticky word) then [" "%char] else [])
        ++ word ++ decode_loop t tokens' false
  end.

Definition Decode (t : SimpleTokenizer) (tokens : list Z) : bytes := decode_loop t tokens true.

(** ** The vocabulary *)

(** Ids and words are inverse to each other, from id 1 on. *)
Record tok_wf (t : SimpleTokenizer) : Prop := {
  wf_bos : reverse_ t !! 1 = Some kBos;
  wf_vocab : forall w id, vocab t !! w = Some id <-> (1 <= id)%Z /\ reverse_ t !! Z.to_nat id = Some w }.

Lemma new_wf : tok_wf newTokenizer.
Proof.
  constructor; [done|]. intros w id. simpl. split.
  - intros [[<- <-]|[_ [[<- <-]|[_ H]]%lookup_insert_Some]]%lookup_insert_Some; try (split; [lia|reflexivity]).
    by rewrite lookup_empty in H.
  - intros [Hid Hr]. assert (id = 1 \/ id = 2 \/ 3 <= id)%Z as [->|[->|Hbig]] by lia; simpl in Hr.
    + injection Hr as <-. vm_compute. done.
    + injection Hr as <-. vm_compute. done.
    + rewrite (lookup_ge_None_2 _ (Z.to_nat id)) in Hr by (simpl; lia). done.
Qed.

(** [t'] knows all that [t] knows. *)
Definition extends_tok (t t' : SimpleTokenizer) : Prop := reverse_ t `prefix_of` reverse_ t'.

#[export] Instance extends_tok_preorder : PreOrder extends_tok.
Proof.
  split; [intros t; unfold extends_tok; reflexivity|].
  intros t1 t2 t3 H1 H2. unfold extends_tok in *. by etrans.
Qed.

Lemma AddToken_spec t w t' id :
  tok_wf t -> AddToken t w = (t', id) ->
  tok_wf t' /\ extends_tok t t' /\ vocab t' !! w = Some id /\ (1 <= id)%Z.
Proof.
  intros [Hl Hv]. pose proof (lookup_lt_Some _ _ _ Hl). unfold AddToken. destruct (vocab t !! w) as [id0|] eqn:E.
  - intros [= <- <-]. split_and!; [by constructor|reflexivity|done|]. by apply Hv in E as [].
  - intros [= <- <-]. split_and!; [|by eexists|apply lookup_insert_eq|lia].
    constructor; cbn [vocab reverse_].
    + by apply lookup_app_l_Some.
    + intros w' id'. rewrite lookup_insert_Some, lookup_app_Some, Hv. split.
      * intros [[<- <-]|[Hne [Hid Hr]]]; [|tauto]. split; [lia|]. right.
        rewrite Nat2Z.id, Nat.sub_diag. done.
      * intros [Hid [Hr|[Hge Hs]]].
        -- right. split; [|done]. intros <-. assert (vocab t !! w = Some id') by (by apply Hv). congruence.
        -- left. rewrite list_lookup_singleton_Some in Hs. destruct Hs as [Hz ->]. split; [done|]. lia.
Qed.

Lemma extends_lookup t t' w id : tok_wf t -> tok_wf t' -> extends_tok t t' -> vocab t !! w = Some id -> vocab t' !! w = Some id.
Proof.
  intros [_ Hv] [_ Hv'] He Hw. apply Hv in Hw as [Hid Hr]. apply Hv'. split; [done|].
  by eapply prefix_lookup_Some.
Qed.

Lemma add_all_spec words t t' ids :
  tok_wf t -> add_all t words = (t', ids) ->
  tok_wf t' /\ extends_tok t t' /\ Forall2 (fun w id => vocab t' !! w = Some id /\ (1 <= id)%Z) words ids.
Proof.
  revert t ids. induction words as [|w words IH]; intros t ids Hwf; cbn [add_all].
  - intros [= <- <-]. split_and!; [done|reflexivity|constructor].
  - destruct (AddToken t w) as [t1 id] eqn:E1. destruct (add_all t1 words) as [t2 ids2] eqn:E2.
    intros [= <- <-]. apply AddToken_spec in E1 as (Hwf1 & He1 & Hw & Hid); [|done].
    apply IH in E2 as (Hwf2 & He2 & Hall); [|done]. split_and!; [done|by etrans|].
    constructor; [|done]. split; [|done]. by apply (extends_lookup t1 t2).
Qed.

(** Words that are known already get their ids, and nothing changes. *)
Lemma add_all_known words ids t :
  Forall2 (fun w id => vocab t !! w = Some id /\ (1 <= id)%Z) words ids -> add_all t words = (t, ids).
Proof.
  induction 1 as [|w id words ids [Hw _] _ IH]; [done|]. cbn [add_all]. unfold AddToken. by rewrite Hw, IH.
Qed.

(** ** Rendering and reading words *)

(** A word [Tokenize] can produce: lower-case letters and digits, or one
    punctuation character. *)
Definition is_word (w : bytes) : Prop :=
  w <> [] /\ (Forall (fun c => isalnum c = true /\ tolower c = c) w \/
              exists c, w = [c] /\ isalnum c = false /\ is_space c = false).

(** What [Decode] prints for the words. *)
Fixpoint render (words : list bytes) (first_word : bool) : bytes :=
  match words with
  | [] => []
  | w :: words' => (if negb first_word && negb (sticky w) then [" "%char] else []) ++ w ++ render words' false
  end.

Lemma tolower_alnum c : isalnum c = true -> isalnum (tolower c) = true /\ tolower (tolower c) = tolower c.
Proof.
  destruct c as [[] [] [] [] [] [] [] []]; vm_compute; intros H; try discriminate H; split; reflexivity.
Qed.

Lemma tokenize_words text current :
  Forall (fun c => isalnum c = true /\ tolower c = c) current -> Forall is_word (tokenize_loop text current).
Proof.
  assert (Hcur : forall cur, Forall (fun c => isalnum c = true /\ tolower c = c) cur ->
    Forall is_word (if bool_decide (cur = []) then [] else [cur])).
  { intros cur Hc. case_bool_decide; [constructor|]. constructor; [|constructor]. split; [done|by left]. }
  revert current. induction text as [|c text IH]; intros current Hc; cbn [tokenize_loop]; [by apply Hcur|].
  destruct (isalnum c) eqn:E.
  - apply IH, Forall_app. split; [done|]. constructor; [by apply tolower_alnum|constructor].
  - apply Forall_app. split; [by apply Hcur|]. apply Forall_app. split; [|by apply IH].
    destruct (is_space c) eqn:Es; [constructor|]. constructor; [|constructor]. split; [done|]. right. eauto.
Qed.

(** Reading on after a letter or digit run. *)
Lemma tokenize_run w text current :
  Forall (fun c => isalnum c = true /\ tolower c = c) w ->
  tokenize_loop (w ++ text) current = tokenize_loop text (current ++ w).
Proof.
  intros Hw. revert current. induction Hw as [|c w [Ha Ht] _ IH]; intros current; [by rewrite app_nil_r|].
  cbn [app tokenize_loop]. rewrite Ha, Ht, IH. by rewrite <- app_assoc.
Qed.

(** A word in progress ends where the next printed word does not continue it. *)
Lemma render_head words : forall c text, Forall is_word words -> render words false = c :: text -> isalnum c = false.
Proof.
  intros c text Hw. destruct Hw as [|w words [Hne [Ha|(p & -> & Hp & Hs)]] _]; [done|..]; cbn [render negb andb].
  - destruct (sticky w) eqn:Est; cbn [negb]; [|by intros [= <- _]].
    unfold sticky in Est. apply bool_decide_eq_true in Est. destruct w as [|x w]; [done|]. intros [= <- _].
    apply Forall_cons in Ha as [[Hx _] _]. exfalso.
    repeat (apply elem_of_cons in Est as [[= -> _]|Est]; [done|]). by apply not_elem_of_nil in Est.
  - destruct (sticky [p]); cbn [negb]; by intros [= <- _].
Qed.

Lemma tokenize_end words current :
  Forall is_word words ->
  tokenize_loop (render words false) current =
  (if bool_decide (current = []) then [] else [current]) ++ tokenize_loop (render words false) [].
Proof.
  intros Hw. destruct (render words false) as [|c text] eqn:E; [by rewrite app_nil_r|].
  cbn [tokenize_loop]. by rewrite (render_head words c text Hw E).
Qed.

Lemma tokenize_word w words :
  is_word w -> Forall is_word words ->
  tokenize_loop (w ++ render words false) [] = w :: tokenize_loop (render words false) [].
Proof.
  intros [Hne [Ha|(p & -> & Hp & Hs)]] Hw.
  - rewrite tokenize_run by done. rewrite tokenize_end by done. by rewrite bool_decide_eq_false_2.
  - cbn [app tokenize_loop]. by rewrite Hp, Hs, bool_decide_eq_true_2.
Qed.

Lemma tokenize_render words : Forall is_word words -> tokenize_loop (render words false) [] = words.
Proof.
  induction 1 as [|w words Hw Hws IH]; [done|]. cbn [render negb andb]. destruct (sticky w); cbn [negb app].
  - by rewrite tokenize_word, IH.
  - cbn [tokenize_loop]. change (isalnum " ") with false. change (is_space " ") with true. cbv iota.
    rewrite bool_decide_eq_true_2 by done. cbn [app]. by rewrite tokenize_word, IH.
Qed.

Lemma Tokenize_render words : Forall is_word words -> Tokenize (render words true) = words.
Proof.
  destruct 1 as [|w words Hw Hws]; [done|]. cbn [render negb andb app]. unfold Tokenize.
  by rewrite tokenize_word, tokenize_render.
Qed.

(** *** Decoding the ids of words prints the words *)

Lemma decode_words t words ids first :
  tok_wf t -> Forall is_word words ->
  Forall2 (fun w id => vocab t !! w = Some id /\ (1 <= id)%Z) words ids ->
  decode_loop t ids first = render words first.
Proof.
  intros Hwf Hw HF. revert first Hw.
  induction HF as [|w id words ids [Hv Hid] _ IH]; intros first Hw; [done|].
  apply Forall_cons in Hw as [Hw Hws]. cbn [decode_loop render].
  apply (wf_vocab t Hwf) in Hv as [_ Hr]. pose proof (lookup_lt_Some _ _ _ Hr) as Hlt.
  assert (Hne : id <> 1%Z).
  { intros ->. change (Z.to_nat 1) with 1 in Hr. rewrite (wf_bos t Hwf) in Hr. injection Hr as <-.
    destruct Hw as [_ [Ha|(c & [=] & _)]]. by apply Forall_cons in Ha as [[[=] _] _]. }
  rewrite (proj2 (Z.leb_gt _ _)), (proj2 (Z.leb_gt _ _)) by lia. cbn [orb]. rewrite Hr. cbn [default].
  by rewrite IH.
Qed.

Lemma Encode_spec t text t' tokens :
  tok_wf t -> Encode t text = (t', tokens) ->
  tok_wf t' /\ extends_tok t t' /\
  exists ids, tokens = (if bool_decide (Tokenize text = []) then [] else 1%Z :: ids) /\
    Forall2 (fun w id => vocab t' !! w = Some id /\ (1 <= id)%Z) (Tokenize text) ids.
Proof.
  intros Hwf. unfold Encode. destruct (Tokenize text) as [|w words] eqn:E.
  - intros [= <- <-]. split_and!; [done|reflexivity|]. exists []. split; [done|constructor].
  - destruct (add_all t (w :: words)) as [t1 ids] eqn:Ea. intros [= <- <-].
    apply add_all_spec in Ea as (H1 & H2 & H3); [|done]. split_and!; [done..|]. eauto.
Qed.

(** The tokenizer after a server has encoded [texts]. *)
Definition after (texts : list bytes) (t : SimpleTokenizer) : SimpleTokenizer :=
  foldl (fun t x => (Encode t x).1) t texts.

Lemma after_wf texts t : tok_wf t -> tok_wf (after texts t) /\ extends_tok t (after texts t).
Proof.
  revert t. induction texts as [|x texts IH]; intros t Hwf; [split; [done|reflexivity]|]. cbn [after foldl].
  destruct (Encode t x) as [t1 ids] eqn:E. apply Encode_spec in E as (H1 & H2 & _); [|done].
  destruct (IH t1 H1) as [H3 H4]. split; [done|by etrans].
Qed.

(** Token ids keep their meaning.  However many texts the server encodes
    before and after, the ids of a text decode to its words, lower-cased and in
    order, separated by single spaces with no space before [. , ! ?]; and the
    decoded text encodes to the same ids again without growing the vocabulary. *)
Theorem tokens_roundtrip (before later : list bytes) (text : bytes) :
  let '(t, tokens) := Encode (after before newTokenizer) text in
  let t' := after later t in
  Decode t' tokens = render (Tokenize text) true /\
  Encode t' (Decode t' tokens) = (t', tokens).
Proof.
  destruct (Encode _ text) as [t tokens] eqn:E.
  destruct (after_wf before newTokenizer new_wf) as [Hwf0 _].
  apply Encode_spec in E as (Hwf & _ & ids & -> & HF); [|done].
  destruct (after_wf later t Hwf) as [Hwf' Hext]. set (t' := after later t) in *.
  assert (HF' : Forall2 (fun w id => vocab t' !! w = Some id /\ (1 <= id)%Z) (Tokenize text) ids).
  { apply (Forall2_impl _ _ _ _ HF). intros w id [Hw Hid]. split; [|done]. by apply (extends_lookup t t'). }
  assert (Hw : Forall is_word (Tokenize text)) by (apply tokenize_words; constructor).
  assert (HD : Decode t' (if bool_decide (Tokenize text = []) then [] else 1%Z :: ids) = render (Tokenize text) true).
  { case_bool_decide as En; [by rewrite En|]. unfold Decode. cbn [decode_loop]. by apply decode_words. }
  split; [done|]. rewrite HD. unfold Encode. rewrite Tokenize_render by done.
  pose proof (add_all_known _ ids t' HF') as Hadd.
  destruct (Tokenize text) as [|w words]; [done|]. by rewrite Hadd.
Qed.
