(* ===== verification/Speculative.v ===== *)
(** * runtime/speculative/speculative_decoder

    [Draft] proposes tokens in chunks, [Validate] keeps the part of the proposal
    the target agrees with and completes it.  The two backends are interfaces:
    their readiness and [Generate] are parameters; the tokenizer is the one of
    Tokenizer.v, whose vocabulary [Encode] may grow. *)

From stdpp Require Import base tactics numbers list strings.
From Stdlib Require Import Ascii.
From S2P Require Import Prelude StringUtils Tokenizer.

Record SpeculativeConfig := mkSpec { enabled : bool; max_prefill_tokens : Z; chunk_size : Z }.

Record SpeculativeChunk := mkChunk { c_start : nat; c_end : nat }.

Record SpeculativeDraft := mkDraft { d_tokens : list Z; chunks : list SpeculativeChunk }.

Definition empty_draft : SpeculativeDraft := mkDraft [] [].

Record SpeculativeMetrics := mkMetrics { total_chunks : nat; accepted_chunks : nat; reused_tokens : nat }.

Record SpeculativeValidationResult := mkValidation { completion_tokens : list Z; metrics : SpeculativeMetrics }.

(** [CPUDeviceContext::RunGreedyDecode]: echoes the tokens and a terminator. *)
Definition RunGreedyDecode (tokens : list Z) : list Z := tokens ++ [0%Z].

(** The chunking loop: [size] tokens a chunk. *)
Fixpoint chunk_loop (fuel size : nat) (new_tokens done_tokens : list Z) (cs : list SpeculativeChunk) : SpeculativeDraft :=
  match fuel, new_tokens with
  | S fuel, _ :: _ =>
      let start := length done_tokens in
      let done' := done_tokens ++ take size new_tokens in
      chunk_loop fuel size (drop size new_tokens) done' (cs ++ [mkChunk start (length done')])
  | _, _ => mkDraft done_tokens cs
  end.

Section Decoder.
(** [Generate] of a ready backend; [None] when there is no backend or it is not ready. *)
Context (draft_backend target_backend : option (bytes -> Z -> bytes)).

Definition Draft (cfg : SpeculativeConfig) (tok : SimpleTokenizer) (prompt_tokens : list Z) (max_new_tokens : Z) :
    SimpleTokenizer * SpeculativeDraft :=
  if negb (enabled cfg) || (max_new_tokens <=? 0)%Z then (tok, empty_draft)
  else
    let prompt := if ((0 <? max_prefill_tokens cfg) && (max_prefill_tokens cfg <? Z.of_nat (length prompt_tokens)))%Z
                  then take (Z.to_nat (max_prefill_tokens cfg)) prompt_tokens else prompt_tokens in
    let '(tok, new_tokens) :=
      match draft_backend with
      | Some generate => Encode tok (generate (Decode tok prompt_tokens) max_new_tokens)
      | None => let greedy := RunGreedyDecode prompt in
                (tok, if length prompt <? length greedy then drop (length prompt) greedy else greedy)
      end in
    let new_tokens := if (max_new_tokens <? Z.of_nat (length new_tokens))%Z
                      then take (Z.to_nat max_new_tokens) new_tokens else new_tokens in
    if bool_decide (new_tokens = []) then (tok, empty_draft)
    else (tok, chunk_loop (length new_tokens) (Z.to_nat (Z.max 1 (chunk_size cfg))) new_tokens [] []).

(** The inner loop over one chunk: the tokens it keeps and whether it got to the end.
    [done] tokens are kept already, [target] is what the target still has. *)
Fixpoint chunk_tokens (fuel : nat) (draft : list Z) (idx stop done limit : nat) (target : list Z) : list Z * bool :=
  match fuel with
  | 0 => ([], true)
  | S fuel =>
      if stop <=? idx then ([], true)
      else if limit <=? done then ([], false)
      else match target, draft !! idx with
           | t :: target', Some x =>
               if bool_decide (x = t)
               then let '(kept, ok) := chunk_tokens fuel draft (S idx) stop (S done) limit target' in (x :: kept, ok)
               else ([], false)
           | _, _ => ([], false)
           end
  end.

(** The loop over the chunks: kept tokens, the rest of the target, the counters. *)
Fixpoint chunks_loop (draft : list Z) (cs : list SpeculativeChunk) (limit : nat) (kept target : list Z)
    (accepted reused : nat) : list Z * list Z * nat * nat :=
  match cs with
  | [] => (kept, target, accepted, reused)
  | ch :: cs' =>
      if limit <=? length kept then (kept, target, accepted, reused)
      else
        let '(ks, ok) := chunk_tokens (c_end ch - c_start ch) draft (c_start ch) (c_end ch) (length kept) limit target in
        if bool_decide (ks = []) then (kept, target, accepted, reused)
        else
          let kept' := kept ++ ks in
          let target' := drop (length ks) target in
          let reused' := reused + length ks in
          if ok && (length ks =? c_end ch - c_start ch)
          then chunks_loop draft cs' limit kept' target' (S accepted) reused'
          else (kept', target', accepted, reused')
  end.

(** [override] is the validation override, when one is set. *)
Definition Validate (override : option (list Z -> Z -> list Z)) (tok : SimpleTokenizer) (prompt_tokens : list Z)
    (draft : SpeculativeDraft) (max_new_tokens : Z) : SimpleTokenizer * SpeculativeValidationResult :=
  let none := mkValidation [] (mkMetrics (length (chunks draft)) 0 0) in
  if (max_new_tokens <=? 0)%Z then (tok, none)
  else
    let '(tok, target_tokens) :=
      match override, target_backend with
      | Some cb, _ => (tok, cb prompt_tokens max_new_tokens)
      | None, Some generate => Encode tok (generate (Decode tok prompt_tokens) max_new_tokens)
      | None, None => (tok, d_tokens draft)
      end in
    if bool_decide (target_tokens = []) then (tok, none)
    else
      let limit := Z.to_nat max_new_tokens in
      let '(kept, rest, accepted, reused) := chunks_loop (d_tokens draft) (chunks draft) limit [] target_tokens 0 0 in
      (tok, mkValidation (kept ++ take (limit - length kept) rest)
              (mkMetrics (length (chunks draft)) accepted reused)).

(** The tokens the target produces, whatever was drafted. *)
Definition target_of (override : option (list Z -> Z -> list Z)) (tok : SimpleTokenizer) (prompt_tokens : list Z)
    (draft : SpeculativeDraft) (max_new_tokens : Z) : list Z :=
  match override, target_backend with
  | Some cb, _ => cb prompt_tokens max_new_tokens
  | None, Some generate => (Encode tok (generate (Decode tok prompt_tokens) max_new_tokens)).2
  | None, None => d_tokens draft
  end.
End Decoder.

(** ** Facts *)

(** What one chunk keeps is a common prefix of the chunk and the target. *)
Lemma chunk_tokens_spec fuel draft idx stop kept limit target ks ok :
  chunk_tokens fuel draft idx stop kept limit target = (ks, ok) ->
  exists rest, target = ks ++ rest /\ kept + length ks <= Nat.max kept limit /\
    ks = take (length ks) (drop idx draft).
Proof.
  revert idx kept target ks ok. induction fuel as [|fuel IH]; intros idx kept target ks ok; cbn [chunk_tokens].
  { intros [= <- <-]. exists target. split_and!; [done|simpl; lia|done]. }
  assert (Hnil : exists rest, target = [] ++ rest /\ kept + length (A := Z) [] <= Nat.max kept limit /\
    [] = take (length (A := Z) []) (drop idx draft)) by (exists target; split_and!; [done|simpl; lia|done]).
  destruct (stop <=? idx); [by intros [= <- <-]|]. destruct (limit <=? kept) eqn:El; [by intros [= <- <-]|].
  apply Nat.leb_gt in El. destruct target as [|t target]; [by intros [= <- <-]|].
  destruct (draft !! idx) as [x|] eqn:Ex; [|by intros [= <- <-]].
  case_bool_decide as Et; [|by intros [= <- <-]]. subst x.
  destruct (chunk_tokens fuel draft (S idx) stop (S kept) limit target) as [ks' ok'] eqn:E. intros [= <- <-].
  apply IH in E as (rest & -> & Hl & Hk). exists rest. split_and!; [done|simpl; lia|].
  rewrite (drop_S _ t idx Ex). cbn [length take]. by f_equal.
Qed.

(** Accepted tokens are target tokens: kept and rest always make up the target. *)
Lemma chunks_loop_spec draft cs limit kept target acc re kept' target' acc' re' :
  chunks_loop draft cs limit kept target acc re = (kept', target', acc', re') -> length kept <= limit ->
  kept ++ target = kept' ++ target' /\ length kept' <= limit /\
  re' + length kept = re + length kept' /\ acc' <= acc + length cs.
Proof.
  revert kept target acc re. induction cs as [|ch cs IH]; intros kept target acc re; cbn [chunks_loop].
  { intros [= <- <- <- <-] Hl. split_and!; [done|done|lia|simpl; lia]. }
  assert (Hstop : (kept, target, acc, re) = (kept', target', acc', re') -> length kept <= limit ->
    kept ++ target = kept' ++ target' /\ length kept' <= limit /\ re' + length kept = re + length kept' /\
    acc' <= acc + length (ch :: cs)) by (intros [= <- <- <- <-] Hl; split_and!; [done|done|lia|simpl; lia]).
  destruct (limit <=? length kept) eqn:El; [done|]. apply Nat.leb_gt in El.
  destruct (chunk_tokens _ _ _ _ _ _ _) as [ks ok] eqn:E. case_bool_decide; [done|].
  apply chunk_tokens_spec in E as (rest & -> & Hk & _). rewrite drop_app_length.
  destruct (ok && _).
  - intros HL Hl. apply IH in HL as (H1 & H2 & H3 & H4); [|rewrite length_app; lia].
    rewrite length_app in *. rewrite <- app_assoc in H1. split_and!; [done|done|lia|simpl; lia].
  - intros [= <- <- <- <-] Hl. rewrite length_app, <- app_assoc. split_and!; [done|lia|lia|simpl; lia].
Qed.

(** Speculative decoding does not change the output.  Whatever was drafted,
    in whatever chunks, the validated completion is exactly the target's own
    tokens cut to the requested number; the draft only decides how many of them
    count as reused, which are never more than were returned. *)
Theorem validation_is_lossless target_backend override tok prompt draft n :
  let '(_, r) := Validate target_backend override tok prompt draft n in
  completion_tokens r = take (Z.to_nat n) (target_of target_backend override tok prompt draft n) /\
  reused_tokens (metrics r) <= length (completion_tokens r) /\
  accepted_chunks (metrics r) <= total_chunks (metrics r).
Proof.
  unfold Validate, target_of. destruct (n <=? 0)%Z eqn:En.
  { apply Z.leb_le in En. replace (Z.to_nat n) with 0 by lia. simpl. split_and!; [done|lia|lia]. }
  apply Z.leb_gt in En.
  set (tt := match override with Some cb => _ | None => _ end).
  assert (Ht : tt.2 = match override with Some cb => cb prompt n | None => match target_backend with
    | Some generate => (Encode tok (generate (Decode tok prompt) n)).2 | None => d_tokens draft end end)
    by (subst tt; by destruct override, target_backend).
  rewrite <- Ht. destruct tt as [tok' target]. cbn [snd].
  case_bool_decide as Hnil; [rewrite Hnil; simpl; rewrite take_nil; split_and!; [done|lia|lia]|].
  destruct (chunks_loop _ _ _ _ _ _ _) as [[[kept rest] acc] re] eqn:E.
  apply chunks_loop_spec in E as (H1 & H2 & H3 & H4); [|simpl; lia]. simpl in H1, H3. subst target.
  cbn [completion_tokens metrics reused_tokens accepted_chunks total_chunks]. split_and!.
  - by rewrite take_app, (take_ge kept).
  - rewrite length_app. lia.
  - lia.
Qed.

(** ** How much of a draft is reused *)

(** The length of the longest common prefix. *)
Fixpoint agreement (a b : list Z) : nat :=
  match a, b with
  | x :: a', y :: b' => if bool_decide (x = y) then S (agreement a' b') else 0
  | _, _ => 0
  end.

(** Chunks that cut positions [i] to [j] into consecutive pieces of 1 to [size]. *)
Inductive cuts (size : nat) : nat -> nat -> list SpeculativeChunk -> Prop :=
  | cuts_nil i : cuts size i i []
  | cuts_cons i k j cs : i < k <= i + size -> cuts size k j cs -> cuts size i j (mkChunk i k :: cs).

Lemma cuts_snoc size i j k cs : cuts size i j cs -> j < k <= j + size -> cuts size i k (cs ++ [mkChunk j k]).
Proof. induction 1; intros; simpl; econstructor; eauto. constructor. Qed.

Lemma cuts_le size i j cs : cuts size i j cs -> i <= j.
Proof. induction 1; lia. Qed.

Lemma chunk_loop_cuts fuel size toks dn cs :
  0 < size -> length toks <= fuel -> cuts size 0 (length dn) cs ->
  d_tokens (chunk_loop fuel size toks dn cs) = dn ++ toks /\
  cuts size 0 (length (dn ++ toks)) (chunks (chunk_loop fuel size toks dn cs)).
Proof.
  intros Hs. revert toks dn cs. induction fuel as [|fuel IH]; intros toks dn cs Hf Hc.
  { destruct toks; [|simpl in Hf; lia]. cbn. by rewrite app_nil_r. }
  destruct toks as [|x toks]; [cbn; by rewrite app_nil_r|]. cbn [chunk_loop].
  assert (Hl : length (take size (x :: toks)) = Nat.min size (length (x :: toks))) by apply length_take.
  destruct (IH (drop size (x :: toks)) (dn ++ take size (x :: toks))
               (cs ++ [mkChunk (length dn) (length (dn ++ take size (x :: toks)))])) as [H1 H2].
  - rewrite length_drop. simpl in *. lia.
  - apply cuts_snoc; [done|]. rewrite length_app, Hl. simpl. lia.
  - rewrite <- app_assoc, take_drop in *. done.
Qed.

(** One chunk keeps what agrees, up to its end and the limit. *)
Lemma chunk_tokens_len fuel draft idx stop kept limit target ks ok :
  fuel = stop - idx -> stop <= length draft ->
  chunk_tokens fuel draft idx stop kept limit target = (ks, ok) ->
  length ks = Nat.min (stop - idx) (Nat.min (limit - kept) (agreement (drop idx draft) target)) /\
  (length ks = stop - idx -> ok = true).
Proof.
  intros Hf Hs. revert idx kept target ks ok Hf. induction fuel as [|fuel IH]; intros idx kept target ks ok Hf; cbn [chunk_tokens].
  { intros [= <- <-]. rewrite <- Hf. simpl. split; [lia|done]. }
  destruct (stop <=? idx) eqn:E1; [apply Nat.leb_le in E1; lia|]. apply Nat.leb_gt in E1.
  destruct (limit <=? kept) eqn:E2; [apply Nat.leb_le in E2; intros [= <- <-]; simpl; lia|]. apply Nat.leb_gt in E2.
  destruct (lookup_lt_is_Some_2 draft idx ltac:(lia)) as [x Hx]. rewrite Hx, (drop_S _ x idx Hx).
  destruct target as [|t target]; [intros [= <- <-]; simpl; lia|]. cbn [agreement].
  case_bool_decide; [|intros [= <- <-]; simpl; lia].
  destruct (chunk_tokens fuel draft (S idx) stop (S kept) limit target) as [ks' ok'] eqn:E. intros [= <- <-].
  apply IH in E as [H1 H2]; [|lia]. simpl. split; [lia|]. intros. apply H2. lia.
Qed.

Lemma agreement_drop draft target k :
  k <= agreement draft target -> agreement draft target = k + agreement (drop k draft) (drop k target).
Proof.
  revert draft target. induction k as [|k IH]; intros draft target; [done|].
  destruct draft as [|x draft], target as [|y target]; simpl; try lia.
  case_bool_decide; [|lia]. intros Hk. rewrite (IH draft target) by lia. lia.
Qed.

Lemma chunks_loop_reuse size draft cs limit idx kept target acc re kept' target' acc' re' :
  cuts size idx (length draft) cs -> length kept = idx -> idx <= limit -> re = idx ->
  chunks_loop draft cs limit kept target acc re = (kept', target', acc', re') ->
  re' = Nat.min limit (idx + agreement (drop idx draft) target).
Proof.
  intros Hc. revert kept target acc re. remember (length draft) as n eqn:En.
  induction Hc as [i|i k j cs Hk Hc IH]; intros kept target acc re Hkept Hlim Hre; cbn [chunks_loop].
  { intros [= <- <- <- <-]. subst. rewrite drop_all. destruct target; simpl; lia. }
  pose proof (cuts_le _ _ _ _ Hc) as Hkj.
  destruct (limit <=? length kept) eqn:El; [apply Nat.leb_le in El; intros [= <- <- <- <-]; lia|]. apply Nat.leb_gt in El.
  cbn [c_start c_end].
  destruct (chunk_tokens _ _ _ _ _ _ _) as [ks ok] eqn:E.
  apply chunk_tokens_len in E as [H1 H2]; [|done|lia].
  case_bool_decide as Hnil; [rewrite Hnil in H1; simpl in H1; intros [= <- <- <- <-]; lia|].
  destruct (length ks =? k - i) eqn:Ek.
  - apply Nat.eqb_eq in Ek. rewrite H2 by done. cbn [andb]. intros HL. rewrite Ek in HL.
    apply IH in HL; [|done|rewrite length_app; lia|lia|lia]. rewrite HL.
    rewrite (agreement_drop (drop i draft) target (k - i)) by lia. rewrite drop_drop.
    replace (i + (k - i)) with k by lia. lia.
  - apply Nat.eqb_neq in Ek. rewrite andb_false_r. intros [= <- <- <- <-]. lia.
Qed.

(** A draft pays off exactly as far as it agrees.  The draft holds at most the
    requested number of tokens, in consecutive chunks of one to [chunk_size]
    tokens that cover it; and the number of tokens that validation reuses is the
    length of its common prefix with the target's tokens, cut at the limit. *)
Theorem draft_reuse_is_common_prefix draft_backend target_backend override cfg tok prompt n
  (Hn : (0 < n)%Z) (tok' : SimpleTokenizer) (draft : SpeculativeDraft)
  (Hdraft : Draft draft_backend cfg tok prompt n = (tok', draft)) :
  (Z.of_nat (length (d_tokens draft)) <= n)%Z /\
  cuts (Z.to_nat (Z.max 1 (chunk_size cfg))) 0 (length (d_tokens draft)) (chunks draft) /\
  reused_tokens (metrics (Validate target_backend override tok' prompt draft n).2) =
    Nat.min (Z.to_nat n) (agreement (d_tokens draft) (target_of target_backend override tok' prompt draft n)).
Proof.
  assert (Hd : (Z.of_nat (length (d_tokens draft)) <= n)%Z /\
    cuts (Z.to_nat (Z.max 1 (chunk_size cfg))) 0 (length (d_tokens draft)) (chunks draft)).
  { revert Hdraft. unfold Draft. destruct (_ || _); [intros [= <- <-]; split; [simpl; lia|constructor]|].
    destruct (match draft_backend with Some _ => _ | None => _ end) as [t1 new].
    set (nt := if (n <? Z.of_nat (length new))%Z then _ else _).
    assert (Hnt : (Z.of_nat (length nt) <= n)%Z).
    { subst nt. destruct (n <? _)%Z eqn:E; [rewrite length_take; lia|apply Z.ltb_ge in E; lia]. }
    case_bool_decide; [intros [= <- <-]; split; [simpl; lia|constructor]|]. intros [= <- <-].
    destruct (chunk_loop_cuts (length nt) (Z.to_nat (Z.max 1 (chunk_size cfg))) nt [] []) as [H1 H2];
      [lia|done|constructor|]. rewrite H1. by split. }
  destruct Hd as [Hd1 Hd2]. split_and!; [done..|]. clear Hdraft. unfold Validate, target_of.
  rewrite (proj2 (Z.leb_gt n 0)) by done.
  set (tt := match override with Some cb => _ | None => _ end).
  assert (Ht : tt.2 = match override with Some cb => cb prompt n | None => match target_backend with
    | Some generate => (Encode tok' (generate (Decode tok' prompt) n)).2 | None => d_tokens draft end end)
    by (subst tt; by destruct override, target_backend).
  rewrite <- Ht. destruct tt as [t2 target]. cbn [snd].
  case_bool_decide as Hnil; [rewrite Hnil; simpl; destruct (d_tokens draft); simpl; lia|].
  destruct (chunks_loop _ _ _ _ _ _ _) as [[[kept rest] acc] re] eqn:E. cbn [snd metrics reused_tokens].
  by eapply (chunks_loop_reuse _ _ _ _ 0) in E; [|exact Hd2|done|lia|done].
Qed.

Definition demo_spec : SpeculativeConfig := mkSpec true 256 2.

(** A draft of five tokens in chunks of two, of which the target confirms three. *)
Lemma draft_reuse_is_common_prefix_witness :
  let gen : bytes -> Z -> bytes := fun _ _ => bytes_of "a b c d" in
  let override : list Z -> Z -> list Z := fun _ _ => [1; 3; 4; 9; 9; 9]%Z in
  let '(tok, draft) := Draft (Some gen) demo_spec newTokenizer [1%Z] 8 in
  d_tokens draft = [1; 3; 4; 5; 6]%Z /\ length (chunks draft) = 3 /\
  reused_tokens (metrics (Validate None (Some override) tok [1%Z] draft 8).2) = 3.
Proof.
  cbv zeta. destruct (Draft _ _ _ _ _) as [tok draft] eqn:E.
  pose proof (draft_reuse_is_common_prefix _ None (Some (fun _ _ => [1; 3; 4; 9; 9; 9]%Z)) _ _ _ 8 ltac:(lia) _ _ E)
    as (_ & _ & H). rewrite H. vm_compute in E. injection E as <- <-. vm_compute. split_and!; reflexivity.
Defined.
