(* ===== verification/LaneDispatcher.v ===== *)
(** * runtime/execution/unified_batch_lane_dispatcher

    The two-lane dispatcher of the native backends: callers submit a batch to the
    decode or the prefill lane, one worker thread a lane executes it outside the
    lock, and the caller collects the result by its handle.  Every critical
    section is one step; callers, the sweeper, the two workers and [Stop]
    interleave arbitrarily.  The batch function is code of the backend: its
    outcome, a result or an exception, is part of the worker's step. *)

From stdpp Require Import base tactics numbers list strings gmap sets.
From S2P Require Import Prelude.

Section Dispatcher.
Context {I O : Type}.

Definition kDefaultPendingLimit : nat := 64.

Definition NormalizePendingLimit (value : nat) : nat :=
  Nat.max 1 (if value =? 0 then kDefaultPendingLimit else value).

Record ExecutionResult := mkResult {
  r_success : bool; r_outputs : list O; r_error : string; r_elapsed : Z }.

(** How a call of the batch function ends. *)
Inductive exec_outcome :=
  | Returned (r : ExecutionResult)
  | Threw (what : string)
  | ThrewUnknown.

(** The three arms of the [try] of [WorkerLoop]. *)
Definition caught (o : exec_outcome) : ExecutionResult :=
  match o with
  | Returned r => r
  | Threw what => mkResult false [] what 0
  | ThrewUnknown => mkResult false [] "unknown lane execution exception" 0
  end.

Record WorkItem := mkItem { handle : Z; item_lane : bool; inputs : list I }.

Record PendingState := mkPending {
  p_lane : bool; ready : bool; p_result : ExecutionResult; enqueued_at : Z }.

Definition no_result : ExecutionResult := mkResult false [] "" 0.

(** Where a worker thread is: not running, waiting for work, or executing. *)
Inductive worker_state := WExited | WIdle | WExec (item : WorkItem).

(** The members of one lane; [true] is the decode lane. *)
Record Lane := mkLane { queue : list WorkItem; pending_count : nat; worker : worker_state }.

Record Dispatcher := mkDispatcher {
  max_pending_per_lane : nat;
  next_handle : Z;
  running : bool;
  stopping : bool;
  decode : Lane;
  prefill : Lane;
  pending : gmap Z PendingState }.

Definition lane_of (d : Dispatcher) (b : bool) : Lane := if b then decode d else prefill d.

Definition set_lane (d : Dispatcher) (b : bool) (l : Lane) : Dispatcher :=
  mkDispatcher (max_pending_per_lane d) (next_handle d) (running d) (stopping d)
    (if b then l else decode d) (if b then prefill d else l) (pending d).

Definition set_pending (d : Dispatcher) (m : gmap Z PendingState) : Dispatcher :=
  mkDispatcher (max_pending_per_lane d) (next_handle d) (running d) (stopping d) (decode d) (prefill d) m.

Definition fresh_lane : Lane := mkLane [] 0 WExited.

Definition newDispatcher (limit : nat) : Dispatcher :=
  mkDispatcher (NormalizePendingLimit limit) 1 false false fresh_lane fresh_lane ∅.

(** The part of [Start] after its [Stop], under the lock. *)
Definition StartLocked (d : Dispatcher) : Dispatcher :=
  mkDispatcher (max_pending_per_lane d) (next_handle d) true false
    (mkLane (queue (decode d)) (pending_count (decode d)) WIdle)
    (mkLane (queue (prefill d)) (pending_count (prefill d)) WIdle) (pending d).

(** The first critical section of [Stop]. *)
Definition StopRequest (d : Dispatcher) : Dispatcher :=
  if negb (running d) then d
  else mkDispatcher (max_pending_per_lane d) (next_handle d) (running d) true
         (mkLane [] (pending_count (decode d)) (worker (decode d)))
         (mkLane [] (pending_count (prefill d)) (worker (prefill d))) (pending d).

(** The last one, once both threads were joined. *)
Definition StopJoined (d : Dispatcher) : Dispatcher :=
  mkDispatcher (max_pending_per_lane d) (next_handle d) false false
    (mkLane (queue (decode d)) 0 (worker (decode d)))
    (mkLane (queue (prefill d)) 0 (worker (prefill d))) ∅.

Definition IsRunning (d : Dispatcher) : bool := running d && negb (stopping d).

(** Handle 0 is a refusal. *)
Definition Submit (d : Dispatcher) (ins : list I) (b : bool) (now : Z) : Dispatcher * Z :=
  if bool_decide (length ins = 0) then (d, 0%Z)
  else if negb (running d) || stopping d then (d, 0%Z)
  else
    let l := lane_of d b in
    if max_pending_per_lane d <=? pending_count l then (d, 0%Z)
    else
      let h := next_handle d in
      let m := match pending d !! h with
               | Some _ => pending d
               | None => <[h := mkPending b false no_result now]> (pending d)
               end in
      let d1 := mkDispatcher (max_pending_per_lane d) (u64 (h + 1)) (running d) (stopping d)
                  (decode d) (prefill d) m in
      (set_lane d1 b (mkLane (queue l ++ [mkItem h b ins]) (S (pending_count l)) (worker l)), h).

Inductive CollectStatus := kPending | kSuccess | kFailed | kMissing.

(** The counter of a lane goes down, not below zero. *)
Definition release_permit (d : Dispatcher) (b : bool) : Dispatcher :=
  let l := lane_of d b in set_lane d b (mkLane (queue l) (Nat.pred (pending_count l)) (worker l)).

(** Status and, when there is one, the result. *)
Definition TryCollect (d : Dispatcher) (h : Z) : Dispatcher * (CollectStatus * option ExecutionResult) :=
  if (h =? 0)%Z then (d, (kMissing, None))
  else match pending d !! h with
       | None => (d, (kMissing, None))
       | Some s =>
           if negb (ready s) then (d, (kPending, None))
           else (set_pending (release_permit d (p_lane s)) (delete h (pending d)),
                 (if r_success (p_result s) then kSuccess else kFailed, Some (p_result s)))
       end.

Definition PendingCount (d : Dispatcher) (b : bool) : nat := pending_count (lane_of d b).

(** One turn of the sweep. *)
Definition sweep_one (cutoff : Z) (d : Dispatcher) (e : Z * PendingState) : Dispatcher :=
  if (enqueued_at e.2 <? cutoff)%Z
  then set_pending (release_permit d (p_lane e.2)) (delete e.1 (pending d)) else d.

Definition SweepAbandoned (d : Dispatcher) (now min_age : Z) : Dispatcher :=
  foldl (sweep_one (now - min_age)) d (map_to_list (pending d)).

(** Drops the items whose pending entry was swept. *)
Fixpoint pop_live (m : gmap Z PendingState) (q : list WorkItem) : option WorkItem * list WorkItem :=
  match q with
  | [] => (None, [])
  | item :: q' => match m !! handle item with
                  | Some _ => (Some item, q')
                  | None => pop_live m q'
                  end
  end.

(** The first critical section of a turn of [WorkerLoop]. *)
Definition worker_take (d : Dispatcher) (b : bool) : option Dispatcher :=
  let l := lane_of d b in
  match worker l with
  | WIdle =>
      if negb (stopping d || bool_decide (queue l <> [])) then None
      else if stopping d && bool_decide (queue l = [])
      then Some (set_lane d b (mkLane (queue l) (pending_count l) WExited))
      else let '(item, q) := pop_live (pending d) (queue l) in
           Some (set_lane d b (mkLane q (pending_count l) (match item with Some i => WExec i | None => WIdle end)))
  | _ => None
  end.

(** The second one, after the batch function ended. *)
Definition worker_finish (d : Dispatcher) (b : bool) (o : exec_outcome) : option (Dispatcher * WorkItem) :=
  let l := lane_of d b in
  match worker l with
  | WExec item =>
      let d1 := set_lane d b (mkLane (queue l) (pending_count l) WIdle) in
      Some (match pending d !! handle item with
            | None => d1
            | Some s => set_pending d1
                (<[handle item := mkPending (p_lane s) true (caught o) (enqueued_at s)]> (pending d))
            end, item)
  | _ => None
  end.

(** ** Runs *)

Inductive label :=
  | LStart
  | LStopRequest
  | LStopJoined
  | LSubmit (ins : list I) (b : bool) (now : Z)
  | LCollect (h : Z)
  | LSweep (now min_age : Z)
  | LTake (b : bool)
  | LFinish (b : bool) (o : exec_outcome).

(** The dispatcher with what happened so far. *)
Record config := mkConfig {
  disp : Dispatcher;
  submitted : list WorkItem;
  executed : list (WorkItem * ExecutionResult);
  collected : list (Z * ExecutionResult) }.

Definition is_exited (w : worker_state) : bool := match w with WExited => true | _ => false end.

(** [None]: the step is not enabled. *)
Definition exec_label (c : config) (l : label) : option config :=
  let d := disp c in
  let keep d := Some (mkConfig d (submitted c) (executed c) (collected c)) in
  match l with
  | LStart => if running d then None else keep (StartLocked d)
  | LStopRequest => keep (StopRequest d)
  | LStopJoined =>
      if stopping d && is_exited (worker (decode d)) && is_exited (worker (prefill d))
      then keep (StopJoined d) else None
  | LSubmit ins b now =>
      let '(d', h) := Submit d ins b now in
      Some (mkConfig d' (if (h =? 0)%Z then submitted c else submitted c ++ [mkItem h b ins])
              (executed c) (collected c))
  | LCollect h =>
      let '(d', (_, r)) := TryCollect d h in
      Some (mkConfig d' (submitted c) (executed c)
              (match r with Some r => collected c ++ [(h, r)] | None => collected c end))
  | LSweep now min_age => keep (SweepAbandoned d now min_age)
  | LTake b => d' ← worker_take d b; keep d'
  | LFinish b o =>
      '(d', item) ← worker_finish d b o;
      Some (mkConfig d' (submitted c) (executed c ++ [(item, caught o)]) (collected c))
  end.

Fixpoint run (c : config) (ls : list label) : option config :=
  match ls with
  | [] => Some c
  | l :: ls' => c' ← exec_label c l; run c' ls'
  end.

Definition start_config (limit : nat) : config := mkConfig (newDispatcher limit) [] [] [].

(** ** The invariant *)

Definition executing (l : Lane) : list WorkItem := match worker l with WExec i => [i] | _ => [] end.

(** The items a lane still has to execute or is executing. *)
Definition active (d : Dispatcher) (b : bool) : list WorkItem :=
  executing (lane_of d b) ++ queue (lane_of d b).

Definition in_lane (b : bool) (m : gmap Z PendingState) : nat :=
  size (filter (fun e => p_lane e.2 = b) m).

Record inv (c : config) : Prop := {
  i_next : next_handle (disp c) = Z.of_nat (S (length (submitted c)));
  i_handles : handle <$> submitted c = Z.of_nat <$> seq 1 (length (submitted c));
  i_active : forall b, Forall (fun i => item_lane i = b /\ i ∈ submitted c) (active (disp c) b);
  i_once : NoDup (handle <$> (active (disp c) true ++ active (disp c) false ++ (executed c).*1));
  i_exec : Forall (fun e => e.1 ∈ submitted c) (executed c);
  i_pending : forall h s, pending (disp c) !! h = Some s ->
    exists i, i ∈ submitted c /\ handle i = h /\ item_lane i = p_lane s /\
      if ready s then (i, p_result s) ∈ executed c
      else stopping (disp c) = true \/ i ∈ active (disp c) (p_lane s);
  i_collected : Forall (fun e => pending (disp c) !! e.1 = None /\
    exists i, handle i = e.1 /\ i ∈ submitted c /\ (i, e.2) ∈ executed c) (collected c);
  i_collected_once : NoDup (collected c).*1;
  i_count : forall b, pending_count (lane_of (disp c) b) = in_lane b (pending (disp c));
  i_bound : forall b, pending_count (lane_of (disp c) b) <= max_pending_per_lane (disp c);
  i_stop : stopping (disp c) = true -> running (disp c) = true /\ forall b, queue (lane_of (disp c) b) = [];
  i_idle : running (disp c) = false -> pending (disp c) = ∅ /\ forall b, active (disp c) b = [] }.

Lemma lane_of_set d b l b' : lane_of (set_lane d b l) b' = if bool_decide (b = b') then l else lane_of d b'.
Proof. by destruct b, b'. Qed.

Lemma lane_of_pending d m b : lane_of (set_pending d m) b = lane_of d b.
Proof. by destruct b. Qed.

Lemma in_lane_insert b m h s :
  m !! h = None -> in_lane b (<[h := s]> m) = (if bool_decide (p_lane s = b) then 1 else 0) + in_lane b m.
Proof.
  intros Hm. unfold in_lane. case_bool_decide as Hs.
  - rewrite map_filter_insert_True by done. rewrite map_size_insert_None; [done|].
    apply map_lookup_filter_None. by left.
  - rewrite map_filter_insert_False by done. by rewrite delete_id.
Qed.

Lemma in_lane_delete b m h s :
  m !! h = Some s -> in_lane b m = (if bool_decide (p_lane s = b) then 1 else 0) + in_lane b (delete h m).
Proof. intros Hm. rewrite <- (insert_delete_id m h s Hm) at 1. apply in_lane_insert, lookup_delete_eq. Qed.

Lemma in_lane_update b m h s s' :
  m !! h = Some s -> p_lane s' = p_lane s -> in_lane b (<[h := s']> m) = in_lane b m.
Proof.
  intros Hm Hl. rewrite <- insert_delete_eq, in_lane_insert by apply lookup_delete_eq.
  by rewrite (in_lane_delete b m h s Hm), Hl.
Qed.

Lemma submitted_unique c i j : inv c -> i ∈ submitted c -> j ∈ submitted c -> handle i = handle j -> i = j.
Proof.
  intros Hc Hi Hj E. eapply (NoDup_fmap_eq handle); try done. rewrite (i_handles c Hc).
  apply (NoDup_fmap_2 Z.of_nat), NoDup_seq.
Qed.

Lemma submitted_range c i : inv c -> i ∈ submitted c -> (1 <= handle i < next_handle (disp c))%Z.
Proof.
  intros Hc Hi. rewrite (i_next c Hc). apply (list_elem_of_fmap_2 handle) in Hi. rewrite (i_handles c Hc) in Hi.
  apply list_elem_of_fmap in Hi as (k & -> & Hk). apply elem_of_seq in Hk. lia.
Qed.

Lemma start_inv limit : inv (start_config limit).
Proof.
  constructor; simpl; try done; try constructor.
  - by intros [].
  - by intros [].
  - intros [] ; simpl; lia.
  - done.
  - by intros [].
Qed.

Lemma active_release d m b b' : active (set_pending (release_permit d b) m) b' = active d b'.
Proof. by destruct b, b'. Qed.

(** Giving up a pending entry and its permit, by collecting or by sweeping. *)
Lemma drop_pending_inv c h s :
  inv c -> pending (disp c) !! h = Some s ->
  inv (mkConfig (set_pending (release_permit (disp c) (p_lane s)) (delete h (pending (disp c))))
         (submitted c) (executed c) (collected c)).
Proof.
  intros Hc Hs. destruct Hc as [H1 H2 H3 H4 H5 H6 H7 H8 H9 H10 H11 H12].
  constructor; cbn [disp submitted executed collected]; try done.
  - intros b. rewrite active_release. apply H3.
  - by rewrite !active_release.
  - intros h' s'. cbn [pending set_pending]. intros [Hne Hl]%lookup_delete_Some.
    rewrite active_release. by apply H6.
  - apply (Forall_impl _ _ _ H7). intros e [He Hi]. split; [|done].
    change (delete h (pending (disp c)) !! e.1 = None). by rewrite lookup_delete_None; right.
  - intros b. rewrite lane_of_pending. unfold release_permit. rewrite lane_of_set. cbn [pending set_pending].
    pose proof (in_lane_delete b _ _ _ Hs) as Hd. specialize (H9 b).
    case_bool_decide as E; cbn [pending_count]; subst; lia.
  - intros b. rewrite lane_of_pending. unfold release_permit. rewrite lane_of_set.
    specialize (H10 b). case_bool_decide as E; cbn [pending_count]; subst; cbn; lia.
  - intros Hst. destruct (H11 Hst) as [Hr Hq]. split; [done|]. intros b.
    rewrite lane_of_pending. unfold release_permit. rewrite lane_of_set. case_bool_decide; subst; apply Hq.
  - intros Hr. destruct (H12 Hr) as [Hp _]. rewrite Hp in Hs. by rewrite lookup_empty in Hs.
Qed.

Lemma sweep_inv c now min_age :
  inv c -> inv (mkConfig (SweepAbandoned (disp c) now min_age) (submitted c) (executed c) (collected c)).
Proof.
  intros Hc. unfold SweepAbandoned.
  assert (Hgen : forall es d, inv (mkConfig d (submitted c) (executed c) (collected c)) ->
    NoDup es.*1 -> Forall (fun e => pending d !! e.1 = Some e.2) es ->
    inv (mkConfig (foldl (sweep_one (now - min_age)) d es) (submitted c) (executed c) (collected c))).
  { clear Hc. induction es as [|[h s] es IH]; intros d Hc Hnd Hes; [done|]. cbn [foldl].
    apply NoDup_cons in Hnd as [Hh Hnd]. apply Forall_cons in Hes as [Hs Hes]. simpl in Hs, Hh.
    unfold sweep_one at 2. cbn [fst snd]. destruct (_ <? _)%Z; [|by apply IH].
    apply IH; [apply (drop_pending_inv _ h s Hc Hs)|done|].
    apply Forall_forall. intros e He. rewrite Forall_forall in Hes. specialize (Hes e He).
    change (delete h (pending d) !! e.1 = Some e.2). rewrite lookup_delete_ne; [done|].
    intros ->. apply Hh. by apply list_elem_of_fmap_2. }
  apply Hgen; [by destruct c|apply NoDup_fst_map_to_list|].
  apply Forall_forall. intros [h s] He. by apply elem_of_map_to_list in He.
Qed.

Lemma collect_inv c h c' : inv c -> exec_label c (LCollect h) = Some c' -> inv c'.
Proof.
  intros Hc. cbn [exec_label]. unfold TryCollect. destruct (h =? 0)%Z; [intros [= <-]; by destruct c|].
  destruct (pending (disp c) !! h) as [s|] eqn:Hs; [|intros [= <-]; by destruct c].
  destruct (ready s) eqn:Hr; [|intros [= <-]; by destruct c]. cbn [negb]. intros [= <-].
  destruct (i_pending c Hc h s Hs) as (i & Hi & Hh & _ & Hex). rewrite Hr in Hex.
  pose proof (drop_pending_inv c h s Hc Hs) as [H1 H2 H3 H4 H5 H6 H7 H8 H9 H10 H11 H12].
  constructor; cbn [disp submitted executed collected] in *; try done.
  - apply Forall_app. split; [done|]. constructor; [|constructor]. cbn [fst snd].
    split; [apply lookup_delete_eq|]. eauto.
  - rewrite fmap_app. apply NoDup_app. split_and!; [done| |apply NoDup_singleton].
    intros h' Hin Heq%list_elem_of_singleton. cbn in Heq. subst h'.
    apply list_elem_of_fmap in Hin as ([h' r] & -> & He). simpl in *.
    destruct (proj1 (Forall_forall _ _) (i_collected c Hc) _ He) as [Hnone _]. simpl in Hnone. congruence.
Qed.

(** What an accepted submission makes of the dispatcher. *)
Definition accept (d : Dispatcher) (ins : list I) (b : bool) (now : Z) : Dispatcher :=
  let h := next_handle d in
  let l := lane_of d b in
  set_lane (mkDispatcher (max_pending_per_lane d) (u64 (h + 1)) (running d) (stopping d) (decode d) (prefill d)
              (<[h := mkPending b false no_result now]> (pending d)))
    b (mkLane (queue l ++ [mkItem h b ins]) (S (pending_count l)) (worker l)).

Lemma Submit_cases d ins b now :
  pending d !! next_handle d = None ->
  Submit d ins b now = (d, 0%Z) \/
  (running d = true /\ stopping d = false /\ pending_count (lane_of d b) < max_pending_per_lane d /\
   Submit d ins b now = (accept d ins b now, next_handle d)).
Proof.
  intros Hf. unfold Submit. case_bool_decide; [by left|].
  destruct (negb (running d) || stopping d) eqn:Hrun; [by left|].
  apply orb_false_iff in Hrun as [Hr%negb_false_iff Hst].
  destruct (_ <=? _) eqn:Hcap; [by left|]. apply Nat.leb_gt in Hcap. right.
  split_and!; [done..|exact Hcap|]. by rewrite Hf.
Qed.

Lemma accept_active d ins b now b' :
  active (accept d ins b now) b' =
  active d b' ++ if bool_decide (b = b') then [mkItem (next_handle d) b ins] else [].
Proof.
  unfold active, accept. rewrite lane_of_set. case_bool_decide as E.
  - subst. unfold executing. cbn [worker queue]. by rewrite app_assoc.
  - rewrite app_nil_r. by destruct b'.
Qed.

Lemma known_handle c i h :
  inv c -> next_handle (disp c) = h ->
  i ∈ submitted c \/ i ∈ active (disp c) true \/ i ∈ active (disp c) false \/ i ∈ (executed c).*1 -> handle i <> h.
Proof.
  intros Hc <- Hi. assert (Hs : i ∈ submitted c).
  { destruct Hi as [|[Hi|[Hi|Hi]]]; [done|..].
    - by apply (proj1 (Forall_forall _ _) (i_active c Hc true)) in Hi as [_ ?].
    - by apply (proj1 (Forall_forall _ _) (i_active c Hc false)) in Hi as [_ ?].
    - apply list_elem_of_fmap in Hi as (e & -> & He). by apply (proj1 (Forall_forall _ _) (i_exec c Hc)) in He. }
  apply (submitted_range c i Hc) in Hs. lia.
Qed.

Lemma accept_once c ins b now :
  inv c ->
  NoDup (handle <$> (active (accept (disp c) ins b now) true ++ active (accept (disp c) ins b now) false ++ (executed c).*1)).
Proof.
  intros Hc. set (it := mkItem (next_handle (disp c)) b ins). rewrite !accept_active. fold it.
  assert (HP : (active (disp c) true ++ (if bool_decide (b = true) then [it] else [])) ++
    (active (disp c) false ++ (if bool_decide (b = false) then [it] else [])) ++ (executed c).*1 ≡ₚ
    it :: active (disp c) true ++ active (disp c) false ++ (executed c).*1).
  { destruct b; simpl; rewrite ?app_nil_r; solve_Permutation. }
  rewrite HP, fmap_cons. apply NoDup_cons. split; [|apply (i_once c Hc)].
  intros (i & E & Hi)%list_elem_of_fmap. apply (known_handle c i (next_handle (disp c)) Hc eq_refl); [|symmetry; exact E].
  rewrite !elem_of_app in Hi. tauto.
Qed.

Lemma submit_inv c ins b now c' :
  inv c -> (Z.of_nat (length (submitted c)) + 2 < 2 ^ 64)%Z ->
  exec_label c (LSubmit ins b now) = Some c' -> inv c'.
Proof.
  intros Hc Hsmall. cbn [exec_label]. set (h := next_handle (disp c)). pose proof (i_next c Hc) as Hn.
  assert (Hfresh : pending (disp c) !! h = None).
  { apply eq_None_not_Some. intros [s Hs]. destruct (i_pending c Hc h s Hs) as (i & Hi & Hh & _).
    apply (known_handle c i h Hc eq_refl); [by left|done]. }
  destruct (Submit_cases (disp c) ins b now Hfresh) as [->|(Hr & Hst & Hcap & ->)]; [intros [= <-]; by destruct c|].
  assert ((next_handle (disp c) =? 0)%Z = false) as -> by (apply Z.eqb_neq; lia). intros [= <-].
  pose proof (accept_once c ins b now Hc) as Honce.
  assert (Hin : forall i, i ∈ submitted c -> handle i <> h) by (intros i Hi; apply (known_handle c i h Hc eq_refl); left; exact Hi).
  set (it := mkItem (next_handle (disp c)) b ins) in *. destruct Hc as [H1 H2 H3 H4 H5 H6 H7 H8 H9 H10 H11 H12].
  constructor; cbn [disp submitted executed collected]; try done.
  - change (u64 (h + 1) = Z.of_nat (S (length (submitted c ++ [it])))). rewrite length_app. simpl length.
    rewrite u64_small by lia. lia.
  - rewrite fmap_app, length_app, H2. simpl length. rewrite seq_app, fmap_app. f_equal. simpl. f_equal. lia.
  - intros b'. rewrite accept_active. apply Forall_app. split.
    + apply (Forall_impl _ _ _ (H3 b')). intros i [? ?]. split; [done|]. set_solver.
    + case_bool_decide; [|constructor]. constructor; [|constructor]. subst. split; [done|]. set_solver.
  - apply (Forall_impl _ _ _ H5). set_solver.
  - change (pending (accept (disp c) ins b now)) with (<[h:=mkPending b false no_result now]> (pending (disp c))).
    intros h' s' [[<- <-]|[Hne Hl]]%lookup_insert_Some.
    + exists it. cbn [p_lane ready]. split_and!; [set_solver|done|done|]. right. rewrite accept_active.
      rewrite bool_decide_eq_true_2 by done. set_solver.
    + destruct (H6 h' s' Hl) as (i & Hi & Hh & Hlane & Hrest). exists i. split_and!; [set_solver|done|done|].
      destruct (ready s'); [done|]. destruct Hrest as [|Ha]; [by left|]. right. rewrite accept_active. set_solver.
  - apply (Forall_impl _ _ _ H7). intros e [He (i & Ei & Hi & Hx)]. split; [|exists i; set_solver].
    change (<[h:=mkPending b false no_result now]> (pending (disp c)) !! e.1 = None).
    rewrite lookup_insert_ne; [done|]. rewrite <- Ei. by apply not_eq_sym, Hin.
  - intros b'. change (pending (accept (disp c) ins b now)) with (<[h:=mkPending b false no_result now]> (pending (disp c))).
    rewrite in_lane_insert by done. unfold accept. rewrite lane_of_set. cbn [p_lane].
    case_bool_decide; subst; cbn [pending_count]; [by rewrite H9|]. by destruct b'; rewrite <- H9.
  - intros b'. unfold accept. rewrite lane_of_set. specialize (H10 b').
    case_bool_decide; subst; cbn [pending_count max_pending_per_lane set_lane]; [lia|]. by destruct b'.
  - intros E. change (stopping (disp c) = true) in E. congruence.
  - intros E. change (running (disp c) = false) in E. congruence.
Qed.

(** A step that leaves the histories alone and only shrinks the lanes' work. *)
Lemma shrink_inv c d' :
  inv c ->
  next_handle d' = next_handle (disp c) -> max_pending_per_lane d' = max_pending_per_lane (disp c) ->
  pending d' = pending (disp c) -> (forall b, pending_count (lane_of d' b) = pending_count (lane_of (disp c) b)) ->
  (forall b, active d' b `sublist_of` active (disp c) b) ->
  (forall h s i, pending (disp c) !! h = Some s -> handle i = h -> stopping (disp c) = true \/ i ∈ active (disp c) (p_lane s) ->
    stopping d' = true \/ i ∈ active d' (p_lane s)) ->
  (stopping d' = true -> running d' = true /\ forall b, queue (lane_of d' b) = []) ->
  (running d' = false -> pending (disp c) = ∅ /\ forall b, active d' b = []) ->
  inv (mkConfig d' (submitted c) (executed c) (collected c)).
Proof.
  intros [H1 H2 H3 H4 H5 H6 H7 H8 H9 H10 H11 H12] Hn Hm Hp Hcnt Hact Hpend Hs Hr.
  constructor; cbn [disp submitted executed collected]; rewrite ?Hn, ?Hm, ?Hp; try done.
  - intros b. apply Forall_forall. intros i Hi. apply (proj1 (Forall_forall _ _) (H3 b)).
    by apply (elem_of_sublist _ _ _ Hi).
  - eapply sublist_NoDup; [exact H4|]. apply fmap_sublist.
    apply sublist_app; [apply Hact|]. apply sublist_app; [apply Hact|done].
  - intros h s Hl. destruct (H6 h s Hl) as (i & Hi & Hh & Hlane & Hrest). exists i. split_and!; try done.
    destruct (ready s); [done|]. by eapply Hpend.
  - intros b. by rewrite Hcnt.
  - intros b. by rewrite Hcnt.
Qed.

Lemma pop_live_spec m q o q' :
  pop_live m q = (o, q') ->
  exists dropped, q = dropped ++ option_list o ++ q' /\ Forall (fun i => m !! handle i = None) dropped /\
    (o = None -> q' = []).
Proof.
  revert o q'. induction q as [|i q IH]; intros o q'; simpl.
  - intros [= <- <-]. by exists [].
  - destruct (m !! handle i) as [s|] eqn:E.
    + intros [= <- <-]. by exists [].
    + intros (dr & -> & Hd & Hn)%IH. exists (i :: dr). split_and!; [done|by constructor|done].
Qed.

Lemma take_inv c b c' : inv c -> exec_label c (LTake b) = Some c' -> inv c'.
Proof.
  intros Hc. cbn [exec_label]. unfold worker_take.
  destruct (worker (lane_of (disp c) b)) eqn:Hw; try done.
  destruct (negb _); [done|].
  assert (Hexec : active (disp c) b = queue (lane_of (disp c) b)) by (unfold active, executing; by rewrite Hw).
  destruct (stopping (disp c) && bool_decide (queue (lane_of (disp c) b) = [])) eqn:Hst.
  - apply andb_true_iff in Hst as [Hst Hq%bool_decide_eq_true]. intros [= <-].
    apply shrink_inv; try done.
    + intros b'. rewrite lane_of_set. by case_bool_decide; subst.
    + intros b'. unfold active at 1. rewrite lane_of_set. case_bool_decide as E; [|done]. subst.
      cbn [queue]. rewrite Hq. apply sublist_nil_l.
    + intros h s i _ _ _. by left.
    + intros _. destruct (i_stop c Hc Hst) as [Hr Hqs]. split; [done|]. intros b'. rewrite lane_of_set.
      case_bool_decide; subst; cbn [queue]; apply Hqs.
    + intros Hr. destruct (i_stop c Hc Hst) as [Hr' _]. change (running (disp c) = false) in Hr. congruence.
  - clear Hst. destruct (pop_live _ _) as [o q'] eqn:Hpop. apply pop_live_spec in Hpop as (dr & Hq & Hd & Hnil).
    intros [= <-].
    assert (Hnew : forall b', active (set_lane (disp c) b (mkLane q' (pending_count (lane_of (disp c) b))
      (match o with Some i => WExec i | None => WIdle end))) b' =
      if bool_decide (b = b') then option_list o ++ q' else active (disp c) b').
    { intros b'. unfold active at 1. rewrite lane_of_set. destruct (bool_decide (b = b')); [|done]. by destruct o. }
    apply shrink_inv; try done.
    + intros b'. rewrite lane_of_set. by case_bool_decide; subst.
    + intros b'. rewrite Hnew. case_bool_decide; subst; [|done]. rewrite Hexec, Hq. by apply sublist_inserts_l.
    + intros h s i Hs Hi [|Ha]; [by left|]. right. rewrite Hnew. case_bool_decide as E; [|done]. subst b.
      rewrite Hexec, Hq in Ha. apply elem_of_app in Ha as [Ha|Ha]; [|exact Ha].
      apply (proj1 (Forall_forall _ _) Hd) in Ha. subst. congruence.
    + intros Hs. destruct (i_stop c Hc Hs) as [Hr Hqs]. split; [done|]. intros b'. rewrite lane_of_set.
      case_bool_decide; subst; [|apply Hqs]. cbn [queue]. rewrite Hqs in Hq.
      by apply eq_sym, app_eq_nil in Hq as [_ [_ ->]%app_eq_nil].
    + intros Hr. destruct (i_idle c Hc Hr) as [Hp Ha]. split; [done|]. intros b'. rewrite Hnew.
      case_bool_decide; [|apply Ha]. specialize (Ha b). rewrite Hexec, Hq in Ha.
      by apply app_eq_nil in Ha as [_ ->].
Qed.

(** A worker's turn ends: its item moves from the active ones to the executed. *)
Lemma finish_inv c b o c' : inv c -> exec_label c (LFinish b o) = Some c' -> inv c'.
Proof.
  intros Hc. cbn [exec_label]. unfold worker_finish.
  destruct (worker (lane_of (disp c) b)) as [| |item] eqn:Hw; try done. cbn [mbind option_bind].
  set (d1 := set_lane _ _ _).
  set (m := match pending (disp c) !! handle item with
            | Some s => <[handle item := mkPending (p_lane s) true (caught o) (enqueued_at s)]> (pending (disp c))
            | None => pending (disp c) end).
  assert (Ed : match pending (disp c) !! handle item with
            | Some s => set_pending d1 (<[handle item := mkPending (p_lane s) true (caught o) (enqueued_at s)]> (pending (disp c)))
            | None => d1 end = set_pending d1 m) by (subst m; by destruct (pending (disp c) !! handle item)).
  rewrite Ed. intros [= <-]. clear Ed.
  assert (Hold : active (disp c) b = item :: queue (lane_of (disp c) b)) by (unfold active, executing; by rewrite Hw).
  assert (Hnew : forall b', active (set_pending d1 m) b' =
    if bool_decide (b = b') then queue (lane_of (disp c) b) else active (disp c) b').
  { intros b'. unfold active at 1. rewrite lane_of_pending. subst d1. rewrite lane_of_set.
    by destruct (bool_decide (b = b')). }
  assert (Hitem : item_lane item = b /\ item ∈ submitted c).
  { apply (proj1 (Forall_forall _ _) (i_active c Hc b)). rewrite Hold. left. }
  assert (Hcnt : forall b', in_lane b' m = in_lane b' (pending (disp c))).
  { intros b'. subst m. destruct (pending (disp c) !! handle item) eqn:E; [|done]. by eapply in_lane_update. }
  assert (Hnone : forall h, pending (disp c) !! h = None -> m !! h = None).
  { intros h Hh. subst m. destruct (pending (disp c) !! handle item) eqn:E; [|done].
    rewrite lookup_insert_ne; [done|]. congruence. }
  assert (Hm : forall h s, m !! h = Some s ->
    (h = handle item /\ ready s = true /\ p_result s = caught o /\ exists s0, pending (disp c) !! h = Some s0 /\ p_lane s0 = p_lane s)
    \/ (h <> handle item /\ pending (disp c) !! h = Some s)).
  { intros h s. subst m. destruct (pending (disp c) !! handle item) as [s0|] eqn:E.
    - intros [[<- <-]|[Hne Hl]]%lookup_insert_Some; [left|right]; naive_solver.
    - intros Hl. right. split; [|done]. congruence. }
  clearbody m. pose proof Hc as [H1 H2 H3 H4 H5 H6 H7 H8 H9 H10 H11 H12].
  constructor; cbn [disp submitted executed collected]; try done.
  - intros b'. rewrite Hnew. case_bool_decide; [|apply H3]. subst b'. specialize (H3 b). rewrite Hold in H3.
    by apply Forall_cons in H3 as [_ ?].
  - rewrite !Hnew.
    assert (HP : (if bool_decide (b = true) then queue (lane_of (disp c) b) else active (disp c) true) ++
      (if bool_decide (b = false) then queue (lane_of (disp c) b) else active (disp c) false) ++
      (executed c ++ [(item, caught o)]).*1 ≡ₚ active (disp c) true ++ active (disp c) false ++ (executed c).*1).
    { rewrite (fmap_app fst). destruct b; simpl; rewrite Hold; solve_Permutation. }
    by rewrite HP.
  - apply Forall_app. split; [done|]. constructor; [apply Hitem|constructor].
  - cbn [pending set_pending]. intros h s [(-> & Hr & Hres & s0 & Hs0 & El)|[Hne Hs]]%Hm.
    + exists item. rewrite Hr, Hres. destruct (H6 _ _ Hs0) as (i & Hi & Hh & Hl & _).
      assert (i = item) as -> by (eapply submitted_unique; try done; apply Hitem).
      split_and!; [done|done|congruence|set_solver].
    + destruct (H6 h s Hs) as (i & Hi & Hh & Hl & Hrest). exists i. split_and!; [done..|].
      destruct (ready s); [set_solver|]. destruct Hrest as [|Ha]; [by left|]. right. rewrite Hnew.
      case_bool_decide as E; [|done]. subst b. rewrite Hold in Ha. apply elem_of_cons in Ha as [->|]; [done|done].
  - apply (Forall_impl _ _ _ H7). intros e [He (i & Ei & Hi & Hx)]. split; [by apply Hnone|]. exists i. set_solver.
  - intros b'. cbn [pending set_pending]. rewrite Hcnt, <- H9, lane_of_pending. subst d1. rewrite lane_of_set.
    by case_bool_decide; subst.
  - intros b'. rewrite lane_of_pending. specialize (H10 b'). subst d1. rewrite lane_of_set. by case_bool_decide; subst.
  - intros Hs. destruct (H11 Hs) as [Hr Hq]. split; [done|]. intros b'. rewrite lane_of_pending. subst d1.
    rewrite lane_of_set. case_bool_decide; subst; apply Hq.
  - intros Hr. destruct (H12 Hr) as [_ Ha]. specialize (Ha b). by rewrite Hold in Ha.
Qed.

Lemma active_nil d b : active d b = [] -> executing (lane_of d b) = [] /\ queue (lane_of d b) = [].
Proof. apply app_eq_nil. Qed.

Lemma start_stop_inv c l c' :
  inv c -> l = LStart \/ l = LStopRequest \/ l = LStopJoined -> exec_label c l = Some c' -> inv c'.
Proof.
  intros Hc [->|[->| ->]]; cbn [exec_label].
  - destruct (running (disp c)) eqn:Hr; [done|]. intros [= <-]. destruct (i_idle c Hc Hr) as [Hp Ha].
    assert (Hnew : forall b, active (StartLocked (disp c)) b = [])
      by (intros b; destruct (active_nil _ b (Ha b)) as [_ Hq]; by destruct b).
    apply shrink_inv; try done.
    + by intros [].
    + intros b. rewrite Hnew. apply sublist_nil_l.
    + intros h s i Hs. rewrite Hp in Hs. by rewrite lookup_empty in Hs.
  - intros [= <-]. unfold StopRequest. destruct (running (disp c)) eqn:Hr; cbn [negb]; [|by destruct c].
    apply shrink_inv; try done.
    + by intros [].
    + intros b. unfold active. destruct b; cbn; rewrite app_nil_r; by apply sublist_inserts_r.
    + intros. by left.
    + intros _. split; [done|]. by intros [].
  - destruct (stopping (disp c)) eqn:Hst; [|done]. destruct (worker (decode (disp c))) eqn:H1; try done.
    destruct (worker (prefill (disp c))) eqn:H2; try done. intros [= <-].
    destruct (i_stop c Hc Hst) as [_ Hq].
    assert (Hnew : forall b, active (StopJoined (disp c)) b = []).
    { intros b. specialize (Hq b). destruct b; unfold active, executing; cbn; rewrite ?H1, ?H2; exact Hq. }
    destruct Hc as [I1 I2 I3 I4 I5 I6 I7 I8 I9 I10 I11 I12].
    constructor; cbn [disp submitted executed collected]; try done.
    + intros b. rewrite Hnew. constructor.
    + apply (Forall_impl _ _ _ I7). intros e [_ ?]. split; [apply lookup_empty|done].
    + by intros [].
    + intros []; simpl; lia.
Qed.

Lemma label_inv c l c' :
  inv c -> (Z.of_nat (length (submitted c)) + 2 < 2 ^ 64)%Z -> exec_label c l = Some c' -> inv c'.
Proof.
  intros Hc Hn He. destruct l; try (eapply start_stop_inv; [exact Hc| |exact He]; tauto).
  - by eapply submit_inv.
  - by eapply collect_inv.
  - injection He as <-. by apply sweep_inv.
  - by eapply take_inv.
  - by eapply finish_inv.
Qed.

Lemma label_submitted c l c' : exec_label c l = Some c' -> length (submitted c') <= S (length (submitted c)).
Proof.
  destruct l as [| | |ins b now|h|now age|b|b o]; cbn [exec_label].
  - destruct (running _); [done|]. intros [= <-]. simpl. lia.
  - intros [= <-]. simpl. lia.
  - destruct (_ && _); [|done]. intros [= <-]. simpl. lia.
  - destruct (Submit _ _ _ _) as [d h]. intros [= <-]. simpl. destruct (h =? 0)%Z; rewrite ?length_app; simpl; lia.
  - destruct (TryCollect _ _) as [d [st r]]. intros [= <-]. simpl. lia.
  - intros [= <-]. simpl. lia.
  - destruct (worker_take _ _); [|done]. intros [= <-]. simpl. lia.
  - destruct (worker_finish _ _ _) as [[d i]|]; [|done]. intros [= <-]. simpl. lia.
Qed.

Lemma run_inv c ls c' :
  inv c -> (Z.of_nat (length (submitted c) + length ls) + 2 < 2 ^ 64)%Z -> run c ls = Some c' -> inv c'.
Proof.
  revert c. induction ls as [|l ls IH]; intros c Hc Hn; cbn [run]; [by intros [= <-]|].
  destruct (exec_label c l) as [c1|] eqn:E; [|done]. cbn [mbind option_bind].
  pose proof (label_submitted c l c1 E). simpl length in Hn. apply IH; [eapply label_inv; try done; lia|lia].
Qed.

(** ** Workers stay alive while the dispatcher runs *)

Definition live (d : Dispatcher) : Prop :=
  IsRunning d = true -> forall b, worker (lane_of d b) <> WExited.

(** Same flags, same workers. *)
Definition same_threads (d d' : Dispatcher) : Prop :=
  running d' = running d /\ stopping d' = stopping d /\ forall b, worker (lane_of d' b) = worker (lane_of d b).

Lemma same_threads_live d d' : same_threads d d' -> live d -> live d'.
Proof. intros (H1 & H2 & H3) Hl. unfold live, IsRunning. rewrite H1, H2. intros Hr b. rewrite H3. by apply Hl. Qed.

Lemma drop_same_threads d b m : same_threads d (set_pending (release_permit d b) m).
Proof. split_and!; [done..|]. by intros []; destruct b. Qed.

Lemma sweep_same_threads d now age : same_threads d (SweepAbandoned d now age).
Proof.
  unfold SweepAbandoned. generalize (map_to_list (pending d)). intros es. revert d.
  induction es as [|e es IH]; intros d; [done|]. cbn [foldl].
  assert (Hs : same_threads d (sweep_one (now - age) d e))
    by (unfold sweep_one; destruct (_ <? _)%Z; [apply drop_same_threads|done]).
  destruct Hs as (H1 & H2 & H3), (IH (sweep_one (now - age) d e)) as (G1 & G2 & G3).
  split_and!; [congruence..|]. intros b. by rewrite G3, H3.
Qed.

Lemma label_live c l c' : live (disp c) -> exec_label c l = Some c' -> live (disp c').
Proof.
  intros Hl. destruct l as [| | |ins b now|h|now age|b|b o]; cbn [exec_label].
  - destruct (running _); [done|]. intros [= <-] _. by intros [].
  - intros [= <-]. unfold StopRequest. destruct (running (disp c)) eqn:E; [|done].
    intros Hr. unfold IsRunning in Hr. cbn in Hr. done.
  - destruct (_ && _); [|done]. by intros [= <-].
  - unfold Submit. case_bool_decide; [by intros [= <-]|]. destruct (negb _ || _); [by intros [= <-]|].
    destruct (_ <=? _); intros [= <-]; [done|]. eapply same_threads_live; [|exact Hl].
    split_and!; [done..|]. intros b'. destruct (pending _ !! _); by destruct b, b'.
  - unfold TryCollect. destruct (h =? 0)%Z; [by intros [= <-]|].
    destruct (pending _ !! h) as [s|]; [|by intros [= <-]]. destruct (ready s); intros [= <-]; [|done].
    eapply same_threads_live; [apply drop_same_threads|done].
  - intros [= <-]. eapply same_threads_live; [apply sweep_same_threads|done].
  - unfold worker_take. destruct (worker _) eqn:Hw; try done. destruct (negb _); [done|].
    destruct (stopping (disp c)) eqn:Hs; destruct (bool_decide _); cbn [andb].
    1-2: intros Ht; assert (stopping (disp c') = true) as Hs'
      by (repeat case_match; simplify_option_eq; done); unfold live, IsRunning; rewrite Hs'; by rewrite andb_false_r.
    all: destruct (pop_live _ _) as [[i|] q]; intros [= <-] Hr b'; specialize (Hl Hr b'); cbn [disp];
      rewrite lane_of_set; case_bool_decide; done.
  - unfold worker_finish. destruct (worker _) eqn:Hw; try done. intros [= <-] Hr b'.
    assert (Hr' : IsRunning (disp c) = true) by (by destruct (pending _ !! _)). specialize (Hl Hr' b').
    cbn [disp]. destruct (pending _ !! _); rewrite ?lane_of_pending, lane_of_set; by case_bool_decide.
Qed.

Lemma run_live c ls c' : live (disp c) -> run c ls = Some c' -> live (disp c').
Proof.
  revert c. induction ls as [|l ls IH]; intros c Hl; cbn [run]; [by intros [= <-]|].
  destruct (exec_label c l) eqn:E; [|done]. cbn [mbind option_bind]. apply IH. by eapply label_live.
Qed.

Lemma lane_run_app c ls ls' : run c (ls ++ ls') = c' ← run c ls; run c' ls'.
Proof.
  revert c. induction ls as [|l ls IH]; intros c; [done|]. cbn [app run].
  destruct (exec_label c l); [|done]. apply IH.
Qed.

Lemma run_submitted c ls c' : run c ls = Some c' -> length (submitted c') <= length (submitted c) + length ls.
Proof.
  revert c. induction ls as [|l ls IH]; intros c; cbn [run]; [intros [= <-]; lia|].
  destruct (exec_label c l) as [c1|] eqn:E; [|done]. cbn [mbind option_bind]. intros H%IH.
  pose proof (label_submitted c l c1 E). simpl. lia.
Qed.

(** *** A waiting batch is executed by its lane alone *)

(** The worker labels of one lane; every call of the batch function ends with [o]. *)
Definition lane_label (b : bool) (o : exec_outcome) (l : label) : Prop := l = LTake b \/ l = LFinish b o.

(** Finishing an item: [h] becomes ready, or keeps waiting behind a shorter lane. *)
Lemma finish_turn c b o item :
  worker (lane_of (disp c) b) = WExec item ->
  exists c', exec_label c (LFinish b o) = Some c' /\ IsRunning (disp c') = IsRunning (disp c) /\
    submitted c' = submitted c /\
    length (active (disp c) b) = S (length (active (disp c') b)) /\
    (forall h, h <> handle item -> pending (disp c') !! h = pending (disp c) !! h) /\
    (forall s, pending (disp c) !! handle item = Some s ->
      exists s', pending (disp c') !! handle item = Some s' /\ ready s' = true).
Proof.
  intros Hw. cbn [exec_label]. unfold worker_finish. rewrite Hw. cbn [mbind option_bind].
  eexists. split; [done|]. cbn [disp submitted].
  assert (Hlen : length (active (disp c) b) = S (length (queue (lane_of (disp c) b))))
    by (unfold active, executing; by rewrite Hw).
  destruct (pending (disp c) !! handle item) as [s|] eqn:E; split_and!; try done.
  - rewrite Hlen. unfold active. rewrite lane_of_pending, lane_of_set. by rewrite bool_decide_eq_true_2.
  - intros h Hne. cbn [pending set_pending]. by rewrite lookup_insert_ne.
  - intros s0 _. cbn [pending set_pending]. rewrite lookup_insert_eq. by eexists.
  - rewrite Hlen. unfold active. rewrite lane_of_set. by rewrite bool_decide_eq_true_2.
Qed.

(** Taking work when a live item waits. *)
Lemma take_turn c b i :
  IsRunning (disp c) = true -> worker (lane_of (disp c) b) = WIdle ->
  i ∈ queue (lane_of (disp c) b) -> is_Some (pending (disp c) !! handle i) ->
  exists c' item, exec_label c (LTake b) = Some c' /\ IsRunning (disp c') = true /\ submitted c' = submitted c /\
    worker (lane_of (disp c') b) = WExec item /\ pending (disp c') = pending (disp c) /\
    length (active (disp c') b) <= length (active (disp c) b).
Proof.
  intros Hr Hw Hi Hp. cbn [exec_label]. unfold worker_take. rewrite Hw.
  assert (Hst : stopping (disp c) = false) by (unfold IsRunning in Hr; destruct (running (disp c)), (stopping (disp c)); done).
  assert (Hq : queue (lane_of (disp c) b) <> []) by (intros E; rewrite E in Hi; by apply not_elem_of_nil in Hi).
  rewrite Hst, bool_decide_eq_true_2 by done. cbn [orb negb andb].
  destruct (pop_live _ _) as [o q'] eqn:Hpop. apply pop_live_spec in Hpop as (dr & Eq & Hd & Hnone).
  destruct o as [item|].
  - eexists _, item. split; [done|]. cbn [disp submitted]. split_and!; try done.
    + by rewrite lane_of_set, bool_decide_eq_true_2.
    + unfold active, executing. rewrite lane_of_set, bool_decide_eq_true_2 by done. cbn [worker queue].
      rewrite Hw, Eq. cbn [option_list]. rewrite !length_app. simpl. lia.
  - rewrite Hnone, app_nil_r in Eq by done. cbn [option_list] in Eq. rewrite app_nil_r in Eq || idtac.
    rewrite Eq in Hi. apply (proj1 (Forall_forall _ _) Hd) in Hi. rewrite Hi in Hp. by destruct Hp.
Qed.

Lemma lane_drains b o h n c s :
  inv c -> live (disp c) -> IsRunning (disp c) = true ->
  pending (disp c) !! h = Some s -> ready s = false -> p_lane s = b -> length (active (disp c) b) <= n ->
  (Z.of_nat (length (submitted c)) + 2 < 2 ^ 64)%Z ->
  exists ls c', Forall (lane_label b o) ls /\ length ls <= 2 * n /\ run c ls = Some c' /\
    exists s', pending (disp c') !! h = Some s' /\ ready s' = true.
Proof.
  revert c. induction n as [|n IH]; intros c Hc Hl Hr Hs Hready Hb Hn Hsub.
  all: destruct (i_pending c Hc h s Hs) as (i & Hi & Hh & _ & Hrest); rewrite Hready, Hb in Hrest.
  all: assert (Ha : i ∈ active (disp c) b) by (destruct Hrest as [E|]; [|done];
    unfold IsRunning in Hr; rewrite E, andb_false_r in Hr; done).
  { destruct (active (disp c) b); [by apply not_elem_of_nil in Ha|simpl in Hn; lia]. }
  assert (Hexec : forall c1 item, inv c1 -> live (disp c1) -> IsRunning (disp c1) = true -> submitted c1 = submitted c ->
    worker (lane_of (disp c1) b) = WExec item -> pending (disp c1) !! h = Some s ->
    length (active (disp c1) b) <= S n ->
    exists ls c', Forall (lane_label b o) ls /\ length ls <= S (2 * n) /\ run c1 ls = Some c' /\
      exists s', pending (disp c') !! h = Some s' /\ ready s' = true).
  { intros c1 item Hc1 Hl1 Hr1 Hsub1 Hw1 Hs1 Hn1.
    destruct (finish_turn c1 b o item Hw1) as (c2 & E2 & Hr2 & Hsub2 & Hlen & Hother & Hthis).
    destruct (decide (h = handle item)) as [->|Hne].
    - destruct (Hthis s Hs1) as (s' & Hs' & Hrdy). exists [LFinish b o], c2.
      split_and!; [constructor; [by right|constructor]|simpl; lia|cbn [run]; by rewrite E2|eauto].
    - assert (Hc2 : inv c2) by (eapply label_inv; [exact Hc1|by rewrite Hsub1|exact E2]).
      destruct (IH c2 Hc2) as (ls & c' & Hls & Hlen' & Hrun & Hs'); try done.
      + by eapply label_live.
      + by rewrite Hr2.
      + by rewrite Hother.
      + lia.
      + by rewrite Hsub2, Hsub1.
      + exists (LFinish b o :: ls), c'. split_and!; [constructor; [by right|done]|simpl; lia|cbn [run]; by rewrite E2|done]. }
  destruct (worker (lane_of (disp c) b)) as [| |item] eqn:Hw.
  - by destruct (Hl Hr b).
  - assert (Hq : i ∈ queue (lane_of (disp c) b)) by (unfold active, executing in Ha; by rewrite Hw in Ha).
    destruct (take_turn c b i Hr Hw Hq) as (c1 & item & E1 & Hr1 & Hsub1 & Hw1 & Hp1 & Hlen1); [rewrite Hh; eauto|].
    destruct (Hexec c1 item) as (ls & c' & Hls & Hlen' & Hrun & Hs'); try done.
    + by eapply label_inv.
    + by eapply label_live.
    + by rewrite Hp1.
    + lia.
    + exists (LTake b :: ls), c'. split_and!; [constructor; [by left|done]|simpl; lia|cbn [run]; by rewrite E1|done].
  - destruct (Hexec c item) as (ls & c' & Hls & Hlen' & Hrun & Hs'); try done. exists ls, c'. split_and!; try done. lia.
Qed.

(** ** Properties *)

(** C16: every batch is executed at most once, and every caller gets the result of
    its own batch, once.  However callers, the sweeper, the two workers and
    start/stop interleave: handles are distinct, no handle is executed twice, a
    collected result is the outcome of executing exactly the inputs submitted
    under that handle on the lane they were submitted to, and no handle is
    collected twice.  (A run of fewer than 2^64 steps, so that the handle counter
    does not wrap.) *)
Theorem batches_delivered_once (limit : nat) (ls : list label) (c : config)
  (Hlen : (Z.of_nat (length ls) + 2 < 2 ^ 64)%Z) (Hrun : run (start_config limit) ls = Some c) :
  NoDup (handle <$> submitted c) /\
  NoDup ((fun e => handle e.1) <$> executed c) /\
  (forall h r, (h, r) ∈ collected c ->
    exists item, item ∈ submitted c /\ handle item = h /\ (item, r) ∈ executed c) /\
  NoDup (collected c).*1.
Proof.
  pose proof (run_inv _ _ _ (start_inv limit) Hlen Hrun) as Hc. split_and!.
  - rewrite (i_handles c Hc). apply (NoDup_fmap_2 Z.of_nat), NoDup_seq.
  - pose proof (i_once c Hc) as H. rewrite !fmap_app, !NoDup_app in H.
    destruct H as (_ & _ & _ & _ & H). by rewrite <- list_fmap_compose in H.
  - intros h r Hin. destruct (proj1 (Forall_forall _ _) (i_collected c Hc) _ Hin) as (_ & i & ? & ? & ?). eauto.
  - apply (i_collected_once c Hc).
Qed.

(** The lane counters never drift.  In every reachable state a lane's counter
    is the number of its pending entries — submissions minus collections and
    sweeps — and stays within the configured limit, so abandoned handles that are
    swept do not use up the lane. *)
Theorem lane_permits_exact (limit : nat) (ls : list label) (c : config) (b : bool)
  (Hlen : (Z.of_nat (length ls) + 2 < 2 ^ 64)%Z) (Hrun : run (start_config limit) ls = Some c) :
  PendingCount (disp c) b = size (filter (fun e => p_lane e.2 = b) (pending (disp c))) /\
  PendingCount (disp c) b <= max_pending_per_lane (disp c).
Proof.
  pose proof (run_inv _ _ _ (start_inv limit) Hlen Hrun) as Hc.
  split; [apply (i_count c Hc)|apply (i_bound c Hc)].
Qed.

(** C26: no batch gets stuck.  In every reachable state of a running dispatcher, a
    pending batch that is not ready becomes ready by the steps of its own lane's
    worker alone, at most two for every batch the lane still has, whatever the
    calls of the batch function return or throw: the worker threads survive
    exceptions and skip swept items. *)
Theorem pending_batch_completes (limit : nat) (ls : list label) (c : config) (h : Z) (s : PendingState) (o : exec_outcome)
  (Hlen : (Z.of_nat (length ls) + 2 < 2 ^ 64)%Z) (Hrun : run (start_config limit) ls = Some c)
  (Hup : IsRunning (disp c) = true) (Hs : pending (disp c) !! h = Some s) (Hready : ready s = false) :
  exists ls' c', Forall (lane_label (p_lane s) o) ls' /\ length ls' <= 2 * length (active (disp c) (p_lane s)) /\
    run c ls' = Some c' /\ exists s', pending (disp c') !! h = Some s' /\ ready s' = true.
Proof.
  pose proof (run_inv _ _ _ (start_inv limit) Hlen Hrun) as Hc.
  assert (Hl : live (disp c)) by (eapply run_live; [|exact Hrun]; done).
  assert (Hsub : length (submitted c) <= length ls) by (by eapply run_submitted in Hrun).
  eapply (lane_drains _ _ _ _ c s); try done. lia.
Qed.
End Dispatcher.

(** *** A run: three submissions, one swept before it runs, one that throws *)

Definition demo_labels : list (label (I := nat) (O := nat)) :=
  [LStart; LSubmit [1; 2] true 10; LSubmit [3] true 20; LSubmit [4] false 30;
   LSweep 100 85; LTake true; LFinish true (Threw "oom"); LTake false;
   LFinish false (Returned (mkResult true [40] "" 1)); LCollect 2; LCollect 3].

(** Where the run is after [n] steps. *)
Definition demo_at (n : nat) : config (I := nat) (O := nat) :=
  default (start_config 4) (run (start_config 4) (take n demo_labels)).

Lemma batches_delivered_once_witness :
  collected (demo_at 11) = [(2%Z, mkResult false [] "oom" 0); (3%Z, mkResult true [40] "" 1)] /\
  NoDup (collected (demo_at 11)).*1.
Proof.
  split; [vm_compute; reflexivity|].
  apply (batches_delivered_once 4 demo_labels (demo_at 11)); vm_compute; reflexivity.
Defined.

Lemma lane_permits_exact_witness :
  PendingCount (disp (demo_at 5)) true = 1 /\
  PendingCount (disp (demo_at 5)) true <= max_pending_per_lane (disp (demo_at 5)).
Proof.
  split; [vm_compute; reflexivity|].
  apply (lane_permits_exact 4 (take 5 demo_labels) (demo_at 5) true); vm_compute; reflexivity.
Defined.

Lemma pending_batch_completes_witness :
  exists ls c' s', run (demo_at 5) ls = Some c' /\ pending (disp c') !! 2%Z = Some s' /\ ready s' = true.
Proof.
  destruct (pending_batch_completes 4 (take 5 demo_labels) (demo_at 5) 2%Z (mkPending true false no_result 20) ThrewUnknown)
    as (ls & c' & _ & _ & Hr & s' & Hs' & Hrd); [vm_compute; reflexivity..|].
  exists ls, c', s'. split_and!; assumption.
Defined.
