(* ===== verification/KVTransport.v ===== *)
(** * runtime/disaggregated: kv_channel and shm_kv_transport

    The hand-over of prefilled KV state: an in-process queue, and the same queue
    carrying only the name of a shared-memory segment that holds the state.
    Shared memory is a map from names to bytes; the outcome of [shm_open],
    [ftruncate] and [mmap] is an argument of each call.  The two transports are
    meant to be substitutable; the end of the file proves that they are. *)

From stdpp Require Import base tactics numbers list strings pretty gmap sets.
From Stdlib Require Import Ascii.
From S2P Require Import Prelude StringUtils.

Inductive KVTicketStage := kNone | kEnqueued | kAcknowledged | kCommitted | kTimedOut.

Definition KVTicketStageToString (stage : KVTicketStage) : bytes :=
  match stage with
  | kEnqueued => bytes_of "enqueued"
  | kAcknowledged => bytes_of "acknowledged"
  | kCommitted => bytes_of "committed"
  | kTimedOut => bytes_of "timed_out"
  | kNone => bytes_of "none"
  end.

Record KVPacket := mkPacket {
  request_id : Z; ticket_id : Z; ticket_stage : KVTicketStage;
  prompt_tokens : bytes; kv_blob : bytes; kv_page : Z; n_past : Z; sequence_id : Z;
  metadata : bytes; enqueue_time : Z }.

Definition set_metadata (p : KVPacket) (m : bytes) : KVPacket :=
  mkPacket (request_id p) (ticket_id p) (ticket_stage p) (prompt_tokens p) (kv_blob p) (kv_page p)
    (n_past p) (sequence_id p) m (enqueue_time p).

Definition set_blob (p : KVPacket) (b : bytes) : KVPacket :=
  mkPacket (request_id p) (ticket_id p) (ticket_stage p) (prompt_tokens p) b (kv_page p)
    (n_past p) (sequence_id p) (metadata p) (enqueue_time p).

Definition AppendControlMetadata (p : KVPacket) : KVPacket :=
  let m1 := if (0 <? ticket_id p)%Z
            then metadata p ++ bytes_of "|ticket=" ++ bytes_of (pretty (ticket_id p))
                 ++ bytes_of "|ticket_stage=" ++ KVTicketStageToString (ticket_stage p)
            else metadata p in
  let m2 := if (0 <=? kv_page p)%Z then m1 ++ bytes_of "|kv_page=" ++ bytes_of (pretty (kv_page p)) else m1 in
  set_metadata p m2.

(** ** KVChannel *)

Record KVChannel := mkChannel {
  queue : list KVPacket; ticket_stages : gmap Z KVTicketStage; capacity : nat }.

Definition newChannel (cap : nat) : KVChannel := mkChannel [] ∅ (Nat.max 1 cap).

Definition SetCapacity (c : KVChannel) (cap : nat) : KVChannel :=
  let cap := Nat.max 1 cap in
  mkChannel (drop (length (queue c) - cap) (queue c)) (ticket_stages c) cap.

Definition Capacity (c : KVChannel) : nat := capacity c.

Definition Enqueue (c : KVChannel) (p : KVPacket) : KVChannel * bool :=
  if capacity c <=? length (queue c) then (c, false)
  else (mkChannel (queue c ++ [AppendControlMetadata p])
          (if (0 <? ticket_id p)%Z then <[ticket_id p := ticket_stage p]> (ticket_stages c) else ticket_stages c)
          (capacity c), true).

Definition TryDequeue (c : KVChannel) : KVChannel * option KVPacket :=
  match queue c with
  | [] => (c, None)
  | p :: q => (mkChannel q (ticket_stages c) (capacity c), Some p)
  end.

Definition Size (c : KVChannel) : nat := length (queue c).

Definition UpdateTicketStage (c : KVChannel) (id : Z) (stage : KVTicketStage) : KVChannel * bool :=
  if (id =? 0)%Z then (c, false)
  else match ticket_stages c !! id with
       | None => (c, false)
       | Some _ => (mkChannel (queue c) (<[id := stage]> (ticket_stages c)) (capacity c), true)
       end.

Definition GetTicketStage (c : KVChannel) (id : Z) : KVTicketStage :=
  if (id =? 0)%Z then kNone else default kNone (ticket_stages c !! id).

Definition Clear (c : KVChannel) : KVChannel := mkChannel [] ∅ (capacity c).

(** ** ShmKVTransport *)

(** The control queue, the shared-memory segments and the process-wide counter. *)
Record ShmKVTransport := mkShm {
  control_queue : KVChannel; segments : gmap bytes bytes; g_shm_seq : Z }.

Definition newShm (cap : nat) : ShmKVTransport := mkShm (newChannel cap) ∅ 0.

Definition MakeShmName (request seq : Z) : bytes :=
  bytes_of "/ifx_kv_" ++ bytes_of (pretty request) ++ bytes_of "_" ++ bytes_of (pretty seq).

Definition shm_key : bytes := bytes_of "|shm=".
Definition size_key : bytes := bytes_of "|size=".

(** The bytes before the first ['|']. *)
Fixpoint until_bar (s : bytes) : bytes :=
  match s with
  | [] => []
  | c :: s' => if bool_decide (c = "|"%char) then [] else c :: until_bar s'
  end.

Definition ExtractShmName (m : bytes) : bytes :=
  match find_sub shm_key m with
  | None => []
  | Some pos => until_bar (drop (pos + 5) m)
  end.

(** [std::stoull]; [None] for either exception. *)
Definition stoull (s : bytes) : option Z :=
  match scan_int s with
  | Some (v, _) => if (Z.abs v <? 2 ^ 64)%Z then Some (u64 v) else None
  | None => None
  end.

Definition ExtractShmSize (m : bytes) : Z :=
  match find_sub size_key m with
  | None => 0
  | Some pos => default 0%Z (stoull (drop (pos + 6) m))
  end.

(** The calls of one [Enqueue]; the exclusive open also fails on an existing name. *)
Record shm_io := mkIo { open_ok : bool; truncate_ok : bool; map_ok : bool }.

Definition with_queue (t : ShmKVTransport) (c : KVChannel) : ShmKVTransport :=
  mkShm c (segments t) (g_shm_seq t).

Definition shm_Enqueue (io : shm_io) (t : ShmKVTransport) (p : KVPacket) : ShmKVTransport * bool :=
  let inline (t : ShmKVTransport) :=
    let '(c, ok) := Enqueue (control_queue t) p in (with_queue t c, ok) in
  if bool_decide (kv_blob p = []) then inline t
  else
    let name := MakeShmName (request_id p) (g_shm_seq t) in
    let t1 := mkShm (control_queue t) (segments t) (u64 (g_shm_seq t + 1)) in
    if negb (open_ok io) || bool_decide (is_Some (segments t !! name)) then inline t1
    else if negb (truncate_ok io) then inline t1
    else if negb (map_ok io) then inline t1
    else
      let p1 := set_blob (set_metadata p (metadata p ++ shm_key ++ name ++ size_key
                            ++ bytes_of (pretty (Z.of_nat (length (kv_blob p)))))) [] in
      let '(c, ok) := Enqueue (control_queue t1) p1 in
      (mkShm c (if ok then <[name := kv_blob p]> (segments t1) else segments t1) (g_shm_seq t1), ok).

(** [map_ok]: whether mapping the segment succeeds. *)
Definition shm_TryDequeue (map_ok : bool) (t : ShmKVTransport) : ShmKVTransport * option KVPacket :=
  let '(c, maybe) := TryDequeue (control_queue t) in
  let t := with_queue t c in
  match maybe with
  | None => (t, None)
  | Some pkt =>
      let name := ExtractShmName (metadata pkt) in
      let blob_size := ExtractShmSize (metadata pkt) in
      if bool_decide (name <> []) && (0 <? blob_size)%Z then
        match segments t !! name with
        | None => (t, None)
        | Some blob =>
            let t' := mkShm (control_queue t) (delete name (segments t)) (g_shm_seq t) in
            if map_ok then (t', Some (set_blob pkt (take (Z.to_nat blob_size) blob))) else (t', None)
        end
      else (t, Some pkt)
  end.

(** ** Reading the metadata back *)

(** Metadata as fields: a base text and fields that each follow a ['|']. *)
Definition meta (base : bytes) (fields : list bytes) : bytes :=
  base ++ flat_map (fun f => "|"%char :: f) fields.

Definition no_bar (s : bytes) : Prop := "|"%char ∉ s.

Lemma meta_app base fs gs : meta base (fs ++ gs) = meta base fs ++ flat_map (fun f => "|"%char :: f) gs.
Proof. unfold meta. by rewrite flat_map_app, app_assoc. Qed.

Lemma starts_with_bar pat a rest :
  no_bar pat -> (rest = [] \/ exists r, rest = "|"%char :: r) ->
  starts_with pat (a ++ rest) = starts_with pat a.
Proof.
  unfold no_bar. intros Hp Hr. revert a. induction pat as [|c pat IH]; intros a; [done|].
  destruct a as [|x a]; simpl.
  - destruct Hr as [->|[r ->]]; [done|]. simpl. by rewrite bool_decide_eq_false_2 by set_solver.
  - f_equal. apply IH. set_solver.
Qed.

Lemma fields_start fs : flat_map (fun f : bytes => "|"%char :: f) fs = [] \/
  exists r, flat_map (fun f : bytes => "|"%char :: f) fs = "|"%char :: r.
Proof. destruct fs; simpl; eauto. Qed.

Lemma find_field_None pat base fs :
  no_bar base -> no_bar pat -> Forall (fun f => no_bar f /\ starts_with pat f = false) fs ->
  find_sub ("|"%char :: pat) (meta base fs) = None.
Proof.
  intros Hb Hp Hf. revert base Hb. induction Hf as [|f fs [Hn Hs] _ IH]; intros base Hb.
  - unfold meta. rewrite find_sub_skip by done. done.
  - unfold meta. rewrite find_sub_skip by done. cbn [flat_map app find_sub starts_with].
    rewrite bool_decide_eq_true_2 by done. cbn [andb].
    rewrite starts_with_bar by (done || apply fields_start). rewrite Hs.
    specialize (IH f Hn). unfold meta in IH. by rewrite IH.
Qed.

Lemma find_field_Some pat base pre v post :
  no_bar base -> no_bar pat -> Forall (fun f => no_bar f /\ starts_with pat f = false) pre ->
  exists pos, find_sub ("|"%char :: pat) (meta base (pre ++ (pat ++ v) :: post)) = Some pos /\
    drop (pos + S (length pat)) (meta base (pre ++ (pat ++ v) :: post)) =
    v ++ flat_map (fun f => "|"%char :: f) post.
Proof.
  intros Hb Hp Hf. revert base Hb. induction Hf as [|f fs [Hn Hs] _ IH]; intros base Hb.
  - exists (length base). unfold meta. rewrite find_sub_skip by done. cbn [app flat_map find_sub].
    assert (starts_with ("|"%char :: pat) ("|"%char :: (pat ++ v) ++ flat_map (fun f => "|"%char :: f) post) = true) as ->.
    { apply starts_with_spec. exists (v ++ flat_map (fun f => "|"%char :: f) post). simpl. by rewrite <- app_assoc. }
    cbn [fmap option_fmap option_map]. split; [f_equal; lia|]. rewrite drop_app_add. cbn [drop].
    by rewrite <- app_assoc, drop_app_length.
  - destruct (IH f Hn) as (pos & Hpos & Hdrop).
    exists (length base + S pos). unfold meta in *. rewrite find_sub_skip by done.
    cbn [app flat_map find_sub starts_with]. rewrite bool_decide_eq_true_2 by done. cbn [andb].
    rewrite starts_with_bar by (done || apply fields_start). rewrite Hs, Hpos. cbn.
    split; [done|]. rewrite <- Nat.add_assoc, drop_app_add. cbn [Nat.add drop]. done.
Qed.

Lemma until_bar_app a rest :
  no_bar a -> (rest = [] \/ exists r, rest = "|"%char :: r) -> until_bar (a ++ rest) = a.
Proof.
  unfold no_bar. intros Ha Hr. induction a as [|c a IH].
  - destruct Hr as [->|[r ->]]; [done|]. cbn. done.
  - cbn [app until_bar]. rewrite bool_decide_eq_false_2 by set_solver. by rewrite IH by set_solver.
Qed.

(** The fields the control queue adds. *)
Definition control_fields (p : KVPacket) : list bytes :=
  (if (0 <? ticket_id p)%Z
   then [bytes_of "ticket=" ++ bytes_of (pretty (ticket_id p));
         bytes_of "ticket_stage=" ++ KVTicketStageToString (ticket_stage p)] else [])
  ++ (if (0 <=? kv_page p)%Z then [bytes_of "kv_page=" ++ bytes_of (pretty (kv_page p))] else []).

Lemma append_control p base fs :
  metadata p = meta base fs -> metadata (AppendControlMetadata p) = meta base (fs ++ control_fields p).
Proof.
  intros Hm. unfold AppendControlMetadata, control_fields. cbn [metadata set_metadata]. rewrite Hm.
  destruct (0 <? ticket_id p)%Z, (0 <=? kv_page p)%Z; rewrite ?app_nil_r, ?app_nil_l; rewrite ?meta_app;
    cbn [flat_map app]; rewrite <- ?app_assoc; cbn [app]; rewrite ?app_nil_r; rewrite <- ?app_assoc; reflexivity.
Qed.

Lemma pretty_no_bar (z : Z) : no_bar (bytes_of (pretty z)).
Proof.
  intros Hin. pose proof (pretty_chars z) as HF. rewrite Forall_forall in HF.
  destruct (HF _ Hin) as [[? [=]]|[=]].
Qed.

Lemma no_bar_app a b : no_bar a -> no_bar b -> no_bar (a ++ b).
Proof. unfold no_bar. set_solver. Qed.

Lemma no_bar_const s : bool_decide ("|"%char ∉ bytes_of s) = true -> no_bar (bytes_of s).
Proof. apply bool_decide_eq_true_1. Qed.

Lemma control_fields_ok key p :
  key = bytes_of "shm=" \/ key = bytes_of "size=" ->
  Forall (fun f => no_bar f /\ starts_with key f = false) (control_fields p).
Proof.
  intros Hkey. unfold control_fields. apply Forall_app. split.
  - destruct (0 <? ticket_id p)%Z; [|constructor]. constructor; [|constructor; [|constructor]]; split.
    + apply no_bar_app; [by apply no_bar_const|apply pretty_no_bar].
    + by destruct Hkey as [->| ->].
    + apply no_bar_app; [by apply no_bar_const|]. destruct (ticket_stage p); by apply no_bar_const.
    + by destruct Hkey as [->| ->].
  - destruct (0 <=? kv_page p)%Z; [|constructor]. constructor; [|constructor]. split.
    + apply no_bar_app; [by apply no_bar_const|apply pretty_no_bar].
    + by destruct Hkey as [->| ->].
Qed.

Lemma MakeShmName_ok r k : no_bar (MakeShmName r k) /\ MakeShmName r k <> [].
Proof.
  split; [|done]. unfold MakeShmName.
  repeat apply no_bar_app; try apply pretty_no_bar; by apply no_bar_const.
Qed.

(** No field, nothing extracted. *)
Lemma extract_inline p : no_bar (metadata p) -> ExtractShmName (metadata (AppendControlMetadata p)) = [].
Proof.
  intros Hb. rewrite (append_control p (metadata p) []) by (unfold meta; by rewrite app_nil_r).
  unfold ExtractShmName. change shm_key with ("|"%char :: bytes_of "shm=").
  rewrite find_field_None; [done|done|by apply no_bar_const|]. apply control_fields_ok. by left.
Qed.

Lemma scan_digits_bar (n : N) rest :
  (rest = [] \/ exists r, rest = "|"%char :: r) ->
  scan_digits (bytes_of (pretty n) ++ rest) 0 = (Z.of_N n, rest).
Proof.
  intros Hr. assert (Hgen : forall s acc v, scan_digits s acc = (v, []) -> scan_digits (s ++ rest) acc = (v, rest)).
  { induction s as [|c s IH]; intros acc v; cbn [scan_digits app].
    - intros [= <-]. by destruct Hr as [->|[r ->]].
    - destruct (digit_val c); [apply IH|done]. }
  apply Hgen, scan_digits_N.
Qed.

Lemma stoull_size (n : nat) rest :
  (Z.of_nat n < 2 ^ 64)%Z -> (rest = [] \/ exists r, rest = "|"%char :: r) ->
  stoull (bytes_of (pretty (Z.of_nat n)) ++ rest) = Some (Z.of_nat n).
Proof.
  intros Hn Hr. unfold stoull.
  assert (Hs : scan_int (bytes_of (pretty (Z.of_nat n)) ++ rest) = Some (Z.of_nat n, rest)).
  { replace (bytes_of (pretty (Z.of_nat n))) with (bytes_of (pretty (N.of_nat n))) by (by destruct n).
    destruct (pretty_N_head (N.of_nat n)) as (c & l & E & Hd).
    pose proof (scan_digits_bar (N.of_nat n) rest Hr) as Hscan. rewrite E in *.
    destruct (digit_not_special c Hd) as (H1 & H2 & H3). destruct Hd as [d Hd].
    unfold scan_int. cbn [app drop_while] in *. rewrite H1. rewrite !bool_decide_eq_false_2 by done.
    rewrite Hd, Hscan. by rewrite nat_N_Z. }
  rewrite Hs, (proj2 (Z.ltb_lt _ _)) by lia. by rewrite u64_small by lia.
Qed.

(** The name and the size come back. *)
Lemma extract_shm (p : KVPacket) (name blob : bytes) :
  no_bar (metadata p) -> no_bar name -> (Z.of_nat (length blob) < 2 ^ 64)%Z ->
  let p1 := set_blob (set_metadata p (metadata p ++ shm_key ++ name ++ size_key
              ++ bytes_of (pretty (Z.of_nat (length blob))))) [] in
  ExtractShmName (metadata (AppendControlMetadata p1)) = name /\
  ExtractShmSize (metadata (AppendControlMetadata p1)) = Z.of_nat (length blob).
Proof.
  intros Hb Hn Hl p1. set (size := bytes_of (pretty (Z.of_nat (length blob)))).
  rewrite (append_control p1 (metadata p) [bytes_of "shm=" ++ name; bytes_of "size=" ++ size]).
  2: { subst p1. cbn [metadata set_blob set_metadata]. unfold meta. cbn [flat_map].
       rewrite app_nil_r. unfold shm_key, size_key. cbn [app]. by rewrite <- ?app_assoc. }
  split.
  - unfold ExtractShmName. change shm_key with ("|"%char :: bytes_of "shm=").
    destruct (find_field_Some (bytes_of "shm=") (metadata p) [] name
      ((bytes_of "size=" ++ size) :: control_fields p1)) as (pos & H1 & H2);
      [done|by apply no_bar_const|constructor|].
    cbn [app] in *. rewrite H1. change (pos + 5) with (pos + S (length (bytes_of "shm="))). rewrite H2.
    apply until_bar_app; [done|apply fields_start].
  - unfold ExtractShmSize. change size_key with ("|"%char :: bytes_of "size=").
    destruct (find_field_Some (bytes_of "size=") (metadata p) [bytes_of "shm=" ++ name] size
      (control_fields p1)) as (pos & H1 & H2); [done|by apply no_bar_const| |].
    { constructor; [|constructor]. split; [|done]. apply no_bar_app; [by apply no_bar_const|done]. }
    cbn [app] in *. rewrite H1. change (pos + 6) with (pos + S (length (bytes_of "size="))). rewrite H2.
    subst size. by rewrite stoull_size by (done || apply fields_start).
Qed.

(** ** IKVTransport: what a transport promises *)

Class KVTransport (T : Type) := {
  t_enqueue : shm_io -> T -> KVPacket -> T * bool;
  t_dequeue : T -> T * option KVPacket;
  t_size : T -> nat;
  t_capacity : T -> nat;
  t_update : T -> Z -> KVTicketStage -> T * bool;
  t_stage : T -> Z -> KVTicketStage }.

#[export] Instance channel_transport : KVTransport KVChannel := {
  t_enqueue := fun _ => Enqueue;
  t_dequeue := TryDequeue;
  t_size := Size;
  t_capacity := Capacity;
  t_update := UpdateTicketStage;
  t_stage := GetTicketStage }.

(** Reading maps its segments; a failed map loses the packet and is left out here. *)
#[export] Instance shm_transport : KVTransport ShmKVTransport := {
  t_enqueue := shm_Enqueue;
  t_dequeue := shm_TryDequeue true;
  t_size := fun t => Size (control_queue t);
  t_capacity := fun t => Capacity (control_queue t);
  t_update := fun t id st => let '(c, ok) := UpdateTicketStage (control_queue t) id st in (with_queue t c, ok);
  t_stage := fun t => GetTicketStage (control_queue t) }.

(** The specification: a bounded queue of packets and the stage of each ticket.
    The metadata text is the transports' own. *)
Definition payload (p : KVPacket) : KVPacket := set_metadata p [].

Record fifo := mkFifo { f_items : list KVPacket; f_stages : gmap Z KVTicketStage; f_capacity : nat }.

#[export] Instance fifo_transport : KVTransport fifo := {
  t_enqueue := fun _ f p =>
    if f_capacity f <=? length (f_items f) then (f, false)
    else (mkFifo (f_items f ++ [payload p])
            (if (0 <? ticket_id p)%Z then <[ticket_id p := ticket_stage p]> (f_stages f) else f_stages f)
            (f_capacity f), true);
  t_dequeue := fun f => match f_items f with
                        | [] => (f, None)
                        | p :: q => (mkFifo q (f_stages f) (f_capacity f), Some p)
                        end;
  t_size := fun f => length (f_items f);
  t_capacity := f_capacity;
  t_update := fun f id st =>
    if (id =? 0)%Z then (f, false)
    else match f_stages f !! id with
         | None => (f, false)
         | Some _ => (mkFifo (f_items f) (<[id := st]> (f_stages f)) (f_capacity f), true)
         end;
  t_stage := fun f id => if (id =? 0)%Z then kNone else default kNone (f_stages f !! id) }.

(** A packet the transports can carry: no field separator in the caller's text,
    and a blob whose size is a [size_t]. *)
Definition packet_ok (p : KVPacket) : Prop :=
  no_bar (metadata p) /\ (Z.of_nat (length (kv_blob p)) < 2 ^ 64)%Z.

(** The laws: a simulation by the specification. *)
Class KVTransportLaws (T : Type) `{KVTransport T} := {
  t_rel : T -> fifo -> Prop;
  t_rel_enqueue : forall io t f p, t_rel t f -> packet_ok p ->
    t_rel (t_enqueue io t p).1 (t_enqueue io f p).1 /\ (t_enqueue io t p).2 = (t_enqueue io f p).2;
  t_rel_dequeue : forall t f, t_rel t f ->
    t_rel (t_dequeue t).1 (t_dequeue f).1 /\ payload <$> (t_dequeue t).2 = (t_dequeue f).2;
  t_rel_size : forall t f, t_rel t f -> t_size t = t_size f /\ t_capacity t = t_capacity f;
  t_rel_update : forall t f id st, t_rel t f ->
    t_rel (t_update t id st).1 (t_update f id st).1 /\ (t_update t id st).2 = (t_update f id st).2;
  t_rel_stage : forall t f id, t_rel t f -> t_stage t id = t_stage f id }.

(** *** Client programs *)

Inductive t_op :=
  | OpEnqueue (io : shm_io) (p : KVPacket)
  | OpDequeue
  | OpSize
  | OpUpdate (id : Z) (st : KVTicketStage)
  | OpStage (id : Z).

Inductive t_answer :=
  | AnsBool (b : bool)
  | AnsPacket (p : option KVPacket)
  | AnsSize (n cap : nat)
  | AnsStage (st : KVTicketStage).

Definition op_ok (op : t_op) : Prop := match op with OpEnqueue _ p => packet_ok p | _ => True end.

Section Client.
Context {T : Type} `{KVTransport T}.

Definition t_step (t : T) (op : t_op) : T * t_answer :=
  match op with
  | OpEnqueue io p => let '(t', b) := t_enqueue io t p in (t', AnsBool b)
  | OpDequeue => let '(t', p) := t_dequeue t in (t', AnsPacket (payload <$> p))
  | OpSize => (t, AnsSize (t_size t) (t_capacity t))
  | OpUpdate id st => let '(t', b) := t_update t id st in (t', AnsBool b)
  | OpStage id => (t, AnsStage (t_stage t id))
  end.

Fixpoint t_answers (t : T) (ops : list t_op) : list t_answer :=
  match ops with
  | [] => []
  | op :: ops' => let '(t', a) := t_step t op in a :: t_answers t' ops'
  end.
End Client.

Lemma payload_idem p : payload (payload p) = payload p.
Proof. done. Qed.

(** Whatever satisfies the laws answers like the specification. *)
Lemma answers_refine {T} `{KVTransportLaws T} (t : T) (f : fifo) ops :
  t_rel t f -> Forall (fun p => payload p = p) (f_items f) -> Forall op_ok ops -> t_answers t ops = t_answers f ops.
Proof.
  intros Hr Hp Hops. revert t f Hr Hp. induction Hops as [|op ops Hop _ IH]; intros t f Hr Hp; [done|].
  cbn [t_answers]. destruct op as [io p| | |id st|id]; cbn [t_step].
  - pose proof (t_rel_enqueue io t f p Hr Hop) as [H1 H2].
    assert (Hp' : Forall (fun p => payload p = p) (f_items (t_enqueue io f p).1)).
    { simpl. destruct (_ <=? _); [done|]. simpl. apply Forall_app. by repeat constructor. }
    destruct (t_enqueue io t p), (t_enqueue io f p). simpl in *. subst. f_equal. by apply IH.
  - pose proof (t_rel_dequeue t f Hr) as [H1 H2].
    assert (Hp' : Forall (fun p => payload p = p) (f_items (t_dequeue f).1) /\
      payload <$> (t_dequeue f).2 = (t_dequeue f).2).
    { cbn. destruct (f_items f) as [|p q] eqn:E; cbn; [by rewrite E|].
      apply Forall_cons in Hp as [Hq HF]. split; [done|]. by rewrite Hq. }
    destruct Hp' as [Hp1 Hp2]. destruct (t_dequeue t), (t_dequeue f). simpl in *.
    rewrite H2, Hp2. f_equal. by apply IH.
  - destruct (t_rel_size t f Hr) as [-> ->]. f_equal. by apply IH.
  - pose proof (t_rel_update t f id st Hr) as [H1 H2].
    assert (Hp' : Forall (fun p => payload p = p) (f_items (t_update f id st).1)).
    { simpl. destruct (id =? 0)%Z; [done|]. by destruct (f_stages f !! id). }
    destruct (t_update t id st), (t_update f id st). simpl in *. subst. f_equal. by apply IH.
  - rewrite (t_rel_stage t f id Hr). f_equal. by apply IH.
Qed.

(** *** The in-process queue *)

Definition channel_rel (c : KVChannel) (f : fifo) : Prop :=
  payload <$> queue c = f_items f /\ ticket_stages c = f_stages f /\ capacity c = f_capacity f.

#[export] Instance channel_laws : KVTransportLaws KVChannel.
Proof.
  refine {| t_rel := channel_rel |}; unfold channel_rel.
  - intros io c f p (H1 & H2 & H3) _. simpl. unfold Enqueue. rewrite <- H2, <- H3. rewrite <- H1, length_fmap.
    destruct (_ <=? _); cbn [fst snd]; [by rewrite H1|]. cbn [queue ticket_stages capacity f_items f_stages f_capacity].
    by rewrite fmap_app, H1.
  - intros c f (H1 & H2 & H3). simpl. unfold TryDequeue. rewrite <- H1.
    destruct (queue c) as [|p q] eqn:E; simpl; [by rewrite E|done].
  - intros c f (H1 & H2 & H3). simpl. unfold Size, Capacity. by rewrite <- H1, H3, length_fmap.
  - intros c f id st (H1 & H2 & H3). simpl. unfold UpdateTicketStage. rewrite <- H2. destruct (id =? 0)%Z; [done|].
    destruct (ticket_stages c !! id); [|done]. simpl. by rewrite H1.
  - intros c f id (H1 & H2 & H3). simpl. unfold GetTicketStage. by rewrite H2.
Defined.

(** *** The shared-memory transport *)

Definition shm_name (q : KVPacket) : bytes := ExtractShmName (metadata q).

(** The segments the queued packets refer to. *)
Definition seg_names (qs : list KVPacket) : list bytes := filter (fun n => n <> []) (shm_name <$> qs).

(** A queued packet stands for the packet [p]: inline, or through its segment. *)
Definition carried (segs : gmap bytes bytes) (q p : KVPacket) : Prop :=
  (shm_name q = [] /\ payload q = p) \/
  (shm_name q <> [] /\ segs !! shm_name q = Some (kv_blob p) /\
   ExtractShmSize (metadata q) = Z.of_nat (length (kv_blob p)) /\ kv_blob p <> [] /\
   payload (set_blob q (kv_blob p)) = p).

Record shm_rel (t : ShmKVTransport) (f : fifo) : Prop := {
  sr_queue : Forall2 (carried (segments t)) (queue (control_queue t)) (f_items f);
  sr_stages : ticket_stages (control_queue t) = f_stages f;
  sr_capacity : capacity (control_queue t) = f_capacity f;
  sr_once : NoDup (seg_names (queue (control_queue t)));
  sr_exact : dom (segments t) = list_to_set (seg_names (queue (control_queue t))) }.

Lemma seg_names_snoc qs q : seg_names (qs ++ [q]) = seg_names qs ++ if decide (shm_name q = []) then [] else [shm_name q].
Proof.
  unfold seg_names. rewrite fmap_app, filter_app. f_equal.
  change (shm_name <$> [q]) with [shm_name q]. destruct (decide (shm_name q = [])) as [E|E].
  - rewrite filter_cons_False by naive_solver. done.
  - by rewrite filter_cons_True.
Qed.

Lemma seg_names_elem qs q : q ∈ qs -> shm_name q <> [] -> shm_name q ∈ seg_names qs.
Proof. intros Hq Hn. unfold seg_names. apply list_elem_of_filter. split; [done|]. by apply list_elem_of_fmap_2. Qed.

Lemma carried_mono segs segs' q p :
  (shm_name q <> [] -> segs' !! shm_name q = segs !! shm_name q) -> carried segs q p -> carried segs' q p.
Proof. intros Hs [|(H1 & H2 & H3)]; [by left|]. right. rewrite Hs by done. naive_solver. Qed.

Lemma carried_all segs segs' qs ps :
  (forall q, q ∈ qs -> shm_name q <> [] -> segs' !! shm_name q = segs !! shm_name q) ->
  Forall2 (carried segs) qs ps -> Forall2 (carried segs') qs ps.
Proof.
  intros Hs HF. induction HF as [|q p qs ps Hc _ IH]; constructor.
  - revert Hc. apply carried_mono, Hs. left.
  - apply IH. intros q' Hq. apply Hs. by right.
Qed.

(** Sending a packet inline. *)
Lemma inline_rel t f p k :
  shm_rel t f -> no_bar (metadata p) ->
  let '(c, ok) := Enqueue (control_queue t) p in
  shm_rel (mkShm c (segments t) k) (t_enqueue (mkIo true true true) f p).1 /\
  ok = (t_enqueue (mkIo true true true) f p).2.
Proof.
  intros [H1 H2 H3 H4 H5] Hb. pose proof (Forall2_length _ _ _ H1) as Hlen. unfold Enqueue. simpl.
  rewrite H3, Hlen. destruct (f_capacity f <=? length (f_items f)) eqn:E; simpl; [done|]. split; [|done].
  pose proof (extract_inline p Hb) as Hn.
  constructor; cbn [control_queue queue segments ticket_stages capacity f_items f_stages f_capacity]; [|by rewrite H2|done|..].
  - apply Forall2_app; [done|]. constructor; [|constructor]. left. done.
  - rewrite seg_names_snoc, decide_True by done. by rewrite app_nil_r.
  - rewrite seg_names_snoc, decide_True by done. by rewrite app_nil_r.
Qed.

(** Sending it through a fresh segment. *)
Lemma segment_rel t f p name k :
  shm_rel t f -> packet_ok p -> kv_blob p <> [] -> no_bar name -> name <> [] -> segments t !! name = None ->
  let p1 := set_blob (set_metadata p (metadata p ++ shm_key ++ name ++ size_key
              ++ bytes_of (pretty (Z.of_nat (length (kv_blob p)))))) [] in
  let '(c, ok) := Enqueue (control_queue t) p1 in
  shm_rel (mkShm c (if ok then <[name := kv_blob p]> (segments t) else segments t) k)
          (t_enqueue (mkIo true true true) f p).1 /\
  ok = (t_enqueue (mkIo true true true) f p).2.
Proof.
  intros [H1 H2 H3 H4 H5] [Hb Hsz] Hblob Hn Hne Hfresh p1. pose proof (Forall2_length _ _ _ H1) as Hlen.
  destruct (extract_shm p name (kv_blob p) Hb Hn Hsz) as [Hname Hsize]. fold p1 in Hname, Hsize.
  unfold Enqueue. simpl. rewrite H3, Hlen.
  destruct (f_capacity f <=? length (f_items f)) eqn:E; simpl; [done|]. split; [|done].
  assert (Hnew : name ∉ seg_names (queue (control_queue t))).
  { intros Hin. apply (elem_of_list_to_set (C := gset bytes)) in Hin. rewrite <- H5 in Hin.
    apply elem_of_dom in Hin as [? ?]. congruence. }
  assert (Hs : seg_names (queue (control_queue t) ++ [AppendControlMetadata p1]) = seg_names (queue (control_queue t)) ++ [name]).
  { rewrite seg_names_snoc. unfold shm_name. rewrite Hname. by rewrite decide_False. }
  constructor; cbn [control_queue queue segments ticket_stages capacity f_items f_stages f_capacity]; [|by rewrite H2|done|..].
  - apply Forall2_app.
    + revert H1. apply carried_all. intros q Hq Hqn.
      rewrite lookup_insert_ne; [done|]. intros ->. by apply Hnew, seg_names_elem.
    + constructor; [|constructor]. right. unfold shm_name. rewrite Hname, Hsize. split_and!; try done.
      by rewrite lookup_insert_eq.
  - rewrite Hs. apply NoDup_app. split_and!; [done| |apply NoDup_singleton]. set_solver.
  - rewrite Hs, dom_insert_L, list_to_set_app_L, <- H5. set_solver.
Qed.

Lemma shm_enqueue_rel io t f p :
  shm_rel t f -> packet_ok p ->
  shm_rel (shm_Enqueue io t p).1 (t_enqueue io f p).1 /\ (shm_Enqueue io t p).2 = (t_enqueue io f p).2.
Proof.
  intros Hr Hok. destruct (MakeShmName_ok (request_id p) (g_shm_seq t)) as [Hn Hne].
  assert (Hin : forall k, let '(c, ok) := Enqueue (control_queue t) p in
    shm_rel (mkShm c (segments t) k) (t_enqueue io f p).1 /\ ok = (t_enqueue io f p).2)
    by (intros k; apply (inline_rel t f p k Hr), Hok).
  unfold shm_Enqueue. case_bool_decide as Hblob.
  { specialize (Hin (g_shm_seq t)). by destruct (Enqueue _ _). }
  assert (Hinline : forall k, shm_rel (let '(c, ok) := Enqueue (control_queue t) p in
      (mkShm c (segments t) k, ok)).1 (t_enqueue io f p).1 /\
    (let '(c, ok) := Enqueue (control_queue t) p in (mkShm c (segments t) k, ok)).2 = (t_enqueue io f p).2)
    by (intros k; specialize (Hin k); by destruct (Enqueue _ _)).
  destruct (negb (open_ok io) || _) eqn:Eo; [apply Hinline|].
  destruct (truncate_ok io); cbn [negb]; [|apply Hinline]. destruct (map_ok io); cbn [negb]; [|apply Hinline].
  apply orb_false_iff in Eo as [_ Eo%bool_decide_eq_false]. apply eq_None_not_Some in Eo.
  pose proof (segment_rel t f p _ (u64 (g_shm_seq t + 1)) Hr Hok Hblob Hn Hne Eo) as Hseg. cbv zeta in Hseg.
  clear Hin Hinline. cbn [control_queue segments g_shm_seq]. destruct (Enqueue _ _) as [c ok]. exact Hseg.
Qed.

Lemma shm_dequeue_rel t f :
  shm_rel t f ->
  shm_rel (shm_TryDequeue true t).1 (t_dequeue f).1 /\ payload <$> (shm_TryDequeue true t).2 = (t_dequeue f).2.
Proof.
  intros [H1 H2 H3 H4 H5]. unfold shm_TryDequeue, TryDequeue. simpl.
  destruct (queue (control_queue t)) as [|q qs] eqn:Eq.
  { apply Forall2_nil_inv_l in H1. rewrite H1. simpl. split; [|done].
    constructor; cbn [with_queue control_queue segments]; rewrite ?Eq, ?H1; done. }
  apply Forall2_cons_inv_l in H1 as (p & ps & Hc & HF & Ef). rewrite Ef. cbn [fst snd].
  destruct Hc as [[Hn Hp]|(Hn & Hl & Hsz & Hb & Hp)]; fold (shm_name q).
  - rewrite Hn. cbn [bool_decide decide andb]. rewrite bool_decide_eq_false_2 by naive_solver. cbn [andb fst snd].
    assert (Hs : seg_names (q :: qs) = seg_names qs)
      by (unfold seg_names; rewrite fmap_cons, filter_cons_False by naive_solver; done).
    rewrite Hs in *. split; [by constructor|]. cbn. by rewrite Hp.
  - assert (Hs : seg_names (q :: qs) = shm_name q :: seg_names qs)
      by (unfold seg_names; rewrite fmap_cons, filter_cons_True by done; done).
    rewrite Hs in *. apply NoDup_cons in H4 as [Hnot Hnd].
    rewrite bool_decide_eq_true_2 by done. rewrite Hsz.
    rewrite (proj2 (Z.ltb_lt _ _)) by (destruct (kv_blob p); [done|simpl; lia]). cbn [andb segments with_queue].
    rewrite Hl, Nat2Z.id, take_ge by done. cbn [fst snd]. split; [|cbn; by rewrite Hp].
    constructor; cbn [control_queue queue segments ticket_stages capacity f_items f_stages f_capacity]; try done.
    + revert HF. apply carried_all. intros q' Hq' Hn'. rewrite lookup_delete_ne; [done|].
      intros E. apply Hnot. rewrite E. by apply seg_names_elem.
    + rewrite dom_delete_L, H5. rewrite list_to_set_cons. set_solver.
Qed.

#[export] Instance shm_laws : KVTransportLaws ShmKVTransport.
Proof.
  refine {| t_rel := shm_rel |}.
  - intros io t f p. apply shm_enqueue_rel.
  - intros t f. apply shm_dequeue_rel.
  - intros t f [H1 H2 H3 H4 H5]. pose proof (Forall2_length _ _ _ H1). simpl. unfold Size, Capacity. by rewrite H3.
  - intros t f id st [H1 H2 H3 H4 H5]. simpl. unfold UpdateTicketStage. rewrite <- H2.
    destruct (id =? 0)%Z; [by constructor|]. destruct (ticket_stages _ !! id); [|by constructor].
    split; [|done]. by constructor.
  - intros t f id [H1 H2 H3 H4 H5]. simpl. unfold GetTicketStage. by rewrite H2.
Defined.

(** The state after a client program. *)
Definition t_run {T} `{KVTransport T} (t : T) (ops : list t_op) : T := foldl (fun t op => (t_step t op).1) t ops.

Lemma t_run_rel {T} `{KVTransportLaws T} ops (t : T) (f : fifo) :
  t_rel t f -> Forall op_ok ops -> t_rel (t_run t ops) (t_run f ops).
Proof.
  intros Hr Hops. revert t f Hr. induction Hops as [|op ops Hop _ IH]; intros t f Hr; [done|].
  cbn [t_run foldl]. apply IH. destruct op as [io p| | |id st|id]; cbn [t_step]; try done.
  - pose proof (t_rel_enqueue io t f p Hr Hop) as [H1 _].
    by destruct (t_enqueue io t p), (t_enqueue io f p).
  - pose proof (t_rel_dequeue t f Hr) as [H1 _]. by destruct (t_dequeue t), (t_dequeue f).
  - pose proof (t_rel_update t f id st Hr) as [H1 _]. by destruct (t_update t id st), (t_update f id st).
Qed.

Lemma new_rel cap : t_rel (newChannel cap) (mkFifo [] ∅ (Nat.max 1 cap)) /\ t_rel (newShm cap) (mkFifo [] ∅ (Nat.max 1 cap)).
Proof. split; [done|]. constructor; try done; constructor. Qed.

(** The two transports are substitutable.  For packets whose text holds no
    field separator, a client program gets the same answers — accepted or
    refused, the same packets with the same KV bytes in the same order, sizes and
    ticket stages — from the shared-memory transport as from the in-process
    queue, whichever calls that create segments fail; and at any point the
    segments that exist are exactly those of the packets still queued, so none
    is leaked and none is missing. *)
Theorem transports_substitutable (cap : nat) (ops : list t_op) (Hops : Forall op_ok ops) :
  t_answers (newShm cap) ops = t_answers (newChannel cap) ops /\
  let t := t_run (newShm cap) ops in dom (segments t) = list_to_set (seg_names (queue (control_queue t))).
Proof.
  destruct (new_rel cap) as [Hc Hs]. split.
  - rewrite (answers_refine (newChannel cap) _ ops Hc) by (done || constructor).
    by rewrite (answers_refine (newShm cap) _ ops Hs) by (done || constructor).
  - apply (sr_exact _ _ (t_run_rel ops _ _ Hs Hops)).
Qed.

Definition demo_packet (id : Z) (blob : string) : KVPacket :=
  mkPacket id id kEnqueued (bytes_of "hi") (bytes_of blob) 3 2 1 (bytes_of "llama") 0.

Definition demo_ops : list t_op :=
  [OpEnqueue (mkIo true true true) (demo_packet 1 "state-one");
   OpEnqueue (mkIo true false true) (demo_packet 2 "state-two");
   OpUpdate 1 kCommitted; OpDequeue; OpStage 1; OpDequeue; OpSize].

Lemma transports_substitutable_witness :
  t_answers (newShm 4) demo_ops =
  [AnsBool true; AnsBool true; AnsBool true; AnsPacket (Some (payload (demo_packet 1 "state-one")));
   AnsStage kCommitted; AnsPacket (Some (payload (demo_packet 2 "state-two"))); AnsSize 0 4].
Proof.
  assert (Hops : Forall op_ok demo_ops)
    by (repeat constructor; by apply (bool_decide_eq_true_1 ("|"%char ∉ _))).
  rewrite (proj1 (transports_substitutable 4 demo_ops Hops)). vm_compute. reflexivity.
Defined.

(** A packet that is dequeued keeps the name of its segment in its text.  When it
    is sent again, the first name wins, the segment is gone, and the packet is
    dropped on the other side. *)
Example resent_packet_is_lost :
  let io := mkIo true true true in
  let '(t1, ok1) := shm_Enqueue io (newShm 4) (demo_packet 1 "state") in
  let '(t2, p) := shm_TryDequeue true t1 in
  let '(t3, ok2) := shm_Enqueue io t2 (default (demo_packet 0 "") p) in
  let '(t4, p') := shm_TryDequeue true t3 in
  (ok1, bool_decide (is_Some p), ok2, bool_decide (is_Some p'), size (segments t4)) = (true, true, true, false, 1).
Proof. vm_compute. reflexivity. Qed.
