(* ===== verification/BatchBuilder.v ===== *)
(** * scheduler: batch selection, fairness and swapping

    [BuildBatchLocked] and [ApplyFairness] of scheduler.cpp with the fairness
    controller, the batch selection policies and the swap of KV blocks to host
    memory.  Requests are shared between the queues and the batch: they live in a
    store and the queues hold their addresses.  The prefix cache is used through
    its probe; the pool of blocks is the one of KVCache.v. *)

From stdpp Require Import base tactics numbers list strings gmap sets sorting.
From S2P Require Import Prelude Float64 KVCache RadixCache.

(** ** Requests *)

Inductive RequestPhase := PhPending | PhPrefill | PhDecode | PhFinished | PhAborted.

#[export] Instance RequestPhase_eq_dec : EqDecision RequestPhase.
Proof. solve_decision. Defined.

Record FairnessState := mkFair {
  priority_level : Z; timeslice_tokens : Z; remaining_decode_tokens : Z; total_completion_tokens : Z }.

(** The fields of [InferenceRequest] that these functions read or write. *)
Record InferenceRequest := mkReq {
  priority : Z; max_tokens : Z;
  prompt_tokens : list Z; bpe_prompt_tokens : list Z;
  has_images : bool; has_format : bool; collect_logprobs : bool; embedding_request : bool;
  phase : RequestPhase;
  is_swapped : bool; swapped_host_handles : list Z; req_blocks : list Z;
  fairness : FairnessState }.

(** [legacy_logprobs]: a backend is resolved and keeps the legacy logprob path. *)
Record PendingRequest := mkPending {
  inference : InferenceRequest; p_priority : Z; p_sequence : Z; enqueue_time : Z;
  resolved_backend : option nat; legacy_logprobs : bool }.

#[export] Instance PendingRequest_inhabited : Inhabited PendingRequest :=
  populate (mkPending (mkReq 0 0 [] [] false false false false PhPending false [] [] (mkFair 0 0 0 0)) 0 0 0 None false).

Definition set_phase (ph : RequestPhase) (r : InferenceRequest) : InferenceRequest :=
  mkReq (priority r) (max_tokens r) (prompt_tokens r) (bpe_prompt_tokens r) (has_images r) (has_format r)
    (collect_logprobs r) (embedding_request r) ph (is_swapped r) (swapped_host_handles r) (req_blocks r) (fairness r).

Definition set_swap (sw : bool) (handles blocks : list Z) (r : InferenceRequest) : InferenceRequest :=
  mkReq (priority r) (max_tokens r) (prompt_tokens r) (bpe_prompt_tokens r) (has_images r) (has_format r)
    (collect_logprobs r) (embedding_request r) (phase r) sw handles blocks (fairness r).

Definition set_fairness (f : FairnessState) (r : InferenceRequest) : InferenceRequest :=
  mkReq (priority r) (max_tokens r) (prompt_tokens r) (bpe_prompt_tokens r) (has_images r) (has_format r)
    (collect_logprobs r) (embedding_request r) (phase r) (is_swapped r) (swapped_host_handles r) (req_blocks r) f.

Definition set_level (l : Z) (f : FairnessState) : FairnessState :=
  mkFair l (timeslice_tokens f) (remaining_decode_tokens f) (total_completion_tokens f).
Definition set_timeslice (t : Z) (f : FairnessState) : FairnessState :=
  mkFair (priority_level f) t (remaining_decode_tokens f) (total_completion_tokens f).

Definition on_inference (g : InferenceRequest -> InferenceRequest) (p : PendingRequest) : PendingRequest :=
  mkPending (g (inference p)) (p_priority p) (p_sequence p) (enqueue_time p) (resolved_backend p) (legacy_logprobs p).

(** ** Fairness controller *)

Record FairnessConfig := mkFairness {
  high_priority_threshold : Z; max_timeslice_tokens : Z; enable_preemption : bool }.

(** [request] is an address; [None] is the null pointer. *)
Record FairnessEntry := mkEntry { request : option Z; entry_level : Z; entry_index : nat }.

(** [Evaluate]: the positions to swap. *)
Definition Evaluate (cfg : FairnessConfig) (batch queue : list FairnessEntry) : option (nat * nat) :=
  if negb (enable_preemption cfg) || bool_decide (length batch = 0) || bool_decide (length queue = 0) then None
  else match max_element (fun a b => entry_level a <? entry_level b)%Z queue with
       | None => None
       | Some (qi, high) =>
           if (entry_level high <? high_priority_threshold cfg)%Z then None
           else match min_element (fun a b => entry_level a <? entry_level b)%Z batch with
                | None => None
                | Some (bi, low) =>
                    if (entry_level high <=? entry_level low)%Z then None else Some (bi, qi)
                end
       end.

Abbreviation store := (gmap Z PendingRequest).

Definition timeslice_one (cfg : FairnessConfig) (st : store) (e : FairnessEntry) : store :=
  match request e with
  | None => st
  | Some a =>
      if (high_priority_threshold cfg <=? entry_level e)%Z then st
      else alter (on_inference (fun r =>
             let f := fairness r in
             let limit := if (0 <? remaining_decode_tokens f)%Z
                          then Z.min (max_timeslice_tokens cfg) (remaining_decode_tokens f)
                          else max_timeslice_tokens cfg in
             set_fairness (set_timeslice limit f) r)) a st
  end.

Definition ApplyTimeslice (cfg : FairnessConfig) (st : store) (batch : list FairnessEntry) : store :=
  if (max_timeslice_tokens cfg <=? 0)%Z then st else foldl (timeslice_one cfg) st batch.

(** ** Batch selection policies *)

Inductive SchedulerBatchPolicy := kPriorityAge | kLpmPriority | kThroughputBalanced.

Record ScoringItem := mkScore { age_ms : double; s_priority : Z; s_affinity : double }.

Definition kFairnessAgingDivisorMs : double := d_of_Z 2000.

Definition aged (i : ScoringItem) : double := dadd (d_of_Z (s_priority i)) (ddiv (age_ms i) kFairnessAgingDivisorMs).

Definition Score (policy : SchedulerBatchPolicy) (i : ScoringItem) : double :=
  match policy with
  | kPriorityAge => aged i
  | kLpmPriority => dadd (aged i) (ddiv (s_affinity i) (d_of_Z 32))
  | kThroughputBalanced => dadd (aged i) (ddiv (s_affinity i) (d_of_Z 64))
  end.

Definition UsesPrefixAffinity (policy : SchedulerBatchPolicy) : bool :=
  match policy with kPriorityAge => false | _ => true end.

(** ** Token cost of a queued request *)

Definition EstimateQueueTokenCost (r : InferenceRequest) (from_decode : bool) (cfg : FairnessConfig)
    (phased_logprobs_disabled legacy : bool) : nat :=
  let stateless := has_images r || has_format r || (collect_logprobs r && (phased_logprobs_disabled || legacy)) in
  if negb from_decode then
    if stateless then Nat.max 1 (length (prompt_tokens r) + Z.to_nat (Z.max 1 (max_tokens r)))
    else Nat.max 1 (length (prompt_tokens r))
  else
    let f := fairness r in
    let d0 := if (max_tokens r <=? 0)%Z then 1%Z else max_tokens r in
    let d1 := if (0 <=? remaining_decode_tokens f)%Z then Z.min d0 (remaining_decode_tokens f) else d0 in
    let p0 := timeslice_tokens f in
    let p1 := if ((p0 <=? 0) && (0 <? max_timeslice_tokens cfg) && (priority r <? high_priority_threshold cfg))%Z
              then if (0 <? remaining_decode_tokens f)%Z
                   then Z.min (max_timeslice_tokens cfg) (remaining_decode_tokens f)
                   else max_timeslice_tokens cfg
              else p0 in
    let d2 := if (0 <? p1)%Z then Z.min d1 p1 else d1 in
    Z.to_nat (Z.max 1 d2).

(** ** Swapping KV blocks of a request *)

(** The request and the pool after the call, and its result. *)
Definition TrySwapIn (cache : option PagedKVCache) (r : InferenceRequest) : option PagedKVCache * InferenceRequest * bool :=
  match cache with
  | None => (cache, r, false)
  | Some c =>
      if negb (is_swapped r) then (cache, r, false)
      else
        let needed := length (swapped_host_handles r) in
        if NumFreeBlocks c <? needed then (cache, r, false)
        else match ReserveBlocks c needed with
             | (c1, Throw _) => (Some c1, r, false)
             | (c1, Ret targets) =>
                 match SwapIn c1 (swapped_host_handles r) targets with
                 | (c2, Throw _) => (Some c2, r, false)
                 | (c2, Ret _) => (Some c2, set_swap false [] targets r, true)
                 end
             end
  end.

Definition TrySwapOut (cache : option PagedKVCache) (r : InferenceRequest) : option PagedKVCache * InferenceRequest * bool :=
  match cache with
  | None => (cache, r, false)
  | Some c =>
      if is_swapped r || bool_decide (req_blocks r = []) then (cache, r, false)
      else match SwapOut c (req_blocks r) with
           | (c1, Throw _) => (Some c1, r, false)
           | (c1, Ret handles) => (Some c1, set_swap true handles [] r, true)
           end
  end.

(** ** The scheduler's queues *)

(** What batch building asks of the prefix cache: matched tokens, 0 on a miss. *)
Class PrefixProbe (C : Type) := probe : C -> list Z -> option nat -> C * Z.

(** The radix cache answers with a lookup, which also refreshes its clock. *)
#[export] Instance radix_probe (alive : nat -> bool) : PrefixProbe (RadixPrefixCache (P := PagedKVCache)) :=
  fun c tokens backend =>
    let '(c', (hit, r)) := RadixCache.Lookup alive c tokens backend in
    (c', if hit && (0 <? res_matched_tokens r)%Z then res_matched_tokens r else 0%Z).

Section Scheduler.
Context {C : Type} `{PrefixProbe C}.

Record SchedulerState := mkSched {
  requests : store;
  pending_prefill : list Z;
  pending_decode : list Z;
  cache : option PagedKVCache;
  prefix_cache : option C;
  fairness_config : FairnessConfig;
  batch_policy : SchedulerBatchPolicy;
  max_batch_size : Z;
  max_batch_tokens : Z;
  use_decode_workers : bool;
  phased_logprobs_disabled : bool }.

Record QueueItem := mkItem { q_addr : Z; from_decode : bool; q_index : nat; prefix_affinity_tokens : double }.

(** The collecting loop over one queue: an address seen before is a duplicate,
    whose position is recorded. *)
Fixpoint collect (fd : bool) (i : nat) (seen : gset Z) (q : list Z) : list QueueItem * list nat * gset Z :=
  match q with
  | [] => ([], [], seen)
  | a :: q' =>
      if bool_decide (a ∈ seen)
      then let '(items, dups, seen') := collect fd (S i) seen q' in (items, i :: dups, seen')
      else let '(items, dups, seen') := collect fd (S i) ({[a]} ∪ seen) q' in
           (mkItem a fd i (d_of_Z 0) :: items, dups, seen')
  end.

(** The backend a request would run on when none is resolved yet: the router's. *)
Context (backend_hint : PendingRequest -> option nat).

(** The affinity of one item. *)
Definition probe_item (st : store) (pc : C) (it : QueueItem) : C * QueueItem :=
  let p := st !!! q_addr it in
  let r := inference p in
  if from_decode it || embedding_request r then (pc, it)
  else
    let tokens := if bool_decide (bpe_prompt_tokens r = []) then prompt_tokens r else bpe_prompt_tokens r in
    if bool_decide (tokens = []) then (pc, it)
    else
      let b := match resolved_backend p with Some b => Some b | None => backend_hint p end in
      let '(pc', m) := probe pc tokens b in
      (pc', if (0 <? m)%Z then mkItem (q_addr it) (from_decode it) (q_index it) (d_of_Z m) else it).

Fixpoint probe_items (st : store) (pc : C) (items : list QueueItem) : C * list QueueItem :=
  match items with
  | [] => (pc, [])
  | it :: items' => let '(pc1, it') := probe_item st pc it in
                    let '(pc2, items'') := probe_items st pc1 items' in (pc2, it' :: items'')
  end.

(** The score of an item at time [now] (nanoseconds). *)
Definition item_score (policy : SchedulerBatchPolicy) (st : store) (now : Z) (it : QueueItem) : double :=
  let p := st !!! q_addr it in
  Score policy (mkScore (ddiv (d_of_Z (now - enqueue_time p)) (d_of_Z 1000000)) (p_priority p) (prefix_affinity_tokens it)).

(** The comparison of the stable sort. *)
Definition before (policy : SchedulerBatchPolicy) (st : store) (now : Z) (a b : QueueItem) : bool :=
  let ea := item_score policy st now a in
  let eb := item_score policy st now b in
  if negb (deqb ea eb) then dltb eb ea
  else (p_sequence (st !!! q_addr a) <? p_sequence (st !!! q_addr b))%Z.

(** [std::stable_sort]: every item goes after those it does not precede. *)
Fixpoint insert_item (lt : QueueItem -> QueueItem -> bool) (x : QueueItem) (l : list QueueItem) : list QueueItem :=
  match l with
  | [] => [x]
  | y :: l' => if lt x y then x :: l else y :: insert_item lt x l'
  end.

Definition stable_sort (lt : QueueItem -> QueueItem -> bool) (l : list QueueItem) : list QueueItem :=
  foldl (fun acc x => insert_item lt x acc) [] l.

(** What the selecting loop carries. *)
Record building := mkBuild {
  b_requests : store; b_cache : option PagedKVCache; chosen : list QueueItem; token_budget : nat }.

Definition select_one (s : SchedulerState) (b : building) (it : QueueItem) : building :=
  let p := b_requests b !!! q_addr it in
  let tokens := EstimateQueueTokenCost (inference p) (from_decode it) (fairness_config s)
                  (phased_logprobs_disabled s) (legacy_logprobs p) in
  if bool_decide (chosen b <> []) && (u64 (max_batch_tokens s) <? Z.of_nat (token_budget b + tokens))%Z then b
  else
    let '(cache1, r1, ok) := if is_swapped (inference p) then TrySwapIn (b_cache b) (inference p)
                             else (b_cache b, inference p, true) in
    if ok
    then mkBuild (<[q_addr it := on_inference (fun _ => set_phase (if from_decode it then PhDecode else PhPrefill) r1) p]> (b_requests b))
           cache1 (chosen b ++ [it]) (token_budget b + tokens)
    else mkBuild (b_requests b) cache1 (chosen b) (token_budget b).

Fixpoint select_loop (s : SchedulerState) (b : building) (items : list QueueItem) : building :=
  match items with
  | [] => b
  | it :: items' =>
      let b' := select_one s b it in
      if bool_decide (length (chosen b) < length (chosen b')) && (u64 (max_batch_size s) <=? Z.of_nat (length (chosen b')))%Z
      then b' else select_loop s b' items'
  end.

(** [std::unique] on a sorted vector *)
Fixpoint unique (l : list nat) : list nat :=
  match l with
  | a :: l' => match l' with
               | b :: _ => if bool_decide (a = b) then unique l' else a :: unique l'
               | [] => [a]
               end
  | [] => []
  end.

(** [erase_indices]: sort, drop repetitions, erase from the last position on. *)
Definition erase_indices (q : list Z) (idxs : list nat) : list Z :=
  foldr (fun i q => delete i q) q (unique (merge_sort le idxs)).

Definition removed (fd : bool) (ch : list QueueItem) : list nat :=
  q_index <$> filter (fun it => from_decode it = fd) ch.

Record BatchSelection := mkSelection { pending : list Z; total_tokens : nat }.

Definition BuildBatchLocked (s : SchedulerState) (now : Z) : SchedulerState * BatchSelection :=
  if bool_decide (pending_prefill s = []) && bool_decide (pending_decode s = []) then (s, mkSelection [] 0)
  else
    let '(items_p, dups_p, seen) := collect false 0 ∅ (pending_prefill s) in
    let '(items_d, dups_d, _) := if use_decode_workers s then ([], [], seen)
                                 else collect true 0 seen (pending_decode s) in
    let '(pc, items) := match prefix_cache s with
                        | Some pc => if UsesPrefixAffinity (batch_policy s)
                                     then let '(pc', its) := probe_items (requests s) pc (items_p ++ items_d) in (Some pc', its)
                                     else (Some pc, items_p ++ items_d)
                        | None => (None, items_p ++ items_d)
                        end in
    let sorted := stable_sort (before (batch_policy s) (requests s) now) items in
    let b := select_loop s (mkBuild (requests s) (cache s) [] 0) sorted in
    (mkSched (b_requests b)
       (erase_indices (pending_prefill s) (removed false (chosen b) ++ dups_p))
       (erase_indices (pending_decode s) (removed true (chosen b) ++ dups_d))
       (b_cache b) pc (fairness_config s) (batch_policy s) (max_batch_size s) (max_batch_tokens s)
       (use_decode_workers s) (phased_logprobs_disabled s),
     mkSelection (q_addr <$> chosen b) (token_budget b)).

(** ** Fairness pass over a batch *)

Definition set_queues (st : store) (pp pd : list Z) (s : SchedulerState) : SchedulerState :=
  mkSched st pp pd (cache s) (prefix_cache s) (fairness_config s) (batch_policy s) (max_batch_size s)
    (max_batch_tokens s) (use_decode_workers s) (phased_logprobs_disabled s).

Definition level_one (st : store) (a : Z) : store :=
  alter (on_inference (fun r => set_fairness (set_level (priority r) (fairness r)) r)) a st.

Definition level_of (st : store) (a : Z) : Z := priority_level (fairness (inference (st !!! a))).

(** The loop over the batch: each request's level is refreshed, then read. *)
Fixpoint batch_entries (i : nat) (st : store) (l : list Z) : store * list FairnessEntry :=
  match l with
  | [] => (st, [])
  | a :: l' => let st1 := level_one st a in
               let '(st2, es) := batch_entries (S i) st1 l' in
               (st2, mkEntry (Some a) (level_of st1 a) i :: es)
  end.

Definition queue_refs (pp pd : list Z) : list (Z * bool * nat) :=
  imap (fun i a => (a, false, i)) pp ++ imap (fun i a => (a, true, i)) pd.

Definition is_decode (ph : RequestPhase) : bool := match ph with PhDecode => true | _ => false end.

Definition set_request (a : option Z) (e : FairnessEntry) : FairnessEntry :=
  mkEntry a (entry_level e) (entry_index e).

(** The swap: the queued request takes the displaced one's place in the batch,
    and the displaced one goes to the back of the queue of its phase. *)
Definition swap_requests (s : SchedulerState) (st : store) (batch : list Z) (bi : nat) (queued : Z * bool * nat)
    : SchedulerState * list Z :=
  let '(q, fd, qi) := queued in
  let displaced := batch !!! bi in
  let displaced_phase := phase (inference (st !!! displaced)) in
  let pp := if fd then pending_prefill s else delete qi (pending_prefill s) in
  let pd := if fd then delete qi (pending_decode s) else pending_decode s in
  (if is_decode displaced_phase
   then set_queues (alter (on_inference (set_phase PhDecode)) displaced st) pp (pd ++ [displaced]) s
   else set_queues (alter (on_inference (set_phase PhPrefill)) displaced st) (pp ++ [displaced]) pd s,
   <[bi := q]> batch).

Definition ApplyFairness (s : SchedulerState) (batch : list Z) : SchedulerState * list Z :=
  if bool_decide (batch = []) then (s, batch)
  else
    let cfg := fairness_config s in
    let '(st1, entries) := batch_entries 0 (requests s) batch in
    let st2 := foldl level_one st1 (pending_prefill s ++ pending_decode s) in
    let refs := queue_refs (pending_prefill s) (pending_decode s) in
    let queue_entries := imap (fun i r => mkEntry (Some r.1.1) (level_of st2 r.1.1) i) refs in
    let '(s3, batch', entries') :=
      match Evaluate cfg entries queue_entries with
      | Some (bi, qi) =>
          if (bi <? length batch) && (qi <? length refs) then
            let queued := refs !!! qi in
            let '(s', b') := swap_requests s st2 batch bi queued in
            (s', b', alter (set_request (Some queued.1.1)) bi entries)
          else (set_queues st2 (pending_prefill s) (pending_decode s) s, batch, entries)
      | None => (set_queues st2 (pending_prefill s) (pending_decode s) s, batch, entries)
      end in
    (set_queues (ApplyTimeslice cfg (requests s3) entries') (pending_prefill s3) (pending_decode s3) s3, batch').
End Scheduler.

(** ** Scheduler configuration *)

Record Config := mkConfig {
  c_max_batch_size : Z; c_max_batch_tokens : Z; decode_burst_tokens : Z; chunked_prefill_tokens : Z;
  mixed_prefill_budget_ratio : double; ttl_ms : Z; max_sessions : Z }.

Definition is_finite (d : double) : bool :=
  match d with SpecFloat.S754_zero _ | SpecFloat.S754_finite _ _ _ => true | _ => false end.

(** [std::clamp(v, lo, hi)] *)
Definition dclamp (v lo hi : double) : double := if dltb v lo then lo else if dltb hi v then hi else v.

Definition NormalizeSchedulerConfig (raw : Config) : Config :=
  let size1 := if (c_max_batch_size raw <=? 0)%Z then 1%Z else c_max_batch_size raw in
  let size2 := if (64 <? size1)%Z then 64%Z else size1 in
  let tokens1 := if (c_max_batch_tokens raw <=? 0)%Z then 1%Z else c_max_batch_tokens raw in
  let tokens2 := if (131072 <? tokens1)%Z then 131072%Z else tokens1 in
  let ratio := if is_finite (mixed_prefill_budget_ratio raw) then mixed_prefill_budget_ratio raw else d_of_Z 1 in
  mkConfig size2 tokens2 (Z.max 0 (decode_burst_tokens raw)) (Z.max 1 (chunked_prefill_tokens raw))
    (dclamp ratio (d_of_Z 0) (d_of_Z 1)) (Z.max 1 (ttl_ms raw)) (Z.max 1 (max_sessions raw)).

(** A configuration the scheduler can run on. *)
Definition config_ok (c : Config) : Prop :=
  (1 <= c_max_batch_size c <= 64 /\ 1 <= c_max_batch_tokens c <= 131072 /\ 0 <= decode_burst_tokens c /\
   1 <= chunked_prefill_tokens c /\ 1 <= ttl_ms c /\ 1 <= max_sessions c)%Z /\
  dleb (d_of_Z 0) (mixed_prefill_budget_ratio c) = true /\ dleb (mixed_prefill_budget_ratio c) (d_of_Z 1) = true.

(** ** Erasing positions *)

(** What is left of a queue that starts at position [i] without the positions [idxs]. *)
Fixpoint erase_from (i : nat) (idxs : list nat) (q : list Z) : list Z :=
  match q with
  | [] => []
  | a :: q' => if bool_decide (i ∈ idxs) then erase_from (S i) idxs q' else a :: erase_from (S i) idxs q'
  end.

Lemma erase_from_ext i X Y q : (forall j, i <= j -> j ∈ X <-> j ∈ Y) -> erase_from i X q = erase_from i Y q.
Proof.
  revert i. induction q as [|a q IH]; intros i HXY; [done|]. cbn [erase_from].
  rewrite (bool_decide_ext _ _ (HXY i (le_n i))), (IH (S i)); [done|]. intros j Hj. apply HXY. lia.
Qed.

Lemma elem_of_unique l x : x ∈ unique l <-> x ∈ l.
Proof.
  induction l as [|a l IH]; [done|]. cbn [unique]. destruct l as [|b l]; [done|].
  destruct (bool_decide_reflect (a = b)) as [->|]; rewrite !elem_of_cons in *; [|set_solver]. set_solver.
Qed.

Lemma unique_sorted l : StronglySorted le l -> StronglySorted lt (unique l).
Proof.
  induction 1 as [|a l Hl IH Ha]; [constructor|]. cbn [unique]. destruct l as [|b l]; [repeat constructor|].
  destruct (bool_decide_reflect (a = b)) as [->|Hab]; [done|]. constructor; [done|].
  rewrite Forall_forall in *. intros x Hx. rewrite elem_of_unique in Hx.
  pose proof (Ha b ltac:(set_solver)). apply elem_of_cons in Hx as [->|Hx]; [lia|].
  apply StronglySorted_inv in Hl as [_ Hb]. rewrite Forall_forall in Hb. specialize (Hb x Hx). lia.
Qed.

Abbreviation delete_all i q l := (foldr (fun j rest => delete (j - i) rest) q l) (only parsing).

Lemma delete_all_cons i (a : Z) q l : Forall (fun j => i < j) l -> delete_all i (a :: q) l = a :: delete_all (S i) q l.
Proof.
  induction 1 as [|j l Hj _ IH]; [done|]. cbn [foldr]. rewrite IH. by replace (j - i) with (S (j - S i)) by lia.
Qed.

Lemma delete_all_spec i (q : list Z) l :
  StronglySorted lt l -> Forall (fun j => i <= j) l -> delete_all i q l = erase_from i l q.
Proof.
  revert i l. induction q as [|a q IH]; intros i l Hs Hi.
  { clear Hs Hi. induction l as [|j l IHl]; [done|]. cbn [foldr]. by rewrite IHl. }
  cbn [erase_from]. destruct (bool_decide_reflect (i ∈ l)) as [Hin|Hni].
  - destruct l as [|j l]; [set_solver|]. apply StronglySorted_inv in Hs as [Hs Hj].
    apply Forall_cons in Hi as [Hij Hi].
    assert (i = j) as <-.
    { apply elem_of_cons in Hin as [?|Hin]; [done|]. rewrite Forall_forall in Hj. specialize (Hj i Hin). lia. }
    cbn [foldr]. rewrite delete_all_cons by done. replace (i - i) with 0 by lia.
    change (delete 0 (a :: ?x)) with x. rewrite IH by done.
    apply erase_from_ext. intros k Hk. rewrite elem_of_cons. intuition lia.
  - assert (Hi' : Forall (fun j => i < j) l).
    { rewrite Forall_forall in *. intros j Hj. specialize (Hi j Hj). assert (j <> i) by (by intros ->). lia. }
    rewrite delete_all_cons by done. by rewrite IH.
Qed.

(** Erasing the sorted positions one by one, last first, drops exactly them. *)
Lemma erase_indices_spec q idxs : erase_indices q idxs = erase_from 0 idxs q.
Proof.
  unfold erase_indices.
  assert (Hs : StronglySorted lt (unique (merge_sort le idxs))).
  { apply unique_sorted, StronglySorted_merge_sort; [typeclasses eauto|intros ??; lia]. }
  assert (H0 : forall l, foldr (fun i rest => delete i rest) q l = delete_all 0 q l).
  { induction l as [|j l IH]; [done|]. cbn [foldr]. by rewrite IH, Nat.sub_0_r. }
  rewrite H0, delete_all_spec; [|done|]. 2:{ apply Forall_forall. lia. }
  apply erase_from_ext. intros j _. rewrite elem_of_unique. by rewrite merge_sort_Permutation.
Qed.

(** ** Collecting *)

Section Collecting.
Implicit Types (fd : bool) (seen : gset Z) (q : list Z).

(** Every address of the queue is collected once, unless seen before. *)
Lemma collect_seen fd i seen q items dups seen' :
  collect fd i seen q = (items, dups, seen') ->
  seen' = seen ∪ list_to_set q /\ NoDup (q_addr <$> items) /\
  (forall a, a ∈ q_addr <$> items <-> a ∈ q /\ a ∉ seen).
Proof.
  revert i seen items dups seen'. induction q as [|a q IH]; intros i seen items dups seen' E; cbn [collect] in E.
  { simplify_eq. split_and!; [set_solver|constructor|set_solver]. }
  destruct (bool_decide_reflect (a ∈ seen)) as [Ha|Ha].
  - destruct (collect fd (S i) seen q) as [[its ds] sn] eqn:E'. simplify_eq.
    destruct (IH _ _ _ _ _ E') as (-> & Hnd & Hin). split_and!; [set_solver|done|].
    intros x. rewrite Hin, elem_of_cons. set_solver.
  - destruct (collect fd (S i) ({[a]} ∪ seen) q) as [[its ds] sn] eqn:E'. simplify_eq.
    destruct (IH _ _ _ _ _ E') as (-> & Hnd & Hin). split_and!; [set_solver| |].
    + rewrite fmap_cons. constructor; [|done]. rewrite Hin. set_solver.
    + intros x. rewrite fmap_cons, !elem_of_cons, Hin. cbn [q_addr].
      destruct (decide (x = a)); set_solver.
Qed.

(** Positions of the items: at or after [i], distinct, and of the queue [fd]. *)
Lemma collect_positions fd i seen q items dups seen' :
  collect fd i seen q = (items, dups, seen') ->
  NoDup (q_index <$> items) /\ Forall (fun it => i <= q_index it /\ from_decode it = fd) items /\ Forall (fun j => i <= j) dups.
Proof.
  revert i seen items dups seen'. induction q as [|a q IH]; intros i seen items dups seen' E; cbn [collect] in E.
  { simplify_eq. split_and!; constructor. }
  destruct (bool_decide (a ∈ seen)).
  - destruct (collect fd (S i) seen q) as [[its ds] sn] eqn:E'. simplify_eq.
    destruct (IH _ _ _ _ _ E') as (Hnd & Hits & Hds). rewrite !Forall_forall in *. split_and!; [done| |].
    + intros it Hit. specialize (Hits it Hit). intuition lia.
    + intros j Hj. apply elem_of_cons in Hj as [->|Hj]; [lia|]. specialize (Hds j Hj). lia.
  - destruct (collect fd (S i) ({[a]} ∪ seen) q) as [[its ds] sn] eqn:E'. simplify_eq.
    destruct (IH _ _ _ _ _ E') as (Hnd & Hits & Hds). rewrite !Forall_forall in *. split_and!.
    + rewrite fmap_cons. constructor; [|done]. intros (it & Hi & Hit)%list_elem_of_fmap.
      specialize (Hits it Hit). cbn [q_index] in Hi. lia.
    + intros it Hit. apply elem_of_cons in Hit as [->|Hit]; [split; cbn; [lia|done]|]. specialize (Hits it Hit). intuition lia.
    + intros j Hj. specialize (Hds j Hj). lia.
Qed.

(** Erasing the duplicates and the positions [R] leaves the other items. *)
Lemma collect_erase fd i seen q items dups seen' R :
  collect fd i seen q = (items, dups, seen') ->
  erase_from i (R ++ dups) q = q_addr <$> filter (fun it => q_index it ∉ R) items.
Proof.
  revert i seen items dups seen'. induction q as [|a q IH]; intros i seen items dups seen' E; cbn [collect] in E.
  { by simplify_eq. }
  cbn [erase_from]. destruct (bool_decide (a ∈ seen)).
  - destruct (collect fd (S i) seen q) as [[its ds] sn] eqn:E'. simplify_eq.
    rewrite bool_decide_eq_true_2 by set_solver. rewrite <- (IH _ _ _ _ _ E').
    apply erase_from_ext. intros j Hj. rewrite !elem_of_app, elem_of_cons. intuition lia.
  - destruct (collect fd (S i) ({[a]} ∪ seen) q) as [[its ds] sn] eqn:E'. simplify_eq.
    destruct (collect_positions _ _ _ _ _ _ _ E') as (_ & _ & Hds). rewrite (IH _ _ _ _ _ E'), filter_cons. cbn [q_index].
    assert (Hi : i ∉ dups) by (intros Hin; rewrite Forall_forall in Hds; specialize (Hds i Hin); lia).
    destruct (decide (i ∉ R)) as [HR|HR].
    + rewrite bool_decide_eq_false_2 by (rewrite elem_of_app; tauto). done.
    + rewrite bool_decide_eq_true_2; [done|]. apply elem_of_app. left. by apply dec_stable.
Qed.
End Collecting.

(** ** Selecting *)

Definition item_key (it : QueueItem) : bool * nat := (from_decode it, q_index it).
Definition item_id (it : QueueItem) : bool * nat * Z := (item_key it, q_addr it).

Lemma insert_item_perm lt x l : insert_item lt x l ≡ₚ x :: l.
Proof.
  induction l as [|y l IH]; [done|]. cbn [insert_item]. destruct (lt x y); [done|]. rewrite IH. apply Permutation_swap.
Qed.

Lemma stable_sort_perm lt l : stable_sort lt l ≡ₚ l.
Proof.
  unfold stable_sort. rewrite <- (app_nil_r l) at 2. generalize (@nil QueueItem) as acc.
  induction l as [|x l IH]; intros acc; [done|]. cbn [foldl app]. rewrite IH, insert_item_perm.
  by rewrite Permutation_middle.
Qed.

(** The items that are not chosen are the ones whose positions stay. *)
Lemma unchosen_items I ch rest :
  item_id <$> I ≡ₚ item_id <$> (ch ++ rest) -> NoDup (item_key <$> I) ->
  q_addr <$> filter (fun it => item_key it ∉ item_key <$> ch) I ≡ₚ q_addr <$> rest.
Proof.
  set (K := item_key <$> ch). intros HI Hnd.
  assert (Hf : forall L : list QueueItem, item_id <$> filter (fun it => item_key it ∉ K) L = filter (fun t => t.1 ∉ K) (item_id <$> L)).
  { induction L as [|it L IH]; [done|]. rewrite fmap_cons, !filter_cons. cbn [item_id fst].
    destruct (decide (item_key it ∉ K)); [rewrite fmap_cons|]; by rewrite IH. }
  assert (Ha : forall L : list QueueItem, q_addr <$> L = snd <$> (item_id <$> L)) by (intros L; by rewrite <- list_fmap_compose).
  rewrite !Ha, Hf, HI, <- Hf. apply Permutation_refl', f_equal, f_equal.
  rewrite filter_app. replace (filter _ ch) with (@nil QueueItem).
  2:{ symmetry. apply filter_none. intros it Hit Hn. apply Hn. apply list_elem_of_fmap. eauto. }
  apply filter_all. intros it Hit Hin.
  assert (Hk : item_key <$> I ≡ₚ item_key <$> (ch ++ rest)).
  { assert (Hk : forall L : list QueueItem, item_key <$> L = fst <$> (item_id <$> L)) by (intros L; by rewrite <- list_fmap_compose).
    by rewrite !Hk, HI. }
  rewrite Hk, fmap_app in Hnd. apply NoDup_app in Hnd as (_ & Hd & _). eapply Hd; [exact Hin|].
  apply list_elem_of_fmap. eauto.
Qed.

Lemma filter_removed fd ch L :
  Forall (fun it => from_decode it = fd) L ->
  filter (fun it => q_index it ∉ removed fd ch) L = filter (fun it => item_key it ∉ item_key <$> ch) L.
Proof.
  intros HL. apply filter_ext_in. rewrite Forall_forall in HL. intros it Hit. specialize (HL it Hit).
  unfold removed, item_key. rewrite !list_elem_of_fmap. split; intros Hn (it' & E & Hit'); apply Hn.
  - exists it'. simplify_eq. split; [congruence|]. apply list_elem_of_filter. split; congruence.
  - apply list_elem_of_filter in Hit' as [Hfd Hit']. exists it'. split; [congruence|done].
Qed.

Section Round.
Context {C : Type} `{PrefixProbe C} (backend_hint : PendingRequest -> option nat).
Implicit Types (s : SchedulerState (C := C)) (b : building).

Lemma probe_items_id st (pc : C) items : item_id <$> (probe_items backend_hint st pc items).2 = item_id <$> items.
Proof.
  revert pc. induction items as [|it items IH]; intros pc; [done|]. cbn [probe_items].
  destruct (probe_item backend_hint st pc it) as [pc1 it'] eqn:E1.
  specialize (IH pc1). destruct (probe_items backend_hint st pc1 items) as [pc2 items'] eqn:E2. cbn [snd] in *.
  rewrite !fmap_cons, IH. f_equal. unfold probe_item in E1.
  repeat case_match; simplify_eq; done.
Qed.

Lemma select_one_chosen s b it : chosen (select_one s b it) = chosen b \/ chosen (select_one s b it) = chosen b ++ [it].
Proof. unfold select_one. repeat case_match; cbn [chosen]; auto. Qed.

Lemma select_loop_chosen s b items :
  exists ch, chosen (select_loop s b items) = chosen b ++ ch /\ ch `sublist_of` items.
Proof.
  revert b. induction items as [|it items IH]; intros b; cbn [select_loop].
  { exists []. by rewrite app_nil_r. }
  destruct (select_one_chosen s b it) as [E|E]; case_match.
  - exists []. rewrite app_nil_r. split; [done|apply sublist_nil_l].
  - destruct (IH (select_one s b it)) as (ch & -> & Hch). rewrite E. exists ch. split; [done|by apply sublist_cons].
  - exists [it]. split; [done|]. apply sublist_skip, sublist_nil_l.
  - destruct (IH (select_one s b it)) as (ch & -> & Hch). rewrite E, <- app_assoc. exists (it :: ch).
    split; [done|by apply sublist_skip].
Qed.

(** Chosen items and what is left of each queue make up the collected items. *)
Lemma round_split lt items_p items_d items ch :
  Forall (fun it => from_decode it = false) items_p -> Forall (fun it => from_decode it = true) items_d ->
  NoDup (q_index <$> items_p) -> NoDup (q_index <$> items_d) ->
  item_id <$> items = item_id <$> (items_p ++ items_d) -> ch `sublist_of` stable_sort lt items ->
  (q_addr <$> ch) ++ (q_addr <$> filter (fun it => q_index it ∉ removed false ch) items_p) ++
    (q_addr <$> filter (fun it => q_index it ∉ removed true ch) items_d) ≡ₚ q_addr <$> (items_p ++ items_d).
Proof.
  intros Hp Hd Np Nd Hid [rest Hrest]%sublist_submseteq%submseteq_Permutation.
  rewrite (filter_removed false ch items_p Hp), (filter_removed true ch items_d Hd), <- fmap_app, <- filter_app.
  assert (Hperm : item_id <$> (items_p ++ items_d) ≡ₚ item_id <$> (ch ++ rest)).
  { by rewrite <- Hid, <- (stable_sort_perm lt items), Hrest. }
  rewrite (unchosen_items _ _ _ Hperm).
  - rewrite <- fmap_app. symmetry.
    assert (Ha : forall L : list QueueItem, q_addr <$> L = snd <$> (item_id <$> L)) by (intros L; by rewrite <- list_fmap_compose).
    by rewrite !Ha, Hperm.
  - rewrite fmap_app. apply NoDup_app. rewrite Forall_forall in Hp, Hd. split_and!.
    + assert (E : (item_key <$> items_p).*2 = q_index <$> items_p) by (by rewrite <- list_fmap_compose).
      eapply NoDup_fmap_1. by rewrite E.
    + intros k (it & -> & Hit)%list_elem_of_fmap (it' & E & Hit')%list_elem_of_fmap.
      unfold item_key in E. rewrite (Hp it Hit), (Hd it' Hit') in E. done.
    + assert (E : (item_key <$> items_d).*2 = q_index <$> items_d) by (by rewrite <- list_fmap_compose).
      eapply NoDup_fmap_1. by rewrite E.
Qed.

(** The items of a batch round, before sorting. *)
Definition round_items s : list QueueItem :=
  let '(items_p, _, seen) := collect false 0 ∅ (pending_prefill s) in
  let '(items_d, _, _) := if use_decode_workers s then ([], [], seen) else collect true 0 seen (pending_decode s) in
  match prefix_cache s with
  | Some pc => if UsesPrefixAffinity (batch_policy s)
               then (probe_items backend_hint (requests s) pc (items_p ++ items_d)).2 else items_p ++ items_d
  | None => items_p ++ items_d
  end.

(** The queue entries this round may take: decode workers keep the decode queue. *)
Definition owned s : list Z := if use_decode_workers s then [] else pending_decode s.
Definition kept_back s : list Z := if use_decode_workers s then pending_decode s else [].

Definition round_build s (now : Z) : building :=
  select_loop s (mkBuild (requests s) (cache s) [] 0) (stable_sort (before (batch_policy s) (requests s) now) (round_items s)).

(** The two collecting loops together. *)
Lemma collect_both s items_p dups_p seen items_d dups_d seen' :
  collect false 0 ∅ (pending_prefill s) = (items_p, dups_p, seen) ->
  (if use_decode_workers s then ([], [], seen) else collect true 0 seen (pending_decode s)) = (items_d, dups_d, seen') ->
  q_addr <$> (items_p ++ items_d) ≡ₚ remove_dups (pending_prefill s ++ owned s) /\
  (NoDup (q_index <$> items_p) /\ Forall (fun it => from_decode it = false) items_p) /\
  (NoDup (q_index <$> items_d) /\ Forall (fun it => from_decode it = true) items_d).
Proof.
  intros Ep Ed. destruct (collect_seen _ _ _ _ _ _ _ Ep) as (-> & Np & Ip).
  destruct (collect_positions _ _ _ _ _ _ _ Ep) as (Kp & Fp & _).
  assert (Hd : NoDup (q_addr <$> items_d) /\ (forall a, a ∈ q_addr <$> items_d <-> a ∈ owned s /\ a ∉ pending_prefill s) /\
            NoDup (q_index <$> items_d) /\ Forall (fun it => from_decode it = true) items_d).
  { unfold owned. destruct (use_decode_workers s).
    - simplify_eq. split_and!; [constructor|set_solver|constructor|constructor].
    - destruct (collect_seen _ _ _ _ _ _ _ Ed) as (_ & Nd & Id). destruct (collect_positions _ _ _ _ _ _ _ Ed) as (Kd & Fd & _).
      split_and!; [done|set_solver|done|]. eapply Forall_impl; [exact Fd|naive_solver]. }
  destruct Hd as (Nd & Id & Kd & Fd). split_and!; [|done| |done..].
  - rewrite fmap_app. apply NoDup_Permutation; [|apply NoDup_remove_dups|].
    + apply NoDup_app. split_and!; [done| |done]. intros a Ha Ha'. apply Ip in Ha. apply Id in Ha'. tauto.
    + intros a. rewrite elem_of_app, Ip, Id, elem_of_remove_dups, elem_of_app.
      destruct (decide (a ∈ pending_prefill s)); set_solver.
  - eapply Forall_impl; [exact Fp|naive_solver].
Qed.

(** A round in closed form (also when both queues are empty). *)
Lemma build_eq s now items_p dups_p seen items_d dups_d seen' :
  collect false 0 ∅ (pending_prefill s) = (items_p, dups_p, seen) ->
  (if use_decode_workers s then ([], [], seen) else collect true 0 seen (pending_decode s)) = (items_d, dups_d, seen') ->
  exists pc, BuildBatchLocked backend_hint s now =
    (mkSched (b_requests (round_build s now))
       (erase_indices (pending_prefill s) (removed false (chosen (round_build s now)) ++ dups_p))
       (erase_indices (pending_decode s) (removed true (chosen (round_build s now)) ++ dups_d))
       (b_cache (round_build s now)) pc (fairness_config s) (batch_policy s) (max_batch_size s) (max_batch_tokens s)
       (use_decode_workers s) (phased_logprobs_disabled s),
     mkSelection (q_addr <$> chosen (round_build s now)) (token_budget (round_build s now))).
Proof.
  intros Ep Ed. unfold BuildBatchLocked.
  destruct (bool_decide (pending_prefill s = []) && bool_decide (pending_decode s = [])) eqn:Hemp.
  - apply andb_prop in Hemp as [Hp%bool_decide_eq_true_1 Hd%bool_decide_eq_true_1].
    assert (Hr : round_items s = []).
    { unfold round_items. rewrite Hp, Hd. destruct (use_decode_workers s); cbn [collect];
        destruct (prefix_cache s), (UsesPrefixAffinity (batch_policy s)); done. }
    assert (items_d = [] /\ dups_p = [] /\ dups_d = []) as (-> & -> & ->).
    { rewrite Hp in Ep. cbn [collect] in Ep. simplify_eq. rewrite Hd in Ed.
      destruct (use_decode_workers s); cbn [collect] in Ed; by simplify_eq. }
    exists (prefix_cache s). unfold round_build. rewrite Hr. cbn. rewrite Hp, Hd.
    destruct s; cbn in *; by subst.
  - rewrite Ep, Ed. unfold round_build, round_items. rewrite Ep, Ed.
    destruct (prefix_cache s) as [pc|]; [|by eexists]. destruct (UsesPrefixAffinity (batch_policy s)); [|by eexists].
    destruct (probe_items backend_hint (requests s) pc (items_p ++ items_d)). by eexists.
Qed.

Lemma round_items_id s items_p dups_p seen items_d dups_d seen' :
  collect false 0 ∅ (pending_prefill s) = (items_p, dups_p, seen) ->
  (if use_decode_workers s then ([], [], seen) else collect true 0 seen (pending_decode s)) = (items_d, dups_d, seen') ->
  item_id <$> round_items s = item_id <$> (items_p ++ items_d).
Proof.
  intros Ep Ed. unfold round_items. rewrite Ep, Ed. repeat case_match; solve [apply probe_items_id|done].
Qed.

Lemma round_chosen s now :
  chosen (round_build s now) `sublist_of` stable_sort (before (batch_policy s) (requests s) now) (round_items s).
Proof.
  unfold round_build. by destruct (select_loop_chosen s (mkBuild (requests s) (cache s) [] 0)
    (stable_sort (before (batch_policy s) (requests s) now) (round_items s))) as (ch & -> & Hch).
Qed.

(** Every chosen item stands for a collected one. *)
Lemma round_chosen_id s now items_p dups_p seen items_d dups_d seen' it :
  collect false 0 ∅ (pending_prefill s) = (items_p, dups_p, seen) ->
  (if use_decode_workers s then ([], [], seen) else collect true 0 seen (pending_decode s)) = (items_d, dups_d, seen') ->
  it ∈ chosen (round_build s now) -> exists it', it' ∈ items_p ++ items_d /\ item_id it = item_id it'.
Proof.
  intros Ep Ed Hit.
  assert (Hin : item_id it ∈ item_id <$> round_items s).
  { rewrite <- (stable_sort_perm (before (batch_policy s) (requests s) now) (round_items s)).
    apply list_elem_of_fmap_2. eapply elem_of_sublist; [exact Hit|apply round_chosen]. }
  rewrite (round_items_id s _ _ _ _ _ _ Ep Ed) in Hin. apply list_elem_of_fmap in Hin as (it' & ? & ?). eauto.
Qed.

(** A round takes each queued request at most once and leaves the rest queued. *)
Lemma build_conserves s now :
  let r := BuildBatchLocked backend_hint s now in
  pending r.2 ++ pending_prefill r.1 ++ owned r.1 ≡ₚ remove_dups (pending_prefill s ++ owned s) /\ kept_back r.1 = kept_back s.
Proof.
  destruct (collect false 0 ∅ (pending_prefill s)) as [[items_p dups_p] seen] eqn:Ep.
  destruct (if use_decode_workers s then ([], [], seen) else collect true 0 seen (pending_decode s))
    as [[items_d dups_d] seen'] eqn:Ed.
  destruct (build_eq s now _ _ _ _ _ _ Ep Ed) as [pc ->]. cbn zeta. cbn [fst snd pending pending_prefill].
  destruct (collect_both s _ _ _ _ _ _ Ep Ed) as (Hdup & (Np & Fp) & (Nd & Fd)).
  pose proof (round_split _ _ _ _ _ Fp Fd Np Nd (round_items_id s _ _ _ _ _ _ Ep Ed) (round_chosen s now)) as Hsplit.
  rewrite <- Hdup, <- Hsplit, erase_indices_spec, (collect_erase _ _ _ _ _ _ _ _ Ep).
  unfold owned, kept_back. cbn [use_decode_workers pending_decode].
  rewrite erase_indices_spec.
  destruct (use_decode_workers s) eqn:Hw.
  - simplify_eq. split; [done|]. rewrite app_nil_r.
    replace (removed true (chosen (round_build s now))) with (@nil nat).
    + rewrite <- (erase_indices_spec (pending_decode s) []). done.
    + symmetry. unfold removed. rewrite filter_none; [done|]. intros it Hit Hfd.
      destruct (round_chosen_id s now _ _ _ _ _ _ it Ep ltac:(by rewrite Hw) Hit) as (it' & Hit' & E).
      rewrite app_nil_r in Hit'. rewrite Forall_forall in Fp. specialize (Fp it' Hit'). unfold item_id, item_key in E. congruence.
  - by rewrite (collect_erase _ _ _ _ _ _ _ _ Ed).
Qed.
End Round.

(** ** Fairness *)

Definition prio (st : store) (a : Z) : Z := priority (inference (st !!! a)).

Lemma lookup_total_alter_inf g (st : store) a b :
  inference (alter (on_inference g) a st !!! b) =
  if decide (a = b /\ is_Some (st !! a)) then g (inference (st !!! b)) else inference (st !!! b).
Proof.
  rewrite !lookup_total_alt. destruct (decide (a = b)) as [<-|Hne].
  - rewrite lookup_alter_eq. destruct (st !! a) as [p|]; cbn; [rewrite decide_True by eauto|rewrite decide_False by (intros [_ [? [=]]])]; done.
  - rewrite lookup_alter_ne by done. rewrite decide_False by tauto. done.
Qed.

Lemma prio_level_one st a b : prio (level_one st a) b = prio st b.
Proof. unfold prio, level_one. rewrite lookup_total_alter_inf. by case_decide. Qed.

Lemma prio_levels st l b : prio (foldl level_one st l) b = prio st b.
Proof. revert st. induction l as [|a l IH]; intros st; [done|]. cbn [foldl]. by rewrite IH, prio_level_one. Qed.

(** Refreshing sets the level to the priority, and never undoes another refresh. *)
Lemma level_one_eq st a : level_of (level_one st a) a = prio st a.
Proof.
  unfold level_of, level_one, prio. rewrite lookup_total_alter_inf. case_decide as Hd; [done|].
  destruct (st !! a) as [p|] eqn:E; [naive_solver|]. by rewrite lookup_total_alt, E.
Qed.

Lemma level_one_keeps st a b : level_of st b = prio st b -> level_of (level_one st a) b = prio st b.
Proof. unfold level_of, level_one, prio. rewrite lookup_total_alter_inf. case_decide; [done|auto]. Qed.

Lemma levels_keep st l b : level_of st b = prio st b -> level_of (foldl level_one st l) b = prio st b.
Proof.
  revert st. induction l as [|a l IH]; intros st Hb; [done|]. cbn [foldl].
  rewrite IH; [apply prio_level_one|]. rewrite prio_level_one. by apply level_one_keeps.
Qed.

Lemma levels_set st l b : b ∈ l -> level_of (foldl level_one st l) b = prio st b.
Proof.
  revert st. induction l as [|a l IH]; intros st Hb; [set_solver|]. cbn [foldl].
  apply elem_of_cons in Hb as [->|Hb]; [|by rewrite IH, prio_level_one].
  rewrite levels_keep; [apply prio_level_one|]. by rewrite prio_level_one, level_one_eq.
Qed.

Lemma batch_entries_spec i st l :
  batch_entries i st l = (foldl level_one st l, imap (fun k a => mkEntry (Some a) (prio st a) (i + k)) l).
Proof.
  revert i st. induction l as [|a l IH]; intros i st; [done|]. cbn [batch_entries imap foldl].
  rewrite IH, level_one_eq, Nat.add_0_r. do 2 f_equal. apply imap_ext. intros k x _. cbn. rewrite prio_level_one. f_equal. lia.
Qed.

Lemma queue_refs_addrs (pp pd : list Z) : (fun r => r.1.1) <$> queue_refs pp pd = pp ++ pd.
Proof.
  unfold queue_refs. rewrite fmap_app. f_equal; apply list_eq; intros j; rewrite list_lookup_fmap, list_lookup_imap;
    by destruct (_ !! j).
Qed.

Lemma queue_refs_lookup (pp pd : list Z) qi a (fd : bool) j :
  queue_refs pp pd !! qi = Some (a, fd, j) -> (if fd then pd else pp) !! j = Some a.
Proof.
  unfold queue_refs. rewrite lookup_app_Some, !list_lookup_imap_Some. intros [(y & Hy & E)|(_ & y & Hy & E)]; by simplify_eq.
Qed.

(** What [Evaluate] decides on entries whose levels are [key]s. *)
Lemma Evaluate_swap cfg batch queue bi qi :
  Evaluate cfg batch queue = Some (bi, qi) ->
  exists lo hi, batch !! bi = Some lo /\ queue !! qi = Some hi /\
    (high_priority_threshold cfg <= entry_level hi)%Z /\ (entry_level lo < entry_level hi)%Z /\
    (forall e, e ∈ batch -> entry_level lo <= entry_level e)%Z /\ (forall e, e ∈ queue -> entry_level e <= entry_level hi)%Z.
Proof.
  unfold Evaluate. intros E. case_match; [done|].
  destruct (max_element _ queue) as [[k hi]|] eqn:Eh; [|done]. case_match eqn:Et; [done|].
  destruct (min_element _ batch) as [[m lo]|] eqn:El; [|done]. case_match eqn:Ec; [done|]. simplify_eq.
  apply max_element_spec in Eh as [Hhi Hmax]. apply min_element_spec in El as [Hlo Hmin].
  exists lo, hi. split_and!; [done..|lia|lia| |].
  - intros e [j He]%list_elem_of_lookup. by apply (Hmin j).
  - intros e [j He]%list_elem_of_lookup. by apply (Hmax j).
Qed.

Lemma Evaluate_stay cfg batch queue lo hi :
  Evaluate cfg batch queue = None -> enable_preemption cfg = true -> lo ∈ batch -> hi ∈ queue ->
  (high_priority_threshold cfg <= entry_level hi)%Z -> (entry_level hi <= entry_level lo)%Z.
Proof.
  unfold Evaluate. intros E Hen Hlo Hhi Ht. rewrite Hen in E. cbn [negb orb] in E.
  destruct (list_elem_of_lookup_1 _ _ Hlo) as [bi Hbi], (list_elem_of_lookup_1 _ _ Hhi) as [qi Hqi].
  rewrite !bool_decide_eq_false_2 in E by (intros ?%nil_length_inv; set_solver). cbn [orb] in E.
  destruct (max_element _ queue) as [[k h]|] eqn:Eh; [|apply best_element_None in Eh; set_solver].
  apply max_element_spec in Eh as [_ Hmax]. destruct (Hmax _ _ Hqi) as [Hle _].
  rewrite (proj2 (Z.ltb_ge _ _)) in E by lia.
  destruct (min_element _ batch) as [[m l]|] eqn:El; [|apply best_element_None in El; set_solver].
  apply min_element_spec in El as [_ Hmin]. destruct (Hmin _ _ Hbi) as [Hle' _].
  case_match eqn:Ec; [|done]. lia.
Qed.

Lemma insert_swap_perm (l : list Z) i x y : l !! i = Some x -> x :: <[i:=y]> l ≡ₚ y :: l.
Proof.
  revert i. induction l as [|z l IH]; intros [|i] Hi; cbn in *; simplify_eq; [apply Permutation_swap|].
  rewrite (Permutation_swap z x), (IH _ Hi). apply Permutation_swap.
Qed.

(** Permutations of address lists, by counting. *)
Ltac count_perm :=
  repeat match goal with H : _ ≡ₚ _ |- _ => rewrite (Permutation_count_occ Z.eq_dec) in H end;
  apply (Permutation_count_occ Z.eq_dec); intros ?z;
  repeat match goal with H : forall x : Z, count_occ _ _ x = _ |- _ => specialize (H z) end;
  rewrite ?count_occ_app in *; cbn [count_occ] in *; repeat case_match; lia.

Section Fairness.
Context {C : Type}.
Implicit Types (s : SchedulerState (C := C)).

Definition in_flight s (batch : list Z) : list Z := batch ++ pending_prefill s ++ pending_decode s.

Lemma swap_conserves s st batch bi q (fd : bool) qi :
  (if fd then pending_decode s else pending_prefill s) !! qi = Some q -> bi < length batch ->
  let r := swap_requests s st batch bi (q, fd, qi) in
  in_flight r.1 r.2 ≡ₚ in_flight s batch /\ r.2 = <[bi := q]> batch.
Proof.
  intros Hq [d Hd]%lookup_lt_is_Some. cbn zeta. unfold swap_requests. cbn [fst snd]. split; [|done].
  assert (Hdd : batch !!! bi = d) by (by apply list_lookup_total_correct). rewrite Hdd.
  pose proof (insert_swap_perm batch bi d q Hd) as Hswap. unfold in_flight.
  pose proof (delete_Permutation _ _ _ Hq) as Hdel.
  destruct fd; destruct (is_decode _); cbn [set_queues pending_prefill pending_decode]; count_perm.
Qed.
(** The levels the pass compares are the requests' priorities. *)
Definition level_entries (st : store) (l : list Z) : list FairnessEntry :=
  imap (fun k a => mkEntry (Some a) (prio st a) k) l.

Lemma elem_of_level_entries st l e : e ∈ level_entries st l -> exists a, a ∈ l /\ entry_level e = prio st a.
Proof. intros (k & a & -> & Hk)%elem_of_lookup_imap. exists a. split; [by eapply list_elem_of_lookup_2|done]. Qed.

Lemma level_entries_elem st l a : a ∈ l -> exists e, e ∈ level_entries st l /\ entry_level e = prio st a.
Proof. intros [k Hk]%list_elem_of_lookup. exists (mkEntry (Some a) (prio st a) k). split; [|done]. apply elem_of_lookup_imap. eauto. Qed.

Lemma queue_entries_eq s st :
  imap (fun i r => mkEntry (Some r.1.1) (level_of (foldl level_one st (pending_prefill s ++ pending_decode s)) r.1.1) i)
    (queue_refs (pending_prefill s) (pending_decode s)) = level_entries st (pending_prefill s ++ pending_decode s).
Proof.
  transitivity (level_entries st ((fun r => r.1.1) <$> queue_refs (pending_prefill s) (pending_decode s)));
    [|by rewrite queue_refs_addrs].
  unfold level_entries. rewrite imap_fmap. apply imap_ext. intros k r Hr. cbn. rewrite levels_set; [done|].
  rewrite <- (queue_refs_addrs (pending_prefill s) (pending_decode s)).
  apply (list_elem_of_fmap_2 (fun r => r.1.1)). by eapply list_elem_of_lookup_2.
Qed.

Lemma level_entries_ext st st' l : (forall a, prio st a = prio st' a) -> level_entries st l = level_entries st' l.
Proof. intros E. apply imap_ext. intros k a _. by rewrite E. Qed.

(** The pass, seen through its effect on the batch and the queues. *)
Lemma ApplyFairness_cases s batch :
  let r := ApplyFairness s batch in
  let Q := pending_prefill s ++ pending_decode s in
  let decision := Evaluate (fairness_config s) (level_entries (requests s) batch) (level_entries (requests s) Q) in
  (decision = None \/ batch = []) /\ r.2 = batch /\ pending_prefill r.1 = pending_prefill s /\ pending_decode r.1 = pending_decode s \/
  exists bi qi hi, decision = Some (bi, qi) /\ Q !! qi = Some hi /\ r.2 = <[bi := hi]> batch /\
    in_flight r.1 r.2 ≡ₚ in_flight s batch.
Proof.
  cbn zeta. unfold ApplyFairness. destruct (bool_decide_reflect (batch = [])) as [->|Hne]; [left; tauto|].
  rewrite batch_entries_spec, queue_entries_eq. cbn [Nat.add].
  rewrite (level_entries_ext (foldl level_one (requests s) batch) (requests s)) by apply prio_levels.
  change (imap _ batch) with (level_entries (requests s) batch).
  destruct (Evaluate _ _ _) as [[bi qi]|] eqn:E; [|left; tauto].
  destruct (Evaluate_swap _ _ _ _ _ E) as (lo & hi & Hlo & Hhi & _).
  apply lookup_lt_Some in Hlo. unfold level_entries in Hlo, Hhi. rewrite length_imap in Hlo.
  apply list_lookup_imap_Some in Hhi as (a & Ha & _).
  rewrite <- queue_refs_addrs, list_lookup_fmap_Some in Ha. destruct Ha as ([[q fd] j] & -> & Hr). cbn [fst].
  rewrite (proj2 (Nat.ltb_lt _ _) Hlo), (proj2 (Nat.ltb_lt _ _) (lookup_lt_Some _ _ _ Hr)). cbn [andb].
  rewrite (list_lookup_total_correct _ _ _ Hr).
  destruct (swap_conserves s (foldl level_one (foldl level_one (requests s) batch) (pending_prefill s ++ pending_decode s))
    batch bi q fd j (queue_refs_lookup _ _ _ _ _ _ Hr) Hlo) as [Hc Hb].
  destruct (swap_requests _ _ _ _ _) as [s' b'] eqn:Es. cbn [fst snd] in *. right. exists bi, qi, q. split_and!; [done| |done|done].
  rewrite <- (queue_refs_addrs (pending_prefill s) (pending_decode s)), list_lookup_fmap, Hr. done.
Qed.

Lemma fairness_conserves s batch :
  let r := ApplyFairness s batch in in_flight r.1 r.2 ≡ₚ in_flight s batch.
Proof.
  destruct (ApplyFairness_cases s batch) as [(_ & Hb & Hp & Hd)|(? & ? & ? & _ & _ & _ & Hc)]; [|done].
  cbn zeta. unfold in_flight. by rewrite Hb, Hp, Hd.
Qed.
End Fairness.

(** The fairness pass follows priorities.  When preemption is enabled and the
    batch is not empty, then either no queued request at or above the threshold
    outranks any request of the batch, and batch and queues are as before; or one
    request of least priority in the batch is replaced by a queued request of
    greatest priority, which is at or above the threshold and strictly outranks it. *)
Theorem preemption_follows_priority {C : Type} (s : SchedulerState (C := C)) (batch : list Z) :
  batch <> [] -> enable_preemption (fairness_config s) = true ->
  let r := ApplyFairness s batch in
  let Q := pending_prefill s ++ pending_decode s in
  let P := prio (requests s) in
  let threshold := high_priority_threshold (fairness_config s) in
  (r.2 = batch /\ pending_prefill r.1 = pending_prefill s /\ pending_decode r.1 = pending_decode s /\
   forall lo hi, lo ∈ batch -> hi ∈ Q -> (threshold <= P hi)%Z -> (P hi <= P lo)%Z) \/
  (exists i lo hi, batch !! i = Some lo /\ hi ∈ Q /\ r.2 = <[i := hi]> batch /\
   (threshold <= P hi)%Z /\ (P lo < P hi)%Z /\
   (forall a, a ∈ batch -> P lo <= P a)%Z /\ (forall a, a ∈ Q -> P a <= P hi)%Z).
Proof.
  intros Hne Hen. cbn zeta.
  destruct (ApplyFairness_cases s batch) as [(Hdec & Hb & Hp & Hd)|(bi & qi & hi & Hdec & Hhi & Hb & _)].
  - left. split_and!; [done..|]. intros lo hi Hlo Hhi Ht. destruct Hdec as [Hdec|]; [|done].
    destruct (level_entries_elem (requests s) _ _ Hlo) as (el & Hel & El), (level_entries_elem (requests s) _ _ Hhi) as (eh & Heh & Eh).
    pose proof (Evaluate_stay _ _ _ el eh Hdec Hen Hel Heh). lia.
  - right. destruct (Evaluate_swap _ _ _ _ _ Hdec) as (el & eh & Hel & Heh & Ht & Hlt & Hmin & Hmax).
    apply list_lookup_imap_Some in Hel as (lo & Hlo & ->), Heh as (hi' & Hhi' & ->). simplify_eq. cbn [entry_level] in *.
    exists bi, lo, hi. split_and!; [done|by eapply list_elem_of_lookup_2|done|done|done| |].
    + intros a Ha. destruct (level_entries_elem (requests s) _ _ Ha) as (e & He & <-). by apply Hmin.
    + intros a Ha. destruct (level_entries_elem (requests s) _ _ Ha) as (e & He & <-). by apply Hmax.
Qed.

(** C6: a scheduling round loses no request and takes none twice.  After
    [BuildBatchLocked] and the fairness pass, the batch and the two queues together
    hold every queued request exactly once (repeated queue entries are merged); the
    decode queue is not deduplicated when the decode workers own it. *)
Theorem scheduling_round_conserves {C : Type} `{PrefixProbe C} (backend_hint : PendingRequest -> option nat)
    (s : SchedulerState (C := C)) (now : Z) :
  let built := BuildBatchLocked backend_hint s now in
  let fair := ApplyFairness built.1 (pending built.2) in
  in_flight fair.1 fair.2 ≡ₚ remove_dups (pending_prefill s ++ owned s) ++ kept_back s.
Proof.
  cbn zeta. rewrite fairness_conserves. destruct (build_conserves backend_hint s now) as [Hc Hk]. cbn zeta in Hc, Hk.
  rewrite <- Hc, <- Hk. unfold in_flight, owned, kept_back.
  destruct (use_decode_workers (BuildBatchLocked backend_hint s now).1); [|rewrite !app_nil_r]; by rewrite ?app_nil_r, <- ?app_assoc.
Qed.

(** ** The order in which requests are considered *)

Section Sorting.
Context (lt : QueueItem -> QueueItem -> bool) (P : QueueItem -> Prop).
Hypothesis lt_asym : forall a b, P a -> P b -> lt a b = true -> lt b a = false.
Hypothesis lt_cotrans : forall a b c, P a -> P b -> P c -> lt a b = false -> lt b c = false -> lt a c = false.

Abbreviation sorted := (StronglySorted (fun a b => lt b a = false)).

Lemma insert_item_sorted x l : P x -> Forall P l -> sorted l -> sorted (insert_item lt x l).
Proof.
  intros Hx Hl Hs. induction Hs as [|y l Hs IH Hy]; cbn [insert_item]; [repeat constructor|].
  apply Forall_cons in Hl as [HPy Hl]. destruct (lt x y) eqn:E; constructor.
  - by constructor.
  - constructor; [by apply lt_asym|]. rewrite Forall_forall in *. intros z Hz.
    eapply (lt_cotrans z y x); auto.
  - by apply IH.
  - rewrite insert_item_perm. by constructor.
Qed.

Lemma stable_sort_sorted l : Forall P l -> sorted (stable_sort lt l).
Proof.
  intros Hl. unfold stable_sort.
  assert (Hacc : sorted [] /\ Forall P []) by (split; constructor). revert Hacc.
  generalize (@nil QueueItem) as acc. induction Hl as [|x l Hx Hl IH]; intros acc [Hs Hp]; [done|].
  cbn [foldl]. apply IH. split; [by apply insert_item_sorted|]. rewrite insert_item_perm. by constructor.
Qed.
End Sorting.

Lemma sublist_sorted {A} (R : A -> A -> Prop) l k : l `sublist_of` k -> StronglySorted R k -> StronglySorted R l.
Proof.
  induction 1 as [|x l k Hlk IH|x l k Hlk IH]; intros Hs; [constructor| |].
  - apply StronglySorted_inv in Hs as [Hs Hx]. constructor; [by apply IH|]. rewrite Forall_forall in *.
    intros y Hy. apply Hx. by eapply elem_of_sublist.
  - apply IH. by apply StronglySorted_inv in Hs as [Hs _].
Qed.

Definition comparable (policy : SchedulerBatchPolicy) (st : store) (now : Z) (it : QueueItem) : Prop :=
  is_nan (item_score policy st now it) = false.

Lemma before_spec policy st now a b :
  comparable policy st now a -> comparable policy st now b ->
  before policy st now a b = true <->
  key_lt (key (item_score policy st now b)) (key (item_score policy st now a)) \/
  (key (item_score policy st now a) = key (item_score policy st now b) /\
   (p_sequence (st !!! q_addr a) < p_sequence (st !!! q_addr b))%Z).
Proof.
  intros Ha Hb. unfold before. pose proof (deqb_key _ _ Ha Hb) as Heq. pose proof (dltb_key _ _ Hb Ha) as Hlt.
  destruct (deqb (item_score policy st now a) (item_score policy st now b)); cbn [negb].
  - rewrite Z.ltb_lt. assert (Hk := proj1 Heq eq_refl). rewrite Hk. unfold key_lt. split; [tauto|]. intros [?|[_ ?]]; lia.
  - rewrite Hlt. split; [tauto|]. intros [?|[Hk _]]; [done|]. by apply Heq in Hk.
Qed.

Lemma before_asym policy st now a b :
  comparable policy st now a -> comparable policy st now b ->
  before policy st now a b = true -> before policy st now b a = false.
Proof.
  intros Ha Hb Hab. apply not_true_iff_false. intros Hba. apply before_spec in Hab, Hba; [|done..].
  unfold key_lt in *. destruct Hab as [?|[E ?]], Hba as [?|[E' ?]]; try rewrite E in *; try rewrite E' in *; lia.
Qed.

Lemma before_cotrans policy st now a b c :
  comparable policy st now a -> comparable policy st now b -> comparable policy st now c ->
  before policy st now a b = false -> before policy st now b c = false -> before policy st now a c = false.
Proof.
  rewrite <- !not_true_iff_false. intros Ha Hb Hc Hab Hbc Hac. rewrite before_spec in Hab, Hbc, Hac by done.
  unfold key_lt in *. destruct (key (item_score policy st now a)) as [[a1 a2] a3], (key (item_score policy st now b)) as [[b1 b2] b3],
    (key (item_score policy st now c)) as [[c1 c2] c3]. cbn [fst snd] in *.
  assert (Hp : forall x y z x' y' z' : Z, (x, y, z) = (x', y', z') <-> x = x' /\ y = y' /\ z = z') by (intros; split; [by intros [=]|by intros (-> & -> & ->)]).
  rewrite !Hp in *. lia.
Qed.

(** ** Limits of a batch *)

Section Limits.
Context {C : Type}.
Implicit Types (s : SchedulerState (C := C)) (b : building).

Definition item_cost s (st : store) (it : QueueItem) : nat :=
  let p := st !!! q_addr it in
  EstimateQueueTokenCost (inference p) (from_decode it) (fairness_config s) (phased_logprobs_disabled s) (legacy_logprobs p).

(** What the selecting loop maintains over the items still to come. *)
Record loop_ok s (b : building) (items : list QueueItem) : Prop := {
  lo_fresh : forall it, it ∈ items -> b_requests b !!! q_addr it = requests s !!! q_addr it;
  lo_nodup : NoDup (q_addr <$> items);
  lo_sum : token_budget b = sum_list (item_cost s (requests s) <$> chosen b);
  lo_budget : (Z.of_nat (token_budget b) <= max_batch_tokens s)%Z \/ length (chosen b) = 1;
  lo_size : (Z.of_nat (length (chosen b)) < max_batch_size s)%Z }.

Lemma select_one_budget s b it :
  (0 <= max_batch_tokens s < 2 ^ 64)%Z -> b_requests b !!! q_addr it = requests s !!! q_addr it ->
  let b' := select_one s b it in
  (chosen b' = chosen b /\ token_budget b' = token_budget b /\ b_requests b' = b_requests b) \/
  (chosen b' = chosen b ++ [it] /\ token_budget b' = token_budget b + item_cost s (requests s) it /\
   (exists p, b_requests b' = <[q_addr it := p]> (b_requests b)) /\
   (chosen b = [] \/ (Z.of_nat (token_budget b') <= max_batch_tokens s)%Z)).
Proof.
  intros HT Hit. cbn zeta. unfold select_one, item_cost. rewrite Hit, u64_small by lia.
  destruct (bool_decide_reflect (chosen b <> [])) as [Hne|He]; cbn [andb].
  - case_match eqn:Hover; [by left|]. apply Z.ltb_ge in Hover.
    destruct (if is_swapped _ then _ else _) as [[c1 r1] []]; [right|by left]. cbn. split_and!; [done..|eauto|]. right. lia.
  - destruct (if is_swapped _ then _ else _) as [[c1 r1] []]; [right|by left]. cbn. split_and!; [done..|eauto|]. left. by apply dec_stable.
Qed.

Lemma select_one_ok s b it items :
  (0 <= max_batch_tokens s < 2 ^ 64)%Z -> loop_ok s b (it :: items) ->
  let b' := select_one s b it in
  (Z.of_nat (length (chosen b')) <= max_batch_size s)%Z /\
  ((Z.of_nat (length (chosen b')) < max_batch_size s)%Z -> loop_ok s b' items) /\
  token_budget b' = sum_list (item_cost s (requests s) <$> chosen b') /\
  ((Z.of_nat (token_budget b') <= max_batch_tokens s)%Z \/ length (chosen b') = 1).
Proof.
  intros HT [Hf Hn Hs Hb Hz]. cbn zeta. rewrite fmap_cons in Hn. apply NoDup_cons in Hn as [Hni Hn].
  destruct (select_one_budget s b it HT (Hf it ltac:(set_solver))) as [(Ec & Et & Er)|(Ec & Et & [p Er] & Hlim)]; cbn zeta in *.
  - rewrite Ec, Et. split_and!; [lia| |done|done]. intros Hlt. split; rewrite ?Ec, ?Et, ?Er; try done. intros it' Hit'. apply Hf. set_solver.
  - assert (Hsum : token_budget (select_one s b it) = sum_list (item_cost s (requests s) <$> chosen (select_one s b it))).
    { rewrite Ec, Et, fmap_app, sum_list_with_app. cbn. lia. }
    assert (Hbud : (Z.of_nat (token_budget (select_one s b it)) <= max_batch_tokens s)%Z \/ length (chosen (select_one s b it)) = 1).
    { destruct Hlim as [He|]; [right; by rewrite Ec, He|by left]. }
    split_and!; [rewrite Ec, length_app; cbn; lia| |done|done]. intros Hlt. split; try done.
    intros it' Hit'. rewrite Er, lookup_total_insert_ne; [apply Hf; set_solver|].
    intros E. apply Hni. rewrite E. by apply list_elem_of_fmap_2.
Qed.

Lemma select_loop_ok s b items :
  (0 <= max_batch_tokens s < 2 ^ 64)%Z -> (0 <= max_batch_size s < 2 ^ 64)%Z -> loop_ok s b items ->
  let b' := select_loop s b items in
  (Z.of_nat (length (chosen b')) <= max_batch_size s)%Z /\
  token_budget b' = sum_list (item_cost s (requests s) <$> chosen b') /\
  ((Z.of_nat (token_budget b') <= max_batch_tokens s)%Z \/ length (chosen b') = 1).
Proof.
  intros HT HN. revert b. induction items as [|it items IH]; intros b Hok; cbn zeta; cbn [select_loop].
  { destruct Hok. split_and!; [lia|done|done]. }
  destruct (select_one_ok s b it items HT Hok) as (Hlen & Hnext & Hsum & Hbud); cbn zeta in *.
  rewrite u64_small by lia. case_match eqn:Hstop; [done|]. apply IH, Hnext.
  apply andb_false_iff in Hstop as [Hstop%bool_decide_eq_false_1|Hstop%Z.leb_gt]; [|done].
  destruct Hok. destruct (select_one_chosen s b it) as [E|E]; rewrite E in *; [lia|].
  rewrite length_app in Hstop. cbn in Hstop. lia.
Qed.
End Limits.

Section BatchTheorems.
Context {C : Type} `{PrefixProbe C} (backend_hint : PendingRequest -> option nat).
Implicit Types (s : SchedulerState (C := C)).

(** An item comes from the decode queue exactly when the prefill queue lacks its request. *)
Lemma collect_origin s items_p dups_p seen items_d dups_d seen' it :
  collect false 0 ∅ (pending_prefill s) = (items_p, dups_p, seen) ->
  (if use_decode_workers s then ([], [], seen) else collect true 0 seen (pending_decode s)) = (items_d, dups_d, seen') ->
  it ∈ items_p ++ items_d -> from_decode it = bool_decide (q_addr it ∉ pending_prefill s).
Proof.
  intros Ep Ed Hit. destruct (collect_both s _ _ _ _ _ _ Ep Ed) as (_ & (_ & Fp) & (_ & Fd)). rewrite Forall_forall in Fp, Fd.
  destruct (collect_seen _ _ _ _ _ _ _ Ep) as (-> & _ & Ip). apply elem_of_app in Hit as [Hit|Hit].
  - rewrite (Fp it Hit), bool_decide_eq_false_2; [done|]. intros Hn. apply Hn. apply (list_elem_of_fmap_2 q_addr) in Hit. by apply Ip in Hit as [? _].
  - rewrite (Fd it Hit), bool_decide_eq_true_2; [done|]. destruct (use_decode_workers s); [simplify_eq; set_solver|].
    destruct (collect_seen _ _ _ _ _ _ _ Ed) as (_ & _ & Id). apply (list_elem_of_fmap_2 q_addr) in Hit. apply Id in Hit. set_solver.
Qed.

(** The tokens a queued request is charged on admission. *)
Definition admission_cost s (a : Z) : nat :=
  let p := requests s !!! a in
  EstimateQueueTokenCost (inference p) (bool_decide (a ∉ pending_prefill s)) (fairness_config s) (phased_logprobs_disabled s) (legacy_logprobs p).

Lemma round_cost s now it : it ∈ chosen (round_build backend_hint s now) -> item_cost s (requests s) it = admission_cost s (q_addr it).
Proof.
  intros Hit. destruct (collect false 0 ∅ (pending_prefill s)) as [[items_p dups_p] seen] eqn:Ep.
  destruct (if use_decode_workers s then ([], [], seen) else collect true 0 seen (pending_decode s)) as [[items_d dups_d] seen'] eqn:Ed.
  destruct (round_chosen_id backend_hint s now _ _ _ _ _ _ it Ep Ed Hit) as (it' & Hit' & E).
  pose proof (collect_origin s _ _ _ _ _ _ it' Ep Ed Hit') as Ho. unfold item_id, item_key in E.
  injection E as Efd _ Ea. unfold item_cost, admission_cost. by rewrite Ea, Efd, Ho.
Qed.

Lemma round_costs s now :
  item_cost s (requests s) <$> chosen (round_build backend_hint s now) =
  admission_cost s <$> (q_addr <$> chosen (round_build backend_hint s now)).
Proof.
  rewrite <- list_fmap_compose. apply list_fmap_ext. intros i it Hi. apply (round_cost s now).
  by eapply list_elem_of_lookup_2.
Qed.

Lemma round_items_addrs s : q_addr <$> round_items backend_hint s ≡ₚ remove_dups (pending_prefill s ++ owned s).
Proof.
  destruct (collect false 0 ∅ (pending_prefill s)) as [[items_p dups_p] seen] eqn:Ep.
  destruct (if use_decode_workers s then ([], [], seen) else collect true 0 seen (pending_decode s)) as [[items_d dups_d] seen'] eqn:Ed.
  assert (Ha : forall L : list QueueItem, q_addr <$> L = snd <$> (item_id <$> L)) by (intros L; by rewrite <- list_fmap_compose).
  rewrite Ha, (round_items_id backend_hint s _ _ _ _ _ _ Ep Ed), <- Ha.
  by destruct (collect_both s _ _ _ _ _ _ Ep Ed) as (-> & _).
Qed.

Lemma round_items_nodup s now : NoDup (q_addr <$> stable_sort (before (batch_policy s) (requests s) now) (round_items backend_hint s)).
Proof. rewrite stable_sort_perm, round_items_addrs. apply NoDup_remove_dups. Qed.

Lemma build_selection s now :
  (BuildBatchLocked backend_hint s now).2 =
  mkSelection (q_addr <$> chosen (round_build backend_hint s now)) (token_budget (round_build backend_hint s now)).
Proof.
  destruct (collect false 0 ∅ (pending_prefill s)) as [[items_p dups_p] seen] eqn:Ep.
  destruct (if use_decode_workers s then ([], [], seen) else collect true 0 seen (pending_decode s)) as [[items_d dups_d] seen'] eqn:Ed.
  by destruct (build_eq backend_hint s now _ _ _ _ _ _ Ep Ed) as [pc ->].
Qed.
End BatchTheorems.

Lemma normalize_ratio r : is_nan r = false ->
  dleb (d_of_Z 0) (dclamp r (d_of_Z 0) (d_of_Z 1)) = true /\ dleb (dclamp r (d_of_Z 0) (d_of_Z 1)) (d_of_Z 1) = true.
Proof.
  intros Hr. unfold dclamp. destruct (dltb r (d_of_Z 0)) eqn:E0; [done|]. destruct (dltb (d_of_Z 1) r) eqn:E1; [done|].
  split; by apply not_dltb_dleb.
Qed.

(** Whatever configuration is given, the normalized one is within range, and a
    configuration already within range is kept as it is. *)
Theorem normalized_config_valid (raw : Config) :
  config_ok (NormalizeSchedulerConfig raw) /\ (config_ok raw -> NormalizeSchedulerConfig raw = raw).
Proof.
  split.
  - split.
    + unfold NormalizeSchedulerConfig. cbn. split_and!; repeat case_match; lia.
    + apply normalize_ratio. by destruct (mixed_prefill_budget_ratio raw).
  - intros [Hz [H0 H1]]. unfold NormalizeSchedulerConfig.
    assert (Hfin : is_finite (mixed_prefill_budget_ratio raw) = true).
    { by destruct (mixed_prefill_budget_ratio raw) as [|[]| |[]]. }
    rewrite Hfin. unfold dclamp. rewrite (dleb_not_dltb _ _ H0), (dleb_not_dltb _ _ H1).
    destruct raw. cbn in *. f_equal; repeat case_match; lia.
Qed.

(** A batch respects the limits of a normalized configuration: it has at most
    [max_batch_size] requests, its token count is what its requests are charged, and
    that is within [max_batch_tokens] unless the batch is a single request. *)
Theorem batch_within_limits {C : Type} `{PrefixProbe C} (backend_hint : PendingRequest -> option nat)
    (s : SchedulerState (C := C)) (now : Z) (raw : Config) :
  max_batch_size s = c_max_batch_size (NormalizeSchedulerConfig raw) ->
  max_batch_tokens s = c_max_batch_tokens (NormalizeSchedulerConfig raw) ->
  let sel := (BuildBatchLocked backend_hint s now).2 in
  (Z.of_nat (length (pending sel)) <= max_batch_size s)%Z /\
  total_tokens sel = sum_list (admission_cost s <$> pending sel) /\
  ((Z.of_nat (total_tokens sel) <= max_batch_tokens s)%Z \/ length (pending sel) = 1).
Proof.
  intros HN HT.
  assert (Hn : (1 <= max_batch_size s <= 64)%Z) by (rewrite HN; unfold NormalizeSchedulerConfig; cbn; repeat case_match; lia).
  assert (Ht : (1 <= max_batch_tokens s <= 131072)%Z) by (rewrite HT; unfold NormalizeSchedulerConfig; cbn; repeat case_match; lia).
  cbn zeta. rewrite build_selection. cbn [pending total_tokens]. rewrite length_fmap.
  rewrite <- round_costs.
  apply select_loop_ok; [lia|lia|]. split; cbn; [done|apply round_items_nodup|done|lia|lia].
Qed.

Lemma select_first {C : Type} (s : SchedulerState (C := C)) st c it items :
  is_swapped (inference (st !!! q_addr it)) = false ->
  exists rest, chosen (select_loop s (mkBuild st c [] 0) (it :: items)) = it :: rest.
Proof.
  intros Hsw. cbn [select_loop]. set (b' := select_one s (mkBuild st c [] 0) it).
  assert (Hb : chosen b' = [it]) by (unfold b', select_one; cbn; by rewrite Hsw).
  case_match; [exists []; by rewrite Hb|].
  destruct (select_loop_chosen s b' items) as (ch & -> & _). rewrite Hb. by exists ch.
Qed.

(** Requests are taken in the order of the batch policy.  When no score is NaN,
    the batch lists its requests so that none comes after one it should precede
    (higher score first, then arrival); and when no queued request is swapped out,
    a batch of non-empty queues starts with a request no queued one should precede. *)
Theorem batch_follows_policy_order {C : Type} `{PrefixProbe C} (backend_hint : PendingRequest -> option nat)
    (s : SchedulerState (C := C)) (now : Z) :
  Forall (comparable (batch_policy s) (requests s) now) (round_items backend_hint s) ->
  exists its,
    pending (BuildBatchLocked backend_hint s now).2 = q_addr <$> its /\
    (forall it, it ∈ its -> it ∈ round_items backend_hint s) /\
    StronglySorted (fun a b => before (batch_policy s) (requests s) now b a = false) its /\
    (pending_prefill s ++ owned s <> [] ->
     (forall a, a ∈ pending_prefill s ++ owned s -> is_swapped (inference (requests s !!! a)) = false) ->
     exists first rest, its = first :: rest /\
       forall it, it ∈ round_items backend_hint s -> before (batch_policy s) (requests s) now it first = false).
Proof.
  intros Hcmp. rewrite build_selection. cbn [pending]. exists (chosen (round_build backend_hint s now)).
  set (lt := before (batch_policy s) (requests s) now) in *.
  assert (Hsorted : StronglySorted (fun a b => lt b a = false) (stable_sort lt (round_items backend_hint s))).
  { apply stable_sort_sorted with (P := comparable (batch_policy s) (requests s) now); [apply before_asym|apply before_cotrans|done]. }
  pose proof (round_chosen backend_hint s now) as Hsub. fold lt in Hsub.
  split_and!; [done| | |].
  - intros it Hit. rewrite <- (stable_sort_perm lt). by eapply elem_of_sublist.
  - by eapply sublist_sorted.
  - intros Hne Hsw. pose proof (round_items_addrs backend_hint s) as Haddr. rewrite <- (stable_sort_perm lt) in Haddr.
    unfold round_build. fold lt.
    destruct (stable_sort lt (round_items backend_hint s)) as [|first l] eqn:El.
    { apply Permutation_nil in Haddr. destruct (pending_prefill s ++ owned s) as [|a q]; [done|].
      assert (Ha : a ∈ remove_dups (a :: q)) by (apply elem_of_remove_dups; set_solver). rewrite Haddr in Ha. set_solver. }
    assert (Hf : q_addr first ∈ pending_prefill s ++ owned s).
    { apply elem_of_remove_dups. rewrite <- Haddr. rewrite fmap_cons. set_solver. }
    destruct (select_first s (requests s) (cache s) first l (Hsw _ Hf)) as [rest Hrest]. exists first, rest. split; [done|].
    intros it Hit. rewrite <- (stable_sort_perm lt), El in Hit. apply StronglySorted_inv in Hsorted as [_ Hfirst].
    apply elem_of_cons in Hit as [->|Hit]; [|by rewrite Forall_forall in Hfirst; apply Hfirst].
    apply not_true_iff_false. intros Ht. assert (Hc : comparable (batch_policy s) (requests s) now first).
    { rewrite Forall_forall in Hcmp. apply Hcmp. rewrite <- (stable_sort_perm lt), El. set_solver. }
    pose proof (before_asym _ _ _ _ _ Hc Hc Ht). unfold lt in *. congruence.
Qed.

(** ** A scheduler with four requests *)

Section Sample.
Local Instance no_probe : PrefixProbe unit := fun c _ _ => (c, 0%Z).

Definition sample_request (prio0 seq arrival tokens : Z) (ph : RequestPhase) : PendingRequest :=
  mkPending (mkReq prio0 8 (replicate (Z.to_nat tokens) 1%Z) [] false false false false ph false [] [] (mkFair 0 0 0 0))
    prio0 seq arrival None false.

(** Requests 1 to 3 wait for prefill (1 is queued twice), 4 for decode. *)
Definition sample : SchedulerState (C := unit) :=
  mkSched {[ 1%Z := sample_request 0 1 100 3 PhPending; 2%Z := sample_request 7 2 200 4 PhPending;
             3%Z := sample_request 1 3 300 50 PhPending; 4%Z := sample_request 0 4 400 2 PhDecode ]}
    [1%Z; 2%Z; 3%Z; 1%Z] [4%Z] None None (mkFairness 5 4 true) kPriorityAge 3 16 false false.

Definition sample_config : Config := mkConfig 3 16 0 512 (d_of_Z 1) 300000 1024.

(** The batch: by score, without the request that would break the token limit. *)
Example sample_batch : pending (BuildBatchLocked (fun _ => None) sample 1000).2 = [2%Z; 1%Z; 4%Z].
Proof. vm_compute. reflexivity. Qed.

Lemma batch_within_limits_witness :
  (Z.of_nat (length (pending (BuildBatchLocked (fun _ => None) sample 1000).2)) <= 3)%Z.
Proof. exact (proj1 (batch_within_limits (fun _ => None) sample 1000 sample_config eq_refl eq_refl)). Defined.

Lemma batch_follows_policy_order_witness :
  exists first rest, pending (BuildBatchLocked (fun _ => None) sample 1000).2 = q_addr first :: rest.
Proof.
  destruct (batch_follows_policy_order (fun _ => None) sample 1000) as (its & Hp & _ & _ & Hfirst).
  - unfold comparable. repeat (apply Forall_cons; split; [vm_compute; reflexivity|]). apply Forall_nil. exact I.
  - destruct Hfirst as (first & rest & -> & _).
    + vm_compute. discriminate.
    + intros a Ha. vm_compute in Ha.
      repeat (apply elem_of_cons in Ha as [->|Ha]; [vm_compute; reflexivity|]). apply elem_of_nil in Ha. destruct Ha.
    + exists first, (q_addr <$> rest). exact Hp.
Defined.

Lemma normalized_config_valid_witness : NormalizeSchedulerConfig sample_config = sample_config.
Proof. apply normalized_config_valid. vm_compute. split_and!; solve [discriminate|reflexivity]. Defined.

(** A decode request in a batch yields to queued request 2, of priority 7. *)
Lemma preemption_follows_priority_witness :
  (ApplyFairness sample [4%Z; 3%Z]).2 = [2%Z; 3%Z].
Proof.
  destruct (preemption_follows_priority sample [4%Z; 3%Z]) as [(_ & _ & _ & Hstay)|(i & lo & hi & Hlo & Hhi & E & _ & _ & Hmin & Hmax)].
  - discriminate.
  - reflexivity.
  - exfalso. apply (Hstay 4%Z 2%Z); [apply list_elem_of_here|apply list_elem_of_further, list_elem_of_here|vm_compute; discriminate|].
    vm_compute. reflexivity.
  - vm_compute. reflexivity.
Defined.

(** The batch entry of a preempting request keeps the level of the request it
    displaced, so the time slice of low-priority requests is applied to it. *)
Example preempting_request_is_sliced :
  let s' := (ApplyFairness sample [4%Z; 3%Z]).1 in
  (high_priority_threshold (fairness_config sample) <= prio (requests s') 2)%Z /\
  timeslice_tokens (fairness (inference (requests s' !!! 2%Z))) = 4%Z.
Proof. vm_compute. split; [discriminate|reflexivity]. Qed.
End Sample.
