(* ===== verification/Gguf.v ===== *)
(** * GGUF model files

    The two readers of the GGUF format: the CPU parser
    (runtime/core/gguf/cpu_gguf_parser.cpp) and the native one
    (runtime/backends/cuda/native/gguf_util.cpp), and the quantization detector
    (server/cpu_quantization_detector.cpp).

    A [FILE] is the list of bytes from its position on.  [fread] of a scalar
    copies the bytes of a little-endian host.  A reader returns [None] when its
    fuel runs out (which the theorems exclude), and otherwise the result of the
    C++ function ([None] for [false]) with the new position. *)

From stdpp Require Import base tactics numbers list strings gmap sorting.
From Stdlib Require Import Ascii.
From S2P Require Import Prelude.

Create HintDb gguf.

(** ** Readers *)

Definition reader (A : Type) : Type := bytes -> option (option A * bytes).

Definition rret {A} (a : A) : reader A := fun s => Some (Some a, s).
Definition rfail {A} : reader A := fun s => Some (None, s).
Definition rbind {A B} (m : reader A) (k : A -> reader B) : reader B := fun s =>
  match m s with
  | None => None
  | Some (None, s') => Some (None, s')
  | Some (Some a, s') => k a s'
  end.

Declare Scope reader_scope.
Delimit Scope reader_scope with reader.
Notation "x <~ m ;; k" := (rbind m (fun x => k)) (at level 80, m at next level, right associativity) : reader_scope.
Open Scope reader_scope.

(** The value of bytes, least significant first. *)
Fixpoint le_val (bs : bytes) : Z :=
  match bs with [] => 0%Z | c :: bs' => (byte_val c + 256 * le_val bs')%Z end.

(** [fread] of one item of [w] bytes. *)
Definition fread (w : nat) : reader bytes := fun s =>
  if w <=? length s then Some (Some (take w s), drop w s) else Some (None, []).

Definition ReadScalar (w : nat) : reader Z := b <~ fread w ;; rret (le_val b).

(** Reading a signed 64-bit scalar. *)
Definition i64 (z : Z) : Z := ((z + 2 ^ 63) mod 2 ^ 64 - 2 ^ 63)%Z.

(** [SkipBytes]: chunks of at most 4096 bytes. *)
Fixpoint skip_loop (fuel : nat) (remaining : Z) : reader unit := fun s =>
  if (remaining <=? 0)%Z then Some (Some tt, s)
  else match fuel with
       | O => None
       | S f => let chunk := Z.min remaining 4096 in
                rbind (fread (Z.to_nat chunk)) (fun _ => skip_loop f (remaining - chunk)) s
       end.

Definition SkipBytes (count : Z) : reader unit := fun s =>
  if (count =? 0)%Z then Some (Some tt, s) else skip_loop (S (length s)) count s.

(** A counting loop over a reader: [for (i = 0; i < n; ++i)] with early exit. *)
Fixpoint read_many {A} (m : reader A) (fuel : nat) (n : Z) : reader (list A) := fun s =>
  if (n <=? 0)%Z then Some (Some [], s)
  else match fuel with
       | O => None
       | S f => rbind m (fun a => rbind (read_many m f (n - 1)) (fun l => rret (a :: l))) s
       end.

(** The loop with fuel for every byte left. *)
Definition repeat_read {A} (m : reader A) (n : Z) : reader (list A) := fun s => read_many m (S (length s)) n s.

(** ** Value types *)

Inductive GgufValueType :=
  | UINT8 | INT8 | UINT16 | INT16 | UINT32 | INT32 | FLOAT32 | BOOL | STRING | ARRAY
  | UINT64 | INT64 | FLOAT64 | COUNT | OtherValue (raw : Z).

(** [static_cast<GgufValueType>] of the 32-bit tag. *)
Definition value_type (raw : Z) : GgufValueType :=
  match raw with
  | 0 => UINT8 | 1 => INT8 | 2 => UINT16 | 3 => INT16 | 4 => UINT32 | 5 => INT32 | 6 => FLOAT32 | 7 => BOOL
  | 8 => STRING | 9 => ARRAY | 10 => UINT64 | 11 => INT64 | 12 => FLOAT64 | 13 => COUNT
  | _ => OtherValue raw
  end%Z.

(** The bytes of a value of fixed size. *)
Definition fixed_size (ty : GgufValueType) : option Z :=
  match ty with
  | UINT8 | INT8 | BOOL => Some 1
  | UINT16 | INT16 => Some 2
  | UINT32 | INT32 | FLOAT32 => Some 4
  | UINT64 | INT64 | FLOAT64 => Some 8
  | _ => None
  end%Z.

(** [SkipValue]; [bound] is the largest array length accepted. *)
Fixpoint skip_value (bound : option Z) (fuel : nat) (ty : GgufValueType) : reader unit :=
  match fuel with
  | O => fun _ => None
  | S f =>
      match fixed_size ty, ty with
      | Some n, _ => SkipBytes n
      | None, STRING => len <~ ReadScalar 8 ;; SkipBytes len
      | None, ARRAY =>
          elem_type <~ ReadScalar 4 ;;
          count <~ ReadScalar 8 ;;
          if match bound with Some b => (b <? count)%Z | None => false end then rfail
          else _ <~ read_many (skip_value bound f (value_type elem_type)) f count ;; rret tt
      | None, _ => rfail
      end
  end.

(** The CPU parser refuses arrays of more than 2^32 elements. *)
Definition SkipValue (ty : GgufValueType) : reader unit := fun s => skip_value (Some (2 ^ 32)%Z) (S (length s)) ty s.

Definition native_SkipValue (ty : GgufValueType) : reader unit := fun s => skip_value None (S (length s)) ty s.

(** ** Tensor types *)

Inductive GgufTensorType :=
  | F32 | F16 | Q4_0 | Q4_1 | Q5_0 | Q5_1 | Q8_0 | Q8_1 | Q2_K | Q3_K | Q4_K | Q5_K | Q6_K | Q8_K | OtherTensor (raw : Z).

#[export] Instance GgufTensorType_eq_dec : EqDecision GgufTensorType.
Proof. solve_decision. Defined.

Definition tensor_type (raw : Z) : GgufTensorType :=
  match raw with
  | 0 => F32 | 1 => F16 | 2 => Q4_0 | 3 => Q4_1 | 6 => Q5_0 | 7 => Q5_1 | 8 => Q8_0 | 9 => Q8_1
  | 10 => Q2_K | 11 => Q3_K | 12 => Q4_K | 13 => Q5_K | 14 => Q6_K | 15 => Q8_K | _ => OtherTensor raw
  end%Z.

Definition tensor_raw (ty : GgufTensorType) : Z :=
  match ty with
  | F32 => 0 | F16 => 1 | Q4_0 => 2 | Q4_1 => 3 | Q5_0 => 6 | Q5_1 => 7 | Q8_0 => 8 | Q8_1 => 9
  | Q2_K => 10 | Q3_K => 11 | Q4_K => 12 | Q5_K => 13 | Q6_K => 14 | Q8_K => 15 | OtherTensor raw => raw
  end%Z.

Definition block_size (ty : GgufTensorType) : Z :=
  match ty with
  | Q4_0 | Q4_1 | Q5_0 | Q5_1 | Q8_0 | Q8_1 => 32
  | Q2_K | Q3_K | Q4_K | Q5_K | Q6_K | Q8_K => 256
  | _ => 1
  end%Z.

Definition is_quantized (ty : GgufTensorType) : bool := match ty with F32 | F16 => false | _ => true end.

Definition type_string (ty : GgufTensorType) : string :=
  match ty with
  | F32 => "f32" | F16 => "f16" | Q4_0 => "q4_0" | Q4_1 => "q4_1" | Q5_0 => "q5_0" | Q5_1 => "q5_1"
  | Q8_0 => "q8_0" | Q8_1 => "q8_1" | Q2_K => "q2_k" | Q3_K => "q3_k" | Q4_K => "q4_k" | Q5_K => "q5_k"
  | Q6_K => "q6_k" | Q8_K => "q8_k" | OtherTensor _ => "unknown"
  end.

(** The number of elements, modulo 2^64. *)
Definition elements (shape : list Z) : Z := foldl (fun n dim => u64 (n * dim)) 1%Z shape.

Definition CalcQuantizedSize (ty : GgufTensorType) (shape : list Z) : Z :=
  let per_block := match ty with
    | Q4_0 => Some (32, 18) | Q4_1 => Some (32, 24) | Q5_0 => Some (32, 22) | Q5_1 => Some (32, 28) | Q8_0 => Some (32, 34)
    | Q2_K => Some (256, 82) | Q3_K => Some (256, 98) | Q4_K => Some (256, 144) | Q5_K => Some (256, 180)
    | Q6_K => Some (256, 216) | Q8_K => Some (256, 300)
    | _ => None
    end%Z in
  match per_block with
  | None => 0%Z
  | Some (block, bytes_per_block) => u64 (u64 (elements shape + block - 1) / block * bytes_per_block)
  end.

Record GgufHeader := mkHeader { magic : Z; version : Z; tensor_count : Z; kv_count : Z }.

Record GgufTensorInfo := mkTensor {
  t_name : bytes; t_shape : list Z; t_type : GgufTensorType; t_offset : Z; t_byte_size : Z }.

(** ** The CPU parser *)

Definition GGUF_MAGIC : Z := 1179993927.

Definition ValidateHeader (h : GgufHeader) : bool :=
  (magic h =? GGUF_MAGIC)%Z && negb ((tensor_count h <? 0) || (kv_count h <? 0))%Z.

Definition read_header : reader GgufHeader :=
  m <~ ReadScalar 4 ;; v <~ ReadScalar 4 ;; t <~ ReadScalar 8 ;; k <~ ReadScalar 8 ;;
  rret (mkHeader m v (i64 t) (i64 k)).

(** [ParseHeader]: [None] for a file that cannot be opened. *)
Definition ParseHeader (file : option bytes) : option GgufHeader :=
  match file with
  | None => None
  | Some s => match read_header s with
              | Some (Some h, _) => if ValidateHeader h then Some h else None
              | _ => None
              end
  end.

(** A string of at most 1024 bytes: the names of tensors and keys. *)
Definition read_name : reader bytes :=
  len <~ ReadScalar 8 ;; if (1024 <? len)%Z then rfail else fread (Z.to_nat len).

Definition ReadTensorInfo : reader GgufTensorInfo :=
  name <~ read_name ;;
  n_dims <~ ReadScalar 4 ;;
  shape <~ repeat_read (ReadScalar 8) n_dims ;;
  type_raw <~ ReadScalar 4 ;;
  offset <~ ReadScalar 8 ;;
  let ty := tensor_type type_raw in
  let byte_size := match ty with
    | F32 => u64 (elements shape * 4)
    | F16 => u64 (elements shape * 2)
    | _ => CalcQuantizedSize ty shape
    end in
  rret (mkTensor name shape ty offset byte_size).

Definition ReadKeyValue : reader (bytes * GgufValueType) :=
  key <~ read_name ;; type_raw <~ ReadScalar 4 ;; rret (key, value_type type_raw).

(** ** The quantization detector *)

Inductive QuantizationType :=
  | kUnknown | kFp32 | kFp16 | kBf16 | kQ8_1 | kQ8_0 | kQ8_K | kQ6_K | kQ5_1 | kQ5_0 | kQ5_K_M | kQ5_K
  | kQ4_1 | kQ4_0 | kQ4_K_M | kQ4_K | kQ3_K | kQ3_K_M | kQ2_K.

Definition GgufTensorTypeToQuantizationType (ty : GgufTensorType) : QuantizationType :=
  match ty with
  | Q4_0 => kQ4_0 | Q4_1 => kQ4_1 | Q5_0 => kQ5_0 | Q5_1 => kQ5_1 | Q8_0 => kQ8_0 | Q2_K => kQ2_K | Q3_K => kQ3_K
  | Q4_K => kQ4_K_M | Q5_K => kQ5_K_M | Q6_K => kQ6_K | Q8_K => kQ8_K | F32 => kFp32 | F16 => kFp16
  | _ => kUnknown
  end.

(** [type_counts]: a [std::map], that is, association pairs in the order of the tags. *)
Fixpoint count_type (ty : GgufTensorType) (m : list (GgufTensorType * nat)) : list (GgufTensorType * nat) :=
  match m with
  | [] => [(ty, 1)]
  | (k, n) :: m' => if (tensor_raw ty =? tensor_raw k)%Z then (k, S n) :: m'
                    else if (tensor_raw ty <? tensor_raw k)%Z then (ty, 1) :: m
                    else (k, n) :: count_type ty m'
  end.

(** The loop that picks the most frequent quantized type. *)
Definition pick_one (best : GgufTensorType * nat) (kv : GgufTensorType * nat) : GgufTensorType * nat :=
  if is_quantized kv.1 then if best.2 <? kv.2 then kv else best else best.

Definition DetectFromGgufMetadata (file : option bytes) : option QuantizationType :=
  match ParseHeader file, file with
  | Some header, Some s =>
      if negb (ValidateHeader header) then Some kUnknown
      else
        let body := drop 24 s in
        match repeat_read (kv <~ ReadKeyValue ;; SkipValue kv.2) (kv_count header) body with
        | None => None
        | Some (None, _) => Some kUnknown
        | Some (Some _, s1) =>
            match repeat_read ReadTensorInfo (tensor_count header) s1 with
            | None => None
            | Some (None, _) => Some kUnknown
            | Some (Some infos, _) =>
                let counts := foldl (fun m info => count_type (t_type info) m) [] infos in
                if bool_decide (length infos = 0) then Some kUnknown
                else let best := foldl pick_one (F32, 0) counts in
                     if bool_decide (best.2 = 0) then Some kFp32
                     else Some (GgufTensorTypeToQuantizationType best.1)
            end
        end
  | _, _ => Some kUnknown
  end.

(** ** Readers never get stuck *)

(** At [s] the reader ends, does not move backwards, and moves on when it succeeds. *)
Definition advances {A} (m : reader A) (s : bytes) : Prop :=
  exists r s', m s = Some (r, s') /\ length s' <= length s /\ (is_Some r -> length s' < length s).

(** At [s] the reader ends and does not move backwards. *)
Definition ends {A} (m : reader A) (s : bytes) : Prop :=
  exists r s', m s = Some (r, s') /\ length s' <= length s.

Lemma advances_ends {A} (m : reader A) s : advances m s -> ends m s.
Proof. intros (r & s' & ? & ? & _). by exists r, s'. Qed.

Lemma ends_bind {A B} (m : reader A) (k : A -> reader B) s :
  ends m s -> (forall a s', length s' <= length s -> ends (k a) s') -> ends (rbind m k) s.
Proof.
  intros (r & s' & Em & Hle) Hk. unfold ends, rbind. rewrite Em. destruct r as [a|]; [|by eexists _, _].
  destruct (Hk a s' Hle) as (r' & s'' & E & Hle'). exists r', s''. split; [done|lia].
Qed.

Lemma advances_bind {A B} (m : reader A) (k : A -> reader B) s :
  advances m s -> (forall a s', length s' < length s -> ends (k a) s') -> advances (rbind m k) s.
Proof.
  intros (r & s' & Em & Hle & Hlt) Hk. unfold advances, rbind. rewrite Em. destruct r as [a|].
  - specialize (Hlt ltac:(eauto)). destruct (Hk a s' Hlt) as (r' & s'' & E & Hle'). exists r', s''. split_and!; [done|lia|lia].
  - eexists _, _. split_and!; [done|done|]. by intros [? [=]].
Qed.

Lemma fread_ends w s : ends (fread w) s.
Proof. unfold ends, fread. destruct (w <=? length s); eexists _, _; (split; [done|]); [rewrite length_drop; lia|cbn; lia]. Qed.

Lemma fread_advances w s : 0 < w -> advances (fread w) s.
Proof.
  intros Hw. unfold advances, fread. destruct (Nat.leb_spec w (length s)).
  - eexists _, _. split; [done|]. rewrite length_drop. lia.
  - eexists _, _. split_and!; [done|cbn; lia|by intros [? [=]]].
Qed.

Lemma ReadScalar_advances w s : 0 < w -> advances (ReadScalar w) s.
Proof. intros Hw. apply advances_bind; [by apply fread_advances|]. intros a s' _. by exists (Some (le_val a)), s'. Qed.

Lemma skip_loop_spec fuel n s :
  length s < fuel -> skip_loop fuel n s =
  if (n <=? Z.of_nat (length s))%Z then Some (Some tt, drop (Z.to_nat n) s) else Some (None, []).
Proof.
  revert n s. induction fuel as [|f IH]; intros n s Hf; [lia|]. cbn [skip_loop].
  destruct (Z.leb_spec n 0).
  { rewrite (proj2 (Z.leb_le _ _)) by lia. replace (Z.to_nat n) with 0 by lia. done. }
  unfold rbind, fread. destruct (Nat.leb_spec (Z.to_nat (Z.min n 4096)) (length s)) as [Hc|Hc].
  - rewrite IH by (rewrite length_drop; lia). rewrite length_drop, drop_drop.
    destruct (Z.leb_spec n (Z.of_nat (length s))), (Z.leb_spec (n - Z.min n 4096) (Z.of_nat (length s - Z.to_nat (Z.min n 4096)))); try lia; [|done].
    do 3 f_equal. lia.
  - by rewrite (proj2 (Z.leb_gt _ _)) by lia.
Qed.

(** Skipping in chunks is skipping at once. *)
Lemma SkipBytes_spec n s : (0 <= n)%Z ->
  SkipBytes n s = if (n <=? Z.of_nat (length s))%Z then Some (Some tt, drop (Z.to_nat n) s) else Some (None, []).
Proof.
  intros Hn. unfold SkipBytes. destruct (Z.eqb_spec n 0) as [->|]; [|apply skip_loop_spec; lia].
  by rewrite (proj2 (Z.leb_le _ _)) by lia.
Qed.

Lemma SkipBytes_ends n s : (0 <= n)%Z -> ends (SkipBytes n) s.
Proof.
  intros Hn. unfold ends. rewrite SkipBytes_spec by done. destruct (n <=? _)%Z; eexists _, _; (split; [done|]);
    [rewrite length_drop|cbn]; lia.
Qed.

Lemma byte_val_bounds c : (0 <= byte_val c < 256)%Z.
Proof. unfold byte_val. pose proof (N_ascii_bounded c). lia. Qed.

Lemma le_val_bounds bs : (0 <= le_val bs < 256 ^ Z.of_nat (length bs))%Z.
Proof.
  induction bs as [|c bs IH]; [cbn; lia|]. cbn [le_val length]. pose proof (byte_val_bounds c).
  rewrite Nat2Z.inj_succ, Z.pow_succ_r by lia. lia.
Qed.

Lemma read_many_ends {A} (m : reader A) fuel n s :
  length s < fuel -> (forall t, length t <= length s -> advances m t) -> ends (read_many m fuel n) s.
Proof.
  revert n s. induction fuel as [|f IH]; intros n s Hf Hm; [lia|]. unfold ends. cbn [read_many].
  destruct (n <=? 0)%Z; [by eexists _, _|].
  destruct (Hm s ltac:(lia)) as (r & s' & Em & Hle & Hlt). unfold rbind at 1. rewrite Em. destruct r as [a|]; [|by eexists _, _].
  specialize (Hlt ltac:(eauto)).
  destruct (IH (n - 1)%Z s' ltac:(lia)) as (r' & s'' & E & Hle'); [intros t Ht; apply Hm; lia|].
  unfold rbind. rewrite E. destruct r' as [l|]; eexists _, _; (split; [done|lia]).
Qed.

Lemma skip_value_advances bound fuel ty s : length s < fuel -> advances (skip_value bound fuel ty) s.
Proof.
  revert ty s. induction fuel as [|f IH]; intros ty s Hf; [lia|]. cbn [skip_value].
  assert (Hfail : advances (@rfail unit) s) by (exists None, s; split_and!; [done|done|by intros [? [=]]]).
  assert (Hfix : forall n, (0 < n)%Z -> advances (SkipBytes n) s).
  { intros n Hn. unfold advances. rewrite SkipBytes_spec by lia.
    destruct (Z.leb_spec n (Z.of_nat (length s))); eexists _, _; (split; [done|]); [rewrite length_drop; lia|].
    split; [cbn; lia|by intros [? [=]]]. }
  destruct ty; cbn [fixed_size]; try (apply Hfix; lia); try done.
  - apply advances_bind; [apply ReadScalar_advances; lia|]. intros n s' _.
    destruct (decide (0 <= n)%Z); [by apply SkipBytes_ends|]. unfold SkipBytes, ends.
    destruct (n =? 0)%Z; [by eexists _, _|]. cbn [skip_loop]. rewrite (proj2 (Z.leb_le _ _)) by lia. by eexists _, _.
  - apply advances_bind; [apply ReadScalar_advances; lia|]. intros et s' Hs'.
    apply ends_bind; [apply advances_ends, ReadScalar_advances; lia|]. intros n s'' Hs''.
    destruct (match bound with Some b => (b <? n)%Z | None => false end); [by exists None, s''|].
    apply ends_bind; [apply read_many_ends; [lia|]; intros t Ht; apply IH; lia|]. intros l t _. by exists (Some tt), t.
Qed.

(** ** The format of values

    [encodes bound ty bs]: the bytes [bs] are a value of type [ty] as the GGUF
    format lays it out, arrays having at most [bound] elements. *)

Definition scalar_bits (ty : GgufValueType) : option Z :=
  match ty with
  | BOOL | UINT8 | INT8 => Some 8
  | UINT16 | INT16 => Some 16
  | UINT32 | INT32 | FLOAT32 => Some 32
  | UINT64 | INT64 | FLOAT64 => Some 64
  | _ => None
  end%Z.

Inductive encodes (bound : option Z) : GgufValueType -> bytes -> Prop :=
  | enc_fixed ty n bs : scalar_bits ty = Some n -> (8 * Z.of_nat (length bs) = n)%Z -> encodes bound ty bs
  | enc_string lb bs : length lb = 8 -> le_val lb = Z.of_nat (length bs) -> encodes bound STRING (lb ++ bs)
  | enc_array tb lb bs :
      length tb = 4 -> length lb = 8 -> match bound with Some b => (le_val lb <= b)%Z | None => True end ->
      encodes_all bound (value_type (le_val tb)) (le_val lb) bs -> encodes bound ARRAY (tb ++ lb ++ bs)
with encodes_all (bound : option Z) : GgufValueType -> Z -> bytes -> Prop :=
  | enc_nil ty : encodes_all bound ty 0 []
  | enc_cons ty n bs bs' :
      encodes bound ty bs -> (0 <= n)%Z -> encodes_all bound ty n bs' -> encodes_all bound ty (n + 1) (bs ++ bs').

Lemma fixed_size_bits ty n : fixed_size ty = Some n <-> scalar_bits ty = Some (8 * n)%Z.
Proof. destruct ty; cbn; split; intros [= H]; f_equal; lia. Qed.

Lemma enc_scalar bound ty n bs : fixed_size ty = Some n -> Z.of_nat (length bs) = n -> encodes bound ty bs.
Proof. intros Hf%fixed_size_bits <-. by eapply enc_fixed. Qed.

Scheme encodes_mut := Minimality for encodes Sort Prop
with encodes_all_mut := Minimality for encodes_all Sort Prop.

Lemma fread_Some w s b rest : fread w s = Some (Some b, rest) <-> s = b ++ rest /\ length b = w.
Proof.
  unfold fread. destruct (Nat.leb_spec w (length s)) as [Hw|Hw]; split.
  - intros [= <- <-]. rewrite take_drop, length_take. split; [done|lia].
  - intros [-> <-]. rewrite take_app_length, drop_app_length. done.
  - done.
  - intros [-> <-]. rewrite length_app in Hw. lia.
Qed.

Lemma ReadScalar_Some w s z rest :
  ReadScalar w s = Some (Some z, rest) <-> exists b, s = b ++ rest /\ length b = w /\ le_val b = z.
Proof.
  unfold ReadScalar, rbind. destruct (fread w s) as [[[b|] s']|] eqn:E; unfold rret; split.
  - apply fread_Some in E as [-> <-]. intros [= <- <-]. eauto.
  - intros (b' & -> & Hb & <-). assert (E' : fread w (b' ++ rest) = Some (Some b', rest)) by (by apply fread_Some).
    rewrite E' in E. by simplify_eq.
  - done.
  - intros (b' & -> & Hb & <-). assert (E' : fread w (b' ++ rest) = Some (Some b', rest)) by (by apply fread_Some).
    rewrite E' in E. done.
  - done.
  - intros (b' & -> & Hb & <-). assert (E' : fread w (b' ++ rest) = Some (Some b', rest)) by (by apply fread_Some).
    rewrite E' in E. done.
Qed.

Lemma SkipBytes_Some n s rest : (0 <= n)%Z ->
  SkipBytes n s = Some (Some tt, rest) <-> exists b, s = b ++ rest /\ Z.of_nat (length b) = n.
Proof.
  intros Hn. rewrite SkipBytes_spec by done. destruct (Z.leb_spec n (Z.of_nat (length s))) as [Hle|Hlt]; split.
  - intros [= <-]. exists (take (Z.to_nat n) s). rewrite take_drop, length_take. split; [done|lia].
  - intros (b & -> & <-). rewrite Nat2Z.id, drop_app_length. done.
  - done.
  - intros (b & -> & <-). rewrite length_app in Hlt. lia.
Qed.

Lemma rbind_Some {A B} (m : reader A) (k : A -> reader B) s b rest :
  rbind m k s = Some (Some b, rest) <-> exists a s', m s = Some (Some a, s') /\ k a s' = Some (Some b, rest).
Proof.
  unfold rbind. destruct (m s) as [[[a|] s']|]; split; try done; try (by intros (? & ? & [=] & _)).
  - eauto.
  - by intros (? & ? & [= <- <-] & ?).
Qed.

Lemma encodes_length bound ty bs : encodes bound ty bs -> 0 < length bs.
Proof.
  destruct 1 as [ty n bs Hf Hl|lb bs Hl _|tb lb bs Ht _ _ _]; rewrite ?length_app; [|lia|lia].
  destruct ty; cbn in Hf; simplify_eq; lia.
Qed.

Lemma read_many_sound {A} bound ty (m : reader A) fuel n s l rest :
  (forall t a t', m t = Some (Some a, t') -> exists b, t = b ++ t' /\ encodes bound ty b) -> (0 <= n)%Z ->
  read_many m fuel n s = Some (Some l, rest) -> exists bs, s = bs ++ rest /\ encodes_all bound ty n bs.
Proof.
  intros Hm. revert n s l. induction fuel as [|f IH]; intros n s l Hn; cbn [read_many]; destruct (Z.leb_spec n 0).
  1,3: intros [= <- <-]; exists []; replace n with 0%Z by lia; split; [done|constructor].
  - done.
  - intros (a & s' & Hstep & (l' & s'' & Hmany & [= <- <-])%rbind_Some)%rbind_Some.
    destruct (Hm _ _ _ Hstep) as (b & -> & Hb). destruct (IH (n - 1)%Z _ _ ltac:(lia) Hmany) as (bs & -> & Hbs).
    exists (b ++ bs). rewrite <- app_assoc. split; [done|]. replace n with (n - 1 + 1)%Z by lia. constructor; [done|lia|done].
Qed.

Lemma skip_value_sound bound fuel ty s rest :
  skip_value bound fuel ty s = Some (Some tt, rest) -> exists bs, s = bs ++ rest /\ encodes bound ty bs.
Proof.
  revert ty s rest. induction fuel as [|f IH]; intros ty s rest; [done|]. cbn [skip_value].
  assert (Hfix : forall n, fixed_size ty = Some n -> (0 <= n)%Z -> SkipBytes n s = Some (Some tt, rest) ->
            exists bs, s = bs ++ rest /\ encodes bound ty bs).
  { intros n Hfs Hn. rewrite SkipBytes_Some by done. intros (b & -> & Hb). exists b. split; [done|by eapply enc_scalar]. }
  destruct ty; cbn [fixed_size]; try (by apply Hfix); try done.
  - rewrite rbind_Some. intros (n & s' & (lb & -> & Hl & <-)%ReadScalar_Some & Hs).
    pose proof (le_val_bounds lb). rewrite SkipBytes_Some in Hs by lia. destruct Hs as (b & -> & Hb).
    exists (lb ++ b). rewrite <- app_assoc. split; [done|by constructor].
  - rewrite rbind_Some. intros (et & s' & (tb & -> & Ht & <-)%ReadScalar_Some & Hs).
    rewrite rbind_Some in Hs. destruct Hs as (n & s'' & (lb & -> & Hl & <-)%ReadScalar_Some & Hs).
    destruct (match bound with Some b => (b <? le_val lb)%Z | None => false end) eqn:Hb; [done|].
    rewrite rbind_Some in Hs. destruct Hs as (l & t & Hmany & [= <-]). pose proof (le_val_bounds lb).
    apply (read_many_sound bound (value_type (le_val tb))) in Hmany as (bs & -> & Hbs); [|intros ? [] ?; by apply IH|lia].
    exists (tb ++ lb ++ bs). rewrite <- !app_assoc. split; [done|]. constructor; [done|done| |done].
    destruct bound; [|done]. by apply Z.ltb_ge.
Qed.

Lemma skip_value_complete bound ty bs :
  encodes bound ty bs -> forall fuel rest, length (bs ++ rest) < fuel -> skip_value bound fuel ty (bs ++ rest) = Some (Some tt, rest).
Proof.
  intros H. pattern ty, bs. revert ty bs H. apply (encodes_mut bound _ (fun ty n bs =>
    (0 <= n)%Z /\ forall f f' rest, length (bs ++ rest) < f -> length (bs ++ rest) < f' ->
      exists l, read_many (skip_value bound f ty) f' n (bs ++ rest) = Some (Some l, rest))).
  - intros ty n bs Hf <- fuel rest Hlt. destruct fuel as [|f]; [lia|]. apply fixed_size_bits in Hf. cbn [skip_value]. rewrite Hf.
    apply SkipBytes_Some; [lia|eauto].
  - intros lb bs Hl Hv fuel rest Hlt. destruct fuel as [|f]; [lia|]. cbn [skip_value fixed_size]. rewrite rbind_Some, <- app_assoc.
    exists (le_val lb), (bs ++ rest). split; [apply ReadScalar_Some; eauto|]. apply SkipBytes_Some; [lia|eauto].
  - intros tb lb bs Ht Hl Hb _ [Hn IH] fuel rest Hlt. destruct fuel as [|f]; [lia|]. rewrite !length_app in Hlt. cbn [skip_value fixed_size].
    rewrite rbind_Some, <- !app_assoc. exists (le_val tb), (lb ++ bs ++ rest). split; [apply ReadScalar_Some; eauto|].
    rewrite rbind_Some. exists (le_val lb), (bs ++ rest). split; [apply ReadScalar_Some; eauto|].
    replace (match bound with Some b => (b <? le_val lb)%Z | None => false end) with false
      by (symmetry; destruct bound; [by apply Z.ltb_ge|done]).
    rewrite rbind_Some. destruct (IH f f rest) as [l Hm]; [rewrite length_app; lia..|]. exists l, rest. done.
  - intros ty. split; [done|]. intros f f' rest _ _. exists []. by destruct f'.
  - intros ty n bs bs' Hbs IHbs Hn _ [_ IH]. split; [lia|]. intros f f' rest Hf Hf'. destruct f' as [|f']; [lia|].
    cbn [read_many]. rewrite (proj2 (Z.leb_gt _ _)) by lia. rewrite <- app_assoc in *.
    pose proof (encodes_length _ _ _ Hbs) as Hpos. rewrite length_app in Hf, Hf'.
    destruct (IH f f' rest) as [l Hl]; [lia|lia|]. exists (tt :: l). rewrite rbind_Some.
    exists tt, (bs' ++ rest). split; [apply IHbs; rewrite length_app; lia|]. rewrite rbind_Some. exists l, rest.
    replace (n + 1 - 1)%Z with n by lia. done.
Qed.

(** C39: skipping a value is exact and always ends.  On every input [SkipValue] returns;
    it succeeds, leaving the file at [rest], exactly when the input starts with a
    value of that type in the GGUF format (arrays of at most 2^32 elements, nested
    to any depth) followed by [rest]. *)
Theorem SkipValue_exact (ty : GgufValueType) (s : bytes) :
  (exists r s', SkipValue ty s = Some (r, s')) /\
  (forall rest, SkipValue ty s = Some (Some tt, rest) <->
     exists bs, s = bs ++ rest /\ encodes (Some (2 ^ 32)%Z) ty bs).
Proof.
  split.
  - destruct (skip_value_advances (Some (2 ^ 32)%Z) (S (length s)) ty s ltac:(lia)) as (r & s' & E & _). by exists r, s'.
  - intros rest. split; [apply skip_value_sound|]. intros (bs & -> & Hbs). apply skip_value_complete; [done|lia].
Qed.

(** ** Writing GGUF *)

Fixpoint le_bytes (w : nat) (z : Z) : bytes :=
  match w with O => [] | S w' => ascii_of_N (Z.to_N (z mod 256)) :: le_bytes w' (z / 256) end.

Lemma le_bytes_length w z : length (le_bytes w z) = w.
Proof. revert z. induction w as [|w IH]; intros z; [done|]. cbn. by rewrite IH. Qed.

Lemma le_val_bytes w z : (0 <= z < 256 ^ Z.of_nat w)%Z -> le_val (le_bytes w z) = z.
Proof.
  revert z. induction w as [|w IH]; intros z Hz; [cbn in *; lia|]. cbn [le_bytes le_val].
  rewrite Nat2Z.inj_succ, Z.pow_succ_r in Hz by lia. rewrite IH by (split; [apply Z.div_pos; lia|apply Z.div_lt_upper_bound; lia]).
  unfold byte_val. rewrite N_ascii_embedding by (pose proof (Z.mod_pos_bound z 256); lia).
  pose proof (Z.div_mod z 256). pose proof (Z.mod_pos_bound z 256). lia.
Qed.

(** The reader yields [a] on [bs], whatever follows. *)
Definition parses {A} (m : reader A) (a : A) (bs : bytes) : Prop := forall rest, m (bs ++ rest) = Some (Some a, rest).

Lemma parses_ret {A} (a : A) : parses (rret a) a [].
Proof. by intros rest. Qed.

Lemma parses_bind {A B} (m : reader A) (k : A -> reader B) a b bs bs' :
  parses m a bs -> parses (k a) b bs' -> parses (rbind m k) b (bs ++ bs').
Proof. intros Hm Hk rest. unfold rbind. rewrite <- app_assoc, Hm. apply Hk. Qed.

(** Binding a last reader. *)
Lemma parses_last {A B} (m : reader A) (k : A -> reader B) a b bs :
  parses m a bs -> parses (k a) b [] -> parses (rbind m k) b bs.
Proof. intros Hm Hk. rewrite <- (app_nil_r bs). by eapply parses_bind. Qed.

Lemma parses_fread bs : parses (fread (length bs)) bs bs.
Proof. intros rest. by apply fread_Some. Qed.

Lemma parses_scalar w z : (0 <= z < 256 ^ Z.of_nat w)%Z -> parses (ReadScalar w) z (le_bytes w z).
Proof. intros Hz rest. apply ReadScalar_Some. exists (le_bytes w z). split_and!; [done|apply le_bytes_length|by apply le_val_bytes]. Qed.

Lemma parses_many {A} (m : reader A) l bss :
  Forall2 (fun a bs => parses m a bs /\ 0 < length bs) l bss -> parses (repeat_read m (Z.of_nat (length l))) l (concat bss).
Proof.
  intros H rest. unfold repeat_read. assert (Hf : length (concat bss ++ rest) < S (length (concat bss ++ rest))) by lia.
  revert Hf. generalize (S (length (concat bss ++ rest))) as fuel.
  induction H as [|a bs l bss [Ha Hpos] H IH]; intros fuel Hf; [by destruct fuel|].
  destruct fuel as [|f]; [lia|]. cbn [concat length read_many] in *. rewrite (proj2 (Z.leb_gt _ _)) by lia.
  rewrite <- app_assoc in *. rewrite length_app in Hf. rewrite rbind_Some. exists a, (concat bss ++ rest). split; [apply Ha|].
  rewrite rbind_Some. exists l, rest. split; [|done]. replace (Z.of_nat (S (length l)) - 1)%Z with (Z.of_nat (length l)) by lia. apply IH. lia.
Qed.

Definition encode_name (name : bytes) : bytes := le_bytes 8 (Z.of_nat (length name)) ++ name.

Lemma parses_name name : length name <= 1024 -> parses read_name name (encode_name name).
Proof.
  intros Hn. eapply parses_bind; [apply parses_scalar; lia|]. cbn beta.
  rewrite (proj2 (Z.ltb_ge _ _)) by lia. rewrite Nat2Z.id. apply parses_fread.
Qed.

Record tensor_desc := mkDesc { d_name : bytes; d_shape : list Z; d_type : GgufTensorType; d_offset : Z }.

(** A type that a 32-bit tag denotes. *)
Definition type_ok (ty : GgufTensorType) : Prop := (0 <= tensor_raw ty < 2 ^ 32)%Z /\ tensor_type (tensor_raw ty) = ty.

Record desc_ok (d : tensor_desc) : Prop := {
  do_name : length (d_name d) <= 1024;
  do_rank : (Z.of_nat (length (d_shape d)) < 2 ^ 32)%Z;
  do_dims : Forall (fun n => 0 <= n < 2 ^ 64)%Z (d_shape d);
  do_type : type_ok (d_type d);
  do_offset : (0 <= d_offset d < 2 ^ 64)%Z }.

Definition encode_tensor (d : tensor_desc) : bytes :=
  encode_name (d_name d) ++ le_bytes 4 (Z.of_nat (length (d_shape d))) ++ concat (le_bytes 8 <$> d_shape d) ++
  le_bytes 4 (tensor_raw (d_type d)) ++ le_bytes 8 (d_offset d).

(** What the parser reports for a described tensor. *)
Definition info_of (d : tensor_desc) : GgufTensorInfo :=
  mkTensor (d_name d) (d_shape d) (d_type d) (d_offset d)
    (match d_type d with
     | F32 => u64 (elements (d_shape d) * 4)
     | F16 => u64 (elements (d_shape d) * 2)
     | _ => CalcQuantizedSize (d_type d) (d_shape d)
     end).

Lemma parses_tensor d : desc_ok d -> parses ReadTensorInfo (info_of d) (encode_tensor d).
Proof.
  intros [Hn Hr Hd [Hraw Hty] Ho].
  eapply parses_bind; [by apply parses_name|]. cbn beta.
  eapply parses_bind; [apply parses_scalar; lia|]. cbn beta.
  eapply parses_bind; [apply parses_many|cbn beta].
  { clear - Hd. induction Hd as [|n l Hn Hl IH]; [constructor|]. constructor; [|done].
    split; [apply parses_scalar; lia|]. rewrite le_bytes_length. lia. }
  eapply parses_bind; [apply parses_scalar; lia|]. cbn beta.
  eapply parses_last; [apply parses_scalar; lia|]. cbn beta zeta. rewrite Hty. apply parses_ret.
Qed.

Record kv_desc := mkKv { k_key : bytes; k_tag : Z; k_value : bytes }.

Record kv_ok (kv : kv_desc) : Prop := {
  ko_key : length (k_key kv) <= 1024;
  ko_tag : (0 <= k_tag kv < 2 ^ 32)%Z;
  ko_value : encodes (Some (2 ^ 32)%Z) (value_type (k_tag kv)) (k_value kv) }.

Definition encode_kv (kv : kv_desc) : bytes := encode_name (k_key kv) ++ le_bytes 4 (k_tag kv) ++ k_value kv.

Definition skip_kv : reader unit := kv <~ ReadKeyValue ;; SkipValue kv.2.

Lemma parses_kv kv : kv_ok kv -> parses skip_kv tt (encode_kv kv).
Proof.
  intros [Hk Ht Hv]. unfold skip_kv, encode_kv. rewrite app_assoc. eapply parses_bind.
  - eapply parses_bind; [by apply parses_name|]. cbn beta. eapply parses_last; [by apply parses_scalar|]. cbn beta. apply parses_ret.
  - cbn [snd]. intros rest. apply skip_value_complete; [done|lia].
Qed.

Definition encode_header (ver nt nk : Z) : bytes := le_bytes 4 GGUF_MAGIC ++ le_bytes 4 ver ++ le_bytes 8 nt ++ le_bytes 8 nk.

Lemma encode_kv_pos kv : 0 < length (encode_kv kv).
Proof. unfold encode_kv, encode_name. rewrite !length_app, !le_bytes_length. lia. Qed.

Lemma encode_tensor_pos d : 0 < length (encode_tensor d).
Proof. unfold encode_tensor, encode_name. rewrite !length_app, !le_bytes_length. lia. Qed.

Lemma encode_header_length ver nt nk : length (encode_header ver nt nk) = 24.
Proof. unfold encode_header. by rewrite !length_app, !le_bytes_length. Qed.

(** A model file: header, metadata, tensor descriptions, and the data. *)
Definition gguf_file (ver : Z) (kvs : list kv_desc) (tensors : list tensor_desc) (data : bytes) : bytes :=
  encode_header ver (Z.of_nat (length tensors)) (Z.of_nat (length kvs)) ++
  concat (encode_kv <$> kvs) ++ concat (encode_tensor <$> tensors) ++ data.

Record file_ok (ver : Z) (kvs : list kv_desc) (tensors : list tensor_desc) : Prop := {
  fo_version : (0 <= ver < 2 ^ 32)%Z;
  fo_kvs : Forall kv_ok kvs;
  fo_kv_count : (Z.of_nat (length kvs) < 2 ^ 63)%Z;
  fo_tensors : Forall desc_ok tensors;
  fo_tensor_count : (Z.of_nat (length tensors) < 2 ^ 63)%Z }.

Lemma i64_small z : (0 <= z < 2 ^ 63)%Z -> i64 z = z.
Proof. intros. unfold i64. rewrite Z.mod_small; lia. Qed.

Lemma parses_header ver nt nk : (0 <= ver < 2 ^ 32)%Z -> (0 <= nt < 2 ^ 63)%Z -> (0 <= nk < 2 ^ 63)%Z ->
  parses read_header (mkHeader GGUF_MAGIC ver nt nk) (encode_header ver nt nk).
Proof.
  intros Hv Ht Hk. eapply parses_bind; [apply parses_scalar; unfold GGUF_MAGIC; lia|]. cbn beta.
  eapply parses_bind; [apply parses_scalar; lia|]. cbn beta. eapply parses_bind; [apply parses_scalar; lia|]. cbn beta.
  eapply parses_last; [apply parses_scalar; lia|]. cbn beta. rewrite !i64_small by lia. apply parses_ret.
Qed.

Lemma ParseHeader_file ver kvs tensors data : file_ok ver kvs tensors ->
  ParseHeader (Some (gguf_file ver kvs tensors data)) = Some (mkHeader GGUF_MAGIC ver (Z.of_nat (length tensors)) (Z.of_nat (length kvs))).
Proof.
  intros [Hv _ Hk _ Ht]. unfold ParseHeader, gguf_file. rewrite parses_header by lia. unfold ValidateHeader. cbn.
  rewrite !(proj2 (Z.ltb_ge _ _)) by lia. done.
Qed.

(** ** The most frequent type *)

(** The counting map after the types [l]: tags in order, each with its count. *)
Definition occurs (ty : GgufTensorType) (l : list GgufTensorType) : nat := count_if (fun t => bool_decide (t = ty)) l.

Record counts_ok (m : list (GgufTensorType * nat)) (l : list GgufTensorType) : Prop := {
  co_sorted : StronglySorted (fun a b => tensor_raw a.1 < tensor_raw b.1)%Z m;
  co_count : forall ty n, (ty, n) ∈ m <-> n = occurs ty l /\ 0 < n }.

Lemma raw_inj a b : type_ok a -> type_ok b -> tensor_raw a = tensor_raw b -> a = b.
Proof. intros [_ Ha] [_ Hb] E. congruence. Qed.

Lemma occurs_snoc ty l x : occurs ty (l ++ [x]) = occurs ty l + (if bool_decide (x = ty) then 1 else 0).
Proof. unfold occurs. rewrite count_if_app. cbn. lia. Qed.

Lemma occurs_pos ty l : 0 < occurs ty l <-> ty ∈ l.
Proof.
  unfold occurs. split.
  - intros Hp. destruct (decide (ty ∈ l)) as [|Hn]; [done|]. exfalso.
    assert (Hz : count_if (fun t => bool_decide (t = ty)) l = 0); [|lia].
    apply count_if_zero, Forall_forall. intros x Hx. apply bool_decide_eq_false_2. by intros ->.
  - intros Hin. destruct (count_if _ l) eqn:E; [|lia]. apply count_if_zero in E. rewrite Forall_forall in E.
    specialize (E ty Hin). by rewrite bool_decide_eq_true_2 in E.
Qed.

Lemma count_type_keys ty m : Forall type_ok (ty :: m.*1) ->
  StronglySorted (fun a b => tensor_raw a.1 < tensor_raw b.1)%Z m ->
  StronglySorted (fun a b => tensor_raw a.1 < tensor_raw b.1)%Z (count_type ty m) /\
  forall k n, (k, n) ∈ count_type ty m <->
    (k <> ty /\ (k, n) ∈ m) \/ (k = ty /\ ((exists n', (ty, n') ∈ m /\ n = S n') \/ (ty ∉ m.*1 /\ n = 1))).
Proof.
  intros [Hty Hm]%Forall_cons. induction 1 as [|[k0 n0] m Hs IH Hlt]; cbn [count_type].
  { split; [repeat constructor|]. intros k n. set_solver. }
  rewrite fmap_cons in Hm. apply Forall_cons in Hm as [Hk0 Hm]. specialize (IH Hm). cbn [fst] in *.
  rewrite Forall_forall in Hlt.
  assert (Hnot : forall n, (k0, n) ∉ m) by (intros n Hin; specialize (Hlt _ Hin); cbn in Hlt; lia).
  destruct (Z.eqb_spec (tensor_raw ty) (tensor_raw k0)) as [E|Hne].
  - apply (raw_inj _ _ Hty Hk0) in E as ->. split.
    + constructor; [done|]. by apply Forall_forall.
    + intros k n. rewrite !elem_of_cons. split.
      * intros [[= -> ->]|Hin]; [right; split; [done|]; left; exists n0; split; [by left|done]|].
        left. split; [intros ->; by eapply Hnot|by right].
      * intros [[Hk [E|Hin]]|(-> & [(n' & [E|Hin]%elem_of_cons & ->)|[Hni _]])]; [congruence|by right|left; congruence|by apply Hnot in Hin|].
        exfalso. apply Hni. rewrite fmap_cons. set_solver.
  - assert (Hkt : ty <> k0) by (by intros ->). destruct (Z.ltb_spec (tensor_raw ty) (tensor_raw k0)) as [Hl|Hl].
    + assert (Hni : ty ∉ ((k0, n0) :: m).*1).
      { rewrite fmap_cons. intros [?|([k n] & -> & Hin)%list_elem_of_fmap]%elem_of_cons; [done|]. specialize (Hlt _ Hin). cbn in *. lia. }
      split.
      * constructor; [constructor; [done|by apply Forall_forall]|]. constructor; [done|]. apply Forall_forall. intros x Hx.
        specialize (Hlt x Hx). cbn in *. lia.
      * intros k n. rewrite elem_of_cons. split.
        -- intros [[= -> ->]|Hin]; [right; eauto|]. left. split; [|done]. intros ->. apply Hni. by apply (list_elem_of_fmap_2 fst) in Hin.
        -- intros [[Hk Hin]|(-> & [(n' & Hin & ->)|[_ ->]])]; [by right| |by left]. exfalso. apply Hni. by apply (list_elem_of_fmap_2 fst) in Hin.
    + destruct IH as [IHs IHm]. split.
      * constructor; [done|]. apply Forall_forall. intros [k n] Hin. apply IHm in Hin. cbn.
        destruct Hin as [[_ Hin]|(-> & _)]; [by specialize (Hlt _ Hin)|lia].
      * intros k n. rewrite fmap_cons, !elem_of_cons, IHm. cbn [fst]. set_solver.
Qed.

Definition counts (l : list GgufTensorType) : list (GgufTensorType * nat) := foldl (fun m ty => count_type ty m) [] l.

Lemma counts_spec l : Forall type_ok l -> counts_ok (counts l) l.
Proof.
  unfold counts. induction l as [|x l IH] using rev_ind; intros Hl.
  { split; [constructor|]. intros ty n. cbn. split; [set_solver|]. intros [-> ?]. cbn in *. lia. }
  apply Forall_app in Hl as [Hl [Hx _]%Forall_cons]. destruct (IH Hl) as [Hs Hc]. rewrite foldl_app. cbn [foldl].
  set (m := foldl (fun m ty => count_type ty m) [] l) in *.
  assert (Hkeys : Forall type_ok (x :: m.*1)).
  { constructor; [done|]. apply Forall_forall. intros k ([k' n] & -> & Hin)%list_elem_of_fmap. apply Hc in Hin as [-> Hp].
    apply occurs_pos in Hp. rewrite Forall_forall in Hl. by apply Hl. }
  destruct (count_type_keys x m Hkeys Hs) as [Hs' Hm']. split; [done|]. intros k n. rewrite Hm', occurs_snoc.
  destruct (decide (x = k)) as [->|Hne].
  - rewrite bool_decide_eq_true_2 by done. split.
    + intros [[? _]|(_ & [(n' & [-> Hp]%Hc & ->)|[Hni ->]])]; [done|lia|].
      assert (occurs k l = 0); [|lia]. destruct (occurs k l) as [|o] eqn:E; [done|]. exfalso. apply Hni.
      apply (list_elem_of_fmap_2 fst m (k, S o)), Hc. lia.
    + intros [-> _]. right. split; [done|]. destruct (occurs k l) as [|o] eqn:E.
      * right. split; [|lia]. intros ([k' n] & -> & [-> Hp]%Hc)%list_elem_of_fmap. cbn in *. lia.
      * left. exists (S o). split; [apply Hc; lia|lia].
  - rewrite bool_decide_eq_false_2 by done. rewrite Nat.add_0_r, <- Hc. split; [|left; by split].
    intros [[_ ?]|(-> & _)]; done.
Qed.

(** The scan keeps the first of the quantized types with the greatest count. *)
Lemma pick_spec m best :
  StronglySorted (fun a b => tensor_raw a.1 < tensor_raw b.1)%Z m ->
  let r := foldl pick_one best m in
  (r = best /\ forall e, e ∈ m -> is_quantized e.1 = true -> e.2 <= best.2) \/
  (r ∈ m /\ is_quantized r.1 = true /\ best.2 < r.2 /\
   forall e, e ∈ m -> is_quantized e.1 = true -> e.2 <= r.2 /\ (e.2 = r.2 -> tensor_raw r.1 <= tensor_raw e.1)%Z).
Proof.
  intros Hs. revert best. induction Hs as [|x m Hs IH Hx]; intros best; cbn zeta; cbn [foldl]; [left; set_solver|].
  rewrite Forall_forall in Hx.
  assert (Hstep : pick_one best x = if is_quantized x.1 && (best.2 <? x.2) then x else best).
  { unfold pick_one. by destruct (is_quantized x.1), (best.2 <? x.2). }
  rewrite Hstep. destruct (is_quantized x.1 && (best.2 <? x.2)) eqn:Hc.
  - apply andb_prop in Hc as [Hq Hlt%Nat.ltb_lt]. right. destruct (IH x) as [[-> H]|(Hin & Hqr & Hxr & H)].
    + split_and!; [set_solver|done|done|]. intros e [->|He]%elem_of_cons Hqe; [lia|].
      specialize (H e He Hqe). specialize (Hx e He). lia.
    + split_and!; [set_solver|done|lia|]. intros e [->|He]%elem_of_cons Hqe; [lia|by apply H].
  - assert (Hx' : is_quantized x.1 = true -> x.2 <= best.2) by (intros Hq; rewrite Hq in Hc; cbn in Hc; by apply Nat.ltb_ge).
    destruct (IH best) as [[-> H]|(Hin & Hqr & Hbr & H)].
    + left. split; [done|]. intros e [->|He]%elem_of_cons Hqe; auto.
    + right. split_and!; [set_solver|done|done|]. intros e [->|He]%elem_of_cons Hqe; [specialize (Hx' Hqe); lia|by apply H].
Qed.

(** The verdict for a list of tensor types. *)
Definition detected (types : list GgufTensorType) (q : QuantizationType) : Prop :=
  (types = [] /\ q = kUnknown) \/
  (types <> [] /\ (forall ty, ty ∈ types -> is_quantized ty = false) /\ q = kFp32) \/
  (exists ty, ty ∈ types /\ is_quantized ty = true /\ q = GgufTensorTypeToQuantizationType ty /\
     forall ty', ty' ∈ types -> is_quantized ty' = true ->
       occurs ty' types <= occurs ty types /\ (occurs ty' types = occurs ty types -> tensor_raw ty <= tensor_raw ty')%Z).

Lemma majority_detected types :
  types <> [] -> Forall type_ok types ->
  let best := foldl pick_one (F32, 0) (counts types) in
  detected types (if bool_decide (best.2 = 0) then kFp32 else GgufTensorTypeToQuantizationType best.1).
Proof.
  intros Hne Hok. cbn zeta. destruct (counts_spec types Hok) as [Hs Hc].
  destruct (pick_spec (counts types) (F32, 0) Hs) as [[-> H]|(Hin & Hq & Hpos & H)].
  - right. left. split_and!; [done| |by rewrite bool_decide_eq_true_2]. intros ty Hty. destruct (is_quantized ty) eqn:Hq; [|done].
    apply occurs_pos in Hty. assert (Hm : (ty, occurs ty types) ∈ counts types) by (by apply Hc). specialize (H _ Hm Hq). cbn in H. lia.
  - right. right. destruct (foldl pick_one (F32, 0) (counts types)) as [ty n]. cbn [fst snd] in *.
    apply Hc in Hin as [-> Hp]. exists ty. rewrite bool_decide_eq_false_2 by lia. split_and!; [by apply occurs_pos|done|done|].
    intros ty' Hty' Hq'. apply occurs_pos in Hty'. apply (H (ty', occurs ty' types)); [by apply Hc|done].
Qed.

(** Quantization detection finds the majority type.  On a well-formed GGUF file,
    whatever its metadata (nested arrays included), tensors and data, detection
    reports the quantized tensor type that occurs most (the one with the least tag
    among equals), fp32 when no tensor is quantized, unknown when there is no tensor. *)
Theorem detection_is_majority (ver : Z) (kvs : list kv_desc) (tensors : list tensor_desc) (data : bytes) :
  file_ok ver kvs tensors ->
  exists q, DetectFromGgufMetadata (Some (gguf_file ver kvs tensors data)) = Some q /\ detected (d_type <$> tensors) q.
Proof.
  intros Hf. unfold DetectFromGgufMetadata. rewrite (ParseHeader_file _ _ _ _ Hf). destruct Hf as [Hv Hkv Hkc Ht Htc].
  unfold ValidateHeader. cbn [magic tensor_count kv_count]. rewrite !(proj2 (Z.ltb_ge _ _)) by lia. cbn [negb orb andb Z.eqb].
  assert (Hdrop : drop 24 (gguf_file ver kvs tensors data) = concat (encode_kv <$> kvs) ++ concat (encode_tensor <$> tensors) ++ data).
  { unfold gguf_file. apply drop_app_length'. symmetry. apply encode_header_length. }
  rewrite Hdrop, Z.eqb_refl. cbn [negb andb].
  assert (Hkvs : parses (repeat_read skip_kv (Z.of_nat (length kvs))) (replicate (length kvs) tt) (concat (encode_kv <$> kvs))).
  { rewrite <- (length_replicate (length kvs) tt) at 1. apply parses_many. clear - Hkv.
    induction Hkv as [|kv kvs Hkv Hkvs IH]; [constructor|]. cbn. constructor; [|done]. split; [by apply parses_kv|apply encode_kv_pos]. }
  change (kv <~ ReadKeyValue ;; SkipValue kv.2) with skip_kv. rewrite Hkvs.
  assert (Hts : parses (repeat_read ReadTensorInfo (Z.of_nat (length tensors))) (info_of <$> tensors) (concat (encode_tensor <$> tensors))).
  { rewrite <- (length_fmap info_of tensors). apply parses_many. clear - Ht.
    induction Ht as [|d ds Hd Hds IH]; [constructor|]. cbn. constructor; [|done]. split; [by apply parses_tensor|apply encode_tensor_pos]. }
  rewrite Hts. rewrite length_fmap. destruct tensors as [|d ds]; [exists kUnknown; split; [done|by left]|].
  rewrite bool_decide_eq_false_2 by done.
  replace (foldl (fun m info => count_type (t_type info) m) [] (info_of <$> d :: ds)) with (counts (d_type <$> d :: ds)).
  - assert (Hne : d_type <$> d :: ds <> []) by (rewrite fmap_cons; discriminate).
    pose proof (majority_detected _ Hne) as Hmaj. cbn zeta in Hmaj. cbn zeta.
    eexists. split; [|apply Hmaj, Forall_fmap; (eapply Forall_impl; [exact Ht|]); intros x Hx; exact (do_type _ Hx)].
    by destruct (bool_decide _).
  - unfold counts. generalize (@nil (GgufTensorType * nat)) as m. clear. generalize (d :: ds) as l.
    induction l as [|x l IH]; intros m; [done|]. cbn. apply IH.
Qed.

(** ** Sample file *)

Definition sample_tensor (name : string) (ty : GgufTensorType) : tensor_desc := mkDesc (bytes_of name) [64; 4]%Z ty 0.

Definition sample_tensors : list tensor_desc :=
  [sample_tensor "token_embd.weight" F16; sample_tensor "blk.0.attn_q.weight" Q4_K; sample_tensor "blk.0.attn_k.weight" Q6_K;
   sample_tensor "blk.0.attn_v.weight" Q4_K].

(** An array of two empty strings. *)
Definition sample_kv : kv_desc :=
  mkKv (bytes_of "tokenizer.ggml.tokens") 9 (le_bytes 4 8 ++ le_bytes 8 2 ++ le_bytes 8 0 ++ le_bytes 8 0).

Ltac by_compute := apply (bool_decide_unpack _); vm_compute; exact I.

Lemma sample_file_ok : file_ok 3 [sample_kv] sample_tensors.
Proof.
  split; [by_compute| |by_compute| |by_compute].
  - constructor; [|constructor]. split; [by_compute|by_compute|].
    apply (enc_array _ (le_bytes 4 8) (le_bytes 8 2) (le_bytes 8 0 ++ le_bytes 8 0)); [done|done|vm_compute; discriminate|].
    apply (enc_cons _ STRING 1 (le_bytes 8 0) (le_bytes 8 0)); [by apply (enc_string _ (le_bytes 8 0) [])|lia|].
    apply (enc_cons _ STRING 0 (le_bytes 8 0) []); [by apply (enc_string _ (le_bytes 8 0) [])|lia|constructor].
  - repeat (constructor; [split; [by_compute|by_compute|by_compute|split; [by_compute|done]|by_compute]|]). constructor.
Qed.

Lemma detection_is_majority_witness :
  exists q, DetectFromGgufMetadata (Some (gguf_file 3 [sample_kv] sample_tensors [])) = Some q /\ detected (d_type <$> sample_tensors) q.
Proof. apply detection_is_majority. exact sample_file_ok. Defined.

(** A file whose tensors are all 16-bit floats is reported as 32-bit: the detector
    counts the two float types but does not use the counts. *)
Example half_precision_reported_as_single :
  DetectFromGgufMetadata (Some (gguf_file 3 [] [sample_tensor "w" F16; sample_tensor "v" F16] [])) = Some kFp32.
Proof. vm_compute. reflexivity. Qed.
