(* ===== verification/GgufNative.v ===== *)
(** * The native GGUF reader (runtime/backends/cuda/native/gguf_util.cpp)

    Reading and skipping of values, tensor sizes, type names and the mapping of
    tensor names, over the readers of Gguf.v. *)

From stdpp Require Import base tactics numbers list strings pretty sets.
From Stdlib Require Import Ascii.
From S2P Require Import Prelude StringUtils Gguf.

(** ** Reading values *)

Definition ReadUint64 : reader Z := ReadScalar 8.
Definition ReadInt64 : reader Z := v <~ ReadScalar 8 ;; rret (i64 v).

(** At most 1 GiB. *)
Definition ReadString : reader bytes :=
  len <~ ReadUint64 ;; if (2 ^ 30 <? len)%Z then rfail else fread (Z.to_nat len).

Fixpoint read_value (fuel : nat) (ty : GgufValueType) : reader bytes :=
  match fuel with
  | O => fun _ => None
  | S f =>
      match fixed_size ty, ty with
      | Some n, _ => fread (Z.to_nat n)
      | None, STRING => ReadString
      | None, ARRAY =>
          elem_type <~ ReadScalar 4 ;;
          len <~ ReadUint64 ;;
          _ <~ read_many (read_value f (value_type elem_type)) f len ;; rret []
      | None, _ => rfail
      end
  end.

Definition ReadValue (ty : GgufValueType) : reader bytes := fun s => read_value (S (length s)) ty s.

Definition ValidateGGUFHeader (h : GgufHeader) : bool :=
  (magic h =? GGUF_MAGIC)%Z && negb ((version h =? 0) || (version h =? 1))%Z && negb (3 <? version h)%Z.

(** ** Names of types *)

Definition ValueTypeToString (ty : GgufValueType) : string :=
  match ty with
  | UINT8 => "uint8" | INT8 => "int8" | UINT16 => "uint16" | INT16 => "int16" | UINT32 => "uint32" | INT32 => "int32"
  | FLOAT32 => "float32" | BOOL => "bool" | STRING => "string" | ARRAY => "array" | UINT64 => "uint64" | INT64 => "int64"
  | FLOAT64 => "float64" | _ => "unknown"
  end.

Definition tensor_names : list (string * GgufTensorType) :=
  [("f32", F32); ("f16", F16); ("q4_0", Q4_0); ("q4_1", Q4_1); ("q5_0", Q5_0); ("q5_1", Q5_1); ("q8_0", Q8_0); ("q8_1", Q8_1);
   ("q2_k", Q2_K); ("q3_k", Q3_K); ("q4_k", Q4_K); ("q4_k_m", Q4_K); ("q5_k", Q5_K); ("q5_k_m", Q5_K); ("q6_k", Q6_K);
   ("q6_k_m", Q6_K); ("q8_k", Q8_K); ("q8_k_m", Q8_K)].

Definition StringToTensorType (str : string) : GgufTensorType :=
  match find_index (fun e : string * GgufTensorType => bool_decide (e.1 = str)) tensor_names with
  | Some i => match tensor_names !! i with Some (_, ty) => ty | None => F16 end
  | None => F16
  end.

Definition GetQuantizationType (ty : GgufTensorType) : string :=
  match ty with
  | Q4_K => "q4_k_m" | Q5_K => "q5_k_m" | F32 | F16 | OtherTensor _ => ""
  | _ => type_string ty
  end.

(** ** Tensor sizes *)

Definition size_max : Z := (2 ^ 64 - 1)%Z.

(** The element count; [None] when a dimension is 0 or the product overflows. *)
Fixpoint checked_elements (num : Z) (shape : list Z) : option Z :=
  match shape with
  | [] => Some num
  | dim :: shape' => if ((dim =? 0) || (size_max / dim <? num))%Z then None else checked_elements (num * dim) shape'
  end.

Definition block_bytes (ty : GgufTensorType) : option Z :=
  match ty with
  | Q4_0 => Some 18 | Q4_1 => Some 20 | Q5_0 => Some 22 | Q5_1 => Some 24 | Q8_0 => Some 34 | Q8_1 => Some 36
  | Q2_K => Some 96 | Q3_K => Some 110 | Q4_K => Some 144 | Q5_K => Some 176 | Q6_K => Some 210 | Q8_K => Some 292
  | _ => None
  end%Z.

Definition calc_block (ty : GgufTensorType) : Z := if ((2 <=? tensor_raw ty) && (tensor_raw ty <=? 9))%Z then 32%Z else 256%Z.

Definition CalcTensorSize (ty : GgufTensorType) (shape : list Z) : Z :=
  match shape with
  | [] => 0%Z
  | _ =>
      match checked_elements 1 shape with
      | None => 0%Z
      | Some num =>
          match ty with
          | F32 => if (size_max / 4 <? num)%Z then 0%Z else (num * 4)%Z
          | F16 => if (size_max / 2 <? num)%Z then 0%Z else (num * 2)%Z
          | _ =>
              let num_blocks := (u64 (num + calc_block ty - 1) / calc_block ty)%Z in
              match block_bytes ty with
              | None => 0%Z
              | Some b => if (size_max / b <? num_blocks)%Z then 0%Z else (num_blocks * b)%Z
              end
          end
      end
  end.

(** ** Tensor names *)

Record TensorNameParts := mkParts { layer : Z; component : bytes; part_type : bytes }.

(** Before and after the first dot. *)
Fixpoint split_dot (s : bytes) : option (bytes * bytes) :=
  match s with
  | [] => None
  | c :: s' => if bool_decide (c = "."%char) then Some ([], s')
               else match split_dot s' with Some (a, b) => Some (c :: a, b) | None => None end
  end.

(** [std::stoi] may throw. *)
Definition ParseTensorName (name : bytes) : outcome TensorNameParts :=
  let none := Ret (mkParts (-1) [] []) in
  if named name "tok_emb.weight" || named name "token_embd.weight" then Ret (mkParts (-1) (bytes_of "tok_emb") (bytes_of "weight"))
  else if named name "output.weight" || named name "lm_head.weight" then Ret (mkParts (-2) (bytes_of "output") (bytes_of "weight"))
  else match split_dot name with
       | None => none
       | Some (prefix, rest) =>
           if negb (named prefix "blk") then none
           else match split_dot rest with
                | None => none
                | Some (layer_str, rest2) =>
                    match stoi layer_str with
                    | None => Throw (invalid_argument "stoi")
                    | Some l => match split_dot rest2 with
                                | None => Ret (mkParts l rest2 (bytes_of "weight"))
                                | Some (c, t) => Ret (mkParts l c t)
                                end
                    end
                end
       end.

Definition components : list (string * string) :=
  [("attn_q", "self_attn.q_proj"); ("attn_k", "self_attn.k_proj"); ("attn_v", "self_attn.v_proj"); ("attn_o", "self_attn.o_proj");
   ("attn_output", "self_attn.o_proj"); ("attn_norm", "input_layernorm"); ("ffn_norm", "post_attention_layernorm");
   ("ffn_gate", "mlp.gate_proj"); ("ffn_up", "mlp.up_proj"); ("ffn_down", "mlp.down_proj")].

Definition assoc (l : list (string * string)) (k : bytes) : option bytes :=
  (fun e => bytes_of e.2) <$> (find_index (fun e : string * string => named k e.1) l ≫= fun i => l !! i).

Definition common_names : list (string * string) :=
  [("output.weight", "lm_head.weight"); ("ln_f.weight", "model.norm.weight"); ("ln_f.bias", "model.norm.bias");
   ("blk.0.attn_q.weight", "model.layers.0.self_attn.q_proj.weight"); ("blk.0.attn_k.weight", "model.layers.0.self_attn.k_proj.weight");
   ("blk.0.attn_v.weight", "model.layers.0.self_attn.v_proj.weight"); ("blk.0.attn_o.weight", "model.layers.0.self_attn.o_proj.weight");
   ("blk.0.ffn_gate.weight", "model.layers.0.mlp.gate_proj.weight"); ("blk.0.ffn_down.weight", "model.layers.0.mlp.down_proj.weight");
   ("blk.0.ffn_up.weight", "model.layers.0.mlp.up_proj.weight"); ("blk.0.attn_norm.weight", "model.layers.0.input_layernorm.weight");
   ("blk.0.ffn_norm.weight", "model.layers.0.post_attention_layernorm.weight")].

Definition GetQwen2TensorMap : list (string * string) :=
  [("tok_emb.weight", "model.embed_tokens.weight"); ("blk.0.attn_q.bias", "model.layers.0.self_attn.q_proj.bias");
   ("blk.0.attn_k.bias", "model.layers.0.self_attn.k_proj.bias"); ("blk.0.attn_v.bias", "model.layers.0.self_attn.v_proj.bias")] ++ common_names.

Definition GetLlamaTensorMap : list (string * string) := ("token_embd.weight", "model.embed_tokens.weight") :: common_names.

(** The names handled before the tables. *)
Definition map_direct (name : bytes) : outcome (option bytes) :=
  if named name "tok_emb.weight" || named name "token_embd.weight" then Ret (Some (bytes_of "model.embed_tokens.weight"))
  else if named name "output.weight" then Ret (Some (bytes_of "lm_head.weight"))
  else if named name "output_norm.weight" || named name "norm.weight" || named name "ln_f.weight" then Ret (Some (bytes_of "model.norm.weight"))
  else if named name "output_norm.bias" || named name "norm.bias" || named name "ln_f.bias" then Ret (Some (bytes_of "model.norm.bias"))
  else match ParseTensorName name with
       | Throw e => Throw e
       | Ret parts =>
           if (0 <=? layer parts)%Z then
             match assoc components (component parts) with
             | Some mapped => Ret (Some (bytes_of "model.layers." ++ bytes_of (pretty (layer parts)) ++ bytes_of "." ++ mapped ++
                                         bytes_of "." ++ part_type parts))
             | None => Ret None
             end
           else Ret None
       end.

Definition MapTensorName (name model_type : bytes) : outcome bytes :=
  match map_direct name with
  | Throw e => Throw e
  | Ret (Some mapped) => Ret mapped
  | Ret None =>
      let table := if named model_type "qwen2" || named model_type "qwen" then GetQwen2TensorMap
                   else if named model_type "llama" then GetLlamaTensorMap else [] in
      Ret (match assoc table name with Some mapped => mapped | None => name end)
  end.

(** ** Readers agree *)

Lemma encodes_relax b ty bs : encodes (Some b) ty bs -> encodes None ty bs.
Proof.
  intros H. pattern ty, bs. revert ty bs H.
  apply (encodes_mut (Some b) _ (fun ty n bs => encodes_all None ty n bs)); intros.
  - by eapply enc_fixed.
  - by constructor.
  - by constructor.
  - constructor.
  - by constructor.
Qed.

Lemma read_value_sound fuel ty s out rest :
  read_value fuel ty s = Some (Some out, rest) -> exists bs, s = bs ++ rest /\ encodes None ty bs.
Proof.
  revert ty s out rest. induction fuel as [|f IH]; intros ty s out rest; [done|]. cbn [read_value].
  assert (Hfix : forall n, fixed_size ty = Some n -> (0 <= n)%Z -> fread (Z.to_nat n) s = Some (Some out, rest) ->
            exists bs, s = bs ++ rest /\ encodes None ty bs).
  { intros n Hfs Hn [-> Hl]%fread_Some. exists out. split; [done|]. eapply enc_scalar; [done|lia]. }
  destruct ty; cbn [fixed_size]; try (by apply Hfix); try done.
  - unfold ReadString. rewrite rbind_Some. intros (n & s' & (lb & -> & Hl & <-)%ReadScalar_Some & Hs). case_match; [done|].
    apply fread_Some in Hs as [-> Hb]. pose proof (le_val_bounds lb). exists (lb ++ out). rewrite <- app_assoc. split; [done|].
    constructor; [done|lia].
  - rewrite rbind_Some. intros (et & s' & (tb & -> & Ht & <-)%ReadScalar_Some & Hs).
    rewrite rbind_Some in Hs. destruct Hs as (n & s'' & (lb & -> & Hl & <-)%ReadScalar_Some & Hs).
    rewrite rbind_Some in Hs. destruct Hs as (l & t & Hmany & [= <- <-]). pose proof (le_val_bounds lb).
    apply (read_many_sound None (value_type (le_val tb))) in Hmany as (bs & -> & Hbs); [|intros; by eapply IH|lia].
    exists (tb ++ lb ++ bs). rewrite <- !app_assoc. split; [done|]. by constructor.
Qed.

(** The readers of the two parsers agree.  Whenever the CPU parser skips a value or
    the native parser reads one, the native parser skips it to the same position. *)
Theorem readers_agree (ty : GgufValueType) (s rest : bytes) :
  (SkipValue ty s = Some (Some tt, rest) -> native_SkipValue ty s = Some (Some tt, rest)) /\
  (forall out, ReadValue ty s = Some (Some out, rest) -> native_SkipValue ty s = Some (Some tt, rest)).
Proof.
  split.
  - intros (bs & -> & Hbs)%skip_value_sound. apply skip_value_complete; [by eapply encodes_relax|lia].
  - intros out (bs & -> & Hbs)%read_value_sound. apply skip_value_complete; [done|lia].
Qed.

(** ** Sizes *)

Definition product (shape : list Z) : Z := foldr Z.mul 1%Z shape.

Lemma checked_elements_spec num shape : (0 < num)%Z -> Forall (fun n => 0 <= n)%Z shape ->
  match checked_elements num shape with
  | Some n => n = (num * product shape)%Z /\ (0 < n)%Z /\ (shape = [] \/ (n <= size_max)%Z)
  | None => (size_max < num * product shape)%Z \/ 0%Z ∈ shape
  end.
Proof.
  intros Hn Hs. revert num Hn. induction Hs as [|dim shape Hd Hs IH]; intros num Hn; cbn [checked_elements product foldr].
  { split_and!; [lia|done|by left]. }
  destruct (Z.eqb_spec dim 0) as [->|Hd0]; cbn [orb]; [right; set_solver|].
  assert (Hp : 0%Z ∈ shape \/ (1 <= product shape)%Z).
  { clear - Hs. induction Hs as [|d l Hd Hl IH]; [right; cbn; lia|]. cbn [product foldr]. fold (product l).
    destruct (decide (d = 0%Z)) as [->|]; [left; set_solver|]. destruct IH as [|]; [left; set_solver|right; nia]. }
  destruct (Z.ltb_spec (size_max / dim) num) as [Hov|Hok].
  - fold (product shape). destruct Hp as [|Hp]; [right; set_solver|]. left.
    assert (size_max < num * dim)%Z; [|nia]. apply Z.nle_gt. intros Hle.
    assert (num <= size_max / dim)%Z by (apply Z.div_le_lower_bound; lia). lia.
  - fold (product shape). assert (Hle : (num * dim <= size_max)%Z).
    { transitivity (dim * (size_max / dim))%Z; [nia|apply Z.mul_div_le; lia]. }
    specialize (IH (num * dim)%Z ltac:(nia)). destruct (checked_elements (num * dim) shape) as [n|].
    + destruct IH as (-> & Hpos & Hlim). split_and!; [lia|done|]. right. destruct Hlim as [->|]; [cbn in *; lia|done].
    + destruct IH as [?|?]; [left; lia|right; set_solver].
Qed.

(** The bytes of [n] elements of a type. *)
Definition tensor_bytes (ty : GgufTensorType) (n : Z) : Z :=
  match ty with
  | F32 => n * 4
  | F16 => n * 2
  | _ => match block_bytes ty with Some b => (n + calc_block ty - 1) / calc_block ty * b | None => 0 end
  end%Z.

Lemma calc_block_cases ty : calc_block ty = 32%Z \/ calc_block ty = 256%Z.
Proof. unfold calc_block. case_match; auto. Qed.

Lemma quantized_size ty n b : (0 < n <= size_max)%Z -> block_bytes ty = Some b ->
  let blocks := (u64 (n + calc_block ty - 1) / calc_block ty)%Z in
  let exact := ((n + calc_block ty - 1) / calc_block ty * b)%Z in
  let r := if (size_max / b <? blocks)%Z then 0%Z else (blocks * b)%Z in
  (r = 0%Z \/ r = exact /\ (exact <= size_max)%Z) /\
  ((n + calc_block ty - 1 <= size_max)%Z -> (exact <= size_max)%Z -> r = exact).
Proof.
  intros Hn Hb. cbn zeta.
  assert (Hb0 : (0 < b)%Z) by (destruct ty; cbn in Hb; simplify_eq; lia).
  assert (Hfit : forall q, (0 <= q)%Z -> (size_max / b <? q)%Z = negb (q * b <=? size_max)%Z).
  { intros q Hq. destruct (Z.leb_spec (q * b) size_max), (Z.ltb_spec (size_max / b) q); try done.
    - assert (q <= size_max / b)%Z by (apply Z.div_le_lower_bound; lia). lia.
    - assert (b * q <= b * (size_max / b))%Z by nia. pose proof (Z.mul_div_le size_max b Hb0). lia. }
  assert (Hq0 : forall x, (0 <= u64 x / calc_block ty)%Z).
  { intros x. apply Z.div_pos; [apply u64_range|]. destruct (calc_block_cases ty) as [-> | ->]; lia. }
  rewrite Hfit by apply Hq0.
  destruct (decide (n + calc_block ty - 1 <= size_max)%Z) as [Hs|Hs].
  - rewrite u64_small by (unfold size_max in *; destruct (calc_block_cases ty) as [E|E]; rewrite E in *; lia).
    destruct (Z.leb_spec ((n + calc_block ty - 1) / calc_block ty * b) size_max); cbn [negb]; split; auto; lia.
  - assert (Hz : (u64 (n + calc_block ty - 1) / calc_block ty = 0)%Z).
    { unfold u64. assert (Hlo : (2 ^ 64 <= n + calc_block ty - 1 < 2 ^ 64 + calc_block ty)%Z) by (unfold size_max in *; lia).
      replace ((n + calc_block ty - 1) mod 2 ^ 64)%Z with (n + calc_block ty - 1 - 2 ^ 64)%Z.
      - apply Z.div_small. lia.
      - apply Z.mod_unique with (q := 1%Z); [|lia]. left. destruct (calc_block_cases ty) as [E|E]; rewrite E in *; lia. }
    rewrite Hz. split; [left; by destruct (negb _)|]. intros. lia.
Qed.

(** A tensor size is exact or 0.  For every type and shape, [CalcTensorSize] returns
    either 0 or the exact number of bytes, which then fits in 64 bits: it never
    returns a size that has wrapped around.  When the dimensions are positive and the
    size with its padding fits, it returns the exact size. *)
Theorem tensor_size_exact_or_zero (ty : GgufTensorType) (shape : list Z) :
  Forall (fun n => 0 <= n < 2 ^ 64)%Z shape ->
  let n := product shape in
  let r := CalcTensorSize ty shape in
  (r = 0%Z \/ r = tensor_bytes ty n /\ (0 <= r <= size_max)%Z) /\
  (shape <> [] -> 0%Z ∉ shape -> (n + 255 <= size_max)%Z -> (tensor_bytes ty n <= size_max)%Z -> r = tensor_bytes ty n).
Proof.
  intros Hs. cbn zeta. unfold CalcTensorSize. destruct shape as [|d shape']; [by split; [left|]|].
  set (shape := d :: shape') in *.
  pose proof (checked_elements_spec 1 shape ltac:(lia) (Forall_impl _ _ _ Hs (fun x H => proj1 H))) as Hc.
  destruct (checked_elements 1 shape) as [n|].
  2:{ split; [by left|]. intros _ Hz Hn _. rewrite Z.mul_1_l in Hc. destruct Hc; [lia|done]. }
  rewrite Z.mul_1_l in Hc. destruct Hc as (-> & Hpos & [?|Hlim]); [done|].
  assert (Hsimple : forall k, (k = 4 \/ k = 2)%Z ->
    let r := if (size_max / k <? product shape)%Z then 0%Z else (product shape * k)%Z in
    (r = 0%Z \/ r = (product shape * k)%Z /\ (0 <= r <= size_max)%Z) /\ ((product shape * k <= size_max)%Z -> r = (product shape * k)%Z)).
  { intros k Hk. cbn zeta. destruct (Z.ltb_spec (size_max / k) (product shape)) as [Hov|Hok].
    - split; [by left|]. intros Hle. assert (product shape <= size_max / k)%Z by (apply Z.div_le_lower_bound; lia). lia.
    - split; [right|done]. split; [done|]. pose proof (Z.mul_div_le size_max k ltac:(lia)). nia. }
  assert (Hquant : forall b, block_bytes ty = Some b ->
    let blocks := (u64 (product shape + calc_block ty - 1) / calc_block ty)%Z in
    let exact := ((product shape + calc_block ty - 1) / calc_block ty * b)%Z in
    let r := if (size_max / b <? blocks)%Z then 0%Z else (blocks * b)%Z in
    (r = 0%Z \/ r = exact /\ (0 <= r <= size_max)%Z) /\
    ((product shape + 255 <= size_max)%Z -> (exact <= size_max)%Z -> r = exact)).
  { intros b Hb. cbn zeta. destruct (quantized_size ty (product shape) b ltac:(lia) Hb) as [H1 H2]. cbn zeta in *. split.
    - destruct H1 as [?|[E Hle]]; [by left|right]. split; [done|]. split; [|by rewrite E].
      destruct (_ <? _)%Z; [lia|]. assert (0 < b)%Z by (destruct ty; cbn in Hb; simplify_eq; lia).
      apply Z.mul_nonneg_nonneg; [|lia]. apply Z.div_pos; [apply u64_range|]. destruct (calc_block_cases ty) as [-> | ->]; lia.
    - intros Hpad Hex. apply H2; [|done]. destruct (calc_block_cases ty) as [-> | ->]; lia. }
  destruct ty; cbn [tensor_bytes block_bytes] in *;
    first [ destruct (Hsimple 4%Z ltac:(auto)) as [H1 H2]; split; [exact H1|intros _ _ _; exact H2]
          | destruct (Hsimple 2%Z ltac:(auto)) as [H1 H2]; split; [exact H1|intros _ _ _; exact H2]
          | destruct (Hquant _ eq_refl) as [H1 H2]; split; [exact H1|intros _ _; exact H2]
          | split; [by left|done] ].
Qed.

(** ** Names *)

Lemma split_dot_app a r : "."%char ∉ a -> split_dot (a ++ "."%char :: r) = Some (a, r).
Proof.
  induction a as [|c a IH]; intros Ha; cbn [split_dot app]; [by rewrite bool_decide_eq_true_2|].
  rewrite bool_decide_eq_false_2 by set_solver. by rewrite IH by set_solver.
Qed.

Lemma assoc_Some l k v : assoc l k = Some v -> exists e, e ∈ l /\ k = bytes_of e.1 /\ v = bytes_of e.2.
Proof.
  unfold assoc. intros (e & (i & Hi & He)%bind_Some & ->)%fmap_Some. apply find_index_Some in Hi as [(e' & He' & Hn) _].
  simplify_eq. exists e'. split_and!; [by eapply list_elem_of_lookup_2|by apply bool_decide_eq_true in Hn|done].
Qed.

(** Every name of the tables is handled before them, with the same result. *)
Lemma tables_redundant e : e ∈ GetQwen2TensorMap ++ GetLlamaTensorMap -> map_direct (bytes_of e.1) = Ret (Some (bytes_of e.2)).
Proof.
  intros He. assert (Hall : Forall (fun e => map_direct (bytes_of e.1) = Ret (Some (bytes_of e.2))) (GetQwen2TensorMap ++ GetLlamaTensorMap)).
  { unfold GetQwen2TensorMap, GetLlamaTensorMap, common_names. cbn [app]. repeat (constructor; [vm_compute; reflexivity|]). constructor. }
  rewrite Forall_forall in Hall. by apply Hall.
Qed.

Lemma pretty_no_dot (n : Z) : "."%char ∉ bytes_of (pretty n).
Proof. intros Hin. pose proof (pretty_chars n) as H. rewrite Forall_forall in H. destruct (H _ Hin) as [[? [=]]|[=]]. Qed.

Lemma components_no_dot e : e ∈ components -> "."%char ∉ bytes_of e.1 /\ assoc components (bytes_of e.1) = Some (bytes_of e.2).
Proof.
  intros He. assert (Hall : Forall (fun e => "."%char ∉ bytes_of e.1 /\ assoc components (bytes_of e.1) = Some (bytes_of e.2)) components).
  { unfold components at 2. repeat (constructor; [split; [by apply (bool_decide_unpack _)|vm_compute; reflexivity]|]). constructor. }
  rewrite Forall_forall in Hall. by apply Hall.
Qed.

Lemma ParseTensorName_layer (n : Z) c t : (0 <= n < 2 ^ 31)%Z -> "."%char ∉ c ->
  ParseTensorName (bytes_of "blk." ++ bytes_of (pretty n) ++ "."%char :: c ++ "."%char :: t) = Ret (mkParts n c t).
Proof.
  intros Hn Hc. unfold ParseTensorName, named. cbn [bytes_of String.list_ascii_of_string app].
  rewrite !bool_decide_eq_false_2 by discriminate. cbn [orb split_dot].
  rewrite !bool_decide_eq_false_2 by discriminate. rewrite bool_decide_eq_true_2 by done. cbn [negb].
  rewrite split_dot_app by apply pretty_no_dot. rewrite stoi_pretty by lia. by rewrite split_dot_app.
Qed.

(** Tensor names map as documented.  For every layer number, known component and
    suffix, "blk.N.component.suffix" becomes "model.layers.N.mapped.suffix"; and the
    model type never matters: the per-architecture tables only repeat what the
    general rules give. *)
Theorem tensor_name_mapping (name model_type model_type' : bytes) (n : Z) (e : string * string) (t : bytes) :
  MapTensorName name model_type = MapTensorName name model_type' /\
  ((0 <= n < 2 ^ 31)%Z -> e ∈ components ->
   MapTensorName (bytes_of "blk." ++ bytes_of (pretty n) ++ "."%char :: bytes_of e.1 ++ "."%char :: t) model_type =
   Ret (bytes_of "model.layers." ++ bytes_of (pretty n) ++ bytes_of "." ++ bytes_of e.2 ++ bytes_of "." ++ t)).
Proof.
  split.
  - unfold MapTensorName. destruct (map_direct name) as [[m|]|ex] eqn:E; [done| |done].
    assert (Hnone : forall l, (forall x, x ∈ l -> x ∈ GetQwen2TensorMap ++ GetLlamaTensorMap) -> assoc l name = None).
    { intros l Hl. destruct (assoc l name) as [v|] eqn:Ea; [|done]. apply assoc_Some in Ea as (x & Hx & -> & _).
      rewrite (tables_redundant x (Hl x Hx)) in E. done. }
    assert (Ht : forall mt, assoc (if named mt "qwen2" || named mt "qwen" then GetQwen2TensorMap
        else if named mt "llama" then GetLlamaTensorMap else []) name = None).
    { intros mt. apply Hnone. intros x Hx. rewrite elem_of_app.
      destruct (named mt "qwen2" || named mt "qwen"); [by left|]. destruct (named mt "llama"); [by right|by apply elem_of_nil in Hx]. }
    by rewrite !Ht.
  - intros Hn He. destruct (components_no_dot e He) as [Hc Ha]. unfold MapTensorName, map_direct.
    rewrite ParseTensorName_layer by done. unfold named.
    cbn [bytes_of String.list_ascii_of_string app]. rewrite !bool_decide_eq_false_2 by discriminate. cbn [orb layer component part_type].
    rewrite (proj2 (Z.leb_le _ _)) by lia. rewrite Ha. done.
Qed.

Lemma tensor_size_exact_or_zero_witness : CalcTensorSize Q4_K [4096; 4096]%Z = 9437184%Z.
Proof.
  destruct (tensor_size_exact_or_zero Q4_K [4096; 4096]%Z) as [_ H].
  - repeat (constructor; [by_compute|]). constructor.
  - rewrite H; [reflexivity|discriminate|by_compute|by_compute|by_compute].
Defined.

(** The CPU parser uses other block sizes than the native one, so the sizes the two
    report for the same tensor differ; it also reports 0 for Q8_1. *)
Example tensor_sizes_disagree :
  (CalcQuantizedSize Q5_K [256]%Z, CalcTensorSize Q5_K [256]%Z) = (180, 176)%Z /\
  (CalcQuantizedSize Q8_1 [32]%Z, CalcTensorSize Q8_1 [32]%Z) = (0, 36)%Z.
Proof. vm_compute. split; reflexivity. Qed.

(** A tensor named "blk.x.weight" makes the name parser throw out of the loader. *)
Example bad_layer_throws : ParseTensorName (bytes_of "blk.x.weight") = Throw (invalid_argument "stoi").
Proof. vm_compute. reflexivity. Qed.

Lemma readers_agree_witness : native_SkipValue STRING (le_bytes 8 2 ++ bytes_of "hi!") = Some (Some tt, bytes_of "!").
Proof. apply readers_agree. vm_compute. reflexivity. Defined.

Lemma tensor_name_mapping_witness :
  MapTensorName (bytes_of "blk.31.ffn_up.weight") (bytes_of "llama") = Ret (bytes_of "model.layers.31.mlp.up_proj.weight").
Proof.
  apply (tensor_name_mapping [] (bytes_of "llama") [] 31 ("ffn_up", "mlp.up_proj")%string (bytes_of "weight")); by_compute.
Defined.
