(* ===== verification/Backends.v ===== *)
(** * Backends: capabilities, configuration and selection

    Capability checks (runtime/backends/backend_capabilities.cpp), backend targets
    and their tuned configuration (runtime/backends/llama/llama_backend_traits.cpp),
    model load specifications (model/model_load_spec.cpp) and the backend factory
    (runtime/backends/backend_factory.cpp).

    What the build and the machine decide (compiled-in backends, the registry of
    creators, readiness of the native kernels) is a record, an argument of the
    functions that ask for it. *)

From stdpp Require Import base tactics numbers list strings pretty sets.
From Stdlib Require Import Ascii.
From S2P Require Import Prelude StringUtils.

(** ** Capabilities *)

Record BackendCapabilities := mkCaps {
  supports_generation : bool; supports_streaming : bool; supports_logprobs : bool; supports_structured_output : bool;
  supports_embeddings : bool; supports_vision : bool; supports_speculative_decoding : bool;
  supports_fairness_preemption : bool; supports_kv_prefix_transfer : bool }.

Definition default_caps : BackendCapabilities := mkCaps true true true true true false true true true.

Record BackendFeatureRequirements := mkNeeds {
  needs_generation : bool; needs_streaming : bool; needs_logprobs : bool; needs_structured_output : bool;
  needs_embeddings : bool; needs_vision : bool; needs_speculative_decoding : bool; needs_fairness_preemption : bool }.

Definition BuildGenerationFeatureRequirements (streaming logprobs structured vision speculative preemption : bool)
    : BackendFeatureRequirements := mkNeeds true streaming logprobs structured false vision speculative preemption.

Definition BuildEmbeddingFeatureRequirements : BackendFeatureRequirements := mkNeeds false false false false true false false false.

Record CapabilityCheckResult := mkCheck { supported : bool; missing_feature : string; reason : string }.

Definition Missing (feature why : string) : CapabilityCheckResult := mkCheck false feature why.

Definition CheckBackendCapabilities (c : BackendCapabilities) (r : BackendFeatureRequirements) : CapabilityCheckResult :=
  if needs_generation r && negb (supports_generation c) then Missing "generation" "Selected model does not support text generation"
  else if needs_structured_output r && negb (supports_structured_output c) then
    Missing "structured_output" "Selected model/backend does not support response_format constraints"
  else if needs_logprobs r && negb (supports_logprobs c) then Missing "logprobs" "Selected model/backend does not support logprobs"
  else if needs_streaming r && negb (supports_streaming c) then Missing "streaming" "Selected model/backend does not support streaming"
  else if needs_embeddings r && negb (supports_embeddings c) then Missing "embeddings" "Selected model/backend does not support embeddings"
  else if needs_vision r && negb (supports_vision c) then Missing "vision" "Selected model/backend does not support image inputs"
  else if needs_speculative_decoding r && negb (supports_speculative_decoding c) then
    Missing "speculative_decoding" "Selected model/backend does not support speculative decoding"
  else if needs_fairness_preemption r && negb (supports_fairness_preemption c) then
    Missing "fairness_preemption" "Selected model/backend does not support fairness preemption"
  else mkCheck true "" "".

(** ** Targets *)

Inductive LlamaBackendTarget := kCpu | kCuda | kMps | kRocm | kVulkan | kOpenCL.

#[export] Instance LlamaBackendTarget_eq_dec : EqDecision LlamaBackendTarget.
Proof. solve_decision. Defined.

Record LlamaBackendTraits := mkTraits {
  label : string; gpu_accelerated : bool; supports_flash_attention : bool; supports_phased_execution : bool;
  supports_unified_batch : bool; trait_caps : BackendCapabilities }.

Definition ParseLlamaBackendTarget (hint : bytes) : LlamaBackendTarget :=
  let lowered := ToLower hint in
  if one_of lowered ["cuda"; "inferflux_cuda"; "llama_cpp_cuda"; "cuda_native"; "native_cuda"; "cuda_llama_cpp"; "cuda_llama"] then kCuda
  else if named lowered "mps" then kMps
  else if one_of lowered ["rocm"; "llama_cpp_rocm"] then kRocm
  else if named lowered "vulkan" then kVulkan
  else if named lowered "opencl" then kOpenCL
  else kCpu.

(** [has_mtmd]: multimodal support is compiled in. *)
Definition BuildCapabilitiesForTarget (has_mtmd : bool) : BackendCapabilities :=
  mkCaps true true true true true has_mtmd true true true.

Definition DescribeLlamaBackendTarget (has_mtmd : bool) (target : LlamaBackendTarget) : LlamaBackendTraits :=
  let caps := BuildCapabilitiesForTarget has_mtmd in
  match target with
  | kCuda => mkTraits "cuda" true true true true caps
  | kMps => mkTraits "mps" true true true true caps
  | kRocm => mkTraits "rocm" true true true true caps
  | kVulkan => mkTraits "vulkan" true false true true caps
  | kOpenCL => mkTraits "opencl" true false true true caps
  | kCpu => mkTraits "cpu" false false true true caps
  end.

(** ** Configuration *)

Record CudaConfigExtension := mkCudaExt {
  ext_attention_kernel : bytes; ext_phase_overlap_scaffold : bool; ext_min_prefill_tokens : Z; ext_prefill_replica : bool;
  ext_kv_cache_dtype : bytes; ext_dequantized_cache_policy : bytes; ext_require_fused : bool }.

Record LlamaBackendConfig := mkLlamaConfig {
  embedding_batch_size : option Z; cuda_device_id : option Z; rocm_device_id : option Z; device_explicit : bool; device : bytes;
  gpu_layers_explicit : bool; kv_cache_type_explicit : bool; ctx_size : Z; batch_size : Z; gpu_layers : Z;
  use_flash_attention : bool; flash_attention_tile : Z; cuda_attention_kernel : bytes; cuda_phase_overlap_scaffold : bool;
  cuda_phase_overlap_min_prefill_tokens : Z; cuda_phase_overlap_prefill_replica : bool; inferflux_cuda_kv_cache_dtype : bytes;
  inferflux_cuda_dequantized_cache_policy : bytes; inferflux_cuda_require_fused_quantized_matmul : bool; mmproj_path : bytes;
  prefill_chunk_tokens : Z; max_parallel_sequences : Z; llama_kv_cache_type : bytes; tp_degree : Z; pp_degree : Z;
  cuda_ext : CudaConfigExtension }.

Definition empty_ext : CudaConfigExtension :=
  mkCudaExt (bytes_of "auto") false 256 false (bytes_of "auto") (bytes_of "none") false.

Definition default_config : LlamaBackendConfig :=
  mkLlamaConfig None None None false [] false false 2048 512 0 false 128 (bytes_of "auto") false 256 false (bytes_of "auto")
    (bytes_of "none") false [] 512 128 (bytes_of "f16") 1 1 empty_ext.

Definition NormalizeCudaAttentionKernel (value : bytes) : bytes :=
  let lowered := ToLower value in if one_of lowered ["fa3"; "fa2"; "standard"] then lowered else bytes_of "auto".

Definition quantized_kv (ty : bytes) : bool := one_of (ToLower ty) ["q8_0"; "q8"; "q4_0"; "q4"].

(** [std::clamp] *)
Definition clampZ (v lo hi : Z) : Z := if (v <? lo)%Z then lo else if (hi <? v)%Z then hi else v.

Definition TuneLlamaBackendConfig (has_mtmd : bool) (target : LlamaBackendTarget) (base : LlamaBackendConfig) : LlamaBackendConfig :=
  let traits := DescribeLlamaBackendTarget has_mtmd target in
  let layers := if negb (gpu_accelerated traits) then 0%Z
                else if negb (gpu_layers_explicit base) && (gpu_layers base <=? 0)%Z then 99%Z else gpu_layers base in
  let flash := gpu_accelerated traits && supports_flash_attention traits && use_flash_attention base in
  let kv := if quantized_kv (llama_kv_cache_type base) && negb flash && negb (kv_cache_type_explicit base)
            then bytes_of "f16" else llama_kv_cache_type base in
  let sequences := clampZ (max_parallel_sequences base) 1 256 in
  let tile := if (flash_attention_tile base <=? 0)%Z then 128%Z else flash_attention_tile base in
  let is_cuda := bool_decide (target = kCuda) in
  let kernel := if is_cuda then NormalizeCudaAttentionKernel (cuda_attention_kernel base) else bytes_of "standard" in
  let scaffold := is_cuda && cuda_phase_overlap_scaffold base in
  let min_prefill := if is_cuda && (cuda_phase_overlap_min_prefill_tokens base <=? 0)%Z then 256%Z
                     else cuda_phase_overlap_min_prefill_tokens base in
  let replica := is_cuda && cuda_phase_overlap_prefill_replica base in
  let ext := if is_cuda
             then mkCudaExt kernel scaffold min_prefill replica (inferflux_cuda_kv_cache_dtype base)
                    (inferflux_cuda_dequantized_cache_policy base) (inferflux_cuda_require_fused_quantized_matmul base)
             else cuda_ext base in
  mkLlamaConfig (embedding_batch_size base) (cuda_device_id base) (rocm_device_id base) (device_explicit base) (device base)
    (gpu_layers_explicit base) (kv_cache_type_explicit base) (ctx_size base) (batch_size base) layers flash tile kernel scaffold
    min_prefill replica (inferflux_cuda_kv_cache_dtype base) (inferflux_cuda_dequantized_cache_policy base)
    (inferflux_cuda_require_fused_quantized_matmul base) (mmproj_path base) (prefill_chunk_tokens base) sequences kv
    (tp_degree base) (pp_degree base) ext.

(** ** Load specifications *)

Record DeviceSelector := mkSelector { vendor : bytes; ordinal : Z }.

(** Before and after the first colon. *)
Fixpoint split_colon (s : bytes) : option (bytes * bytes) :=
  match s with
  | [] => None
  | c :: s' => if bool_decide (c = ":"%char) then Some ([], s')
               else match split_colon s' with Some (a, b) => Some (c :: a, b) | None => None end
  end.

(** Only digits, and a value that [std::from_chars] fits in an [int]. *)
Definition ParseDeviceSelector (value : bytes) : option DeviceSelector :=
  match split_colon value with
  | None => None
  | Some (v, digits) =>
      if negb (one_of v ["cuda"; "rocm"]) then None
      else if bool_decide (digits = []) || negb (forallb (fun c => bool_decide (is_Some (digit_val c))) digits) then None
      else let '(n, _) := scan_digits digits 0 in if (n <? 2 ^ 31)%Z then Some (mkSelector v n) else None
  end.

Record ModelLoadSpec := mkSpec {
  spec_id : bytes; spec_path : bytes; spec_format : bytes; spec_backend : bytes; make_default : bool; spec_device : option bytes;
  context_size : option Z; spec_gpu_layers : option Z; spec_max_parallel : option Z; spec_embedding_batch : option Z;
  kv_cache_type : option bytes }.

#[export] Instance ModelLoadSpec_eq_dec : EqDecision ModelLoadSpec.
Proof. solve_decision. Defined.

Definition HasOverrides (s : ModelLoadSpec) : bool :=
  bool_decide (is_Some (spec_device s)) || bool_decide (is_Some (context_size s)) || bool_decide (is_Some (spec_gpu_layers s)) ||
  bool_decide (is_Some (spec_max_parallel s)) || bool_decide (is_Some (spec_embedding_batch s)) || bool_decide (is_Some (kv_cache_type s)).

(** [EmbeddingBatchGeometry::Resolve] *)
Definition ResolveGeometry (configured : option Z) : option (Z * Z) :=
  let sequences := default 32%Z configured in
  if ((sequences <? 1) || (32 <? sequences))%Z then None else Some (sequences, (sequences * 512)%Z).

Definition opt_test {A} (p : A -> bool) (o : option A) : bool := match o with Some a => p a | None => false end.

(** The error message, or none. *)
Definition Validate (s : ModelLoadSpec) : option string :=
  if bool_decide (ResolveGeometry (spec_embedding_batch s) = None) then Some "embedding_batch_size must be between 1 and 32"
  else if opt_test (fun d => bool_decide (¬ is_Some (ParseDeviceSelector d))) (spec_device s) then Some "device must be cuda:N or rocm:N"
  else if opt_test (fun n => n <=? 0)%Z (context_size s) then Some "context_size must be positive"
  else if opt_test (fun n => n <? -1)%Z (spec_gpu_layers s) then Some "gpu_layers must be -1 or nonnegative"
  else if bool_decide (is_Some (spec_device s)) && opt_test (fun n => n =? 0)%Z (spec_gpu_layers s)
  then Some "explicit GPU placement requires GPU layers"
  else if opt_test (fun n => (n <? 1) || (256 <? n))%Z (spec_max_parallel s) then Some "max_parallel_sequences must be between 1 and 256"
  else if opt_test (fun c => opt_test (fun m => c <? m)%Z (spec_max_parallel s)) (context_size s)
  then Some "context_size must cover every sequence"
  else if opt_test (fun t => negb (one_of t ["f16"; "q8_0"; "q4_0"])) (kv_cache_type s) then Some "kv_cache_type must be f16, q8_0 or q4_0"
  else None.

Definition Apply (s : ModelLoadSpec) (d : LlamaBackendConfig) : LlamaBackendConfig :=
  mkLlamaConfig (match spec_embedding_batch s with Some n => Some n | None => embedding_batch_size d end) (cuda_device_id d)
    (rocm_device_id d) (bool_decide (is_Some (spec_device s)) || device_explicit d) (default (device d) (spec_device s))
    (bool_decide (is_Some (spec_gpu_layers s)) || gpu_layers_explicit d)
    (bool_decide (is_Some (kv_cache_type s)) || kv_cache_type_explicit d) (default (ctx_size d) (context_size s)) (batch_size d)
    (default (gpu_layers d) (spec_gpu_layers s)) (use_flash_attention d) (flash_attention_tile d) (cuda_attention_kernel d)
    (cuda_phase_overlap_scaffold d) (cuda_phase_overlap_min_prefill_tokens d) (cuda_phase_overlap_prefill_replica d)
    (inferflux_cuda_kv_cache_dtype d) (inferflux_cuda_dequantized_cache_policy d) (inferflux_cuda_require_fused_quantized_matmul d)
    (mmproj_path d) (prefill_chunk_tokens d) (default (max_parallel_sequences d) (spec_max_parallel s))
    (default (llama_kv_cache_type d) (kv_cache_type s)) (tp_degree d) (pp_degree d) (cuda_ext d).

(** ** Backend factory *)

Inductive BackendProvider := kLlamaCpp | kNative.

#[export] Instance BackendProvider_eq_dec : EqDecision BackendProvider.
Proof. solve_decision. Defined.

Record BackendExposurePolicy := mkPolicy {
  prefer_inferflux : bool; allow_llama_cpp_fallback : bool; strict_inferflux_request : bool }.

Definition default_policy : BackendExposurePolicy := mkPolicy true true false.

(** The build and the machine: what is compiled in, which creators are registered and
    whether they yield a backend, and whether the native kernels are ready. *)
Record Platform := mkPlatform {
  has_cuda : bool; has_mlx : bool; has_mtmd : bool;
  registered : LlamaBackendTarget -> BackendProvider -> bool;
  creator_yields : LlamaBackendTarget -> BackendProvider -> bool;
  native_kernels_ready : bool }.

(** [backend]: which creator made it; [None] is the null pointer. *)
Record BackendFactoryResult := mkSelection {
  backend : option (LlamaBackendTarget * BackendProvider); backend_label : string; r_target : LlamaBackendTarget;
  traits : LlamaBackendTraits; capabilities : BackendCapabilities; provider : BackendProvider; used_fallback : bool;
  fallback_reason : string; require_strict_inferflux_execution : bool; config : LlamaBackendConfig }.

Section Factory.
Context (p : Platform).

Definition SupportsNativeBackend (target : LlamaBackendTarget) : bool :=
  match target with kCuda => native_kernels_ready p | _ => false end.

Definition IsExplicitNativeHint (hint : bytes) : bool := one_of hint ["inferflux_cuda"; "cuda_native"; "native_cuda"].
Definition IsExplicitLlamaCppHint (hint : bytes) : bool := one_of hint ["llama_cpp_cuda"; "cuda_llama_cpp"; "cuda_llama"].

Definition CanonicalBackendId (prov : BackendProvider) (target : LlamaBackendTarget) : string :=
  match prov, target with
  | kNative, kCuda => "inferflux_cuda" | kNative, kMps => "inferflux_mps" | kNative, kRocm => "inferflux_rocm"
  | kNative, kVulkan => "inferflux_vulkan" | kNative, kOpenCL => "inferflux_opencl" | kNative, kCpu => "inferflux_cpu"
  | kLlamaCpp, kCuda => "llama_cpp_cuda" | kLlamaCpp, kMps => "llama_cpp_mps" | kLlamaCpp, kRocm => "llama_cpp_rocm"
  | kLlamaCpp, kVulkan => "llama_cpp_vulkan" | kLlamaCpp, kOpenCL => "llama_cpp_opencl" | kLlamaCpp, kCpu => "llama_cpp_cpu"
  end.

Definition ProviderLabel (prov : BackendProvider) : string := match prov with kNative => "inferflux" | kLlamaCpp => "llama_cpp" end.

Definition ParseProviderLabel (l : bytes) : BackendProvider := if named (ToLower l) "inferflux" then kNative else kLlamaCpp.

Definition NormalizeHint (hint : bytes) : bytes :=
  match hint with
  | [] => bytes_of "cpu"
  | _ =>
      let lowered := ToLower hint in
      if one_of lowered ["auto"; "mlx"; "cpu"; "cuda"; "mps"; "rocm"; "vulkan"; "opencl"] then lowered
      else if IsExplicitNativeHint lowered then bytes_of (CanonicalBackendId kNative kCuda)
      else if IsExplicitLlamaCppHint lowered then bytes_of (CanonicalBackendId kLlamaCpp kCuda)
      else bytes_of (label (DescribeLlamaBackendTarget (has_mtmd p) (ParseLlamaBackendTarget lowered)))
  end.

Definition append_unique (out : list bytes) (raw : bytes) : list bytes :=
  let n := NormalizeHint raw in if bool_decide (n = []) || bool_decide (n ∈ out) then out else out ++ [n].

Definition NormalizeHintList (hints : list bytes) (default_hint : bytes) : list bytes :=
  let out := foldl append_unique [] hints in
  match out with [] => append_unique [] (match default_hint with [] => bytes_of "cpu" | _ => default_hint end) | _ => out end.

(** A result for a target without its backend. *)
Definition result_for (target : LlamaBackendTarget) (prov : BackendProvider) (made : option (LlamaBackendTarget * BackendProvider)) : BackendFactoryResult :=
  let t := DescribeLlamaBackendTarget (has_mtmd p) target in
  mkSelection made (CanonicalBackendId prov target) target t (trait_caps t) prov false "" false
    (TuneLlamaBackendConfig (has_mtmd p) target default_config).

(** [reg.Create] *)
Definition registry_create (target : LlamaBackendTarget) (prov : BackendProvider) : option (LlamaBackendTarget * BackendProvider) :=
  if registered p target prov && creator_yields p target prov then Some (target, prov) else None.

Definition CreateNativeBackendForTarget (target : LlamaBackendTarget) : option (LlamaBackendTarget * BackendProvider) :=
  if registered p target kNative then registry_create target kNative else None.

Definition MakeNativeBackendResult (target : LlamaBackendTarget) (made : LlamaBackendTarget * BackendProvider) : BackendFactoryResult :=
  result_for target kNative (Some made).

Definition CpuFallback : BackendFactoryResult := result_for kCpu kLlamaCpp (Some (kCpu, kLlamaCpp)).

(** The hints that name a registered target. *)
Definition hint_target (hint : bytes) : option LlamaBackendTarget :=
  if named hint "cuda" then Some kCuda else if named hint "rocm" then Some kRocm
  else if named hint "mps" then Some kMps else if named hint "vulkan" then Some kVulkan else None.

Definition LlamaCppForTarget (target : LlamaBackendTarget) (hint : bytes) : BackendFactoryResult :=
  if named hint "mlx" then
    if registered p kMps kLlamaCpp then
      let t := DescribeLlamaBackendTarget (has_mtmd p) kMps in
      mkSelection (registry_create kMps kLlamaCpp) "mlx" kMps t (trait_caps t) kLlamaCpp false "" false
        (TuneLlamaBackendConfig (has_mtmd p) kMps default_config)
    else CpuFallback
  else match hint_target hint with
       | Some t => if registered p t kLlamaCpp then result_for target kLlamaCpp (registry_create t kLlamaCpp) else CpuFallback
       | None => CpuFallback
       end.

Definition NativeUnavailableResult (target : LlamaBackendTarget) (why : string) : BackendFactoryResult :=
  let r := result_for target kNative None in
  mkSelection None (backend_label r) target (traits r) (capabilities r) kNative false why false default_config.

Definition with_fallback (why : string) (r : BackendFactoryResult) : BackendFactoryResult :=
  mkSelection (backend r) (backend_label r) (r_target r) (traits r) (capabilities r) (provider r) true why
    (require_strict_inferflux_execution r) (config r).

Definition with_strict (b : bool) (r : BackendFactoryResult) : BackendFactoryResult :=
  mkSelection (backend r) (backend_label r) (r_target r) (traits r) (capabilities r) (provider r) (used_fallback r)
    (fallback_reason r) b (config r).

(** The hint after normalization and the expansion of "auto", and what it forces. *)
Definition effective_hint (backend_hint : bytes) : bytes * bool * bool :=
  let hint := NormalizeHint backend_hint in
  let '(h, fn, fl) := if IsExplicitNativeHint hint then (bytes_of "cuda", true, false)
                      else if IsExplicitLlamaCppHint hint then (bytes_of "cuda", false, true) else (hint, false, false) in
  if named h "auto" then (bytes_of (if has_cuda p then "cuda" else if has_mlx p then "mlx" else "cpu"), fn, fl) else (h, fn, fl).

Definition Create (policy : BackendExposurePolicy) (backend_hint : bytes) : BackendFactoryResult :=
  let '(hint, force_native, force_llama_cpp) := effective_hint backend_hint in
  let target := ParseLlamaBackendTarget hint in
  if named hint "mlx" then LlamaCppForTarget kMps hint
  else if named hint "cpu" then CpuFallback
  else if one_of hint ["cuda"; "mps"; "rocm"; "vulkan"] then
    if force_native then
      if negb (SupportsNativeBackend target) then
        if strict_inferflux_request policy then NativeUnavailableResult target "backend_policy_violation: strict_inferflux_request enabled; inferflux backend explicitly requested but InferFlux CUDA kernels are not ready"
        else if allow_llama_cpp_fallback policy then
          with_fallback "inferflux backend explicitly requested but unavailable; exposed llama.cpp backend" (LlamaCppForTarget target hint)
        else NativeUnavailableResult target "inferflux backend explicitly requested but unavailable; llama.cpp fallback disabled"
      else match CreateNativeBackendForTarget target with
           | Some made => with_strict (strict_inferflux_request policy) (MakeNativeBackendResult target made)
           | None => NativeUnavailableResult target "inferflux backend explicitly requested but unavailable"
           end
    else if force_llama_cpp then LlamaCppForTarget target hint
    else if prefer_inferflux policy && SupportsNativeBackend target then
      match CreateNativeBackendForTarget target with
      | Some made => MakeNativeBackendResult target made
      | None => if allow_llama_cpp_fallback policy then
                  with_fallback "inferflux backend reported ready but creation failed; exposed llama.cpp backend" (LlamaCppForTarget target hint)
                else NativeUnavailableResult target "inferflux backend indicated as ready but creation failed; llama.cpp fallback disabled"
      end
    else if prefer_inferflux policy && negb (allow_llama_cpp_fallback policy) then
      NativeUnavailableResult target "inferflux backend requested but unavailable; llama.cpp fallback disabled"
    else
      let out := LlamaCppForTarget target hint in
      if prefer_inferflux policy && negb (SupportsNativeBackend target)
      then with_fallback "inferflux backend unavailable; exposed llama.cpp backend" out else out
  else CpuFallback.

Definition MergeBackendConfig (defaults : LlamaBackendConfig) (sel : BackendFactoryResult) : LlamaBackendConfig :=
  TuneLlamaBackendConfig (has_mtmd p) (r_target sel) defaults.
End Factory.

(** ** Hints *)

(** Membership in a concrete list of literals. *)
Ltac by_in := apply (bool_decide_unpack _); vm_compute; exact I.

Definition hint_names : list string :=
  ["auto"; "mlx"; "cpu"; "cuda"; "mps"; "rocm"; "vulkan"; "opencl"; "inferflux_cuda"; "llama_cpp_cuda"].

Lemma one_of_elem s l : one_of s l = true <-> exists t, t ∈ l /\ s = bytes_of t.
Proof.
  unfold one_of. rewrite existsb_exists. setoid_rewrite <- list_elem_of_In. unfold named.
  split; intros (t & Ht & E); exists t; (split; [done|]); [by apply bool_decide_eq_true_1 in E|by apply bool_decide_eq_true_2].
Qed.

Lemma NormalizeHint_range p hint : exists t, t ∈ hint_names /\ NormalizeHint p hint = bytes_of t.
Proof.
  unfold NormalizeHint. destruct hint as [|c hint]; [exists "cpu"%string; split; [by_in|done]|].
  destruct (one_of (ToLower (c :: hint)) ["auto"; "mlx"; "cpu"; "cuda"; "mps"; "rocm"; "vulkan"; "opencl"]%string) eqn:E1.
  { apply one_of_elem in E1 as (t & Ht & ->). exists t. split; [|done].
    change hint_names with (["auto"; "mlx"; "cpu"; "cuda"; "mps"; "rocm"; "vulkan"; "opencl"]%string ++ ["inferflux_cuda"; "llama_cpp_cuda"]%string).
    apply elem_of_app. by left. }
  unfold CanonicalBackendId, DescribeLlamaBackendTarget. repeat case_match; eexists; (split; [|reflexivity]); by_in.
Qed.

Lemma NormalizeHint_fixed p t : t ∈ hint_names -> NormalizeHint p (bytes_of t) = bytes_of t.
Proof.
  intros Ht. assert (Hall : Forall (fun t => NormalizeHint p (bytes_of t) = bytes_of t) hint_names).
  { unfold hint_names. repeat (constructor; [vm_compute; reflexivity|]). constructor. }
  rewrite Forall_forall in Hall. by apply Hall.
Qed.

Lemma NormalizeHint_nonempty p hint : NormalizeHint p hint <> [].
Proof.
  destruct (NormalizeHint_range p hint) as (t & Ht & ->). assert (Hall : Forall (fun t => bytes_of t <> []) hint_names).
  { unfold hint_names. repeat (constructor; [vm_compute; discriminate|]). constructor. }
  rewrite Forall_forall in Hall. by apply Hall.
Qed.

Lemma append_unique_spec p out raw :
  append_unique p out raw = if bool_decide (NormalizeHint p raw ∈ out) then out else out ++ [NormalizeHint p raw].
Proof. unfold append_unique. by rewrite (bool_decide_eq_false_2 (NormalizeHint p raw = [])) by apply NormalizeHint_nonempty. Qed.

Lemma append_all_spec p hints out :
  NoDup out ->
  NoDup (foldl (append_unique p) out hints) /\
  forall h, h ∈ foldl (append_unique p) out hints <-> h ∈ out \/ exists raw, raw ∈ hints /\ h = NormalizeHint p raw.
Proof.
  revert out. induction hints as [|raw hints IH]; intros out Hout; cbn [foldl].
  { split; [done|]. intros h. set_solver. }
  assert (Hstep : NoDup (append_unique p out raw) /\ forall h, h ∈ append_unique p out raw <-> h ∈ out \/ h = NormalizeHint p raw).
  { rewrite append_unique_spec. case_bool_decide as Hin; [split; [done|set_solver]|]. split; [|set_solver].
    apply NoDup_app. split_and!; [done|set_solver|apply NoDup_singleton]. }
  destruct Hstep as [Hnd Hel]. destruct (IH _ Hnd) as [Hnd' Hel']. split; [done|]. intros h. rewrite Hel', Hel. set_solver.
Qed.

(** Hint lists are canonical.  Normalization of a hint is idempotent, and the
    candidate list built from any list of hints is not empty, has no repetition,
    holds only normalized hints, and holds the normal form of every given hint. *)
Theorem hint_list_canonical (p : Platform) (hints : list bytes) (default_hint hint : bytes) :
  NormalizeHint p (NormalizeHint p hint) = NormalizeHint p hint /\
  (let l := NormalizeHintList p hints default_hint in
   l <> [] /\ NoDup l /\ (forall h, h ∈ l -> NormalizeHint p h = h) /\ (forall h, h ∈ hints -> NormalizeHint p h ∈ l)).
Proof.
  assert (Hid : forall h, NormalizeHint p (NormalizeHint p h) = NormalizeHint p h).
  { intros h. destruct (NormalizeHint_range p h) as (t & Ht & ->). by apply NormalizeHint_fixed. }
  split; [apply Hid|]. cbn zeta. unfold NormalizeHintList.
  destruct (append_all_spec p hints [] (NoDup_nil_2)) as [Hnd Hel]. destruct (foldl (append_unique p) [] hints) as [|h l] eqn:E.
  - rewrite append_unique_spec, bool_decide_eq_false_2 by set_solver. cbn [app]. split_and!; [done|apply NoDup_singleton| |].
    + intros h ->%list_elem_of_singleton. apply Hid.
    + intros h Hh. exfalso. assert (Hin : NormalizeHint p h ∈ []) by (apply Hel; eauto). set_solver.
  - split_and!; [done|done| |].
    + intros x Hx. apply Hel in Hx as [Hx|(raw & _ & ->)]; [set_solver|apply Hid].
    + intros x Hx. apply Hel. eauto.
Qed.

(** ** The factory and the exposure policy *)

Lemma LlamaCppForTarget_provider p target hint : provider (LlamaCppForTarget p target hint) = kLlamaCpp.
Proof. unfold LlamaCppForTarget. repeat case_match; done. Qed.

(** The factory follows the exposure policy.  A native backend is exposed only when
    its kernels are ready.  An explicit request for the native engine yields a
    llama.cpp backend only as a reported fallback that the policy allows, and never
    under the strict policy, which marks what it exposes as strict.  Without llama.cpp
    fallback, a preference for the native engine never yields a llama.cpp backend for
    a GPU target unless the hint names llama.cpp. *)
Theorem factory_follows_policy (p : Platform) (policy : BackendExposurePolicy) (hint : bytes) :
  let r := Create p policy hint in
  let native := IsExplicitNativeHint (NormalizeHint p hint) in
  (provider r = kNative -> is_Some (backend r) -> native_kernels_ready p = true) /\
  (native = true -> provider r = kLlamaCpp ->
   used_fallback r = true /\ allow_llama_cpp_fallback policy = true /\ strict_inferflux_request policy = false) /\
  (native = true -> is_Some (backend r) -> strict_inferflux_request policy = true ->
   provider r = kNative /\ require_strict_inferflux_execution r = true) /\
  (prefer_inferflux policy = true -> allow_llama_cpp_fallback policy = false ->
   IsExplicitLlamaCppHint (NormalizeHint p hint) = false -> one_of (effective_hint p hint).1.1 ["cuda"; "mps"; "rocm"; "vulkan"] = true ->
   provider r = kNative).
Proof.
  cbn zeta. unfold Create. destruct (effective_hint p hint) as [[h fn] fl] eqn:Eh. cbn [fst].
  assert (Hforce : fn = IsExplicitNativeHint (NormalizeHint p hint) /\ (fn = true -> h = bytes_of "cuda") /\
                   (fl = true -> IsExplicitLlamaCppHint (NormalizeHint p hint) = true)).
  { unfold effective_hint in Eh. destruct (IsExplicitNativeHint (NormalizeHint p hint)) eqn:En.
    - vm_compute in Eh. by simplify_eq.
    - destruct (IsExplicitLlamaCppHint (NormalizeHint p hint)) eqn:El; [vm_compute in Eh; by simplify_eq|].
      case_match; by simplify_eq. }
  destruct Hforce as (<- & Hcuda & Hllama). pose proof (LlamaCppForTarget_provider p) as Hprov.
  assert (Hready : forall t, SupportsNativeBackend p t = true -> native_kernels_ready p = true) by (intros []; done).
  destruct fn.
  - specialize (Hcuda eq_refl) as ->. clear Eh Hllama.
    replace (named (bytes_of "cuda") "mlx") with false by reflexivity. replace (named (bytes_of "cuda") "cpu") with false by reflexivity.
    replace (one_of (bytes_of "cuda") ["cuda"; "mps"; "rocm"; "vulkan"]%string) with true by reflexivity.
    destruct (SupportsNativeBackend p (ParseLlamaBackendTarget (bytes_of "cuda"))) eqn:Es; cbn [negb].
    + apply Hready in Es. repeat case_match; cbn; naive_solver.
    + destruct (strict_inferflux_request policy) eqn:E1, (allow_llama_cpp_fallback policy) eqn:E2; cbn; rewrite ?Hprov; naive_solver.
  - destruct (named h "mlx") eqn:E1.
    { rewrite Hprov. split_and!; try done. intros _ _ _ Hgpu. apply bool_decide_eq_true_1 in E1 as ->. done. }
    destruct (named h "cpu") eqn:E2.
    { split_and!; try done. intros _ _ _ Hgpu. apply bool_decide_eq_true_1 in E2 as ->. done. }
    destruct (one_of h ["cuda"; "mps"; "rocm"; "vulkan"]%string) eqn:E3; [|by split_and!].
    destruct fl; [rewrite Hprov; split_and!; try done; intros _ _ Hl; by rewrite Hllama in Hl|].
    destruct (prefer_inferflux policy) eqn:E4, (SupportsNativeBackend p (ParseLlamaBackendTarget h)) eqn:Es; cbn [andb negb];
      try (apply Hready in Es); destruct (allow_llama_cpp_fallback policy) eqn:E5; repeat case_match; cbn; rewrite ?Hprov; naive_solver.
Qed.

(** ** Tuning *)

Definition tuned_ok (has_mtmd0 : bool) (target : LlamaBackendTarget) (c : LlamaBackendConfig) : Prop :=
  let t := DescribeLlamaBackendTarget has_mtmd0 target in
  (1 <= max_parallel_sequences c <= 256)%Z /\ (0 < flash_attention_tile c)%Z /\
  (gpu_accelerated t = false -> gpu_layers c = 0%Z) /\
  (supports_flash_attention t = false -> use_flash_attention c = false) /\
  (quantized_kv (llama_kv_cache_type c) = true -> use_flash_attention c = true \/ kv_cache_type_explicit c = true).

Lemma kernel_idempotent v : NormalizeCudaAttentionKernel (NormalizeCudaAttentionKernel v) = NormalizeCudaAttentionKernel v.
Proof.
  unfold NormalizeCudaAttentionKernel at 2 3. destruct (one_of (ToLower v) ["fa3"; "fa2"; "standard"]%string) eqn:E; [|reflexivity].
  unfold NormalizeCudaAttentionKernel. by rewrite lower_lower, E.
Qed.

(** Tuning a configuration makes it valid for the target and is idempotent: at most
    256 sequences, no GPU layers without a GPU, flash attention only where supported,
    and a quantized KV cache without flash attention only if it was asked for. *)
Theorem tuned_config_valid (has_mtmd0 : bool) (target : LlamaBackendTarget) (base : LlamaBackendConfig) :
  tuned_ok has_mtmd0 target (TuneLlamaBackendConfig has_mtmd0 target base) /\
  TuneLlamaBackendConfig has_mtmd0 target (TuneLlamaBackendConfig has_mtmd0 target base) = TuneLlamaBackendConfig has_mtmd0 target base.
Proof.
  assert (Hseq : forall n, (1 <= clampZ n 1 256 <= 256)%Z) by (intros n; unfold clampZ; repeat case_match; lia).
  assert (Hclamp : forall n, clampZ (clampZ n 1 256) 1 256 = clampZ n 1 256) by (intros n; unfold clampZ; repeat case_match; lia).
  assert (Hf16 : quantized_kv (bytes_of "f16") = false) by reflexivity.
  split.
  - unfold tuned_ok, TuneLlamaBackendConfig. destruct base, target;
      cbn -[NormalizeCudaAttentionKernel quantized_kv clampZ bytes_of]; split_and!; try apply Hseq; try done; try (case_match; lia);
      intros Hq; match type of Hq with quantized_kv (if ?b then _ else _) = true => destruct b eqn:E end; try done;
      rewrite Hq in E; cbn in E; destruct kv_cache_type_explicit0, use_flash_attention0; cbn in E; auto; done.
  - unfold TuneLlamaBackendConfig. destruct base, target;
      cbn -[NormalizeCudaAttentionKernel quantized_kv clampZ bytes_of]; rewrite ?kernel_idempotent, ?Hclamp; f_equal;
      repeat (case_match; simplify_eq; cbn in * ); try done; try lia; try congruence; by rewrite kernel_idempotent.
Qed.

(** ** Device selectors *)

Lemma split_colon_app a r : ":"%char ∉ a -> split_colon (a ++ ":"%char :: r) = Some (a, r).
Proof.
  induction a as [|c a IH]; intros Ha; cbn [split_colon app]; [by rewrite bool_decide_eq_true_2|].
  rewrite bool_decide_eq_false_2 by set_solver. by rewrite IH by set_solver.
Qed.

Lemma scan_digits_all s acc v : scan_digits s acc = (v, []) -> forallb (fun c => bool_decide (is_Some (digit_val c))) s = true.
Proof.
  revert acc. induction s as [|c s IH]; intros acc E; [done|]. cbn [scan_digits forallb] in *.
  destruct (digit_val c) as [d|]; [|done]. rewrite bool_decide_eq_true_2 by eauto. by eapply IH.
Qed.

(** Every device of a known vendor is read back. *)
Lemma device_selector_roundtrip (v : string) (n : N) :
  v ∈ ["cuda"; "rocm"]%string -> (Z.of_N n < 2 ^ 31)%Z ->
  ParseDeviceSelector (bytes_of v ++ ":"%char :: bytes_of (pretty n)) = Some (mkSelector (bytes_of v) (Z.of_N n)).
Proof.
  intros Hv Hn. unfold ParseDeviceSelector.
  assert (Hc : ":"%char ∉ bytes_of v /\ one_of (bytes_of v) ["cuda"; "rocm"]%string = true).
  { apply elem_of_cons in Hv as [->|Hv]; [split; [by_in|done]|]. apply list_elem_of_singleton in Hv as ->. split; [by_in|done]. }
  destruct Hc as [Hc Hof]. rewrite split_colon_app by done. rewrite Hof. cbn [negb].
  pose proof (scan_digits_N n) as Hs. rewrite (scan_digits_all _ _ _ Hs), Hs. destruct (pretty_N_head n) as (c & l & El & _).
  rewrite bool_decide_eq_false_2 by (by rewrite El). cbn. by rewrite (proj2 (Z.ltb_lt _ _)).
Qed.

(** The "rocm:N" placement: the router asks the factory for "llama_cpp_rocm", which
    normalizes to "rocm"; under the default policy the llama.cpp backend it gets is
    marked as a fallback, and a placement rejects fallbacks. *)
Example rocm_placement_is_a_fallback (p : Platform) :
  registered p kRocm kLlamaCpp = true -> creator_yields p kRocm kLlamaCpp = true ->
  let r := Create p default_policy (bytes_of "llama_cpp_rocm") in
  (backend r, provider r, used_fallback r) = (Some (kRocm, kLlamaCpp), kLlamaCpp, true).
Proof. intros Hr Hc. destruct p; cbn in *. vm_compute. by rewrite Hr, Hc. Qed.

(** A build without CUDA runs a "cuda" model on the CPU without reporting a fallback
    when the native engine is not preferred. *)
Example missing_build_is_silent (p : Platform) :
  registered p kCuda kLlamaCpp = false ->
  let r := Create p (mkPolicy false true false) (bytes_of "cuda") in
  (r_target r, backend_label r, used_fallback r, fallback_reason r) = (kCpu, "llama_cpp_cpu", false, "")%string.
Proof. intros Hr. destruct p; cbn in *. vm_compute. by rewrite Hr. Qed.
