(* ===== verification/ModelFormat.v ===== *)
(** * Model formats and artifacts (model/model_format.cpp)

    A POSIX path is a byte list; the file system is a record of what the functions
    ask of it: the status of a path and the entries of a directory, in the order the
    directory iterator yields them.  Environment variables are optional strings. *)

From stdpp Require Import base tactics numbers list strings sets.
From Stdlib Require Import Ascii.
From S2P Require Import Prelude StringUtils.

(** ** Paths *)

Definition is_slash (c : ascii) : bool := bool_decide (c = "/"%char).
Definition is_dot (c : ascii) : bool := bool_decide (c = "."%char).

(** What follows the last byte that satisfies [p], and what comes before it. *)
Fixpoint rsplit (p : ascii -> bool) (s : bytes) : option (bytes * bytes) :=
  match s with
  | [] => None
  | c :: s' => match rsplit p s' with
               | Some (a, b) => Some (c :: a, b)
               | None => if p c then Some ([], s') else None
               end
  end.

Definition filename (path : bytes) : bytes := match rsplit is_slash path with Some (_, f) => f | None => path end.

(** [path::extension]: from the last dot of the file name, unless it leads it. *)
Definition extension (path : bytes) : bytes :=
  let f := filename path in
  if named f ".." then []
  else match rsplit is_dot f with
       | Some (_ :: _, e) => "."%char :: e
       | _ => []
       end.

Definition strip_slashes (s : bytes) : bytes := reverse (drop_while is_slash (reverse s)).

(** [path::parent_path] *)
Definition parent_path (path : bytes) : bytes :=
  match rsplit is_slash path with
  | None => []
  | Some (dir, _) => match strip_slashes dir with [] => [ "/"%char ] | d => d end
  end.

(** [dir / name] for a relative [name]. *)
Definition path_join (dir name : bytes) : bytes :=
  match last dir with
  | None => name
  | Some c => if is_slash c then dir ++ name else dir ++ "/"%char :: name
  end.

(** ** The file system *)

Inductive file_status := NoStatus | Regular | Directory | OtherFile.

#[export] Instance file_status_eq_dec : EqDecision file_status.
Proof. solve_decision. Defined.

(** A directory entry: its name and what [is_regular_file(ec)] answers for it, which is
    an error for a symbolic link whose target is gone. *)
Inductive entry_kind := RegularEntry | OtherEntry | EntryError.

#[export] Instance entry_kind_eq_dec : EqDecision entry_kind.
Proof. solve_decision. Defined.

Abbreviation entry := (bytes * entry_kind)%type.

(** [dir_entries]: the entries in the order the iterator yields them; [None] when the
    directory cannot be read. *)
Record FileSystem := mkFs {
  status : bytes -> file_status;
  dir_entries : bytes -> option (list entry) }.

Definition exists_file (fs : FileSystem) (path : bytes) : bool := negb (bool_decide (status fs path = NoStatus)).

(** ** Formats *)

Definition NormalizeModelFormat (format : bytes) : bytes :=
  let n := ToLower format in
  if bool_decide (n = []) then []
  else if one_of n ["auto"; "gguf"] then n
  else if one_of n ["safetensors"; "safetensor"; "safe_tensors"] then bytes_of "safetensors"
  else if one_of n ["hf"; "huggingface"] then bytes_of "hf"
  else [].

Definition IsModelFormatValue (format : bytes) : bool := negb (bool_decide (NormalizeModelFormat format = [])).

Definition IsLoadableByLlamaBackend (format : bytes) : bool := named (NormalizeModelFormat format) "gguf".

Section Files.
Context (fs : FileSystem).

(** The loop returns as soon as the error code left by the previous entry is set. *)
Fixpoint contains_extension (ext : string) (failed : bool) (l : list entry) : bool :=
  match l with
  | [] => false
  | (name, kind) :: l' =>
      if failed then false
      else match kind with
           | EntryError => contains_extension ext true l'
           | OtherEntry => contains_extension ext false l'
           | RegularEntry => named (ToLower (extension name)) ext || contains_extension ext false l'
           end
  end.

Definition DirectoryContainsExtension (dir : bytes) (ext : string) : bool :=
  match dir_entries fs dir with
  | None => false
  | Some l => contains_extension ext false l
  end.

Definition by_extension (path : bytes) : bytes :=
  let ext := ToLower (extension path) in
  if named ext ".gguf" then bytes_of "gguf" else if named ext ".safetensors" then bytes_of "safetensors" else bytes_of "unknown".

Definition is_hf_reference (path : bytes) : bool :=
  starts_with (bytes_of "hf://") (ToLower path) || starts_with (bytes_of "huggingface://") (ToLower path).

Definition DetectModelFormat (path : bytes) : bytes :=
  if bool_decide (path = []) then bytes_of "unknown"
  else if is_hf_reference path then bytes_of "hf"
  else match status fs path with
       | NoStatus | Regular => by_extension path
       | OtherFile => bytes_of "unknown"
       | Directory =>
           if DirectoryContainsExtension path ".gguf" then bytes_of "gguf"
           else if exists_file fs (path_join path (bytes_of "model.safetensors")) ||
                   exists_file fs (path_join path (bytes_of "model.safetensors.index.json")) ||
                   DirectoryContainsExtension path ".safetensors" then bytes_of "safetensors"
           else if exists_file fs (path_join path (bytes_of "config.json")) then bytes_of "hf"
           else bytes_of "unknown"
       end.

Definition ResolveModelFormat (path requested : bytes) : bytes :=
  let n := NormalizeModelFormat requested in
  let n := if bool_decide (n = []) then (if bool_decide (requested = []) then bytes_of "auto" else []) else n in
  if bool_decide (n = []) then bytes_of "unknown"
  else if negb (named n "auto") then n
  else let d := DetectModelFormat path in if named d "unknown" then bytes_of "gguf" else d.

(** ** GGUF artifacts *)

Definition contains (needle : string) (s : bytes) : bool := bool_decide (is_Some (find_sub (bytes_of needle) s)).

Definition ScoreGgufFile (file_name : bytes) : Z :=
  let lower := ToLower file_name in
  if contains "q4_k_m" lower then 100
  else if contains "q4_k_s" lower then 90
  else if contains "q4_k" lower then 85
  else if contains "q4_0" lower then 80
  else if contains "q4" lower then 75
  else if contains "q5_k_m" lower then 70
  else if contains "q5" lower then 65
  else if contains "q8_0" lower then 50
  else if contains ".gguf" lower then 10
  else -1.

(** [std::string]'s order: by unsigned bytes. *)
Fixpoint bytes_ltb (a b : bytes) : bool :=
  match a, b with
  | [], [] => false
  | [], _ :: _ => true
  | _ :: _, [] => false
  | x :: a', y :: b' => (byte_val x <? byte_val y)%Z || ((byte_val x =? byte_val y)%Z && bytes_ltb a' b')
  end.

(** The scan keeps the best score and name so far. *)
Definition gguf_step (best : Z * bytes) (e : entry) : Z * bytes :=
  let '(name, kind) := e in
  if negb (bool_decide (kind = RegularEntry)) || negb (named (ToLower (extension name)) ".gguf") then best
  else let score := ScoreGgufFile name in
       if (best.1 <? score)%Z || ((score =? best.1)%Z && bytes_ltb name best.2) then (score, name) else best.

Definition best_gguf (entries : list entry) : Z * bytes := foldl gguf_step (-1, [])%Z entries.

(** [FindBestGgufInDir]: the path, empty when there is none, and whether the directory
    could be read. *)
Definition FindBestGgufInDir (dir : bytes) : bytes * bool :=
  match dir_entries fs dir with
  | None => ([], false)
  | Some l => let '(score, name) := best_gguf l in (if (score =? -1)%Z then [] else path_join dir name, true)
  end.

Definition SelectBestGgufInDirectory (dir : bytes) : bytes :=
  let '(best, readable) := FindBestGgufInDir dir in
  if negb readable || negb (bool_decide (best = [])) then best
  else (FindBestGgufInDir (path_join dir (bytes_of "sidecar"))).1.

(** ** Resolution of load paths *)

Context (inferflux_home home : option bytes) (cwd : bytes).

Definition InferfluxHomePath : bytes :=
  match inferflux_home with
  | Some ((_ :: _) as h) => h
  | _ => match home with
         | Some ((_ :: _) as h) => path_join h (bytes_of ".inferflux")
         | _ => path_join cwd (bytes_of ".inferflux")
         end
  end.

Definition ExtractHfRepoId (path : bytes) : bytes :=
  let lowered := ToLower path in
  let strip n := strip_slashes (drop_while is_slash (drop n path)) in
  if starts_with (bytes_of "hf://") lowered then strip 5
  else if starts_with (bytes_of "huggingface://") lowered then strip 14
  else [].

Definition ResolveHfReferenceToCachePath (path : bytes) : bytes :=
  match ExtractHfRepoId path with
  | [] => path
  | repo => path_join (path_join InferfluxHomePath (bytes_of "models")) repo
  end.

Definition is_weights (format : bytes) : bool := named format "hf" || named format "safetensors".

Definition ResolveMlxLoadPath (path format : bytes) : bytes :=
  if negb (is_weights (NormalizeModelFormat format)) then path
  else let mlx := ResolveHfReferenceToCachePath path in
       if named (ToLower (extension mlx)) ".safetensors" then parent_path mlx else mlx.

Definition ResolveLlamaLoadPath (path format : bytes) : bytes :=
  let n := NormalizeModelFormat format in
  if bool_decide (n = []) then []
  else if named n "gguf" then path
  else if negb (is_weights n) then []
  else if named (ToLower (extension path)) ".gguf" then path
  else
    let cache := ResolveHfReferenceToCachePath path in
    let from_cache := if bool_decide (cache = path) then [] else SelectBestGgufInDirectory cache in
    if negb (bool_decide (from_cache = [])) then from_cache
    else if bool_decide (status fs path = Directory) then SelectBestGgufInDirectory path
    else [].

Definition ResolveGgufArtifactPath (path : bytes) : bytes :=
  match status fs path with
  | Regular => if named (ToLower (extension path)) ".gguf" then path else []
  | Directory => SelectBestGgufInDirectory path
  | _ => []
  end.
End Files.

(** ** What a scan of a directory selects *)

Lemma rsplit_Some p s a b : rsplit p s = Some (a, b) -> exists c, p c = true /\ s = a ++ c :: b.
Proof.
  revert a. induction s as [|c s IH]; intros a; cbn [rsplit]; [done|].
  destruct (rsplit p s) as [[a' b']|].
  - intros [= <- <-]. destruct (IH a' eq_refl) as (d & Hd & ->). by exists d.
  - destruct (p c) eqn:Hc; [|done]. intros [= <- <-]. by exists c.
Qed.

Lemma filename_suffix path : exists pre, path = pre ++ filename path.
Proof.
  unfold filename. destruct (rsplit is_slash path) as [[a b]|] eqn:E; [|by exists []].
  destruct (rsplit_Some _ _ _ _ E) as (c & _ & ->). exists (a ++ [c]). by rewrite <- app_assoc.
Qed.

Lemma extension_suffix path : exists pre, path = pre ++ extension path.
Proof.
  destruct (filename_suffix path) as [pre Hp]. unfold extension.
  destruct (named _ _); [exists path; by rewrite app_nil_r|].
  destruct (rsplit is_dot (filename path)) as [[[|x a] b]|] eqn:E; [exists path; by rewrite app_nil_r| |exists path; by rewrite app_nil_r].
  destruct (rsplit_Some _ _ _ _ E) as (c & Hc & Hf). apply bool_decide_eq_true in Hc as ->.
  rewrite Hf in Hp. exists (pre ++ x :: a). by rewrite Hp, <- app_assoc.
Qed.

Lemma contains_suffix needle pre : contains needle (pre ++ bytes_of needle) = true.
Proof.
  apply bool_decide_eq_true. destruct (find_sub _ _) eqn:E; [eauto|]. exfalso.
  pose proof (find_sub_None _ _ E (length pre)) as H. rewrite drop_app_length in H.
  enough (starts_with (bytes_of needle) (bytes_of needle) = true) by congruence.
  apply starts_with_spec. exists []. by rewrite app_nil_r.
Qed.

Definition is_gguf (e : entry) : bool := bool_decide (e.2 = RegularEntry) && named (ToLower (extension e.1)) ".gguf".

(** A file with the extension has a score, so the scan selects one whenever there is
    one. *)
Lemma gguf_has_score e : is_gguf e = true -> (0 < ScoreGgufFile e.1)%Z.
Proof.
  intros [_ H]%andb_prop. apply bool_decide_eq_true in H. destruct (extension_suffix e.1) as [pre Hp].
  assert (Hc : contains ".gguf" (ToLower e.1) = true).
  { rewrite Hp. unfold ToLower in *. rewrite fmap_app, H. apply contains_suffix. }
  unfold ScoreGgufFile. repeat (case_match; [lia|]). congruence.
Qed.

(** [better a b]: the candidate [a] goes before [b]. *)
Definition better (a b : Z * bytes) : bool := (b.1 <? a.1)%Z || ((a.1 =? b.1)%Z && bytes_ltb a.2 b.2).

Lemma byte_val_inj a b : byte_val a = byte_val b -> a = b.
Proof. intros H%N2Z.inj. rewrite <- (ascii_N_embedding a), <- (ascii_N_embedding b). by rewrite H. Qed.

Lemma bytes_ltb_irrefl a : bytes_ltb a a = false.
Proof. induction a as [|x a IH]; [done|]. cbn [bytes_ltb]. by rewrite Z.ltb_irrefl, IH, andb_false_r. Qed.

Lemma bytes_ltb_trans a b c : bytes_ltb a b = true -> bytes_ltb b c = true -> bytes_ltb a c = true.
Proof.
  revert b c. induction a as [|x a IH]; intros [|y b] [|z c]; cbn [bytes_ltb]; try done.
  rewrite !orb_true_iff, !andb_true_iff, !Z.ltb_lt, !Z.eqb_eq.
  intros [?|[? ?]] [?|[? ?]]; [left; lia|left; lia|left; lia|right]. split; [lia|eauto].
Qed.

Lemma bytes_ltb_total a b : bytes_ltb a b = true \/ a = b \/ bytes_ltb b a = true.
Proof.
  revert b. induction a as [|x a IH]; intros [|y b]; cbn [bytes_ltb]; auto.
  rewrite !orb_true_iff, !andb_true_iff, !Z.ltb_lt, !Z.eqb_eq.
  destruct (Z.lt_total (byte_val x) (byte_val y)) as [?|[E|?]]; [tauto| |tauto].
  apply byte_val_inj in E as ->. destruct (IH b) as [?|[->|?]]; tauto.
Qed.

Lemma better_trans a b c : better a b = true -> better b c = true -> better a c = true.
Proof.
  unfold better. rewrite !orb_true_iff, !andb_true_iff, !Z.ltb_lt, !Z.eqb_eq.
  intros [?|[? ?]] [?|[? ?]]; [left; lia|left; lia|left; lia|right]. split; [lia|by eapply bytes_ltb_trans].
Qed.

Lemma better_total a b : better a b = true \/ a = b \/ better b a = true.
Proof.
  destruct a as [s a], b as [t b]. unfold better. cbn. rewrite !orb_true_iff, !andb_true_iff, !Z.ltb_lt, !Z.eqb_eq.
  destruct (Z.lt_total s t) as [?|[->|?]]; [tauto| |tauto]. destruct (bytes_ltb_total a b) as [?|[->|?]]; tauto.
Qed.

Lemma better_asym a b : better a b = true -> better b a = true -> False.
Proof.
  intros H1 H2. pose proof (better_trans _ _ _ H1 H2) as H. unfold better in H.
  by rewrite Z.ltb_irrefl, Z.eqb_refl, bytes_ltb_irrefl in H.
Qed.

Definition gguf_key (e : entry) : Z * bytes := (ScoreGgufFile e.1, e.1).

Lemma gguf_step_key best e : gguf_step best e = if is_gguf e && better (gguf_key e) best then gguf_key e else best.
Proof. destruct e as [n k]. unfold is_gguf, gguf_step, better, gguf_key. cbn. by destruct (bool_decide _), (named _ _). Qed.

(** The scan returns its first value or the key of a candidate, and nothing before it. *)
Lemma scan_spec l best :
  let r := foldl gguf_step best l in
  (r = best \/ exists e, e ∈ l /\ is_gguf e = true /\ r = gguf_key e) /\
  better best r = false /\ (forall e, e ∈ l -> is_gguf e = true -> better (gguf_key e) r = false).
Proof.
  assert (Hirr : forall a, better a a = false) by (intros a; unfold better; by rewrite Z.ltb_irrefl, Z.eqb_refl, bytes_ltb_irrefl).
  revert best. induction l as [|e l IH]; intros best; cbn [foldl]; [split; [by left|split; [done|by intros ? ?%elem_of_nil]]|].
  rewrite gguf_step_key. destruct (is_gguf e && better (gguf_key e) best) eqn:E.
  - apply andb_prop in E as [Eg Eb]. destruct (IH (gguf_key e)) as (H1 & H2 & H3). split_and!.
    + right. destruct H1 as [->|(x & ? & ? & ->)]; [exists e|exists x]; split_and!; auto; set_solver.
    + destruct (better best _) eqn:Ew; [|done]. pose proof (better_trans _ _ _ Eb Ew). congruence.
    + intros x [->|Hx]%elem_of_cons; auto.
  - destruct (IH best) as (H1 & H2 & H3). split_and!; [|done|].
    + destruct H1 as [->|(x & ? & ? & ->)]; [by left|right; exists x; split_and!; auto; set_solver].
    + intros x [->|Hx]%elem_of_cons Hg; [|auto]. rewrite Hg in E. cbn in E.
      apply not_true_is_false; intros Ew. destruct (better_total (gguf_key e) best) as [?|[Eq|Hb]]; [congruence| |].
      * congruence.
      * pose proof (better_trans _ _ _ Hb Ew). congruence.
Qed.

Lemma best_gguf_cases l :
  (best_gguf l = (-1, [])%Z /\ forall e, e ∈ l -> is_gguf e = false) \/
  (exists e, e ∈ l /\ is_gguf e = true /\ best_gguf l = gguf_key e /\
     forall x, x ∈ l -> is_gguf x = true -> x.1 = e.1 \/ better (gguf_key e) (gguf_key x) = true).
Proof.
  destruct (scan_spec l (-1, [])%Z) as (H1 & _ & H3). fold (best_gguf l) in *. destruct H1 as [Hr|(e & He & Hg & Hr)].
  - left. split; [done|]. intros e He. destruct (is_gguf e) eqn:Hg; [|done]. specialize (H3 e He Hg).
    pose proof (gguf_has_score e Hg) as Hs. rewrite Hr in H3. unfold better, gguf_key in H3. cbn in H3.
    apply orb_false_iff in H3 as [?%Z.ltb_ge _]. lia.
  - right. exists e. split_and!; auto. intros x Hx Hxg. specialize (H3 x Hx Hxg). rewrite Hr in H3.
    destruct (better_total (gguf_key e) (gguf_key x)) as [?|[[=_ Eq]|?]]; [by right|by left|congruence].
Qed.

Lemma best_gguf_perm l l' : l ≡ₚ l' -> best_gguf l = best_gguf l'.
Proof.
  intros Hp. destruct (best_gguf_cases l) as [[-> H1]|(e & He & Hg & -> & H1)],
    (best_gguf_cases l') as [[-> H2]|(e' & He' & Hg' & -> & H2)]; [done| | |].
  - rewrite <- Hp in He'. rewrite H1 in Hg' by done. done.
  - rewrite Hp in He. rewrite H2 in Hg by done. done.
  - rewrite <- Hp in He'. rewrite Hp in He. unfold gguf_key in *.
    destruct (H1 _ He' Hg') as [->|Hb1]; [done|]. destruct (H2 _ He Hg) as [->|Hb2]; [done|]. by destruct (better_asym _ _ Hb1 Hb2).
Qed.

(** Two file systems that list the same directories in different orders. *)
Definition same_listing (fs1 fs2 : FileSystem) : Prop :=
  forall d, option_Forall2 Permutation (dir_entries fs1 d) (dir_entries fs2 d).

Lemma find_best_perm fs1 fs2 d : same_listing fs1 fs2 -> FindBestGgufInDir fs1 d = FindBestGgufInDir fs2 d.
Proof. intros H. unfold FindBestGgufInDir. destruct (H d) as [l l' Hl|]; [|done]. by rewrite (best_gguf_perm _ _ Hl). Qed.

(** The artifact chosen in a model directory does not depend on the order in which
    the directory lists its files, and it is the regular ".gguf" file that the
    preference puts first: the best quantization score, then the least name.  The
    "sidecar" directory is looked at only when the directory is readable and has no
    such file. *)
Theorem gguf_choice_deterministic (fs1 fs2 : FileSystem) (dir : bytes) (l : list entry) :
  same_listing fs1 fs2 -> dir_entries fs1 dir = Some l ->
  SelectBestGgufInDirectory fs1 dir = SelectBestGgufInDirectory fs2 dir /\
  ((exists e, e ∈ l /\ is_gguf e = true /\ SelectBestGgufInDirectory fs1 dir = path_join dir e.1 /\
      forall x, x ∈ l -> is_gguf x = true -> x.1 = e.1 \/ better (gguf_key e) (gguf_key x) = true) \/
   ((forall e, e ∈ l -> is_gguf e = false) /\
      SelectBestGgufInDirectory fs1 dir = (FindBestGgufInDir fs1 (path_join dir (bytes_of "sidecar"))).1)).
Proof.
  intros Hs Hl. split; [unfold SelectBestGgufInDirectory; by rewrite !(find_best_perm fs1 fs2) by done|].
  assert (Hj : forall n : bytes, n <> [] -> path_join dir n <> []).
  { intros n Hn. unfold path_join. destruct (last dir) as [c|]; [|done]. destruct dir; [by destruct (is_slash c)|]. by destruct (is_slash c). }
  unfold SelectBestGgufInDirectory, FindBestGgufInDir at 1 3. rewrite Hl.
  destruct (best_gguf_cases l) as [[-> H]|(e & He & Hg & Hb & H)]; [right; split; [done|by cbn]|left].
  exists e. split_and!; auto. rewrite Hb. unfold gguf_key. cbn [fst snd]. pose proof (gguf_has_score e Hg) as Hsc.
  destruct (ScoreGgufFile e.1 =? -1)%Z eqn:E; [apply Z.eqb_eq in E; lia|]. cbn. rewrite bool_decide_eq_false_2; [done|].
  apply Hj. intros Hn. apply andb_prop in Hg as [_ Hx]. rewrite Hn in Hx. by vm_compute in Hx.
Qed.

(** ** Formats and load paths *)

Definition known_formats : list bytes := [bytes_of "gguf"; bytes_of "safetensors"; bytes_of "hf"].

Lemma normalized_format f : NormalizeModelFormat f = [] \/ NormalizeModelFormat f = bytes_of "auto" \/ NormalizeModelFormat f ∈ known_formats.
Proof.
  unfold NormalizeModelFormat. cbv zeta. case_match; [by left|]. case_match eqn:H1.
  - unfold one_of in H1. cbn [existsb] in H1. rewrite !orb_true_iff in H1. destruct H1 as [H1|[H1|?]]; [| |done];
      apply bool_decide_eq_true in H1 as ->; right; [by left|right; left].
  - repeat case_match; [right; right; right; left|right; right; right; right; left|by left].
Qed.

Lemma detected_format fs path : DetectModelFormat fs path = bytes_of "unknown" \/ DetectModelFormat fs path ∈ known_formats.
Proof.
  assert (Hg : bytes_of "gguf" ∈ known_formats) by left. assert (Hs : bytes_of "safetensors" ∈ known_formats) by (right; left).
  assert (Hh : bytes_of "hf" ∈ known_formats) by (right; right; left).
  unfold DetectModelFormat, by_extension. repeat case_match; auto.
Qed.

(** A model's format is always settled: "unknown" for a requested format that is
    none of the accepted names, and otherwise one of gguf, safetensors and hf, which is
    the requested one unless that is empty or "auto". *)
Theorem resolved_format_known (fs : FileSystem) (path requested : bytes) :
  (ResolveModelFormat fs path requested = bytes_of "unknown" <-> requested <> [] /\ IsModelFormatValue requested = false) /\
  (ResolveModelFormat fs path requested <> bytes_of "unknown" -> ResolveModelFormat fs path requested ∈ known_formats) /\
  (NormalizeModelFormat requested ∈ known_formats -> ResolveModelFormat fs path requested = NormalizeModelFormat requested).
Proof.
  assert (Hk : forall f, f ∈ known_formats -> f <> [] /\ named f "auto" = false /\ f <> bytes_of "unknown").
  { intros f [->|[->|[->|[]%elem_of_nil]%elem_of_cons]%elem_of_cons]%elem_of_cons; by vm_compute. }
  assert (Hauto : (let d := DetectModelFormat fs path in if named d "unknown" then bytes_of "gguf" else d) ∈ known_formats).
  { cbv zeta. destruct (detected_format fs path) as [->|H]; [left|]. destruct (Hk _ H) as (_ & _ & H'). unfold named. by rewrite bool_decide_eq_false_2. }
  set (auto := let d := DetectModelFormat fs path in _) in Hauto.
  unfold IsModelFormatValue. unfold ResolveModelFormat. fold auto. cbv zeta.
  destruct (normalized_format requested) as [->|[->|Hn]].
  - cbn. destruct (bool_decide_reflect (requested = [])) as [->|Hr]; cbn.
    + destruct (Hk _ Hauto) as (_ & _ & H). split_and!; [split; [done|tauto]|done|by intros (? & _)%Hk].
    + split_and!; [done|done|by intros (? & _)%Hk].
  - destruct (Hk _ Hauto) as (_ & _ & H). cbn. split_and!; [split; [done|by intros [_ ?]]|done|by intros (_ & ? & _)%Hk].
  - destruct (Hk _ Hn) as (H1 & H2 & H3). rewrite !(bool_decide_eq_false_2 (NormalizeModelFormat requested = [])) by done. rewrite H2. cbn.
    split_and!; [split; [done|by intros [_ ?]]|done|done].
Qed.

Lemma rsplit_none p s : Forall (fun c => p c = false) s -> rsplit p s = None.
Proof. induction 1 as [|c s Hc Hs IH]; [done|]. cbn [rsplit]. by rewrite IH, Hc. Qed.

Lemma rsplit_app p a c b : p c = true -> Forall (fun c => p c = false) b -> rsplit p (a ++ c :: b) = Some (a, b).
Proof. intros Hc Hb. induction a as [|x a IH]; cbn [rsplit app]; [by rewrite rsplit_none, Hc|by rewrite IH]. Qed.

(** Entries are file names. *)
Definition plain_names (fs : FileSystem) : Prop :=
  forall d l e, dir_entries fs d = Some l -> e ∈ l -> Forall (fun c => is_slash c = false) e.1.

Lemma extension_join dir name : Forall (fun c => is_slash c = false) name -> extension (path_join dir name) = extension name.
Proof.
  intros Hn. enough (Hf : filename (path_join dir name) = filename name) by (unfold extension; by rewrite Hf).
  unfold filename at 2. rewrite (rsplit_none _ _ Hn). unfold filename, path_join. destruct (last dir) as [c|] eqn:El.
  - destruct (is_slash c) eqn:Ec; [|by rewrite rsplit_app].
    apply last_Some in El as [d ->]. rewrite <- app_assoc. cbn. by rewrite rsplit_app.
  - by rewrite rsplit_none.
Qed.

Lemma find_best_gguf fs d p :
  plain_names fs -> (FindBestGgufInDir fs d).1 = p -> p <> [] -> named (ToLower (extension p)) ".gguf" = true.
Proof.
  unfold FindBestGgufInDir. intros Hpl <- Hne. destruct (dir_entries fs d) as [l|] eqn:El; [|done].
  destruct (best_gguf_cases l) as [[Hb _]|(e & He & Hg & Hb & _)]; rewrite Hb in *; [done|].
  unfold gguf_key in *. destruct (ScoreGgufFile e.1 =? -1)%Z; [done|]. cbn.
  rewrite extension_join by eauto. by apply andb_prop in Hg as [_ ?].
Qed.

Lemma select_best_gguf fs d :
  plain_names fs -> SelectBestGgufInDirectory fs d <> [] -> named (ToLower (extension (SelectBestGgufInDirectory fs d))) ".gguf" = true.
Proof.
  intros Hpl. unfold SelectBestGgufInDirectory. destruct (FindBestGgufInDir fs d) as [b r] eqn:E.
  case_match; intros Hne; [|by eapply find_best_gguf].
  apply (find_best_gguf fs d); auto. by rewrite E.
Qed.

(** For weights that llama.cpp cannot read itself (hf and safetensors models) the
    path it is given is empty or that of a ".gguf" file. *)
Theorem llama_load_path_gguf (fs : FileSystem) (inferflux_home home : option bytes) (cwd path format : bytes) :
  plain_names fs -> is_weights (NormalizeModelFormat format) = true ->
  let r := ResolveLlamaLoadPath fs inferflux_home home cwd path format in
  r <> [] -> named (ToLower (extension r)) ".gguf" = true.
Proof.
  intros Hpl Hw. unfold ResolveLlamaLoadPath. cbv zeta. rewrite Hw.
  assert (Hg : named (NormalizeModelFormat format) "gguf" = false /\ bool_decide (NormalizeModelFormat format = []) = false).
  { apply orb_prop in Hw as [H|H]; apply bool_decide_eq_true in H as ->; done. }
  destruct Hg as [-> ->]. cbn [negb]. destruct (named (ToLower (extension path)) ".gguf") eqn:Ep; [done|].
  set (cache := ResolveHfReferenceToCachePath _ _ _ _). set (from_cache := if bool_decide (cache = path) then [] else _).
  destruct (bool_decide_reflect (from_cache = [])) as [_|Hc]; cbn [negb].
  - case_match; [by apply select_best_gguf|done].
  - intros _. revert Hc. unfold from_cache. case_match; [done|]. by apply select_best_gguf.
Qed.

(** ** Examples *)

Definition file_entry (n : string) : entry := (bytes_of n, RegularEntry).
Definition one_dir (dir : bytes) (l : list entry) : FileSystem :=
  mkFs (fun p => if bool_decide (p = dir) then Directory else NoStatus)
       (fun p => if bool_decide (p = dir) then Some l else None).

Definition llama_files : list entry := [file_entry "m.Q8_0.gguf"; file_entry "m.Q4_K_M.gguf"; file_entry "README.md"; file_entry "b.q4_k_m.gguf"].

Lemma one_dir_perm dir l l' : l ≡ₚ l' -> same_listing (one_dir dir l) (one_dir dir l').
Proof. intros Hp d. cbn. by case_bool_decide; constructor. Qed.

Lemma gguf_choice_deterministic_witness :
  SelectBestGgufInDirectory (one_dir (bytes_of "/m") llama_files) (bytes_of "/m") = bytes_of "/m/b.q4_k_m.gguf" /\
  SelectBestGgufInDirectory (one_dir (bytes_of "/m") (reverse llama_files)) (bytes_of "/m") = bytes_of "/m/b.q4_k_m.gguf".
Proof.
  assert (H : SelectBestGgufInDirectory (one_dir (bytes_of "/m") llama_files) (bytes_of "/m") = bytes_of "/m/b.q4_k_m.gguf") by by vm_compute.
  split; [done|].
  destruct (gguf_choice_deterministic (one_dir (bytes_of "/m") llama_files) (one_dir (bytes_of "/m") (reverse llama_files)) (bytes_of "/m") llama_files)
    as [E _]; [apply one_dir_perm; by rewrite reverse_Permutation|by vm_compute|]. by rewrite <- E.
Defined.

Lemma llama_load_path_gguf_witness :
  let fs := one_dir (bytes_of "/h/models/org/repo") llama_files in
  let r := ResolveLlamaLoadPath fs (Some (bytes_of "/h")) None [] (bytes_of "hf://org/repo/") (bytes_of "huggingface") in
  r = bytes_of "/h/models/org/repo/b.q4_k_m.gguf" /\ named (ToLower (extension r)) ".gguf" = true.
Proof.
  split; [vm_compute; reflexivity|]. apply llama_load_path_gguf; [|vm_compute; reflexivity|vm_compute; discriminate].
  intros d l e H He. cbn in H. case_bool_decide; [|done]. injection H as <-.
  assert (Hall : Forall (fun e : entry => Forall (fun c => is_slash c = false) e.1) llama_files) by (repeat constructor).
  by eapply Forall_forall in Hall.
Defined.

(** A dangling link makes [DetectModelFormat] miss the files the directory lists after
    it, which the scan for an artifact finds. *)
Example dangling_link_hides_gguf :
  let fs := one_dir (bytes_of "/m") [(bytes_of "old.gguf", EntryError); file_entry "m.Q4_K_M.gguf"] in
  DetectModelFormat fs (bytes_of "/m") = bytes_of "unknown" /\
  ResolveGgufArtifactPath fs (bytes_of "/m") = bytes_of "/m/m.Q4_K_M.gguf".
Proof. split; vm_compute; reflexivity. Qed.
