(* ===== verification/ModelRouter.v ===== *)
(** * The model router (scheduler/model_router.h, scheduler/single_model_router.cpp)

    The loaded models with their backends, the default model, the ids that have been
    retired, and the admission of new models: the candidates a backend hint stands
    for, the attempts to load on each, and what a placement request, the policy and the
    scheduler's slot bound reject.

    Backends are handles; what a backend reports is a view, an argument of each
    operation that asks, since it changes between calls.  The order in which the hash
    map of the models is traversed is a parameter with the law that it is an
    enumeration of the map.  Metrics, logs and load times are left out. *)

From stdpp Require Import base tactics numbers list strings pretty gmap sets relations.
From Stdlib Require Import Ascii.
From S2P Require Import Prelude StringUtils Backends ModelFormat.

Create HintDb router.

(** ** Data *)

Record DevicePlacement := mkPlacement {
  dp_requested : bytes; effective : bytes; dp_vendor : bytes; dp_name : bytes; stable_id : bytes; dp_state : bytes;
  gpu_weight_bytes : Z; cpu_weight_bytes : Z; gpu_layer_count : Z; requested_gpu_layers : Z; dp_context_size : Z;
  dp_max_parallel_sequences : Z; dp_kv_cache_type : bytes; dp_embedding_batch : option (Z * Z) }.

Definition no_placement : DevicePlacement := mkPlacement [] [] [] [] [] (bytes_of "unverified") 0 0 0 0 0 0 [] None.

Record GgufMetadata := mkMeta {
  architecture : bytes; quantization : bytes; parameter_count : Z; context_length : Z; embedding_length : Z;
  num_layers : Z; num_heads : Z; num_kv_heads : Z; chat_template : bytes }.

Definition no_metadata : GgufMetadata := mkMeta [] [] 0 0 0 0 0 0 [].

Record ModelInfo := mkInfo {
  id : bytes; path : bytes; source_path : bytes; effective_load_path : bytes; format : bytes; requested_format : bytes;
  m_backend : bytes; requested_backend : bytes; backend_provider : bytes; backend_fallback : bool;
  backend_fallback_reason : bytes; ready : bool; m_capabilities : BackendCapabilities; placement : DevicePlacement;
  m_structured_output : bool; is_moe : bool; n_experts : Z; n_active_experts : Z; gguf : GgufMetadata }.

Definition set_ready (b : bool) (i : ModelInfo) : ModelInfo :=
  mkInfo (id i) (path i) (source_path i) (effective_load_path i) (format i) (requested_format i) (m_backend i) (requested_backend i)
    (backend_provider i) (backend_fallback i) (backend_fallback_reason i) b (m_capabilities i) (placement i) (m_structured_output i)
    (is_moe i) (n_experts i) (n_active_experts i) (gguf i).

(** What [BackendInterface] reports, and the owners of the shared pointer. *)
Record BackendView := mkView {
  IsReady : bool; SequenceCapacity : Z; ReportCapabilities : BackendCapabilities; SupportsVision : bool; Name : bytes;
  IsMoE : bool; ExpertCount : Z; ActiveExperts : Z; IsFallback : bool; FallbackReason : bytes; LoadError : bytes;
  Placement : DevicePlacement; GetModelMetadata : GgufMetadata; use_count : Z }.

Abbreviation handle := nat (only parsing).

Record Entry := mkEntry { info : ModelInfo; e_backend : option handle }.

Record Router := mkRouter {
  models : gmap bytes Entry; default_model_id : bytes; last_load_error : bytes; minimum_sequence_capacity : Z;
  retired_ids : gset bytes; default_backend_config : LlamaBackendConfig; default_backend_hint : bytes; backend_priority : list bytes }.

Definition set_models (ms : gmap bytes Entry) (r : Router) : Router :=
  mkRouter ms (default_model_id r) (last_load_error r) (minimum_sequence_capacity r) (retired_ids r) (default_backend_config r)
    (default_backend_hint r) (backend_priority r).
Definition set_default (d : bytes) (r : Router) : Router :=
  mkRouter (models r) d (last_load_error r) (minimum_sequence_capacity r) (retired_ids r) (default_backend_config r)
    (default_backend_hint r) (backend_priority r).
Definition set_error (e : bytes) (r : Router) : Router :=
  mkRouter (models r) (default_model_id r) e (minimum_sequence_capacity r) (retired_ids r) (default_backend_config r)
    (default_backend_hint r) (backend_priority r).
Definition set_capacity (c : Z) (r : Router) : Router :=
  mkRouter (models r) (default_model_id r) (last_load_error r) c (retired_ids r) (default_backend_config r)
    (default_backend_hint r) (backend_priority r).
Definition set_retired (s : gset bytes) (r : Router) : Router :=
  mkRouter (models r) (default_model_id r) (last_load_error r) (minimum_sequence_capacity r) s (default_backend_config r)
    (default_backend_hint r) (backend_priority r).

(** The traversal of the hash map. *)
Class MapOrder := {
  iter : gmap bytes Entry -> list (bytes * Entry);
  iter_perm (m : gmap bytes Entry) : iter m ≡ₚ map_to_list m }.

(** The build, the file system, the environment and the exposure policy. *)
Record Host := mkHost {
  platform : Platform; has_rocm : bool; has_metal : bool; policy : BackendExposurePolicy;
  files : FileSystem; equivalent : bytes -> bytes -> bool; env_inferflux_home : option bytes; env_home : option bytes; current_path : bytes }.

Definition cat (l : list bytes) : bytes := concat l.
Definition or_else (s d : bytes) : bytes := match s with [] => d | _ => s end.

(** ** Ids *)

(** [path::stem] *)
Definition stem (p : bytes) : bytes :=
  let f := filename p in
  if named f ".." then f
  else match rsplit is_dot f with
       | Some ((_ :: _) as s, _) => s
       | _ => f
       end.

Definition taken (r : Router) (name : bytes) : bool :=
  bool_decide (is_Some (models r !! name)) || bool_decide (name ∈ retired_ids r).

Definition suffixed (base : bytes) (n : nat) : bytes := base ++ "-"%char :: bytes_of (pretty n).

(** The loop from a given suffix; [fuel] bounds its turns. *)
Fixpoint unique_loop (r : Router) (base : bytes) (suffix fuel : nat) : bytes :=
  let candidate := suffixed base suffix in
  match fuel with
  | O => candidate
  | S fuel' => if taken r candidate then unique_loop r base (S suffix) fuel' else candidate
  end.

(** There are as many turns as ids in use. *)
Definition id_fuel (r : Router) : nat := size (models r) + size (retired_ids r).

Definition EnsureUniqueIdLocked (r : Router) (preferred : bytes) : bytes :=
  let base := or_else preferred (bytes_of "model") in
  if taken r base then unique_loop r base 1 (id_fuel r) else base.

Definition GenerateModelIdLocked (r : Router) (p : bytes) : bytes := EnsureUniqueIdLocked r (or_else (stem p) (bytes_of "model")).

(** ** Capabilities and candidates *)

Definition IsMlxBackendLabel (p : Platform) (l : bytes) : bool := named (NormalizeHint p l) "mlx".

Definition BackendSupportsModelFormat (p : Platform) (sel : BackendFactoryResult) (fmt : bytes) : bool :=
  let n := NormalizeModelFormat fmt in
  if named n "gguf" then true
  else if named n "hf" || named n "safetensors" then
    if IsMlxBackendLabel p (bytes_of (backend_label sel)) then true
    else if bool_decide (provider sel = kNative) then named n "safetensors" else false
  else false.

(** The capabilities a native backend that is not one of this program's gets. *)
Definition conservative (c : BackendCapabilities) : BackendCapabilities :=
  mkCaps (supports_generation c) (supports_streaming c) false false false (supports_vision c) false (supports_fairness_preemption c) true.

Definition adopt (c reported : BackendCapabilities) : BackendCapabilities :=
  mkCaps (supports_generation c) (supports_streaming c) (supports_logprobs reported) (supports_structured_output reported)
    (supports_embeddings reported) (supports_vision reported) (supports_speculative_decoding reported)
    (supports_fairness_preemption c) (supports_kv_prefix_transfer reported).

Definition BuildModelCapabilities (base : BackendCapabilities) (prov : BackendProvider) (backend : option BackendView) : BackendCapabilities :=
  let gen := match backend with Some v => supports_generation (ReportCapabilities v) | None => false end in
  let vis := match backend with Some v => SupportsVision v | None => false end in
  let c := mkCaps gen (supports_streaming base) (supports_logprobs base) (supports_structured_output base) (supports_embeddings base)
             vis (supports_speculative_decoding base) (supports_fairness_preemption base) (supports_kv_prefix_transfer base) in
  let c := match prov, backend with
           | kNative, Some v => if starts_with (bytes_of "inferflux_") (Name v) then adopt c (ReportCapabilities v) else conservative c
           | kNative, None => conservative c
           | kLlamaCpp, _ => c
           end in
  if supports_generation c then c
  else mkCaps false false false false (supports_embeddings c) (supports_vision c) false (supports_fairness_preemption c) false.

(** [AppendUniqueHint] is [Backends.append_unique].  [INFERFLUX_HAS_MLX] is defined in
    every build, as 0 or 1, so that the [#ifdef] always holds. *)
Definition BuildCudaFallbackCandidates (h : Host) : list bytes :=
  foldl (append_unique (platform h)) []
    ([bytes_of "cuda"; bytes_of "llama_cpp_cuda"] ++ (if has_rocm h then [bytes_of "rocm"] else []) ++ [bytes_of "mlx"] ++
     (if has_metal h then [bytes_of "mps"] else []) ++ [bytes_of "cpu"]).

Definition MaybePrependMlxCandidate (h : Host) (candidates : list bytes) (backend_hint resolved_format : bytes) : list bytes :=
  if has_mlx (platform h) then
    let f := NormalizeModelFormat resolved_format in
    if negb (is_weights f) then candidates
    else
      let hint := match backend_hint with [] => bytes_of "auto" | _ => NormalizeHint (platform h) backend_hint end in
      if negb (one_of hint ["auto"; "mps"; "mlx"]) then candidates
      else if bool_decide (bytes_of "mlx" ∈ candidates) then candidates else bytes_of "mlx" :: candidates
  else candidates.

Definition BuildBackendCandidates (h : Host) (r : Router) (backend_hint : bytes) : list bytes :=
  let from_priority := match backend_priority r with [] => [default_backend_hint r] | l => l end in
  match backend_hint with
  | [] => from_priority
  | _ => let n := NormalizeHint (platform h) backend_hint in
         if negb (named n "auto") then (if named n "cuda" then BuildCudaFallbackCandidates h else [n]) else from_priority
  end.

(** ** Construction and registration *)

Definition empty_router : Router := mkRouter ∅ [] [] 0 ∅ default_config (bytes_of "cpu") [bytes_of "cpu"].

(** The constructor with a configuration, a default hint and a priority list. *)
Definition configured_router (h : Host) (config : LlamaBackendConfig) (hint : bytes) (priority : list bytes) : Router :=
  let dh := NormalizeHint (platform h) (or_else hint (bytes_of "cpu")) in
  mkRouter ∅ [] [] 0 ∅ config dh (NormalizeHintList (platform h) priority dh).

Definition conflict_error : bytes := bytes_of "model_conflict: ID already used in this process".
Definition capacity_error : bytes := bytes_of "placement_invalid: model sequence capacity is below the running scheduler slot bound".

(** The record that [RegisterModel] stores. *)
Definition registered_info (h : Host) (r : Router) (i : ModelInfo) (v : BackendView) : ModelInfo :=
  let p := platform h in
  let src := or_else (source_path i) (path i) in
  let req_fmt := or_else (NormalizeModelFormat (requested_format i)) (bytes_of "auto") in
  let fmt := let f := NormalizeModelFormat (format i) in
             if bool_decide (f = []) || named f "auto" then ResolveModelFormat (files h) src req_fmt else f in
  let bk := NormalizeHint p (or_else (m_backend i) (bytes_of "cpu")) in
  let req_bk := match requested_backend i with [] => bk | rb => NormalizeHint p rb end in
  let prov := match backend_provider i with [] => kLlamaCpp | l => ParseProviderLabel l end in
  let caps := BuildModelCapabilities (trait_caps (DescribeLlamaBackendTarget (has_mtmd p) (ParseLlamaBackendTarget bk))) prov (Some v) in
  mkInfo (match id i with [] => GenerateModelIdLocked r (or_else src (bytes_of "model")) | n => EnsureUniqueIdLocked r n end)
    src src (or_else (effective_load_path i) src) fmt req_fmt bk req_bk (bytes_of (ProviderLabel prov)) (backend_fallback i)
    (backend_fallback_reason i) (IsReady v) caps (placement i) (supports_structured_output caps) (IsMoE v) (ExpertCount v)
    (ActiveExperts v) (gguf i).

(** [models_[id] = entry], and the first model is the default. *)
Definition add_entry (make_default : bool) (e : Entry) (r : Router) : Router :=
  let r := set_models (<[ id (info e) := e ]> (models r)) r in
  let r := if bool_decide (default_model_id r = []) || make_default then set_default (id (info e)) r else r in
  set_error [] r.

Definition RegisterModel (h : Host) (view : handle -> BackendView) (i : ModelInfo) (backend : option handle) (r : Router) : bool * Router :=
  match backend with
  | None => (false, r)
  | Some b =>
      if bool_decide (path i = []) && bool_decide (id i = []) then (false, r)
      else
        let v := view b in
        if (0 <? SequenceCapacity v)%Z && (SequenceCapacity v <? minimum_sequence_capacity r)%Z then (false, set_error capacity_error r)
        else if negb (bool_decide (id i = [])) && taken r (id i) then (false, set_error conflict_error r)
        else (true, add_entry false (mkEntry (registered_info h r i v) (Some b)) r)
  end.

(** ** Queries and other operations *)

Section Ops.
Context `{MapOrder} (view : handle -> BackendView).

(** [backend && backend->IsReady()] *)
Definition ready_backend (b : option handle) : bool := match b with Some b => IsReady (view b) | None => false end.

Definition ListModels (r : Router) : list ModelInfo :=
  (fun '(_, e) => set_ready (ready_backend (e_backend e)) (info e)) <$> iter (models r).

(** Readiness is refreshed in the entry that is found. *)
Definition found (n : bytes) (e : Entry) (r : Router) : option ModelInfo * Router :=
  let i := set_ready (ready_backend (e_backend e)) (info e) in
  (Some i, set_models (<[ n := mkEntry i (e_backend e) ]> (models r)) r).

Definition Resolve (requested : bytes) (r : Router) : option ModelInfo * Router :=
  let target := match requested with [] => default_model_id r | _ => requested end in
  match models r !! target with
  | Some e => found target e r
  | None =>
      if negb (bool_decide (requested = [])) && negb (bool_decide (default_model_id r = [])) then
        match models r !! default_model_id r with Some e => found (default_model_id r) e r | None => (None, r) end
      else (None, r)
  end.

Definition ResolveExact (model_id : bytes) (r : Router) : option ModelInfo * Router :=
  match model_id with
  | [] => (None, r)
  | _ => match models r !! model_id with Some e => found model_id e r | None => (None, r) end
  end.

Definition GetBackend (model_id : bytes) (r : Router) : option handle := models r !! model_id ≫= e_backend.

Definition Backend (r : Router) : option handle :=
  match default_model_id r with [] => None | d => GetBackend d r end.

Definition SetDefaultModel (model_id : bytes) (r : Router) : bool * Router :=
  match models r !! model_id with Some _ => (true, set_default model_id r) | None => (false, r) end.

Definition SetMinimumSequenceCapacity (capacity : Z) (r : Router) : Router :=
  set_capacity (Z.max (minimum_sequence_capacity r) capacity) r.

Definition ModelReferenceCount (n : bytes) (r : Router) : Z :=
  match models r !! n with
  | None => 0
  | Some e => match e_backend e with Some b => use_count (view b) | None => 1 end
  end.

(** The first model of the traversal becomes the default. *)
Definition UpdateDefaultModelLocked (r : Router) : Router :=
  if negb (bool_decide (default_model_id r = [])) then r
  else match iter (models r) with [] => r | (n, _) :: _ => set_default n r end.

Definition UnloadModel (n : bytes) (r : Router) : bool * Router :=
  match models r !! n with
  | None => (false, r)
  | Some e =>
      if match e_backend e with Some b => (1 <? use_count (view b))%Z | None => false end then (false, r)
      else
        let r := set_retired ({[ n ]} ∪ retired_ids r) r in
        let r := set_models (delete n (models r)) r in
        (true, if bool_decide (default_model_id r = n) then UpdateDefaultModelLocked (set_default [] r) else r)
  end.
End Ops.

(** ** Loading *)

Definition with_device (d : bytes) (c : LlamaBackendConfig) : LlamaBackendConfig :=
  mkLlamaConfig (embedding_batch_size c) (cuda_device_id c) (rocm_device_id c) true d (gpu_layers_explicit c) (kv_cache_type_explicit c)
    (ctx_size c) (batch_size c) (gpu_layers c) (use_flash_attention c) (flash_attention_tile c) (cuda_attention_kernel c)
    (cuda_phase_overlap_scaffold c) (cuda_phase_overlap_min_prefill_tokens c) (cuda_phase_overlap_prefill_replica c)
    (inferflux_cuda_kv_cache_dtype c) (inferflux_cuda_dequantized_cache_policy c) (inferflux_cuda_require_fused_quantized_matmul c)
    (mmproj_path c) (prefill_chunk_tokens c) (max_parallel_sequences c) (llama_kv_cache_type c) (tp_degree c) (pp_degree c) (cuda_ext c).

Record LoadAttempt := mkAttempt { la_path : bytes; la_format : bytes }.

Section Load.
Context (h : Host).

Definition llama_path (p fmt : bytes) : bytes :=
  ResolveLlamaLoadPath (files h) (env_inferflux_home h) (env_home h) (current_path h) p fmt.

(** A directory that resolves to "gguf" stands for the artifact in it. *)
Definition to_artifact (a : LoadAttempt) : LoadAttempt :=
  if named (la_format a) "gguf" then mkAttempt (or_else (ResolveGgufArtifactPath (files h) (la_path a)) (la_path a)) (la_format a) else a.

Definition load_attempts (sel : BackendFactoryResult) (p fmt : bytes) : list LoadAttempt :=
  let attempts :=
    if is_weights fmt then
      if IsMlxBackendLabel (platform h) (bytes_of (backend_label sel)) then
        let mlx := ResolveMlxLoadPath (env_inferflux_home h) (env_home h) (current_path h) p fmt in
        let g := llama_path p fmt in
        mkAttempt mlx fmt :: (if negb (bool_decide (g = [])) && negb (bool_decide (g = mlx)) then [mkAttempt g (bytes_of "gguf")] else [])
      else if bool_decide (provider sel = kNative) && named fmt "safetensors" then
        [mkAttempt (ResolveHfReferenceToCachePath (env_inferflux_home h) (env_home h) (current_path h) p) fmt]
      else match llama_path p fmt with
           | [] => [mkAttempt p fmt]
           | g => [mkAttempt g (bytes_of "gguf")]
           end
    else [mkAttempt p fmt] in
  to_artifact <$> attempts.

(** The backend objects: whether the [k]-th call of [LoadModel] on one succeeds, and
    what it reports after [k] calls. *)
Record Loader := mkLoader {
  load_ok : handle -> nat -> bytes -> LlamaBackendConfig -> bool;
  seen : handle -> nat -> BackendView }.

Context (ld : Loader).

Definition quoted (s : bytes) : bytes := "'"%char :: s ++ ["'"%char].
Definition in_parens (s : bytes) : bytes := match s with [] => [] | _ => bytes_of " (" ++ s ++ bytes_of ")" end.

Definition attempt_failure (sel : BackendFactoryResult) (candidate : bytes) (a : LoadAttempt) (v : BackendView) : bytes :=
  if require_strict_inferflux_execution sel && bool_decide (provider sel = kNative) && IsFallback v
  then bytes_of "backend_policy_violation: strict_inferflux_request enabled; inferflux backend rejected fallback runtime" ++ in_parens (FallbackReason v)
  else or_else (LoadError v) (bytes_of "backend candidate " ++ quoted candidate ++ bytes_of " failed to load model from path " ++ quoted (la_path a)).

(** The attempts on one backend object: the one that succeeded and the calls made, and
    the last failure. *)
Fixpoint run_attempts (sel : BackendFactoryResult) (candidate p : bytes) (cfg : LlamaBackendConfig) (b : handle)
    (calls : nat) (attempts : list LoadAttempt) (failure : bytes) : option (LoadAttempt * nat) * bytes :=
  match attempts with
  | [] => (None, failure)
  | a :: rest =>
      if negb (BackendSupportsModelFormat (platform h) sel (la_format a)) then
        run_attempts sel candidate p cfg b calls rest
          (bytes_of "backend candidate " ++ quoted candidate ++ bytes_of " does not support model format " ++ quoted (la_format a) ++
           bytes_of " for path " ++ quoted p ++ bytes_of ". Configure backend=mlx or provide a GGUF artifact.")
      else if load_ok ld b calls (la_path a) cfg then (Some (a, S calls), failure)
      else run_attempts sel candidate p cfg b (S calls) rest (attempt_failure sel candidate a (seen ld b (S calls)))
  end.

(** What a candidate that loaded leaves behind. *)
Record Chosen := mkChosen {
  c_candidate : bytes; c_selection : BackendFactoryResult; c_config : LlamaBackendConfig; c_backend : handle; c_calls : nat;
  c_attempt : LoadAttempt; c_native_fallback : bool; c_native_reason : bytes }.

(** A candidate is given up with a reason ([continue]), ends the load ([return]) or
    is taken ([break]). *)
Inductive Outcome := Skipped (why : bytes) | Refused (error : bytes) | Taken (c : Chosen).

(** An explicit device needs the llama.cpp backend of its vendor. *)
Definition placement_problem (placement_request : option bytes) (sel : BackendFactoryResult) : option bytes :=
  match placement_request with
  | None => None
  | Some d =>
      match ParseDeviceSelector d with
      | None => Some (bytes_of "placement_invalid: invalid runtime device ordinal")
      | Some s =>
          let expected := if named (vendor s) "cuda" then kCuda else kRocm in
          if negb (bool_decide (r_target sel = expected)) || used_fallback sel || negb (bool_decide (provider sel = kLlamaCpp))
          then Some (bytes_of "placement_unsupported: explicit device requires the matching llama_cpp CUDA or ROCm backend; native placement is not supported")
          else None
      end
  end.

Definition override_problem (s : ModelLoadSpec) (sel : BackendFactoryResult) : option bytes :=
  if bool_decide (provider sel = kNative) && (bool_decide (is_Some (spec_gpu_layers s)) || bool_decide (is_Some (kv_cache_type s)))
  then Some (bytes_of "placement_unsupported: native backend does not support llama offload or KV type overrides")
  else if opt_test (fun n => negb (n =? 0)%Z) (spec_gpu_layers s) && negb (gpu_accelerated (traits sel))
  then Some (bytes_of "placement_unsupported: GPU layer override requires a GPU backend")
  else None.

Definition config_problem (min_capacity : Z) (sel : BackendFactoryResult) (cfg : LlamaBackendConfig) : option bytes :=
  if negb (bool_decide (device cfg = [])) && negb (bool_decide (provider sel = kLlamaCpp))
  then Some (bytes_of "placement_unsupported: native backend does not support explicit device selection")
  else if (ctx_size cfg <? max_parallel_sequences cfg)%Z ||
          (kv_cache_type_explicit cfg && negb (named (llama_kv_cache_type cfg) "f16") && negb (use_flash_attention cfg))
  then Some (bytes_of "placement_invalid: context must cover sequences and quantized KV requires flash attention")
  else if (max_parallel_sequences cfg <? min_capacity)%Z
  then Some (bytes_of "placement_invalid: sequence capacity below running scheduler bound; restart with all model capacities configured")
  else None.

Definition candidate_config (r : Router) (s : ModelLoadSpec) (placement_request : option bytes) (sel : BackendFactoryResult) : LlamaBackendConfig :=
  let cfg := MergeBackendConfig (platform h) (Apply s (default_backend_config r)) sel in
  match placement_request with Some d => with_device d cfg | None => cfg end.

Definition strict_violation (candidate : bytes) (sel : BackendFactoryResult) (native_reason : bytes) : bytes :=
  bytes_of "backend policy violation: strict inferflux execution required for " ++ quoted candidate ++
  in_parens (or_else (bytes_of (fallback_reason sel)) native_reason).

(** One turn of the loop over the candidates. *)
Definition try_candidate (r : Router) (s : ModelLoadSpec) (fmt : bytes) (placement_request : option bytes)
    (b : handle) (candidate : bytes) : Outcome :=
  let sel := Create (platform h) (policy h) candidate in
  if bool_decide (backend sel = None) then
    Skipped (or_else (bytes_of (fallback_reason sel)) (bytes_of "backend candidate " ++ quoted candidate ++ bytes_of " was not available"))
  else match placement_problem placement_request sel with Some why => Skipped why | None =>
  match override_problem s sel with Some why => Skipped why | None =>
  let cfg := candidate_config r s placement_request sel in
  if bool_decide (is_Some (embedding_batch_size cfg)) && negb (bool_decide (provider sel = kLlamaCpp)) then
    Refused (bytes_of "embedding_batch_unsupported: select a llama_cpp backend")
  else match config_problem (minimum_sequence_capacity r) sel cfg with Some why => Skipped why | None =>
  match run_attempts sel candidate (spec_path s) cfg b 0 (load_attempts sel (spec_path s) fmt) [] with
  | (None, why) => Skipped why
  | (Some (a, calls), _) =>
      let v := seen ld b calls in
      let native_fallback := bool_decide (provider sel = kNative) && IsFallback v in
      let native_reason := if native_fallback then FallbackReason v else [] in
      if require_strict_inferflux_execution sel && (used_fallback sel || native_fallback)
      then Skipped (strict_violation candidate sel native_reason)
      else Taken (mkChosen candidate sel cfg b calls a native_fallback native_reason)
  end end end end.

(** The loop; each candidate has a backend object of its own. *)
Fixpoint try_candidates (r : Router) (s : ModelLoadSpec) (fmt : bytes) (placement_request : option bytes)
    (fresh : handle) (candidates : list bytes) (failure : bytes) : Outcome :=
  match candidates with
  | [] => Skipped failure
  | c :: rest =>
      match try_candidate r s fmt placement_request fresh c with
      | Skipped why => try_candidates r s fmt placement_request (S fresh) rest why
      | o => o
      end
  end.

(** The hint after the device has been taken into account. *)
Definition load_hint (s : ModelLoadSpec) : bytes :=
  let unset := bool_decide (spec_backend s = []) || named (spec_backend s) "auto" in
  match spec_device s with
  | Some d => if unset then match ParseDeviceSelector d with
                            | Some sel => bytes_of "llama_cpp_" ++ vendor sel
                            | None => spec_backend s
                            end
              else spec_backend s
  | None => spec_backend s
  end.

(** The device of the specification, or the configured ordinal of the hint's vendor. *)
Definition load_placement (r : Router) (s : ModelLoadSpec) (hint : bytes) : option bytes :=
  match spec_device s with
  | Some d => Some d
  | None =>
      let hint := if bool_decide (hint = []) || named hint "auto" then default_backend_hint r else hint in
      let cfg := default_backend_config r in
      match ParseLlamaBackendTarget hint with
      | kCuda => (fun n : Z => bytes_of "cuda:" ++ bytes_of (pretty n)) <$> cuda_device_id cfg
      | kRocm => (fun n : Z => bytes_of "rocm:" ++ bytes_of (pretty n)) <$> rocm_device_id cfg
      | _ => None
      end
  end.

Definition retired_error : bytes := bytes_of "model_conflict: retired ID cannot be reused; use a new ID to isolate cached sessions".
Definition duplicate_error : bytes :=
  bytes_of "model_conflict: duplicate ID or artifact; remove the existing model before changing its specification".

Definition conflicts (s : ModelLoadSpec) (ne : bytes * Entry) : bool :=
  (negb (bool_decide (spec_id s = [])) && bool_decide (spec_id s = ne.1)) ||
  bool_decide (path (info ne.2) = spec_path s) || equivalent h (path (info ne.2)) (spec_path s).

(** Validation, conflicts and the format: an error, or the normalized request and the
    resolved format. *)
Definition admit_load `{MapOrder} (r : Router) (s : ModelLoadSpec) : bytes + bytes * bytes :=
  match Validate s with
  | Some why => inl (bytes_of "placement_invalid: " ++ bytes_of why)
  | None =>
      if bool_decide (spec_id s ∈ retired_ids r) then inl retired_error
      else if existsb (conflicts s) (iter (models r)) then inl duplicate_error
      else
        let n := NormalizeModelFormat (spec_format s) in
        let n := if bool_decide (n = []) then (if bool_decide (spec_format s = []) then bytes_of "auto" else []) else n in
        if bool_decide (n = []) then
          inl (bytes_of "invalid model format " ++ quoted (spec_format s) ++ bytes_of " for path " ++ quoted (spec_path s))
        else
          let fmt := ResolveModelFormat (files h) (spec_path s) n in
          if named fmt "unknown" then inl (bytes_of "failed to resolve model format for path " ++ quoted (spec_path s))
          else inr (n, fmt)
  end.

(** The record of a model that has been loaded. *)
Definition loaded_info (r : Router) (s : ModelLoadSpec) (requested_fmt : bytes) (c : Chosen) : ModelInfo :=
  let sel := c_selection c in
  let v := seen ld (c_backend c) (c_calls c) in
  let lbl := bytes_of (backend_label sel) in
  let caps := BuildModelCapabilities (capabilities sel) (provider sel) (Some v) in
  mkInfo (EnsureUniqueIdLocked r (or_else (spec_id s) (stem (spec_path s)))) (spec_path s) (spec_path s) (la_path (c_attempt c))
    (la_format (c_attempt c)) requested_fmt lbl (or_else (c_candidate c) lbl) (bytes_of (ProviderLabel (provider sel)))
    (used_fallback sel || c_native_fallback c) (or_else (bytes_of (fallback_reason sel)) (c_native_reason c)) (IsReady v) caps
    (Placement v) (supports_structured_output caps) (IsMoE v) (ExpertCount v) (ActiveExperts v) (GetModelMetadata v).

(** The id of the new model, empty on failure. *)
Definition LoadModel `{MapOrder} (fresh : handle) (s : ModelLoadSpec) (r : Router) : bytes * Router :=
  let hint := load_hint s in
  let r := set_error [] r in
  match admit_load r s with
  | inl error => ([], set_error error r)
  | inr (requested_fmt, fmt) =>
      let candidates := MaybePrependMlxCandidate h (BuildBackendCandidates h r hint) hint fmt in
      match try_candidates r s fmt (load_placement r s hint) fresh candidates [] with
      | Refused error => ([], set_error error r)
      | Skipped why => ([], set_error (or_else why (bytes_of "model load failed")) r)
      | Taken c =>
          let i := loaded_info r s requested_fmt c in
          (id i, add_entry (make_default s) (mkEntry i (Some (c_backend c))) r)
      end
  end.

(** [LoadModel(path, backend_hint, requested_id, model_format)] *)
Definition plain_spec (p hint requested_id fmt : bytes) : ModelLoadSpec := mkSpec requested_id p fmt hint false None None None None None None.
End Load.

(** ** Fresh ids *)

Lemma bytes_of_inj s t : bytes_of s = bytes_of t -> s = t.
Proof.
  unfold bytes_of. intros E%(f_equal String.string_of_list_ascii). by rewrite !String.string_of_list_ascii_of_string in E.
Qed.

Lemma suffixed_inj base n m : suffixed base n = suffixed base m -> n = m.
Proof. unfold suffixed. intros [= E]%app_inv_head. apply bytes_of_inj in E. by apply (inj pretty). Qed.

Lemma suffixed_not_base base n : suffixed base n <> base.
Proof. unfold suffixed. intros E. apply (f_equal length) in E. rewrite length_app in E. cbn in E. lia. Qed.

(** The loop ends on a taken id only when it has gone through taken ids alone. *)
Lemma unique_loop_taken r base n fuel :
  taken r (unique_loop r base n fuel) = true -> forall i, n <= i <= n + fuel -> taken r (suffixed base i) = true.
Proof.
  revert n. induction fuel as [|fuel IH]; intros n; cbn [unique_loop]; intros H i Hi.
  - by replace i with n by lia.
  - destruct (taken r (suffixed base n)) eqn:E; [|congruence].
    destruct (decide (i = n)) as [->|]; [done|]. apply (IH (S n)); [done|lia].
Qed.

Lemma taken_spec r n : taken r n = true <-> n ∈ dom (models r) ∪ retired_ids r.
Proof. unfold taken. rewrite orb_true_iff, !bool_decide_eq_true, elem_of_union, elem_of_dom. done. Qed.

Lemma or_else_nonempty a b : b <> [] -> or_else a b <> [].
Proof. by destruct a. Qed.

Lemma ensure_unique_free r preferred : taken r (EnsureUniqueIdLocked r preferred) = false.
Proof.
  unfold EnsureUniqueIdLocked. set (base := or_else preferred (bytes_of "model")).
  destruct (taken r base) eqn:E; [|done]. apply not_true_is_false. intros Ht.
  pose proof (unique_loop_taken _ _ _ _ Ht) as Hall.
  assert (Hnd : NoDup (suffixed base <$> seq 1 (S (id_fuel r)))) by (apply NoDup_fmap_2_strong; [by intros ? ? _ _ ?%suffixed_inj|apply NoDup_seq]).
  assert (Hsub : list_to_set (suffixed base <$> seq 1 (S (id_fuel r))) ⊆ dom (models r) ∪ retired_ids r).
  { intros x (i & -> & Hi)%elem_of_list_to_set%list_elem_of_fmap. apply elem_of_seq in Hi. apply taken_spec, Hall. lia. }
  apply subseteq_size in Hsub. rewrite size_list_to_set, length_fmap, length_seq in Hsub by done.
  pose proof (size_union_alt (dom (models r)) (retired_ids r)) as Hu. rewrite Hu in Hsub.
  pose proof (subseteq_size (retired_ids r ∖ dom (models r)) (retired_ids r) ltac:(set_solver)) as Hd.
  rewrite size_dom in Hsub. unfold id_fuel in Hsub. lia.
Qed.

Lemma ensure_unique_nonempty r preferred : EnsureUniqueIdLocked r preferred <> [].
Proof.
  unfold EnsureUniqueIdLocked. pose proof (or_else_nonempty preferred (bytes_of "model") ltac:(done)) as Hb.
  set (base := or_else _ _) in *. assert (Hs : forall n, suffixed base n <> []) by (intros n; unfold suffixed; by destruct base).
  destruct (taken r base); [|done]. generalize 1.
  induction (id_fuel r) as [|f IH]; intros n; cbn [unique_loop]; [apply Hs|]. case_match; [apply IH|apply Hs].
Qed.

(** The search for an unused id ends: whatever ids are loaded or retired, the id
    it returns is neither, is not empty, and is the preferred one when that is free. *)
Theorem unique_id_fresh (r : Router) (preferred : bytes) :
  taken r (EnsureUniqueIdLocked r preferred) = false /\ EnsureUniqueIdLocked r preferred <> [] /\
  (preferred <> [] /\ taken r preferred = false -> EnsureUniqueIdLocked r preferred = preferred).
Proof.
  split_and!; [apply ensure_unique_free|apply ensure_unique_nonempty|]. intros [Hp Hf]. unfold EnsureUniqueIdLocked.
  assert (or_else preferred (bytes_of "model") = preferred) as -> by (by destruct preferred). by rewrite Hf.
Qed.

(** ** The router's invariant *)

(** Every entry is filed under its own, non-empty id with a backend, no loaded id is
    retired, and there is a default model exactly when a model is loaded. *)
Definition entry_ok (r : Router) (n : bytes) (e : Entry) : Prop :=
  id (info e) = n /\ n <> [] /\ is_Some (e_backend e) /\ n ∉ retired_ids r.

Record router_ok (r : Router) : Prop := {
  ok_entries : map_Forall (entry_ok r) (models r);
  ok_default : (models r = ∅ /\ default_model_id r = []) \/ is_Some (models r !! default_model_id r) }.

Lemma default_nonempty r : router_ok r -> models r <> ∅ -> default_model_id r <> [].
Proof. intros [He [[? _]|[e Hd]]] Hm; [done|]. by destruct (He _ _ Hd) as (_ & ? & _). Qed.

Lemma set_error_ok e r : router_ok r -> router_ok (set_error e r).
Proof. intros []. by constructor. Qed.

Lemma set_capacity_ok c r : router_ok r -> router_ok (set_capacity c r).
Proof. intros []. by constructor. Qed.

Lemma add_entry_ok mk e r :
  router_ok r -> id (info e) <> [] -> taken r (id (info e)) = false -> is_Some (e_backend e) -> router_ok (add_entry mk e r).
Proof.
  intros [He Hd] Hn Ht Hb. assert (Hret : id (info e) ∉ retired_ids r) by (intros ?; rewrite (proj2 (taken_spec r _)) in Ht by set_solver; done).
  unfold add_entry. cbn. constructor.
  - intros n x Hx. assert (Hx' : (<[id (info e) := e]> (models r)) !! n = Some x) by (by destruct (bool_decide _ || mk)).
    enough (entry_ok r n x) as (? & ? & ? & ?) by (unfold entry_ok; by destruct (bool_decide _ || mk)).
    apply lookup_insert_Some in Hx' as [[<- <-]|[_ Hx']]; [done|by apply He].
  - right. destruct (bool_decide_reflect (default_model_id r = [])) as [Hz|Hz]; cbn; [by rewrite lookup_insert_eq|].
    destruct mk; cbn; [by rewrite lookup_insert_eq|]. destruct Hd as [[_ ?]|Hd]; [done|].
    rewrite lookup_insert_is_Some'. by right.
Qed.

Lemma found_ok view n e r : router_ok r -> models r !! n = Some e -> router_ok (found view n e r).2.
Proof.
  intros [He Hd] Hn. cbn. constructor; cbn.
  - intros m x [[<- <-]|[_ Hx]]%lookup_insert_Some; [|by apply He]. by destruct (He _ _ Hn) as (? & ? & ? & ?).
  - right. rewrite lookup_insert_is_Some'. destruct Hd as [[Hm _]|Hd]; [|by right]. by rewrite Hm, lookup_empty in Hn.
Qed.

Lemma update_default_ok `{MapOrder} r :
  map_Forall (entry_ok r) (models r) -> default_model_id r = [] -> router_ok (UpdateDefaultModelLocked r).
Proof.
  intros He Hd. unfold UpdateDefaultModelLocked. rewrite Hd. cbn. pose proof (iter_perm (models r)) as Hp.
  destruct (iter (models r)) as [|[n e] l].
  - constructor; [done|left]. split; [|done]. apply map_to_list_empty_iff, Permutation_nil_r. by symmetry.
  - constructor; [done|right]. cbn. exists e. apply elem_of_map_to_list. rewrite <- Hp. left.
Qed.

Lemma registered_id_fresh h r i v :
  taken r (id (registered_info h r i v)) = false /\ id (registered_info h r i v) <> [].
Proof. cbn. destruct (id i); split; first [apply ensure_unique_free|apply ensure_unique_nonempty]. Qed.

Lemma RegisterModel_ok h view i b r : router_ok r -> router_ok (RegisterModel h view i b r).2.
Proof.
  intros Hok. unfold RegisterModel. destruct b as [b|]; [|done]. case_match; [done|]. cbv zeta.
  case_match; [by apply set_error_ok|]. case_match; [by apply set_error_ok|].
  destruct (registered_id_fresh h r i (view b)) as [? ?].
  apply add_entry_ok; auto.
Qed.

Lemma UnloadModel_ok `{MapOrder} view n r : router_ok r -> router_ok (UnloadModel view n r).2.
Proof.
  intros [He Hd]. unfold UnloadModel. destruct (models r !! n) as [e|] eqn:En; [|by constructor].
  case_match; [by constructor|]. cbn -[UpdateDefaultModelLocked].
  assert (He' : forall m x, delete n (models r) !! m = Some x -> id (info x) = m /\ m <> [] /\ is_Some (e_backend x) /\ m ∉ {[n]} ∪ retired_ids r).
  { intros m x [Hm Hx]%lookup_delete_Some. destruct (He _ _ Hx) as (? & ? & ? & ?). split_and!; auto. set_solver. }
  case_bool_decide as Hdn; [by apply update_default_ok|]. constructor; [done|]. cbn. right.
  destruct Hd as [[Hm _]|Hd]; [by rewrite Hm, lookup_empty in En|]. rewrite lookup_delete_ne by done. done.
Qed.

Lemma LoadModel_ok `{MapOrder} h ld fresh s r : router_ok r -> router_ok (LoadModel h ld fresh s r).2.
Proof.
  intros Hok. apply (set_error_ok []) in Hok. unfold LoadModel. cbv zeta. destruct (admit_load _ _ _) as [|[f g]]; [by apply set_error_ok|].
  destruct (try_candidates _ _ _ _ _ _ _ _) as [| |c]; [by apply set_error_ok|by apply set_error_ok|]. cbn.
  apply add_entry_ok; auto; cbn; [apply ensure_unique_nonempty|apply ensure_unique_free].
Qed.

Lemma Resolve_ok view n r : router_ok r -> router_ok (Resolve view n r).2.
Proof. intros Hok. unfold Resolve. repeat case_match; auto; by apply found_ok. Qed.

Lemma ResolveExact_ok view n r : router_ok r -> router_ok (ResolveExact view n r).2.
Proof. intros Hok. unfold ResolveExact. repeat case_match; auto; by apply found_ok. Qed.

Lemma SetDefaultModel_ok n r : router_ok r -> router_ok (SetDefaultModel n r).2.
Proof. intros [He Hd]. unfold SetDefaultModel. destruct (models r !! n) eqn:E; [|done]. constructor; [done|]. right. cbn. by rewrite E. Qed.

#[export] Hint Resolve set_capacity_ok RegisterModel_ok LoadModel_ok UnloadModel_ok Resolve_ok ResolveExact_ok SetDefaultModel_ok : router.

(** ** Histories *)

(** A call on the router, with what the rest of the program answers during it. *)
Inductive router_step `{MapOrder} : Router -> Router -> Prop :=
  | step_register h view i b r : router_step r (RegisterModel h view i b r).2
  | step_load h ld fresh s r : router_step r (LoadModel h ld fresh s r).2
  | step_unload view n r : router_step r (UnloadModel view n r).2
  | step_resolve view n r : router_step r (Resolve view n r).2
  | step_exact view n r : router_step r (ResolveExact view n r).2
  | step_set_default n r : router_step r (SetDefaultModel n r).2
  | step_capacity c r : router_step r (SetMinimumSequenceCapacity c r).

Lemma router_step_ok `{MapOrder} r r' : router_step r r' -> router_ok r -> router_ok r'.
Proof. destruct 1; unfold SetMinimumSequenceCapacity; auto with router. Qed.

Lemma router_steps_ok `{MapOrder} r r' : rtc router_step r r' -> router_ok r -> router_ok r'.
Proof. induction 1; eauto using router_step_ok. Qed.

Lemma empty_router_ok : router_ok empty_router.
Proof. constructor; [apply map_Forall_empty|by left]. Qed.

Lemma configured_router_ok h config hint priority : router_ok (configured_router h config hint priority).
Proof. constructor; [apply map_Forall_empty|by left]. Qed.

(** The backend filed under an id. *)
Definition owner (r : Router) (n : bytes) : option (option handle) := e_backend <$> models r !! n.

(** What a step may do to the ids: a loaded id keeps its backend or is retired, and a
    retired id stays so. *)
Definition ids_kept (r r' : Router) : Prop :=
  retired_ids r ⊆ retired_ids r' /\
  (forall n b, owner r n = Some b -> owner r' n = Some b \/ n ∈ retired_ids r').

Lemma ids_kept_refl r : ids_kept r r.
Proof. split; auto. Qed.

Lemma add_entry_kept mk e r : taken r (id (info e)) = false -> ids_kept r (add_entry mk e r).
Proof.
  intros Ht. assert (Hn : models r !! id (info e) = None).
  { apply eq_None_not_Some. intros Hs. apply orb_false_iff in Ht as [Ht _]. by rewrite bool_decide_eq_true_2 in Ht. }
  unfold add_entry, ids_kept, owner. cbn. split.
  - by destruct (bool_decide _ || mk).
  - intros n b Hb. left. destruct (bool_decide _ || mk); cbn; (rewrite lookup_insert_ne; [done|intros <-; by rewrite Hn in Hb]).
Qed.

Lemma found_kept view n e r : models r !! n = Some e -> ids_kept r (found view n e r).2.
Proof.
  intros Hn. split; [done|]. intros m b Hb. left. unfold owner in *. cbn. destruct (decide (n = m)) as [<-|Hm].
  - rewrite lookup_insert_eq. by rewrite Hn in Hb.
  - by rewrite lookup_insert_ne.
Qed.

Lemma unload_kept `{MapOrder} view n r : ids_kept r (UnloadModel view n r).2.
Proof.
  unfold UnloadModel. destruct (models r !! n) as [e|] eqn:En; [|apply ids_kept_refl]. case_match; [apply ids_kept_refl|].
  cbv zeta. set (r1 := set_models _ _). assert (Hk : ids_kept r r1).
  { split; [cbn; set_solver|]. intros m b Hb. unfold owner in *. cbn. destruct (decide (n = m)) as [<-|]; [right; set_solver|].
    left. by rewrite lookup_delete_ne. }
  cbn [snd]. destruct (bool_decide (default_model_id r1 = n)); [|exact Hk]. unfold UpdateDefaultModelLocked. destruct (negb _); [exact Hk|]. destruct (iter _) as [|[]]; exact Hk.
Qed.

Lemma router_step_kept `{MapOrder} r r' : router_step r r' -> ids_kept r r'.
Proof.
  destruct 1 as [h view i b r|h ld fresh s r|view n r|view n r|view n r|n r|c r].
  - unfold RegisterModel. destruct b; [|exact (ids_kept_refl r)]. repeat case_match; try exact (ids_kept_refl r).
    apply add_entry_kept. apply registered_id_fresh.
  - unfold LoadModel. cbv zeta. destruct (admit_load _ _ _) as [|[f g]]; [exact (ids_kept_refl r)|].
    destruct (try_candidates _ _ _ _ _ _ _ _) as [| |c]; [exact (ids_kept_refl r)|exact (ids_kept_refl r)|].
    apply (add_entry_kept _ _ (set_error [] r)). cbn. apply ensure_unique_free.
  - apply unload_kept.
  - unfold Resolve. repeat case_match; try exact (ids_kept_refl r); by apply found_kept.
  - unfold ResolveExact. repeat case_match; try exact (ids_kept_refl r); by apply found_kept.
  - unfold SetDefaultModel. case_match; exact (ids_kept_refl r).
  - exact (ids_kept_refl r).
Qed.

(** C11: in every state the router can reach, each model is filed under its own id with
    a backend, no loaded id is a retired one, and there is a default model, which is
    loaded, exactly when some model is.  Through every later history an id that is
    loaded in both states names the same backend, and a retired id is never loaded
    again. *)
Theorem router_history_safe `{MapOrder} (h : Host) (config : LlamaBackendConfig) (hint : bytes) (priority : list bytes) (r r' : Router) :
  rtc router_step (configured_router h config hint priority) r -> rtc router_step r r' ->
  router_ok r /\
  (models r <> ∅ <-> is_Some (models r !! default_model_id r)) /\
  (forall n b b', owner r n = Some b -> owner r' n = Some b' -> b = b') /\
  (forall n, n ∈ retired_ids r -> owner r' n = None).
Proof.
  intros Hr Hr'. pose proof (router_steps_ok _ _ Hr (configured_router_ok _ _ _ _)) as Hok.
  pose proof (router_steps_ok _ _ Hr' Hok) as Hok'.
  assert (Hk : ids_kept r r').
  { clear -Hr'. induction Hr' as [r|r1 r2 r3 H1 _ [IHr IHo]]; [apply ids_kept_refl|].
    destruct (router_step_kept _ _ H1) as [Hs Ho]. split; [set_solver|]. intros n b Hb. destruct (Ho _ _ Hb) as [Hb2|Hret]; [auto|].
    right. set_solver. }
  assert (Hdead : forall n, n ∈ retired_ids r' -> owner r' n = None).
  { intros n Hn. unfold owner. destruct (models r' !! n) as [e|] eqn:E; [|done]. by destruct (ok_entries _ Hok' _ _ E) as (_ & _ & _ & ?). }
  destruct Hk as [Hs Ho]. split_and!; auto.
  - split; [intros Hm|intros [e He] Hm; by rewrite Hm, lookup_empty in He]. by destruct (ok_default _ Hok) as [[? _]|?].
  - intros n b b' Hb Hb'. destruct (Ho _ _ Hb) as [Hc|Hret]; [congruence|]. by rewrite Hdead in Hb'.
Qed.

(** ** What a load admits *)

Lemma run_attempts_Some h ld sel cand p cfg b calls attempts failure a k why :
  run_attempts h ld sel cand p cfg b calls attempts failure = (Some (a, S k), why) ->
  a ∈ attempts /\ BackendSupportsModelFormat (platform h) sel (la_format a) = true /\ load_ok ld b k (la_path a) cfg = true.
Proof.
  revert calls failure. induction attempts as [|x rest IH]; intros calls failure; cbn [run_attempts]; [done|].
  destruct (BackendSupportsModelFormat _ _ (la_format x)) eqn:Es; cbn [negb].
  - destruct (load_ok ld b calls (la_path x) cfg) eqn:El; [intros Heq; simplify_eq; split_and!; [left|done|done]|].
    intros (? & ? & ?)%IH. split_and!; [by right|done|done].
  - intros (? & ? & ?)%IH. split_and!; [by right|done|done].
Qed.

Lemma run_attempts_calls h ld sel cand p cfg b calls attempts failure a k why :
  run_attempts h ld sel cand p cfg b calls attempts failure = (Some (a, k), why) -> exists k', k = S k'.
Proof.
  revert calls failure. induction attempts as [|x rest IH]; intros calls failure; cbn [run_attempts]; [done|].
  repeat case_match; [eauto| |eauto]. intros Heq. simplify_eq. eauto.
Qed.

(** What holds of a candidate that is taken. *)
Definition admitted (h : Host) (ld : Loader) (r : Router) (s : ModelLoadSpec) (fmt : bytes) (request : option bytes) (c : Chosen) : Prop :=
  let sel := c_selection c in let cfg := c_config c in
  sel = Create (platform h) (policy h) (c_candidate c) /\ backend sel <> None /\
  (forall d, request = Some d -> provider sel = kLlamaCpp /\ used_fallback sel = false /\ device cfg = d /\
     exists v, ParseDeviceSelector d = Some v /\ r_target sel = if named (vendor v) "cuda" then kCuda else kRocm) /\
  (max_parallel_sequences cfg <= ctx_size cfg)%Z /\ (minimum_sequence_capacity r <= max_parallel_sequences cfg)%Z /\
  (require_strict_inferflux_execution sel = true -> used_fallback sel = false /\ c_native_fallback c = false) /\
  c_attempt c ∈ load_attempts h sel (spec_path s) fmt /\
  BackendSupportsModelFormat (platform h) sel (la_format (c_attempt c)) = true /\
  exists k, c_calls c = S k /\ load_ok ld (c_backend c) k (la_path (c_attempt c)) cfg = true.

Lemma placement_ok request sel d :
  placement_problem request sel = None -> request = Some d ->
  provider sel = kLlamaCpp /\ used_fallback sel = false /\
  exists v, ParseDeviceSelector d = Some v /\ r_target sel = if named (vendor v) "cuda" then kCuda else kRocm.
Proof.
  intros Hp ->. cbn [placement_problem] in Hp. destruct (ParseDeviceSelector d) as [v|]; [|done].
  cbv zeta in Hp. destruct (negb (bool_decide (r_target sel = _)) || _ || _) eqn:E; [done|].
  apply orb_false_iff in E as [[E3 E4]%orb_false_iff E5]. apply negb_false_iff, bool_decide_eq_true in E3, E5. eauto.
Qed.

Lemma config_ok minimum sel cfg :
  config_problem minimum sel cfg = None -> (max_parallel_sequences cfg <= ctx_size cfg)%Z /\ (minimum <= max_parallel_sequences cfg)%Z.
Proof.
  unfold config_problem. case_match; [done|]. case_match eqn:E; [done|]. case_match eqn:E2; [done|]. intros _.
  apply orb_false_iff in E as [?%Z.ltb_ge _]. apply Z.ltb_ge in E2. done.
Qed.

Lemma try_candidate_Taken h ld r s fmt request b cand c :
  try_candidate h ld r s fmt request b cand = Taken c -> admitted h ld r s fmt request c.
Proof.
  unfold try_candidate. cbv zeta. set (sel := Create _ _ _). destruct (bool_decide_reflect (backend sel = None)) as [|Hb]; [done|].
  destruct (placement_problem request sel) eqn:Hp; [done|]. destruct (override_problem s sel); [done|].
  case_match; [done|]. destruct (config_problem _ sel _) eqn:Hc; [done|]. apply config_ok in Hc as [Hc1 Hc2].
  destruct (run_attempts _ _ _ _ _ _ _ _ _ _) as [[[a k]|] why] eqn:Hr; [|done].
  destruct (run_attempts_calls _ _ _ _ _ _ _ _ _ _ _ _ _ Hr) as [k' ->]. apply run_attempts_Some in Hr as (Ha & Hf & Hl).
  destruct (require_strict_inferflux_execution sel && _) eqn:Hs; [done|]. intros [= <-].
  unfold admitted. cbn. fold sel. split_and!; auto.
  - intros d Hd. destruct (placement_ok _ _ _ Hp Hd) as (? & ? & ?). split_and!; auto. unfold candidate_config. by rewrite Hd.
  - intros Hst. rewrite Hst in Hs. cbn in Hs. by apply orb_false_iff in Hs.
  - eauto.
Qed.

Lemma try_candidates_Taken h ld r s fmt request fresh l failure c :
  try_candidates h ld r s fmt request fresh l failure = Taken c -> admitted h ld r s fmt request c.
Proof.
  revert fresh failure. induction l as [|x l IH]; intros fresh failure; cbn [try_candidates]; [done|].
  destruct (try_candidate _ _ _ _ _ _ _ _) eqn:E; [apply IH|done|]. intros [= <-]. by eapply try_candidate_Taken.
Qed.

Lemma try_candidate_Refused h ld r s fmt request b cand e : try_candidate h ld r s fmt request b cand = Refused e -> e <> [].
Proof. unfold try_candidate. cbv zeta. repeat case_match; try done. by intros [= <-]. Qed.

Lemma try_candidates_Refused h ld r s fmt request fresh l failure e :
  try_candidates h ld r s fmt request fresh l failure = Refused e -> e <> [].
Proof.
  revert fresh failure. induction l as [|x l IH]; intros fresh failure; cbn [try_candidates]; [done|].
  destruct (try_candidate _ _ _ _ _ _ _ _) eqn:E; [apply IH| |done]. intros [= <-]. by eapply try_candidate_Refused.
Qed.

Lemma admit_load_errors `{MapOrder} h r s e : admit_load h r s = inl e -> e <> [].
Proof. unfold admit_load. cbv zeta. repeat case_match; intros [= <-]; done. Qed.

Lemma admit_load_inr `{MapOrder} h r s f g :
  admit_load h r s = inr (f, g) ->
  Validate s = None /\ spec_id s ∉ retired_ids r /\ map_Forall (fun n e => conflicts h s (n, e) = false) (models r) /\
  g = ResolveModelFormat (files h) (spec_path s) f.
Proof.
  unfold admit_load. cbv zeta. destruct (Validate s); [done|]. case_bool_decide; [done|]. destruct (existsb _ _) eqn:Ex; [done|].
  set (n0 := if bool_decide (NormalizeModelFormat _ = []) then _ else _). destruct (bool_decide (n0 = [])); [done|].
  destruct (named _ "unknown"); [done|]. intros [= <- <-]. split_and!; auto. intros n e He.
  apply not_true_is_false. intros Hc. enough (existsb (conflicts h s) (iter (models r)) = true) by congruence.
  apply existsb_exists. exists (n, e). split; [|done]. apply list_elem_of_In. rewrite (iter_perm (models r)). by apply elem_of_map_to_list.
Qed.

(** A load that fails leaves the models, the default and the retired ids as they
    were and says why; a load that succeeds stores one new model under a fresh id, for a
    valid specification whose id and artifact no loaded model has, on a backend that
    accepted the artifact, with room for the scheduler's slots, on the requested device
    if there is one, and without a fallback under a strict policy. *)
Theorem load_admission `{MapOrder} (h : Host) (ld : Loader) (fresh : handle) (s : ModelLoadSpec) (r : Router) :
  let '(n, r') := LoadModel h ld fresh s r in
  (n = [] -> models r' = models r /\ default_model_id r' = default_model_id r /\ retired_ids r' = retired_ids r /\ last_load_error r' <> []) /\
  (n <> [] ->
     Validate s = None /\ spec_id s ∉ retired_ids r /\ map_Forall (fun m e => conflicts h s (m, e) = false) (models r) /\ taken r n = false /\
     exists c e, admitted h ld (set_error [] r) s (ResolveModelFormat (files h) (spec_path s) (requested_format (info e)))
                   (load_placement r s (load_hint s)) c /\
       models r' = <[ n := e ]> (models r) /\ id (info e) = n /\ e_backend e = Some (c_backend c) /\
       (default_model_id r = [] \/ make_default s = true -> default_model_id r' = n)).
Proof.
  unfold LoadModel. cbv zeta. destruct (admit_load _ _ _) as [e|[f g]] eqn:Ha.
  { split; [|done]. intros _. split_and!; auto. by eapply admit_load_errors. }
  destruct (admit_load_inr _ _ _ _ _ Ha) as (Hv & Hret & Hc & ->).
  destruct (try_candidates _ _ _ _ _ _ _ _) as [why|e|c] eqn:Ht.
  - split; [|done]. intros _. split_and!; auto. cbn. by apply or_else_nonempty.
  - split; [|done]. intros _. split_and!; auto. by eapply try_candidates_Refused.
  - set (i := loaded_info _ _ _ _ _). assert (Hi : id i <> []) by apply ensure_unique_nonempty. split; [done|]. intros _.
    split_and!; auto; [apply (ensure_unique_free (set_error [] r))|]. exists c, (mkEntry i (Some (c_backend c))). split_and!; auto.
    + by eapply try_candidates_Taken.
    + unfold add_entry. cbn. by destruct (bool_decide _ || _).
    + unfold add_entry. cbn. intros [Hd|Hd]; rewrite Hd; cbn; [done|]. by rewrite orb_true_r.
Qed.

(** ** Examples *)

#[export] Instance key_order : MapOrder.
Proof. exists map_to_list. done. Defined.

(** A machine with a CUDA build of llama.cpp; under [cpu_only_loader] its device is full
    and the first two backends of a load, which are CUDA ones, fail. *)
Definition no_files : FileSystem := mkFs (fun _ => NoStatus) (fun _ => None).
Definition cuda_build : Platform := mkPlatform true false false (fun t p => bool_decide (t = kCuda) && bool_decide (p = kLlamaCpp)) (fun _ _ => true) false.
Definition plain_host : Host :=
  mkHost cuda_build false false default_policy no_files (fun a b => bool_decide (a = b)) None (Some (bytes_of "/home/u")) (bytes_of "/").

Definition idle_view : BackendView :=
  mkView true 0 default_caps false (bytes_of "llama_cpp") false 0 0 false [] [] no_placement no_metadata 1.
Definition open_loader : Loader := mkLoader (fun _ _ _ _ => true) (fun _ _ => idle_view).
Definition cpu_only_loader : Loader := mkLoader (fun b _ _ _ => 2 <=? b) (fun _ _ => idle_view).

Definition cpu_spec (p : string) : ModelLoadSpec := plain_spec (bytes_of p) (bytes_of "cpu") [] (bytes_of "auto").

Definition demo0 : Router := configured_router plain_host default_config [] [].
Definition demo1 : Router := (LoadModel plain_host open_loader 0 (cpu_spec "/m/a.gguf") demo0).2.
Definition demo2 : Router := (UnloadModel (fun _ => idle_view) (bytes_of "a") demo1).2.
Definition demo3 : Router := (LoadModel plain_host open_loader 1 (cpu_spec "/m/a.gguf") demo2).2.

(** A model that is loaded again after an unload gets another id. *)
Lemma router_history_safe_witness :
  owner demo1 (bytes_of "a") = Some (Some 0) /\ owner demo3 (bytes_of "a-1") = Some (Some 1) /\
  router_ok demo2 /\ owner demo3 (bytes_of "a") = None.
Proof.
  assert (H2 : rtc router_step demo0 demo2) by (eapply rtc_l; [apply step_load|]; apply rtc_once, step_unload).
  assert (H3 : rtc router_step demo2 demo3) by (apply rtc_once, step_load).
  destruct (router_history_safe plain_host default_config [] [] demo2 demo3 H2 H3) as (Hok & _ & _ & Hret).
  split; [vm_compute; reflexivity|]. split; [vm_compute; reflexivity|]. split; [done|].
  apply Hret. apply (bool_decide_unpack _). vm_compute. exact I.
Defined.

(** A build without MLX still tries "mlx" for a CUDA request, since the macro that
    guards it is defined as 0; when CUDA cannot load, the model runs on the CPU with
    "mlx" as its requested backend and no fallback reported. *)
Example cuda_request_reported_as_mlx :
  let '(n, r) := LoadModel plain_host cpu_only_loader 0 (plain_spec (bytes_of "/m/a.gguf") (bytes_of "cuda") [] (bytes_of "gguf")) demo0 in
  has_mlx (platform plain_host) = false /\ n = bytes_of "a" /\
  (fun e => (requested_backend (info e), m_backend (info e), backend_fallback (info e))) <$> models r !! n =
    Some (bytes_of "mlx", bytes_of "llama_cpp_cpu", false).
Proof. vm_compute. repeat split; reflexivity. Qed.
