(* ===== verification/ModelSelection.v ===== *)
(** * Model selection (scheduler/model_selection.cpp)

    Which model serves a request: the one asked for, or the default one with a
    fallback to another loaded model when it lacks a capability or its backend is not
    ready.  The code is written against the resolver interface of
    scheduler/model_router.h, and so are its theorems; the router of [ModelRouter]
    implements the interface. *)

From stdpp Require Import base tactics numbers list strings pretty gmap sets relations.
From Stdlib Require Import Ascii.
From S2P Require Import Prelude StringUtils Backends ModelFormat ModelRouter.

(** ** The interface *)

(** [ModelResolver]: [Resolve] and [ResolveExact] refresh the readiness they report. *)
Class ModelResolver (St : Type) := {
  list_models : St -> list ModelInfo;
  resolve : bytes -> St -> option ModelInfo * St;
  resolve_exact : bytes -> St -> option ModelInfo * St;
  get_backend : bytes -> St -> option handle }.

(** What a caller relies on, in the states [wf]. *)
Class ResolverLaws (St : Type) `{ModelResolver St} (wf : St -> Prop) := {
  resolve_exact_id s n i s' : wf s -> resolve_exact n s = (Some i, s') -> id i = n;
  resolve_exact_wf s n : wf s -> wf (resolve_exact n s).2;
  resolve_wf s n : wf s -> wf (resolve n s).2;
  listed_ids s : wf s -> NoDup (id <$> list_models s) }.

(** ** Data *)

Inductive ModelSelectionStatus := kSelected | kNotFound | kUnsupported | kBackendUnavailable.
Inductive CapabilityFallbackScope := kAnyCompatible | kSamePathOnly.

#[export] Instance ModelSelectionStatus_eq_dec : EqDecision ModelSelectionStatus.
Proof. solve_decision. Defined.
#[export] Instance CapabilityFallbackScope_eq_dec : EqDecision CapabilityFallbackScope.
Proof. solve_decision. Defined.

Record ModelSelectionOptions := mkOptions {
  allow_capability_fallback_for_default : bool; require_ready_backend : bool; capability_fallback_scope : CapabilityFallbackScope }.

Record ModelSelectionResult := mkResult {
  s_status : ModelSelectionStatus; s_info : ModelInfo; s_backend : option handle; s_used_fallback : bool;
  fallback_from_backend : bytes; fallback_feature : string; s_missing_feature : string; s_reason : string }.

Definition no_info : ModelInfo :=
  mkInfo [] [] [] [] (bytes_of "unknown") (bytes_of "auto") [] [] (bytes_of "llama_cpp") false [] false default_caps no_placement false
    false 0 0 no_metadata.

(** A result that selects nothing. *)
Definition failure (st : ModelSelectionStatus) (i : ModelInfo) (missing why : string) : ModelSelectionResult :=
  mkResult st i None false [] "" missing why.

Definition CapabilityFallbackScopeToString (scope : CapabilityFallbackScope) : string :=
  match scope with kSamePathOnly => "same_path_only" | kAnyCompatible => "any_compatible" end.

Definition IsCapabilityFallbackScopeValue (value : bytes) : bool :=
  one_of (ToLower value) ["same_path"; "same_path_only"; "any"; "any_compatible"].

Definition ParseCapabilityFallbackScope (value : bytes) (default_scope : CapabilityFallbackScope) : CapabilityFallbackScope :=
  let n := ToLower value in
  if one_of n ["same_path"; "same_path_only"] then kSamePathOnly
  else if one_of n ["any"; "any_compatible"] then kAnyCompatible
  else default_scope.

(** ** Operations *)

Definition IsDefaultModelAlias (value : bytes) : bool := named (ToLower value) "default".

Definition EffectiveCapabilities (i : ModelInfo) : BackendCapabilities :=
  let c := m_capabilities i in
  if m_structured_output i then c
  else mkCaps (supports_generation c) (supports_streaming c) (supports_logprobs c) false (supports_embeddings c) (supports_vision c)
         (supports_speculative_decoding c) (supports_fairness_preemption c) (supports_kv_prefix_transfer c).

Definition BackendPreferenceRank (backend_label : bytes) : Z :=
  let l := ToLower backend_label in
  if named l "cuda" then 0 else if named l "rocm" then 1 else if named l "mps" then 2 else if named l "mlx" then 3
  else if named l "vulkan" then 4 else if named l "cpu" then 5 else 6.

(** The key by which candidates compete, and the order of tuples. *)
Abbreviation key := (Z * Z * bytes)%type.

Definition candidate_key (i : ModelInfo) : key := (BackendPreferenceRank (m_backend i), (if backend_fallback i then 1 else 0)%Z, id i).

Definition key_ltb (a b : key) : bool :=
  let '(a1, a2, a3) := a in let '(b1, b2, b3) := b in
  (a1 <? b1)%Z || ((a1 =? b1)%Z && ((a2 <? b2)%Z || ((a2 =? b2)%Z && bytes_ltb a3 b3))).

Section Selection.
Context {St : Type} `{ModelResolver St} (is_ready : handle -> bool).

Definition backend_ready (b : option handle) : bool := match b with Some b => is_ready b | None => false end.

(** The conditions under which the loop does not [continue]. *)
Definition eligible (s : St) (primary : ModelInfo) (needs : BackendFeatureRequirements) (scope : CapabilityFallbackScope)
    (ready_only : bool) (c : ModelInfo) : bool :=
  negb (bool_decide (id c = []) || bool_decide (id c = id primary)) &&
  negb (bool_decide (scope = kSamePathOnly) && negb (bool_decide (path primary = [])) && negb (bool_decide (path c = path primary))) &&
  supported (CheckBackendCapabilities (EffectiveCapabilities c) needs) &&
  negb (ready_only && negb (backend_ready (get_backend (id c) s))).

(** The scan keeps the best candidate so far. *)
Fixpoint scan_candidates (ok : ModelInfo -> bool) (best : option ModelInfo) (l : list ModelInfo) : option ModelInfo :=
  match l with
  | [] => best
  | c :: l' =>
      if negb (ok c) then scan_candidates ok best l'
      else match best with
           | Some b => if key_ltb (candidate_key c) (candidate_key b) then scan_candidates ok (Some c) l' else scan_candidates ok best l'
           | None => scan_candidates ok (Some c) l'
           end
  end.

Definition PickFallbackCandidate (s : St) (primary : ModelInfo) (needs : BackendFeatureRequirements) (scope : CapabilityFallbackScope)
    (ready_only : bool) (feature : string) : option ModelSelectionResult :=
  match scan_candidates (eligible s primary needs scope ready_only) None (list_models s) with
  | None => None
  | Some c => Some (mkResult kSelected c (get_backend (id c) s) true (m_backend primary) feature "" "")
  end.

(** [router]: [None] is the null pointer. *)
Definition SelectModelForRequest (router : option St) (requested : bytes) (needs : BackendFeatureRequirements)
    (options : ModelSelectionOptions) : ModelSelectionResult * option St :=
  let explicit := negb (bool_decide (requested = [])) && negb (IsDefaultModelAlias requested) in
  let allow_fallback := allow_capability_fallback_for_default options && negb explicit in
  match router with
  | None => (failure kNotFound no_info "" "router unavailable", None)
  | Some s =>
      match (if explicit then resolve_exact requested s else resolve [] s) with
      | (None, s') => (failure kNotFound no_info "" "model not found", Some s')
      | (Some primary, s') =>
          let try_fallback feature otherwise :=
            if allow_fallback then
              default otherwise (PickFallbackCandidate s' primary needs (capability_fallback_scope options) (require_ready_backend options) feature)
            else otherwise in
          let check := CheckBackendCapabilities (EffectiveCapabilities primary) needs in
          (if negb (supported check) then
             try_fallback (if bool_decide (missing_feature check = "") then "unsupported_feature" else missing_feature check)%string
               (failure kUnsupported primary (missing_feature check)
                  (if bool_decide (reason check = "") then "Selected model does not support requested features" else reason check)%string)
           else
             let b := get_backend (id primary) s' in
             if require_ready_backend options && negb (backend_ready b) then
               try_fallback "backend_unavailable"%string (failure kBackendUnavailable primary "" "Selected model backend is not ready")
             else mkResult kSelected primary b false [] "" "" "", Some s')
      end
  end.
End Selection.

(** ** The order of the keys *)

Lemma key_ltb_spec a b :
  key_ltb a b = true <->
  (a.1.1 < b.1.1 \/ (a.1.1 = b.1.1 /\ (a.1.2 < b.1.2 \/ (a.1.2 = b.1.2 /\ bytes_ltb a.2 b.2 = true))))%Z.
Proof.
  destruct a as [[a1 a2] a3], b as [[b1 b2] b3]. cbn.
  by rewrite orb_true_iff, andb_true_iff, orb_true_iff, andb_true_iff, !Z.ltb_lt, !Z.eqb_eq.
Qed.

Lemma key_ltb_irrefl a : key_ltb a a = false.
Proof. apply not_true_is_false. rewrite key_ltb_spec, bytes_ltb_irrefl. intuition lia. Qed.

Lemma key_ltb_trans a b c : key_ltb a b = true -> key_ltb b c = true -> key_ltb a c = true.
Proof.
  rewrite !key_ltb_spec. intros H1 H2.
  destruct H1 as [?|(? & [?|[? H1]])], H2 as [?|(? & [?|[? H2]])]; try (left; lia); right; (split; [lia|]); try (left; lia).
  right. split; [lia|by eapply bytes_ltb_trans].
Qed.

Lemma key_ltb_total a b : key_ltb a b = true \/ a = b \/ key_ltb b a = true.
Proof.
  rewrite !key_ltb_spec. destruct a as [[a1 a2] a3], b as [[b1 b2] b3]. cbn.
  destruct (Z.lt_total a1 b1) as [?|[->|?]]; [tauto| |tauto]. destruct (Z.lt_total a2 b2) as [?|[->|?]]; [tauto| |tauto].
  destruct (bytes_ltb_total a3 b3) as [?|[->|?]]; tauto.
Qed.

(** What is not after a least element is not after anything above it. *)
Lemma key_le_trans a b c : key_ltb b a = false -> key_ltb c b = false -> key_ltb c a = false.
Proof.
  intros H1 H2. apply not_true_is_false. intros H3. destruct (key_ltb_total a b) as [Hab|[->|Hba]]; [|congruence|congruence].
  pose proof (key_ltb_trans _ _ _ H3 Hab). congruence.
Qed.

(** ** The scan *)

Definition least_in (ok : ModelInfo -> bool) (l : list ModelInfo) (c : ModelInfo) : Prop :=
  forall x, x ∈ l -> ok x = true -> key_ltb (candidate_key x) (candidate_key c) = false.

Lemma scan_candidates_best ok l b :
  exists c, scan_candidates ok (Some b) l = Some c /\ (c = b \/ (c ∈ l /\ ok c = true)) /\
    key_ltb (candidate_key b) (candidate_key c) = false /\ least_in ok l c.
Proof.
  revert b. induction l as [|x l IH]; intros b; cbn [scan_candidates].
  { exists b. split_and!; auto; [apply key_ltb_irrefl|by intros ? ?%elem_of_nil]. }
  destruct (ok x) eqn:Ex; cbn [negb].
  - destruct (key_ltb (candidate_key x) (candidate_key b)) eqn:Ek.
    + destruct (IH x) as (c & Hs & Hc & Hk & Hl). exists c. split_and!; auto.
      * right. destruct Hc as [->|[? ?]]; split; auto; [left|by right].
      * destruct (key_ltb (candidate_key b) _) eqn:E; [|done]. pose proof (key_ltb_trans _ _ _ Ek E). congruence.
      * intros y [->|Hy]%elem_of_cons; auto.
    + destruct (IH b) as (c & Hs & Hc & Hk & Hl). exists c. split_and!; auto.
      * destruct Hc as [->|[? ?]]; [by left|right; split; [by right|done]].
      * intros y [->|Hy]%elem_of_cons Hoy; auto. by eapply key_le_trans.
  - destruct (IH b) as (c & Hs & Hc & Hk & Hl). exists c. split_and!; auto.
    + destruct Hc as [->|[? ?]]; [by left|right; split; [by right|done]].
    + intros y [->|Hy]%elem_of_cons Hoy; [congruence|auto].
Qed.

Lemma scan_candidates_spec ok l :
  match scan_candidates ok None l with
  | Some c => c ∈ l /\ ok c = true /\ least_in ok l c
  | None => forall x, x ∈ l -> ok x = false
  end.
Proof.
  induction l as [|x l IH]; cbn [scan_candidates]; [by intros ? ?%elem_of_nil|]. destruct (ok x) eqn:Ex; cbn [negb].
  - destruct (scan_candidates_best ok l x) as (c & -> & Hc & Hk & Hl). split_and!.
    + destruct Hc as [->|[? _]]; [left|by right].
    + by destruct Hc as [->|[_ ?]].
    + intros y [->|Hy]%elem_of_cons; auto.
  - destruct (scan_candidates ok None l) as [c|].
    + destruct IH as (Hc & Ho & Hl). split_and!; [by right|done|]. intros y [->|Hy]%elem_of_cons; [congruence|auto].
    + intros y [->|Hy]%elem_of_cons; auto.
Qed.

(** Ids distinguish candidates, so the scan does not depend on their order. *)
Lemma scan_candidates_perm ok l l' :
  NoDup (id <$> l) -> l ≡ₚ l' -> scan_candidates ok None l = scan_candidates ok None l'.
Proof.
  intros Hnd Hp. pose proof (scan_candidates_spec ok l) as H1. pose proof (scan_candidates_spec ok l') as H2.
  destruct (scan_candidates ok None l) as [c|], (scan_candidates ok None l') as [c'|]; [| | |done].
  - destruct H1 as (Hc & Ho & Hl), H2 as (Hc' & Ho' & Hl'). rewrite <- Hp in Hc'.
    destruct (key_ltb_total (candidate_key c) (candidate_key c')) as [E|[E|E]].
    + rewrite Hl' in E; [done|by rewrite <- Hp|done].
    + f_equal. injection E as _ _ Hid. by apply (NoDup_fmap_eq id l).
    + rewrite Hl in E by done. done.
  - destruct H1 as (Hc & Ho & _). rewrite H2 in Ho by (by rewrite <- Hp). done.
  - destruct H2 as (Hc & Ho & _). rewrite H1 in Ho by (by rewrite Hp). done.
Qed.

(** ** Soundness, for every resolver *)

Section Sound.
Context {St : Type} {wf : St -> Prop} `{ResolverLaws St wf} (is_ready : handle -> bool).

Definition explicit_request (requested : bytes) : Prop := requested <> [] /\ IsDefaultModelAlias requested = false.

(** The candidates of a fallback from the default model. *)
Definition fallback_ok (s' : St) (primary : ModelInfo) (needs : BackendFeatureRequirements) (options : ModelSelectionOptions) : ModelInfo -> bool :=
  eligible is_ready s' primary needs (capability_fallback_scope options) (require_ready_backend options).

(** What holds of a selected model. *)
Definition selection_fits (requested : bytes) (needs : BackendFeatureRequirements) (options : ModelSelectionOptions)
    (primary : ModelInfo) (s' : St) (res : ModelSelectionResult) : Prop :=
  supported (CheckBackendCapabilities (EffectiveCapabilities (s_info res)) needs) = true /\
  s_backend res = get_backend (id (s_info res)) s' /\
  (require_ready_backend options = true -> backend_ready is_ready (s_backend res) = true) /\
  (explicit_request requested -> id (s_info res) = requested /\ s_used_fallback res = false) /\
  (if s_used_fallback res
   then allow_capability_fallback_for_default options = true /\ s_info res ∈ list_models s' /\
        fallback_ok s' primary needs options (s_info res) = true /\ least_in (fallback_ok s' primary needs options) (list_models s') (s_info res)
   else s_info res = primary).

(** What holds when none is. *)
Definition selection_fails (requested : bytes) (needs : BackendFeatureRequirements) (options : ModelSelectionOptions)
    (primary : ModelInfo) (s' : St) (res : ModelSelectionResult) : Prop :=
  s_status res <> kNotFound /\ s_info res = primary /\ s_backend res = None /\ s_used_fallback res = false /\
  (supported (CheckBackendCapabilities (EffectiveCapabilities primary) needs) = false \/
   (require_ready_backend options = true /\ backend_ready is_ready (get_backend (id primary) s') = false)) /\
  (~ explicit_request requested -> allow_capability_fallback_for_default options = true ->
     forall c, c ∈ list_models s' -> fallback_ok s' primary needs options c = false).

Definition explicit_flag (requested : bytes) : bool := negb (bool_decide (requested = [])) && negb (IsDefaultModelAlias requested).

Lemma explicit_flag_spec requested : explicit_flag requested = true <-> explicit_request requested.
Proof.
  unfold explicit_flag, explicit_request. rewrite andb_true_iff, !negb_true_iff, bool_decide_eq_false. done.
Qed.

(** The model a request starts from. *)
Definition primary_of (requested : bytes) (s : St) : option ModelInfo * St :=
  if explicit_flag requested then resolve_exact requested s else resolve [] s.

Lemma fallback_sound requested needs options primary s' feature :
  explicit_flag requested = false ->
  allow_capability_fallback_for_default options = true ->
  match PickFallbackCandidate is_ready s' primary needs (capability_fallback_scope options) (require_ready_backend options) feature with
  | Some res => s_status res = kSelected /\ selection_fits requested needs options primary s' res
  | None => forall c, c ∈ list_models s' -> fallback_ok s' primary needs options c = false
  end.
Proof.
  intros He Ha. unfold PickFallbackCandidate. fold (fallback_ok s' primary needs options).
  pose proof (scan_candidates_spec (fallback_ok s' primary needs options) (list_models s')) as Hs.
  destruct (scan_candidates _ _ _) as [c|]; [|done]. destruct Hs as (Hc & Ho & Hl). split; [done|].
  pose proof Ho as Ho'. unfold fallback_ok, eligible in Ho'. rewrite !andb_true_iff, !negb_true_iff in Ho'. destruct Ho' as (((H1 & H2) & H3) & H4).
  unfold selection_fits. cbn. split_and!; auto.
  - intros Hr. rewrite Hr in H4. cbn in H4. by apply negb_false_iff.
  - intros Hx%explicit_flag_spec. congruence.
Qed.

(** Both refusals go through the fallback. *)
Lemma refused_or_fallback requested needs options primary s' feature otherwise :
  s_status otherwise <> kSelected -> s_status otherwise <> kNotFound -> s_info otherwise = primary ->
  s_backend otherwise = None -> s_used_fallback otherwise = false ->
  supported (CheckBackendCapabilities (EffectiveCapabilities primary) needs) = false \/
    (require_ready_backend options = true /\ backend_ready is_ready (get_backend (id primary) s') = false) ->
  let res := if allow_capability_fallback_for_default options && negb (explicit_flag requested) then
               default otherwise (PickFallbackCandidate is_ready s' primary needs (capability_fallback_scope options) (require_ready_backend options) feature)
             else otherwise in
  (s_status res = kSelected /\ selection_fits requested needs options primary s' res) \/
  (s_status res <> kSelected /\ selection_fails requested needs options primary s' res).
Proof.
  intros H1 H2 H3 H4 H5 H6. cbv zeta. destruct (allow_capability_fallback_for_default options) eqn:Ea; cbn [andb].
  - destruct (explicit_flag requested) eqn:Ex; cbn [negb].
    + right. split; [done|]. unfold selection_fails. split_and!; auto. intros Hn. destruct Hn. by apply explicit_flag_spec.
    + pose proof (fallback_sound requested needs options primary s' feature Ex Ea) as Hf.
      destruct (PickFallbackCandidate _ _ _ _ _ _ _) as [res|]; [by left|]. right. cbn. split; [done|]. unfold selection_fails. split_and!; auto.
  - right. split; [done|]. unfold selection_fails. split_and!; auto. intros _ Hf. congruence.
Qed.

(** C27: a request is served by a model that has every capability it needs and, when
    asked for, a ready backend.  A model named by the client is served as named or not
    at all; a fallback only happens for the default model and only if it is allowed, to
    the eligible model with the least key (preferred backend, not itself a fallback,
    then id); and when the default model is refused there was no eligible model. *)
Theorem selection_sound (s : St) (requested : bytes) (needs : BackendFeatureRequirements) (options : ModelSelectionOptions) :
  wf s ->
  let '(res, router') := SelectModelForRequest is_ready (Some s) requested needs options in
  let '(found_model, s') := primary_of requested s in
  router' = Some s' /\ wf s' /\
  match found_model with
  | None => res = failure kNotFound no_info "" "model not found"
  | Some primary =>
      (s_status res = kSelected /\ selection_fits requested needs options primary s' res) \/
      (s_status res <> kSelected /\ selection_fails requested needs options primary s' res)
  end.
Proof.
  intros Hwf. unfold SelectModelForRequest. fold (explicit_flag requested). fold (primary_of requested s).
  assert (Hwf' : wf (primary_of requested s).2) by (unfold primary_of; case_match; [by apply resolve_exact_wf|by apply resolve_wf]).
  destruct (primary_of requested s) as [[primary|] s'] eqn:Ep; [|done]. cbn zeta. split_and!; [done|done|].
  assert (Hid : explicit_request requested -> id primary = requested).
  { intros Hx%explicit_flag_spec. unfold primary_of in Ep. rewrite Hx in Ep. by apply (resolve_exact_id s requested primary s'). }
  destruct (supported (CheckBackendCapabilities _ _)) eqn:Es; cbn [negb].
  - destruct (require_ready_backend options && _) eqn:Er.
    + apply andb_prop in Er as [Er1 Er2%negb_true_iff].
      apply (refused_or_fallback requested needs options primary s'); auto; cbn; auto.
    + left. split; [done|]. unfold selection_fits. cbn. split_and!; auto. intros Hr. rewrite Hr in Er. by apply negb_false_iff.
  - apply (refused_or_fallback requested needs options primary s'); auto; cbn; auto.
Qed.
End Sound.

(** ** The router implements the interface *)

Section Implementation.
Context `{MapOrder} (view : handle -> BackendView).

#[export] Instance router_resolver : ModelResolver Router := {|
  list_models := ListModels view; resolve := Resolve view; resolve_exact := ResolveExact view; get_backend := GetBackend |}.

Lemma listed_id r n e : router_ok r -> models r !! n = Some e -> id (info e) = n.
Proof. intros Hok He. by destruct (ok_entries _ Hok _ _ He) as (? & _). Qed.

Lemma ListModels_ids r : router_ok r -> id <$> ListModels view r = (iter (models r)).*1.
Proof.
  intros Hok. unfold ListModels. rewrite <- list_fmap_compose.
  assert (Hin : Forall (fun ne : bytes * Entry => models r !! ne.1 = Some ne.2) (iter (models r))).
  { apply Forall_forall. intros [n e] Hx. rewrite (iter_perm (models r)) in Hx. by apply elem_of_map_to_list in Hx. }
  induction Hin as [|[n e] l Hx _ IH]; [done|]. rewrite !fmap_cons. f_equal; [|done]. cbn. by eapply listed_id.
Qed.

#[export] Instance router_laws : ResolverLaws Router router_ok.
Proof.
  constructor; cbn.
  - intros r n i r' Hok. unfold ResolveExact. destruct n as [|c n]; [done|]. destruct (models r !! _) as [e|] eqn:E; [|done].
    intros [= <- <-]. cbn. by eapply listed_id.
  - auto with router.
  - auto with router.
  - intros r Hok. rewrite ListModels_ids by done. rewrite (iter_perm (models r)). apply NoDup_fst_map_to_list.
Qed.
End Implementation.

Lemma ListModels_perm (o1 o2 : MapOrder) view r : @ListModels o1 view r ≡ₚ @ListModels o2 view r.
Proof. unfold ListModels. apply Permutation_map. by rewrite !iter_perm. Qed.

(** Which model serves a request does not depend on the order in which the router's
    hash map is traversed. *)
Theorem selection_order_independent (o1 o2 : MapOrder) (view : handle -> BackendView) (is_ready : handle -> bool) (r : Router)
    (requested : bytes) (needs : BackendFeatureRequirements) (options : ModelSelectionOptions) :
  router_ok r ->
  @SelectModelForRequest Router (@router_resolver o1 view) is_ready (Some r) requested needs options =
  @SelectModelForRequest Router (@router_resolver o2 view) is_ready (Some r) requested needs options.
Proof.
  intros Hok. unfold SelectModelForRequest. cbn [resolve resolve_exact router_resolver get_backend].
  set (explicit := negb _ && negb _).
  assert (Hok' : router_ok (if explicit then ResolveExact view requested r else Resolve view [] r).2) by (destruct explicit; auto with router).
  destruct (if explicit then _ else _) as [[primary|] r']; [|done]. cbn in Hok'.
  assert (Hpick : forall scope ready feature,
    @PickFallbackCandidate Router (@router_resolver o1 view) is_ready r' primary needs scope ready feature =
    @PickFallbackCandidate Router (@router_resolver o2 view) is_ready r' primary needs scope ready feature).
  { intros scope ready_only feature. unfold PickFallbackCandidate. cbn [list_models router_resolver get_backend].
    assert (Hnd : NoDup (id <$> @ListModels o1 view r')) by exact (@listed_ids _ _ _ (@router_laws o1 view) r' Hok').
    rewrite (scan_candidates_perm _ _ _ Hnd (ListModels_perm o1 o2 view r')). done. }
  cbv zeta. by rewrite !Hpick.
Qed.

(** ** Examples *)

Definition any_request : BackendFeatureRequirements := BuildGenerationFeatureRequirements true false false false false false.
Definition vision_request : BackendFeatureRequirements := BuildGenerationFeatureRequirements true false false true false false.
Definition ready_options : ModelSelectionOptions := mkOptions true true kAnyCompatible.

Definition vision_loader : Loader :=
  mkLoader (fun _ _ _ _ => true) (fun b _ => mkView true 0 default_caps (2 <=? b) (bytes_of "llama_cpp") false 0 0 false [] [] no_placement no_metadata 1).

Definition load_demo (b : handle) (p hint : string) (r : Router) : Router :=
  (LoadModel plain_host vision_loader b (plain_spec (bytes_of p) (bytes_of hint) [] (bytes_of "auto")) r).2.

(** The default model without vision and two that have it, on CUDA and on the CPU. *)
Definition vision_router : Router :=
  load_demo 3 "/m/c.gguf" "cpu" (load_demo 2 "/m/d.gguf" "llama_cpp_cuda" (load_demo 1 "/m/text.gguf" "cpu" demo0)).

Definition all_ready (_ : handle) : bool := true.

Lemma vision_router_ok : router_ok vision_router.
Proof. unfold vision_router, load_demo. do 3 apply LoadModel_ok. apply configured_router_ok. Qed.

Definition vision_answer := (SelectModelForRequest (St := Router) (H := router_resolver (fun _ => idle_view)) all_ready (Some vision_router)
  [] vision_request ready_options).1.

(** Ranks are given to plain labels ("cuda", "cpu"), but loaded models carry canonical
    ids ("llama_cpp_cuda", "llama_cpp_cpu"), which all rank last: the CPU model wins
    over the CUDA one by its name. *)
Example rank_ignores_canonical_ids :
  map_to_list ((fun e => m_backend (info e)) <$> models vision_router) ≡ₚ
    [(bytes_of "text", bytes_of "llama_cpp_cpu"); (bytes_of "c", bytes_of "llama_cpp_cpu"); (bytes_of "d", bytes_of "llama_cpp_cuda")] /\
  (s_status vision_answer, id (s_info vision_answer), s_used_fallback vision_answer) = (kSelected, bytes_of "c", true).
Proof. split; [apply (bool_decide_unpack _); vm_compute; exact I|vm_compute; reflexivity]. Qed.

Lemma selection_sound_witness :
  id (s_info vision_answer) = bytes_of "c" /\
  supported (CheckBackendCapabilities (EffectiveCapabilities (s_info vision_answer)) vision_request) = true.
Proof.
  split; [vm_compute; reflexivity|].
  pose proof (selection_sound (St := Router) (H := router_resolver (fun _ => idle_view)) all_ready vision_router [] vision_request ready_options vision_router_ok) as Hs.
  unfold vision_answer. destruct (SelectModelForRequest _ _ _ _ _) as [res r'] eqn:E1. destruct (primary_of _ _) as [f s'] eqn:E2.
  destruct Hs as (_ & _ & Hs). destruct f as [primary|]; [|by vm_compute in E2].
  destruct Hs as [(_ & Hf & _)|[Hn _]]; [done|]. destruct Hn. apply (f_equal (fun x => s_status x.1)) in E1. cbn [fst] in E1. rewrite <- E1.
  vm_compute. reflexivity.
Defined.

(** The traversal backwards. *)
Definition reverse_order : MapOrder.
Proof. exists (fun m => reverse (map_to_list m)). intros m. apply reverse_Permutation. Defined.

Lemma selection_order_independent_witness :
  (@SelectModelForRequest Router (@router_resolver reverse_order (fun _ => idle_view)) all_ready (Some vision_router) [] vision_request ready_options).1
  = vision_answer.
Proof.
  unfold vision_answer.
  rewrite (selection_order_independent key_order reverse_order (fun _ => idle_view) all_ready vision_router [] vision_request ready_options
             vision_router_ok).
  reflexivity.
Defined.
