(* ===== verification/ModelRegistry.v ===== *)
(** * The model registry (scheduler/model_registry.cpp)

    A registry file lists the models a server should have; each reload compares it with
    the models the registry manages, unloads those that are gone and loads the new
    ones.  The registry only talks to the lifecycle interface of
    scheduler/model_router.h, which is a class here; the router of [ModelRouter] is an
    instance.  The YAML parser is not part of the program: a reload gets the entries
    that it read, or nothing when the file is missing or malformed. *)

From stdpp Require Import base tactics numbers list sorting strings gmap sets.
From Stdlib Require Import Ascii.
From S2P Require Import Prelude StringUtils Backends ModelFormat ModelRouter.

(** [ModelLifecycle]: the id of the loaded model, empty on failure; whether the model
    was unloaded. *)
Class ModelLifecycle (St : Type) := {
  load_model : ModelLoadSpec -> St -> bytes * St;
  unload_model : bytes -> St -> bool * St }.

Record Registry := mkRegistry { path_to_id : gmap bytes bytes; specifications : gmap bytes ModelLoadSpec }.

Definition empty_registry : Registry := mkRegistry ∅ ∅.

(** [std::map] is traversed in the order of its keys. *)
Definition key_le {A} (a b : bytes * A) : Prop := bytes_ltb b.1 a.1 = false.

#[export] Instance key_le_dec {A} : RelDecision (key_le (A := A)).
Proof. intros a b. unfold key_le. apply _. Defined.

Definition in_key_order {A} (m : gmap bytes A) : list (bytes * A) := merge_sort key_le (map_to_list m).

Section Registry.
Context {St : Type} `{ModelLifecycle St} (equiv : bytes -> bytes -> bool).

(** The desired models by path; [None] when an id or an artifact occurs twice. *)
Fixpoint desired_entries (entries : list ModelLoadSpec) (desired : gmap bytes ModelLoadSpec) (ids : gset bytes) : option (gmap bytes ModelLoadSpec) :=
  match entries with
  | [] => Some desired
  | e :: rest =>
      let p := spec_path e in
      let twice := bool_decide (is_Some (desired !! p)) in
      let id_twice := negb (bool_decide (spec_id e = [])) && bool_decide (spec_id e ∈ ids) in
      let ids' := if twice || bool_decide (spec_id e = []) then ids else {[ spec_id e ]} ∪ ids in
      if twice || id_twice || existsb (fun pe : bytes * ModelLoadSpec => equiv pe.1 p) (in_key_order desired) then None
      else desired_entries rest (<[ p := e ]> desired) ids'
  end.

(** A managed model whose specification differs in the file. *)
Definition changed (desired : gmap bytes ModelLoadSpec) (ps : bytes * ModelLoadSpec) : bool :=
  match desired !! ps.1 with Some e => negb (bool_decide (e = ps.2)) | None => false end.

Definition unload_one (acc : Z * Registry * St) (p : bytes) : Z * Registry * St :=
  let '(net, reg, st) := acc in
  match unload_model (default [] (path_to_id reg !! p)) st with
  | (true, st') => ((net - 1)%Z, mkRegistry (delete p (path_to_id reg)) (delete p (specifications reg)), st')
  | (false, st') => (net, reg, st')
  end.

Definition load_one (acc : Z * Registry * St) (pe : bytes * ModelLoadSpec) : Z * Registry * St :=
  let '(net, reg, st) := acc in let '(p, e) := pe in
  match path_to_id reg !! p with
  | Some _ => acc
  | None =>
      match load_model e st with
      | ([], st') => (net, reg, st')
      | (n, st') => ((net + 1)%Z, mkRegistry (<[ p := n ]> (path_to_id reg)) (<[ p := e ]> (specifications reg)), st')
      end
  end.

Definition to_remove (desired : gmap bytes ModelLoadSpec) (reg : Registry) : list bytes :=
  (filter (fun pn : bytes * bytes => desired !! pn.1 = None) (in_key_order (path_to_id reg))).*1.

Definition apply_desired (desired : gmap bytes ModelLoadSpec) (reg : Registry) (st : St) : Z * Registry * St :=
  foldl load_one (foldl unload_one (0%Z, reg, st) (to_remove desired reg)) (in_key_order desired).

Definition ApplyEntries (entries : list ModelLoadSpec) (reg : Registry) (st : St) : Z * Registry * St :=
  match desired_entries entries ∅ ∅ with
  | None => (0%Z, reg, st)
  | Some desired =>
      if existsb (changed desired) (in_key_order (specifications reg)) then (0%Z, reg, st)
      else apply_desired desired reg st
  end.

(** [ParseYaml] after the parser: entries without a path are skipped. *)
Definition ParseYaml (nodes : option (list ModelLoadSpec)) : option (list ModelLoadSpec) :=
  (filter (fun e => spec_path e <> [])) <$> nodes.

Definition Reload (nodes : option (list ModelLoadSpec)) (reg : Registry) (st : St) : Z * Registry * St :=
  match ParseYaml nodes with None => (0%Z, reg, st) | Some entries => ApplyEntries entries reg st end.

Definition ManagedIds (reg : Registry) : gset bytes := list_to_set ((map_to_list (path_to_id reg)).*2).

(** ** The watcher *)

Record Watcher := mkWatcher { running : bool; last_mtime : Z; registry : Registry }.

Definition LoadAndWatch (nodes : option (list ModelLoadSpec)) (w : Watcher) (st : St) : Z * Watcher * St :=
  if running w then (0%Z, w, st)
  else let '(n, reg, st') := Reload nodes (registry w) st in (n, mkWatcher true (last_mtime w) reg, st').

(** One poll of [WatchLoop]: [mtime] is [None] when the file cannot be read. *)
Definition watch_poll (mtime : option Z) (nodes : option (list ModelLoadSpec)) (w : Watcher) (st : St) : Watcher * St :=
  match mtime with
  | None => (w, st)
  | Some t =>
      if negb (running w) || bool_decide (t = last_mtime w) then (w, st)
      else let '(_, reg, st') := Reload nodes (registry w) st in (mkWatcher (running w) t reg, st')
  end.

Definition Stop (w : Watcher) : Watcher := if running w then mkWatcher false (last_mtime w) (registry w) else w.
End Registry.

(** ** The registry's invariant *)

(** The two maps have the same paths and every managed model has an id. *)
Definition registry_ok (reg : Registry) : Prop :=
  dom (path_to_id reg) = dom (specifications reg) /\ map_Forall (fun _ n => n <> []) (path_to_id reg).

Lemma in_key_order_elem {A} (m : gmap bytes A) p a : (p, a) ∈ in_key_order m <-> m !! p = Some a.
Proof. unfold in_key_order. rewrite merge_sort_Permutation. apply elem_of_map_to_list. Qed.

Lemma in_key_order_nodup {A} (m : gmap bytes A) : NoDup (in_key_order m).*1.
Proof. unfold in_key_order. rewrite merge_sort_Permutation. apply NoDup_fst_map_to_list. Qed.

Section Apply.
Context {St : Type} `{ModelLifecycle St} (equiv : bytes -> bytes -> bool).

Abbreviation managed reg := (path_to_id reg).
Abbreviation specs reg := (specifications reg).

(** What unloading the paths [l] may change. *)
Definition unloaded (l : list bytes) (acc acc' : Z * Registry * St) : Prop :=
  registry_ok acc'.1.2 /\ (acc'.1.1 - acc.1.1 = Z.of_nat (size (managed acc'.1.2)) - Z.of_nat (size (managed acc.1.2)))%Z /\
  managed acc'.1.2 ⊆ managed acc.1.2 /\ specs acc'.1.2 ⊆ specs acc.1.2 /\
  (forall p, p ∉ l -> managed acc'.1.2 !! p = managed acc.1.2 !! p /\ specs acc'.1.2 !! p = specs acc.1.2 !! p).

Lemma registry_delete reg p : registry_ok reg -> registry_ok (mkRegistry (delete p (managed reg)) (delete p (specs reg))).
Proof. intros [Hd Hn]. split; cbn; [by rewrite !dom_delete_L, Hd|by apply map_Forall_delete]. Qed.

Lemma registry_insert reg p n e : n <> [] -> registry_ok reg -> registry_ok (mkRegistry (<[ p := n ]> (managed reg)) (<[ p := e ]> (specs reg))).
Proof. intros Hn [Hd Hm]. split; cbn; [by rewrite !dom_insert_L, Hd|by apply map_Forall_insert_2]. Qed.

Lemma unload_fold l acc :
  NoDup l -> (forall p, p ∈ l -> is_Some (managed acc.1.2 !! p)) -> registry_ok acc.1.2 -> unloaded l acc (foldl unload_one acc l).
Proof.
  revert acc. induction l as [|p l IH]; intros [[net reg] st] Hnd Hl Hok; cbn [foldl].
  { split_and!; auto; cbn; lia. }
  apply NoDup_cons in Hnd as [Hp Hnd]. cbn in Hl, Hok. destruct (Hl p ltac:(set_solver)) as [n Hn].
  cbn [unload_one]. rewrite Hn. cbn. destruct (unload_model n st) as [[] st'].
  - set (acc1 := ((net - 1)%Z, mkRegistry _ _, st')).
    assert (Hl1 : forall q, q ∈ l -> is_Some (managed acc1.1.2 !! q)).
    { intros q Hq. cbn. rewrite lookup_delete_ne by (intros ->; done). apply Hl. set_solver. }
    destruct (IH acc1 Hnd Hl1 (registry_delete _ _ Hok)) as (H1 & H2 & H3 & H4 & H5). cbn in H2, H3, H4, H5.
    pose proof (map_size_delete_Some p (managed reg) (mk_is_Some _ _ Hn)) as Hsz.
    pose proof (map_size_ne_0_lookup_2 (managed reg) p (mk_is_Some _ _ Hn)) as Hpos.
    split_and!; auto; cbn.
    + rewrite Hsz in H2. lia.
    + etrans; [exact H3|apply delete_subseteq].
    + etrans; [exact H4|apply delete_subseteq].
    + intros q Hq. destruct (H5 q ltac:(set_solver)) as [-> ->]. by rewrite !lookup_delete_ne by set_solver.
  - destruct (IH (net, reg, st') Hnd) as (H1 & H2 & H3 & H4 & H5); [intros q Hq; apply Hl; set_solver|done|].
    split_and!; auto. intros q Hq. apply H5. set_solver.
Qed.

(** What loading the entries [l] may change. *)
Definition loaded (l : list (bytes * ModelLoadSpec)) (acc acc' : Z * Registry * St) : Prop :=
  registry_ok acc'.1.2 /\ (acc'.1.1 - acc.1.1 = Z.of_nat (size (managed acc'.1.2)) - Z.of_nat (size (managed acc.1.2)))%Z /\
  managed acc.1.2 ⊆ managed acc'.1.2 /\ specs acc.1.2 ⊆ specs acc'.1.2 /\
  (forall p n, managed acc'.1.2 !! p = Some n -> managed acc.1.2 !! p = Some n \/ exists e, (p, e) ∈ l /\ specs acc'.1.2 !! p = Some e).

Lemma load_fold l acc : registry_ok acc.1.2 -> loaded l acc (foldl load_one acc l).
Proof.
  revert acc. induction l as [|[p e] l IH]; intros [[net reg] st] Hok; cbn [foldl].
  { split_and!; auto; cbn; lia. }
  assert (Hweak : forall acc acc', loaded l acc acc' -> loaded ((p, e) :: l) acc acc').
  { intros acc acc' (H1 & H2 & H3 & H4 & H5). split_and!; auto. intros q n Hq. destruct (H5 q n Hq) as [?|(x & ? & ?)]; [by left|].
    right. exists x. split; [by right|done]. }
  cbn [load_one]. destruct (managed reg !! p) eqn:Ep; [by apply Hweak, IH|].
  destruct (load_model e st) as [[|c n] st']; [by apply Hweak, (IH (net, reg, st'))|].
  assert (Esp : specs reg !! p = None) by (destruct Hok as [Hd _]; cbn in Hd; apply not_elem_of_dom; rewrite <- Hd; by apply not_elem_of_dom).
  set (acc1 := ((net + 1)%Z, mkRegistry _ _, st')).
  destruct (IH acc1 (registry_insert reg p (c :: n) e ltac:(done) Hok)) as (H1 & H2 & H3 & H4 & H5). cbn in H2, H3, H4, H5.
  pose proof (map_size_insert_None p (c :: n) (managed reg) Ep) as Hsz. split_and!; auto; cbn.
  - rewrite Hsz in H2. lia.
  - etrans; [by apply (insert_subseteq _ p (c :: n))|exact H3].
  - etrans; [by apply (insert_subseteq _ p e)|exact H4].
  - intros q m Hq. destruct (H5 q m Hq) as [Hm|(x & ? & ?)]; [|right; exists x; split; [by right|done]].
    apply lookup_insert_Some in Hm as [[<- <-]|[_ Hm]]; [|by left]. right. exists e. split; [left|].
    eapply lookup_weaken; [apply lookup_insert_eq|exact H4].
Qed.

Lemma to_remove_spec desired reg p : p ∈ to_remove desired reg <-> is_Some (managed reg !! p) /\ desired !! p = None.
Proof.
  unfold to_remove. rewrite list_elem_of_fmap. split.
  - intros ([q n] & -> & [Hd Hq]%list_elem_of_filter). apply in_key_order_elem in Hq. cbn in *. eauto.
  - intros [[n Hn] Hd]. exists (p, n). split; [done|]. apply list_elem_of_filter. split; [done|]. by apply in_key_order_elem.
Qed.

Lemma to_remove_nodup desired reg : NoDup (to_remove desired reg).
Proof. apply NoDup_fmap_filter, in_key_order_nodup. Qed.

Lemma no_change desired reg p e e' :
  existsb (changed desired) (in_key_order (specs reg)) = false -> specs reg !! p = Some e -> desired !! p = Some e' -> e' = e.
Proof.
  intros Hc He He'. destruct (decide (e' = e)) as [|Hne]; [done|]. exfalso.
  enough (existsb (changed desired) (in_key_order (specs reg)) = true) by congruence.
  apply existsb_exists. exists (p, e). split; [by apply list_elem_of_In, in_key_order_elem|]. unfold changed. cbn. rewrite He'.
  by rewrite bool_decide_eq_false_2.
Qed.

(** What an accepted reload guarantees. *)
Definition reload_ok (desired : gmap bytes ModelLoadSpec) (reg : Registry) (reg' : Registry) : Prop :=
  (forall p n, managed reg !! p = Some n -> is_Some (desired !! p) -> managed reg' !! p = Some n) /\
  (forall p e, is_Some (managed reg' !! p) -> desired !! p = Some e -> specs reg' !! p = Some e) /\
  (forall p, is_Some (managed reg' !! p) -> is_Some (desired !! p) \/ managed reg' !! p = managed reg !! p).

Lemma apply_desired_spec desired reg st :
  registry_ok reg -> existsb (changed desired) (in_key_order (specs reg)) = false ->
  let '(net, reg', _) := apply_desired desired reg st in
  registry_ok reg' /\ net = (Z.of_nat (size (managed reg')) - Z.of_nat (size (managed reg)))%Z /\ reload_ok desired reg reg'.
Proof.
  intros Hok Hc. unfold apply_desired.
  destruct (unload_fold (to_remove desired reg) (0%Z, reg, st)) as (U1 & U2 & U3 & U4 & U5);
    [apply to_remove_nodup|intros p Hp; by apply to_remove_spec in Hp as [? _]|done|].
  set (mid := foldl unload_one _ _) in *. destruct (load_fold (in_key_order desired) mid U1) as (L1 & L2 & L3 & L4 & L5).
  destruct (foldl load_one mid _) as [[net reg'] st']. destruct mid as [[net1 reg1] st1]. cbn in *.
  assert (Hkeep : forall p, is_Some (desired !! p) -> managed reg1 !! p = managed reg !! p /\ specs reg1 !! p = specs reg !! p).
  { intros p [e He]. apply U5. intros [_ ?]%to_remove_spec. congruence. }
  split_and!; [done|lia|]. unfold reload_ok. split_and!.
  - intros p n Hn Hp. eapply lookup_weaken; [|exact L3]. by rewrite (proj1 (Hkeep p Hp)).
  - intros p e [n Hn] He. destruct (L5 p n Hn) as [Hm|(x & Hx & Hs)].
    + assert (is_Some (specs reg1 !! p)) as [e1 He1] by (apply elem_of_dom; rewrite <- (proj1 U1); apply elem_of_dom; by rewrite Hm).
      pose proof He1 as He1'. rewrite (proj2 (Hkeep p (mk_is_Some _ _ He))) in He1'.
      rewrite (no_change _ _ _ _ _ Hc He1' He). exact (lookup_weaken _ _ _ _ He1 L4).
    + apply in_key_order_elem in Hx. congruence.
  - intros p [n Hn]. destruct (L5 p n Hn) as [Hm|(x & Hx & _)]; [|left; apply in_key_order_elem in Hx; eauto].
    right. rewrite Hn. symmetry. exact (lookup_weaken _ _ _ _ Hm U3).
Qed.

(** A reload either rejects the file as a whole, changing nothing, when it repeats
    an id or an artifact or changes the specification of a managed model, or it keeps
    the id of every managed model that is still listed, manages listed models with the
    listed specification only, adds no others, and returns the net number of models it
    has gained. *)
Theorem registry_reload (entries : list ModelLoadSpec) (reg : Registry) (st : St) :
  registry_ok reg ->
  let '(net, reg', st') := ApplyEntries equiv entries reg st in
  registry_ok reg' /\ net = (Z.of_nat (size (managed reg')) - Z.of_nat (size (managed reg)))%Z /\
  match desired_entries equiv entries ∅ ∅ with
  | Some desired =>
      if existsb (changed desired) (in_key_order (specs reg)) then reg' = reg /\ st' = st
      else reload_ok desired reg reg'
  | None => reg' = reg /\ st' = st
  end.
Proof.
  intros Hok. unfold ApplyEntries. destruct (desired_entries _ _ _ _) as [desired|]; [|split_and!; [done|lia|done|done]].
  destruct (existsb _ _) eqn:Hc; [split_and!; [done|lia|done|done]|].
  pose proof (apply_desired_spec desired reg st Hok Hc) as Hs. by destruct (apply_desired _ _ _) as [[net reg'] st'].
Qed.

(** ** Convergence *)

(** When the registry agrees with the file there is nothing to do. *)
Lemma settled desired reg st :
  registry_ok reg -> specs reg = desired ->
  existsb (changed desired) (in_key_order (specs reg)) = false /\ apply_desired desired reg st = (0%Z, reg, st).
Proof.
  intros [Hd _] Hs. split.
  - apply not_true_is_false. intros ([p e] & Hi & Hc)%existsb_exists. apply list_elem_of_In, in_key_order_elem in Hi.
    unfold changed in Hc. cbn in Hc. rewrite <- Hs, Hi in Hc. by rewrite bool_decide_eq_true_2 in Hc.
  - unfold apply_desired. assert (to_remove desired reg = []) as ->.
    { destruct (to_remove desired reg) as [|p l] eqn:E; [done|]. assert (Hp : p ∈ to_remove desired reg) by (rewrite E; left).
      apply to_remove_spec in Hp as [Hm Hn]. apply elem_of_dom in Hm. rewrite Hd, Hs in Hm. apply elem_of_dom in Hm as [? ?]. congruence. }
    cbn [foldl]. assert (Hall : Forall (fun pe : bytes * ModelLoadSpec => is_Some (managed reg !! pe.1)) (in_key_order desired)).
    { apply Forall_forall. intros [p e] Hp%in_key_order_elem. apply elem_of_dom. rewrite Hd, Hs. by apply elem_of_dom. }
    induction Hall as [|[p e] l Hp _ IH]; [done|]. cbn [foldl load_one]. cbn in Hp. by destruct Hp as [n ->].
Qed.

(** A lifecycle that never refuses: models load and nobody holds on to them. *)
Class Compliant := {
  load_succeeds e st : (load_model e st).1 <> [];
  unload_succeeds n st : (unload_model n st).1 = true }.

Context `{!Compliant}.

Lemma unload_fold_gone l acc p : p ∈ l \/ managed acc.1.2 !! p = None -> managed (foldl unload_one acc l).1.2 !! p = None.
Proof.
  revert acc. induction l as [|q l IH]; intros [[net reg] st]; cbn [foldl]; [by intros [?%elem_of_nil|?]|].
  intros Hp. apply IH. cbn [unload_one]. pose proof (unload_succeeds (default [] (managed reg !! q)) st) as Hu.
  destruct (unload_model _ st) as [b st']. cbn in Hu. subst b. cbn in *.
  destruct (decide (q = p)) as [->|Hq]; [right; by rewrite lookup_delete_eq|]. rewrite lookup_delete_ne by done. set_solver.
Qed.

Lemma load_fold_there l acc p : p ∈ l.*1 \/ is_Some (managed acc.1.2 !! p) -> is_Some (managed (foldl load_one acc l).1.2 !! p).
Proof.
  revert acc. induction l as [|[q e] l IH]; intros [[net reg] st]; cbn [foldl]; [by intros [?%elem_of_nil|?]|].
  intros Hp. apply IH. cbn [load_one]. destruct (managed reg !! q) eqn:Eq.
  - cbn in *. destruct Hp as [[->|?]%elem_of_cons|?]; eauto.
  - pose proof (load_succeeds e st) as Hl. destruct (load_model e st) as [[|c n] st']; [done|]. cbn in *.
    rewrite lookup_insert_is_Some'. destruct Hp as [[->|?]%elem_of_cons|?]; auto.
Qed.

(** Against a lifecycle that loads and unloads what it is asked to, one accepted
    reload brings the managed models to exactly the listed ones, and repeating it makes
    no call and reports no change. *)
Theorem registry_converges (entries : list ModelLoadSpec) (desired : gmap bytes ModelLoadSpec) (reg : Registry) (st : St) :
  registry_ok reg -> desired_entries equiv entries ∅ ∅ = Some desired ->
  existsb (changed desired) (in_key_order (specs reg)) = false ->
  let '(_, reg', st') := ApplyEntries equiv entries reg st in
  specs reg' = desired /\ dom (managed reg') = dom desired /\ ApplyEntries equiv entries reg' st' = (0%Z, reg', st').
Proof.
  intros Hok Hdes Hc. unfold ApplyEntries. rewrite Hdes, Hc. pose proof (apply_desired_spec desired reg st Hok Hc) as Hs.
  assert (Hthere : forall p, is_Some (managed (apply_desired desired reg st).1.2 !! p) <-> is_Some (desired !! p)).
  { intros p. split.
    - destruct (apply_desired desired reg st) as [[net reg'] st'] eqn:E. cbn. destruct Hs as (_ & _ & _ & _ & Hs). intros Hp.
      destruct (Hs p Hp) as [?|Hold]; [done|]. destruct (desired !! p) eqn:Ed; [by eauto|]. exfalso. unfold apply_desired in E.
      destruct (unload_fold (to_remove desired reg) (0%Z, reg, st)) as (U1 & _);
        [apply to_remove_nodup|intros q Hq; by apply to_remove_spec in Hq as [? _]|done|].
      destruct (load_fold (in_key_order desired) _ U1) as (_ & _ & _ & _ & L5). rewrite E in L5. destruct Hp as [n Hn].
      destruct (L5 p n Hn) as [Hm|(x & Hx%in_key_order_elem & _)]; [|congruence].
      rewrite unload_fold_gone in Hm; [done|]. left. apply to_remove_spec. split; [|done]. rewrite <- Hold. cbn in Hn. by rewrite Hn.
    - intros [e He]. apply load_fold_there. left. apply list_elem_of_fmap. exists (p, e). split; [done|]. by apply in_key_order_elem. }
  destruct (apply_desired desired reg st) as [[net reg'] st']. cbn in Hthere. destruct Hs as (Hok' & _ & _ & Hs2 & _).
  assert (Hspecs : specs reg' = desired).
  { apply map_eq. intros p. destruct (desired !! p) as [e|] eqn:Ed; [apply Hs2; [apply Hthere|]; by eauto|].
    apply not_elem_of_dom. rewrite <- (proj1 Hok'). intros Hin%elem_of_dom%Hthere. rewrite Ed in Hin. by destruct Hin. }
  split_and!; [done|by rewrite (proj1 Hok'), Hspecs|]. destruct (settled desired reg' st' Hok' Hspecs) as [-> ->]. done.
Qed.
End Apply.

(** ** The router as a lifecycle *)

(** The router with what the rest of the program answers, and the next backend object. *)
Section RouterLifecycle.
Context `{MapOrder} (h : Host) (ld : Loader) (view : handle -> BackendView).

#[export] Instance router_lifecycle : ModelLifecycle (handle * Router) := {|
  load_model s '(b, r) := let '(n, r') := LoadModel h ld b s r in (n, (b + 8, r'));
  unload_model n '(b, r) := let '(ok, r') := UnloadModel view n r in (ok, (b, r')) |}.
End RouterLifecycle.

(** ** Examples *)

(** A lifecycle that names models after their paths. *)
#[export] Instance path_lifecycle : ModelLifecycle nat := {|
  load_model s n := ("m"%char :: spec_path s, S n); unload_model _ n := (true, S n) |}.

#[export] Instance path_compliant : Compliant (St := nat).
Proof. by constructor. Qed.

Definition two_models : list ModelLoadSpec := [cpu_spec "/m/b.gguf"; cpu_spec "/m/a.gguf"].
Definition same_text (a b : bytes) : bool := bool_decide (a = b).

Lemma registry_ok_empty : registry_ok empty_registry.
Proof. split; [done|apply map_Forall_empty]. Qed.

Definition settled_run : Z * Registry * nat := ApplyEntries (St := nat) same_text two_models empty_registry 0.

Lemma registry_converges_witness :
  (settled_run.1.1, settled_run.2) = (2%Z, 2) /\
  ApplyEntries same_text two_models settled_run.1.2 settled_run.2 = (0%Z, settled_run.1.2, settled_run.2).
Proof.
  refine (conj _ _); [vm_compute; reflexivity|].
  pose proof (registry_converges (St := nat) same_text two_models
    (<[bytes_of "/m/a.gguf" := cpu_spec "/m/a.gguf"]> {[bytes_of "/m/b.gguf" := cpu_spec "/m/b.gguf"]}) empty_registry 0 registry_ok_empty) as Hc.
  fold settled_run in Hc. destruct settled_run as [[net reg] calls]. refine (proj2 (proj2 (Hc _ _))); apply (bool_decide_unpack _); vm_compute; exact I.
Defined.

(** Against the router itself: one model leaves the file, another comes in. *)
Definition demo_lifecycle : ModelLifecycle (handle * Router) := router_lifecycle plain_host open_loader (fun _ => idle_view).

Definition reload1 : Z * Registry * (handle * Router) := @ApplyEntries _ demo_lifecycle same_text two_models empty_registry (0, demo0).
Definition reload2 : Z * Registry * (handle * Router) := @ApplyEntries _ demo_lifecycle same_text [cpu_spec "/m/b.gguf"] reload1.1.2 reload1.2.

Lemma registry_reload_witness :
  reload1.1.1 = 2%Z /\ reload2.1.1 = (-1)%Z /\ path_to_id reload2.1.2 !! bytes_of "/m/b.gguf" = Some (bytes_of "b") /\ registry_ok reload2.1.2.
Proof.
  refine (conj _ (conj _ (conj _ _))); [vm_compute; reflexivity|vm_compute; reflexivity|vm_compute; reflexivity|].
  pose proof (@registry_reload _ demo_lifecycle same_text two_models empty_registry (0, demo0) registry_ok_empty) as H1.
  fold reload1 in H1. pose proof (@registry_reload _ demo_lifecycle same_text [cpu_spec "/m/b.gguf"] reload1.1.2 reload1.2) as H2.
  fold reload2 in H2. destruct reload2 as [[net2 reg2] st2]. destruct reload1 as [[net1 reg1] st1]. destruct H1 as [Hok _]. exact (proj1 (H2 Hok)).
Defined.
