(* ===== verification/SeqSlots.v ===== *)
(** * scheduler: the life of a sequence slot

    The slot paths of scheduler.cpp: [AllocSeqSlot], [FreeSeqSlot],
    [PollDeferredSequenceRetirements] and what a finished request gives back.  They
    compose the slot manager, the prefix cache (whose donors hold slots, and whose
    eviction callback, set in server/main.cpp, frees them), the frees that a backend has
    not finished yet, the retained sessions and the pool of KV blocks.

    Backends are numbered; their [BeginFreeSequence] and [FreeSequence] calls are
    recorded, and whether a free is still pending is an argument.  [now], [clock] are
    readings of the steady clock.  Each operation runs without interference: the
    scheduler's callers hold its locks. *)

From stdpp Require Import base tactics numbers list strings gmap sets.
From S2P Require Import Prelude SessionHandles RadixCache SlotManager.

Record SequenceReleaseFence := mkFence { pending : bool; token : Z }.

Record DeferredSequenceRetirement := mkDeferred {
  d_backend : option nat; d_lease : SequenceLease; d_fence : SequenceReleaseFence }.

Definition kMaxSequenceSlots : Z := 128.

Section Slots.
Context {P : Type} `{BlockPool P}.

(** [freed]: the sequences that backends were told to free, in order. *)
Record Sched := mkSched {
  slot_manager : SequenceSlotManager; prefix_cache : RadixPrefixCache (P := P);
  deferred : list DeferredSequenceRetirement; freed : list (nat * Z) }.

Definition set_manager (m : SequenceSlotManager) (w : Sched) : Sched := mkSched m (prefix_cache w) (deferred w) (freed w).
Definition set_prefix (c : RadixPrefixCache) (w : Sched) : Sched := mkSched (slot_manager w) c (deferred w) (freed w).
Definition set_deferred (l : list DeferredSequenceRetirement) (w : Sched) : Sched := mkSched (slot_manager w) (prefix_cache w) l (freed w).
Definition log_free (b : nat) (slot : Z) (w : Sched) : Sched := mkSched (slot_manager w) (prefix_cache w) (deferred w) (freed w ++ [(b, slot)]).

Context (alive : nat -> bool) (is_llama : nat -> bool).

(** The bound of the slot manager: the least capacity that the metrics gauge and the
    loaded backends publish, if any. *)
Definition fold_capacity (acc c : Z) : Z := if (0 <? c)%Z then (if (0 <? acc)%Z then Z.min acc c else c) else acc.

Definition slot_capacity (gauge : Z) (capacities : list Z) : Z :=
  let kv := foldl fold_capacity gauge capacities in
  if (0 <? kv)%Z then Z.min kMaxSequenceSlots kv else kMaxSequenceSlots.

(** [fence] is what [BeginFreeSequence] returns; [t0] ... [t2] are clock readings. *)
Definition FreeSeqSlot (fence : SequenceReleaseFence) (t0 t1 t2 : Z) (slot generation : Z) (backend : option nat) (w : Sched) : Sched :=
  if (slot <? 0)%Z || (kMaxSequenceSlots <=? slot)%Z then w
  else
    let m := slot_manager w in
    let lease := mkLease slot generation (-1) in
    match backend with
    | Some b =>
        if (generation =? 0)%Z then set_manager (ReleaseSlot m slot) (log_free b slot w)
        else match RetireLease m lease Pending t0 with
             | (_, false) => w
             | (m', true) =>
                 let w := log_free b slot (set_manager m' w) in
                 if pending fence then set_deferred (deferred w ++ [mkDeferred (Some b) lease fence]) w
                 else set_manager (CompleteRetiredLease m' lease).1 w
             end
    | None =>
        if (generation =? 0)%Z then set_manager (ReleaseSlot m slot) w
        else set_manager (SlotManager.ReleaseLease m lease t0 t1 t2).1 w
    end.

(** [polled d]: what [PollFreeSequence] answers for the fence of [d]. *)
Definition retirement_ready (polled : DeferredSequenceRetirement -> bool) (d : DeferredSequenceRetirement) : bool :=
  match d_backend d with None => true | Some _ => polled d end.

Fixpoint poll_loop (polled : DeferredSequenceRetirement -> bool) (l : list DeferredSequenceRetirement) (m : SequenceSlotManager)
    : list DeferredSequenceRetirement * SequenceSlotManager :=
  match l with
  | [] => ([], m)
  | d :: l' =>
      if retirement_ready polled d then poll_loop polled l' (CompleteRetiredLease m (d_lease d)).1
      else let '(kept, m') := poll_loop polled l' m in (d :: kept, m')
  end.

Definition PollDeferredSequenceRetirements (polled : DeferredSequenceRetirement -> bool) (w : Sched) : Sched :=
  let '(kept, m) := poll_loop polled (deferred w) (slot_manager w) in set_deferred kept (set_manager m w).

(** *** Calls out of the prefix cache *)

Definition no_fence : SequenceReleaseFence := mkFence false 0.

(** The callback carries no generation, and the backend only if it is a llama.cpp one. *)
Definition run_event (w : Sched) (ev : event) : Sched :=
  match ev with
  | EvFreeSequence b seq => log_free b seq w
  | EvEvictCallback seq be => FreeSeqSlot no_fence 0 0 0 seq 0 (be ≫= fun b => if is_llama b then Some b else None) w
  end.

Definition clear_events (c : RadixPrefixCache (P := P)) : RadixPrefixCache :=
  mkRadix (kv_cache c) (on_evict_seq c) (capacity c) (max_sequences c) (size_ c) (live_sequences c) (clock c) (root c) [].

(** The cache after an operation, and the calls it made. *)
Definition run_events (c : RadixPrefixCache) (w : Sched) : Sched := set_prefix (clear_events c) (foldl run_event w (events c)).

(** *** Allocation *)

(** The retry loop: the retired donors, in order, and the lease. *)
Fixpoint retry_loop (fuel : nat) (clk : nat -> Z) (k : nat) (req cap : Z) (w : Sched) (retired : list Z)
    : Sched * option SequenceLease * list Z :=
  match fuel with
  | O => (w, None, retired)
  | S fuel' =>
      match EvictOneSequence alive (prefix_cache w) with
      | (_, None) => (w, None, retired)
      | (c, Some donor) =>
          let w := run_events c w in
          match SlotManager.AcquireLease (slot_manager w) req cap (clk (2 * k)) (clk (2 * k + 1)) with
          | (m, Some l) => (set_manager m w, Some l, retired ++ [donor])
          | (m, None) => retry_loop fuel' clk (S k) req cap (set_manager m w) (retired ++ [donor])
          end
      end
  end.

(** One turn per donor, and one to find none. *)
Definition retry_fuel (w : Sched) : nat := S (Z.to_nat (live_sequences (prefix_cache w))).

(** The slot with its generation ([-1] is [None]), and the retired donors. *)
Definition AllocSeqSlot (polled : DeferredSequenceRetirement -> bool) (clk : nat -> Z) (req cap : Z) (w : Sched)
    : Sched * option (Z * Z) * list Z :=
  let w := PollDeferredSequenceRetirements polled w in
  let '(w, lease, retired) :=
    match SlotManager.AcquireLease (slot_manager w) req cap (clk 0) (clk 1) with
    | (m, Some l) => (set_manager m w, Some l, [])
    | (m, None) => let w := set_manager m w in retry_loop (retry_fuel w) clk 1 req cap w []
    end in
  (w, (fun l => (lease_slot l, lease_generation l)) <$> lease, retired).

(** A finished prompt is donated to the prefix cache with its slot. *)
Definition Donate (tokens bt : list Z) (seq : Z) (be : option nat) (w : Sched) : Sched * bool :=
  let '(c, ok) := Insert alive (prefix_cache w) tokens bt seq be in (run_events c w, ok).
End Slots.

(** ** Slots that are taken *)

(** A slot whose sequence is alive, and one whose backend has not finished freeing it. *)
Definition held (m : SequenceSlotManager) (q : Z) : Prop :=
  (0 <= q)%Z /\ exists s, slots m !! Z.to_nat q = Some s /\ state s ∈ [kPrefilling; kDecoding; kCompleted].

Definition awaiting (m : SequenceSlotManager) (l : SequenceLease) : Prop :=
  (0 <= lease_slot l)%Z /\ exists s, slots m !! Z.to_nat (lease_slot l) = Some s /\
    generation s = lease_generation l /\ state s = kRetiring /\ retire_ready_at s = Pending.

Lemma held_awaiting m q l : held m q -> awaiting m l -> q <> lease_slot l.
Proof.
  intros (_ & s & Hs & Hst) (_ & s' & Hs' & _ & Hst' & _) ->. rewrite Hs in Hs'. injection Hs' as <-. rewrite Hst' in Hst.
  set_solver.
Qed.

(** Managers of the same shape that agree outside a set of slots. *)
Definition agree (changed : list Z) (m m' : SequenceSlotManager) : Prop :=
  max_slots m' = max_slots m /\ length (slots m') = length (slots m) /\
  forall j : nat, Z.of_nat j ∉ changed -> slots m' !! j = slots m !! j.

Lemma agree_refl c m : agree c m m.
Proof. done. Qed.

Lemma agree_trans c1 c2 m1 m2 m3 : agree c1 m1 m2 -> agree c2 m2 m3 -> agree (c1 ++ c2) m1 m3.
Proof.
  intros (A1 & A2 & A3) (B1 & B2 & B3). split_and!; [congruence|congruence|]. intros j Hj. rewrite B3, A3 by set_solver. done.
Qed.

Lemma agree_held c m m' q : agree c m m' -> q ∉ c -> held m q -> held m' q.
Proof. intros (_ & _ & A) Hq (H0 & s & Hs & Hst). split; [done|]. exists s. rewrite A; [done|]. by rewrite Z2Nat.id. Qed.

Lemma agree_awaiting c m m' l : agree c m m' -> lease_slot l ∉ c -> awaiting m l -> awaiting m' l.
Proof. intros (_ & _ & A) Hq (H0 & s & Hs & Hst). split; [done|]. exists s. rewrite A; [done|]. by rewrite Z2Nat.id. Qed.

Lemma update_agree m i f : agree [Z.of_nat i] m (update_slot m i f).
Proof.
  unfold update_slot, set_slots. split_and!; cbn; [done|by rewrite length_alter|].
  intros j Hj. rewrite list_lookup_alter_ne; [done|]. intros ->. set_solver.
Qed.

Lemma ReleaseSlot_agree m q : (0 <= q)%Z -> agree [q] m (ReleaseSlot m q).
Proof. intros Hq. unfold ReleaseSlot. case_match; [|apply agree_refl]. rewrite <- (Z2Nat.id q) at 1 by done. apply update_agree. Qed.

Lemma Complete_agree m l : agree [lease_slot l] m (CompleteRetiredLease m l).1.
Proof.
  unfold CompleteRetiredLease. destruct (LockAndValidateLease _ _ _) as [i|] eqn:E; [|apply agree_refl].
  apply LockAndValidateLease_Some in E as (s & _ & -> & _). apply update_agree.
Qed.

Lemma Retire_agree m l fence now : agree [lease_slot l] m (RetireLease m l fence now).1.
Proof.
  unfold RetireLease. destruct (LockAndValidateLease _ _ _) as [i|] eqn:E; [|apply agree_refl].
  apply LockAndValidateLease_Some in E as (s & _ & -> & _). apply update_agree.
Qed.

(** Reaping leaves every slot alone that is held or awaits its backend. *)
Lemma reap_lookup_at m now i : slots (ReapRetiredSlotsLocked m now).1 !! i = (fun s => if reapable now s then ResetSlotForReuse s else s) <$> slots m !! i.
Proof. cbn. apply list_lookup_fmap. Qed.

Lemma reap_held m now q : held m q -> held (ReapRetiredSlotsLocked m now).1 q.
Proof.
  intros (H0 & s & Hs & Hst). split; [done|]. exists s. rewrite reap_lookup_at, Hs. cbn. split; [|done]. unfold reapable.
  rewrite bool_decide_eq_false_2; [done|]. intros E. rewrite E in Hst. set_solver.
Qed.

Lemma reap_awaiting m now l : (now < time_max)%Z -> awaiting m l -> awaiting (ReapRetiredSlotsLocked m now).1 l.
Proof.
  intros Hn (H0 & s & Hs & Hg & Hst & Hr). split; [done|]. exists s. rewrite reap_lookup_at, Hs. cbn. split; [|done]. unfold reapable.
  rewrite Hr, (proj2 (Z.leb_gt _ _)) by done. by rewrite andb_false_r.
Qed.

Record slots_wf (m : SequenceSlotManager) : Prop := {
  wf_length : length (slots m) = max_slots m;
  wf_bound : (Z.of_nat (max_slots m) <= kMaxSequenceSlots)%Z;
  wf_ids : forall i s, slots m !! i = Some s -> slot_id s = Z.of_nat i }.

Lemma reap_wf m now : slots_wf m -> slots_wf (ReapRetiredSlotsLocked m now).1.
Proof.
  intros [Hl Hb Hi]. constructor; [cbn; by rewrite length_fmap|done|]. intros i s. rewrite reap_lookup_at.
  destruct (slots m !! i) as [s0|] eqn:E; [|done]. intros [= <-]. apply Hi in E. by destruct (reapable now s0).
Qed.

Lemma update_wf m i f : (forall s, slot_id (f s) = slot_id s) -> slots_wf m -> slots_wf (update_slot m i f).
Proof.
  intros Hf [Hl Hb Hi]. constructor; [cbn; by rewrite length_alter|done|]. intros j s. cbn. rewrite list_lookup_alter.
  case_decide as Hij; [|apply Hi]. subst j. destruct (slots m !! i) as [s0|] eqn:E; [|done]. intros [= <-]. rewrite Hf. by apply Hi.
Qed.

Lemma lease_wf m l acc f : (forall s, slot_id (f s) = slot_id s) -> slots_wf m ->
  slots_wf (match LockAndValidateLease m l acc with None => (m, false) | Some i => (update_slot m i f, true) end).1.
Proof. intros Hf Hm. case_match; [by apply update_wf|done]. Qed.

Lemma ReleaseSlot_wf m q : slots_wf m -> slots_wf (ReleaseSlot m q).
Proof. intros Hm. unfold ReleaseSlot. case_match; [by apply update_wf|done]. Qed.

(** A lease that is granted is for a slot that was neither held nor awaited. *)
Lemma acquire_spec m req cap t0 t1 m' l :
  slots_wf m -> (t0 < time_max)%Z -> SlotManager.AcquireLease m req cap t0 t1 = (m', Some l) ->
  exists s, slots m' !! Z.to_nat (lease_slot l) = Some s /\ state s = kPrefilling /\ generation s = lease_generation l /\
    request_id s = req /\ (0 <= lease_slot l)%Z /\ ((0 < cap)%Z -> (lease_slot l < cap)%Z) /\
    ~ held m (lease_slot l) /\ (forall l', awaiting m l' -> lease_slot l' <> lease_slot l) /\ slots_wf m' /\
    (forall q, held m q -> held m' q) /\ (forall l', awaiting m l' -> awaiting m' l').
Proof.
  intros Hwf Ht E. pose proof (AcquireLease_effect m req cap t0 t1) as He. rewrite E in He.
  destruct He as (i & s1 & Hf & Hs1 & Hel & -> & ->). cbn [lease_slot lease_generation].
  pose proof (reap_wf m t0 Hwf) as Hwf1. set (m1 := (ReapRetiredSlotsLocked m t0).1) in *.
  unfold eligible in Hel. apply andb_prop in Hel as [Hc Hfree]. pose proof (wf_ids _ Hwf1 _ _ Hs1) as Hid.
  assert (Hnh : ~ held m1 (Z.of_nat i)).
  { intros (_ & s & Hs & Hst). rewrite Nat2Z.id, Hs1 in Hs. injection Hs as <-. unfold is_free in Hfree.
    apply orb_prop in Hfree as [Hx|Hx]; apply bool_decide_eq_true in Hx; rewrite Hx in Hst; set_solver. }
  assert (Hna : forall l', awaiting m1 l' -> lease_slot l' <> Z.of_nat i).
  { intros l' (_ & s & Hs & _ & Hst & _) Hl. rewrite Hl, Nat2Z.id, Hs1 in Hs. injection Hs as <-. unfold is_free in Hfree. by rewrite Hst in Hfree. }
  exists (acquire_entry req t1 s1). rewrite Nat2Z.id. split_and!; try done.
  - unfold update_slot, set_slots. cbn [slots]. by rewrite list_lookup_alter_eq, Hs1.
  - lia.
  - intros Hcap. apply orb_prop in Hc as [Hc|Hc]; [apply Z.leb_le in Hc; lia|]. apply Z.ltb_lt in Hc. lia.
  - intros Hh. by apply Hnh, reap_held.
  - intros l' Hl. apply Hna. by apply reap_awaiting.
  - by apply update_wf.
  - intros q Hq. apply (agree_held [Z.of_nat i] m1); [apply update_agree| |by apply reap_held].
    intros ->%list_elem_of_singleton. by apply Hnh, reap_held.
  - intros l' Hl. apply (agree_awaiting [Z.of_nat i] m1); [apply update_agree| |by apply reap_awaiting].
    intros Hx%list_elem_of_singleton. by apply (Hna l'); [apply reap_awaiting|].
Qed.

Lemma acquire_none m req cap t0 t1 m' :
  slots_wf m -> (t0 < time_max)%Z -> SlotManager.AcquireLease m req cap t0 t1 = (m', None) ->
  slots_wf m' /\ (forall q, held m q -> held m' q) /\ (forall l', awaiting m l' -> awaiting m' l') /\
  (forall i s, slots m' !! i = Some s -> is_free s = true -> (0 < cap <= slot_id s)%Z).
Proof.
  intros Hwf Ht E. pose proof (AcquireLease_effect m req cap t0 t1) as He. rewrite E in He. destruct He as [-> Hf].
  split_and!; [by apply reap_wf|by intros; apply reap_held|by intros; apply reap_awaiting|].
  intros i s Hs Hfree. unfold FindFreeSlot in Hf. apply find_index_None in Hf. pose proof (Forall_lookup_1 _ _ _ _ Hf Hs) as Hel. cbn beta in Hel. unfold eligible in Hel.
  rewrite Hfree, andb_true_r in Hel. apply orb_false_iff in Hel as [?%Z.leb_gt ?%Z.ltb_ge]. lia.
Qed.

(** ** The invariant of the scheduler's slots *)

Section Invariant.
Context {P : Type} `{BlockPoolLaws P} (alive : nat -> bool) (is_llama : nat -> bool).

Definition donors (w : Sched (P := P)) : list Z := donor_seqs (contents (prefix_cache w)).
Definition deferred_slots (w : Sched (P := P)) : list Z := (fun d => lease_slot (d_lease d)) <$> deferred w.

(** Donors of the prefix cache hold their slots, deferred retirements await theirs,
    and no slot is claimed twice. *)
Record sched_ok (w : Sched (P := P)) : Prop := {
  ok_slots : slots_wf (slot_manager w);
  ok_radix : radix_inv (prefix_cache w);
  ok_callback : on_evict_seq (prefix_cache w) = true;
  ok_events : events (prefix_cache w) = [];
  ok_donors_nodup : NoDup (donors w);
  ok_donors : Forall (held (slot_manager w)) (donors w);
  ok_deferred_nodup : NoDup (deferred_slots w);
  ok_deferred : Forall (fun d => awaiting (slot_manager w) (d_lease d)) (deferred w) }.

Lemma set_manager_ok m w :
  sched_ok w -> slots_wf m -> (forall q, q ∈ donors w -> held (slot_manager w) q -> held m q) ->
  (forall d, d ∈ deferred w -> awaiting (slot_manager w) (d_lease d) -> awaiting m (d_lease d)) -> sched_ok (set_manager m w).
Proof.
  intros [Hs Hr Hc He Hn Hd Hn' Ha] Hm Hh Haw. constructor; try done; cbn.
  - apply Forall_forall. intros q Hq. apply Hh; [done|]. by eapply Forall_forall in Hd.
  - apply Forall_forall. intros d Hin. apply Haw; [done|]. eapply Forall_forall in Ha; [exact Ha|done].
Qed.

Lemma log_free_ok b q w : sched_ok w -> sched_ok (log_free b q w).
Proof. intros []. by constructor. Qed.

(** *** Deferred retirements *)

Lemma poll_loop_spec polled (l : list DeferredSequenceRetirement) (m : SequenceSlotManager) :
  slots_wf m -> NoDup ((fun d => lease_slot (d_lease d)) <$> l) ->
  let '(kept, m') := poll_loop polled l m in
  kept = filter (fun d => retirement_ready polled d = false) l /\ slots_wf m' /\
  agree ((fun d => lease_slot (d_lease d)) <$> filter (fun d => retirement_ready polled d = true) l) m m'.
Proof.
  revert m. induction l as [|d l IH]; intros m Hwf Hnd; cbn [poll_loop]; [done|].
  rewrite fmap_cons in Hnd. apply NoDup_cons in Hnd as [Hd Hnd]. rewrite !filter_cons. destruct (retirement_ready polled d) eqn:Er.
  - assert (Hwf1 : slots_wf (CompleteRetiredLease m (d_lease d)).1) by (by apply lease_wf).
    specialize (IH _ Hwf1 Hnd). destruct (poll_loop polled l _) as [kept m']. destruct IH as (-> & H2 & H3).
    rewrite decide_False by done. rewrite decide_True by done. split_and!; [done|done|].
    rewrite fmap_cons. apply (agree_trans [lease_slot (d_lease d)] _ _ _ _ (Complete_agree m (d_lease d)) H3).
  - specialize (IH _ Hwf Hnd). destruct (poll_loop polled l m) as [kept m']. destruct IH as (-> & H2 & H3).
    rewrite decide_True by done. by rewrite decide_False by done.
Qed.

Lemma ready_slots_separate w polled d :
  sched_ok w -> d ∈ deferred w -> retirement_ready polled d = false ->
  lease_slot (d_lease d) ∉ (fun d => lease_slot (d_lease d)) <$> filter (fun d => retirement_ready polled d = true) (deferred w).
Proof.
  intros Hok Hd Hr (d' & Heq & [Hr' Hd']%list_elem_of_filter)%list_elem_of_fmap.
  pose proof (NoDup_fmap_eq _ _ _ _ (ok_deferred_nodup _ Hok) Hd Hd' Heq). congruence.
Qed.

Lemma poll_ok polled w :
  sched_ok w -> let w' := PollDeferredSequenceRetirements polled w in
  sched_ok w' /\ deferred w' = filter (fun d => retirement_ready polled d = false) (deferred w) /\ prefix_cache w' = prefix_cache w.
Proof.
  intros Hok. unfold PollDeferredSequenceRetirements.
  pose proof (poll_loop_spec polled (deferred w) (slot_manager w) (ok_slots _ Hok) (ok_deferred_nodup _ Hok)) as Hp.
  destruct (poll_loop _ _ _) as [kept m]. destruct Hp as (-> & Hwf & Ha). split; [|done].
  pose proof (fun d Hd => ready_slots_separate w polled d Hok Hd) as Hsep.
  destruct Hok as [Hs Hr Hc He Hn Hd Hn' Haw]. rewrite Forall_forall in Hd. rewrite Forall_forall in Haw. constructor; try done; cbn.
  - apply Forall_forall. intros q Hq. eapply agree_held; [exact Ha| |by apply Hd].
    intros (d & -> & [_ Hin]%list_elem_of_filter)%list_elem_of_fmap. by apply (held_awaiting (slot_manager w) _ _ (Hd _ Hq) (Haw _ Hin)).
  - by apply NoDup_fmap_filter.
  - apply Forall_forall. intros d [Hrd Hin]%list_elem_of_filter. eapply agree_awaiting; [exact Ha|by apply Hsep|by apply Haw].
Qed.

(** *** Frees *)

(** A free under a lease leaves the slots of donors and of deferred retirements alone,
    and a retirement that is pending is recorded. *)
Lemma retire_await m l t : (RetireLease m l Pending t).2 = true -> awaiting (RetireLease m l Pending t).1 l /\ held m (lease_slot l).
Proof.
  unfold RetireLease. destruct (LockAndValidateLease _ _ _) as [i|] eqn:E; [|done]. intros _.
  apply LockAndValidateLease_Some in E as (s & Hs & Hl & Hg & Hst & _). unfold awaiting, held. rewrite Hl, Nat2Z.id. split.
  - split; [lia|]. eexists. unfold update_slot, set_slots. cbn. rewrite list_lookup_alter_eq, Hs. done.
  - split; [lia|eauto].
Qed.

(** Slots other than [slot] keep what they are. *)
Definition spares (slot : Z) (m m' : SequenceSlotManager) : Prop :=
  slots_wf m' /\ (forall q, q <> slot -> held m q -> held m' q) /\ (forall l, lease_slot l <> slot -> awaiting m l -> awaiting m' l).

Lemma agree_spares slot m m' : agree [slot] m m' -> slots_wf m' -> spares slot m m'.
Proof.
  intros Ha Hm. split_and!; [done| |].
  - intros q Hq. apply (agree_held [slot]); [done|]. by intros ?%list_elem_of_singleton.
  - intros l Hl. apply (agree_awaiting [slot]); [done|]. by intros ?%list_elem_of_singleton.
Qed.

Lemma spares_trans slot m1 m2 m3 : spares slot m1 m2 -> spares slot m2 m3 -> spares slot m1 m3.
Proof. intros (A1 & A2 & A3) (B1 & B2 & B3). split_and!; auto. Qed.

Lemma spares_ok slot m w :
  sched_ok w -> slot ∉ donors w -> slot ∉ deferred_slots w -> spares slot (slot_manager w) m -> sched_ok (set_manager m w).
Proof.
  intros Hok Hnd Hnf (Hm & Hh & Ha). apply set_manager_ok; [done|done| |].
  - intros q Hq. apply Hh. by intros ->.
  - intros d Hd. apply Ha. intros E. apply Hnf. rewrite <- E. by apply (list_elem_of_fmap_2 (fun d => lease_slot (d_lease d))).
Qed.

Lemma complete_spares m l : slots_wf m -> spares (lease_slot l) m (CompleteRetiredLease m l).1.
Proof. intros Hm. apply agree_spares; [apply Complete_agree|by apply lease_wf]. Qed.

Lemma retire_spares m l fence t : slots_wf m -> spares (lease_slot l) m (RetireLease m l fence t).1.
Proof. intros Hm. apply agree_spares; [apply Retire_agree|by apply lease_wf]. Qed.

Lemma release_spares m l t0 t1 t2 : slots_wf m -> (t2 < time_max)%Z -> spares (lease_slot l) m (SlotManager.ReleaseLease m l t0 t1 t2).1.
Proof.
  intros Hm Ht. unfold SlotManager.ReleaseLease, ReleaseLease_retire, ReleaseLease_reap.
  pose proof (retire_spares m l (Immediate t0) t1 Hm) as Hr. destruct (RetireLease _ _ _ _) as [m1 []]; [|done]. cbn in Hr.
  apply (spares_trans _ _ m1); [done|]. destruct Hr as (Hm1 & _). split_and!; [by apply reap_wf|by intros; apply reap_held|by intros; apply reap_awaiting].
Qed.

Lemma defer_ok d w :
  sched_ok w -> lease_slot (d_lease d) ∉ deferred_slots w -> awaiting (slot_manager w) (d_lease d) -> sched_ok (set_deferred (deferred w ++ [d]) w).
Proof.
  intros [Hs Hr Hc He Hn Hd Hn' Ha] Hnf Haw. constructor; try done; cbn.
  - unfold deferred_slots. cbn. rewrite fmap_app. apply NoDup_app. split_and!; [done| |apply NoDup_singleton].
    intros x Hx ->%list_elem_of_singleton. done.
  - apply Forall_app. split; [done|]. by apply Forall_singleton.
Qed.

(** The lease names the live sequence of its slot. *)
Definition live_lease (m : SequenceSlotManager) (slot gen : Z) : Prop :=
  (0 <= slot)%Z /\ exists s, slots m !! Z.to_nat slot = Some s /\ generation s = gen /\ state s ∈ [kPrefilling; kDecoding; kCompleted].

Lemma dead_lease_rejected m slot gen req : ~ live_lease m slot gen -> LockAndValidateLease m (mkLease slot gen req) [kPrefilling; kDecoding; kCompleted] = None.
Proof.
  intros Hd. destruct (LockAndValidateLease _ _ _) as [i|] eqn:E; [|done]. exfalso. apply Hd.
  apply LockAndValidateLease_Some in E as (s & Hs & Hl & Hg & Hst & _). cbn in Hl, Hg. split; [lia|]. exists s. by rewrite Hl, Nat2Z.id.
Qed.

Lemma dead_free_noop fence t0 t1 t2 slot gen be (w : Sched (P := P)) :
  gen <> 0%Z -> ~ live_lease (slot_manager w) slot gen -> FreeSeqSlot fence t0 t1 t2 slot gen be w = w.
Proof.
  intros Hg Hd. unfold FreeSeqSlot. destruct ((slot <? 0)%Z || _); [done|]. rewrite (proj2 (Z.eqb_neq gen 0) Hg). cbv zeta.
  unfold SlotManager.ReleaseLease, ReleaseLease_retire, RetireLease. rewrite (dead_lease_rejected _ _ _ _ Hd). destruct be; [done|]. by destruct w.
Qed.

Lemma free_lease_ok fence t0 t1 t2 slot gen be w :
  sched_ok w -> gen <> 0%Z -> (t2 < time_max)%Z -> slot ∉ donors w -> sched_ok (FreeSeqSlot fence t0 t1 t2 slot gen be w).
Proof.
  intros Hok Hg Ht Hnd. destruct (decide (slot ∈ deferred_slots w)) as [Hin|Hnf].
  { rewrite dead_free_noop; [done|done|]. intros (Hpos & s & Hs & _ & Hst). apply list_elem_of_fmap in Hin as (d & -> & Hd).
    pose proof (ok_deferred _ Hok) as Ha. rewrite Forall_forall in Ha. by apply (held_awaiting (slot_manager w) (lease_slot (d_lease d)) (d_lease d)); [split; eauto|apply Ha|]. }
  unfold FreeSeqSlot. destruct ((slot <? 0)%Z || _); [done|]. rewrite (proj2 (Z.eqb_neq gen 0) Hg). cbv zeta.
  set (lease := mkLease slot gen (-1)). pose proof (ok_slots _ Hok) as Hwf. destruct be as [b|].
  - pose proof (retire_spares (slot_manager w) lease Pending t0 Hwf) as Hsp. pose proof (retire_await (slot_manager w) lease t0) as Haw.
    destruct (RetireLease _ _ _ _) as [m' []]; [|done]. destruct (Haw eq_refl) as [Ha _]. cbn in Hsp, Ha.
    pose proof (spares_ok slot m' w Hok Hnd Hnf Hsp) as Hok'. destruct (pending fence).
    + apply defer_ok; [by apply log_free_ok|done|done].
    + apply (spares_ok slot); [by apply log_free_ok|done|done|]. apply (complete_spares _ lease). apply Hsp.
  - apply (spares_ok slot); auto. by apply (release_spares _ lease).
Qed.

(** *** Calls out of the prefix cache *)

(** Each callback frees the slot it names and nothing else. *)
Lemma run_event_spec (w : Sched (P := P)) ev :
  let w' := run_event is_llama w ev in
  prefix_cache w' = prefix_cache w /\ deferred w' = deferred w /\
  (slots_wf (slot_manager w) -> slots_wf (slot_manager w')) /\ agree (callback_seqs [ev]) (slot_manager w) (slot_manager w').
Proof.
  destruct ev as [b q|q be]; [split_and!; try done; apply agree_refl|]. cbn [run_event]. unfold FreeSeqSlot.
  destruct ((q <? 0)%Z || _) eqn:Eq; [split_and!; try done; apply agree_refl|]. apply orb_false_iff in Eq as [Hq%Z.ltb_ge _].
  destruct (be ≫= _); (split_and!; [done|done|by apply ReleaseSlot_wf|]); apply (ReleaseSlot_agree (slot_manager w) q Hq).
Qed.

Lemma run_events_spec evs (w : Sched (P := P)) :
  let w' := foldl (run_event is_llama) w evs in
  prefix_cache w' = prefix_cache w /\ deferred w' = deferred w /\
  (slots_wf (slot_manager w) -> slots_wf (slot_manager w')) /\ agree (callback_seqs evs) (slot_manager w) (slot_manager w').
Proof.
  revert w. induction evs as [|ev evs IH]; intros w; [split_and!; try done; apply agree_refl|]. cbn [foldl].
  destruct (run_event_spec w ev) as (A1 & A2 & A3 & A4), (IH (run_event is_llama w ev)) as (B1 & B2 & B3 & B4).
  split_and!; [congruence|congruence|auto|]. change (ev :: evs) with ([ev] ++ evs). unfold callback_seqs. rewrite omap_app.
  by apply (agree_trans _ _ _ _ _ A4 B4).
Qed.

(** After an operation of the cache that gives up the donors [callback_seqs]. *)
Lemma run_events_ok c w new :
  sched_ok w -> radix_inv c -> on_evict_seq c = true ->
  slot_ledger c ≡ₚ new ++ donors w -> NoDup (new ++ donors w) -> Forall (held (slot_manager w)) new ->
  sched_ok (run_events is_llama c w).
Proof.
  intros Hok Hr Hc Hled Hnd Hnew. unfold run_events. destruct (run_events_spec (events c) w) as (_ & Hd & Hs & Ha).
  assert (Hall : Forall (held (slot_manager w)) (slot_ledger c)).
  { rewrite Hled. apply Forall_app. split; [done|apply (ok_donors _ Hok)]. }
  rewrite <- Hled in Hnd. unfold slot_ledger in Hall, Hnd. apply Forall_app in Hall as [Hh Hcb].
  apply NoDup_app in Hnd as (Hnd1 & Hdisj & _). rewrite Forall_forall in Hh. rewrite Forall_forall in Hcb.
  constructor; cbn; [auto using ok_slots|by destruct Hr|done|done|done| | |].
  - apply Forall_forall. intros q Hq. eapply agree_held; [exact Ha|by apply Hdisj|by apply Hh].
  - unfold deferred_slots. cbn. rewrite Hd. apply (ok_deferred_nodup _ Hok).
  - rewrite Hd. pose proof (ok_deferred _ Hok) as Haw. rewrite Forall_forall in Haw. apply Forall_forall. intros d Hin.
    eapply agree_awaiting; [exact Ha| |by apply Haw]. intros Hx%Hcb. by apply (held_awaiting _ _ _ Hx (Haw _ Hin)).
Qed.

Lemma evict_one c c' q :
  radix_inv c -> on_evict_seq c = true -> EvictOneSequence alive c = (c', Some q) ->
  radix_inv c' /\ on_evict_seq c' = true /\ slot_ledger c' ≡ₚ slot_ledger c /\
  donor_seqs (contents c) ≡ₚ q :: donor_seqs (contents c') /\ live_sequences c' = (live_sequences c - 1)%Z.
Proof.
  intros Hi Hcb He. apply (EvictOneSequenceLocked_effect alive) in He as (path & i & rest & -> & Hd & _ & Hr); [|done].
  pose proof (retired_live _ _ _ _ _ _ Hi Hr) as Hl. rewrite Hd in Hl. pose proof (retired_ledger _ _ _ _ _ _ Hcb Hr) as Hled.
  pose proof Hr as [Hb Ha _ _ (_ & _ & Hoc) Hi']. split_and!; auto; [congruence|].
  rewrite (donor_seqs_perm _ _ Hb), donor_seqs_cons, Hd. cbn. f_equiv.
  destruct Ha as [Ha|Ha]; rewrite (donor_seqs_perm _ _ Ha); [done|]. by rewrite donor_seqs_cons.
Qed.

(** Retiring a donor and running its callback. *)
Lemma evict_ok w c q :
  sched_ok w -> EvictOneSequence alive (prefix_cache w) = (c, Some q) ->
  let w' := run_events is_llama c w in
  sched_ok w' /\ donors w ≡ₚ q :: donors w' /\ deferred w' = deferred w /\
  live_sequences (prefix_cache w') = (live_sequences (prefix_cache w) - 1)%Z.
Proof.
  intros Hok He. destruct (evict_one _ _ _ (ok_radix _ Hok) (ok_callback _ Hok) He) as (Hi & Hc & Hled & Hd & Hl).
  split_and!; [|done|by destruct (run_events_spec (events c) w) as (_ & Hx & _)|done].
  apply (run_events_ok c w []); auto; [|apply (ok_donors_nodup _ Hok)]. rewrite Hled. unfold slot_ledger. rewrite (ok_events _ Hok).
  cbn. by rewrite app_nil_r.
Qed.

Lemma acquire_ok req cap t0 t1 w m l :
  sched_ok w -> (t0 < time_max)%Z -> SlotManager.AcquireLease (slot_manager w) req cap t0 t1 = (m, l) -> sched_ok (set_manager m w).
Proof.
  intros Hok Ht E. destruct l as [l|].
  - destruct (acquire_spec _ _ _ _ _ _ _ (ok_slots _ Hok) Ht E) as (s & _ & _ & _ & _ & _ & _ & _ & _ & Hwf & Hh & Ha). by apply set_manager_ok; auto.
  - destruct (acquire_none _ _ _ _ _ _ (ok_slots _ Hok) Ht E) as (Hwf & Hh & Ha & _). by apply set_manager_ok; auto.
Qed.

(** What a granted slot is. *)
Definition granted (req cap : Z) (w' : Sched (P := P)) (l : SequenceLease) : Prop :=
  (exists s, slots (slot_manager w') !! Z.to_nat (lease_slot l) = Some s /\ state s = kPrefilling /\
     generation s = lease_generation l /\ request_id s = req) /\
  (0 <= lease_slot l)%Z /\ ((0 < cap)%Z -> (lease_slot l < cap)%Z) /\ lease_slot l ∉ donors w' /\ lease_slot l ∉ deferred_slots w'.

Lemma acquire_granted req cap t0 t1 w m l :
  sched_ok w -> (t0 < time_max)%Z -> SlotManager.AcquireLease (slot_manager w) req cap t0 t1 = (m, Some l) -> granted req cap (set_manager m w) l.
Proof.
  intros Hok Ht E.
  destruct (acquire_spec _ _ _ _ _ _ _ (ok_slots _ Hok) Ht E) as (s & Hs & H1 & H2 & H3 & H4 & H5 & Hnh & Hna & _).
  split_and!; [eauto|done|done| |].
  - intros Hq. apply Hnh. pose proof (ok_donors _ Hok) as Hd. rewrite Forall_forall in Hd. by apply Hd.
  - intros (d & Hd & Hin)%list_elem_of_fmap. pose proof (ok_deferred _ Hok) as Ha. rewrite Forall_forall in Ha. by apply (Hna (d_lease d)); [apply Ha|].
Qed.

Lemma retry_loop_spec fuel clk k req cap w retired :
  (forall i, clk i < time_max)%Z -> sched_ok w -> (live_sequences (prefix_cache w) < Z.of_nat fuel)%Z ->
  (forall i s, slots (slot_manager w) !! i = Some s -> is_free s = true -> (0 < cap <= slot_id s)%Z) ->
  let '(w', lease, retired') := retry_loop alive is_llama fuel clk k req cap w retired in
  sched_ok w' /\ deferred w' = deferred w /\ retired ++ donors w ≡ₚ retired' ++ donors w' /\
  match lease with
  | Some l => granted req cap w' l
  | None => donors w' = [] /\ forall i s, slots (slot_manager w') !! i = Some s -> is_free s = true -> (0 < cap <= slot_id s)%Z
  end.
Proof.
  intros Hclk. revert k w retired. induction fuel as [|fuel IH]; intros k w retired Hok Hf Hfree.
  { pose proof (inv_live _ (ok_radix _ Hok)). lia. }
  cbn [retry_loop]. destruct (EvictOneSequence alive (prefix_cache w)) as [c o] eqn:He.
  pose proof He as Heff. apply (EvictOneSequenceLocked_effect alive) in Heff; [|apply (ok_radix _ Hok)]. destruct o as [q|].
  - destruct (evict_ok _ _ _ Hok He) as (Hok1 & Hd & Hdef & Hl). set (w1 := run_events is_llama c w) in *.
    destruct (SlotManager.AcquireLease _ _ _ _ _) as [m l] eqn:Ea. pose proof (acquire_ok _ _ _ _ _ _ _ Hok1 (Hclk _) Ea) as Hok2.
    assert (Hperm : retired ++ donors w ≡ₚ (retired ++ [q]) ++ donors (set_manager m w1)).
    { rewrite <- app_assoc. cbn. by rewrite Hd. }
    destruct l as [l|].
    + split_and!; auto. by apply (acquire_granted _ _ _ _ _ _ _ Hok1 (Hclk _) Ea).
    + destruct (acquire_none _ _ _ _ _ _ (ok_slots _ Hok1) (Hclk _) Ea) as (_ & _ & _ & Hnone).
      assert (Hlt : (live_sequences (prefix_cache (set_manager m w1)) < Z.of_nat fuel)%Z)
        by (change (prefix_cache (set_manager m w1)) with (prefix_cache w1); lia).
      specialize (IH (S k) (set_manager m w1) (retired ++ [q]) Hok2 Hlt Hnone).
      destruct (retry_loop _ _ _ _ _ _ _ _ _) as [[w' lease] retired']. destruct IH as (I1 & I2 & I3 & I4).
      split_and!; [done|by rewrite I2|by rewrite Hperm|done].
  - destruct Heff as [_ Hl]. split_and!; [done|done|done| |done].
    unfold donors, donor_seqs. rewrite (inv_live _ (ok_radix _ Hok)) in Hl. unfold donor_count in Hl.
    assert (Hz : count_if (fun it : list Z * NodeInfo => is_donor it.2) (contents (prefix_cache w)) = 0) by lia.
    apply count_if_zero in Hz. rewrite Forall_forall in Hz. rewrite filter_none; [done|].
    intros i (it & -> & Hin)%list_elem_of_fmap. rewrite Hz by done. done.
Qed.


(** Freeing a sequence under a lease that is no longer the slot's changes nothing: the
    request that has been given the slot since keeps it, and no backend is told to free
    a sequence. *)
Theorem stale_free_harmless (fence : SequenceReleaseFence) (t0 t1 t2 slot gen : Z) (be : option nat) (w : Sched (P := P)) (s : SequenceSlot) :
  gen <> 0%Z -> slots (slot_manager w) !! Z.to_nat slot = Some s -> generation s <> gen ->
  FreeSeqSlot fence t0 t1 t2 slot gen be w = w.
Proof. intros Hg Hs Hne. apply dead_free_noop; [done|]. intros (_ & s' & Hs' & Hg' & _). congruence. Qed.

(** *** Donations *)

Lemma insert_keeps c tokens bt seq be c' :
  radix_inv c -> Insert alive c tokens bt seq be = (c', true) -> radix_inv c' /\ on_evict_seq c' = on_evict_seq c.
Proof.
  intros Hi Hins. destruct (Insert_effect _ _ _ _ _ _ _ Hi Hins) as (st1 & bl & _ & Hi1 & (_ & _ & Hl) & _ & _ & _ & Hr).
  destruct (insert_walk _ _ _ _).2.
  - destruct Hr as (_ & _ & _ & Hev & Hi' & _). split; [done|]. apply evictions_limits in Hev as (_ & _ & ->). done.
  - by destruct Hr as (-> & _).
Qed.

Lemma insert_false c tokens bt seq be c' : Insert alive c tokens bt seq be = (c', false) -> c' = c.
Proof. unfold Insert. repeat case_match; by intros [= <-]. Qed.

Lemma donate_ok tokens bt seq be w :
  sched_ok w -> held (slot_manager w) seq -> seq ∉ donors w -> sched_ok (Donate alive is_llama tokens bt seq be w).1.
Proof.
  intros Hok Hh Hnd. unfold Donate. destruct (Insert _ _ _ _ _ _) as [c []] eqn:E.
  - destruct (insert_keeps _ _ _ _ _ _ (ok_radix _ Hok) E) as [Hi Hc]. pose proof Hh as [Hpos _]. cbn. apply (run_events_ok c w [seq]); auto.
    + rewrite Hc. apply (ok_callback _ Hok).
    + rewrite (Insert_ledger _ _ _ _ _ _ _ (ok_radix _ Hok) (ok_callback _ Hok) E Hpos Hnd). unfold slot_ledger. rewrite (ok_events _ Hok).
      cbn. by rewrite app_nil_r.
    + cbn. constructor; [done|apply (ok_donors_nodup _ Hok)].
  - apply insert_false in E as ->. unfold run_events. rewrite (ok_events _ Hok). cbn. destruct Hok as [? [] ? ? ? ? ? ?]. by constructor.
Qed.

(** *** Histories *)

(** Requests free their own slots, which are not donated; only a live slot is donated,
    once.  [clk] are the readings of the clock during the step. *)
Inductive sched_step : Sched (P := P) -> Sched (P := P) -> Prop :=
  | step_alloc polled clk req cap w : (forall i, clk i < time_max)%Z -> sched_step w (AllocSeqSlot alive is_llama polled clk req cap w).1.1
  | step_free fence t0 t1 t2 slot gen be w : gen <> 0%Z -> (t2 < time_max)%Z -> slot ∉ donors w -> sched_step w (FreeSeqSlot fence t0 t1 t2 slot gen be w)
  | step_poll polled w : sched_step w (PollDeferredSequenceRetirements polled w)
  | step_donate tokens bt seq be w : held (slot_manager w) seq -> seq ∉ donors w -> sched_step w (Donate alive is_llama tokens bt seq be w).1
  | step_evict w c q : EvictOneSequence alive (prefix_cache w) = (c, Some q) -> sched_step w (run_events is_llama c w).

Lemma alloc_ok polled clk req cap w :
  sched_ok w -> (forall i, clk i < time_max)%Z -> sched_ok (AllocSeqSlot alive is_llama polled clk req cap w).1.1.
Proof.
  intros Hok Hclk. unfold AllocSeqSlot. cbv zeta. destruct (poll_ok polled w Hok) as (Hok1 & _).
  destruct (SlotManager.AcquireLease _ _ _ _ _) as [m [l|]] eqn:Ea; [by eapply acquire_ok|].
  pose proof (acquire_ok _ _ _ _ _ _ _ Hok1 (Hclk _) Ea) as Hok2.
  destruct (acquire_none _ _ _ _ _ _ (ok_slots _ Hok1) (Hclk _) Ea) as (_ & _ & _ & Hnone). set (w2 := set_manager m _) in *.
  pose proof (inv_live _ (ok_radix _ Hok2)) as Hl.
  pose proof (retry_loop_spec (retry_fuel w2) clk 1 req cap w2 [] Hclk Hok2 ltac:(unfold retry_fuel; lia) Hnone) as Hr.
  destruct (retry_loop _ _ _ _ _ _ _ _ _) as [[w' lease] retired]. apply Hr.
Qed.

Lemma sched_step_ok w w' : sched_step w w' -> sched_ok w -> sched_ok w'.
Proof.
  destruct 1; intros Hok; [by apply alloc_ok|by apply free_lease_ok|by apply poll_ok|by apply donate_ok|by eapply evict_ok].
Qed.

Lemma sched_steps_ok w w' : rtc sched_step w w' -> sched_ok w -> sched_ok w'.
Proof. induction 1; eauto using sched_step_ok. Qed.

Definition new_sched (n : nat) (now : Z) (kv : option P) (cap maxs : nat) : Sched (P := P) :=
  mkSched (newManager n now) (newRadix kv true cap maxs) [] [].

Lemma new_sched_ok n now kv cap maxs : (Z.of_nat n <= kMaxSequenceSlots)%Z -> sched_ok (new_sched n now kv cap maxs).
Proof.
  intros Hn. constructor; [|apply newRadix_inv|reflexivity|reflexivity|constructor|constructor|constructor|constructor].
  unfold newManager, InitializeSlots. constructor; cbn; [by rewrite length_fmap, length_seq|done|].
  intros i s. rewrite list_lookup_fmap. intros (j & Hj & ->)%fmap_Some. by apply lookup_seq in Hj as [-> _].
Qed.

End Invariant.

(** ** Examples *)

#[export] Instance unit_pool : BlockPool unit := {|
  pool_has _ _ := false; pool_refs _ _ := 0%Z; pool_release_blocks p _ := p; pool_page_bytes _ := 0 |}.

#[export] Instance unit_pool_laws : BlockPoolLaws unit.
Proof. by constructor. Qed.

Definition everyone (_ : nat) : bool := true.
Definition steady (_ : nat) : Z := 5.
Definition not_yet (_ : DeferredSequenceRetirement) : bool := false.

(** Two slots: the first is donated, the second is being freed by its backend. *)
Definition slots0 : Sched (P := unit) := new_sched 2 0 None 8 8.
Definition slots1 : Sched := (AllocSeqSlot everyone everyone not_yet steady 10 0 slots0).1.1.
Definition slots2 : Sched := (Donate everyone everyone [1; 2]%Z [7]%Z 0 (Some 3) slots1).1.
Definition slots3 : Sched := (AllocSeqSlot everyone everyone not_yet steady 11 0 slots2).1.1.
Definition slots4 : Sched := FreeSeqSlot (mkFence true 1) 5 5 5 1 1 (Some 3) slots3.

Lemma slots4_reachable : rtc (sched_step everyone everyone) (new_sched 2 0 None 8 8) slots4.
Proof.
  assert (Hsteady : forall i, (steady i < time_max)%Z) by (intros i; vm_compute; reflexivity).
  eapply rtc_l; [by apply (step_alloc everyone everyone not_yet steady 10 0 slots0)|].
  eapply rtc_l; [apply (step_donate everyone everyone [1; 2]%Z [7]%Z 0 (Some 3) slots1)|].
  { split; [done|]. eexists. split; [vm_compute; reflexivity|]. apply (bool_decide_unpack _). vm_compute. exact I. }
  { apply (bool_decide_unpack _). vm_compute. exact I. }
  eapply rtc_l; [by apply (step_alloc everyone everyone not_yet steady 11 0 slots2)|].
  apply rtc_once. apply (step_free everyone everyone (mkFence true 1) 5 5 5 1 1 (Some 3) slots3); [done|vm_compute; reflexivity|].
  apply (bool_decide_unpack _). vm_compute. exact I.
Qed.



(** The first tenant of slot 0 frees it late: the second one is not disturbed. *)
Lemma stale_free_harmless_witness :
  let w := (AllocSeqSlot everyone everyone not_yet steady 12 0 slots4).1.1 in
  FreeSeqSlot no_fence 6 6 6 0 1 (Some 3) w = w.
Proof.
  cbv zeta. eapply stale_free_harmless; [done|vm_compute; reflexivity|vm_compute; discriminate].
Defined.
