(* ===== verification/RequestRelease.v ===== *)
(** * scheduler: what a finished request gives back

    [FinalizeSessionLease], [ReleasePendingRequestResources], [ReleaseSessionState] and
    the periodic sweep of scheduler.cpp: the sequence slot and the KV blocks of a request
    go to its session, to be continued by the next turn, or back to the slot manager
    and the pool of blocks.  The pool is the one the prefix cache holds (both have the
    same [PagedKVCache]). *)

From stdpp Require Import base tactics numbers list strings gmap sets.
From S2P Require Import Prelude KVCache SessionHandles RadixCache SlotManager SeqSlots.

(** The fields of [InferenceRequest] that these functions read or write, with the
    resolved backend of its [PendingRequest]. *)
Record Request := mkRequest {
  r_id : Z; r_model : string; resolved_model : string; session_id : string; session_lease_acquired : bool;
  r_sequence_id : Z; r_generation : Z; cache_prefill_complete : bool; bpe_prompt_tokens : list Z; n_past : Z;
  prompt_bpe_tokens : Z; r_block_table : list Z; resolved_backend : option nat }.

(** [ResetSequenceLease], with the block table cleared. *)
Definition abandon (r : Request) : Request :=
  mkRequest (r_id r) (r_model r) (resolved_model r) (session_id r) (session_lease_acquired r) (-1) 0 (cache_prefill_complete r)
    (bpe_prompt_tokens r) (n_past r) (prompt_bpe_tokens r) [] (resolved_backend r).

Definition end_lease (r : Request) : Request :=
  mkRequest (r_id r) (r_model r) (resolved_model r) (session_id r) false (r_sequence_id r) (r_generation r) (cache_prefill_complete r)
    (bpe_prompt_tokens r) (n_past r) (prompt_bpe_tokens r) (r_block_table r) (resolved_backend r).

Definition ResidentSequenceTokenCount (r : Request) : Z :=
  Z.max (Z.max (Z.max 0 (n_past r)) (prompt_bpe_tokens r)) (i32 (Z.of_nat (length (bpe_prompt_tokens r)))).

Section Release.
Context {P : Type} `{BlockPool P}.

(** [sessions]: [None] when the feature is off. *)
Record System := mkSystem { sched : Sched (P := P); sessions : option SessionHandleManager }.

Definition set_kv (kv : option P) (w : Sched (P := P)) : Sched (P := P) :=
  let c := prefix_cache w in
  set_prefix (mkRadix kv (on_evict_seq c) (capacity c) (max_sequences c) (size_ c) (live_sequences c) (clock c) (root c) (events c)) w.

(** [if (cache_ && !blocks.empty()) cache_->ReleaseBlocksRef(blocks)] *)
Definition release_blocks (bt : list Z) (w : Sched (P := P)) : Sched (P := P) := set_kv (release_table (kv_cache (prefix_cache w)) bt) w.

(** [if (cache_) cache_->ReleaseBlocksRef(blocks)] *)
Definition release_blocks_always (bt : list Z) (w : Sched (P := P)) : Sched (P := P) :=
  set_kv ((fun p => pool_release_blocks p bt) <$> kv_cache (prefix_cache w)) w.

Context (fence : SequenceReleaseFence) (now : Z).

Definition free_slot (slot gen : Z) (be : option nat) (w : Sched (P := P)) : Sched (P := P) := FreeSeqSlot fence now now now slot gen be w.

Definition RequestUsesSessionHandle (sy : System) (r : Request) : bool :=
  bool_decide (is_Some (sessions sy)) && negb (bool_decide (session_id r = "")).

(** The state that the session keeps. *)
Definition kept_state (r : Request) : SessionHandleState :=
  mkState (if bool_decide (resolved_model r = "") then r_model r else resolved_model r) (r_sequence_id r) (r_generation r)
    (bpe_prompt_tokens r) (r_block_table r).

Definition mark_completed (r : Request) (w : Sched (P := P)) : Sched (P := P) :=
  if (r_generation r =? 0)%Z then w
  else set_manager (MarkCompleted (slot_manager w) (mkLease (r_sequence_id r) (r_generation r) (r_id r)) (ResidentSequenceTokenCount r) now).1 w.

Definition FinalizeSessionLease (commit_state : bool) (r : Request) (sy : System) : System * Request :=
  match sessions sy with
  | None => (sy, r)
  | Some ss =>
      if negb (session_lease_acquired r) || bool_decide (session_id r = "") then (sy, r)
      else if commit_state && (0 <=? r_sequence_id r)%Z && cache_prefill_complete r then
        (mkSystem (mark_completed r (sched sy)) (Some (CommitLease ss (session_id r) (kept_state r) now)), end_lease (abandon r))
      else
        let '(w, ss, r) :=
          if (0 <=? r_sequence_id r)%Z then
            (free_slot (r_sequence_id r) (r_generation r) (resolved_backend r) (release_blocks (r_block_table r) (sched sy)),
             DiscardLeasedState ss (session_id r), abandon r)
          else (sched sy, ss, r) in
        (mkSystem w (Some (SessionHandles.ReleaseLease ss (session_id r) now)), end_lease r)
  end.

Definition ReleasePendingRequestResources (lease_success : bool) (r : Request) (sy : System) : System * Request :=
  if session_lease_acquired r && RequestUsesSessionHandle sy r then FinalizeSessionLease lease_success r sy
  else if (0 <=? r_sequence_id r)%Z then
    (mkSystem (free_slot (r_sequence_id r) (r_generation r) (resolved_backend r) (release_blocks_always (r_block_table r) (sched sy))) (sessions sy),
     abandon r)
  else (sy, r).

(** [router model_id]: the backend that the router has for the model. *)
Definition ReleaseSessionState (router : string -> option nat) (st : SessionHandleState) (backend_hint : option nat) (w : Sched (P := P)) : Sched (P := P) :=
  if (ss_sequence_id st <? 0)%Z && bool_decide (ss_block_table st = []) then w
  else
    let be := match backend_hint with
              | Some b => Some b
              | None => if bool_decide (model_id st = "") then None else router (model_id st)
              end in
    let w := release_blocks (ss_block_table st) w in
    if (0 <=? ss_sequence_id st)%Z then free_slot (ss_sequence_id st) (sequence_generation st) be w else w.

(** One turn of [EvictionWorkerLoop]. *)
Definition eviction_turn (iteration : gmap string Entry -> list (string * Entry)) (polled : DeferredSequenceRetirement -> bool)
    (router : string -> option nat) (sy : System) : System :=
  let w := PollDeferredSequenceRetirements polled (sched sy) in
  match sessions sy with
  | None => mkSystem w None
  | Some ss => let '(ss', expired) := CollectExpired iteration ss now in
               mkSystem (foldl (fun w st => ReleaseSessionState router st None w) w expired) (Some ss')
  end.

(** The end of the destructor. *)
Definition drain_sessions (iteration : gmap string Entry -> list (string * Entry)) (router : string -> option nat) (sy : System) : System :=
  match sessions sy with
  | None => sy
  | Some ss => let '(ss', rest) := DrainAll iteration ss in
               mkSystem (foldl (fun w st => ReleaseSessionState router st None w) (sched sy) rest) (Some ss')
  end.
End Release.

(** ** Blocks are released once *)

Section Balance.
Context {P : Type} `{BlockPoolLaws P} (fence : SequenceReleaseFence) (now : Z).

Abbreviation kv w := (kv_cache (prefix_cache w)).

(** The references to page [j] in the pool of [w]. *)
Definition refs (w : Sched (P := P)) (j : nat) : Z := match kv w with Some p => pool_refs p j | None => 0%Z end.
Definition has_page (w : Sched (P := P)) (j : nat) : bool := match kv w with Some p => pool_has p j | None => false end.

(** [w'] differs from [w] by the release of the blocks [bt]. *)
Definition released (bt : list Z) (w w' : Sched (P := P)) : Prop :=
  forall j, has_page w' j = has_page w j /\
    (has_page w j = true -> refs w' j = (refs w j - Z.of_nat (occurrences j bt))%Z).

Lemma released_refl w w' : kv w' = kv w -> released [] w w'.
Proof. intros E j. unfold has_page, refs. rewrite E. split; [done|]. unfold occurrences. cbn. lia. Qed.

Lemma released_trans l1 l2 w1 w2 w3 : released l1 w1 w2 -> released l2 w2 w3 -> released (l1 ++ l2) w1 w3.
Proof.
  intros H1 H2 j. destruct (H1 j) as [A1 A2], (H2 j) as [B1 B2]. split; [congruence|]. intros Hj.
  rewrite B2, A2 by congruence. rewrite occurrences_app. lia.
Qed.

Lemma released_perm l l' w w' : l ≡ₚ l' -> released l w w' -> released l' w w'.
Proof. intros E Hr j. destruct (Hr j) as [A B]. split; [done|]. intros Hj. rewrite B by done. by rewrite E. Qed.

Lemma always_released bt w : released bt w (release_blocks_always bt w).
Proof.
  intros j. unfold has_page, refs. cbn. destruct (kv w) as [p|]; cbn; [|done]. split; [apply pool_release_has|apply pool_release_refs].
Qed.

Lemma release_blocks_released bt w : released bt w (release_blocks bt w).
Proof.
  destruct bt as [|b bt]; [|].
  - apply released_refl. cbn. by destruct (kv w).
  - intros j. unfold has_page, refs. cbn. destruct (kv w) as [p|]; cbn; [|done]. split; [apply pool_release_has|apply pool_release_refs].
Qed.

Lemma free_slot_kv slot gen be (w : Sched (P := P)) : prefix_cache (free_slot fence now slot gen be w) = prefix_cache w.
Proof.
  unfold free_slot, FreeSeqSlot. destruct (_ || _); [done|]. cbv zeta. destruct be as [b|], (gen =? 0)%Z; try done.
  destruct (RetireLease _ _ _ _) as [m []]; [|done]. by destruct (pending fence).
Qed.

(** Freeing a slot does not look at the blocks. *)
Lemma free_slot_manager slot gen be bt (w : Sched (P := P)) :
  slot_manager (free_slot fence now slot gen be (release_blocks bt w)) = slot_manager (free_slot fence now slot gen be w).
Proof.
  unfold free_slot, FreeSeqSlot. destruct (_ || _); [done|]. cbv zeta. destruct be as [b|], (gen =? 0)%Z; try done.
  cbn [slot_manager release_blocks set_kv set_prefix]. destruct (RetireLease _ _ _ _) as [m []]; [|done]. by destruct (pending fence).
Qed.

Lemma free_slot_released bt slot gen be w w' : released bt w w' -> released bt w (free_slot fence now slot gen be w').
Proof. intros Hr j. unfold has_page, refs. rewrite free_slot_kv. apply Hr. Qed.

(** When a request finishes, its slot and its blocks have exactly one owner
    afterwards and the request has none: a committed session keeps both (the pool and
    the backends are not touched), and otherwise the blocks are released once, the
    slot is freed under the request's lease, and its session keeps no copy; other
    sessions are not touched. *)
Theorem finished_request_settled (success : bool) (r : Request) (w : Sched (P := P)) (ss : SessionHandleManager) (e : Entry) :
  session_lease_acquired r = true -> session_id r <> ""%string -> (0 <= r_sequence_id r)%Z ->
  entries ss !! session_id r = Some e -> in_use e = true ->
  let '(sy', r') := ReleasePendingRequestResources fence now success r (mkSystem w (Some ss)) in
  r_sequence_id r' = (-1)%Z /\ r_block_table r' = [] /\ session_lease_acquired r' = false /\
  exists ss', sessions sy' = Some ss' /\ delete (session_id r) (entries ss') = delete (session_id r) (entries ss) /\
  if success && cache_prefill_complete r
  then entries ss' !! session_id r = Some (mkEntry (kept_state r) true false now (now + ttl ss)%Z) /\
       kv (sched sy') = kv w /\ freed (sched sy') = freed w /\ deferred (sched sy') = deferred w
  else entries ss' !! session_id r = None /\ released (r_block_table r) w (sched sy') /\
       slot_manager (sched sy') = slot_manager (free_slot fence now (r_sequence_id r) (r_generation r) (resolved_backend r) w).
Proof.
  intros Hl Hs Hq He Hu. unfold ReleasePendingRequestResources, RequestUsesSessionHandle, FinalizeSessionLease. cbn [sessions sched].
  rewrite Hl, bool_decide_eq_true_2 by eauto. rewrite bool_decide_eq_false_2 by done. rewrite (proj2 (Z.leb_le _ _) Hq). cbn [andb negb orb].
  rewrite andb_true_r. destruct (success && cache_prefill_complete r) eqn:Ec.
  - cbn. split_and!; try done. unfold CommitLease. rewrite bool_decide_eq_false_2 by done. eexists. split; [done|]. cbn.
    rewrite delete_insert_eq, lookup_insert_eq. split; [done|]. split; [done|].
    unfold mark_completed. destruct (r_generation r =? 0)%Z; done.
  - cbn. split_and!; try done. unfold DiscardLeasedState, SessionHandles.ReleaseLease. rewrite !bool_decide_eq_false_2 by done. rewrite He. cbn.
    rewrite lookup_insert_eq. cbn. eexists. split; [done|]. cbn. rewrite delete_insert_eq, lookup_delete_eq, delete_delete_eq. split; [done|].
    split; [done|]. split; [by apply free_slot_released, release_blocks_released|].
    apply free_slot_manager.
Qed.

(** ** Sessions that expire or are drained *)

Definition blocks_kept (l : list SessionHandleState) : list Z := flat_map ss_block_table l.

Lemma session_released router st be w : released (ss_block_table st) w (ReleaseSessionState fence now router st be w).
Proof.
  unfold ReleaseSessionState. case_match eqn:E.
  - apply andb_prop in E as [_ E]. apply bool_decide_eq_true in E as ->. by apply released_refl.
  - cbv zeta. case_match; [apply free_slot_released|]; apply release_blocks_released.
Qed.

Lemma sessions_released router l w :
  released (blocks_kept l) w (foldl (fun w st => ReleaseSessionState fence now router st None w) w l).
Proof.
  revert w. induction l as [|st l IH]; intros w; cbn [foldl]; [by apply released_refl|].
  apply (released_trans (ss_block_table st) (blocks_kept l) _ _ _ (session_released router st None w) (IH _)).
Qed.

Context (iteration : gmap string Entry -> list (string * Entry)) (iteration_perm : forall es, iteration es ≡ₚ map_to_list es).

Lemma poll_kv polled (w : Sched (P := P)) : prefix_cache (PollDeferredSequenceRetirements polled w) = prefix_cache w.
Proof. unfold PollDeferredSequenceRetirements. by destruct (poll_loop _ _ _). Qed.

(** Sweeping and draining balance: the blocks released are those of the sessions
    that left, each once, and after a drain no session is left. *)
Theorem session_sweep_balances (polled : DeferredSequenceRetirement -> bool) (router : string -> option nat) (w : Sched (P := P)) (ss : SessionHandleManager) :
  (exists ss' gone, sessions (eviction_turn fence now iteration polled router (mkSystem w (Some ss))) = Some ss' /\
     stored (entries ss) ≡ₚ gone ++ stored (entries ss') /\
     released (blocks_kept gone) w (sched (eviction_turn fence now iteration polled router (mkSystem w (Some ss)))) /\
     (forall k e, entries ss' !! k = Some e <-> entries ss !! k = Some e /\ is_expired now e = false)) /\
  (exists ss', sessions (drain_sessions fence now iteration router (mkSystem w (Some ss))) = Some ss' /\ entries ss' = ∅ /\
     released (blocks_kept (stored (entries ss))) w (sched (drain_sessions fence now iteration router (mkSystem w (Some ss))))).
Proof.
  split.
  - unfold eviction_turn. cbn [sessions sched]. unfold CollectExpired.
    destruct (sweep_spec iteration iteration_perm now (iteration (entries ss)) (entries ss) []) as [Hp Hlk];
      [rewrite iteration_perm; apply NoDup_fst_map_to_list|intros k e Hin; rewrite iteration_perm in Hin; by apply elem_of_map_to_list in Hin|].
    destruct (foldl (sweep now) _ _) as [es gone]. cbn in Hp, Hlk. eexists _, gone. split; [done|]. split; [done|]. split.
    + cbn. apply (released_trans [] (blocks_kept gone) w (PollDeferredSequenceRetirements polled w)); [|apply sessions_released].
      apply released_refl. by rewrite poll_kv.
    + intros k e. cbn. rewrite Hlk. split; intros [He Hx]; (split; [done|]); [apply Hx|done]. rewrite iteration_perm.
      apply list_elem_of_fmap. exists (k, e). split; [done|]. by apply elem_of_map_to_list.
  - unfold drain_sessions. cbn [sessions sched]. unfold DrainAll. eexists. split; [done|]. split; [done|]. cbn.
    eapply released_perm; [|apply sessions_released]. unfold blocks_kept. apply Permutation_flat_map. unfold stored.
    apply Permutation_flat_map. apply iteration_perm.
Qed.
End Balance.

(** ** Examples *)

Definition demo_fence : SequenceReleaseFence := mkFence false 0.
Definition turn (lease : bool) : Request := mkRequest 10 "m" "" "s" lease 0 1 true [1; 2]%Z 2 2 [1; 1]%Z (Some 3).

Definition demo_world : Sched := (AllocSeqSlot everyone everyone not_yet steady 10 0 (new_sched 2 0 (Some demo_pool) 8 8)).1.1.
Definition leased_sessions : SessionHandleManager := (SessionHandles.AcquireLease map_to_list (newSessions 4 1000) "s" 3).1.

(** A failed turn gives back its two references to block 1. *)
Lemma finished_request_settled_witness :
  let '(sy', r') := ReleasePendingRequestResources demo_fence 6 false (turn true) (mkSystem demo_world (Some leased_sessions)) in
  r_block_table r' = [] /\ released [1; 1]%Z demo_world (sched sy') /\ sessions sy' = Some (newSessions 4 1000).
Proof.
  pose proof (finished_request_settled demo_fence 6 false (turn true) demo_world leased_sessions (mkEntry emptyState false true 3 1003)
    ltac:(reflexivity) ltac:(discriminate) ltac:(vm_compute; discriminate) ltac:(vm_compute; reflexivity) ltac:(reflexivity)) as Hs.
  destruct (ReleasePendingRequestResources _ _ _ _ _) as [sy' r'] eqn:E. destruct Hs as (_ & Hb & _ & ss' & _ & _ & _ & Hr & _).
  split; [done|]. split; [done|]. apply (f_equal (fun x => sessions x.1)) in E. cbn [fst] in E. rewrite <- E. vm_compute. reflexivity.
Defined.

Definition kept_sessions : SessionHandleManager := CommitLease leased_sessions "s" (kept_state (turn true)) 6.

Lemma session_sweep_balances_witness :
  (exists ss', sessions (drain_sessions demo_fence 9 map_to_list (fun _ => None) (mkSystem demo_world (Some kept_sessions))) = Some ss' /\ entries ss' = ∅ /\
     released (blocks_kept (stored (entries kept_sessions))) demo_world
       (sched (drain_sessions demo_fence 9 map_to_list (fun _ => None) (mkSystem demo_world (Some kept_sessions))))) /\
  blocks_kept (stored (entries kept_sessions)) = [1; 1]%Z.
Proof.
  split; [|vm_compute; reflexivity].
  apply (session_sweep_balances demo_fence 9 map_to_list (fun es => reflexivity (map_to_list es)) not_yet (fun _ => None) demo_world kept_sessions).
Defined.
