(* ===== verification/Base64.v ===== *)
(** * The base64 decoders of server/auth/oidc_validator.cpp and
    runtime/multimodal/image_preprocessor.cpp

    Two decoders written independently: the token validator reads quanta of four
    characters and refuses what is malformed, the image preprocessor shifts an
    accumulator and skips what it does not know.  Both are compared with the
    encoding of RFC 4648. *)

From stdpp Require Import base tactics numbers list strings.
From Stdlib Require Import Ascii.
From S2P Require Import Prelude StringUtils.

(** [static_cast<char>] of an [int]. *)
Definition char_of (z : Z) : ascii := ascii_of_N (Z.to_N (z mod 256)).

(** ** RFC 4648 *)

Definition table : bytes := bytes_of "ABCDEFGHIJKLMNOPQRSTUVWXYZabcdefghijklmnopqrstuvwxyz0123456789+/".
Definition url_table : bytes := bytes_of "ABCDEFGHIJKLMNOPQRSTUVWXYZabcdefghijklmnopqrstuvwxyz0123456789-_".

Section Encode.
Context (alphabet : bytes) (padded : bool).

Definition symbol (v : Z) : ascii := nth (Z.to_nat v) alphabet "="%char.

(** Each group of three bytes becomes four symbols of six bits. *)
Fixpoint encode (data : bytes) : bytes :=
  match data with
  | [] => []
  | [a] => symbol (byte_val a / 4) :: symbol (byte_val a mod 4 * 16) :: (if padded then bytes_of "==" else [])
  | [a; b] => symbol (byte_val a / 4) :: symbol (byte_val a mod 4 * 16 + byte_val b / 16) :: symbol (byte_val b mod 16 * 4) ::
              (if padded then bytes_of "=" else [])
  | a :: b :: c :: data' =>
      symbol (byte_val a / 4) :: symbol (byte_val a mod 4 * 16 + byte_val b / 16) ::
      symbol (byte_val b mod 16 * 4 + byte_val c / 64) :: symbol (byte_val c mod 64) :: encode data'
  end.
End Encode.

(** ** [OIDCValidator::Base64UrlDecode] *)
Module Url.

Definition decode_char (c : ascii) : Z :=
  let v := byte_val c in
  if ((65 <=? v) && (v <=? 90))%Z then (v - 65)%Z
  else if ((97 <=? v) && (v <=? 122))%Z then (v - 97 + 26)%Z
  else if ((48 <=? v) && (v <=? 57))%Z then (v - 48 + 52)%Z
  else if bool_decide (c = "+"%char) then 62%Z
  else if bool_decide (c = "/"%char) then 63%Z
  else (-1)%Z.

Definition normalize_char (c : ascii) : ascii :=
  let c := if bool_decide (c = "-"%char) then "+"%char else c in
  if bool_decide (c = "_"%char) then "/"%char else c.

(** [while (normalized.size() % 4 != 0) normalized.push_back('=')] *)
Definition pad (s : bytes) : bytes := s ++ replicate ((4 - length s mod 4) mod 4) "="%char.

Definition is_eq (c : ascii) : bool := bool_decide (c = "="%char).

(** One turn of the loop: what it appends, or [None] for [return {}]. *)
Definition quantum (c0 c1 c2 c3 : ascii) : option bytes :=
  let b0 := decode_char c0 in
  let b1 := decode_char c1 in
  let b2 := if is_eq c2 then (-1)%Z else decode_char c2 in
  let b3 := if is_eq c3 then (-1)%Z else decode_char c3 in
  if (b0 <? 0)%Z || (b1 <? 0)%Z || (negb (is_eq c2) && (b2 <? 0)%Z) || (negb (is_eq c3) && (b3 <? 0)%Z) then None
  else Some (char_of (Z.lor (Z.shiftl b0 2) (Z.shiftr b1 4)) ::
    (if (0 <=? b2)%Z then [char_of (Z.lor (Z.shiftl (Z.land b1 15) 4) (Z.shiftr b2 2))] else []) ++
    (if (0 <=? b3)%Z then [char_of (Z.lor (Z.shiftl (Z.land b2 3) 6) b3)] else [])).

(** The last case is not reached: the length is a multiple of four. *)
Fixpoint quanta (s : bytes) : option bytes :=
  match s with
  | [] => Some []
  | c0 :: c1 :: c2 :: c3 :: s' =>
      match quantum c0 c1 c2 c3, quanta s' with
      | Some out, Some rest => Some (out ++ rest)
      | _, _ => None
      end
  | _ => None
  end.

Definition Base64UrlDecode (input : bytes) : bytes := default [] (quanta (pad (normalize_char <$> input))).

End Url.

(** ** [Base64Decode] of the image preprocessor *)
Module Image.

Definition Base64CharValue (c : ascii) : Z :=
  let v := byte_val c in
  if ((65 <=? v) && (v <=? 90))%Z then (v - 65)%Z
  else if ((97 <=? v) && (v <=? 122))%Z then (26 + (v - 97))%Z
  else if ((48 <=? v) && (v <=? 57))%Z then (52 + (v - 48))%Z
  else if bool_decide (c = "+"%char) || bool_decide (c = "-"%char) then 62%Z
  else if bool_decide (c = "/"%char) || bool_decide (c = "_"%char) then 63%Z
  else (-1)%Z.

Definition ends (c : ascii) : bool :=
  bool_decide (c = "="%char) || bool_decide (c = chr 10) || bool_decide (c = chr 13).

(** The accumulator [val] is an [int]; the shift keeps its low 32 bits. *)
Fixpoint decode_loop (s : bytes) (val valb : Z) : bytes :=
  match s with
  | [] => []
  | c :: s' =>
      if ends c then []
      else
        let v := Base64CharValue c in
        if (v <? 0)%Z then decode_loop s' val valb
        else
          let val := i32 (Z.shiftl val 6 + v) in
          let valb := (valb + 6)%Z in
          if (0 <=? valb)%Z
          then char_of (Z.land (Z.shiftr val valb) 255) :: decode_loop s' val (valb - 8)
          else decode_loop s' val valb
  end.

Definition Base64Decode (b64 : bytes) : bytes := decode_loop b64 0 (-8).

End Image.

(** ** Both decoders invert the encoding *)

Lemma char_of_byte_val c : char_of (byte_val c) = c.
Proof. unfold char_of. rewrite Z.mod_small by apply byte_val_range. unfold byte_val. by rewrite N2Z.id, ascii_N_embedding. Qed.

Lemma lor_shiftl_add u v k : (0 <= k)%Z -> (0 <= v < 2 ^ k)%Z -> Z.lor (Z.shiftl u k) v = (u * 2 ^ k + v)%Z.
Proof.
  intros Hk Hv. rewrite <- Z.shiftl_mul_pow2, <- Z.add_lor_land by done. enough (Z.land (Z.shiftl u k) v = 0)%Z as -> by (by rewrite Z.add_0_r).
  apply Z.bits_inj'. intros n Hn. rewrite Z.land_spec, Z.shiftl_spec, Z.bits_0 by done. destruct (decide (n < k)%Z).
  - by rewrite Z.testbit_neg_r by lia.
  - destruct (decide (v = 0)%Z) as [->|]; [by rewrite Z.bits_0, andb_false_r|].
    rewrite (Z.bits_above_log2 v), andb_false_r; [done|lia|].
    apply Z.log2_lt_pow2; [lia|]. eapply Z.lt_le_trans; [apply Hv|]. apply Z.pow_le_mono_r; lia.
Qed.

Lemma land_mod x k : (0 <= k)%Z -> Z.land x (Z.ones k) = (x mod 2 ^ k)%Z.
Proof. apply Z.land_ones. Qed.

(** A sextet and the symbol that stands for it. *)
Definition known (alphabet : bytes) : Prop := alphabet = table \/ alphabet = url_table.

Abbreviation faithful alphabet v :=
  (Url.decode_char (Url.normalize_char (symbol alphabet v)) = v /\ Url.is_eq (Url.normalize_char (symbol alphabet v)) = false /\
   Image.Base64CharValue (symbol alphabet v) = v /\ Image.ends (symbol alphabet v) = false).

Lemma symbol_values alphabet v : known alphabet -> (0 <= v < 64)%Z -> faithful alphabet v.
Proof.
  intros [-> | ->] Hv; [apply (range_check (fun v => faithful table v) 64) | apply (range_check (fun v => faithful url_table v) 64)];
    try done; vm_compute; reflexivity.
Qed.

(** The bytes of [a], [b] and [c] as sextets. *)
Definition s0 (a : Z) : Z := (a / 4)%Z.
Definition s1 (a b : Z) : Z := (a mod 4 * 16 + b / 16)%Z.
Definition s2 (b c : Z) : Z := (b mod 16 * 4 + c / 64)%Z.
Definition s3 (c : Z) : Z := (c mod 64)%Z.

Lemma sextets a b c : (0 <= a < 256)%Z -> (0 <= b < 256)%Z -> (0 <= c < 256)%Z ->
  (0 <= s0 a < 64 /\ 0 <= s1 a b < 64 /\ 0 <= s2 b c < 64 /\ 0 <= s3 c < 64)%Z.
Proof. intros. unfold s0, s1, s2, s3. Z.to_euclidean_division_equations. lia. Qed.

Section UrlProofs.
Import Url.

(** What a quantum of known symbols, the last ones perhaps [=], decodes to. *)
Lemma quantum_full c0 c1 c2 c3 x y z w :
  decode_char c0 = x -> decode_char c1 = y -> is_eq c2 = false -> decode_char c2 = z -> is_eq c3 = false -> decode_char c3 = w ->
  (0 <= x < 64)%Z -> (0 <= y < 64)%Z -> (0 <= z < 64)%Z -> (0 <= w < 64)%Z ->
  quantum c0 c1 c2 c3 = Some [char_of (x * 4 + y / 16); char_of (y mod 16 * 16 + z / 4); char_of (z mod 4 * 64 + w)]%Z.
Proof.
  intros <- <- E2 <- E3 <- ????. unfold quantum. rewrite E2, E3.
  rewrite !(proj2 (Z.ltb_ge _ _)), !(proj2 (Z.leb_le _ _)) by lia. cbn [negb andb orb app].
  change 15%Z with (Z.ones 4). change 3%Z with (Z.ones 2). rewrite !land_mod, !Z.shiftr_div_pow2 by lia.
  rewrite !lor_shiftl_add by (Z.to_euclidean_division_equations; lia). done.
Qed.

Lemma quantum_two c0 c1 x y :
  decode_char c0 = x -> decode_char c1 = y -> (0 <= x < 64)%Z -> (0 <= y < 64)%Z ->
  quantum c0 c1 "="%char "="%char = Some [char_of (x * 4 + y / 16)]%Z.
Proof.
  intros <- <- ??. unfold quantum. change (is_eq "=") with true.
  rewrite !(proj2 (Z.ltb_ge _ _)) by lia. cbn. rewrite Z.shiftr_div_pow2 by lia.
  rewrite lor_shiftl_add by (Z.to_euclidean_division_equations; lia). done.
Qed.

Lemma quantum_three c0 c1 c2 x y z :
  decode_char c0 = x -> decode_char c1 = y -> is_eq c2 = false -> decode_char c2 = z ->
  (0 <= x < 64)%Z -> (0 <= y < 64)%Z -> (0 <= z < 64)%Z ->
  quantum c0 c1 c2 "="%char = Some [char_of (x * 4 + y / 16); char_of (y mod 16 * 16 + z / 4)]%Z.
Proof.
  intros <- <- E2 <- ???. unfold quantum. rewrite E2. change (is_eq "=") with true.
  rewrite !(proj2 (Z.ltb_ge _ _)), (proj2 (Z.leb_le 0 (decode_char c2))) by lia. cbn [negb andb orb app Z.leb Z.compare].
  change 15%Z with (Z.ones 4). rewrite !land_mod, !Z.shiftr_div_pow2 by lia.
  rewrite !lor_shiftl_add by (Z.to_euclidean_division_equations; lia). done.
Qed.

(** The bytes are rebuilt from their sextets. *)
Lemma regroup a b c : (0 <= a < 256)%Z -> (0 <= b < 256)%Z -> (0 <= c < 256)%Z ->
  (s0 a * 4 + s1 a b / 16 = a /\ s1 a b mod 16 * 16 + s2 b c / 4 = b /\ s2 b c mod 4 * 64 + s3 c = c)%Z.
Proof. intros. unfold s0, s1, s2, s3. Z.to_euclidean_division_equations. lia. Qed.


Lemma pad_cons4 c0 c1 c2 c3 s : pad (c0 :: c1 :: c2 :: c3 :: s) = c0 :: c1 :: c2 :: c3 :: pad s.
Proof.
  unfold pad. cbn [length app]. replace (S (S (S (S (length s))))) with (length s + 1 * 4) by lia.
  by rewrite Nat.Div0.mod_add.
Qed.


Context (alphabet : bytes) (padded : bool) (Ha : known alphabet).

Abbreviation decoded s := (quanta (pad (normalize_char <$> s))).
Abbreviation sym v := (symbol alphabet v).

Lemma tail_two x y : (0 <= x < 64)%Z -> (0 <= y < 64)%Z ->
  decoded (sym x :: sym y :: if padded then bytes_of "==" else []) = Some [char_of (x * 4 + y / 16)].
Proof.
  intros Hx Hy. transitivity (quanta [normalize_char (sym x); normalize_char (sym y); "="; "="]%char); [by destruct padded|].
  cbn [quanta]. by erewrite quantum_two by (try apply symbol_values; done).
Qed.

Lemma tail_three x y z : (0 <= x < 64)%Z -> (0 <= y < 64)%Z -> (0 <= z < 64)%Z ->
  decoded (sym x :: sym y :: sym z :: if padded then bytes_of "=" else []) = Some [char_of (x * 4 + y / 16); char_of (y mod 16 * 16 + z / 4)].
Proof.
  intros Hx Hy Hz.
  transitivity (quanta [normalize_char (sym x); normalize_char (sym y); normalize_char (sym z); "="]%char); [by destruct padded|].
  cbn [quanta]. by erewrite quantum_three by (try apply symbol_values; done).
Qed.

Lemma four x y z w s : (0 <= x < 64)%Z -> (0 <= y < 64)%Z -> (0 <= z < 64)%Z -> (0 <= w < 64)%Z ->
  decoded (sym x :: sym y :: sym z :: sym w :: s) =
  (fun rest => [char_of (x * 4 + y / 16); char_of (y mod 16 * 16 + z / 4); char_of (z mod 4 * 64 + w)] ++ rest) <$> decoded s.
Proof.
  intros Hx Hy Hz Hw. cbn [fmap list_fmap]. rewrite pad_cons4. cbn [quanta].
  erewrite quantum_full by (try apply symbol_values; done). by destruct (quanta _).
Qed.

Lemma decode_encoded (data : bytes) : decoded (encode alphabet padded data) = Some data.
Proof.
  revert data. fix IH 1. intros data. pose proof byte_val_range as R.
  assert (Z0 : (0 <= 0 < 256)%Z) by lia.
  destruct data as [|a [|b [|c data]]]; [done|..].
  - destruct (sextets _ 0 0 (R a) Z0 Z0) as (H0 & H1 & _). destruct (regroup _ 0 0 (R a) Z0 Z0) as (E & _).
    unfold s1 in H1, E. rewrite Z.div_0_l, Z.add_0_r in H1, E by lia. cbn [encode]. rewrite tail_two by done.
    unfold s0 in E. by rewrite E, char_of_byte_val.
  - destruct (sextets _ _ 0 (R a) (R b) Z0) as (H0 & H1 & H2 & _). destruct (regroup _ _ 0 (R a) (R b) Z0) as (E1 & E2 & _).
    unfold s2 in H2, E2. rewrite Z.div_0_l, Z.add_0_r in H2, E2 by lia. cbn [encode]. rewrite tail_three by done.
    unfold s0, s1 in E1, E2. by rewrite E1, E2, !char_of_byte_val.
  - destruct (sextets _ _ _ (R a) (R b) (R c)) as (H0 & H1 & H2 & H3). destruct (regroup _ _ _ (R a) (R b) (R c)) as (E0 & E1 & E2).
    cbn [encode]. rewrite four, IH by done. unfold s0, s1, s2, s3 in E0, E1, E2. cbn. by rewrite E0, E1, E2, !char_of_byte_val.
Qed.
End UrlProofs.

(** ** The shifting decoder *)

Section ImageProofs.
Import Image.
Context (alphabet : bytes) (padded : bool) (Ha : known alphabet).
Abbreviation sym v := (symbol alphabet v).

(** Wrapping changes the accumulator by multiples of 2^32. *)
Lemma i32_wraps z : exists k, i32 z = (z + k * 2 ^ 32)%Z.
Proof. unfold i32. exists (- ((z + 2 ^ 31) / 2 ^ 32))%Z. Z.to_euclidean_division_equations. lia. Qed.

(** One symbol: with fewer than two bits waiting no byte is complete. *)
Lemma loop_symbol v s val valb : (0 <= v < 64)%Z ->
  decode_loop (sym v :: s) val valb =
  let val := i32 (val * 64 + v) in
  if (0 <=? valb + 6)%Z then char_of (val / 2 ^ (valb + 6)) :: decode_loop s val (valb - 2) else decode_loop s val (valb + 6).
Proof.
  intros Hv. destruct (symbol_values alphabet v Ha Hv) as (_ & _ & E & E'). cbn [decode_loop]. rewrite E', E.
  rewrite (proj2 (Z.ltb_ge _ _)) by lia. rewrite Z.shiftl_mul_pow2 by lia. cbv zeta. destruct (0 <=? valb + 6)%Z eqn:Hb; [|done].
  apply Z.leb_le in Hb. rewrite Z.shiftr_div_pow2 by done. f_equal; [|f_equal; lia]. unfold char_of. change 255%Z with (Z.ones 8).
  rewrite land_mod by lia. by rewrite Zmod_mod.
Qed.

Lemma char_of_mod z b : (0 <= b < 256)%Z -> (exists k, z = b + k * 256)%Z -> char_of z = char_of b.
Proof. intros Hb [k ->]. unfold char_of. by rewrite Z_mod_plus_full. Qed.

Ltac turn := rewrite loop_symbol by done; cbv zeta;
  match goal with |- context [(0 <=? ?n)%Z] => let r := eval vm_compute in (0 <=? n)%Z in change (0 <=? n)%Z with r end; cbn iota beta.

Lemma loop_two val x y s : (0 <= x < 64)%Z -> (0 <= y < 64)%Z ->
  exists val', decode_loop (sym x :: sym y :: s) val (-8) = char_of (x * 4 + y / 16) :: decode_loop s val' (-4) /\
    (exists k, val' = y + k * 64)%Z.
Proof.
  intros Hx Hy. turn. turn. destruct (i32_wraps (val * 64 + x)) as [k ->].
  destruct (i32_wraps ((val * 64 + x + k * 2 ^ 32) * 64 + y)) as [k' E]. eexists. split; [f_equal|].
  - rewrite E. apply char_of_mod; [Z.to_euclidean_division_equations; lia|].
    exists (val + k * 2 ^ 26 + k' * 2 ^ 20)%Z. Z.to_euclidean_division_equations. lia.
  - rewrite E. exists (val * 64 + x + k * 2 ^ 32 + k' * 2 ^ 26)%Z. lia.
Qed.

Lemma loop_third val y z s : (0 <= y < 64)%Z -> (0 <= z < 64)%Z -> (exists k, val = y + k * 64)%Z ->
  exists val', decode_loop (sym z :: s) val (-4) = char_of (y mod 16 * 16 + z / 4) :: decode_loop s val' (-6) /\
    (exists k, val' = z + k * 64)%Z.
Proof.
  intros Hy Hz [k ->]. turn. destruct (i32_wraps ((y + k * 64) * 64 + z)) as [k' E]. eexists. split; [f_equal|]; rewrite E.
  - apply char_of_mod; [Z.to_euclidean_division_equations; lia|].
    exists (y / 16 + k * 4 + k' * 2 ^ 22)%Z. Z.to_euclidean_division_equations. lia.
  - exists (y + k * 64 + k' * 2 ^ 26)%Z. lia.
Qed.

Lemma loop_fourth val z w s : (0 <= z < 64)%Z -> (0 <= w < 64)%Z -> (exists k, val = z + k * 64)%Z ->
  exists val', decode_loop (sym w :: s) val (-6) = char_of (z mod 4 * 64 + w) :: decode_loop s val' (-8).
Proof.
  intros Hz Hw [k ->]. turn. destruct (i32_wraps ((z + k * 64) * 64 + w)) as [k' E]. eexists. f_equal; rewrite E.
  apply char_of_mod; [Z.to_euclidean_division_equations; lia|].
  exists (z / 4 + k * 16 + k' * 2 ^ 24)%Z. Z.to_euclidean_division_equations. lia.
Qed.

Lemma loop_tail n val valb : decode_loop (if padded then replicate (S n) "="%char else []) val valb = [].
Proof. by destruct padded. Qed.

Lemma loop_encoded data : forall val, decode_loop (encode alphabet padded data) val (-8) = data.
Proof.
  revert data. fix IH 1. intros data val. pose proof byte_val_range as R. assert (Z0 : (0 <= 0 < 256)%Z) by lia.
  destruct data as [|a [|b [|c data]]]; [done|..].
  - destruct (sextets _ 0 0 (R a) Z0 Z0) as (H0 & H1 & _). destruct (regroup _ 0 0 (R a) Z0 Z0) as (E & _).
    unfold s1 in H1, E. rewrite Z.div_0_l, Z.add_0_r in H1, E by lia. cbn [encode].
    edestruct (loop_two val) as (v & -> & _); [apply H0|apply H1|].
    unfold s0 in E. rewrite E, char_of_byte_val. f_equal. apply (loop_tail 1).
  - destruct (sextets _ _ 0 (R a) (R b) Z0) as (H0 & H1 & H2 & _). destruct (regroup _ _ 0 (R a) (R b) Z0) as (E1 & E2 & _).
    unfold s0, s1, s2 in H0, H1, H2, E1, E2. rewrite (Z.div_0_l 64), Z.add_0_r in H2, E2 by lia. cbn [encode].
    edestruct (loop_two val) as (v & -> & Hv); [apply H0|apply H1|].
    edestruct (loop_third v) as (v' & -> & _); [apply H1|apply H2|done|].
    rewrite E1, E2, !char_of_byte_val. do 2 f_equal. apply (loop_tail 0).
  - destruct (sextets _ _ _ (R a) (R b) (R c)) as (H0 & H1 & H2 & H3). destruct (regroup _ _ _ (R a) (R b) (R c)) as (E0 & E1 & E2).
    unfold s0, s1, s2, s3 in H0, H1, H2, H3, E0, E1, E2. cbn [encode].
    edestruct (loop_two val) as (v & -> & Hv); [apply H0|apply H1|].
    edestruct (loop_third v) as (v' & -> & Hv'); [apply H1|apply H2|done|].
    edestruct (loop_fourth v') as (v'' & ->); [apply H2|apply H3|done|].
    by rewrite E0, E1, E2, !char_of_byte_val, IH.
Qed.
End ImageProofs.

(** ** What the decoders promise *)

Lemma url_decode_encode alphabet padded (data : bytes) : known alphabet -> Url.Base64UrlDecode (encode alphabet padded data) = data.
Proof. intros Ha. unfold Url.Base64UrlDecode. by rewrite decode_encoded. Qed.

Lemma image_decode_encode alphabet padded (data : bytes) : known alphabet -> Image.Base64Decode (encode alphabet padded data) = data.
Proof. intros Ha. by apply loop_encoded. Qed.

(** Any byte string encoded as RFC 4648 says, with either alphabet and with or
    without padding, is decoded to itself by the token validator and by the image
    preprocessor; the latter although its accumulator wraps around at 32 bits. *)
Theorem base64_roundtrip alphabet padded (data : bytes) : known alphabet ->
  Url.Base64UrlDecode (encode alphabet padded data) = data /\ Image.Base64Decode (encode alphabet padded data) = data.
Proof. intros Ha. split; [by apply url_decode_encode | by apply image_decode_encode]. Qed.

(** "aud" in a token, and in an image of one byte. *)
Lemma base64_roundtrip_witness : known url_table /\
  Url.Base64UrlDecode (bytes_of "YXVkPz8") = bytes_of "aud??" /\ Image.Base64Decode (bytes_of "YXVkPz8") = bytes_of "aud??".
Proof. split; [by right|]. exact (base64_roundtrip url_table false (bytes_of "aud??") (or_intror eq_refl)). Defined.

(** A character outside the alphabet, other than the padding, makes the token
    validator refuse the whole input. *)
Lemma foreign_refused (s : bytes) c : c ∈ s -> Url.decode_char (Url.normalize_char c) = (-1)%Z -> c <> "="%char ->
  Url.Base64UrlDecode s = [].
Proof.
  intros Hc Hd He. unfold Url.Base64UrlDecode. set (t := Url.pad _).
  assert (Ht : Url.normalize_char c ∈ t) by (unfold t, Url.pad; apply elem_of_app; left; by apply list_elem_of_fmap_2).
  enough (Url.quanta t = None) as -> by done. clearbody t.
  assert (Hn : Url.is_eq (Url.normalize_char c) = false).
  { unfold Url.is_eq. apply bool_decide_eq_false_2. unfold Url.normalize_char. cbv zeta. repeat case_bool_decide; by subst. }
  revert t Ht. fix IH 1. intros [|c0 [|c1 [|c2 [|c3 t]]]] Ht; try done; [by apply not_elem_of_nil in Ht|]. cbn [Url.quanta].
  assert (Url.quantum c0 c1 c2 c3 = None \/ Url.normalize_char c ∈ t) as [->|Ht'].
  { rewrite !elem_of_cons in Ht. unfold Url.quantum. destruct Ht as [<-|[<-|[<-|[<-|Ht]]]]; [left..|by right]; rewrite ?Hn, Hd; cbn.
    all: rewrite ?orb_true_r; done. }
  - done.
  - rewrite (IH t Ht'). by destruct (Url.quantum _ _ _ _).
Qed.

(** Padding is accepted inside a quantum: an [=] in the third place may be followed by
    a symbol, and the byte then made uses the bits of the sentinel -1. *)
Lemma padding_inside_accepted : Url.Base64UrlDecode (bytes_of "AA=A") = [chr 0; chr 192] /\
  Url.Base64UrlDecode (bytes_of "QQ==QQ==") = bytes_of "AA".
Proof. split; vm_compute; reflexivity. Qed.

(** The accumulator of the image decoder before it is reduced to an [int]: after six
    symbols it no longer fits. *)
Lemma image_accumulator_overflows :
  foldl (fun val c => (Z.shiftl val 6 + Image.Base64CharValue c)%Z) 0%Z (bytes_of "//////") = (2 ^ 36 - 1)%Z.
Proof. reflexivity. Qed.
