(* ===== verification/HttpClient.v ===== *)
(** * net/http_client.cpp

    URLs, the text of requests and responses, and what [Send] and [SendRaw] do
    with sockets and TLS connections.  The results of the system and OpenSSL calls
    are those of a [Network]; a call that may throw returns the trace of resources
    it opened and closed, with its outcome. *)

From stdpp Require Import base tactics numbers list strings pretty sets.
From Stdlib Require Import Ascii.
From S2P Require Import Prelude StringUtils.

(** ** URLs and messages *)

Record ParsedUrl := mkUrl { scheme : bytes; host : bytes; path : bytes; port : Z; use_tls : bool }.

Definition crlf : bytes := [chr 13; chr 10].
Definition blank_line : bytes := crlf ++ crlf.

(** [std::stoi], whose two exceptions are told apart. *)
Definition stoi_throws (s : bytes) : outcome Z :=
  match scan_int s with
  | None => Throw (invalid_argument "stoi")
  | Some (v, _) => if ((- 2 ^ 31 <=? v) && (v <? 2 ^ 31))%Z then Ret v else Throw (out_of_range "stoi")
  end.

Definition ParseUrl (url : bytes) : outcome ParsedUrl :=
  let '(scheme, remainder) :=
    match find_sub (bytes_of "://") url with
    | Some pos => (take pos url, drop (pos + 3) url)
    | None => (bytes_of "http", url)
    end in
  let use_tls := named scheme "https" in
  let port := if use_tls then 443%Z else 80%Z in
  let slash := find_sub ["/"%char] remainder in
  let host_port := match slash with None => remainder | Some i => take i remainder end in
  let path := match slash with None => bytes_of "/" | Some i => drop i remainder end in
  let host_and_port :=
    match find_sub [":"%char] host_port with
    | None => Ret (host_port, port)
    | Some colon => match stoi_throws (drop (colon + 1) host_port) with
                    | Ret p => Ret (take colon host_port, p)
                    | Throw e => Throw e
                    end
    end in
  match host_and_port with
  | Throw e => Throw e
  | Ret (host, port) =>
      if bool_decide (host = []) then Throw (runtime_error "invalid URL host") else Ret (mkUrl scheme host path port use_tls)
  end.

(** [headers] in the order of the [std::map]. *)
Definition BuildRequest (parsed : ParsedUrl) (method body : bytes) (headers : list (bytes * bytes)) : bytes :=
  (method ++ bytes_of " " ++ path parsed ++ bytes_of " HTTP/1.1" ++ crlf) ++
  (bytes_of "Host: " ++ host parsed ++ crlf) ++
  (bytes_of "Content-Length: " ++ bytes_of (pretty (Z.of_nat (length body))) ++ crlf) ++
  (bytes_of "Content-Type: application/json" ++ crlf) ++
  (headers ≫= fun '(key, value) => key ++ bytes_of ": " ++ value ++ crlf) ++
  (bytes_of "Connection: close" ++ blank_line) ++ body.

Record HttpResponse := mkResponse { status : Z; body : bytes }.

(** The end of [Send]. *)
Definition parse_response (response : bytes) : HttpResponse :=
  let '(header, body_str) :=
    match find_sub blank_line response with
    | None => (response, [])
    | Some header_end => (take header_end response, drop (header_end + 4) response)
    end in
  let status := match find_sub [" "%char] header with
                | None => 0%Z
                | Some pos => default 0%Z (stoi (drop (pos + 1) header))
                end in
  mkResponse status body_str.

(** ** Sockets *)

Inductive event := SocketOpen | SocketClose | SslNew | SslFree.

#[export] Instance event_eq_dec : EqDecision event.
Proof. solve_decision. Defined.

(** What a call opened and closed, and how it ended. *)
Definition io (A : Type) : Type := list event * outcome A.

Definition ret {A} (a : A) : io A := ([], Ret a).
Definition throw {A} (what : string) : io A := ([], Throw (runtime_error what)).
Definition tell (l : list event) : io unit := (l, Ret ()).
Definition lift {A} (o : outcome A) : io A := ([], o).
Definition bind {A B} (m : io A) (f : A -> io B) : io B :=
  match m with
  | (l, Ret a) => let '(l', o) := f a in (l ++ l', o)
  | (l, Throw e) => (l, Throw e)
  end.

Declare Scope io_scope.
Delimit Scope io_scope with io.
Notation "'let*' x := m 'in' f" := (bind m (fun x => f)) (at level 200, x pattern, m at level 100, f at level 200) : io_scope.
Notation "m ;; f" := (bind m (fun _ => f)) (at level 100, right associativity) : io_scope.
Open Scope io_scope.

(** The answers of the system and of OpenSSL to the calls of one request. *)
Record Network := mkNet {
  addresses : option (list (bool * bool));
  tls_ready : bool;
  ssl_new : bool;
  identity_configured : bool;
  ssl_set_fd : bool;
  ssl_connect : bool;
  verify_ok : bool;
  write_result : nat -> Z;
  received : bytes }.

Section Client.
Context (net : Network).

(** The loop over the addresses: [socket] and [connect] succeed or not. *)
Fixpoint connect_first (l : list (bool * bool)) : io bool :=
  match l with
  | [] => ret false
  | (false, _) :: l' => connect_first l'
  | (true, true) :: _ => tell [SocketOpen] ;; ret true
  | (true, false) :: l' => tell [SocketOpen; SocketClose] ;; connect_first l'
  end.

Definition CreateSocket : io unit :=
  match addresses net with
  | None => throw "failed to resolve host"
  | Some l => let* ok := connect_first l in if ok : bool then ret () else throw "failed to connect"
  end.

(** [while (send_remaining > 0)]: [k] writes were made.  Each successful write takes at
    least one byte, so that the length of the payload bounds the turns. *)
Fixpoint send_all (fuel k : nat) (remaining : Z) : bool :=
  match fuel with
  | 0 => bool_decide (remaining = 0)%Z
  | S fuel => if (remaining =? 0)%Z then true
              else let sent := write_result net k in
                   if (sent <=? 0)%Z then false else send_all fuel (S k) (u64 (remaining - sent))
  end.

Definition sends (payload : bytes) : bool := send_all (length payload) 0 (Z.of_nat (length payload)).

Definition Send (method url body : bytes) (headers : list (bytes * bytes)) : io HttpResponse :=
  let* parsed := lift (ParseUrl url) in
  CreateSocket ;;
  let payload := BuildRequest parsed method body headers in
  let close_socket := tell [SocketClose] in
  (if use_tls parsed then
     if negb (tls_ready net) then close_socket ;; throw "TLS not available in HttpClient"
     else if negb (ssl_new net) then close_socket ;; throw "failed to allocate TLS context"
     else
       tell [SslNew] ;;
       if negb (identity_configured net) || negb (ssl_set_fd net)
       then tell [SslFree] ;; close_socket ;; throw "failed to configure TLS peer identity"
       else if negb (ssl_connect net) then tell [SslFree] ;; close_socket ;; throw "TLS handshake failed"
       else if negb (verify_ok net) then tell [SslFree] ;; close_socket ;; throw "TLS certificate verification failed"
       else if negb (sends payload) then tell [SslFree] ;; close_socket ;; throw "failed to send TLS request"
       else tell [SslFree]
   else if negb (sends payload) then close_socket ;; throw "failed to send request"
   else ret ()) ;;
  close_socket ;;
  ret (parse_response (received net)).

(** A [RawConnection]: whether it has a socket, and a TLS connection. *)
Record RawConnection := mkConn { has_sock : bool; has_ssl : bool }.

Definition CloseRaw (conn : RawConnection) : io RawConnection :=
  tell ((if has_ssl conn then [SslFree] else []) ++ (if has_sock conn then [SocketClose] else [])) ;;
  ret (mkConn false false).

Definition SendRaw (method url body : bytes) (headers : list (bytes * bytes)) : io RawConnection :=
  let* parsed := lift (ParseUrl url) in
  CreateSocket ;;
  let payload := BuildRequest parsed method body headers in
  let close_connection (conn : RawConnection) (message : string) := CloseRaw conn ;; throw message in
  let plain := mkConn true false in
  let secure := mkConn true true in
  if use_tls parsed then
    if negb (tls_ready net) then close_connection plain "TLS not available in HttpClient"
    else if negb (ssl_new net) then close_connection plain "failed to allocate TLS context"
    else
      tell [SslNew] ;;
      if negb (identity_configured net) || negb (ssl_set_fd net)
      then close_connection secure "failed to configure TLS peer identity"
      else if negb (ssl_connect net) then close_connection secure "TLS handshake failed"
      else if negb (verify_ok net) then close_connection secure "TLS certificate verification failed"
      else if negb (sends payload) then close_connection secure "failed to send TLS request"
      else ret secure
  else if negb (sends payload) then close_connection plain "failed to send request"
  else ret plain.

Definition Get (url : bytes) (headers : list (bytes * bytes)) : io HttpResponse := Send (bytes_of "GET") url [] headers.
Definition Post (url body : bytes) (headers : list (bytes * bytes)) : io HttpResponse := Send (bytes_of "POST") url body headers.
Definition Put (url body : bytes) (headers : list (bytes * bytes)) : io HttpResponse := Send (bytes_of "PUT") url body headers.
Definition Delete (url body : bytes) (headers : list (bytes * bytes)) : io HttpResponse := Send (bytes_of "DELETE") url body headers.
End Client.

(** ** Resources *)

(** The open sockets and TLS connections; [None] when one is closed that is not open, or
    a socket is closed under its TLS connection. *)
Definition apply_event (st : nat * nat) (e : event) : option (nat * nat) :=
  match e, st with
  | SocketOpen, (s, t) => Some (S s, t)
  | SslNew, (S s, t) => Some (S s, S t)
  | SslFree, (s, S t) => Some (s, t)
  | SocketClose, (S s, 0) => Some (s, 0)
  | _, _ => None
  end.

Fixpoint run (l : list event) (st : nat * nat) : option (nat * nat) :=
  match l with
  | [] => Some st
  | e :: l' => apply_event st e ≫= run l'
  end.

Lemma run_trace_app l l' st : run (l ++ l') st = run l st ≫= run l'.
Proof. revert st. induction l as [|e l IH]; intros st; [done|]. cbn. destruct (apply_event st e); cbn; [apply IH|done]. Qed.

(** A computation that starts with [st] open and ends with what [post] says. *)
Definition triple {A} (st : nat * nat) (m : io A) (post : outcome A -> nat * nat -> Prop) : Prop :=
  exists st', run m.1 st = Some st' /\ post m.2 st'.

Lemma triple_bind {A B} st (m : io A) (f : A -> io B) (mid : outcome A -> nat * nat -> Prop) (post : outcome B -> nat * nat -> Prop) :
  triple st m mid -> (forall a st', mid (Ret a) st' -> triple st' (f a) post) ->
  (forall e st', mid (Throw e) st' -> post (Throw e) st') -> triple st (bind m f) post.
Proof.
  intros (st' & Hr & Hm) Hf He. destruct m as [l [a|e]]; cbn in *.
  - destruct (Hf a st' Hm) as (st'' & Hr' & Hp). destruct (f a) as [l' o]. exists st''. cbn in *. rewrite run_trace_app, Hr. split; [exact Hr'|exact Hp].
  - exists st'. split; [exact Hr|]. apply He, Hm.
Qed.

Lemma triple_now {A} st (m : io A) post st' : run m.1 st = Some st' -> post m.2 st' -> triple st m post.
Proof. by exists st'. Qed.

(** Closes a branch that runs to its end. *)
Ltac done_here := eapply triple_now; [reflexivity|cbn; auto].

Section Resources.
Context (net : Network) (method url rbody : bytes) (headers : list (bytes * bytes)).

Lemma connect_first_triple l : triple (0, 0) (connect_first l) (fun o st => exists b, o = Ret b /\ st = (if b : bool then 1 else 0, 0)).
Proof.
  induction l as [|[[] []] l IH]; cbn [connect_first]; [by done_here; exists false|by done_here; exists true| |exact IH..].
  eapply (triple_bind _ _ _ (fun o st => o = Ret () /\ st = (0, 0))); [by done_here|by intros _ ? [_ ->]; exact IH|by intros ?? [? _]].
Qed.

Lemma CreateSocket_triple : triple (0, 0) (CreateSocket net) (fun o st => match o with Ret _ => st = (1, 0) | Throw _ => st = (0, 0) end).
Proof.
  unfold CreateSocket. destruct (addresses net); [|by done_here].
  eapply triple_bind; [apply connect_first_triple|intros [] st' ([] & [= ] & ->); by done_here|by intros e st' (? & ? & _)].
Qed.

(** [Send] closes every socket and frees every TLS connection that it opened, once,
    the TLS connection first, however it ends; [SendRaw] does so when it throws, and
    otherwise hands over one socket, with its TLS connection when the URL is https.  An
    answer over https is returned only after the peer's identity was configured and
    its certificate verified. *)
Theorem connections_released :
  triple (0, 0) (Send net method url rbody headers) (fun o st => st = (0, 0) /\
    forall r p, o = Ret r -> ParseUrl url = Ret p -> use_tls p = true ->
      identity_configured net && ssl_connect net && verify_ok net && sends net (BuildRequest p method rbody headers) = true) /\
  triple (0, 0) (SendRaw net method url rbody headers) (fun o st =>
    match o with
    | Throw _ => st = (0, 0)
    | Ret c => has_sock c = true /\ st = (1, if has_ssl c then 1 else 0) /\
        (forall p, ParseUrl url = Ret p -> has_ssl c = use_tls p /\ (use_tls p = true -> identity_configured net && verify_ok net = true)) /\
        triple st (CloseRaw c) (fun _ st => st = (0, 0))
    end).
Proof.
  split.
  - unfold Send. eapply (triple_bind _ _ _ (fun o st => st = (0, 0) /\ o = ParseUrl url)); [by done_here| |by intros e st' [-> _]].
    intros p st' [-> Hp]. eapply triple_bind; [apply CreateSocket_triple| |by intros e st' ->].
    intros _ ? ->. rewrite <- Hp. cbv zeta. destruct (use_tls p) eqn:Et, (tls_ready net), (ssl_new net), (identity_configured net), (ssl_set_fd net),
      (ssl_connect net), (verify_ok net), (sends net _) eqn:Es; done_here; (split; [done|]); intros ?? [=]; intros [= <-]; congruence || done.
  - unfold SendRaw. eapply (triple_bind _ _ _ (fun o st => st = (0, 0) /\ o = ParseUrl url)); [by done_here| |by intros e st' [-> _]].
    intros p st' [-> Hp]. eapply triple_bind; [apply CreateSocket_triple| |by intros e st' ->].
    intros _ ? ->. rewrite <- Hp. cbv zeta. destruct (use_tls p) eqn:Et, (tls_ready net), (ssl_new net), (identity_configured net), (ssl_set_fd net),
      (ssl_connect net), (verify_ok net), (sends net _); (eapply triple_now; [reflexivity|]); cbn; try done;
      (split_and!; [done..|intros ? [= <-]; by rewrite Et|by done_here]).
Qed.

(** The loop over the writes ends: when each write takes some of what is left, a payload of
    [remaining] bytes is sent in at most as many turns. *)
Inductive written : nat -> Z -> Prop :=
  | written_all k : written k 0
  | written_some k remaining : (0 < write_result net k <= remaining)%Z -> written (S k) (remaining - write_result net k) -> written k remaining.

Lemma send_all_written k remaining : written k remaining -> (remaining < 2 ^ 64)%Z ->
  forall fuel, (remaining <= Z.of_nat fuel)%Z -> send_all net fuel k remaining = true.
Proof.
  induction 1 as [k|k remaining Hw _ IH]; intros Hb fuel Hf; [by destruct fuel|].
  destruct fuel as [|fuel]; [lia|]. cbn. rewrite (proj2 (Z.eqb_neq _ _)), (proj2 (Z.leb_gt _ _)) by lia.
  rewrite u64_small by lia. apply IH; lia.
Qed.
End Resources.

(** ** Texts *)

(** A line of a message head. *)
Definition line_ok (l : bytes) : Prop := l <> [] /\ chr 13 ∉ l.

Lemma find_after_crlf x t : x <> chr 13 -> find_sub blank_line (crlf ++ x :: t) = Nat.add 2 <$> find_sub blank_line (x :: t).
Proof.
  intros Hx. change (crlf ++ x :: t) with (chr 13 :: chr 10 :: x :: t). remember (x :: t) as u eqn:Eu.
  assert (starts_with crlf u = false) as Hu by (subst u; cbn [crlf starts_with]; by rewrite bool_decide_eq_false_2).
  cbn [find_sub]. assert (starts_with blank_line (chr 13 :: chr 10 :: u) = starts_with crlf u) as -> by reflexivity. rewrite Hu.
  assert (starts_with blank_line (chr 10 :: u) = false) as -> by reflexivity. by destruct (find_sub blank_line u).
Qed.

Lemma find_in_line l t : chr 13 ∉ l -> find_sub blank_line (l ++ t) = Nat.add (length l) <$> find_sub blank_line t.
Proof. apply find_sub_skip. Qed.

(** The lines of a head, each with its line end. *)
Definition unlines (lines : list bytes) : bytes := lines ≫= fun l => l ++ crlf.

Lemma unlines_cons l lines : unlines (l :: lines) = l ++ crlf ++ unlines lines.
Proof. unfold unlines. cbn [mbind list_bind]. by rewrite <- app_assoc. Qed.

Lemma find_blank_line (lines : list bytes) (rest : bytes) : Forall line_ok lines -> lines <> [] ->
  find_sub blank_line (unlines lines ++ crlf ++ rest) = Some (length (unlines lines) - 2).
Proof.
  intros Hl. induction Hl as [|l lines [Hne Hcr] Hl IH]; [done|]. intros _.
  rewrite unlines_cons. rewrite <- !app_assoc, !length_app, find_in_line by done.
  destruct lines as [|l' lines].
  - assert (find_sub blank_line (crlf ++ unlines [] ++ crlf ++ rest) = Some 0) as -> by reflexivity. cbn. f_equal. lia.
  - specialize (IH ltac:(done)). inversion_clear Hl as [|?? [Hne' Hcr'] _]. destruct l' as [|x l']; [done|].
    apply not_elem_of_cons in Hcr' as [Hx _].
    assert (exists T, unlines ((x :: l') :: lines) = x :: T /\ 2 <= length (x :: T)) as (T & ET & HT).
    { eexists. split; [reflexivity|]. cbn. rewrite !length_app. cbn. lia. }
    rewrite ET in *. cbn [app]. rewrite find_after_crlf by done. change (x :: T ++ crlf ++ rest) with ((x :: T) ++ crlf ++ rest). rewrite IH.
    cbn [fmap option_fmap option_map]. f_equal. change (length crlf) with 2. lia.
Qed.

(** A number is read up to the first character that is not a digit. *)
Definition no_digit (t : bytes) : Prop := match t with [] => True | c :: _ => digit_val c = None end.

Lemma scan_digits_app s t acc v : no_digit t -> scan_digits s acc = (v, []) -> scan_digits (s ++ t) acc = (v, t).
Proof.
  intros Ht. revert acc. induction s as [|c s IH]; intros acc; cbn [app scan_digits].
  - intros [= ->]. destruct t as [|d t]; [done|]. cbn in *. by rewrite Ht.
  - destruct (digit_val c); [apply IH|done].
Qed.

Lemma drop_while_app p (s t : bytes) : drop_while p s <> [] -> drop_while p (s ++ t) = drop_while p s ++ t.
Proof. induction s as [|c s IH]; [done|]. cbn. by destruct (p c). Qed.

Lemma scan_int_app s t v : no_digit t -> scan_int s = Some (v, []) -> scan_int (s ++ t) = Some (v, t).
Proof.
  intros Ht. unfold scan_int. destruct (drop_while is_space s) as [|c s'] eqn:E; [done|].
  rewrite drop_while_app, E by by rewrite E. cbn [app].
  set (body := if bool_decide (c = "-"%char) then (true, s') else if bool_decide (c = "+"%char) then (false, s') else (false, c :: s')).
  assert ((if bool_decide (c = "-"%char) then (true, s' ++ t) else if bool_decide (c = "+"%char) then (false, s' ++ t) else (false, c :: s' ++ t))
    = (body.1, body.2 ++ t)) as -> by (unfold body; by repeat case_bool_decide).
  clearbody body. destruct body as [neg [|d s2]]; [done|]. cbn [fst snd app].
  destruct (digit_val d); [|done]. destruct (scan_digits (d :: s2) 0) as [v' rest] eqn:Es. intros [= <- ->].
  pose proof (scan_digits_app _ _ _ _ Ht Es) as E2. cbn [app] in E2. by rewrite E2.
Qed.

Lemma pretty_no (z : Z) c : digit_val c = None -> c <> "-"%char -> c ∉ bytes_of (pretty z).
Proof.
  intros Hd Hm Hc. pose proof (pretty_chars z) as HF. rewrite Forall_forall in HF. destruct (HF c Hc) as [[? H]|?]; congruence.
Qed.

Definition in_int (z : Z) : Prop := (- 2 ^ 31 <= z < 2 ^ 31)%Z.

Lemma stoi_number (z : Z) t : in_int z -> no_digit t ->
  stoi (bytes_of (pretty z) ++ t) = Some z /\ stoi_throws (bytes_of (pretty z) ++ t) = Ret z.
Proof.
  intros Hz Ht. unfold stoi, stoi_throws. rewrite (scan_int_app _ _ _ Ht (scan_int_pretty z)).
  by rewrite (proj2 (Z.leb_le _ _)), (proj2 (Z.ltb_lt _ _)) by apply Hz.
Qed.

(** ** What is sent and what is read *)

Definition head_lines (p : ParsedUrl) (method rbody : bytes) (headers : list (bytes * bytes)) : list bytes :=
  [method ++ bytes_of " " ++ path p ++ bytes_of " HTTP/1.1"; bytes_of "Host: " ++ host p;
   bytes_of "Content-Length: " ++ bytes_of (pretty (Z.of_nat (length rbody))); bytes_of "Content-Type: application/json"] ++
  ((fun '(key, value) => key ++ bytes_of ": " ++ value) <$> headers) ++ [bytes_of "Connection: close"].

Lemma header_lines (headers : list (bytes * bytes)) :
  (headers ≫= fun '(key, value) => key ++ bytes_of ": " ++ value ++ crlf) = unlines ((fun '(key, value) => key ++ bytes_of ": " ++ value) <$> headers).
Proof.
  induction headers as [|[k v] headers IH]; [done|]. cbn [fmap list_fmap]. rewrite unlines_cons. setoid_rewrite <- IH. cbn [mbind list_bind].
  by rewrite <- !app_assoc.
Qed.

Lemma BuildRequest_lines p method rbody headers :
  BuildRequest p method rbody headers = unlines (head_lines p method rbody headers) ++ crlf ++ rbody.
Proof.
  unfold BuildRequest, head_lines, blank_line. rewrite header_lines. unfold unlines. rewrite !bind_app. cbn [mbind list_bind].
  rewrite !app_nil_r. by rewrite <- !app_assoc.
Qed.

(** The first blank line of a text made of a head and a body separates the two. *)
Lemma split_message lines rest : Forall line_ok lines -> lines <> [] ->
  exists n, find_sub blank_line (unlines lines ++ crlf ++ rest) = Some n /\
    take n (unlines lines ++ crlf ++ rest) ++ crlf = unlines lines /\ drop (n + 4) (unlines lines ++ crlf ++ rest) = rest.
Proof.
  intros Hl Hne. exists (length (unlines lines) - 2). split; [by apply find_blank_line|].
  assert (exists h, unlines lines = h ++ crlf) as [h Eh].
  { destruct (exists_last Hne) as (ls & l & ->). unfold unlines. rewrite bind_app. cbn. rewrite app_nil_r, app_assoc. by eexists. }
  rewrite Eh, length_app, <- app_assoc. change (length crlf) with 2. replace (length h + 2 - 2) with (length h) by lia.
  rewrite take_app_length. split; [done|]. by rewrite drop_app_add.
Qed.

Lemma bytes_without (s : string) c : bool_decide (c ∉ bytes_of s) = true -> c ∉ bytes_of s.
Proof. apply bool_decide_eq_true. Qed.

Lemma head_lines_ok (p : ParsedUrl) (method rbody : bytes) (headers : list (bytes * bytes)) :
  chr 13 ∉ method -> chr 13 ∉ path p -> chr 13 ∉ host p -> Forall (fun kv => chr 13 ∉ kv.1 /\ chr 13 ∉ kv.2) headers ->
  Forall line_ok (head_lines p method rbody headers).
Proof.
  intros Hm Hp Hh Hhs. unfold head_lines. rewrite !Forall_app, !Forall_cons, Forall_fmap.
  assert (Hd : chr 13 ∉ bytes_of (pretty (Z.of_nat (length rbody)))) by by apply pretty_no.
  unfold line_ok. split_and!; try done; try (by apply bytes_without); try (rewrite !not_elem_of_app; split_and!; try done; by apply bytes_without).
  - by destruct method.
  - eapply Forall_impl; [exact Hhs|]. intros [k v] [Hk Hv]. cbn [fst snd] in *. split; [by destruct k|].
    rewrite !not_elem_of_app. split_and!; [done|by apply bytes_without|done].
Qed.

(** No byte of the method, path, host or headers being a carriage return, the
    request is a head followed by a blank line and the body: the first blank line
    is the one that ends the head, the head has the announced lines, and what follows
    it is exactly the body, whose length is the announced [Content-Length]. *)
Theorem request_framed (p : ParsedUrl) (method rbody : bytes) (headers : list (bytes * bytes)) :
  chr 13 ∉ method -> chr 13 ∉ path p -> chr 13 ∉ host p -> Forall (fun kv => chr 13 ∉ kv.1 /\ chr 13 ∉ kv.2) headers ->
  let request := BuildRequest p method rbody headers in
  exists n, find_sub blank_line request = Some n /\ take n request ++ crlf = unlines (head_lines p method rbody headers) /\
    drop (n + 4) request = rbody /\
    (bytes_of "Content-Length: " ++ bytes_of (pretty (Z.of_nat (length rbody)))) ∈ head_lines p method rbody headers.
Proof.
  intros Hm Hp Hh Hhs. cbv zeta. rewrite BuildRequest_lines.
  destruct (split_message (head_lines p method rbody headers) rbody) as (n & H1 & H2 & H3); [by apply head_lines_ok|done|].
  exists n. split_and!; try done. unfold head_lines. right. right. left.
Qed.

(** Reading back what a server answers: of a response with any head lines after the
    status line and any body, [Send] returns the status that the server wrote, whatever
    reason follows it, and the body, byte for byte. *)
Theorem response_roundtrip (version reason : bytes) (code : Z) (lines : list bytes) (content : bytes) :
  " "%char ∉ version -> in_int code -> no_digit reason -> Forall line_ok ((version ++ bytes_of " " ++ bytes_of (pretty code) ++ reason) :: lines) ->
  parse_response (unlines ((version ++ bytes_of " " ++ bytes_of (pretty code) ++ reason) :: lines) ++ crlf ++ content) = mkResponse code content.
Proof.
  intros Hv Hc Hr Hl. destruct (split_message _ content Hl ltac:(done)) as (n & H1 & H2 & H3).
  unfold parse_response. rewrite H1, H3. set (text := _ ++ crlf ++ content) in *.
  assert (exists t, take n text = version ++ " "%char :: bytes_of (pretty code) ++ reason ++ t /\ (reason = [] -> no_digit t)) as (t & -> & Ht).
  { rewrite unlines_cons in H2. destruct lines as [|l lines].
    - rewrite app_nil_r in H2. apply app_inv_tail in H2. rewrite H2. exists []. by rewrite app_nil_r.
    - destruct (split_message (l :: lines) []) as (m & _ & H4 & _); [by inversion Hl|done|]. rewrite <- H4, !app_assoc in H2.
      apply app_inv_tail in H2. rewrite H2. rewrite <- !app_assoc. eexists. split; [reflexivity|done]. }
  rewrite find_sub_char by done. rewrite drop_app_add. cbn [skipn]. rewrite drop_0.
  destruct (stoi_number code (reason ++ t) Hc) as [-> _]; [|done]. destruct reason; [by apply Ht|done].
Qed.

(** Parsing a URL: its parts, with the port of the scheme when it has none. *)
Lemma ParseUrl_parts sch h (prt : option Z) pth :
  ":"%char ∉ sch -> ":"%char ∉ h -> "/"%char ∉ h -> h <> [] -> match prt with Some n => in_int n | None => True end ->
  match pth with [] => True | c :: _ => c = "/"%char end ->
  ParseUrl (sch ++ bytes_of "://" ++ h ++ (match prt with Some n => ":"%char :: bytes_of (pretty n) | None => [] end) ++ pth) =
  Ret (mkUrl sch h (if bool_decide (pth = []) then bytes_of "/" else pth) (default (if named sch "https" then 443%Z else 80%Z) prt) (named sch "https")).
Proof.
  intros Hs Hc Hsl Hh Hp Hpth. unfold ParseUrl. set (authority := h ++ match prt with Some n => ":"%char :: bytes_of (pretty n) | None => [] end).
  replace (h ++ _ ++ pth) with (authority ++ pth) by (unfold authority; by rewrite <- app_assoc).
  change (bytes_of "://") with (":"%char :: bytes_of "//") at 1. rewrite find_sub_skip by done.
  assert (find_sub (":"%char :: bytes_of "//") (bytes_of "://" ++ authority ++ pth) = Some 0) as -> by reflexivity.
  cbn [fmap option_fmap option_map]. rewrite Nat.add_0_r, take_app_length, drop_app_add. change (drop 3 (bytes_of "://" ++ ?x)) with (drop 0 x). rewrite drop_0.
  assert (Ha : "/"%char ∉ authority).
  { unfold authority. apply not_elem_of_app. split; [done|]. destruct prt as [n|]; [|apply not_elem_of_nil]. apply not_elem_of_cons. split; [done|].
    by apply pretty_no. }
  assert (find_sub ["/"%char] (authority ++ pth) = if bool_decide (pth = []) then None else Some (length authority)) as ->.
  { destruct pth as [|c pth]; [rewrite app_nil_r; by apply find_sub_char_None|]. rewrite Hpth. by apply find_sub_char. }
  assert ((match (if bool_decide (pth = []) then None else Some (length authority)) with None => authority ++ pth | Some i => take i (authority ++ pth) end)
    = authority) as -> by (case_bool_decide; [subst; apply app_nil_r|apply take_app_length]).
  assert ((match (if bool_decide (pth = []) then None else Some (length authority)) with None => bytes_of "/" | Some i => drop i (authority ++ pth) end)
    = if bool_decide (pth = []) then bytes_of "/" else pth) as -> by (case_bool_decide; [done|apply drop_app_length]).
  unfold authority. destruct prt as [n|].
  - rewrite find_sub_char by done. rewrite drop_app_add, take_app_length. cbn [skipn]. rewrite drop_0.
    destruct (stoi_number n [] Hp I) as [_ E]. rewrite app_nil_r in E. rewrite E. by rewrite bool_decide_eq_false_2.
  - rewrite app_nil_r. rewrite (proj2 (find_sub_char_None _ _)) by done. by rewrite bool_decide_eq_false_2.
Qed.

(** ** Examples *)

Definition demo_url : ParsedUrl := mkUrl (bytes_of "http") (bytes_of "opa") (bytes_of "/v1/data") 8181 false.

Lemma request_framed_witness :
  exists n, find_sub blank_line (BuildRequest demo_url (bytes_of "POST") (blank_line ++ bytes_of "{}") [(bytes_of "X-Id", bytes_of "7")]) = Some n /\
    drop (n + 4) (BuildRequest demo_url (bytes_of "POST") (blank_line ++ bytes_of "{}") [(bytes_of "X-Id", bytes_of "7")]) = blank_line ++ bytes_of "{}".
Proof.
  destruct (request_framed demo_url (bytes_of "POST") (blank_line ++ bytes_of "{}") [(bytes_of "X-Id", bytes_of "7")]) as (n & H1 & _ & H2 & _);
    [by apply bytes_without..| |by exists n].
  constructor; [|constructor]. split; by apply bytes_without.
Defined.

Lemma response_roundtrip_witness :
  parse_response (unlines [bytes_of "HTTP/1.1 404 Not Found"; bytes_of "Content-Type: text/plain"] ++ crlf ++ bytes_of "gone") =
  mkResponse 404 (bytes_of "gone").
Proof.
  apply (response_roundtrip (bytes_of "HTTP/1.1") (bytes_of " Not Found") 404 [bytes_of "Content-Type: text/plain"]).
  - by apply bytes_without.
  - split; lia.
  - reflexivity.
  - repeat constructor; try done; by apply (bytes_without "HTTP/1.1 404 Not Found") || by apply bytes_without.
Defined.

(** A certificate that is not verified: the connection is closed and nothing is read. *)
Example unverified_peer :
  Send (mkNet (Some [(true, false); (true, true)]) true true true true true false (fun _ => 100%Z) (bytes_of "HTTP/1.1 200 OK"))
    (bytes_of "GET") (bytes_of "https://issuer/keys") [] [] =
  ([SocketOpen; SocketClose; SocketOpen; SslNew; SslFree; SocketClose], Throw (runtime_error "TLS certificate verification failed")).
Proof. reflexivity. Qed.
