(* ===== verification/Media.v ===== *)
(** * Images in, embeddings out: runtime/multimodal/image_preprocessor.cpp and
    server/http/embedding_payload.cpp

    A content array becomes a text with markers and the images in order; data
    URIs are decoded, other URLs fetched.  The other way, a vector of floats
    becomes a JSON array or base64 text.  The JSON parser, SHA-256 and
    [EVP_EncodeBlock] are parameters; images are fetched with the client of
    HttpClient.v. *)

From stdpp Require Import base tactics numbers list strings pretty sets.
From Stdlib Require Import Ascii.
From S2P Require Import Prelude StringUtils Json Base64 HttpClient.

(** ** ImagePreprocessor *)
Module Images.

Record DecodedImage := mkImage { raw_bytes : bytes; source_uri : bytes; image_id : bytes }.

Record ContentArrayResult := mkResult { text : bytes; images : list DecodedImage; error : bytes }.

Definition kMediaMarker : bytes := bytes_of "<__media__>".

(** The bytes, and [*error], which is empty on success. *)
Definition DecodeBase64DataUri (data_uri : bytes) : bytes * bytes :=
  if negb (bool_decide (take 5 data_uri = bytes_of "data:")) then ([], bytes_of "not a data URI")
  else match find_sub [","%char] data_uri with
       | None => ([], bytes_of "malformed data URI: missing comma")
       | Some comma =>
           match find_sub (bytes_of "base64") (take comma data_uri) with
           | None => ([], bytes_of "data URI is not base64 encoded")
           | Some _ =>
               let bs := Image.Base64Decode (drop (comma + 1) data_uri) in
               if bool_decide (bs = []) then ([], bytes_of "base64 decode produced empty result") else (bs, [])
           end
       end.

(** [ex.what()] *)
Definition what (e : exn) : bytes :=
  bytes_of match e with runtime_error w | out_of_range w | invalid_argument w | length_error w => w end.

(** [HttpClient::Get], on the network that the request to [url] meets. *)
Definition client_get (net : bytes -> Network) (url : bytes) : bytes + Z * bytes :=
  match (Get (net url) url []).2 with Ret r => inr (status r, body r) | Throw e => inl (what e) end.

Section with_io.
(** [json::parse]; the left side is [ex.what()]. *)
Context (parse : bytes -> bytes + json).
(** [client_get] on some network. *)
Context (http_get : bytes -> bytes + Z * bytes).
(** The SHA-256 of OpenSSL; [None] when one of its calls fails. *)
Context (sha256 : bytes -> option (list Z)).

Definition FetchUrl (url : bytes) : bytes * bytes :=
  if bool_decide (url = []) then ([], bytes_of "empty URL")
  else match http_get url with
       | inl what => ([], bytes_of "HTTP fetch error: " ++ what)
       | inr (status, body) =>
           if ((status <? 200) || (300 <=? status))%Z
           then ([], bytes_of "HTTP " ++ bytes_of (pretty status) ++ bytes_of " fetching image") else (body, [])
       end.

Definition ComputeSha256Hex (data : bytes) : bytes :=
  match sha256 data with None => [] | Some hash => HexEncode hash end.

(** The [url] of an [image_url] part; empty when it has none. *)
Definition part_url (part : json) : bytes :=
  default [] (match get "image_url" part with
              | Some (JObject fields) => get_string "url" (JObject fields)
              | _ => get_string "url" part
              end).

Definition load_image (url : bytes) : DecodedImage * bytes :=
  let '(raw, decode_error) := if bool_decide (take 5 url = bytes_of "data:") then DecodeBase64DataUri url else FetchUrl url in
  (mkImage raw url (if bool_decide (raw = []) then [] else ComputeSha256Hex raw), decode_error).

(** One turn of the loop over the parts. *)
Definition process_part (result : ContentArrayResult) (part : json) : ContentArrayResult :=
  match part with
  | JObject _ =>
      let type := default [] (get_string "type" part) in
      if named type "text" then mkResult (text result ++ default [] (get_string "text" part)) (images result) (error result)
      else if named type "image_url" then
        let url := part_url part in
        if bool_decide (url = [])
        then mkResult (text result ++ kMediaMarker) (images result) (bytes_of "image_url part missing url field")
        else
          let '(img, decode_error) := load_image url in
          mkResult (text result ++ kMediaMarker) (images result ++ [img])
            (if bool_decide (decode_error = []) then error result else bytes_of "image decode error: " ++ decode_error)
      else result
  | _ => result
  end.

Definition ProcessContentArray (content_array_json : bytes) : ContentArrayResult :=
  let empty := mkResult [] [] [] in
  if bool_decide (content_array_json = []) then empty
  else match parse content_array_json with
       | inl what => mkResult [] [] (bytes_of "JSON parse error: " ++ what)
       | inr (JArray parts) => foldl process_part empty parts
       | inr _ => mkResult [] [] (bytes_of "content is not a JSON array")
       end.
End with_io.
End Images.

(** ** BuildEmbeddingValue *)
Module Embedding.

Inductive value :=
  | Numbers (l : list Z)
  | Text (s : bytes).

(** The bytes of a binary32, the lowest first; a float is its bit pattern. *)
Definition float_bytes (bits : Z) : bytes :=
  (fun shift => char_of (Z.land (Z.shiftr bits shift) 255)) <$> [0; 8; 16; 24]%Z.

Definition max_values : Z := ((2 ^ 31 - 1 - 4) / 16)%Z.

(** [encode_block data]: what [EVP_EncodeBlock] writes before its NUL. *)
Definition BuildEmbeddingValue (encode_block : bytes -> bytes) (values : list Z) (base64 : bool) : outcome value :=
  if negb base64 then Ret (Numbers values)
  else if (max_values <? Z.of_nat (length values))%Z then Throw (length_error "embedding exceeds base64 encoding bound")
  else if bool_decide (values = []) then Ret (Text [])
  else Ret (Text (encode_block (values ≫= float_bytes))).
End Embedding.

(** ** Data URIs *)

(** A data URI made from any bytes is decoded to these bytes, whatever its media type. *)
Lemma data_uri_roundtrip (mediatype data : bytes) : ","%char ∉ mediatype -> data <> [] ->
  Images.DecodeBase64DataUri (bytes_of "data:" ++ mediatype ++ bytes_of ";base64" ++ ","%char :: encode table true data) = (data, []).
Proof.
  intros Hm Hd. unfold Images.DecodeBase64DataUri. rewrite take_app_length' by done.
  rewrite bool_decide_eq_true_2 by done. cbn [negb]. set (header := bytes_of "data:" ++ mediatype ++ bytes_of ";base64").
  replace (bytes_of "data:" ++ _) with (header ++ ","%char :: encode table true data) by (unfold header; by rewrite <- !app_assoc).
  rewrite find_sub_char by (unfold header; set_solver). rewrite take_app_length.
  destruct (find_sub (bytes_of "base64") header) eqn:E.
  - rewrite drop_app_add. cbn [skipn]. rewrite drop_0. rewrite image_decode_encode by by left.
    by rewrite bool_decide_eq_false_2.
  - pose proof (find_sub_None _ _ E (length (bytes_of "data:" ++ mediatype ++ [";"%char]))) as Hf. exfalso.
    replace header with ((bytes_of "data:" ++ mediatype ++ [";"%char]) ++ bytes_of "base64") in Hf by (unfold header; by rewrite <- !app_assoc).
    by rewrite drop_app_length in Hf.
Qed.

(** ** Markers and images *)
Section Layout.
Import Images.
Context (parse : bytes -> bytes + json) (http_get : bytes -> bytes + Z * bytes) (sha256 : bytes -> option (list Z)).

(** How often the marker occurs in a text. *)
Fixpoint marker_count (t : bytes) : nat :=
  match t with
  | [] => 0
  | _ :: t' => (if starts_with kMediaMarker t then 1 else 0) + marker_count t'
  end.

Lemma marker_count_text s t : "<"%char ∉ s -> marker_count (s ++ t) = marker_count t.
Proof.
  induction s as [|c s IH]; intros Hs; [done|]. apply not_elem_of_cons in Hs as [Hc Hs].
  cbn [app marker_count]. rewrite IH by done. change kMediaMarker with ("<"%char :: bytes_of "__media__>").
  cbn [starts_with]. by rewrite bool_decide_eq_false_2.
Qed.

Lemma marker_count_marker t : marker_count (kMediaMarker ++ t) = S (marker_count t).
Proof.
  change (kMediaMarker ++ t) with ("<"%char :: bytes_of "__media__>" ++ t). cbn [marker_count].
  assert (starts_with kMediaMarker ("<"%char :: bytes_of "__media__>" ++ t) = true) as -> by (apply starts_with_spec; by exists t).
  rewrite marker_count_text; [done|]. apply (proj1 (bool_decide_eq_true _)). reflexivity.
Qed.

Definition is_text (part : json) : bool := named (default [] (get_string "type" part)) "text".
Definition is_image (part : json) : bool := named (default [] (get_string "type" part)) "image_url".

(** What a part adds to the text. *)
Definition piece (part : json) : bytes :=
  if is_text part then default [] (get_string "text" part) else if is_image part then kMediaMarker else [].

Definition loads (part : json) : Prop := part_url part <> [] /\ (load_image http_get sha256 (part_url part)).2 = [].

Lemma load_image_uri url : source_uri (load_image http_get sha256 url).1 = url.
Proof. unfold load_image. case_bool_decide; [by destruct (DecodeBase64DataUri url) | by destruct (FetchUrl http_get url)]. Qed.

Lemma not_both part : is_text part = true -> is_image part = false.
Proof. unfold is_text, is_image, named. rewrite bool_decide_eq_true. intros ->. reflexivity. Qed.

Lemma no_condition (P Q : Prop) : P <-> P /\ (false = true -> Q).
Proof. split; [by intros | by intros []]. Qed.

Lemma process_part_step r part :
  let r' := process_part http_get sha256 r part in
  text r' = text r ++ piece part /\
  source_uri <$> images r' = (source_uri <$> images r) ++ (if is_image part then filter (fun u => u <> []) [part_url part] else []) /\
  (error r' = [] <-> error r = [] /\ (is_image part = true -> loads part)).
Proof.
  cbv zeta. destruct part as [| | | | | | |fields];
    try (cbn [process_part]; change (piece _) with (@nil ascii); rewrite !app_nil_r; split_and!; [done..|apply no_condition]).
  set (part := JObject fields) in *. unfold process_part. cbv zeta.
  assert (Ep : forall x y : ContentArrayResult, match part with JObject _ => x | _ => y end = x) by done. rewrite !Ep.
  fold (is_text part) (is_image part). unfold piece. destruct (is_text part) eqn:Et.
  - rewrite (not_both _ Et), app_nil_r. cbn [text images error]. split_and!; [done..|apply no_condition].
  - destruct (is_image part) eqn:Ei; [|rewrite !app_nil_r; split_and!; [done..|apply no_condition]].
    unfold loads. case_bool_decide as Hu.
    + rewrite Hu, filter_cons_False, app_nil_r by tauto. cbn [text images error]. split_and!; [done..|]. split; [done|].
      intros [_ Hl]. by destruct (Hl eq_refl).
    + rewrite filter_cons_True by done. pose proof (load_image_uri (part_url part)) as Hl.
      destruct (load_image _ _ _) as [img err]. cbn [text images error fst snd] in *. rewrite fmap_app. cbn. rewrite Hl.
      split_and!; [done..|]. case_bool_decide; [tauto|]. split; [done|]. intros [_ H']. by destruct (H' eq_refl).
Qed.

Lemma process_parts parts : forall r,
  let r' := foldl (process_part http_get sha256) r parts in
  text r' = text r ++ concat (piece <$> parts) /\
  source_uri <$> images r' = (source_uri <$> images r) ++ filter (fun u => u <> []) (part_url <$> filter (fun p => is_image p = true) parts) /\
  (error r' = [] <-> error r = [] /\ Forall (fun p => is_image p = true -> loads p) parts).
Proof.
  induction parts as [|part parts IH]; intros r; cbv zeta.
  - cbn. rewrite !app_nil_r. split_and!; [done..|]. split; [by intros|by intros []].
  - cbn [foldl]. destruct (process_part_step r part) as (E1 & E2 & E3). destruct (IH (process_part http_get sha256 r part)) as (F1 & F2 & F3).
    rewrite F1, E1, F2, E2, F3, E3, Forall_cons. split_and!; [cbn; by rewrite <- app_assoc| |tauto].
    rewrite <- app_assoc, (filter_cons (fun p => is_image p = true)). f_equal. destruct (is_image part); [rewrite decide_True by done|by rewrite decide_False]. cbn [fmap list_fmap].
    rewrite !filter_cons. by case_decide.
Qed.

Lemma marker_count_pieces parts :
  Forall (fun p => is_text p = true -> "<"%char ∉ default [] (get_string "text" p)) parts ->
  marker_count (concat (piece <$> parts)) = length (filter (fun p => is_image p = true) parts).
Proof.
  induction 1 as [|part parts Hp _ IH]; [done|]. cbn [fmap list_fmap concat]. rewrite filter_cons. unfold piece at 1.
  destruct (is_text part) eqn:Et.
  - rewrite marker_count_text by auto. rewrite (not_both _ Et). by rewrite decide_False.
  - destruct (is_image part); [rewrite decide_True by done|by rewrite decide_False].
    rewrite marker_count_marker. cbn. by f_equal.
Qed.

(** A content array whose text parts hold no marker of their own becomes a text
    with one marker per image part, and the images are those of the parts with a URL,
    in the order of the parts.  No error is reported exactly when each image part has
    a URL whose image could be loaded, and then markers and images match. *)
Theorem content_array_layout content parts :
  content <> [] -> parse content = inr (JArray parts) ->
  Forall (fun p => is_text p = true -> "<"%char ∉ default [] (get_string "text" p)) parts ->
  let r := ProcessContentArray parse http_get sha256 content in
  let image_parts := filter (fun p => is_image p = true) parts in
  marker_count (text r) = length image_parts /\
  source_uri <$> images r = filter (fun u => u <> []) (part_url <$> image_parts) /\
  (error r = [] <-> Forall loads image_parts) /\
  (error r = [] -> marker_count (text r) = length (images r)).
Proof.
  intros Hc Hp Ht. cbv zeta. unfold ProcessContentArray. rewrite bool_decide_eq_false_2, Hp by done.
  destruct (process_parts parts (mkResult [] [] [])) as (E1 & E2 & E3). set (r := foldl _ _ _) in *.
  cbn [text images error app fmap list_fmap] in E1, E2, E3. rewrite E1, E2, (marker_count_pieces _ Ht).
  assert (Hl : error r = [] <-> Forall loads (filter (fun p => is_image p = true) parts)).
  { rewrite E3, !Forall_forall. setoid_rewrite list_elem_of_filter. naive_solver. }
  split_and!; [done..|]. intros He. apply Hl in He. rewrite <- (length_fmap source_uri (images r)), E2, (filter_all (fun u => u <> [])); [by rewrite length_fmap|].
  intros u (p & -> & Hin)%list_elem_of_fmap. rewrite Forall_forall in He. by apply He.
Qed.
End Layout.

(** ** Examples *)

Definition image_part (url : bytes) : json :=
  JObject [(bytes_of "type", JString (bytes_of "image_url")); (bytes_of "image_url", JObject [(bytes_of "url", JString url)])].
Definition text_part (t : bytes) : json :=
  JObject [(bytes_of "type", JString (bytes_of "text")); (bytes_of "text", JString t)].
Definition offline : bytes -> bytes + Z * bytes :=
  Images.client_get (fun _ => mkNet (Some []) false false false false false false (fun _ => 0%Z) []).
Definition no_hash (_ : bytes) : option (list Z) := None.
Definition one_image : list json := [text_part (bytes_of "what is "); image_part (bytes_of "data:image/png;base64,iVBO")].

Lemma content_array_layout_witness :
  let r := Images.ProcessContentArray (fun _ => inr (JArray one_image)) offline no_hash (bytes_of "[]") in
  Images.text r = bytes_of "what is <__media__>" /\ length (Images.images r) = 1 /\ marker_count (Images.text r) = length (Images.images r).
Proof.
  split; [reflexivity|]. split; [reflexivity|].
  refine (proj2 (proj2 (proj2 (content_array_layout (fun _ => inr (JArray one_image)) offline no_hash (bytes_of "[]") one_image _ eq_refl _))) eq_refl);
    [done|]. apply (bool_decide_unpack _). vm_compute. exact I.
Defined.

(** An image part without a URL adds a marker and no image: the text has one marker
    more than there are images. *)
Lemma marker_without_image :
  let r := Images.ProcessContentArray (fun _ => inr (JArray [image_part []])) offline no_hash (bytes_of "[]") in
  marker_count (Images.text r) = 1 /\ Images.images r = [].
Proof. split; reflexivity. Qed.

(** ** Embeddings *)
Section Embeddings.
Import Embedding.
Context (encode_block : bytes -> bytes) (encode_block_rfc : forall d, encode_block d = encode table true d).

(** Reading floats back, four bytes each, the lowest first. *)
Fixpoint floats_of (s : bytes) : list Z :=
  match s with
  | a :: b :: c :: d :: s' => (byte_val a + 2 ^ 8 * byte_val b + 2 ^ 16 * byte_val c + 2 ^ 24 * byte_val d)%Z :: floats_of s'
  | _ => []
  end.

Lemma byte_val_char z : byte_val (char_of z) = (z mod 256)%Z.
Proof. unfold byte_val, char_of. pose proof (Z.mod_pos_bound z 256). rewrite N_ascii_embedding; lia. Qed.

Lemma floats_of_bytes values : Forall (fun b => (0 <= b < 2 ^ 32)%Z) values -> floats_of (values ≫= float_bytes) = values.
Proof.
  induction 1 as [|b values Hb _ IH]; [done|]. cbn [mbind list_bind]. unfold float_bytes at 1. cbn [fmap list_fmap app floats_of].
  f_equal; [|exact IH]. change 255%Z with (Z.ones 8). rewrite !byte_val_char, !land_mod, !Z.shiftr_div_pow2 by lia.
  Z.to_euclidean_division_equations. lia.
Qed.

Lemma encode_length alphabet data : length (encode alphabet true data) = 4 * ((length data + 2) / 3).
Proof.
  revert data. fix IH 1. intros [|a [|b [|c data]]]; [reflexivity..|]. cbn [encode length]. rewrite IH.
  replace (S (S (S (length data))) + 2) with (length data + 2 + 1 * 3) by lia. rewrite Nat.div_add by lia. lia.
Qed.

Lemma float_bytes_length values : length (values ≫= float_bytes) = 4 * length values.
Proof. induction values as [|b values IH]; [done|]. cbn [mbind list_bind]. rewrite length_app. cbn [length]. setoid_rewrite IH. cbn. lia. Qed.

(** The text of an embedding is refused only above the bound, its length and the NUL
    that ends it fit an [int], and a client that decodes it has every float back, bit
    for bit. *)
Theorem embedding_roundtrip (values : list Z) : Forall (fun b => (0 <= b < 2 ^ 32)%Z) values ->
  if (max_values <? Z.of_nat (length values))%Z
  then BuildEmbeddingValue encode_block values true = Throw (length_error "embedding exceeds base64 encoding bound")
  else exists s, BuildEmbeddingValue encode_block values true = Ret (Text s) /\
    floats_of (Url.Base64UrlDecode s) = values /\ (Z.of_nat (length s) + 1 < 2 ^ 31)%Z.
Proof.
  intros Hv. unfold BuildEmbeddingValue. cbn [negb]. destruct (_ <? _)%Z eqn:Em; [done|].
  apply Z.ltb_ge in Em. case_bool_decide as Hn; [subst; by exists []|]. eexists. split; [done|].
  rewrite encode_block_rfc, url_decode_encode, floats_of_bytes by (done || by left). split; [done|].
  rewrite encode_length, float_bytes_length. unfold max_values in Em. change ((2 ^ 31 - 1 - 4) / 16)%Z with 134217727%Z in Em.
  rewrite Nat2Z.inj_mul, Nat2Z.inj_div. Z.to_euclidean_division_equations. lia.
Qed.
End Embeddings.

(** 1.0f and -2.0f *)
Lemma embedding_roundtrip_witness :
  Embedding.BuildEmbeddingValue (encode table true) [1065353216; 3221225472]%Z true = Ret (Embedding.Text (bytes_of "AACAPwAAAMA=")) /\
  exists s, Embedding.BuildEmbeddingValue (encode table true) [1065353216; 3221225472]%Z true = Ret (Embedding.Text s) /\
    floats_of (Url.Base64UrlDecode s) = [1065353216; 3221225472]%Z /\ (Z.of_nat (length s) + 1 < 2 ^ 31)%Z.
Proof.
  split; [vm_compute; reflexivity|].
  refine (embedding_roundtrip (encode table true) (fun _ => eq_refl) [1065353216; 3221225472]%Z _). repeat constructor; lia.
Defined.
