(* ===== verification/Oidc.v ===== *)
(** * server/auth/oidc_validator.cpp

    Checking a bearer token: its three parts, its claims, the key set of the
    issuer, which is fetched through the HTTP client and kept for five minutes, and
    the signature.  The JSON parser and the RSA check of OpenSSL are parameters. *)

From stdpp Require Import base tactics numbers list strings pretty gmap sets.
From Stdlib Require Import Ascii.
From S2P Require Import Prelude StringUtils Json Base64 HttpClient.

Record JwkKey := mkJwk { kid : bytes; modulus : bytes; exponent : bytes }.

#[export] Instance JwkKey_eq_dec : EqDecision JwkKey.
Proof. solve_decision. Defined.

(** The cached key set, guarded by [jwks_mutex_]; [jwks_expiry] in seconds. *)
Record Cache := mkCache { jwks : gmap bytes JwkKey; jwks_expiry : Z; jwks_loaded : bool }.

Definition no_keys : Cache := mkCache ∅ 0 false.

Record OIDCValidator := mkOIDC { issuer : bytes; audience : bytes }.

Definition Enabled (v : OIDCValidator) : bool := bool_decide (issuer v <> []) && bool_decide (audience v <> []).

Definition JwksUrl (v : OIDCValidator) : bytes :=
  match last (issuer v) with
  | None => []
  | Some c => issuer v ++ (if bool_decide (c = "/"%char) then bytes_of ".well-known/jwks.json" else bytes_of "/.well-known/jwks.json")
  end.

(** The loop over the audiences of a token. *)
Fixpoint any_audience (aud : bytes) (entries : list json) (matches : bool) : bool :=
  match entries with
  | [] => matches
  | JString s :: entries' => any_audience aud entries' (matches || bool_decide (s = aud))
  | _ :: _ => false
  end.

Definition AudienceMatches (v : OIDCValidator) (payload : json) : bool :=
  match get "aud" payload with
  | Some (JString s) => bool_decide (s = audience v)
  | Some (JArray entries) => any_audience (audience v) entries false
  | _ => false
  end.

(** [value.get<int64_t>()] of a number that [valid_timestamp] accepts. *)
Definition valid_timestamp (j : json) : option Z :=
  match j with
  | JInteger z => Some z
  | JUnsigned z => if (z <=? 2 ^ 63 - 1)%Z then Some z else None
  | _ => None
  end.

(** The bytes of the three parts of a token. *)
Definition split_token (token : bytes) : option (bytes * bytes * bytes) :=
  match find_sub ["."%char] token with
  | None => None
  | Some first =>
      let rest := drop (first + 1) token in
      match find_sub ["."%char] rest with
      | None => None
      | Some second =>
          let signature := drop (second + 1) rest in
          match find_sub ["."%char] signature with
          | Some _ => None
          | None => Some (take first token, take second rest, signature)
          end
      end
  end.

Section Validator.
(** [json::parse]; [None] when it throws. *)
Context (parse : bytes -> option json).
(** The part of [VerifyRS256] done by OpenSSL: modulus, exponent, message, signature. *)
Context (rsa_verify : bytes -> bytes -> bytes -> bytes -> bool).
Context (v : OIDCValidator).

Definition VerifyRS256 (header_payload signature_b64url n_b64url e_b64url : bytes) : bool :=
  let sig_bytes := Url.Base64UrlDecode signature_b64url in
  let n_bytes := Url.Base64UrlDecode n_b64url in
  let e_bytes := Url.Base64UrlDecode e_b64url in
  if bool_decide (sig_bytes = []) || bool_decide (n_bytes = []) || bool_decide (e_bytes = []) then false
  else rsa_verify n_bytes e_bytes header_payload sig_bytes.

(** One key of the set: [Some None] is [continue], [None] an exception of the library. *)
Definition read_key (key : json) : option (option JwkKey) :=
  if negb (bool_decide (get_string "kty" key = Some (bytes_of "RSA"))) then Some None
  else if match get_string "use" key with Some u => negb (named u "sig") | None => false end then Some None
  else match get "n" key, get "e" key with
       | Some n, Some e =>
           let kid := match get "kid" key with None => Some [] | Some (JString s) => Some s | Some _ => None end in
           match kid, n, e with
           | Some kid, JString n, JString e => Some (Some (mkJwk kid n e))
           | _, _, _ => None
           end
       | _, _ => Some None
       end.

Fixpoint read_keys (keys : list json) (parsed : gmap bytes JwkKey) : option (gmap bytes JwkKey) :=
  match keys with
  | [] => Some parsed
  | key :: keys' =>
      match read_key key with
      | None => None
      | Some None => read_keys keys' parsed
      | Some (Some jwk) => read_keys keys' (<[kid jwk := jwk]> parsed)
      end
  end.

(** [*out], or [None] for [return false]. *)
Definition LoadJwksJson (body : bytes) : option (gmap bytes JwkKey) :=
  match parse body with
  | None => None
  | Some doc =>
      match get "keys" doc with
      | Some (JArray keys) =>
          match read_keys keys ∅ with
          | Some parsed => if bool_decide (parsed = ∅) then None else Some parsed
          | None => None
          end
      | _ => None
      end
  end.

Definition FetchJwksFromNetwork (net : Network) : option (gmap bytes JwkKey) :=
  match (Get net (JwksUrl v) []).2 with
  | Ret resp => if negb (status resp =? 200)%Z then None else LoadJwksJson (body resp)
  | Throw _ => None
  end.

Definition has_kid (kid : bytes) (m : gmap bytes JwkKey) : bool := bool_decide (kid = []) || bool_decide (is_Some (m !! kid)).

(** The mutex is free while the keys are fetched: [meanwhile] is what other threads do to
    the cache in that time. *)
Definition EnsureJwks (now later : Z) (net : Network) (meanwhile : Cache -> Cache) (desired_kid : bytes) (c : Cache) : bool * Cache :=
  if jwks_loaded c && (now <? jwks_expiry c)%Z && has_kid desired_kid (jwks c) then (true, c)
  else match FetchJwksFromNetwork net with
       | None => (false, meanwhile c)
       | Some fresh => (has_kid desired_kid fresh, mkCache fresh (later + 300) true)
       end.

Definition ResolveKey (kid : bytes) (c : Cache) : option JwkKey :=
  if negb (jwks_loaded c) then None
  else if bool_decide (kid <> []) then jwks c !! kid
  else if negb (size (jwks c) =? 1) then None
  else snd <$> head (map_to_list (jwks c)).

(** The checks of header and payload: the key id and the subject. *)
Definition check_claims (now : Z) (header payload : json) : option (bytes * bytes) :=
  match header, payload with
  | JObject _, JObject _ =>
      if negb (bool_decide (get_string "alg" header = Some (bytes_of "RS256"))) then None
      else match get "kid" header with
           | Some (JNull | JBool _ | JInteger _ | JUnsigned _ | JFloat _ | JArray _ | JObject _) => None
           | _ =>
               match get_string "iss" payload, get_string "sub" payload with
               | Some iss, Some sub =>
                   if bool_decide (sub = []) then None
                   else if negb (bool_decide (iss = issuer v)) || negb (AudienceMatches v payload) then None
                   else match get "exp" payload ≫= valid_timestamp with
                        | None => None
                        | Some exp =>
                            if (exp <=? now)%Z then None
                            else if match get "nbf" payload with
                                    | None => false
                                    | Some nbf => match valid_timestamp nbf with None => true | Some t => (now <? t)%Z end
                                    end then None
                            else Some (default [] (get_string "kid" header), sub)
                        end
               | _, _ => None
               end
           end
  | _, _ => None
  end.

(** The times read by one call, the answer of the network, and what other threads do while
    the mutex is free: during the fetch, and before the key is looked up. *)
Record Call := mkCall { wall_now : Z; steady_now : Z; steady_later : Z; network : Network; meanwhile : Cache -> Cache; between : Cache -> Cache }.

(** The verdict, [*subject_out], and the cache afterwards; [override] is the verifier that
    tests install. *)
Definition Validate (override : option (bytes -> bytes -> JwkKey -> bool)) (call : Call) (token : bytes) (c : Cache) : bool * bytes * Cache :=
  if negb (Enabled v) || bool_decide (16384 < length token) then (false, [], c)
  else match split_token token with
       | None => (false, [], c)
       | Some (h, p, s) =>
           let header_str := Url.Base64UrlDecode h in
           let payload_str := Url.Base64UrlDecode p in
           if bool_decide (header_str = []) || bool_decide (payload_str = []) then (false, [], c)
           else match parse header_str, parse payload_str with
                | Some header, Some payload =>
                    match check_claims (wall_now call) header payload with
                    | None => (false, [], c)
                    | Some (k, sub) =>
                        let '(ok, c) := EnsureJwks (steady_now call) (steady_later call) (network call) (meanwhile call) k c in
                        if negb ok then (false, [], c)
                        else
                          let c := between call c in
                          match ResolveKey k c with
                          | None => (false, [], c)
                          | Some jwk =>
                              let header_payload := take (length h + 1 + length p) token in
                              let signature_ok := match override with
                                                  | Some verifier => verifier header_payload s jwk
                                                  | None => VerifyRS256 header_payload s (modulus jwk) (exponent jwk)
                                                  end in
                              if signature_ok then (true, sub, c) else (false, [], c)
                          end
                    end
                | _, _ => (false, [], c)
                end
       end.

(** The helpers of the tests: a key set given directly, kept for an hour. *)
Definition LoadJwksForTesting (now : Z) (jwks_json : bytes) (c : Cache) : outcome Cache :=
  match LoadJwksJson jwks_json with
  | None => Throw (runtime_error "invalid JWKS json for testing")
  | Some parsed => Ret (mkCache parsed (now + 3600) true)
  end.

Definition HasCachedKeyForTesting (kid : bytes) (c : Cache) : bool := bool_decide (is_Some (jwks c !! kid)).

Definition VerifySignatureForTesting (header_payload signature_b64url kid : bytes) (c : Cache) : bool :=
  match ResolveKey kid c with
  | None => false
  | Some jwk => VerifyRS256 header_payload signature_b64url (modulus jwk) (exponent jwk)
  end.
End Validator.

(** ** What the checks mean *)

Lemma split_token_Some token h p s :
  split_token token = Some (h, p, s) <->
  token = h ++ "."%char :: p ++ "."%char :: s /\ "."%char ∉ h /\ "."%char ∉ p /\ "."%char ∉ s.
Proof.
  unfold split_token. split.
  - destruct (find_sub _ token) as [i|] eqn:E1; [|done]. apply find_sub_char_Some in E1 as (a & b & -> & Ha & ->).
    rewrite drop_app_add, take_app_length. cbn [skipn]. rewrite drop_0.
    destruct (find_sub _ b) as [j|] eqn:E2; [|done]. apply find_sub_char_Some in E2 as (a' & b' & -> & Ha' & ->).
    rewrite drop_app_add, take_app_length. cbn [skipn]. rewrite drop_0.
    destruct (find_sub _ b') eqn:E3; [done|]. apply find_sub_char_None in E3. by intros [= <- <- <-].
  - intros (-> & Hh & Hp & Hs). rewrite find_sub_char, drop_app_add, take_app_length by done. cbn [skipn]. rewrite drop_0.
    rewrite find_sub_char, drop_app_add, take_app_length by done. cbn [skipn]. rewrite drop_0.
    by rewrite (proj2 (find_sub_char_None _ _) Hs).
Qed.

Section Claims.
Context (v : OIDCValidator).

(** The token names the audience, alone or in a list of strings. *)
Definition meant_for_us (payload : json) : Prop :=
  get "aud" payload = Some (JString (audience v)) \/
  exists l, get "aud" payload = Some (JArray (JString <$> l)) /\ audience v ∈ l.

Definition is_time (j : json) (t : Z) : Prop := j = JInteger t \/ j = JUnsigned t /\ (t <= 2 ^ 63 - 1)%Z.

(** A header and a payload that are acceptable at [now], with their key id and subject. *)
Record claims_hold (now : Z) (header payload : json) (k sub : bytes) : Prop := {
  ch_objects : (exists fs, header = JObject fs) /\ (exists fs, payload = JObject fs);
  ch_alg : get "alg" header = Some (JString (bytes_of "RS256"));
  ch_kid : get "kid" header = Some (JString k) \/ get "kid" header = None /\ k = [];
  ch_iss : get "iss" payload = Some (JString (issuer v));
  ch_aud : meant_for_us payload;
  ch_sub : get "sub" payload = Some (JString sub) /\ sub <> [];
  ch_exp : exists j t, get "exp" payload = Some j /\ is_time j t /\ (now < t)%Z;
  ch_nbf : forall j, get "nbf" payload = Some j -> exists t, is_time j t /\ (t <= now)%Z }.

Lemma any_audience_spec aud entries m :
  any_audience aud entries m = true <-> exists l, entries = JString <$> l /\ (m = true \/ aud ∈ l).
Proof.
  revert m. induction entries as [|j entries IH]; intros m; cbn.
  - split; [intros ->; exists []; split; [done|by left]|]. intros (l & E & [?|Hl]); [done|]. destruct l; [by apply not_elem_of_nil in Hl|done].
  - destruct j; try (split; [done|intros ([|] & E & _); [done|cbn in E; congruence]]).
    rewrite IH. split.
    + intros (l & -> & Hm). exists (s :: l). split; [done|]. destruct Hm as [Hm|Hl]; [|by right; right].
      apply orb_true_iff in Hm as [?|Hs]; [by left|]. apply bool_decide_eq_true in Hs as ->. right. left.
    + intros ([|x l] & E & Hm); [done|]. cbn in E. injection E as -> ->. exists l. split; [done|]. rewrite orb_true_iff, bool_decide_eq_true.
      destruct Hm as [?|Hl]; [by left; left|]. apply elem_of_cons in Hl as [->|?]; [by left; right|by right].
Qed.

Lemma AudienceMatches_spec payload : AudienceMatches v payload = true <-> meant_for_us payload.
Proof.
  unfold AudienceMatches, meant_for_us. destruct (get "aud" payload) as [[]|];
    try (split; [done|intros [?|(? & ? & _)]; congruence]).
  - rewrite bool_decide_eq_true. split; [intros ->; by left|]. intros [?|(? & ? & _)]; congruence.
  - rewrite any_audience_spec. split; [intros (l' & -> & [?|?]); [done|eauto]|]. intros [?|(l' & [= ->] & ?)]; [congruence|eauto].
Qed.

Lemma valid_timestamp_spec j t : valid_timestamp j = Some t <-> is_time j t.
Proof.
  unfold is_time. destruct j; cbn; try (split; [done|intros [?|[? _]]; congruence]).
  - split; [intros [= ->]; auto|]. intros [?|[? _]]; congruence.
  - destruct (z <=? _)%Z eqn:E; [apply Z.leb_le in E|apply Z.leb_gt in E].
    + split; [intros [= ->]; auto|]. intros [?|[? _]]; congruence.
    + split; [done|]. intros [?|[[= ->] ?]]; [congruence|lia].
Qed.

Lemma check_claims_spec now header payload k sub :
  check_claims v now header payload = Some (k, sub) <-> claims_hold now header payload k sub.
Proof.
  split.
  - unfold check_claims. destruct header as [| | | | | | |hf]; try done. destruct payload as [| | | | | | |pf]; try done.
    set (header := JObject hf). set (payload := JObject pf).
    case_bool_decide as Halg; cbn [negb]; [|done]. apply get_string_Some in Halg.
    destruct (get "kid" header) as [kj|] eqn:Ek.
    1: destruct kj as [| | | | |ks| |]; try done.
    all: destruct (get_string "iss" payload) as [iss|] eqn:Ei; [|done]; destruct (get_string "sub" payload) as [sb|] eqn:Es; [|done];
      apply get_string_Some in Ei, Es; case_bool_decide as Hs; [done|]; case_bool_decide as Hi; [|done]; cbn [negb orb];
      destruct (AudienceMatches v payload) eqn:Ea; cbn [negb]; [|done]; apply AudienceMatches_spec in Ea;
      destruct (get "exp" payload) as [ej|] eqn:Ee; cbn [mbind option_bind]; [|done]; destruct (valid_timestamp ej) as [t|] eqn:Et; [|done];
      apply valid_timestamp_spec in Et; destruct (t <=? now)%Z eqn:El; [done|]; apply Z.leb_gt in El;
      destruct (match get "nbf" payload with None => false | Some _ => _ end) eqn:En; [done|]; intros [= <- <-]; subst iss.
    all: split; eauto; [unfold get_string; rewrite Ek; auto|]; intros j Hj; rewrite Hj in En;
      destruct (valid_timestamp j) as [t'|] eqn:Et'; [|done]; apply valid_timestamp_spec in Et'; apply Z.ltb_ge in En; eauto.
  - intros [[[hf ->] [pf ->]] Halg Hk Hi Ha [Hs Hs'] (j & t & He & Ht & Hlt) Hn]. unfold check_claims.
    rewrite bool_decide_eq_true_2 by (by apply get_string_Some). cbn [negb].
    rewrite (proj2 (get_string_Some _ _ _) Hi), (proj2 (get_string_Some _ _ _) Hs), bool_decide_eq_false_2 by done.
    rewrite bool_decide_eq_true_2 by done. rewrite (proj2 (AudienceMatches_spec _) Ha), He. cbn [negb orb mbind option_bind].
    rewrite (proj2 (valid_timestamp_spec _ _) Ht), (proj2 (Z.leb_gt _ _) Hlt).
    assert (match get "nbf" (JObject pf) with None => false | Some nbf => match valid_timestamp nbf with None => true | Some t => (now <? t)%Z end end = false) as ->.
    { destruct (get "nbf" (JObject pf)) as [nj|]; [|done]. destruct (Hn nj eq_refl) as (t' & Ht' & Hle).
      rewrite (proj2 (valid_timestamp_spec _ _) Ht'). by apply Z.ltb_ge. }
    unfold get_string. destruct Hk as [-> | [-> ->]]; done.
Qed.
End Claims.

Section Acceptance.
Context (parse : bytes -> option json) (rsa_verify : bytes -> bytes -> bytes -> bytes -> bool) (v : OIDCValidator).
Abbreviation validate := (Validate parse rsa_verify v None).
Abbreviation ensure call k c := (EnsureJwks parse v (steady_now call) (steady_later call) (network call) (meanwhile call) k c).

(** Header, payload and signature are those of [token]; the first two are read as JSON. *)
Definition reads_as (token h p s : bytes) (header payload : json) : Prop :=
  token = h ++ "."%char :: p ++ "."%char :: s /\ "."%char ∉ h /\ "."%char ∉ p /\ "."%char ∉ s /\
  Url.Base64UrlDecode h <> [] /\ Url.Base64UrlDecode p <> [] /\
  parse (Url.Base64UrlDecode h) = Some header /\ parse (Url.Base64UrlDecode p) = Some payload.

Lemma signed_part (h p s : bytes) :
  take (length h + 1 + length p) (h ++ "."%char :: p ++ "."%char :: s) = h ++ "."%char :: p.
Proof.
  replace (h ++ _) with ((h ++ "."%char :: p) ++ "."%char :: s) by (by rewrite <- app_assoc).
  apply take_app_length'. rewrite length_app. cbn. lia.
Qed.

(** The one direction. *)
Lemma Validate_sound (call : Call) (token sub : bytes) (c : Cache) :
  (validate call token c).1 = (true, sub) ->
  issuer v <> [] /\ audience v <> [] /\ length token <= 16384 /\
  exists h p s header payload k jwk,
    reads_as token h p s header payload /\ claims_hold v (wall_now call) header payload k sub /\
    (ensure call k c).1 = true /\ ResolveKey k (between call (ensure call k c).2) = Some jwk /\
    VerifyRS256 rsa_verify (h ++ "."%char :: p) s (modulus jwk) (exponent jwk) = true.
Proof.
  unfold Validate, Enabled.
  case_bool_decide as Hi; [|done]. case_bool_decide as Ha; [|done]. case_bool_decide as Hl; [done|]. cbn [andb negb orb].
  destruct (split_token token) as [[[h p] s]|] eqn:Es; [|done]. apply split_token_Some in Es as (-> & Hh & Hp & Hs).
  case_bool_decide as Hdh; [done|]. case_bool_decide as Hdp; [done|]. cbn [orb].
  destruct (parse (Url.Base64UrlDecode h)) as [header|] eqn:Eh; [|done]. destruct (parse (Url.Base64UrlDecode p)) as [payload|] eqn:Ep; [|done].
  destruct (check_claims v _ header payload) as [[k sb]|] eqn:Ec; [|done]. apply check_claims_spec in Ec.
  destruct (ensure call k c) as [ok c'] eqn:Ee. destruct ok; cbn [negb]; [|done].
  destruct (ResolveKey k _) as [jwk|] eqn:Er; [|done]. destruct (VerifyRS256 _ _ _ _ _) eqn:Ev; [|done]. intros [= <-].
  rewrite signed_part in Ev. split_and!; [done..|lia|]. exists h, p, s, header, payload, k, jwk. rewrite Ee. by split_and!.
Qed.

(** C40: a token is accepted exactly when issuer and audience are configured, it has at
    most 16384 bytes, three parts, and a JSON header and payload with algorithm RS256,
    the configured issuer and audience, a subject, an expiry in the future and no
    [nbf] in the future, the key set has the key it names (or one key, when it names
    none), and that key verifies the signature over the bytes before the last dot.
    The subject returned is that of the payload; a refusal returns none. *)
Theorem token_accepted_iff (call : Call) (token sub : bytes) (c : Cache) :
  (validate call token c).1 = (true, sub) <->
  issuer v <> [] /\ audience v <> [] /\ length token <= 16384 /\
  exists h p s header payload k jwk,
    reads_as token h p s header payload /\ claims_hold v (wall_now call) header payload k sub /\
    (ensure call k c).1 = true /\ ResolveKey k (between call (ensure call k c).2) = Some jwk /\
    VerifyRS256 rsa_verify (h ++ "."%char :: p) s (modulus jwk) (exponent jwk) = true.
Proof.
  split; [apply Validate_sound|]. unfold Validate, Enabled.
  intros (Hi & Ha & Hl & h & p & s & header & payload & k & jwk & (-> & Hh & Hp & Hs & Hdh & Hdp & Eh & Ep) & Hc & He & Hr & Hv).
  rewrite !bool_decide_eq_true_2, bool_decide_eq_false_2 by (done || lia). cbn [andb negb orb].
    rewrite (proj2 (split_token_Some _ h p s)) by done. rewrite !bool_decide_eq_false_2 by done. cbn [orb].
    rewrite Eh, Ep, (proj2 (check_claims_spec v _ _ _ k sub)) by done. destruct (ensure call k c) as [ok c']. cbn in He, Hr. subst ok.
    cbn [negb]. by rewrite Hr, signed_part, Hv.
Qed.

(** ** Where the keys come from *)

(** The key [jwk] is listed in the document [body]: an RSA key, not meant for another use. *)
Definition lists_key (body : bytes) (jwk : JwkKey) : Prop :=
  exists doc keys j, parse body = Some doc /\ get "keys" doc = Some (JArray keys) /\ j ∈ keys /\
    get "kty" j = Some (JString (bytes_of "RSA")) /\ (forall u, get "use" j = Some (JString u) -> u = bytes_of "sig") /\
    get "n" j = Some (JString (modulus jwk)) /\ get "e" j = Some (JString (exponent jwk)) /\
    (get "kid" j = Some (JString (kid jwk)) \/ get "kid" j = None /\ kid jwk = []).

Lemma read_key_listed j jwk : read_key j = Some (Some jwk) ->
  get "kty" j = Some (JString (bytes_of "RSA")) /\ (forall u, get "use" j = Some (JString u) -> u = bytes_of "sig") /\
  get "n" j = Some (JString (modulus jwk)) /\ get "e" j = Some (JString (exponent jwk)) /\
  (get "kid" j = Some (JString (kid jwk)) \/ get "kid" j = None /\ kid jwk = []).
Proof.
  unfold read_key. case_bool_decide as Ht; cbn [negb]; [|done]. apply get_string_Some in Ht.
  destruct (match get_string "use" j with Some _ => _ | None => _ end) eqn:Eu; [done|].
  destruct (get "n" j) as [n|]; [|done]. destruct (get "e" j) as [e|]; [|done].
  assert (Huse : forall u, get "use" j = Some (JString u) -> u = bytes_of "sig").
  { intros u Hu. apply get_string_Some in Hu. rewrite Hu in Eu. apply negb_false_iff in Eu. unfold named in Eu. by apply bool_decide_eq_true in Eu. }
  destruct (get "kid" j) as [[]|]; try done; destruct n; try done; destruct e; try done; intros [= <-]; cbn; split_and!; eauto.
Qed.

Lemma read_keys_listed keys : forall parsed m, read_keys keys parsed = Some m -> forall k jwk, m !! k = Some jwk ->
  parsed !! k = Some jwk \/ (kid jwk = k /\ exists j, j ∈ keys /\ read_key j = Some (Some jwk)).
Proof.
  induction keys as [|j keys IH]; intros parsed m Hr k jwk Hk; cbn in Hr; [injection Hr as ->; by left|].
  destruct (read_key j) as [[key|]|] eqn:Ej; [| |done].
  - destruct (IH _ _ Hr k jwk Hk) as [Hin|(Hkid & j' & Hj' & Hr')]; [|right; split; [done|]; exists j'; split; [by right|done]].
    destruct (decide (kid key = k)) as [<-|Hne].
    + rewrite lookup_insert_eq in Hin. injection Hin as ->. right. split; [done|]. exists j. split; [by left|done].
    + rewrite lookup_insert_ne in Hin by done. by left.
  - destruct (IH _ _ Hr k jwk Hk) as [Hin|(Hkid & j' & Hj' & Hr')]; [by left|right; split; [done|]; exists j'; split; [by right|done]].
Qed.

Lemma LoadJwksJson_listed doc m : LoadJwksJson parse doc = Some m ->
  m <> ∅ /\ forall k jwk, m !! k = Some jwk -> kid jwk = k /\ lists_key doc jwk.
Proof.
  unfold LoadJwksJson. destruct (parse doc) as [d|] eqn:Ep; [|done]. destruct (get "keys" d) as [[]|] eqn:Ek; try done.
  destruct (read_keys l ∅) as [m'|] eqn:Er; [|done]. case_bool_decide as He; [done|]. intros [= <-]. split; [done|].
  intros k jwk Hk. destruct (read_keys_listed _ _ _ Er k jwk Hk) as [Hin|(Hkid & j & Hj & Hr)]; [by rewrite lookup_empty in Hin|].
  split; [done|]. exists d, l, j. do 3 (split; [done|]). by apply read_key_listed.
Qed.

(** The networks on which this process asked for keys. *)
Context (met : Network -> Prop).

(** The cache changes only when a thread has fetched a key set: it is replaced whole. *)
Inductive installs : Cache -> Cache -> Prop :=
  | install c net t fresh : met net -> FetchJwksFromNetwork parse v net = Some fresh -> installs c (mkCache fresh (t + 300) true).

(** The issuer's address answered 200 with a document that lists the key. *)
Definition served (jwk : JwkKey) : Prop :=
  exists net doc, met net /\ (Get net (JwksUrl v) []).2 = Ret (mkResponse 200 doc) /\ lists_key doc jwk.

Definition cache_ok (c : Cache) : Prop :=
  (jwks_loaded c = true -> jwks c <> ∅) /\ forall k jwk, jwks c !! k = Some jwk -> kid jwk = k /\ served jwk.

Lemma fetched_served net fresh : met net -> FetchJwksFromNetwork parse v net = Some fresh ->
  fresh <> ∅ /\ forall k jwk, fresh !! k = Some jwk -> kid jwk = k /\ served jwk.
Proof.
  intros Hm. unfold FetchJwksFromNetwork. destruct (Get net (JwksUrl v) []).2 as [[st doc]|] eqn:Eg; [|done]. cbn [status body].
  destruct (st =? 200)%Z eqn:Es; [|done]. apply Z.eqb_eq in Es as ->. cbn [negb]. intros Hl. apply LoadJwksJson_listed in Hl as [Hne Hk].
  split; [done|]. intros k jwk Hj. destruct (Hk k jwk Hj) as [? ?]. split; [done|]. by exists net, doc.
Qed.

Lemma installs_ok c c' : rtc installs c c' -> cache_ok c -> cache_ok c'.
Proof.
  induction 1 as [c|c c1 c2 [? net t fresh Hm Hf] _ IH]; [done|]. intros _. apply IH.
  destruct (fetched_served net fresh Hm Hf) as [Hne Hk]. by split.
Qed.

Lemma no_keys_ok : cache_ok no_keys.
Proof. split; [done|]. intros k jwk Hk. cbn in Hk. by rewrite lookup_empty in Hk. Qed.

Lemma ensure_installs call k c : met (network call) -> (forall x, rtc installs x (meanwhile call x)) -> rtc installs c (ensure call k c).2.
Proof.
  intros Hm Hw. unfold EnsureJwks. destruct (_ && _); [done|]. destruct (FetchJwksFromNetwork parse v (network call)) as [fresh|] eqn:Ef; [|apply Hw].
  apply rtc_once. cbn. by apply (install c (network call)).
Qed.

(** Keys are used while they are fresh: kept ones before their expiry, or new ones. *)
Lemma ensure_fresh call k c : (ensure call k c).1 = true ->
  jwks_loaded c = true /\ (steady_now call < jwks_expiry c)%Z /\ (ensure call k c).2 = c \/
  exists fresh, FetchJwksFromNetwork parse v (network call) = Some fresh /\ (ensure call k c).2 = mkCache fresh (steady_later call + 300) true.
Proof.
  unfold EnsureJwks. destruct (_ && _ && _) eqn:E.
  - intros _. left. apply andb_prop in E as [E _]. apply andb_prop in E as [? E]. split_and!; [done|by apply Z.ltb_lt|done].
  - destruct (FetchJwksFromNetwork _ _ _) as [fresh|]; [|done]. intros _. right. by exists fresh.
Qed.

Lemma ResolveKey_in k c jwk : ResolveKey k c = Some jwk -> exists k', jwks c !! k' = Some jwk /\ (k <> [] -> k' = k).
Proof.
  unfold ResolveKey. destruct (jwks_loaded c); cbn [negb]; [|done]. case_bool_decide as Hk; [intros H; by exists k|].
  destruct (size (jwks c) =? 1); cbn [negb]; [|done]. destruct (map_to_list (jwks c)) as [|[k' jwk'] l] eqn:E; [done|]. cbn. intros [= <-].
  exists k'. split; [|done]. apply elem_of_map_to_list. rewrite E. left.
Qed.

(** In every history of calls and interleavings of their threads, a token is accepted
    only with a key that the issuer's address served, filed under the key id that the
    token names, from a key set that was fetched for this call or had not expired, and
    the history goes on from the cache it leaves: a failed fetch installs nothing. *)
Theorem accepted_key_served (call : Call) (token sub : bytes) (c : Cache) :
  rtc installs no_keys c -> met (network call) -> (forall x, rtc installs x (meanwhile call x)) -> (forall x, rtc installs x (between call x)) ->
  rtc installs no_keys (validate call token c).2 /\
  ((validate call token c).1 = (true, sub) ->
   exists h p s header payload k jwk,
     reads_as token h p s header payload /\ claims_hold v (wall_now call) header payload k sub /\ served jwk /\ (k <> [] -> kid jwk = k) /\
     VerifyRS256 rsa_verify (h ++ "."%char :: p) s (modulus jwk) (exponent jwk) = true /\
     (is_Some (FetchJwksFromNetwork parse v (network call)) \/ jwks_loaded c = true /\ (steady_now call < jwks_expiry c)%Z)).
Proof.
  intros Hc Hm Hw Hb. pose proof (fun k => ensure_installs call k c Hm Hw) as Hens. split.
  - unfold Validate. destruct (_ || _); [done|]. destruct (split_token token) as [[[h p] s]|]; [|done]. destruct (_ || _); [done|].
    destruct (parse _) as [header|]; [|done]. destruct (parse _) as [payload|]; [|done]. destruct (check_claims v _ header payload) as [[k sb]|]; [|done].
    specialize (Hens k). destruct (ensure call k c) as [[] c']; cbn [negb]; [|by etrans]. cbn in Hens.
    assert (Hr : rtc installs no_keys (between call c')) by (etrans; [exact Hc|etrans; [exact Hens|apply Hb]]).
    destruct (ResolveKey k _); [|done]. by destruct (VerifyRS256 _ _ _ _ _).
  - intros (_ & _ & _ & h & p & s & header & payload & k & jwk & Hr & Hcl & He & Hk & Hs)%Validate_sound.
    exists h, p, s, header, payload, k, jwk. split; [done|]. split; [done|].
    destruct (ResolveKey_in _ _ _ Hk) as (k' & Hk' & Hkk).
    assert (Hok : cache_ok (between call (ensure call k c).2)).
    { eapply installs_ok; [|apply no_keys_ok]. etrans; [exact Hc|]. etrans; [apply (Hens k)|apply Hb]. }
    destruct Hok as [_ Hok]. destruct (Hok k' jwk Hk') as [Hkid Hsv]. split; [done|]. split; [intros Hne; by rewrite Hkid, Hkk|]. split; [done|].
    destruct (ensure_fresh _ _ _ He) as [(? & ? & _)|(fresh & -> & _)]; [by right|by left].
Qed.
End Acceptance.

(** ** Examples *)

Module Demo.
Definition str (s : string) : json := JString (bytes_of s).
Definition field (k : string) (j : json) : bytes * json := (bytes_of k, j).

Definition header : json := JObject [field "alg" (str "RS256"); field "kid" (str "k1")].
Definition payload : json :=
  JObject [field "iss" (str "http://i"); field "aud" (JArray [str "x"; str "api"]); field "sub" (str "ann"); field "exp" (JUnsigned 200); field "nbf" (JInteger (-5))].
Definition key_set : json :=
  JObject [field "keys" (JArray [JObject [field "kty" (str "EC")];
    JObject [field "kty" (str "RSA"); field "kid" (str "k1"); field "n" (str "bg"); field "e" (str "ZQ")]])].

(** Three documents. *)
Definition parse (s : bytes) : option json :=
  if named s "H" then Some header else if named s "P" then Some payload else if named s "K" then Some key_set else None.
Definition rsa (n e message signature : bytes) : bool := named n "n" && named e "e" && named message "SA.UA" && named signature "S".
Definition v : OIDCValidator := mkOIDC (bytes_of "http://i") (bytes_of "api").

Definition request : bytes := BuildRequest (mkUrl (bytes_of "http") (bytes_of "i") (bytes_of "/.well-known/jwks.json") 80 false) (bytes_of "GET") [] [].
Definition net : Network :=
  mkNet (Some [(true, true)]) false false false false false false (fun _ => Z.of_nat (length request)) (bytes_of "HTTP/1.1 200 OK" ++ blank_line ++ bytes_of "K").
Definition call (wall : Z) : Call := mkCall wall 10 11 net id id.
Definition token : bytes := bytes_of "SA.UA.Uw".
End Demo.

(** Accepted before its expiry; refused at the second of its expiry. *)
Example accepted_then_expired :
  (Validate Demo.parse Demo.rsa Demo.v None (Demo.call 199) Demo.token no_keys).1 = (true, bytes_of "ann") /\
  (Validate Demo.parse Demo.rsa Demo.v None (Demo.call 200) Demo.token no_keys).1 = (false, []).
Proof. split; vm_compute; reflexivity. Qed.

Lemma accepted_key_served_witness :
  (Validate Demo.parse Demo.rsa Demo.v None (Demo.call 199) Demo.token no_keys).1 = (true, bytes_of "ann") /\
  exists jwk, served Demo.parse Demo.v (fun n => n = Demo.net) jwk.
Proof.
  split; [vm_compute; reflexivity|].
  destruct (accepted_key_served Demo.parse Demo.rsa Demo.v (fun n => n = Demo.net) (Demo.call 199) Demo.token (bytes_of "ann") no_keys) as [_ H];
    [done|done|intros x; exact (rtc_refl _ x)|intros x; exact (rtc_refl _ x)|].
  destruct (H ltac:(vm_compute; reflexivity)) as (h & p & s & hd & pl & k & jwk & _ & _ & Hs & _). by exists jwk.
Defined.
