(* ===== verification/BpeTokenizer.v ===== *)
(** * runtime/backends/mlx/mlx_tokenizer.cpp: the byte-pair tokenizer

    Loading a vocabulary and its merges from tokenizer.json or from the metadata of a
    model file, pre-tokenizing, merging, and decoding.  The order in which hash
    tables are walked and the order [std::sort] leaves equal elements in are
    parameters; files are given as the JSON documents they hold. *)

From stdpp Require Import base tactics numbers list strings gmap sets.
From Stdlib Require Import Ascii.
From S2P Require Import Prelude StringUtils Json Base64.

(** ** Bytes and characters *)

Definition CpToUtf8 (cp : Z) : bytes :=
  if (cp <? 128)%Z then [char_of cp]
  else if (cp <? 2048)%Z then [char_of (Z.lor 192 (Z.shiftr cp 6)); char_of (Z.lor 128 (Z.land cp 63))]
  else [char_of (Z.lor 224 (Z.shiftr cp 12)); char_of (Z.lor 128 (Z.land (Z.shiftr cp 6) 63)); char_of (Z.lor 128 (Z.land cp 63))].

(** The bytes that stand for themselves. *)
Definition direct (b : nat) : bool := ((33 <=? b) && (b <=? 126)) || ((161 <=? b) && (b <=? 172)) || ((174 <=? b) && (b <=? 255)).

(** The others are numbered from U+0100. *)
Fixpoint byte_table (bs : list nat) (extra : Z) : list bytes :=
  match bs with
  | [] => []
  | b :: bs' => if direct b then CpToUtf8 (Z.of_nat b) :: byte_table bs' extra else CpToUtf8 extra :: byte_table bs' (extra + 1)
  end.

Definition byte_to_str : list bytes := byte_table (seq 0 256) 256.

Definition ByteToUnicode (c : ascii) : bytes := default [] (byte_to_str !! nat_of_ascii c).

(** -1 when the character is not in the table, whose entries are distinct. *)
Definition UnicodeToByte (utf8_char : bytes) : Z :=
  match find_index (fun s => bool_decide (s = utf8_char)) byte_to_str with Some b => Z.of_nat b | None => (-1)%Z end.

(** The length that the first byte announces. *)
Definition utf8_len (c : ascii) : nat :=
  let v := byte_val c in
  if (Z.land v 128 =? 0)%Z then 1
  else if (Z.land v 224 =? 192)%Z then 2
  else if (Z.land v 240 =? 224)%Z then 3
  else if (Z.land v 248 =? 240)%Z then 4
  else 1.

(** Every turn takes at least one byte. *)
Fixpoint split_loop (fuel : nat) (s : bytes) : list bytes :=
  match fuel, s with
  | S fuel, c :: _ => take (utf8_len c) s :: split_loop fuel (drop (utf8_len c) s)
  | _, _ => []
  end.

Definition SplitUtf8 (s : bytes) : list bytes := split_loop (length s) s.

(** ** The tokenizer *)

Inductive PreTokenizerType := Metaspace | ByteLevel | Unknown.

#[export] Instance PreTokenizerType_eq_dec : EqDecision PreTokenizerType.
Proof. solve_decision. Defined.

Record MlxTokenizer := mkMlx {
  loaded : bool; pre_tok : PreTokenizerType; add_prefix_space : bool;
  vocab : gmap bytes Z; id_to_token : list bytes; merge_rank : gmap bytes Z;
  special_ids : gset Z; special_token_strings : list (bytes * Z);
  bos_id : Z; eos_id : Z; vocab_size : Z; add_bos_token : bool; chat_template : bytes }.

Definition Reset : MlxTokenizer := mkMlx false Unknown true ∅ [] ∅ ∅ [] 1 2 0 true [].

Definition kMetaMark : bytes := [chr 226; chr 150; chr 129].

Definition flush (current : bytes) : list bytes := if bool_decide (current = []) then [] else [current].

(** [modified] split before each mark. *)
Fixpoint meta_split (fuel : nat) (modified current : bytes) : list bytes :=
  match fuel, modified with
  | S fuel, c :: modified' =>
      if starts_with kMetaMark modified then flush current ++ meta_split fuel (drop 3 modified) kMetaMark
      else meta_split fuel modified' (current ++ [c])
  | _, _ => flush current
  end.

Definition meta_text (prefix : bool) (text : bytes) : bytes :=
  (match text with
   | c :: _ => if prefix && negb (bool_decide (c = " "%char)) then kMetaMark else []
   | [] => []
   end) ++ (text ≫= fun c => if bool_decide (c = " "%char) then kMetaMark else [c]).

(** The loop over a text whose bytes are spelled with the table; a space starts a piece. *)
Fixpoint byte_level_loop (fuel : nat) (text current : bytes) : list bytes :=
  match fuel, text with
  | S fuel, c :: text' =>
      if bool_decide (c = " "%char) then flush current ++ byte_level_loop fuel text' (ByteToUnicode c)
      else byte_level_loop fuel (drop (utf8_len c) text) (current ++ (take (utf8_len c) text ≫= ByteToUnicode))
  | _, _ => flush current
  end.

(** [while (iss >> w)] *)
Fixpoint words (text current : bytes) : list bytes :=
  match text with
  | [] => flush current
  | c :: text' => if is_space c then flush current ++ words text' [] else words text' (current ++ [c])
  end.

Section Tokenizer.
Context (t : MlxTokenizer).

Definition PreTokenize (text : bytes) : list bytes :=
  match pre_tok t with
  | Metaspace => let m := meta_text (add_prefix_space t) text in meta_split (length m) m []
  | ByteLevel => byte_level_loop (length text) text []
  | Unknown => words text []
  end.

(** *** Merging *)

Definition pair_rank (a b : bytes) : option Z := merge_rank t !! (a ++ bytes_of " " ++ b).

(** The loop over the pairs from index [i]: the best rank and its index so far. *)
Fixpoint best_pair (chars : list bytes) (i : nat) (best : Z * option nat) : Z * option nat :=
  match chars with
  | a :: (b :: _) as chars' =>
      best_pair chars' (S i)
        (match pair_rank a b with
         | Some r => if (r <? best.1)%Z then (r, Some i) else best
         | None => best
         end)
  | _ => best
  end.

Definition INT_MAX : Z := (2 ^ 31 - 1)%Z.

Definition best_idx (chars : list bytes) : option nat := (best_pair chars 0 (INT_MAX, None)).2.

(** [chars[i] += chars[i + 1]], which is then erased. *)
Definition merge_at (i : nat) (chars : list bytes) : list bytes :=
  match drop i chars with
  | a :: b :: rest => take i chars ++ (a ++ b) :: rest
  | _ => chars
  end.

(** Each merge shortens the list. *)
Fixpoint bpe_loop (fuel : nat) (chars : list bytes) : list bytes :=
  match fuel with
  | 0 => chars
  | S fuel => if length chars <=? 1 then chars
              else match best_idx chars with None => chars | Some i => bpe_loop fuel (merge_at i chars) end
  end.

Definition BpeEncode (word : bytes) : list bytes := let chars := SplitUtf8 word in bpe_loop (length chars) chars.

(** *** Encoding and decoding *)

Record Segment := mkSeg { seg_text : bytes; seg_special : Z }.

(** The first special token, in list order, at the start of [text]. *)
Definition match_special (text : bytes) : option (bytes * Z) :=
  head (filter (fun p => starts_with p.1 text = true) (special_token_strings t)).

Definition push_char (segs : list Segment) (c : ascii) : list Segment :=
  match last segs with
  | Some s => if (0 <=? seg_special s)%Z then segs ++ [mkSeg [c] (-1)] else removelast segs ++ [mkSeg (seg_text s ++ [c]) (seg_special s)]
  | None => [mkSeg [c] (-1)]
  end.

Fixpoint segment_loop (fuel : nat) (text : bytes) (segs : list Segment) : list Segment :=
  match fuel, text with
  | S fuel, c :: text' =>
      match match_special text with
      | Some (tok, id) => segment_loop fuel (drop (length tok) text) (segs ++ [mkSeg [] id])
      | None => segment_loop fuel text' (push_char segs c)
      end
  | _, _ => segs
  end.

Definition segments (text : bytes) : list Segment :=
  if bool_decide (special_token_strings t = []) then [mkSeg text (-1)] else segment_loop (length text) text [].

(** A piece that is not in the vocabulary is spelled byte by byte. *)
Definition encode_sub (sub : bytes) : list Z :=
  match vocab t !! sub with
  | Some id => [id]
  | None =>
      let ids := omap (fun b => vocab t !! ByteToUnicode b) sub in
      if bool_decide (ids = []) then match vocab t !! [] with Some id => [id] | None => [] end else ids
  end.

Definition encode_segment (s : Segment) : list Z :=
  if (0 <=? seg_special s)%Z then [seg_special s]
  else PreTokenize (seg_text s) ≫= fun pre => BpeEncode pre ≫= encode_sub.

(** [None]: [ok] is false. *)
Definition Encode (text : bytes) (add_bos : bool) : option (list Z) :=
  if negb (loaded t) then None
  else Some ((if add_bos && add_bos_token t && (0 <=? bos_id t)%Z then [bos_id t] else []) ++ (segments text ≫= encode_segment)).

Definition token_text (skip_special : bool) (id : Z) : bytes :=
  if skip_special && bool_decide (id ∈ special_ids t) then []
  else if (id <? 0)%Z || (Z.of_nat (length (id_to_token t)) <=? id)%Z then []
  else default [] (id_to_token t !! Z.to_nat id).

Definition strip_space (s : bytes) : bytes :=
  match s with c :: s' => if bool_decide (c = " "%char) then s' else s | [] => [] end.

Definition Decode (ids : list Z) (skip_special : bool) : bytes :=
  if negb (loaded t) then []
  else
    let combined := ids ≫= token_text skip_special in
    match pre_tok t with
    | Metaspace => strip_space (SplitUtf8 combined ≫= fun ch => if bool_decide (ch = kMetaMark) then [" "%char] else ch)
    | ByteLevel => SplitUtf8 combined ≫= fun ch => let b := UnicodeToByte ch in if (0 <=? b)%Z then [char_of b] else ch
    | Unknown => combined
    end.

Definition IsSpecial (id : Z) : bool := bool_decide (id ∈ special_ids t).
End Tokenizer.

(** ** Loading *)

Definition set_pre_tok (p : PreTokenizerType) (prefix : bool) (t : MlxTokenizer) : MlxTokenizer :=
  mkMlx (loaded t) p prefix (vocab t) (id_to_token t) (merge_rank t) (special_ids t) (special_token_strings t) (bos_id t) (eos_id t) (vocab_size t) (add_bos_token t) (chat_template t).
Definition set_tokens (v : gmap bytes Z) (toks : list bytes) (size : Z) (special : gset Z) (t : MlxTokenizer) : MlxTokenizer :=
  mkMlx (loaded t) (pre_tok t) (add_prefix_space t) v toks (merge_rank t) special (special_token_strings t) (bos_id t) (eos_id t) size (add_bos_token t) (chat_template t).
Definition set_merges (m : gmap bytes Z) (t : MlxTokenizer) : MlxTokenizer :=
  mkMlx (loaded t) (pre_tok t) (add_prefix_space t) (vocab t) (id_to_token t) m (special_ids t) (special_token_strings t) (bos_id t) (eos_id t) (vocab_size t) (add_bos_token t) (chat_template t).
Definition set_ends (bos eos : Z) (t : MlxTokenizer) : MlxTokenizer :=
  mkMlx (loaded t) (pre_tok t) (add_prefix_space t) (vocab t) (id_to_token t) (merge_rank t) (special_ids t) (special_token_strings t) bos eos (vocab_size t) (add_bos_token t) (chat_template t).
Definition set_template (s : bytes) (t : MlxTokenizer) : MlxTokenizer :=
  mkMlx (loaded t) (pre_tok t) (add_prefix_space t) (vocab t) (id_to_token t) (merge_rank t) (special_ids t) (special_token_strings t) (bos_id t) (eos_id t) (vocab_size t) (add_bos_token t) s.
Definition set_loaded (strings : list (bytes * Z)) (t : MlxTokenizer) : MlxTokenizer :=
  mkMlx true (pre_tok t) (add_prefix_space t) (vocab t) (id_to_token t) (merge_rank t) (special_ids t) strings (bos_id t) (eos_id t) (vocab_size t) (add_bos_token t) (chat_template t).

Definition kMaxReasonableTokenId : Z := 10000000.
Definition IsValidTokenId (id : Z) : bool := (0 <=? id)%Z && (id <=? kMaxReasonableTokenId)%Z.

Definition byte_level_hints : list string :=
  ["bytelevel"; "gpt2"; "qwen"; "qwen2"; "qwen3"; "phi3"; "starcoder"; "starcoder2"; "deepseek"; "deepseek-coder"; "command-r"; "byte_level"].
Definition metaspace_hints : list string :=
  ["metaspace"; "sentencepiece"; "spm"; "llama"; "mistral"; "gemma"; "gemma2"; "gemma3"].

(** The type, and [*add_prefix_space]. *)
Definition DetectPreTokenizerType (pre_tokenizer_hint : bytes) : PreTokenizerType * bool :=
  let hint := ToLower pre_tokenizer_hint in
  if bool_decide (hint = []) then (Unknown, true)
  else if one_of hint byte_level_hints then (ByteLevel, false)
  else if one_of hint metaspace_hints then (Metaspace, true)
  else (Unknown, true).

(** [vocab_.emplace] keeps an entry that is there. *)
Definition emplace (tok : bytes) (id : Z) (v : gmap bytes Z) : gmap bytes Z :=
  match v !! tok with Some _ => v | None => <[tok := id]> v end.

Fixpoint number_from (id : Z) (toks : list bytes) (v : gmap bytes Z) : gmap bytes Z :=
  match toks with [] => v | tok :: toks' => number_from (id + 1) toks' (emplace tok id v) end.

Fixpoint rank_from (rank : Z) (merges : list bytes) (m : gmap bytes Z) : gmap bytes Z :=
  match merges with [] => m | x :: merges' => rank_from (rank + 1) merges' (<[x := rank]> m) end.

Section Loading.
(** How the hash tables are walked, and what [std::sort] by decreasing length makes of a list. *)
Context (set_order : gset Z -> list Z) (map_order : gmap bytes Z -> list (bytes * Z)) (sort : list (bytes * Z) -> list (bytes * Z)).

Definition special_string (t : MlxTokenizer) (id : Z) : option (bytes * Z) :=
  if (0 <=? id)%Z && (id <? vocab_size t)%Z
  then match id_to_token t !! Z.to_nat id with
       | Some tok => if 1 <? length tok then Some (tok, id) else None
       | None => None
       end
  else None.

Definition build_specials (t : MlxTokenizer) : MlxTokenizer := set_loaded (sort (omap (special_string t) (set_order (special_ids t)))) t.

(** The tokenizer is left empty when the answer is false. *)
Definition InitializeFromBpeData (toks merges : list bytes) (hint : bytes) (bos eos : Z) (template : bytes) (add_bos : bool) (special : gset Z)
    : MlxTokenizer * bool :=
  if bool_decide (toks = []) then (Reset, false)
  else
    let '(p, prefix) := DetectPreTokenizerType hint in
    let special := if (0 <=? bos)%Z then {[bos]} ∪ special else special in
    let special := if (0 <=? eos)%Z then {[eos]} ∪ special else special in
    (build_specials (mkMlx false p prefix (number_from 0 toks ∅) toks (rank_from 0 merges ∅) special [] bos eos
                       (i32 (Z.of_nat (length toks))) add_bos template), true).

(** [is_number_integer()], then [get<int64_t>()]. *)
Definition get_int64 (j : json) : option Z :=
  match j with
  | JInteger z => Some z
  | JUnsigned z => Some ((z + 2 ^ 63) mod 2 ^ 64 - 2 ^ 63)%Z
  | _ => None
  end.

Definition read_vocab_entry (st : gmap bytes Z * Z) (entry : bytes * json) : gmap bytes Z * Z :=
  match get_int64 entry.2 with
  | Some id => if IsValidTokenId id then (<[entry.1 := id]> st.1, Z.max st.2 id) else st
  | None => st
  end.

(** [id_to_token_[id] = tok] *)
Definition store (toks : list bytes) (id : Z) (tok : bytes) : list bytes := <[Z.to_nat id := tok]> toks.

Definition load_vocab (model : json) (t : MlxTokenizer) : MlxTokenizer :=
  match get "vocab" model with
  | Some (JObject fields) =>
      let '(v, max_id) := foldl read_vocab_entry (∅, (-1)%Z) fields in
      set_tokens v (foldl (fun toks '(tok, id) => store toks id tok) (replicate (Z.to_nat (max_id + 1)) []) (map_order v)) (max_id + 1) (special_ids t) t
  | _ => t
  end.

Definition read_merge (st : gmap bytes Z * Z) (m : json) : gmap bytes Z * Z :=
  match m with
  | JString s => (<[s := st.2]> st.1, st.2 + 1)%Z
  | JArray [JString a; JString b] => (<[a ++ bytes_of " " ++ b := st.2]> st.1, st.2 + 1)%Z
  | _ => st
  end.

Definition load_merges (model : json) (t : MlxTokenizer) : MlxTokenizer :=
  match get "merges" model with
  | Some (JArray l) => set_merges (foldl read_merge (∅, 0%Z) l).1 t
  | _ => t
  end.

Definition get_bool_field (k : string) (def : bool) (j : json) : bool := match get k j with Some (JBool b) => b | _ => def end.

Definition apply_pre_tokenizer_type (pt : json) (t : MlxTokenizer) : option MlxTokenizer :=
  let type := default [] (get_string "type" pt) in
  if named type "Metaspace" then Some (set_pre_tok Metaspace (get_bool_field "add_prefix_space" true pt) t)
  else if named type "ByteLevel" then Some (set_pre_tok ByteLevel (get_bool_field "add_prefix_space" false pt) t)
  else None.

Fixpoint first_applicable (l : list json) (t : MlxTokenizer) : MlxTokenizer :=
  match l with
  | [] => t
  | nested :: l' =>
      match nested with
      | JObject _ => match apply_pre_tokenizer_type nested t with Some t' => t' | None => first_applicable l' t end
      | _ => first_applicable l' t
      end
  end.

Definition load_pre_tokenizer (j : json) (t : MlxTokenizer) : MlxTokenizer :=
  match get "pre_tokenizer" j with
  | Some (JObject fields) =>
      let pt := JObject fields in
      match named (default [] (get_string "type" pt)) "Sequence", get "pretokenizers" pt with
      | true, Some (JArray l) => first_applicable l t
      | _, _ => default t (apply_pre_tokenizer_type pt t)
      end
  | _ => t
  end.

Definition read_added (t : MlxTokenizer) (at_ : json) : MlxTokenizer :=
  match get "id" at_, get "content" at_ with
  | Some idj, Some (JString content) =>
      match get_int64 idj with
      | Some id =>
          if IsValidTokenId id then
            let toks := if (Z.of_nat (length (id_to_token t)) <=? id)%Z
                        then id_to_token t ++ replicate (Z.to_nat (id + 1) - length (id_to_token t)) [] else id_to_token t in
            set_tokens (emplace content id (vocab t)) (store toks id content) (Z.max (vocab_size t) (id + 1))
              (if get_bool_field "special" false at_ then {[id]} ∪ special_ids t else special_ids t) t
          else t
      | None => t
      end
  | _, _ => t
  end.

Definition load_added (j : json) (t : MlxTokenizer) : MlxTokenizer :=
  match get "added_tokens" j with Some (JArray l) => foldl read_added t l | _ => t end.

(** A token named in tokenizer_config.json. *)
Definition resolve_tok (k : string) (cfg : json) : bytes :=
  match get k cfg with
  | Some (JString s) => s
  | Some (JObject fields) => default [] (get_string "content" (JObject fields))
  | _ => []
  end.

Definition resolved (k : string) (cfg : json) (t : MlxTokenizer) : option Z :=
  let s := resolve_tok k cfg in if bool_decide (s = []) then None else vocab t !! s.

Definition resolve_id (k : string) (cfg : json) : Z :=
  match get k cfg with
  | Some (JArray (v :: _)) => default (-1)%Z (get_int64 v)
  | Some v => default (-1)%Z (get_int64 v)
  | None => (-1)%Z
  end.

Definition or_valid (resolved : option Z) (id current : Z) : Z :=
  match resolved with Some r => r | None => if IsValidTokenId id then id else current end.

(** A file of the model directory: [None] when it cannot be opened, [Some None] when it is not
    JSON, which leaves the document null. *)
Record ModelDir := mkDir { tokenizer_json : option (option json); tokenizer_config_json : option (option json);
  chat_template_jinja : option bytes; config_json : option (option json) }.

Definition document (f : option (option json)) : json := default JNull (default None f).

Definition load_ends (dir : ModelDir) (t : MlxTokenizer) : MlxTokenizer :=
  let cfg := document (tokenizer_config_json dir) in
  let model_cfg := document (config_json dir) in
  let t' := set_ends (or_valid (resolved "bos_token" cfg t) (resolve_id "bos_token_id" model_cfg) (bos_id t))
                     (or_valid (resolved "eos_token" cfg t) (resolve_id "eos_token_id" model_cfg) (eos_id t)) t in
  let t' := set_template (default [] (get_string "chat_template" cfg)) t' in
  if bool_decide (chat_template t' = []) then set_template (default [] (chat_template_jinja dir)) t' else t'.

Definition Load (dir : ModelDir) : MlxTokenizer * bool :=
  match tokenizer_json dir with
  | Some (Some j) =>
      match get "model" j with
      | Some (JObject fields) =>
          let model := JObject fields in
          if negb (bool_decide (get_string "type" model = Some (bytes_of "BPE"))) then (Reset, false)
          else (build_specials (load_ends dir (load_added j (load_pre_tokenizer j (load_merges model (load_vocab model Reset))))), true)
      | _ => (Reset, false)
      end
  | _ => (Reset, false)
  end.
End Loading.

(** ** Characters *)

Lemma utf8_len_pos c : 1 <= utf8_len c.
Proof. unfold utf8_len. repeat case_match; lia. Qed.

(** Enough fuel: more changes nothing. *)
Lemma split_loop_fuel n m s : length s <= n -> length s <= m -> split_loop n s = split_loop m s.
Proof.
  revert m s. induction n as [|n IH]; intros m s Hn Hm; [destruct s; [by destruct m|simpl in *; lia]|].
  destruct s as [|c s]; [by destruct m|]. destruct m as [|m]; [simpl in *; lia|]. cbn [split_loop]. f_equal.
  pose proof (utf8_len_pos c). apply IH; rewrite length_drop; cbn [length] in *; lia.
Qed.

Lemma SplitUtf8_cons c s : SplitUtf8 (c :: s) = take (utf8_len c) (c :: s) :: SplitUtf8 (drop (utf8_len c) (c :: s)).
Proof.
  unfold SplitUtf8. change (length (c :: s)) with (S (length s)). cbn [split_loop]. f_equal.
  apply split_loop_fuel; [|done]. pose proof (utf8_len_pos c). rewrite length_drop. cbn [length]. lia.
Qed.

(** Induction on a text, character by character. *)
Lemma text_ind (P : bytes -> Prop) : P [] -> (forall c s, P (drop (utf8_len c) (c :: s)) -> P (c :: s)) -> forall s, P s.
Proof.
  intros H0 Hc s. remember (length s) as n eqn:En. revert s En. induction (Nat.lt_wf_0 n) as [n _ IH]. intros [|c s] ->; [done|].
  apply Hc. eapply IH; [|done]. pose proof (utf8_len_pos c). rewrite length_drop. cbn [length]. lia.
Qed.

Lemma SplitUtf8_concat s : concat (SplitUtf8 s) = s.
Proof. induction s as [|c s IH] using text_ind; [done|]. rewrite SplitUtf8_cons. cbn [concat]. by rewrite IH, take_drop. Qed.

(** A character as its first byte announces it. *)
Definition complete (ch : bytes) : Prop := match ch with [] => False | c :: _ => length ch = utf8_len c end.

Lemma SplitUtf8_complete chars : Forall complete chars -> SplitUtf8 (concat chars) = chars.
Proof.
  induction 1 as [|ch chars Hc _ IH]; [done|]. destruct ch as [|c ch]; [done|]. cbn [concat]. change ((c :: ch) ++ concat chars) with (c :: (ch ++ concat chars)).
  rewrite SplitUtf8_cons. cbn in Hc. rewrite <- Hc.
  change (c :: ch ++ concat chars) with ((c :: ch) ++ concat chars). change (S (length ch)) with (length (c :: ch)).
  by rewrite take_app_length, drop_app_length, IH.
Qed.

(** The 256 entries of the table. *)
Definition all_bytes (P : ascii -> bool) : bool := forallb (fun n => P (ascii_of_nat n)) (seq 0 256).

Lemma all_bytes_spec P : all_bytes P = true -> forall c, P c = true.
Proof.
  intros H c. unfold all_bytes in H. rewrite forallb_forall in H. rewrite <- (ascii_nat_embedding c). apply H. apply in_seq.
  pose proof (nat_ascii_bounded c). lia.
Qed.

Lemma table_entry c : complete (ByteToUnicode c) /\ UnicodeToByte (ByteToUnicode c) = byte_val c.
Proof.
  assert (H : all_bytes (fun c => match ByteToUnicode c with [] => false | x :: _ => length (ByteToUnicode c) =? utf8_len x end &&
    (UnicodeToByte (ByteToUnicode c) =? byte_val c)%Z) = true) by (vm_compute; reflexivity).
  apply all_bytes_spec with (c := c) in H. apply andb_prop in H as [H1 H2]. split; [|by apply Z.eqb_eq].
  unfold complete. destruct (ByteToUnicode c); [done|]. by apply Nat.eqb_eq.
Qed.

(** ASCII text is passed through by the decoder. *)
Definition is_ascii (c : ascii) : Prop := (byte_val c < 128)%Z.

Definition spelled (ch : bytes) : bytes := let b := UnicodeToByte ch in if (0 <=? b)%Z then [char_of b] else ch.

Lemma ascii_entry c : is_ascii c -> complete [c] /\ spelled [c] = [c].
Proof.
  assert (H : all_bytes (fun c => (128 <=? byte_val c)%Z || ((utf8_len c =? 1) && bool_decide (spelled [c] = [c]))) = true)
    by (vm_compute; reflexivity).
  intros Hc. apply all_bytes_spec with (c := c) in H. unfold is_ascii in Hc. rewrite (proj2 (Z.leb_gt _ _) Hc) in H. cbn [orb] in H.
  apply andb_prop in H as [H1 H2]. apply bool_decide_eq_true in H2. split; [|done]. cbn. by apply Nat.eqb_eq in H1.
Qed.

#[local] Opaque ByteToUnicode UnicodeToByte.

(** ** Merging *)
Section Merging.
Context (t : MlxTokenizer).

(** [a] and [b] are neighbours at [j], and their pair has rank [r]. *)
Definition pair_at (chars : list bytes) (j : nat) (r : Z) : Prop :=
  exists a b, chars !! j = Some a /\ chars !! S j = Some b /\ pair_rank t a b = Some r.

Lemma pair_at_S c chars j r : pair_at (c :: chars) (S j) r <-> pair_at chars j r.
Proof. done. Qed.

Lemma best_pair_spec chars : forall i best,
  let res := best_pair t chars i best in
  (forall j r, pair_at chars j r -> (res.1 <= r)%Z) /\ (res.1 <= best.1)%Z /\
  (res = best \/ exists j, res.2 = Some (i + j) /\ pair_at chars j res.1 /\ (res.1 < best.1)%Z /\
     forall j' r, j' < j -> pair_at chars j' r -> (res.1 < r)%Z).
Proof.
  induction chars as [|a chars IH]; intros i best; cbv zeta.
  { cbn. split_and!; [by intros j r (? & ? & ? & _)|lia|by left]. }
  destruct chars as [|b chars]; [cbn; split_and!; [by intros j r (? & ? & _ & ? & _)|lia|by left]|].
  set (best' := match pair_rank t a b with Some r => if (r <? best.1)%Z then (r, Some i) else best | None => best end).
  change (best_pair t (a :: b :: chars) i best) with (best_pair t (b :: chars) (S i) best').
  destruct (IH (S i) best') as (H1 & H2 & H3). set (res := best_pair t (b :: chars) (S i) best') in *. clearbody res.
  assert (Hb : (best'.1 <= best.1)%Z /\ (forall r, pair_rank t a b = Some r -> (best'.1 <= r)%Z) /\
    (best' = best \/ best'.2 = Some i /\ pair_rank t a b = Some best'.1 /\ (best'.1 < best.1)%Z)).
  { unfold best'. destruct (pair_rank t a b) as [r|]; [|split_and!; [lia|done|by left]].
    destruct (r <? best.1)%Z eqn:E; [apply Z.ltb_lt in E|apply Z.ltb_ge in E]; cbn; split_and!; try lia.
    - intros ? [= <-]. lia.
    - right. by split_and!.
    - intros ? [= <-]. lia.
    - by left. }
  clearbody best'. destruct Hb as (Hb1 & Hb2 & Hb3). split_and!; [|lia|].
  - intros [|j] r Hp; [|by apply (H1 j)]. destruct Hp as (a' & b' & [= <-] & [= <-] & Hr). specialize (Hb2 r Hr). lia.
  - destruct H3 as [-> | (j & Hj & Hp & Hlt & Hfirst)].
    + destruct Hb3 as [->|(E1 & E2 & E3)]; [by left|]. right. exists 0. rewrite Nat.add_0_r. split_and!; [done|by exists a, b|done|intros; lia].
    + right. exists (S j). split_and!; [rewrite Hj; f_equal; lia|done|lia|].
      intros [|j'] r Hj' Hp'; [|by apply (Hfirst j'); [lia|]]. destruct Hp' as (a' & b' & [= <-] & [= <-] & Hr). specialize (Hb2 r Hr). lia.
Qed.

(** The reference: merge the pair of lowest rank, the leftmost of them. *)
Definition chosen (chars : list bytes) (i : nat) : Prop :=
  exists r, pair_at chars i r /\ (r < INT_MAX)%Z /\ (forall j r', pair_at chars j r' -> (r <= r')%Z) /\
    (forall j r', j < i -> pair_at chars j r' -> (r < r')%Z).

Definition settled (chars : list bytes) : Prop := forall j r, pair_at chars j r -> (INT_MAX <= r)%Z.

Lemma best_idx_spec chars : match best_idx t chars with Some i => chosen chars i | None => settled chars end.
Proof.
  unfold best_idx. destruct (best_pair_spec chars 0 (INT_MAX, None)) as (H1 & _ & [E|(j & E & Hp & Hlt & Hf)]).
  - rewrite E in *. cbn in *. exact H1.
  - rewrite E. cbn [Nat.add]. exists (best_pair t chars 0 (INT_MAX, None)).1. by split_and!.
Qed.

Lemma chosen_unique chars i j : chosen chars i -> chosen chars j -> i = j.
Proof.
  intros (r & Hp & _ & Hmin & Hf) (r' & Hp' & _ & Hmin' & Hf'). pose proof (Hmin _ _ Hp'). pose proof (Hmin' _ _ Hp).
  destruct (Nat.lt_trichotomy i j) as [Hlt|[->|Hlt]]; [|done|].
  - specialize (Hf' _ _ Hlt Hp). lia.
  - specialize (Hf _ _ Hlt Hp'). lia.
Qed.

Lemma chosen_not_settled chars i : chosen chars i -> settled chars -> False.
Proof. intros (r & Hp & Hlt & _) Hs. specialize (Hs _ _ Hp). lia. Qed.

Lemma merge_at_split chars i a b : chars !! i = Some a -> chars !! S i = Some b ->
  merge_at i chars = take i chars ++ (a ++ b) :: drop (S (S i)) chars /\ chars = take i chars ++ a :: b :: drop (S (S i)) chars.
Proof.
  intros Ha Hb. unfold merge_at. rewrite (drop_S _ _ _ Ha), (drop_S _ _ _ Hb). split; [done|].
  rewrite <- (take_drop i chars) at 1. by rewrite (drop_S _ _ _ Ha), (drop_S _ _ _ Hb).
Qed.

Lemma merge_at_chosen chars i : chosen chars i ->
  concat (merge_at i chars) = concat chars /\ S (length (merge_at i chars)) = length chars.
Proof.
  intros (r & (a & b & Ha & Hb & _) & _). destruct (merge_at_split _ _ _ _ Ha Hb) as [-> E]. split.
  - rewrite E at 3. rewrite !concat_app. cbn. by rewrite <- app_assoc.
  - rewrite E at 3. rewrite !length_app. cbn. lia.
Qed.

Inductive merge_step : list bytes -> list bytes -> Prop :=
  | merge_chosen chars i : chosen chars i -> merge_step chars (merge_at i chars).

Lemma short_settled chars : length chars <= 1 -> settled chars.
Proof. intros Hl j r (a & b & _ & Hb & _). apply lookup_lt_Some in Hb. lia. Qed.

(** With as much fuel as symbols the loop runs to the end. *)
Lemma bpe_loop_spec fuel chars : length chars <= fuel ->
  rtc merge_step chars (bpe_loop t fuel chars) /\ settled (bpe_loop t fuel chars) /\ concat (bpe_loop t fuel chars) = concat chars.
Proof.
  revert chars. induction fuel as [|fuel IH]; intros chars Hf; cbn [bpe_loop].
  - split_and!; [done| |done]. apply short_settled. lia.
  - destruct (length chars <=? 1) eqn:El; [apply Nat.leb_le in El; split_and!; [done|by apply short_settled|done]|].
    pose proof (best_idx_spec chars) as Hb. destruct (best_idx t chars) as [i|]; [|by split_and!].
    destruct (merge_at_chosen _ _ Hb) as [Hc Hl]. destruct (IH (merge_at i chars)) as (H1 & H2 & H3); [lia|].
    split_and!; [|done|congruence]. eapply rtc_l; [by apply merge_chosen|done].
Qed.

(** Merging splits a word into pieces whose concatenation is the word; they are reached
    from its characters by merging, step by step, the leftmost pair of lowest rank, and no
    pair of neighbours is left to merge.  No other outcome of that process exists. *)
Theorem bpe_normal_form (word : bytes) :
  concat (BpeEncode t word) = word /\ rtc merge_step (SplitUtf8 word) (BpeEncode t word) /\ settled (BpeEncode t word) /\
  forall l, rtc merge_step (SplitUtf8 word) l -> settled l -> l = BpeEncode t word.
Proof.
  unfold BpeEncode. destruct (bpe_loop_spec (length (SplitUtf8 word)) (SplitUtf8 word) (le_n _)) as (H1 & H2 & H3).
  split_and!; [by rewrite H3, SplitUtf8_concat|done..|]. set (nf := bpe_loop _ _ _) in *. clearbody nf. clear H3.
  induction H1 as [x|x y nf [? i Hi] _ IH]; intros l Hl Hs.
  - inversion Hl as [|? ? ? [? j Hj]]; subst; [done|]. by destruct (chosen_not_settled _ _ Hj).
  - inversion Hl as [|? ? ? [? j Hj] Hr]; subst; [by destruct (chosen_not_settled _ _ Hi)|].
    rewrite <- (chosen_unique _ _ _ Hi Hj) in Hr. by apply IH.
Qed.

(** What holds of the characters and is kept by merging holds of the pieces. *)
Lemma bpe_closed (P : bytes -> Prop) word : Forall P (SplitUtf8 word) -> (forall a b r, pair_rank t a b = Some r -> P a -> P b -> P (a ++ b)) ->
  Forall P (BpeEncode t word).
Proof.
  intros Hc Hm. unfold BpeEncode. destruct (bpe_loop_spec (length (SplitUtf8 word)) (SplitUtf8 word) (le_n _)) as (H1 & _). revert Hc.
  set (nf := bpe_loop _ _ _) in *. clearbody nf. induction H1 as [x|x y nf [? i (r & (a & b & Ha & Hb & Hr) & _)] _ IH]; [done|]. intros Hx. apply IH.
  destruct (merge_at_split _ _ _ _ Ha Hb) as [-> E]. rewrite E in Hx. rewrite Forall_app, !Forall_cons in Hx. destruct Hx as (? & Pa & Pb & ?).
  rewrite Forall_app, Forall_cons. split_and!; eauto.
Qed.
End Merging.

(** ** Byte-level texts survive *)

Lemma entry_nonempty c : ByteToUnicode c <> [].
Proof. destruct (table_entry c) as [H _]. by destruct (ByteToUnicode c). Qed.

Abbreviation spell raw := (raw ≫= ByteToUnicode).

Lemma spell_nil raw : spell raw = [] <-> raw = [].
Proof. destruct raw as [|c raw]; [done|]. split; [|done]. cbn [mbind list_bind]. intros [H _]%app_nil. by apply entry_nonempty in H. Qed.

Lemma spell_chars (raw : bytes) : spell raw = concat (ByteToUnicode <$> raw).
Proof. induction raw as [|c raw IH]; [done|]. cbn [mbind list_bind fmap list_fmap concat]. f_equal. exact IH. Qed.

Lemma split_spell (raw : bytes) : SplitUtf8 (spell raw) = ByteToUnicode <$> raw.
Proof.
  rewrite spell_chars. apply SplitUtf8_complete. apply Forall_fmap, Forall_forall. intros c _. apply table_entry.
Qed.

Lemma flush_spell raw : flush (spell raw) = (fun p => spell p) <$> flush raw.
Proof.
  unfold flush. destruct (decide (raw = [])) as [->|Hr]; [done|]. by rewrite !bool_decide_eq_false_2 by (by rewrite ?spell_nil).
Qed.

(** The pieces are spellings, and what they spell is the text. *)
Lemma byte_level_pieces fuel : forall text current, length text <= fuel ->
  exists pieces, byte_level_loop fuel text (spell current) = (fun p => spell p) <$> pieces /\ concat pieces = current ++ text.
Proof.
  induction fuel as [|fuel IH]; intros text current Hf.
  - destruct text; [|simpl in *; lia]. exists (flush current). cbn. rewrite flush_spell. split; [done|]. unfold flush. case_bool_decide; [by subst|].
    cbn. by rewrite !app_nil_r.
  - destruct text as [|c text]; cbn [byte_level_loop].
    { exists (flush current). rewrite flush_spell. split; [done|]. unfold flush. case_bool_decide; [by subst|]. cbn. by rewrite !app_nil_r. }
    case_bool_decide as Hc.
    + destruct (IH text [c]) as (pieces & E1 & E2); [simpl in *; lia|]. cbn [mbind list_bind] in E1. rewrite app_nil_r in E1.
      exists (flush current ++ pieces). rewrite fmap_app, flush_spell, E1. split; [done|]. rewrite concat_app, E2.
      unfold flush. case_bool_decide; [by subst|]. cbn. by rewrite app_nil_r.
    + pose proof (utf8_len_pos c). rewrite <- bind_app. destruct (IH (drop (utf8_len c) (c :: text)) (current ++ take (utf8_len c) (c :: text))) as (pieces & E1 & E2).
      { rewrite length_drop. cbn [length] in *. lia. }
      exists pieces. rewrite E1. split; [done|]. by rewrite E2, <- app_assoc, take_drop.
Qed.

Section ByteLevel.
Context (t : MlxTokenizer).

(** Ids and strings agree. *)
Record consistent : Prop := {
  co_vocab : forall s id, vocab t !! s = Some id -> token_text t false id = s;
  co_special : forall tok id, (tok, id) ∈ special_token_strings t -> (0 <= id)%Z /\ tok <> [] /\ token_text t false id = tok }.

(** Every byte can be spelled, and every merge makes a token. *)
Record byte_complete : Prop := {
  bc_bytes : forall c, is_Some (vocab t !! ByteToUnicode c);
  bc_merges : forall a b r, pair_rank t a b = Some r -> is_Some (vocab t !! (a ++ b)) }.

Context (Hco : consistent) (Hbc : byte_complete) (Hbl : pre_tok t = ByteLevel).
Context (Hascii : forall tok id, (tok, id) ∈ special_token_strings t -> Forall is_ascii tok).

Lemma known_pieces (subs : list bytes) : Forall (fun s => is_Some (vocab t !! s)) subs ->
  (subs ≫= encode_sub t) ≫= token_text t false = concat subs.
Proof.
  induction 1 as [|s subs [id Hid] _ IH]; [done|]. cbn [mbind list_bind concat]. unfold encode_sub at 1. rewrite Hid.
  rewrite bind_app. f_equal; [|exact IH]. cbn. rewrite app_nil_r. by apply co_vocab.
Qed.

Lemma piece_text raw : (BpeEncode t (spell raw) ≫= encode_sub t) ≫= token_text t false = spell raw.
Proof.
  rewrite known_pieces.
  - unfold BpeEncode. destruct (bpe_loop_spec t _ (SplitUtf8 (spell raw)) (le_n _)) as (_ & _ & ->). apply SplitUtf8_concat.
  - apply bpe_closed; [|intros a b r Hr _ _; by eapply bc_merges].
    rewrite split_spell. apply Forall_fmap, Forall_forall. intros c _. by apply bc_bytes.
Qed.

Lemma plain_text text : (PreTokenize t text ≫= fun pre => BpeEncode t pre ≫= encode_sub t) ≫= token_text t false = spell text.
Proof.
  unfold PreTokenize. rewrite Hbl. destruct (byte_level_pieces (length text) text [] (le_n _)) as (pieces & E1 & E2). cbn in E1, E2. rewrite E1. clear E1.
  revert text E2. induction pieces as [|p pieces IH]; intros text <-; [done|]. cbn [fmap list_fmap mbind list_bind concat].
  rewrite !bind_app. f_equal; [apply piece_text|]. by apply IH.
Qed.

(** What a segment stands for. *)
Definition seg_raw (s : Segment) : bytes := if (0 <=? seg_special s)%Z then token_text t false (seg_special s) else seg_text s.

Definition seg_ok (s : Segment) : Prop := (0 <= seg_special s)%Z -> exists tok, (tok, seg_special s) ∈ special_token_strings t.

Lemma plain_ok text : Forall seg_ok [mkSeg text (-1)].
Proof. constructor; [|constructor]. unfold seg_ok. cbn. lia. Qed.

Lemma push_char_raw segs c : Forall seg_ok segs -> Forall seg_ok (push_char segs c) /\ concat (seg_raw <$> push_char segs c) = concat (seg_raw <$> segs) ++ [c].
Proof.
  intros Hs. unfold push_char. destruct segs as [|s segs _] using rev_ind; [split; [apply plain_ok|done]|].
  rewrite last_snoc. apply Forall_app in Hs as [Hs1 Hs2]. destruct (0 <=? seg_special s)%Z eqn:E.
  - split; [rewrite !Forall_app; split_and!; [done..|apply plain_ok]|]. by rewrite fmap_app, concat_app.
  - rewrite removelast_last. split.
    + apply Forall_app. split; [done|]. constructor; [|constructor]. unfold seg_ok. cbn. apply Z.leb_gt in E. lia.
    + rewrite !fmap_app, !concat_app. cbn. unfold seg_raw. cbn. rewrite E. by rewrite !app_nil_r, app_assoc.
Qed.

Lemma match_special_Some text tok id : match_special t text = Some (tok, id) ->
  (tok, id) ∈ special_token_strings t /\ exists rest, text = tok ++ rest.
Proof.
  unfold match_special. intros H. assert (Hin : (tok, id) ∈ filter (fun p => starts_with p.1 text = true) (special_token_strings t)).
  { destruct (filter _ _); [done|]. injection H as ->. left. }
  apply list_elem_of_filter in Hin as [Hp Hin]. split; [done|]. by apply starts_with_spec.
Qed.

Lemma segment_loop_raw fuel : forall text segs, length text <= fuel -> Forall seg_ok segs ->
  Forall seg_ok (segment_loop t fuel text segs) /\ concat (seg_raw <$> segment_loop t fuel text segs) = concat (seg_raw <$> segs) ++ text.
Proof.
  induction fuel as [|fuel IH]; intros text segs Hf Hs.
  { destruct text; [|simpl in *; lia]. cbn. by rewrite app_nil_r. }
  destruct text as [|c text]; [cbn; by rewrite app_nil_r|]. cbn [segment_loop].
  destruct (match_special t (c :: text)) as [[tok id]|] eqn:E.
  - destruct (match_special_Some _ _ _ E) as (Hin & rest & Er). destruct (co_special Hco _ _ Hin) as (Hid & Hne & Htok).
    rewrite Er, drop_app_length. assert (length tok <> 0) by by destruct tok.
    assert (length (c :: text) = length tok + length rest) by (by rewrite Er, length_app).
    destruct (IH rest (segs ++ [mkSeg [] id])) as [H1 H2]; [cbn [length] in *; lia|apply Forall_app; split; [done|]; constructor; [|constructor]; intros _; by exists tok|].
    assert (Hr : seg_raw (mkSeg [] id) = tok) by (unfold seg_raw; cbn [seg_special]; by rewrite (proj2 (Z.leb_le _ _) Hid)).
    split; [done|]. rewrite H2, fmap_app, concat_app. cbn [fmap list_fmap concat]. by rewrite Hr, app_nil_r, <- app_assoc.
  - destruct (push_char_raw segs c Hs) as [P1 P2]. destruct (IH text (push_char segs c)) as [H1 H2]; [simpl in *; lia|done|].
    split; [done|]. by rewrite H2, P2, <- app_assoc.
Qed.

Lemma segments_raw text : Forall seg_ok (segments t text) /\ concat (seg_raw <$> segments t text) = text.
Proof.
  unfold segments. case_bool_decide.
  - split; [apply plain_ok|]. cbn. by rewrite app_nil_r.
  - destruct (segment_loop_raw (length text) text [] (le_n _)) as [H1 H2]; [constructor|]. by split.
Qed.

(** The characters that a segment is decoded from, and what they are decoded to. *)
Lemma segment_chars s : seg_ok s ->
  exists chars, encode_segment t s ≫= token_text t false = concat chars /\ Forall complete chars /\ chars ≫= spelled = seg_raw s.
Proof.
  intros Hs. unfold encode_segment, seg_raw. destruct (0 <=? seg_special s)%Z eqn:E.
  - apply Z.leb_le in E. destruct (Hs E) as [tok Hin]. destruct (co_special Hco _ _ Hin) as (_ & _ & Htok). specialize (Hascii _ _ Hin).
    exists ((fun c => [c]) <$> tok). cbn [mbind list_bind]. rewrite app_nil_r, Htok. split_and!.
    + clear. induction tok as [|c tok IH]; [done|]. cbn. by rewrite <- IH.
    + apply Forall_fmap. eapply Forall_impl; [exact Hascii|]. intros c Hc. by apply ascii_entry.
    + clear Hin Htok. induction Hascii as [|c tok Hc _ IH]; [done|]. cbn [fmap list_fmap mbind list_bind]. destruct (ascii_entry c Hc) as [_ ->].
      cbn. by rewrite IH.
  - exists (ByteToUnicode <$> seg_text s). rewrite plain_text, <- spell_chars. split_and!; [done|apply Forall_fmap, Forall_forall; intros; apply table_entry|].
    generalize (seg_text s) as raw. induction raw as [|c raw IH]; [done|]. cbn [fmap list_fmap mbind list_bind]. unfold spelled at 1.
    destruct (table_entry c) as [_ ->]. rewrite (proj2 (Z.leb_le _ _)) by apply byte_val_range. rewrite char_of_byte_val. cbn. by rewrite IH.
Qed.

Lemma decode_encode text : loaded t = true ->
  exists ids, Encode t text false = Some ids /\ Decode t ids false = text.
Proof.
  intros Hl. unfold Encode, Decode. rewrite Hl, Hbl. cbn [negb andb app]. eexists. split; [done|].
  destruct (segments_raw text) as [Hok Et]. transitivity (concat (seg_raw <$> segments t text)); [clear Et|done]. revert Hok. generalize (segments t text) as segs. intros segs Hok.
  assert (exists chars, (segs ≫= encode_segment t) ≫= token_text t false = concat chars /\ Forall complete chars /\ chars ≫= spelled = concat (seg_raw <$> segs))
    as (chars & -> & Hc & E).
  { induction Hok as [|s segs Hs _ (chars & E1 & E2 & E3)]; [exists []; by split_and!|]. destruct (segment_chars s Hs) as (chars' & F1 & F2 & F3).
    exists (chars' ++ chars). cbn [mbind list_bind fmap list_fmap concat]. rewrite !bind_app, concat_app. split_and!; [by f_equal|by apply Forall_app|by f_equal]. }
  rewrite SplitUtf8_complete by done. exact E.
Qed.
End ByteLevel.

(** ** What loading establishes *)

Lemma emplace_Some s id v s' id' : emplace s id v !! s' = Some id' <-> v !! s' = Some id' \/ v !! s = None /\ s' = s /\ id' = id.
Proof.
  unfold emplace. destruct (v !! s) eqn:E; [naive_solver|]. rewrite lookup_insert_Some. split.
  - intros [[<- <-]|[_ ?]]; auto.
  - intros [H|(_ & -> & ->)]; [|by left]. right. split; [congruence|done].
Qed.

(** Each id of the map is a place of its string, counted from [id]. *)
Lemma number_from_spec toks : forall id v s n, number_from id toks v !! s = Some n ->
  v !! s = Some n \/ exists k, toks !! k = Some s /\ n = (id + Z.of_nat k)%Z.
Proof.
  induction toks as [|tok toks IH]; intros id v s n Hn; cbn [number_from] in Hn; [by left|].
  destruct (IH _ _ _ _ Hn) as [H|(k & Hk & ->)]; [|right; exists (S k); split; [done|lia]].
  apply emplace_Some in H as [?|(_ & -> & ->)]; [by left|]. right. exists 0. split; [done|lia].
Qed.

Lemma emplace_keeps s id v s' : is_Some (v !! s') -> is_Some (emplace s id v !! s').
Proof. intros [x Hx]. exists x. apply emplace_Some. by left. Qed.

Lemma number_from_keeps toks : forall id v s, is_Some (v !! s) -> is_Some (number_from id toks v !! s).
Proof. induction toks as [|tok toks IH]; intros id v s Hs; [done|]. apply IH. by apply emplace_keeps. Qed.

Lemma number_from_all toks : forall id v s, s ∈ toks -> is_Some (number_from id toks v !! s).
Proof.
  induction toks as [|tok toks IH]; intros id v s Hs; [by apply not_elem_of_nil in Hs|]. cbn [number_from].
  apply elem_of_cons in Hs as [->|Hs]; [|by apply IH]. apply number_from_keeps.
  unfold emplace. destruct (v !! tok) eqn:E; [by rewrite E|]. by rewrite lookup_insert_eq.
Qed.

Lemma rank_from_spec merges : forall rank m x r, rank_from rank merges m !! x = Some r -> is_Some (m !! x) \/ x ∈ merges.
Proof.
  induction merges as [|y merges IH]; intros rank m x r Hr; cbn [rank_from] in Hr; [left; eauto|].
  destruct (IH _ _ _ _ Hr) as [H|H]; [|right; by right]. destruct (decide (y = x)) as [->|Hne]; [right; left|].
  rewrite lookup_insert_ne in H by done. by left.
Qed.

Section Initialize.
Context (set_order : gset Z -> list Z) (set_order_elem : forall s x, x ∈ set_order s <-> x ∈ s).
Context (sort : list (bytes * Z) -> list (bytes * Z)) (sort_elem : forall l x, x ∈ sort l <-> x ∈ l).

Lemma special_string_id t id tok id' : special_string t id = Some (tok, id') -> id = id'.
Proof.
  unfold special_string. destruct (_ && _); [|done]. destruct (id_to_token t !! _) as [x|]; [|done]. destruct (1 <? length x); [|done].
  by intros [= _ <-].
Qed.

Lemma specials_elem t tok id : (tok, id) ∈ special_token_strings (build_specials set_order sort t) <->
  id ∈ special_ids t /\ special_string t id = Some (tok, id).
Proof.
  cbn. rewrite sort_elem, list_elem_of_omap. split.
  - intros (id' & Hin & E). apply special_string_id in E as Eid. subst id'. by rewrite <- set_order_elem.
  - intros [Hin E]. exists id. by rewrite set_order_elem.
Qed.

Lemma special_string_Some t tok id : special_string t id = Some (tok, id) ->
  (0 <= id)%Z /\ tok <> [] /\ id_to_token t !! Z.to_nat id = Some tok.
Proof.
  unfold special_string. destruct (_ && _) eqn:E; [|done]. apply andb_prop in E as [E _]. destruct (id_to_token t !! _) as [x|]; [|done].
  destruct (1 <? length x) eqn:El; [|done]. apply Nat.ltb_lt in El. intros [= <-]. split_and!; [by apply Z.leb_le|by destruct x; simpl in *; [lia|]|done].
Qed.

Lemma token_text_lookup t id tok : (0 <= id)%Z -> id_to_token t !! Z.to_nat id = Some tok -> token_text t false id = tok.
Proof.
  intros Hid Hl. unfold token_text. cbn [andb]. apply lookup_lt_Some in Hl as Hlt.
  rewrite (proj2 (Z.ltb_ge _ _) Hid), (proj2 (Z.leb_gt _ _)) by lia. cbn [orb]. by rewrite Hl.
Qed.

(** With the vocabulary and the merges of a byte-level model, any text at all, well-formed
    UTF-8 or not, is encoded and decoded to itself, its special tokens included.  The
    vocabulary must hold the 256 byte symbols and the result of each merge, and its special
    tokens must be ASCII. *)
Theorem byte_level_roundtrip (toks merges : list bytes) (hint : bytes) (bos eos : Z) (template : bytes) (add_bos : bool) (special : gset Z) (text : bytes) :
  toks <> [] -> DetectPreTokenizerType hint = (ByteLevel, false) ->
  (forall c, ByteToUnicode c ∈ toks) -> (forall a b, (a ++ bytes_of " " ++ b) ∈ merges -> (a ++ b) ∈ toks) ->
  (forall id tok, id ∈ {[bos; eos]} ∪ special -> (0 <= id)%Z -> toks !! Z.to_nat id = Some tok -> Forall is_ascii tok) ->
  exists t ids, InitializeFromBpeData set_order sort toks merges hint bos eos template add_bos special = (t, true) /\
    Encode t text false = Some ids /\ Decode t ids false = text.
Proof.
  intros Hne Hhint Hbytes Hmerges Hspecial. unfold InitializeFromBpeData. rewrite bool_decide_eq_false_2, Hhint by done.
  set (t0 := mkMlx _ _ _ _ _ _ _ _ _ _ _ _ _). set (t := build_specials set_order sort t0). exists t.
  assert (Hsub : special_ids t0 ⊆ {[bos; eos]} ∪ special) by (cbn; repeat case_match; set_solver).
  destruct (decode_encode t) with (text := text) as (ids & E1 & E2); [..|by exists ids]; [| |done| |done].
  - split.
    + intros s id Hid. apply (number_from_spec toks 0 ∅) in Hid as [H|(k & Hk & ->)]; [by rewrite lookup_empty in H|].
      apply token_text_lookup; [lia|]. cbn. by rewrite Z.add_0_l, Nat2Z.id.
    + intros tok id [_ H]%specials_elem. apply special_string_Some in H as (? & ? & Hl). split_and!; [done..|]. by apply token_text_lookup.
  - split; [intros c; by apply number_from_all|]. intros a b r Hr. apply number_from_all, Hmerges.
    apply (rank_from_spec merges 0 ∅) in Hr as [[? H]|H]; [by rewrite lookup_empty in H|done].
  - intros tok id [Hin H]%specials_elem. apply special_string_Some in H as (Hid & _ & Hl). by apply (Hspecial id); [apply Hsub|..].
Qed.
End Initialize.

(** ** Loading stays in range *)
Section LoadBounds.
Context (set_order : gset Z -> list Z) (map_order : gmap bytes Z -> list (bytes * Z)) (sort : list (bytes * Z) -> list (bytes * Z)).

(** Every id of the vocabulary and every special id is an index of the table, whose size is bounded. *)
Record tables_ok (t : MlxTokenizer) : Prop := {
  to_vocab : forall s id, vocab t !! s = Some id -> (0 <= id < Z.of_nat (length (id_to_token t)))%Z;
  to_special : forall id, id ∈ special_ids t -> (0 <= id < Z.of_nat (length (id_to_token t)))%Z;
  to_size : vocab_size t = Z.of_nat (length (id_to_token t));
  to_bound : (Z.of_nat (length (id_to_token t)) <= kMaxReasonableTokenId + 1)%Z }.

Lemma IsValidTokenId_spec id : IsValidTokenId id = true <-> (0 <= id <= kMaxReasonableTokenId)%Z.
Proof. unfold IsValidTokenId. by rewrite andb_true_iff, !Z.leb_le. Qed.

(** The ids read are valid and at most the maximum kept. *)
Definition read_ok (st : gmap bytes Z * Z) : Prop :=
  (-1 <= st.2 <= kMaxReasonableTokenId)%Z /\ forall s id, st.1 !! s = Some id -> (0 <= id <= st.2)%Z.

Lemma read_vocab_ok fields : forall st, read_ok st -> read_ok (foldl read_vocab_entry st fields).
Proof.
  induction fields as [|[k j] fields IH]; intros [v m] [Hm Hv]; [done|]. cbn [foldl]. apply IH. unfold read_vocab_entry. cbn [fst snd] in *.
  destruct (get_int64 j) as [id|]; [|done]. destruct (IsValidTokenId id) eqn:E; [|done]. apply IsValidTokenId_spec in E.
  split; cbn; [lia|]. intros s id'. rewrite lookup_insert_Some. intros [[_ <-]|[_ H]]; [lia|]. specialize (Hv _ _ H). lia.
Qed.

Lemma store_all_length l : forall toks, length (foldl (fun toks '(tok, id) => store toks id tok) toks l) = length toks.
Proof. induction l as [|[tok id] l IH]; intros toks; [done|]. cbn [foldl]. rewrite IH. apply length_insert. Qed.

Lemma load_vocab_ok model t : tables_ok t -> special_ids t = ∅ -> tables_ok (load_vocab map_order model t) /\ special_ids (load_vocab map_order model t) = ∅.
Proof.
  intros Ht Hs. unfold load_vocab. destruct (get "vocab" model) as [[]|]; try done.
  destruct (read_vocab_ok fields (∅, (-1)%Z)) as [Hm Hv].
  { split; [unfold kMaxReasonableTokenId; cbn; lia|]. intros s id H. cbn in H. by rewrite lookup_empty in H. }
  destruct (foldl read_vocab_entry _ fields) as [v m]. cbn [fst snd] in *. split; [|done].
  assert (Hl : Z.of_nat (length (foldl (fun toks '(tok, id) => store toks id tok) (replicate (Z.to_nat (m + 1)) []) (map_order v))) = (m + 1)%Z).
  { rewrite store_all_length, length_replicate. lia. }
  split; cbn [set_tokens vocab id_to_token special_ids vocab_size]; rewrite ?Hl; [|by rewrite Hs|done|lia].
  intros s id H. specialize (Hv _ _ H). lia.
Qed.

Lemma read_added_ok t j : tables_ok t -> tables_ok (read_added t j).
Proof.
  intros [Hv Hs Hz Hb]. unfold read_added. destruct (get "id" j) as [idj|]; [|done]. destruct (get "content" j) as [[]|]; try done.
  destruct (get_int64 idj) as [id|]; [|done]. destruct (IsValidTokenId id) eqn:E; [|done]. apply IsValidTokenId_spec in E.
  set (toks := if (Z.of_nat _ <=? id)%Z then _ else _).
  assert (Hl : Z.of_nat (length toks) = Z.max (Z.of_nat (length (id_to_token t))) (id + 1)).
  { unfold toks. destruct (_ <=? id)%Z eqn:El; [apply Z.leb_le in El|apply Z.leb_gt in El]; [|lia]. rewrite length_app, length_replicate. lia. }
  assert (Hst : Z.of_nat (length (store toks id s)) = Z.max (Z.of_nat (length (id_to_token t))) (id + 1)) by (unfold store; by rewrite length_insert).
  split; cbn [set_tokens vocab id_to_token special_ids vocab_size]; rewrite ?Hst; [| |lia|lia].
  - intros s' id' [H|(_ & _ & ->)]%emplace_Some; [specialize (Hv _ _ H)|]; lia.
  - intros id' H. destruct (get_bool_field _ _ _); [apply elem_of_union in H as [H|H]; [apply elem_of_singleton in H as ->; lia|]|]; specialize (Hs _ H); lia.
Qed.

Lemma load_added_ok j t : tables_ok t -> tables_ok (load_added j t).
Proof.
  intros Ht. unfold load_added. destruct (get "added_tokens" j) as [[]|]; try done. revert t Ht.
  induction l as [|x l IH]; intros t Ht; [done|]. apply IH. by apply read_added_ok.
Qed.

(** Functions that leave the tables alone. *)
Abbreviation same_tables t t' :=
  (vocab t' = vocab t /\ id_to_token t' = id_to_token t /\ special_ids t' = special_ids t /\ vocab_size t' = vocab_size t).

Lemma same_tables_ok t t' : same_tables t t' -> tables_ok t -> tables_ok t'.
Proof. intros (E1 & E2 & E3 & E4) []. split; by rewrite ?E1, ?E2, ?E3, ?E4. Qed.

Lemma apply_same pt t t' : apply_pre_tokenizer_type pt t = Some t' -> same_tables t t'.
Proof.
  unfold apply_pre_tokenizer_type. destruct (named _ "Metaspace"); [intros [= <-]; by split_and!|].
  destruct (named _ "ByteLevel"); [intros [= <-]; by split_and!|done].
Qed.

Lemma default_same pt t : same_tables t (default t (apply_pre_tokenizer_type pt t)).
Proof. pose proof (apply_same pt t) as H. destruct (apply_pre_tokenizer_type pt t) as [t'|]; [by apply H|done]. Qed.

Lemma first_applicable_same l t : same_tables t (first_applicable l t).
Proof.
  induction l as [|x l IH]; [done|]. cbn [first_applicable]. pose proof (apply_same x t) as H. destruct x; try exact IH.
  destruct (apply_pre_tokenizer_type _ t) as [t'|]; [by apply H|exact IH].
Qed.

Lemma pre_tokenizer_same j t : same_tables t (load_pre_tokenizer j t).
Proof.
  unfold load_pre_tokenizer. destruct (get "pre_tokenizer" j) as [[]|]; try done. cbv zeta.
  destruct (named _ _); [|apply default_same]. destruct (get "pretokenizers" _) as [[]|]; (apply default_same || apply first_applicable_same).
Qed.

Lemma ends_same dir t : same_tables t (load_ends dir t).
Proof. unfold load_ends. by case_bool_decide. Qed.

Lemma merges_same model t : same_tables t (load_merges model t).
Proof. unfold load_merges. by destruct (get "merges" model) as [[]|]. Qed.

(** Whatever the files of a model directory hold, loading leaves a tokenizer whose
    vocabulary and special ids are indices of its table of strings, of the size it reports
    and at most ten million and one; an answer of false leaves it empty. *)
Theorem load_in_range (dir : ModelDir) :
  tables_ok (Load set_order map_order sort dir).1 /\
  ((Load set_order map_order sort dir).2 = false -> (Load set_order map_order sort dir).1 = Reset) /\
  loaded (Load set_order map_order sort dir).1 = (Load set_order map_order sort dir).2.
Proof.
  assert (H0 : tables_ok Reset) by (by split).
  unfold Load. destruct (tokenizer_json dir) as [[j|]|]; try done. destruct (get "model" j) as [[]|]; try done.
  case_bool_decide; cbn [negb]; [|done]. split; [|done]. cbn [fst]. apply (same_tables_ok (load_ends dir (load_added j (load_pre_tokenizer j (load_merges (JObject fields) (load_vocab map_order (JObject fields) Reset)))))); [done|].
  apply (same_tables_ok _ _ (ends_same _ _)), load_added_ok, (same_tables_ok _ _ (pre_tokenizer_same _ _)), (same_tables_ok _ _ (merges_same _ _)).
  by apply load_vocab_ok.
Qed.
End LoadBounds.

(** ** Examples *)

(** A byte-level model: the byte symbols, a merged piece and an end marker. *)
Definition demo_tokens : list bytes := byte_to_str ++ [bytes_of "ab"; bytes_of "<|end|>"].

Lemma demo_bytes c : ByteToUnicode c ∈ demo_tokens.
Proof.
  apply elem_of_app. left. assert (H : all_bytes (fun c => bool_decide (ByteToUnicode c ∈ byte_to_str)) = true) by (vm_compute; reflexivity).
  apply all_bytes_spec with (c := c) in H. by apply bool_decide_eq_true in H.
Qed.

Lemma byte_level_roundtrip_witness :
  exists t ids, InitializeFromBpeData elements id demo_tokens [bytes_of "a b"] (bytes_of "qwen2") (-1) 257 [] false ∅ = (t, true) /\
    Encode t (bytes_of "ab <|end|>") false = Some ids /\ Decode t ids false = bytes_of "ab <|end|>".
Proof.
  apply (byte_level_roundtrip elements (fun s x => elem_of_elements s x) id (fun l x => iff_refl _)); [done|vm_compute; reflexivity|apply demo_bytes| |].
  - intros a b Hab. apply list_elem_of_singleton in Hab.
    assert (a = bytes_of "a" /\ b = bytes_of "b") as [-> ->].
    { destruct a as [|x a]; [done|]. injection Hab as -> Hab. destruct a as [|y a]; [by injection Hab as ->|].
      injection Hab as -> Hab. destruct a as [|z a]; [done|]. injection Hab as -> Hab. by destruct a. }
    apply elem_of_app. right. left.
  - intros id tok Hid. assert (id = (-1)%Z \/ id = 257%Z) as [-> | ->] by set_solver; [lia|]. intros _. vm_compute. intros [= <-]. repeat constructor.
Defined.

(** *** Two texts that do not survive *)

Definition demo (toks merges : list bytes) (hint : string) : MlxTokenizer :=
  (InitializeFromBpeData elements id toks merges (bytes_of hint) (-1) (-1) [] false ∅).1.

(** A merge whose result is not in the vocabulary: the piece is spelled byte by byte, but its
    bytes are those of the spelling already, so that a space comes back as two bytes. *)
Lemma fallback_spells_twice :
  let t := demo byte_to_str [[chr 196; chr 160] ++ bytes_of " a"] "gpt2" in
  option_map (fun ids => Decode t ids false) (Encode t (bytes_of " a") false) = Some ([chr 196; chr 160] ++ bytes_of "a").
Proof. vm_compute. reflexivity. Qed.

(** A text that begins with a space gets no prefix, and loses its space when it is decoded. *)
Lemma leading_space_lost :
  let t := demo [kMetaMark; bytes_of "a"] [] "llama" in
  option_map (fun ids => Decode t ids false) (Encode t (bytes_of " a") false) = Some (bytes_of "a").
Proof. vm_compute. reflexivity. Qed.
