(* ===== verification/ToolCalls.v ===== *)
(** * Tool calls in completions: server/http/completion_payload.cpp

    The calls that a model writes into its text are taken out of it, and are sent on
    as one JSON entry each or as a stream of frames.  The JSON parser and printer are
    parameters. *)

From stdpp Require Import base tactics numbers list strings pretty sets.
From Stdlib Require Import Ascii.
From S2P Require Import Prelude StringUtils Json.

Record ToolCallResult := mkCall { call_id : bytes; function_name : bytes; arguments_json : bytes }.

Record ToolCallExtraction := mkExtraction { calls : list ToolCallResult; remaining_text : bytes }.

Definition is_ws (c : ascii) : bool := is_trim c.
Definition TrimWs (s : bytes) : bytes := Trim s.

(** From the bracket at the start of [s]: the index past the bracket that closes it. *)
Fixpoint scan_balanced (s : bytes) (open close : ascii) (depth : Z) (in_str esc : bool) (k : nat) : option nat :=
  match s with
  | [] => None
  | c :: s' =>
      if in_str then
        if esc then scan_balanced s' open close depth true false (S k)
        else if bool_decide (c = "\"%char) then scan_balanced s' open close depth true true (S k)
        else if bool_decide (c = chr 34) then scan_balanced s' open close depth false esc (S k)
        else scan_balanced s' open close depth true esc (S k)
      else if bool_decide (c = chr 34) then scan_balanced s' open close depth true esc (S k)
      else if bool_decide (c = open) then scan_balanced s' open close (depth + 1) in_str esc (S k)
      else if bool_decide (c = close) then
        if (depth - 1 =? 0)%Z then Some (S k)
        else if (depth - 1 <? 0)%Z then None
        else scan_balanced s' open close (depth - 1) in_str esc (S k)
      else scan_balanced s' open close depth in_str esc (S k)
  end.

Definition ScanBalancedObject (s : bytes) : option nat :=
  match s with
  | [] => None
  | c :: _ => scan_balanced s c (if bool_decide (c = "["%char) then "]"%char else "}"%char) 0 false false 0
  end.

Section Detect.
Context (parse : bytes -> option json) (dump : json -> bytes).

(** The call that an object describes, as number [index]. *)
Definition fill (obj : json) (explicit_call : bool) (index : nat) : option ToolCallResult :=
  let '(tc, explicit_call) := match get "tool_call" obj with
                              | Some (JObject f) => (JObject f, true)
                              | _ => (obj, explicit_call)
                              end in
  match get_string "name" tc with
  | None | Some [] => None
  | Some name =>
      let args := match get "arguments" tc with Some a => Some a | None => get "parameters" tc end in
      let call_id := bytes_of "call_" ++ name ++ bytes_of "_" ++ bytes_of (pretty (Z.of_nat index)) in
      match args with
      | None => if explicit_call then Some (mkCall call_id name (bytes_of "{}")) else None
      | Some (JObject f) => Some (mkCall call_id name (dump (JObject f)))
      | Some (JString s) => Some (mkCall call_id name s)
      | Some _ => None
      end
  end.

Fixpoint fill_all (items : list json) (index : nat) : option (list ToolCallResult) :=
  match items with
  | [] => Some []
  | item :: items' =>
      match fill item true index with
      | None => None
      | Some c => cons c <$> fill_all items' (S index)
      end
  end.

(** The calls of an envelope; [None] when it is not one, and no call is kept. *)
Definition parse_envelope (span : bytes) (explicit_call : bool) (index : nat) : option (list ToolCallResult) :=
  match parse span with
  | Some (JObject f) => (fun c => [c]) <$> fill (JObject f) explicit_call index
  | Some (JArray (item :: items)) => if explicit_call then fill_all (item :: items) index else None
  | _ => None
  end.

Definition open_tag : bytes := bytes_of "<tool_call>".
Definition close_tag : bytes := bytes_of "</tool_call>".
Definition mistral : bytes := bytes_of "[TOOL_CALLS]".
Definition mistral_end : bytes := bytes_of "[/TOOL_CALLS]".

(** [find_first_not_of(" \t\r\n", pos)], as the text from there. *)
Definition skip_ws (s : bytes) : bytes := drop_while is_ws s.

(** What a turn of the loop finds at the start of [rest]: the text to parse, the length
    that it takes with its delimiters, and whether its form says that it is a call;
    [NoSpan] moves on by one character, [Unclosed] ends the loop. *)
Inductive finding :=
  | Span (body : bytes) (consumed : nat) (explicit_call : bool)
  | NoSpan
  | Unclosed.

Definition look (rest : bytes) : finding :=
  if starts_with open_tag rest then
    let after := drop (length open_tag) rest in
    match find_sub close_tag after with
    | None => Unclosed
    | Some e => Span (take e after) (length open_tag + e + length close_tag) true
    end
  else if starts_with mistral rest then
    let after := skip_ws (drop (length mistral) rest) in
    match after with
    | c :: _ =>
        if bool_decide (c = "["%char) then
          match ScanBalancedObject after with
          | None => NoSpan
          | Some e =>
              let consumed := length rest - length after + e in
              let suffix := skip_ws (drop e after) in
              Span (take e after)
                (if starts_with mistral_end suffix then length rest - length suffix + 13 else consumed) true
          end
        else NoSpan
    | [] => NoSpan
    end
  else match rest with
       | c :: _ =>
           if bool_decide (c = "{"%char) || bool_decide (c = "["%char) then
             match ScanBalancedObject rest with
             | None => Unclosed
             | Some e => Span (take e rest) e false
             end
           else NoSpan
       | [] => NoSpan
       end.

(** The loop: the calls so far and the residual text. *)
Fixpoint detect_loop (fuel : nat) (rest : bytes) (found : list ToolCallResult) (residual : bytes) : list ToolCallResult * bytes :=
  match fuel, rest with
  | S fuel, c :: rest' =>
      match look rest with
      | Unclosed => (found, residual ++ rest)
      | NoSpan => detect_loop fuel rest' found (residual ++ [c])
      | Span body consumed explicit_call =>
          match parse_envelope body explicit_call (length found) with
          | Some new => detect_loop fuel (drop consumed rest) (found ++ new) residual
          | None => detect_loop fuel (drop consumed rest) found (residual ++ take consumed rest)
          end
      end
  | _, _ => (found, residual)
  end.

Definition DetectToolCalls (text : bytes) : ToolCallExtraction :=
  let '(found, residual) := detect_loop (length text) text [] [] in mkExtraction found (TrimWs residual).
End Detect.

(** ** Sending calls *)

Definition jstr (s : bytes) : json := JString s.
Definition key (k : string) (j : json) : bytes * json := (bytes_of k, j).

(** A JSON object made by the code; [nlohmann::json] keeps the keys sorted, which the printer sees. *)
Definition BuildToolCallEntry (tc : ToolCallResult) (index : option Z) : json :=
  JObject ([key "id" (jstr (call_id tc)); key "type" (jstr (bytes_of "function"));
    key "function" (JObject [key "name" (jstr (function_name tc)); key "arguments" (jstr (arguments_json tc))])] ++
    match index with Some i => [key "index" (JInteger i)] | None => [] end).

Section Stream.
Context (id model : bytes) (ts : Z).

Definition frame (delta : json) (finish_reason : json) : json :=
  JObject [key "id" (jstr id); key "object" (jstr (bytes_of "chat.completion.chunk")); key "created" (JInteger ts); key "model" (jstr model);
    key "choices" (JArray [JObject [key "index" (JInteger 0); key "delta" delta; key "finish_reason" finish_reason]])].

Definition text_frame (k : string) (value : bytes) : list json :=
  if bool_decide (value = []) then [] else [frame (JObject [key k (jstr value)]) JNull].

(** The frames of call number [k]. *)
Definition call_frames (k : Z) (tc : ToolCallResult) : list json :=
  [frame (JObject [key "tool_calls" (JArray [JObject [key "index" (JInteger k); key "id" (jstr (call_id tc)); key "type" (jstr (bytes_of "function"));
     key "function" (JObject [key "name" (jstr (function_name tc)); key "arguments" (jstr [])])]])]) JNull] ++
  (if bool_decide (arguments_json tc = []) then []
   else [frame (JObject [key "tool_calls" (JArray [JObject [key "index" (JInteger k); key "function" (JObject [key "arguments" (jstr (arguments_json tc))])]])]) JNull]).

Fixpoint all_call_frames (k : Z) (tcs : list ToolCallResult) : list json :=
  match tcs with [] => [] | tc :: tcs' => call_frames k tc ++ all_call_frames (k + 1) tcs' end.

Definition stream_frames (tool_calls : list ToolCallResult) (reasoning content : bytes) : list json :=
  frame (JObject [key "role" (jstr (bytes_of "assistant")); key "content" JNull]) JNull ::
  text_frame "reasoning_content" reasoning ++ text_frame "content" content ++ all_call_frames 0 tool_calls ++
  [frame (JObject []) (jstr (bytes_of "tool_calls"))].

(** [dump]: the printer, which replaces malformed UTF-8 in the text frames only. *)
Definition BuildToolCallStreamChunks (dump : json -> bytes) (tool_calls : list ToolCallResult) (reasoning content : bytes) : bytes :=
  stream_frames tool_calls reasoning content ≫= fun j => bytes_of "data: " ++ dump j ++ [nl; nl].
End Stream.

(** ** Every turn moves forward *)

Lemma scan_balanced_bounds s open close : forall depth in_str esc k e,
  scan_balanced s open close depth in_str esc k = Some e -> k < e <= k + length s.
Proof.
  induction s as [|c s IH]; intros depth in_str esc k e; cbn [scan_balanced length]; [done|].
  destruct in_str.
  - destruct esc; [|repeat case_bool_decide]; intros He%IH; lia.
  - repeat case_bool_decide; try (intros He%IH; lia). destruct (_ =? 0)%Z; [intros [= <-]; lia|]. destruct (_ <? 0)%Z; [done|]. intros He%IH. lia.
Qed.

Lemma ScanBalanced_bounds s e : ScanBalancedObject s = Some e -> 1 <= e <= length s.
Proof. unfold ScanBalancedObject. destruct s as [|c s]; [done|]. intros H%scan_balanced_bounds. cbn [length] in *. lia. Qed.

Lemma skip_ws_length s : length (skip_ws s) <= length s.
Proof. unfold skip_ws. induction s as [|c s IH]; [done|]. cbn [drop_while]. case_match; cbn [length]; lia. Qed.

Lemma look_bounds rest body consumed expl : look rest = Span body consumed expl -> 1 <= consumed <= length rest.
Proof.
  unfold look. destruct (starts_with open_tag rest) eqn:Eo.
  { apply starts_with_length in Eo. destruct (find_sub _ _) as [e|] eqn:Ef; [|done]. intros [= <- <- <-].
    apply find_sub_split in Ef as [_ Hl]. rewrite length_drop in Hl. change (length close_tag) with 12 in Hl; change (length open_tag) with 11 in *. lia. }
  destruct (starts_with mistral rest) eqn:Em.
  { apply starts_with_length in Em. pose proof (skip_ws_length (drop (length mistral) rest)) as Hs. rewrite length_drop in Hs.
    destruct (skip_ws _) as [|c after] eqn:Ea; [done|]. case_bool_decide; [|done].
    destruct (ScanBalancedObject _) as [e|] eqn:Eb; [|done]. apply ScanBalanced_bounds in Eb.
    pose proof (skip_ws_length (drop e (c :: after))) as Hs'. rewrite length_drop in Hs'. change (length mistral) with 12 in *.
    destruct (starts_with mistral_end _) eqn:Ee; intros [= _ <- _]; cbn [length] in *; [|lia]. apply starts_with_length in Ee. change (length mistral_end) with 13 in Ee. lia. }
  destruct rest as [|c rest]; [done|]. destruct (_ || _); [|done].
  destruct (ScanBalancedObject _) as [e|] eqn:Eb; [|done]. apply ScanBalanced_bounds in Eb. intros [= <- <- <-]. done.
Qed.

Section Extraction.
Context (parse : bytes -> option json) (dump : json -> bytes).
Abbreviation loop := (detect_loop parse dump).

(** More fuel than characters changes nothing. *)
Lemma loop_fuel n m rest found residual : length rest <= n -> length rest <= m -> loop n rest found residual = loop m rest found residual.
Proof.
  revert m rest found residual. induction n as [|n IH]; intros m rest found residual Hn Hm; [destruct rest; [by destruct m|simpl in *; lia]|].
  destruct rest as [|c rest]; [by destruct m|]. destruct m as [|m]; [simpl in *; lia|]. cbn [detect_loop].
  destruct (look (c :: rest)) as [body consumed expl| |] eqn:El; [|apply IH; cbn [length] in *; lia|done].
  apply look_bounds in El. destruct (parse_envelope _ _ _ _ _); apply IH; rewrite length_drop; cbn [length] in *; lia.
Qed.

(** *** The text is cut into pieces *)

(** A piece of the text: kept, or taken out as calls. *)
Inductive piece := Kept (s : bytes) | Taken (s : bytes) (new : list ToolCallResult).

Definition raw (p : piece) : bytes := match p with Kept s | Taken s _ => s end.
Definition kept (p : piece) : bytes := match p with Kept s => s | Taken _ _ => [] end.
Definition taken (p : piece) : list ToolCallResult := match p with Kept _ => [] | Taken _ new => new end.

(** A call that is number [i] says so in its id. *)
Definition numbered (i : nat) (c : ToolCallResult) : Prop :=
  function_name c <> [] /\ call_id c = bytes_of "call_" ++ function_name c ++ bytes_of "_" ++ bytes_of (pretty (Z.of_nat i)).

Lemma fill_numbered obj expl i c : fill dump obj expl i = Some c -> numbered i c.
Proof.
  unfold fill. destruct (match get "tool_call" obj with Some (JObject f) => _ | _ => _ end) as [tc ex].
  destruct (get_string "name" tc) as [[|n0 name]|]; try done. set (args := match get "arguments" tc with Some _ => _ | None => _ end).
  destruct args as [[]|]; try done; [intros [= <-]..|destruct ex; [intros [= <-]|done]]; done.
Qed.

Lemma fill_all_numbered items : forall i l, fill_all dump items i = Some l ->
  length l = length items /\ forall j c, l !! j = Some c -> numbered (i + j) c.
Proof.
  induction items as [|item items IH]; intros i l; cbn [fill_all]; [by intros [= <-]|].
  destruct (fill dump item true i) as [c|] eqn:Ef; [|done]. intros (l' & Hl & ->)%fmap_Some. destruct (IH _ _ Hl) as [H1 H2].
  split; [cbn; lia|]. intros [|j] c' Hc; cbn in Hc; [injection Hc as <-; rewrite Nat.add_0_r; by eapply fill_numbered|].
  replace (i + S j) with (S i + j) by lia. by apply H2.
Qed.

Lemma envelope_numbered span expl i l : parse_envelope parse dump span expl i = Some l ->
  l <> [] /\ forall j c, l !! j = Some c -> numbered (i + j) c.
Proof.
  unfold parse_envelope. destruct (parse span) as [[]|]; try done.
  - destruct l0 as [|item items]; [done|]. destruct expl; [|done]. intros [H1 H2]%fill_all_numbered. split; [by destruct l|done].
  - intros (c & Hc & ->)%fmap_Some. split; [done|]. intros [|j] c' H; [|done]. injection H as <-. rewrite Nat.add_0_r. by eapply fill_numbered.
Qed.

Definition all_numbered (l : list ToolCallResult) : Prop := forall i c, l !! i = Some c -> numbered i c.

Lemma all_numbered_app l k : all_numbered l -> (forall j c, k !! j = Some c -> numbered (length l + j) c) -> all_numbered (l ++ k).
Proof.
  intros Hl Hk i c [H|[Hi H]]%lookup_app_Some; [by apply Hl|]. replace i with (length l + (i - length l)) by lia. by apply Hk.
Qed.

Lemma loop_pieces fuel : forall rest found residual, length rest <= fuel -> all_numbered found ->
  exists pieces, concat (raw <$> pieces) = rest /\
    loop fuel rest found residual = (found ++ (pieces ≫= taken), residual ++ (pieces ≫= kept)) /\
    Forall (fun p => match p with Taken _ new => new <> [] | Kept _ => True end) pieces /\ all_numbered (found ++ (pieces ≫= taken)).
Proof.
  induction fuel as [|fuel IH]; intros rest found residual Hf Hn.
  { destruct rest; [|simpl in *; lia]. exists []. cbn. rewrite !app_nil_r. by split_and!. }
  destruct rest as [|c rest]; [exists []; cbn; rewrite !app_nil_r; by split_and!|]. cbn [detect_loop].
  destruct (look (c :: rest)) as [body consumed expl| |] eqn:El.
  - apply look_bounds in El as Hb. assert (Hd : length (drop consumed (c :: rest)) <= fuel) by (rewrite length_drop; cbn [length] in *; lia).
    destruct (parse_envelope _ _ _ _ _) as [new|] eqn:Ep.
    + apply envelope_numbered in Ep as [Hne Hnum]. destruct (IH (drop consumed (c :: rest)) (found ++ new) residual Hd) as (ps & E1 & E2 & E3 & E4); [by apply all_numbered_app|].
      exists (Taken (take consumed (c :: rest)) new :: ps). cbn [fmap list_fmap concat raw mbind list_bind taken kept app]. rewrite E1, take_drop.
      rewrite E2, <- app_assoc in *. split_and!; [done|done|by constructor|done].
    + destruct (IH (drop consumed (c :: rest)) found (residual ++ take consumed (c :: rest)) Hd Hn) as (ps & E1 & E2 & E3 & E4).
      exists (Kept (take consumed (c :: rest)) :: ps). cbn [fmap list_fmap concat raw mbind list_bind taken kept app]. rewrite E1, take_drop.
      rewrite E2, <- app_assoc. split_and!; [done|done|by constructor|done].
  - destruct (IH rest found (residual ++ [c])) as (ps & E1 & E2 & E3 & E4); [simpl in *; lia|done|].
    exists (Kept [c] :: ps). cbn [fmap list_fmap concat raw mbind list_bind taken kept app]. rewrite E1, E2, <- app_assoc. split_and!; [done|done|by constructor|done].
  - exists [Kept (c :: rest)]. cbn. rewrite !app_nil_r. split_and!; [done|done|by repeat constructor|done].
Qed.

Lemma last_separator (c : ascii) a b p q : c ∉ p -> c ∉ q -> a ++ c :: p = b ++ c :: q -> p = q.
Proof.
  intros Hp Hq E. pose proof (f_equal (fun l => find_sub [c] (reverse l)) E) as Er. cbn in Er.
  rewrite !reverse_app, !reverse_cons, <- !app_assoc in Er. cbn [app] in Er.
  rewrite !find_sub_char in Er by (by rewrite elem_of_reverse). rewrite !length_reverse in Er. injection Er as El.
  apply app_inj_2 in E as [_ [= ->]]; [done|]. cbn. lia.
Qed.

(** An id ends in its number, after its last underscore. *)
Lemma numbered_inj i j c d : numbered i c -> numbered j d -> call_id c = call_id d -> i = j.
Proof.
  intros [_ ->] [_ ->]. rewrite !app_assoc. change (bytes_of "_") with ["_"%char]. rewrite <- !(app_assoc _ ["_"%char]). cbn [app]. intros E.
  assert (Hu : forall z : Z, "_"%char ∉ bytes_of (pretty z)).
  { intros z Hin. pose proof (pretty_chars z) as HF. rewrite Forall_forall in HF. destruct (HF _ Hin) as [[? H]|H]; done. }
  apply last_separator in E; [|apply Hu..]. apply (f_equal scan_int) in E. rewrite !scan_int_pretty in E. injection E as E. lia.
Qed.

Lemma numbered_NoDup l : all_numbered l -> NoDup (call_id <$> l).
Proof.
  intros Hl. apply NoDup_alt. intros i j x Hi Hj. rewrite list_lookup_fmap in Hi, Hj.
  apply fmap_Some in Hi as (c & Hc & ->), Hj as (d & Hd & E). by eapply numbered_inj; [apply Hl|apply Hl|].
Qed.

(** Extraction cuts the text into pieces: each is kept in the visible text, in order,
    or taken out as one or more calls, in order; nothing is lost or repeated, and no two
    calls of a completion have the same id. *)
Theorem tool_calls_partition (text : bytes) :
  exists pieces residual, concat (raw <$> pieces) = text /\
    DetectToolCalls parse dump text = mkExtraction (pieces ≫= taken) (TrimWs residual) /\ residual = pieces ≫= kept /\
    Forall (fun p => match p with Taken _ new => new <> [] | Kept _ => True end) pieces /\
    NoDup (call_id <$> calls (DetectToolCalls parse dump text)).
Proof.
  destruct (loop_pieces (length text) text [] [] (le_n _)) as (ps & E1 & E2 & E3 & E4); [done|]. cbn [app] in *.
  exists ps, (ps ≫= kept). unfold DetectToolCalls. rewrite E2. split_and!; [done..|]. cbn. by apply numbered_NoDup.
Qed.

(** *** What is found *)

(** Prose without the characters that calls begin with. *)
Definition prose (s : bytes) : Prop := Forall (fun c => c <> "{"%char /\ c <> "["%char /\ c <> "<"%char) s.

Lemma loop_prose s : prose s -> forall rest found residual,
  loop (length (s ++ rest)) (s ++ rest) found residual = loop (length rest) rest found (residual ++ s).
Proof.
  induction 1 as [|c s (H1 & H2 & H3) _ IH]; intros rest found residual; [by rewrite app_nil_r|].
  cbn [app length detect_loop]. assert (look (c :: s ++ rest) = NoSpan) as ->.
  { unfold look. change open_tag with ("<"%char :: bytes_of "tool_call>"). change mistral with ("["%char :: bytes_of "TOOL_CALLS]").
    cbn [starts_with]. rewrite !bool_decide_eq_false_2 by done. done. }
  rewrite IH. by rewrite <- app_assoc.
Qed.

Definition envelope (s : bytes) : bytes := open_tag ++ s ++ close_tag.

Lemma find_sub_more (needle t more : bytes) i : find_sub needle t = Some i -> find_sub needle (t ++ more) = Some i.
Proof.
  revert i. induction t as [|c t IH]; intros i; cbn [app find_sub].
  - destruct (starts_with needle []) eqn:E; [|done]. intros [= <-]. apply (starts_with_app _ _ more) in E. cbn [app] in E. destruct more; cbn [find_sub]; by rewrite E.
  - destruct (starts_with needle (c :: t)) eqn:E.
    + intros [= <-]. apply (starts_with_app _ _ more) in E. cbn [app] in E. by rewrite E.
    + intros (j & Hj & ->)%fmap_Some. rewrite (IH _ Hj). destruct (starts_with needle (c :: t ++ more)) eqn:E'; [|done].
      apply find_sub_split in Hj as [_ Hl]. apply starts_with_spec in E' as [r Er]. exfalso.
      assert (starts_with needle (c :: t) = true); [|congruence]. apply starts_with_spec. exists (drop (length needle) (c :: t)).
      apply (f_equal (take (length needle))) in Er. rewrite take_app_length in Er. change (c :: t ++ more) with ((c :: t) ++ more) in Er.
      rewrite take_app_le in Er by (cbn [length]; lia). by rewrite <- Er at 1; rewrite take_drop.
Qed.

Lemma loop_envelope s new rest found residual :
  find_sub close_tag (s ++ close_tag) = Some (length s) -> parse_envelope parse dump s true (length found) = Some new ->
  loop (length (envelope s ++ rest)) (envelope s ++ rest) found residual = loop (length rest) rest (found ++ new) residual.
Proof.
  intros Hs Hp. unfold envelope. rewrite <- !app_assoc. remember (open_tag ++ s ++ close_tag ++ rest) as text eqn:Et.
  assert (Hl : look text = Span s (length open_tag + length s + length close_tag) true).
  { unfold look. assert (starts_with open_tag text = true) as -> by (apply starts_with_spec; eauto). subst text. rewrite drop_app_length.
    rewrite app_assoc, (find_sub_more _ _ _ _ Hs), <- app_assoc. by rewrite take_app_length. }
  assert (Hd : drop (length open_tag + length s + length close_tag) text = rest).
  { subst text. rewrite <- Nat.add_assoc, drop_app_add, drop_app_add. apply drop_app_length. }
  destruct text as [|c text]; [done|]. cbn [length detect_loop]. rewrite Hl, Hp, Hd. apply loop_fuel; [|done].
  apply look_bounds in Hl. apply (f_equal length) in Hd. rewrite length_drop in Hd. cbn [length] in *. lia.
Qed.

(** A completion: prose, then an envelope that holds a call, and so on. *)
Definition render (turns : list (bytes * bytes)) (tail : bytes) : bytes := (turns ≫= fun '(p, s) => p ++ envelope s) ++ tail.

(** A completion that alternates prose with tagged calls gives exactly these calls, in
    order, and the prose without them, trimmed. *)
Theorem tagged_calls_found (turns : list (bytes * bytes)) (tail : bytes) (cs : list ToolCallResult) :
  Forall (fun t => prose t.1 /\ find_sub close_tag (t.2 ++ close_tag) = Some (length t.2)) turns -> prose tail ->
  length cs = length turns ->
  (forall i t c, turns !! i = Some t -> cs !! i = Some c -> parse_envelope parse dump t.2 true i = Some [c]) ->
  DetectToolCalls parse dump (render turns tail) = mkExtraction cs (TrimWs ((turns ≫= fst) ++ tail)).
Proof.
  intros Ht Htail Hlen Hc. unfold DetectToolCalls.
  assert (H : forall turns cs found residual, Forall (fun t => prose t.1 /\ find_sub close_tag (t.2 ++ close_tag) = Some (length t.2)) turns ->
    length cs = length turns -> (forall i t c, turns !! i = Some t -> cs !! i = Some c -> parse_envelope parse dump t.2 true (length found + i) = Some [c]) ->
    loop (length (render turns tail)) (render turns tail) found residual = (found ++ cs, residual ++ (turns ≫= fst) ++ tail)).
  { clear - Htail. induction turns as [|[p s] turns IH]; intros cs found residual Ht Hlen Hc.
    - destruct cs; [|done]. unfold render. cbn [mbind list_bind app]. pose proof (loop_prose tail Htail [] found residual) as H.
      rewrite !app_nil_r in H. rewrite H. cbn. by rewrite app_nil_r.
    - destruct cs as [|c cs]; [done|]. inversion_clear Ht as [|?? [Hp Hs] Ht']. unfold render in *. cbn [mbind list_bind fst snd] in *.
      rewrite <- !app_assoc, loop_prose by done. rewrite (loop_envelope s [c]); [|done|].
      + rewrite (IH cs); [by rewrite <- !app_assoc|done|by injection Hlen|]. intros i t d Hi Hd. rewrite length_app. cbn.
        replace (length found + 1 + i) with (length found + S i) by lia. by apply Hc.
      + rewrite <- (Nat.add_0_r (length found)). by apply (Hc 0 (p, s)). }
  rewrite (H turns cs [] []) by done. done.
Qed.
End Extraction.

(** ** A client puts the stream together again *)

(** What a client has read: reasoning, text, calls, and whether the stream has ended. *)
Record Client := mkClient { c_reasoning : bytes; c_content : bytes; c_calls : list ToolCallResult; c_finish : option bytes }.

Definition choice (j : json) : json := match get "choices" j with Some (JArray (c :: _)) => c | _ => JNull end.
Definition delta (j : json) : json := default JNull (get "delta" (choice j)).

(** A delta with an id opens a call; one without adds to the arguments of the call it names. *)
Definition absorb_call (calls : list ToolCallResult) (d : json) : list ToolCallResult :=
  let f := default JNull (get "function" d) in
  let args := default [] (get_string "arguments" f) in
  match get_string "id" d with
  | Some id => calls ++ [mkCall id (default [] (get_string "name" f)) args]
  | None => match get "index" d with
            | Some (JInteger k) => alter (fun c => mkCall (call_id c) (function_name c) (arguments_json c ++ args)) (Z.to_nat k) calls
            | _ => calls
            end
  end.

Definition absorb (c : Client) (j : json) : Client :=
  mkClient (c_reasoning c ++ default [] (get_string "reasoning_content" (delta j))) (c_content c ++ default [] (get_string "content" (delta j)))
    (match get "tool_calls" (delta j) with Some (JArray l) => foldl absorb_call (c_calls c) l | _ => c_calls c end)
    (match get_string "finish_reason" (choice j) with Some r => Some r | None => c_finish c end).

Section Reassembly.
Context (id model : bytes) (ts : Z).

Lemma absorb_frame c d fr : absorb c (frame id model ts d fr) =
  mkClient (c_reasoning c ++ default [] (get_string "reasoning_content" d)) (c_content c ++ default [] (get_string "content" d))
    (match get "tool_calls" d with Some (JArray l) => foldl absorb_call (c_calls c) l | _ => c_calls c end)
    (match fr with JString r => Some r | _ => c_finish c end).
Proof. by destruct fr. Qed.

Lemma absorb_call_frames c tc k : k = Z.of_nat (length (c_calls c)) ->
  foldl absorb c (call_frames id model ts k tc) = mkClient (c_reasoning c) (c_content c) (c_calls c ++ [tc]) (c_finish c).
Proof.
  intros ->. destruct c as [r t cs f], tc as [i n a]. unfold call_frames. rewrite foldl_app.
  transitivity (foldl absorb (mkClient r t (cs ++ [mkCall i n []]) f)
    (if bool_decide (a = []) then [] else [frame id model ts (JObject [key "tool_calls" (JArray [JObject [key "index" (JInteger (Z.of_nat (length cs)));
       key "function" (JObject [key "arguments" (jstr a)])]])]) JNull])).
  { f_equal. cbn [foldl]. rewrite absorb_frame. cbn. by rewrite !app_nil_r. }
  case_bool_decide; [by subst|]. cbn [foldl]. rewrite absorb_frame. 
  transitivity (mkClient (r ++ []) (t ++ [])
    (alter (fun c => mkCall (call_id c) (function_name c) (arguments_json c ++ a)) (Z.to_nat (Z.of_nat (length cs))) (cs ++ [mkCall i n []])) f); [reflexivity|].
  rewrite !app_nil_r, Nat2Z.id. rewrite <- (Nat.add_0_r (length cs)) at 1. by rewrite alter_app_r.
Qed.

Lemma absorb_all_frames tcs : forall c k, k = Z.of_nat (length (c_calls c)) ->
  foldl absorb c (all_call_frames id model ts k tcs) = mkClient (c_reasoning c) (c_content c) (c_calls c ++ tcs) (c_finish c).
Proof.
  induction tcs as [|tc tcs IH]; intros c k Hk; cbn [all_call_frames]; [destruct c; cbn; by rewrite app_nil_r|].
  rewrite foldl_app, (absorb_call_frames c tc k Hk), IH; cbn; [by rewrite <- app_assoc|]. rewrite length_app. cbn. lia.
Qed.

(** A client that puts the frames together has the reasoning, the text and the calls that
    were sent, whatever their number and arguments, and the stream says at its end, and only
    there, that it stops for tool calls. *)
Theorem stream_reassembled (tcs : list ToolCallResult) (reasoning content : bytes) :
  foldl absorb (mkClient [] [] [] None) (stream_frames id model ts tcs reasoning content) = mkClient reasoning content tcs (Some (bytes_of "tool_calls")) /\
  forall fs last, stream_frames id model ts tcs reasoning content = fs ++ [last] -> c_finish (foldl absorb (mkClient [] [] [] None) fs) = None.
Proof.
  assert (Ht : forall k v c, k = "reasoning_content"%string \/ k = "content"%string ->
    foldl absorb c (text_frame id model ts k v) =
    mkClient (c_reasoning c ++ if bool_decide (k = "content"%string) then [] else v) (c_content c ++ if bool_decide (k = "content"%string) then v else []) (c_calls c) (c_finish c)).
  { intros k v [r t cs f] Hk. unfold text_frame. case_bool_decide; [subst; cbn; case_bool_decide; cbn; by rewrite !app_nil_r|].
    cbn [foldl]. rewrite absorb_frame. destruct Hk as [-> | ->]; cbn; by rewrite ?app_nil_r. }
  assert (Hb : foldl absorb (mkClient [] [] [] None) (frame id model ts (JObject [key "role" (jstr (bytes_of "assistant")); key "content" JNull]) JNull ::
    text_frame id model ts "reasoning_content" reasoning ++ text_frame id model ts "content" content ++ all_call_frames id model ts 0 tcs) =
    mkClient reasoning content tcs None).
  { cbn [foldl]. rewrite absorb_frame, !foldl_app, !Ht by tauto. rewrite absorb_all_frames by reflexivity. cbn. by rewrite ?app_nil_r. }
  assert (Es : stream_frames id model ts tcs reasoning content = (frame id model ts (JObject [key "role" (jstr (bytes_of "assistant")); key "content" JNull]) JNull ::
    text_frame id model ts "reasoning_content" reasoning ++ text_frame id model ts "content" content ++ all_call_frames id model ts 0 tcs) ++
    [frame id model ts (JObject []) (jstr (bytes_of "tool_calls"))]) by (unfold stream_frames; cbn [app]; by rewrite <- !app_assoc).
  rewrite Es. split.
  - rewrite foldl_app, Hb. cbn [foldl]. rewrite absorb_frame. cbn. by rewrite !app_nil_r.
  - intros fs last E. apply app_inj_tail in E as [<- _]. by rewrite Hb.
Qed.
End Reassembly.

(** ** Examples *)

Definition demo_parse (s : bytes) : option json :=
  if named s "A" then Some (JObject [key "name" (jstr (bytes_of "run")); key "arguments" (JString (bytes_of "{}"))]) else None.

Lemma tagged_calls_found_witness :
  DetectToolCalls demo_parse (fun _ => []) (bytes_of "ok <tool_call>A</tool_call> done ") =
  mkExtraction [mkCall (bytes_of "call_run_0") (bytes_of "run") (bytes_of "{}")] (bytes_of "ok  done").
Proof.
  refine (tagged_calls_found demo_parse (fun _ => []) [(bytes_of "ok ", bytes_of "A")] (bytes_of " done ") [mkCall (bytes_of "call_run_0") (bytes_of "run") (bytes_of "{}")] _ _ eq_refl _).
  - constructor; [|constructor]. split; [repeat constructor; done|reflexivity].
  - repeat constructor; done.
  - intros [|i] t c Ht Hc; [|done]. injection Ht as <-. injection Hc as <-. reflexivity.
Defined.

(** An object that is not a call is kept whole, names inside it and all. *)
Example ordinary_object_kept :
  DetectToolCalls (fun _ => Some (JObject [key "name" (jstr (bytes_of "Alice"))])) (fun _ => []) (bytes_of "see {name: {x} }.") =
  mkExtraction [] (bytes_of "see {name: {x} }.").
Proof. reflexivity. Qed.
