(* ===== verification/HttpRequests.v ===== *)
(** * server/http/http_server.cpp: reading the bodies of requests

    The JSON body of a completion request becomes a [CompletionRequestPayload]
    with every field checked, clamped or left at its default; that of a tokenize
    request a list of inputs.  The JSON parser, its printer [dump], the conversion
    of number literals and the loading of images are parameters.  A JSON object is
    the list of its members in the order [items()] yields them. *)

From stdpp Require Import base tactics numbers list gmap strings pretty.
From Stdlib Require Import Ascii Floats.SpecFloat.
From S2P Require Import Prelude StringUtils Json Float64 HttpClient Media.

(** ** Strings *)

Definition HasPrefix (value prefix : bytes) : bool := starts_with prefix value.

Definition StripPrefix (value prefix : bytes) : bytes :=
  if HasPrefix value prefix then drop_while is_space (drop (length prefix) value) else value.

Definition IsDefaultModelAlias (model : bytes) : bool := named (ToLower model) "default".

(** [INFERFLUX_DISABLE_REASONING_SPLIT] *)
Definition ReasoningSplitDisabled (env : option bytes) : bool :=
  match env with None => false | Some v => negb (named v "0") && negb (named v "false") end.

Definition ParseNonNegativeEnvInt (env : option bytes) (default_value : Z) : Z :=
  match env with
  | None | Some [] => default_value
  | Some raw => match stoi raw with Some v => Z.max 0 v | None => default_value end
  end.

(** ** The data of a completion request *)

Record ChatMessage := mkMessage { role : bytes; content : bytes }.

Record ToolFunction := mkFunction { name : bytes; description : bytes; parameters : json }.

Record Tool := mkTool { type : bytes; function : ToolFunction }.

Record CompletionRequestPayload := mkPayload {
  prompt : bytes;
  model : bytes;
  session_id : bytes;
  client_request_id : bytes;
  max_tokens : Z;
  messages : list ChatMessage;
  stream : bool;
  json_mode : bool;
  tools : list Tool;
  first_tool_name : bytes;
  has_tool_schema : bool;
  tool_choice : bytes;
  tool_choice_function : bytes;
  has_images : bool;
  images : list Images.DecodedImage;
  has_response_format : bool;
  response_format_type : bytes;
  response_format_schema : bytes;
  response_format_grammar : bytes;
  response_format_root : bytes;
  response_format_ok : bool;
  response_format_error : bytes;
  logprobs : bool;
  top_logprobs : Z;
  temperature : float;
  top_p : float;
  top_k : Z;
  min_p : float;
  frequency_penalty : float;
  presence_penalty : float;
  repetition_penalty : float;
  seed : Z;
  logit_bias : gmap Z float;
  stop : list bytes;
  stream_include_usage : bool;
  n : Z;
  best_of : Z }.

Definition kMaxResponseFormatBytes : nat := 16 * 1024.

Definition no_seed : Z := (2 ^ 32 - 1)%Z.

(** A payload built from nothing: the default member initializers. *)
Definition default_payload : CompletionRequestPayload := {|
  prompt := []; model := bytes_of "unknown"; session_id := []; client_request_id := []; max_tokens := 256;
  messages := []; stream := false; json_mode := false; tools := []; first_tool_name := []; has_tool_schema := false;
  tool_choice := bytes_of "auto"; tool_choice_function := []; has_images := false; images := [];
  has_response_format := false; response_format_type := []; response_format_schema := []; response_format_grammar := [];
  response_format_root := bytes_of "root"; response_format_ok := true; response_format_error := [];
  logprobs := false; top_logprobs := 0; temperature := f_of_Z 1; top_p := f_of_Z 1; top_k := 0; min_p := f_of_Z 0;
  frequency_penalty := f_of_Z 0; presence_penalty := f_of_Z 0; repetition_penalty := f_of_Z 1; seed := no_seed;
  logit_bias := ∅; stop := []; stream_include_usage := false; n := 1; best_of := 1 |}.

(** ** Typed lookups: [j.contains(k) && j[k].is_...()], then the value *)

Definition as_integer (j : json) : option Z :=
  match j with JInteger z | JUnsigned z => Some z | _ => None end.

(** [is_number_integer] and [get<int>], which keeps the low 32 bits *)
Definition get_int (k : string) (j : json) : option Z := i32 <$> (get k j ≫= as_integer).
(** [get<uint32_t>] *)
Definition get_u32 (k : string) (j : json) : option Z := (fun z => z mod 2 ^ 32)%Z <$> (get k j ≫= as_integer).
Definition get_bool (k : string) (j : json) : option bool := match get k j with Some (JBool b) => Some b | _ => None end.

Definition get_object (k : string) (j : json) : option json :=
  match get k j with Some (JObject fields) => Some (JObject fields) | _ => None end.
Definition get_array (k : string) (j : json) : option (list json) :=
  match get k j with Some (JArray l) => Some l | _ => None end.

Definition is_some {A} (o : option A) : bool := match o with Some _ => true | None => false end.

(** ** The blocks of [ParseJsonPayload] *)

(** [logprobs], then [top_logprobs]. *)
Definition parse_logprobs (j : json) : bool * Z :=
  let '(lp, top) :=
    match get "logprobs" j with
    | Some (JBool b) => (b, 0%Z)
    | Some v => match as_integer v with
                | Some z => if (0 <? i32 z)%Z then (true, Z.min (i32 z) 20) else (false, 0%Z)
                | None => (false, 0%Z)
                end
    | None => (false, 0%Z)
    end in
  match get_int "top_logprobs" j with
  | Some k => let top' := Z.min (Z.max k 0) 20 in ((if (0 <? top')%Z then true else lp), top')
  | None => (lp, top)
  end.

Record ResponseFormat := mkFormat {
  rf_has : bool; rf_type : bytes; rf_json_mode : bool; rf_schema : bytes; rf_grammar : bytes; rf_root : bytes;
  rf_error : option bytes }.

Definition too_long (s : bytes) : bool := bool_decide (kMaxResponseFormatBytes < length s).

Section Parsing.
Context (parse : bytes -> bytes + json) (dump : json -> bytes).
(** The double that the JSON parser makes of a number literal. *)
Context (strtod : bytes -> double).
Context (http_get : bytes -> bytes + Z * bytes) (sha256 : bytes -> option (list Z)).

(** [is_number] and [get<float>] *)
Definition as_float (j : json) : option float :=
  match j with
  | JInteger z | JUnsigned z => Some (f_of_Z z)
  | JFloat literal => Some (f_of_d (strtod literal))
  | _ => None
  end.
Definition get_float (k : string) (j : json) : option float := get k j ≫= as_float.

Definition clamp_bias (bias : float) : float := dmax (f_of_Z (-100)) (dmin (f_of_Z 100) bias).

(** [std::stoi(key)] is called on the members that are numbers. *)
Fixpoint parse_logit_bias (members : list (bytes * json)) (m : gmap Z float) : outcome (gmap Z float) :=
  match members with
  | [] => Ret m
  | (key, value) :: members' =>
      match as_float value with
      | None => parse_logit_bias members' m
      | Some bias =>
          match stoi_throws key with
          | Ret token_id => parse_logit_bias members' (<[token_id := clamp_bias bias]> m)
          | Throw e => Throw e
          end
      end
  end.

Definition logit_bias_of (j : json) : outcome (gmap Z float) :=
  match get "logit_bias" j with Some (JObject members) => parse_logit_bias members ∅ | _ => Ret ∅ end.

(** The schema text that a [json_object] or [json_schema] format gives, and the error of one that is not an object. *)
Definition schema_of (rf : json) : bytes * option bytes :=
  let plain := match get "schema" rf with Some s => dump s | None => [] end in
  match get "json_schema" rf with
  | None => (plain, None)
  | Some (JObject fields) =>
      let js := JObject fields in
      match get_object "schema" js with
      | Some inner => if is_some (get "name" js) || is_some (get "strict" js) then (dump inner, None) else (dump js, None)
      | None => (dump js, None)
      end
  | Some _ => (plain, Some (bytes_of "response_format json_schema.schema must be a JSON object"))
  end.

Definition parse_response_format (rf : json) : ResponseFormat :=
  let root := bytes_of "root" in
  match get_string "type" rf with
  | None => mkFormat false [] false [] [] root (Some (bytes_of "response_format.type must be a string"))
  | Some ty =>
      if named ty "json_object" || named ty "json_schema" then
        let '(schema, err) := schema_of rf in
        let err := if too_long schema then Some (bytes_of "response_format schema exceeds 16KB limit") else err in
        let err := if named ty "json_schema" && bool_decide (schema = [])
                   then Some (bytes_of "response_format json_schema requires a schema definition") else err in
        mkFormat true ty true schema [] root err
      else if named ty "grammar" then
        let '(grammar, err) :=
          match get_string "grammar" rf with
          | Some g => (g, if too_long g then Some (bytes_of "response_format grammar exceeds 16KB limit") else None)
          | None => ([], Some (bytes_of "response_format grammar missing 'grammar' string"))
          end in
        mkFormat true ty false [] grammar (default root (get_string "root" rf)) err
      else if named ty "text" || bool_decide (ty = []) then mkFormat false ty false [] [] root None
      else mkFormat true ty false [] [] root (Some (bytes_of "Unsupported response_format.type '" ++ ty ++ bytes_of "'"))
  end.

Definition response_format_of (j : json) : ResponseFormat :=
  match get_object "response_format" j with
  | Some rf => parse_response_format rf
  | None => mkFormat false [] false [] [] (bytes_of "root") None
  end.

(** One message, and the images of its content. *)
Definition parse_message (msg : json) : ChatMessage * list Images.DecodedImage :=
  let role := default [] (get_string "role" msg) in
  match get "content" msg with
  | Some (JString s) => (mkMessage role s, [])
  | Some (JArray l) =>
      let mm := Images.ProcessContentArray parse http_get sha256 (dump (JArray l)) in
      (mkMessage role (Images.text mm), Images.images mm)
  | _ => (mkMessage role [], [])
  end.

Fixpoint parse_messages (l : list json) : list ChatMessage * list Images.DecodedImage :=
  match l with
  | [] => ([], [])
  | msg :: l' =>
      let '(m, imgs) := parse_message msg in
      let '(ms, imgs') := parse_messages l' in
      ((if bool_decide (role m = [] /\ content m = []) then ms else m :: ms), imgs ++ imgs')
  end.

Definition parse_tool (t : json) : option Tool :=
  match t with
  | JObject _ =>
      let fn := match get_object "function" t with
                | Some f => mkFunction (default [] (get_string "name" f)) (default [] (get_string "description" f))
                                       (default JNull (get "parameters" f))
                | None => mkFunction [] [] JNull
                end in
      if bool_decide (name fn = []) then None else Some (mkTool (default (bytes_of "function") (get_string "type" t)) fn)
  | _ => None
  end.

(** The choice and the function it asks for. *)
Definition parse_tool_choice (j : json) : bytes * bytes :=
  match get "tool_choice" j with
  | Some (JString s) => (s, [])
  | Some (JObject fields) =>
      (bytes_of "required", default [] (get_object "function" (JObject fields) ≫= get_string "name"))
  | _ => (bytes_of "auto", [])
  end.

(** The strings of an array, empty ones skipped, until there are four. *)
Fixpoint collect_stops (l : list json) (acc : list bytes) : list bytes :=
  match l with
  | [] => acc
  | JString s :: l' =>
      if bool_decide (s = []) then collect_stops l' acc
      else if bool_decide (4 <= length (acc ++ [s])) then acc ++ [s] else collect_stops l' (acc ++ [s])
  | _ :: l' => collect_stops l' acc
  end.

Definition parse_stop (j : json) : list bytes :=
  match get "stop" j with
  | Some (JString s) => [s]
  | Some (JArray l) => collect_stops l []
  | _ => []
  end.

Definition read_payload (j : json) : outcome CompletionRequestPayload :=
  match logit_bias_of j with
  | Throw e => Throw e
  | Ret bias =>
      let d := default_payload in
      let '(lp, top) := parse_logprobs j in
      let rf := response_format_of j in
      let '(ms, imgs) := parse_messages (default [] (get_array "messages" j)) in
      let ts := omap parse_tool (default [] (get_array "tools" j)) in
      let '(choice, choice_fn) := parse_tool_choice j in
      let n' := match get_int "n" j with Some k => Z.min (Z.max k 1) 10 | None => n d end in
      let best := match get_int "best_of" j with Some k => Z.min (Z.max k 1) 20 | None => best_of d end in
      Ret {|
        prompt := default (prompt d) (get_string "prompt" j);
        model := default (model d) (get_string "model" j);
        session_id := default (session_id d) (get_string "session_id" j);
        client_request_id := default (client_request_id d) (get_string "client_request_id" j);
        max_tokens := default (default (max_tokens d) (get_int "max_tokens" j)) (get_int "max_completion_tokens" j);
        messages := ms;
        stream := default (stream d) (get_bool "stream" j);
        json_mode := rf_json_mode rf;
        tools := ts;
        first_tool_name := match ts with t :: _ => name (function t) | [] => [] end;
        has_tool_schema := is_some (get_array "tools" j);
        tool_choice := choice;
        tool_choice_function := choice_fn;
        has_images := negb (bool_decide (length imgs = 0));
        images := imgs;
        has_response_format := rf_has rf;
        response_format_type := rf_type rf;
        response_format_schema := rf_schema rf;
        response_format_grammar := rf_grammar rf;
        response_format_root := rf_root rf;
        response_format_ok := negb (is_some (rf_error rf));
        response_format_error := default [] (rf_error rf);
        logprobs := lp;
        top_logprobs := top;
        temperature := default (temperature d) (get_float "temperature" j);
        top_p := default (top_p d) (get_float "top_p" j);
        top_k := default (top_k d) (get_int "top_k" j);
        min_p := default (min_p d) (get_float "min_p" j);
        frequency_penalty := default (frequency_penalty d) (get_float "frequency_penalty" j);
        presence_penalty := default (presence_penalty d) (get_float "presence_penalty" j);
        repetition_penalty := default (repetition_penalty d) (get_float "repetition_penalty" j);
        seed := default (seed d) (get_u32 "seed" j);
        logit_bias := bias;
        stop := parse_stop j;
        stream_include_usage := default (stream_include_usage d) (get_object "stream_options" j ≫= get_bool "include_usage");
        n := n';
        best_of := if (best <? n')%Z then n' else best |}
  end.

(** Only [json::exception] is caught: what [std::stoi] throws leaves the function. *)
Definition ParseJsonPayload (body : bytes) : outcome CompletionRequestPayload :=
  if bool_decide (body = []) then Ret default_payload
  else match parse body with
       | inl _ => Ret default_payload
       | inr j => read_payload j
       end.

Definition ParseJsonStringField (body : bytes) (field : string) : bytes :=
  match parse body with inr j => default [] (get_string field j) | inl _ => [] end.

(** ** Tokenize requests *)

Record TokenizeRequest := mkTokenize { tk_ok : bool; tk_model : bytes; tk_inputs : list bytes; tk_error : bytes }.

(** The strings of [input], in order. *)
Definition input_strings (j : json) : list bytes :=
  match get "input" j with
  | Some (JString s) => [s]
  | Some (JArray l) => omap (fun item => match item with JString s => Some s | _ => None end) l
  | _ => []
  end.

Definition ParseTokenizeRequest (body : bytes) : TokenizeRequest :=
  if bool_decide (body = []) then mkTokenize false [] [] (bytes_of "request body is required")
  else match parse body with
       | inl _ => mkTokenize false [] [] (bytes_of "invalid JSON body")
       | inr j =>
           let model := default [] (get_string "model" j) in
           let inputs := input_strings j in
           if bool_decide (inputs = []) then mkTokenize false model [] (bytes_of "input is required")
           else mkTokenize true model inputs []
       end.

(** ** Prompts *)

Definition message_line (m : ChatMessage) : bytes :=
  (if bool_decide (role m = []) then bytes_of "user" else role m) ++ bytes_of ": " ++ content m.

Definition FlattenMessages (messages : list ChatMessage) : bytes :=
  foldl (fun prompt m => (if bool_decide (prompt = []) then prompt else prompt ++ [nl]) ++ message_line m) [] messages.

(** nlohmann's [empty()]: null, and containers without members. *)
Definition json_empty (j : json) : bool :=
  match j with JNull | JArray [] | JObject [] => true | _ => false end.

Definition tool_line (t : Tool) : bytes :=
  bytes_of "- " ++ name (function t) ++
  (if bool_decide (description (function t) = []) then [] else bytes_of ": " ++ description (function t)) ++ [nl] ++
  (if json_empty (parameters (function t)) then [] else bytes_of "  Parameters: " ++ dump (parameters (function t)) ++ [nl]).

(** The double quote *)
Definition dq : ascii := chr 34.
Definition quoted (s : string) : bytes := [dq] ++ bytes_of s ++ [dq].

Definition call_protocol : bytes :=
  bytes_of "{" ++ quoted "tool_call" ++ bytes_of ":{" ++ quoted "name" ++ bytes_of ":" ++ quoted "<function_name>" ++
  bytes_of "," ++ quoted "arguments" ++ bytes_of ":{<args>}}}" ++ [nl].

Definition BuildToolSystemPrompt (tools : list Tool) (required_function : bytes) : bytes :=
  bytes_of "You have access to the following tools:" ++ [nl; nl] ++
  (tools ≫= tool_line) ++
  [nl] ++ bytes_of "When you want to call a tool, respond with ONLY this JSON (no other text):" ++ [nl] ++
  call_protocol ++
  (if bool_decide (required_function = []) then []
   else [nl] ++ bytes_of "You MUST call the function named '" ++ required_function ++
        bytes_of "'. Do not call any other function and do not respond with plain text.").
End Parsing.

(** ** What a request that is read satisfies *)

Definition bias_ok (token_id : Z) (b : float) : Prop :=
  in_int token_id /\ dltb b (f_of_Z (-100)) = false /\ dltb (f_of_Z 100) b = false.

(** A structured-output request that is let through. *)
Record format_ok (p : CompletionRequestPayload) : Prop := {
  fo_schema : length (response_format_schema p) <= kMaxResponseFormatBytes;
  fo_grammar : length (response_format_grammar p) <= kMaxResponseFormatBytes;
  fo_required : response_format_type p = bytes_of "json_schema" -> response_format_schema p <> [];
  fo_type : has_response_format p = true -> one_of (response_format_type p) ["json_object"; "json_schema"; "grammar"] = true;
  fo_json : json_mode p = true -> has_response_format p = true;
  fo_no_error : response_format_error p = [] }.

Record payload_ok (p : CompletionRequestPayload) : Prop := {
  po_top_logprobs : (0 <= top_logprobs p <= 20)%Z;
  po_logprobs : (0 < top_logprobs p)%Z -> logprobs p = true;
  po_n : (1 <= n p <= 10)%Z;
  po_best_of : (n p <= best_of p <= 20)%Z;
  po_stop : length (stop p) <= 4;
  po_max_tokens : in_int (max_tokens p);
  po_seed : (0 <= seed p < 2 ^ 32)%Z;
  po_bias : map_Forall bias_ok (logit_bias p);
  po_images : has_images p = true <-> images p <> [];
  po_messages : Forall (fun m => role m <> [] \/ content m <> []) (messages p);
  po_tools : Forall (fun t => name (function t) <> []) (tools p);
  po_first_tool : first_tool_name p = default [] ((fun t => name (function t)) <$> head (tools p));
  po_format : response_format_ok p = true -> format_ok p }.

Lemma in_int_i32 z : in_int (i32 z).
Proof. apply i32_range. Qed.

Lemma default_in_int (o : option Z) d : in_int d -> in_int (default d (i32 <$> o)).
Proof. destruct o; simpl; [intros _; apply in_int_i32|done]. Qed.

Lemma clamp_bias_ok b : dltb (clamp_bias b) (f_of_Z (-100)) = false /\ dltb (f_of_Z 100) (clamp_bias b) = false.
Proof. by apply clamp_between. Qed.

Lemma stoi_throws_int s z : stoi_throws s = Ret z -> in_int z.
Proof. unfold stoi_throws, in_int. repeat case_match; intros; simplify_eq. lia. Qed.

Lemma collect_stops_le l acc : length acc <= 3 -> length (collect_stops l acc) <= 4.
Proof.
  revert acc. induction l as [|j l IH]; intros acc Ha; simpl; [lia|].
  destruct j; try (by apply IH). case_bool_decide; [by apply IH|].
  rewrite length_app. simpl. case_bool_decide; rewrite ?length_app; simpl; [lia|]. apply IH. rewrite length_app. simpl. lia.
Qed.

Lemma parse_logprobs_ok j : let '(lp, top) := parse_logprobs j in (0 <= top <= 20)%Z /\ ((0 < top)%Z -> lp = true).
Proof.
  unfold parse_logprobs, get_int.
  assert (H : let '(lp, top) := match get "logprobs" j with
    | Some (JBool b) => (b, 0%Z)
    | Some v => match as_integer v with
                | Some z => if (0 <? i32 z)%Z then (true, Z.min (i32 z) 20) else (false, 0%Z)
                | None => (false, 0%Z)
                end
    | None => (false, 0%Z)
    end in (0 <= top <= 20)%Z /\ ((0 < top)%Z -> lp = true)).
  { destruct (get "logprobs" j) as [[]|]; simpl; repeat case_match; simplify_eq; split; try done; lia. }
  destruct (match get "logprobs" j with Some _ => _ | None => _ end) as [lp top].
  destruct (get "top_logprobs" j ≫= as_integer); simpl; [|done].
  split; [lia|]. intros. case_match; [done|lia].
Qed.

Section Bounds.
Context (parse : bytes -> bytes + json) (dump : json -> bytes) (strtod : bytes -> double).
Context (http_get : bytes -> bytes + Z * bytes) (sha256 : bytes -> option (list Z)).

Lemma parse_logit_bias_ok ms m m' :
  parse_logit_bias strtod ms m = Ret m' -> map_Forall bias_ok m -> map_Forall bias_ok m'.
Proof.
  revert m. induction ms as [|[k v] ms IH]; intros m; simpl; [intros; by simplify_eq|].
  destruct (as_float strtod v) as [b|]; [|by apply IH].
  destruct (stoi_throws k) as [t|e] eqn:E; [|done]. intros H Hm. eapply IH; [exact H|].
  apply map_Forall_insert_2; [|done]. split; [by eapply stoi_throws_int|apply clamp_bias_ok].
Qed.

(** The members whose key [std::stoi] rejects although their value is a number. *)
Definition bad_member (kv : bytes * json) : Prop := is_Some (as_float strtod kv.2) /\ stoi kv.1 = None.

Lemma stoi_throws_stoi s : (exists e, stoi_throws s = Throw e) <-> stoi s = None.
Proof.
  unfold stoi_throws, stoi. destruct (scan_int s) as [[v t]|]; simpl; [|naive_solver].
  destruct ((- 2 ^ 31 <=? v)%Z && (v <? 2 ^ 31)%Z); naive_solver.
Qed.

Lemma parse_logit_bias_throws ms m :
  (exists e, parse_logit_bias strtod ms m = Throw e) <-> Exists bad_member ms.
Proof.
  revert m. induction ms as [|[k v] ms IH]; intros m; simpl.
  { rewrite Exists_nil. naive_solver. }
  rewrite Exists_cons. unfold bad_member at 1. simpl. destruct (as_float strtod v) as [b|].
  - rewrite <- stoi_throws_stoi. destruct (stoi_throws k) as [t|e]; [rewrite IH|]; naive_solver.
  - rewrite IH. split; [by right|]. by intros [[[? ?] _]|].
Qed.

Lemma logit_bias_throws j :
  (exists e, logit_bias_of strtod j = Throw e) <->
  exists members, get "logit_bias" j = Some (JObject members) /\ Exists bad_member members.
Proof.
  unfold logit_bias_of. destruct (get "logit_bias" j) as [[]|]; try naive_solver.
  rewrite parse_logit_bias_throws. naive_solver.
Qed.

Lemma read_payload_throws j :
  (exists e, read_payload parse dump strtod http_get sha256 j = Throw e) <-> exists e, logit_bias_of strtod j = Throw e.
Proof.
  unfold read_payload. destruct (logit_bias_of strtod j); [|naive_solver].
  destruct (parse_logprobs j), (parse_messages _ _ _ _ _), (parse_tool_choice j). by split; intros [? ?].
Qed.

Lemma parse_messages_ok l :
  Forall (fun m => role m <> [] \/ content m <> []) (parse_messages parse dump http_get sha256 l).1.
Proof.
  induction l as [|msg l IH]; simpl; [constructor|].
  destruct (parse_message _ _ _ _ msg) as [m imgs], (parse_messages _ _ _ _ l) as [ms imgs']. simpl in *.
  case_bool_decide as E; [done|]. constructor; [|done].
  destruct (decide (role m = [])); [right|by left]. intros ?. by apply E.
Qed.

Lemma parse_tools_ok l : Forall (fun t => name (function t) <> []) (omap parse_tool l).
Proof.
  induction l as [|j l IH]; simpl; [constructor|].
  destruct (parse_tool j) as [t|] eqn:E; simpl; [|done]. constructor; [|done].
  unfold parse_tool in E. repeat case_match; simplify_eq; simpl in *; by case_bool_decide.
Qed.

(** The fields of a payload that the response format decides. *)
Definition rf_ok (rf : ResponseFormat) : Prop :=
  rf_error rf = None ->
  length (rf_schema rf) <= kMaxResponseFormatBytes /\ length (rf_grammar rf) <= kMaxResponseFormatBytes /\
  (rf_type rf = bytes_of "json_schema" -> rf_schema rf <> []) /\
  (rf_has rf = true -> one_of (rf_type rf) ["json_object"; "json_schema"; "grammar"] = true) /\
  (rf_json_mode rf = true -> rf_has rf = true).

Lemma not_too_long s : too_long s = false -> length s <= kMaxResponseFormatBytes.
Proof. unfold too_long. case_bool_decide; [done|]. lia. Qed.

Lemma named_true s t : named s t = true <-> s = bytes_of t.
Proof. apply bool_decide_eq_true. Qed.

Lemma schema_format_ok rf ty :
  named ty "json_object" || named ty "json_schema" = true ->
  get_string "type" rf = Some ty -> rf_ok (parse_response_format dump rf).
Proof.
  intros Ht E He. unfold parse_response_format in *. rewrite E, Ht in *.
  destruct (schema_of dump rf) as [schema err]. cbn [rf_error rf_schema rf_grammar rf_type rf_has rf_json_mode] in *.
  destruct (named ty "json_schema" && bool_decide (schema = [])) eqn:E1; [done|].
  destruct (too_long schema) eqn:E2; [done|]. split_and!; [by apply not_too_long|apply Nat.le_0_l| | |done].
  - intros Hty. apply named_true in Hty. rewrite Hty in E1. by case_bool_decide.
  - intros _. unfold one_of. simpl. by rewrite orb_assoc, Ht.
Qed.

Lemma parse_response_format_ok rf : rf_ok (parse_response_format dump rf).
Proof.
  destruct (get_string "type" rf) as [ty|] eqn:E; [|unfold rf_ok, parse_response_format; by rewrite E].
  destruct (named ty "json_object" || named ty "json_schema") eqn:Ht; [by eapply schema_format_ok|].
  intros He. unfold parse_response_format in *. rewrite E, Ht in *. apply orb_false_iff in Ht as [_ Hs].
  assert (Hz : 0 <= kMaxResponseFormatBytes) by lia.
  assert (Hn : ty <> bytes_of "json_schema") by (intros ->; by rewrite (proj2 (named_true _ _) eq_refl) in Hs).
  destruct (named ty "grammar") eqn:Hg.
  - destruct (get_string "grammar" rf) as [g|]; [|done]. destruct (too_long g) eqn:El; [done|].
    simpl. split_and!; [done|by apply not_too_long|done| |done]. intros _. unfold one_of. simpl. by rewrite Hg, !orb_true_r.
  - by destruct (named ty "text" || bool_decide (ty = [])).
Qed.

Lemma response_format_of_ok j : rf_ok (response_format_of dump j).
Proof.
  unfold response_format_of. destruct (get_object "response_format" j); [apply parse_response_format_ok|].
  intros _. split_and!; (apply Nat.le_0_l || done).
Qed.

Lemma rf_payload_ok rf p :
  rf_ok rf -> json_mode p = rf_json_mode rf -> has_response_format p = rf_has rf -> response_format_type p = rf_type rf ->
  response_format_schema p = rf_schema rf -> response_format_grammar p = rf_grammar rf ->
  response_format_ok p = negb (is_some (rf_error rf)) -> response_format_error p = default [] (rf_error rf) ->
  response_format_ok p = true -> format_ok p.
Proof.
  intros Hrf Hj Hh Ht Hs Hg Hok He. rewrite Hok. intros Hn. destruct (rf_error rf) eqn:E; [done|].
  destruct (Hrf E) as (?&?&?&?&?). split; rewrite ?Hj, ?Hh, ?Ht, ?Hs, ?Hg, ?He; done.
Qed.

Lemma default_payload_ok : payload_ok default_payload.
Proof.
  split; try (cbn; lia || done || constructor; fail).
  intros _. split; try done; apply Nat.le_0_l.
Qed.

Lemma read_payload_ok j p :
  read_payload parse dump strtod http_get sha256 j = Ret p -> payload_ok p.
Proof.
  unfold read_payload.
  destruct (logit_bias_of strtod j) as [bias|e] eqn:Eb; [|done].
  assert (Hbias : map_Forall bias_ok bias).
  { unfold logit_bias_of in Eb. destruct (get "logit_bias" j) as [[]|]; simplify_eq; try done. by eapply parse_logit_bias_ok; [|apply map_Forall_empty]. }
  pose proof (parse_logprobs_ok j) as Hlp. destruct (parse_logprobs j) as [lp top].
  pose proof (parse_messages_ok (default [] (get_array "messages" j))) as Hm.
  destruct (parse_messages _ _ _ _ _) as [ms imgs]. destruct (parse_tool_choice j) as [choice choice_fn].
  intros H. simplify_eq. destruct Hlp as [Hlp1 Hlp2]. split; cbn [top_logprobs logprobs n best_of stop max_tokens seed logit_bias
    has_images images messages tools first_tool_name]; try done.
  - destruct (get_int "n" j); simpl; lia.
  - destruct (get_int "n" j), (get_int "best_of" j); cbn [n best_of default_payload]; clear Eb; case_match; lia.
  - unfold parse_stop. destruct (get "stop" j) as [[]|]; simpl; try lia. apply collect_stops_le. simpl. lia.
  - unfold get_int. do 2 apply default_in_int. split; simpl; lia.
  - unfold get_u32. destruct (get "seed" j ≫= as_integer); simpl; [apply Z.mod_pos_bound; lia|unfold no_seed; lia].
  - rewrite negb_true_iff, bool_decide_eq_false. destruct imgs; simpl; split; (done || lia).
  - apply parse_tools_ok.
  - by destruct (omap parse_tool _).
  - by apply (rf_payload_ok (response_format_of dump j)); [apply response_format_of_ok|..].
Qed.

(** C28: whatever the body of a completion request is, the payload read from it
    respects the limits the server relies on: [top_logprobs] is between 0 and 20,
    and [logprobs] is on when it is positive; 1 to 10 completions are asked for,
    from at least as many and at most 20 candidates; there are at most four stop
    strings; every bias is between -100 and 100; no message and no tool is
    nameless and empty; a structured-output request that is let through has a
    supported type, and a schema or grammar of at most 16 KB. *)
Theorem request_payload_ok body p :
  ParseJsonPayload parse dump strtod http_get sha256 body = Ret p -> payload_ok p.
Proof.
  unfold ParseJsonPayload. case_bool_decide; [intros; simplify_eq; apply default_payload_ok|].
  destruct (parse body) as [w|j]; [intros; simplify_eq; apply default_payload_ok|apply read_payload_ok].
Qed.

(** Reading a completion request ends with an exception exactly when its
    [logit_bias] has a numeric member whose name is not a number of type [int]. *)
Theorem request_payload_throws body :
  (exists e, ParseJsonPayload parse dump strtod http_get sha256 body = Throw e) <->
  body <> [] /\ exists j members, parse body = inr j /\ get "logit_bias" j = Some (JObject members) /\ Exists bad_member members.
Proof.
  unfold ParseJsonPayload. case_bool_decide as Eb; [naive_solver|].
  destruct (parse body) as [w|j]; [naive_solver|]. rewrite read_payload_throws, logit_bias_throws. naive_solver.
Qed.
End Bounds.

(** ** Prompts made from messages *)

Fixpoint join_lines (lines : list bytes) : bytes :=
  match lines with
  | [] => []
  | [l] => l
  | l :: lines' => l ++ [nl] ++ join_lines lines'
  end.

Lemma message_line_nonempty m : message_line m <> [].
Proof. unfold message_line. case_bool_decide; [done|]. by destruct (role m). Qed.

Lemma join_lines_snoc lines l : lines <> [] -> join_lines (lines ++ [l]) = join_lines lines ++ [nl] ++ l.
Proof.
  induction lines as [|a lines IH]; [done|]. intros _. destruct lines as [|b lines]; [done|].
  change (join_lines ((a :: b :: lines) ++ [l])) with (a ++ [nl] ++ join_lines ((b :: lines) ++ [l])).
  rewrite IH by done. change (join_lines (a :: b :: lines)) with (a ++ [nl] ++ join_lines (b :: lines)).
  by rewrite <- !(assoc_L (++)).
Qed.

Lemma join_lines_nil lines : Forall (fun l => l <> []) lines -> join_lines lines = [] -> lines = [].
Proof. destruct lines as [|a [|b lines]]; [done|..]; rewrite Forall_cons; intros [Ha _]; [done|]. by destruct a. Qed.

(** The flat prompt is the messages, one per line, each under its role. *)
Lemma FlattenMessages_lines ms : FlattenMessages ms = join_lines (message_line <$> ms).
Proof.
  unfold FlattenMessages. induction ms as [|m ms IH] using rev_ind; [done|].
  rewrite foldl_snoc, fmap_app, IH. cbn [fmap list_fmap].
  assert (Hne : Forall (fun l => l <> []) (message_line <$> ms)) by (rewrite Forall_fmap; apply Forall_forall; intros; apply message_line_nonempty).
  case_bool_decide as E.
  - apply join_lines_nil in E; [|done]. by rewrite E.
  - rewrite join_lines_snoc, <- (assoc_L (++)); [done|]. intros E'. by rewrite E' in E.
Qed.

(** ** Concrete requests *)
Module Demo.
Definition str (s : string) : json := JString (bytes_of s).
Definition field (k : string) (j : json) : bytes * json := (bytes_of k, j).

Definition body : json := JObject [
  field "messages" (JArray [JObject [field "role" (str "user"); field "content" (str "hi")]]);
  field "n" (JInteger 50); field "top_logprobs" (JInteger 99);
  field "stop" (JArray [str "a"; str ""; str "b"; str "c"; str "d"; str "e"]);
  field "logit_bias" (JObject [field "7" (JInteger 1000)]);
  field "response_format" (JObject [field "type" (str "json_schema");
    field "json_schema" (JObject [field "name" (str "s"); field "schema" (JObject [])])])].

Definition parse (j : json) (_ : bytes) : bytes + json := inr j.
Definition dump (_ : json) : bytes := bytes_of "{}".
Definition strtod (_ : bytes) : double := d_of_Z 0.
Definition offline (_ : bytes) : bytes + Z * bytes := inl [].
Definition no_hash (_ : bytes) : option (list Z) := None.
Definition read (j : json) : outcome CompletionRequestPayload :=
  ParseJsonPayload (parse j) dump strtod offline no_hash (bytes_of "x").
Definition payload : CompletionRequestPayload :=
  match read body with Ret p => p | Throw _ => default_payload end.
End Demo.

Lemma request_payload_ok_witness :
  n Demo.payload = 10%Z /\ best_of Demo.payload = 10%Z /\ length (stop Demo.payload) = 4 /\
  logit_bias Demo.payload !! 7%Z = Some (f_of_Z 100) /\ payload_ok Demo.payload.
Proof.
  split_and!; [by vm_compute..|].
  by apply (request_payload_ok (Demo.parse Demo.body) Demo.dump Demo.strtod Demo.offline Demo.no_hash (bytes_of "x")).
Defined.

(** A member named by a word. *)
Example logit_bias_word_throws :
  Demo.read (JObject [Demo.field "logit_bias" (JObject [Demo.field "hello" (JInteger 1)])]) = Throw (invalid_argument "stoi").
Proof. reflexivity. Qed.
