(* ===== verification/HttpFrames.v ===== *)
(** * server/http/http_server.cpp: responses and stream frames

    Responses, error bodies, the server-sent events of a stream (the fixed-schema
    builder, the JSON builder and the chunker that batches pieces), and the body
    of a buffered completion.  The printer of JSON values is a parameter; a
    reference printer and a reference reader of JSON strings say what the
    hand-written frames mean. *)

From stdpp Require Import base tactics numbers list strings pretty.
From Stdlib Require Import Ascii Floats.SpecFloat.
From S2P Require Import ChatTemplate ResponseSplitter Prelude Float64 StringUtils Json ToolCalls.
From S2P Require HttpClient HttpRequests.

Abbreviation crlf := HttpClient.crlf.
Abbreviation dq := HttpRequests.dq.
Abbreviation quoted := HttpRequests.quoted.
Abbreviation Payload := HttpRequests.CompletionRequestPayload.

Definition number (z : Z) : bytes := bytes_of (pretty z).
Definition text (s : string) : json := jstr (bytes_of s).

(** ** Responses *)

Definition BuildResponse (body : bytes) (status : Z) (status_text : string) (extra_headers : bytes) : bytes :=
  bytes_of "HTTP/1.1 " ++ number status ++ bytes_of " " ++ bytes_of status_text ++ crlf ++
  bytes_of "Content-Type: application/json" ++ crlf ++
  bytes_of "Access-Control-Allow-Origin: *" ++ crlf ++
  bytes_of "Connection: keep-alive" ++ crlf ++
  extra_headers ++
  bytes_of "Content-Length: " ++ number (Z.of_nat (length body)) ++ crlf ++ crlf ++ body.

(** The OpenAI error envelope, before [dump]. *)
Definition error_json (error : bytes) : json :=
  JObject [key "error" (JObject [key "message" (jstr error); key "type" (text "inferflux_error"); key "code" (jstr error)])].

(** The counts, and their sum in an [int]. *)
Definition tokenize_json (model : bytes) (token_counts : list Z) : json :=
  JObject [key "object" (text "tokenize"); key "model" (jstr model); key "tokens" (JArray (JInteger <$> token_counts));
    key "input_tokens" (JInteger (foldl (fun total count => i32 (total + count)) 0%Z token_counts))].

Definition api_keys_json (keys : list (bytes * list bytes)) : json :=
  JObject [key "api_keys" (JArray ((fun '(k, scopes) => JObject [key "key" (jstr k); key "scopes" (JArray (jstr <$> scopes))]) <$> keys))].

(** [None]: no value. *)
Definition OptionalIntToJson (value : option Z) : json := match value with Some z => JInteger z | None => JNull end.

(** ** Splitting a text at white space *)

Fixpoint split_stream (s current : bytes) : list bytes :=
  match s with
  | [] => if bool_decide (current = []) then [] else [current]
  | c :: s' => if is_space c then (current ++ [c]) :: split_stream s' [] else split_stream s' (current ++ [c])
  end.

Definition SplitForStreaming (s : bytes) : list bytes :=
  let chunks := split_stream s [] in if bool_decide (chunks = []) then [s] else chunks.

(** ** Strings in hand-written frames *)

Definition escape_char (c : ascii) : bytes :=
  let v := byte_val c in
  if bool_decide (c = dq) then [chr 92; dq]
  else if bool_decide (c = chr 92) then [chr 92; chr 92]
  else if (v =? 8)%Z then [chr 92; "b"%char]
  else if (v =? 12)%Z then [chr 92; "f"%char]
  else if (v =? 10)%Z then [chr 92; "n"%char]
  else if (v =? 13)%Z then [chr 92; "r"%char]
  else if (v =? 9)%Z then [chr 92; "t"%char]
  else if (v <? 32)%Z then [chr 92; "u"%char; "0"%char; "0"%char; hex_digit (Z.shiftr v 4); hex_digit (Z.land v 15)]
  else [c].

Definition AppendJsonEscaped (out s : bytes) : bytes := out ++ (s ≫= escape_char).

Definition data_frame (j : bytes) : bytes := bytes_of "data: " ++ j ++ [nl; nl].

Section Frames.
Context (id model : bytes) (ts : Z).

(** The members before the content, as both hand-written builders print them. *)
Definition frame_head (object : string) : bytes :=
  let out := AppendJsonEscaped (bytes_of "{" ++ quoted "id" ++ bytes_of ":" ++ [dq]) id in
  let out := out ++ [dq] ++ bytes_of "," ++ quoted "object" ++ bytes_of ":" ++ quoted object ++ bytes_of "," ++ quoted "created" ++ bytes_of ":" in
  let out := out ++ number ts in
  AppendJsonEscaped (out ++ bytes_of "," ++ quoted "model" ++ bytes_of ":" ++ [dq]) model.

Definition choices_head : bytes :=
  [dq] ++ bytes_of "," ++ quoted "choices" ++ bytes_of ":[{" ++ quoted "index" ++ bytes_of ":0,".

Definition BuildStreamChunkFast (content : bytes) (chat_mode : bool) : bytes :=
  let out := frame_head (if chat_mode then "chat.completion.chunk" else "text_completion") ++ choices_head in
  let out := out ++ (if chat_mode then quoted "delta" ++ bytes_of ":{" ++ quoted "content" ++ bytes_of ":" ++ [dq]
                     else quoted "text" ++ bytes_of ":" ++ [dq]) in
  let out := AppendJsonEscaped out content in
  data_frame (out ++ (if chat_mode then [dq] ++ bytes_of "}," ++ quoted "finish_reason" ++ bytes_of ":null}]}"
                      else [dq] ++ bytes_of "," ++ quoted "logprobs" ++ bytes_of ":null," ++ quoted "finish_reason" ++ bytes_of ":null}]}")).

Definition BuildStreamReasoningChunkFast (reasoning : bytes) : bytes :=
  let out := frame_head "chat.completion.chunk" ++ choices_head ++ quoted "delta" ++ bytes_of ":{" ++ quoted "reasoning_content" ++ bytes_of ":" ++ [dq] in
  data_frame (AppendJsonEscaped out reasoning ++ [dq] ++ bytes_of "}," ++ quoted "finish_reason" ++ bytes_of ":null}]}").
End Frames.

(** ** SseStreamChunker *)

Record SseStreamChunker := mkChunker { chat_mode : bool; flush_tokens : Z; flush_bytes : Z; buf : bytes; pieces_in_buf : Z }.

(** [std::atoll]: 0 when there is no number, the nearest [long] when it does not fit.  [std::atoi] is its low 32 bits. *)
Definition atoll (s : bytes) : Z := match scan_int s with Some (v, _) => clamp_long v | None => 0%Z end.

Definition FromEnv (tokens bytes_env : option bytes) : SseStreamChunker :=
  mkChunker true
    (match tokens with Some t => Z.max 1 (i32 (atoll t)) | None => 1%Z end)
    (match bytes_env with Some b => Z.max 1 (u64 (atoll b)) | None => 4096%Z end) [] 0.

Definition Append (piece : bytes) (c : SseStreamChunker) : SseStreamChunker :=
  mkChunker (chat_mode c) (flush_tokens c) (flush_bytes c) (buf c ++ piece) (i32 (pieces_in_buf c + 1)).

Definition ShouldFlush (c : SseStreamChunker) : bool :=
  (flush_tokens c <=? pieces_in_buf c)%Z || (flush_bytes c <=? Z.of_nat (length (buf c)))%Z.

Definition Empty (c : SseStreamChunker) : bool := bool_decide (buf c = []).

Definition TakeFrame (id model : bytes) (ts : Z) (c : SseStreamChunker) : SseStreamChunker * bytes :=
  (mkChunker (chat_mode c) (flush_tokens c) (flush_bytes c) [] 0, BuildStreamChunkFast id model ts (buf c) (chat_mode c)).

(** ** Token log-probabilities *)

Record TokenLogprob := mkLogprob { token : bytes; logprob : float; token_bytes : list Z; top_logprobs : list (bytes * float) }.

(** The result of a request, as the server reads it. *)
Record InferenceResult := mkResult {
  model_id : bytes; completion : bytes; completion_tokens : Z; prompt_tokens : Z; no_backend : bool; finish_reason_length : bool;
  logprobs : list TokenLogprob; cached_prompt_tokens : Z; duration_ms : double; time_to_first_token_ms : double;
  reasoning_content : bytes; reasoning_tokens : Z }.

Section Json.
(** The JSON number of a [float] or [double]. *)
Context (num : spec_float -> json).

Definition alternative_json (alt : bytes * float) : json :=
  JObject [key "token" (jstr alt.1); key "logprob" (num alt.2); key "bytes" (JArray ((fun c => JInteger (byte_val c)) <$> alt.1))].

Definition logprob_json (tlp : TokenLogprob) : json :=
  JObject [key "token" (jstr (token tlp)); key "logprob" (num (logprob tlp)); key "bytes" (JArray (JInteger <$> token_bytes tlp));
    key "top_logprobs" (JArray (alternative_json <$> top_logprobs tlp))].

(** [alt_map[alt_tok] = alt_lp]: a later entry replaces an earlier one of the same token. *)
Fixpoint set_member (k : bytes) (v : json) (fields : list (bytes * json)) : list (bytes * json) :=
  match fields with
  | [] => [(k, v)]
  | (k', v') :: fields' => if bool_decide (k = k') then (k', v) :: fields' else (k', v') :: set_member k v fields'
  end.

Definition BuildLogprobsJson (lps : list TokenLogprob) (chat_mode : bool) : json :=
  match lps with
  | [] => JNull
  | _ =>
      if chat_mode then JObject [key "content" (JArray (logprob_json <$> lps))]
      else JObject [key "tokens" (JArray ((fun t => jstr (token t)) <$> lps)); key "token_logprobs" (JArray ((fun t => num (logprob t)) <$> lps));
             key "top_logprobs" (JArray ((fun t => JObject (foldl (fun m alt => set_member alt.1 (num alt.2) m) [] (top_logprobs t))) <$> lps))]
  end.

(** ** BuildStreamChunk: the value that is printed *)

Definition chunk_json (id model : bytes) (ts : Z) (choice : list (bytes * json)) (chat_mode : bool) : json :=
  JObject [key "id" (jstr id); key "object" (text (if chat_mode then "chat.completion.chunk" else "text_completion"));
    key "created" (JInteger ts); key "model" (jstr model); key "choices" (JArray [JObject choice])].

Definition choice_members (content : bytes) (finish : bool) (finish_reason : string) (lp : option TokenLogprob) (chat_mode : bool) : list (bytes * json) :=
  let index := key "index" (JInteger 0) in
  let reason := key "finish_reason" (if finish then text finish_reason else JNull) in
  if chat_mode then
    if finish then [index; key "delta" (JObject []); reason]
    else [index; key "delta" (JObject [key "content" (jstr content)]); reason] ++
         match lp with Some l => [key "logprobs" (JObject [key "content" (JArray [logprob_json l])])] | None => [] end
  else [index; key "text" (jstr (if finish then [] else content));
        key "logprobs" (if finish then JNull else match lp with Some l => BuildLogprobsJson [l] false | None => JNull end); reason].

Definition BuildStreamChunk (dump : json -> bytes) (id model : bytes) (ts : Z) (content : bytes) (finish : bool) (finish_reason : string)
    (lp : option TokenLogprob) (chat_mode : bool) : bytes :=
  data_frame (dump (chunk_json id model ts (choice_members content finish finish_reason lp chat_mode) chat_mode)).

(** The members that a measured duration adds; negative ones are not measured. *)
Definition duration_member (k : string) (d : double) : list (bytes * json) :=
  if dleb (d_of_Z 0) d then [key k (num d)] else [].

Definition usage_members (prompt_toks completion_toks cached : Z) (duration ttft : double) : list (bytes * json) :=
  [key "prompt_tokens" (JInteger prompt_toks); key "completion_tokens" (JInteger completion_toks);
   key "total_tokens" (JInteger (i32 (prompt_toks + completion_toks)));
   key "prompt_tokens_details" (JObject [key "cached_tokens" (JInteger cached)])] ++
  duration_member "duration_ms" duration ++ duration_member "time_to_first_token_ms" ttft.

Definition reasoning_member (reasoning_toks : Z) : list (bytes * json) :=
  if (0 <? reasoning_toks)%Z then [key "completion_tokens_details" (JObject [key "reasoning_tokens" (JInteger reasoning_toks)])] else [].

(** ** BuildCompletionBody *)

Definition finish_of (r : InferenceResult) : string := if finish_reason_length r then "length" else "stop".

Section Body.
(** [ReasoningSplitDisabled()] *)
Context (split_disabled : bool) (family : ChatTemplateFamily).

(** Reasoning and content of choice [i]; the caller's reasoning goes to the first. *)
Definition choice_parts (chat : bool) (given_reasoning : bytes) (i : nat) (r : InferenceResult) : bytes * bytes :=
  let '(reasoning, content) := if chat && negb split_disabled then Split family (completion r) else ([], completion r) in
  ((if bool_decide (reasoning = [] /\ i = 0) then given_reasoning else reasoning), content).

Definition choice_json (chat : bool) (given_reasoning : bytes) (extractions : list ToolCallExtraction) (i : nat) (r : InferenceResult) : json :=
  let '(reasoning, content) := choice_parts chat given_reasoning i r in
  if chat then
    let ex := default (mkExtraction [] []) (extractions !! i) in
    let tcs := calls ex in
    JObject [key "index" (JInteger (Z.of_nat i));
      key "message" (JObject ([key "role" (text "assistant")] ++
        (if bool_decide (length tcs = 0) then [key "content" (jstr content)]
         else [key "tool_calls" (JArray ((fun tc => BuildToolCallEntry tc None) <$> tcs));
               key "content" (if bool_decide (remaining_text ex = []) then JNull else jstr (remaining_text ex))]) ++
        (if bool_decide (reasoning = []) then [] else [key "reasoning_content" (jstr reasoning)])));
      key "logprobs" (JObject []);
      key "finish_reason" (text (if bool_decide (length tcs = 0) then finish_of r else "tool_calls"))]
  else JObject [key "index" (JInteger (Z.of_nat i)); key "text" (jstr content); key "finish_reason" (text (finish_of r))].

(** The choices that the function itself splits reasoning out of. *)
Definition split_count (chat : bool) (results : list InferenceResult) : Z :=
  if chat && negb split_disabled then Z.of_nat (count_if (fun r => negb (bool_decide ((Split family (completion r)).1 = []))) results) else 0%Z.

(** [seq]: the process-wide counter before the call, which the call increments. *)
Definition completion_json (now_ms ts seq : Z) (results : list InferenceResult) (total_completion_tokens : Z) (request : Payload)
    (chat : bool) (tool_calls : list ToolCallExtraction) (given_reasoning : bytes) (given_reasoning_tokens : Z) : json :=
  let first := head results in
  let prompt_toks := match first with Some r => prompt_tokens r | None => 0%Z end in
  let served := match first with Some r => model_id r | None => [] end in
  let own := split_count chat results in
  JObject ([key "id" (jstr (bytes_of (if chat then "chatcmpl-" else "cmpl-") ++ number now_ms ++ bytes_of "-" ++ number (u64 (seq + 1))));
    key "object" (text (if chat then "chat.completion" else "text_completion")); key "created" (JInteger ts);
    key "model" (jstr (if bool_decide (served = []) then HttpRequests.model request else served))] ++
    (if bool_decide (HttpRequests.client_request_id request = []) then []
     else [key "client_request_id" (jstr (HttpRequests.client_request_id request))]) ++
    [key "usage" (JObject (usage_members prompt_toks total_completion_tokens
        (match first with Some r => cached_prompt_tokens r | None => 0%Z end)
        (match first with Some r => duration_ms r | None => d_of_Z (-1) end)
        (match first with Some r => time_to_first_token_ms r | None => d_of_Z (-1) end) ++
        reasoning_member (if (0 <? own)%Z then own else given_reasoning_tokens)));
     key "choices" (JArray (imap (choice_json chat given_reasoning tool_calls) results))]).

(** The overload for one result. *)
Definition single_completion_json (now_ms ts seq : Z) (result : InferenceResult) (request : Payload) (chat : bool)
    (extraction : ToolCallExtraction) (given_reasoning : bytes) (given_reasoning_tokens : Z) : json :=
  completion_json now_ms ts seq [result] (completion_tokens result) request chat [extraction] given_reasoning given_reasoning_tokens.
End Body.
End Json.

(** ** Texts split for replay *)

Lemma split_stream_concat s cur : concat (split_stream s cur) = cur ++ s.
Proof.
  revert cur. induction s as [|c s IH]; intros cur; simpl.
  - case_bool_decide; simpl; rewrite ?app_nil_r; by subst.
  - case_match; simpl; rewrite IH, <- ?app_assoc; done.
Qed.

(** The pieces of a text, replayed one frame each, are the text again. *)
Lemma SplitForStreaming_concat s : concat (SplitForStreaming s) = s.
Proof.
  unfold SplitForStreaming. case_bool_decide; [apply app_nil_r|]. apply split_stream_concat.
Qed.

(** ** A reference reader of JSON strings

    The rest of a string after its opening quote, as RFC 8259 reads it: escapes are
    undone (of those by number, only the ASCII ones), a control character is an
    error, and an unescaped quote ends it. *)

Definition unescape_char (e : ascii) : option ascii :=
  if bool_decide (e = dq) then Some dq
  else if bool_decide (e = chr 92) then Some (chr 92)
  else if bool_decide (e = "/"%char) then Some "/"%char
  else if bool_decide (e = "b"%char) then Some (chr 8)
  else if bool_decide (e = "f"%char) then Some (chr 12)
  else if bool_decide (e = "n"%char) then Some (chr 10)
  else if bool_decide (e = "r"%char) then Some (chr 13)
  else if bool_decide (e = "t"%char) then Some (chr 9)
  else None.

Definition unescape_hex (h1 h2 h3 h4 : ascii) : option ascii :=
  a ← hex_val h1; b ← hex_val h2; c ← hex_val h3; d ← hex_val h4;
  let v := (a * 4096 + b * 256 + c * 16 + d)%Z in
  if (v <? 128)%Z then Some (chr (Z.to_nat v)) else None.

Definition cons_char (c : ascii) (o : option (bytes * bytes)) : option (bytes * bytes) :=
  match o with Some (s, rest) => Some (c :: s, rest) | None => None end.

Fixpoint read_string (s : bytes) : option (bytes * bytes) :=
  match s with
  | [] => None
  | c :: s1 =>
      if bool_decide (c = dq) then Some ([], s1)
      else if bool_decide (c = chr 92) then
        match s1 with
        | [] => None
        | e :: s2 =>
            if bool_decide (e = "u"%char) then
              match s2 with
              | h1 :: h2 :: h3 :: h4 :: s3 =>
                  match unescape_hex h1 h2 h3 h4 with Some x => cons_char x (read_string s3) | None => None end
              | _ => None
              end
            else match unescape_char e with Some x => cons_char x (read_string s2) | None => None end
        end
      else if (byte_val c <? 32)%Z then None else cons_char c (read_string s1)
  end.

(** The escape of a character is read as that character. *)
Lemma read_escaped_char c s : read_string (escape_char c ++ s) = cons_char c (read_string s).
Proof.
  assert (H : forall c, match escape_char c with
    | [x] => x = c /\ bool_decide (c = dq) = false /\ bool_decide (c = chr 92) = false /\ (byte_val c <? 32)%Z = false
    | [b; e] => b = chr 92 /\ e <> "u"%char /\ unescape_char e = Some c
    | [b; u; h1; h2; h3; h4] => b = chr 92 /\ u = "u"%char /\ unescape_hex h1 h2 h3 h4 = Some c
    | _ => False
    end).
  { clear. intros c. destruct c as [[] [] [] [] [] [] [] []]; vm_compute; split_and!; done. }
  specialize (H c). destruct (escape_char c) as [|x [|e [|h1 [|h2 [|h3 [|h4 []]]]]]]; try done.
  - destruct H as (-> & E1 & E2 & E3). cbn [app read_string]. by rewrite E1, E2, E3.
  - destruct H as (-> & He & E). cbn [app read_string].
    rewrite (bool_decide_eq_false_2 (chr 92 = dq)) by done. rewrite (bool_decide_eq_true_2 (chr 92 = chr 92)) by done.
    rewrite bool_decide_eq_false_2 by done. by rewrite E.
  - destruct H as (-> & -> & E). cbn [app read_string].
    rewrite (bool_decide_eq_false_2 (chr 92 = dq)) by done. rewrite (bool_decide_eq_true_2 (chr 92 = chr 92)) by done.
    rewrite bool_decide_eq_true_2 by done. by rewrite E.
Qed.

Lemma escape_cons c s : AppendJsonEscaped [] (c :: s) = escape_char c ++ AppendJsonEscaped [] s.
Proof. done. Qed.

Lemma read_escaped s rest : read_string (AppendJsonEscaped [] s ++ dq :: rest) = Some (s, rest).
Proof.
  induction s as [|c s IH]; [by vm_compute|]. rewrite escape_cons, <- app_assoc, read_escaped_char, IH. done.
Qed.

(** ** A reference printer of JSON values

    The compact text of a value, members in their order. *)

Definition print_string (s : bytes) : bytes := [dq] ++ AppendJsonEscaped [] s ++ [dq].

Fixpoint join_comma (l : list bytes) : bytes :=
  match l with
  | [] => []
  | [x] => x
  | x :: l' => x ++ bytes_of "," ++ join_comma l'
  end.

Fixpoint print (j : json) : bytes :=
  match j with
  | JNull => bytes_of "null"
  | JBool b => bytes_of (if b then "true" else "false")
  | JInteger z | JUnsigned z => number z
  | JFloat literal => literal
  | JString s => print_string s
  | JArray l => bytes_of "[" ++ join_comma (List.map print l) ++ bytes_of "]"
  | JObject fields => bytes_of "{" ++ join_comma (List.map (fun '(k, v) => print_string k ++ bytes_of ":" ++ print v) fields) ++ bytes_of "}"
  end.

Lemma AppendJsonEscaped_app out s : AppendJsonEscaped out s = out ++ AppendJsonEscaped [] s.
Proof. done. Qed.

(** A name of letters is its own escape. *)
Lemma print_name (s : string) : AppendJsonEscaped [] (bytes_of s) = bytes_of s -> print_string (bytes_of s) = quoted s.
Proof. unfold print_string. by intros ->. Qed.

Lemma chunk_json_text id model ts choice chat :
  print (chunk_json id model ts choice chat) =
  frame_head id model ts (if chat then "chat.completion.chunk" else "text_completion") ++
  [dq] ++ bytes_of "," ++ quoted "choices" ++ bytes_of ":[" ++ print (JObject choice) ++ bytes_of "]}".
Proof.
  unfold chunk_json, frame_head, key, jstr, text. set (p := print (JObject choice)).
  change (print (JObject ?l)) with (bytes_of "{" ++ join_comma (List.map (fun '(k, v) => print_string k ++ bytes_of ":" ++ print v) l) ++ bytes_of "}").
  cbn [List.map join_comma]. change (print (JArray [JObject choice])) with (bytes_of "[" ++ p ++ bytes_of "]").
  cbn [print]. rewrite (print_name "id"), (print_name "object"), (print_name "created"), (print_name "model"), (print_name "choices") by reflexivity.
  unfold print_string, AppendJsonEscaped. destruct chat;
  rewrite <- !app_assoc; reflexivity.
Qed.

Lemma choice_text (k : string) (v : bytes) tail :
  AppendJsonEscaped [] (bytes_of k) = bytes_of k ->
  print (JObject [key "index" (JInteger 0); key "delta" (JObject [key k (jstr v)]); key "finish_reason" JNull]) ++ tail =
  bytes_of "{" ++ quoted "index" ++ bytes_of ":0," ++ quoted "delta" ++ bytes_of ":{" ++ quoted k ++ bytes_of ":" ++ [dq] ++
  AppendJsonEscaped [] v ++ [dq] ++ bytes_of "}," ++ quoted "finish_reason" ++ bytes_of ":null}" ++ tail.
Proof.
  intros Hk. unfold key, jstr. cbn [print List.map join_comma].
  rewrite (print_name k), (print_name "index"), (print_name "delta"), (print_name "finish_reason") by (done || reflexivity).
  change (number 0) with (bytes_of "0"). unfold print_string. by rewrite <- !app_assoc.
Qed.

(** The frames that are written by hand are JSON texts of the values that the
    JSON builder makes for the same piece: the event of a content piece carries the
    chunk of [BuildStreamChunk] without log-probabilities, in chat and in legacy
    mode, and that of a reasoning piece the same chunk with the piece as
    [delta.reasoning_content]; whatever bytes the id, the model name and the piece
    contain. *)
Theorem fast_frames_print_chunks num (id model : bytes) (ts : Z) (piece : bytes) (chat : bool) :
  BuildStreamChunkFast id model ts piece chat =
    data_frame (print (chunk_json id model ts (choice_members num piece false "stop" None chat) chat)) /\
  BuildStreamReasoningChunkFast id model ts piece =
    data_frame (print (chunk_json id model ts
      [key "index" (JInteger 0); key "delta" (JObject [key "reasoning_content" (jstr piece)]); key "finish_reason" JNull] true)).
Proof.
  rewrite !chunk_json_text. unfold BuildStreamChunkFast, BuildStreamReasoningChunkFast, choices_head.
  split; [destruct chat|]; f_equal.
  - cbn [choice_members app]. rewrite choice_text by reflexivity. unfold AppendJsonEscaped. by rewrite <- !app_assoc.
  - cbn [choice_members app]. unfold key, jstr. cbn [print List.map join_comma].
    rewrite (print_name "index"), (print_name "text"), (print_name "logprobs"), (print_name "finish_reason") by reflexivity.
    change (number 0) with (bytes_of "0"). unfold print_string, AppendJsonEscaped. by rewrite <- !app_assoc.
  - rewrite choice_text by reflexivity. unfold AppendJsonEscaped. by rewrite <- !app_assoc.
Qed.

(** ** Responses as clients read them *)

Definition response_lines (body : bytes) (status : Z) (status_text : string) (extra : list bytes) : list bytes :=
  [bytes_of "HTTP/1.1" ++ bytes_of " " ++ number status ++ bytes_of " " ++ bytes_of status_text;
   bytes_of "Content-Type: application/json"; bytes_of "Access-Control-Allow-Origin: *"; bytes_of "Connection: keep-alive"] ++
  extra ++ [bytes_of "Content-Length: " ++ number (Z.of_nat (length body))].

Lemma BuildResponse_lines body status status_text extra :
  BuildResponse body status status_text (HttpClient.unlines extra) =
  HttpClient.unlines (response_lines body status status_text extra) ++ crlf ++ body.
Proof.
  unfold BuildResponse, response_lines, HttpClient.unlines. rewrite !bind_app. cbn [mbind list_bind].
  rewrite !app_nil_r, <- !app_assoc. reflexivity.
Qed.

(** A client that reads a response of the server gets the status and exactly the
    body, whatever header lines without carriage return were added: the client of
    HttpClient.v undoes [BuildResponse]. *)
Theorem response_understood (body : bytes) (status : Z) (status_text : string) (extra : list bytes) :
  HttpClient.in_int status -> chr 13 ∉ bytes_of status_text -> Forall HttpClient.line_ok extra ->
  HttpClient.parse_response (BuildResponse body status status_text (HttpClient.unlines extra)) = HttpClient.mkResponse status body.
Proof.
  intros Hs Ht He. rewrite BuildResponse_lines. unfold response_lines. cbn [app].
  apply (HttpClient.response_roundtrip (bytes_of "HTTP/1.1") (bytes_of " " ++ bytes_of status_text)); [by apply HttpClient.bytes_without|done|done|].
  assert (Hp : forall z, chr 13 ∉ number z) by (intros; by apply HttpClient.pretty_no).
  rewrite !Forall_cons, Forall_app, Forall_singleton. unfold HttpClient.line_ok.
  split_and!; try done; try (by apply HttpClient.bytes_without);
    rewrite !not_elem_of_app; split_and!; try done; try apply Hp; by apply HttpClient.bytes_without.
Qed.

Lemma response_understood_witness :
  HttpClient.parse_response (BuildResponse (bytes_of "{}") 404 "Not Found" (HttpClient.unlines [bytes_of "X-A: 1"])) =
  HttpClient.mkResponse 404 (bytes_of "{}").
Proof.
  apply (response_understood (bytes_of "{}") 404 "Not Found" [bytes_of "X-A: 1"]); [by vm_compute|by apply HttpClient.bytes_without|].
  apply Forall_singleton. split; [done|by apply HttpClient.bytes_without].
Defined.

(** The header that echoes the correlation id of a completion request. *)
Definition correlation_header (id : bytes) : bytes :=
  if bool_decide (id = []) then [] else bytes_of "x-inferflux-client-request-id: " ++ id ++ crlf.

(** An id with line ends in it (JSON strings may have them) ends the head of the
    response: the client reads the text after it as the body. *)
Example correlation_id_injects :
  HttpClient.body (HttpClient.parse_response
    (BuildResponse (bytes_of "{}") 200 "OK" (correlation_header (bytes_of "x" ++ crlf ++ crlf ++ bytes_of "forged")))) <> bytes_of "{}" /\
  take 6 (HttpClient.body (HttpClient.parse_response
    (BuildResponse (bytes_of "{}") 200 "OK" (correlation_header (bytes_of "x" ++ crlf ++ crlf ++ bytes_of "forged"))))) = bytes_of "forged".
Proof. by vm_compute. Qed.

(** ** Buffered bodies *)

Definition without_logprobs (r : InferenceResult) : InferenceResult :=
  mkResult (model_id r) (completion r) (completion_tokens r) (prompt_tokens r) (no_backend r) (finish_reason_length r) []
    (cached_prompt_tokens r) (duration_ms r) (time_to_first_token_ms r) (reasoning_content r) (reasoning_tokens r).

(** A buffered body is the same whether or not log-probabilities were collected. *)
Lemma buffered_body_drops_logprobs num split_disabled family now_ms ts seq results total request chat tcs reasoning n :
  completion_json num split_disabled family now_ms ts seq results total request chat tcs reasoning n =
  completion_json num split_disabled family now_ms ts seq (without_logprobs <$> results) total request chat tcs reasoning n.
Proof.
  unfold completion_json, split_count. rewrite imap_fmap, count_if_fmap. by destruct results.
Qed.

(** ** Batching pieces into frames *)

(** What the stream does with its content pieces while it is alive: the contents of
    the frames it sends, and the chunker it is left with. *)
Definition push_piece (st : SseStreamChunker * list bytes) (piece : bytes) : SseStreamChunker * list bytes :=
  let c := Append piece st.1 in
  if ShouldFlush c then ((TakeFrame [] [] 0 c).1, st.2 ++ [buf c]) else (c, st.2).

Definition push_pieces (c : SseStreamChunker) (pieces : list bytes) : SseStreamChunker * list bytes :=
  foldl push_piece (c, []) pieces.

Lemma push_pieces_bytes st pieces :
  concat (foldl push_piece st pieces).2 ++ buf (foldl push_piece st pieces).1 = concat st.2 ++ buf st.1 ++ concat pieces.
Proof.
  revert st. induction pieces as [|p pieces IH]; intros [c out]; simpl; [by rewrite app_nil_r|].
  rewrite IH. unfold push_piece. simpl. case_match; simpl; [|by rewrite <- !app_assoc].
  rewrite concat_app. simpl. by rewrite app_nil_r, <- !app_assoc.
Qed.

(** A chunker of the server has positive thresholds. *)
Lemma FromEnv_thresholds tokens bs : (1 <= flush_tokens (FromEnv tokens bs))%Z /\ (1 <= flush_bytes (FromEnv tokens bs))%Z.
Proof. unfold FromEnv. destruct tokens, bs; simpl; lia. Qed.

(** The default chunker flushes at every piece. *)
Lemma default_chunker_per_piece pieces :
  push_pieces (FromEnv None None) pieces = (FromEnv None None, pieces).
Proof.
  unfold push_pieces. rewrite <- (app_nil_l pieces) at 2. generalize (@nil bytes) as out.
  induction pieces as [|p pieces IH]; intros out; simpl; [by rewrite app_nil_r|].
  assert (push_piece (FromEnv None None, out) p = (FromEnv None None, out ++ [p])) as -> by done.
  rewrite IH. by rewrite <- app_assoc.
Qed.
