(* ===== verification/HttpServer.v ===== *)
(** * server/http/http_server.cpp and http_utils.h: reading requests and deciding who sent them

    Header lookup, the reading of one request from a connection, the request
    line, the identity behind a bearer token, and the readiness and admission
    decisions.  What the socket delivers is a parameter: a list of segments, of
    which each receive takes at most what it asks for. *)

From stdpp Require Import base tactics numbers list strings pretty sets gmap.
From Stdlib Require Import Ascii.
From S2P Require Import Prelude StringUtils Json AccessControl RateLimiter.
From S2P Require HttpClient Oidc HttpFrames.

Abbreviation crlf := HttpClient.crlf.
Abbreviation blank_line := HttpClient.blank_line.

(** ** Headers: http_utils.h *)

Definition is_blank (c : ascii) : bool := bool_decide (c ∈ [chr 32; chr 9]).

(** The value of a header line: blanks before it and white space after it dropped.
    When nothing but white space follows the first other character, everything from
    that character on is kept: [e - s + 1] then wraps to a length past the end. *)
Definition header_value (value : bytes) : bytes :=
  let v := drop_while is_blank value in
  let t := reverse (drop_while is_trim (reverse v)) in
  if bool_decide (t = []) then v else t.

Definition header_line (lower_name line : bytes) : option bytes :=
  match find_sub [":"%char] line with
  | Some colon => if bool_decide (ToLower (take colon line) = lower_name) then Some (header_value (drop (colon + 1) line)) else None
  | None => None
  end.

(** A turn of the loop per line; there are fewer lines than bytes. *)
Fixpoint header_loop (fuel : nat) (lower_name rest : bytes) : bytes :=
  match fuel, rest with
  | 0, _ | _, [] => []
  | S fuel, _ =>
      match find_sub crlf rest with
      | None => default [] (header_line lower_name rest)
      | Some i => match header_line lower_name (take i rest) with
                  | Some v => v
                  | None => header_loop fuel lower_name (drop (i + 2) rest)
                  end
      end
  end.

Definition GetHeaderValue (headers : bytes) (name : string) : bytes :=
  header_loop (length headers) (ToLower (bytes_of name)) headers.

Definition ExtractBearerToken (headers : bytes) : bytes :=
  let value := drop_while is_blank (GetHeaderValue headers "authorization") in
  match find_index is_blank value with
  | None => []
  | Some scheme_end => if named (ToLower (take scheme_end value)) "bearer" then drop_while is_blank (drop scheme_end value) else []
  end.

(** ** One request from a connection *)

(** What the peer sends, segment by segment; the end of the list, or an empty
    segment, is a close, an error or a timeout. *)
Abbreviation Socket := (list bytes).

(** [Receive(session, buffer, length)]: the bytes received, none when it returns 0 or less. *)
Definition Receive (len : Z) (sock : Socket) : bytes * Socket :=
  match sock with
  | [] => ([], [])
  | seg :: rest =>
      let got := take (Z.to_nat len) seg in
      (got, if (Z.of_nat (length seg) <=? len)%Z then rest else drop (Z.to_nat len) seg :: rest)
  end.

Definition kInitialBuf : Z := 4096.
Definition kMaxRequest : Z := (16 * 1024 * 1024)%Z.

Definition len (s : bytes) : Z := Z.of_nat (length s).

Inductive reading (A : Type) :=
  | Closed
  | TooLarge
  | Got (a : A).
Arguments Closed {A}.
Arguments TooLarge {A}.
Arguments Got {A}.

(** Phase 1: [size] is [request.size()], [acc] the first [total] bytes.  Every turn
    receives a byte or ends, so the bytes that the peer sends bound the turns. *)
Fixpoint read_headers (fuel : nat) (size : Z) (acc : bytes) (sock : Socket) : reading (nat * bytes * Socket) :=
  match fuel with
  | 0 => Closed
  | S fuel =>
      let receive (size : Z) :=
        let '(got, sock') := Receive (size - len acc) sock in
        if bool_decide (got = []) then Closed
        else
          let acc' := acc ++ got in
          match find_sub blank_line acc' with
          | Some header_end => Got (header_end, acc', sock')
          | None => read_headers fuel (Z.max (len acc' + kInitialBuf) (len acc' * 2)) acc' sock'
          end in
      if (size <=? len acc)%Z
      then if (kMaxRequest <=? size)%Z then TooLarge else receive (Z.min (size * 2) kMaxRequest)
      else receive size
  end.

(** [std::stoull]: a negative number wraps; [None]: an exception. *)
Definition stoull (s : bytes) : option Z :=
  match scan_int s with
  | Some (v, _) => if (Z.abs v <? 2 ^ 64)%Z then Some (u64 v) else None
  | None => None
  end.

Definition content_length_of (header_block : bytes) : Z :=
  let cl_value := GetHeaderValue header_block "content-length" in
  if bool_decide (cl_value = []) then 0%Z else default 0%Z (stoull cl_value).

(** Phase 2: the rest of the body. *)
Fixpoint read_body (fuel : nat) (needed : Z) (acc : bytes) (sock : Socket) : reading (bytes * Socket) :=
  if (needed <=? len acc)%Z then Got (acc, sock)
  else match fuel with
       | 0 => Closed
       | S fuel =>
           let '(got, sock') := Receive (needed - len acc) sock in
           if bool_decide (got = []) then Closed else read_body fuel needed (acc ++ got) sock'
       end.

Definition sent (sock : Socket) : nat := length (concat sock).

(** The header block and the body, and what is left on the connection. *)
Definition read_request (sock : Socket) : reading (bytes * bytes * Socket) :=
  match read_headers (S (sent sock)) kInitialBuf [] sock with
  | Closed => Closed
  | TooLarge => TooLarge
  | Got (header_end, acc, sock) =>
      let content_length := content_length_of (take header_end acc) in
      if (kMaxRequest <? content_length)%Z then TooLarge
      else match read_body (sent sock) (Z.of_nat header_end + 4 + content_length) acc sock with
           | Closed => Closed
           | TooLarge => TooLarge
           | Got (request, sock) => Got (take header_end request, drop (header_end + 4) request, sock)
           end
  end.

(** The first line: method and path, the whole line for both when it has no space. *)
Definition request_line (headers : bytes) : bytes * bytes :=
  let first_line := match find_sub crlf headers with Some i => take i headers | None => headers end in
  match find_sub [" "%char] first_line with
  | None => (first_line, first_line)
  | Some method_end =>
      let rest := drop (method_end + 1) first_line in
      (take method_end first_line, match find_sub [" "%char] rest with Some i => take i rest | None => rest end)
  end.

(** [session.keep_alive] after the headers are read. *)
Definition wants_keep_alive (headers : bytes) : bool :=
  match find_sub (bytes_of "close") (ToLower (GetHeaderValue headers "Connection")) with Some _ => false | None => true end.

(** What [SendAll] puts on the wire: on a connection that will be closed the first
    [Connection: keep-alive] becomes [Connection: close]. *)
Definition wire_payload (keep_alive : bool) (payload : bytes) : bytes :=
  let kKeepAlive := bytes_of "Connection: keep-alive" ++ crlf in
  if keep_alive then payload
  else match find_sub kKeepAlive payload with
       | Some pos => take pos payload ++ bytes_of "Connection: close" ++ crlf ++ drop (pos + length kKeepAlive) payload
       | None => payload
       end.

(** ** Identity *)

Record AuthContext := mkContext { subject : bytes; scopes : gset bytes }.

Definition user_scopes : gset bytes := {[ bytes_of "read"; bytes_of "generate" ]}.

Section Identity.
Context (sha256 : bytes -> list Z).
Context (parse : bytes -> option json) (rsa_verify : bytes -> bytes -> bytes -> bytes -> bool).
Context (override : option (bytes -> bytes -> Oidc.JwkKey -> bool)).

(** [keys]: those of [auth_], none when it is null; [oidc]: [oidc_].  The second
    component is the token cache afterwards. *)
Definition ResolveSubject (keys : gmap bytes (gset bytes)) (oidc : option Oidc.OIDCValidator) (call : Oidc.Call) (headers : bytes)
    (cache : Oidc.Cache) : option AuthContext * Oidc.Cache :=
  let oidc_enabled := match oidc with Some v => Oidc.Enabled v | None => false end in
  if negb (ApiKeyAuth.HasKeys keys || oidc_enabled) then (Some (mkContext (bytes_of "anonymous") user_scopes), cache)
  else
    let token := ExtractBearerToken headers in
    if bool_decide (token = []) then (None, cache)
    else
      let hash := ApiKeyAuth.HashKey sha256 token in
      if ApiKeyAuth.HasKeys keys && ApiKeyAuth.IsAllowedByHash hash keys
      then (Some (mkContext (ApiKeyAuth.SubjectFromHash hash) (list_to_set (ApiKeyAuth.ScopesByHash hash keys))), cache)
      else match oidc with
           | Some v =>
               if Oidc.Enabled v then
                 let '(ok, sub, cache) := Oidc.Validate parse rsa_verify v override call token cache in
                 if ok then (Some (mkContext (if bool_decide (sub = []) then bytes_of "oidc-user" else sub) user_scopes), cache)
                 else (None, cache)
               else (None, cache)
           | None => (None, cache)
           end.
End Identity.

Definition RequireScope (ctx : AuthContext) (scope : string) : bool := bool_decide (bytes_of scope ∈ scopes ctx).

(** ** Readiness and admission *)

Inductive PoolRole := kUnified | kPrefill | kDecode.
#[export] Instance PoolRole_eq_dec : EqDecision PoolRole.
Proof. solve_decision. Defined.

Definition PoolRoleToString (r : PoolRole) : string :=
  match r with kPrefill => "prefill" | kDecode => "decode" | kUnified => "unified" end.

(** What the server reads of its scheduler: the default model of its router, when it
    has one, its decode workers, and whether it has a KV transport. *)
Record SchedulerView := mkScheduler {
  router_default : option bytes; configured_workers : Z; live_workers : Z; has_transport : bool }.

(** Of the metrics: the two timeout counters. *)
Record ServerView := mkServer {
  server_role : PoolRole; scheduler : option SchedulerView; model_ready : bool; timeouts : option (Z * Z);
  streak_threshold : Z; debt_threshold : Z; fail_closed : bool; divergences : Z; unhealthy : bool }.

Record ReadyStatus := mkReady {
  ready : bool; model_loaded : bool; decode_pool_warm : bool; disagg_transport_degraded : bool;
  disagg_timeout_debt : Z; disagg_timeout_streak : Z; role : string; reason : string; dispatch_degraded : bool }.

(** [status.model_loaded], computed alike for every role. *)
Definition loaded_of (s : ServerView) : bool :=
  match scheduler s with
  | Some sc => match router_default sc with Some id => negb (bool_decide (id = [])) | None => model_ready s end
  | None => model_ready s
  end.

Definition warm_of (s : ServerView) : bool :=
  if bool_decide (server_role s = kDecode) then
    match scheduler s with
    | Some sc => (0 <? configured_workers sc)%Z && (live_workers sc =? configured_workers sc)%Z
    | None => false
    end
  else
    match scheduler s with
    | Some sc => (configured_workers sc =? 0)%Z || (live_workers sc =? configured_workers sc)%Z
    | None => true
    end.

(** [should_check_disagg], apart from the metrics. *)
Definition checks_transport (s : ServerView) : bool :=
  match scheduler s with Some sc => has_transport sc | None => false end && negb (bool_decide (server_role s = kPrefill))
  && ((0 <? streak_threshold s) || (0 <? debt_threshold s))%Z.

Definition EvaluateReadyStatus (s : ServerView) : ReadyStatus :=
  let dispatch := (0 <? divergences s)%Z || unhealthy s in
  let '(rdy, why) :=
    if bool_decide (server_role s = kDecode) then
      let rdy := loaded_of s && warm_of s in
      (rdy, if rdy then "" else if negb (loaded_of s) then "no model backend loaded" else "decode pool not ready")
    else (loaded_of s, if loaded_of s then "" else "no model backend loaded") in
  match (if checks_transport s then timeouts s else None) with
  | Some (debt, streak) =>
      let degraded := ((0 <? streak_threshold s) && (streak_threshold s <=? streak))%Z
                      || ((0 <? debt_threshold s) && (debt_threshold s <=? debt))%Z in
      mkReady (if degraded && rdy then false else rdy) (loaded_of s) (warm_of s) degraded debt streak (PoolRoleToString (server_role s))
        (if degraded && rdy then "distributed kv transport degraded" else why) dispatch
  | None => mkReady rdy (loaded_of s) (warm_of s) false 0 0 (PoolRoleToString (server_role s)) why dispatch
  end.

Record AdmissionDecision := mkAdmission { adm_allowed : bool; http_status : Z; adm_error : string; adm_reason : string }.

Definition EvaluateGenerationAdmissionDecision (s : ServerView) : AdmissionDecision :=
  let st := EvaluateReadyStatus s in
  if negb (fail_closed s) || negb (disagg_transport_degraded st) then mkAdmission true 200 "" ""
  else mkAdmission false 503 "distributed_kv_transport_degraded"
         (if String.eqb (reason st) "" then "distributed kv transport degraded" else reason st).

Definition ClassifyRequest (method path : bytes) : RequestClass :=
  if named method "POST" then
    if named path "/v1/completions" || named path "/v1/chat/completions" then kGeneration
    else if named path "/v1/embeddings" then kEmbeddings else kOther
  else kOther.


(** ** Reading a request *)

Lemma starts_with_within (needle s t : bytes) :
  length needle <= length s -> starts_with needle (s ++ t) = starts_with needle s.
Proof.
  intros Hl. apply eq_true_iff_eq. split; [|apply starts_with_app].
  rewrite !starts_with_spec. intros [rest E]. exists (drop (length needle) s).
  apply (f_equal (take (length s))) in E. rewrite take_app_length, take_app_ge in E by done.
  rewrite E at 1 2. by rewrite drop_app_length.
Qed.

(** A first occurrence stays the first when the text goes on. *)
Lemma find_sub_extend (needle s t : bytes) i : needle <> [] -> find_sub needle s = Some i -> find_sub needle (s ++ t) = Some i.
Proof.
  intros Hn. revert i. induction s as [|c s IH]; intros i.
  { by destruct needle. }
  intros H. pose proof (find_sub_split _ _ _ H) as [_ Hl]. change ((c :: s) ++ t) with (c :: (s ++ t)).
  cbn [find_sub] in H |- *.
  change (c :: s ++ t) with ((c :: s) ++ t). rewrite starts_with_within by lia.
  destruct (starts_with needle (c :: s)); [done|]. apply fmap_Some in H as (j & Hj & ->). by rewrite (IH j Hj).
Qed.

Lemma Receive_some n seg rest : (0 < n)%Z -> seg <> [] ->
  exists got sock', Receive n (seg :: rest) = (got, sock') /\ got <> [] /\ got ++ concat sock' = concat (seg :: rest) /\
    (len got <= n)%Z /\ (Forall (fun s => s <> []) rest -> Forall (fun s => s <> []) sock').
Proof.
  intros Hn Hs. unfold Receive, len. eexists _, _. split; [reflexivity|].
  assert (Ht : take (Z.to_nat n) seg <> []) by (destruct (Z.to_nat n) eqn:E; [lia|by destruct seg]).
  destruct (Z.leb_spec (Z.of_nat (length seg)) n); cbn [concat].
  - rewrite take_ge by lia. split_and!; [done|done|lia|done].
  - split_and!; [done|by rewrite app_assoc, take_drop|rewrite length_take; lia|].
    intros Hr. constructor; [|done]. intros E. apply (f_equal length) in E. rewrite length_drop in E. cbn in E. lia.
Qed.

Lemma sent_pos sock (got : bytes) (sock' : Socket) : got <> [] -> got ++ concat sock' = concat sock -> sent sock' < sent sock.
Proof. intros Hg E. unfold sent. rewrite <- E, length_app. destruct got; [done|cbn; lia]. Qed.

(** The first phase finds the first blank line of what the peer sends, wherever the
    segments are cut, having read no byte twice and lost none. *)
Lemma read_headers_found fuel size acc sock n :
  sent sock < fuel -> (len acc < size)%Z -> Forall (fun s => s <> []) sock ->
  find_sub blank_line acc = None -> find_sub blank_line (acc ++ concat sock) = Some n ->
  exists acc' sock', read_headers fuel size acc sock = Got (n, acc', sock') /\ acc' ++ concat sock' = acc ++ concat sock /\
    n + 4 <= length acc' /\ Forall (fun s => s <> []) sock' /\ sent sock' < fuel.
Proof.
  revert size acc sock. induction fuel as [|fuel IH]; intros size acc sock Hf Hs Hne Ha Hn; [lia|].
  cbn [read_headers]. rewrite (proj2 (Z.leb_gt _ _)) by done.
  destruct sock as [|seg rest]; [rewrite app_nil_r in Hn; congruence|].
  inversion_clear Hne as [|?? Hseg Hrest].
  destruct (Receive_some (size - len acc) seg rest) as (got & sock' & -> & Hg & Hc & _ & Hne'); [lia|done|].
  rewrite bool_decide_eq_false_2 by done. pose proof (sent_pos _ _ _ Hg Hc).
  destruct (find_sub blank_line (acc ++ got)) as [i|] eqn:E.
  - exists (acc ++ got), sock'. pose proof (find_sub_split _ _ _ E) as [_ Hl].
    assert (i = n) as ->.
    { apply (find_sub_extend _ _ (concat sock')) in E; [|done]. rewrite <- app_assoc, Hc in E. congruence. }
    split_and!; [done|by rewrite <- app_assoc, Hc|exact Hl|by apply Hne'|lia].
  - destruct (IH (Z.max (len (acc ++ got) + kInitialBuf) (len (acc ++ got) * 2)) (acc ++ got) sock') as (acc' & sock'' & -> & Hc' & ?);
      [lia|unfold kInitialBuf; lia|by apply Hne'|done|by rewrite <- app_assoc, Hc|].
    eexists _, _. split; [done|]. rewrite Hc', <- app_assoc, Hc. naive_solver lia.
Qed.

Lemma read_body_exact fuel needed acc sock :
  sent sock <= fuel -> Forall (fun s => s <> []) sock -> (needed = len acc + Z.of_nat (sent sock))%Z ->
  read_body fuel needed acc sock = Got (acc ++ concat sock, []).
Proof.
  revert acc sock. induction fuel as [|fuel IH]; intros acc sock Hf Hne ->; cbn [read_body].
  all: destruct sock as [|seg rest]; [rewrite (proj2 (Z.leb_le _ _)) by (unfold sent; cbn; lia); by rewrite app_nil_r|].
  all: inversion_clear Hne as [|?? Hseg Hrest]; assert (0 < length seg) by (destruct seg; [done|cbn; lia]).
  { unfold sent in Hf. cbn [concat] in Hf. rewrite length_app in Hf. lia. }
  assert (0 < sent (seg :: rest)) by (unfold sent; cbn [concat]; rewrite length_app; lia).
  rewrite (proj2 (Z.leb_gt _ _)) by lia.
  destruct (Receive_some (len acc + Z.of_nat (sent (seg :: rest)) - len acc) seg rest) as (got & sock' & -> & Hg & Hc & _ & Hne'); [lia|done|].
  rewrite bool_decide_eq_false_2 by done. pose proof (sent_pos _ _ _ Hg Hc).
  rewrite IH; [by rewrite <- app_assoc, Hc|lia|by apply Hne'|].
  unfold len, sent in *. rewrite <- Hc, !length_app. lia.
Qed.

Lemma read_request_exact sock n :
  Forall (fun s => s <> []) sock -> find_sub blank_line (concat sock) = Some n ->
  let block := take n (concat sock) in
  (content_length_of block <= kMaxRequest)%Z -> (Z.of_nat (sent sock) = Z.of_nat n + 4 + content_length_of block)%Z ->
  read_request sock = Got (block, drop (n + 4) (concat sock), []).
Proof.
  intros Hne Hn block Hmax Hlen. unfold read_request.
  destruct (read_headers_found (S (sent sock)) kInitialBuf [] sock n) as (acc & sock' & -> & Hc & Hl & Hne' & Hf);
    [lia|unfold kInitialBuf, len; cbn; lia|done|done|done|]. cbn [app] in Hc.
  assert (take n acc = block) as -> by (unfold block; rewrite <- Hc, take_app_le by lia; done).
  rewrite (proj2 (Z.ltb_ge _ _)) by done.
  rewrite read_body_exact; [by rewrite Hc|lia|done|]. unfold sent, len in *. rewrite <- Hc, length_app in Hlen. lia.
Qed.

(** The size check of the first phase is never reached: the buffer is enlarged after
    every receive, so it is always larger than what was read. *)
Lemma header_limit_unreachable fuel size acc sock :
  (len acc < size)%Z -> read_headers fuel size acc sock <> TooLarge.
Proof.
  revert size acc sock. induction fuel as [|fuel IH]; intros size acc sock Hs; [done|].
  cbn [read_headers]. rewrite (proj2 (Z.leb_gt _ _)) by done.
  destruct (Receive (size - len acc) sock) as [got sock']. case_bool_decide; [done|].
  destruct (find_sub blank_line (acc ++ got)); [done|]. apply IH. unfold kInitialBuf. lia.
Qed.

(** ** Headers *)

(** The first line with the name, if there is one. *)
Definition first_header (lower_name : bytes) (lines : list bytes) : bytes :=
  match omap (header_line lower_name) lines with v :: _ => v | [] => [] end.

Lemma find_crlf_line line rest : chr 13 ∉ line -> find_sub crlf (line ++ crlf ++ rest) = Some (length line).
Proof.
  intros H. unfold crlf, HttpClient.crlf. rewrite find_sub_skip by done.
  assert (find_sub (chr 13 :: [chr 10]) ([chr 13; chr 10] ++ rest) = Some 0) as -> by reflexivity.
  cbn [fmap option_fmap option_map]. by rewrite Nat.add_0_r.
Qed.

Lemma find_crlf_none line : chr 13 ∉ line -> find_sub crlf line = None.
Proof. intros H. rewrite <- (app_nil_r line). unfold crlf, HttpClient.crlf. by rewrite find_sub_skip. Qed.

(** A block of lines, without the end of its last line. *)
Lemma block_cons line lines block :
  Forall HttpClient.line_ok lines -> lines <> [] -> block ++ crlf = line ++ crlf ++ HttpClient.unlines lines ->
  exists b, block = line ++ crlf ++ b /\ b ++ crlf = HttpClient.unlines lines.
Proof.
  intros Hl Hne E. destruct (HttpClient.split_message lines []) as (m & _ & H & _); [done|done|].
  eexists. split; [|exact H]. rewrite <- H, !app_assoc in E. apply app_inv_tail in E. by rewrite E, <- !app_assoc.
Qed.

Lemma header_loop_lines fuel name lines block :
  Forall HttpClient.line_ok lines -> block ++ crlf = HttpClient.unlines lines -> length block <= fuel ->
  header_loop fuel name block = first_header name lines.
Proof.
  intros Hl. revert fuel block. induction Hl as [|l lines [Hne Hcr] Hl IH]; intros fuel block E Hf.
  { by destruct block. }
  rewrite HttpClient.unlines_cons in E. destruct lines as [|l' lines].
  - assert (block = l) as -> by (cbn in E; by apply app_inv_tail in E).
    destruct fuel as [|fuel]; [destruct l; [done|cbn in Hf; lia]|]. destruct l as [|c l]; [done|].
    cbn [header_loop]. rewrite find_crlf_none by done. unfold first_header. cbn [omap list_omap].
    by destruct (header_line name (c :: l)).
  - assert (exists b, block = l ++ crlf ++ b /\ b ++ crlf = HttpClient.unlines (l' :: lines)) as (b & -> & Eb).
    { by apply block_cons in E. }
    rewrite !length_app in Hf. change (length crlf) with 2 in Hf.
    destruct fuel as [|fuel]; [lia|]. destruct l as [|c l]; [done|].
    change ((c :: l) ++ crlf ++ b) with (c :: (l ++ crlf ++ b)). cbn [header_loop].
    change (c :: (l ++ crlf ++ b)) with ((c :: l) ++ crlf ++ b).
    rewrite find_crlf_line, take_app_length by done. unfold first_header. cbn [omap list_omap].
    destruct (header_line name (c :: l)); [done|]. rewrite drop_app_add. change (drop 2 (crlf ++ b)) with (drop 0 b). rewrite drop_0.
    apply (IH fuel b Eb). lia.
Qed.

Lemma GetHeaderValue_lines name lines block :
  Forall HttpClient.line_ok lines -> block ++ crlf = HttpClient.unlines lines ->
  GetHeaderValue block name = first_header (ToLower (bytes_of name)) lines.
Proof. intros. by apply header_loop_lines. Qed.

(** A line that does not start with the name. *)
Lemma header_line_other (c : ascii) name pre rest :
  c ∈ pre -> c ∉ name -> tolower c = c -> ":"%char ∉ pre ->
  header_line name (pre ++ rest) = None.
Proof.
  intros Hc Hn Ht Hp. unfold header_line. destruct (find_sub [":"%char] (pre ++ rest)) as [i|] eqn:E; [|done].
  rewrite bool_decide_eq_false_2; [done|]. intros <-. apply Hn.
  apply find_sub_char_Some in E as (a & b & E & Ha & ->).
  assert (exists t, a = pre ++ t) as [t ->].
  { apply app_eq_inv in E as [(k & -> & E)|(k & -> & E)]; [|by eexists].
    destruct k as [|x k]; [by exists []; rewrite !app_nil_r|]. cbn in E. injection E as <- _.
    exfalso. apply Hp, elem_of_app. right. left. }
  rewrite E, take_app_length. unfold ToLower. rewrite fmap_app. apply elem_of_app. left.
  apply list_elem_of_fmap. exists c. by rewrite Ht.
Qed.

(** ** A request of the client, read by the server *)

Lemma header_value_number (n : Z) : header_value (chr 32 :: HttpFrames.number n) = HttpFrames.number n.
Proof.
  unfold header_value, HttpFrames.number. change (drop_while is_blank (chr 32 :: bytes_of (pretty n))) with (drop_while is_blank (bytes_of (pretty n))).
  assert (Hc : forall c, c ∈ bytes_of (pretty n) -> is_trim c = false) by (intros c Hc; by apply pretty_clean in Hc as [? _]).
  assert (drop_while is_blank (bytes_of (pretty n)) = bytes_of (pretty n)) as ->.
  { destruct (bytes_of (pretty n)) as [|c l]; [done|]. cbn [drop_while]. assert (is_blank c = false) as ->; [|done].
    specialize (Hc c ltac:(left)). unfold is_blank, is_trim in *. rewrite bool_decide_eq_false in *. set_solver. }
  assert (reverse (drop_while is_trim (reverse (bytes_of (pretty n)))) = bytes_of (pretty n)) as ->.
  { rewrite <- (reverse_involutive (bytes_of (pretty n))) at 2. f_equal.
    destruct (reverse (bytes_of (pretty n))) as [|c l] eqn:E; [done|]. cbn [drop_while].
    rewrite Hc; [done|]. rewrite <- elem_of_reverse, E. left. }
  by case_bool_decide.
Qed.

Lemma stoull_number (n : nat) : (Z.of_nat n < 2 ^ 64)%Z -> stoull (HttpFrames.number (Z.of_nat n)) = Some (Z.of_nat n).
Proof.
  intros H. unfold stoull, HttpFrames.number. rewrite scan_int_pretty, (proj2 (Z.ltb_lt _ _)) by lia. by rewrite u64_small by lia.
Qed.

Lemma content_length_announced p method rbody headers block :
  chr 13 ∉ method /\ chr 13 ∉ HttpClient.path p /\ chr 13 ∉ HttpClient.host p -> ":"%char ∉ method ->
  Forall (fun kv => chr 13 ∉ kv.1 /\ chr 13 ∉ kv.2) headers -> (len rbody < 2 ^ 64)%Z ->
  block ++ crlf = HttpClient.unlines (HttpClient.head_lines p method rbody headers) ->
  content_length_of block = len rbody.
Proof.
  intros (Hm & Hp & Hh) Hc Hhs Hl E. unfold content_length_of.
  rewrite (GetHeaderValue_lines _ _ _ (HttpClient.head_lines_ok p method rbody headers Hm Hp Hh Hhs) E).
  unfold HttpClient.head_lines, first_header. cbn [app omap list_omap].
  rewrite (app_assoc method), (header_line_other " "%char); [| |by apply (bool_decide_unpack _)|done|].
  - assert (header_line (ToLower (bytes_of "content-length")) (bytes_of "Host: " ++ HttpClient.host p) = None) as -> by reflexivity.
    assert (header_line (ToLower (bytes_of "content-length")) (bytes_of "Content-Length: " ++ bytes_of (pretty (Z.of_nat (length rbody)))) =
      Some (header_value (chr 32 :: HttpFrames.number (Z.of_nat (length rbody))))) as -> by reflexivity.
    rewrite header_value_number, stoull_number by done. case_bool_decide as En; [|done].
    exfalso. pose proof (stoull_number (length rbody) Hl) as Hs. by rewrite En in Hs.
  - apply elem_of_app. right. left.
  - apply not_elem_of_app. split; [done|]. by apply HttpClient.bytes_without.
Qed.

Lemma request_line_parts method path rest :
  chr 13 ∉ method -> chr 13 ∉ path -> " "%char ∉ method -> " "%char ∉ path ->
  request_line ((method ++ bytes_of " " ++ path ++ bytes_of " HTTP/1.1") ++ crlf ++ rest) = (method, path).
Proof.
  intros Hm Hp Hsm Hsp. unfold request_line. rewrite find_crlf_line, take_app_length.
  - change (bytes_of " " ++ path ++ bytes_of " HTTP/1.1") with (" "%char :: (path ++ " "%char :: bytes_of "HTTP/1.1")).
    rewrite find_sub_char, take_app_length, drop_app_add by done. cbn [skipn]. rewrite drop_0.
    by rewrite find_sub_char, take_app_length by done.
  - rewrite !not_elem_of_app. split_and!; (done || by apply HttpClient.bytes_without).
Qed.

(** C29: the server reads what the client sends.  A request made by the client of
    HttpClient.v, delivered in any segments, is read back with the client's method,
    path and body, byte for byte, and nothing is left on the connection; the body may
    be up to 16 MiB. *)
Theorem server_reads_client_request (p : HttpClient.ParsedUrl) (method rbody : bytes) (headers : list (bytes * bytes)) (sock : Socket) :
  chr 13 ∉ method -> " "%char ∉ method -> ":"%char ∉ method ->
  chr 13 ∉ HttpClient.path p -> " "%char ∉ HttpClient.path p -> chr 13 ∉ HttpClient.host p ->
  Forall (fun kv => chr 13 ∉ kv.1 /\ chr 13 ∉ kv.2) headers -> (len rbody <= kMaxRequest)%Z ->
  Forall (fun s => s <> []) sock -> concat sock = HttpClient.BuildRequest p method rbody headers ->
  exists block, read_request sock = Got (block, rbody, []) /\ request_line block = (method, HttpClient.path p).
Proof.
  intros Hm Hsm Hcm Hp Hsp Hh Hhs Hl Hne E. rewrite HttpClient.BuildRequest_lines in E.
  destruct (HttpClient.split_message (HttpClient.head_lines p method rbody headers) rbody) as (n & H1 & H2 & H3);
    [by apply HttpClient.head_lines_ok|done|]. rewrite <- E in H1, H2, H3.
  pose proof (find_sub_split _ _ _ H1) as [_ Hn]. change (length blank_line) with 4 in Hn.
  assert (Hcl : content_length_of (take n (concat sock)) = len rbody).
  { apply (content_length_announced p method rbody headers); try done. unfold kMaxRequest in Hl. lia. }
  exists (take n (concat sock)). split.
  - rewrite <- H3 at 1. apply read_request_exact; rewrite ?Hcl; [done|done|done|].
    unfold len, sent. rewrite <- H3, length_drop. lia.
  - unfold HttpClient.head_lines in H2. cbn [app] in H2. rewrite HttpClient.unlines_cons in H2.
    pose proof (HttpClient.head_lines_ok p method rbody headers Hm Hp Hh Hhs) as HF.
    unfold HttpClient.head_lines in HF. cbn [app] in HF. apply Forall_cons in HF as [_ HF].
    apply block_cons in H2 as (b & -> & _); [|done|done]. by apply request_line_parts.
Qed.

(** A request in three segments. *)
Definition demo_request : bytes := HttpClient.BuildRequest HttpClient.demo_url (bytes_of "POST") (bytes_of "{}") [].
Definition demo_socket : Socket := [take 7 demo_request; take 40 (drop 7 demo_request); drop 47 demo_request].

Lemma server_reads_client_request_witness :
  exists block, read_request demo_socket = Got (block, bytes_of "{}", []) /\ request_line block = (bytes_of "POST", bytes_of "/v1/data").
Proof.
  apply (server_reads_client_request HttpClient.demo_url (bytes_of "POST") (bytes_of "{}") [] demo_socket);
    try (by apply HttpClient.bytes_without); try done.
  repeat constructor; by vm_compute.
Defined.

(** What the peer sends after the announced body, in a segment of its own time, stays
    on the connection; what arrives with the body becomes part of it. *)
Example pipelined_request_joins_body :
  match read_request [demo_request ++ demo_request] with
  | Got (_, body, rest) => body = bytes_of "{}" ++ demo_request /\ rest = []
  | _ => False
  end /\
  match read_request [take 60 demo_request; drop 60 demo_request; demo_request] with
  | Got (_, body, rest) => body = bytes_of "{}" /\ rest = [demo_request]
  | _ => False
  end.
Proof. by vm_compute. Qed.

(** A head of any size is read: no answer of the first phase is "too large". *)
Lemma header_block_unbounded sock n :
  Forall (fun s => s <> []) sock -> find_sub blank_line (concat sock) = Some n ->
  (exists acc sock', read_headers (S (sent sock)) kInitialBuf [] sock = Got (n, acc, sock')) /\
  forall fuel any, read_headers fuel kInitialBuf [] any <> TooLarge.
Proof.
  intros Hne Hn. split; [|intros; by apply header_limit_unreachable].
  destruct (read_headers_found (S (sent sock)) kInitialBuf [] sock n) as (acc & sock' & H & _);
    [lia|unfold kInitialBuf, len; cbn; lia|done|done|done|eauto].
Qed.

(** ** Identity *)

Section IdentityFacts.
Context (sha256 : bytes -> list Z).
Context (parse : bytes -> option json) (rsa_verify : bytes -> bytes -> bytes -> bytes -> bool).
Context (override : option (bytes -> bytes -> Oidc.JwkKey -> bool)).

Definition open_server (keys : gmap bytes (gset bytes)) (oidc : option Oidc.OIDCValidator) : Prop :=
  keys = ∅ /\ match oidc with Some v => Oidc.Enabled v = false | None => True end.

(** An API key the server knows: its hash is the subject. *)
Definition known_key (keys : gmap bytes (gset bytes)) (token : bytes) (ctx : AuthContext) : Prop :=
  exists s, keys !! ApiKeyAuth.HashKey sha256 token = Some s /\
    ctx = mkContext (ApiKeyAuth.SubjectFromHash (ApiKeyAuth.HashKey sha256 token)) s.

(** A token of the identity provider. *)
Definition valid_token (oidc : option Oidc.OIDCValidator) (call : Oidc.Call) (c : Oidc.Cache) (token : bytes) (ctx : AuthContext) : Prop :=
  exists v sub c', oidc = Some v /\ Oidc.Enabled v = true /\ Oidc.Validate parse rsa_verify v override call token c = (true, sub, c') /\
    ctx = mkContext (if bool_decide (sub = []) then bytes_of "oidc-user" else sub) user_scopes.

Lemma HasKeys_true keys : ApiKeyAuth.HasKeys keys = true <-> keys <> ∅.
Proof. apply bool_decide_eq_true. Qed.

Lemma known_hash keys hash : ApiKeyAuth.HasKeys keys && ApiKeyAuth.IsAllowedByHash hash keys = bool_decide (is_Some (keys !! hash)).
Proof.
  unfold ApiKeyAuth.HasKeys, ApiKeyAuth.IsAllowedByHash. repeat case_bool_decide; try done. exfalso.
  destruct (decide (keys = ∅)) as [->|]; [|done]. rewrite lookup_empty in *. by destruct H0.
Qed.

(** Who a request comes from.  With neither keys nor an identity provider every
    request is anonymous, with the scopes read and generate.  Otherwise a request is
    let in exactly when it carries a bearer token that is a known API key, with the
    scopes of that key, or, no key being known by that token, one that the identity
    provider's keys validate, with read and generate only. *)
Theorem subject_resolved keys oidc call headers c ctx :
  (ResolveSubject sha256 parse rsa_verify override keys oidc call headers c).1 = Some ctx <->
  (open_server keys oidc /\ ctx = mkContext (bytes_of "anonymous") user_scopes) \/
  (~ open_server keys oidc /\ let token := ExtractBearerToken headers in token <> [] /\
    (known_key keys token ctx \/
     (keys !! ApiKeyAuth.HashKey sha256 token = None /\ valid_token oidc call c token ctx))).
Proof.
  unfold ResolveSubject. set (enabled := match oidc with Some v => Oidc.Enabled v | None => false end).
  assert (Hopen : open_server keys oidc <-> ApiKeyAuth.HasKeys keys || enabled = false).
  { unfold open_server, enabled. rewrite orb_false_iff. unfold ApiKeyAuth.HasKeys. rewrite bool_decide_eq_false.
    destruct oidc; split; intros [H ?]; split; try done; [by intros ?|by apply dec_stable|by intros ?|by apply dec_stable]. }
  destruct (ApiKeyAuth.HasKeys keys || enabled) eqn:E; cbn [negb]; [|naive_solver].
  assert (Hno : ~ open_server keys oidc) by (rewrite Hopen; done).
  case_bool_decide as Et; [naive_solver|]. rewrite known_hash. unfold known_key, valid_token, ApiKeyAuth.ScopesByHash.
  case_bool_decide as Ek.
  - destruct Ek as [s Hs]. rewrite Hs, list_to_set_elements_L. naive_solver.
  - rewrite <- eq_None_not_Some in Ek. rewrite Ek. destruct oidc as [v|]; [|naive_solver].
    destruct (Oidc.Enabled v) eqn:Ev; [|naive_solver].
    destruct (Oidc.Validate parse rsa_verify v override call (ExtractBearerToken headers) c) as [[ok sub] c'] eqn:Eo.
    destruct ok; cbn [fst]; split.
    + intros [= <-]. right. split_and!; [done|done|]. right. split; [done|]. exists v, sub, c'. by rewrite Eo.
    + intros [[? _]|(_ & _ & [(? & ? & _)|(_ & v' & sub' & c'' & [= <-] & _ & Eo' & ->)])]; [done|congruence|].
      rewrite Eo in Eo'. by injection Eo' as -> ->.
    + done.
    + intros [[? _]|(_ & _ & [(? & ? & _)|(_ & v' & sub' & c'' & [= <-] & _ & Eo' & ->)])]; [done|congruence|].
      by rewrite Eo in Eo'.
Qed.

(** Only an API key that carries the scope makes an administrator. *)
Lemma admin_needs_key keys oidc call headers c ctx :
  (ResolveSubject sha256 parse rsa_verify override keys oidc call headers c).1 = Some ctx -> RequireScope ctx "admin" = true ->
  exists s, keys !! ApiKeyAuth.HashKey sha256 (ExtractBearerToken headers) = Some s /\ bytes_of "admin" ∈ s.
Proof.
  unfold ResolveSubject. set (enabled := match oidc with Some v => Oidc.Enabled v | None => false end).
  assert (Hu : RequireScope (mkContext (bytes_of "anonymous") user_scopes) "admin" = false) by by vm_compute.
  assert (Hu' : forall sub, RequireScope (mkContext sub user_scopes) "admin" = false) by (intros; exact Hu).
  destruct (negb _); [intros [= <-]; by rewrite Hu'|]. case_bool_decide; [done|]. rewrite known_hash.
  case_bool_decide as Ek.
  - intros [= <-]. unfold RequireScope, ApiKeyAuth.ScopesByHash. cbn [scopes]. rewrite bool_decide_eq_true.
    destruct Ek as [s Hs]. rewrite Hs, list_to_set_elements_L. eauto.
  - destruct oidc as [v|]; [|done]. destruct (Oidc.Enabled v); [|done].
    destruct (Oidc.Validate _ _ _ _ _ _ _) as [[[] sub] c']; [|done]. intros [= <-]. by rewrite Hu'.
Qed.
End IdentityFacts.

(** ** Readiness and admission *)

(** The checks on the transport that count against the server. *)
Definition degraded (s : ServerView) : Prop :=
  server_role s <> kPrefill /\ (exists sc, scheduler s = Some sc /\ has_transport sc = true) /\
  exists debt streak, timeouts s = Some (debt, streak) /\
    ((0 < streak_threshold s <= streak)%Z \/ (0 < debt_threshold s <= debt)%Z).

Lemma degraded_iff s : disagg_transport_degraded (EvaluateReadyStatus s) = true <-> degraded s.
Proof.
  unfold EvaluateReadyStatus, degraded, checks_transport. destruct (if bool_decide (server_role s = kDecode) then _ else _) as [rdy why].
  destruct (scheduler s) as [sc|]; cbn [negb andb]; [|naive_solver].
  destruct (has_transport sc) eqn:Et; cbn [andb]; [|naive_solver].
  case_bool_decide as Er; cbn [negb andb]; [naive_solver|].
  destruct (timeouts s) as [[debt streak]|]; [|destruct (_ || _); naive_solver].
  destruct (Z.ltb_spec 0 (streak_threshold s)), (Z.ltb_spec 0 (debt_threshold s)); cbn [orb andb disagg_transport_degraded];
    rewrite ?orb_true_iff, ?orb_false_r, ?Z.leb_le; split; intros Hx;
    try (split_and!; [done|eauto|exists debt, streak; split; [done|lia]]);
    try done; destruct Hx as (_ & _ & ? & ? & [= <- <-] & ?); lia.
Qed.

Lemma ready_cases s :
  let st := EvaluateReadyStatus s in
  (ready st = true <-> model_loaded st = true /\ (server_role s = kDecode -> decode_pool_warm st = true) /\ disagg_transport_degraded st = false) /\
  (reason st = "" <-> ready st = true).
Proof.
  unfold EvaluateReadyStatus. destruct (if checks_transport s then timeouts s else None) as [[debt streak]|].
  1: destruct (_ || _).
  all: case_bool_decide; destruct (loaded_of s), (warm_of s); cbn; naive_solver.
Qed.

(** Readiness and admission.  The server reports ready exactly when a model is
    loaded, its decode workers all live when it is a decode server, and its KV
    transport is not degraded; a reason is given exactly when it is not ready.
    Generation is refused exactly when the server is set to fail closed and the
    transport is degraded, with status 503, and then the server is not ready. *)
Theorem readiness_decides_admission (s : ServerView) :
  let st := EvaluateReadyStatus s in
  let adm := EvaluateGenerationAdmissionDecision s in
  (ready st = true <-> model_loaded st = true /\ (server_role s = kDecode -> decode_pool_warm st = true) /\ ~ degraded s) /\
  (reason st = "" <-> ready st = true) /\
  (adm_allowed adm = false <-> fail_closed s = true /\ degraded s) /\
  (adm_allowed adm = false -> http_status adm = 503%Z /\ ready st = false /\ adm_reason adm <> "").
Proof.
  cbv zeta. pose proof (degraded_iff s) as Hd. unfold EvaluateGenerationAdmissionDecision.
  destruct (ready_cases s) as [Hready Hreason].
  rewrite <- Hd, not_true_iff_false. split_and!; [exact Hready|exact Hreason|..].
  - destruct (fail_closed s), (disagg_transport_degraded _); cbn; naive_solver.
  - destruct (fail_closed s), (disagg_transport_degraded _) eqn:E; cbn [negb orb adm_allowed]; try done.
    intros _. cbn [http_status adm_reason]. split_and!; [done| |].
    + apply not_true_iff_false. rewrite Hready. naive_solver.
    + destruct (String.eqb_spec (reason (EvaluateReadyStatus s)) ""); [done|by intros].
Qed.
