(* ===== verification/HttpConnections.v ===== *)
(** * server/http/http_server.cpp: listeners, the accept queue and the workers

    How the server opens its listeners, and what happens to the socket and the TLS
    connection of every client: accepted, handshaken, queued up to a bound, taken by
    a worker, closed.  Every use of a resource is an event; an event that is not
    legal (a socket closed twice, or closed under a live TLS connection) makes the
    whole run fail.  The outcomes of the system and OpenSSL calls are part of the
    actions. *)

From stdpp Require Import base tactics numbers list strings gmap.
From Stdlib Require Import Ascii.
From S2P Require Import Prelude StringUtils.

(** ** Configuration of the listeners: the constructor *)

Record TlsConfig := mkTls { tls_enabled : bool; cert_path : bytes; key_path : bytes; tls_port : Z; tls_bind_host : bytes }.

Record Listener := mkListener { name : string; bind_host : bytes; port : Z; has_ctx : bool }.

(** [BuildSslCtx(cert, key, check_key_match)]: whether it succeeds; on the left the start-up error,
    without the text of OpenSSL. *)
Definition configure (build_ctx : bool -> bool) (host : bytes) (http_port : Z) (tls : TlsConfig) : string + list Listener :=
  let missing := bool_decide (cert_path tls = []) || bool_decide (key_path tls = []) in
  let http := mkListener "http" host http_port false in
  if (0 <? tls_port tls)%Z then
    if missing then inl "tls.port requires tls.cert_path and tls.key_path; refusing to start without a certificate"
    else if build_ctx true then
      inr [http; mkListener "https" (if bool_decide (tls_bind_host tls = []) then bytes_of "0.0.0.0" else tls_bind_host tls) (tls_port tls) true]
    else inl "https listener: "
  else if tls_enabled tls then inr [mkListener "http" host http_port (negb missing && build_ctx false)]
  else inr [http].

(** [Start]: the sockets that stay open, none when a listener cannot be bound.
    [bind] gives the descriptor of listener number [i], or fails. *)
Fixpoint bind_from (bind : nat -> option Z) (n i : nat) (bound : list Z) : option (list Z) :=
  match n with
  | 0 => Some bound
  | S n => match bind i with Some fd => bind_from bind n (S i) (bound ++ [fd]) | None => None end
  end.

(** [running_] afterwards, and the listening sockets. *)
Definition Start (running : bool) (config : string + list Listener) (bind : nat -> option Z) (open : list Z) : bool * list Z :=
  if running then (true, open)
  else match config with
       | inl _ | inr [] => (false, open)
       | inr ls => match bind_from bind (length ls) 0 [] with Some fds => (true, open ++ fds) | None => (false, open) end
       end.

(** ** Resources *)

Inductive event := OpenSocket (fd : Z) | NewSsl (fd : Z) | FreeSsl (fd : Z) | CloseSocket (fd : Z).

(** The open sockets, and whether each has a TLS connection. *)
Abbreviation Resources := (gmap Z bool).

Definition apply_event (r : Resources) (e : event) : option Resources :=
  match e with
  | OpenSocket fd => if bool_decide (r !! fd = None) then Some (<[fd := false]> r) else None
  | NewSsl fd => if bool_decide (r !! fd = Some false) then Some (<[fd := true]> r) else None
  | FreeSsl fd => if bool_decide (r !! fd = Some true) then Some (<[fd := false]> r) else None
  | CloseSocket fd => if bool_decide (r !! fd = Some false) then Some (delete fd r) else None
  end.

Fixpoint apply_events (r : Resources) (l : list event) : option Resources :=
  match l with
  | [] => Some r
  | e :: l' => match apply_event r e with Some r' => apply_events r' l' | None => None end
  end.

(** ** Sessions *)

Record ClientSession := mkSession { fd : Z; ssl : bool }.

(** [CloseSession] of a session with a socket. *)
Definition CloseSession (s : ClientSession) : list event := (if ssl s then [FreeSsl (fd s)] else []) ++ [CloseSocket (fd s)].

Record HttpServer := mkServer { running : bool; client_queue : list ClientSession; held : list ClientSession; resources : Resources }.

Definition started_server : HttpServer := mkServer true [] [] ∅.

(** The environment variable that bounds the queue. *)
Definition max_pending_of (v : Z) : nat := if (0 <? v)%Z then Z.to_nat v else 256.

(** One accepted connection in [AcceptLoop]: the events, and the session to queue.
    [tls]: the listener has a TLS context; [ssl_ok]: [SSL_new] gives a connection;
    [handshake_ok]: signals are set up and [SSL_accept] succeeds. *)
Definition accept_client (max_pending : nat) (running tls ssl_ok handshake_ok : bool) (client_fd : Z) (queue : list ClientSession) :
    list event * list ClientSession :=
  if negb running then ([OpenSocket client_fd; CloseSocket client_fd], queue)
  else if tls && negb ssl_ok then ([OpenSocket client_fd; CloseSocket client_fd], queue)
  else if tls && negb handshake_ok then ([OpenSocket client_fd; NewSsl client_fd; FreeSsl client_fd; CloseSocket client_fd], queue)
  else
    let opened := OpenSocket client_fd :: (if tls then [NewSsl client_fd] else []) in
    if max_pending <=? length queue
    then (opened ++ (if tls then [FreeSsl client_fd] else []) ++ [CloseSocket client_fd], queue)
    else (opened, queue ++ [mkSession client_fd tls]).

Inductive action :=
  | Accept (client_fd : Z) (tls ssl_ok handshake_ok : bool)  (* a turn of [AcceptLoop] *)
  | Take                     (* a worker takes the first session *)
  | Finish (i : nat)         (* the worker of the [i]th held session closes it *)
  | StopRunning              (* [Stop] clears [running_] *)
  | Drain.                   (* the end of [Stop], after the workers were joined *)

(** [None]: an illegal use of a resource.  An action that cannot happen in the state
    changes nothing: the kernel hands out descriptors that are not open. *)
Definition exec (max_pending : nat) (s : HttpServer) (a : action) : option HttpServer :=
  match a with
  | Accept client_fd tls ssl_ok handshake_ok =>
      if bool_decide (is_Some (resources s !! client_fd)) then Some s
      else
        let '(events, queue) := accept_client max_pending (running s) tls ssl_ok handshake_ok client_fd (client_queue s) in
        match apply_events (resources s) events with
        | Some r => Some (mkServer (running s) queue (held s) r)
        | None => None
        end
  | Take =>
      match client_queue s with
      | [] => Some s
      | session :: queue => Some (mkServer (running s) queue (held s ++ [session]) (resources s))
      end
  | Finish i =>
      match held s !! i with
      | None => Some s
      | Some session =>
          match apply_events (resources s) (CloseSession session) with
          | Some r => Some (mkServer (running s) (client_queue s) (delete i (held s)) r)
          | None => None
          end
      end
  | StopRunning => Some (mkServer false (client_queue s) (held s) (resources s))
  | Drain =>
      match running s, held s, client_queue s with
      | false, [], session :: queue =>
          match apply_events (resources s) (CloseSession session) with
          | Some r => Some (mkServer false queue [] r)
          | None => None
          end
      | _, _, _ => Some s
      end
  end.

Fixpoint run (max_pending : nat) (s : HttpServer) (l : list action) : option HttpServer :=
  match l with
  | [] => Some s
  | a :: l' => match exec max_pending s a with Some s' => run max_pending s' l' | None => None end
  end.

(** ** Every connection is accounted for *)

Definition sessions (s : HttpServer) : list ClientSession := client_queue s ++ held s.

(** The sockets that are open are those of the sessions, each with its TLS connection. *)
Record accounted (max_pending : nat) (s : HttpServer) : Prop := {
  ac_bound : length (client_queue s) <= max_pending;
  ac_nodup : NoDup (fd <$> sessions s);
  ac_open : forall x b, resources s !! x = Some b <-> mkSession x b ∈ sessions s }.

Lemma session_eta s : mkSession (fd s) (ssl s) = s.
Proof. by destruct s. Qed.

Lemma close_session_ok r s : r !! fd s = Some (ssl s) -> apply_events r (CloseSession s) = Some (delete (fd s) r).
Proof.
  intros H. unfold CloseSession. destruct s as [x []]; cbn [fd ssl] in *; cbn [app apply_events apply_event].
  - rewrite bool_decide_eq_true_2 by done. rewrite lookup_insert_eq, bool_decide_eq_true_2 by done. by rewrite delete_insert_eq.
  - by rewrite bool_decide_eq_true_2.
Qed.

Lemma accept_client_ok max_pending rn tls ssl_ok hs x queue r :
  r !! x = None -> length queue <= max_pending ->
  let '(events, queue') := accept_client max_pending rn tls ssl_ok hs x queue in
  exists r', apply_events r events = Some r' /\ length queue' <= max_pending /\
    ((queue' = queue /\ r' = r) \/ (queue' = queue ++ [mkSession x tls] /\ r' = <[x := tls]> r)).
Proof.
  intros Hx Hq. assert (Hd : delete x (<[x := false]> r) = r) by by rewrite delete_insert_id.
  unfold accept_client. destruct rn, tls, ssl_ok, hs; cbn [negb andb];
    try destruct (Nat.leb_spec max_pending (length queue)); cbn [app apply_events apply_event];
    repeat (rewrite ?lookup_insert_eq, bool_decide_eq_true_2 by done);
    rewrite ?insert_insert_eq, ?Hd; eexists; (split; [reflexivity|]); rewrite ?length_app; cbn [length]; split; try lia; auto.
Qed.

Lemma fds_perm (l l' : list ClientSession) : l ≡ₚ l' -> NoDup (fd <$> l) -> NoDup (fd <$> l').
Proof. by intros ->. Qed.

(** Closing one session of those there are. *)
Lemma accounted_close max_pending s session q h :
  accounted max_pending s -> sessions s ≡ₚ session :: q ++ h -> length q <= max_pending ->
  apply_events (resources s) (CloseSession session) = Some (delete (fd session) (resources s)) /\
  forall rn, accounted max_pending (mkServer rn q h (delete (fd session) (resources s))).
Proof.
  intros [Hb Hn Ho] Hp Hq. split.
  - apply close_session_ok, Ho. rewrite session_eta, Hp. left.
  - intros rn. rewrite Hp in Hn. cbn [fmap list_fmap] in Hn. apply NoDup_cons in Hn as [Hnot Hn].
    split; [done|done|]. intros x b. cbn [resources]. unfold sessions. cbn [client_queue held].
    rewrite lookup_delete_Some, Ho, Hp, elem_of_cons. split.
    + intros [Hne [E|?]]; [|done]. by rewrite <- E in Hne.
    + intros Hin. split; [|by right]. intros E. apply Hnot. rewrite E. apply list_elem_of_fmap. by exists (mkSession x b).
Qed.

Lemma exec_accounted max_pending s a : accounted max_pending s -> exists s', exec max_pending s a = Some s' /\ accounted max_pending s'.
Proof.
  intros Hs. pose proof Hs as [Hb Hn Ho]. destruct a as [x tls ssl_ok hs| |i| |]; cbn [exec].
  - case_bool_decide as Hx; [by eexists|]. rewrite <- eq_None_not_Some in Hx.
    pose proof (accept_client_ok max_pending (running s) tls ssl_ok hs x (client_queue s) (resources s) Hx Hb) as H.
    destruct (accept_client _ _ _ _ _ _ _) as [events queue]. destruct H as (r & -> & Hl & [[-> ->]|[-> ->]]).
    + eexists. split; [done|]. by split.
    + eexists. split; [done|].
      assert (Hp : (client_queue s ++ [mkSession x tls]) ++ held s ≡ₚ mkSession x tls :: sessions s)
        by (unfold sessions; rewrite <- app_assoc; symmetry; apply Permutation_middle).
      split; [done| |]; unfold sessions; cbn [client_queue held resources].
      * rewrite Hp. cbn [fmap list_fmap]. apply NoDup_cons. split; [|done].
        intros ([y b] & E & Hin)%list_elem_of_fmap. cbn in E. subst y. apply Ho in Hin. congruence.
      * intros y b. rewrite Hp, elem_of_cons, lookup_insert_Some. rewrite <- Ho. split.
        -- intros [[<- <-]|[? ?]]; [by left|by right].
        -- intros [[= -> ->]|Hy]; [by left|]. right. split; [|done]. intros ->. congruence.
  - destruct (client_queue s) as [|session queue] eqn:E; [by eexists|]. eexists. split; [done|].
    assert (Hp : queue ++ held s ++ [session] ≡ₚ sessions s).
    { unfold sessions. rewrite E, app_assoc. rewrite (Permutation_app_comm _ [session]). done. }
    split; unfold sessions; cbn [client_queue held resources]; [cbn in Hb; lia|by rewrite Hp|]. intros. rewrite Hp. apply Ho.
  - destruct (held s !! i) as [session|] eqn:E; [|by eexists].
    destruct (accounted_close max_pending s session (client_queue s) (delete i (held s)) Hs) as [-> Hc]; [|done|by eexists].
    unfold sessions. rewrite (delete_Permutation _ _ _ E) at 1. symmetry. apply Permutation_middle.
  - eexists. split; [done|]. by split.
  - destruct (running s) eqn:Er; [by eexists|]. destruct (held s) as [|? ?] eqn:Eh; [|by eexists].
    destruct (client_queue s) as [|session queue] eqn:Eq; [by eexists|].
    destruct (accounted_close max_pending s session queue [] Hs) as [-> Hc]; [|cbn in Hb; lia|by eexists].
    unfold sessions. by rewrite Eq, Eh.
Qed.

Lemma run_accounted max_pending s l : accounted max_pending s -> exists s', run max_pending s l = Some s' /\ accounted max_pending s'.
Proof.
  revert s. induction l as [|a l IH]; intros s Hs; cbn [run]; [by eexists|].
  destruct (exec_accounted max_pending s a Hs) as (s' & -> & Hs'). by apply IH.
Qed.

Lemma started_accounted max_pending : accounted max_pending started_server.
Proof. split; cbn; [lia|constructor|]. intros x b. rewrite lookup_empty. split; [done|]. by intros ?%elem_of_nil. Qed.

(** C18: connections are never leaked, closed twice or kept without bound.  Whatever
    connections arrive, with or without TLS, whatever handshakes fail and in whatever
    order workers take and finish sessions and the server is stopped: no illegal use
    of a socket or TLS connection happens, the queue stays within its bound, and the
    open sockets and TLS connections are exactly those of the queued and the running
    sessions, no session being in two places. *)
Theorem connections_accounted (max_pending : nat) (l : list action) :
  exists s, run max_pending started_server l = Some s /\ accounted max_pending s.
Proof. apply run_accounted, started_accounted. Qed.

(** What [Stop] does from a state: the workers finish, and the queue is drained. *)
Definition shutdown (s : HttpServer) : list action :=
  StopRunning :: replicate (length (held s)) (Finish 0) ++ replicate (length (client_queue s)) Drain.

Lemma server_run_app max_pending s l l' s1 : run max_pending s l = Some s1 -> run max_pending s (l ++ l') = run max_pending s1 l'.
Proof.
  revert s. induction l as [|a l IH]; intros s; cbn [run app]; [by intros [= ->]|].
  destruct (exec max_pending s a); [apply IH|done].
Qed.

Lemma finish_all max_pending s n :
  accounted max_pending s -> length (held s) = n ->
  exists s', run max_pending s (replicate n (Finish 0)) = Some s' /\ accounted max_pending s' /\ held s' = [] /\
    client_queue s' = client_queue s /\ running s' = running s.
Proof.
  revert s. induction n as [|n IH]; intros s Hs Hn.
  { exists s. by destruct (held s). }
  destruct (exec_accounted max_pending s (Finish 0) Hs) as (s1 & E & Hs1). cbn [replicate run]. rewrite E.
  cbn [exec] in E. destruct (held s) as [|x h] eqn:Eh; [done|]. cbn [lookup list_lookup] in E.
  destruct (apply_events _ _); simplify_eq. cbn in Hn. injection Hn as Hn.
  destruct (IH _ Hs1) as (s' & ? & ? & ? & Hq & Hr); [done|]. exists s'. by rewrite Hq, Hr.
Qed.

Lemma drain_all max_pending s n :
  accounted max_pending s -> running s = false -> held s = [] -> length (client_queue s) = n ->
  exists s', run max_pending s (replicate n Drain) = Some s' /\ accounted max_pending s' /\ sessions s' = [].
Proof.
  revert s. induction n as [|n IH]; intros s Hs Hr Hh Hn.
  { exists s. unfold sessions. rewrite Hh. by destruct (client_queue s). }
  destruct (exec_accounted max_pending s Drain Hs) as (s1 & E & Hs1). cbn [replicate run]. rewrite E.
  cbn [exec] in E. rewrite Hr, Hh in E. destruct (client_queue s) as [|x q] eqn:Eq; [done|].
  destruct (apply_events _ _); simplify_eq. cbn in Hn. injection Hn as Hn. by apply IH.
Qed.

(** Stopping releases everything.  From any state the server can reach, once
    [Stop] has cleared [running_], the workers have finished their sessions and the
    queue is drained, no socket and no TLS connection is left open. *)
Theorem stop_releases_connections (max_pending : nat) (l : list action) (s : HttpServer) :
  run max_pending started_server l = Some s ->
  exists s', run max_pending s (shutdown s) = Some s' /\ sessions s' = [] /\ resources s' = ∅.
Proof.
  intros Hrun. destruct (run_accounted max_pending started_server l (started_accounted _)) as (s0 & E & Hs). simplify_eq.
  set (s1 := mkServer false (client_queue s) (held s) (resources s)).
  assert (Hs1 : accounted max_pending s1) by by destruct Hs; split.
  destruct (finish_all max_pending s1 (length (held s)) Hs1 eq_refl) as (s2 & E2 & Hs2 & Hh & Hq & Hr).
  destruct (drain_all max_pending s2 (length (client_queue s)) Hs2 Hr Hh) as (s3 & E3 & Hs3 & Hnil); [by rewrite Hq|].
  exists s3. split_and!; [|done|].
  - unfold shutdown. cbn [run exec]. fold s1. by rewrite (server_run_app _ _ _ _ _ E2).
  - apply map_empty. intros x. destruct (resources s3 !! x) as [b|] eqn:Ex; [|done].
    apply (ac_open _ _ Hs3) in Ex. rewrite Hnil in Ex. by apply elem_of_nil in Ex.
Qed.

(** Three clients, room for one in the queue: one by TLS is queued, one is refused,
    one is taken by a worker. *)
Definition demo_actions : list action :=
  [Accept 5 false true true; Take; Accept 6 true true true; Accept 7 true true true; Accept 8 true true false].

Lemma stop_releases_connections_witness :
  exists s s', run 1 started_server demo_actions = Some s /\ client_queue s = [mkSession 6 true] /\ held s = [mkSession 5 false] /\
    run 1 s (shutdown s) = Some s' /\ sessions s' = [] /\ resources s' = ∅.
Proof.
  assert (E : exists s, run 1 started_server demo_actions = Some s /\ client_queue s = [mkSession 6 true] /\ held s = [mkSession 5 false])
    by (eexists; vm_compute; done).
  destruct E as (s & E & Hq & Hh). destruct (stop_releases_connections 1 demo_actions s E) as (s' & H). exists s, s'. done.
Defined.

(** ** Starting *)

Lemma bind_from_some bind n i bound fds : bind_from bind n i bound = Some fds -> length fds = length bound + n.
Proof.
  revert i bound. induction n as [|n IH]; intros i bound; cbn [bind_from]; [intros [= ->]; lia|].
  destruct (bind i); [|done]. intros H%IH. rewrite length_app in H. cbn in H. lia.
Qed.

(** The server starts completely or not at all.  A server that was not running
    either runs afterwards, with one socket per configured listener, or does not run
    and holds no socket; and with a dedicated HTTPS port it only starts when the
    certificate and key are there and valid, with a TLS listener on that port. *)
Theorem start_all_or_nothing build_ctx host http_port tls bind :
  let config := configure build_ctx host http_port tls in
  let '(started, open) := Start false config bind [] in
  (started = true /\ exists ls, config = inr ls /\ length open = length ls /\ ls <> [] /\
     ((0 < tls_port tls)%Z -> build_ctx true = true /\ cert_path tls <> [] /\ key_path tls <> [] /\
        exists l, l ∈ ls /\ port l = tls_port tls /\ has_ctx l = true)) \/
  (started = false /\ open = []).
Proof.
  cbv zeta. unfold Start. destruct (configure build_ctx host http_port tls) as [e|ls] eqn:Ec; [by right|].
  destruct ls as [|l0 ls0]; [by right|]. destruct (bind_from bind _ 0 []) as [fds|] eqn:Eb; [|by right].
  left. split; [done|]. exists (l0 :: ls0). apply bind_from_some in Eb. split_and!; [done|exact Eb|done|].
  intros Hp. unfold configure in Ec. rewrite (proj2 (Z.ltb_lt _ _) Hp) in Ec.
  destruct (bool_decide (cert_path tls = []) || bool_decide (key_path tls = [])) eqn:Em; [done|].
  apply orb_false_iff in Em as [Hc Hk]. apply bool_decide_eq_false in Hc, Hk.
  destruct (build_ctx true); simplify_eq. split_and!; [done..|].
  eexists. split; [right; left|]. done.
Qed.
