(* ===== verification/HttpAdmin.v ===== *)
(** * server/http/http_server.cpp: routes, scopes and the administration endpoints

    [HandleClient] after a request is read: which route serves it, what it must
    prove first, and what the administration endpoints do to the API keys, the
    guardrail, the rate limit and the routing options, in memory and in the policy
    store.  Builds on the authenticator, the store, the limiter and the guardrail of
    their own files. *)

From stdpp Require Import base tactics numbers list strings gmap.
From Stdlib Require Import Ascii.
From S2P Require Import RateLimiter Prelude StringUtils Json AccessControl PolicyStore HttpServer.
From S2P Require ModelSelection HttpRequests Oidc HttpClient.

Abbreviation Guardrail := Guardrail.Guardrail.
Abbreviation Options := ModelSelection.ModelSelectionOptions.

(** ** Routes *)

Inductive Route :=
  | Ui | Healthz | Livez | Readyz | Preflight
  | Metrics | GuardrailsGet | GuardrailsPut | Pools | RateLimitGet | RateLimitPut
  | ApiKeysGet | ApiKeysPost | ApiKeysDelete | AdminModelsGet | AdminModelsPost | AdminModelsDelete | DefaultModelPut
  | RoutingGet | RoutingPut | CacheGet | CacheWarm | Models | Embeddings | Tokenize | Generation | NotFound.
#[export] Instance Route_eq_dec : EqDecision Route.
Proof. solve_decision. Defined.

(** Served before any check; [webui]: built with the web interface. *)
Definition public_route (webui : bool) (method path : bytes) : option Route :=
  if webui && named method "GET" && named path "/ui" then Some Ui
  else if named method "GET" && named path "/healthz" then Some Healthz
  else if named method "GET" && named path "/livez" then Some Livez
  else if named method "GET" && named path "/readyz" then Some Readyz
  else if named method "OPTIONS" then Some Preflight
  else None.

Definition is_models_path (path : bytes) : bool :=
  named path "/v1/models" || (bool_decide (11 < length path) && bool_decide (take 11 path = bytes_of "/v1/models/")).

(** The handlers in the order of the code. *)
Definition route_of (method path : bytes) : Route :=
  let on (m p : string) := named method m && named path p in
  if on "GET" "/metrics" then Metrics
  else if on "GET" "/v1/admin/guardrails" then GuardrailsGet
  else if on "PUT" "/v1/admin/guardrails" then GuardrailsPut
  else if on "GET" "/v1/admin/pools" then Pools
  else if on "GET" "/v1/admin/rate_limit" then RateLimitGet
  else if on "PUT" "/v1/admin/rate_limit" then RateLimitPut
  else if on "GET" "/v1/admin/api_keys" then ApiKeysGet
  else if on "POST" "/v1/admin/api_keys" then ApiKeysPost
  else if on "DELETE" "/v1/admin/api_keys" then ApiKeysDelete
  else if on "GET" "/v1/admin/models" then AdminModelsGet
  else if on "POST" "/v1/admin/models" then AdminModelsPost
  else if on "DELETE" "/v1/admin/models" then AdminModelsDelete
  else if on "PUT" "/v1/admin/models/default" then DefaultModelPut
  else if on "GET" "/v1/admin/routing" then RoutingGet
  else if on "PUT" "/v1/admin/routing" then RoutingPut
  else if on "GET" "/v1/admin/cache" then CacheGet
  else if on "POST" "/v1/admin/cache/warm" then CacheWarm
  else if named method "GET" && is_models_path path then Models
  else if bool_decide (ClassifyRequest method path = RateLimiter.kEmbeddings) then Embeddings
  else if on "POST" "/v1/tokenize" then Tokenize
  else if bool_decide (ClassifyRequest method path = RateLimiter.kGeneration) then Generation
  else NotFound.

(** The scope that the handler asks for first. *)
Definition route_scope (r : Route) : option string :=
  match r with
  | Ui | Healthz | Livez | Readyz | Preflight | NotFound => None
  | Metrics | Models | Embeddings | Tokenize => Some "read"
  | Generation => Some "generate"
  | _ => Some "admin"
  end.

(** Everything up to the body of the handler: either the status of a refusal, or the
    handler that runs and for whom. *)
Inductive gate :=
  | Refused (status : Z)
  | Run (r : Route) (ctx : option AuthContext).

Section Gate.
(** The identity of the request, from [ResolveSubject]. *)
Context (resolve : bytes -> option AuthContext) (webui has_guardrail : bool) (now : Z).

Definition text_of (s : bytes) : string := String.string_of_list_ascii s.

Definition HandleClient (method path headers : bytes) (limiter : option RateLimiter) : gate * option RateLimiter :=
  match public_route webui method path with
  | Some r => (Run r None, limiter)
  | None =>
      match resolve headers with
      | None => (Refused 401, limiter)
      | Some ctx =>
          let '(limiter, admitted) :=
            match limiter with
            | Some l => let '(l, d) := RateLimiter.Admit l (text_of (subject ctx)) (ClassifyRequest method path) now in
                        (Some l, RateLimiter.allowed d)
            | None => (None, true)
            end in
          if negb admitted then (Refused 429, limiter)
          else
            let r := route_of method path in
            if bool_decide (r ∈ [GuardrailsGet; GuardrailsPut]) && negb has_guardrail then (Refused 503, limiter)
            else match route_scope r with
                 | Some scope => if RequireScope ctx scope then (Run r (Some ctx), limiter) else (Refused 403, limiter)
                 | None => (Run r (Some ctx), limiter)
                 end
      end
  end.
End Gate.

(** ** Bodies of administration requests *)

(** [get<std::vector<std::string>>]; [None]: it throws. *)
Fixpoint strings_of (l : list json) : option (list bytes) :=
  match l with
  | [] => Some []
  | JString s :: l' => cons s <$> strings_of l'
  | _ :: _ => None
  end.

(** The member of the body that is an array of strings; empty when it is missing, is no
    array, has other elements, or the body is no JSON. *)
Definition body_strings (parse : bytes -> bytes + json) (k : string) (body : bytes) : list bytes :=
  match parse body with
  | inr j => match get k j with Some (JArray l) => default [] (strings_of l) | _ => [] end
  | inl _ => []
  end.

(** The status of a failed [LoadModel], from [LastLoadError]. *)
Definition load_failure_status (load_error : bytes) : Z :=
  if HttpRequests.HasPrefix load_error (bytes_of "model_conflict:") then 409
  else if HttpRequests.HasPrefix load_error (bytes_of "placement_") then 422
  else if HttpRequests.HasPrefix load_error (bytes_of "backend_policy_violation:") then 422
  else 500.

(** The reason given for a load that the backend policy rejects. *)
Definition policy_violation_reason (load_error : bytes) : bytes :=
  let reason := HttpRequests.StripPrefix load_error (bytes_of "backend_policy_violation:") in
  if bool_decide (reason = []) then bytes_of "backend policy rejected model load" else reason.

Section Admin.
Context (sha256 : bytes -> list Z).
Context (gcm_encrypt : list Z -> list Z -> list Z -> option (list Z * list Z)).
Context (walk : gmap bytes (list bytes) -> list (bytes * list bytes)).
Context (parse : bytes -> bytes + json).
(** The file operations and the nonce of the save that the request makes. *)
Context (io : save_io) (nonce : option (list Z)).

Definition save (s : PolicyStore) (fs : files) : bool * files := Save gcm_encrypt walk io nonce s fs.

(** The keys in memory and the store. *)
Abbreviation Keys := (gmap bytes (gset bytes) * PolicyStore)%type.

Definition stored_scopes (h : bytes) (s : PolicyStore) : option (list bytes) :=
  snd <$> head (filter (fun e => e.1 = h) (ApiKeys walk s)).

Definition ApplyApiKeyMutation (key_hash : bytes) (apply : Keys -> Keys) (rollback : option (list bytes) -> Keys -> Keys)
    (st : Keys) (fs : files) : bool * Keys * files :=
  let previous_scopes := stored_scopes key_hash st.2 in
  let st1 := apply st in
  let '(ok, fs1) := save st1.2 fs in
  if ok then (true, st1, fs1) else (false, rollback previous_scopes st1, fs1).

Definition upsert_key (key : bytes) (scopes : list bytes) (st : Keys) : Keys :=
  (ApiKeyAuth.AddKey sha256 key scopes st.1, SetApiKey sha256 key scopes st.2).
Definition remove_key (key : bytes) (st : Keys) : Keys :=
  (ApiKeyAuth.RemoveKey sha256 key st.1, (RemoveApiKey sha256 key st.2).2).
Definition restore_key (key : bytes) (previous : list bytes) (st : Keys) : Keys :=
  (ApiKeyAuth.AddKeyHashed (ApiKeyAuth.HashKey sha256 key) previous st.1, SetApiKey sha256 key previous st.2).

(** The status of the answer, and the keys and files afterwards.  [POST /v1/admin/api_keys]: *)
Definition post_api_key (body : bytes) (st : Keys) (fs : files) : Z * Keys * files :=
  let key := HttpRequests.ParseJsonStringField parse body "key" in
  let scopes := body_strings parse "scopes" body in
  if bool_decide (key = []) then (400%Z, st, fs)
  else
    let '(persisted, st, fs) := ApplyApiKeyMutation (ApiKeyAuth.HashKey sha256 key) (upsert_key key scopes)
      (fun previous st => match previous with Some p => restore_key key p st | None => remove_key key st end) st fs in
    ((if persisted then 200 else 500)%Z, st, fs).

(** [DELETE /v1/admin/api_keys] *)
Definition delete_api_key (body : bytes) (st : Keys) (fs : files) : Z * Keys * files :=
  let key := HttpRequests.ParseJsonStringField parse body "key" in
  if bool_decide (key = []) then (400%Z, st, fs)
  else
    let '(persisted, st, fs) := ApplyApiKeyMutation (ApiKeyAuth.HashKey sha256 key) (remove_key key)
      (fun previous st => match previous with Some p => restore_key key p st | None => st end) st fs in
    ((if persisted then 200 else 500)%Z, st, fs).

(** [PUT /v1/admin/guardrails] *)
Definition put_guardrails (body : bytes) (g : Guardrail) (store : option PolicyStore) (fs : files) :
    Z * Guardrail * option PolicyStore * files :=
  let words := body_strings parse "blocklist" body in
  let previous := Guardrail.blocklist g in
  let g1 := Guardrail.UpdateBlocklist words g in
  match store with
  | None => (200%Z, g1, None, fs)
  | Some s =>
      let previous_store := guardrail_blocklist (contents s) in
      let s1 := SetGuardrailBlocklist words s in
      let '(ok, fs1) := save s1 fs in
      if ok then (200%Z, g1, Some s1, fs1)
      else (500%Z, Guardrail.UpdateBlocklist previous g1, Some (SetGuardrailBlocklist previous_store s1), fs1)
  end.

(** The limit that a body asks for; [None]: a refusal with status 400. *)
Definition requested_limit (limiter : option RateLimiter) (body : bytes) : option Z :=
  let endpoints_on := match limiter with Some l => RateLimiter.endpoints_Enabled (RateLimiter.endpoints l) | None => false end in
  match parse body with
  | inl _ => None
  | inr j =>
      match get "endpoint_limits" j with
      | Some _ => None
      | None =>
          match get "tokens_per_minute" j ≫= HttpRequests.as_integer with
          | None => None
          | Some z => if endpoints_on && negb ((0 <? z)%Z && (z <? 2 ^ 31)%Z) then None else Some (i32 z)
          end
      end
  end.

(** [UpdateLimit(value)] as an administrator calls it; what it throws is not caught. *)
Definition put_rate_limit (now now' : Z) (body : bytes) (limiter : option RateLimiter) (store : option PolicyStore) (fs : files) :
    outcome (Z * option RateLimiter * option PolicyStore * files) :=
  match requested_limit limiter body with
  | None => Ret (400%Z, limiter, store, fs)
  | Some value =>
      let endpoints_on := match limiter with Some l => RateLimiter.endpoints_Enabled (RateLimiter.endpoints l) | None => false end in
      if endpoints_on && (value <=? 0)%Z then Ret (400%Z, limiter, store, fs)
      else
        let updated := match limiter with
                       | Some l => match RateLimiter.UpdateLimit l value "admin_api" now with (l', Ret _) => Ret (Some l') | (_, Throw e) => Throw e end
                       | None => Ret None
                       end in
        match updated with
        | Throw e => Throw e
        | Ret limiter1 =>
            match store with
            | None => Ret (200%Z, limiter1, None, fs)
            | Some s =>
                let previous_store := rate_limit_per_minute (contents s) in
                let s1 := SetRateLimitPerMinute value s in
                let '(ok, fs1) := save s1 fs in
                if ok then Ret (200%Z, limiter1, Some s1, fs1)
                else
                  let s2 := SetRateLimitPerMinute previous_store s1 in
                  match limiter, limiter1 with
                  | Some l, Some l1 =>
                      match RateLimiter.UpdateLimit l1 (RateLimiter.tokens_per_minute l) (RateLimiter.source l) now' with
                      | (l2, Ret _) => Ret (500%Z, Some l2, Some s2, fs1)
                      | (_, Throw e) => Throw e
                      end
                  | _, _ => Ret (500%Z, limiter1, Some s2, fs1)
                  end
            end
        end
  end.

(** The routing options that a body asks for; [None]: a refusal with status 400. *)
Definition requested_routing (current : Options) (body : bytes) : option Options :=
  match parse body with
  | inl _ => None
  | inr j =>
      let flag (k : string) (old : bool) : option (bool * bool) :=
        match get k j with Some (JBool b) => Some (b, true) | Some _ => None | None => Some (old, false) end in
      '(fallback, t1) ← flag "allow_default_fallback" (ModelSelection.allow_capability_fallback_for_default current);
      '(require, t2) ← flag "require_ready_backend" (ModelSelection.require_ready_backend current);
      '(scope, t3) ← match get "fallback_scope" j with
                     | Some (JString v) =>
                         if ModelSelection.IsCapabilityFallbackScopeValue v
                         then Some (ModelSelection.ParseCapabilityFallbackScope v ModelSelection.kAnyCompatible, true) else None
                     | Some _ => None
                     | None => Some (ModelSelection.capability_fallback_scope current, false)
                     end;
      if t1 || t2 || t3 then Some (ModelSelection.mkOptions fallback require scope) else None
  end.

Definition entry_of (o : Options) : RoutingPolicyEntry :=
  {| allow_default_fallback := ModelSelection.allow_capability_fallback_for_default o;
     require_ready_backend := ModelSelection.require_ready_backend o;
     fallback_scope := bytes_of (ModelSelection.CapabilityFallbackScopeToString (ModelSelection.capability_fallback_scope o)) |}.

(** [PUT /v1/admin/routing]: the options of the server and of the scheduler. *)
Definition put_routing (body : bytes) (opts : Options) (sched : option Options) (store : option PolicyStore) (fs : files) :
    Z * Options * option Options * option PolicyStore * files :=
  match requested_routing opts body with
  | None => (400%Z, opts, sched, store, fs)
  | Some updated =>
      let sched1 := (fun _ => updated) <$> sched in
      match store with
      | None => (200%Z, updated, sched1, None, fs)
      | Some s =>
          let previous := routing_policy (contents s) in
          let s1 := SetRoutingPolicy (entry_of updated) s in
          let '(ok, fs1) := save s1 fs in
          if ok then (200%Z, updated, sched1, Some s1, fs1)
          else (500%Z, opts, (fun _ => opts) <$> sched1,
                Some (match previous with Some p => SetRoutingPolicy p s1 | None => ClearRoutingPolicy s1 end), fs1)
      end
  end.
End Admin.

(** ** Who reaches which handler *)

Section Gated.
Context (resolve : bytes -> option AuthContext) (webui has_guardrail : bool) (now : Z).

Lemma gate_cases method path headers limiter r ctx limiter' :
  HandleClient resolve webui has_guardrail now method path headers limiter = (Run r ctx, limiter') ->
  (public_route webui method path = Some r /\ ctx = None /\ limiter' = limiter) \/
  (exists c, ctx = Some c /\ resolve headers = Some c /\ r = route_of method path /\
     (forall scope, route_scope r = Some scope -> RequireScope c scope = true) /\
     match limiter with
     | Some l => (RateLimiter.Admit l (text_of (subject c)) (ClassifyRequest method path) now).1 = default l limiter' /\
                 RateLimiter.allowed (RateLimiter.Admit l (text_of (subject c)) (ClassifyRequest method path) now).2 = true
     | None => limiter' = None
     end).
Proof.
  unfold HandleClient. destruct (public_route webui method path) as [r0|]; [intros [= -> <- <-]; by left|].
  destruct (resolve headers) as [c|]; [|done]. intros H. right. exists c.
  assert (Hgate : forall (lim : option RateLimiter) ok,
    (if negb ok then (Refused 429, lim)
     else if bool_decide (route_of method path ∈ [GuardrailsGet; GuardrailsPut]) && negb has_guardrail then (Refused 503, lim)
     else match route_scope (route_of method path) with
          | Some scope => if RequireScope c scope then (Run (route_of method path) (Some c), lim) else (Refused 403, lim)
          | None => (Run (route_of method path) (Some c), lim)
          end) = (Run r ctx, limiter') ->
    ok = true /\ lim = limiter' /\ ctx = Some c /\ r = route_of method path /\
    forall scope, route_scope r = Some scope -> RequireScope c scope = true).
  { clear. intros lim [] H; [|done]. cbn [negb] in H. destruct (bool_decide _ && _); [done|].
    destruct (route_scope (route_of method path)) as [sc|] eqn:Es; [destruct (RequireScope c sc) eqn:Er|]; simplify_eq;
      split_and!; try done; intros scope; rewrite Es; congruence. }
  destruct limiter as [l|]; [destruct (RateLimiter.Admit l _ _ now) as [l' d]|];
    apply Hgate in H as (Hok & <- & -> & -> & Hs); split_and!; done.
Qed.
End Gated.

Lemma public_not_admin webui method path r : public_route webui method path = Some r -> route_scope r = None.
Proof. unfold public_route. repeat (destruct (_ && _); [by intros [= <-]|]). destruct (named method "OPTIONS"); [by intros [= <-]|done]. Qed.

(** The paths of the administration endpoints. *)
Definition admin_path (path : bytes) : bool := HttpRequests.HasPrefix path (bytes_of "/v1/admin/").

Lemma admin_path_not path t : admin_path path = true -> starts_with (bytes_of "/v1/admin/") (bytes_of t) = false -> named path t = false.
Proof. intros Hp Ht. apply bool_decide_eq_false. intros ->. unfold admin_path, HttpRequests.HasPrefix in Hp. congruence. Qed.

Lemma admin_path_not_models path : admin_path path = true -> is_models_path path = false.
Proof.
  intros Hp. unfold is_models_path. rewrite (admin_path_not _ _ Hp) by done. cbn [orb]. apply andb_false_iff. right.
  apply bool_decide_eq_false. intros Ht. unfold admin_path, HttpRequests.HasPrefix in Hp.
  rewrite <- (take_drop 11 path), Ht in Hp. done.
Qed.

(** Behind such a path there is an endpoint for administrators or none. *)
Lemma admin_path_scope method path : admin_path path = true -> route_of method path <> NotFound -> route_scope (route_of method path) = Some "admin".
Proof.
  intros Hp. unfold route_of. rewrite (admin_path_not_models _ Hp). unfold ClassifyRequest.
  rewrite !(admin_path_not _ "/metrics" Hp eq_refl), !(admin_path_not _ "/v1/tokenize" Hp eq_refl), !(admin_path_not _ "/v1/completions" Hp eq_refl),
    !(admin_path_not _ "/v1/chat/completions" Hp eq_refl), !(admin_path_not _ "/v1/embeddings" Hp eq_refl), !andb_false_r. cbn [orb].
  rewrite !bool_decide_eq_false_2 by (by destruct (named method "POST")).
  repeat match goal with |- context [if ?b then _ else _] => destruct b; [done|] end. done.
Qed.

Lemma admin_path_public webui method path r : admin_path path = true -> public_route webui method path = Some r -> r = Preflight.
Proof.
  intros Hp. unfold public_route. rewrite !(admin_path_not _ _ Hp) by done. rewrite !andb_false_r.
  destruct (named method "OPTIONS"); [by intros [= <-]|done].
Qed.

(** C19: every administration endpoint is behind an administrator's key.  When
    [HandleClient] runs a handler, the request was admitted by the rate limiter for
    the identity that its own headers prove, and that identity holds the scope of the
    route, unless the route is a probe, a preflight or the web page; and a handler
    under [/v1/admin/], other than the preflight and the answer 404, only runs for a request whose bearer token is an API key with
    the admin scope, never for a token of the identity provider or on a server
    without keys. *)
Theorem handlers_guarded sha256 parse rsa override keys oidc call cache webui has_guardrail now method path headers limiter r ctx limiter' :
  HandleClient (fun h => (ResolveSubject sha256 parse rsa override keys oidc call h cache).1) webui has_guardrail now
    method path headers limiter = (Run r ctx, limiter') ->
  (forall scope, route_scope r = Some scope ->
     exists c, ctx = Some c /\ (ResolveSubject sha256 parse rsa override keys oidc call headers cache).1 = Some c /\
       RequireScope c scope = true /\
       match limiter with
       | Some l => RateLimiter.allowed (RateLimiter.Admit l (text_of (subject c)) (ClassifyRequest method path) now).2 = true
       | None => True
       end) /\
  (route_scope r = Some "admin" \/ (admin_path path = true /\ r <> Preflight /\ r <> NotFound) ->
     exists s, keys !! ApiKeyAuth.HashKey sha256 (ExtractBearerToken headers) = Some s /\ bytes_of "admin" ∈ s).
Proof.
  intros H. apply gate_cases in H as [(Hp & -> & ->)|(c & -> & Hr & -> & Hs & Hl)].
  - rewrite (public_not_admin _ _ _ _ Hp). split; [done|]. intros [?|(Ha & ? & _)]; [done|]. by eapply admin_path_public in Hp.
  - split.
    + intros scope Hsc. exists c. split_and!; [done|done|by apply Hs|]. destruct limiter; [by destruct Hl|done].
    + intros Ha. eapply admin_needs_key; [exact Hr|]. apply Hs. destruct Ha as [?|(? & _ & ?)]; [done|by apply admin_path_scope].
Qed.

(** ** Updates of the policy that cannot be saved *)

Section Rollback.
Context (sha256 : bytes -> list Z).
Context (gcm_encrypt : list Z -> list Z -> list Z -> option (list Z * list Z)).
Context (walk : gmap bytes (list bytes) -> list (bytes * list bytes)).
Context (walk_ok : walk_correct walk).
Context (parse : bytes -> bytes + json) (io : save_io) (nonce : option (list Z)).

(** The authenticator holds what the store holds, with the scopes it makes of it. *)
Definition scopes_made (scopes : list bytes) : gset bytes := {[ bytes_of "read" ]} ∪ ApiKeyAuth.MakeScopes scopes.
Definition synced (st : gmap bytes (gset bytes) * PolicyStore) : Prop :=
  st.1 = scopes_made <$> api_keys (contents st.2).

Lemma stored_scopes_lookup h s : stored_scopes walk h s = api_keys (contents s) !! h.
Proof.
  unfold stored_scopes, ApiKeys. set (m := api_keys (contents s)).
  assert (Hin : forall e, e ∈ walk m <-> m !! e.1 = Some e.2).
  { intros [k v]. rewrite (walk_ok m). apply elem_of_map_to_list. }
  destruct (m !! h) as [v|] eqn:E.
  - destruct (filter (fun e => e.1 = h) (walk m)) as [|[k w] l] eqn:Ef.
    + exfalso. assert (Hm : (h, v) ∈ filter (fun e => e.1 = h) (walk m)) by (apply list_elem_of_filter; split; [done|by apply Hin]).
      rewrite Ef in Hm. by apply elem_of_nil in Hm.
    + assert (Hm : (k, w) ∈ filter (fun e => e.1 = h) (walk m)) by (rewrite Ef; left).
      apply list_elem_of_filter in Hm as [Hk Hm%Hin]. cbn in *. subst k. congruence.
  - destruct (filter (fun e => e.1 = h) (walk m)) as [|[k w] l] eqn:Ef; [done|].
    assert (Hm : (k, w) ∈ filter (fun e => e.1 = h) (walk m)) by (rewrite Ef; left).
    apply list_elem_of_filter in Hm as [Hk Hm%Hin]. cbn in *. subst k. congruence.
Qed.

Lemma AddKeyHashed_insert h scopes keys : ApiKeyAuth.AddKeyHashed h scopes keys = <[h := scopes_made scopes]> keys.
Proof. apply map_eq. intros x. rewrite ApiKeyAuth.AddKeyHashed_lookup, lookup_insert. by case_decide. Qed.

Lemma store_eta s m : m = api_keys (contents s) -> with_contents (set_api_keys m (contents s)) s = s.
Proof. intros ->. by destruct s as [? ? ? []]. Qed.

Lemma store_undo s m m' : m = api_keys (contents s) ->
  let s' := with_contents (set_api_keys m' (contents s)) s in with_contents (set_api_keys m (contents s')) s' = s.
Proof. intros ->. by destruct s as [? ? ? []]. Qed.

Lemma upsert_synced key scopes st : synced st -> synced (upsert_key sha256 key scopes st).
Proof.
  unfold synced, upsert_key, ApiKeyAuth.AddKey. cbn. intros ->. by rewrite AddKeyHashed_insert, fmap_insert.
Qed.

Lemma remove_synced key st : synced st -> synced (remove_key sha256 key st).
Proof. unfold synced, remove_key, ApiKeyAuth.RemoveKey. cbn. intros ->. by rewrite fmap_delete. Qed.

(** Putting back what was there undoes an update of the same key. *)
Lemma restore_upsert key scopes previous st :
  synced st -> api_keys (contents st.2) !! ApiKeyAuth.HashKey sha256 key = Some previous ->
  restore_key sha256 key previous (upsert_key sha256 key scopes st) = st.
Proof.
  destruct st as [keys s]. unfold synced, restore_key, upsert_key, SetApiKey, ApiKeyAuth.AddKey. cbn [fst snd]. intros -> Hp.
  rewrite !AddKeyHashed_insert, insert_insert_eq. f_equal.
  - apply insert_id. by rewrite lookup_fmap, Hp.
  - apply store_undo. cbn. by rewrite insert_insert_eq, insert_id.
Qed.

Lemma restore_remove key previous st :
  synced st -> api_keys (contents st.2) !! ApiKeyAuth.HashKey sha256 key = Some previous ->
  restore_key sha256 key previous (remove_key sha256 key st) = st.
Proof.
  destruct st as [keys s]. unfold synced, restore_key, remove_key, SetApiKey, RemoveApiKey, ApiKeyAuth.RemoveKey. cbn [fst snd]. intros -> Hp.
  rewrite !AddKeyHashed_insert, insert_delete_eq. f_equal.
  - apply insert_id. by rewrite lookup_fmap, Hp.
  - apply store_undo. cbn. by rewrite insert_delete_eq, insert_id.
Qed.

Lemma remove_absent key st :
  synced st -> api_keys (contents st.2) !! ApiKeyAuth.HashKey sha256 key = None -> remove_key sha256 key st = st.
Proof.
  destruct st as [keys s]. unfold synced, remove_key, RemoveApiKey, ApiKeyAuth.RemoveKey. cbn [fst snd]. intros -> Hp. f_equal.
  - apply delete_id. by rewrite lookup_fmap, Hp.
  - apply store_eta. by rewrite delete_id.
Qed.

Lemma remove_upsert key scopes st :
  synced st -> api_keys (contents st.2) !! ApiKeyAuth.HashKey sha256 key = None ->
  remove_key sha256 key (upsert_key sha256 key scopes st) = st.
Proof.
  destruct st as [keys s]. unfold synced, remove_key, upsert_key, SetApiKey, RemoveApiKey, ApiKeyAuth.RemoveKey, ApiKeyAuth.AddKey.
  cbn [fst snd]. intros -> Hp. rewrite AddKeyHashed_insert. f_equal.
  - rewrite delete_insert_id; [done|]. by rewrite lookup_fmap, Hp.
  - apply store_undo. cbn. by rewrite delete_insert_id.
Qed.

(** Adding and removing API keys.  When the authenticator holds the keys of the
    store, it still does after a request to add or remove one, whatever the request
    and however saving goes; an accepted request is saved, an added key is then
    accepted with the scopes asked for and a removed one refused; and a request that
    is refused or cannot be saved leaves the keys in memory and the store as they
    were. *)
Theorem key_updates_consistent body st fs :
  synced st ->
  (let '(status, st', fs') := post_api_key sha256 gcm_encrypt walk parse io nonce body st fs in
   synced st' /\ (status <> 200%Z -> st' = st) /\
   (status = 200%Z -> save gcm_encrypt walk io nonce st'.2 fs = (true, fs') /\
      st'.1 !! ApiKeyAuth.HashKey sha256 (HttpRequests.ParseJsonStringField parse body "key") =
        Some (scopes_made (body_strings parse "scopes" body)))) /\
  (let '(status, st', fs') := delete_api_key sha256 gcm_encrypt walk parse io nonce body st fs in
   synced st' /\ (status <> 200%Z -> st' = st) /\
   (status = 200%Z -> save gcm_encrypt walk io nonce st'.2 fs = (true, fs') /\
      ApiKeyAuth.IsAllowed sha256 (HttpRequests.ParseJsonStringField parse body "key") st'.1 = false)).
Proof.
  intros Hs. unfold post_api_key, delete_api_key, ApplyApiKeyMutation. rewrite !stored_scopes_lookup.
  set (key := HttpRequests.ParseJsonStringField parse body "key"). set (scopes := body_strings parse "scopes" body).
  case_bool_decide; [split; split_and!; done|]. split.
  - destruct (save gcm_encrypt walk io nonce (upsert_key sha256 key scopes st).2 fs) as [[] fs'] eqn:Esv.
    + split_and!; [by apply upsert_synced|done|]. intros _. split; [done|].
      cbn. unfold ApiKeyAuth.AddKey. by rewrite AddKeyHashed_insert, lookup_insert_eq.
    + assert ((match api_keys (contents st.2) !! ApiKeyAuth.HashKey sha256 key with
        | Some p => restore_key sha256 key p (upsert_key sha256 key scopes st) | None => remove_key sha256 key (upsert_key sha256 key scopes st) end) = st) as ->.
      { destruct (api_keys _ !! _) eqn:E; [by apply restore_upsert|by apply remove_upsert]. }
      by split_and!.
  - destruct (save gcm_encrypt walk io nonce (remove_key sha256 key st).2 fs) as [[] fs'] eqn:Esv.
    + split_and!; [by apply remove_synced|done|]. intros _. split; [done|].
      cbn. unfold ApiKeyAuth.IsAllowed, ApiKeyAuth.IsAllowedByHash, ApiKeyAuth.RemoveKey. rewrite lookup_delete_eq. by vm_compute.
    + assert ((match api_keys (contents st.2) !! ApiKeyAuth.HashKey sha256 key with
        | Some p => restore_key sha256 key p (remove_key sha256 key st) | None => remove_key sha256 key st end) = st) as ->.
      { destruct (api_keys _ !! _) eqn:E; [by apply restore_remove|by apply remove_absent]. }
      by split_and!.
Qed.

(** *** The other policies *)

Definition normalized (g : Guardrail) : Prop := Guardrail.NormalizeWords (Guardrail.blocklist g) = Guardrail.blocklist g.

Lemma NormalizeWords_idemp words : Guardrail.NormalizeWords (Guardrail.NormalizeWords words) = Guardrail.NormalizeWords words.
Proof.
  induction words as [|w words IH]; [done|].
  assert (Hcons : forall x l, Guardrail.NormalizeWords (x :: l) =
    if decide (ToLower x <> []) then ToLower x :: Guardrail.NormalizeWords l else Guardrail.NormalizeWords l) by done.
  rewrite Hcons. case_decide as E; [|done]. rewrite Hcons, lower_lower, decide_True by done. by rewrite IH.
Qed.

Lemma UpdateBlocklist_normalized words g : normalized (Guardrail.UpdateBlocklist words g).
Proof. apply NormalizeWords_idemp. Qed.

Lemma UpdateLimit_ret l tpm src now :
  RateLimiter.endpoints_Enabled (RateLimiter.endpoints l) && (tpm <=? 0)%Z = false ->
  exists l', RateLimiter.UpdateLimit l tpm src now = (l', Ret tt) /\ RateLimiter.tokens_per_minute l' = tpm /\
    RateLimiter.endpoints l' = RateLimiter.endpoints l /\ RateLimiter.source l' = src.
Proof. intros E. unfold RateLimiter.UpdateLimit. rewrite E. by eexists. Qed.

(** What an administrator sees of a limiter. *)
Definition policy_of (l : RateLimiter) : Z * string * RateLimiter.EndpointRateLimits := RateLimiter.Snapshot l.

(** The limiter's own condition: endpoint limits need an aggregate one. *)
Definition limiter_ok (l : RateLimiter) : Prop :=
  RateLimiter.endpoints_Enabled (RateLimiter.endpoints l) && (RateLimiter.tokens_per_minute l <=? 0)%Z = false.

Lemma put_rate_limit_ok now now' body limiter store fs :
  (forall l, limiter = Some l -> limiter_ok l) ->
  exists status limiter' store' fs',
    put_rate_limit gcm_encrypt walk parse io nonce now now' body limiter store fs = Ret (status, limiter', store', fs') /\
    (forall l, limiter' = Some l -> limiter_ok l) /\
    (status <> 200%Z -> policy_of <$> limiter' = policy_of <$> limiter /\ store' = store) /\
    (status = 200%Z -> exists value, requested_limit parse limiter body = Some value /\
       (forall l, limiter' = Some l -> RateLimiter.tokens_per_minute l = value) /\
       store' = SetRateLimitPerMinute value <$> store).
Proof.
  intros Hok. unfold put_rate_limit. destruct (requested_limit parse limiter body) as [value|];
    [|eexists _, _, _, _; split; [reflexivity|]; by split_and!].
  destruct limiter as [l|].
  - destruct (RateLimiter.endpoints_Enabled (RateLimiter.endpoints l) && (value <=? 0)%Z) eqn:E;
      [eexists _, _, _, _; split; [reflexivity|]; by split_and!|].
    destruct (UpdateLimit_ret l value "admin_api" now E) as (l1 & -> & Ht & He & _).
    assert (Hl1 : limiter_ok l1) by (unfold limiter_ok; by rewrite He, Ht).
    destruct store as [s|].
    + destruct (save gcm_encrypt walk io nonce (SetRateLimitPerMinute value s) fs) as [[] fs'].
      * eexists _, _, _, _. split; [reflexivity|]. split_and!; [by intros ? [= <-]|done|].
        intros _. exists value. split_and!; [done|by intros ? [= <-]|done].
      * destruct (UpdateLimit_ret l1 (RateLimiter.tokens_per_minute l) (RateLimiter.source l) now') as (l2 & -> & Ht2 & He2 & Hs2);
          [rewrite He; by apply Hok|].
        eexists _, _, _, _. split; [reflexivity|]. split_and!; [|intros _; split|done].
        -- intros ? [= <-]. unfold limiter_ok. rewrite He2, He, Ht2. by apply Hok.
        -- cbn. unfold policy_of, RateLimiter.Snapshot. by rewrite Ht2, Hs2, He2, He.
        -- by destruct s as [? ? ? []].
    + eexists _, _, _, _. split; [reflexivity|]. split_and!; [by intros ? [= <-]|done|].
      intros _. exists value. split_and!; [done|by intros ? [= <-]|done].
  - cbn [andb]. destruct store as [s|]; [destruct (save gcm_encrypt walk io nonce (SetRateLimitPerMinute value s) fs) as [[] fs']|];
      (eexists _, _, _, _; split; [reflexivity|]; split_and!; [done| |]); try done.
    + intros _. by exists value.
    + intros _. split; [done|]. by destruct s as [? ? ? []].
    + intros _. by exists value.
Qed.

Lemma put_guardrails_ok body g store fs :
  normalized g ->
  let '(status, g', store', fs') := put_guardrails gcm_encrypt walk parse io nonce body g store fs in
  normalized g' /\ (status <> 200%Z -> g' = g /\ store' = store) /\
  (status = 200%Z -> g' = Guardrail.UpdateBlocklist (body_strings parse "blocklist" body) g /\
     store' = SetGuardrailBlocklist (body_strings parse "blocklist" body) <$> store).
Proof.
  intros Hg. unfold put_guardrails. destruct store as [s|]; [|split_and!; [apply UpdateBlocklist_normalized|done|done]].
  destruct (save _ _ _ _ _ fs) as [[] fs']; split_and!; try done; try apply UpdateBlocklist_normalized.
  intros _. split; [|by destruct s as [? ? ? []]]. destruct g as [words e]. unfold normalized, Guardrail.UpdateBlocklist in *.
  cbn [Guardrail.blocklist Guardrail.opa_endpoint] in *. by rewrite Hg.
Qed.

Lemma put_routing_ok body opts sched store fs :
  (forall o, sched = Some o -> o = opts) ->
  let '(status, opts', sched', store', fs') := put_routing gcm_encrypt walk parse io nonce body opts sched store fs in
  (forall o, sched' = Some o -> o = opts') /\ (status <> 200%Z -> opts' = opts /\ sched' = sched /\ store' = store) /\
  (status = 200%Z -> requested_routing parse opts body = Some opts' /\ store' = SetRoutingPolicy (entry_of opts') <$> store).
Proof.
  intros Hs. unfold put_routing. destruct (requested_routing parse opts body) as [u|]; [|by split_and!].
  destruct store as [s|]; [|split_and!; [by destruct sched; intros ? [= <-]|done|done]].
  destruct (save _ _ _ _ _ fs) as [[] fs']; (split_and!; [by destruct sched; intros ? [= <-]| |]); try done.
  intros _. split_and!; [done|destruct sched; [by rewrite (Hs _ eq_refl)|done]|].
  destruct s as [? ? ? [? ? ? []]]; done.
Qed.

(** C30: an update of the policy that cannot be saved changes nothing.  For the
    guardrail's word list, the rate limit and the routing options alike: unless the
    answer is 200, the values in force and those in the store are the ones before the
    request, and with 200 both are the requested ones; handling the request never ends
    in an exception. *)
Theorem failed_update_restores body g opts sched limiter store fs now now' :
  normalized g -> (forall o, sched = Some o -> o = opts) -> (forall l, limiter = Some l -> limiter_ok l) ->
  (let '(status, g', store', _) := put_guardrails gcm_encrypt walk parse io nonce body g store fs in
   (status <> 200%Z -> g' = g /\ store' = store) /\
   (status = 200%Z -> Guardrail.blocklist g' = Guardrail.NormalizeWords (body_strings parse "blocklist" body) /\
      store' = SetGuardrailBlocklist (body_strings parse "blocklist" body) <$> store)) /\
  (let '(status, opts', sched', store', _) := put_routing gcm_encrypt walk parse io nonce body opts sched store fs in
   (status <> 200%Z -> opts' = opts /\ sched' = sched /\ store' = store) /\
   (status = 200%Z -> requested_routing parse opts body = Some opts' /\ store' = SetRoutingPolicy (entry_of opts') <$> store)) /\
  exists status limiter' store' fs',
    put_rate_limit gcm_encrypt walk parse io nonce now now' body limiter store fs = Ret (status, limiter', store', fs') /\
    (status <> 200%Z -> policy_of <$> limiter' = policy_of <$> limiter /\ store' = store) /\
    (status = 200%Z -> exists value, requested_limit parse limiter body = Some value /\
       (forall l, limiter' = Some l -> RateLimiter.tokens_per_minute l = value) /\ store' = SetRateLimitPerMinute value <$> store).
Proof.
  intros Hg Hs Hl. split_and!.
  - pose proof (put_guardrails_ok body g store fs Hg) as H. destruct (put_guardrails _ _ _ _ _ _ _ _ _) as [[[status g'] store'] fs'].
    destruct H as (_ & H1 & H2). split; [done|]. intros H. by destruct (H2 H) as [-> ->].
  - pose proof (put_routing_ok body opts sched store fs Hs) as H.
    destruct (put_routing _ _ _ _ _ _ _ _ _ _) as [[[[status opts'] sched'] store'] fs']. by destruct H as (_ & H1 & H2).
  - destruct (put_rate_limit_ok now now' body limiter store fs Hl) as (st & l' & s' & fs' & E & _ & H1 & H2). by exists st, l', s', fs'.
Qed.
End Rollback.

(** ** Concrete requests *)
Module Demo.
Definition field (k : string) (j : json) : bytes * json := (bytes_of k, j).
Definition key_body : json := JObject [field "key" (JString (bytes_of "k9")); field "scopes" (JArray [JString (bytes_of "admin")])].
Definition parse (_ : bytes) : bytes + json := inr key_body.
Definition no_json (_ : bytes) : bytes + json := inl (bytes_of "parse error").
Definition store : PolicyStore := sample_store "pw".
Definition keys : gmap bytes (gset bytes) * PolicyStore := (scopes_made <$> api_keys (contents store), store).
Definition guard : Guardrail := {| Guardrail.blocklist := [bytes_of "secret"]; Guardrail.opa_endpoint := [] |}.
Definition opts : Options := ModelSelection.mkOptions true false ModelSelection.kAnyCompatible.
Definition nl_request (auth : string) : bytes := bytes_of "GET /v1/admin/pools HTTP/1.1" ++ HttpClient.crlf ++ bytes_of "Authorization: " ++ bytes_of auth.
Definition call : Oidc.Call := Oidc.mkCall 0 0 0 Oidc.Demo.net id id.
Definition no_rsa (_ _ _ _ : bytes) : bool := false.
Definition pools (auth : string) : gate * option RateLimiter :=
  HandleClient (fun h => (ResolveSubject toy_sha (fun _ => None) no_rsa None keys.1 None call h Oidc.no_keys).1) false true 0
    (bytes_of "GET") (bytes_of "/v1/admin/pools") (nl_request auth) None.
End Demo.

Lemma handlers_guarded_witness :
  (exists ctx, Demo.pools "bEaReR k1" = (Run Pools (Some ctx), None)) /\
  (exists s, Demo.keys.1 !! ApiKeyAuth.HashKey toy_sha (ExtractBearerToken (Demo.nl_request "bEaReR k1")) = Some s /\ bytes_of "admin" ∈ s) /\
  Demo.pools "Bearer k2" = (Refused 401, None).
Proof.
  assert (E : exists ctx, Demo.pools "bEaReR k1" = (Run Pools (Some ctx), None)) by (eexists; vm_compute; reflexivity).
  split_and!; [exact E| |by vm_compute]. destruct E as [ctx E].
  destruct (handlers_guarded _ _ _ _ _ _ _ _ _ _ _ _ _ _ _ _ _ _ E) as [_ H]. apply H. right. clear. split; [reflexivity|by split].
Defined.

Lemma key_updates_consistent_witness :
  synced Demo.keys /\
  (let '(status, st', _) := post_api_key toy_sha toy_encrypt toy_walk Demo.parse failing_renames (Some sample_nonce) [] Demo.keys ∅ in
   status = 500%Z /\ st' = Demo.keys).
Proof.
  assert (Hs : synced Demo.keys) by done. split; [exact Hs|].
  destruct (key_updates_consistent toy_sha toy_encrypt toy_walk toy_walk_correct Demo.parse failing_renames (Some sample_nonce) [] Demo.keys ∅ Hs) as [H _].
  assert (E : (post_api_key toy_sha toy_encrypt toy_walk Demo.parse failing_renames (Some sample_nonce) [] Demo.keys ∅).1.1 = 500%Z) by by vm_compute.
  destruct (post_api_key _ _ _ _ _ _ _ _ _) as [[status st'] fs']. cbn in E. subst status.
  destruct H as (_ & H & _). split; [done|]. by apply H.
Defined.

(** A key that is only in memory, as those given by the environment are, is lost by
    an update that cannot be saved: the roll-back looks at the store alone. *)
Example unsaved_key_lost :
  let st := (ApiKeyAuth.AddKey toy_sha (bytes_of "k9") [bytes_of "admin"] ∅, make_store toy_sha (bytes_of "p") []) in
  let '(status, st', _) := post_api_key toy_sha toy_encrypt toy_walk Demo.parse failing_renames None [] st ∅ in
  status = 500%Z /\ ApiKeyAuth.IsAllowed toy_sha (bytes_of "k9") st.1 = true /\
  ApiKeyAuth.IsAllowed toy_sha (bytes_of "k9") st'.1 = false.
Proof. by vm_compute. Qed.

Lemma failed_update_restores_witness :
  normalized Demo.guard /\
  (let '(status, g', _, _) := put_guardrails toy_encrypt toy_walk Demo.parse failing_renames (Some sample_nonce) [] Demo.guard (Some Demo.store) ∅ in
   status = 500%Z /\ g' = Demo.guard).
Proof.
  assert (Hg : normalized Demo.guard) by by vm_compute. split; [exact Hg|].
  destruct (failed_update_restores toy_encrypt toy_walk Demo.parse failing_renames (Some sample_nonce) [] Demo.guard Demo.opts None None (Some Demo.store) ∅ 0 0 Hg)
    as [H _]; [done|done|].
  assert (E : (put_guardrails toy_encrypt toy_walk Demo.parse failing_renames (Some sample_nonce) [] Demo.guard (Some Demo.store) ∅).1.1.1 = 500%Z) by by vm_compute.
  destruct (put_guardrails _ _ _ _ _ _ _ _ _) as [[[status g'] s'] fs']. cbn in E. subst status.
  destruct H as [H _]. split; [done|]. by apply H.
Defined.

(** A body that is no JSON empties the word list, and is answered with 200. *)
Example malformed_body_clears_blocklist :
  let '(status, g', store', _) := put_guardrails toy_encrypt toy_walk Demo.no_json all_ok (Some sample_nonce) (bytes_of "{") Demo.guard (Some Demo.store) ∅ in
  status = 200%Z /\ Guardrail.blocklist g' = [] /\ (fun s => guardrail_blocklist (contents s)) <$> store' = Some [].
Proof. by vm_compute. Qed.
