(* ===== verification/HttpGeneration.v ===== *)
(** * server/http/http_server.cpp: completions, from the parsed request to the last frame

    The generation endpoint after its scope check: the prompt, the refusals in their
    order, the streaming sink that the scheduler calls with every token, the end of a
    stream, and the buffered paths for one and for several completions.  The
    scheduler's tokens and results, the answer of the model selection and the
    rendering of the model's own template are arguments; splitting, tool calls,
    guardrail and frames are those of their own files. *)

From stdpp Require Import base tactics numbers list strings sorting.
From Stdlib Require Import Ascii Floats.SpecFloat Sorting.Sorted.
From S2P Require Import HarmonySplitter ReasoningSplitter ChatTemplate ResponseSplitter Prelude Float64 StringUtils Json AccessControl ToolCalls HttpFrames.
From S2P Require HttpRequests HttpServer ModelSelection.

Abbreviation ChatMessage := HttpRequests.ChatMessage.
Abbreviation Guardrail := Guardrail.Guardrail.

(** ** The prompt *)

Definition use_tools (p : Payload) : bool :=
  (HttpRequests.has_tool_schema p || negb (bool_decide (length (HttpRequests.tools p) = 0))) && negb (named (HttpRequests.tool_choice p) "none").

(** A raw prompt becomes a user message; what is left of it. *)
Definition wrap_prompt (p : Payload) : bytes * list ChatMessage :=
  if bool_decide (HttpRequests.prompt p <> []) && bool_decide (length (HttpRequests.messages p) = 0)
  then ([], [HttpRequests.mkMessage (bytes_of "user") (HttpRequests.prompt p)])
  else (HttpRequests.prompt p, HttpRequests.messages p).

Section Prompt.
Context (dump : json -> bytes).
(** [FormatChatMessages] of the backend of the resolved model; [None] when there is no
    router, model or ready backend.  Its result is [None] when the template is not valid. *)
Context (format : option (list (bytes * bytes) -> option (bytes * ChatTemplateFamily))).

Definition with_tools (p : Payload) : bool := use_tools p && negb (bool_decide (length (HttpRequests.tools p) = 0)).
Definition tool_preamble (p : Payload) : bytes :=
  HttpRequests.BuildToolSystemPrompt dump (HttpRequests.tools p) (HttpRequests.tool_choice_function p).

Definition template_messages (p : Payload) (ms : list ChatMessage) : list (bytes * bytes) :=
  (if with_tools p then [(bytes_of "system", tool_preamble p)] else []) ++
  omap (fun m => if bool_decide (HttpRequests.role m = [] /\ HttpRequests.content m = []) then None
                 else Some (HttpRequests.role m, HttpRequests.content m)) ms.

(** The prompt, and the family when the model's template made it. *)
Definition build_prompt (p : Payload) : bytes * option ChatTemplateFamily :=
  let '(prompt, ms) := wrap_prompt p in
  let native := match format with
                | Some f => if bool_decide (length ms = 0) then None else f (template_messages p ms)
                | None => None
                end in
  match native with
  | Some (text, family) => (text, Some family)
  | None =>
      let flat := if bool_decide (prompt <> []) then prompt
                  else if bool_decide (length ms = 0) then [] else HttpRequests.FlattenMessages ms in
      (if with_tools p then if bool_decide (flat = []) then tool_preamble p else tool_preamble p ++ [nl] ++ flat else flat, None)
  end.

(** The family that splits the response; [stub]: [INFERFLUX_STUB_COMPLETION]. *)
Definition response_family (native : option ChatTemplateFamily) (stub : option bytes) : ChatTemplateFamily :=
  match native with
  | Some f => f
  | None => match stub with
            | Some s => if bool_decide (DetectChatTemplateFamily s = kHarmony) then kHarmony else kChatML
            | None => kChatML
            end
  end.
End Prompt.

(** What the guardrail sees. *)
Definition guard_text (p : Payload) : bytes :=
  let '(prompt, ms) := wrap_prompt p in
  foldl (fun text m => if named (HttpRequests.role m) "user" then text ++ HttpRequests.content m ++ [nl] else text) prompt ms.

(** ** Refusals, in the order of the code *)

Inductive verdict :=
  | Refuse (status : Z) (error : bytes)
  | Proceed (prompt : bytes) (family : option ChatTemplateFamily).

Section Verdict.
Context (dump : json -> bytes) (format : option (list (bytes * bytes) -> option (bytes * ChatTemplateFamily))).
(** The guardrail's [Check]: the reason of a refusal. *)
Context (check : option (bytes -> option bytes)).

Definition generation_verdict (path : bytes) (server : HttpServer.ServerView)
    (selection : option (ModelSelection.ModelSelectionStatus * string)) (p : Payload) : verdict :=
  if negb (HttpRequests.response_format_ok p) then Refuse 400 (HttpRequests.response_format_error p)
  else if named path "/v1/completions" && use_tools p then Refuse 400 (bytes_of "tools require /v1/chat/completions")
  else
    let '(prompt, family) := build_prompt dump format p in
    if bool_decide (prompt = []) then Refuse 400 (bytes_of "prompt or messages are required")
    else
      let admission := HttpServer.EvaluateGenerationAdmissionDecision server in
      if negb (HttpServer.adm_allowed admission) then Refuse (HttpServer.http_status admission) (bytes_of (HttpServer.adm_error admission))
      else
        let explicit := negb (bool_decide (HttpRequests.model p = [])) && negb (HttpRequests.IsDefaultModelAlias (HttpRequests.model p)) in
        match selection with
        | Some (ModelSelection.kUnsupported, reason) =>
            Refuse 422 (bytes_of (if String.eqb reason "" then "Selected model does not support requested features" else reason))
        | _ =>
            if match selection with Some (ModelSelection.kNotFound, _) => explicit | _ => false end
            then Refuse 404 (bytes_of "model_not_found")
            else match (match check with Some c => c (guard_text p) | None => None end) with
                 | Some reason => Refuse 400 reason
                 | None =>
                     if ((1 <? HttpRequests.n p) || (1 <? HttpRequests.best_of p))%Z && HttpRequests.stream p
                     then Refuse 400 (bytes_of "n>1 and best_of not supported with stream")
                     else Proceed prompt family
                 end
        end.
End Verdict.

(** ** Streaming *)

Inductive Frame :=
  | Reasoning (s : bytes)                       (* [BuildStreamReasoningChunkFast] *)
  | Content (s : bytes)                         (* a frame of the chunker *)
  | Token (s : bytes) (lp : TokenLogprob)       (* one token with its log-probability *)
  | Replayed (s : bytes)                        (* [BuildStreamChunk] of a piece *)
  | Calls (l : list ToolCallResult) (reasoning content : bytes)
  | Stopped (reason : string)
  | Usage (prompt_toks completion_toks reasoning_toks : Z)
  | Done.

Record Stream := mkStream {
  splitter : option ResponseSplitter; chunker : SseStreamChunker; token_buffer : list bytes;
  emitted_reasoning : nat; emitted_content : nat; reasoning_pieces : Z;
  active : bool; cancelled : bool; sent : list Frame }.

Definition new_stream (split_disabled chat : bool) (family : ChatTemplateFamily) (chunker : SseStreamChunker) : Stream :=
  mkStream (if negb chat || split_disabled then None else Some (newResponse family))
    (mkChunker chat (flush_tokens chunker) (flush_bytes chunker) (buf chunker) (pieces_in_buf chunker)) [] 0 0 0 true false [].

Section Streaming.
(** [peer n]: whether the [n]th frame reaches the client. *)
Context (peer : nat -> bool).
Context (buffer_tokens collect_logprobs : bool).

Definition set_splitter (r : option ResponseSplitter) (s : Stream) : Stream :=
  mkStream r (chunker s) (token_buffer s) (emitted_reasoning s) (emitted_content s) (reasoning_pieces s) (active s) (cancelled s) (sent s).
Definition set_chunker (c : SseStreamChunker) (s : Stream) : Stream :=
  mkStream (splitter s) c (token_buffer s) (emitted_reasoning s) (emitted_content s) (reasoning_pieces s) (active s) (cancelled s) (sent s).
Definition add_reasoning (n : nat) (s : Stream) : Stream :=
  mkStream (splitter s) (chunker s) (token_buffer s) (emitted_reasoning s + n) (emitted_content s) (reasoning_pieces s) (active s) (cancelled s) (sent s).
Definition add_content (n : nat) (s : Stream) : Stream :=
  mkStream (splitter s) (chunker s) (token_buffer s) (emitted_reasoning s) (emitted_content s + n) (reasoning_pieces s) (active s) (cancelled s) (sent s).
Definition count_piece (s : Stream) : Stream :=
  mkStream (splitter s) (chunker s) (token_buffer s) (emitted_reasoning s) (emitted_content s) (reasoning_pieces s + 1) (active s) (cancelled s) (sent s).
Definition buffer_piece (p : bytes) (s : Stream) : Stream :=
  mkStream (splitter s) (chunker s) (token_buffer s ++ [p]) (emitted_reasoning s) (emitted_content s) (reasoning_pieces s) (active s) (cancelled s) (sent s).
Definition sent_frame (f : Frame) (s : Stream) : Stream :=
  mkStream (splitter s) (chunker s) (token_buffer s) (emitted_reasoning s) (emitted_content s) (reasoning_pieces s) (active s) (cancelled s) (sent s ++ [f]).
Definition broken (s : Stream) : Stream :=
  mkStream (splitter s) (chunker s) (token_buffer s) (emitted_reasoning s) (emitted_content s) (reasoning_pieces s) false true (sent s).

(** [SendAll] under the stream mutex: a failed send ends the stream and cancels the request. *)
Definition send (f : Frame) (s : Stream) : bool * Stream :=
  if peer (length (sent s)) then (true, sent_frame f s) else (false, broken s).

(** The content of a piece, after its reasoning was sent. *)
Definition on_content (content_piece : bytes) (lp : option TokenLogprob) (s : Stream) : Stream :=
  match (if collect_logprobs then lp else None) with
  | Some l => let '(ok, s) := send (Token content_piece l) s in if ok then add_content (length content_piece) s else s
  | None =>
      let s := add_content (length content_piece) (set_chunker (Append content_piece (chunker s)) s) in
      if ShouldFlush (chunker s) then
        let content := buf (chunker s) in
        (send (Content content) (set_chunker (TakeFrame [] [] 0 (chunker s)).1 s)).2
      else s
  end.

Definition on_token (chunk : bytes) (lp : option TokenLogprob) (s : Stream) : outcome Stream :=
  if bool_decide (chunk = []) || negb (active s) then Ret s
  else if buffer_tokens then Ret (buffer_piece chunk s)
  else match splitter s with
       | None => Ret (on_content chunk lp s)
       | Some sp =>
           match Drain (Feed sp chunk) with
           | (_, Throw e) => Throw e
           | (sp', Ret (reasoning, content)) =>
               let s := set_splitter (Some sp') s in
               let '(alive, s) :=
                 if bool_decide (reasoning = []) then (true, s)
                 else let '(ok, s) := send (Reasoning reasoning) (count_piece s) in
                      (ok, if ok then add_reasoning (length reasoning) s else s) in
               if negb alive then Ret s
               else if bool_decide (content = []) then Ret s
               else Ret (on_content content lp s)
           end
       end.

Fixpoint on_tokens (l : list (bytes * option TokenLogprob)) (s : Stream) : outcome Stream :=
  match l with
  | [] => Ret s
  | (chunk, lp) :: l' => match on_token chunk lp s with Ret s' => on_tokens l' s' | Throw e => Throw e end
  end.

(** [std::string::substr], which throws past the end. *)
Definition substr_from (n : nat) (s : bytes) : outcome bytes :=
  if n <=? length s then Ret (drop n s) else Throw (out_of_range "basic_string::substr").

(** The sends of the completion block do not look at their result. *)
Definition put (f : Frame) (s : Stream) : Stream := if peer (length (sent s)) then sent_frame f s else s.
Definition puts (l : list Frame) (s : Stream) : Stream := foldl (fun s f => put f s) s l.

(** The residual of the splitter: its reasoning goes out, its content into the chunker. *)
Definition flush_splitter (s : Stream) : outcome Stream :=
  match splitter s with
  | Some sp =>
      if buffer_tokens then Ret s
      else
        let '(r, c) := Finish sp in
        match substr_from (emitted_reasoning s) r, substr_from (emitted_content s) c with
        | Ret rr, Ret rc =>
            let s := if bool_decide (rr = []) then s else put (Reasoning rr) s in
            Ret (if bool_decide (rc = []) then s else set_chunker (Append rc (chunker s)) s)
        | Throw e, _ | _, Throw e => Throw e
        end
  | None => Ret s
  end.

(** The end of a stream whose request was served by a backend. *)
Definition finish_stream (family : ChatTemplateFamily) (include_usage : bool) (result : InferenceResult) (ex : ToolCallExtraction) (s : Stream) : outcome Stream :=
  if negb (active s) then Ret s
  else match flush_splitter s with
       | Throw e => Throw e
       | Ret s =>
           let s := if negb buffer_tokens && negb (Empty (chunker s))
                    then put (Content (buf (chunker s))) (set_chunker (TakeFrame [] [] 0 (chunker s)).1 s) else s in
           let replay := concat (token_buffer s) in
           let '(rr, rc) := match splitter s with Some _ => Split family replay | None => ([], replay) end in
           let replays := bool_decide (length (calls ex) = 0) && buffer_tokens && negb (bool_decide (length (token_buffer s) = 0)) in
           let frames :=
             if negb (bool_decide (length (calls ex) = 0))
             then [Calls (calls ex) (if buffer_tokens then reasoning_content result else []) (if buffer_tokens then remaining_text ex else [])]
             else (if replays then (if bool_decide (rr = []) then [] else [Reasoning rr]) ++ (Replayed <$> SplitForStreaming rc) else []) ++
                  [Stopped (finish_of result)] in
           let own := if buffer_tokens then reasoning_tokens result else 0%Z in
           let toks := if (0 <? own)%Z then own else if replays && negb (bool_decide (rr = [])) then 1%Z else reasoning_pieces s in
           Ret (puts (frames ++ (if include_usage then [Usage (prompt_tokens result) (completion_tokens result) toks] else []) ++ [Done]) s)
       end.
(** The end of a stream whose request found no backend: a stub call when tools were
    given, and otherwise the stub text, split. *)
Definition finish_without_backend (family : ChatTemplateFamily) (include_usage : bool) (stub : option ToolCallResult) (result : InferenceResult) (s : Stream) : Stream :=
  let '(rr, rc) := match splitter s with Some _ => Split family (completion result) | None => ([], completion result) end in
  let splits := negb (bool_decide (is_Some stub)) && negb (bool_decide (rr = [])) in
  let frames := match stub with
                | Some tc => [Calls [tc] [] []]
                | None => (if bool_decide (rr = []) then [] else [Reasoning rr]) ++ [Replayed rc; Stopped "stop"]
                end in
  puts (frames ++ (if include_usage then [Usage (prompt_tokens result) (completion_tokens result) (if splits then 1%Z else reasoning_pieces s)] else []) ++ [Done]) s.
End Streaming.

(** ** Buffered completions *)

(** Reasoning is separated before tool calls are looked for. *)
Definition separate (split_disabled chat : bool) (family : ChatTemplateFamily) (r : InferenceResult) : InferenceResult :=
  if chat && negb split_disabled then
    let '(reasoning, content) := Split family (completion r) in
    if bool_decide (reasoning = []) then r
    else mkResult (model_id r) content (completion_tokens r) (prompt_tokens r) (no_backend r) (finish_reason_length r) (logprobs r)
           (cached_prompt_tokens r) (duration_ms r) (time_to_first_token_ms r) reasoning 1
  else r.

(** *** Several completions *)

(** The seed of generation number [i]. *)
Definition seed_for (seed : Z) (i : nat) : Z :=
  if bool_decide (i = 0) then seed
  else if (seed =? HttpRequests.no_seed)%Z then HttpRequests.no_seed else ((seed + Z.of_nat i) mod 2 ^ 32)%Z.

Definition cumlogprob (r : InferenceResult) : double :=
  foldl (fun s tlp => dadd s (logprob tlp)) (d_of_Z 0) (logprobs r).

Section Multi.
(** [std::sort] with [cumlogprob(a) > cumlogprob(b)] *)
Context (sort : list InferenceResult -> list InferenceResult).

Definition select_best (n_return n_generate : Z) (collect_logprobs : bool) (all : list InferenceResult) : list InferenceResult :=
  if (n_return <? n_generate)%Z then
    let kept := take (Z.to_nat n_return) (sort all) in
    if collect_logprobs then kept else without_logprobs <$> kept
  else all.

(** The loop that separates reasoning: the results, the text and the count that the body is built from. *)
Definition separate_all (split_disabled chat : bool) (family : ChatTemplateFamily) (results : list InferenceResult) :
    list InferenceResult * bytes * Z :=
  if chat && negb split_disabled then
    foldl (fun '(out, text, count) r =>
      let '(reasoning, content) := Split family (completion r) in
      if bool_decide (reasoning = []) then (out ++ [r], text, count)
      else (out ++ [mkResult (model_id r) content (completion_tokens r) (prompt_tokens r) (no_backend r) (finish_reason_length r) (logprobs r)
                      (cached_prompt_tokens r) (duration_ms r) (time_to_first_token_ms r) (reasoning_content r) (reasoning_tokens r)],
            reasoning, (count + 1)%Z)) ([], [], 0%Z) results
  else (results, [], 0%Z).
End Multi.

(** *** Tool calls *)

Definition is_stub (r : InferenceResult) : bool :=
  no_backend r || match find_sub (bytes_of "No model backend is loaded") (completion r) with Some _ => true | None => false end.

Definition MakeStubToolCall (dump : json -> bytes) (function_name : bytes) (arguments : json) : ToolCallResult :=
  let name := if bool_decide (function_name = []) then bytes_of "stub_tool" else function_name in
  mkCall (bytes_of "call_stub_" ++ name) name (dump arguments).

Definition extraction_of (parse : bytes -> option json) (dump : json -> bytes) (p : Payload) (arguments : json) (r : InferenceResult) : ToolCallExtraction :=
  if use_tools p then
    match HttpRequests.tools p with
    | t :: _ => if is_stub r then mkExtraction [MakeStubToolCall dump (HttpRequests.name (HttpRequests.function t)) arguments] []
                else DetectToolCalls parse dump (completion r)
    | [] => DetectToolCalls parse dump (completion r)
    end
  else mkExtraction [] [].

(** ** What the client receives *)

Definition frame_reasoning (f : Frame) : bytes := match f with Reasoning s | Calls _ s _ => s | _ => [] end.
Definition frame_content (f : Frame) : bytes :=
  match f with Content s | Token s _ | Replayed s | Calls _ _ s => s | _ => [] end.
Definition received_reasoning (l : list Frame) : bytes := l ≫= frame_reasoning.
Definition received_content (l : list Frame) : bytes := l ≫= frame_content.

(** *** Draining does not change what a splitter does next *)

Definition same_think (a b : ReasoningSplitter) : Prop :=
  ReasoningSplitter.state a = ReasoningSplitter.state b /\ ReasoningSplitter.pending a = ReasoningSplitter.pending b /\
  ReasoningSplitter.reasoning a = ReasoningSplitter.reasoning b /\ ReasoningSplitter.content a = ReasoningSplitter.content b.

Definition same_harmony (a b : HarmonySplitter) : Prop :=
  HarmonySplitter.state a = HarmonySplitter.state b /\ HarmonySplitter.pending a = HarmonySplitter.pending b /\
  HarmonySplitter.reasoning a = HarmonySplitter.reasoning b /\ HarmonySplitter.content a = HarmonySplitter.content b.

Definition same_split (a b : ResponseSplitter) : Prop :=
  match a, b with
  | ImplReasoning x, ImplReasoning y => same_think x y
  | ImplHarmony x, ImplHarmony y => same_harmony x y
  | _, _ => False
  end.

Lemma think_advance_same a b s p r c : same_think a b -> same_think (ReasoningSplitter.advance a s p r c) (ReasoningSplitter.advance b s p r c).
Proof. intros (_ & _ & Hr & Hc). unfold same_think. cbn. by rewrite Hr, Hc. Qed.

Lemma think_step_same a b : same_think a b -> option_Forall2 same_think (ReasoningSplitter.feed_step a) (ReasoningSplitter.feed_step b).
Proof.
  intros H. pose proof H as (Hs & Hp & _). unfold ReasoningSplitter.feed_step. rewrite Hp, Hs.
  repeat case_match; constructor; by apply think_advance_same.
Qed.

Lemma think_loop_same fuel a b : same_think a b -> same_think (ReasoningSplitter.feed_loop fuel a) (ReasoningSplitter.feed_loop fuel b).
Proof.
  revert a b. induction fuel as [|fuel IH]; intros a b H; cbn [ReasoningSplitter.feed_loop]; [done|].
  destruct (think_step_same a b H); [by apply IH|done].
Qed.

Lemma harmony_advance_same a b s p r c : same_harmony a b -> same_harmony (HarmonySplitter.advance a s p r c) (HarmonySplitter.advance b s p r c).
Proof. intros (_ & _ & Hr & Hc). unfold same_harmony. cbn. by rewrite Hr, Hc. Qed.

Lemma harmony_step_same a b : same_harmony a b -> option_Forall2 same_harmony (HarmonySplitter.feed_step a) (HarmonySplitter.feed_step b).
Proof.
  intros H. pose proof H as (Hs & Hp & _). unfold HarmonySplitter.feed_step. rewrite Hp, Hs.
  repeat case_match; constructor; by apply harmony_advance_same.
Qed.

Lemma harmony_loop_same fuel a b : same_harmony a b -> same_harmony (HarmonySplitter.feed_loop fuel a) (HarmonySplitter.feed_loop fuel b).
Proof.
  revert a b. induction fuel as [|fuel IH]; intros a b H; cbn [HarmonySplitter.feed_loop]; [done|].
  destruct (harmony_step_same a b H); [by apply IH|done].
Qed.

Lemma Feed_same a b p : same_split a b -> same_split (Feed a p) (Feed b p).
Proof.
  destruct a as [a|a], b as [b|b]; try done; cbn [same_split Feed sp_feed reasoning_splitter harmony_splitter]; intros H; pose proof H as (Hs & Hp & _).
  - unfold ReasoningSplitter.Feed. rewrite Hp, Hs. by apply think_loop_same, think_advance_same.
  - unfold HarmonySplitter.Feed. rewrite Hp, Hs. by apply harmony_loop_same, harmony_advance_same.
Qed.

Lemma Finish_same a b : same_split a b -> Finish a = Finish b.
Proof.
  destruct a as [a|a], b as [b|b]; try done; intros (Hs & Hp & Hr & Hc); cbn [Finish sp_finish reasoning_splitter harmony_splitter].
  - unfold ReasoningSplitter.Finish. cbn [snd]. by rewrite Hs, Hp, Hr, Hc.
  - unfold HarmonySplitter.Finish. by rewrite Hs, Hp, Hr, Hc.
Qed.

Lemma Drain_same a a' o : Drain a = (a', o) -> same_split a' a.
Proof.
  destruct a as [a|a]; cbn [Drain sp_drain reasoning_splitter harmony_splitter].
  - unfold ReasoningSplitter.Drain. destruct (_ || _); intros [= <- _]; done.
  - unfold HarmonySplitter.Drain. destruct (_ || _); intros [= <- _]; done.
Qed.

Lemma same_split_trans a b c : same_split a b -> same_split b c -> same_split a c.
Proof. destruct a, b, c; try done; intros (?&?&?&?) (?&?&?&?); split_and!; etransitivity; eauto. Qed.

(** *** A stream whose client keeps reading *)

Section Delivered.
Context (peer : nat -> bool) (peer_reads : forall n, peer n = true).
Context (collect : bool).

(** With log-probabilities, every token carries one. *)
Definition carries (lp : option TokenLogprob) : Prop := collect = true -> is_Some lp.

(** Nothing waits in the chunker of a stream that sends token by token. *)
Definition unbatched (s : Stream) : Prop := collect = true -> buf (chunker s) = [].

Lemma send_ok f s : send peer f s = (true, sent_frame f s).
Proof. unfold send. by rewrite peer_reads. Qed.

Lemma received_content_snoc l f : received_content (l ++ [f]) = received_content l ++ frame_content f.
Proof. unfold received_content. rewrite bind_app. cbn. by rewrite app_nil_r. Qed.

Lemma received_reasoning_snoc l f : received_reasoning (l ++ [f]) = received_reasoning l ++ frame_reasoning f.
Proof. unfold received_reasoning. rewrite bind_app. cbn. by rewrite app_nil_r. Qed.

(** All the content so far: sent, and waiting in the chunker. *)
Definition content_so_far (s : Stream) : bytes := received_content (sent s) ++ buf (chunker s).

Record content_step (c : bytes) (s s' : Stream) : Prop := {
  cs_active : active s' = active s;
  cs_splitter : splitter s' = splitter s;
  cs_reasoning : received_reasoning (sent s') = received_reasoning (sent s);
  cs_content : content_so_far s' = content_so_far s ++ c;
  cs_emitted_reasoning : emitted_reasoning s' = emitted_reasoning s;
  cs_emitted_content : emitted_content s' = emitted_content s + length c;
  cs_unbatched : unbatched s' }.

Lemma on_content_step c lp s : carries lp -> unbatched s -> content_step c s (on_content peer collect c lp s).
Proof.
  intros Hlp Hu. unfold on_content, content_so_far. destruct collect eqn:Ec.
  - destruct Hlp as [l ->]; [done|]. rewrite send_ok. assert (Eb : buf (chunker s) = []) by by apply Hu.
    split; try done; unfold content_so_far; cbn; rewrite ?received_content_snoc, ?received_reasoning_snoc, ?Eb; cbn; by rewrite ?app_nil_r.
  - assert (Hnot : forall s', unbatched s') by (intros s' ?; congruence). destruct (ShouldFlush _) eqn:Ef.
    + rewrite send_ok. split; try done; unfold content_so_far; cbn; rewrite ?received_content_snoc, ?received_reasoning_snoc; cbn; by rewrite ?app_nil_r, ?app_assoc.
    + split; try done. unfold content_so_far. cbn. by rewrite app_assoc.
Qed.

(** The stream after the splitter was fed [chunks]. *)
Record in_step (sp0 : ResponseSplitter) (chunks : list bytes) (s : Stream) : Prop := {
  is_active : active s = true;
  is_unbatched : unbatched s;
  is_split : exists sp, splitter s = Some sp /\ same_split sp (foldl Feed sp0 chunks) /\ drained_all sp /\
    received_reasoning (sent s) = (sp_acc sp).1 /\ content_so_far s = (sp_acc sp).2 /\
    emitted_reasoning s = length (sp_acc sp).1 /\ emitted_content s = length (sp_acc sp).2 }.

Lemma Drain_delta sp p :
  drained_all sp ->
  exists sp' r c, Drain (Feed sp p) = (sp', Ret (r, c)) /\ same_split sp' (Feed sp p) /\ drained_all sp' /\
    sp_acc sp' = ((sp_acc sp).1 ++ r, (sp_acc sp).2 ++ c).
Proof.
  intros Hd. destruct (sp_feed_extends sp p) as (r & c & Ha & Hdr). rewrite Hd in Hdr. cbn [sp_feed response_splitter] in *.
  destruct (sp_drain_delta (Feed sp p)) as (sp' & E & Ha' & Hd'); [rewrite Hdr, Ha; cbn; rewrite length_app; lia..|].
  rewrite Hdr, Ha in E. cbn [fst snd] in E. rewrite !drop_app_length in E. cbn [sp_drain response_splitter] in E.
  exists sp', r, c. split_and!; [done|by eapply Drain_same|by unfold drained_all; rewrite Hd', Ha'|by rewrite Ha'].
Qed.

Lemma on_token_in_step sp0 chunks chunk lp s :
  in_step sp0 chunks s -> carries lp -> chunk <> [] ->
  exists s', on_token peer false collect chunk lp s = Ret s' /\ in_step sp0 (chunks ++ [chunk]) s'.
Proof.
  intros [Ha Hu (sp & Es & Hsame & Hd & Hr & Hc & Her & Hec)] Hlp Hne. unfold on_token.
  rewrite bool_decide_eq_false_2, Ha, Es by done. cbn [negb orb].
  destruct (Drain_delta sp chunk Hd) as (sp' & r & c & -> & Hs' & Hd' & Hacc).
  assert (Hsame' : same_split sp' (foldl Feed sp0 (chunks ++ [chunk]))).
  { rewrite foldl_snoc. eapply same_split_trans; [exact Hs'|by apply Feed_same]. }
  set (s1 := if bool_decide (r = []) then set_splitter (Some sp') s
             else add_reasoning (length r) (sent_frame (Reasoning r) (count_piece (set_splitter (Some sp') s)))).
  assert (E1 : (if bool_decide (r = []) then (true, set_splitter (Some sp') s)
    else let '(ok, s) := send peer (Reasoning r) (count_piece (set_splitter (Some sp') s)) in (ok, if ok then add_reasoning (length r) s else s)) = (true, s1)).
  { unfold s1. case_bool_decide; [done|]. by rewrite send_ok. }
  rewrite E1. clear E1. cbn [negb].
  assert (H1 : active s1 = true /\ unbatched s1 /\ splitter s1 = Some sp' /\ received_reasoning (sent s1) = (sp_acc sp').1 /\
    content_so_far s1 = (sp_acc sp).2 /\ emitted_reasoning s1 = length (sp_acc sp').1 /\ emitted_content s1 = length (sp_acc sp).2).
  { unfold s1. rewrite Hacc. cbn [fst]. case_bool_decide as Er.
    - subst r. cbn. rewrite app_nil_r. by split_and!.
    - cbn. rewrite received_reasoning_snoc, length_app, Hr, Her. unfold content_so_far. cbn.
      rewrite received_content_snoc. cbn. rewrite app_nil_r. by split_and!. }
  clearbody s1. destruct H1 as (Ha1 & Hu1 & Es1 & Hr1 & Hc1 & Her1 & Hec1). case_bool_decide as Ec.
  - eexists. split; [done|]. subst c. rewrite app_nil_r in Hacc. rewrite Hacc in *. cbn [fst snd] in *.
    split; [done|done|]. exists sp'. rewrite Hacc. by split_and!.
  - destruct (on_content_step c lp s1 Hlp Hu1) as [Ha2 Hs2 Hr2 Hc2 Her2 Hec2 Hu2]. eexists. split; [done|].
    split; [congruence|done|]. exists sp'. rewrite Hr2, Hc2, Hs2, Her2, Hec2, Hc1, Hec1, Hacc. cbn [fst snd]. rewrite !length_app.
    rewrite Hacc in Hr1, Her1. cbn [fst] in Hr1, Her1. rewrite length_app in Her1. by split_and!.
Qed.

(** The chunks that are not empty. *)
Definition chunks_of (l : list (bytes * option TokenLogprob)) : list bytes := filter (fun c => c <> []) l.*1.

Lemma on_tokens_in_step sp0 chunks l s :
  in_step sp0 chunks s -> Forall (fun x => carries x.2) l ->
  exists s', on_tokens peer false collect l s = Ret s' /\ in_step sp0 (chunks ++ chunks_of l) s'.
Proof.
  revert chunks s. induction l as [|[c lp] l IH]; intros chunks s Hs Hl; cbn [on_tokens].
  { exists s. unfold chunks_of. cbn. by rewrite app_nil_r. }
  apply Forall_cons in Hl as [Hlp Hl]. cbn [snd] in Hlp. unfold chunks_of. cbn [fmap list_fmap fst].
  destruct (decide (c = [])) as [->|Hc].
  - rewrite filter_cons_False by (intros H; by apply H). unfold on_token. rewrite bool_decide_eq_true_2 by done. by apply IH.
  - destruct (on_token_in_step sp0 chunks c lp s Hs Hlp Hc) as (s1 & -> & Hs1).
    destruct (IH _ _ Hs1 Hl) as (s2 & -> & Hs2). exists s2. split; [done|].
    rewrite filter_cons_True by done. by rewrite <- app_assoc in Hs2.
Qed.

Lemma put_ok f s : put peer f s = sent_frame f s.
Proof. unfold put. by rewrite peer_reads. Qed.

Lemma puts_sent l s : sent (puts peer l s) = sent s ++ l.
Proof.
  unfold puts. revert s. induction l as [|f l IH]; intros s; cbn [foldl]; [by rewrite app_nil_r|].
  rewrite IH, put_ok. cbn. by rewrite <- app_assoc.
Qed.

Lemma substr_from_app n (a b : bytes) : n = length a -> substr_from n (a ++ b) = Ret b.
Proof. intros ->. unfold substr_from. rewrite length_app, (proj2 (Nat.leb_le _ _)) by lia. by rewrite drop_app_length. Qed.

(** The end of the stream sends what the splitter still held, then ends. *)
Lemma finish_in_step sp0 chunks s family usage result ex :
  in_step sp0 chunks s -> calls ex = [] ->
  exists s', finish_stream peer false family usage result ex s = Ret s' /\
    (received_reasoning (sent s'), received_content (sent s')) = Finish (foldl Feed sp0 chunks) /\
    exists body, sent s' = body ++ [Stopped (finish_of result)] ++
      (if usage then [Usage (prompt_tokens result) (completion_tokens result) (reasoning_pieces s)] else []) ++ [Done].
Proof.
  intros [Ha Hu (sp & Es & Hsame & Hd & Hr & Hc & Her & Hec)] Hex. unfold finish_stream, flush_splitter.
  rewrite Ha, Es. cbn [negb]. destruct (sp_finish_extends sp) as (rr & rc & Hf). cbn [sp_finish response_splitter] in Hf.
  rewrite <- (Finish_same _ _ Hsame), Hf.
  rewrite (substr_from_app _ _ rr Her), (substr_from_app _ _ rc Hec).
  set (s1 := if bool_decide (rr = []) then s else put peer (Reasoning rr) s).
  set (s2 := if bool_decide (rc = []) then s1 else set_chunker (Append rc (chunker s1)) s1).
  set (s3 := if true && negb (Empty (chunker s2)) then put peer (Content (buf (chunker s2))) (set_chunker (TakeFrame [] [] 0 (chunker s2)).1 s2) else s2).
  assert (H1 : received_reasoning (sent s1) = (sp_acc sp).1 ++ rr /\ content_so_far s1 = (sp_acc sp).2 /\ splitter s1 = Some sp /\ reasoning_pieces s1 = reasoning_pieces s).
  { unfold s1. case_bool_decide as E; [subst rr; by rewrite app_nil_r|]. rewrite put_ok. unfold content_so_far. cbn.
    rewrite received_reasoning_snoc, received_content_snoc, Hr. cbn. by rewrite app_nil_r. }
  assert (H2 : received_reasoning (sent s2) = (sp_acc sp).1 ++ rr /\ content_so_far s2 = (sp_acc sp).2 ++ rc /\ splitter s2 = Some sp /\ reasoning_pieces s2 = reasoning_pieces s).
  { unfold s2. case_bool_decide as E; [subst rc; by rewrite app_nil_r|]. destruct H1 as (H & <- & ? & ?). unfold content_so_far. cbn.
    by rewrite app_assoc. }
  assert (H3 : received_reasoning (sent s3) = (sp_acc sp).1 ++ rr /\ received_content (sent s3) = (sp_acc sp).2 ++ rc /\ splitter s3 = Some sp /\ reasoning_pieces s3 = reasoning_pieces s).
  { unfold s3, Empty. destruct H2 as (H & <- & ? & ?). unfold content_so_far. case_bool_decide as E; cbn [negb andb].
    - by rewrite E, app_nil_r.
    - rewrite put_ok. cbn. rewrite received_reasoning_snoc, received_content_snoc. cbn. by rewrite app_nil_r. }
  clearbody s3. clear s1 s2 H1 H2. destruct H3 as (Hr3 & Hc3 & Es3 & Hp3). rewrite Es3.
  destruct (Split family (concat (token_buffer s3))) as [x y]. rewrite Hex. cbn [length bool_decide andb orb negb app].
  rewrite (bool_decide_eq_true_2 (0 = 0)) by done. cbn [negb andb]. eexists. split; [reflexivity|]. rewrite puts_sent. split; [|by rewrite Hp3; eexists].
  unfold received_reasoning, received_content. rewrite !bind_app.
  fold (received_reasoning (sent s3)). fold (received_content (sent s3)). rewrite Hr3, Hc3.
  destruct usage; cbn; by rewrite !app_nil_r.
Qed.
End Delivered.

Lemma new_stream_in_step collect family chunker0 :
  buf chunker0 = [] -> in_step collect (newResponse family) [] (new_stream false true family chunker0).
Proof.
  intros Hb. assert (H : sp_acc (newResponse family) = ([], []) /\ drained_all (newResponse family) /\ same_split (newResponse family) (newResponse family))
    by (unfold newResponse, drained_all; by case_bool_decide).
  destruct H as (Hacc & Hd & Hs). split; [done|by intros _|]. exists (newResponse family). rewrite Hacc.
  unfold content_so_far. cbn [new_stream sent chunker buf]. rewrite Hb. by split_and!.
Qed.

(** C12: streaming delivers the response.  Whatever the tokens are, however they are cut,
    batched into frames or sent one by one with log-probabilities: handling them never
    ends in an exception; the client that keeps reading receives in its reasoning and
    content frames exactly the reasoning and content that the splitter finishes with,
    in order, nothing twice and nothing lost; and the stream ends with the finish
    frame, the usage frame if asked for, and the end marker. *)
Theorem streamed_response_complete (peer : nat -> bool) (collect usage : bool) (family : ChatTemplateFamily) (chunker0 : SseStreamChunker)
    (l : list (bytes * option TokenLogprob)) (result : InferenceResult) (ex : ToolCallExtraction) :
  (forall n, peer n = true) -> buf chunker0 = [] -> Forall (fun x => carries collect x.2) l -> calls ex = [] ->
  exists s s', on_tokens peer false collect l (new_stream false true family chunker0) = Ret s /\
    finish_stream peer false family usage result ex s = Ret s' /\
    (received_reasoning (sent s'), received_content (sent s')) = Finish (foldl Feed (newResponse family) (chunks_of l)) /\
    exists body, sent s' = body ++ [Stopped (finish_of result)] ++
      (if usage then [Usage (prompt_tokens result) (completion_tokens result) (reasoning_pieces s)] else []) ++ [Done].
Proof.
  intros Hp Hb Hl Hex. destruct (on_tokens_in_step peer Hp collect _ [] l _ (new_stream_in_step collect family chunker0 Hb) Hl) as (s & E & Hs).
  destruct (finish_in_step peer Hp collect _ _ s family usage result ex Hs Hex) as (s' & E' & H). by exists s, s'.
Qed.

Definition demo_result : InferenceResult :=
  mkResult [] (bytes_of "<think>a</think>b") 3 2 false false [] 0 (d_of_Z 1) (d_of_Z 1) [] 0.
Definition demo_tokens : list (bytes * option TokenLogprob) :=
  (fun s => (bytes_of s, None)) <$> ["<th"; "ink>hm"; "</think"; ">yes"; ""; "!"].

Lemma streamed_response_complete_witness :
  exists s s', on_tokens (fun _ => true) false false demo_tokens (new_stream false true kChatML (FromEnv (Some (bytes_of "3")) None)) = Ret s /\
    finish_stream (fun _ => true) false kChatML true demo_result (mkExtraction [] []) s = Ret s' /\
    (received_reasoning (sent s'), received_content (sent s')) = (bytes_of "hm", bytes_of "yes!").
Proof.
  destruct (streamed_response_complete (fun _ => true) false true kChatML (FromEnv (Some (bytes_of "3")) None) demo_tokens demo_result (mkExtraction [] []))
    as (s & s' & E & E' & H & _); [done|done|by repeat constructor|done|].
  exists s, s'. split_and!; [done|done|]. rewrite H. by vm_compute.
Defined.

(** ** Streams that break *)

Section Broken.
Context (peer : nat -> bool) (buffer collect : bool).

(** A stream is alive or cancelled. *)
Definition alive_or_cancelled (s : Stream) : Prop := active s = negb (cancelled s).

Lemma send_alive f s : alive_or_cancelled s -> alive_or_cancelled (send peer f s).2.
Proof. unfold alive_or_cancelled, send. by destruct (peer (length (sent s))). Qed.

Lemma on_content_alive c lp s : alive_or_cancelled s -> alive_or_cancelled (on_content peer collect c lp s).
Proof.
  intros H. unfold on_content. destruct (if collect then lp else None) as [l|].
  - pose proof (send_alive (Token c l) s H) as Hs. destruct (send peer (Token c l) s) as [[] s']; done.
  - destruct (ShouldFlush _); [|done]. by apply send_alive.
Qed.

Lemma on_token_alive chunk lp s s' : alive_or_cancelled s -> on_token peer buffer collect chunk lp s = Ret s' -> alive_or_cancelled s'.
Proof.
  intros H. unfold on_token. destruct (_ || negb (active s)); [by intros [= <-]|]. destruct buffer; [by intros [= <-]|].
  destruct (splitter s) as [sp|]; [|intros [= <-]; by apply on_content_alive].
  destruct (Drain (Feed sp chunk)) as [sp' [[r c]|e]]; [|done].
  pose proof (send_alive (Reasoning r) (count_piece (set_splitter (Some sp') s)) H) as Hs.
  destruct (send peer (Reasoning r) (count_piece (set_splitter (Some sp') s))) as [ok s1]. cbn [snd] in Hs.
  case_bool_decide; [|destruct ok]; cbn [negb]; try (intros [= <-]; exact Hs);
    (case_bool_decide; [by intros [= <-]|]; intros [= <-]; by apply on_content_alive).
Qed.

(** A client that goes away stops the request.  A stream is dead exactly when the
    request's cancellation flag is set, whatever tokens were handled and whichever
    frames got through; and once it is dead, no token that still arrives and not the end
    of the request sends, buffers or counts anything more. *)
Theorem broken_stream_stays_silent l l' s s' family usage result ex :
  alive_or_cancelled s -> on_tokens peer buffer collect l s = Ret s' ->
  alive_or_cancelled s' /\
  (cancelled s' = true -> on_tokens peer buffer collect l' s' = Ret s' /\ finish_stream peer buffer family usage result ex s' = Ret s').
Proof.
  intros Ha H. assert (Hs' : alive_or_cancelled s').
  { revert s Ha H. induction l as [|[c lp] l IH]; intros s Ha; cbn [on_tokens]; [by intros [= <-]|].
    destruct (on_token peer buffer collect c lp s) as [s1|] eqn:E; [|done]. apply IH. by eapply on_token_alive. }
  split; [done|]. intros Hc. unfold alive_or_cancelled in Hs'. rewrite Hc in Hs'. cbn in Hs'.
  split; [|by unfold finish_stream; rewrite Hs'].
  induction l' as [|[c lp] l' IH]; cbn [on_tokens]; [done|]. unfold on_token. rewrite Hs', orb_true_r. exact IH.
Qed.
End Broken.

(** The client closes after the first frame. *)
Definition closing_peer (n : nat) : bool := n <? 1.

Lemma broken_stream_stays_silent_witness :
  exists s', on_tokens closing_peer false false [(bytes_of "a", None); (bytes_of "b", None)] (new_stream false true kChatML (FromEnv None None)) = Ret s' /\
    cancelled s' = true /\ sent s' = [Content (bytes_of "a")] /\ on_tokens closing_peer false false [(bytes_of "c", None)] s' = Ret s'.
Proof.
  assert (E : exists s', on_tokens closing_peer false false [(bytes_of "a", None); (bytes_of "b", None)] (new_stream false true kChatML (FromEnv None None)) = Ret s' /\
    cancelled s' = true /\ sent s' = [Content (bytes_of "a")]) by (eexists; vm_compute; done).
  destruct E as (s' & E & Hc & Hsent). exists s'. split_and!; [done|done|done|].
  destruct (broken_stream_stays_silent closing_peer false false _ [(bytes_of "c", None)] (new_stream false true kChatML (FromEnv None None)) s'
    kChatML true demo_result (mkExtraction [] []) eq_refl E) as [_ H].
  by destruct (H Hc).
Defined.

(** ** What is refused *)

(** A word in the text of a user: in the raw prompt, or in a message whose role is user. *)
Definition user_text (p : Payload) (t : bytes) : Prop :=
  t = HttpRequests.prompt p \/ exists m, m ∈ HttpRequests.messages p /\ HttpRequests.role m = bytes_of "user" /\ HttpRequests.content m = t.

Lemma guard_fold_contains ms acc :
  exists pre post, foldl (fun text m => if named (HttpRequests.role m) "user" then text ++ HttpRequests.content m ++ [nl] else text) acc ms = pre ++ acc ++ post.
Proof.
  revert acc. induction ms as [|m ms IH]; intros acc; cbn [foldl]; [by exists [], []; rewrite app_nil_r|].
  destruct (named (HttpRequests.role m) "user"); [|apply IH].
  destruct (IH (acc ++ HttpRequests.content m ++ [nl])) as (pre & post & ->). exists pre, (HttpRequests.content m ++ [nl] ++ post). by rewrite <- !app_assoc.
Qed.

Lemma guard_fold_message ms acc m :
  m ∈ ms -> HttpRequests.role m = bytes_of "user" ->
  exists pre post, foldl (fun text m => if named (HttpRequests.role m) "user" then text ++ HttpRequests.content m ++ [nl] else text) acc ms =
    pre ++ HttpRequests.content m ++ post.
Proof.
  intros Hm Hr. revert acc. induction ms as [|m' ms IH]; intros acc; [by apply elem_of_nil in Hm|].
  apply elem_of_cons in Hm as [<-|Hm]; cbn [foldl]; [|by apply IH].
  rewrite (proj2 (HttpRequests.named_true _ _) Hr).
  destruct (guard_fold_contains ms (acc ++ HttpRequests.content m ++ [nl])) as (pre & post & ->).
  exists (pre ++ acc), ([nl] ++ post). by rewrite <- !app_assoc.
Qed.

(** All the text of the user is in what the guardrail sees. *)
Lemma guard_text_contains p t : user_text p t -> exists pre post, guard_text p = pre ++ t ++ post.
Proof.
  unfold guard_text, wrap_prompt. case_bool_decide as Ep; [case_bool_decide as Em|]; cbn [andb].
  - apply nil_length_inv in Em. intros [->|(m & Hm & _)]; [|rewrite Em in Hm; by apply elem_of_nil in Hm].
    exists [], [nl]. by cbn.
  - intros [->|(m & Hm & Hr & <-)]; [apply guard_fold_contains|by apply guard_fold_message].
  - intros [->|(m & Hm & Hr & <-)]; [apply guard_fold_contains|by apply guard_fold_message].
Qed.

Lemma blocked_word_refused parse read_file post g words t w :
  w ∈ words -> w <> [] -> (exists a b, ToLower t = a ++ ToLower w ++ b) ->
  is_Some (Guardrail.Check_text parse read_file post t (Guardrail.UpdateBlocklist words g)).
Proof.
  intros Hw Hne (a & b & E). unfold Guardrail.Check_text. cbn [Guardrail.UpdateBlocklist Guardrail.blocklist].
  assert (Hin : ToLower w ∈ Guardrail.NormalizeWords words).
  { rewrite (Guardrail.NormalizeWords_elem parse read_file post). split; [by destruct w|by exists w]. }
  rewrite bool_decide_eq_true_2 by (intros Hn; rewrite Hn in Hin; by apply elem_of_nil in Hin).
  destruct (Guardrail.first_blocked (ToLower t) (Guardrail.NormalizeWords words)) eqn:Ef; [by eexists|].
  pose proof (proj1 (Guardrail.first_blocked_None parse read_file post _ _) Ef (ToLower w) Hin ltac:(by destruct w)) as Hn.
  pose proof (find_sub_None _ _ Hn (length a)) as Hs. rewrite E, drop_app_length in Hs.
  assert (starts_with (ToLower w) (ToLower w ++ b) = true) by (apply starts_with_spec; eauto). congruence.
Qed.

(** What the user writes is checked before anything is generated.  With a list of
    blocked words, no completion is generated, streamed or buffered, for one or for
    several results, when a non-empty word of the list occurs, letter case aside, in
    the raw prompt or in the content of a message of the user; whatever the template,
    the tools, the model selection and the state of the server. *)
Theorem blocked_user_text_never_generated dump format parse read_file post g words path server selection p t w :
  user_text p t -> w ∈ words -> w <> [] -> (exists a b, ToLower t = a ++ ToLower w ++ b) ->
  exists status error, generation_verdict dump format
    (Some (fun text => Guardrail.Check_text parse read_file post text (Guardrail.UpdateBlocklist words g))) path server selection p = Refuse status error.
Proof.
  intros Ht Hw Hne (a & b & E). destruct (guard_text_contains p t Ht) as (pre & suf & Eg).
  destruct (blocked_word_refused parse read_file post g words (guard_text p) w Hw Hne) as [reason Hr].
  { exists (ToLower pre ++ a), (b ++ ToLower suf). rewrite Eg. unfold ToLower in *. rewrite !fmap_app, E. by rewrite <- !app_assoc. }
  unfold generation_verdict. rewrite Hr. destruct (negb (HttpRequests.response_format_ok p)); [eauto|].
  destruct (named path "/v1/completions" && use_tools p); [eauto|]. destruct (build_prompt dump format p) as [prompt family].
  case_bool_decide; [eauto|]. destruct (negb _); [eauto|].
  destruct selection as [[[] ?]|]; try destruct (negb _ && negb _); eauto.
Qed.

Module Demo.
Definition payload (role prompt : string) : Payload :=
  let d := HttpRequests.default_payload in
  {| HttpRequests.prompt := []; HttpRequests.model := bytes_of "default"; HttpRequests.session_id := []; HttpRequests.client_request_id := [];
     HttpRequests.max_tokens := 16; HttpRequests.messages := [HttpRequests.mkMessage (bytes_of role) (bytes_of prompt)]; HttpRequests.stream := false;
     HttpRequests.json_mode := false; HttpRequests.tools := []; HttpRequests.first_tool_name := []; HttpRequests.has_tool_schema := false;
     HttpRequests.tool_choice := bytes_of "auto"; HttpRequests.tool_choice_function := []; HttpRequests.has_images := false; HttpRequests.images := [];
     HttpRequests.has_response_format := false; HttpRequests.response_format_type := []; HttpRequests.response_format_schema := [];
     HttpRequests.response_format_grammar := []; HttpRequests.response_format_root := []; HttpRequests.response_format_ok := true;
     HttpRequests.response_format_error := []; HttpRequests.logprobs := false; HttpRequests.top_logprobs := 0;
     HttpRequests.temperature := HttpRequests.temperature d; HttpRequests.top_p := HttpRequests.top_p d; HttpRequests.top_k := 0;
     HttpRequests.min_p := HttpRequests.min_p d; HttpRequests.frequency_penalty := HttpRequests.min_p d; HttpRequests.presence_penalty := HttpRequests.min_p d;
     HttpRequests.repetition_penalty := HttpRequests.top_p d; HttpRequests.seed := HttpRequests.no_seed; HttpRequests.logit_bias := HttpRequests.logit_bias d;
     HttpRequests.stop := []; HttpRequests.stream_include_usage := false; HttpRequests.n := 1; HttpRequests.best_of := 1 |}.
Definition server : HttpServer.ServerView := HttpServer.mkServer HttpServer.kUnified None true None 3 6 false 0 false.
Definition no_file (_ : bytes) : option (option bytes) := None.
Definition no_post (_ _ : bytes) : bytes + Z * bytes := inl [].
Definition no_json (_ : bytes) : bytes + json := inl [].
Definition dump (_ : json) : bytes := [].
Definition check (text : bytes) : option bytes :=
  Guardrail.Check_text no_json no_file no_post text (Guardrail.UpdateBlocklist [bytes_of "Bomb"] Guardrail.fresh).
Definition judge (p : Payload) : verdict :=
  generation_verdict dump None (Some check) (bytes_of "/v1/chat/completions") server (Some (ModelSelection.kSelected, "")) p.
Definition result (text : string) (lp : Z) : InferenceResult :=
  mkResult [] (bytes_of text) 1 1 false false [mkLogprob [] (f_of_Z lp) [] []] 0 (d_of_Z 1) (d_of_Z 1) [] 0.
End Demo.

Lemma blocked_user_text_never_generated_witness : exists status error, Demo.judge (Demo.payload "user" "a BOMB") = Refuse status error.
Proof.
  apply (blocked_user_text_never_generated Demo.dump None Demo.no_json Demo.no_file Demo.no_post Guardrail.fresh [bytes_of "Bomb"]
    (bytes_of "/v1/chat/completions") Demo.server (Some (ModelSelection.kSelected, "")) (Demo.payload "user" "a BOMB") (bytes_of "a BOMB") (bytes_of "Bomb")).
  - right. eexists. split; [left|done].
  - left.
  - done.
  - by exists (bytes_of "a "), [].
Defined.

(** A message without a role is not checked, although the prompt gives it to the user. *)
Example roleless_message_not_checked :
  Demo.judge (Demo.payload "" "a bomb") = Proceed (bytes_of "user: a bomb") None /\
  Demo.judge (Demo.payload "user" "a bomb") = Refuse 400 (bytes_of "Blocked content keyword: bomb").
Proof. by vm_compute. Qed.

(** ** Several completions *)

(** [std::sort] on this list: a permutation in the order of the comparison, which is a
    strict weak order when no sum is NaN. *)
Definition sorts (sort : list InferenceResult -> list InferenceResult) (all : list InferenceResult) : Prop :=
  sort all ≡ₚ all /\ StronglySorted (fun a b => dltb (cumlogprob a) (cumlogprob b) = false) (sort all).

Lemma StronglySorted_split {A} (R : A -> A -> Prop) n (l : list A) : StronglySorted R l -> forall x y, x ∈ take n l -> y ∈ drop n l -> R x y.
Proof.
  intros H. revert n. induction H as [|a l Hl IH Ha]; intros [|n] x y; cbn; try (by intros ?%elem_of_nil).
  intros [->|Hx]%elem_of_cons Hy; [|by eapply IH]. rewrite Forall_forall in Ha. apply Ha.
  rewrite <- (take_drop n l). apply elem_of_app. by right.
Qed.

(** With [best_of] the best candidates are returned.  When more candidates are
    generated than asked for, exactly as many as asked for are returned, each of them
    generated, and no candidate that is left out has a greater sum of
    log-probabilities than one that is returned. *)
Theorem best_candidates_returned sort all (n_return : Z) (collect : bool) :
  sorts sort all -> (0 <= n_return < Z.of_nat (length all))%Z ->
  exists kept dropped, select_best sort n_return (Z.of_nat (length all)) collect all = (if collect then kept else without_logprobs <$> kept) /\
    kept ++ dropped ≡ₚ all /\ Z.of_nat (length kept) = n_return /\
    forall k d, k ∈ kept -> d ∈ dropped -> dltb (cumlogprob k) (cumlogprob d) = false.
Proof.
  intros [Hp Hs] Hn. exists (take (Z.to_nat n_return) (sort all)), (drop (Z.to_nat n_return) (sort all)). split_and!.
  - unfold select_best. rewrite (proj2 (Z.ltb_lt _ _)) by lia. done.
  - by rewrite take_drop.
  - rewrite length_take, (Permutation_length Hp). lia.
  - exact (StronglySorted_split _ _ _ Hs).
Qed.

Lemma best_candidates_returned_witness :
  let all := [Demo.result "a" (-9); Demo.result "b" (-2); Demo.result "c" (-5)] in
  let sort := fun _ => [Demo.result "b" (-2); Demo.result "c" (-5); Demo.result "a" (-9)] in
  sorts sort all /\
  exists kept dropped, select_best sort 1 3 true all = kept /\ kept ++ dropped ≡ₚ all /\ Z.of_nat (length kept) = 1%Z /\
    forall k d, k ∈ kept -> d ∈ dropped -> dltb (cumlogprob k) (cumlogprob d) = false.
Proof.
  intros all sort.
  assert (Hs : sorts sort all).
  { split.
    - unfold sort, all.
      change [Demo.result "b" (-2); Demo.result "c" (-5); Demo.result "a" (-9)] with ([Demo.result "b" (-2); Demo.result "c" (-5)] ++ [Demo.result "a" (-9)]).
      apply Permutation_app_comm.
    - repeat constructor; by vm_compute. }
  split; [exact Hs|]. apply (best_candidates_returned sort all 1 true Hs). cbn. lia.
Defined.

(** The reasoning of the last choice that has some is shown with the first one, and
    that of the others is not shown. *)
Example reasoning_shown_with_wrong_choice :
  let '(results, text, count) := separate_all false true kChatML
    [Demo.result "<think>first</think>A" 0; Demo.result "<think>second</think>B" 0] in
  imap (choice_parts false kChatML true text) results = [(bytes_of "second", bytes_of "A"); ([], bytes_of "B")] /\ count = 2%Z.
Proof. by vm_compute. Qed.

(** Different generations have different seeds, unless no seed was given. *)
Lemma seeds_differ seed i j :
  (0 <= seed < 2 ^ 32)%Z -> seed <> HttpRequests.no_seed -> i < j -> (Z.of_nat j < 2 ^ 32)%Z -> seed_for seed i <> seed_for seed j.
Proof.
  intros Hs Hne Hij Hj. unfold seed_for. rewrite (bool_decide_eq_false_2 (j = 0)) by lia. rewrite (proj2 (Z.eqb_neq _ _)) by done.
  assert (Hsmall : seed = ((seed + 0) mod 2 ^ 32)%Z) by (rewrite Z.add_0_r, Z.mod_small; lia).
  assert (Hd : forall a b, (0 <= a < b)%Z -> (b < 2 ^ 32)%Z -> ((seed + a) mod 2 ^ 32 <> (seed + b) mod 2 ^ 32)%Z).
  { intros a b Ha Hb E. pose proof (Z.div_mod (seed + a) (2 ^ 32) ltac:(lia)). pose proof (Z.div_mod (seed + b) (2 ^ 32) ltac:(lia)).
    assert ((2 ^ 32) * ((seed + b) / 2 ^ 32 - (seed + a) / 2 ^ 32) = b - a)%Z by lia. nia. }
  case_bool_decide; [rewrite Hsmall at 1|]; apply Hd; lia.
Qed.
