(* ===== verification/Advisor.v ===== *)
(** * server/startup_advisor.cpp: advice on the configuration

    What the server recommends when it has loaded its models: how many sequence slots
    fit on the GPU beside the largest model, and the other rules.  A rule returns the
    recommendations that it logs, in order; the number the code returns is their
    number.  The environment, the contents of files and the probed GPU are arguments;
    the texts of the messages are left out, the numbers in them are not. *)

From stdpp Require Import base tactics numbers list strings pretty sets.
From Stdlib Require Import Ascii Floats.SpecFloat.
From S2P Require Import Prelude StringUtils Float64 Backends Gguf.
From S2P Require HttpClient ModelFormat.

#[export] Instance QuantizationType_eq_dec : EqDecision QuantizationType.
Proof. solve_decision. Defined.

Local Open Scope Z_scope.

Definition kMiB : Z := 1024 * 1024.
Definition kGiB : Z := kMiB * 1024.
Definition int_max : Z := 2 ^ 31 - 1.

(** ** Data *)

(** The fields that the advisor reads. *)
Record AdvisorModelInfo := mkModel {
  id : bytes; path : bytes; format : bytes; backend : bytes; backend_provider : bytes; file_size_bytes : Z;
  quantization : QuantizationType; n_layers : Z; hidden_dim : Z }.

Record AdvisorGpuInfo := mkGpu {
  available : bool; device_count : Z; compute_major : Z; total_vram_bytes : Z; free_vram_bytes : Z }.

Record AdvisorConfig := mkConfig {
  cuda_enabled : bool; flash_attention_enabled : bool; phase_overlap_enabled : bool; max_batch_size : Z; kv_cpu_pages : Z;
  tp_degree : Z; max_parallel_sequences : Z; n_ctx : Z }.

Definition default_config : AdvisorConfig := mkConfig false false false 8 32 1 128 2048.

Record MemoryAllocationRecommendation := mkRec {
  valid : bool; model_size_bytes : Z; overhead_bytes : Z; recommended_max_slots : Z; recommended_n_ctx : Z;
  per_slot_kv_bytes : Z; total_kv_bytes : Z; total_needed_bytes : Z; available_bytes : Z; utilization_percent : double;
  config_yaml_snippet : bytes; warnings : list string }.

Definition no_recommendation : MemoryAllocationRecommendation :=
  mkRec false 0 0 0 0 0 0 0 0 (S754_zero false) [] [].

Record StartupAdvisorContext := mkContext { models : list AdvisorModelInfo; gpu : AdvisorGpuInfo; config : AdvisorConfig }.

(** ** Arithmetic

    With 128-bit intermediate results, as compiled by GCC and Clang; the [_portable]
    variants are those of the other compilers. *)

Definition ScaleByPercent (value percent : Z) : Z := u64 (value * percent / 100).
Definition ScaleByPercent_portable (value percent : Z) : Z :=
  u64 (u64 (value / 100 * percent) + u64 (value mod 100 * percent) / 100).

Definition ScaleByRatio (value numerator denominator : Z) : Z :=
  if denominator =? 0 then value else u64 (value * numerator / denominator).
Definition ScaleByRatio_portable (value numerator denominator : Z) : Z :=
  if denominator =? 0 then value
  else u64 (u64 (value / denominator * numerator) + u64 (value mod denominator * numerator) / denominator).

Definition ClampToInt (value : Z) : Z := if int_max <? value then int_max else value.

Definition basis_points (used total : Z) : Z := Z.min (used * 10000 / total) 100000000.
Definition basis_points_portable (used total : Z) : Z :=
  Z.min (u64 (u64 (used / total * 10000) + u64 (used mod total * 10000) / total)) 100000000.
Definition PercentUsage (used total : Z) : double :=
  if total =? 0 then S754_zero false else ddiv (d_of_Z (basis_points used total)) (d_of_Z 100).

(** ** Quantization *)

Definition IsQuantizedQuantizationType (q : QuantizationType) : bool :=
  match q with kUnknown | kFp32 | kFp16 | kBf16 => false | _ => true end.

Definition contains (s : bytes) (t : string) : bool := match find_sub (bytes_of t) s with Some _ => true | None => false end.

(** The markers in the order in which they are looked for. *)
Definition filename_markers : list (string * QuantizationType) :=
  [("q8_k", kQ8_K); ("q8_1", kQ8_1); ("q8_0", kQ8_0); ("q6_k", kQ6_K); ("q5_k_m", kQ5_K_M); ("q5_k", kQ5_K); ("q5_1", kQ5_1);
   ("q5_0", kQ5_0); ("q4_k_m", kQ4_K_M); ("q4_k", kQ4_K); ("q4_1", kQ4_1); ("q4_0", kQ4_0); ("q3_k_m", kQ3_K_M); ("q3_k", kQ3_K);
   ("q2_k", kQ2_K); ("bf16", kBf16); ("fp16", kFp16); ("f16", kFp16); ("fp32", kFp32); ("f32", kFp32)]%string.

Definition DetectQuantizationFromFilename (filename : bytes) : QuantizationType :=
  let lower := ToLower filename in
  match list_find (fun m => contains lower m.1 = true) filename_markers with Some (_, (_, q)) => q | None => kUnknown end.

Definition GetQuantizationString (q : QuantizationType) : string :=
  match q with
  | kFp32 => "FP32" | kFp16 => "FP16" | kBf16 => "BF16" | kQ8_1 => "Q8_1" | kQ8_0 => "Q8_0" | kQ8_K => "Q8_K" | kQ6_K => "Q6_K"
  | kQ5_1 => "Q5_1" | kQ5_0 => "Q5_0" | kQ5_K_M => "Q5_K_M" | kQ5_K => "Q5_K" | kQ4_1 => "Q4_1" | kQ4_0 => "Q4_0"
  | kQ4_K_M => "Q4_K_M" | kQ4_K => "Q4_K" | kQ3_K => "Q3_K" | kQ3_K_M => "Q3_K_M" | kQ2_K => "Q2_K" | kUnknown => "Unknown"
  end%string.

Section Advisor.
(** The contents of the file at a path, and [getenv]. *)
Context (read_file : bytes -> option bytes) (env : string -> option bytes).

Definition DetectQuantization (model_path format : bytes) : QuantizationType :=
  if named format "gguf" then
    let from_metadata := default kUnknown (DetectFromGgufMetadata (read_file model_path)) in
    if bool_decide (from_metadata = kUnknown) then DetectQuantizationFromFilename (ModelFormat.filename model_path) else from_metadata
  else kUnknown.

(** Numerator and denominator. *)
Definition compression_of (q : QuantizationType) : Z * Z :=
  match q with
  | kQ2_K => (8, 1)
  | kQ3_K | kQ3_K_M => (5, 1)
  | kQ4_0 | kQ4_1 | kQ4_K_M | kQ4_K => (9, 2)
  | kQ5_0 | kQ5_1 | kQ5_K_M | kQ5_K => (7, 2)
  | kQ6_K => (3, 1)
  | kQ8_1 | kQ8_0 | kQ8_K | kFp16 | kBf16 => (2, 1)
  | kFp32 | kUnknown => (1, 1)
  end.

(** The end of [EstimateLoadedModelSize], when the compression is known. *)
Definition loaded_size (format : bytes) (file_size : Z) (compression : Z * Z) : Z :=
  if named format "gguf" then ScaleByRatio file_size 11 10
  else ScaleByRatio (ScaleByRatio file_size compression.2 compression.1) 11 10.

(** The recursive call is made with a quantization that is known. *)
Definition EstimateLoadedModelSize (model : AdvisorModelInfo) : Z :=
  if file_size_bytes model =? 0 then 0
  else
    let q := if bool_decide (quantization model = kUnknown) && named (format model) "gguf"
             then DetectQuantization (path model) (format model) else quantization model in
    let compression := if bool_decide (q = kUnknown) && named (format model) "gguf" then (2, 1) else compression_of q in
    loaded_size (format model) (file_size_bytes model) compression.

Definition CalculatePerSlotKvSize (n_ctx hidden_dim n_layers element_size : Z) : Z :=
  if (n_ctx <=? 0) || (hidden_dim <=? 0) || (n_layers <=? 0) || (element_size =? 0) then 0
  else u64 (2 * n_ctx * hidden_dim * n_layers * element_size).

(** ** The allocation of slots *)

(** [std::max_element]: the first of the largest. *)
Definition largest (m : AdvisorModelInfo) (ms : list AdvisorModelInfo) : AdvisorModelInfo :=
  foldl (fun best m => if file_size_bytes best <? file_size_bytes m then m else best) m ms.

(** An integer of the environment; a value that [std::stoi] rejects is reported and ignored. *)
Definition env_int (name : string) : option Z :=
  match env name with
  | Some s => match HttpClient.stoi_throws s with Ret v => Some v | Throw _ => None end
  | None => None
  end.

Definition target_utilization_pct : Z :=
  match env_int "INFERFLUX_GPU_UTILIZATION_PCT" with Some v => if (50 <=? v) && (v <=? 98) then v else 85 | None => 85 end.
Definition base_overhead_bytes : Z :=
  match env_int "INFERFLUX_OVERHEAD_GB" with Some v => if (0 <=? v) && (v <=? 16) then v * kGiB else kGiB | None => kGiB end.
Definition min_slots : Z := match env_int "INFERFLUX_MIN_SLOTS" with Some v => Z.max 4 v | None => 10 end.
Definition max_slots : Z := match env_int "INFERFLUX_MAX_SLOTS" with Some v => Z.min 512 v | None => 256 end.

Definition activation_overhead_pct (q : QuantizationType) : Z :=
  match q with kFp16 | kBf16 => 50 | _ => if IsQuantizedQuantizationType q then 20 else 0 end.

Definition overhead_of (model_size : Z) (q : QuantizationType) : Z :=
  let base_overhead := u64 (base_overhead_bytes + ScaleByPercent model_size (activation_overhead_pct q)) in
  u64 (base_overhead + ScaleByPercent base_overhead 10).

Definition model_size_of (model : AdvisorModelInfo) : Z :=
  let estimated := EstimateLoadedModelSize model in if estimated =? 0 then file_size_bytes model else estimated.

Definition target_vram (g : AdvisorGpuInfo) : Z := ScaleByPercent (total_vram_bytes g) target_utilization_pct.

Definition yaml_snippet (slots ctx_size : Z) : bytes :=
  bytes_of "runtime:" ++ [nl] ++ bytes_of "  llama:" ++ [nl] ++
  bytes_of "    max_parallel_sequences: " ++ bytes_of (pretty slots) ++ [nl] ++ bytes_of "    n_ctx: " ++ bytes_of (pretty ctx_size).

Definition CalculateOptimalSlotAllocation (ctx : StartupAdvisorContext) : MemoryAllocationRecommendation :=
  match models ctx with
  | [] => no_recommendation
  | m :: ms =>
      if negb (available (gpu ctx)) then no_recommendation
      else
        let model := largest m ms in
        let size := model_size_of model in
        let target := target_vram (gpu ctx) in
        let overhead := overhead_of size (quantization model) in
        let without warning := mkRec false size overhead 0 0 0 0 0 0 (S754_zero false) [] [warning] in
        if target <=? size then without "Model size exceeds 85% of GPU VRAM - will likely fail to load"%string
        else if target - size <=? overhead then
          without "Overhead estimate leaves no room for KV cache at current target utilization"%string
        else
          let available_for_kv := target - size - overhead in
          let layers := if 0 <? n_layers model then n_layers model else 36 in
          let hidden := if 0 <? hidden_dim model then hidden_dim model else 128 in
          let ctx_size := if 0 <? n_ctx (config ctx) then n_ctx (config ctx) else 2048 in
          let per_slot := CalculatePerSlotKvSize ctx_size hidden layers 8 in
          if per_slot =? 0 then without "Invalid KV cache estimate (per-slot bytes is zero)"%string
          else
            let slots := Z.max min_slots (Z.min max_slots (ClampToInt (available_for_kv / per_slot))) in
            let total_kv := u64 (per_slot * slots) in
            let needed := u64 (u64 (size + overhead) + total_kv) in
            mkRec true size overhead slots ctx_size per_slot total_kv needed (total_vram_bytes (gpu ctx))
              (PercentUsage needed (total_vram_bytes (gpu ctx))) (yaml_snippet slots ctx_size) []
  end.

(** ** Rules *)

Inductive Recommendation :=
  | Backend (id : bytes)
  | Attention
  | BatchSize (suggested current : Z)
  | PhaseOverlap
  | KvCache (suggested : Z)
  | TensorParallel (device_count : Z) (id : bytes)
  | Format (id : bytes)
  | GpuUnused
  | SlotAllocation (shown_model : bytes) (rec : MemoryAllocationRecommendation)
  | Quantization (id : bytes).

Definition CheckBackendMismatch (ctx : StartupAdvisorContext) : list Recommendation :=
  m ← models ctx;
  if named (format m) "safetensors" && bool_decide (ParseLlamaBackendTarget (backend m) = kCuda) && named (backend_provider m) "llama_cpp"
  then [Backend (id m)] else [].

Definition CheckAttentionKernel (ctx : StartupAdvisorContext) : list Recommendation :=
  if negb (cuda_enabled (config ctx)) || negb (available (gpu ctx)) then []
  else if compute_major (gpu ctx) <? 8 then []
  else if flash_attention_enabled (config ctx) then [] else [Attention].

Definition max_model_size (ms : list AdvisorModelInfo) : Z :=
  foldl (fun best m => if best <? file_size_bytes m then file_size_bytes m else best) 0 ms.

Definition slot_cost (ms : list AdvisorModelInfo) : Z := Z.max (ScaleByPercent (max_model_size ms) 15) 1.

Definition suggested_batch (ctx : StartupAdvisorContext) : Z :=
  let suggested := ClampToInt (free_vram_bytes (gpu ctx) / slot_cost (models ctx)) in
  if suggested <? 1 then 1 else suggested.

Definition CheckBatchSizeVsVram (ctx : StartupAdvisorContext) : list Recommendation :=
  if negb (available (gpu ctx)) || (free_vram_bytes (gpu ctx) =? 0) then []
  else if bool_decide (models ctx = []) then []
  else if max_model_size (models ctx) =? 0 then []
  else if u64 (Z.max (max_batch_size (config ctx)) 1 * 3) <? u64 (suggested_batch ctx * 2)
  then [BatchSize (suggested_batch ctx) (max_batch_size (config ctx))] else [].

Definition CheckPhaseOverlap (ctx : StartupAdvisorContext) : list Recommendation :=
  if negb (cuda_enabled (config ctx)) then []
  else if phase_overlap_enabled (config ctx) then []
  else if max_batch_size (config ctx) <? 4 then [] else [PhaseOverlap].

Definition CheckKvCachePages (ctx : StartupAdvisorContext) : list Recommendation :=
  if negb (available (gpu ctx)) || (free_vram_bytes (gpu ctx) =? 0) then []
  else if free_vram_bytes (gpu ctx) <? 4 * kGiB then []
  else if 64 <? kv_cpu_pages (config ctx) then []
  else
    let suggested := free_vram_bytes (gpu ctx) / (64 * kMiB) in
    if suggested <=? kv_cpu_pages (config ctx) then [] else [KvCache suggested].

Definition CheckTensorParallelism (ctx : StartupAdvisorContext) : list Recommendation :=
  if negb (available (gpu ctx)) then []
  else if device_count (gpu ctx) <=? 1 then []
  else if 1 <? tp_degree (config ctx) then []
  else
    let vram_pressure_threshold := ScaleByPercent (total_vram_bytes (gpu ctx)) 70 in
    match list_find (fun m => vram_pressure_threshold < file_size_bytes m) (models ctx) with
    | Some (_, m) => [TensorParallel (device_count (gpu ctx)) (id m)]
    | None => []
    end.

Definition CheckUnknownFormat (ctx : StartupAdvisorContext) : list Recommendation :=
  m ← models ctx; if named (format m) "unknown" then [Format (id m)] else [].

Definition CheckGpuUnused (ctx : StartupAdvisorContext) : list Recommendation :=
  if negb (available (gpu ctx)) then []
  else if bool_decide (models ctx = []) then []
  else if forallb (fun m => bool_decide (ParseLlamaBackendTarget (backend m) = kCpu)) (models ctx) then [GpuUnused] else [].

Definition half : double := ddiv (d_of_Z 1) (d_of_Z 2).

(** The advice differs enough from what is configured. *)
Definition significant (recommended configured : Z) : bool :=
  let slot_ratio := ddiv (d_of_Z recommended) (d_of_Z (Z.max 1 configured)) in
  dltb slot_ratio half || dltb (d_of_Z 2) slot_ratio.

Definition CheckDynamicSlotAllocation (ctx : StartupAdvisorContext) : list Recommendation :=
  if negb (available (gpu ctx)) || (total_vram_bytes (gpu ctx) =? 0) then []
  else match models ctx with
       | [] => []
       | m :: _ =>
           let rec := CalculateOptimalSlotAllocation ctx in
           if negb (valid rec) then []
           else if significant (recommended_max_slots rec) (max_parallel_sequences (config ctx)) then [SlotAllocation (id m) rec] else []
       end.

Definition CheckQuantizationMismatch (ctx : StartupAdvisorContext) : list Recommendation :=
  m ← models ctx; if named (format m) "gguf" && bool_decide (quantization m = kUnknown) then [Quantization (id m)] else [].

Definition rules : list (StartupAdvisorContext -> list Recommendation) :=
  [CheckBackendMismatch; CheckAttentionKernel; CheckBatchSizeVsVram; CheckPhaseOverlap; CheckKvCachePages; CheckTensorParallelism;
   CheckUnknownFormat; CheckGpuUnused; CheckDynamicSlotAllocation; CheckQuantizationMismatch].

Definition advisor_disabled : bool :=
  match env "INFERFLUX_DISABLE_STARTUP_ADVISOR" with Some v => one_of v ["true"; "1"; "yes"]%string | None => false end.

Definition RunStartupAdvisor (ctx : StartupAdvisorContext) : list Recommendation :=
  if advisor_disabled then [] else if bool_decide (models ctx = []) then [] else rule ← rules; rule ctx.
End Advisor.

(** ** The two ways of computing agree *)

Lemma scale_split value a d : 0 < d -> value * a / d = value / d * a + value mod d * a / d.
Proof.
  intros Hd. rewrite (Z.div_mod value d) at 1 by lia.
  replace ((d * (value / d) + value mod d) * a) with (value mod d * a + value / d * a * d) by ring.
  rewrite Z.div_add by lia. ring.
Qed.

(** On every 64-bit value, the portable arithmetic gives what the 128-bit arithmetic
    gives; for the share of memory in use, of sizes below 2^50. *)
Theorem portable_arithmetic_agrees value a d used total :
  0 <= value < 2 ^ 64 -> 0 <= a < 2 ^ 32 -> 0 <= d < 2 ^ 32 -> 0 <= used < 2 ^ 50 -> 0 < total < 2 ^ 50 ->
  ScaleByPercent_portable value a = ScaleByPercent value a /\
  ScaleByRatio_portable value a d = ScaleByRatio value a d /\
  basis_points_portable used total = basis_points used total.
Proof.
  intros Hv Ha Hd Hu Ht.
  assert (Hr : forall b, 0 < b < 2 ^ 32 -> u64 (u64 (value / b * a) + u64 (value mod b * a) / b) = u64 (value * a / b)).
  { intros b Hb. rewrite (scale_split value a b) by lia. pose proof (Z.mod_pos_bound value b).
    rewrite (u64_small (value mod b * a)) by nia. unfold u64. by rewrite Zplus_mod_idemp_l. }
  split_and!.
  - apply Hr. lia.
  - unfold ScaleByRatio_portable, ScaleByRatio. destruct (Z.eqb_spec d 0); [done|]. apply Hr. lia.
  - unfold basis_points_portable, basis_points. f_equal. rewrite (scale_split used 10000 total) by lia.
    pose proof (Z.mod_pos_bound used total). pose proof (Z.div_pos used total). pose proof (Z.mul_div_le used total).
    assert (used / total <= used) by nia. rewrite (u64_small (used / total * 10000)), (u64_small (used mod total * 10000)) by nia.
    apply u64_small. assert (0 <= used mod total * 10000 / total <= 10000); [|nia].
    split; [apply Z.div_pos; nia|]. apply Z.div_le_upper_bound; nia.
Qed.

(** ** The advice on slots *)

Lemma scale_percent_le v p : 0 <= v -> 0 <= p <= 100 -> v < 2 ^ 64 -> ScaleByPercent v p = v * p / 100 /\ 0 <= ScaleByPercent v p <= v.
Proof.
  intros Hv Hp H64. assert (0 <= v * p / 100 <= v) by (split; [apply Z.div_pos; nia|apply Z.div_le_upper_bound; nia]).
  unfold ScaleByPercent. rewrite u64_small by lia. lia.
Qed.

Section AdviceOk.
Context (read_file : bytes -> option bytes) (env : string -> option bytes).

Local Abbreviation Advice := (CalculateOptimalSlotAllocation read_file env).
Local Abbreviation Target := (target_vram env).

Lemma activation_pct_range q : 0 <= activation_overhead_pct q <= 50.
Proof. by destruct q. Qed.

Lemma target_pct_range : 50 <= target_utilization_pct env <= 98.
Proof.
  unfold target_utilization_pct. destruct (env_int env _) as [v|]; [|lia].
  destruct (Z.leb_spec 50 v); cbn [andb]; [|lia]. destruct (Z.leb_spec v 98); lia.
Qed.

Lemma base_overhead_range : 0 <= base_overhead_bytes env <= 16 * kGiB.
Proof.
  unfold base_overhead_bytes, kGiB, kMiB. destruct (env_int env _) as [v|]; [|lia].
  destruct (Z.leb_spec 0 v); cbn [andb]; [|lia]. destruct (Z.leb_spec v 16); lia.
Qed.

Lemma min_slots_pos : 4 <= min_slots env.
Proof. unfold min_slots. destruct (env_int env _); lia. Qed.

(** The overhead is computed without wrapping around: the base and the activations,
    and a tenth of both. *)
Lemma overhead_exact size q : 0 <= size < 2 ^ 64 ->
  let base := base_overhead_bytes env + size * activation_overhead_pct q / 100 in
  overhead_of env size q = base + base / 10 /\ 0 <= overhead_of env size q.
Proof.
  intros Hs base. pose proof (activation_pct_range q). pose proof base_overhead_range as Hb. unfold kGiB, kMiB in Hb.
  assert (Ha : 0 <= size * activation_overhead_pct q / 100 <= size / 2).
  { split; [apply Z.div_pos; nia|]. apply Z.div_le_lower_bound; [lia|].
    assert (size * activation_overhead_pct q / 100 <= size * 50 / 100) by (apply Z.div_le_mono; nia).
    pose proof (Z.mul_div_le (size * 50) 100). nia. }
  assert (Hh : size / 2 < 2 ^ 63) by (apply Z.div_lt_upper_bound; lia).
  assert (Hs' : ScaleByPercent size (activation_overhead_pct q) = size * activation_overhead_pct q / 100)
    by (apply scale_percent_le; lia).
  assert (Hbase : 0 <= base < 2 ^ 63 + 2 ^ 35) by (unfold base; lia).
  assert (Ht : 0 <= base / 10 <= base) by (split; [apply Z.div_pos; lia|apply Z.div_le_upper_bound; lia]).
  assert (Ht' : base / 10 < 2 ^ 60) by (apply Z.div_lt_upper_bound; lia).
  unfold overhead_of. rewrite Hs'. fold base. rewrite (u64_small base) by lia. unfold ScaleByPercent.
  replace (base * 10 / 100) with (base / 10) by (change 100 with (10 * 10); by rewrite Z.div_mul_cancel_r by lia).
  rewrite (u64_small (base / 10)), u64_small by lia. lia.
Qed.

(** What a valid recommendation is made of. *)
Record advised (ctx : StartupAdvisorContext) (r : MemoryAllocationRecommendation) : Prop := {
  ad_overhead : exists q, overhead_bytes r = overhead_of env (model_size_bytes r) q;
  ad_room : model_size_bytes r + overhead_bytes r < Target (gpu ctx);
  ad_per_slot : per_slot_kv_bytes r <> 0;
  ad_slots : recommended_max_slots r =
    Z.max (min_slots env) (Z.min (max_slots env)
      (ClampToInt ((Target (gpu ctx) - model_size_bytes r - overhead_bytes r) / per_slot_kv_bytes r)));
  ad_kv : total_kv_bytes r = u64 (per_slot_kv_bytes r * recommended_max_slots r);
  ad_needed : total_needed_bytes r = u64 (u64 (model_size_bytes r + overhead_bytes r) + total_kv_bytes r);
  ad_available : available_bytes r = total_vram_bytes (gpu ctx);
  ad_n_ctx : recommended_n_ctx r = if 0 <? n_ctx (config ctx) then n_ctx (config ctx) else 2048;
  ad_per_slot_range : 0 <= per_slot_kv_bytes r < 2 ^ 64;
  ad_warnings : warnings r = [] }.

Lemma per_slot_range a b c d : 0 <= CalculatePerSlotKvSize a b c d < 2 ^ 64.
Proof. unfold CalculatePerSlotKvSize. destruct (_ || _); [lia|apply u64_range]. Qed.

Lemma advice_made ctx : valid (Advice ctx) = true -> advised ctx (Advice ctx).
Proof.
  unfold CalculateOptimalSlotAllocation. destruct (models ctx) as [|m ms]; [done|].
  destruct (negb (available (gpu ctx))); [done|]. cbv zeta.
  set (size := model_size_of _ _). set (overhead := overhead_of _ _ _).
  destruct (Z.leb_spec (Target (gpu ctx)) size); [done|].
  destruct (Z.leb_spec (Target (gpu ctx) - size) overhead); [done|].
  set (per_slot := CalculatePerSlotKvSize _ _ _ _). destruct (Z.eqb_spec per_slot 0); [done|]. intros _.
  split; cbn; try done; [by eexists|lia|apply per_slot_range].
Qed.

Lemma loaded_size_range f z c : 0 <= loaded_size f z c < 2 ^ 64.
Proof. unfold loaded_size, ScaleByRatio at 1 2. destruct (named f "gguf"); apply u64_range. Qed.

Lemma estimate_range model : 0 <= file_size_bytes model < 2 ^ 64 -> 0 <= model_size_of read_file model < 2 ^ 64.
Proof.
  intros Hf. unfold model_size_of. destruct (_ =? 0); [done|]. unfold EstimateLoadedModelSize.
  destruct (_ =? 0); [lia|apply loaded_size_range].
Qed.

Lemma advice_size_range ctx : Forall (fun m => 0 <= file_size_bytes m < 2 ^ 64) (models ctx) -> 0 <= model_size_bytes (Advice ctx) < 2 ^ 64.
Proof.
  unfold CalculateOptimalSlotAllocation. destruct (models ctx) as [|m ms]; [simpl; lia|]. intros [Hm Hms]%Forall_cons.
  destruct (negb (available (gpu ctx))); [simpl; lia|]. cbv zeta.
  assert (Hl : 0 <= file_size_bytes (largest m ms) < 2 ^ 64).
  { unfold largest. clear -Hm Hms. revert m Hm. induction Hms as [|x ms Hx _ IH]; intros m Hm; [done|].
    cbn [foldl]. apply IH. by destruct (_ <? _). }
  apply estimate_range in Hl. repeat (destruct (_ <=? _); [done|]). by destruct (_ =? 0).
Qed.

(** The sizes of a context are 64-bit. *)
Definition context_ok (ctx : StartupAdvisorContext) : Prop :=
  Forall (fun m => 0 <= file_size_bytes m < 2 ^ 64) (models ctx) /\ 0 <= total_vram_bytes (gpu ctx) < 2 ^ 64 /\
  0 <= free_vram_bytes (gpu ctx) < 2 ^ 64.
End AdviceOk.

(** The number of slots that the advisor recommends fits the memory of the GPU.
    For every context and environment, a valid recommendation has at least the
    minimal number of slots, and at most the maximal number unless the minimum
    is greater; when it has more than the minimum, the model, the
    overhead and the key-value cache of all slots together, computed without
    wrapping around, fit the share of the memory to be used; and when it has fewer
    than both the maximum and the greatest [int], one more slot would not fit. *)
Theorem slot_advice_fits read_file env ctx :
  context_ok ctx ->
  let r := CalculateOptimalSlotAllocation read_file env ctx in
  valid r = true ->
  min_slots env <= recommended_max_slots r <= Z.max (min_slots env) (max_slots env) /\
  (min_slots env < recommended_max_slots r ->
     total_needed_bytes r = model_size_bytes r + overhead_bytes r + per_slot_kv_bytes r * recommended_max_slots r /\
     total_needed_bytes r <= target_vram env (gpu ctx) <= total_vram_bytes (gpu ctx)) /\
  (recommended_max_slots r < max_slots env -> recommended_max_slots r < int_max ->
     target_vram env (gpu ctx) < model_size_bytes r + overhead_bytes r + per_slot_kv_bytes r * (recommended_max_slots r + 1)).
Proof.
  intros (Hf & Hv & _) r Hr. pose proof (advice_made _ _ _ Hr) as [[q Ho] Hroom Hp Hs Hk Hn _ _ Hpr _]. fold r in Ho, Hroom, Hp, Hs, Hk, Hn, Hpr.
  pose proof (advice_size_range read_file env _ Hf) as Hsz. fold r in Hsz.
  pose proof (overhead_exact env (model_size_bytes r) q Hsz) as [_ Hov]. rewrite <- Ho in Hov.
  pose proof (target_pct_range env). pose proof (min_slots_pos env).
  assert (Ht : 0 <= target_vram env (gpu ctx) <= total_vram_bytes (gpu ctx)) by (apply scale_percent_le; lia).
  set (room := target_vram env (gpu ctx) - model_size_bytes r - overhead_bytes r) in *. set (per := per_slot_kv_bytes r) in *.
  assert (Hd : per * (room / per) <= room < per * (room / per + 1)) by (pose proof (Z.mul_div_le room per); pose proof (Z.mul_succ_div_gt room per); lia).
  unfold ClampToInt in Hs. split_and!; [lia|lia| |].
  - intros Hlt. assert (Hle : recommended_max_slots r <= room / per) by (destruct (Z.ltb_spec int_max (room / per)); lia).
    assert (Hmul : per * recommended_max_slots r <= room) by nia.
    rewrite Hn, Hk, (u64_small (per * _)) by (unfold room in *; nia). rewrite (u64_small (model_size_bytes r + _)) by lia.
    rewrite u64_small by (unfold room in *; nia). unfold room in *. lia.
  - intros H1 H2. assert (Hge : room / per <= recommended_max_slots r) by (destruct (Z.ltb_spec int_max (room / per)); lia).
    assert (room < per * (recommended_max_slots r + 1)) by nia. unfold room in *. lia.
Qed.

(** ** Following the advice *)

(** The configuration after a recommendation was followed.  Advice on the models
    themselves leaves it as it is. *)
Definition follow_one (c : AdvisorConfig) (r : Recommendation) : AdvisorConfig :=
  let '(mkConfig cuda flash overlap batch pages tp seqs ctx_size) := c in
  match r with
  | Attention => mkConfig cuda true overlap batch pages tp seqs ctx_size
  | BatchSize suggested _ => mkConfig cuda flash overlap suggested pages tp seqs ctx_size
  | PhaseOverlap => mkConfig cuda flash true batch pages tp seqs ctx_size
  | KvCache suggested => mkConfig cuda flash overlap batch suggested tp seqs ctx_size
  | TensorParallel degree _ => mkConfig cuda flash overlap batch pages degree seqs ctx_size
  | SlotAllocation _ rec => mkConfig cuda flash overlap batch pages tp (recommended_max_slots rec) (recommended_n_ctx rec)
  | Backend _ | Format _ | GpuUnused | Quantization _ => c
  end.

Definition about_config (r : Recommendation) : bool :=
  match r with Backend _ | Format _ | GpuUnused | Quantization _ => false | _ => true end.

Lemma follow_models l c : Forall (fun r => about_config r = false) l -> foldl follow_one c l = c.
Proof. induction 1 as [|r l Hr _ IH]; [done|]. cbn [foldl]. by destruct c, r. Qed.

Lemma self_ratio x : dltb (ddiv x x) half = false /\ dltb (d_of_Z 2) (ddiv x x) = false.
Proof.
  destruct x as [s|s| |s m e]; [by destruct s|by destruct s|done|]. unfold ddiv, SFdiv.
  assert (Hc : SFdiv_core_binary 53 1024 (Z.pos m) e (Z.pos m) e = (2 ^ 53, -53, loc_Exact)).
  { unfold SFdiv_core_binary. rewrite !Z.sub_diag. change (Z.min (fexp 53 1024 0) 0) with (-53).
    change (0 - -53) with 53. cbv beta iota zeta. rewrite Z.shiftl_mul_pow2 by lia.
    destruct (Z.div_eucl (Z.pos m * 2 ^ 53) (Z.pos m)) as [q r] eqn:E.
    pose proof (Z_div_mod (Z.pos m * 2 ^ 53) (Z.pos m) ltac:(lia)) as H. rewrite E in H. destruct H as [H1 H2].
    assert (q = 2 ^ 53 /\ r = 0) as [-> ->]; [|unfold new_location; by destruct (Z.even (Z.pos m))].
    enough (q = 2 ^ 53) by (subst; lia). nia. }
  rewrite Hc. by destruct s.
Qed.

Section Settles.
Context (read_file : bytes -> option bytes) (env : string -> option bytes).
Local Abbreviation Slots := (CheckDynamicSlotAllocation read_file env).
Local Abbreviation Run := (RunStartupAdvisor read_file env).

Definition follow (ctx : StartupAdvisorContext) : StartupAdvisorContext :=
  mkContext (models ctx) (gpu ctx) (foldl follow_one (config ctx) (Run ctx)).

(** The branches in which a rule has nothing to say. *)
Local Ltac silent_branch := match goal with |- context [if ?b then [] else _] => destruct b; [by left|] end.

(** The rules on the configuration recommend at most one thing. *)
Lemma attention_cases ctx : CheckAttentionKernel ctx = [] \/ CheckAttentionKernel ctx = [Attention].
Proof. unfold CheckAttentionKernel. repeat silent_branch. by right. Qed.
Lemma overlap_cases ctx : CheckPhaseOverlap ctx = [] \/ CheckPhaseOverlap ctx = [PhaseOverlap].
Proof. unfold CheckPhaseOverlap. repeat silent_branch. by right. Qed.
Lemma suggested_batch_range ctx : 1 <= suggested_batch ctx <= int_max.
Proof.
  unfold suggested_batch, ClampToInt, int_max. set (v := _ `div` slot_cost _).
  destruct (Z.ltb_spec (2 ^ 31 - 1) v) as [?|?]; [done|]. destruct (Z.ltb_spec v 1); lia.
Qed.
Lemma batch_cases ctx : CheckBatchSizeVsVram ctx = [] \/ CheckBatchSizeVsVram ctx = [BatchSize (suggested_batch ctx) (max_batch_size (config ctx))].
Proof. unfold CheckBatchSizeVsVram. repeat silent_branch. destruct (u64 _ <? u64 _); [by right|by left]. Qed.
Lemma kv_cases ctx : CheckKvCachePages ctx = [] \/ exists s, CheckKvCachePages ctx = [KvCache s].
Proof. unfold CheckKvCachePages. cbv zeta. repeat silent_branch. right; eauto. Qed.
Lemma tensor_cases ctx : CheckTensorParallelism ctx = [] \/ exists i, 1 < device_count (gpu ctx) /\ CheckTensorParallelism ctx = [TensorParallel (device_count (gpu ctx)) i].
Proof.
  unfold CheckTensorParallelism. destruct (negb _); [by left|]. destruct (Z.leb_spec (device_count (gpu ctx)) 1); [by left|].
  destruct (_ <? _); [by left|]. destruct (list_find _ _) as [[? ?]|]; [right; eauto|by left].
Qed.
Lemma slots_cases ctx : Slots ctx = [] \/
  exists i, let r := CalculateOptimalSlotAllocation read_file env ctx in valid r = true /\ Slots ctx = [SlotAllocation i r].
Proof.
  unfold CheckDynamicSlotAllocation. destruct (_ || _); [by left|]. destruct (models ctx) as [|m ms]; [by left|].
  destruct (valid _) eqn:E; cbn [negb]; [|by left]. destruct (significant _ _); [right; eauto|by left].
Qed.

Lemma each_model_advice {A} (f : A -> list Recommendation) (l : list A) :
  (forall x, Forall (fun r => about_config r = false) (f x)) -> Forall (fun r => about_config r = false) (l ≫= f).
Proof. intros Hf. apply Forall_forall. intros r (x & Hr & _)%list_elem_of_bind. by eapply (proj1 (Forall_forall _ _) (Hf x)). Qed.

Lemma model_advice ctx rule : rule ∈ [CheckBackendMismatch; CheckUnknownFormat; CheckGpuUnused; CheckQuantizationMismatch] ->
  Forall (fun r => about_config r = false) (rule ctx).
Proof.
  intros [-> |[-> |[-> |[-> |[]%not_elem_of_nil]%elem_of_cons]%elem_of_cons]%elem_of_cons]%elem_of_cons.
  1,2,4: apply each_model_advice; intros m; case_match; by repeat constructor.
  unfold CheckGpuUnused. repeat (case_match; try by repeat constructor).
Qed.

(** The recommendations that change the configuration, and what it is afterwards. *)
Lemma follow_config ctx : advisor_disabled env = false -> models ctx <> [] ->
  config (follow ctx) =
    {| cuda_enabled := cuda_enabled (config ctx);
       flash_attention_enabled := match CheckAttentionKernel ctx with [] => flash_attention_enabled (config ctx) | _ => true end;
       phase_overlap_enabled := match CheckPhaseOverlap ctx with [] => phase_overlap_enabled (config ctx) | _ => true end;
       max_batch_size := match CheckBatchSizeVsVram ctx with BatchSize s _ :: _ => s | _ => max_batch_size (config ctx) end;
       kv_cpu_pages := match CheckKvCachePages ctx with KvCache s :: _ => s | _ => kv_cpu_pages (config ctx) end;
       tp_degree := match CheckTensorParallelism ctx with TensorParallel d _ :: _ => d | _ => tp_degree (config ctx) end;
       max_parallel_sequences := match Slots ctx with SlotAllocation _ r :: _ => recommended_max_slots r | _ => max_parallel_sequences (config ctx) end;
       n_ctx := match Slots ctx with SlotAllocation _ r :: _ => recommended_n_ctx r | _ => n_ctx (config ctx) end |}.
Proof.
  intros Hd Hm. unfold follow, RunStartupAdvisor. rewrite Hd, bool_decide_eq_false_2 by done. cbn [config].
  unfold rules, mbind, list_bind. rewrite app_nil_r, !foldl_app.
  rewrite (follow_models (CheckBackendMismatch ctx)), (follow_models (CheckUnknownFormat ctx)), (follow_models (CheckGpuUnused ctx)),
    (follow_models (CheckQuantizationMismatch ctx)) by (apply model_advice; set_solver).
  destruct (config ctx). destruct (attention_cases ctx) as [-> | ->], (batch_cases ctx) as [-> | ->], (overlap_cases ctx) as [-> | ->],
    (kv_cases ctx) as [-> |(? & ->)], (tensor_cases ctx) as [-> |(? & _ & ->)], (slots_cases ctx) as [-> |(? & _ & ->)]; done.
Qed.

(** Advice that was followed is not given again. *)
Lemma attention_followed ctx : advisor_disabled env = false -> models ctx <> [] -> CheckAttentionKernel (follow ctx) = [].
Proof.
  intros Hd Hm. unfold CheckAttentionKernel. rewrite follow_config by done. cbn. unfold CheckAttentionKernel.
  repeat (case_match; try done).
Qed.

Lemma batch_followed ctx : advisor_disabled env = false -> models ctx <> [] -> CheckBatchSizeVsVram (follow ctx) = [].
Proof.
  intros Hd Hm. destruct (batch_cases ctx) as [E|E]; unfold CheckBatchSizeVsVram; rewrite follow_config by done; cbn [max_batch_size]; rewrite E.
  - exact E.
  - repeat (destruct (_ : bool); [done|]). change (suggested_batch (follow ctx)) with (suggested_batch ctx).
    pose proof (suggested_batch_range ctx) as Hs. unfold int_max in Hs. rewrite !u64_small by lia.
    destruct (Z.ltb_spec (Z.max (suggested_batch ctx) 1 * 3) (suggested_batch ctx * 2)); [lia|]. by repeat case_match.
Qed.

Lemma kv_followed ctx : advisor_disabled env = false -> models ctx <> [] -> CheckKvCachePages (follow ctx) = [].
Proof.
  intros Hd Hm. destruct (kv_cases ctx) as [E|(s & E)]; unfold CheckKvCachePages; rewrite follow_config by done; cbn [kv_cpu_pages]; rewrite E.
  - exact E.
  - unfold CheckKvCachePages in E. cbn [follow models gpu] in *. repeat (case_match; try done). simplify_eq. lia.
Qed.

Lemma tensor_followed ctx : advisor_disabled env = false -> models ctx <> [] -> CheckTensorParallelism (follow ctx) = [].
Proof.
  intros Hd Hm. destruct (tensor_cases ctx) as [E|(i & Hi & E)]; unfold CheckTensorParallelism; rewrite follow_config by done; cbn [tp_degree]; rewrite E.
  - exact E.
  - cbn [follow gpu models]. destruct (negb _); [done|]. destruct (_ <=? 1); [done|]. by rewrite (proj2 (Z.ltb_lt _ _) Hi).
Qed.

(** The advice on slots reads nothing of the configuration but the size of a context. *)
Lemma advice_ext ctx ctx' :
  models ctx' = models ctx -> gpu ctx' = gpu ctx ->
  (if 0 <? n_ctx (config ctx') then n_ctx (config ctx') else 2048) = (if 0 <? n_ctx (config ctx) then n_ctx (config ctx) else 2048) ->
  CalculateOptimalSlotAllocation read_file env ctx' = CalculateOptimalSlotAllocation read_file env ctx.
Proof. intros Hm Hg H. unfold CalculateOptimalSlotAllocation. by rewrite Hm, Hg, H. Qed.

Lemma slots_followed ctx : advisor_disabled env = false -> models ctx <> [] -> Slots (follow ctx) = [].
Proof.
  intros Hd Hm. destruct (slots_cases ctx) as [E|(i & Hv & E)].
  - assert (Hc : n_ctx (config (follow ctx)) = n_ctx (config ctx) /\ max_parallel_sequences (config (follow ctx)) = max_parallel_sequences (config ctx))
      by (rewrite follow_config by done; cbn [n_ctx max_parallel_sequences]; by rewrite E).
    destruct Hc as [Hn Hp]. unfold CheckDynamicSlotAllocation. rewrite Hp, (advice_ext ctx (follow ctx)) by (try done; by rewrite Hn).
    exact E.
  - pose proof (ad_n_ctx _ _ _ (advice_made read_file env ctx Hv)) as Hn.
    pose proof (ad_slots _ _ _ (advice_made read_file env ctx Hv)) as Hs. pose proof (min_slots_pos env).
    set (r := CalculateOptimalSlotAllocation read_file env ctx) in *.
    assert (Hc : n_ctx (config (follow ctx)) = recommended_n_ctx r /\ max_parallel_sequences (config (follow ctx)) = recommended_max_slots r)
      by (rewrite follow_config by done; cbn [n_ctx max_parallel_sequences]; by rewrite E).
    destruct Hc as [Hn' Hp]. unfold CheckDynamicSlotAllocation. rewrite Hp, (advice_ext ctx (follow ctx)); [|done|done|].
    + fold r. unfold significant. rewrite Z.max_r by lia. destruct (self_ratio (d_of_Z (recommended_max_slots r))) as [-> ->].
      repeat case_match; done.
    + rewrite Hn', Hn. destruct (Z.ltb_spec 0 (n_ctx (config ctx))) as [Hp'|]; [|done].
      by rewrite (proj2 (Z.ltb_lt _ _) Hp').
Qed.

(** With nothing else to change, the advice on overlap is settled too. *)
Lemma overlap_followed ctx : advisor_disabled env = false -> models ctx <> [] -> CheckBatchSizeVsVram ctx = [] -> CheckPhaseOverlap (follow ctx) = [].
Proof.
  intros Hd Hm Hb. destruct (overlap_cases ctx) as [E|E]; unfold CheckPhaseOverlap; rewrite follow_config by done;
    cbn [cuda_enabled phase_overlap_enabled max_batch_size]; rewrite E, ?Hb.
  - exact E.
  - by destruct (negb _).
Qed.
End Settles.

(** Following the advice ends.  From any configuration, when what the advisor
    recommends for it is done, and what it then recommends is done too, a third start
    recommends no change of the configuration: what is left is about the models
    themselves (their format, backend or quantization) or an unused GPU.  The second
    round is needed for the overlap of phases, which is recommended for the batch
    size that the first round recommends. *)
Theorem advice_settles read_file env ctx :
  Forall (fun r => about_config r = false) (RunStartupAdvisor read_file env (follow read_file env (follow read_file env ctx))).
Proof.
  set (ctx1 := follow read_file env ctx). unfold RunStartupAdvisor.
  destruct (advisor_disabled env) eqn:Hd; [constructor|]. case_bool_decide as Hm; [constructor|].
  assert (Hm0 : models ctx <> []) by done. assert (Hm1 : models ctx1 <> []) by done.
  unfold rules, mbind, list_bind. rewrite app_nil_r.
  rewrite attention_followed, batch_followed, kv_followed, tensor_followed, slots_followed by done.
  rewrite overlap_followed by first [done|by apply batch_followed]. cbn [app].
  repeat apply Forall_app_2; try (apply model_advice; set_solver).
Qed.

(** ** What the advice does not say *)

(** A recommendation of a larger batch takes no more than the free memory. *)
Lemma batch_advice_fits ctx suggested current :
  context_ok ctx -> CheckBatchSizeVsVram ctx = [BatchSize suggested current] -> 1 < suggested ->
  suggested * slot_cost (models ctx) <= free_vram_bytes (gpu ctx).
Proof.
  intros (_ & _ & Hf) H Hs. destruct (batch_cases ctx) as [E|E]; rewrite E in H; [done|]. simplify_eq.
  unfold suggested_batch, ClampToInt in *. assert (Hc : 1 <= slot_cost (models ctx)) by (unfold slot_cost; lia).
  set (c := slot_cost _) in *. pose proof (Z.mul_div_le (free_vram_bytes (gpu ctx)) c). set (v := _ / c) in *.
  destruct (Z.ltb_spec int_max v); [unfold int_max in *; simpl in *; nia|]. destruct (Z.ltb_spec v 1); nia.
Qed.

(** The warnings of the allocation are never logged: they come with recommendations
    that are not valid, and the rule ends there. *)
Lemma allocation_warnings_unseen read_file env ctx shown r :
  SlotAllocation shown r ∈ CheckDynamicSlotAllocation read_file env ctx -> warnings r = [].
Proof.
  destruct (slots_cases read_file env ctx) as [-> |(i & Hv & ->)]; [set_solver|].
  intros [= -> ->]%list_elem_of_singleton. by apply (ad_warnings env ctx), advice_made.
Qed.

(** ** Witnesses and examples *)

Module Demo.
Definition no_files (p : bytes) : option bytes := None.
Definition no_env (n : string) : option bytes := None.
Definition q4_model (name : string) (gib_tenths : Z) : AdvisorModelInfo :=
  mkModel (bytes_of name) (bytes_of "m.gguf") (bytes_of "gguf") (bytes_of "cuda") (bytes_of "llama_cpp") (gib_tenths * kGiB / 10) kQ4_K 0 0.
Definition card (gib : Z) : AdvisorGpuInfo := mkGpu true 1 8 (gib * kGiB) (gib * kGiB).
Definition ctx (gib : Z) (ms : list AdvisorModelInfo) : StartupAdvisorContext := mkContext ms (card gib) default_config.
Definition min_slots_env (v : string) (n : string) : option bytes := if bool_decide (n = "INFERFLUX_MIN_SLOTS"%string) then Some (bytes_of v) else None.
End Demo.

Lemma portable_arithmetic_agrees_witness :
  ScaleByPercent_portable (2 ^ 63 + 7) 70 = ScaleByPercent (2 ^ 63 + 7) 70 /\
  ScaleByRatio_portable (2 ^ 63 + 7) 70 9 = ScaleByRatio (2 ^ 63 + 7) 70 9 /\
  basis_points_portable 7 (24 * kGiB) = basis_points 7 (24 * kGiB).
Proof. apply portable_arithmetic_agrees; unfold kGiB, kMiB; lia. Defined.

(** A model of 4 GiB on a GPU of 24 GiB: 99 slots. *)
Lemma slot_advice_fits_witness :
  let r := CalculateOptimalSlotAllocation Demo.no_files Demo.no_env (Demo.ctx 24 [Demo.q4_model "m" 40]) in
  recommended_max_slots r = 99 /\ total_needed_bytes r <= target_vram Demo.no_env (Demo.card 24) <= 24 * kGiB.
Proof.
  set (ctx := Demo.ctx 24 [Demo.q4_model "m" 40]).
  assert (Hc : context_ok ctx) by (split_and!; [repeat constructor| | | |]; by vm_compute).
  split; [by vm_compute|].
  destruct (slot_advice_fits Demo.no_files Demo.no_env ctx Hc eq_refl) as (_ & H & _). apply H. by vm_compute.
Defined.

(** On a GPU of 8 GiB with a model of 4.2 GiB there is no room for a slot; ten are
    recommended all the same, which need more memory than the GPU has. *)
Example minimal_slots_overcommit :
  let r := CalculateOptimalSlotAllocation Demo.no_files Demo.no_env (Demo.ctx 8 [Demo.q4_model "m" 42]) in
  valid r = true /\ recommended_max_slots r = 10 /\ warnings r = [] /\ 8 * kGiB < total_needed_bytes r.
Proof. by vm_compute. Qed.

(** A model that is larger than the GPU: nothing is reported. *)
Example oversized_model_not_reported :
  CheckDynamicSlotAllocation Demo.no_files Demo.no_env (Demo.ctx 8 [Demo.q4_model "m" 200]) = [].
Proof. by vm_compute. Qed.

(** The minimum from the environment has no upper limit, and wins over the maximum. *)
Example minimal_slots_unlimited :
  recommended_max_slots (CalculateOptimalSlotAllocation Demo.no_files (Demo.min_slots_env "100000") (Demo.ctx 24 [Demo.q4_model "m" 40])) = 100000.
Proof. by vm_compute. Qed.

(** The size of an element covers K and V, and the formula doubles it again. *)
Example kv_counted_twice : CalculatePerSlotKvSize 2048 128 36 8 = 2 * (2048 * 128 * 36 * (4 + 4)).
Proof. by vm_compute. Qed.

(** The message names the first model, the sizes in it are those of the largest. *)
Example message_names_first_model :
  exists r, CheckDynamicSlotAllocation Demo.no_files Demo.no_env (Demo.ctx 12 [Demo.q4_model "small" 5; Demo.q4_model "large" 50]) = [SlotAllocation (bytes_of "small") r] /\
    model_size_bytes r = model_size_of Demo.no_files (Demo.q4_model "large" 50).
Proof. eexists. split; [vm_compute; reflexivity|by vm_compute]. Qed.
