(* ===== verification/GeneratedText.v ===== *)
(** * Text on its way out of the executor

    The pieces that a backend samples become text: [AppendGeneratedPiece] and
    [FinishGeneratedText] of runtime/execution/batch_executor.cpp and of
    scheduler/scheduler.cpp, over the UTF-8 assembler, and the stop strings of
    runtime/backends/backend_utils.h.  The calls of [on_token] are recorded. *)

From stdpp Require Import base tactics numbers list strings sets.
From Stdlib Require Import Ascii.
From S2P Require Import Prelude StringUtils.
From S2P Require Utf8 HttpFrames.

Abbreviation TokenLogprob := HttpFrames.TokenLogprob.

(** The text of a request: incomplete bytes held by the assembler, the completion of
    this slice, what [on_token] was called with, and whether the time of the first
    token is known. *)
Record Text := mkText {
  pending : bytes; completion : bytes; emitted : list (bytes * option TokenLogprob); stamped : bool }.

Definition ends_with (s output : bytes) : bool :=
  bool_decide (length s <= length output) && bool_decide (drop (length output - length s) output = s).

(** Whether a stop string was matched, the output and the part of the piece to emit. *)
Fixpoint ApplyStop (piece output : bytes) (stops : list bytes) : bool * bytes * bytes :=
  match stops with
  | [] => (false, output, piece)
  | s :: stops' =>
      if bool_decide (s <> []) && ends_with s output then
        let pre_piece_len := length output - length piece in
        let stop_start := length output - length s in
        (true, take stop_start output, if pre_piece_len <? stop_start then take (stop_start - pre_piece_len) piece else [])
      else ApplyStop piece output stops'
  end.

Section Text.
(** The stop strings of the request, and whether it has a callback. *)
Context (stops : list bytes) (streaming : bool).

Definition emit (piece : bytes) (lp : option TokenLogprob) (l : list (bytes * option TokenLogprob)) :=
  if streaming && bool_decide (piece <> []) then l ++ [(piece, lp)] else l.

(** Whether generation stops here. *)
Definition AppendGeneratedPiece (raw_piece : bytes) (lp : option TokenLogprob) (t : Text) : bool * Text :=
  let '(pending', assembled) := Utf8.Append (pending t) raw_piece in
  let piece := Utf8.text assembled in
  if bool_decide (piece = []) then (false, mkText pending' (completion t) (emitted t) (stamped t))
  else
    let '(stop_hit, output, emit_piece) := ApplyStop piece (completion t ++ piece) stops in
    (stop_hit, mkText pending' output (emit emit_piece lp (emitted t)) true).

Definition FinishGeneratedText (t : Text) : Text :=
  let '(pending', assembled) := Utf8.Finish (pending t) in
  let piece := Utf8.text assembled in
  if bool_decide (piece = []) then mkText pending' (completion t) (emitted t) (stamped t)
  else mkText pending' (completion t ++ piece) (emit piece None (emitted t)) true.

(** Pieces until a stop string is matched. *)
Fixpoint append_pieces (pieces : list (bytes * option TokenLogprob)) (t : Text) : bool * Text :=
  match pieces with
  | [] => (false, t)
  | (piece, lp) :: pieces' =>
      let '(stop_hit, t) := AppendGeneratedPiece piece lp t in
      if stop_hit then (true, t) else append_pieces pieces' t
  end.

(** What the client of a stream has received. *)
Definition streamed (t : Text) : bytes := concat (fst <$> emitted t).

(** ** Stop strings *)

Lemma ends_with_spec s output : ends_with s output = true <-> exists pre, output = pre ++ s.
Proof.
  unfold ends_with. rewrite andb_true_iff, !bool_decide_eq_true. split.
  - intros [Hl Hd]. exists (take (length output - length s) output). rewrite <- Hd at 2. by rewrite take_drop.
  - intros [pre ->]. rewrite length_app. split; [lia|]. replace (length pre + length s - length s) with (length pre) by lia. apply drop_app_length.
Qed.

(** A match cuts the stop string off the output, and lets through what of the piece is
    left. *)
Lemma ApplyStop_hit piece before stops' output' rest :
  ApplyStop piece (before ++ piece) stops' = (true, output', rest) ->
  exists s, s ∈ stops' /\ s <> [] /\ before ++ piece = output' ++ s /\
    before ++ rest = if bool_decide (length before <= length output') then output' else before.
Proof.
  induction stops' as [|s stops' IH]; [done|]. cbn [ApplyStop]. destruct (bool_decide (s <> []) && ends_with s (before ++ piece)) eqn:E.
  - apply andb_true_iff in E as [Hs%bool_decide_eq_true [pre Hp]%ends_with_spec]. intros [= <- <-].
    assert (Hlen : length before + length piece = length pre + length s) by (rewrite <- !length_app; by rewrite Hp).
    rewrite (length_app before piece).
    replace (length before + length piece - length s) with (length pre) by lia.
    replace (length before + length piece - length piece) with (length before) by lia.
    assert (Ht : take (length pre) (before ++ piece) = pre) by (rewrite Hp; apply take_app_length). rewrite Ht.
    exists s. split_and!; [set_solver|done|done|].
    destruct (Nat.ltb_spec (length before) (length pre)).
    + rewrite bool_decide_eq_true_2 by lia. rewrite <- Ht at 2. rewrite take_app. by rewrite (take_ge before) by lia.
    + clear IH. rewrite app_nil_r. rewrite take_app_le in Ht by lia. case_bool_decide; [|reflexivity]. by rewrite take_ge in Ht by lia.
  - intros H. destruct (IH H) as (s' & ? & ? & ? & ?). exists s'. split_and!; [set_solver|done..].
Qed.

Lemma ApplyStop_miss piece output stops' output' rest :
  ApplyStop piece output stops' = (false, output', rest) -> output' = output /\ rest = piece.
Proof. induction stops' as [|s stops' IH]; cbn [ApplyStop]; [by intros [= <- <-]|]. destruct (_ && _); [done|apply IH]. Qed.

(** What the assembler makes of the pieces, without closing the stream. *)
Fixpoint decoded (p : bytes) (pieces : list bytes) : bytes :=
  match pieces with
  | [] => []
  | piece :: pieces' => let '(p', a) := Utf8.Append p piece in Utf8.text a ++ decoded p' pieces'
  end.

Lemma streamed_emit piece lp l : streaming = true -> concat (fst <$> emit piece lp l) = concat (fst <$> l) ++ piece.
Proof.
  intros Hs. unfold emit. rewrite Hs. case_bool_decide as H; cbn [andb].
  - by rewrite fmap_app, concat_app; simpl; rewrite app_nil_r.
  - by rewrite H, app_nil_r.
Qed.

(** One piece: without a match, completion and stream grow by its text; with one, they
    are cut. *)
Lemma append_piece_cases raw lp t hit t' a p' :
  Utf8.Append (pending t) raw = (p', a) -> AppendGeneratedPiece raw lp t = (hit, t') ->
  pending t' = p' /\
  (hit = false -> completion t' = completion t ++ Utf8.text a /\ (streaming = true -> streamed t' = streamed t ++ Utf8.text a)) /\
  (hit = true -> exists s, s ∈ stops /\ s <> [] /\ completion t ++ Utf8.text a = completion t' ++ s /\
     (streaming = true -> streamed t = completion t ->
        streamed t' = if bool_decide (length (completion t) <= length (completion t')) then completion t' else completion t)).
Proof.
  intros Ha. unfold AppendGeneratedPiece. rewrite Ha. case_bool_decide as He.
  - intros [= <- <-]. cbn. split_and!; [done| |done]. intros _. rewrite He, !app_nil_r. by split.
  - destruct (ApplyStop _ _ _) as [[h out] rest] eqn:E. intros [= <- <-]. cbn [pending completion]. split_and!; [done| |].
    + intros ->. apply ApplyStop_miss in E as [-> ->]. split; [done|]. intros Hs. unfold streamed. cbn [emitted]. by rewrite streamed_emit.
    + intros ->. apply ApplyStop_hit in E as (s & Hin & Hne & Hcut & Hrest). exists s. split_and!; [done|done|done|].
      intros Hs Heq. unfold streamed at 1. cbn [emitted]. rewrite streamed_emit by done. fold (streamed t). by rewrite Heq.
Qed.

(** What a slice leaves behind: the pieces [used], of which all but a stop string at the
    end is the completion. *)
Definition slice_text (p : bytes) (used : list bytes) (before : bytes) (hit : bool) (t : Text) : Prop :=
  let whole := before ++ decoded p used in
  if hit
  then exists s, s ∈ stops /\ s <> [] /\ whole = completion t ++ s /\
         (streaming = true -> completion t `prefix_of` streamed t /\ streamed t `prefix_of` whole)
  else completion t = whole /\ (streaming = true -> streamed t = whole).

Lemma append_pieces_text pieces t :
  (streaming = true -> streamed t = completion t) ->
  let '(hit, t') := append_pieces pieces t in
  exists used rest, pieces = used ++ rest /\ (hit = false -> rest = []) /\ slice_text (pending t) (fst <$> used) (completion t) hit t'.
Proof.
  revert t. induction pieces as [|[raw lp] pieces IH]; intros t Hst; cbn [append_pieces].
  - exists [], []. split_and!; [done|done|]. unfold slice_text. cbn. rewrite app_nil_r. by split.
  - destruct (Utf8.Append (pending t) raw) as [p' a] eqn:Ea. destruct (AppendGeneratedPiece raw lp t) as [hit t1] eqn:E.
    destruct (append_piece_cases _ _ _ _ _ _ _ Ea E) as (Hp & Hmiss & Hhit). destruct hit.
    + exists [(raw, lp)], pieces. split_and!; [done|done|]. destruct (Hhit eq_refl) as (s & Hin & Hne & Hcut & Hs).
      exists s. cbn. rewrite Ea. cbn. rewrite app_nil_r. split_and!; [done|done|done|]. intros Hstr. rewrite (Hs Hstr (Hst Hstr)), Hcut.
      case_bool_decide as Hle; [by split; [|exists s]|]. assert (Hpre : completion t1 `prefix_of` completion t).
      { assert (H : completion t ++ Utf8.text a = completion t1 ++ s) by done. apply (f_equal (take (length (completion t1)))) in H.
        rewrite take_app_length, take_app_le in H by lia. rewrite <- H. apply prefix_take. }
      split; [done|]. rewrite <- Hcut. by exists (Utf8.text a).
    + destruct (Hmiss eq_refl) as [Hc Hs]. specialize (IH t1). rewrite Hc in IH.
      destruct (append_pieces pieces t1) as [hit t2]. destruct IH as (used & rest & -> & Hr & Ht).
      { intros Hstr. by rewrite (Hs Hstr), (Hst Hstr). }
      exists ((raw, lp) :: used), rest. split_and!; [done|done|]. unfold slice_text in *. cbn. rewrite Ea, <- Hp, app_assoc. done.
Qed.
End Text.


(** The stream may run ahead: the beginning of a stop string that arrives in two pieces
    has been sent before it is recognized. *)
Example stop_string_partly_streamed :
  let '(hit, t) := append_pieces [bytes_of "END"] true [(bytes_of "ok E", None); (bytes_of "ND", None)] (mkText [] [] [] false) in
  hit = true /\ completion t = bytes_of "ok " /\ streamed t = bytes_of "ok E".
Proof. by vm_compute. Qed.

(** A stop string inside a piece is not seen: only the end of the text is compared. *)
Example stop_string_inside_piece_missed :
  let '(hit, t) := append_pieces [bytes_of "END"] true [(bytes_of "ok END more", None)] (mkText [] [] [] false) in
  hit = false /\ completion t = bytes_of "ok END more".
Proof. by vm_compute. Qed.

(** Bytes that the assembler holds when a stop string matches come out behind it. *)
Example text_after_stop :
  let '(hit, t) := append_pieces [bytes_of "END"] true [(bytes_of "ok END" ++ [ascii_of_nat 226], None)] (mkText [] [] [] false) in
  hit = true /\ completion (FinishGeneratedText true t) = bytes_of "ok " ++ Utf8.kReplacementCharacter /\
  streamed (FinishGeneratedText true t) = bytes_of "ok " ++ Utf8.kReplacementCharacter.
Proof. by vm_compute. Qed.
