(* ===== verification/Executor.v ===== *)
(** * runtime/execution/batch_executor.cpp: phased execution of a batch

    [ExecuteUnifiedBatchPhased]: the requests of a batch advance together, each call of
    the backend mixing chunks of prompts and single tokens, until every request has
    stopped, used up its slice or was cancelled; and the accounting around it.

    A request is a [Request], the parts that do not change while it executes, and a
    [Run], what its [ReqState] and the fields of [InferenceRequest] become.  The backend
    and the cancellation flags answer by the number of the step at which they are asked,
    so that they may answer anything.  [fed] and [sampled] record what the backend was given
    and what it answered; the code does not keep them.  Positions and counts stay far
    below the width of [int]. *)

From stdpp Require Import base tactics numbers list strings sets.
From Stdlib Require Import Ascii.
From S2P Require Import Prelude StringUtils Float64 GeneratedText.
From S2P Require HttpFrames BatchBuilder.

Local Open Scope Z_scope.

(** ** Tuning *)

Record UnifiedBatchTuning := mkTuning { decode_burst_tokens : Z; chunked_prefill_tokens : Z; mixed_prefill_budget_ratio : double }.

Definition NormalizeUnifiedBatchTuning (raw : UnifiedBatchTuning) : UnifiedBatchTuning :=
  let ratio := if BatchBuilder.is_finite (mixed_prefill_budget_ratio raw) then mixed_prefill_budget_ratio raw else d_of_Z 1 in
  mkTuning (Z.max 0 (decode_burst_tokens raw)) (Z.max 1 (chunked_prefill_tokens raw)) (dmin (dmax ratio (d_of_Z 0)) (d_of_Z 1)).

(** The ratio is not negative, so that rounding down is truncation. *)
Definition ComputePrefillChunkCap (backend_step_token_cap active_decode_reqs active_prefill_reqs : Z) (tuning : UnifiedBatchTuning) : Z :=
  let bounded_chunk_limit := Z.max 1 (Z.min (chunked_prefill_tokens tuning) backend_step_token_cap) in
  let scaled_prefill_budget := Z.max 1 (d_trunc (dmul (d_of_Z backend_step_token_cap) (mixed_prefill_budget_ratio tuning))) in
  let prefill_token_budget := Z.max 1 (Z.min bounded_chunk_limit scaled_prefill_budget - active_decode_reqs) in
  if active_prefill_reqs <=? 0 then bounded_chunk_limit
  else Z.max 1 (Z.min bounded_chunk_limit (prefill_token_budget / active_prefill_reqs)).

Definition MaxNonEmittingSteps (max_tokens : Z) : Z := Z.max (i32 (max_tokens * 8)) 32.

(** ** Requests *)

(** The sampling parameters and the identifiers that are copied along are left out. *)
Record UnifiedBatchInput := mkInput {
  in_sequence : Z; in_n_past : Z; in_tokens : list Z; in_logits : bool; in_top_n : Z }.

Record UnifiedBatchOutput := mkOutput { out_token : Z; out_piece : bytes; out_ok : bool; out_logprob : option TokenLogprob }.

Record FairnessState := mkFairness {
  priority_level : Z; service_tokens : Z; timeslice_tokens : Z; remaining_decode_tokens : Z; reported_prompt_tokens : Z;
  total_completion_tokens : Z; last_timeslice_tokens : Z; yielded : bool }.

(** What does not change while the request executes. *)
Record Request := mkRequest {
  model : bytes; resolved_model : bytes; sequence_id : Z; bpe_prompt_tokens : list Z; prompt_tokens : list Z; max_tokens : Z;
  stop : list bytes; streaming : bool; collect_logprobs : bool; logprob_top_n : Z; cache_reuse_pending_tokens : Z }.

(** What a request carries from one execution to the next. *)
Record RequestState := mkState {
  n_past : Z; prefill_offset : Z; first_token : Z; first_piece : bytes; first_logprob : option TokenLogprob; logprobs : list TokenLogprob;
  text : Text; accumulated_output : bytes; phase : BatchBuilder.RequestPhase; fairness : FairnessState; cache_reused_tokens : Z;
  cache_prefill_complete : bool }.

Definition size (q : Request) : Z := Z.of_nat (length (bpe_prompt_tokens q)).

(** ** Slices *)

Record FairnessSlicePlan := mkPlan { decode_limit : Z; max_non_emitting_steps : Z; slice_active : bool }.

(** The plan, the prompt tokens that are reported, and the fairness state. *)
Definition PlanFairnessSlice (q : Request) (burst : Z) (f : FairnessState) : FairnessSlicePlan * Z * FairnessState :=
  let prompt := if 0 <=? reported_prompt_tokens f then reported_prompt_tokens f else Z.of_nat (length (prompt_tokens q)) in
  let slice := timeslice_tokens f in
  let limit := max_tokens q in
  let limit := if 0 <=? remaining_decode_tokens f then Z.min limit (remaining_decode_tokens f) else limit in
  let limit := if 0 <? slice then Z.min limit slice else limit in
  let limit := if 0 <? burst then Z.min limit burst else limit in
  let limit := if limit <=? 0 then 1 else limit in
  (mkPlan limit (MaxNonEmittingSteps (max_tokens q)) ((0 <? slice) || (0 <? burst)), prompt,
   mkFairness (priority_level f) (service_tokens f) 0 (remaining_decode_tokens f) (reported_prompt_tokens f) (total_completion_tokens f) slice false).

Definition IsNonAccumulatingCompletion (s : bytes) : bool :=
  named s "[batch state error]" || named s "[backend returned empty response]".

(** [gen] tokens were generated; [current] is the last one. *)
Definition FinalizeFairnessSlice (q : Request) (plan : FairnessSlicePlan) (gen current : Z) (s : RequestState) : RequestState :=
  let f := fairness s in
  let remaining := remaining_decode_tokens f in
  let remaining_after_slice := if 0 <=? remaining then Z.max 0 (remaining - gen) else -1 in
  let yields := slice_active plan && (decode_limit plan <=? gen) && (0 <? remaining_after_slice) in
  let t := if yields then text s else FinishGeneratedText (streaming q) (text s) in
  let out := completion t in
  mkState (n_past s) (prefill_offset s) (if yields then current else -1) [] (first_logprob s) (logprobs s) t
    (if bool_decide (out <> []) && negb (IsNonAccumulatingCompletion out) then accumulated_output s ++ out else accumulated_output s)
    (if yields then BatchBuilder.PhPending else BatchBuilder.PhFinished)
    (mkFairness (priority_level f) (service_tokens f + gen) (timeslice_tokens f)
       (if 0 <=? remaining then remaining_after_slice else remaining) (reported_prompt_tokens f) (total_completion_tokens f + gen)
       (last_timeslice_tokens f) yields)
    (cache_reused_tokens s) (cache_prefill_complete s).

Definition HasValidUnifiedPhasedState (q : Request) (s : RequestState) : bool :=
  if (n_past s <? 0) || (sequence_id q <? 0) then false
  else if 0 <=? first_token s then true
  else if (n_past s =? 0) && bool_decide (bpe_prompt_tokens q <> []) then true
  else (0 <? n_past s) && bool_decide (bpe_prompt_tokens q <> []) && (0 <? prefill_offset s) && (prefill_offset s <? size q).

(** ** One request *)

(** [prefilled]: the last chunk of the prompt was evaluated. *)
Record Run := mkRun {
  active : bool; tokens_generated : Z; non_emitting_steps : Z; current_token : Z; in_prefill : bool;
  pos : Z; offset : Z; lps : list TokenLogprob; prefilled : bool; out : Text;
  fed : list UnifiedBatchInput; sampled : list (Z * bytes * option TokenLogprob) }.

Definition stopped (r : Run) : Run :=
  mkRun false (tokens_generated r) (non_emitting_steps r) (current_token r) (in_prefill r) (pos r) (offset r) (lps r) (prefilled r) (out r) (fed r) (sampled r).
Definition no_prefill (r : Run) : Run :=
  mkRun (active r) (tokens_generated r) (non_emitting_steps r) (current_token r) false (pos r) (offset r) (lps r) (prefilled r) (out r) (fed r) (sampled r).
Definition feed (i : UnifiedBatchInput) (r : Run) : Run :=
  mkRun (active r) (tokens_generated r) (non_emitting_steps r) (current_token r) (in_prefill r) (pos r) (offset r) (lps r) (prefilled r) (out r) (fed r ++ [i]) (sampled r).
Definition move (n_past prefill_offset : Z) (ok : bool) (r : Run) : Run :=
  mkRun (active r) (tokens_generated r) (non_emitting_steps r) (current_token r) (in_prefill r) n_past prefill_offset (lps r) ok (out r) (fed r) (sampled r).

Section OneRequest.
Context (q : Request) (plan : FairnessSlicePlan).

Definition MakeUnifiedBatchInput (past : Z) (tokens : list Z) (request_logits : bool) : UnifiedBatchInput :=
  mkInput (sequence_id q) past tokens request_logits (if collect_logprobs q then logprob_top_n q else -1).

(** A token was sampled: it is the next to be fed, and its piece is emitted.
    [cancelled]: the flag as it is read after the emission; [limit_steps]: the number of
    tokens without text is checked. *)
Definition accept (token : Z) (piece : bytes) (lp : option TokenLogprob) (cancelled limit_steps : bool) (r : Run) : Run :=
  let lps' := match lp with Some l => if collect_logprobs q then lps r ++ [l] else lps r | None => lps r end in
  if bool_decide (piece <> []) then
    let '(stop_hit, t) := AppendGeneratedPiece (stop q) (streaming q) piece lp (out r) in
    mkRun (active r && negb (stop_hit || cancelled)) (tokens_generated r + 1) (non_emitting_steps r) token (in_prefill r) (pos r) (offset r) lps'
      (prefilled r) t (fed r) (sampled r ++ [(token, piece, lp)])
  else
    mkRun (active r && negb (limit_steps && (max_non_emitting_steps plan <=? non_emitting_steps r + 1))) (tokens_generated r) (non_emitting_steps r + 1)
      token (in_prefill r) (pos r) (offset r) lps' (prefilled r) (out r) (fed r) (sampled r ++ [(token, piece, lp)]).

(** Before the loop.  What [on_token] was called with is counted from here. *)
Definition seed (cancelled : bool) (s : RequestState) : Run :=
  let fresh := mkRun true 0 0 (-1) false (n_past s) (prefill_offset s) (logprobs s) false
                 (mkText (pending (text s)) [] [] (stamped (text s))) [] [] in
  if (0 <=? n_past s) && (0 <=? first_token s) then
    accept (first_token s) (first_piece s) (if collect_logprobs q then first_logprob s else None) cancelled false fresh
  else if (n_past s =? 0) && bool_decide (bpe_prompt_tokens q <> []) then
    mkRun true 0 0 (-1) true (n_past s) (prefill_offset s) (lps fresh) false (out fresh) [] []
  else if (0 <? n_past s) && bool_decide (bpe_prompt_tokens q <> []) && (0 <? prefill_offset s) && (prefill_offset s <? size q) then
    mkRun true 0 0 (-1) true (prefill_offset s) (prefill_offset s) (lps fresh) false (out fresh) [] []
  else mkRun false 0 0 (-1) false (n_past s) (prefill_offset s) (lps fresh) false
         (mkText (pending (text s)) (bytes_of "[batch state error]") [] (stamped (text s))) [] [].

(** The input of the next step. *)
Definition build (prefill_chunk_cap : Z) (cancelled : bool) (r : Run) : Run * option UnifiedBatchInput :=
  if negb (active r) then (r, None)
  else if cancelled then (stopped r, None)
  else if in_prefill r then
    let remaining := size q - offset r in
    let chunk_size := Z.min remaining prefill_chunk_cap in
    if chunk_size <=? 0 then (no_prefill r, None)
    else
      let chunk := take (Z.to_nat chunk_size) (drop (Z.to_nat (offset r)) (bpe_prompt_tokens q)) in
      (r, Some (MakeUnifiedBatchInput (offset r) chunk (size q <=? offset r + chunk_size)))
  else if tokens_generated r <? decode_limit plan then (r, Some (MakeUnifiedBatchInput (pos r) [current_token r] true))
  else (stopped r, None).

(** The output of the step. *)
Definition process (cancelled : bool) (input : UnifiedBatchInput) (res : UnifiedBatchOutput) (r : Run) : Run :=
  let r := feed input r in
  let failed := negb (out_ok res) || (out_token res <? 0) in
  if in_prefill r then
    let chunk_processed := Z.of_nat (length (in_tokens input)) in
    if negb (out_ok res) && (offset r + chunk_processed <? size q) then no_prefill (stopped r)
    else
      let offset' := offset r + chunk_processed in
      if size q <=? offset' then
        let r := no_prefill (move offset' offset' (prefilled r || out_ok res) r) in
        if failed then stopped r else accept (out_token res) (out_piece res) (out_logprob res) false true r
      else move offset' offset' (prefilled r) r
  else
    let r := move (pos r + 1) (offset r) (prefilled r) r in
    if failed then stopped r else accept (out_token res) (out_piece res) (out_logprob res) cancelled true r.
End OneRequest.

(** ** Lanes

    A backend with asynchronous lanes is given the decodes and the prefills apart. *)

Inductive UnifiedBatchLane := kDecode | kPrefill.

Record Backend := mkBackend {
  capacity : nat -> Z;
  asynchronous : bool;
  execute : nat -> list UnifiedBatchInput -> list UnifiedBatchOutput;
  (** [SubmitUnifiedBatchAsync], 0 for a refusal, and [WaitForUnifiedBatchAsync] *)
  submit : nat -> UnifiedBatchLane -> list UnifiedBatchInput -> Z;
  wait : nat -> Z -> option (list UnifiedBatchOutput) }.

Definition no_output : UnifiedBatchOutput := mkOutput (-1) [] false None.

(** The positions of the inputs of a lane. *)
Definition positions (prefill : bool) (is_prefill : list bool) : list nat :=
  filter (fun j => is_prefill !! j = Some prefill) (seq 0 (length is_prefill)).

Definition lane_of (inputs : list UnifiedBatchInput) (ps : list nat) : list UnifiedBatchInput := omap (fun j => inputs !! j) ps.

Definition collect_lane (be : Backend) (k : nat) (handle : Z) (ps : list nat) (acc : bool * list UnifiedBatchOutput) : bool * list UnifiedBatchOutput :=
  if handle =? 0 then acc
  else match wait be k handle with
       | Some lane => if bool_decide (length lane = length ps)
                      then (acc.1, foldl (fun outputs jo => <[jo.1 := jo.2]> outputs) acc.2 (zip ps lane))
                      else (false, acc.2)
       | None => (false, acc.2)
       end.

Definition RunAsyncUnifiedLanes (be : Backend) (k : nat) (inputs : list UnifiedBatchInput) (is_prefill : list bool) : bool * list UnifiedBatchOutput :=
  let decode_positions := positions false is_prefill in
  let prefill_positions := positions true is_prefill in
  let decode_inputs := lane_of inputs decode_positions in
  let prefill_inputs := lane_of inputs prefill_positions in
  let decode_handle := if bool_decide (decode_inputs = []) then 0 else submit be k kDecode decode_inputs in
  let ok := bool_decide (decode_inputs = []) || negb (decode_handle =? 0) in
  let submits := ok && negb (bool_decide (prefill_inputs = [])) in
  let prefill_handle := if submits then submit be k kPrefill prefill_inputs else 0 in
  let ok := ok && (negb submits || negb (prefill_handle =? 0)) in
  collect_lane be k prefill_handle prefill_positions
    (collect_lane be k decode_handle decode_positions (ok, replicate (length inputs) no_output)).

(** The outputs of a step; [None]: the step failed. *)
Definition run_step (be : Backend) (k : nat) (inputs : list UnifiedBatchInput) (is_prefill : list bool) : option (list UnifiedBatchOutput) :=
  let '(step_ok, step) :=
    if asynchronous be then RunAsyncUnifiedLanes be k inputs is_prefill
    else (true, execute be k inputs) in
  if step_ok && negb (bool_decide (step = [])) then Some step else None.

(** ** The batch *)

Record Slot := mkSlot { req : Request; plan : FairnessSlicePlan; run : Run }.
Definition on_run (f : Run -> Run) (s : Slot) : Slot := mkSlot (req s) (plan s) (f (run s)).

Section Loop.
(** [flag k i site]: the cancellation flag of request [i] in step [k] when it is read
    for the counts (0), for the input (1) and after an emission (2). *)
Context (be : Backend) (tuning : UnifiedBatchTuning) (flag : nat -> nat -> nat -> bool).

Definition counts_prefill (k i : nat) (s : Slot) : bool := active (run s) && negb (flag k i 0) && in_prefill (run s).
Definition counts_decode (k i : nat) (s : Slot) : bool :=
  active (run s) && negb (flag k i 0) && negb (in_prefill (run s)) && (tokens_generated (run s) <? decode_limit (plan s)).

Definition count (p : nat -> Slot -> bool) (slots : list Slot) : Z := Z.of_nat (length (filter (fun b => b = true) (imap p slots))).

Definition chunk_cap (k : nat) (slots : list Slot) : Z :=
  ComputePrefillChunkCap (Z.max 1 (capacity be k)) (count (counts_decode k) slots) (count (counts_prefill k) slots) tuning.

Definition build_slot (k : nat) (cap : Z) (i : nat) (s : Slot) : Slot * option UnifiedBatchInput :=
  let '(r, input) := build (req s) (plan s) cap (flag k i 1) (run s) in (mkSlot (req s) (plan s) r, input).

(** Outputs are assigned to the requests with an input, in order; [None]: an output is
    missing, and the code reads past the end of the vector. *)
Fixpoint distribute (k i : nat) (built : list (Slot * option UnifiedBatchInput)) (outs : list UnifiedBatchOutput) : option (list Slot) :=
  match built with
  | [] => Some []
  | (s, None) :: built' => cons s <$> distribute k (S i) built' outs
  | (s, Some input) :: built' =>
      match outs with
      | o :: outs' => cons (on_run (process (req s) (plan s) (flag k i 2) input o) s) <$> distribute k (S i) built' outs'
      | [] => None
      end
  end.

Definition fail_inputs (built : list (Slot * option UnifiedBatchInput)) : list Slot :=
  (fun b => match b.2 with Some _ => on_run stopped b.1 | None => b.1 end) <$> built.

(** [steps]: what the guard leaves of 10000.  The flag tells that it was hit. *)
Fixpoint loop (steps k : nat) (slots : list Slot) : option (bool * list Slot) :=
  match steps with
  | 0%nat => Some (true, slots)
  | S steps =>
      let built := imap (build_slot k (chunk_cap k slots)) slots in
      let inputs := omap snd built in
      if bool_decide (inputs = []) then Some (false, fst <$> built)
      else
        let is_prefill := omap (fun b => match b.2 with Some _ => Some (in_prefill (run b.1)) | None => None end) built in
        match run_step be k inputs is_prefill with
        | None => Some (false, fail_inputs built)
        | Some outs => slots' ← distribute k 0 built outs; loop steps (S k) slots'
        end
  end.

Definition prepare (i : nat) (qs : Request * RequestState) : Slot * Z * FairnessState :=
  let '(q, s) := qs in
  let '(p, prompt, f) := PlanFairnessSlice q (decode_burst_tokens tuning) (fairness s) in
  (mkSlot q p (seed q p (flag 0 i 2) s), prompt, f).

Definition mark_first_token (s : RequestState) : RequestState :=
  let t := text s in
  mkState (n_past s) (prefill_offset s) (first_token s) (first_piece s) (first_logprob s) (logprobs s)
    (mkText (pending t) (completion t) (emitted t) true) (accumulated_output s) (phase s) (fairness s) (cache_reused_tokens s) (cache_prefill_complete s).

(** The state of a request after the loop, and its result: text and tokens. *)
Definition settle (s : RequestState) (prepared : Slot * Z * FairnessState) (final : Slot) : RequestState * (bytes * Z * Z) :=
  let '(sl, prompt, f) := prepared in
  let r := run final in
  let done := if (tokens_generated r =? 0) && bool_decide (completion (out r) = [])
              then bytes_of "[backend returned empty response]" else completion (out r) in
  let t := mkText (pending (out r)) done (emitted (text s) ++ emitted (out r)) (stamped (out r)) in
  let seeded := (0 <=? n_past s) && (0 <=? first_token s) && collect_logprobs (req sl) in
  let s' := FinalizeFairnessSlice (req sl) (plan sl) (tokens_generated r) (current_token r)
    (mkState (pos r) (offset r) (first_token s) (first_piece s) (if seeded then None else first_logprob s) (lps r) t (accumulated_output s) (phase s) f
       (if prefilled r then cache_reuse_pending_tokens (req sl) else cache_reused_tokens s) (cache_prefill_complete s || prefilled r)) in
  (mark_first_token s', (completion (text s'), tokens_generated r, prompt)).

Definition ExecuteUnifiedBatchPhased (eligible : list (Request * RequestState)) : option (list (RequestState * (bytes * Z * Z))) :=
  let prepared := imap prepare eligible in
  match loop 10000 1 ((fun p => p.1.1) <$> prepared) with
  | Some (_, slots) => Some (zip_with (fun qp final => settle qp.1.2 qp.2 final) (zip eligible prepared) slots)
  | None => None
  end.
End Loop.

(** ** Invariants of a request *)

Section Invariant.
Context (q : Request) (plan : FairnessSlicePlan).

(** What is fed to the backend: [prefix] from position [base] on, then what it sampled.
    The text starts as [out0], the count of tokens at [prior]. *)
Context (base : Z) (prefix : list Z) (out0 : Text) (prior : Z).

Definition fed_tokens (r : Run) : list Z := concat (in_tokens <$> fed r).
Definition sampled_tokens (r : Run) : list Z := (fun x => x.1.1) <$> sampled r.
Definition visible (l : list (Z * bytes * option TokenLogprob)) : list (bytes * option TokenLogprob) :=
  (fun x => (x.1.2, x.2)) <$> filter (fun x => x.1.2 <> []) l.
Definition end_pos (l : list UnifiedBatchInput) : Z := base + Z.of_nat (length (concat (in_tokens <$> l))).

(** Every input continues where the one before it ended, and asks for logits exactly when
    it contains the last known token. *)
Inductive contiguous : list UnifiedBatchInput -> Prop :=
  | contiguous_nil : contiguous []
  | contiguous_snoc l i :
      contiguous l -> in_n_past i = end_pos l -> in_sequence i = sequence_id q -> in_tokens i <> [] ->
      (in_logits i = true <-> base + Z.of_nat (length prefix) <= end_pos (l ++ [i])) ->
      contiguous (l ++ [i]).

Record run_ok (r : Run) : Prop := {
  ok_contiguous : contiguous (fed r);
  ok_fed : fed_tokens r `prefix_of` prefix ++ sampled_tokens r;
  ok_prefill : active r = true -> in_prefill r = true ->
    sampled r = [] /\ 0 <= offset r < size q /\ offset r = end_pos (fed r) /\ size q = base + Z.of_nat (length prefix) /\
    prefix = fed_tokens r ++ drop (Z.to_nat (offset r)) (bpe_prompt_tokens q);
  ok_decode : active r = true -> in_prefill r = false ->
    pos r = end_pos (fed r) /\ 0 <= current_token r /\ prefix ++ sampled_tokens r = fed_tokens r ++ [current_token r];
  ok_limit : tokens_generated r = decode_limit plan ->
    in_prefill r = false /\ pos r = end_pos (fed r) /\ 0 <= current_token r /\ prefix ++ sampled_tokens r = fed_tokens r ++ [current_token r];
  ok_offset : 0 <= offset r;
  ok_sampled : Forall (fun t => 0 <= t) (sampled_tokens r);
  ok_generated : prior <= tokens_generated r <= decode_limit plan /\ tokens_generated r = prior + Z.of_nat (length (visible (sampled r)));
  ok_non_emitting : 0 <= non_emitting_steps r /\ (active r = true -> non_emitting_steps r < max_non_emitting_steps plan);
  ok_text : exists hit, append_pieces (stop q) (streaming q) (visible (sampled r)) out0 = (hit, out r) /\ (hit = true -> active r = false) }.

Lemma end_pos_snoc l i : end_pos (l ++ [i]) = end_pos l + Z.of_nat (length (in_tokens i)).
Proof. unfold end_pos. rewrite fmap_app, concat_app, length_app. simpl. rewrite app_nil_r. lia. Qed.

Lemma fed_tokens_feed i r : fed_tokens (feed i r) = fed_tokens r ++ in_tokens i.
Proof. unfold fed_tokens, feed. cbn [fed]. rewrite fmap_app, concat_app. simpl. by rewrite app_nil_r. Qed.

Lemma visible_snoc l t p lp : visible (l ++ [(t, p, lp)]) = visible l ++ (if bool_decide (p <> []) then [(p, lp)] else []).
Proof. unfold visible. rewrite filter_app, fmap_app. f_equal. rewrite filter_cons. cbn [fst snd]. case_decide; case_bool_decide; done. Qed.

Lemma append_pieces_snoc l p lp t hit t' :
  append_pieces (stop q) (streaming q) l t = (hit, t') -> hit = false ->
  append_pieces (stop q) (streaming q) (l ++ [(p, lp)]) t = AppendGeneratedPiece (stop q) (streaming q) p lp t'.
Proof.
  revert t. induction l as [|[p0 lp0] l IH]; intros t; cbn [append_pieces app].
  - intros [= <- <-] _. by destruct (AppendGeneratedPiece _ _ p lp t) as [[] ?].
  - destruct (AppendGeneratedPiece _ _ p0 lp0 t) as [[] t1]; [by intros [= <- _]|]. apply IH.
Qed.

(** Everything was fed and a token is about to be accepted. *)
Record before_accept (r : Run) : Prop := {
  ba_active : active r = true; ba_decode : in_prefill r = false; ba_contiguous : contiguous (fed r);
  ba_fed : fed_tokens r = prefix ++ sampled_tokens r; ba_pos : pos r = end_pos (fed r);
  ba_offset : 0 <= offset r; ba_sampled : Forall (fun t => 0 <= t) (sampled_tokens r);
  ba_generated : prior <= tokens_generated r < decode_limit plan /\ tokens_generated r = prior + Z.of_nat (length (visible (sampled r)));
  ba_non_emitting : 0 <= non_emitting_steps r < max_non_emitting_steps plan;
  ba_text : append_pieces (stop q) (streaming q) (visible (sampled r)) out0 = (false, out r) }.

Lemma accept_ok token piece lp c lim r :
  before_accept r -> 0 <= token -> (lim = false -> non_emitting_steps r + 1 < max_non_emitting_steps plan) ->
  run_ok (accept q plan token piece lp c lim r).
Proof.
  intros [Ha Hd Hc Hf Hp Hof Hs [Hg Hgv] Hn Ht] Htok Hlim. unfold accept.
  assert (Hst : forall l, (fun x => x.1.1) <$> (sampled r ++ [(token, piece, l)]) = sampled_tokens r ++ [token]) by (intros; by rewrite fmap_app).
  case_bool_decide as Hv.
  - destruct (AppendGeneratedPiece _ _ piece lp (out r)) as [hit t] eqn:E.
    split; unfold sampled_tokens, fed_tokens; cbn [fed sampled active in_prefill pos offset current_token tokens_generated non_emitting_steps out];
      rewrite ?Hst; fold (fed_tokens r).
    + done.
    + rewrite Hf, app_assoc. by apply prefix_app_r.
    + intros _. by rewrite Hd.
    + intros _ _. split_and!; [done|done|]. by rewrite Hf, app_assoc.
    + intros _. split_and!; [done|done|done|]. by rewrite Hf, app_assoc.
    + done.
    + by apply Forall_app_2; [|constructor].
    + rewrite visible_snoc, bool_decide_eq_true_2, length_app by done. simpl. lia.
    + lia.
    + exists hit. rewrite visible_snoc, bool_decide_eq_true_2 by done. rewrite (append_pieces_snoc _ _ _ _ _ _ Ht eq_refl), E.
      split; [done|]. intros ->. by rewrite Ha.
  - split; unfold sampled_tokens, fed_tokens; cbn [fed sampled active in_prefill pos offset current_token tokens_generated non_emitting_steps out];
      rewrite ?Hst; fold (fed_tokens r).
    + done.
    + rewrite Hf, app_assoc. by apply prefix_app_r.
    + intros _. by rewrite Hd.
    + intros _ _. split_and!; [done|done|]. by rewrite Hf, app_assoc.
    + intros _. split_and!; [done|done|done|]. by rewrite Hf, app_assoc.
    + done.
    + by apply Forall_app_2; [|constructor].
    + rewrite visible_snoc, bool_decide_eq_false_2, app_nil_r by (by rewrite Hv; intros []). lia.
    + split; [lia|]. rewrite Ha. destruct lim; [|intros _; by apply Hlim]. cbn [andb]. destruct (Z.leb_spec (max_non_emitting_steps plan) (non_emitting_steps r + 1)); [done|lia].
    + exists false. rewrite visible_snoc, bool_decide_eq_false_2, app_nil_r by (by rewrite Hv; intros []). by split.
Qed.

Lemma stopped_ok r : run_ok r -> run_ok (stopped r).
Proof. intros [? ? _ _ ? ? ? ? [? _] (hit & ? & _)]. split; try done. exists hit. by split. Qed.

(** The inputs that [build] makes. *)
Lemma build_ok cap c r r' input :
  1 <= cap -> run_ok r -> build q plan cap c r = (r', input) ->
  match input with
  | None => run_ok r' /\ active r' = false
  | Some i => r' = r /\ active r = true /\ in_sequence i = sequence_id q /\ in_n_past i = end_pos (fed r) /\
      if in_prefill r
      then exists n, (0 < n <= Z.to_nat (size q - offset r))%nat /\ Z.of_nat n <= cap /\
             in_tokens i = take n (drop (Z.to_nat (offset r)) (bpe_prompt_tokens q)) /\ in_logits i = (size q <=? offset r + Z.of_nat n)
      else in_tokens i = [current_token r] /\ in_logits i = true /\ tokens_generated r < decode_limit plan
  end.
Proof.
  intros Hcap Hr. unfold build. destruct (active r) eqn:Ha; cbn [negb]; [|by intros [= <- <-]].
  destruct c; [intros [= <- <-]; split; [by apply stopped_ok|done]|].
  destruct (in_prefill r) eqn:Hi.
  - destruct (ok_prefill _ Hr Ha Hi) as (_ & Ho & He & _). destruct (Z.leb_spec (Z.min (size q - offset r) cap) 0); [lia|].
    intros [= <- <-]. cbn. split_and!; [done|done|done|done|]. exists (Z.to_nat (Z.min (size q - offset r) cap)).
    split_and!; [lia|lia|lia|done|]. by rewrite Z2Nat.id by lia.
  - destruct (Z.ltb_spec (tokens_generated r) (decode_limit plan)); intros [= <- <-]; [|split; [by apply stopped_ok|done]].
    destruct (ok_decode _ Hr Ha Hi) as (Hp & _). cbn. by split_and!.
Qed.

(** How many steps a request can still take. *)
Definition measure (r : Run) : Z :=
  (if in_prefill r then size q - offset r else 0) + (decode_limit plan - tokens_generated r) + (max_non_emitting_steps plan - non_emitting_steps r).

(** Something that was fed and has stopped. *)
Lemma inactive_ok r r' :
  run_ok r -> tokens_generated r < decode_limit plan -> offset r <= offset r' -> active r' = false -> contiguous (fed r') -> fed_tokens r' `prefix_of` prefix ++ sampled_tokens r ->
  sampled r' = sampled r -> tokens_generated r' = tokens_generated r -> non_emitting_steps r' = non_emitting_steps r -> out r' = out r -> run_ok r'.
Proof.
  intros [_ _ _ _ _ Ho Hs Hg [Hn _] (hit & Ht & _)] Hlt Hle Ha Hc Hf E1 E2 E3 E4.
  assert (E5 : sampled_tokens r' = sampled_tokens r) by (unfold sampled_tokens; by rewrite E1).
  split; rewrite ?E1, ?E2, ?E3, ?E4, ?E5, ?Ha; try done; [lia|lia|]. exists hit. by split.
Qed.

Lemma measure_accept token piece lp c lim r : in_prefill r = false -> measure (accept q plan token piece lp c lim r) = measure r - 1.
Proof.
  intros Hi. unfold accept, measure. case_bool_decide; [destruct (AppendGeneratedPiece _ _ _ _ _)|]; cbn [in_prefill tokens_generated non_emitting_steps]; rewrite Hi; lia.
Qed.

Definition advances (r r' : Run) : Prop := run_ok r' /\ (active r' = true -> measure r' < measure r).

Lemma generated_left r : run_ok r -> tokens_generated r < decode_limit plan ->
  prior <= tokens_generated r < decode_limit plan /\ tokens_generated r = prior + Z.of_nat (length (visible (sampled r))).
Proof. intros Hr H. destruct (ok_generated _ Hr). split; [lia|done]. Qed.

Lemma steps_left r : run_ok r -> active r = true -> 0 <= non_emitting_steps r < max_non_emitting_steps plan.
Proof. intros Hr Ha. destruct (ok_non_emitting _ Hr). auto. Qed.

Lemma process_decode_ok i c res r :
  run_ok r -> active r = true -> in_prefill r = false -> in_sequence i = sequence_id q -> in_n_past i = end_pos (fed r) ->
  in_tokens i = [current_token r] -> in_logits i = true -> tokens_generated r < decode_limit plan ->
  advances r (process q plan c i res r).
Proof.
  intros Hr Ha Hi Hseq Hpast Htok Hlog Hlt. destruct (ok_decode _ Hr Ha Hi) as (Hp & Hcur & Hpre).
  destruct (ok_text _ Hr) as (hit & Ht & Hhit). assert (hit = false) as -> by (destruct hit; [by specialize (Hhit eq_refl); congruence|done]).
  assert (Hfed : fed_tokens (feed i r) = prefix ++ sampled_tokens r) by (by rewrite fed_tokens_feed, Htok).
  assert (Hc : contiguous (fed (feed i r))).
  { constructor; [apply Hr|done|done|by rewrite Htok|]. rewrite Hlog. split; [intros _|done]. rewrite end_pos_snoc, Htok. unfold end_pos.
    apply (f_equal length) in Hpre. rewrite !length_app in Hpre. unfold fed_tokens in Hpre. simpl in *. lia. }
  assert (Hend : end_pos (fed (feed i r)) = pos r + 1) by (unfold feed; cbn [fed]; rewrite end_pos_snoc, Htok, <- Hp; done).
  unfold process. cbn [feed in_prefill]. rewrite Hi. fold (feed i r).
  set (r1 := move (pos (feed i r) + 1) (offset (feed i r)) (prefilled (feed i r)) (feed i r)).
  assert (Hb : before_accept r1) by (split; try done; [exact (ok_offset _ Hr)|exact (ok_sampled _ Hr)|exact (generated_left r Hr Hlt)|exact (steps_left r Hr Ha)]).
  destruct (negb (out_ok res) || (out_token res <? 0)) eqn:Ef.
  - split; [|done]. apply (inactive_ok r); try done. unfold fed_tokens in *. cbn in *. rewrite Hfed. done.
  - apply orb_false_iff in Ef as [_ Ef%Z.ltb_ge]. split; [by apply accept_ok|]. intros _. rewrite measure_accept by done. unfold measure. cbn. lia.
Qed.

Lemma process_prefill_ok i n c res r :
  run_ok r -> active r = true -> in_prefill r = true -> in_sequence i = sequence_id q -> in_n_past i = end_pos (fed r) -> prior < decode_limit plan ->
  (0 < n <= Z.to_nat (size q - offset r))%nat ->
  in_tokens i = take n (drop (Z.to_nat (offset r)) (bpe_prompt_tokens q)) -> in_logits i = (size q <=? offset r + Z.of_nat n) ->
  advances r (process q plan c i res r).
Proof.
  intros Hr Ha Hi Hseq Hpast Hlim Hn Htok Hlog. destruct (ok_prefill _ Hr Ha Hi) as (Hs & Ho & He & Hsize & Hpre).
  assert (Hlen : length (in_tokens i) = n) by (rewrite Htok, length_take, length_drop; unfold size in *; lia).
  assert (Hend : end_pos (fed (feed i r)) = offset r + Z.of_nat n) by (unfold feed; cbn [fed]; rewrite end_pos_snoc, Hlen; lia).
  assert (Hpre' : prefix = fed_tokens (feed i r) ++ drop (Z.to_nat (offset r + Z.of_nat n)) (bpe_prompt_tokens q)).
  { rewrite fed_tokens_feed, Htok, <- app_assoc. replace (Z.to_nat (offset r + Z.of_nat n)) with (Z.to_nat (offset r) + n)%nat by lia.
    by rewrite <- drop_drop, take_drop. }
  assert (Hc : contiguous (fed (feed i r))).
  { constructor; [apply Hr|done|done|intros E; rewrite E in Hlen; simpl in Hlen; lia|]. fold (fed (feed i r)) in Hend. cbn [feed fed] in Hend. rewrite Hend, Hlog, <- Hsize.
    apply Z.leb_le. }
  assert (Hst : sampled_tokens r = []) by (unfold sampled_tokens; by rewrite Hs).
  assert (Hpref : fed_tokens (feed i r) `prefix_of` prefix ++ sampled_tokens r) by (rewrite Hst, app_nil_r, Hpre' at 1; by apply prefix_app_r).
  assert (Hg : tokens_generated r < decode_limit plan) by (destruct (ok_generated _ Hr) as [_ ->]; rewrite Hs; cbn; lia).
  unfold process. cbn [feed in_prefill]. rewrite Hi. fold (feed i r). rewrite Hlen. change (offset (feed i r)) with (offset r).
  destruct (negb (out_ok res) && (offset r + Z.of_nat n <? size q)) eqn:E1; [split; [by apply (inactive_ok r); try done; cbn; lia|done]|].
  destruct (Z.leb_spec (size q) (offset r + Z.of_nat n)) as [Hle|Hgt].
  - set (r1 := no_prefill _).
    assert (Hall : fed_tokens r1 = prefix).
    { change (fed_tokens r1) with (fed_tokens (feed i r)). rewrite Hpre', drop_ge, app_nil_r; [done|]. unfold size in *. lia. }
    assert (Hb : before_accept r1).
    { destruct (ok_text _ Hr) as (hit & Ht & Hhit). assert (hit = false) as -> by (destruct hit; [by specialize (Hhit eq_refl); congruence|done]).
      split; try done; [|cbn; lia|apply Hr|exact (generated_left r Hr Hg)|exact (steps_left r Hr Ha)].
      by rewrite Hall; change (sampled_tokens r1) with (sampled_tokens r); rewrite Hst, app_nil_r. }
    destruct (negb (out_ok res) || (out_token res <? 0)) eqn:Ef; [split; [apply (inactive_ok r); try done; cbn; lia|done]|].
    apply orb_false_iff in Ef as [_ Ef%Z.ltb_ge]. split; [by apply accept_ok|]. intros _. rewrite measure_accept by done.
    unfold measure. cbn. rewrite Hi. lia.
  - split.
    + destruct Hr as [_ _ _ _ _ _ Hss Hgg Hne Ht]. split; cbn [move feed fed in_prefill active offset sampled tokens_generated non_emitting_steps out]; try done.
      * intros _ _. by split_and!; [|lia|lia| | |].
      * intros _. by rewrite Hi.
      * lia.
      * lia.
    + intros _. unfold measure. cbn. rewrite Hi. lia.
Qed.

(** A step of a request: whatever the backend answers, the invariant holds and there is
    less to do. *)
Lemma process_ok cap c c' r r' i res :
  1 <= cap -> prior < decode_limit plan -> run_ok r -> build q plan cap c r = (r', Some i) -> advances r (process q plan c' i res r').
Proof.
  intros Hcap Hlim Hr Hb. destruct (build_ok _ _ _ _ _ Hcap Hr Hb) as (-> & Ha & Hseq & Hpast & H).
  destruct (in_prefill r) eqn:Hi.
  - destruct H as (n & Hn & _ & Htok & Hlog). by eapply process_prefill_ok.
  - destruct H as (Htok & Hlog & Hlt). by apply process_decode_ok.
Qed.

Lemma measure_build cap c r r' i : 1 <= cap -> run_ok r -> build q plan cap c r = (r', Some i) -> 0 < measure r.
Proof.
  intros Hcap Hr Hb. destruct (build_ok _ _ _ _ _ Hcap Hr Hb) as (-> & Ha & _ & _ & H). unfold measure.
  destruct (ok_generated _ Hr) as [Hg _]. destruct (ok_non_emitting _ Hr) as [_ Hn]. specialize (Hn Ha).
  destruct (in_prefill r) eqn:Hi; [|lia]. destruct (ok_prefill _ Hr Ha Hi) as (_ & ? & _). lia.
Qed.
End Invariant.

(** ** From the state of a request to its run *)

(** A request that the executor is given: what is left of its prompt is within it. *)
Record request_ok (q : Request) (s : RequestState) : Prop := {
  ro_offset : 0 <= prefill_offset s;
  ro_fresh : n_past s = 0 -> bpe_prompt_tokens q <> [] -> first_token s < 0 -> prefill_offset s < size q }.

Definition seeded (s : RequestState) : bool := (0 <=? n_past s) && (0 <=? first_token s).
Definition start_base (s : RequestState) : Z := if seeded s then n_past s else prefill_offset s.
Definition start_prefix (q : Request) (s : RequestState) : list Z :=
  if seeded s then [] else drop (Z.to_nat (prefill_offset s)) (bpe_prompt_tokens q).
Definition start_text (q : Request) (s : RequestState) : Text :=
  let t := text s in
  if seeded s || (n_past s =? 0) && bool_decide (bpe_prompt_tokens q <> [])
     || ((0 <? n_past s) && bool_decide (bpe_prompt_tokens q <> []) && (0 <? prefill_offset s) && (prefill_offset s <? size q))
  then mkText (pending t) [] [] (stamped t) else mkText (pending t) (bytes_of "[batch state error]") [] (stamped t).

Definition plan_ok (plan : FairnessSlicePlan) : Prop := 0 < decode_limit plan /\ 32 <= max_non_emitting_steps plan.

(** Nothing was fed yet. *)
Lemma idle_ok q plan base prefix out0 prior r :
  plan_ok plan -> out r = out0 -> tokens_generated r = prior -> 0 <= offset r -> fed r = [] -> sampled r = [] -> tokens_generated r < decode_limit plan -> non_emitting_steps r = 0 ->
  (active r = true -> in_prefill r = true /\ 0 <= offset r < size q /\ offset r = base /\ prefix = drop (Z.to_nat base) (bpe_prompt_tokens q)) ->
  run_ok q plan base prefix out0 prior r.
Proof.
  intros [Hl Hm] <- <- Hoff Hf Hs Hg Hn Ha. split; unfold fed_tokens, sampled_tokens; rewrite ?Hf, ?Hs, ?Hn.
  - constructor.
  - apply prefix_nil.
  - intros H _. destruct (Ha H) as (_ & Ho & <- & ->). unfold end_pos. cbn. split_and!; [done|lia|lia|lia| |done].
    rewrite length_drop. unfold size in *. lia.
  - intros H Hd. destruct (Ha H) as (Hi & _). congruence.
  - lia.
  - done.
  - constructor.
  - cbn. lia.
  - cbn. lia.
  - by exists false.
Qed.

Lemma seed_ok q plan c s :
  plan_ok plan -> request_ok q s -> run_ok q plan (start_base s) (start_prefix q s) (start_text q s) 0 (seed q plan c s).
Proof.
  intros Hp [Ho Hfresh]. pose proof Hp as [Hl Hm]. unfold seed, start_base, start_prefix, start_text, seeded.
  destruct ((0 <=? n_past s) && (0 <=? first_token s)) eqn:Es.
  - apply andb_true_iff in Es as [_ Es%Z.leb_le]. cbn [orb]. apply accept_ok; [|done|cbn; lia].
    split; cbn; try done; [apply contiguous_nil|unfold end_pos; cbn; lia|lia].
  - cbn [orb]. destruct ((n_past s =? 0) && bool_decide (bpe_prompt_tokens q <> [])) eqn:E0.
    + apply andb_true_iff in E0 as [E0%Z.eqb_eq En%bool_decide_eq_true]. cbn [orb]. apply idle_ok; try done. intros _. cbn. split_and!; try done.
      apply Hfresh; [done|done|]. rewrite E0 in Es. cbn in Es. lia.
    + cbn [orb]. destruct ((0 <? n_past s) && _ && _ && _) eqn:E1; [|by apply idle_ok].
      apply andb_true_iff in E1 as [[[_ _]%andb_true_iff _]%andb_true_iff E1%Z.ltb_lt]. by apply idle_ok.
Qed.

Lemma plan_slice_ok q burst f : plan_ok (PlanFairnessSlice q burst f).1.1.
Proof.
  unfold PlanFairnessSlice, MaxNonEmittingSteps, plan_ok. cbn [fst decode_limit max_non_emitting_steps]. split; [|lia].
  set (limit := if 0 <? burst then _ else _). destruct (Z.leb_spec limit 0); lia.
Qed.

Lemma seed_measure q plan c s : request_ok q s -> plan_ok plan ->
  measure q plan (seed q plan c s) <= size q + decode_limit plan + max_non_emitting_steps plan.
Proof.
  intros [Ho _] [Hl Hm]. unfold seed. assert (0 <= size q) by (unfold size; lia).
  destruct (_ && _); [rewrite measure_accept by done; unfold measure; cbn; lia|].
  destruct (_ && _); [unfold measure; cbn; lia|]. destruct (_ && _); unfold measure; cbn; lia.
Qed.

(** ** The batch *)

(** A backend answers with an output for every input, or with none at all. *)
Definition backend_sized (be : Backend) : Prop :=
  forall k inputs, execute be k inputs = [] \/ length (execute be k inputs) = length inputs.

Lemma collect_lane_length be k h ps acc : length (collect_lane be k h ps acc).2 = length acc.2.
Proof.
  unfold collect_lane. destruct (h =? 0); [done|]. destruct (wait be k h) as [lane|]; [|done]. case_bool_decide; [|done]. cbn [snd].
  generalize (zip ps lane), acc.2. intros l. induction l as [|[j o] l IH]; intros outs; [done|]. cbn [foldl fst snd].
  rewrite IH. apply length_insert.
Qed.

Lemma run_step_length be k inputs flags outs : backend_sized be -> run_step be k inputs flags = Some outs -> length outs = length inputs.
Proof.
  intros Hb. unfold run_step. destruct (asynchronous be).
  - destruct (RunAsyncUnifiedLanes be k inputs flags) as [ok step] eqn:E. destruct (ok && _); [|done]. intros [= <-].
    apply (f_equal (fun x => length x.2)) in E. unfold RunAsyncUnifiedLanes in E. rewrite !collect_lane_length in E. cbn in E.
    by rewrite length_replicate in E.
  - cbn [andb]. case_bool_decide as He; [done|]. intros [= <-]. by destruct (Hb k inputs).
Qed.

(** What is known of a request all along the batch. *)
Record slot_inv (pr : Request * FairnessSlicePlan * Z * list Z * Text) (s : Slot) : Prop := {
  si_req : req s = pr.1.1.1.1; si_plan : plan s = pr.1.1.1.2; si_ok : plan_ok (plan s);
  si_run : run_ok (req s) (plan s) pr.1.1.2 pr.1.2 pr.2 0 (run s) }.

Definition bounded (n : Z) (s : Slot) : Prop := active (run s) = true -> measure (req s) (plan s) (run s) < n.

Definition built_ok (n : Z) (pr : Request * FairnessSlicePlan * Z * list Z * Text) (b : Slot * option UnifiedBatchInput) : Prop :=
  slot_inv pr b.1 /\
  match b.2 with
  | None => active (run b.1) = false
  | Some i => bounded n b.1 /\ 0 < measure (req b.1) (plan b.1) (run b.1) /\ active (run b.1) = true /\
      forall c res, advances (req b.1) (plan b.1) pr.1.1.2 pr.1.2 pr.2 0 (run b.1) (process (req b.1) (plan b.1) c i res (run b.1))
  end.

Lemma build_slot_ok flag k cap i n pr s : 1 <= cap -> slot_inv pr s -> bounded n s -> built_ok n pr (build_slot flag k cap i s).
Proof.
  intros Hcap [Hq Hpl Hok Hr] Hn. unfold build_slot. destruct (build (req s) (plan s) cap (flag k i 1%nat) (run s)) as [r input] eqn:E.
  pose proof (build_ok _ _ _ _ _ _ _ _ _ _ _ Hcap Hr E) as H. destruct input as [inp|].
  - assert (Ha : forall c res, advances (req s) (plan s) pr.1.1.2 pr.1.2 pr.2 0 (run s) (process (req s) (plan s) c inp res r))
      by (intros; eapply process_ok; [exact Hcap|apply Hok|exact Hr|exact E]).
    pose proof (measure_build _ _ _ _ _ _ _ _ _ _ _ Hcap Hr E). destruct H as (-> & Hact & _). split; [by split|]. by split_and!.
  - destruct H as [H Hact]. split; [by split|done].
Qed.

Lemma build_all_ok flag k cap n prs slots : 1 <= cap -> Forall2 slot_inv prs slots -> Forall (bounded n) slots ->
  forall F, (forall i s, exists j, F i s = build_slot flag k cap j s) -> Forall2 (built_ok n) prs (imap F slots).
Proof.
  intros Hcap H. induction H as [|pr s prs slots Hs _ IH]; intros Hn F HF; [constructor|]. apply Forall_cons in Hn as [Hn1 Hn].
  rewrite imap_cons. constructor; [|apply IH; [done|]; intros i s'; apply (HF (S i))].
  destruct (HF 0%nat s) as [j ->]. by apply build_slot_ok.
Qed.

Lemma distribute_ok flag n prs built : Forall2 (built_ok n) prs built ->
  forall k i outs, length outs = length (omap snd built) ->
  exists slots, distribute flag k i built outs = Some slots /\ Forall2 slot_inv prs slots /\ Forall (bounded (n - 1)) slots.
Proof.
  induction 1 as [|pr [s input] prs built Hb _ IH]; intros k i outs Hl; [by exists []|].
  destruct input as [inp|]; cbn [omap list_omap snd distribute] in *.
  - destruct outs as [|o outs]; [done|]. destruct (IH k (S i) outs) as (slots & -> & H1 & H2); [simpl in Hl; lia|].
    destruct Hb as [[Hq Hpl Hok _] (Hn & _ & Hact & Hadv)]. cbn in *. eexists. split; [done|]. destruct (Hadv (flag k i 2%nat) o) as [Hr Hm].
    split; constructor; [by split|done| |done]. intros Ha. cbn in *. specialize (Hn Hact). specialize (Hm Ha). lia.
  - destruct (IH k (S i) outs Hl) as (slots & -> & H1 & H2). destruct Hb as [Hs Ha]. cbn in *. eexists. split; [done|].
    split; constructor; try done. intros Hc. congruence.
Qed.

Lemma chunk_cap_pos be tuning flag k slots : 1 <= chunk_cap be tuning flag k slots.
Proof. unfold chunk_cap, ComputePrefillChunkCap. destruct (_ <=? 0); lia. Qed.

Lemma some_bound slots : exists n, Forall (bounded n) slots.
Proof.
  induction slots as [|s slots [n IH]]; [by exists 0|]. exists (Z.max n (measure (req s) (plan s) (run s) + 1)).
  constructor; [intros _; lia|]. eapply Forall_impl; [exact IH|]. intros s' H Ha. specialize (H Ha). lia.
Qed.

Lemma built_inv n prs built : Forall2 (built_ok n) prs built -> Forall2 slot_inv prs (fst <$> built).
Proof. induction 1 as [|pr b prs built [H _] _ IH]; [constructor|]. by constructor. Qed.

Lemma failed_inv n prs built : Forall2 (built_ok n) prs built ->
  Forall2 slot_inv prs (fail_inputs built) /\ Forall (fun s => active (run s) = false) (fail_inputs built).
Proof.
  induction 1 as [|pr [s [i|]] prs built [[Hq Hpl Hok Hr] H] _ [IH1 IH2]]; [by split; constructor| |]; split; constructor; try done.
  split; try done. by apply stopped_ok.
Qed.

Lemma no_inputs_inactive n prs built : Forall2 (built_ok n) prs built -> omap snd built = [] -> Forall (fun s => active (run s) = false) (fst <$> built).
Proof. induction 1 as [|pr [s [i|]] prs built [_ H] _ IH]; intros E; [constructor|done|]. constructor; [done|by apply IH]. Qed.

Lemma inputs_bound n prs built : Forall2 (built_ok n) prs built -> omap snd built <> [] -> 1 < n.
Proof.
  induction 1 as [|pr [s [i|]] prs built [_ H] _ IH]; intros E; [done| |by apply IH].
  destruct H as (Hn & Hm & Ha & _). specialize (Hn Ha). cbn in *. lia.
Qed.

(** The loop: the invariants hold at the end, and when no request can take as many steps
    as the guard allows, the guard is not reached and every request has ended. *)
Lemma loop_ok be tuning flag prs steps : backend_sized be -> forall k slots, Forall2 slot_inv prs slots ->
  exists guard slots', loop be tuning flag steps k slots = Some (guard, slots') /\ Forall2 slot_inv prs slots' /\
    (Forall (bounded (Z.of_nat steps)) slots -> (0 < steps)%nat -> guard = false /\ Forall (fun s => active (run s) = false) slots').
Proof.
  intros Hb. induction steps as [|steps IH]; intros k slots Hs; [exists true, slots; split_and!; [done|done|lia]|].
  cbn [loop]. set (F := build_slot flag k (chunk_cap be tuning flag k slots)).
  assert (Hall : forall n, Forall (bounded n) slots -> Forall2 (built_ok n) prs (imap F slots))
    by (intros n Hn; eapply build_all_ok; [apply chunk_cap_pos|done|done|by eexists]).
  destruct (some_bound slots) as [n0 Hn0]. pose proof (Hall _ Hn0) as Hbuilt.
  case_bool_decide as Ei.
  { exists false, (fst <$> imap F slots). split_and!; [done|by eapply built_inv|]. intros _ _. split; [done|by eapply no_inputs_inactive]. }
  destruct (run_step _ _ _ _) as [outs|] eqn:Er.
  - apply run_step_length in Er; [|done]. destruct (distribute_ok flag _ _ _ Hbuilt k 0%nat outs Er) as (slots1 & Hd & Hs1 & _).
    rewrite Hd. cbn [mbind option_bind]. destruct (IH (S k) slots1 Hs1) as (g & slots' & Hl & Hs' & Hend). exists g, slots'. split_and!; [done|done|].
    intros Hn _. specialize (Hall _ Hn). destruct (distribute_ok flag _ _ _ Hall k 0%nat outs Er) as (slots2 & Hd2 & _ & Hn2).
    rewrite Hd in Hd2. simplify_eq. pose proof (inputs_bound _ _ _ Hall Ei). apply Hend; [|lia].
    by replace (Z.of_nat steps) with (Z.of_nat (S steps) - 1) by lia.
  - exists false, (fail_inputs (imap F slots)). destruct (failed_inv _ _ _ Hbuilt). by split_and!.
Qed.

Section Phased.
Context (be : Backend) (tuning : UnifiedBatchTuning) (flag : nat -> nat -> nat -> bool).

Definition initial (eligible : list (Request * RequestState)) : list Slot := (fun p => p.1.1) <$> imap (prepare tuning flag) eligible.

Definition plan_of (qs : Request * RequestState) : FairnessSlicePlan := (PlanFairnessSlice qs.1 (decode_burst_tokens tuning) (fairness qs.2)).1.1.

Definition start (qs : Request * RequestState) : Request * FairnessSlicePlan * Z * list Z * Text :=
  (qs.1, plan_of qs, start_base qs.2, start_prefix qs.1 qs.2, start_text qs.1 qs.2).

(** What the executor is given: requests in a state that it accepts. *)
Definition accepted (qs : Request * RequestState) : Prop := request_ok qs.1 qs.2 /\ HasValidUnifiedPhasedState qs.1 qs.2 = true.

Lemma prepare_slot i qs : (prepare tuning flag i qs).1.1 = mkSlot qs.1 (plan_of qs) (seed qs.1 (plan_of qs) (flag 0%nat i 2%nat) qs.2).
Proof. destruct qs as [q s]. unfold prepare, plan_of. by destruct (PlanFairnessSlice _ _ _) as [[p prompt] f]. Qed.

Lemma initial_map eligible F : (forall i qs, exists j, F i qs = prepare tuning flag j qs) -> Forall accepted eligible ->
  Forall2 slot_inv (start <$> eligible) ((fun p => p.1.1) <$> imap F eligible).
Proof.
  intros HF Hok. revert F HF. induction Hok as [|qs eligible [Hq _] _ IH]; intros F HF; [constructor|].
  rewrite imap_cons. cbn [fmap list_fmap]. constructor; [|apply IH; intros i qs'; apply (HF (S i))].
  destruct (HF 0%nat qs) as [j ->]. rewrite prepare_slot. pose proof (plan_slice_ok qs.1 (decode_burst_tokens tuning) (fairness qs.2)) as Hp.
  split; cbn; try done. by apply seed_ok.
Qed.

Lemma initial_inv eligible : Forall accepted eligible -> Forall2 slot_inv (start <$> eligible) (initial eligible).
Proof. intros H. apply initial_map; [by eexists|done]. Qed.

Lemma initial_bounded eligible n :
  Forall (fun qs => accepted qs /\ size qs.1 + decode_limit (plan_of qs) + max_non_emitting_steps (plan_of qs) < n) eligible ->
  Forall (bounded n) (initial eligible).
Proof.
  intros H. unfold initial. apply Forall_fmap, Forall_lookup. intros i x Hx. rewrite list_lookup_imap in Hx. destruct (eligible !! i) as [qs|] eqn:Hq; simplify_eq/=.
  destruct (proj1 (Forall_lookup _ _) H i qs Hq) as [[Hok _] Hlt]. cbn [compose]. rewrite prepare_slot. intros _. cbn [req plan run].
  eapply Z.le_lt_trans; [by apply seed_measure, plan_slice_ok|done].
Qed.

Lemma valid_text q s : HasValidUnifiedPhasedState q s = true -> start_text q s = mkText (pending (text s)) [] [] (stamped (text s)).
Proof.
  unfold HasValidUnifiedPhasedState, start_text, seeded. destruct (Z.ltb_spec (n_past s) 0) as [|Hn]; [done|]. destruct (sequence_id q <? 0); [done|].
  rewrite (proj2 (Z.leb_le 0 (n_past s)) Hn). cbn [orb andb]. destruct (0 <=? first_token s); [done|]. cbn [orb].
  destruct ((n_past s =? 0) && _); [done|]. cbn [orb]. by intros ->.
Qed.
End Phased.

(** What an execution did with a request: what it fed to the backend, what it counted
    and what it wrote. *)
Record executed (q : Request) (s : RequestState) (plan : FairnessSlicePlan) (r : Run) : Prop := {
  ex_contiguous : contiguous q (start_base s) (start_prefix q s) (fed r);
  ex_fed : fed_tokens r `prefix_of` start_prefix q s ++ sampled_tokens r;
  ex_limit : 0 <= tokens_generated r <= decode_limit plan;
  ex_counted : tokens_generated r = Z.of_nat (length (visible (sampled r)));
  ex_text : exists hit used rest, visible (sampled r) = used ++ rest /\ (hit = false -> rest = []) /\
    slice_text (stop q) (streaming q) (pending (text s)) (fst <$> used) [] hit (out r) }.

Lemma run_executed tuning qs s : accepted qs -> slot_inv (start tuning qs) s -> executed qs.1 qs.2 (plan s) (run s).
Proof.
  intros [_ Hv] [Hq Hp Hok Hr]. cbn in *. rewrite Hq in Hr. destruct (ok_text _ _ _ _ _ _ _ Hr) as (hit & Ht & _). rewrite valid_text in Ht by done.
  split; [apply Hr|apply Hr|by apply (ok_generated _ _ _ _ _ _ _ Hr)|by apply (ok_generated _ _ _ _ _ _ _ Hr)|].
  pose proof (append_pieces_text (stop qs.1) (streaming qs.1) (visible (sampled (run s))) (mkText (pending (text qs.2)) [] [] (stamped (text qs.2))) (fun _ => eq_refl)) as H.
  rewrite Ht in H. destruct H as (used & rest & H1 & H2 & H3). by exists hit, used, rest.
Qed.

(** The results, request by request. *)
Lemma phased_results be tuning flag eligible :
  backend_sized be -> Forall accepted eligible ->
  exists guard slots results, loop be tuning flag 10000 1 (initial tuning flag eligible) = Some (guard, slots) /\
    ExecuteUnifiedBatchPhased be tuning flag eligible = Some results /\ Forall2 slot_inv (start tuning <$> eligible) slots /\
    length results = length eligible /\
    forall i qs, eligible !! i = Some qs -> exists r, slots !! i = Some (mkSlot qs.1 (plan_of tuning qs) r) /\
      slot_inv (start tuning qs) (mkSlot qs.1 (plan_of tuning qs) r) /\
      results !! i = Some (settle qs.2 (prepare tuning flag i qs) (mkSlot qs.1 (plan_of tuning qs) r)).
Proof.
  intros Hb Hok. destruct (loop_ok be tuning flag _ 10000 Hb 1%nat _ (initial_inv tuning flag eligible Hok)) as (guard & slots & Hl & Hs & _).
  exists guard, slots. eexists. split_and!; [exact Hl|unfold ExecuteUnifiedBatchPhased; fold (initial tuning flag eligible); by rewrite Hl|done| |].
  - apply Forall2_length in Hs. rewrite length_fmap in Hs. rewrite length_zip_with, length_zip_with, length_imap. lia.
  - intros i qs Hi. destruct (Forall2_lookup_l _ _ _ i (start tuning qs) Hs) as (s & Hsi & Hinv); [by rewrite list_lookup_fmap, Hi|].
    destruct s as [q p r]. pose proof (si_req _ _ Hinv) as Eq. pose proof (si_plan _ _ Hinv) as Ep. cbn in Eq, Ep. subst q p.
    exists r. split_and!; [done|done|]. rewrite lookup_zip_with, lookup_zip_with, list_lookup_imap, Hi, Hsi. done.
Qed.


(** C21: execution ends by itself.  When no request of the batch can take as many steps as
    the guard of the loop allows (the tokens of its prompt, the limit of its slice and
    the tokens without text together), the guard is not reached, whatever the
    backend answers: at the end no request is active. *)
Theorem phased_batch_completes be tuning flag eligible :
  backend_sized be ->
  Forall (fun qs => accepted qs /\ size qs.1 + decode_limit (plan_of tuning qs) + max_non_emitting_steps (plan_of tuning qs) < 10000) eligible ->
  exists slots, loop be tuning flag 10000 1 (initial tuning flag eligible) = Some (false, slots) /\ length slots = length eligible /\
    Forall (fun s => active (run s) = false) slots.
Proof.
  intros Hb Hok. assert (Ha : Forall accepted eligible) by (eapply Forall_impl; [exact Hok|by intros ? []]).
  destruct (loop_ok be tuning flag _ 10000 Hb 1%nat _ (initial_inv tuning flag eligible Ha)) as (guard & slots & Hl & Hs & H).
  destruct H as [Hg Hend]; [by apply initial_bounded|by apply Nat.ltb_lt|]. subst guard. exists slots. split_and!; [done| |done].
  apply Forall2_length in Hs. by rewrite length_fmap in Hs.
Qed.

Lemma plan_limit_within q burst f : 0 < remaining_decode_tokens f -> decode_limit (PlanFairnessSlice q burst f).1.1 <= remaining_decode_tokens f.
Proof.
  intros HR. unfold PlanFairnessSlice. cbn [fst decode_limit]. rewrite (proj2 (Z.leb_le 0 _)) by lia.
  set (limit := if 0 <? burst then _ else _). assert (limit <= remaining_decode_tokens f).
  { subst limit. destruct (0 <? burst), (0 <? timeslice_tokens f); lia. }
  destruct (Z.leb_spec limit 0); lia.
Qed.

(** What [settle] makes of a run. *)
Lemma settle_fairness s i tuning flag qs r :
  let s' := (settle s (prepare tuning flag i qs) (mkSlot qs.1 (plan_of tuning qs) r)).1 in
  let R := remaining_decode_tokens (fairness qs.2) in let gen := tokens_generated r in
  let yields := slice_active (plan_of tuning qs) && (decode_limit (plan_of tuning qs) <=? gen) && (0 <? if 0 <=? R then Z.max 0 (R - gen) else -1) in
  total_completion_tokens (fairness s') = total_completion_tokens (fairness qs.2) + gen /\
  remaining_decode_tokens (fairness s') = (if 0 <=? R then Z.max 0 (R - gen) else R) /\
  yielded (fairness s') = yields /\ phase s' = (if yields then BatchBuilder.PhPending else BatchBuilder.PhFinished) /\
  first_token s' = (if yields then current_token r else -1) /\ n_past s' = pos r /\ prefill_offset s' = offset r.
Proof.
  destruct qs as [q st]. unfold settle, prepare, plan_of. cbn [fst snd].
  destruct (PlanFairnessSlice q (decode_burst_tokens tuning) (fairness st)) as [[p prompt] f] eqn:E.
  assert (Ef : remaining_decode_tokens f = remaining_decode_tokens (fairness st) /\ total_completion_tokens f = total_completion_tokens (fairness st))
    by (unfold PlanFairnessSlice in E; by simplify_eq).
  destruct Ef as [Er Et]. cbn [fst]. unfold mark_first_token, FinalizeFairnessSlice.
  cbn [fst fairness phase first_token n_past prefill_offset total_completion_tokens remaining_decode_tokens yielded run]. rewrite Er, Et. split_and!; try done. by destruct (0 <=? _).
Qed.

Lemma end_pos_nonneg q s l : accepted (q, s) -> 0 <= end_pos (start_base s) l.
Proof.
  intros [[Ho _] Hv]. unfold end_pos, start_base, seeded. unfold HasValidUnifiedPhasedState in Hv. cbn [fst snd] in *.
  revert Hv. destruct (Z.ltb_spec (n_past s) 0); [done|intros _]. destruct (_ && _); lia.
Qed.


(** ** The size of a step *)

Definition step_inputs (be : Backend) (tuning : UnifiedBatchTuning) (flag : nat -> nat -> nat -> bool) (k : nat) (slots : list Slot) : list UnifiedBatchInput :=
  omap snd (imap (build_slot flag k (chunk_cap be tuning flag k slots)) slots).

Definition total_tokens (inputs : list UnifiedBatchInput) : Z := foldr (fun i n => Z.of_nat (length (in_tokens i)) + n) 0 inputs.

Lemma total_tokens_cons i inputs : total_tokens (i :: inputs) = Z.of_nat (length (in_tokens i)) + total_tokens inputs.
Proof. done. Qed.

Lemma count_cons p s slots : count p (s :: slots) = (if p 0%nat s then 1 else 0) + count (fun i => p (S i)) slots.
Proof. unfold count. rewrite imap_cons, filter_cons. change (imap (p ∘ S) slots) with (imap (fun i => p (S i)) slots). case_decide as H; destruct (p 0%nat s); simplify_eq; simpl; lia. Qed.

Lemma build_tokens q p cap c r i : (build q p cap c r).2 = Some i -> 0 < cap ->
  active r = true /\ c = false /\
  if in_prefill r then Z.of_nat (length (in_tokens i)) <= cap else tokens_generated r < decode_limit p /\ length (in_tokens i) = 1%nat.
Proof.
  unfold build. destruct (active r); [|done]. cbn [negb]. destruct c; [done|]. destruct (in_prefill r).
  - destruct (Z.leb_spec (Z.min (size q - offset r) cap) 0); [done|]. intros [= <-] Hc. cbn [in_tokens MakeUnifiedBatchInput]. split_and!; [done|done|]. rewrite length_take. lia.
  - destruct (Z.ltb_spec (tokens_generated r) (decode_limit p)); [|done]. by intros [= <-] _.
Qed.

(** The inputs are from requests that were counted: a flag that is set stays set. *)
Lemma step_counts flag k cap slots : 0 < cap -> (forall i, flag k i 0%nat = true -> flag k i 1%nat = true) ->
  let inputs := omap snd (imap (build_slot flag k cap) slots) in
  exists P D, 0 <= P <= count (counts_prefill flag k) slots /\ 0 <= D <= count (counts_decode flag k) slots /\
    Z.of_nat (length inputs) = P + D /\ total_tokens inputs <= D + cap * P.
Proof.
  intros Hc. revert flag. induction slots as [|s slots IH]; intros flag Hm; [exists 0, 0; split_and!; try done; rewrite Z.mul_0_r; done|].
  destruct (IH (fun k i => flag k (S i)) (fun i => Hm (S i))) as (P & D & HP & HD & Hl & Ht). rewrite !count_cons, imap_cons.
  change (imap (build_slot flag k cap ∘ S) slots) with (imap (build_slot (fun k i => flag k (S i)) k cap) slots).
  change (count (fun i => counts_prefill flag k (S i)) slots) with (count (counts_prefill (fun k i => flag k (S i)) k) slots).
  change (count (fun i => counts_decode flag k (S i)) slots) with (count (counts_decode (fun k i => flag k (S i)) k) slots).
  set (inputs := omap snd (imap (build_slot _ k cap) slots)) in *. cbv zeta.
  assert (Eb : (build_slot flag k cap 0%nat s).2 = (build (req s) (plan s) cap (flag k 0%nat 1%nat) (run s)).2)
    by (unfold build_slot; by destruct (build _ _ _ _ _)).
  destruct (build_slot flag k cap 0%nat s) as [s1 [i|]]; cbn [omap list_omap snd] in Eb |- *; fold inputs.
  - destruct (build_tokens _ _ _ _ _ _ (eq_sym Eb) Hc) as (Ha & Hf & Hi').
    assert (Hf0 : flag k 0%nat 0%nat = false) by (destruct (flag k 0%nat 0%nat) eqn:E; [by rewrite (Hm 0%nat E) in Hf|done]).
    unfold counts_prefill at 1, counts_decode at 1. rewrite Ha, Hf0. cbn [negb andb]. destruct (in_prefill (run s)); cbn [andb negb].
    + exists (P + 1), D. rewrite total_tokens_cons, length_cons. lia.
    + destruct Hi' as [Hlt H1]. rewrite (proj2 (Z.ltb_lt _ _) Hlt). exists P, (D + 1). rewrite total_tokens_cons, length_cons. lia.
  - exists P, D. split_and!; [destruct (counts_prefill flag k 0%nat s); lia..|destruct (counts_decode flag k 0%nat s); lia|destruct (counts_decode flag k 0%nat s); lia|done|done].
Qed.

(** A step fits the backend.  The tokens of all inputs of a step together are no more
    than the backend takes at once, unless the batch has more requests than that;
    then every request contributes one. *)
Theorem step_within_capacity be tuning flag k slots :
  (forall i, flag k i 0%nat = true -> flag k i 1%nat = true) ->
  let inputs := step_inputs be tuning flag k slots in
  total_tokens inputs <= Z.max (Z.max 1 (capacity be k)) (Z.of_nat (length inputs)).
Proof.
  intros Hm. cbv zeta. unfold step_inputs. set (C := Z.max 1 (capacity be k)).
  pose proof (chunk_cap_pos be tuning flag k slots) as Hcap.
  destruct (step_counts flag k (chunk_cap be tuning flag k slots) slots) as (P & D & HP & HD & -> & Ht); [lia|done|].
  etransitivity; [exact Ht|]. clear Ht. unfold chunk_cap, ComputePrefillChunkCap in *. fold C in Hcap |- *.
  set (Dn := count (counts_decode flag k) slots) in *. set (Pn := count (counts_prefill flag k) slots) in *.
  set (bounded_chunk := Z.max 1 (Z.min (chunked_prefill_tokens tuning) C)) in *. set (scaled := Z.max 1 (d_trunc _)) in *.
  assert (HC : bounded_chunk <= C) by lia. destruct (Z.leb_spec Pn 0); [assert (P = 0) as -> by lia; lia|].
  set (budget := Z.max 1 (Z.min bounded_chunk scaled - Dn)) in *. pose proof (Z.mul_div_le budget Pn ltac:(lia)) as Hdiv.
  destruct (Z.le_gt_cases (budget / Pn) 1) as [H1|H1].
  - replace (Z.max 1 (Z.min bounded_chunk (budget / Pn))) with 1 by lia. lia.
  - assert (Hb : budget = Z.min bounded_chunk scaled - Dn) by nia. nia.
Qed.

(** ** Lanes *)

Lemma scatter_lookup (g : nat -> UnifiedBatchOutput) ps (outs : list UnifiedBatchOutput) (j : nat) :
  foldl (fun outputs jo => <[jo.1 := jo.2]> outputs) outs (zip ps (g <$> ps)) !! j =
  if bool_decide (j ∈ ps) then (fun _ => g j) <$> outs !! j else outs !! j.
Proof.
  revert outs. induction ps as [|p ps IH]; intros outs; [done|]. cbn [fmap list_fmap zip zip_with foldl fst snd]. rewrite IH.
  destruct (decide (j = p)) as [->|Hne].
  - rewrite (bool_decide_eq_true_2 (p ∈ p :: ps)) by set_solver. destruct (outs !! p) as [o|] eqn:E.
    + rewrite list_lookup_insert_eq by (by eapply lookup_lt_Some). by case_bool_decide.
    + rewrite list_insert_ge by (by apply lookup_ge_None). rewrite E. by case_bool_decide.
  - rewrite list_lookup_insert_ne by done. by rewrite (bool_decide_ext (j ∈ p :: ps) (j ∈ ps)) by set_solver.
Qed.

Lemma positions_spec b flags j : j ∈ positions b flags <-> flags !! j = Some b.
Proof.
  unfold positions. rewrite list_elem_of_filter, elem_of_seq. split; [by intros []|]. intros H. split; [done|].
  apply lookup_lt_Some in H. lia.
Qed.

Lemma lane_inputs inputs ps (f : UnifiedBatchInput -> UnifiedBatchOutput) :
  Forall (fun j => (j < length inputs)%nat) ps ->
  f <$> lane_of inputs ps = (fun j => default no_output (f <$> inputs !! j)) <$> ps.
Proof.
  induction 1 as [|j ps Hj _ IH]; [done|]. unfold lane_of in *. cbn [omap list_omap fmap list_fmap]. apply lookup_lt_is_Some in Hj as [i Hi]. rewrite Hi.
  cbn [fmap list_fmap default]. f_equal. apply IH.
Qed.

(** Separate lanes change nothing.  When a backend accepts every lane and answers it
    input by input, running decodes and prefills in separate lanes gives the outputs
    that the batch would give as a whole, every one in the place of its
    input. *)
Theorem lanes_preserve_outputs be k inputs flags (f : UnifiedBatchInput -> UnifiedBatchOutput) :
  length flags = length inputs ->
  (forall lane ins, ins <> [] -> submit be k lane ins <> 0 /\ wait be k (submit be k lane ins) = Some (f <$> ins)) ->
  RunAsyncUnifiedLanes be k inputs flags = (true, f <$> inputs).
Proof.
  intros Hlen Hbe. unfold RunAsyncUnifiedLanes.
  set (g := fun j => default no_output (f <$> inputs !! j)).
  assert (Hin : forall b, Forall (fun j => (j < length inputs)%nat) (positions b flags)).
  { intros b. apply Forall_forall. intros j Hj%positions_spec%lookup_lt_Some. lia. }
  assert (Hcollect : forall b ln ok outs, collect_lane be k (if bool_decide (lane_of inputs (positions b flags) = []) then 0 else submit be k ln (lane_of inputs (positions b flags)))
      (positions b flags) (ok, outs) = (ok, foldl (fun outputs jo => <[jo.1 := jo.2]> outputs) outs (zip (positions b flags) (g <$> positions b flags)))).
  { intros b ln ok outs. pose proof (lane_inputs inputs _ f (Hin b)) as Hl. fold g in Hl. unfold collect_lane. case_bool_decide as He.
    - rewrite He in Hl. cbn in Hl. apply eq_sym, fmap_nil_inv in Hl. by rewrite Hl.
    - destruct (Hbe ln _ He) as [Hn Hw]. rewrite (proj2 (Z.eqb_neq _ _) Hn), Hw, Hl, length_fmap, bool_decide_eq_true_2 by done. done. }
  assert (Hd : bool_decide (lane_of inputs (positions false flags) = []) || negb ((if bool_decide (lane_of inputs (positions false flags) = []) then 0 else submit be k kDecode (lane_of inputs (positions false flags))) =? 0) = true).
  { case_bool_decide as He; [done|]. destruct (Hbe kDecode _ He) as [Hn _]. by rewrite (proj2 (Z.eqb_neq _ _) Hn). }
  cbv zeta. rewrite Hd. cbn [andb]. rewrite Hcollect.
  assert (Hp : (if negb (bool_decide (lane_of inputs (positions true flags) = [])) then submit be k kPrefill (lane_of inputs (positions true flags)) else 0) =
               (if bool_decide (lane_of inputs (positions true flags) = []) then 0 else submit be k kPrefill (lane_of inputs (positions true flags)))) by (by destruct (bool_decide (lane_of inputs (positions true flags) = []))).
  rewrite Hp, Hcollect. f_equal.
  - case_bool_decide as He; [done|]. cbn [negb orb]. destruct (Hbe kPrefill _ He) as [Hn _]. by rewrite (proj2 (Z.eqb_neq _ _) Hn).
  - clear Hcollect Hd Hp. apply list_eq. intros j. rewrite !scatter_lookup, list_lookup_fmap. destruct (inputs !! j) as [i|] eqn:Ei.
    + assert (Hj : (j < length inputs)%nat) by (by eapply lookup_lt_Some). rewrite lookup_replicate_2 by done.
      assert (Hg : g j = f i) by (unfold g; by rewrite Ei). destruct (lookup_lt_is_Some_2 flags j) as [b Hb]; [lia|].
      destruct b; [rewrite (bool_decide_eq_true_2 (j ∈ positions true flags)) by (by apply positions_spec)|
        rewrite (bool_decide_eq_false_2 (j ∈ positions true flags)) by (rewrite positions_spec, Hb; congruence);
        rewrite (bool_decide_eq_true_2 (j ∈ positions false flags)) by (by apply positions_spec)]; cbn; [|by rewrite Hg].
      case_bool_decide; cbn; by rewrite Hg.
    + rewrite (lookup_ge_None_2 (replicate _ _)) by (rewrite length_replicate; by apply lookup_ge_None). by repeat case_bool_decide.
Qed.

(** ** Witnesses and examples *)

Module Demo.
Definition tuning : UnifiedBatchTuning := NormalizeUnifiedBatchTuning (mkTuning 0 2 (d_of_Z 1)).
Definition never (k i site : nat) : bool := false.
(** Answers every input with the same token. *)
Definition answer (piece : string) (i : UnifiedBatchInput) : UnifiedBatchOutput := mkOutput 7 (bytes_of piece) true None.
Definition backend (piece : string) : Backend :=
  mkBackend (fun _ => 8) false (fun _ ins => answer piece <$> ins) (fun _ _ ins => Z.of_nat (length ins)) (fun _ h => Some (replicate (Z.to_nat h) (answer piece (mkInput 0 0 [] true 0)))).
Definition request (max_tokens : Z) (stop : list bytes) : Request := mkRequest (bytes_of "m") [] 3 [11; 12; 13] [11; 12; 13] max_tokens stop true false 0 0.
Definition fresh (timeslice remaining : Z) : RequestState :=
  mkState 0 0 (-1) [] None [] (mkText [] [] [] false) [] BatchBuilder.PhPrefill (mkFairness 0 0 timeslice remaining 3 0 0 false) 0 false.

Lemma backend_is_sized piece : backend_sized (backend piece).
Proof. intros k ins. right. cbn. by rewrite length_fmap. Qed.

Lemma fresh_accepted m stop t r : accepted (request m stop, fresh t r).
Proof. by split; [split|]. Qed.
End Demo.


Example phased_execution_example :
  option_map (fun l => (fun x => (x.2, n_past x.1, emitted (text x.1))) <$> l)
    (ExecuteUnifiedBatchPhased (Demo.backend "ab") Demo.tuning Demo.never [(Demo.request 2 [], Demo.fresh 0 (-1))])
  = Some [((bytes_of "abab", 2, 3), 4, [(bytes_of "ab", None); (bytes_of "ab", None)])].
Proof. by vm_compute. Qed.

Lemma phased_batch_completes_witness :
  exists slots, loop (Demo.backend "ab") Demo.tuning Demo.never 10000 1 (initial Demo.tuning Demo.never [(Demo.request 2 [], Demo.fresh 0 (-1))]) = Some (false, slots) /\
    length slots = 1%nat /\ Forall (fun s => active (run s) = false) slots.
Proof.
  apply phased_batch_completes; [apply Demo.backend_is_sized|]. constructor; [|constructor]. split; [apply Demo.fresh_accepted|]. by vm_compute.
Defined.


Lemma step_within_capacity_witness :
  let slots := initial Demo.tuning Demo.never [(Demo.request 2 [], Demo.fresh 0 (-1)); (Demo.request 2 [], Demo.fresh 0 (-1))] in
  let inputs := step_inputs (Demo.backend "ab") Demo.tuning Demo.never 1 slots in
  total_tokens inputs = 2 /\ total_tokens inputs <= Z.max (Z.max 1 8) (Z.of_nat (length inputs)).
Proof. intros slots inputs. split; [by vm_compute|]. apply (step_within_capacity (Demo.backend "ab") Demo.tuning Demo.never 1 slots). done. Defined.

Lemma lanes_preserve_outputs_witness :
  let inputs := [mkInput 1 0 [5; 6] true 0; mkInput 2 9 [7] true 0; mkInput 3 0 [8] true 0] in
  RunAsyncUnifiedLanes (Demo.backend "ab") 1 inputs [true; false; true] = (true, Demo.answer "ab" <$> inputs).
Proof.
  intros inputs. apply lanes_preserve_outputs; [done|]. intros lane ins Hne. cbn. destruct ins as [|i ins]; [done|]. split; [done|]. f_equal.
  rewrite Nat2Z.id. apply list_eq. intros j. rewrite list_lookup_fmap. destruct (decide (j < length (i :: ins))%nat) as [Hj|Hj].
  - rewrite lookup_replicate_2 by done. destruct (lookup_lt_is_Some_2 (i :: ins) j Hj) as [x ->]. done.
  - rewrite !lookup_ge_None_2; [done|lia|rewrite length_replicate; lia].
Defined.

(** A stop string that ends with the last token of a slice does not end the request: it
    yields, and the next slice goes on behind the stop string. *)
Example stop_at_slice_end_ignored :
  match ExecuteUnifiedBatchPhased (Demo.backend "END") Demo.tuning Demo.never [(Demo.request 10 [bytes_of "END"], Demo.fresh 1 10)] with
  | Some [(s', (completion, generated, _))] =>
      completion = [] /\ yielded (fairness s') = true /\ phase s' = BatchBuilder.PhPending /\ remaining_decode_tokens (fairness s') = 9
  | _ => False
  end.
Proof. by vm_compute. Qed.

(** A request for more than 10000 tokens is cut off by the guard of the loop, and finished as
    if it were complete. *)
Example guard_cuts_generation :
  match ExecuteUnifiedBatchPhased (Demo.backend "a") (mkTuning 0 2048 (d_of_Z 1)) Demo.never [(Demo.request 20000 [], Demo.fresh 0 (-1))] with
  | Some [(s', (_, generated, _))] => generated = 10000 /\ phase s' = BatchBuilder.PhFinished
  | _ => False
  end.
Proof. by vm_compute. Qed.
