(* ===== verification/StepExecutor.v ===== *)
(** * Stepwise execution

    [ExecuteUnifiedBatchStep] of runtime/execution/batch_executor.cpp takes every request
    of a batch one step further; scheduler/scheduler.cpp prepares the requests, decides
    after each step which go on, and makes the results.  The requests and runs are
    those of Executor.v; backend, flags and bursts answer by the number of the step. *)

From stdpp Require Import base tactics numbers list strings sets.
From Stdlib Require Import Ascii.
From S2P Require Import Prelude StringUtils Float64 GeneratedText Executor.
From S2P Require BatchBuilder.

Abbreviation RequestPhase := BatchBuilder.RequestPhase.

#[local] Existing Instance BatchBuilder.RequestPhase_eq_dec.
Local Open Scope Z_scope.

(** ** Steps of a request *)

Definition reached_limit (plan : FairnessSlicePlan) (r : Run) : bool := decode_limit plan <=? tokens_generated r.

(** The check of the limit after a token. *)
Definition limited (plan : FairnessSlicePlan) (r : Run) : Run := if reached_limit plan r then stopped r else r.

Section OneRequest.
Context (q : Request) (plan : FairnessSlicePlan).

(** The output of a step. *)
Definition step_process (cancelled : bool) (input : UnifiedBatchInput) (res : UnifiedBatchOutput) (r : Run) : Run :=
  let r := feed input r in
  let failed := negb (out_ok res) || (out_token res <? 0) in
  if in_prefill r then
    let chunk_processed := Z.of_nat (length (in_tokens input)) in
    if negb (out_ok res) && (offset r + chunk_processed <? size q) then no_prefill (stopped r)
    else
      let offset' := offset r + chunk_processed in
      if size q <=? offset' then
        let r := no_prefill (move (pos r) offset' (prefilled r || out_ok res) r) in
        if failed then stopped r
        else limited plan (accept q plan (out_token res) (out_piece res) (out_logprob res) false true (move offset' offset' (prefilled r) r))
      else move (pos r) offset' (prefilled r) r
  else
    let r := move (pos r + 1) (offset r) (prefilled r) r in
    if failed then stopped r
    else limited plan (accept q plan (out_token res) (out_piece res) (out_logprob res) cancelled true r).

Record BurstDecodeOutput := mkBurst { b_token : Z; b_piece : bytes; b_terminal : bool }.

Definition set_current (token : Z) (r : Run) : Run :=
  mkRun (active r) (tokens_generated r) (non_emitting_steps r) token (in_prefill r) (pos r) (offset r) (lps r) (prefilled r) (out r) (fed r) (sampled r).

(** The tokens of a burst: the backend fed each to itself. *)
Fixpoint burst_tokens (cancelled : nat -> bool) (outs : list BurstDecodeOutput) (r : Run) : Run :=
  match outs with
  | [] => r
  | o :: outs' =>
      let r := feed (MakeUnifiedBatchInput q (pos r) [current_token r] true) r in
      let r := move (pos r + 1) (offset r) (prefilled r) r in
      if b_terminal o || (b_token o <? 0) then stopped (set_current (b_token o) r)
      else
        let r := limited plan (accept q plan (b_token o) (b_piece o) None (cancelled (length outs')) true r) in
        if active r then burst_tokens cancelled outs' r else r
  end.
End OneRequest.

(** ** A step of the batch *)

Record StepSlot := mkStep { slot : Slot; phase_of : RequestPhase }.
Definition step_run (s : StepSlot) : Run := run (slot s).

Definition runs (s : StepSlot) : bool :=
  active (step_run s) && negb (bool_decide (phase_of s = BatchBuilder.PhFinished)) && negb (bool_decide (phase_of s = BatchBuilder.PhAborted)).

Section Step.
(** [try_burst]: [TryGreedyBurstDecodeTokens]; [None] when the backend refuses. *)
Context (be : Backend) (tuning : UnifiedBatchTuning) (flag : nat -> nat -> nat -> bool).
Context (try_burst : nat -> Request -> Run -> option (list BurstDecodeOutput)).

Definition step_counts_prefill (k i : nat) (s : StepSlot) : bool := runs s && negb (flag k i 0%nat) && in_prefill (step_run s).
Definition step_counts_decode (k i : nat) (s : StepSlot) : bool :=
  runs s && negb (flag k i 0%nat) && negb (in_prefill (step_run s)) && (tokens_generated (step_run s) <? decode_limit (plan (slot s))).

Definition step_count (p : nat -> StepSlot -> bool) (slots : list StepSlot) : Z := Z.of_nat (length (filter (fun b => b = true) (imap p slots))).

Definition step_cap (k : nat) (slots : list StepSlot) : Z :=
  ComputePrefillChunkCap (Z.max 1 (capacity be k)) (step_count (step_counts_decode k) slots) (step_count (step_counts_prefill k) slots) tuning.

(** As in the phased executor; a request that is cancelled is aborted, one at its limit is
    finished. *)
Definition step_build (k : nat) (cap : Z) (i : nat) (s : StepSlot) : StepSlot * option UnifiedBatchInput :=
  if negb (runs s) then (s, None)
  else
    let sl := slot s in
    let '(r, input) := build (req sl) (plan sl) cap (flag k i 1%nat) (run sl) in
    let ph := if flag k i 1%nat then BatchBuilder.PhAborted
              else match input with
                   | Some _ => phase_of s
                   | None => if in_prefill (run sl) then phase_of s else BatchBuilder.PhFinished
                   end in
    (mkStep (mkSlot (req sl) (plan sl) r) ph, input).

Fixpoint step_distribute (k i : nat) (built : list (StepSlot * option UnifiedBatchInput)) (outs : list UnifiedBatchOutput) : option (list StepSlot) :=
  match built with
  | [] => Some []
  | (s, None) :: built' => cons s <$> step_distribute k (S i) built' outs
  | (s, Some input) :: built' =>
      match outs with
      | o :: outs' =>
          let sl := slot s in
          cons (mkStep (on_run (step_process (req sl) (plan sl) (flag k i 2%nat) input o) sl) (phase_of s)) <$> step_distribute k (S i) built' outs'
      | [] => None
      end
  end.

Definition step_fail (built : list (StepSlot * option UnifiedBatchInput)) : list StepSlot :=
  (fun b => match b.2 with Some _ => mkStep (on_run stopped (slot b.1)) (phase_of b.1) | None => b.1 end) <$> built.

(** The request that may run a burst: the first with an input that decodes and collects
    no log-probabilities. *)
Definition may_burst (b : StepSlot * option UnifiedBatchInput) : bool :=
  match b.2 with
  | Some _ => let sl := slot b.1 in
              negb (in_prefill (run sl)) && negb (collect_logprobs (req sl)) && (tokens_generated (run sl) <? decode_limit (plan sl))
  | None => false
  end.

Definition burst_one (k j : nat) (outs : list BurstDecodeOutput) (built : list (StepSlot * option UnifiedBatchInput)) : list StepSlot :=
  imap (fun i b => if bool_decide (i = j)
                   then mkStep (on_run (burst_tokens (req (slot b.1)) (plan (slot b.1)) (fun n => flag k i (3 + n)%nat) outs) (slot b.1)) (phase_of b.1)
                   else b.1) built.

(** A backend that does not pipeline bursts of several requests. *)
Definition ExecuteUnifiedBatchStep (k : nat) (slots : list StepSlot) : option (list StepSlot) :=
  let built := imap (step_build k (step_cap k slots)) slots in
  let inputs := omap snd built in
  if bool_decide (inputs = []) then Some (fst <$> built)
  else
    let burst :=
      if (step_count (step_counts_prefill k) slots =? 0) && (step_count (step_counts_decode k) slots =? 1)
      then match list_find (fun b => may_burst b = true) built with
           | Some (j, b) => match try_burst k (req (slot b.1)) (run (slot b.1)) with Some outs => Some (j, outs) | None => None end
           | None => None
           end
      else None in
    match burst with
    | Some (j, outs) => Some (burst_one k j outs built)
    | None =>
        let is_prefill := omap (fun b => match b.2 with Some _ => Some (in_prefill (step_run b.1)) | None => None end) built in
        match run_step be k inputs is_prefill with
        | None => Some (step_fail built)
        | Some outs => step_distribute k 0 built outs
        end
    end.
End Step.

(** ** Preparing requests and making results *)

Definition initial_plan (q : Request) (f : FairnessState) : FairnessSlicePlan :=
  let prior := Z.max 0 (total_completion_tokens f) in
  let remaining := if remaining_decode_tokens f <? 0 then Z.max 0 (max_tokens q - prior) else remaining_decode_tokens f in
  mkPlan (prior + remaining) (MaxNonEmittingSteps (max_tokens q)) true.

(** The run that [PrimeUnifiedDecodeStepState] starts.  The text continues what was
    accumulated; the scheduler's own [AppendGeneratedPiece] does not record the time of the
    first token.  [sampled] counts from here. *)
Definition Prime (cancelled : bool) (q : Request) (s : RequestState) : Run :=
  let plan := initial_plan q (fairness s) in
  let prior := Z.max 0 (total_completion_tokens (fairness s)) in
  let t := mkText (pending (text s)) (accumulated_output s) [] (stamped (text s)) in
  let start active in_prefill pos t := mkRun active prior 0 (-1) in_prefill pos (prefill_offset s) (logprobs s) false t [] [] in
  if (0 <=? n_past s) && (0 <=? first_token s) then
    let r := limited plan (accept q plan (first_token s) (first_piece s) (if collect_logprobs q then first_logprob s else None) false true (start true false (n_past s) t)) in
    let r := if cancelled then stopped r else r in
    mkRun (active r) (tokens_generated r) (non_emitting_steps r) (current_token r) (in_prefill r) (pos r) (offset r) (lps r) (prefilled r)
      (mkText (pending (out r)) (completion (out r)) (emitted (out r)) (stamped (text s))) (fed r) []
  else if (n_past s =? 0) && bool_decide (bpe_prompt_tokens q <> []) then start true true (n_past s) t
  else if (0 <? n_past s) && bool_decide (bpe_prompt_tokens q <> []) && (0 <? prefill_offset s) && (prefill_offset s <? size q)
  then start true true (prefill_offset s) t
  else start false false (n_past s) (mkText (pending (text s)) (bytes_of "[batch state error]") [] (stamped (text s))).

Definition ShouldContinueUnifiedDecodeStep (plan : FairnessSlicePlan) (r : Run) : bool :=
  active r && (in_prefill r || (tokens_generated r <? decode_limit plan)).

Definition HasValidUnifiedStepState (q : Request) (s : RequestState) (initialized : bool) : bool :=
  if (n_past s <? 0) || (sequence_id q <? 0) then false
  else if 0 <=? first_token s then true
  else if initialized then true
  else if (n_past s =? 0) && bool_decide (bpe_prompt_tokens q <> []) then true
  else (0 <? n_past s) && bool_decide (bpe_prompt_tokens q <> []) && (0 <? prefill_offset s) && (prefill_offset s <? size q).

(** [SyncUnifiedDecodeStepProgress]: accumulated text, tokens so far, tokens left, and the
    token that a later execution starts from. *)
Definition Sync (plan : FairnessSlicePlan) (r : Run) (first_token : Z) : bytes * Z * Z * Z :=
  (completion (out r), tokens_generated r, Z.max 0 (decode_limit plan - tokens_generated r),
   if ShouldContinueUnifiedDecodeStep plan r then current_token r else first_token).

(** [FinalizeUnifiedDecodeStepResult]: completion and tokens of the result. *)
Definition Finalize (q : Request) (r : Run) : bytes * Z :=
  let t := FinishGeneratedText (streaming q) (out r) in
  (if bool_decide (completion t = []) then bytes_of "[backend returned empty response]" else completion t, tokens_generated r).

(** ** Steps and phased execution agree *)

Definition repos (p : Z) (r : Run) : Run := move p (offset r) (prefilled r) r.

(** A step does what an iteration of the phased executor does, but for the position of a
    request that is still in its prompt or has failed, and for the limit, which is
    checked at once. *)
Lemma step_process_cases q plan c i res r :
  let r' := process q plan c i res r in
  step_process q plan c i res r = r' \/ step_process q plan c i res r = limited plan r' \/
  (step_process q plan c i res r = repos (pos r) r' /\ (active r' = true -> in_prefill r' = true) /\ tokens_generated r' = tokens_generated r).
Proof.
  unfold process, step_process. cbv zeta. destruct (in_prefill (feed i r)) eqn:Hp.
  - destruct (negb (out_ok res) && _); [by left|]. destruct (size q <=? _).
    + destruct (negb (out_ok res) || _); [right; right; by split_and!|right; by left].
    + right. right. cbn in *. by split_and!.
  - destruct (negb (out_ok res) || _); [by left|right; by left].
Qed.

Section Preserved.
Context (q : Request) (plan : FairnessSlicePlan) (base : Z) (prefix : list Z) (out0 : Text) (prior : Z).
Local Abbreviation ok := (run_ok q plan base prefix out0 prior).
Local Abbreviation better := (advances q plan base prefix out0 prior).

Lemma repos_ok p r : ok r -> (active r = true -> in_prefill r = true) -> tokens_generated r < decode_limit plan -> ok (repos p r).
Proof.
  intros [H1 H2 H3 H4 H5 H6 H7 H8 H9 H10] Ha Hg. split; try done; cbn; [|lia]. intros Hact Hpre. rewrite (Ha Hact) in Hpre. done.
Qed.

Lemma limited_better r r' : better r r' -> better r (limited plan r').
Proof. intros [Hok Hm]. unfold limited. destruct (reached_limit plan r'); [|done]. split; [by apply stopped_ok|done]. Qed.

Lemma step_process_better cap c c' r r' i res :
  1 <= cap -> prior < decode_limit plan -> ok r -> tokens_generated r < decode_limit plan -> build q plan cap c r = (r', Some i) ->
  better r (step_process q plan c' i res r').
Proof.
  intros Hcap Hlim Hr Hg Hb. pose proof (process_ok _ _ _ _ _ _ _ _ c' _ _ _ res Hcap Hlim Hr Hb) as Hp.
  destruct (build_ok _ _ _ _ _ _ _ _ _ _ _ Hcap Hr Hb) as (-> & _).
  destruct (step_process_cases q plan c' i res r) as [->|[->|(-> & Ha & Hgen)]]; [done|by apply limited_better|].
  destruct Hp as [Hok Hm]. split; [apply repos_ok; [done|done|lia]|done].
Qed.

Lemma burst_better c outs r :
  ok r -> active r = true -> in_prefill r = false -> tokens_generated r < decode_limit plan ->
  ok (burst_tokens q plan c outs r) /\ (outs <> [] -> active (burst_tokens q plan c outs r) = true -> measure q plan (burst_tokens q plan c outs r) < measure q plan r).
Proof.
  revert r. induction outs as [|o outs IH]; intros r Hr Ha Hi Hg; [done|]. cbn [burst_tokens].
  set (i := MakeUnifiedBatchInput q (pos r) [current_token r] true).
  set (r1 := move (pos (feed i r) + 1) (offset (feed i r)) (prefilled (feed i r)) (feed i r)).
  assert (Hd : forall tok piece lp okay, better r (process q plan (c (length outs)) i (mkOutput tok piece okay lp) r)).
  { intros. destruct (ok_decode _ _ _ _ _ _ _ Hr Ha Hi) as (Hp & _). apply process_decode_ok; try done. }
  destruct (b_terminal o || (b_token o <? 0)) eqn:Et.
  - split; [|done]. destruct (Hd (-1) [] None false) as [Hok _]. unfold process in Hok. cbn in Hok. rewrite Hi in Hok.
    destruct Hok as [H1 H2 H3 H4 H5 H6 H7 H8 H9 H10]. split; try done. cbn in *. intros E. lia.
  - apply orb_false_iff in Et as [_ Et]. destruct (Hd (b_token o) (b_piece o) None true) as [Hok Hm].
    assert (Ep : process q plan (c (length outs)) i (mkOutput (b_token o) (b_piece o) true None) r = accept q plan (b_token o) (b_piece o) None (c (length outs)) true r1)
      by (unfold process; cbn [feed in_prefill out_ok out_token out_piece out_logprob negb orb]; by rewrite Hi, Et).
    rewrite Ep in Hok, Hm. set (r2 := accept _ _ _ _ _ _ _ _) in *. fold i. fold r1. fold r2.
    assert (Hb2 : better r (limited plan r2)) by (by apply limited_better). unfold limited in *.
    destruct (reached_limit plan r2) eqn:El; [cbn; split; [apply Hb2|done]|]. destruct (active r2) eqn:Ea2; [|split; [apply Hb2|by rewrite Ea2]].
    apply Z.leb_gt in El. assert (Hi2 : in_prefill r2 = false).
    { subst r2. unfold accept. case_bool_decide; [destruct (AppendGeneratedPiece _ _ _ _ _)|]; cbn; exact Hi. }
    destruct (IH r2 Hok Ea2 Hi2 El) as [IH1 IH2]. split; [done|]. intros _ Hact. destruct outs as [|o' outs]; [by apply Hm|].
    etransitivity; [by apply IH2|by apply Hm].
Qed.
End Preserved.

(** ** The batch *)

Abbreviation Start := (Request * FairnessSlicePlan * Z * list Z * Text * Z)%type.

Record step_inv (pr : Start) (s : StepSlot) : Prop := {
  st_req : req (slot s) = pr.1.1.1.1.1; st_plan : plan (slot s) = pr.1.1.1.1.2; st_prior : pr.2 < decode_limit (plan (slot s));
  st_run : run_ok (req (slot s)) (plan (slot s)) pr.1.1.1.2 pr.1.1.2 pr.1.2 pr.2 (run (slot s));
  st_phase : active (step_run s) = true -> runs s = true }.

Definition continues (s : StepSlot) : bool := ShouldContinueUnifiedDecodeStep (plan (slot s)) (step_run s).
Definition steps_left (s : StepSlot) : Z := measure (req (slot s)) (plan (slot s)) (step_run s).

(** What becomes of a request in a step: it keeps its invariant, and when it goes on it
    went on before and has less to do. *)
Definition stepped (pr : Start) (s s' : StepSlot) : Prop :=
  step_inv pr s' /\ (continues s' = true -> continues s = true /\ steps_left s' < steps_left s).

Definition built_step (pr : Start) (s : StepSlot) (b : StepSlot * option UnifiedBatchInput) : Prop :=
  step_inv pr b.1 /\
  match b.2 with
  | None => continues b.1 = false
  | Some i => slot b.1 = slot s /\ runs s = true /\ runs b.1 = true /\ continues s = true /\ tokens_generated (step_run s) < decode_limit (plan (slot s)) /\
      forall c res, advances (req (slot s)) (plan (slot s)) pr.1.1.1.2 pr.1.1.2 pr.1.2 pr.2 (step_run s) (step_process (req (slot s)) (plan (slot s)) c i res (step_run s))
  end.

Lemma continues_active s : active (step_run s) = false -> continues s = false.
Proof. unfold continues, ShouldContinueUnifiedDecodeStep. by intros ->. Qed.

Lemma runs_phase s s' : phase_of s' = phase_of s -> active (step_run s') = true -> runs s = true -> runs s' = true.
Proof. unfold runs. intros -> ->. destruct (active (step_run s)); done. Qed.

Lemma step_build_ok flag k cap i pr s : 1 <= cap -> step_inv pr s -> built_step pr s (step_build flag k cap i s).
Proof.
  intros Hcap Hinv. pose proof Hinv as [Hq Hpl Hlim Hr Hph]. unfold step_build. destruct (runs s) eqn:Er; cbn [negb].
  2: { split; [exact Hinv|]. cbn. apply continues_active. destruct (active (step_run s)) eqn:Ea; [by specialize (Hph eq_refl)|done]. }
  destruct (build (req (slot s)) (plan (slot s)) cap (flag k i 1%nat) (run (slot s))) as [r input] eqn:E.
  pose proof (build_ok _ _ _ _ _ _ _ _ _ _ _ Hcap Hr E) as H. destruct input as [inp|].
  - destruct H as (-> & Ha & _ & _ & H). pose proof (build_tokens _ _ _ _ _ inp ltac:(by rewrite E) ltac:(lia)) as (_ & Hf & Ht). rewrite Hf.
    assert (Hg : tokens_generated (run (slot s)) < decode_limit (plan (slot s))).
    { destruct (in_prefill (run (slot s))) eqn:Hi; [|apply Ht]. destruct (ok_prefill _ _ _ _ _ _ _ Hr Ha Hi) as (Hs & _).
      destruct (ok_generated _ _ _ _ _ _ _ Hr) as [_ ->]. rewrite Hs. cbn. lia. }
    split; [split; try done; intros _; by apply (runs_phase s)|]. cbn [fst snd].
    assert (Hc : continues s = true) by (unfold continues, ShouldContinueUnifiedDecodeStep; unfold step_run; rewrite Ha; cbn [andb];
      destruct (in_prefill _); [done|by apply Z.ltb_lt]).
    split_and!; [by destruct s as [[] ?]|done|by apply (runs_phase s)|done|done|]. intros c res. by eapply step_process_better.
  - destruct H as [H Ha]. split; [split; try done; cbn; unfold step_run; cbn; congruence|]. cbn. by apply continues_active.
Qed.

Lemma imap_forall3 {A B C} (R : A -> B -> C -> Prop) (F : nat -> B -> C) (prs : list A) (l : list B) (Q : A -> B -> Prop) :
  Forall2 Q prs l -> (forall i a b, Q a b -> R a b (F i b)) -> Forall3 R prs l (imap F l).
Proof.
  intros H. revert F. induction H as [|a b prs l Hab _ IH]; intros F HF; [constructor|]. rewrite imap_cons. constructor; [by apply HF|].
  apply IH. intros i a' b'. apply (HF (S i)).
Qed.

Lemma step_distribute_ok flag prs slots built : Forall3 built_step prs slots built ->
  forall k i outs, length outs = length (omap snd built) ->
  exists slots', step_distribute flag k i built outs = Some slots' /\ Forall3 stepped prs slots slots'.
Proof.
  induction 1 as [|pr s [s1 input] prs slots built Hb _ IH]; intros k i outs Hl; [exists []; split; [done|constructor]|].
  destruct input as [inp|]; cbn [omap list_omap snd step_distribute] in *.
  - destruct outs as [|o outs]; [done|]. destruct (IH k (S i) outs) as (slots' & -> & H); [simpl in Hl; lia|].
    destruct Hb as [[Hq Hpl Hlim _ _] (Es & Hrs & Hr1 & Hc & _ & Hadv)]. cbn [fst snd] in *. eexists. split; [done|]. constructor; [|done].
    rewrite Es in *. destruct (Hadv (flag k i 2%nat) o) as [Hr Hm]. split; [split; try done|].
    + intros Ha. by eapply (runs_phase s1).
    + intros Hc'. split; [done|]. unfold steps_left, step_run in *. cbn in *. apply Hm.
      unfold continues, ShouldContinueUnifiedDecodeStep in Hc'. by apply andb_true_iff in Hc' as [? _].
  - destruct (IH k (S i) outs Hl) as (slots' & -> & H). destruct Hb as [Hs Ha]. eexists. split; [done|]. constructor; [|done].
    split; [done|]. cbn in *. congruence.
Qed.

Lemma step_fail_ok prs slots built : Forall3 built_step prs slots built -> Forall3 stepped prs slots (step_fail built).
Proof.
  induction 1 as [|pr s [s1 [i|]] prs slots built [Hs H] _ IH]; [constructor| |]; constructor; try done; cbn in *.
  - destruct Hs as [Hq Hpl Hlim Hr Hph]. split; [split; try done; by apply stopped_ok|]. by rewrite continues_active.
  - split; [done|]. cbn. congruence.
Qed.

Lemma no_inputs_step prs slots built : Forall3 built_step prs slots built -> omap snd built = [] -> Forall3 stepped prs slots (fst <$> built).
Proof.
  induction 1 as [|pr s [s1 [i|]] prs slots built [Hs H] _ IH]; intros E; [constructor|done|]. cbn. constructor; [|by apply IH].
  split; [done|]. cbn in *. congruence.
Qed.

Lemma none_counted (l : list bool) i : length (filter (fun b => b = true) l) = 0%nat -> l !! i <> Some true.
Proof.
  revert i. induction l as [|b l IH]; intros i; [done|]. rewrite filter_cons. case_decide as Hb; [done|]. intros H. destruct i; [cbn; congruence|by apply IH].
Qed.

Lemma one_counted (l : list bool) i j :
  length (filter (fun b => b = true) l) = 1%nat -> l !! i = Some true -> l !! j = Some true -> i = j.
Proof.
  revert i j. induction l as [|b l IH]; intros i j; [done|]. rewrite filter_cons. case_decide as Hb.
  - intros [= H]. pose proof (fun i => none_counted l i H) as Hn. destruct i, j; cbn; intros Hi Hj; [done|by destruct (Hn j)|by destruct (Hn i)|by destruct (Hn i)].
  - intros H. destruct i, j; cbn; intros Hi Hj; try congruence. f_equal. by apply IH.
Qed.

(** A request with an input was counted. *)
Lemma built_counted flag k cap slots i b inp :
  0 < cap -> (forall i, flag k i 0%nat = true -> flag k i 1%nat = true) ->
  imap (step_build flag k cap) slots !! i = Some (b, Some inp) ->
  imap (step_counts_decode flag k) slots !! i = Some true \/ imap (step_counts_prefill flag k) slots !! i = Some true.
Proof.
  intros Hc Hm. rewrite !list_lookup_imap. destruct (slots !! i) as [s|]; [|done]. cbn [fmap option_fmap option_map]. intros [= H].
  unfold step_build in H. destruct (runs s) eqn:Er; [|done]. cbn [negb] in H.
  destruct (build (req (slot s)) (plan (slot s)) cap (flag k i 1%nat) (run (slot s))) as [r o] eqn:E. simplify_eq.
  pose proof (build_tokens _ _ _ _ _ inp ltac:(by rewrite E) Hc) as (_ & Hf & Ht).
  assert (Hf0 : flag k i 0%nat = false) by (destruct (flag k i 0%nat) eqn:E0; [by rewrite (Hm i E0) in Hf|done]).
  unfold step_counts_decode, step_counts_prefill, step_run. rewrite Er, Hf0. cbn [negb andb]. destruct (in_prefill (run (slot s))); [by right|left].
  cbn [negb andb]. f_equal. apply Z.ltb_lt, Ht.
Qed.

Lemma Forall3_imap {A B C D} (R : A -> B -> C -> Prop) (R' : A -> B -> D -> Prop) (F : nat -> C -> D) l k k' :
  Forall3 R l k k' -> (forall i a b c, k' !! i = Some c -> R a b c -> R' a b (F i c)) -> Forall3 R' l k (imap F k').
Proof.
  intros H. revert F. induction H as [|a b c l k k' Hab _ IH]; intros F HF; [constructor|]. rewrite imap_cons. constructor; [by apply HF|].
  apply IH. intros i a' b' c' Hi. by apply (HF (S i)).
Qed.

Lemma burst_one_ok flag k j outs prs slots built b :
  Forall3 built_step prs slots built -> built !! j = Some b -> may_burst b = true -> outs <> [] ->
  (forall i b' inp, built !! i = Some (b', Some inp) -> i = j) -> Forall3 stepped prs slots (burst_one flag k j outs built).
Proof.
  intros Hb Hj Hm Hne Huniq. eapply Forall3_imap; [exact Hb|]. intros i pr s [s1 input] Hi [Hinv H]. cbn [fst snd] in *. case_bool_decide as Ei.
  - subst i. rewrite Hj in Hi. simplify_eq. unfold may_burst in Hm. cbn [fst snd] in Hm. destruct input as [inp|]; [|done].
    apply andb_true_iff in Hm as [[Hm1 _]%andb_true_iff _]. apply negb_true_iff in Hm1. destruct H as (Es & Hrs & Hr1 & Hc & Hg & _).
    destruct Hinv as [Hq Hpl Hlim Hr Hph]. rewrite Es in *.
    assert (Ha : active (run (slot s)) = true) by (unfold runs, step_run in Hrs; by destruct (active (run (slot s)))).
    destruct (burst_better _ _ _ _ _ _ (fun n => flag k j (3 + n)%nat) outs _ Hr Ha Hm1 Hg) as [Hok Hme].
    split; [split; try done; intros Ha'; by apply (runs_phase s1)|]. intros Hc'. split; [done|]. apply Hme; [done|].
    unfold continues, ShouldContinueUnifiedDecodeStep in Hc'. by apply andb_true_iff in Hc' as [? _].
  - destruct input as [inp|]; [by destruct (Ei (Huniq _ _ _ Hi))|]. split; [done|]. congruence.
Qed.

Lemma step_cap_pos be tuning flag k slots : 1 <= step_cap be tuning flag k slots.
Proof. unfold step_cap, ComputePrefillChunkCap. destruct (_ <=? 0); lia. Qed.

Lemma step_ok be tuning flag try_burst k prs slots :
  backend_sized be -> (forall i, flag k i 0%nat = true -> flag k i 1%nat = true) -> (forall q r, try_burst k q r <> Some []) ->
  Forall2 step_inv prs slots -> exists slots', ExecuteUnifiedBatchStep be tuning flag try_burst k slots = Some slots' /\ Forall3 stepped prs slots slots'.
Proof.
  intros Hbe Hmono Hburst Hs. unfold ExecuteUnifiedBatchStep. set (F := step_build flag k (step_cap be tuning flag k slots)).
  pose proof (step_cap_pos be tuning flag k slots) as Hcap.
  assert (Hb : Forall3 built_step prs slots (imap F slots)) by (eapply imap_forall3; [exact Hs|]; intros; by apply step_build_ok).
  case_bool_decide as Ei; [eexists; split; [done|by apply no_inputs_step]|].
  destruct ((step_count (step_counts_prefill flag k) slots =? 0) && (step_count (step_counts_decode flag k) slots =? 1)) eqn:Ec.
  - destruct (list_find (fun b => may_burst b = true) (imap F slots)) as [[j b]|] eqn:Ef.
    1: destruct (try_burst k (req (slot b.1)) (run (slot b.1))) as [outs|] eqn:Et.
    1: { eexists. split; [done|]. apply list_find_Some in Ef as (Hj & Hmb & _). eapply burst_one_ok; [done|done|done|by intros ->; by destruct (Hburst _ _ Et)|].
      intros i b' inp Hi. destruct b as [b1 [binp|]]; [|done]. apply andb_true_iff in Ec as [Ep%Z.eqb_eq Ed%Z.eqb_eq]. unfold step_count in Ep, Ed.
      assert (Hno : forall n, imap (step_counts_prefill flag k) slots !! n <> Some true) by (intros n; apply none_counted; lia).
      destruct (built_counted flag k (step_cap be tuning flag k slots) slots i b' inp ltac:(lia) Hmono Hi) as [Hdi|Hdi]; [|by destruct (Hno i)].
      destruct (built_counted flag k (step_cap be tuning flag k slots) slots j b1 binp ltac:(lia) Hmono Hj) as [Hdj|Hdj]; [|by destruct (Hno j)].
      eapply one_counted; [|done|done]. lia. }
    all: destruct (run_step _ _ _ _) as [outs'|] eqn:Er; [apply run_step_length in Er; [|done]; by apply step_distribute_ok|eexists; split; [done|by apply step_fail_ok]].
  - destruct (run_step _ _ _ _) as [outs'|] eqn:Er; [apply run_step_length in Er; [|done]; by apply step_distribute_ok|eexists; split; [done|by apply step_fail_ok]].
Qed.

(** The direct loop of the decode worker: step after step.  A request that does not go on is
    not touched again. *)
Fixpoint run_steps (be : Backend) (tuning : UnifiedBatchTuning) (flag : nat -> nat -> nat -> bool)
    (try_burst : nat -> Request -> Run -> option (list BurstDecodeOutput)) (n k : nat) (slots : list StepSlot) : option (list StepSlot) :=
  match n with
  | 0%nat => Some slots
  | S n => slots' ← ExecuteUnifiedBatchStep be tuning flag try_burst k slots; run_steps be tuning flag try_burst n (S k) slots'
  end.

Lemma stepped_inv prs slots slots' : Forall3 stepped prs slots slots' -> Forall2 step_inv prs slots'.
Proof. induction 1 as [|? ? ? ? ? ? []]; by constructor. Qed.

Lemma stepped_bound n prs slots slots' : Forall3 stepped prs slots slots' ->
  Forall (fun s => continues s = true -> steps_left s < n) slots -> Forall (fun s => continues s = true -> steps_left s < n - 1) slots'.
Proof.
  induction 1 as [|pr s s' prs slots slots' [_ Hs] _ IH]; intros Hn; [constructor|]. apply Forall_cons in Hn as [H1 Hn]. constructor; [|by apply IH].
  intros Hc. destruct (Hs Hc) as [Hc' Hlt]. specialize (H1 Hc'). lia.
Qed.

Lemma continues_left pr s : step_inv pr s -> continues s = true -> 0 < steps_left s.
Proof.
  intros [_ _ Hlim Hr _] [Ha Hc]%andb_true_iff. unfold steps_left, measure, step_run in *.
  destruct (ok_generated _ _ _ _ _ _ _ Hr) as [Hg _]. destruct (ok_non_emitting _ _ _ _ _ _ _ Hr) as [_ Hn]. specialize (Hn Ha).
  destruct (in_prefill (run (slot s))) eqn:Hi; [destruct (ok_prefill _ _ _ _ _ _ _ Hr Ha Hi) as (_ & ? & _); lia|].
  cbn [orb] in Hc. apply Z.ltb_lt in Hc. lia.
Qed.

(** C14: stepwise execution is sound and ends.  For every backend that answers each input or
    none, whatever it answers, with single bursts or without, and whenever requests are
    cancelled: every step succeeds and keeps the invariants of every
    request (the backend is fed the rest of its prompt and then its samples, without gap
    or overlap; at most its limit is generated; the text is that of the samples,
    cut at a stop string), and after as many steps as any request has left, no
    request goes on. *)
Theorem stepwise_execution_ends be tuning flag try_burst prs slots n k :
  backend_sized be -> (forall k i, flag k i 0%nat = true -> flag k i 1%nat = true) -> (forall k q r, try_burst k q r <> Some []) ->
  Forall2 step_inv prs slots -> Forall (fun s => continues s = true -> steps_left s <= Z.of_nat n) slots ->
  exists slots', run_steps be tuning flag try_burst n k slots = Some slots' /\ Forall2 step_inv prs slots' /\
    Forall (fun s => continues s = false) slots'.
Proof.
  intros Hbe Hmono Hburst. revert k slots. induction n as [|n IH]; intros k slots Hs Hn; cbn [run_steps].
  - exists slots. split_and!; [done|done|]. induction Hs as [|pr s prs slots Hinv _ IHs]; [constructor|]. apply Forall_cons in Hn as [H1 Hn].
    constructor; [|by apply IHs]. destruct (continues s) eqn:Ec; [|done]. pose proof (continues_left _ _ Hinv Ec). specialize (H1 eq_refl). lia.
  - destruct (step_ok be tuning flag try_burst k prs slots Hbe (Hmono k) (Hburst k) Hs) as (slots1 & -> & Hst). cbn [mbind option_bind].
    apply IH; [by eapply stepped_inv|].
    eapply Forall_impl; [eapply (stepped_bound (Z.of_nat n + 2)); [exact Hst|]|].
    + eapply Forall_impl; [exact Hn|]. intros s H Hc. specialize (H Hc). lia.
    + intros s H Hc. specialize (H Hc). lia.
Qed.

(** ** Equivalence *)

(** The runs of the two executors: equal, or the step executor has already noticed the
    limit, or they differ in a position that is not used. *)
Definition agree (plan : FairnessSlicePlan) (phased stepwise : Run) : Prop :=
  stepwise = phased \/ (stepwise = limited plan phased /\ in_prefill phased = false) \/
  (exists p, stepwise = repos p phased /\ (active phased = true -> in_prefill phased = true)).

Lemma step_process_repos q plan p c i res r : in_prefill r = true ->
  agree plan (process q plan c i res r) (step_process q plan c i res (repos p r)).
Proof.
  intros Hi. unfold process, step_process. cbv zeta. cbn [feed repos move in_prefill]. rewrite Hi. cbn [offset prefilled].
  destruct (negb (out_ok res) && _); [right; right; by exists p|]. destruct (size q <=? _).
  - destruct (negb (out_ok res) || _); [right; right; by exists p|]. right. left. split; [done|].
    unfold accept. case_bool_decide; [destruct (AppendGeneratedPiece _ _ _ _ _)|]; done.
  - right. right. by exists p.
Qed.

Lemma step_process_agree q plan c i res r : agree plan (process q plan c i res r) (step_process q plan c i res r).
Proof.
  destruct (in_prefill r) eqn:Hi.
  - replace r with (repos (pos r) r) at 2 by (by destruct r). by apply step_process_repos.
  - unfold process, step_process. cbv zeta. cbn [feed in_prefill]. rewrite Hi.
    destruct (negb (out_ok res) || _); [by left|right; left; split; [done|]].
    unfold accept. case_bool_decide; [destruct (AppendGeneratedPiece _ _ _ _ _)|]; done.
Qed.

(** C31: the two executors do the same with a request.  From runs that agree, with prompt left
    while the prompt is read, with the same chunk limit and the same flags, both make the same input for the backend, and
    with the same output the runs agree again: requests are fed, sampled and written
    alike whichever executor they are given to. *)
Theorem stepwise_agrees_with_phased q plan cap c r1 r2 :
  agree plan r1 r2 -> 1 <= cap -> (active r1 = true -> in_prefill r1 = true -> offset r1 < size q) ->
  let b1 := build q plan cap c r1 in let b2 := build q plan cap c r2 in
  b2.2 = b1.2 /\ agree plan b1.1 b2.1 /\
  (forall i c' res, b1.2 = Some i -> agree plan (process q plan c' i res b1.1) (step_process q plan c' i res b2.1)) /\
  fed r2 = fed r1 /\ sampled r2 = sampled r1 /\ tokens_generated r2 = tokens_generated r1 /\ out r2 = out r1.
Proof.
  intros [->|[[-> Hi]|(p & -> & Hp)]] Hcap Hoff; cbv zeta.
  - split_and!; [done|by left| |done..]. intros. apply step_process_agree.
  - unfold limited. destruct (reached_limit plan r1) eqn:El; [|split_and!; [done|by left|intros; apply step_process_agree|done..]].
    unfold build. cbn [stopped active negb]. rewrite Hi. unfold reached_limit in El. apply Z.leb_le in El.
    destruct (active r1) eqn:Ea; cbn [negb]; [|split_and!; [done| |done..]; cbn [fst]; right; left; split; [|done]; unfold limited, reached_limit; by rewrite (proj2 (Z.leb_le _ _) El)].
    rewrite (proj2 (Z.ltb_ge _ _) El). destruct c; split_and!; try done; by left.
  - unfold build. cbn [repos move active in_prefill offset tokens_generated negb]. destruct (active r1) eqn:Ea; cbn [negb].
    2: { split_and!; try done. cbn [fst]. right. right. exists p. split; [done|]. congruence. }
    rewrite (Hp eq_refl). destruct c; [split_and!; try done; cbn [fst]; right; right; by exists p|].
    specialize (Hoff eq_refl (Hp eq_refl)). destruct (Z.leb_spec (Z.min (size q - offset r1) cap) 0); [lia|]. split_and!; try done; cbn [fst snd].
    + right. right. exists p. split; [done|]. intros _. by apply Hp.
    + intros i c' res [= <-]. apply step_process_repos. by apply Hp.
Qed.

(** ** Starting and stopping *)

Lemma initial_plan_limit q f : 0 < (if remaining_decode_tokens f <? 0 then max_tokens q - Z.max 0 (total_completion_tokens f) else remaining_decode_tokens f) ->
  Z.max 0 (total_completion_tokens f) < decode_limit (initial_plan q f) /\ 32 <= max_non_emitting_steps (initial_plan q f).
Proof. unfold initial_plan, MaxNonEmittingSteps. cbn [decode_limit max_non_emitting_steps]. destruct (_ <? 0); lia. Qed.

Definition prime_prefix (q : Request) (s : RequestState) : list Z := if seeded s then [first_token s] else start_prefix q s.

Lemma accept_fields q plan token piece lp c lim r : let r' := accept q plan token piece lp c lim r in
  fed r' = fed r /\ in_prefill r' = in_prefill r /\ pos r' = pos r /\ offset r' = offset r /\ current_token r' = token /\
  tokens_generated r <= tokens_generated r' <= tokens_generated r + 1 /\ non_emitting_steps r <= non_emitting_steps r' <= non_emitting_steps r + 1.
Proof. unfold accept. case_bool_decide; [destruct (AppendGeneratedPiece _ _ _ _ _)|]; cbn; split_and!; first [done|lia]. Qed.

(** A request that is prepared and goes on can take steps. *)
Lemma prime_ready c q s :
  request_ok q s -> HasValidUnifiedPhasedState q s = true ->
  let plan := initial_plan q (fairness s) in let r := Prime c q s in
  ShouldContinueUnifiedDecodeStep plan r = true -> Z.max 0 (total_completion_tokens (fairness s)) < decode_limit plan ->
  step_inv (q, plan, start_base s, prime_prefix q s, out r, tokens_generated r) (mkStep (mkSlot q plan r) BatchBuilder.PhDecode).
Proof.
  intros Hq Hv plan r [Ha Hc]%andb_true_iff Hlim.
  assert (Hm : 32 <= max_non_emitting_steps plan) by (unfold plan, initial_plan, MaxNonEmittingSteps; cbn; lia).
  assert (Hrun : run_ok q plan (start_base s) (prime_prefix q s) (out r) (tokens_generated r) r /\ tokens_generated r < decode_limit plan).
  { unfold start_base, prime_prefix, start_prefix, seeded. unfold r, Prime in Ha, Hc |- *. fold plan in Ha, Hc |- *. clear r. clearbody plan.
    destruct ((0 <=? n_past s) && (0 <=? first_token s)) eqn:Es.
    - apply andb_true_iff in Es as [_ Es%Z.leb_le]. set (r0 := accept _ _ _ _ _ _ _ _) in *.
      destruct (accept_fields q plan (first_token s) (first_piece s) (if collect_logprobs q then first_logprob s else None) false true
        (mkRun true (Z.max 0 (total_completion_tokens (fairness s))) 0 (-1) false (n_past s) (prefill_offset s) (logprobs s) false
           (mkText (pending (text s)) (accumulated_output s) [] (stamped (text s))) [] [])) as (F1 & F2 & F3 & F4 & F5 & F6 & F7).
      fold r0 in F1, F2, F3, F4, F5, F6, F7. cbn in F1, F2, F3, F4, F5, F6, F7.
      assert (El : reached_limit plan r0 = false) by (unfold limited in Ha; destruct (reached_limit plan r0); [by destruct c|done]).
      destruct c; [done|]. unfold limited. rewrite El. apply Z.leb_gt in El. split; [|done].
      split; unfold fed_tokens, sampled_tokens, end_pos; cbn [active tokens_generated non_emitting_steps current_token in_prefill pos offset out fed sampled];
        rewrite ?F1, ?F2, ?F3, ?F4, ?F5; cbn;
        first [done|lia|apply contiguous_nil|apply prefix_nil|by exists false|exact (ro_offset _ _ Hq)|intros _ _; split_and!; first [done|lia]|intros _; split_and!; first [done|lia]].
    - destruct ((n_past s =? 0) && bool_decide (bpe_prompt_tokens q <> [])) eqn:E0.
      + split; [|done]. apply andb_true_iff in E0 as [E0%Z.eqb_eq En%bool_decide_eq_true]. apply idle_ok; try done; [split; [lia|done]|apply Hq|].
        intros _. cbn. split_and!; try done; [apply Hq|]. apply Hq; [done|done|]. rewrite E0 in Es. cbn in Es. lia.
      + destruct ((0 <? n_past s) && _ && _ && _) eqn:E1; [|done]. split; [|done].
        apply andb_true_iff in E1 as [[[_ _]%andb_true_iff _]%andb_true_iff E1%Z.ltb_lt]. apply idle_ok; try done; [split; [lia|done]|apply Hq|].
        intros _. cbn. split_and!; try done; apply Hq. }
  destruct Hrun as [Hrun Hg]. split; try done. intros _. unfold runs, step_run. cbn. by rewrite Ha.
Qed.

(** ** Witnesses and examples *)

Module Demo.
Definition q : Request := Executor.Demo.request 2 [].
Definition s : RequestState := Executor.Demo.fresh 0 (-1).
Definition r : Run := Prime false q s.
Definition the_slot : StepSlot := mkStep (mkSlot q (initial_plan q (fairness s)) r) BatchBuilder.PhDecode.
Definition no_burst (k : nat) (q : Request) (r : Run) : option (list BurstDecodeOutput) := None.
Definition the_start : Start := (q, initial_plan q (fairness s), start_base s, prime_prefix q s, out r, tokens_generated r).

Lemma inv : step_inv the_start the_slot.
Proof. apply prime_ready; [apply Executor.Demo.fresh_accepted|done|done|done]. Qed.

(** A request whose first token was sampled by the prefill. *)
Definition sampled_state : RequestState :=
  mkState 3 3 7 (bytes_of "a") None [] (mkText [] [] [] false) [] BatchBuilder.PhDecode (mkFairness 0 0 0 (-1) 3 0 0 false) 0 true.
End Demo.

Lemma stepwise_execution_ends_witness :
  exists slots', run_steps (Executor.Demo.backend "ab") Executor.Demo.tuning Executor.Demo.never Demo.no_burst 40 1 [Demo.the_slot] = Some slots' /\
    Forall2 step_inv [Demo.the_start] slots' /\ Forall (fun s => continues s = false) slots'.
Proof.
  apply stepwise_execution_ends; [apply Executor.Demo.backend_is_sized|done|done|by constructor; [apply Demo.inv|constructor]|].
  constructor; [|constructor]. intros _. by vm_compute.
Defined.

Example stepwise_execution_example :
  option_map (fun l => (fun s => Finalize Demo.q (step_run s)) <$> l)
    (run_steps (Executor.Demo.backend "ab") Executor.Demo.tuning Executor.Demo.never Demo.no_burst 5 1 [Demo.the_slot]) = Some [(bytes_of "abab", 2)].
Proof. by vm_compute. Qed.

Lemma stepwise_agrees_with_phased_witness :
  let b := build Demo.q (initial_plan Demo.q (fairness Demo.s)) 2 false Demo.r in
  exists i, b.2 = Some i /\ forall c res, agree (initial_plan Demo.q (fairness Demo.s))
    (process Demo.q (initial_plan Demo.q (fairness Demo.s)) c i res b.1) (step_process Demo.q (initial_plan Demo.q (fairness Demo.s)) c i res b.1).
Proof.
  destruct (stepwise_agrees_with_phased Demo.q (initial_plan Demo.q (fairness Demo.s)) 2 false Demo.r Demo.r) as (_ & _ & H & _); [by left|done|done|].
  eexists. split; [reflexivity|]. intros c res. by apply H.
Defined.

(** The first piece is streamed and the time of the first token is not recorded. *)
Example first_token_time_missing :
  let r := Prime false Demo.q Demo.sampled_state in
  emitted (out r) = [(bytes_of "a", None)] /\ stamped (out r) = false.
Proof. by vm_compute. Qed.
