(* ===== verification/PhasedPrefill.v ===== *)
(** * scheduler/scheduler.cpp: evaluating a prompt before a batch

    [ExecutePhasedPrefillStep]: the rest of a prompt is given to the backend in chunks, and
    the last one yields the first token.  What the backend keeps of the sequence is settled
    first.  The backend answers by the number of the chunk. *)

From stdpp Require Import base tactics numbers list strings sets.
From Stdlib Require Import Ascii.
From S2P Require Import Prelude StringUtils GeneratedText Executor.

Local Open Scope Z_scope.

Record PrefillResult := mkPrefill { r_n_past : Z; r_first_token : Z; r_first_piece : bytes; r_first_logprob : option TokenLogprob }.

(** What the backend is told about the sequence before the first chunk. *)
Inductive SequenceCall := FreeSequence | TruncateSequence (n : Z).

Section Prefill.
(** [seq]: the sequence of the step state.  [truncates n]: the backend could cut the sequence to [n] tokens; otherwise it has cleared it.
    [answers]: the outputs for the one input of a chunk; [None] when it was refused or timed out. *)
Context (q : Request) (seq : Z) (truncates : Z -> bool) (answers : nat -> UnifiedBatchInput -> option (list UnifiedBatchOutput)).

(** A full hit replays the last token. *)
Definition bounded_start (n_past_start : Z) : Z :=
  let start := Z.min (Z.max n_past_start 0) (size q) in
  if size q <=? start then Z.max 0 (size q - 1) else start.

Definition settle_sequence (start : Z) : SequenceCall * Z :=
  if start =? 0 then (FreeSequence, 0)
  else (TruncateSequence start, if truncates start then start else 0).

Definition prefill_input (start chunk_end : Z) : UnifiedBatchInput :=
  let request_logits := chunk_end =? size q in
  mkInput (seq) start (take (Z.to_nat (chunk_end - start)) (drop (Z.to_nat start) (bpe_prompt_tokens q))) request_logits
    (if collect_logprobs q && request_logits then logprob_top_n q else -1).

(** The chunks from [start] on: the inputs given, and the last output unless one failed. *)
Fixpoint chunks (fuel k : nat) (token_cap start : Z) (last : UnifiedBatchOutput) : list UnifiedBatchInput * option UnifiedBatchOutput :=
  if start <? size q then
    match fuel with
    | 0%nat => ([], None)
    | S fuel =>
        let chunk_end := Z.min (start + token_cap) (size q) in
        let input := prefill_input start chunk_end in
        match answers k input with
        | Some [o] => if out_ok o then let '(ins, res) := chunks fuel (S k) token_cap chunk_end o in (input :: ins, res) else ([input], None)
        | _ => ([input], None)
        end
    end
  else ([], Some last).

Definition ExecutePhasedPrefillStep (n_past_start capacity chunk_token_cap : Z) : option SequenceCall * list UnifiedBatchInput * option PrefillResult :=
  if seq <? 0 then (None, [], None)
  else if bool_decide (bpe_prompt_tokens q = []) then (None, [], None)
  else
    let '(call, start) := settle_sequence (bounded_start n_past_start) in
    let token_cap := Z.min (Z.max 1 capacity) (Z.max 1 chunk_token_cap) in
    let '(ins, res) := chunks (length (bpe_prompt_tokens q)) 0 token_cap start no_output in
    (Some call, ins,
     match res with
     | Some o => Some (mkPrefill (size q) (out_token o) (if 0 <=? out_token o then out_piece o else []) (if 0 <=? out_token o then out_logprob o else None))
     | None => None
     end).

(** ** Correctness *)

Lemma start_within n : bpe_prompt_tokens q <> [] -> 0 <= bounded_start n < size q.
Proof.
  intros Hn. assert (0 < size q) by (unfold size; destruct (bpe_prompt_tokens q); [done|cbn; lia]). unfold bounded_start.
  destruct (Z.leb_spec (size q) (Z.min (Z.max n 0) (size q))); lia.
Qed.

Lemma settled_within n : bpe_prompt_tokens q <> [] -> 0 <= (settle_sequence (bounded_start n)).2 < size q.
Proof.
  intros Hn. pose proof (start_within n Hn). unfold settle_sequence. destruct (Z.eqb_spec (bounded_start n) 0); cbn; [lia|]. destruct (truncates _); lia.
Qed.

Lemma settled_call n : bpe_prompt_tokens q <> [] -> let '(call, start) := settle_sequence (bounded_start n) in
  start <= Z.max 0 n /\ (0 < start -> call = TruncateSequence start /\ truncates start = true) /\ (call = FreeSequence -> n <= 0 \/ size q = 1).
Proof.
  intros Hn. pose proof (start_within n Hn). unfold settle_sequence. destruct (Z.eqb_spec (bounded_start n) 0) as [E|].
  - split_and!; [lia|lia|]. intros _. unfold bounded_start in E. destruct (Z.leb_spec (size q) (Z.min (Z.max n 0) (size q))); lia.
  - assert (bounded_start n <= Z.max 0 n) by (unfold bounded_start; destruct (Z.leb_spec (size q) (Z.min (Z.max n 0) (size q))); lia).
    destruct (truncates _) eqn:Et; split_and!; first [done|lia].
Qed.

(** The inputs follow one another, and each takes what fits. *)
Inductive follows (token_cap : Z) : Z -> list UnifiedBatchInput -> Prop :=
  | follows_nil start : follows token_cap start []
  | follows_cons start i l :
      in_n_past i = start -> in_sequence i = seq -> 0 < Z.of_nat (length (in_tokens i)) <= token_cap ->
      in_tokens i `prefix_of` drop (Z.to_nat start) (bpe_prompt_tokens q) ->
      (in_logits i = true <-> start + Z.of_nat (length (in_tokens i)) = size q) ->
      follows token_cap (start + Z.of_nat (length (in_tokens i))) l -> follows token_cap start (i :: l).

Lemma prefill_input_tokens start chunk_end : 0 <= start <= chunk_end -> chunk_end <= size q ->
  Z.of_nat (length (in_tokens (prefill_input start chunk_end))) = chunk_end - start.
Proof. intros Hs He. cbn. rewrite length_take, length_drop. unfold size in *. lia. Qed.

Lemma chunks_ok token_cap fuel : 0 < token_cap -> forall k start last, 0 <= start -> size q - start <= Z.of_nat fuel ->
  let '(ins, res) := chunks fuel k token_cap start last in
  follows token_cap start ins /\ concat (in_tokens <$> ins) `prefix_of` drop (Z.to_nat start) (bpe_prompt_tokens q) /\
  match res with
  | Some o => concat (in_tokens <$> ins) = drop (Z.to_nat start) (bpe_prompt_tokens q) /\
      (ins = [] /\ o = last \/ exists i k', S k' = (k + length ins)%nat /\ list.last ins = Some i /\ answers k' i = Some [o] /\ out_ok o = true)
  | None => exists i k', S k' = (k + length ins)%nat /\ list.last ins = Some i /\ forall o, answers k' i = Some [o] -> out_ok o = false
  end.
Proof.
  intros Hcap. induction fuel as [|fuel IH]; intros k start last Hs Hf; cbn [chunks]; destruct (Z.ltb_spec start (size q)) as [Hlt|Hge].
  - lia.
  - split_and!; [constructor|apply prefix_nil| |by left]. symmetry. apply drop_ge. unfold size in *. lia.
  - set (e := Z.min (start + token_cap) (size q)). set (i := prefill_input start e).
    assert (Hlen : Z.of_nat (length (in_tokens i)) = e - start) by (apply prefill_input_tokens; lia).
    assert (Hpre : in_tokens i `prefix_of` drop (Z.to_nat start) (bpe_prompt_tokens q)) by (apply prefix_take).
    assert (Hi : forall l, follows token_cap e l -> follows token_cap start (i :: l)).
    { intros l Hl. constructor; [done|done|lia|done| |by replace (start + Z.of_nat (length (in_tokens i))) with e by lia].
      change (in_logits i) with (e =? size q). rewrite Z.eqb_eq, Hlen. lia. }
    assert (Hone : follows token_cap start [i] /\ concat (in_tokens <$> [i]) `prefix_of` drop (Z.to_nat start) (bpe_prompt_tokens q))
      by (split; [apply Hi; constructor|cbn; by rewrite app_nil_r]).
    destruct (answers k i) as [[|o [|]]|] eqn:Ea.
    + destruct Hone. split_and!; [done|done|]. exists i, k. split_and!; [cbn; lia|done|]. by rewrite Ea.
    + destruct (out_ok o) eqn:Eo; [|destruct Hone; split_and!; [done|done|]; exists i, k; split_and!; [cbn; lia|done|]; rewrite Ea; by intros ? [= <-]].
      specialize (IH (S k) e o ltac:(lia) ltac:(lia)). destruct (chunks fuel (S k) token_cap e o) as [ins res]. destruct IH as (IH1 & IH2 & IH3).
      assert (Hdrop : drop (Z.to_nat start) (bpe_prompt_tokens q) = in_tokens i ++ drop (Z.to_nat e) (bpe_prompt_tokens q)).
      { change (in_tokens i) with (take (Z.to_nat (e - start)) (drop (Z.to_nat start) (bpe_prompt_tokens q))).
        replace (Z.to_nat e) with (Z.to_nat start + Z.to_nat (e - start))%nat by lia. by rewrite <- drop_drop, take_drop. }
      split_and!; [by apply Hi| |].
      * rewrite Hdrop. cbn. by apply prefix_app.
      * destruct res as [o'|].
        -- destruct IH3 as [IH3 IH4]. split; [rewrite Hdrop; cbn; by rewrite IH3|]. right.
           destruct IH4 as [[-> ->]|(j & k' & Hk & Hj & Hr)]; [exists i, k; split_and!; [cbn; lia|done..]|]. exists j, k'. split; [cbn; lia|]. split; [|done]. destruct ins; [done|by rewrite list.last_cons_cons].
        -- destruct IH3 as (j & k' & Hk & Hj & Hr). exists j, k'. split; [cbn; lia|]. split; [|done]. destruct ins; [done|by rewrite list.last_cons_cons].
    + destruct Hone. split_and!; [done|done|]. exists i, k. split_and!; [cbn; lia|done|]. by rewrite Ea.
    + destruct Hone. split_and!; [done|done|]. exists i, k. split_and!; [cbn; lia|done|]. by rewrite Ea.
  - split_and!; [constructor|apply prefix_nil| |by left]. symmetry. apply drop_ge. unfold size in *. lia.
Qed.

(** C32: prefilling before the batch.  What is already cached is kept only when the backend could cut the
    sequence there, and at least the last token is evaluated again; the inputs follow one another
    from there without gap or overlap, none larger than the backend or the scheduler allows, and
    only the last asks for logits.  Success means that all of the rest of the prompt was evaluated and that the
    token is the answer to the last input; failure, that the last input given was refused. *)
Theorem phased_prefill_sound n_past_start capacity chunk_token_cap :
  0 <= seq -> bpe_prompt_tokens q <> [] ->
  exists call start ins res,
    ExecutePhasedPrefillStep n_past_start capacity chunk_token_cap = (Some call, ins, res) /\
    0 <= start < size q /\ start <= Z.max 0 n_past_start /\ (0 < start -> call = TruncateSequence start /\ truncates start = true) /\
    (call = FreeSequence -> n_past_start <= 0 \/ size q = 1) /\
    follows (Z.min (Z.max 1 capacity) (Z.max 1 chunk_token_cap)) start ins /\
    concat (in_tokens <$> ins) `prefix_of` drop (Z.to_nat start) (bpe_prompt_tokens q) /\
    exists i k, S k = length ins /\ list.last ins = Some i /\
      match res with
      | Some p => r_n_past p = size q /\ concat (in_tokens <$> ins) = drop (Z.to_nat start) (bpe_prompt_tokens q) /\
          exists o, answers k i = Some [o] /\ out_ok o = true /\ r_first_token p = out_token o /\
            (0 <= out_token o -> r_first_piece p = out_piece o /\ r_first_logprob p = out_logprob o) /\
            (out_token o < 0 -> r_first_piece p = [] /\ r_first_logprob p = None)
      | None => forall o, answers k i = Some [o] -> out_ok o = false
      end.
Proof.
  intros Hid Hne. unfold ExecutePhasedPrefillStep. destruct (Z.ltb_spec (seq) 0); [lia|]. rewrite bool_decide_eq_false_2 by done.
  pose proof (settled_within n_past_start Hne) as Hs. pose proof (settled_call n_past_start Hne) as Hc.
  destruct (settle_sequence (bounded_start n_past_start)) as [call start]. destruct Hc as (Hc1 & Hc2 & Hc3). cbn [fst snd] in *. set (cap := Z.min _ _).
  pose proof (chunks_ok cap (length (bpe_prompt_tokens q)) ltac:(lia) 0%nat start no_output ltac:(lia) ltac:(unfold size in *; lia)) as H'.
  destruct (chunks _ _ _ _ _) as [ins res]. destruct H' as (Hf & Hp & Hr). eexists call, start, ins, _.
  split_and!; [reflexivity|lia|lia|done|done|done|done|done|]. destruct res as [o|]; [|done].
  destruct Hr as [Hall [[-> _]|(i & k & Hk & Hl & Ha & Ho)]].
  - assert (Hz : length (drop (Z.to_nat start) (bpe_prompt_tokens q)) = 0%nat) by (by rewrite <- Hall). rewrite length_drop in Hz. unfold size in *. lia.
  - exists i, k. split; [done|]. split; [done|]. cbn. split_and!; [done|done|]. exists o. split_and!; [done|done|done| |];
      destruct (Z.leb_spec 0 (out_token o)); first [done|lia].
Qed.
End Prefill.

(** ** Witness and examples *)

Module Demo.
(** A prompt of three tokens; a backend that takes two at a time and samples the number of the chunk. *)
Definition q : Request := Executor.Demo.request 2 [].
Definition answer (k : nat) (i : UnifiedBatchInput) : option (list UnifiedBatchOutput) := Some [mkOutput (Z.of_nat k) (bytes_of "a") true None].
End Demo.

Lemma phased_prefill_sound_witness : exists call start ins res,
  ExecutePhasedPrefillStep Demo.q 3 (fun _ => true) Demo.answer 1 2 2048 = (Some call, ins, res) /\ 0 <= start < size Demo.q /\ start <= 1.
Proof.
  destruct (phased_prefill_sound Demo.q 3 (fun _ => true) Demo.answer 1 2 2048) as (call & start & ins & res & H1 & H2 & H3 & _); [done|done|].
  by exists call, start, ins, res.
Defined.

(** A backend that cannot cut the sequence makes the prompt be read from its beginning. *)
Example prefill_restarts :
  let '(call, ins, res) := ExecutePhasedPrefillStep Demo.q 3 (fun _ => false) Demo.answer 2 2 2048 in
  call = Some (TruncateSequence 2) /\ in_n_past <$> ins = [0; 2] /\ option_map r_first_token res = Some 1.
Proof. by vm_compute. Qed.
