(* ===== verification/Accounts.v ===== *)
(** * scheduler: who owns KV blocks and sequence slots

    The accounting behind Admission.v: every reference to a KV page is one of the prefix
    cache or of a claim (the block table of a request or of a session), every live slot
    that is claimed is claimed once, and the operations of the components keep it so. *)

From stdpp Require Import base tactics numbers list strings gmap sets.
From S2P Require Import Prelude KVCache SessionHandles RadixCache SlotManager SeqSlots RequestRelease.

Local Open Scope Z_scope.

Abbreviation World := (Sched (P := PagedKVCache)).
Abbreviation kv w := (kv_cache (prefix_cache w)).

(** ** Blocks *)

(** A page is in use exactly while it is referenced. *)
Definition coherent (pg : KVPage) : Prop := KVCache.in_use pg = (0 <? ref_count pg).

(** The pages of [p] are referenced as [count] says. *)
Definition counted (p : PagedKVCache) (count : nat -> Z) : Prop :=
  kv_wf p /\ forall j pg, pages p !! j = Some pg -> ref_count pg = count j /\ coherent pg.

Definition claimed (claims : list Z) (j : nat) : Z := Z.of_nat (occurrences j claims).

(** The references are those of the prefix cache and of [claims]. *)
Definition ledger (c : RadixPrefixCache (P := PagedKVCache)) (claims : list Z) : Prop :=
  match kv_cache c with Some p => counted p (fun j => owned c j + claimed claims j) | None => True end.

Lemma owned_nonneg (c : RadixPrefixCache (P := PagedKVCache)) j : 0 <= owned c j.
Proof. unfold owned. lia. Qed.

Lemma claimed_app l k j : claimed (l ++ k) j = claimed l j + claimed k j.
Proof. unfold claimed. rewrite occurrences_app. lia. Qed.

Lemma claimed_nonneg l j : 0 <= claimed l j.
Proof. unfold claimed. lia. Qed.

Lemma claimed_perm l k j : l ≡ₚ k -> claimed l j = claimed k j.
Proof. intros E. unfold claimed. by rewrite E. Qed.

Lemma counted_ext p c c' : (forall j, is_Some (pages p !! j) -> c j = c' j) -> counted p c -> counted p c'.
Proof. intros E [Hw H]. split; [done|]. intros j pg Hj. destruct (H j pg Hj) as [H1 H2]. split; [|done]. rewrite H1. apply E. eauto. Qed.

Lemma ledger_perm c l k : l ≡ₚ k -> ledger c l -> ledger c k.
Proof.
  intros E. unfold ledger. destruct (kv_cache c); [|done]. apply counted_ext. intros j _. by rewrite (claimed_perm _ _ _ E).
Qed.

(** *** Releasing *)

Lemma release_coherent n pg : coherent pg -> 0 <= ref_count pg - Z.of_nat n -> coherent (Nat.iter n release_page pg).
Proof.
  unfold coherent. intros Hc Hn. rewrite iter_release_refs. destruct n as [|n]; [by rewrite Z.sub_0_r|].
  destruct (Z.ltb_spec 0 (ref_count pg - Z.of_nat (S n))).
  - rewrite iter_release_shared by done. cbn. rewrite Hc. apply Z.ltb_lt. lia.
  - by apply iter_release_last; [lia|].
Qed.

Lemma release_wf p ids : kv_wf p -> kv_wf (ReleaseBlocksRef p ids).
Proof. intros Hw. unfold ReleaseBlocksRef, ReleaseBlocks. apply foldl_wf; [|done]. intros. by apply ReleasePageLocked_wf. Qed.

Lemma counted_release p c c' ids :
  counted p c -> (forall j, is_Some (pages p !! j) -> c' j = c j - claimed ids j /\ 0 <= c' j) -> counted (ReleaseBlocksRef p ids) c'.
Proof.
  intros [Hw H] Hc. split; [by apply release_wf|]. intros j pg. unfold ReleaseBlocksRef. rewrite ReleaseBlocks_lookup.
  intros (pg0 & Hj & ->)%fmap_Some. destruct (H j pg0 Hj) as [H1 H2]. destruct (Hc j ltac:(eauto)) as [H3 H4]. unfold claimed in H3. split.
  - rewrite iter_release_refs, H3, H1. lia.
  - apply release_coherent; [done|]. rewrite H1. lia.
Qed.

Lemma release_table_eq (k : option PagedKVCache) bt : release_table k bt = (fun p => ReleaseBlocksRef p bt) <$> k.
Proof. unfold release_table. destruct k, bt; done. Qed.

(** The pool of [k'] is that of [k] with some references released. *)
Definition released_to (k k' : option PagedKVCache) : Prop := exists ids, k' = (fun p => ReleaseBlocksRef p ids) <$> k.

Lemma released_to_refl k : released_to k k.
Proof. exists []. by destruct k. Qed.

Lemma released_to_trans k1 k2 k3 : released_to k1 k2 -> released_to k2 k3 -> released_to k1 k3.
Proof.
  intros [i1 ->] [i2 ->]. exists (i1 ++ i2). destruct k1; [|done]. cbn. unfold ReleaseBlocksRef, ReleaseBlocks. by rewrite foldl_app.
Qed.

Lemma released_to_table (k : option PagedKVCache) bt : released_to k (release_table k bt).
Proof. exists bt. apply release_table_eq. Qed.

(** An operation of the prefix cache that only releases. *)
Lemma ledger_balance c c' claims claims' delta :
  ledger c claims -> refs_balance c c' delta -> released_to (kv_cache c) (kv_cache c') ->
  (forall j, claimed claims' j = claimed claims j + delta j) -> ledger c' claims'.
Proof.
  unfold ledger. intros Hl Hb [ids Hk] Hd. destruct (kv_cache c) as [p|] eqn:Ep; [|by rewrite Hk].
  destruct (Hb p Ep) as (p' & Hp' & Hj). rewrite Hk in Hp'. cbn in Hp'. injection Hp' as <-. rewrite Hk. cbn.
  eapply counted_release; [exact Hl|]. intros j [pg Hpg]. destruct (Hj j) as [_ Hr].
  assert (Hh : pool_has p j = true) by (cbn; apply bool_decide_eq_true_2; eauto).
  specialize (Hr Hh). change (ReleaseBlocksRef p ids) with (pool_release_blocks p ids) in Hr. rewrite pool_release_refs in Hr by done. destruct Hl as [_ Hl]. destruct (Hl j pg Hpg) as [H1 _].
  cbn in Hr. rewrite Hpg in Hr. cbn in Hr. pose proof (owned_nonneg c' j). pose proof (claimed_nonneg claims' j). specialize (Hd j).
  fold (claimed ids j) in Hr. lia.
Qed.

Definition with_kv (k : option PagedKVCache) (c : RadixPrefixCache (P := PagedKVCache)) : RadixPrefixCache (P := PagedKVCache) :=
  mkRadix k (on_evict_seq c) (capacity c) (max_sequences c) (size_ c) (live_sequences c) (clock c) (root c) (events c).

(** Releasing a claim. *)
Lemma ledger_release c ids rest :
  ledger c (ids ++ rest) -> ledger (with_kv ((fun p => ReleaseBlocksRef p ids) <$> kv_cache c) c) rest.
Proof.
  unfold ledger. cbn. destruct (kv_cache c) as [p|]; [|done]. cbn. intros Hl. eapply counted_release; [exact Hl|].
  intros j _. cbv beta. change (owned (with_kv (Some (ReleaseBlocksRef p ids)) c) j) with (owned c j). rewrite claimed_app.
  pose proof (owned_nonneg c j). pose proof (claimed_nonneg rest j). lia.
Qed.

(** *** Acquiring *)

Lemma acquire_wf p ids : kv_wf p -> kv_wf (AcquireBlocks p ids).
Proof.
  intros Hw. unfold AcquireBlocks. apply foldl_wf; [|done]. intros st z Hst. unfold acquire_ref. destruct (in_range _ _); [|done].
  by apply update_page_wf.
Qed.

(** Only blocks that somebody references are acquired. *)
Lemma ledger_acquire c ids claims :
  ledger c claims -> (forall j, 0 < claimed ids j -> 0 < owned c j + claimed claims j) ->
  ledger (with_kv ((fun p => AcquireBlocks p ids) <$> kv_cache c) c) (ids ++ claims).
Proof.
  unfold ledger. cbn. destruct (kv_cache c) as [p|]; [|done]. cbn. intros [Hw Hl] Hpos. split; [by apply acquire_wf|].
  intros j pg. rewrite AcquireBlocks_lookup. intros (pg0 & Hj & ->)%fmap_Some. destruct (Hl j pg0 Hj) as [H1 H2].
  change (owned (with_kv _ c) j) with (owned c j). rewrite claimed_app. cbn. fold (claimed ids j). split; [lia|].
  unfold coherent in *. cbn. rewrite H2. fold (claimed ids j). pose proof (claimed_nonneg ids j). specialize (Hpos j).
  destruct (Z.ltb_spec 0 (ref_count pg0)), (Z.ltb_spec 0 (ref_count pg0 + claimed ids j)); lia || done.
Qed.

(** *** Reserving *)

Lemma claimed_new new j : NoDup new -> claimed (Z.of_nat <$> new) j = if decide (j ∈ new) then 1 else 0.
Proof.
  unfold claimed, occurrences. induction 1 as [|x new Hx Hn IH]; [done|]. rewrite fmap_cons. cbn [count_if].
  case_bool_decide as E.
  - apply Nat2Z.inj in E as ->. rewrite decide_False in IH by done. rewrite decide_True by set_solver. lia.
  - case_decide as E1; case_decide as E2; [lia|set_solver..|lia].
Qed.

Lemma ledger_reserve c p claims n p' new :
  ledger c claims -> kv_cache c = Some p -> (n <= NumFreeBlocks p)%nat -> ReserveBlocks p n = (p', Ret new) ->
  ledger (with_kv (Some p') c) (new ++ claims) /\ length new = n.
Proof.
  unfold ledger. intros Hl Hk Hn Hr. rewrite Hk in Hl. destruct Hl as [Hw Hl]. cbn.
  destruct (reserve_loop_success n p [] Hw Hn) as (st' & ids & Hr' & Hlen & Hnd & Hin & Hout & _).
  unfold ReserveBlocks in Hr. rewrite Hr' in Hr. cbn in Hr. injection Hr as <- <-. split; [|by rewrite length_fmap].
  split; [pose proof (reserve_loop_wf n p [] Hw) as Hx; by rewrite Hr' in Hx|]. intros j pg Hj.
  change (owned (with_kv (Some st') c) j) with (owned c j). rewrite claimed_app, claimed_new by done. case_decide as Hjn.
  - destruct (Hin j Hjn) as [(pg0 & Hp0 & Hu) (pg1 & Hp1 & Hu1 & Hr1)]. rewrite Hj in Hp1. injection Hp1 as <-.
    destruct (Hl j pg0 Hp0) as [H1 H2]. unfold coherent in *. rewrite Hu in H2. symmetry in H2. apply Z.ltb_ge in H2.
    pose proof (owned_nonneg c j). pose proof (claimed_nonneg claims j). rewrite Hr1, Hu1. split; [lia|done].
  - rewrite Hout in Hj by done. destruct (Hl j pg Hj). split; [lia|done].
Qed.

Lemma reserve_returns p n : kv_wf p -> (n <= NumFreeBlocks p)%nat -> exists p' new, ReserveBlocks p n = (p', Ret new).
Proof. intros Hw Hn. destruct (reserve_loop_success n p [] Hw Hn) as (st' & ids & Hr & _). eauto. Qed.

(** ** Blocks and slots *)

(** [blocks] and [slots] are what requests and sessions have: the other references and
    live slots are those of the prefix cache, and no slot has two owners. *)
Record accounts (w : World) (blocks slots : list Z) : Prop := {
  acc_blocks : ledger (prefix_cache w) blocks;
  acc_sched : sched_ok w;
  acc_nodup : NoDup (slots ++ donors w);
  acc_held : Forall (SeqSlots.held (slot_manager w)) slots }.

Lemma accounts_perm w b b' s s' : b ≡ₚ b' -> s ≡ₚ s' -> accounts w b s -> accounts w b' s'.
Proof. intros Eb Es [H1 H2 H3 H4]. constructor; [by eapply ledger_perm|done|by rewrite <- Es|by rewrite <- Es]. Qed.

Lemma accounts_manager m w b s :
  accounts w b s -> slots_wf m -> (forall q, SeqSlots.held (slot_manager w) q -> SeqSlots.held m q) ->
  (forall l, awaiting (slot_manager w) l -> awaiting m l) -> accounts (set_manager m w) b s.
Proof.
  intros [H1 H2 H3 H4] Hm Hh Ha. constructor; [done| |done|].
  - by apply set_manager_ok; auto.
  - cbn. eapply Forall_impl; [exact H4|]. intros q. apply Hh.
Qed.

Lemma claim_not_deferred w b q s : accounts w b (q :: s) -> q ∉ deferred_slots w /\ q ∉ donors w /\ SeqSlots.held (slot_manager w) q.
Proof.
  intros [H1 H2 H3 H4]. apply Forall_cons in H4 as [Hq _]. split_and!; [| |done].
  - intros (d & -> & Hd)%list_elem_of_fmap. pose proof (ok_deferred _ H2) as Ha. rewrite Forall_forall in Ha.
    by apply (held_awaiting _ _ _ Hq (Ha _ Hd)).
  - cbn in H3. apply NoDup_cons in H3 as [H3 _]. set_solver.
Qed.

(** *** Freeing a slot *)

Lemma free_cache fence t0 t1 t2 slot gen be (w : World) : prefix_cache (FreeSeqSlot fence t0 t1 t2 slot gen be w) = prefix_cache w.
Proof.
  unfold FreeSeqSlot. destruct (_ || _); [done|]. cbv zeta. destruct be as [b|], (gen =? 0); try done.
  destruct (RetireLease _ _ _ _) as [m []]; [|done]. by destruct (pending fence).
Qed.

Lemma free_spares fence t0 t1 t2 slot gen be (w : World) :
  slots_wf (slot_manager w) -> t2 < time_max -> spares slot (slot_manager w) (slot_manager (FreeSeqSlot fence t0 t1 t2 slot gen be w)).
Proof.
  intros Hm Ht. unfold FreeSeqSlot. destruct ((slot <? 0) || _) eqn:E; [by split_and!|].
  apply orb_false_iff in E as [Hs%Z.ltb_ge _]. cbv zeta. set (lease := mkLease slot gen (-1)).
  assert (Hrel : spares slot (slot_manager w) (ReleaseSlot (slot_manager w) slot))
    by (apply agree_spares; [by apply ReleaseSlot_agree|by apply ReleaseSlot_wf]).
  destruct be as [b|], (gen =? 0); cbn [slot_manager set_manager log_free]; try done.
  - pose proof (retire_spares (slot_manager w) lease Pending t0 Hm) as Hsp. destruct (RetireLease _ _ _ _) as [m' []]; [|by split_and!].
    cbn in Hsp. destruct (pending fence); cbn; [done|]. eapply spares_trans; [exact Hsp|]. apply (complete_spares m' lease). apply Hsp.
  - by apply (release_spares (slot_manager w) lease).
Qed.

Lemma free_sched fence t0 t1 t2 slot gen be (w : World) :
  sched_ok w -> t2 < time_max -> slot ∉ donors w -> slot ∉ deferred_slots w -> sched_ok (FreeSeqSlot fence t0 t1 t2 slot gen be w).
Proof.
  intros Hok Ht Hd Hf. destruct (decide (gen = 0)) as [->|Hg]; [|by apply free_lease_ok].
  pose proof (free_spares fence t0 t1 t2 slot 0 be w (ok_slots _ Hok) Ht) as Hsp.
  unfold FreeSeqSlot in *. destruct (_ || _); [done|]. cbv zeta in *. cbn [Z.eqb] in *.
  destruct be as [b|]; cbn in *; (apply (spares_ok slot); [try apply log_free_ok; done|done|done|done]).
Qed.

(** A slot that is freed is no longer claimed. *)
Lemma accounts_free fence t0 t1 t2 slot gen be w b s :
  accounts w b (slot :: s) -> t2 < time_max -> accounts (FreeSeqSlot fence t0 t1 t2 slot gen be w) b s.
Proof.
  intros Hacc Ht. destruct (claim_not_deferred _ _ _ _ Hacc) as (Hf & Hd & _). destruct Hacc as [H1 H2 H3 H4].
  destruct (free_spares fence t0 t1 t2 slot gen be w (ok_slots _ H2) Ht) as (_ & Hh & _).
  cbn in H3. apply NoDup_cons in H3 as [Hn H3]. apply Forall_cons in H4 as [_ H4]. constructor.
  - by rewrite free_cache.
  - by apply free_sched.
  - unfold donors. rewrite free_cache. done.
  - apply Forall_forall. intros q Hq. rewrite Forall_forall in H4. apply Hh; [|by apply H4]. intros ->. set_solver.
Qed.

(** *** Releasing blocks *)

Lemma with_kv_ok k (w : World) : sched_ok w -> sched_ok (set_prefix (with_kv k (prefix_cache w)) w).
Proof. intros [H1 [] H3 H4 H5 H6 H7 H8]. by constructor. Qed.

Lemma accounts_kv k w b b' s : accounts w b s -> ledger (with_kv k (prefix_cache w)) b' -> accounts (set_kv k w) b' s.
Proof. intros [H1 H2 H3 H4] Hl. constructor; [done|by apply with_kv_ok|done|done]. Qed.

Lemma accounts_release ids w b s : accounts w (ids ++ b) s -> accounts (release_blocks_always ids w) b s.
Proof. intros Ha. eapply accounts_kv; [done|]. by apply ledger_release, (acc_blocks _ _ _ Ha). Qed.

Lemma release_blocks_eq ids (w : World) : release_blocks ids w = release_blocks_always ids w.
Proof. unfold release_blocks, release_blocks_always. by rewrite release_table_eq. Qed.

(** *** The prefix cache *)

(** A donor with the sequence [seq] and the blocks [bt]. *)
Definition has_donor (c : RadixPrefixCache (P := PagedKVCache)) (seq : Z) (bt : list Z) : Prop :=
  0 <= seq /\ exists it, it ∈ contents c /\ RadixCache.sequence_id it.2 = seq /\ block_table it.2 = bt.

Lemma blocks_of_elem (l : list (list Z * NodeInfo)) it j : it ∈ l -> claimed (block_table it.2) j <= claimed (blocks_of l) j.
Proof.
  induction 1 as [it l|it x l _ IH]; cbn [blocks_of flat_map]; rewrite claimed_app; [pose proof (claimed_nonneg (blocks_of l) j)|pose proof (claimed_nonneg (block_table x.2) j)];
    unfold blocks_of in *; lia.
Qed.

Lemma donor_owned c seq bt j : has_donor c seq bt -> claimed bt j <= owned c j.
Proof. intros (_ & it & Hin & _ & <-). by apply (blocks_of_elem _ _ j) in Hin. Qed.

Section Cache.
Context (alive is_llama : nat -> bool).

Lemma lookup_spec (c c' : RadixPrefixCache (P := PagedKVCache)) tokens be hit res :
  radix_inv c -> Lookup alive c tokens be = (c', (hit, res)) ->
  radix_inv c' /\ same_but_clock c c' /\ refs_balance c c' (fun _ => 0) /\ donor_seqs (contents c') ≡ₚ donor_seqs (contents c) /\
  (if hit then has_donor c' (res_sequence_id res) (res_block_table res) else res_block_table res = [] /\ res_sequence_id res = -1).
Proof.
  intros Hi Hl. destruct (Lookup_effect alive c tokens be Hi) as (Hi' & Hst & Hc). rewrite Hl in Hi', Hst, Hc. cbn in Hi', Hst, Hc.
  destruct (strip_facts _ _ Hst) as (_ & _ & Hds & Hb). split_and!; [done|done| |done|].
  { apply refs_balance_same; [|done]. apply Hc. }
  unfold Lookup in Hl. destruct (_ || _); [by injection Hl as <- <- <-|].
  destruct (lookup_walk _ _ _ _ _ _) as [root' w] eqn:Hw. destruct (w_hit w && _ && _) eqn:Hh; [|by injection Hl as <- <- <-].
  injection Hl as <- <- <-. cbn. apply andb_true_iff in Hh as [[_ Hseq]%andb_true_iff _]. apply Z.leb_le in Hseq.
  destruct Hi as [Hwf Hed _ _ _].
  destruct (lookup_walk_sound alive _ _ _ _ _ [] _ _ Hwf Hw) as [(Hs & _)|(k & d & Hk & Hin & _)]; [rewrite Hs in Hseq; cbn in Hseq; lia|].
  rewrite Hed in Hin. cbn in Hin. split; [done|]. fold (contents c) in Hin. unfold contents in Hst at 2. rewrite <- Hst in Hin.
  apply list_elem_of_fmap in Hin as (it & E & Hit). exists it. unfold strip in E. injection E as _ E1 E2 _. by rewrite E1, E2.
Qed.

(** Evictions release what the donor had; the others stay. *)
Lemma evict_spec (c c' : RadixPrefixCache (P := PagedKVCache)) q :
  radix_inv c -> EvictOneSequence alive c = (c', Some q) ->
  refs_balance c c' (fun _ => 0) /\ released_to (kv_cache c) (kv_cache c') /\
  forall seq bt, has_donor c seq bt -> seq <> q -> has_donor c' seq bt.
Proof.
  intros Hi He. apply (EvictOneSequenceLocked_effect alive) in He as (path & i & rest & -> & Hd & _ & Hr); [|done].
  split_and!; [by eapply retired_balance|rewrite (ret_kv _ _ _ _ _ _ Hr); apply released_to_table|].
  intros seq bt (H0 & it & Hin & Hs & Hb) Hne. split; [done|]. exists it. split; [|done].
  rewrite (ret_before _ _ _ _ _ _ Hr) in Hin. apply elem_of_cons in Hin as [->|Hin]; [done|].
  destruct (ret_after _ _ _ _ _ _ Hr) as [->| ->]; [done|]. by right.
Qed.

Lemma evictions_released (c c' : RadixPrefixCache (P := PagedKVCache)) : rtc (evict_step alive) c c' -> released_to (kv_cache c) (kv_cache c').
Proof.
  induction 1 as [|c1 c2 c3 (path & i & rest & Hr) _ IH]; [apply released_to_refl|].
  eapply released_to_trans; [|exact IH]. rewrite (ret_kv _ _ _ _ _ _ Hr). apply released_to_table.
Qed.

Lemma insert_released (c c' : RadixPrefixCache (P := PagedKVCache)) tokens bt seq be :
  radix_inv c -> Insert alive c tokens bt seq be = (c', true) -> released_to (kv_cache c) (kv_cache c').
Proof.
  intros Hi Hins. destruct (Insert_effect alive _ _ _ _ _ _ Hi Hins) as (c1 & bl & _ & _ & _ & _ & _ & _ & Hr).
  destruct (insert_walk _ _ _ _).2.
  - destruct Hr as (_ & Hk & _ & Hev & _). rewrite <- Hk. by apply evictions_released.
  - destruct Hr as (-> & _ & -> & _). apply released_to_table.
Qed.

(** Running the calls of an operation keeps the slots that it does not name. *)
Lemma run_events_keep (c : RadixPrefixCache (P := PagedKVCache)) w q :
  q ∉ callback_seqs (events c) -> SeqSlots.held (slot_manager w) q -> SeqSlots.held (slot_manager (run_events is_llama c w)) q.
Proof. intros Hq. destruct (run_events_spec is_llama (events c) w) as (_ & _ & _ & Ha). by apply (agree_held _ _ _ _ Ha). Qed.

(** The donors that an operation leaves and those it gives up. *)
Lemma run_events_accounts (c : RadixPrefixCache (P := PagedKVCache)) w b b' s new delta :
  accounts w b (new ++ s) -> sched_ok (run_events is_llama c w) ->
  refs_balance (prefix_cache w) c delta -> released_to (kv w) (kv_cache c) -> (forall j, claimed b' j = claimed b j + delta j) ->
  slot_ledger c ≡ₚ new ++ donors w -> accounts (run_events is_llama c w) b' s.
Proof.
  intros [H1 H2 H3 H4] Hok Hbal Hrel Hd Hled.
  assert (Hn : NoDup (s ++ slot_ledger c)) by (by rewrite Hled, app_assoc, (Permutation_app_comm s new)).
  unfold slot_ledger in Hn. constructor.
  - exact (ledger_balance _ _ _ _ _ H1 Hbal Hrel Hd).
  - done.
  - change (donors (run_events is_llama c w)) with (donor_seqs (contents c)). rewrite app_assoc in Hn. by apply NoDup_app in Hn as [Hn _].
  - apply Forall_app in H4 as [_ H4]. apply Forall_forall. intros q Hq. rewrite Forall_forall in H4. apply run_events_keep; [|by apply H4].
    intros Hc. apply NoDup_app in Hn as (_ & Hn & _). apply (Hn q Hq). set_solver.
Qed.

Lemma accounts_lookup w c tokens be hit res b s :
  accounts w b s -> Lookup alive (prefix_cache w) tokens be = (c, (hit, res)) ->
  accounts (set_prefix c w) b s /\
  (if hit then has_donor c (res_sequence_id res) (res_block_table res) else res_block_table res = [] /\ res_sequence_id res = -1).
Proof.
  intros [H1 H2 H3 H4] Hl. destruct (lookup_spec _ _ _ _ _ _ (ok_radix _ H2) Hl) as (Hi & (Hk & Hcb & _ & _ & _ & _ & He) & Hbal & Hds & Hres).
  split; [|done]. constructor; [| |by unfold donors in *; cbn; rewrite Hds|done].
  - apply (ledger_balance _ c _ b _ H1 Hbal); [rewrite Hk; apply released_to_refl|intros j; lia].
  - destruct H2 as [A1 A2 A3 A4 A5 A6 A7 A8]. constructor; cbn; try done; [congruence|congruence|unfold donors in *; cbn; by rewrite Hds|unfold donors in *; cbn; by rewrite Hds].
Qed.

Lemma accounts_evict w c q b s :
  accounts w b s -> EvictOneSequence alive (prefix_cache w) = (c, Some q) ->
  accounts (run_events is_llama c w) b s /\
  forall seq bt, has_donor (prefix_cache w) seq bt -> seq <> q -> has_donor (prefix_cache (run_events is_llama c w)) seq bt.
Proof.
  intros Hacc He. pose proof (acc_sched _ _ _ Hacc) as Hok. destruct (evict_spec _ _ _ (ok_radix _ Hok) He) as (Hbal & Hrel & Hdon).
  split; [|done]. destruct (evict_one alive _ _ _ (ok_radix _ Hok) (ok_callback _ Hok) He) as (_ & _ & Hled & _).
  apply (run_events_accounts c w b b s [] (fun _ => 0)); [done|by eapply evict_ok|done|done|intros j; lia|].
  rewrite Hled. unfold slot_ledger. rewrite (ok_events _ Hok). cbn. by rewrite app_nil_r.
Qed.

Lemma accounts_acquire req cap t0 t1 w m l b s :
  accounts w b s -> t0 < time_max -> SlotManager.AcquireLease (slot_manager w) req cap t0 t1 = (m, l) ->
  accounts (set_manager m w) b (option_list (lease_slot <$> l) ++ s).
Proof.
  intros Hacc Ht Ha. pose proof (acc_sched _ _ _ Hacc) as Hok. destruct l as [l|].
  - pose proof (acquire_granted _ _ _ _ _ _ _ Hok Ht Ha) as (_ & _ & _ & Hd & _).
    destruct (acquire_spec _ _ _ _ _ _ _ (ok_slots _ Hok) Ht Ha) as (sl & Hs & Hst & _ & _ & H0 & _ & Hnh & _ & Hwf & Hh & Haw).
    destruct (accounts_manager m w b s Hacc Hwf Hh Haw) as [A1 A2 A3 A4]. constructor; [done|done| |].
    + cbn. apply NoDup_cons. split; [|done]. rewrite elem_of_app. intros [Hin|Hin]; [|done]. apply Hnh.
      pose proof (acc_held _ _ _ Hacc) as Hf. rewrite Forall_forall in Hf. by apply Hf.
    + cbn. constructor; [|done]. split; [done|]. exists sl. rewrite Hst. set_solver.
  - destruct (acquire_none _ _ _ _ _ _ (ok_slots _ Hok) Ht Ha) as (Hwf & Hh & Haw & _). by apply accounts_manager.
Qed.

Lemma accounts_poll polled w b s : accounts w b s -> accounts (PollDeferredSequenceRetirements polled w) b s.
Proof.
  intros Hacc. pose proof (acc_sched _ _ _ Hacc) as Hok. destruct (poll_ok polled w Hok) as (Hok' & _ & Hp).
  assert (Hnd : forall q, q ∈ s -> q ∉ deferred_slots w).
  { intros q Hq. assert (Hp' : accounts w b (q :: filter (fun x => x <> q) s)) .
    { destruct Hacc as [A1 A2 A3 A4]. constructor; [done|done| |].
      - apply NoDup_app in A3 as (N1 & N2 & N3). cbn. apply NoDup_cons. split; [rewrite elem_of_app, list_elem_of_filter; naive_solver|].
        apply NoDup_app. split_and!; [by apply NoDup_filter| |done]. intros x [_ Hx]%list_elem_of_filter. by apply N2.
      - rewrite Forall_forall in A4. constructor; [by apply A4|]. apply Forall_forall. intros x [_ Hx]%list_elem_of_filter. by apply A4. }
    by destruct (claim_not_deferred _ _ _ _ Hp'). }
  destruct Hacc as [A1 A2 A3 A4]. constructor; [by rewrite Hp|done|by unfold donors; rewrite Hp|].
  unfold PollDeferredSequenceRetirements.
  pose proof (poll_loop_spec polled (deferred w) (slot_manager w) (ok_slots _ Hok) (ok_deferred_nodup _ Hok)) as Hl.
  destruct (poll_loop _ _ _) as [kept m]. destruct Hl as (_ & _ & Ha). cbn. apply Forall_forall. intros q Hq. rewrite Forall_forall in A4.
  eapply agree_held; [exact Ha| |by apply A4]. intros (d & -> & [_ Hd]%list_elem_of_filter)%list_elem_of_fmap. apply (Hnd _ Hq).
  by apply (list_elem_of_fmap_2 (fun d => lease_slot (d_lease d))).
Qed.

(** A slot is allocated to a new claim, and only the donors reported are gone. *)
Lemma accounts_retry fuel clk k req cap w retired b s :
  (forall i, clk i < time_max) -> accounts w b s ->
  let '(w', lease, retired') := retry_loop alive is_llama fuel clk k req cap w retired in
  accounts w' b (option_list (lease_slot <$> lease) ++ s) /\ retired ⊆ retired' /\
  forall seq bt, has_donor (prefix_cache w) seq bt -> seq ∉ retired' -> has_donor (prefix_cache w') seq bt.
Proof.
  intros Hclk. revert k w retired. induction fuel as [|fuel IH]; intros k w retired Hacc; cbn [retry_loop]; [done|].
  destruct (EvictOneSequence alive (prefix_cache w)) as [c [q|]] eqn:He; [|done].
  destruct (accounts_evict _ _ _ _ _ Hacc He) as [Hacc1 Hd1]. set (w1 := run_events is_llama c w) in *.
  destruct (SlotManager.AcquireLease _ _ _ _ _) as [m l] eqn:Ea. pose proof (accounts_acquire _ _ _ _ _ _ _ _ _ Hacc1 (Hclk _) Ea) as Hacc2.
  destruct l as [l|].
  - split_and!; [done|set_solver|]. intros seq bt Hs Hn. apply Hd1; set_solver.
  - cbn in Hacc2. specialize (IH (S k) (set_manager m w1) (retired ++ [q]) Hacc2).
    destruct (retry_loop _ _ _ _ _ _ _ _ _) as [[w' lease] retired']. destruct IH as (I1 & I2 & I3). split_and!; [done|set_solver|].
    intros seq bt Hs Hn. apply I3; [|done]. apply Hd1; set_solver.
Qed.

Lemma accounts_alloc polled clk req cap w b s :
  (forall i, clk i < time_max) -> accounts w b s ->
  let '(w', res, retired) := AllocSeqSlot alive is_llama polled clk req cap w in
  accounts w' b (option_list (fst <$> res) ++ s) /\
  forall seq bt, has_donor (prefix_cache w) seq bt -> seq ∉ retired -> has_donor (prefix_cache w') seq bt.
Proof.
  intros Hclk Hacc. unfold AllocSeqSlot. cbv zeta. pose proof (accounts_poll polled _ _ _ Hacc) as Hacc1.
  destruct (poll_ok polled w (acc_sched _ _ _ Hacc)) as (_ & _ & Hp). set (w1 := PollDeferredSequenceRetirements polled w) in *.
  destruct (SlotManager.AcquireLease _ _ _ _ _) as [m l] eqn:Ea. pose proof (accounts_acquire _ _ _ _ _ _ _ _ _ Hacc1 (Hclk _) Ea) as Hacc2.
  destruct l as [l|].
  - cbn. split; [done|]. intros seq bt. by rewrite Hp.
  - pose proof (accounts_retry (retry_fuel (set_manager m w1)) clk 1 req cap _ [] b s Hclk Hacc2) as Hr.
    destruct (retry_loop _ _ _ _ _ _ _ _ _) as [[w' lease] retired]. destruct Hr as (R1 & _ & R3). split; [by destruct lease|].
    intros seq bt Hs. apply R3. cbn. by rewrite Hp.
Qed.

(** A donation moves the blocks and the slot to the prefix cache. *)
Lemma accounts_donate tokens bt seq be w b s :
  accounts w (bt ++ b) (seq :: s) ->
  let '(w', ok) := Donate alive is_llama tokens bt seq be w in
  if ok then accounts w' b s else accounts w' (bt ++ b) (seq :: s).
Proof.
  intros Hacc. destruct (claim_not_deferred _ _ _ _ Hacc) as (_ & Hnd & Hh). pose proof (acc_sched _ _ _ Hacc) as Hok.
  pose proof (donate_ok alive is_llama tokens bt seq be w Hok Hh Hnd) as Hok'. unfold Donate in *.
  destruct (Insert _ _ _ _ _ _) as [c []] eqn:E; cbn in Hok'.
  - pose proof Hh as [H0 _]. eapply (run_events_accounts c w (bt ++ b) b s [seq]); [done|done|by eapply Insert_balance, E; apply Hok|by eapply insert_released, E; apply Hok| |].
    + intros j. rewrite claimed_app. unfold claimed. lia.
    + rewrite (Insert_ledger _ _ _ _ _ _ _ (ok_radix _ Hok) (ok_callback _ Hok) E H0 Hnd). unfold slot_ledger. rewrite (ok_events _ Hok). cbn. by rewrite app_nil_r.
  - apply insert_false in E as ->. destruct Hacc as [A1 A2 A3 A4]. unfold run_events in *. rewrite (ok_events _ Hok) in *. by constructor.
Qed.
End Cache.

(** ** Sessions *)

Definition slot_of (seq : Z) : list Z := if 0 <=? seq then [seq] else [].
Definition slots_kept (l : list SessionHandleState) : list Z := flat_map (fun st => slot_of (ss_sequence_id st)) l.

(** The states of the sessions that no request has taken over. *)
Definition idle (taken : gset string) (es : gmap string Entry) : list SessionHandleState := stored (filter (fun ke => ke.1 ∉ taken) es).

Lemma idle_update taken es id e : id ∉ taken -> idle taken (<[id := e]> es) ≡ₚ held_state e ++ idle taken (delete id es).
Proof.
  intros Hi. unfold idle. rewrite <- insert_delete_eq. rewrite map_filter_insert_True by done. apply stored_insert.
  rewrite map_lookup_filter_None. left. apply lookup_delete_eq.
Qed.

Lemma idle_delete taken es id e : id ∉ taken -> es !! id = Some e -> idle taken es ≡ₚ held_state e ++ idle taken (delete id es).
Proof. intros Hi He. rewrite <- idle_update by done. by rewrite insert_id. Qed.

Lemma idle_gone taken es id : id ∉ taken -> es !! id = None -> idle taken (delete id es) = idle taken es.
Proof. intros Hi He. by rewrite delete_id. Qed.

(** The sessions that are not named. *)
Lemma idle_take taken es id : idle ({[id]} ∪ taken) es = idle taken (delete id es).
Proof.
  unfold idle. f_equal. apply map_eq. intros k. apply option_eq. intros e. rewrite !map_lookup_filter_Some, lookup_delete_Some. set_solver.
Qed.

Lemma idle_untake taken es id : id ∈ taken -> idle taken es = idle (taken ∖ {[id]}) (delete id es).
Proof. intros Hi. rewrite <- idle_take. f_equal. apply leibniz_equiv. intros k. destruct (decide (k = id)); set_solver. Qed.

(** What a request that uses a session leaves to it. *)
Lemma acquire_idle iteration taken (m m' : SessionHandleManager) id now r :
  (forall es, iteration es ≡ₚ map_to_list es) -> (forall k, k ∈ taken -> exists e, entries m !! k = Some e /\ in_use e = true) ->
  SessionHandles.AcquireLease iteration m id now = (m', r) ->
  idle taken (entries m) ≡ₚ cleanup_states r ++ idle taken (entries m') /\
  (forall k, k ∈ taken -> exists e, entries m' !! k = Some e /\ in_use e = true) /\
  match status r with
  | kBusy => True
  | kAcquired => id ∉ taken /\ exists e, entries m' !! id = Some e /\ in_use e = true /\ lr_state r = (if has_state e then Some (entry_state e) else None)
  end.
Proof.
  intros Hit Htk. unfold SessionHandles.AcquireLease. case_bool_decide as Hid; [by intros [= <- <-]|].
  destruct (entries m !! id) as [e|] eqn:He.
  - destruct (in_use e) eqn:Hu; [by intros [= <- <-]|]. intros [= <- <-]. cbn.
    assert (Hnt : id ∉ taken) by (intros Hin; destruct (Htk _ Hin) as (e' & He' & Hu'); congruence).
    split_and!; [rewrite (idle_delete _ _ _ _ Hnt He), idle_update by done|intros k Hk; rewrite lookup_insert_ne by (by intros ->); by apply Htk|done|].
    + unfold held_state. cbn. by destruct (has_state e), (expires_at e <=? now).
    + eexists. rewrite lookup_insert_eq. split; [done|]. cbn. by destruct (has_state e), (expires_at e <=? now).
  - assert (Hnt : id ∉ taken) by (intros Hin; destruct (Htk _ Hin) as (e' & He' & Hu'); congruence).
    destruct (_ <=? _)%nat.
    + destruct (FindEvictionCandidateLocked _ _) as [[k e]|] eqn:Hf; [|by intros [= <- <-]]. intros [= <- <-]. cbn.
      apply (find_candidate_spec iteration Hit) in Hf as [[[=]|[Hin Hu]] _]. apply (iteration_lookup iteration Hit) in Hin.
      assert (Hk : k ∉ taken) by (intros Hx; destruct (Htk _ Hx) as (e' & He' & Hu'); congruence).
      split_and!; [|intros k' Hk'; rewrite lookup_insert_ne by (by intros ->); rewrite lookup_delete_ne by (by intros ->); by apply Htk|done|].
      * rewrite idle_update by done. cbn. rewrite idle_gone by (try done; apply lookup_delete_None; by right). by apply idle_delete.
      * eexists. by rewrite lookup_insert_eq.
    + intros [= <- <-]. cbn. split_and!; [rewrite idle_update by done; cbn; by rewrite idle_gone|intros k' Hk'; rewrite lookup_insert_ne by (by intros ->); by apply Htk|done|].
      eexists. by rewrite lookup_insert_eq.
Qed.

Lemma accounts_release_session fence now router st be w b s :
  now < time_max -> accounts w (ss_block_table st ++ b) (slot_of (ss_sequence_id st) ++ s) -> accounts (ReleaseSessionState fence now router st be w) b s.
Proof.
  intros Ht Ha. unfold ReleaseSessionState, slot_of in *. destruct ((_ <? 0) && _) eqn:E.
  - apply andb_true_iff in E as [E1%Z.ltb_lt E2%bool_decide_eq_true]. rewrite E2, (proj2 (Z.leb_gt _ _) E1) in Ha. done.
  - cbv zeta. rewrite release_blocks_eq. apply accounts_release in Ha. destruct (0 <=? ss_sequence_id st); [|done]. by apply accounts_free.
Qed.

Lemma accounts_release_sessions fence now router l w b s :
  now < time_max -> accounts w (blocks_kept l ++ b) (slots_kept l ++ s) ->
  accounts (foldl (fun w st => ReleaseSessionState fence now router st None w) w l) b s.
Proof.
  intros Ht. revert w. induction l as [|st l IH]; intros w Ha; [done|]. cbn [foldl]. apply IH.
  apply accounts_release_session; [done|]. cbn in Ha. by rewrite <- !app_assoc in Ha.
Qed.

(** The books of the whole scheduler: [blocks] and [slots] are those of requests. *)
Definition balanced (sy : System (P := PagedKVCache)) (taken : gset string) (blocks slots : list Z) : Prop :=
  let l := match sessions sy with Some ss => idle taken (entries ss) | None => [] end in
  accounts (sched sy) (blocks_kept l ++ blocks) (slots_kept l ++ slots) /\
  match sessions sy with Some ss => forall k, k ∈ taken -> exists e, entries ss !! k = Some e /\ in_use e = true | None => True end.

Lemma blocks_kept_perm l k : l ≡ₚ k -> blocks_kept l ≡ₚ blocks_kept k.
Proof. apply Permutation_flat_map. Qed.

Lemma slots_kept_perm l k : l ≡ₚ k -> slots_kept l ≡ₚ slots_kept k.
Proof. apply Permutation_flat_map. Qed.

Lemma accounts_none w b b' s : kv w = None -> accounts w b s -> accounts w b' s.
Proof. intros Hk [H1 H2 H3 H4]. constructor; try done. unfold ledger. by rewrite Hk. Qed.

(** A request takes over the state of its session, or leaves it. *)
Lemma balanced_take w ss taken id e b s :
  id ∉ taken -> entries ss !! id = Some e -> in_use e = true -> has_state e = true ->
  balanced (mkSystem w (Some ss)) taken b s <->
  balanced (mkSystem w (Some ss)) ({[id]} ∪ taken) (ss_block_table (entry_state e) ++ b) (slot_of (ss_sequence_id (entry_state e)) ++ s).
Proof.
  intros Hn He Hu Hs. unfold balanced. cbn [sessions sched].
  assert (Hp : idle taken (entries ss) ≡ₚ entry_state e :: idle ({[id]} ∪ taken) (entries ss)).
  { rewrite idle_take, (idle_delete _ _ _ _ Hn He). unfold held_state. by rewrite Hs. }
  split; intros [Ha Ht].
  - split; [|intros k [->%elem_of_singleton|Hk]%elem_of_union; eauto].
    eapply accounts_perm; [| |exact Ha]; [rewrite (blocks_kept_perm _ _ Hp)|rewrite (slots_kept_perm _ _ Hp)]; cbn; solve_Permutation.
  - split; [|intros k Hk; apply Ht; set_solver].
    eapply accounts_perm; [| |exact Ha]; [rewrite (blocks_kept_perm _ _ Hp)|rewrite (slots_kept_perm _ _ Hp)]; cbn; solve_Permutation.
Qed.

(** ** Slots that go on *)

Abbreviation live_states := [kPrefilling; kDecoding; kCompleted].

(** [f] leaves a slot live, or what it was. *)
Definition keeps_slot (f : SequenceSlot -> SequenceSlot) (s : SequenceSlot) : Prop :=
  (state (f s) = state s /\ generation (f s) = generation s /\ retire_ready_at (f s) = retire_ready_at s) \/
  (state s ∈ live_states /\ state (f s) ∈ live_states).

Lemma accounts_update i f w b s :
  accounts w b s -> (forall sl, slot_id (f sl) = slot_id sl) -> (forall sl, slots (slot_manager w) !! i = Some sl -> keeps_slot f sl) ->
  accounts (set_manager (update_slot (slot_manager w) i f) w) b s.
Proof.
  intros Ha Hid Hf. apply accounts_manager; [done|apply update_wf; [done|apply (ok_slots _ (acc_sched _ _ _ Ha))]| |].
  - intros q (H0 & sl & Hs & Hst). split; [done|]. cbn. rewrite list_lookup_alter. case_decide as E; [|eauto]. subst i. rewrite Hs. eexists. split; [done|].
    destruct (Hf _ Hs) as [(-> & _)|[_ ?]]; done.
  - intros l (H0 & sl & Hs & Hg & Hst & Hr). split; [done|]. cbn. rewrite list_lookup_alter. case_decide as E; [|eauto]. subst i. rewrite Hs. eexists.
    split; [done|]. destruct (Hf _ Hs) as [(-> & -> & ->)|[Hx _]]; [done|]. rewrite Hst in Hx. set_solver.
Qed.

(** An operation under a lease of a live slot. *)
Lemma accounts_lease l acc f w b s :
  accounts w b s -> acc ⊆ live_states -> (forall sl, slot_id (f sl) = slot_id sl) -> (forall sl, state (f sl) ∈ live_states) ->
  accounts (set_manager (match LockAndValidateLease (slot_manager w) l acc with None => (slot_manager w, false) | Some i => (update_slot (slot_manager w) i f, true) end).1 w) b s.
Proof.
  intros Ha Hacc Hid Hst. destruct (LockAndValidateLease _ _ _) as [i|] eqn:E; [|by destruct w].
  apply LockAndValidateLease_Some in E as (sl & Hs & _ & _ & Hin & _). cbn. apply accounts_update; [done|done|].
  intros sl' Hs'. rewrite Hs in Hs'. injection Hs' as <-. right. split; [|done]. by apply Hacc.
Qed.

(** ** Free blocks *)

Lemma count_if_mono {A} (f : A -> bool) (l k : list A) :
  Forall2 (fun x y => f x = true -> f y = true) l k -> (count_if f l <= count_if f k)%nat.
Proof. induction 1 as [|x y l k Hxy _ IH]; cbn; [done|]. destruct (f x), (f y); lia || (by specialize (Hxy eq_refl)). Qed.

Lemma release_frees n pg : KVCache.is_free pg = true -> KVCache.is_free (Nat.iter n release_page pg) = true.
Proof.
  induction n as [|n IH]; [done|]. intros Hf. rewrite Nat.iter_succ. specialize (IH Hf). unfold release_page at 1. by destruct (_ <? _).
Qed.

Lemma release_free_blocks p ids : (NumFreeBlocks p <= NumFreeBlocks (ReleaseBlocksRef p ids))%nat.
Proof.
  unfold NumFreeBlocks. apply count_if_mono, Forall2_same_length_lookup_2.
  - unfold ReleaseBlocksRef. by rewrite ReleaseBlocks_length.
  - intros i x y Hx Hy. unfold ReleaseBlocksRef in Hy. rewrite ReleaseBlocks_lookup, Hx in Hy. injection Hy as <-. apply release_frees.
Qed.

(** At least [n] blocks are free, if there is a pool. *)
Definition enough (n : nat) (w : World) : Prop := forall p, kv w = Some p -> (n <= NumFreeBlocks p)%nat.

Lemma enough_released n w w' : released_to (kv w) (kv w') -> enough n w -> enough n w'.
Proof.
  intros [ids Hk] Hn p Hp. rewrite Hk in Hp. apply fmap_Some in Hp as (p0 & Hp0 & ->). specialize (Hn _ Hp0). pose proof (release_free_blocks p0 ids). lia.
Qed.

Lemma session_releases fence now router st be w : released_to (kv w) (kv (ReleaseSessionState fence now router st be w)).
Proof.
  unfold ReleaseSessionState. destruct (_ && _); [apply released_to_refl|]. cbv zeta. destruct (0 <=? _); [rewrite free_slot_kv|]; apply released_to_table.
Qed.

Lemma sessions_release fence now router l w : released_to (kv w) (kv (foldl (fun w st => ReleaseSessionState fence now router st None w) w l)).
Proof.
  revert w. induction l as [|st l IH]; intros w; cbn [foldl]; [apply released_to_refl|]. eapply released_to_trans; [apply session_releases|apply IH].
Qed.
