(* ===== verification/Admission.v ===== *)
(** * scheduler: admitting and finishing a request

    What [ProcessBatch] of scheduler.cpp does with one request before and after its
    execution, in unified mode (no decode workers): the session or the prefix cache is consulted, blocks are
    reserved, a slot is allocated, the prompt is evaluated or left to the executor; at the end
    slot and blocks go to the prefix cache, to the session or back.  The request, the
    sessions and the pools are those of RequestRelease.v; [others] are the other requests of the batch,
    whose blocks may be swapped out to make room. *)

From stdpp Require Import base tactics numbers list strings gmap sets.
From S2P Require Import Prelude KVCache SessionHandles RadixCache SlotManager SeqSlots RequestRelease Accounts.
From S2P Require GeneratedText Executor PhasedPrefill.

Local Open Scope Z_scope.

(** [RequestRelease.Request] with the other fields that admission reads or writes. *)
Record Pending := mkPending {
  base : Request; has_images : bool; has_format : bool; collect_logprobs : bool; logprob_top_n : Z; max_tokens : Z;
  reported_prompt_tokens : Z; first_token : Z; first_piece : bytes; first_logprob : option GeneratedText.TokenLogprob; prefill_offset : Z;
  cache_matched_tokens : Z; cache_reused_tokens : Z; cache_reuse_pending_tokens : Z; is_swapped : bool; swapped_host_handles : list Z }.

Definition tokens (p : Pending) : list Z := bpe_prompt_tokens (base p).
Definition prompt_size (p : Pending) : Z := Z.of_nat (length (tokens p)).

(** The backend that the request was resolved to, as far as admission asks it.  [keeps_legacy]: requests
    for log-probabilities stay on the path of their own. *)
Record LlamaBackend := mkLlama {
  ready : bool; native : bool; keeps_legacy : bool; sequence_capacity : Z; async_batches : bool; batch_capacity : Z;
  copy_prefix : Z -> Z -> Z -> bool; truncates : Z -> bool;
  answers : nat -> Executor.UnifiedBatchInput -> option (list Executor.UnifiedBatchOutput);
  prefill_partial : Z -> Z -> option PhasedPrefill.PrefillResult; prefill_full : Z -> option PhasedPrefill.PrefillResult }.

Definition kTokensPerBlock : nat := 16.
Definition kMinPrefixTokens : Z := 32.

(** ** Fields of the request *)

Definition on_base (f : Request -> Request) (p : Pending) : Pending :=
  mkPending (f (base p)) (has_images p) (has_format p) (collect_logprobs p) (logprob_top_n p) (max_tokens p) (reported_prompt_tokens p)
    (first_token p) (first_piece p) (first_logprob p) (prefill_offset p) (cache_matched_tokens p) (cache_reused_tokens p)
    (cache_reuse_pending_tokens p) (is_swapped p) (swapped_host_handles p).

Definition set_tokens (l : list Z) (r : Request) : Request :=
  mkRequest (r_id r) (r_model r) (resolved_model r) (session_id r) (session_lease_acquired r) (r_sequence_id r) (r_generation r)
    (cache_prefill_complete r) l (n_past r) (prompt_bpe_tokens r) (r_block_table r) (resolved_backend r).

Definition set_lease (b : bool) (r : Request) : Request :=
  mkRequest (r_id r) (r_model r) (resolved_model r) (session_id r) b (r_sequence_id r) (r_generation r)
    (cache_prefill_complete r) (bpe_prompt_tokens r) (n_past r) (prompt_bpe_tokens r) (r_block_table r) (resolved_backend r).

Definition set_complete (b : bool) (r : Request) : Request :=
  mkRequest (r_id r) (r_model r) (resolved_model r) (session_id r) (session_lease_acquired r) (r_sequence_id r) (r_generation r)
    b (bpe_prompt_tokens r) (n_past r) (prompt_bpe_tokens r) (r_block_table r) (resolved_backend r).

Definition set_blocks (bt : list Z) (r : Request) : Request :=
  mkRequest (r_id r) (r_model r) (resolved_model r) (session_id r) (session_lease_acquired r) (r_sequence_id r) (r_generation r)
    (cache_prefill_complete r) (bpe_prompt_tokens r) (n_past r) (prompt_bpe_tokens r) bt (resolved_backend r).

Definition set_place (seq gen past pbt : Z) (r : Request) : Request :=
  mkRequest (r_id r) (r_model r) (resolved_model r) (session_id r) (session_lease_acquired r) seq gen
    (cache_prefill_complete r) (bpe_prompt_tokens r) past pbt (r_block_table r) (resolved_backend r).

Definition set_cache (matched reused pending : Z) (p : Pending) : Pending :=
  mkPending (base p) (has_images p) (has_format p) (collect_logprobs p) (logprob_top_n p) (max_tokens p) (reported_prompt_tokens p)
    (first_token p) (first_piece p) (first_logprob p) (prefill_offset p) matched reused pending (is_swapped p) (swapped_host_handles p).

Definition set_reported (n : Z) (p : Pending) : Pending :=
  mkPending (base p) (has_images p) (has_format p) (collect_logprobs p) (logprob_top_n p) (max_tokens p) n
    (first_token p) (first_piece p) (first_logprob p) (prefill_offset p) (cache_matched_tokens p) (cache_reused_tokens p)
    (cache_reuse_pending_tokens p) (is_swapped p) (swapped_host_handles p).

Definition set_first (token : Z) (piece : bytes) (lp : option GeneratedText.TokenLogprob) (offset : Z) (p : Pending) : Pending :=
  mkPending (base p) (has_images p) (has_format p) (collect_logprobs p) (logprob_top_n p) (max_tokens p) (reported_prompt_tokens p)
    token piece lp offset (cache_matched_tokens p) (cache_reused_tokens p) (cache_reuse_pending_tokens p) (is_swapped p) (swapped_host_handles p).

Definition set_swapped (handles : list Z) (p : Pending) : Pending :=
  mkPending (set_blocks [] (base p)) (has_images p) (has_format p) (collect_logprobs p) (logprob_top_n p) (max_tokens p) (reported_prompt_tokens p)
    (first_token p) (first_piece p) (first_logprob p) (prefill_offset p) (cache_matched_tokens p) (cache_reused_tokens p)
    (cache_reuse_pending_tokens p) true handles.

(** The fields that evaluating a prompt reads. *)
Definition prefill_view (p : Pending) : Executor.Request :=
  Executor.mkRequest [] [] (-1) (tokens p) [] (max_tokens p) [] false (collect_logprobs p) (logprob_top_n p) 0.

(** ** What is already there *)

(** [prefix_hit], [reused_session_state], [cached_blocks], [cached_seq_id], its generation, [matched_tokens] *)
Record Candidate := mkCandidate { prefix_hit : bool; reused : bool; c_blocks : list Z; c_seq : Z; c_gen : Z; c_matched : Z }.

Definition no_candidate : Candidate := mkCandidate false false [] (-1) 0 0.

Definition TokensHavePrefix (tokens prefix : list Z) : bool :=
  if (length tokens <? length prefix)%nat then false else bool_decide (take (length prefix) tokens = prefix).

Section Admit.
Context (alive is_llama : nat -> bool) (iteration : gmap string Entry -> list (string * Entry)) (polled : DeferredSequenceRetirement -> bool)
  (clk : nat -> Z) (fence : SequenceReleaseFence) (now : Z) (router : string -> option nat).

Abbreviation Sys := (System (P := PagedKVCache)).

Definition compatible (r : Request) (st : SessionHandleState) : bool :=
  let resolved := if bool_decide (resolved_model r = "") then r_model r else resolved_model r in
  (bool_decide (model_id st = "") || bool_decide (resolved = "") || bool_decide (model_id st = resolved)) &&
  TokensHavePrefix (bpe_prompt_tokens r) (SessionHandles.prompt_tokens st) && (0 <=? ss_sequence_id st).

Definition take_session (r : Request) (sy : Sys) : Sys * Request * Candidate :=
  match sessions sy with
  | Some ss =>
      if negb (RequestUsesSessionHandle sy r) then (sy, set_lease false r, no_candidate)
      else if session_lease_acquired r then (sy, r, no_candidate)
      else
        let '(ss', lease) := SessionHandles.AcquireLease iteration ss (session_id r) now in
        let w := foldl (fun w st => ReleaseSessionState fence now router st None w) (sched sy) (cleanup_states lease) in
        match status lease with
        | kBusy => (mkSystem w (Some ss'), r, no_candidate)
        | kAcquired =>
            let r := set_lease true r in
            match lr_state lease with
            | None => (mkSystem w (Some ss'), r, no_candidate)
            | Some st =>
                if compatible r st then
                  (mkSystem w (Some ss'), r,
                   mkCandidate true true (ss_block_table st) (ss_sequence_id st) (sequence_generation st) (Z.of_nat (length (SessionHandles.prompt_tokens st))))
                else (mkSystem (ReleaseSessionState fence now router st (resolved_backend r) w) (Some (DiscardLeasedState ss' (session_id r))), r, no_candidate)
            end
        end
  | None => (sy, set_lease false r, no_candidate)
  end.

Definition consult_cache (r : Request) (c : Candidate) (w : World) : World * Candidate :=
  if reused c then (w, c)
  else
    let '(rc, (hit, res)) := Lookup alive (prefix_cache w) (bpe_prompt_tokens r) (resolved_backend r) in
    (set_prefix rc w, mkCandidate hit false (res_block_table res) (res_sequence_id res) 0 (res_matched_tokens res)).

(** ** Blocks *)

Definition total_blocks_needed (prompt_len : nat) : nat := ((prompt_len + kTokensPerBlock - 1) / kTokensPerBlock + 1)%nat.

Definition TrySwapOut (p : Pending) (w : World) : World * Pending * bool :=
  match kv w with
  | None => (w, p, false)
  | Some c =>
      if is_swapped p || bool_decide (r_block_table (base p) = []) then (w, p, false)
      else match SwapOut c (r_block_table (base p)) with
           | (c', Throw _) => (set_kv (Some c') w, p, false)
           | (c', Ret handles) => (set_kv (Some c') w, set_swapped handles p, true)
           end
  end.

(** The victims, the last of the batch first. *)
Fixpoint make_room (victims : list Pending) (w : World) : World * list Pending :=
  match victims with
  | [] => (w, [])
  | v :: vs =>
      let '(w, v, ok) := if bool_decide (r_block_table (base v) = []) then (w, v, false) else TrySwapOut v w in
      if ok then (w, v :: vs) else let '(w, vs) := make_room vs w in (w, v :: vs)
  end.

Definition reserve (n : nat) (w : World) : World * list Z :=
  match kv w with
  | None => (w, [])
  | Some p =>
      if (n <=? NumFreeBlocks p)%nat && (0 <? n)%nat then
        match ReserveBlocks p n with
        | (p', Ret ids) => (set_kv (Some p') w, ids)
        | (p', Throw _) => (set_kv (Some p') w, [])
        end
      else (w, [])
  end.

Definition reserve_blocks (n : nat) (others : list Pending) (w : World) : World * list Z * list Pending :=
  let '(w, others) :=
    match kv w with
    | Some p => if (NumFreeBlocks p <? n)%nat then let '(w, vs) := make_room (reverse others) w in (w, reverse vs) else (w, others)
    | None => (w, others)
    end in
  let '(w, new) := reserve n w in (w, new, others).

Definition acquire_blocks (bt : list Z) (w : World) : World := set_kv ((fun p => AcquireBlocks p bt) <$> kv w) w.

(** ** A slot *)

Section Backend.
Context (be : LlamaBackend).

(** The slot ([-1] for none), its generation and the donors given up for it. *)
Definition get_slot (r : Request) (c : Candidate) (w : World) : World * Z * Z * list Z :=
  if reused c then (w, c_seq c, c_gen c, [])
  else
    let '(w, res, retired) := AllocSeqSlot alive is_llama polled clk (r_id r) (sequence_capacity be) w in
    match res with Some (slot, gen) => (w, slot, gen, retired) | None => (w, -1, 0, retired) end.

(** When the donor of the candidate was given up for the slot, the candidate is dropped. *)
Definition recheck (c : Candidate) (retired : list Z) (total needed : nat) (new : list Z) (w : World) : World * Candidate * nat * list Z :=
  if bool_decide (retired <> []) && prefix_hit c && negb (reused c) && bool_decide (c_seq c ∈ retired) then
    let '(w, new) := match kv w with Some _ => reserve total (release_blocks_always new w) | None => (w, new) end in
    (w, mkCandidate false (reused c) [] (-1) (c_gen c) 0, total, new)
  else (w, c, needed, new).

(** [ResolvePrefixReuse]: where to start, and whether the beginning was there. *)
Definition ResolvePrefixReuse (p : Pending) (c : Candidate) (seq : Z) : Z * bool :=
  if negb (prefix_hit c && (0 <? c_matched c) && (0 <=? c_seq c)) then (0, false)
  else
    let start := Z.min (Z.max (c_matched c) 0) (prompt_size p) in
    let start := if bool_decide (tokens p <> []) && (prompt_size p <=? start) then prompt_size p - 1 else start in
    if reused c then (start, true)
    else if copy_prefix be (c_seq c) seq start then (start, true) else (0, false).

Definition sync_slot (r : Request) (w : World) : World :=
  if r_sequence_id r <? 0 then w
  else set_manager (UpdateTokenCount (slot_manager w) (r_sequence_id r) (ResidentSequenceTokenCount r)) w.

(** A retained session takes its slot up again. *)
Definition restore (r : Request) (c : Candidate) (seq gen : Z) (w : World) : World * bool :=
  if reused c && negb (gen =? 0) then
    let '(m, ok) := RestoreLease (slot_manager w) (mkLease seq gen (r_id r)) (r_id r) seq
                      (Z.max (c_matched c) (Z.of_nat (length (bpe_prompt_tokens r)))) now in
    (set_manager m w, ok)
  else (w, true).

(** Warm blocks of the prefix cache get a reference of their own; those of a session have it. *)
Definition own_blocks (c : Candidate) (new : list Z) (p : Pending) (w : World) : World * Pending :=
  match kv w with
  | None => (w, p)
  | Some _ => (if reused c then w else acquire_blocks (c_blocks c) w, on_base (set_blocks (c_blocks c ++ new)) p)
  end.

(** ** The prompt *)

Definition defer_prefill (c : Candidate) (seq gen : Z) (p : Pending) (w : World) : World * Pending :=
  let '(start, copied) := ResolvePrefixReuse p c seq in
  let p := set_first (-1) [] (first_logprob p) start (on_base (set_place seq gen start (prompt_size p)) p) in
  (sync_slot (base p) w, set_cache (cache_matched_tokens p) (cache_reused_tokens p) (if copied then start else 0) p).

(** The result, whether it used the cached beginning, and where it started. *)
Definition evaluate (chunked_prefill_tokens : Z) (p : Pending) (c : Candidate) (seq : Z) : option PhasedPrefill.PrefillResult * bool * Z :=
  let '(start, copied) := ResolvePrefixReuse p c seq in
  match (PhasedPrefill.ExecutePhasedPrefillStep (prefill_view p) seq (truncates be) (answers be) start (batch_capacity be) chunked_prefill_tokens).2 with
  | Some pr => (Some pr, copied, start)
  | None =>
      match (if copied then prefill_partial be seq start else None) with
      | Some pr => (Some pr, copied, start)
      | None => match prefill_full be seq with Some pr => (Some pr, false, 0) | None => (None, copied, start) end
      end
  end.

Definition prefill_done (pr : PhasedPrefill.PrefillResult) (copied : bool) (start seq gen : Z) (p : Pending) (w : World) : World * Pending :=
  let past := PhasedPrefill.r_n_past pr in
  let p := on_base (fun r => set_complete true (set_place seq gen past past r)) p in
  let p := set_first (PhasedPrefill.r_first_token pr) (PhasedPrefill.r_first_piece pr) (PhasedPrefill.r_first_logprob pr) (prefill_offset p) p in
  (sync_slot (base p) w, set_cache (cache_matched_tokens p) (if copied then start else 0) (cache_reuse_pending_tokens p) p).

(** Neither evaluation worked: everything is given back. *)
Definition prefill_failed (c : Candidate) (seq gen : Z) (p : Pending) (sy : Sys) : Sys * Pending :=
  let r := base p in
  let w := FreeSeqSlot fence now now now seq gen (resolved_backend r) (release_blocks_always (r_block_table r) (sched sy)) in
  let ss := if reused c && session_lease_acquired r then (fun ss => DiscardLeasedState ss (session_id r)) <$> sessions sy else sessions sy in
  (mkSystem w ss, on_base (fun r => set_place (-1) 0 (-1) (prompt_bpe_tokens r) (set_blocks [] r)) p).

Definition start_prompt (chunked_prefill_tokens : Z) (c : Candidate) (seq gen : Z) (p : Pending) (sy : Sys) : Sys * Pending :=
  if async_batches be && negb (has_format p) && negb (has_images p) && bool_decide (tokens p <> []) then
    let '(w, p) := defer_prefill c seq gen p (sched sy) in (mkSystem w (sessions sy), p)
  else
    match evaluate chunked_prefill_tokens p c seq with
    | (Some pr, copied, start) => let '(w, p) := prefill_done pr copied start seq gen p (sched sy) in (mkSystem w (sessions sy), p)
    | (None, _, _) => prefill_failed c seq gen p sy
    end.

(** ** Admission *)

Inductive Verdict := Staged | ContextOverflow.

(** The request runs on the path of its own, without slot and blocks. *)
Definition bypass (p : Pending) : Pending :=
  set_first (-1) [] (first_logprob p) 0
    (set_cache (cache_matched_tokens p) 0 0 (on_base (fun r => set_complete false (set_place (-1) 0 (-1) 0 r)) p)).

Definition overflows (kv_max_seq : Z) (p : Pending) : bool :=
  native be && (0 <? kv_max_seq) && (kv_max_seq <? prompt_size p + max_tokens p).

Definition grant (chunked_prefill_tokens : Z) (c : Candidate) (seq gen : Z) (new : list Z) (p : Pending) (sy : Sys) : Sys * Pending :=
  let '(w, p) := own_blocks c new p (sched sy) in start_prompt chunked_prefill_tokens c seq gen p (mkSystem w (sessions sy)).

Definition refuse (c : Candidate) (seq gen : Z) (new : list Z) (w : World) : World :=
  let w := release_blocks_always new w in
  if (0 <=? seq) && negb (reused c) then FreeSeqSlot fence now now now seq gen None w else w.

Definition reserve_and_grant (chunked_prefill_tokens : Z) (c : Candidate) (p : Pending) (others : list Pending) (sy : Sys) : Sys * Pending * list Pending :=
  let total := total_blocks_needed (length (tokens p)) in
  let needed := (total - length (c_blocks c))%nat in
  let '(w, new, others) := reserve_blocks needed others (sched sy) in
  let '(w, seq, gen, retired) := get_slot (base p) c w in
  let '(w, c, needed, new) := recheck c retired total needed new w in
  let can_admit := (0 <=? seq) && (bool_decide (kv w = None) || (needed =? 0)%nat || bool_decide (new <> [])) in
  let '(w, can_admit) := if can_admit then restore (base p) c seq gen w else (w, false) in
  if can_admit then let '(sy, p) := grant chunked_prefill_tokens c seq gen new p (mkSystem w (sessions sy)) in (sy, p, others)
  else (mkSystem (refuse c seq gen new w) (sessions sy), p, others).

(** The prompt in the tokens of the backend, which are the ones that are reported. *)
Definition prepare (tokenized : list Z) (p : Pending) : Pending :=
  let p := if bool_decide (tokens p = []) then on_base (set_tokens tokenized) p else p in
  if negb (has_images p) && bool_decide (tokens p <> []) then set_reported (prompt_size p) p else p.

(** [tokenized]: what [TokenizeForCache] makes of the prompt; [logprobs_disabled]:
    [PhasedLogprobsDisabled]. *)
Definition admit_request (tokenized : list Z) (logprobs_disabled : bool) (kv_max_seq chunked_prefill_tokens : Z) (p : Pending) (others : list Pending) (sy : Sys)
    : Sys * Pending * list Pending * Verdict :=
  if (0 <=? r_sequence_id (base p)) && (0 <=? n_past (base p)) && (0 <=? first_token p) then (sy, p, others, Staged)
  else if negb (ready be) then (sy, p, others, Staged)
  else
    let p := prepare tokenized p in
    if has_images p || has_format p || (collect_logprobs p && (keeps_legacy be || logprobs_disabled)) then (sy, bypass p, others, Staged)
    else
      let '(sy, r, c) := take_session (base p) sy in
      let p := on_base (fun _ => r) p in
      let '(w, c) := consult_cache r c (sched sy) in
      let p := set_cache (if prefix_hit c then c_matched c else 0) 0 0 (on_base (set_complete false) p) in
      if overflows kv_max_seq p then (mkSystem w (sessions sy), p, others, ContextOverflow)
      else let '(sy, p, others) := reserve_and_grant chunked_prefill_tokens c p others (mkSystem w (sessions sy)) in (sy, p, others, Staged).
End Backend.

(** ** The end of a request *)

Definition session_owned (r : Request) (sy : Sys) : bool := session_lease_acquired r && RequestUsesSessionHandle sy r.

(** The blocks get a reference for the prefix cache, which it takes or not. *)
Definition donate (r : Request) (w : World) : World * bool :=
  let w := acquire_blocks (r_block_table r) w in
  let '(w, donated) := Donate alive is_llama (bpe_prompt_tokens r) (r_block_table r) (r_sequence_id r) (resolved_backend r) w in
  (if donated then w else release_blocks_always (r_block_table r) w, donated).

Definition finish (no_backend : bool) (r : Request) (sy : Sys) : Sys * Request :=
  let '(w, donated) :=
    if (0 <=? r_sequence_id r) && cache_prefill_complete r && negb (session_owned r sy) && (kMinPrefixTokens <=? Z.of_nat (length (bpe_prompt_tokens r)))
    then donate r (sched sy) else (sched sy, false) in
  let sy := mkSystem w (sessions sy) in
  if session_owned r sy then FinalizeSessionLease fence now (negb no_backend) r sy
  else if 0 <=? r_sequence_id r then
    let w := if donated then w else FreeSeqSlot fence now now now (r_sequence_id r) (r_generation r) (resolved_backend r) w in
    (mkSystem (release_blocks_always (r_block_table r) w) (sessions sy), abandon r)
  else (sy, r).
End Admit.

(** ** The books balance *)

Section Balance.
Context (alive is_llama : nat -> bool) (iteration : gmap string Entry -> list (string * Entry)) (polled : DeferredSequenceRetirement -> bool)
  (clk : nat -> Z) (fence : SequenceReleaseFence) (now : Z) (router : string -> option nat).
Context (iteration_perm : forall es, iteration es ≡ₚ map_to_list es) (clk_bound : forall i, clk i < time_max) (now_bound : now < time_max).

Abbreviation Sys := (System (P := PagedKVCache)).

(** The candidate is nothing, the state of a session, or a donor of the prefix cache. *)
Definition candidate_ok (c : Candidate) (w : World) : Prop :=
  reused c = false -> if prefix_hit c then has_donor (prefix_cache w) (c_seq c) (c_blocks c) else c_blocks c = [].

Lemma session_taken r (sy sy' : Sys) r' c taken b s :
  balanced sy taken b s -> session_lease_acquired r = false -> take_session iteration fence now router r sy = (sy', r', c) ->
  balanced sy' taken b s /\ (exists l, r' = set_lease l r) /\
  (session_lease_acquired r' = true -> session_id r <> ""%string /\ exists ss e, sessions sy' = Some ss /\ entries ss !! session_id r = Some e /\ in_use e = true /\
     session_id r ∉ taken /\ has_state e = reused c /\
     (reused c = true -> c_blocks c = ss_block_table (entry_state e) /\ c_seq c = ss_sequence_id (entry_state e) /\ 0 <= c_seq c)) /\
  (reused c = true -> session_lease_acquired r' = true) /\ (reused c = false -> c = no_candidate).
Proof.
  intros Hb Hl. unfold take_session. destruct (sessions sy) as [ss|] eqn:Es; [|intros [= <- <- <-]; split_and!; try done; by eexists].
  destruct (RequestUsesSessionHandle sy r) eqn:Eu; cbn [negb]; [|intros [= <- <- <-]; split_and!; try done; by eexists].
  rewrite Hl. destruct (SessionHandles.AcquireLease _ _ _ _) as [ss' lease] eqn:Ea. destruct Hb as [Ha Ht]. rewrite Es in Ha, Ht.
  destruct (acquire_idle _ _ _ _ _ _ _ iteration_perm Ht Ea) as (Hp & Ht' & Hst).
  assert (Hid : session_id r <> ""%string) by (apply andb_true_iff in Eu as [_ Eu]; by apply negb_true_iff, bool_decide_eq_false in Eu).
  set (w := foldl _ _ _). assert (Hw : balanced (mkSystem w (Some ss')) taken b s).
  { split; [|done]. cbn [sessions sched]. apply accounts_release_sessions; [done|].
    eapply accounts_perm; [| |exact Ha]; [rewrite (blocks_kept_perm _ _ Hp)|rewrite (slots_kept_perm _ _ Hp)];
      unfold blocks_kept, slots_kept; rewrite flat_map_app; by rewrite <- app_assoc. }
  destruct (status lease) eqn:Estat; [|intros [= <- <- <-]; split_and!; try done; [by exists (session_lease_acquired r); destruct r|congruence]].
  destruct Hst as (Hnt & e & He & Hu & Hlr). rewrite Hlr. destruct (has_state e) eqn:Hs.
  2: { intros [= <- <- <-]. split_and!; try done; [by eexists|]. intros _. split; [done|]. by exists ss', e. }
  destruct (compatible _ _) eqn:Ec; intros [= <- <- <-].
  - split_and!; try done; [by eexists|]. intros _. split; [done|]. exists ss', e. split_and!; try done. intros _. split_and!; try done.
    apply andb_true_iff in Ec as [_ Ec]. by apply Z.leb_le.
  - split; [|split; [by eexists|split; [|by split]]].
    + apply (balanced_take _ _ _ _ _ _ _ Hnt He Hu Hs) in Hw as [Hw _]. cbn [sessions sched] in Hw. split; cbn [sessions sched].
      * unfold DiscardLeasedState. rewrite bool_decide_eq_false_2, He by done. cbn [entries set_entries].
        apply accounts_release_session; [done|]. rewrite idle_take in Hw.
        eapply accounts_perm; [| |exact Hw]; [rewrite (blocks_kept_perm _ _ (idle_update _ _ _ _ Hnt))|rewrite (slots_kept_perm _ _ (idle_update _ _ _ _ Hnt))];
          cbn; solve_Permutation.
      * unfold DiscardLeasedState. rewrite bool_decide_eq_false_2, He by done. cbn. intros k Hk.
        rewrite lookup_insert_ne by (intros E; apply Hnt; by rewrite E). by apply Ht'.
    + intros _. split; [done|]. unfold DiscardLeasedState. rewrite bool_decide_eq_false_2, He by done. eexists _, _. split; [done|]. cbn.
      rewrite lookup_insert_eq. split_and!; done.
Qed.

Lemma cache_consulted r c (w w' : World) c' b s :
  accounts w b s -> (reused c = false -> c = no_candidate) -> consult_cache alive r c w = (w', c') ->
  accounts w' b s /\ candidate_ok c' w' /\ reused c' = reused c /\ (reused c = true -> c' = c) /\ (reused c' = false -> c_gen c' = 0).
Proof.
  intros Ha Hn. unfold consult_cache. destruct (reused c) eqn:Er.
  - intros [= <- <-]. split_and!; try done; intros H; congruence.
  - destruct (Lookup _ _ _ _) as [rc [hit res]] eqn:El. intros [= <- <-]. destruct (accounts_lookup _ _ _ _ _ _ _ _ _ Ha El) as [Ha' Hres].
    split_and!; try done. intros _. cbn. destruct hit; [done|apply Hres].
Qed.

Lemma reserved n (w w' : World) new b s :
  accounts w b s -> reserve n w = (w', new) -> accounts w' (new ++ b) s /\ forall seq bt, has_donor (prefix_cache w) seq bt -> has_donor (prefix_cache w') seq bt.
Proof.
  intros Ha. unfold reserve. destruct (kv w) as [p|] eqn:Ek; [|by intros [= <- <-]].
  destruct ((n <=? _)%nat && _) eqn:En; [|by intros [= <- <-]]. apply andb_true_iff in En as [En%Nat.leb_le _].
  pose proof (acc_blocks _ _ _ Ha) as Hl. assert (Hw : kv_wf p) by (unfold ledger in Hl; rewrite Ek in Hl; apply Hl).
  destruct (reserve_returns p n Hw En) as (p' & ids & Er). rewrite Er. intros [= <- <-]. split; [|done].
  eapply accounts_kv; [exact Ha|]. by apply (ledger_reserve _ _ _ _ _ _ Hl Ek En Er).
Qed.

(** No victim has blocks, or there are enough. *)
Definition room (n : nat) (others : list Pending) (w : World) : Prop :=
  Forall (fun v => r_block_table (base v) = []) others \/ enough n w.

Lemma no_victims vs (w : World) : Forall (fun v => r_block_table (base v) = []) vs -> make_room vs w = (w, vs).
Proof. induction 1 as [|v vs Hv _ IH]; [done|]. cbn. rewrite bool_decide_eq_true_2 by done. by rewrite IH. Qed.

Lemma blocks_reserved n others (w w' : World) new others' b s :
  accounts w b s -> room n others w -> reserve_blocks n others w = (w', new, others') ->
  accounts w' (new ++ b) s /\ others' = others /\ forall seq bt, has_donor (prefix_cache w) seq bt -> has_donor (prefix_cache w') seq bt.
Proof.
  intros Ha Hr. unfold reserve_blocks.
  assert (E : match kv w with
              | Some p => if (NumFreeBlocks p <? n)%nat then let '(w, vs) := make_room (reverse others) w in (w, reverse vs) else (w, others)
              | None => (w, others)
              end = (w, others)).
  { destruct (kv w) as [p|] eqn:Ek; [|done]. destruct (Nat.ltb_spec (NumFreeBlocks p) n) as [Hlt|]; [|done]. destruct Hr as [Hr|Hr]; [|specialize (Hr p Ek); lia].
    rewrite no_victims by (by apply Forall_reverse). by rewrite reverse_involutive. }
  rewrite E. destruct (reserve n w) as [w1 new1] eqn:Er. intros [= <- <- <-]. destruct (reserved _ _ _ _ _ _ Ha Er). done.
Qed.

Lemma slot_got be r c (w w' : World) seq gen retired b s :
  accounts w b s -> get_slot alive is_llama polled clk be r c w = (w', seq, gen, retired) ->
  (if reused c then w' = w /\ seq = c_seq c /\ gen = c_gen c /\ retired = [] else accounts w' b (slot_of seq ++ s)) /\
  (forall q bt, has_donor (prefix_cache w) q bt -> q ∉ retired -> has_donor (prefix_cache w') q bt).
Proof.
  intros Ha. unfold get_slot. destruct (reused c); [by intros [= <- <- <- <-]|].
  pose proof (accounts_alloc alive is_llama polled clk (r_id r) (sequence_capacity be) w b s clk_bound Ha) as Hal.
  destruct (AllocSeqSlot _ _ _ _ _ _ _) as [[w1 res] ret]. destruct Hal as [H1 H2]. destruct res as [[slot g]|]; intros [= <- <- <- <-]; [|done].
  split; [|done]. cbn in H1. pose proof (acc_held _ _ _ H1) as Hh. apply Forall_cons in Hh as [[H0 _] _]. unfold slot_of. by rewrite (proj2 (Z.leb_le _ _) H0).
Qed.

Lemma rechecked c retired total needed new (w w' : World) c' needed' new' b s :
  accounts w (new ++ b) s -> (reused c = false -> prefix_hit c = false -> c_blocks c = []) ->
  (forall q bt, reused c = false -> prefix_hit c = true -> q = c_seq c -> bt = c_blocks c -> q ∉ retired -> has_donor (prefix_cache w) q bt) ->
  recheck c retired total needed new w = (w', c', needed', new') ->
  accounts w' (new' ++ b) s /\ candidate_ok c' w' /\ reused c' = reused c /\ (reused c = true -> c' = c /\ w' = w /\ new' = new) /\ c_gen c' = c_gen c.
Proof.
  intros Ha Hmiss Hhit. unfold recheck. destruct (_ && _ && _ && _) eqn:E.
  - apply andb_true_iff in E as [[[_ _]%andb_true_iff Er]%andb_true_iff _]. apply negb_true_iff in Er.
    destruct (kv w) as [p|] eqn:Ek.
    + destruct (reserve total _) as [w1 new1] eqn:Ers. intros [= <- <- <- <-].
      destruct (reserved _ _ _ _ _ _ (accounts_release _ _ _ _ Ha) Ers). split_and!; try done. congruence.
    + intros [= <- <- <- <-]. split_and!; try done. congruence.
  - intros [= <- <- <- <-]. split_and!; try done. intros Er. destruct (prefix_hit c) eqn:Eh; [|by apply Hmiss].
    apply Hhit; try done. intros Hin. rewrite Er in E. cbn in E. rewrite (bool_decide_eq_true_2 _ Hin) in E.
    rewrite bool_decide_eq_true_2 in E; [done|]. intros ->. set_solver.
Qed.

Lemma synced r (w : World) b s : accounts w b s -> accounts (sync_slot r w) b s.
Proof.
  intros Ha. unfold sync_slot. destruct (_ <? 0); [done|]. unfold UpdateTokenCount. destruct (valid_slot _ _); [|by destruct w].
  apply accounts_update; [done|done|]. intros sl _. by left.
Qed.

Lemma restored r c seq gen (w w' : World) ok b s : accounts w b s -> restore now r c seq gen w = (w', ok) -> accounts w' b s /\ prefix_cache w' = prefix_cache w.
Proof.
  intros Ha. unfold restore. destruct (_ && _); [|by intros [= <- <-]]. destruct (RestoreLease _ _ _ _ _ _) as [m ok'] eqn:E. intros [= <- <-]. split; [|done].
  replace m with (RestoreLease (slot_manager w) (mkLease seq gen (r_id r)) (r_id r) seq (Z.max (c_matched c) (Z.of_nat (length (bpe_prompt_tokens r)))) now).1 by (by rewrite E).
  apply accounts_lease; [done|set_solver|done|]. intros sl. cbn. set_solver.
Qed.

(** What a request has, and what its session knows of it. *)
Record settled (sy : Sys) (taken : gset string) (r : Request) (b s : list Z) : Prop := {
  st_balanced : balanced sy taken (r_block_table r ++ b) (slot_of (r_sequence_id r) ++ s);
  st_owns : r_sequence_id r < 0 -> r_block_table r = [];
  st_lease : session_lease_acquired r = true -> session_id r <> ""%string /\ exists ss e,
    sessions sy = Some ss /\ entries ss !! session_id r = Some e /\ in_use e = true /\
    if decide (session_id r ∈ taken) then 0 <= r_sequence_id r else 0 <= r_sequence_id r -> has_state e = false }.

(** The session of a request that is being admitted. *)
Definition leased (so : option SessionHandleManager) (taken : gset string) (r : Request) (c : Candidate) : Prop :=
  (reused c = true -> session_lease_acquired r = true) /\
  (session_lease_acquired r = true -> session_id r <> ""%string /\ exists ss e,
    so = Some ss /\ entries ss !! session_id r = Some e /\ in_use e = true /\
    if reused c then session_id r ∈ taken else session_id r ∉ taken /\ has_state e = false).

Lemma settled_here w so taken c r r' b s :
  balanced (mkSystem w so) taken (r_block_table r ++ b) (slot_of (r_sequence_id r') ++ s) -> 0 <= r_sequence_id r' ->
  r_block_table r' = r_block_table r -> session_id r' = session_id r -> session_lease_acquired r' = session_lease_acquired r ->
  leased so taken r c -> settled (mkSystem w so) taken r' b s.
Proof.
  intros Hb H0 Ebt Eid Elease [_ Hl]. constructor; [by rewrite Ebt|lia|]. rewrite Elease, Eid. intros E. destruct (Hl E) as (Hid & ss & e & Hs & He & Hu & Hc).
  split; [done|]. exists ss, e. split_and!; try done. destruct (reused c); [by rewrite decide_True|]. destruct Hc. by rewrite decide_False.
Qed.

Lemma balanced_world w w' so taken b b' s s' :
  (forall kb ks, accounts w (kb ++ b) (ks ++ s) -> accounts w' (kb ++ b') (ks ++ s')) ->
  balanced (mkSystem w so) taken b s -> balanced (mkSystem w' so) taken b' s'.
Proof. intros Hw [Ha Ht]. split; [by apply Hw|done]. Qed.

Lemma given_back c seq gen p (w : World) so taken b s :
  balanced (mkSystem w so) taken (r_block_table (base p) ++ b) (slot_of seq ++ s) -> 0 <= seq -> leased so taken (base p) c ->
  let '(sy', p') := prefill_failed fence now c seq gen p (mkSystem w so) in exists taken', settled sy' taken' (base p') b s.
Proof.
  intros Hb H0 [Hr Hl]. unfold prefill_failed. cbn [sched sessions]. set (w' := FreeSeqSlot _ _ _ _ _ _ _ _).
  assert (Hb' : balanced (mkSystem w' so) taken b s).
  { eapply balanced_world, Hb. intros kb ks Ha. apply accounts_free; [|done]. apply accounts_release.
    unfold slot_of in Ha. rewrite (proj2 (Z.leb_le _ _) H0) in Ha. eapply accounts_perm, Ha; solve_Permutation. }
  clearbody w'. clear Hb w. destruct (reused c) eqn:Er; cbn [andb].
  - rewrite (Hr eq_refl). destruct (Hl (Hr eq_refl)) as (Hid & ss & e & -> & He & Hu & Hin). cbn [fmap option_fmap option_map].
    exists (taken ∖ {[session_id (base p)]}). destruct Hb' as [Ha Ht]. cbn [sessions sched] in Ha, Ht. unfold DiscardLeasedState. rewrite bool_decide_eq_false_2, He by done.
    assert (Hn : session_id (base p) ∉ taken ∖ {[session_id (base p)]}) by set_solver. rewrite (idle_untake _ _ _ Hin) in Ha.
    constructor; [|done|].
    + split; cbn [sessions sched entries set_entries r_block_table r_sequence_id base on_base set_place set_blocks app].
      * eapply accounts_perm, Ha; [rewrite (blocks_kept_perm _ _ (idle_update _ _ _ _ Hn))|rewrite (slots_kept_perm _ _ (idle_update _ _ _ _ Hn))]; reflexivity.
      * intros k Hk. rewrite lookup_insert_ne by (intros E; subst k; by apply Hn). apply Ht. set_solver.
    + cbn. intros _. split; [done|]. eexists _, _. split; [done|]. cbn. rewrite lookup_insert_eq. split_and!; [done|done|]. rewrite decide_False by done. done.
  - exists taken. constructor; [done|done|]. cbn. intros E. destruct (Hl E) as (Hid & ss & e & -> & He & Hu & Hn & Hs). split; [done|].
    exists ss, e. split_and!; try done. by rewrite decide_False.
Qed.

Lemma prompt_started be chunk c seq gen p (w : World) so taken b s :
  balanced (mkSystem w so) taken (r_block_table (base p) ++ b) (slot_of seq ++ s) -> 0 <= seq -> leased so taken (base p) c ->
  let '(sy', p') := start_prompt fence now be chunk c seq gen p (mkSystem w so) in exists taken', settled sy' taken' (base p') b s.
Proof.
  intros Hb H0 Hl. unfold start_prompt. destruct (_ && _ && _ && _).
  - unfold defer_prefill. destruct (ResolvePrefixReuse _ _ _ _) as [start copied]. cbn [sched sessions]. exists taken.
    eapply settled_here; [|done..|exact Hl]. eapply balanced_world, Hb. intros kb ks Ha. by apply synced.
  - destruct (evaluate _ _ _ _ _) as [[[pr|] copied] start]; [|exact (given_back c seq gen p w so taken b s Hb H0 Hl)]. unfold prefill_done. cbn [sched sessions]. exists taken.
    eapply settled_here; [|done..|exact Hl]. eapply balanced_world, Hb. intros kb ks Ha. by apply synced.
Qed.

Lemma acquired ids (w : World) b s :
  accounts w b s -> (forall j, 0 < claimed ids j -> 0 < owned (prefix_cache w) j + claimed b j) -> accounts (acquire_blocks ids w) (ids ++ b) s.
Proof. intros Ha Hp. eapply accounts_kv; [exact Ha|]. by apply ledger_acquire; [apply (acc_blocks _ _ _ Ha)|]. Qed.

(** What [take_session] says of the session. *)
Definition borrowed (so : option SessionHandleManager) (taken : gset string) (r : Request) (c : Candidate) : Prop :=
  (reused c = true -> session_lease_acquired r = true) /\
  (session_lease_acquired r = true -> session_id r <> ""%string /\ exists ss e,
    so = Some ss /\ entries ss !! session_id r = Some e /\ in_use e = true /\ session_id r ∉ taken /\ has_state e = reused c /\
    (reused c = true -> c_blocks c = ss_block_table (entry_state e) /\ c_seq c = ss_sequence_id (entry_state e) /\ 0 <= c_seq c)).

Lemma no_blocks_needed (w : World) so taken b b' s :
  kv w = None -> balanced (mkSystem w so) taken b s -> balanced (mkSystem w so) taken b' s.
Proof. intros Hk. apply balanced_world. intros kb ks. by apply accounts_none. Qed.

Lemma grant_ok be chunk c seq gen new p (w : World) so taken b s :
  r_block_table (base p) = [] -> 0 <= seq -> (reused c = true -> seq = c_seq c) -> candidate_ok c w -> borrowed so taken (base p) c ->
  balanced (mkSystem w so) taken (new ++ b) ((if reused c then [] else slot_of seq) ++ s) ->
  let '(sy', p') := grant fence now be chunk c seq gen new p (mkSystem w so) in exists taken', settled sy' taken' (base p') b s.
Proof.
  intros Hbt H0 Hseq Hc [Hr Hl] Hb. unfold grant, own_blocks. cbn [sched sessions]. destruct (reused c) eqn:Er.
  - destruct (Hl (Hr eq_refl)) as (Hid & ss & e & -> & He & Hu & Hn & Hs & Hst). destruct (Hst eq_refl) as (Eb & Es & _). rewrite (Hseq eq_refl) in *.
    apply (balanced_take _ _ _ _ _ _ _ Hn He Hu Hs) in Hb. cbn [app] in Hb. rewrite <- Eb, <- Es in Hb.
    assert (Hlease : forall bt, leased (Some ss) ({[session_id (base p)]} ∪ taken) (set_blocks bt (base p)) c).
    { intros bt. split; [by intros _; apply Hr|]. intros _. split; [done|]. exists ss, e. rewrite Er. split_and!; try done. cbn. set_solver. }
    destruct (kv w) as [pool|] eqn:Ek.
    + apply (prompt_started be chunk c _ gen (on_base (set_blocks (c_blocks c ++ new)) p) w (Some ss) ({[session_id (base p)]} ∪ taken) b s); [|done|apply Hlease].
      cbn. by rewrite <- app_assoc.
    + apply (prompt_started be chunk c _ gen p w (Some ss) ({[session_id (base p)]} ∪ taken) b s); [|done|].
      * rewrite Hbt. by eapply no_blocks_needed.
      * specialize (Hlease (r_block_table (base p))). by destruct p as [[] ].
  - assert (Hlease : forall bt, leased so taken (set_blocks bt (base p)) c).
    { intros bt. split; [congruence|]. cbn. intros E. destruct (Hl E) as (Hid & ss & e & Hso & He & Hu & Hn & Hs & _). split; [done|]. exists ss, e. by rewrite Er. }
    destruct (kv w) as [pool|] eqn:Ek.
    + apply (prompt_started be chunk c _ gen (on_base (set_blocks (c_blocks c ++ new)) p) _ so taken b s); [|done|apply Hlease].
      cbn. eapply balanced_world, Hb. intros kb ks Ha. eapply accounts_perm; [| |eapply (acquired (c_blocks c) _ _ _ Ha)]; [solve_Permutation|done|].
      intros j Hj. rewrite claimed_app. pose proof (claimed_nonneg kb j). pose proof (claimed_nonneg (new ++ b) j). specialize (Hc Er).
      destruct (prefix_hit c); [apply (donor_owned _ _ _ j) in Hc; lia|]. rewrite Hc in Hj. unfold claimed in Hj. cbn in Hj. lia.
    + apply (prompt_started be chunk c _ gen p w so taken b s); [|done|].
      * rewrite Hbt. by eapply no_blocks_needed.
      * specialize (Hlease (r_block_table (base p))). by destruct p as [[] ].
Qed.

Lemma refuse_ok c seq gen new (w : World) so taken b s :
  balanced (mkSystem w so) taken (new ++ b) ((if reused c then [] else slot_of seq) ++ s) ->
  balanced (mkSystem (refuse fence now c seq gen new w) so) taken b s.
Proof.
  apply balanced_world. intros kb ks Ha. unfold refuse.
  assert (Ha' : accounts (release_blocks_always new w) (kb ++ b) (ks ++ (if reused c then [] else slot_of seq) ++ s))
    by (apply accounts_release; eapply accounts_perm, Ha; [solve_Permutation|done]).
  unfold slot_of in Ha'. destruct (reused c); cbn [negb]; [by rewrite andb_false_r|]. rewrite andb_true_r. destruct (0 <=? seq); [|done].
  apply accounts_free; [|done]. eapply accounts_perm, Ha'; [done|solve_Permutation].
Qed.

Lemma session_taken_kv r (sy : Sys) : released_to (kv (sched sy)) (kv (sched (take_session iteration fence now router r sy).1.1)).
Proof.
  unfold take_session. destruct (sessions sy); [|apply released_to_refl]. destruct (negb _); [apply released_to_refl|].
  destruct (session_lease_acquired r); [apply released_to_refl|]. destruct (SessionHandles.AcquireLease _ _ _ _) as [ss' lease].
  pose proof (sessions_release fence now router (cleanup_states lease) (sched sy)) as Hr. cbv zeta.
  destruct (status lease); [|done]. destruct (lr_state lease); [|done]. destruct (compatible _ _); [done|]. cbn [fst sched].
  eapply released_to_trans; [exact Hr|apply session_releases].
Qed.

Lemma cache_consulted_kv r c (w : World) : radix_inv (prefix_cache w) -> kv (consult_cache alive r c w).1 = kv w.
Proof.
  intros Hi. unfold consult_cache. destruct (reused c); [done|]. pose proof (Lookup_effect alive (prefix_cache w) (bpe_prompt_tokens r) (resolved_backend r) Hi) as (_ & _ & Hk & _).
  destruct (Lookup _ _ _ _) as [rc [hit res]]. done.
Qed.

Lemma room_less n m others (w : World) : (m <= n)%nat -> room n others w -> room m others w.
Proof. intros Hm [Hr|Hr]; [by left|right]. intros p Hp. specialize (Hr p Hp). lia. Qed.

Lemma granted_or_refused be chunk c p others (w : World) so taken b s :
  r_block_table (base p) = [] -> r_sequence_id (base p) < 0 -> candidate_ok c w -> borrowed so taken (base p) c ->
  balanced (mkSystem w so) taken b s -> room (total_blocks_needed (length (tokens p))) others w ->
  let '(sy', p', others') := reserve_and_grant alive is_llama polled clk fence now be chunk c p others (mkSystem w so) in
  others' = others /\ exists taken', settled sy' taken' (base p') b s.
Proof.
  intros Hbt Hseq Hc Hbor [Ha Ht] Hroom. unfold reserve_and_grant. cbn [sched sessions] in *. set (total := total_blocks_needed _) in *.
  set (n := (total - length (c_blocks c))%nat). set (l := match so with Some ss => idle taken (entries ss) | None => [] end) in *.
  destruct (reserve_blocks n others w) as [[w1 new] others'] eqn:E1.
  destruct (blocks_reserved _ _ _ _ _ _ _ _ Ha (room_less total n _ _ ltac:(lia) Hroom) E1) as (Ha1 & -> & Hd1).
  destruct (get_slot _ _ _ _ _ _ _ _) as [[[w2 seq] gen] retired] eqn:E2. destruct (slot_got _ _ _ _ _ _ _ _ _ _ Ha1 E2) as [Ha2 Hd2].
  destruct (recheck _ _ _ _ _ _) as [[[w3 c3] n3] new3] eqn:E3.
  assert (Ha2' : accounts w2 (new ++ blocks_kept l ++ b) ((if reused c then [] else slot_of seq) ++ slots_kept l ++ s))
    by (destruct (reused c); [destruct Ha2 as (-> & _); exact Ha1|exact Ha2]).
  destruct (rechecked c retired total n new w2 w3 c3 n3 new3 _ _ Ha2') as (Ha3 & Hc3 & Er3 & Hr3 & _); [| |exact E3|].
  { intros Er Eh. specialize (Hc Er). by rewrite Eh in Hc. }
  { intros q bt Er Eh -> -> Hnot. apply Hd2; [|done]. apply Hd1. specialize (Hc Er). by rewrite Eh in Hc. }
  assert (Hb3 : forall w', accounts w' (new3 ++ blocks_kept l ++ b) ((if reused c3 then [] else slot_of seq) ++ slots_kept l ++ s) ->
    balanced (mkSystem w' so) taken (new3 ++ b) ((if reused c3 then [] else slot_of seq) ++ s)).
  { intros w' Hw. split; [|done]. cbn [sched sessions]. fold l. eapply accounts_perm, Hw; solve_Permutation. }
  rewrite <- Er3 in Ha3.
  assert (Hbor3 : borrowed so taken (base p) c3).
  { destruct (reused c) eqn:Er; [by destruct (Hr3 eq_refl) as (-> & _)|]. destruct Hbor as [B1 B2]. split; [congruence|]. intros E.
    destruct (B2 E) as (Hid & ss & e & Hso & He & Hu & Hn & Hs & _). split; [done|]. exists ss, e. rewrite Er3. split_and!; try done. congruence. }
  assert (Hrefuse : forall w', accounts w' (new3 ++ blocks_kept l ++ b) ((if reused c3 then [] else slot_of seq) ++ slots_kept l ++ s) ->
    exists taken', settled (mkSystem (refuse fence now c3 seq gen new3 w') so) taken' (base p) b s).
  { intros w' Hw. exists taken. constructor; [|done|].
    - rewrite Hbt. unfold slot_of at 1. rewrite (proj2 (Z.leb_gt _ _) Hseq). by apply refuse_ok, Hb3.
    - intros E. destruct Hbor as [_ B]. destruct (B E) as (Hid & ss & e & -> & He & Hu & Hn & _). split; [done|]. exists ss, e. split_and!; try done.
      rewrite decide_False by done. lia. }
  destruct ((0 <=? seq) && _) eqn:Eadm; [|split; [done|by apply Hrefuse]].
  destruct (restore _ _ _ _ _ _) as [w4 ok] eqn:E4. destruct (restored _ _ _ _ _ _ _ _ _ Ha3 E4) as [Ha4 Hpc4].
  destruct ok; [|split; [done|by apply Hrefuse]]. apply andb_true_iff in Eadm as [Hpos%Z.leb_le _].
  pose proof (grant_ok be chunk c3 seq gen new3 p w4 so taken b s Hbt Hpos) as Hg.
  destruct (grant _ _ _ _ _ _ _ _ _ _) as [sy' p'] eqn:Eg. split; [done|]. apply Hg; [|unfold candidate_ok; by rewrite Hpc4|done|by apply Hb3].
  intros Er. rewrite Er in Er3. rewrite <- Er3 in Ha2. destruct Ha2 as (_ & -> & _). by destruct (Hr3 (eq_sym Er3)) as (-> & _).
Qed.

(** The prompt that is admitted. *)
Definition admitted_prompt (tokenized : list Z) (p : Pending) : list Z := if bool_decide (tokens p = []) then tokenized else tokens p.

Lemma fresh_settled sy taken r b s :
  balanced sy taken b s -> r_block_table r = [] -> r_sequence_id r < 0 -> session_lease_acquired r = false -> settled sy taken r b s.
Proof.
  intros Hb Hbt Hs Hl. constructor; [|done|congruence]. rewrite Hbt. unfold slot_of. by rewrite (proj2 (Z.leb_gt _ _) Hs).
Qed.

Lemma admitted be tokenized logprobs_disabled kv_max_seq chunk p others (sy : Sys) taken b s :
  balanced sy taken b s -> r_block_table (base p) = [] -> r_sequence_id (base p) < 0 -> session_lease_acquired (base p) = false ->
  room (total_blocks_needed (length (admitted_prompt tokenized p))) others (sched sy) ->
  let '(sy', p', others', v) := admit_request alive is_llama iteration polled clk fence now router be tokenized logprobs_disabled kv_max_seq chunk p others sy in
  others' = others /\ exists taken', settled sy' taken' (base p') b s.
Proof.
  intros Hb Hbt Hs Hl Hroom. unfold admit_request. destruct (_ && _ && _); [split; [done|exists taken; by apply fresh_settled]|].
  destruct (negb _); [split; [done|exists taken; by apply fresh_settled]|]. cbv zeta.
  assert (H2 : r_block_table (base (prepare tokenized p)) = [] /\ r_sequence_id (base (prepare tokenized p)) < 0 /\
    session_lease_acquired (base (prepare tokenized p)) = false /\ tokens (prepare tokenized p) = admitted_prompt tokenized p).
  { unfold prepare, admitted_prompt. cbv zeta. case_bool_decide; case_match; split_and!; done. }
  set (p2 := prepare tokenized p) in *. clearbody p2. destruct H2 as (Hbt2 & Hs2 & Hl2 & Htok). destruct (_ || _ || _); [split; [done|exists taken; by apply fresh_settled]|].
  pose proof (session_taken_kv (base p2) sy) as Hrel.
  destruct (take_session _ _ _ _ _ _) as [[sy1 r1] c1] eqn:E1. destruct (session_taken _ _ _ _ _ _ _ _ Hb Hl2 E1) as (Hb1 & [lease ->] & Hbor & Hr1 & Hnc).
  assert (Hbor1 : borrowed (sessions sy1) taken (set_lease lease (base p2)) c1) by (split; done). clear Hbor. cbn in Hr1.
  destruct (consult_cache _ _ _ _) as [w2 c2] eqn:E2. destruct Hb1 as [Ha1 Ht1].
  destruct (cache_consulted _ _ _ _ _ _ _ Ha1 Hnc E2) as (Ha2 & Hc2 & Er2 & Hsame & _).
  assert (Hbor2 : borrowed (sessions sy1) taken (set_lease lease (base p2)) c2).
  { destruct (reused c1) eqn:Er; [by rewrite (Hsame eq_refl)|]. destruct Hbor1 as [B1 B2]. split; [congruence|]. intros E.
    destruct (B2 E) as (Hid & ss & e & Hso & He & Hu & Hn & Hst & _). split; [done|]. exists ss, e. rewrite Er2. split_and!; try done; congruence. }
  set (p3 := set_cache _ _ _ _). assert (Hb3 : balanced (mkSystem w2 (sessions sy1)) taken b s) by (split; done).
  destruct (overflows _ _ _).
  { split; [done|]. exists taken. constructor; [|done|].
    - unfold p3. cbn. rewrite Hbt2. unfold slot_of. by rewrite (proj2 (Z.leb_gt _ _) Hs2).
    - intros E. destruct Hbor2 as [_ B]. destruct (B E) as (Hid & ss & e & Hso & He & Hu & Hn & _). split; [done|]. exists ss, e. split_and!; try done.
      change (session_id (base p3)) with (session_id (set_lease lease (base p2))). rewrite decide_False by done. cbn. lia. }
  pose proof (granted_or_refused be chunk c2 p3 others w2 (sessions sy1) taken b s Hbt2 Hs2 Hc2) as Hg.
  destruct (reserve_and_grant _ _ _ _ _ _ _ _ _ _ _ _) as [[sy' p'] others']. apply Hg; [done|done|].
  change (tokens p3) with (tokens p2). rewrite Htok. destruct Hroom as [Hr|Hr]; [by left|right].
  eapply enough_released, Hr. eapply released_to_trans; [exact Hrel|]. cbn [fst]. replace w2 with (consult_cache alive (set_lease lease (base p2)) c1 (sched sy1)).1 by (by rewrite E2).
  rewrite cache_consulted_kv; [apply released_to_refl|]. apply (ok_radix _ (acc_sched _ _ _ Ha1)).
Qed.

(** A session whose state the request has. *)
Lemma idle_known taken es id e :
  es !! id = Some e -> (id ∈ taken \/ has_state e = false) -> idle taken es ≡ₚ idle (taken ∖ {[id]}) (delete id es).
Proof.
  intros He Hk. destruct (decide (id ∈ taken)) as [Hin|Hn]; [by rewrite (idle_untake _ _ _ Hin)|]. destruct Hk as [?|Hs]; [done|].
  rewrite (idle_delete _ _ _ _ Hn He). unfold held_state. rewrite Hs. cbn. replace (taken ∖ {[id]}) with taken; [done|]. apply leibniz_equiv. set_solver.
Qed.

(** After a session was put back, the other sessions in use are as before. *)
Lemma in_use_others (es es' : gmap string Entry) (taken : gset string) id :
  (forall k, k ∈ taken -> exists e, es !! k = Some e /\ in_use e = true) -> (forall k, k <> id -> es' !! k = es !! k) ->
  forall k, k ∈ taken ∖ {[id]} -> exists e, es' !! k = Some e /\ in_use e = true.
Proof. intros Ht Hs k Hk. rewrite Hs by set_solver. apply Ht. set_solver. Qed.

Lemma kept_balanced w w' ss taken r b s e :
  balanced (mkSystem w (Some ss)) taken (r_block_table r ++ b) (slot_of (r_sequence_id r) ++ s) -> entries ss !! session_id r = Some e ->
  session_id r ∈ taken \/ has_state e = false -> session_id r <> ""%string ->
  (forall kb ks, accounts w kb ks -> accounts w' kb ks) ->
  balanced (mkSystem w' (Some (CommitLease ss (session_id r) (kept_state r) now))) (taken ∖ {[session_id r]}) b s.
Proof.
  intros [Ha Ht] He Hk Hid Hw. cbn [sched sessions] in *. unfold CommitLease. rewrite bool_decide_eq_false_2 by done.
  assert (Hn : session_id r ∉ taken ∖ {[session_id r]}) by set_solver. pose proof (idle_known _ _ _ _ He Hk) as Hi.
  pose proof (idle_update _ (entries ss) _ (mkEntry (kept_state r) true false now (now + ttl ss)) Hn) as Hu.
  split; cbn [sched sessions entries set_entries].
  - apply Hw. eapply accounts_perm, Ha; [rewrite (blocks_kept_perm _ _ Hi), (blocks_kept_perm _ _ Hu)|rewrite (slots_kept_perm _ _ Hi), (slots_kept_perm _ _ Hu)];
      cbn; solve_Permutation.
  - eapply in_use_others; [done|]. intros k Hne. by rewrite lookup_insert_ne.
Qed.

Lemma discarded_balanced w w' ss taken r b s e :
  balanced (mkSystem w (Some ss)) taken (r_block_table r ++ b) (slot_of (r_sequence_id r) ++ s) -> entries ss !! session_id r = Some e ->
  session_id r ∈ taken \/ has_state e = false -> session_id r <> ""%string ->
  (forall kb ks, accounts w (r_block_table r ++ kb) (slot_of (r_sequence_id r) ++ ks) -> accounts w' kb ks) ->
  balanced (mkSystem w' (Some (SessionHandles.ReleaseLease (DiscardLeasedState ss (session_id r)) (session_id r) now))) (taken ∖ {[session_id r]}) b s.
Proof.
  intros [Ha Ht] He Hk Hid Hw. cbn [sched sessions] in *. unfold SessionHandles.ReleaseLease, DiscardLeasedState. rewrite !bool_decide_eq_false_2 by done. rewrite He.
  cbn [entries set_entries]. rewrite lookup_insert_eq. cbn [has_state]. pose proof (idle_known _ _ _ _ He Hk) as Hi.
  split; cbn [sched sessions entries set_entries].
  - rewrite delete_insert_eq. apply Hw. eapply accounts_perm, Ha; [rewrite (blocks_kept_perm _ _ Hi)|rewrite (slots_kept_perm _ _ Hi)]; solve_Permutation.
  - eapply in_use_others; [done|]. intros k Hne. by rewrite lookup_delete_ne, lookup_insert_ne.
Qed.

Lemma released_balanced w ss taken id b s e :
  balanced (mkSystem w (Some ss)) taken b s -> entries ss !! id = Some e -> id ∉ taken -> id <> ""%string ->
  balanced (mkSystem w (Some (SessionHandles.ReleaseLease ss id now))) taken b s.
Proof.
  intros [Ha Ht] He Hn Hid. cbn [sched sessions] in *. unfold SessionHandles.ReleaseLease. rewrite bool_decide_eq_false_2, He by done.
  pose proof (idle_delete _ _ _ _ Hn He) as Hd. unfold held_state in Hd. destruct (has_state e); (split; cbn [sched sessions entries set_entries]).
  - eapply accounts_perm, Ha; [rewrite (blocks_kept_perm _ _ Hd), (blocks_kept_perm _ _ (idle_update _ _ _ _ Hn))|rewrite (slots_kept_perm _ _ Hd), (slots_kept_perm _ _ (idle_update _ _ _ _ Hn))]; done.
  - intros k Hk. rewrite lookup_insert_ne by (by intros ->). by apply Ht.
  - eapply accounts_perm, Ha; [by rewrite (blocks_kept_perm _ _ Hd)|by rewrite (slots_kept_perm _ _ Hd)].
  - intros k Hk. rewrite lookup_delete_ne by (by intros ->). by apply Ht.
Qed.

Lemma slot_given_back gen be (w : World) r kb ks :
  accounts w (r_block_table r ++ kb) (slot_of (r_sequence_id r) ++ ks) -> 0 <= r_sequence_id r ->
  accounts (FreeSeqSlot fence now now now (r_sequence_id r) gen be (release_blocks_always (r_block_table r) w)) kb ks.
Proof.
  intros Ha H0. apply accounts_free; [|done]. apply accounts_release. unfold slot_of in Ha. by rewrite (proj2 (Z.leb_le _ _) H0) in Ha.
Qed.

Lemma finalized commit r (w : World) so taken b s :
  settled (mkSystem w so) taken r b s -> session_lease_acquired r = true ->
  let '(sy', r') := FinalizeSessionLease fence now commit r (mkSystem w so) in
  (exists taken', balanced sy' taken' b s) /\ r_block_table r' = [] /\ r_sequence_id r' < 0 /\ session_lease_acquired r' = false.
Proof.
  intros [Hb Ho Hl] El. destruct (Hl El) as (Hid & ss & e & [= ->] & He & Hu & Hd). unfold FinalizeSessionLease. cbn [sessions sched].
  rewrite El, bool_decide_eq_false_2 by done. cbn [negb orb].
  assert (Hk : 0 <= r_sequence_id r -> session_id r ∈ taken \/ has_state e = false) by (destruct (decide _); intros; [by left|right; by apply Hd]).
  destruct (commit && _ && _) eqn:Ec.
  - apply andb_true_iff in Ec as [[_ H0%Z.leb_le]%andb_true_iff _]. split_and!; try done. eexists. eapply kept_balanced; [exact Hb|exact He|by apply Hk|done|].
    intros kb ks Ha. unfold mark_completed. destruct (_ =? 0); [done|]. apply accounts_lease; [done|set_solver|done|]. intros sl. cbn. set_solver.
  - destruct (Z.leb_spec 0 (r_sequence_id r)) as [H0|H0].
    + split_and!; try done. eexists. cbn [session_id abandon]. eapply discarded_balanced; [exact Hb|exact He|by apply Hk|done|].
      intros kb ks Ha. rewrite release_blocks_eq. by apply slot_given_back.
    + assert (Hn : session_id r ∉ taken) by (destruct (decide _); [lia|done]). split_and!; try done; [|by apply Ho]. exists taken.
      eapply released_balanced; [|exact He|done|done]. rewrite (Ho H0) in Hb. unfold slot_of in Hb. by rewrite (proj2 (Z.leb_gt _ _) H0) in Hb.
Qed.

Lemma donated_balanced r (w w' : World) d kb ks :
  accounts w (r_block_table r ++ kb) (slot_of (r_sequence_id r) ++ ks) -> 0 <= r_sequence_id r -> donate alive is_llama r w = (w', d) ->
  accounts w' (r_block_table r ++ kb) ((if d then [] else slot_of (r_sequence_id r)) ++ ks).
Proof.
  intros Ha H0. unfold donate, slot_of in *. rewrite (proj2 (Z.leb_le _ _) H0) in *. cbn [app] in Ha.
  assert (Ha1 : accounts (acquire_blocks (r_block_table r) w) (r_block_table r ++ r_block_table r ++ kb) (r_sequence_id r :: ks)).
  { apply acquired; [done|]. intros j Hj. rewrite claimed_app. pose proof (owned_nonneg (prefix_cache w) j). pose proof (claimed_nonneg kb j). lia. }
  pose proof (accounts_donate alive is_llama (bpe_prompt_tokens r) _ _ (resolved_backend r) _ _ _ Ha1) as Hd.
  destruct (Donate _ _ _ _ _ _ _) as [w1 ok]. intros [= <- <-]. destruct ok; [done|]. by apply accounts_release.
Qed.

Lemma finished no_backend r (w : World) so taken b s :
  settled (mkSystem w so) taken r b s ->
  let '(sy', r') := finish alive is_llama fence now no_backend r (mkSystem w so) in
  (exists taken', balanced sy' taken' b s) /\ r_block_table r' = [] /\ r_sequence_id r' < 0.
Proof.
  intros Hst. unfold finish. cbn [sched sessions]. destruct (session_owned r (mkSystem w so)) eqn:Eo.
  - rewrite andb_false_r, andb_false_l. cbn [sched sessions]. rewrite Eo. apply andb_true_iff in Eo as [El _].
    pose proof (finalized (negb no_backend) r w so taken b s Hst El) as Hf. destruct (FinalizeSessionLease _ _ _ _ _). naive_solver.
  - destruct Hst as [Hb Ho _]. destruct (Z.leb_spec 0 (r_sequence_id r)) as [H0|H0].
    + cbn [andb negb].
      match goal with |- context [if ?x then donate _ _ _ _ else _] => destruct (if x then donate alive is_llama r w else (w, false)) as [w1 d] eqn:Ed end.
      assert (Hb1 : balanced (mkSystem w1 so) taken (r_block_table r ++ b) ((if d then [] else slot_of (r_sequence_id r)) ++ s)).
      { destruct (_ && _ && _) in Ed; [|by injection Ed as <- <-]. eapply balanced_world, Hb. intros kb ks Ha.
        eapply accounts_perm; [| |eapply (donated_balanced r w w1 d (kb ++ b) (ks ++ s)); [|done|done]]; [solve_Permutation|solve_Permutation|].
        eapply accounts_perm, Ha; solve_Permutation. }
      change (session_owned r (mkSystem w1 so)) with (session_owned r (mkSystem w so)). rewrite Eo. cbn [sessions]. split_and!; try done. exists taken.
      eapply balanced_world, Hb1. intros kb ks Ha. apply accounts_release. eapply (accounts_perm _ (r_block_table r ++ kb ++ b)); [done|done|].
      destruct d; [eapply accounts_perm, Ha; [solve_Permutation|done]|]. unfold slot_of in Ha. rewrite (proj2 (Z.leb_le _ _) H0) in Ha.
      apply accounts_free; [|done]. eapply accounts_perm, Ha; solve_Permutation.
    + cbn [andb]. rewrite Eo. split_and!; [|by apply Ho|done]. exists taken. rewrite (Ho H0) in Hb. unfold slot_of in Hb. by rewrite (proj2 (Z.leb_gt _ _) H0) in Hb.
Qed.

(** What execution does not touch. *)
Definition same_claims (r r' : Request) : Prop :=
  r_block_table r' = r_block_table r /\ r_sequence_id r' = r_sequence_id r /\ session_id r' = session_id r /\ session_lease_acquired r' = session_lease_acquired r.

Lemma settled_same sy taken r r' b s : same_claims r r' -> settled sy taken r b s -> settled sy taken r' b s.
Proof. intros (E1 & E2 & E3 & E4) [H1 H2 H3]. constructor; rewrite ?E1, ?E2, ?E3, ?E4; done. Qed.

End Balance.


(** ** Witness and examples *)

Lemma new_books n m bytes cap maxs max_s ttl : (Z.of_nat n <= kMaxSequenceSlots)%Z ->
  balanced (mkSystem (new_sched n 0 (Some (newCache m bytes kClock)) cap maxs) (Some (newSessions max_s ttl))) ∅ [] [].
Proof.
  intros Hn. split; [|set_solver]. cbn [sessions sched]. change (entries (newSessions max_s ttl)) with (∅ : gmap string Entry).
  replace (idle ∅ ∅) with ([] : list SessionHandleState) by reflexivity. constructor; [|by apply new_sched_ok|apply NoDup_nil_2|constructor].
  split; [apply newCache_wf|]. intros j pg. cbn. intros [-> _]%lookup_replicate. done.
Qed.

Module Demo.
Definition world : World := new_sched 4 0 (Some (newCache 8 8 kClock)) 8 8.
Definition system : System (P := PagedKVCache) := mkSystem world (Some (newSessions 4 1000)).
Definition clock (_ : nat) : Z := 5.
Definition fence : SequenceReleaseFence := mkFence false 0.
Definition nobody (_ : string) : option nat := None.

(** A backend that samples token 7; [native]: the one that publishes the size of a slot. *)
Definition backend (native : bool) : LlamaBackend :=
  mkLlama true native false 4 false 64 (fun _ _ _ => true) (fun _ => true)
    (fun _ _ => Some [Executor.mkOutput 7 (bytes_of "a") true None]) (fun _ _ => None) (fun _ => None).

Definition request (id : Z) (session : string) : Pending :=
  mkPending (mkRequest id "m" "m" session false (-1) 0 false [] (-1) 0 [] (Some 3%nat)) false false false 0 4 0 (-1) [] None 0 0 0 0 false [].

(** Forty tokens: four blocks. *)
Definition prompt : list Z := Z.of_nat <$> seq 0 40.

Definition run (native : bool) (kv_max_seq : Z) (p : Pending) (others : list Pending) (sy : System (P := PagedKVCache)) :=
  admit_request everyone everyone map_to_list not_yet clock fence 6 nobody (backend native) prompt false kv_max_seq 2048 p others sy.

Definition done (r : Request) (sy : System (P := PagedKVCache)) := finish everyone everyone fence 7 false r sy.
End Demo.


(** The second turn of a conversation takes up the slot and the blocks of the first. *)
Example session_continues :
  let '(sy1, p1, _, v1) := Demo.run false 0 (Demo.request 1 "s") [] Demo.system in
  let '(sy2, _) := Demo.done (base p1) sy1 in
  let '(sy3, p3, _, v3) := Demo.run false 0 (Demo.request 2 "s") [] sy2 in
  (v1, r_block_table (base p1), r_sequence_id (base p1)) = (Staged, [0; 1; 2; 3], 0) /\
  (v3, r_block_table (base p3), r_sequence_id (base p3), cache_reused_tokens p3) = (Staged, [0; 1; 2; 3], 0, 39).
Proof. vm_compute. done. Qed.

(** Without a session the prompt is donated, and the next request shares its blocks. *)
Example prefix_shared :
  let '(sy1, p1, _, _) := Demo.run false 0 (Demo.request 1 "") [] Demo.system in
  let '(sy2, _) := Demo.done (base p1) sy1 in
  let '(sy3, p3, _, _) := Demo.run false 0 (Demo.request 2 "") [] sy2 in
  (r_block_table (base p3), r_sequence_id (base p3), cache_reused_tokens p3) = ([0; 1; 2; 3], 1, 39) /\
  option_map (fun p => ref_count <$> pages p) (kv (sched sy3)) = Some [2; 2; 2; 2; 0; 0; 0; 0].
Proof. vm_compute. done. Qed.

(** A request that overflows the context is answered with its session still leased: the next
    turns of the session find it busy, and no sweep removes it. *)
Example overflow_keeps_session_leased :
  let '(sy1, p1, _, v1) := Demo.run true 20 (Demo.request 1 "s") [] Demo.system in
  v1 = ContextOverflow /\ session_lease_acquired (base p1) = true /\
  let '(sy2, p2, _, v2) := Demo.run false 0 (Demo.request 2 "s") [] sy1 in
  session_lease_acquired (base p2) = false /\
  option_map (fun ss => is_expired 1000000 <$> entries ss !! "s"%string) (sessions sy1) = Some (Some false).
Proof. vm_compute. done. Qed.

(** Making room swaps out blocks that the prefix cache shares: the pages are free, and block 0 is given to the
    new request, while the prefix cache still refers to it. *)
Example swap_frees_shared_blocks :
  let '(sy1, p1, _, _) := Demo.run false 0 (Demo.request 1 "") [] Demo.system in
  let '(sy2, _) := Demo.done (base p1) sy1 in
  let '(sy3, p3, _, _) := Demo.run false 0 (Demo.request 2 "") [] sy2 in
  let '(w4, new, others) := reserve_blocks 5 [p3] (sched sy3) in
  (fun it => (RadixCache.sequence_id it.2, block_table it.2)) <$> contents (prefix_cache w4) = [(-1, []); (0, [0; 1; 2; 3])] /\
  new = [4; 5; 6; 7; 0] /\ is_swapped <$> others = [true].
Proof. vm_compute. done. Qed.

(** A request whose blocks were swapped out and that finishes in the same batch leaves them in host memory. *)
Example swapped_blocks_left_in_host_memory :
  let '(sy1, p1, _, _) := Demo.run false 0 (Demo.request 1 "") [] Demo.system in
  let '(w2, new, others) := reserve_blocks 5 [p1] (sched sy1) in
  let sys2 := mkSystem w2 (sessions sy1) in
  let sys3 := foldl (fun sy v => (Demo.done (base v) sy).1) sys2 others in
  option_map NumAvailableHostBlocks (kv (sched sy1)) = Some 16%nat /\ option_map NumAvailableHostBlocks (kv (sched sys3)) = Some 12%nat.
Proof. vm_compute. done. Qed.
