(* ===== verification/Lifecycle.v ===== *)
(** * scheduler: where a request is

    The queues and workers of scheduler.cpp as a transition system: [Generate], the scheduler's
    own loop with [ProcessBatch], the pool of decode workers, and what happens at the end of a loop.
    Requests are their sequence numbers.  A section that holds the queue mutex, or that
    only touches lists of its own thread, is a step; what the components decide about a request
    (admission, transport, execution) are arguments of the step.  Setting a promise twice throws. *)

From stdpp Require Import base tactics numbers list sets relations.
From S2P Require Import Prelude.

(** ** The scheduler's own loop *)

Inductive Admission := Bypassed | Deferred | Overflow | Passed.

(** What is known of a request when it is routed. *)
Record Facts := mkFacts {
  embedding_request : bool; prefill_phase : bool; already_prefilled : bool; split_backend : bool; admission : Admission;
  enqueue_ok : bool; retries_exhausted : bool }.

Inductive Route := ToReady | ToLocal | ToWorker | ToDecodeQueue | ToPrefillQueue | Answer.

(** [transport]: a KV transport is configured. *)
Definition route (transport : bool) (f : Facts) : Route :=
  if embedding_request f || negb (prefill_phase f) then ToReady
  else if already_prefilled f then (if split_backend f then ToWorker else ToLocal)
  else match admission f with
       | Bypassed | Deferred => ToLocal
       | Overflow => Answer
       | Passed =>
           if split_backend f && transport then
             if enqueue_ok f then ToDecodeQueue else if retries_exhausted f then Answer else ToPrefillQueue
           else if split_backend f then ToWorker else ToLocal
       end.

(** What became of a request that was executed. *)
Record Result := mkResult { embedding : bool; no_backend : bool; cancelled : bool; more_inputs : bool; yielded : bool }.

Inductive Fate := Answered | RequeuePrefill | RequeueDecode.

Definition fate (r : Result) : Fate :=
  if embedding r then (if negb (no_backend r || cancelled r) && more_inputs r then RequeuePrefill else Answered)
  else if yielded r then RequeueDecode else Answered.

(** The lists of [ProcessBatch]. *)
Record Worker := mkWorker { todo : list nat; staged_worker : list nat; staged_local : list nat; ready : list nat; exec : list nat; requeue : list nat }.

Inductive WorkerPc := Waiting | Routing | Checking | Executing | Exited.

#[export] Instance WorkerPc_eq_dec : EqDecision WorkerPc.
Proof. solve_decision. Defined.

Definition no_work : Worker := mkWorker [] [] [] [] [] [].

(** ** Decode workers *)

(** [stale]: the requests of the batch have been answered already. *)
Record DecodeWorker := mkDecode { batch : list nat; sticky : bool; stale : bool; alive : bool }.

(** What a turn of the loop finds about a request of the batch. *)
Inductive Turn := Unsupported | Continues | Yields | Finished.

Section Queues.
Context (compatible : nat -> bool) (max_batch_size : nat).

(** [AppendCompatiblePendingDecodeLocked]: the batch and what is left of the queue. *)
Fixpoint AppendCompatible (queue batch : list nat) : list nat * list nat :=
  match queue with
  | [] => (batch, [])
  | p :: queue' =>
      if (length batch <? max_batch_size)%nat then
        if compatible p then AppendCompatible queue' (batch ++ [p])
        else let '(batch, rest) := AppendCompatible queue' batch in (batch, p :: rest)
      else (batch, queue)
  end.
End Queues.

(** ** The state *)

Record State := mkState {
  stop : bool; pending_prefill : list nat; pending_decode : list nat; pc : WorkerPc; worker : Worker; decoders : list DecodeWorker;
  submitted : list nat; answered : list nat; broken : list nat; crashed : bool }.

(** The requests of a worker. *)
Definition of_worker (w : Worker) : list nat := todo w ++ staged_worker w ++ staged_local w ++ ready w ++ exec w ++ requeue w.
Definition of_decoder (d : DecodeWorker) : list nat := if stale d then [] else batch d.
Definition of_decoders (ds : list DecodeWorker) : list nat := flat_map of_decoder ds.

Definition exit_guard (st : State) : bool := stop st && bool_decide (pending_prefill st = []) && bool_decide (pending_decode st = []).

(** [FailAllQueuedLocked] *)
Definition FailAllQueued (st : State) : State :=
  mkState (stop st) [] [] (pc st) (worker st) (decoders st) (submitted st) (answered st ++ pending_prefill st ++ pending_decode st) (broken st) (crashed st).

Definition set_worker (c : WorkerPc) (w : Worker) (st : State) : State :=
  mkState (stop st) (pending_prefill st) (pending_decode st) c w (decoders st) (submitted st) (answered st) (broken st) (crashed st).

Definition set_queues (pp pd : list nat) (st : State) : State :=
  mkState (stop st) pp pd (pc st) (worker st) (decoders st) (submitted st) (answered st) (broken st) (crashed st).

Definition add_answer (l : list nat) (st : State) : State :=
  mkState (stop st) (pending_prefill st) (pending_decode st) (pc st) (worker st) (decoders st) (submitted st) (answered st ++ l) (broken st) (crashed st).

Definition set_decoder (i : nat) (d : DecodeWorker) (st : State) : State :=
  mkState (stop st) (pending_prefill st) (pending_decode st) (pc st) (worker st) (<[i := d]> (decoders st)) (submitted st) (answered st) (broken st) (crashed st).

Definition add_broken (l : list nat) (st : State) : State :=
  mkState (stop st) (pending_prefill st) (pending_decode st) (pc st) (worker st) (decoders st) (submitted st) (answered st) (broken st ++ l) true.

(** ** Steps of the scheduler's loop *)

(** One request of the selection. *)
Definition route_one (transport : bool) (f : Facts) (p : nat) (rest : list nat) (st : State) : State :=
  let w := worker st in
  let go w := set_worker Routing w st in
  match route transport f with
  | ToReady => go (mkWorker rest (staged_worker w) (staged_local w) (ready w ++ [p]) (exec w) (requeue w))
  | ToLocal => go (mkWorker rest (staged_worker w) (staged_local w ++ [p]) (ready w) (exec w) (requeue w))
  | ToWorker => go (mkWorker rest (staged_worker w ++ [p]) (staged_local w) (ready w) (exec w) (requeue w))
  | ToDecodeQueue => set_queues (pending_prefill st) (pending_decode st ++ [p]) (go (mkWorker rest (staged_worker w) (staged_local w) (ready w) (exec w) (requeue w)))
  | ToPrefillQueue => set_queues (pending_prefill st ++ [p]) (pending_decode st) (go (mkWorker rest (staged_worker w) (staged_local w) (ready w) (exec w) (requeue w)))
  | Answer => add_answer [p] (go (mkWorker rest (staged_worker w) (staged_local w) (ready w) (exec w) (requeue w)))
  end.

(** The staged requests go to the decode workers or are executed here. *)
Definition stage (use_decode_workers : bool) (st : State) : State :=
  let w := worker st in
  let '(pd, rd) := if use_decode_workers then (pending_decode st ++ staged_worker w, ready w) else (pending_decode st, ready w ++ staged_worker w) in
  let rd := rd ++ staged_local w in
  let st := set_queues (pending_prefill st) pd st in
  if bool_decide (rd = []) then set_worker Waiting no_work st else set_worker Checking (mkWorker [] [] [] rd [] []) st.

(** [supported]: the features and the response format of the request. *)
Definition check_one (supported : bool) (p : nat) (rest : list nat) (st : State) : State :=
  let w := worker st in
  if supported then set_worker Checking (mkWorker [] [] [] rest (exec w ++ [p]) []) st
  else add_answer [p] (set_worker Checking (mkWorker [] [] [] rest (exec w) []) st).

Definition checked (st : State) : State :=
  if bool_decide (exec (worker st) = []) then set_worker Waiting no_work st else set_worker Executing (worker st) st.

Definition settle_one (r : Result) (p : nat) (rest : list nat) (st : State) : State :=
  let w := worker st in
  match fate r with
  | Answered => add_answer [p] (set_worker Executing (mkWorker [] [] [] [] rest (requeue w)) st)
  | RequeuePrefill => set_queues (pending_prefill st ++ [p]) (pending_decode st) (set_worker Executing (mkWorker [] [] [] [] rest (requeue w)) st)
  | RequeueDecode => set_worker Executing (mkWorker [] [] [] [] rest (requeue w ++ [p])) st
  end.

Definition requeue_all (st : State) : State :=
  set_queues (pending_prefill st) (pending_decode st ++ requeue (worker st)) (set_worker Waiting no_work st).

(** ** Steps of a decode worker *)

Definition take_batch (max_batch_size i : nat) (d : DecodeWorker) (st : State) : State :=
  let n := Nat.min (length (pending_decode st)) max_batch_size in
  set_queues (pending_prefill st) (drop n (pending_decode st)) (set_decoder i (mkDecode (take n (pending_decode st)) (sticky d) false true) st).

Definition merge_batch (compatible : nat -> bool) (max_batch_size i : nat) (d : DecodeWorker) (st : State) : State :=
  let '(b, rest) := AppendCompatible compatible max_batch_size (pending_decode st) (batch d) in
  set_queues (pending_prefill st) rest (set_decoder i (mkDecode b (sticky d) (stale d) true) st).

(** A turn over the batch: the requests answered, kept and queued again, in order. *)
Definition turn_of (stepwise : bool) (t : Turn) : Turn :=
  match t with
  | Unsupported => Unsupported
  | Continues => if stepwise then Continues else Finished
  | Yields => if stepwise then Finished else Yields
  | Finished => Finished
  end.

Definition pick (stepwise : bool) (turns : nat -> Turn) (want : Turn -> bool) (l : list nat) : list nat :=
  filter (fun p => want (turn_of stepwise (turns p)) = true) l.

Definition is_unsupported (t : Turn) : bool := match t with Unsupported => true | _ => false end.
Definition is_continuing (t : Turn) : bool := match t with Continues => true | _ => false end.
Definition is_yielding (t : Turn) : bool := match t with Yields => true | _ => false end.
Definition is_answered (t : Turn) : bool := match t with Unsupported | Finished => true | _ => false end.

(** The worker goes on with the requests that continue.  When no request was executed, the
    batch is left as it is, although its requests have been answered. *)
Definition turn (stepwise : bool) (turns : nat -> Turn) (i : nat) (d : DecodeWorker) (st : State) : State :=
  let b := batch d in
  let kept := pick stepwise turns is_continuing b in
  let st' := add_answer (pick stepwise turns is_answered b) (set_queues (pending_prefill st) (pending_decode st ++ pick stepwise turns is_yielding b) st) in
  if bool_decide (Forall (fun p => is_unsupported (turns p) = true) b)
  then set_decoder i (mkDecode b (sticky d) true true) st'
  else set_decoder i (mkDecode kept (bool_decide (kept <> [])) false true) st'.

(** The end of the loop. *)
Definition decoder_exits (i : nat) (st : State) : State := FailAllQueued (set_decoder i (mkDecode [] false false false) st).
Definition decoder_dies (i : nat) (d : DecodeWorker) (st : State) : State :=
  FailAllQueued (add_broken (of_decoder d) (set_decoder i (mkDecode [] false false false) st)).

(** ** The transition system *)

Section System.
(** [use_decode_workers] with its pool, and whether a KV transport is configured. *)
Context (use_decode_workers transport : bool) (pool max_batch_size : nat).

Definition initial : State :=
  mkState false [] [] Waiting no_work (replicate (if use_decode_workers then pool else 0) (mkDecode [] false false true)) [] [] [] false.

(** The selection of a batch and the exchange for fairness move requests between the queues and the
    selection; a loop that leaves decoding to the workers selects nothing when no request waits for
    its prefill.  A request that was found unsupported is found so again; the requests of a sticky batch
    are bound to its backend and stay supported.  [Generate] is not called during the shutdown. *)
Inductive step : State -> State -> Prop :=
  | step_generate st p : stop st = false -> p ∉ submitted st ->
      step st (mkState (stop st) (pending_prefill st ++ [p]) (pending_decode st) (pc st) (worker st) (decoders st) (submitted st ++ [p]) (answered st) (broken st) (crashed st))
  | step_stop st : step st (mkState true (pending_prefill st) (pending_decode st) (pc st) (worker st) (decoders st) (submitted st) (answered st) (broken st) (crashed st))
  | step_select st sel pp pd : pc st = Waiting -> exit_guard st = false ->
      pending_prefill st ++ pending_decode st ≡ₚ sel ++ pp ++ pd -> (use_decode_workers = true -> pending_prefill st = [] -> sel = []) ->
      (sel = [] -> pp = pending_prefill st /\ pd = pending_decode st) ->
      step st (if bool_decide (sel = []) then set_queues pp pd st else set_worker Routing (mkWorker sel [] [] [] [] []) (set_queues pp pd st))
  | step_route st f p rest : pc st = Routing -> todo (worker st) = p :: rest -> step st (route_one transport f p rest st)
  | step_stage st : pc st = Routing -> todo (worker st) = [] -> exec (worker st) = [] -> requeue (worker st) = [] -> step st (stage use_decode_workers st)
  | step_check st ok p rest : pc st = Checking -> ready (worker st) = p :: rest -> step st (check_one ok p rest st)
  | step_checked st : pc st = Checking -> ready (worker st) = [] -> step st (checked st)
  | step_settle st r p rest : pc st = Executing -> exec (worker st) = p :: rest -> step st (settle_one r p rest st)
  | step_requeue st : pc st = Executing -> exec (worker st) = [] -> step st (requeue_all st)
  | step_exit st : pc st = Waiting -> exit_guard st = true -> step st (set_worker Exited (worker st) st)
  | step_crash st : pc st <> Exited -> step st (add_broken (of_worker (worker st)) (set_worker Exited no_work st))
  | step_take st i d : decoders st !! i = Some d -> alive d = true -> batch d = [] -> pending_decode st <> [] -> step st (take_batch max_batch_size i d st)
  | step_merge st i d compatible : decoders st !! i = Some d -> alive d = true -> batch d <> [] -> sticky d = true -> stale d = false ->
      step st (merge_batch compatible max_batch_size i d st)
  | step_turn st i d stepwise turns : decoders st !! i = Some d -> alive d = true -> batch d <> [] -> stale d = false ->
      (sticky d = true -> Exists (fun p => is_unsupported (turns p) = false) (batch d)) -> step st (turn stepwise turns i d st)
  | step_stale st i d : decoders st !! i = Some d -> alive d = true -> stale d = true -> step st (decoder_dies i d st)
  | step_decoder_exit st i d : decoders st !! i = Some d -> alive d = true -> batch d = [] -> stop st = true -> pending_decode st = [] -> step st (decoder_exits i st)
  | step_decoder_crash st i d : decoders st !! i = Some d -> alive d = true -> step st (decoder_dies i d st).

Definition reachable (st : State) : Prop := rtc step initial st.

(** ** Every request is in one place *)

Definition places (st : State) : list nat :=
  pending_prefill st ++ pending_decode st ++ of_worker (worker st) ++ of_decoders (decoders st) ++ answered st ++ broken st.

(** The lists of the loop that are not used where it stands. *)
Definition worker_ok (st : State) : Prop :=
  match pc st with
  | Waiting | Exited => worker st = no_work
  | Routing => exec (worker st) = [] /\ requeue (worker st) = []
  | Checking => todo (worker st) = [] /\ staged_worker (worker st) = [] /\ staged_local (worker st) = [] /\ requeue (worker st) = []
  | Executing => todo (worker st) = [] /\ staged_worker (worker st) = [] /\ staged_local (worker st) = [] /\ ready (worker st) = []
  end.

Record ok (st : State) : Prop := {
  ok_places : places st ≡ₚ submitted st;
  ok_fresh : NoDup (submitted st);
  ok_worker : worker_ok st;
  ok_dead : Forall (fun d => alive d = false -> batch d = []) (decoders st);
  ok_stale : Forall (fun d => stale d = true -> forall p, p ∈ batch d -> p ∈ answered st) (decoders st) }.

Lemma of_decoders_insert ds i d d' : ds !! i = Some d -> of_decoder d ++ of_decoders (<[i := d']> ds) ≡ₚ of_decoder d' ++ of_decoders ds.
Proof.
  revert i. induction ds as [|x ds IH]; intros [|i] Hi; cbn in Hi; [done..| |].
  - injection Hi as ->. cbn. solve_Permutation.
  - cbn. rewrite !(Permutation_app_swap_app _ (of_decoder x)). f_equiv. by apply IH.
Qed.

Lemma decoders_insert (P : DecodeWorker -> Prop) ds i d : Forall P ds -> P d -> Forall P (<[i := d]> ds).
Proof. intros H1 H2. by apply Forall_insert. Qed.

Lemma append_compatible compatible queue b : let '(b', rest) := AppendCompatible compatible max_batch_size queue b in b' ++ rest ≡ₚ b ++ queue.
Proof.
  revert b. induction queue as [|p queue IH]; intros b; cbn [AppendCompatible]; [done|]. destruct (_ <? _)%nat; [|done]. destruct (compatible p).
  - specialize (IH (b ++ [p])). destruct (AppendCompatible _ _ _ _) as [b' rest]. rewrite IH. solve_Permutation.
  - specialize (IH b). destruct (AppendCompatible _ _ _ _) as [b' rest]. rewrite <- Permutation_middle, IH. solve_Permutation.
Qed.

(** A turn answers, keeps or queues each request of the batch. *)
Lemma turn_splits stepwise turns l :
  l ≡ₚ pick stepwise turns is_continuing l ++ pick stepwise turns is_yielding l ++ pick stepwise turns is_answered l.
Proof.
  unfold pick. induction l as [|p l IH]; [done|]. rewrite !filter_cons. rewrite IH at 1.
  destruct (turn_of stepwise (turns p)); cbn; repeat (rewrite decide_True by done || rewrite decide_False by done); solve_Permutation.
Qed.

Lemma all_unsupported stepwise turns l : Forall (fun p => is_unsupported (turns p) = true) l ->
  pick stepwise turns is_continuing l = [] /\ pick stepwise turns is_yielding l = [] /\ pick stepwise turns is_answered l = l.
Proof.
  unfold pick. induction 1 as [|p l Hp _ (I1 & I2 & I3)]; [done|]. rewrite !filter_cons. destruct (turns p); try done. cbn.
  repeat (rewrite decide_True by done || rewrite decide_False by done). by rewrite I1, I2, I3.
Qed.

Lemma queue_step_ok st st' :
  ok st -> places st' ≡ₚ places st -> submitted st' = submitted st -> worker_ok st' -> decoders st' = decoders st -> answered st ⊆ answered st' -> ok st'.
Proof.
  intros [H1 H2 H3 H4 H5] Hp Hs Hw Hd Ha. constructor; [by rewrite Hs, Hp|by rewrite Hs|done|by rewrite Hd|]. rewrite Hd.
  eapply Forall_impl; [exact H5|]. intros d Hst Hx p Hin. apply Ha. by apply Hst.
Qed.

Lemma routed_ok st f p rest : ok st -> pc st = Routing -> todo (worker st) = p :: rest -> ok (route_one transport f p rest st).
Proof.
  intros Hok Hpc Ht. pose proof (ok_worker _ Hok) as Hw. unfold worker_ok in Hw. rewrite Hpc in Hw.
  apply (queue_step_ok st); [done| | | | |]; unfold route_one; destruct (route transport f); try done; try (by cbn; set_solver).
  all: unfold places, of_worker; cbn; rewrite Ht; solve_Permutation.
Qed.

Lemma staged_ok st : ok st -> pc st = Routing -> todo (worker st) = [] -> exec (worker st) = [] -> requeue (worker st) = [] -> ok (stage use_decode_workers st).
Proof.
  intros Hok Hpc Ht He Hr. destruct st as [sp pp pd c [td sw sl rd ex rq] ds sub ans br cr]. cbn in *. subst. unfold stage. cbn.
  destruct use_decode_workers; (case_bool_decide as Eq; [|eapply queue_step_ok; [exact Hok| | | | |]; try done; unfold places, of_worker; cbn; solve_Permutation]);
    apply app_eq_nil in Eq as [Eq ->].
  - subst rd. eapply queue_step_ok; [exact Hok| | | | |]; try done. unfold places, of_worker; cbn; solve_Permutation.
  - apply app_eq_nil in Eq as [-> ->]. eapply queue_step_ok; [exact Hok| | | | |]; try done.
Qed.

Lemma worked_ok st st' : ok st ->
  (exists ok' p rest, pc st = Checking /\ ready (worker st) = p :: rest /\ st' = check_one ok' p rest st) \/
  (pc st = Checking /\ ready (worker st) = [] /\ st' = checked st) \/
  (exists r p rest, pc st = Executing /\ exec (worker st) = p :: rest /\ st' = settle_one r p rest st) \/
  (pc st = Executing /\ exec (worker st) = [] /\ st' = requeue_all st) -> ok st'.
Proof.
  intros Hok Hst. destruct st as [sp pp pd c [td sw sl rd ex rq] ds sub ans br cr]. cbn in Hst. pose proof (ok_worker _ Hok) as Hw. unfold worker_ok in Hw. cbn in Hw.
  destruct Hst as [(b & p & rest & -> & -> & ->)|[(-> & -> & ->)|[(r & p & rest & -> & -> & ->)|(-> & -> & ->)]]]; cbn in Hw; destruct_and!; subst.
  - eapply queue_step_ok; [exact Hok| | | | |]; unfold check_one; destruct b; try done; try (by cbn; set_solver); unfold places, of_worker; cbn; solve_Permutation.
  - unfold checked. cbn. case_bool_decide as E; [subst ex|]; eapply queue_step_ok; try exact Hok; try done.
  - eapply queue_step_ok; [exact Hok| | | | |]; unfold settle_one; cbn; destruct (fate r); try done; try (by cbn; set_solver); unfold places, of_worker; cbn; solve_Permutation.
  - eapply queue_step_ok; [exact Hok| | | | |]; try done. unfold places, of_worker; cbn; solve_Permutation.
Qed.

(** A step of decode worker [i]. *)
Lemma decoder_step_ok st st' i d d' :
  ok st -> decoders st !! i = Some d -> decoders st' = <[i := d']> (decoders st) -> submitted st' = submitted st -> pc st' = pc st -> worker st' = worker st ->
  of_decoder d' ++ pending_prefill st' ++ pending_decode st' ++ answered st' ++ broken st' ≡ₚ
    of_decoder d ++ pending_prefill st ++ pending_decode st ++ answered st ++ broken st ->
  answered st ⊆ answered st' -> (alive d' = false -> batch d' = []) -> (stale d' = true -> forall p, p ∈ batch d' -> p ∈ answered st') -> ok st'.
Proof.
  intros [H1 H2 H3 H4 H5] Hd Eds Hs Hpc Hw Hp Ha Hal Hst. constructor; [|by rewrite Hs| | |].
  - rewrite Hs, <- H1. apply (Permutation_app_inv_l (of_decoder d)). unfold places. rewrite Hw, Eds.
    pose proof (of_decoders_insert _ _ _ d' Hd) as Hi. transitivity ((of_decoder d ++ of_decoders (<[i := d']> (decoders st))) ++
      of_worker (worker st) ++ pending_prefill st' ++ pending_decode st' ++ answered st' ++ broken st'); [solve_Permutation|]. rewrite Hi.
    transitivity ((of_decoder d' ++ pending_prefill st' ++ pending_decode st' ++ answered st' ++ broken st') ++ of_decoders (decoders st) ++ of_worker (worker st));
      [solve_Permutation|]. rewrite Hp. solve_Permutation.
  - unfold worker_ok. by rewrite Hpc, Hw.
  - rewrite Eds. by apply decoders_insert.
  - rewrite Eds. apply decoders_insert; [|done]. eapply Forall_impl; [exact H5|]. intros x Hx Hy p Hin. apply Ha. by apply Hx.
Qed.

Lemma turned_ok st i d stepwise turns :
  ok st -> decoders st !! i = Some d -> stale d = false -> ok (turn stepwise turns i d st).
Proof.
  intros Hok Hd Hs. unfold turn. case_bool_decide as Hu.
  - destruct (all_unsupported stepwise turns _ Hu) as (_ & -> & ->).
    eapply (decoder_step_ok st _ i d); [exact Hok|exact Hd|reflexivity|done|done|done| |by cbn; set_solver|done|].
    + cbn. unfold of_decoder. rewrite Hs. cbn. solve_Permutation.
    + intros _ p Hp. cbn in *. set_solver.
  - eapply (decoder_step_ok st _ i d); [exact Hok|exact Hd|reflexivity|done|done|done| |by cbn; set_solver|done|done].
    cbn. unfold of_decoder. rewrite Hs. cbn. rewrite (turn_splits stepwise turns (batch d)) at 4. solve_Permutation.
Qed.

Lemma died_ok st i d : ok st -> decoders st !! i = Some d -> ok (decoder_dies i d st).
Proof.
  intros Hok Hd. eapply (decoder_step_ok st _ i d); [exact Hok|exact Hd|reflexivity|done|done|done| |by cbn; set_solver|done|done]. cbn. solve_Permutation.
Qed.

Lemma step_keeps_ok st st' : step st st' -> ok st -> ok st'.
Proof.
  destruct 1 as [st p Hs Hp|st|st sel pp pd Hpc Hg Hq Hu Hn|st f p rest Hpc Ht|st Hpc Ht He Hr|st b p rest Hpc Hr|st Hpc Hr|st r p rest Hpc He|st Hpc He|st Hpc Hg|st Hpc
    |st i d Hd Ha Hb Hne|st i d compatible Hd Ha Hb Hst Hs|st i d stepwise turns Hd Ha Hb Hs _|st i d Hd Ha Hs|st i d Hd Ha Hb Hs Hpd|st i d Hd Ha]; intros Hok.
  - destruct Hok as [H1 H2 H3 H4 H5]. constructor; cbn; try done; [|apply NoDup_app; split_and!; [done|set_solver|apply NoDup_singleton]].
    rewrite <- H1. unfold places. cbn. solve_Permutation.
  - destruct Hok. by constructor.
  - pose proof (ok_worker _ Hok) as Hw. unfold worker_ok in Hw. rewrite Hpc in Hw.
    case_bool_decide as E.
    + subst sel. destruct (Hn eq_refl) as [-> ->]. eapply queue_step_ok; try exact Hok; try done. unfold worker_ok. cbn. by rewrite Hpc.
    + eapply queue_step_ok; try exact Hok; try done. unfold places. cbn. rewrite Hw. cbn. rewrite !app_nil_r, (app_assoc (pending_prefill st)), Hq. solve_Permutation.
  - by apply routed_ok.
  - by apply staged_ok.
  - eapply worked_ok; [exact Hok|]. left. eauto 10.
  - eapply worked_ok; [exact Hok|]. right. left. eauto 10.
  - eapply worked_ok; [exact Hok|]. right. right. left. eauto 10.
  - eapply worked_ok; [exact Hok|]. right. right. right. eauto 10.
  - pose proof (ok_worker _ Hok) as Hw. unfold worker_ok in Hw. rewrite Hpc in Hw. eapply queue_step_ok; try exact Hok; done.
  - eapply queue_step_ok; try exact Hok; try done. unfold places. cbn. solve_Permutation.
  - eapply (decoder_step_ok st _ i d); [exact Hok|exact Hd|reflexivity|done|done|done| |by cbn; set_solver|done|done].
    cbn. unfold of_decoder. rewrite Hb. cbn. set (n := Nat.min _ _). rewrite <- (take_drop n (pending_decode st)) at 3. destruct (stale d); solve_Permutation.
  - unfold merge_batch. pose proof (append_compatible compatible (pending_decode st) (batch d)) as Hm. destruct (AppendCompatible _ _ _ _) as [b rest].
    eapply (decoder_step_ok st _ i d); [exact Hok|exact Hd|reflexivity|done|done|done| |by cbn; set_solver|done|cbn; congruence].
    cbn. unfold of_decoder. cbn. rewrite Hs. transitivity ((b ++ rest) ++ pending_prefill st ++ answered st ++ broken st); [solve_Permutation|].
    rewrite Hm. solve_Permutation.
  - by apply turned_ok.
  - by apply died_ok.
  - eapply (decoder_step_ok st _ i d); [exact Hok|exact Hd|reflexivity|done|done|done| |by cbn; set_solver|done|done].
    cbn. unfold of_decoder. rewrite Hb, Hpd. destruct (stale d); solve_Permutation.
  - by apply died_ok.
Qed.

Lemma initial_ok : ok initial.
Proof.
  assert (Hn : forall n, of_decoders (replicate n (mkDecode [] false false true)) = []) by (induction n; cbn; auto).
  constructor; [|constructor|done| |]; [unfold places; cbn; by rewrite Hn| |]; by apply Forall_replicate.
Qed.

Lemma reachable_ok st : reachable st -> ok st.
Proof. apply (rtc_ind_r (fun st => ok st)); [apply initial_ok|]. intros y z _ Hs. by apply step_keeps_ok. Qed.

(** C4: A request is always in exactly one place, whatever the loops do, crash or shut down: in one of
    the two queues, in the hands of the scheduler's loop or of a decode worker, answered, or lost with the
    loop that died holding it.  In particular no request is answered twice, and none disappears. *)
Theorem requests_in_one_place st : reachable st -> places st ≡ₚ submitted st /\ NoDup (places st).
Proof. intros [H1 H2 _ _ _]%reachable_ok. split; [done|]. by rewrite H1. Qed.

(** ** Shutdown *)

Definition all_exited (st : State) : Prop := pc st = Exited /\ Forall (fun d => alive d = false) (decoders st).

(** While no loop has died, nothing is lost and the loops leave nothing in the queues. *)
Record orderly (st : State) : Prop := {
  orderly_broken : broken st = [];
  orderly_prefill : pc st = Exited -> stop st = true /\ pending_prefill st = [];
  orderly_decode : all_exited st -> pending_decode st = [] }.

Lemma not_all_exited st i d : decoders st !! i = Some d -> alive d = true -> all_exited st -> False.
Proof. intros Hi Ha [_ Hall]. rewrite Forall_lookup in Hall. specialize (Hall i d Hi). cbn in Hall. congruence. Qed.

Lemma running_orderly st st' : orderly st -> pc st <> Exited -> pc st' <> Exited -> broken st' = broken st -> orderly st'.
Proof. intros [H1 _ _] _ Hpc Hb. constructor; [by rewrite Hb|done|by intros [? _]]. Qed.

Lemma decoding_orderly st st' i d : orderly st -> decoders st' !! i = Some d -> alive d = true -> stop st' = stop st -> pc st' = pc st ->
  pending_prefill st' = pending_prefill st -> broken st' = broken st -> orderly st'.
Proof.
  intros [H1 H2 _] Hi Ha Hs Hpc Hp Hb. constructor; [by rewrite Hb|by rewrite Hs, Hpc, Hp|]. intros Hall. by destruct (not_all_exited st' i d).
Qed.

Lemma route_one_pc f p rest st : pc (route_one transport f p rest st) = Routing /\ broken (route_one transport f p rest st) = broken st.
Proof. unfold route_one. by destruct (route transport f). Qed.

Lemma stage_pc st : pc (stage use_decode_workers st) <> Exited /\ broken (stage use_decode_workers st) = broken st.
Proof. unfold stage. destruct use_decode_workers; case_bool_decide; done. Qed.

Lemma settle_one_pc r p rest st : pc (settle_one r p rest st) = Executing /\ broken (settle_one r p rest st) = broken st.
Proof. unfold settle_one. by destruct (fate r). Qed.

Lemma insert_same_decoder (ds : list DecodeWorker) (i : nat) (d d' : DecodeWorker) : ds !! i = Some d -> <[i := d']> ds !! i = Some d'.
Proof. intros H. apply list_lookup_insert_eq. by eapply lookup_lt_Some. Qed.

Lemma step_orderly st st' : step st st' -> crashed st' = false -> (crashed st = false -> orderly st) -> orderly st'.
Proof.
  destruct 1 as [st p Hs Hp|st|st sel pp pd Hpc Hg Hq Hu Hn|st f p rest Hpc Ht|st Hpc Ht He Hr|st b p rest Hpc Hr|st Hpc Hr|st r p rest Hpc He|st Hpc He|st Hpc Hg|st Hpc
    |st i d Hd Ha Hb Hne|st i d compatible Hd Ha Hb Hst Hs|st i d stepwise turns Hd Ha Hb Hs _|st i d Hd Ha Hs|st i d Hd Ha Hb Hs Hpd|st i d Hd Ha]; intros Hc Hok.
  - destruct (Hok Hc) as [H1 H2 H3]. constructor; cbn; [done| |done]. intros Hpc. destruct (H2 Hpc) as [? _]. congruence.
  - destruct (Hok Hc) as [H1 H2 H3]. constructor; cbn; [done| |done]. intros Hpc. by destruct (H2 Hpc).
  - case_bool_decide; (apply (running_orderly st); [by apply Hok|by rewrite Hpc| |done]); cbn; congruence.
  - destruct (route_one_pc f p rest st) as [E1 E2]. apply (running_orderly st); [apply Hok|by rewrite Hpc|by rewrite E1|done].
    revert Hc. unfold route_one. by destruct (route transport f).
  - apply (running_orderly st); [apply Hok|by rewrite Hpc|apply stage_pc|apply stage_pc]. revert Hc. unfold stage. destruct use_decode_workers; case_bool_decide; done.
  - unfold check_one in *. destruct b; apply (running_orderly st); [by apply Hok|by rewrite Hpc|done|done|by apply Hok|by rewrite Hpc|done|done].
  - unfold checked in *. case_bool_decide; (apply (running_orderly st); [by apply Hok|by rewrite Hpc|done|done]).
  - destruct (settle_one_pc r p rest st) as [E1 E2]. apply (running_orderly st); [apply Hok|by rewrite Hpc|by rewrite E1|done].
    revert Hc. unfold settle_one. by destruct (fate r).
  - apply (running_orderly st); [by apply Hok|by rewrite Hpc|done|done].
  - destruct (Hok Hc) as [H1 _ _]. unfold exit_guard in Hg. apply andb_true_iff in Hg as [[Hs Hp%bool_decide_eq_true]%andb_true_iff Hd%bool_decide_eq_true].
    by constructor.
  - done.
  - eapply (decoding_orderly st); [by apply Hok|cbn; by eapply insert_same_decoder|done..].
  - unfold merge_batch in *. destruct (AppendCompatible _ _ _ _) as [b rest].
    eapply (decoding_orderly st); [by apply Hok|cbn; by eapply insert_same_decoder|done..].
  - unfold turn in *. case_bool_decide; (eapply (decoding_orderly st); [by apply Hok|cbn; by eapply insert_same_decoder|done..]).
  - done.
  - destruct (Hok Hc) as [H1 H2 H3]. constructor; cbn; [done| |done]. intros Hpc. by destruct (H2 Hpc).
  - done.
Qed.

Lemma reachable_orderly st : reachable st -> crashed st = false -> orderly st.
Proof.
  apply (rtc_ind_r (fun st => crashed st = false -> orderly st)); [by constructor|]. intros y z _ Hs IH Hc. by eapply step_orderly.
Qed.

(** C9: When the scheduler has shut down, with its loop and all decode workers at their end and none
    of them by an exception, every request that was ever submitted has been answered, each exactly once. *)
Theorem shutdown_answers_all st : reachable st -> crashed st = false -> all_exited st -> answered st ≡ₚ submitted st.
Proof.
  intros Hr Hc Hall. destruct (reachable_orderly st Hr Hc) as [Hb Hp Hd]. destruct (reachable_ok st Hr) as [H1 _ Hw Hdead _]. specialize (Hd Hall).
  destruct Hall as [Hpc Hall]. destruct (Hp Hpc) as [_ Hpp]. unfold worker_ok in Hw. rewrite Hpc in Hw.
  assert (Ed : of_decoders (decoders st) = []).
  { clear -Hall Hdead. induction (decoders st) as [|d ds IH]; [done|]. apply Forall_cons in Hall as [Ha Hall]. apply Forall_cons in Hdead as [Hb Hdead].
    change (of_decoder d ++ of_decoders ds = []). rewrite IH by done. unfold of_decoder. rewrite Hb by done. by destruct (stale d). }
  rewrite <- H1. unfold places. by rewrite Hpp, Hd, Hw, Ed, Hb, app_nil_r.
Qed.

End System.

(** ** Runs *)

Definition plain : Facts := mkFacts false true false false Passed false false.
Definition handed_over : Facts := mkFacts false true false true Passed false false.
Definition finished : Result := mkResult false false false false false.


(** One request, from its submission to the end of the scheduler. *)
Lemma requests_in_one_place_witness :
  let st := mkState true [] [] Exited no_work [] [0] [0] [] false in reachable false false 0 8 st /\ NoDup (places st).
Proof.
  assert (Hr : reachable false false 0 8 (mkState true [] [] Exited no_work [] [0] [0] [] false)).
  { unfold reachable, initial. cbn. eapply rtc_l; [apply (step_generate _ _ _ _ 0); [done|set_solver]|]. cbn.
    eapply rtc_l; [apply (step_select _ _ _ _ [0] [] []); [done|done|done|done|done]|]. cbn.
    eapply rtc_l; [by apply (step_route _ _ _ _ plain 0 [])|]. cbn. eapply rtc_l; [by apply step_stage|]. cbn.
    eapply rtc_l; [by apply (step_check _ _ _ _ true 0 [])|]. cbn. eapply rtc_l; [by apply step_checked|]. cbn.
    eapply rtc_l; [by apply (step_settle _ _ _ _ finished 0 [])|]. cbn. eapply rtc_l; [by apply step_requeue|]. cbn.
    eapply rtc_l; [apply step_stop|]. cbn. eapply rtc_l; [by apply step_exit|]. apply rtc_refl. }
  split; [exact Hr|]. exact (proj2 (requests_in_one_place _ _ _ _ _ Hr)).
Defined.

(** The request is handed over to a decode worker, which finishes it; then both loops end. *)
Lemma shutdown_answers_all_witness :
  let st := mkState true [] [] Exited no_work [mkDecode [] false false false] [0] [0] [] false in
  reachable true false 1 8 st /\ answered st ≡ₚ submitted st.
Proof.
  assert (Hr : reachable true false 1 8 (mkState true [] [] Exited no_work [mkDecode [] false false false] [0] [0] [] false)).
  { unfold reachable, initial. cbn. eapply rtc_l; [apply (step_generate _ _ _ _ 0); [done|set_solver]|]. cbn.
    eapply rtc_l; [apply (step_select _ _ _ _ [0] [] []); [done|done|done|done|done]|]. cbn.
    eapply rtc_l; [by apply (step_route _ _ _ _ handed_over 0 [])|]. cbn. eapply rtc_l; [by apply step_stage|]. cbn.
    eapply rtc_l; [by apply (step_take _ _ _ _ 0 (mkDecode [] false false true))|]. cbn.
    eapply rtc_l; [by apply (step_turn _ _ _ _ 0 (mkDecode [0] false false true) true (fun _ => Finished))|]. cbn.
    eapply rtc_l; [apply step_stop|]. cbn. eapply rtc_l; [by apply step_exit|]. cbn.
    eapply rtc_l; [by apply (step_decoder_exit _ _ _ _ 0 (mkDecode [] false false true))|]. apply rtc_refl. }
  split; [exact Hr|]. apply (shutdown_answers_all _ _ _ _ _ Hr); [done|]. split; [done|]. by repeat constructor.
Defined.

(** The decode worker ends while the scheduler's loop still prepares a request for it.  The loop then
    finds that request in its queue, takes it for work and cannot select it: it never ends, and no
    step but the death of the loop leads out of the state. *)
Definition hung : State := mkState true [] [0] Waiting no_work [mkDecode [] false false false] [0] [] [] false.

Example split_shutdown_can_hang :
  reachable true false 1 8 hung /\ forall st, step true false 8 hung st -> st = hung \/ crashed st = true.
Proof.
  split.
  - unfold reachable, initial. cbn. eapply rtc_l; [apply (step_generate _ _ _ _ 0); [done|set_solver]|]. cbn.
    eapply rtc_l; [apply (step_select _ _ _ _ [0] [] []); [done|done|done|done|done]|]. cbn.
    eapply rtc_l; [apply step_stop|]. cbn. eapply rtc_l; [by apply (step_decoder_exit _ _ _ _ 0 (mkDecode [] false false true))|]. cbn.
    eapply rtc_l; [by apply (step_route _ _ _ _ handed_over 0 [])|]. cbn. eapply rtc_l; [by apply step_stage|]. apply rtc_refl.
  - assert (Hd : forall i d, decoders hung !! i = Some d -> alive d = true -> False).
    { intros [|i] d Hi Ha; cbn in Hi; [by injection Hi as <-|by destruct i]. }
    intros st Hst. inversion Hst; subst; try discriminate; try (match goal with H : decoders hung !! ?i = Some ?d, Ha : alive ?d = true |- _ => by destruct (Hd i d H Ha) end); [by left| |by right].
    assert (sel = []) as -> by (by apply H2). destruct (H3 eq_refl) as [-> ->]. by left.
Qed.

(** A decode worker whose whole batch is refused keeps the batch, answers it a second time and dies of
    that; the requests that wait in the queues fail with it, and no worker is left. *)
Example unsupported_batch_answered_twice :
  let d := mkDecode [0] false true true in
  reachable true false 1 1 (mkState false [1] [] Waiting no_work [d] [0; 1] [0] [] false) /\
  step true false 1 (mkState false [1] [] Waiting no_work [d] [0; 1] [0] [] false)
    (mkState false [] [] Waiting no_work [mkDecode [] false false false] [0; 1] [0; 1] [] true).
Proof.
  split.
  - unfold reachable, initial. cbn. eapply rtc_l; [apply (step_generate _ _ _ _ 0); [done|set_solver]|]. cbn.
    eapply rtc_l; [apply (step_select _ _ _ _ [0] [] []); [done|done|done|done|done]|]. cbn.
    eapply rtc_l; [by apply (step_route _ _ _ _ handed_over 0 [])|]. cbn. eapply rtc_l; [by apply step_stage|]. cbn.
    eapply rtc_l; [apply (step_generate _ _ _ _ 1); [done|set_solver]|]. cbn.
    eapply rtc_l; [by apply (step_take _ _ _ _ 0 (mkDecode [] false false true))|]. cbn.
    eapply rtc_l; [by apply (step_turn _ _ _ _ 0 (mkDecode [0] false false true) true (fun _ => Unsupported))|]. apply rtc_refl.
  - apply (step_stale _ _ _ (mkState false [1] [] Waiting no_work [mkDecode [0] false true true] [0; 1] [0] [] false) 0 (mkDecode [0] false true true)); done.
Qed.

(** The death of the scheduler's loop leaves the queues as they are: in unified mode a queued
    request is never answered. *)
Lemma stranded_step st st' : step false false 8 st st' ->
  pc st = Exited /\ decoders st = [] /\ 0 ∈ pending_prefill st -> pc st' = Exited /\ decoders st' = [] /\ 0 ∈ pending_prefill st'.
Proof.
  destruct 1; intros (Hpc & Hd & Hin); try congruence; cbn; try done.
  all: try (match goal with H : decoders _ !! _ = Some _ |- _ => rewrite Hd in H; by rewrite lookup_nil in H end). set_solver.
Qed.

Example worker_crash_strands_requests :
  let st := mkState false [0] [] Exited no_work [] [0] [] [] true in
  reachable false false 0 8 st /\ forall st', rtc (step false false 8) st st' -> 0 ∈ pending_prefill st'.
Proof.
  split.
  - unfold reachable, initial. cbn. eapply rtc_l; [apply (step_generate _ _ _ _ 0); [done|set_solver]|]. cbn.
    eapply rtc_l; [by apply step_crash|]. apply rtc_refl.
  - intros st' Hr. enough (pc st' = Exited /\ decoders st' = [] /\ 0 ∈ pending_prefill st') by naive_solver.
    revert st' Hr. apply (rtc_ind_r (fun st => pc st = Exited /\ decoders st = [] /\ 0 ∈ pending_prefill st)).
    + cbn. split_and!; [done|done|set_solver].
    + intros y z _ Hs IH. by eapply stranded_step.
Qed.
