(* ===== verification/SingleExecution.v ===== *)
(** * runtime/execution/batch_executor.cpp: one request at a time

    [ExecuteRequest], which executes the requests that do not join a batch: those with images or a
    response format, those without a prepared sequence, and embeddings; with [Embed] and
    the part of the scheduler that carries an embedding from slice to slice.

    The backend, the router, the JSON library and the cancellation flag are arguments.  A
    call of the backend that throws is [None], and so is the result of the execution.
    The calls that set up and tear down the sampler, metrics and timings are left out. *)

From stdpp Require Import base tactics numbers list strings sets.
From Stdlib Require Import Ascii.
From S2P Require Import Prelude StringUtils GeneratedText Tokenizer Json KVCache.
From S2P Require BatchBuilder Executor Speculative.
From S2P Require Import RadixCache Accounts.

Local Open Scope Z_scope.

Notation Request := Executor.Request.
Notation RequestState := Executor.RequestState.

(** ** Data *)

(** The calls of the backend that make text: with the position and the sequence of a prepared
    prompt and its first token, or from the prompt. *)
Inductive Call := CallDecode (n_past sequence limit first_token : Z) | CallGenerateWithImages (limit : Z) | CallGenerate (limit : Z).

Record Target := mkTarget {
  ready : bool; vision : bool; token_count : bytes -> Z; complete : Call -> option bytes; generate : bytes -> Z -> bytes }.

(** A request with the fields that only this path reads. *)
Record Job := mkJob {
  core : Request; st : RequestState; prompt : bytes; has_images : bool; has_format : bool; json_mode : bool; require_json_object : bool;
  output_tokens : list Z; block_table : list Z }.

Record Response := mkResponse {
  model_id : bytes; completion : bytes; completion_tokens : Z; prompt_count : Z; no_backend : bool; finish_reason_length : bool }.

(** [SpeculativeDecoder]: its configuration, its draft backend and the validation override. *)
Record Speculation := mkSpeculation {
  config : Speculative.SpeculativeConfig; draft_backend : option (bytes -> Z -> bytes); validation : option (list Z -> Z -> list Z) }.

Definition empty_response : bytes := bytes_of "[backend returned empty response]".
Definition no_model : bytes := bytes_of "No model backend is loaded. Set INFERFLUX_MODEL_PATH or configure model.path in server.yaml.".

(** ** Updates *)

Definition with_st (s : RequestState) (j : Job) : Job :=
  mkJob (core j) s (prompt j) (has_images j) (has_format j) (json_mode j) (require_json_object j) (output_tokens j) (block_table j).
Definition with_output (l : list Z) (j : Job) : Job :=
  mkJob (core j) (st j) (prompt j) (has_images j) (has_format j) (json_mode j) (require_json_object j) l (block_table j).
Definition with_blocks (bt : list Z) (j : Job) : Job :=
  mkJob (core j) (st j) (prompt j) (has_images j) (has_format j) (json_mode j) (require_json_object j) (output_tokens j) bt.
Definition with_model (m : bytes) (j : Job) : Job :=
  let q := core j in
  mkJob (Executor.mkRequest (Executor.model q) m (Executor.sequence_id q) (Executor.bpe_prompt_tokens q) (Executor.prompt_tokens q) (Executor.max_tokens q)
           (Executor.stop q) (Executor.streaming q) (Executor.collect_logprobs q) (Executor.logprob_top_n q) (Executor.cache_reuse_pending_tokens q))
    (st j) (prompt j) (has_images j) (has_format j) (json_mode j) (require_json_object j) (output_tokens j) (block_table j).

Definition set_state (n_past : Z) (acc : bytes) (p : BatchBuilder.RequestPhase) (f : Executor.FairnessState) (s : RequestState) : RequestState :=
  Executor.mkState n_past (Executor.prefill_offset s) (Executor.first_token s) (Executor.first_piece s) (Executor.first_logprob s) (Executor.logprobs s)
    (Executor.text s) acc p f (Executor.cache_reused_tokens s) (Executor.cache_prefill_complete s).
Definition set_fairness (f : Executor.FairnessState) (s : RequestState) : RequestState :=
  set_state (Executor.n_past s) (Executor.accumulated_output s) (Executor.phase s) f s.
Definition set_phase (p : BatchBuilder.RequestPhase) (s : RequestState) : RequestState :=
  set_state (Executor.n_past s) (Executor.accumulated_output s) p (Executor.fairness s) s.
Definition uncached (s : RequestState) : RequestState :=
  Executor.mkState (Executor.n_past s) (Executor.prefill_offset s) (Executor.first_token s) (Executor.first_piece s) (Executor.first_logprob s)
    (Executor.logprobs s) (Executor.text s) (Executor.accumulated_output s) (Executor.phase s) (Executor.fairness s) 0 false.
Definition set_yielded (b : bool) (f : Executor.FairnessState) : Executor.FairnessState :=
  Executor.mkFairness (Executor.priority_level f) (Executor.service_tokens f) (Executor.timeslice_tokens f) (Executor.remaining_decode_tokens f)
    (Executor.reported_prompt_tokens f) (Executor.total_completion_tokens f) (Executor.last_timeslice_tokens f) b.

(** ** The parts of an execution *)

Section Execution.
(** [flag]: the cancellation flag when it is read on entry (0), before speculation (1) and
    before generation (2). *)
Context (burst : Z) (speculation : option Speculation) (flag : nat -> bool) (resolve : bytes -> option (bytes * option Target))
  (stub : option bytes) (parse : bytes -> option json) (dump : json -> option bytes).

(** Only a request whose sequence is kept by the backend is cut into slices. *)
Definition slice_resumable (j : Job) : bool := (0 <=? Executor.n_past (st j)) && (0 <=? Executor.sequence_id (core j)).

(** The limit of this slice, and the slice. *)
Definition slice_of (j : Job) : Z * Z :=
  let f := Executor.fairness (st j) in
  let slice := Executor.timeslice_tokens f in
  let limit := Executor.max_tokens (core j) in
  let limit := if 0 <=? Executor.remaining_decode_tokens f then Z.min limit (Executor.remaining_decode_tokens f) else limit in
  let limit := if (0 <? slice) && slice_resumable j then Z.min limit slice else limit in
  let '(limit, slice) :=
    if (0 <? burst) && slice_resumable j then (Z.min limit burst, if slice <=? 0 then burst else slice) else (limit, slice) in
  (if limit <=? 0 then 1 else limit, slice).

(** The slice is consumed. *)
Definition take_slice (f : Executor.FairnessState) : Executor.FairnessState :=
  Executor.mkFairness (Executor.priority_level f) (Executor.service_tokens f) 0 (Executor.remaining_decode_tokens f) (Executor.reported_prompt_tokens f)
    (Executor.total_completion_tokens f) (Executor.timeslice_tokens f) (Executor.yielded f).

(** [backend && backend->IsReady()] *)
Definition live (be : option Target) : option Target := match be with Some t => if ready t then Some t else None | None => None end.

Definition prompt_tokens_of (be : option Target) (j : Job) : Z :=
  match live be with
  | Some t => if negb (has_images j) && bool_decide (Executor.bpe_prompt_tokens (core j) <> []) then Z.of_nat (length (Executor.bpe_prompt_tokens (core j)))
              else token_count t (prompt j)
  | None => Z.of_nat (length (Executor.prompt_tokens (core j)))
  end.

Definition report_prompt (n : Z) (f : Executor.FairnessState) : Executor.FairnessState :=
  if Executor.total_completion_tokens f =? 0 then
    Executor.mkFairness (Executor.priority_level f) (if Executor.service_tokens f =? 0 then n else Executor.service_tokens f) (Executor.timeslice_tokens f)
      (Executor.remaining_decode_tokens f) n (Executor.total_completion_tokens f) (Executor.last_timeslice_tokens f) (Executor.yielded f)
  else f.

(** A page for the request: the block table becomes this page. *)
Definition reserve_page (kv : option PagedKVCache) (j : Job) : option PagedKVCache * Job * option Z :=
  match kv with
  | None => (None, j, None)
  | Some p => match ReservePage p with
              | (p', Ret page) => if 0 <=? page then (Some p', with_blocks [page] j, Some page) else (Some p', j, None)
              | (p', Throw _) => (Some p', j, None)
              end
  end.

Definition release_page (page : option Z) (kv : option PagedKVCache) (j : Job) : option PagedKVCache * Job :=
  match page with
  | Some _ => ((fun p => ReleaseBlocks p (block_table j)) <$> kv, with_blocks [] j)
  | None => (kv, j)
  end.

(** Speculation: the text, with the tokens it is made of. *)
Definition speculate (be : option Target) (limit : Z) (tok : SimpleTokenizer) (j : Job) : SimpleTokenizer * bytes * Job :=
  match speculation with
  | Some sp =>
      if Speculative.enabled (config sp) && negb (has_format j) && negb (flag 1) then
        let prompt := Executor.prompt_tokens (core j) in
        let '(tok, draft) := Speculative.Draft (draft_backend sp) (config sp) tok prompt limit in
        let '(tok, validated) := Speculative.Validate (generate <$> live be) (validation sp) tok prompt draft limit in
        (tok, Decode tok (Speculative.completion_tokens validated), with_output (Speculative.completion_tokens validated) j)
      else (tok, [], j)
  | None => (tok, [], j)
  end.

(** Which call makes the text. *)
Definition call_of (t : Target) (limit : Z) (j : Job) : Call * Job :=
  if slice_resumable j then
    (CallDecode (Executor.n_past (st j)) (Executor.sequence_id (core j)) limit (Executor.first_token (st j)), j)
  else if has_images j && vision t then (CallGenerateWithImages limit, with_st (uncached (st j)) j)
  else (CallGenerate limit, with_st (uncached (st j)) j).

(** The text, whether there was no backend, and whether its answer was empty; [None]: it threw. *)
Definition generated (be : option Target) (limit : Z) (text : bytes) (j : Job) : option (bytes * bool * bool * Job) :=
  if bool_decide (text = []) && negb (flag 2) then
    match live be with
    | Some t =>
        let '(call, j) := call_of t limit j in
        answer ← complete t call;
        Some (if bool_decide (answer = []) then (empty_response, false, true, with_output [] j) else (answer, false, false, j))
    | None => Some (default no_model stub, true, false, j)
    end
  else Some (text, false, false, j).

Definition encode_text (text : bytes) (tok : SimpleTokenizer) (j : Job) : SimpleTokenizer * Z * Job :=
  let '(tok, l) := Encode tok text in (tok, Z.of_nat (length l), with_output l j).

Definition count_tokens (be : option Target) (empty : bool) (text : bytes) (tok : SimpleTokenizer) (j : Job) : SimpleTokenizer * Z * Job :=
  match live be, empty with
  | Some t, false => (tok, token_count t text, j)
  | _, _ => if bool_decide (text = empty_response) then (tok, 0, with_output [] j) else encode_text text tok j
  end.

(** The tokens left after [gen] more. *)
Definition remaining_after (f : Executor.FairnessState) (gen : Z) : Z :=
  if 0 <=? Executor.remaining_decode_tokens f then Z.max 0 (Executor.remaining_decode_tokens f - gen) else -1.

(** The accounting of a slice of [gen] tokens. *)
Definition account (limit slice gen : Z) (j : Job) : Job :=
  let s := st j in
  let f := Executor.fairness s in
  let yields := (0 <? slice) && slice_resumable j && (limit <=? gen) && (0 <? remaining_after f gen) in
  with_st (set_state (if (0 <=? Executor.n_past s) && (0 <? gen) then Executor.n_past s + gen else Executor.n_past s) (Executor.accumulated_output s)
      (if yields then BatchBuilder.PhPending else BatchBuilder.PhFinished)
      (Executor.mkFairness (Executor.priority_level f) (Executor.service_tokens f + gen) (Executor.timeslice_tokens f) (Executor.remaining_decode_tokens f)
         (Executor.reported_prompt_tokens f) (Executor.total_completion_tokens f + gen) (Executor.last_timeslice_tokens f)
         (if yields then true else Executor.yielded f)) s) j.

Definition is_object (v : json) : bool := match v with JObject _ => true | _ => false end.

(** The text as JSON; [inl]: the constraint is violated, [None]: the library threw. *)
Definition as_json (j : Job) (absent : bool) (text : bytes) : option (unit + bytes) :=
  match v ← parse text; if require_json_object j && negb (is_object v) then None else dump v with
  | Some out => Some (inr out)
  | None => if require_json_object j && negb absent then Some (inl tt) else inr <$> dump (JObject [(bytes_of "output", JString text)])
  end.

(** Accumulate the text, count down what is left, and fill in the tokens. *)
Definition accumulate (text : bytes) (remaining : Z) (tok : SimpleTokenizer) (j : Job) : SimpleTokenizer * Job :=
  let s := st j in
  let f := Executor.fairness s in
  let j :=
    if bool_decide (text <> []) && negb (Executor.IsNonAccumulatingCompletion text) then
      with_st (set_state (Executor.n_past s) (Executor.accumulated_output s ++ text) (Executor.phase s)
        (if 0 <=? Executor.remaining_decode_tokens f then
           Executor.mkFairness (Executor.priority_level f) (Executor.service_tokens f) (Executor.timeslice_tokens f) remaining
             (Executor.reported_prompt_tokens f) (Executor.total_completion_tokens f) (Executor.last_timeslice_tokens f) (Executor.yielded f)
         else f) s) j
    else j in
  if bool_decide (output_tokens j = []) && negb (Executor.IsNonAccumulatingCompletion text)
  then let '(tok, l) := Encode tok text in (tok, with_output l j) else (tok, j).

(** ** The execution *)

Definition violation : bytes := bytes_of "Model output violated response_format constraints".
Definition cancelled_text : bytes := bytes_of "[cancelled]".

(** The end of an execution whose text violates its constraint. *)
Definition violated (id : bytes) (n : Z) (len : bool) (page : option Z) (kv : option PagedKVCache) (j : Job) : option PagedKVCache * Job * Response :=
  let s := st j in
  let j := with_output [] (with_st (set_phase BatchBuilder.PhFinished (set_fairness (set_yielded false (Executor.fairness s)) s)) j) in
  let '(kv, j) := release_page page kv j in
  (kv, with_st (Executor.mark_first_token (st j)) j, mkResponse id violation 0 n true len).

(** From the text on. *)
Definition conclude (be : option Target) (id : bytes) (n limit slice : Z) (page : option Z) (text : bytes) (absent empty : bool)
    (tok : SimpleTokenizer) (kv : option PagedKVCache) (j : Job) : SimpleTokenizer * option PagedKVCache * Job * option Response :=
  let '(tok, gen, j) := count_tokens be empty text tok j in
  let f := Executor.fairness (st j) in
  let len := negb absent && (0 <? Executor.max_tokens (core j)) && (Executor.max_tokens (core j) <=? Executor.total_completion_tokens f + gen) in
  let remaining := remaining_after f gen in
  let j := account limit slice gen j in
  match (if json_mode j || require_json_object j then as_json j absent text else Some (inr text)) with
  | None => (tok, kv, j, None)
  | Some (inl _) => let '(kv, j, r) := violated id n len page kv j in (tok, kv, j, Some r)
  | Some (inr text) =>
      let '(tok, gen, j) := if json_mode j || require_json_object j then encode_text text tok j else (tok, gen, j) in
      let '(tok, j) := accumulate text remaining tok j in
      let '(kv, j) := release_page page kv j in
      (tok, kv, with_st (Executor.mark_first_token (st j)) j, Some (mkResponse id text gen n absent len))
  end.

(** [ExecuteRequest] of a request for text. *)
Definition ExecuteRequest (override : option Target) (tok : SimpleTokenizer) (kv : option PagedKVCache) (j : Job) :
    SimpleTokenizer * option PagedKVCache * Job * option Response :=
  let j := with_st (set_fairness (set_yielded false (Executor.fairness (st j))) (st j)) j in
  if flag 0 then
    (tok, kv, with_st (Executor.mark_first_token (set_phase BatchBuilder.PhAborted (st j))) j,
     Some (mkResponse [] cancelled_text 0 (Z.of_nat (length (Executor.prompt_tokens (core j)))) true false))
  else
    let '(be, j) :=
      match override with
      | Some t => (Some t, j)
      | None => match resolve (Executor.model (core j)) with Some (id, t) => (t, with_model id j) | None => (None, j) end
      end in
    let id := if bool_decide (Executor.resolved_model (core j) = []) then Executor.model (core j) else Executor.resolved_model (core j) in
    let '(limit, slice) := slice_of j in
    let n := prompt_tokens_of be j in
    let j := with_st (set_fairness (report_prompt n (take_slice (Executor.fairness (st j)))) (st j)) j in
    let '(kv, j, page) := reserve_page kv j in
    let j := with_st (set_phase BatchBuilder.PhDecode (st j)) j in
    let '(tok, text, j) := speculate be limit tok j in
    match generated be limit text j with
    | None => (tok, kv, j, None)
    | Some (text, absent, empty, j) => conclude be id n limit slice page text absent empty tok kv j
    end.
End Execution.

(** ** The pool of blocks *)

Lemma counted_reserve_page p c p' page :
  counted p c -> (forall i, 0 <= c i) -> ReservePage p = (p', Ret page) -> 0 <= page /\ counted p' (fun i => c i + claimed [page] i).
Proof.
  intros [Hw H] Hc. unfold ReservePage. destruct (SelectEvictionCandidate p) as [p1 [i|]] eqn:Hs; [|done].
  destruct (acquire_step _ _ _ Hw Hs) as (Hw2 & (pg & Hpg & Hfree) & (pg' & Hpg' & Hu & Hr) & Hsame & _).
  destruct (AcquirePageLocked p1 i) as [p2 id] eqn:Ha. cbn in *. assert (id = Z.of_nat i) as -> by (by unfold AcquirePageLocked in Ha; simplify_eq).
  intros [= <- <-]. split; [lia|]. split; [done|]. intros k pk Hk. change [Z.of_nat i] with (Z.of_nat <$> [i]). rewrite claimed_new by apply NoDup_singleton.
  destruct (decide (k = i)) as [->|Hne].
  - rewrite decide_True by set_solver. rewrite Hk in Hpg'. injection Hpg' as <-. destruct (H i pg Hpg) as [H1 H2]. unfold coherent in *.
    rewrite Hfree in H2. symmetry in H2. apply Z.ltb_ge in H2. specialize (Hc i). rewrite Hr, Hu. split; [lia|done].
  - rewrite decide_False by set_solver. rewrite Hsame in Hk by done. destruct (H k pk Hk). split; [lia|done].
Qed.

Lemma release_page_table page kv j : page = None \/ block_table j = default [] ((fun x => [x]) <$> page) ->
  release_page page kv j = (match page with Some x => (fun p => ReleaseBlocks p [x]) <$> kv | None => kv end, match page with Some _ => with_blocks [] j | None => j end).
Proof. unfold release_page. destruct page as [x|]; [|done]. intros [?|E]; [done|]. cbn in E. by rewrite E. Qed.

Section Facts.
Context (burst : Z) (speculation : option Speculation) (flag : nat -> bool) (resolve : bytes -> option (bytes * option Target))
  (stub : option bytes) (parse : bytes -> option json) (dump : json -> option bytes).

Lemma encode_table text tok j : block_table (encode_text text tok j).2 = block_table j.
Proof. unfold encode_text. by destruct (Encode tok text). Qed.

Lemma count_table be empty text tok j : block_table (count_tokens be empty text tok j).2 = block_table j.
Proof. unfold count_tokens. destruct (live be), empty; try done; case_bool_decide; try done; apply encode_table. Qed.

Lemma speculate_table be limit tok j : block_table (speculate speculation flag be limit tok j).2 = block_table j.
Proof.
  unfold speculate. destruct speculation as [sp|]; [|done]. destruct (_ && _ && _); [|done].
  destruct (Speculative.Draft _ _ _ _ _) as [tok1 d]. by destruct (Speculative.Validate _ _ _ _ _ _) as [tok2 v].
Qed.

Lemma generated_table be limit text j text' absent empty j' :
  generated flag stub be limit text j = Some (text', absent, empty, j') -> block_table j' = block_table j.
Proof.
  unfold generated, call_of. destruct (_ && negb (flag 2)); [|by intros [= <- <- <- <-]]. destruct (live be) as [t|]; [|by intros [= <- <- <- <-]].
  destruct (slice_resumable j); [|destruct (has_images j && vision t)]; intros (a & _ & E)%bind_Some; case_bool_decide; by simplify_eq.
Qed.

Lemma accumulate_table text remaining tok j : block_table (accumulate text remaining tok j).2 = block_table j.
Proof.
  unfold accumulate. destruct (bool_decide (text <> []) && _); cbn [output_tokens with_st]; (destruct (bool_decide _ && _); [destruct (Encode tok text)|]); done.
Qed.

Lemma concluded_pool be id n limit slice page text absent empty tok kv j tok' kv' j' r :
  page = None \/ block_table j = default [] ((fun x => [x]) <$> page) ->
  conclude parse dump be id n limit slice page text absent empty tok kv j = (tok', kv', j', Some r) ->
  kv' = match page with Some x => (fun p => ReleaseBlocks p [x]) <$> kv | None => kv end /\
  block_table j' = match page with Some _ => [] | None => block_table j end.
Proof.
  intros Hp. unfold conclude. pose proof (count_table be empty text tok j) as E1. destruct (count_tokens be empty text tok j) as [[tok1 gen] j1]. cbn in E1.
  set (j2 := account limit slice gen j1). assert (E2 : block_table j2 = block_table j) by done.
  destruct (if json_mode j2 || _ then _ else _) as [[[]|text']|]; [| |done].
  - unfold violated. rewrite release_page_table by (cbn; by rewrite E1). intros [= _ <- <- _]. by destruct page.
  - pose proof (encode_table text' tok1 j2) as E3. destruct (json_mode j2 || _).
    + destruct (encode_text text' tok1 j2) as [[tok3 gen3] j3]. cbn in E3. pose proof (accumulate_table text' (remaining_after (Executor.fairness (st j1)) gen) tok3 j3) as E4.
      destruct (accumulate _ _ _ _) as [tok4 j4]. cbn in E4. rewrite release_page_table by (by rewrite E4, E3, E1).
      intros [= _ <- <- _]. destruct page; [done|]. cbn. by rewrite E4, E3, E1.
    + pose proof (accumulate_table text' (remaining_after (Executor.fairness (st j1)) gen) tok1 j2) as E4.
      destruct (accumulate _ _ _ _) as [tok4 j4]. cbn in E4. rewrite release_page_table by (by rewrite E4, E1).
      intros [= _ <- <- _]. destruct page; [done|]. cbn. by rewrite E4, E1.
Qed.

(** C33: An execution that returns leaves every reference count of the pool as it was, whatever backend,
    speculation and JSON library answer: the page it reserves is released on every path, also when
    the text violates its format.  The request holds the blocks it held, or none. *)
Theorem single_request_returns_page override tok p count j tok' kv' j' r (Hp : counted p count) (Hc : forall i, 0 <= count i)
    (He : ExecuteRequest burst speculation flag resolve stub parse dump override tok (Some p) j = (tok', kv', j', Some r)) :
  (exists p', kv' = Some p' /\ counted p' count) /\ (block_table j' = block_table j \/ block_table j' = []).
Proof.
  revert He. unfold ExecuteRequest. set (j0 := with_st _ j). assert (E0 : block_table j0 = block_table j) by done.
  destruct (flag 0%nat); [intros [= <- <- <- <-]; eauto|].
  destruct (match override with Some t => _ | None => _ end) as [be j1] eqn:E1.
  assert (block_table j1 = block_table j) as Eb by (rewrite <- E0; clear -E1; destruct override; [by simplify_eq|]; destruct (resolve _) as [[] |]; by simplify_eq).
  destruct (slice_of burst j1) as [limit slice]. set (n := prompt_tokens_of be j1). set (j2 := with_st _ j1). unfold reserve_page.
  destruct (ReservePage p) as [p1 [page|e]] eqn:Hr.
  - destruct (counted_reserve_page p count p1 page Hp Hc Hr) as [Hpage Hcnt]. rewrite (proj2 (Z.leb_le 0 page) Hpage).
    set (j3 := with_st _ (with_blocks [page] j2)). pose proof (speculate_table be limit tok j3) as E3.
    destruct (speculate speculation flag be limit tok j3) as [[tok3 text] j4]. cbn in E3.
    destruct (generated flag stub be limit text j4) as [[[[text' absent] empty] j5]|] eqn:Hg; [|done]. apply generated_table in Hg.
    intros [-> ->]%concluded_pool; [|right; by rewrite Hg, E3]. split; [|by right]. eexists. split; [done|].
    change (ReleaseBlocks p1 [page]) with (ReleaseBlocksRef p1 [page]). eapply counted_release; [done|]. intros i _. cbn. specialize (Hc i). lia.
  - set (j3 := with_st _ j2). pose proof (speculate_table be limit tok j3) as E3.
    destruct (speculate speculation flag be limit tok j3) as [[tok3 text] j4]. cbn in E3.
    destruct (generated flag stub be limit text j4) as [[[[text' absent] empty] j5]|] eqn:Hg; [|done]. apply generated_table in Hg.
    intros [-> ->]%concluded_pool; [|by left]. split; [|left; by rewrite Hg, E3]. exists p1. split; [done|].
    unfold ReservePage in Hr. destruct (SelectEvictionCandidate p) as [p2 [i|]] eqn:Hs; [by destruct (AcquirePageLocked p2 i)|]. injection Hr as <- _.
    destruct Hp as [Hw H]. apply SelectEvictionCandidate_spec in Hs as (Hpg & _ & _ & Hw1 & _); [|done]. split; [done|]. by rewrite Hpg.
Qed.

(** ** Slices *)

(** What the accounting of a request reads. *)
Definition same_account (j j' : Job) : Prop :=
  Executor.fairness (st j') = Executor.fairness (st j) /\ Executor.n_past (st j') = Executor.n_past (st j) /\
  Executor.accumulated_output (st j') = Executor.accumulated_output (st j) /\ Executor.sequence_id (core j') = Executor.sequence_id (core j).

Lemma count_account be empty text tok j : same_account j (count_tokens be empty text tok j).2.
Proof. unfold count_tokens, encode_text. destruct (live be), empty; try done; case_bool_decide; try done; by destruct (Encode tok text). Qed.

Lemma speculate_account be limit tok j : same_account j (speculate speculation flag be limit tok j).2.
Proof.
  unfold speculate. destruct speculation as [sp|]; [|done]. destruct (_ && _ && _); [|done].
  destruct (Speculative.Draft _ _ _ _ _) as [tok1 d]. by destruct (Speculative.Validate _ _ _ _ _ _) as [tok2 v].
Qed.

Lemma generated_account be limit text j text' absent empty j' :
  generated flag stub be limit text j = Some (text', absent, empty, j') -> same_account j j'.
Proof.
  unfold generated, call_of. destruct (_ && negb (flag 2)); [|by intros [= <- <- <- <-]]. destruct (live be) as [t|]; [|by intros [= <- <- <- <-]].
  destruct (slice_resumable j); [|destruct (has_images j && vision t)]; intros (a & _ & E)%bind_Some; case_bool_decide; by simplify_eq.
Qed.

(** [f] and the text before and after a slice of [gen] tokens that ends with [text]. *)
Record accounted (limit gen : Z) (text : bytes) (j j' : Job) : Prop := {
  acc_total : Executor.total_completion_tokens (Executor.fairness (st j')) = Executor.total_completion_tokens (Executor.fairness (st j)) + gen;
  acc_past : Executor.n_past (st j') =
    if (0 <=? Executor.n_past (st j)) && (0 <? gen) then Executor.n_past (st j) + gen else Executor.n_past (st j);
  acc_phase : if Executor.yielded (Executor.fairness (st j'))
    then Executor.phase (st j') = BatchBuilder.PhPending /\ slice_resumable j = true /\ limit <= gen /\ 0 < remaining_after (Executor.fairness (st j)) gen
    else Executor.phase (st j') = BatchBuilder.PhFinished;
  acc_text : (Executor.accumulated_output (st j') = Executor.accumulated_output (st j) /\
      Executor.remaining_decode_tokens (Executor.fairness (st j')) = Executor.remaining_decode_tokens (Executor.fairness (st j))) \/
    (Executor.accumulated_output (st j') = Executor.accumulated_output (st j) ++ text /\
      Executor.remaining_decode_tokens (Executor.fairness (st j')) =
        if 0 <=? Executor.remaining_decode_tokens (Executor.fairness (st j)) then remaining_after (Executor.fairness (st j)) gen
        else Executor.remaining_decode_tokens (Executor.fairness (st j))) }.

Lemma accumulate_accounted limit slice gen text tok j j2 : same_account (account limit slice gen j) j2 -> Executor.phase (st j2) = Executor.phase (st (account limit slice gen j)) ->
  Executor.yielded (Executor.fairness (st j)) = false -> accounted limit gen text j (accumulate text (remaining_after (Executor.fairness (st j)) gen) tok j2).2.
Proof.
  intros (F & N & A & _) P Y. unfold accumulate.
  assert (Hph : if Executor.yielded (Executor.fairness (st j2))
    then Executor.phase (st j2) = BatchBuilder.PhPending /\ slice_resumable j = true /\ limit <= gen /\ 0 < remaining_after (Executor.fairness (st j)) gen
    else Executor.phase (st j2) = BatchBuilder.PhFinished).
  { rewrite F, P. unfold account. cbn. destruct (_ && _ && _ && _) eqn:E; [|by rewrite Y].
    apply andb_true_iff in E as [[[E1 E2]%andb_true_iff E3]%andb_true_iff E4]. split_and!; [done|done|by apply Z.leb_le|by apply Z.ltb_lt]. }
  assert (HT : Executor.total_completion_tokens (Executor.fairness (st j2)) = Executor.total_completion_tokens (Executor.fairness (st j)) + gen) by (by rewrite F).
  assert (HR : Executor.remaining_decode_tokens (Executor.fairness (st j2)) = Executor.remaining_decode_tokens (Executor.fairness (st j))) by (by rewrite F).
  cbn in N, A. rewrite HR.
  destruct (bool_decide (text <> []) && _); cbn [output_tokens with_st]; (destruct (bool_decide _ && _); [destruct (Encode tok text)|]);
    destruct (0 <=? Executor.remaining_decode_tokens (Executor.fairness (st j))) eqn:E; constructor; cbn; rewrite ?E, ?N, ?A, ?HT, ?HR; auto.
Qed.

Lemma concluded_accounted be id n limit slice page text absent empty tok kv j tok' kv' j' r :
  Executor.yielded (Executor.fairness (st j)) = false ->
  conclude parse dump be id n limit slice page text absent empty tok kv j = (tok', kv', j', Some r) ->
  exists gen, accounted limit gen (completion r) j j'.
Proof.
  intros Y. unfold conclude. pose proof (count_account be empty text tok j) as H1. destruct (count_tokens be empty text tok j) as [[tok1 gen] j1]. cbn in H1.
  assert (Ha : forall j2 t, accounted limit gen t j1 j2 -> accounted limit gen t j j2).
  { intros j2 t [? ? ? ?]. destruct H1 as (F & N & A & Q). constructor; unfold slice_resumable in *; rewrite <- ?F, <- ?N, <- ?A, <- ?Q; done. }
  assert (Y1 : Executor.yielded (Executor.fairness (st j1)) = false) by (destruct H1 as (-> & _); done).
  destruct (if json_mode _ || _ then _ else _) as [[[]|text']|]; [| |done].
  - unfold violated. intros He. exists gen. apply Ha. destruct page; cbn in He; injection He as _ _ <- <-; constructor; cbn; auto.
  - destruct (json_mode (account limit slice gen j1) || require_json_object (account limit slice gen j1)).
    + unfold encode_text. destruct (Encode tok1 text') as [tok2 l].
      pose proof (accumulate_accounted limit slice gen text' tok2 j1 (with_output l (account limit slice gen j1)) ltac:(done) ltac:(done) Y1) as Hx.
      destruct (accumulate _ _ _ _) as [tok3 j3]. intros He. exists gen. apply Ha. cbn in Hx. unfold release_page in He.
      destruct page; injection He as _ _ <- <-; destruct Hx; by constructor.
    + pose proof (accumulate_accounted limit slice gen text' tok1 j1 (account limit slice gen j1) ltac:(done) ltac:(done) Y1) as Hx.
      destruct (accumulate _ _ _ _) as [tok3 j3]. intros He. exists gen. apply Ha. cbn in Hx. unfold release_page in He.
      destruct page; injection He as _ _ <- <-; destruct Hx; by constructor.
Qed.

Lemma slice_of_bounds j :
  1 <= (slice_of burst j).1 <= Z.max 1 (Executor.max_tokens (core j)) /\
  (0 < Executor.remaining_decode_tokens (Executor.fairness (st j)) -> (slice_of burst j).1 <= Executor.remaining_decode_tokens (Executor.fairness (st j))).
Proof.
  unfold slice_of. set (r := Executor.remaining_decode_tokens _). set (sl := Executor.timeslice_tokens _). set (m := Executor.max_tokens _). clearbody r sl m.
  destruct (Z.leb_spec 0 r), (0 <? sl), (slice_resumable j), (0 <? burst); cbn [andb fst];
    repeat match goal with |- context [?x <=? 0] => destruct (Z.leb_spec x 0); cbn [fst] end; lia.
Qed.

(** The accounting of one execution.  The backend is asked for at least one token, no more than
    the request may have and no more than it has left; the tokens it gives are added to the total and to the position of
    a kept sequence; the text is accumulated and what is left counted down together, or neither.
    The request yields only when its sequence is kept, its slice is used up and tokens are left,
    and is finished otherwise: a request that cannot be resumed never yields. *)
Theorem single_request_accounts override tok kv j tok' kv' j' r (Hf : flag 0%nat = false)
    (He : ExecuteRequest burst speculation flag resolve stub parse dump override tok kv j = (tok', kv', j', Some r)) :
  (1 <= (slice_of burst j).1 <= Z.max 1 (Executor.max_tokens (core j)) /\
   (0 < Executor.remaining_decode_tokens (Executor.fairness (st j)) -> (slice_of burst j).1 <= Executor.remaining_decode_tokens (Executor.fairness (st j)))) /\
  exists gen, accounted (slice_of burst j).1 gen (completion r) j j'.
Proof.
  split; [apply slice_of_bounds|]. revert He. unfold ExecuteRequest. rewrite Hf. set (j0 := with_st _ j).
  destruct (match override with Some t => _ | None => _ end) as [be j1] eqn:E1.
  assert (st j1 = st j0 /\ Executor.sequence_id (core j1) = Executor.sequence_id (core j) /\ slice_of burst j1 = slice_of burst j) as (Es & Eq & El)
    by (clear -E1; destruct override; [by simplify_eq|]; destruct (resolve _) as [[] |]; by simplify_eq).
  rewrite El. destruct (slice_of burst j) as [limit slice]. cbn [fst]. set (n := prompt_tokens_of be j1). set (j2 := with_st _ j1).
  destruct (reserve_page kv j2) as [[kv1 j3] page] eqn:Er.
  assert (st j3 = st j2 /\ core j3 = core j1) as [Es3 Ec3].
  { clear -Er. unfold reserve_page in Er. destruct kv as [p|]; [|by simplify_eq]. destruct (ReservePage p) as [p' [x|]]; [destruct (0 <=? x)|]; by simplify_eq. }
  set (j4 := with_st _ j3). pose proof (speculate_account be limit tok j4) as H4. destruct (speculate speculation flag be limit tok j4) as [[tok5 text] j5]. cbn in H4.
  destruct (generated flag stub be limit text j5) as [[[[text' absent] empty] j6]|] eqn:Hg; [|done]. apply generated_account in Hg.
  assert (H6 : Executor.fairness (st j6) = report_prompt n (take_slice (set_yielded false (Executor.fairness (st j)))) /\
    Executor.n_past (st j6) = Executor.n_past (st j) /\ Executor.accumulated_output (st j6) = Executor.accumulated_output (st j) /\
    Executor.sequence_id (core j6) = Executor.sequence_id (core j)).
  { destruct Hg as (-> & -> & -> & ->). destruct H4 as (-> & -> & -> & ->). unfold j4. cbn. rewrite Es3, Ec3, Eq. unfold j2. cbn. by rewrite Es. }
  clearbody n. clear -H6. destruct H6 as (F & N & A & Q).
  assert (Hy : Executor.yielded (Executor.fairness (st j6)) = false) by (rewrite F; unfold report_prompt; by destruct (_ =? 0)).
  intros [gen [H1 H2 H3 H4]]%(concluded_accounted _ _ _ _ _ _ _ _ _ _ _ _ _ _ _ _ Hy). exists gen. unfold slice_resumable in H3. rewrite F, N, Q in H3.
  rewrite F in H1, H4. rewrite N in H2. rewrite A in H4. revert H1 H3 H4. unfold report_prompt. cbn. destruct (_ =? 0); cbn; intros; by constructor.
Qed.
End Facts.

(** ** Embeddings *)

(** The fields of an embedding request; [queued]: the length of [prompt_tokens], by which it is scheduled. *)
Record Embedding := mkEmbedding {
  inputs : list bytes; offset : nat; slice_size : nat; results : list (list Z); embedded_tokens : Z; queued : nat }.

(** [Embed]: [None]: refused. *)
Definition Embed (max_batch_tokens : Z) (use_decode_workers : bool) (texts : list bytes) : option Embedding :=
  if bool_decide (texts = []) || (4096 <? length texts)%nat || use_decode_workers then None
  else
    let slice := Z.to_nat (Z.max 1 (Z.min 32 (Z.quot max_batch_tokens 512))) in
    Some (mkEmbedding texts 0 slice [] 0 (Nat.min slice (length texts) * 512)).

Section Embeddings.
(** In pass [k]: whether the backend is there and ready, what it answers ([None]: it throws), how many
    tokens it counts, and the cancellation flag on entry (0) and when the result is published (1). *)
Context (e_ready : nat -> bool) (embed : nat -> list bytes -> option (list (list Z))) (count : nat -> bytes -> Z) (flag : nat -> nat -> bool).

Definition well_shaped (batch : list bytes) (vs : list (list Z)) : bool :=
  (length vs =? length batch)%nat && forallb (fun v => negb (bool_decide (v = []))) vs.

(** [ExecuteRequest] of an embedding: vectors and tokens; [None]: [no_backend]. *)
Definition embed_slice (k : nat) (e : Embedding) : option (list (list Z) * Z) :=
  if flag k 0 then None
  else if negb (e_ready k) || (length (inputs e) <=? offset e)%nat then None
  else
    let last := Nat.min (length (inputs e)) (offset e + slice_size e) in
    let batch := take (last - offset e) (drop (offset e) (inputs e)) in
    vs ← embed k batch;
    if well_shaped batch vs then Some (vs, foldr (fun x n => count k x + n) 0 batch) else None.

(** What the scheduler does with the slice: queue the rest, or answer. *)
Definition publish (k : nat) (result : option (list (list Z) * Z)) (e : Embedding) : Embedding + option (list (list Z)) * Z :=
  let e := match result with
           | Some (vs, n) => mkEmbedding (inputs e) (length (results e ++ vs)) (slice_size e) (results e ++ vs) (embedded_tokens e + n) (queued e)
           | None => e
           end in
  let ok := bool_decide (is_Some result) && negb (flag k 1) in
  if ok && (offset e <? length (inputs e))%nat
  then inl (mkEmbedding (inputs e) (offset e) (slice_size e) (results e) (embedded_tokens e) (Nat.min (slice_size e) (length (inputs e) - offset e) * 512))
  else inr (if ok then Some (results e) else None, embedded_tokens e).

Fixpoint run_embedding (passes k : nat) (e : Embedding) : option (option (list (list Z)) * Z) :=
  match passes with
  | O => None
  | S passes => match publish k (embed_slice k e) e with inl e' => run_embedding passes (S k) e' | inr answer => Some answer end
  end.

(** [pieces] are the answers, from pass [k] on, to the batches [cuts] of at most [n] inputs. *)
Inductive answers (n : nat) : nat -> list (list bytes) -> list (list (list Z)) -> Prop :=
  | answers_nil k : answers n k [] []
  | answers_cons k c cs vs pieces :
      (1 <= length c <= n)%nat -> embed k c = Some vs -> length vs = length c -> Forall (fun v => v <> []) vs -> answers n (S k) cs pieces ->
      answers n k (c :: cs) (vs :: pieces).

Lemma well_shaped_spec batch vs : well_shaped batch vs = true <-> length vs = length batch /\ Forall (fun v => v <> []) vs.
Proof.
  unfold well_shaped. rewrite andb_true_iff, Nat.eqb_eq, forallb_forall, Forall_forall. setoid_rewrite negb_true_iff. setoid_rewrite bool_decide_eq_false.
  setoid_rewrite list_elem_of_In. done.
Qed.

Definition serves (n : nat) : Prop := (forall k, e_ready k = true) /\ (forall k s, flag k s = false) /\
  forall k c, (1 <= length c <= n)%nat -> exists vs, embed k c = Some vs /\ length vs = length c /\ Forall (fun v => v <> []) vs.

Lemma run_embedding_spec passes k e :
  (offset e = length (results e)) -> (offset e < length (inputs e))%nat -> (0 < slice_size e)%nat -> (length (inputs e) - offset e <= passes)%nat ->
  exists answer n, run_embedding passes k e = Some (answer, n) /\
    (forall vs, answer = Some vs -> exists cuts pieces, concat cuts = drop (offset e) (inputs e) /\ vs = results e ++ concat pieces /\ answers (slice_size e) k cuts pieces) /\
    (serves (slice_size e) -> is_Some answer).
Proof.
  revert k e. induction passes as [|passes IH]; intros k e Ho Hlt Hs Hp; [lia|]. cbn [run_embedding].
  set (batch := take (Nat.min (length (inputs e)) (offset e + slice_size e) - offset e) (drop (offset e) (inputs e))).
  assert (Hb : (1 <= length batch <= slice_size e)%nat) by (unfold batch; rewrite length_take, length_drop; lia).
  assert (Hfail : publish k None e = inr (None, embedded_tokens e)) by (unfold publish; by rewrite bool_decide_eq_false_2 by (by intros [? [=]])).
  destruct (embed_slice k e) as [[vs n]|] eqn:He.
  - assert (Hv : embed k batch = Some vs /\ length vs = length batch /\ Forall (fun v => v <> []) vs).
    { unfold embed_slice in He. destruct (flag k 0); [done|]. destruct (_ || _); [done|]. fold batch in He. destruct (embed k batch) as [ws|]; [|done]. cbn in He.
      destruct (well_shaped batch ws) eqn:Hw; [|done]. injection He as -> _. by apply well_shaped_spec in Hw. }
    destruct Hv as (Hv & Hl & Hn). unfold publish. cbn [offset inputs slice_size results embedded_tokens]. rewrite bool_decide_eq_true_2 by eauto. cbn [andb].
    rewrite length_app, Hl, <- Ho. destruct (flag k 1) eqn:Hf; cbn [negb andb].
    { do 2 eexists. split; [done|]. split; [done|]. intros (_ & Hc & _). by rewrite Hc in Hf. }
    destruct (Nat.ltb_spec (offset e + length batch) (length (inputs e))) as [Hm|Hm].
    + destruct (IH (S k) (mkEmbedding (inputs e) (offset e + length batch) (slice_size e) (results e ++ vs) (embedded_tokens e + n)
        (Nat.min (slice_size e) (length (inputs e) - (offset e + length batch)) * 512))) as (answer & m & Hr & Hans & Hserve);
        cbn [offset inputs slice_size results]; [rewrite length_app; lia|lia|lia|lia|].
      exists answer, m. split; [done|]. split; [|done]. intros ws Hws. destruct (Hans ws Hws) as (cuts & pieces & Hcut & -> & Ha). cbn in Hcut, Ha.
      exists (batch :: cuts), (vs :: pieces). cbn. split_and!; [|by rewrite app_assoc|by constructor]. rewrite Hcut, <- drop_drop. unfold batch at 1.
      replace (length batch) with (Nat.min (length (inputs e)) (offset e + slice_size e) - offset e)%nat by (unfold batch; rewrite length_take, length_drop; lia).
      apply take_drop.
    + do 2 eexists. split; [done|]. split; [|eauto]. intros ws [= <-]. exists [batch], [vs]. cbn. split_and!; [|by rewrite app_nil_r|].
      * rewrite app_nil_r. unfold batch in *. rewrite length_take, length_drop in Hm. rewrite firstn_all2; [done|]. rewrite length_drop. lia.
      * apply answers_cons; [done|done|done|done|constructor].
  - rewrite Hfail. do 2 eexists. split; [done|]. split; [done|]. intros (Hr & Hf & Hserve). exfalso. unfold embed_slice in He. rewrite Hf, Hr in He. cbn in He.
    rewrite (proj2 (Nat.leb_gt _ _) Hlt) in He. fold batch in He. destruct (Hserve k batch Hb) as (vs & Hv & Hl & Hn). rewrite Hv in He. cbn in He.
    by rewrite (proj2 (well_shaped_spec batch vs)) in He.
Qed.

(** C22: Embeddings.  A request that is accepted is answered after at most one pass per input.  When it
    gets vectors, it gets one for every input, in order, each from the batch that contained the input;
    batches follow each other without gap or overlap and ask for no more tokens than a
    scheduler batch may have (512 an input).  With a backend that answers every batch, and without
    cancellation, it does get vectors. *)
Theorem embeddings_complete max_batch_tokens use_decode_workers texts e (He : Embed max_batch_tokens use_decode_workers texts = Some e) :
  Z.of_nat (slice_size e) * 512 <= Z.max 512 max_batch_tokens /\
  exists answer n, run_embedding (length texts) 0 e = Some (answer, n) /\
    (forall vs, answer = Some vs -> length vs = length texts /\
       exists cuts pieces, concat cuts = texts /\ vs = concat pieces /\ answers (slice_size e) 0 cuts pieces) /\
    (serves (slice_size e) -> is_Some answer).
Proof.
  unfold Embed in He. case_bool_decide as Hn; [done|]. destruct (_ <? _)%nat; [done|]. destruct use_decode_workers; [done|]. injection He as <-. cbn [slice_size]. split.
  - pose proof (Z.quot_mul_le max_batch_tokens 512). destruct (Z.le_gt_cases 0 max_batch_tokens) as [Hm|Hm].
    + rewrite Z.quot_div_nonneg by lia. pose proof (Z.mul_div_le max_batch_tokens 512). lia.
    + assert (Z.quot max_batch_tokens 512 <= 0) by (pose proof (Z.quot_opp_l (- max_batch_tokens) 512); pose proof (Z.quot_pos (- max_batch_tokens) 512);
        rewrite Z.opp_involutive in *; lia). lia.
  - destruct (run_embedding_spec (length texts) 0 (mkEmbedding texts 0 (Z.to_nat (Z.max 1 (Z.min 32 (Z.quot max_batch_tokens 512)))) [] 0
      (Nat.min (Z.to_nat (Z.max 1 (Z.min 32 (Z.quot max_batch_tokens 512)))) (length texts) * 512))) as (answer & n & Hr & Hans & Hserve);
      cbn [offset inputs slice_size results]; [done|destruct texts; [done|cbn; lia]|lia|lia|].
    exists answer, n. split; [done|]. split; [|done]. intros vs Hvs. destruct (Hans vs Hvs) as (cuts & pieces & Hcut & -> & Ha). cbn [offset inputs] in Hcut. rewrite drop_0 in Hcut. split; [|by exists cuts, pieces].
    rewrite <- Hcut. clear -Ha. induction Ha as [|k c cs vs pieces _ _ Hl _ _ IH]; [done|]. cbn in *. rewrite !length_app. by rewrite IH, Hl.
Qed.
End Embeddings.

(** ** Runs *)

(** A backend that counts a token a byte and answers [hi]. *)
Definition echo : Target := mkTarget true false (fun s => Z.of_nat (length s)) (fun _ => Some (bytes_of "hi")) (fun _ _ => []).
Definition broken : Target := mkTarget true false (fun s => Z.of_nat (length s)) (fun _ => None) (fun _ _ => []).

(** A request for ten tokens in slices of two; [past]: the position of its sequence. *)
Definition job (past : Z) (blocks : list Z) : Job :=
  mkJob (Executor.mkRequest (bytes_of "m") [] (if past <? 0 then -1 else 0) [5; 6; 7] [5; 6; 7] 10 [] false false 0 0)
    (Executor.mkState past 3 (-1) [] None [] (mkText [] [] [] false) [] BatchBuilder.PhDecode (Executor.mkFairness 0 0 2 10 (-1) 0 0 false) 0 false)
    (bytes_of "say hi") false false false false [] blocks.

Definition execute (t : Target) := ExecuteRequest 0 None (fun _ => false) (fun _ => None) None (fun _ => None) (fun _ => None) (Some t) newTokenizer.

Definition pool : PagedKVCache := newCache 4 8 kClock.

Lemma new_pool_counted n bytes policy : counted (newCache n bytes policy) (fun _ => 0).
Proof. split; [apply newCache_wf|]. intros i pg Hi. cbn in Hi. apply lookup_replicate in Hi as [-> _]. done. Qed.

Lemma single_request_returns_page_witness :
  exists tok' kv' j' r, execute echo (Some pool) (job (-1) []) = (tok', kv', j', Some r) /\ exists p', kv' = Some p' /\ counted p' (fun _ => 0).
Proof.
  destruct (execute echo (Some pool) (job (-1) [])) as [[[tok' kv'] j'] [r|]] eqn:He; [|vm_compute in He; done].
  exists tok', kv', j', r. split; [done|].
  apply (single_request_returns_page 0 None (fun _ => false) (fun _ => None) None (fun _ => None) (fun _ => None) (Some echo) newTokenizer pool (fun _ => 0) (job (-1) []) tok' kv' j' r);
    [apply new_pool_counted|done|exact He].
Defined.

Lemma single_request_accounts_witness :
  exists tok' kv' j' r, execute echo None (job 3 []) = (tok', kv', j', Some r) /\ Executor.yielded (Executor.fairness (st j')) = true /\
    exists gen, accounted 2 gen (completion r) (job 3 []) j'.
Proof.
  destruct (execute echo None (job 3 [])) as [[[tok' kv'] j'] [r|]] eqn:He; [|vm_compute in He; done].
  exists tok', kv', j', r. split; [done|]. split; [vm_compute in He; by simplify_eq|].
  exact (proj2 (single_request_accounts 0 None (fun _ => false) (fun _ => None) None (fun _ => None) (fun _ => None) (Some echo) newTokenizer None (job 3 [])
    tok' kv' j' r eq_refl He)).
Defined.

Lemma embeddings_complete_witness :
  let texts := bytes_of <$> ["a"; "b"; "c"] in
  exists e, Embed 1024 false texts = Some e /\ slice_size e = 2%nat /\
    exists answer n, run_embedding (fun _ => true) (fun _ l => Some ((fun _ => [1]) <$> l)) (fun _ _ => 1) (fun _ _ => false) 3 0 e = Some (answer, n) /\ is_Some answer.
Proof.
  intros texts. eexists. split; [reflexivity|]. split; [reflexivity|].
  destruct (embeddings_complete (fun _ => true) (fun _ l => Some ((fun _ => [1]) <$> l)) (fun _ _ => 1) (fun _ _ => false) 1024 false texts _ eq_refl)
    as (_ & answer & n & Hr & _ & Hs). exists answer, n. split; [exact Hr|]. apply Hs. split; [done|]. split; [done|].
  intros k c Hc. eexists. split; [done|]. split; [by rewrite length_fmap|]. apply Forall_fmap, Forall_true. done.
Defined.

(** The block table of a request that was prepared for its prompt is overwritten by the page and
    cleared: its blocks stay referenced, and nobody knows them. *)
Example prepared_blocks_forgotten :
  let '(p, blocks) := (ReserveBlocks pool 2) in
  blocks = Ret [0; 1] /\
  exists tok' p' j' r, execute echo (Some p) (job 3 [0; 1]) = (tok', Some p', j', Some r) /\ block_table j' = [] /\ (ref_count <$> pages p') = [1; 1; 0; 0].
Proof. vm_compute. split; [done|]. by repeat eexists. Qed.

(** When the backend throws, the page stays with a request that has no sequence, and what is
    released at its end depends on the sequence. *)
Example thrown_call_keeps_page :
  exists tok' p' j', execute broken (Some pool) (job (-1) []) = (tok', Some p', j', None) /\ block_table j' = [0] /\ (ref_count <$> pages p') = [1; 0; 0; 0].
Proof. vm_compute. by repeat eexists. Qed.
