(* ===== verification/BatchExecution.v ===== *)
(** * runtime/execution/batch_executor.cpp: a batch on several backends and devices

    [ExecuteBatch]: a batch whose requests are placed on several devices is split by device, and
    the parts are executed concurrently; on a device, the requests that can decode together are
    grouped by backend and executed as one batch each, the others one at a time.
    The two executions, [ExecuteUnifiedBatchPhased] (Executor.v) and [ExecuteRequest]
    (SingleExecution.v), are arguments: they may throw ([None]) and otherwise give an outcome a
    request, its result with what becomes of it. *)

From stdpp Require Import base tactics numbers list strings sets.
From S2P Require Import Prelude.

(** ** Groups *)

(** Members of a group are the positions of its requests, in order; groups are in the order
    of their first members. *)
Fixpoint add_group {K} `{EqDecision K} (k : K) (i : nat) (gs : list (K * list nat)) : list (K * list nat) :=
  match gs with
  | [] => [(k, [i])]
  | (k', l) :: gs' => if decide (k = k') then (k', l ++ [i]) :: gs' else (k', l) :: add_group k i gs'
  end.

Definition groups_by {A K} `{EqDecision K} (f : A -> option K) (items : list A) : list (K * list nat) :=
  foldl (fun gs ie => match f ie.2 with Some k => add_group k ie.1 gs | None => gs end) [] (imap pair items).

(** Outcomes are written to the positions of their requests. *)
Definition assign {O} (l : list (nat * O)) (res : list O) : list O := foldl (fun res io => <[io.1 := io.2]> res) res l.

(** ** Groups and assignments *)

Definition positions {A K} `{EqDecision K} (f : A -> option K) (k : K) (items : list A) : list nat :=
  (filter (fun ie => f ie.2 = Some k) (imap pair items)).*1.

Lemma add_group_spec {K} `{EqDecision K} (k : K) i gs :
  NoDup gs.*1 -> NoDup (add_group k i gs).*1 /\
  (forall k' l, (k', l) ∈ add_group k i gs <-> if decide (k' = k) then (exists l0, (k, l0) ∈ gs /\ l = l0 ++ [i]) \/ (k ∉ gs.*1 /\ l = [i]) else (k', l) ∈ gs) /\
  (forall k', k' ∈ (add_group k i gs).*1 <-> k' = k \/ k' ∈ gs.*1).
Proof.
  induction gs as [|[k0 l0] gs IH]; intros Hnd; cbn [add_group].
  { split; [apply NoDup_singleton|]. split.
    - intros k' l. destruct (decide (k' = k)) as [->|E].
      + split; [intros [= ->]%list_elem_of_singleton; right; split; [apply not_elem_of_nil|done]|].
        intros [(l0 & Hin & _)|[_ ->]]; [by apply not_elem_of_nil in Hin|by apply list_elem_of_singleton].
      + split; [by intros [= ? ?]%list_elem_of_singleton|by intros ?%not_elem_of_nil].
    - intros k'. split; [intros ->%list_elem_of_singleton; by left|intros [->|Hin]; [by apply list_elem_of_singleton|by apply not_elem_of_nil in Hin]]. }
  cbn in Hnd. apply NoDup_cons in Hnd as [Hk0 Hnd]. destruct (IH Hnd) as (H1 & H2 & H3).
  assert (Hin0 : forall l, (k0, l) ∈ gs -> False) by (intros l Hl; destruct Hk0; apply list_elem_of_fmap; by exists (k0, l)). case_decide as E.
  - subst k0. cbn. split; [by apply NoDup_cons|]. split; [|intros k'; rewrite !elem_of_cons; clear; naive_solver]. intros k' l. rewrite !elem_of_cons.
    destruct (decide (k' = k)) as [->|E']; [|rewrite elem_of_cons; split; (intros [[= ? ?]|?]; [done|by right])]. split.
    + intros [[= ->]|Hin]; [left; exists l0; split; [by apply elem_of_cons; left|done]|by destruct (Hin0 l)].
    + intros [(l1 & [[= ->]|Hin]%elem_of_cons & ->)|[Hn _]]; [by left|by destruct (Hin0 l1)|destruct Hn; by apply elem_of_cons; left].
  - cbn. split; [apply NoDup_cons; split; [rewrite H3; intros [?|?]; done|done]|]. split; [|intros k'; rewrite !elem_of_cons, H3; clear; naive_solver].
    intros k' l. rewrite !elem_of_cons, H2. destruct (decide (k' = k)) as [->|E']; [|by rewrite elem_of_cons]. split.
    + intros [[= -> ->]|[(l1 & Hin & ->)|[Hn ->]]]; [done|left; exists l1; split; [by apply elem_of_cons; right|done]|right; split; [|done]].
      by intros [?|?]%elem_of_cons.
    + intros [(l1 & [[= -> ->]|Hin]%elem_of_cons & ->)|[Hn ->]]; [done|right; left; eauto|right; right; split; [|done]]. intros ?. apply Hn. apply elem_of_cons. by right.
Qed.

Lemma positions_snoc {A K} `{EqDecision K} (f : A -> option K) k items x :
  positions f k (items ++ [x]) = positions f k items ++ (if decide (f x = Some k) then [length items] else []).
Proof.
  unfold positions. rewrite imap_app, filter_app, fmap_app. f_equal. change (imap _ [x]) with [((length items + 0)%nat, x)].
  rewrite filter_cons, filter_nil, Nat.add_0_r. cbn [snd]. by destruct (decide (f x = Some k)).
Qed.

Lemma groups_by_spec {A K} `{EqDecision K} (f : A -> option K) items :
  NoDup (groups_by f items).*1 /\ forall k l, (k, l) ∈ groups_by f items <-> l = positions f k items /\ l <> [].
Proof.
  unfold groups_by. induction items as [|x items IH] using rev_ind; [split; [constructor|]; intros k l; cbn; split; [by intros ?%not_elem_of_nil|by intros [-> ?]]|].
  rewrite imap_app, foldl_app. cbn [imap foldl]. rewrite Nat.add_0_r. set (gs := foldl _ _ _) in *. destruct IH as [H1 H2].
  cbn. destruct (f x) as [k0|] eqn:Ef.
  - destruct (add_group_spec k0 (length items) gs H1) as (G1 & G2 & _). split; [done|]. intros k l. rewrite G2, positions_snoc, Ef. case_decide as E.
    + subst k. rewrite decide_True by done. split.
      * intros [(l0 & [-> Hne]%H2 & ->)|[Hn ->]]; [split; [done|by destruct (positions f k0 items)]|]. split; [|done].
        destruct (decide (positions f k0 items = [])) as [->|Hp]; [done|]. destruct Hn. apply list_elem_of_fmap. exists (k0, positions f k0 items). split; [done|]. by apply H2.
      * intros [-> _]. destruct (decide (positions f k0 items = [])) as [Hp|Hp]; [right; rewrite Hp; split; [|done]|left; eexists; split; [by apply H2|done]].
        intros ([k l] & -> & [-> Hl]%H2)%list_elem_of_fmap. done.
    + rewrite decide_False by congruence. rewrite app_nil_r. apply H2.
  - split; [done|]. intros k l. rewrite positions_snoc, Ef, decide_False by done. rewrite app_nil_r. apply H2.
Qed.

Lemma assign_length {O} (l : list (nat * O)) res : length (assign l res) = length res.
Proof. unfold assign. revert res. induction l as [|[i o] l IH]; intros res; cbn; [done|]. by rewrite IH, length_insert. Qed.

Lemma assign_lookup {O} (l : list (nat * O)) res i o : NoDup l.*1 -> (i, o) ∈ l -> (i < length res)%nat -> assign l res !! i = Some o.
Proof.
  intros Hnd Hin Hi.
  assert (Hskip : forall (l : list (nat * O)) (res : list O), i ∉ l.*1 -> assign l res !! i = res !! i).
  { clear. intros l. induction l as [|[j o] l IH]; intros res Hn; [done|]. cbn in *. unfold assign in *. cbn. apply not_elem_of_cons in Hn as [Hn1 Hn2]. rewrite IH by done. by apply list_lookup_insert_ne. }
  revert res Hi. induction l as [|[j o'] l IH]; intros res Hi; [by apply not_elem_of_nil in Hin|]. cbn in Hnd. apply NoDup_cons in Hnd as [Hj Hnd].
  unfold assign. cbn. apply elem_of_cons in Hin as [[= -> ->]|Hin].
  - change (assign l (<[j:=o']> res) !! j = Some o'). rewrite Hskip by done. by apply list_lookup_insert_eq.
  - apply IH; [done|done|by rewrite length_insert].
Qed.

Lemma positions_elem {A K} `{EqDecision K} (f : A -> option K) k items i : i ∈ positions f k items <-> exists x, items !! i = Some x /\ f x = Some k.
Proof.
  unfold positions. rewrite list_elem_of_fmap. split.
  - intros ([j x] & -> & [Hf Hin]%list_elem_of_filter). apply elem_of_lookup_imap in Hin as (j' & y & [= -> ->] & Hy). eauto.
  - intros (x & Hx & Hf). exists (i, x). split; [done|]. apply list_elem_of_filter. split; [done|]. apply elem_of_lookup_imap. eauto.
Qed.

Lemma positions_NoDup {A K} `{EqDecision K} (f : A -> option K) k items : NoDup (positions f k items).
Proof.
  induction items as [|x items IH] using rev_ind; [constructor|]. rewrite positions_snoc. apply NoDup_app. split; [done|]. case_decide; [|split; [|constructor]; by intros ? ? ?%not_elem_of_nil].
  split; [|apply NoDup_singleton]. intros i (y & Hy & _)%positions_elem ->%list_elem_of_singleton. apply lookup_lt_Some in Hy. lia.
Qed.

(** The members of one group are looked up in order: a filter of the batch. *)
Lemma at_positions {A B K} `{EqDecision K} (f : A -> option K) (g : A -> B) k items :
  omap (fun i => g <$> items !! i) (positions f k items) = g <$> filter (fun x => f x = Some k) items.
Proof.
  induction items as [|x items IH] using rev_ind; [done|]. rewrite positions_snoc, filter_app, fmap_app, omap_app, <- IH. f_equal.
  - apply list_omap_ext, Forall_Forall2_diag, Forall_forall. intros i (y & Hy & _)%positions_elem. by rewrite lookup_app_l by (by eapply lookup_lt_Some).
  - rewrite filter_cons, filter_nil. case_decide; [|done]. cbn. rewrite lookup_app_r by lia. by rewrite Nat.sub_diag.
Qed.

Lemma length_positions {A K} `{EqDecision K} (f : A -> option K) k items : length (positions f k items) = length (filter (fun x => f x = Some k) items).
Proof.
  induction items as [|x items IH] using rev_ind; [done|]. rewrite positions_snoc, filter_app, !length_app, IH, filter_cons, filter_nil. by case_decide.
Qed.

(** The place of a member in its group is the number of earlier members. *)
Lemma positions_rank {A K} `{EqDecision K} (f : A -> option K) k items n i :
  positions f k items !! n = Some i -> n = length (filter (fun x => f x = Some k) (take i items)).
Proof.
  induction items as [|x items IH] using rev_ind; [done|]. rewrite positions_snoc. intros [Hn|[Hlen Hn]]%lookup_app_Some.
  - pose proof Hn as Hi%list_elem_of_lookup_2. apply positions_elem in Hi as (y & Hy & _). rewrite take_app_le by (apply lookup_lt_Some in Hy; lia). by apply IH.
  - case_decide; [|done]. apply list_lookup_singleton_Some in Hn as [Hz <-]. rewrite take_app_length, <- length_positions. lia.
Qed.

Lemma filter_take_rank {A} (P : A -> Prop) `{!forall x, Decision (P x)} i (l : list A) : filter P (take i l) = take (length (filter P (take i l))) (filter P l).
Proof. rewrite <- (take_drop i l) at 3. rewrite filter_app. by rewrite take_app_length. Qed.

Lemma elem_of_concat {A} (x : A) ls : x ∈ concat ls <-> exists l, l ∈ ls /\ x ∈ l.
Proof. rewrite list_elem_of_In, in_concat. setoid_rewrite list_elem_of_In. done. Qed.

Lemma filter_lookup_rank {A} (P : A -> Prop) `{!forall x, Decision (P x)} i (l : list A) x :
  l !! i = Some x -> P x -> filter P l !! length (filter P (take i l)) = Some x.
Proof.
  intros Hi Hx. transitivity (filter P (take i l ++ x :: drop (S i) l) !! length (filter P (take i l))); [by rewrite take_drop_middle|]. rewrite filter_app, filter_cons, decide_True by done. by rewrite lookup_app_r, Nat.sub_diag by lia.
Qed.

(** Groups with different keys have no member in common. *)
Lemma groups_disjoint {A K} `{EqDecision K} (f : A -> option K) items (gs : list (K * list nat)) :
  NoDup gs.*1 -> (forall g, g ∈ gs -> g.2 = positions f g.1 items) -> NoDup (concat gs.*2).
Proof.
  induction gs as [|[k l] gs IH]; intros Hnd Hg; [constructor|]. cbn in *. apply NoDup_cons in Hnd as [Hk Hnd].
  assert (l = positions f k items) as -> by (apply (Hg (k, l)); by apply elem_of_cons; left). apply NoDup_app. split_and!; [apply positions_NoDup| |].
  - intros i Hi (l' & ([k' l''] & -> & Hin)%list_elem_of_fmap & Hi')%elem_of_concat. cbn in Hi'.
    assert (l'' = positions f k' items) as -> by (apply (Hg (k', l'')); by apply elem_of_cons; right). apply positions_elem in Hi as (x & Hx & Hf). apply positions_elem in Hi' as (y & Hy & Hf').
    rewrite Hx in Hy. injection Hy as <-. rewrite Hf in Hf'. injection Hf' as <-. destruct Hk. apply list_elem_of_fmap. by eexists (k, _).
  - apply IH; [done|]. intros g Hgin. apply Hg. by apply elem_of_cons; right.
Qed.

Lemma NoDup_fmap_fst_filter {A} (items : list A) (P : nat * A -> Prop) `{!forall x, Decision (P x)} : NoDup (filter P (imap pair items)).*1.
Proof.
  induction items as [|x items IH] using rev_ind; [constructor|]. rewrite imap_app, filter_app, fmap_app. apply NoDup_app. split; [done|].
  change (imap _ [x]) with [((length items + 0)%nat, x)]. rewrite filter_cons, filter_nil. case_decide; [|split; [|constructor]; by intros ? ? ?%not_elem_of_nil].
  split; [|apply NoDup_singleton]. intros i ([j y] & -> & [_ Hin]%list_elem_of_filter)%list_elem_of_fmap Hi%list_elem_of_singleton.
  apply elem_of_lookup_imap in Hin as (j' & z & [= -> ->] & Hz). cbn in Hi. apply lookup_lt_Some in Hz. lia.
Qed.

(** ** Batches *)

Section Batch.
Context {R O : Type} (none : O).

(** Of a request: whether it is an embedding, the backend bound to it for that, whether it can decode
    in a batch ([HasValidUnifiedPhasedState], no grammar, no format), and the backend the router finds. *)
Context (embedding_request : R -> bool) (embedding_backend : R -> option nat) (batchable : R -> bool) (resolve : R -> option nat).

(** Of a backend: whether it is ready and, when its weights are verified to be on a device, which. *)
Context (is_ready : nat -> bool) (placement : nat -> option string) (speculative : bool).

Context (phased : nat -> list R -> option (list O)) (single : R -> option nat -> option O) (failed : R -> O).

Record Entry := mkEntry { request : R; override : option nat }.

(** The backend that the request is placed by. *)
Definition placed_backend (e : Entry) : option nat :=
  match override e with
  | Some b => Some b
  | None => match embedding_backend (request e) with Some _ => None | None => resolve (request e) end
  end.

Definition device (e : Entry) : option string :=
  b ← match embedding_backend (request e) with Some b => Some b | None => placed_backend e end; placement b.

(** The backend in whose batch the request decodes. *)
Definition key (e : Entry) : option nat :=
  if embedding_request (request e) then None
  else b ← match override e with Some b => Some b | None => resolve (request e) end;
       if batchable (request e) && is_ready b then Some b else None.

Definition requests_at (items : list Entry) (l : list nat) : list R := omap (fun i => request <$> items !! i) l.

Fixpoint run_groups (items : list Entry) (gs : list (nat * list nat)) : option (list (nat * O)) :=
  match gs with
  | [] => Some []
  | (b, l) :: gs' => outs ← phased b (requests_at items l); rest ← run_groups items gs'; Some (zip l outs ++ rest)
  end.

Fixpoint run_singles (items : list (nat * Entry)) : option (list (nat * O)) :=
  match items with
  | [] => Some []
  | (i, e) :: items' =>
      if bool_decide (is_Some (key e)) then run_singles items'
      else o ← single (request e) (override e); rest ← run_singles items'; Some ((i, o) :: rest)
  end.

(** The part of [ExecuteBatch] that does not split. *)
Definition ExecuteGroups (items : list Entry) : option (list O) :=
  grouped ← run_groups items (groups_by key items);
  singles ← run_singles (imap pair items);
  Some (assign (grouped ++ singles) (replicate (length items) none)).

(** The parts of a batch by device, when all of it is placed and on several devices. *)
Definition split (items : list Entry) : option (list (string * list nat)) :=
  if speculative then None
  else if forallb (fun e => bool_decide (is_Some (device e))) items then
    let gs := groups_by device items in if (1 <? length gs)%nat then Some gs else None
  else None.

Definition part (items : list Entry) (l : list nat) : list Entry :=
  omap (fun i => (fun e => mkEntry (request e) (placed_backend e)) <$> items !! i) l.

(** [depth] bounds how often a part is split again; one split is enough. *)
Fixpoint ExecuteBatch (depth : nat) (items : list Entry) : option (list O) :=
  match depth, split items with
  | S depth, Some gs =>
      Some (assign (concat ((fun g => zip g.2 (default (failed <$> requests_at items g.2) (ExecuteBatch depth (part items g.2)))) <$> gs))
        (replicate (length items) none))
  | _, _ => ExecuteGroups items
  end.


(** ** What a batch gives *)

(** Executions give an outcome a request; an embedding backend is bound to embeddings only. *)
Context (phased_length : forall b l outs, phased b l = Some outs -> length outs = length l)
  (embeddings_only : forall r b, embedding_backend r = Some b -> embedding_request r = true).

(** [o] is the outcome of request [i]: of the execution of all requests of the batch that decode on
    its backend, or of its own execution. *)
Definition outcome_of (items : list Entry) (i : nat) (o : O) : Prop :=
  exists e, items !! i = Some e /\
    match key e with
    | Some b => exists outs, phased b (request <$> filter (fun x => key x = Some b) items) = Some outs /\
                  outs !! length (filter (fun x => key x = Some b) (take i items)) = Some o
    | None => single (request e) (override e) = Some o
    end.

Lemma requests_at_positions {K} `{EqDecision K} (f : Entry -> option K) k items :
  requests_at items (positions f k items) = request <$> filter (fun x => f x = Some k) items.
Proof. apply at_positions. Qed.

Lemma run_groups_spec items gs l :
  (forall g, g ∈ gs -> g.2 = positions key g.1 items) -> run_groups items gs = Some l ->
  l.*1 = concat gs.*2 /\ forall i o, (i, o) ∈ l -> outcome_of items i o.
Proof.
  revert l. induction gs as [|[b ps] gs IH]; intros l Hg; cbn [run_groups]; [intros [= <-]; split; [done|]; by intros ? ? ?%not_elem_of_nil|].
  intros (outs & Ho & (rest & Hr & [= <-])%bind_Some)%bind_Some. destruct (IH rest) as [H1 H2]; [intros g Hin; apply Hg; by apply elem_of_cons; right|done|].
  assert (ps = positions key b items) as -> by (apply (Hg (b, ps)); by apply elem_of_cons; left). rewrite requests_at_positions in Ho.
  pose proof (phased_length _ _ _ Ho) as Hl. rewrite length_fmap, <- length_positions in Hl. cbn. rewrite fmap_app, fst_zip by lia. rewrite H1. split; [done|].
  intros i o [(n & Hn)%list_elem_of_lookup|Hin]%elem_of_app; [|by apply H2]. apply lookup_zip_Some in Hn as [Hi Hout].
  pose proof Hi as (e & He & Hk)%list_elem_of_lookup_2%positions_elem. exists e. split; [done|]. rewrite Hk. exists outs. split; [done|]. by rewrite <- (positions_rank key b items n i).
Qed.

Lemma run_singles_spec l res : run_singles l = Some res ->
  res.*1 = (filter (fun ie => key ie.2 = None) l).*1 /\ forall i o, (i, o) ∈ res -> exists e, (i, e) ∈ l /\ key e = None /\ single (request e) (override e) = Some o.
Proof.
  revert res. induction l as [|[i e] l IH]; intros res; cbn [run_singles]; [intros [= <-]; split; [done|]; by intros ? ? ?%not_elem_of_nil|].
  rewrite filter_cons. cbn [snd]. destruct (key e) as [b|] eqn:Hk.
  - rewrite bool_decide_eq_true_2 by eauto. rewrite decide_False by done. intros [H1 H2]%IH. split; [done|]. intros j o (e' & Hin & Hx)%H2. exists e'. split; [by apply elem_of_cons; right|done].
  - rewrite bool_decide_eq_false_2 by (by intros [? [=]]). rewrite decide_True by done. intros (o & Ho & (rest & Hr & [= <-])%bind_Some)%bind_Some. apply IH in Hr as [H1 H2].
    cbn. rewrite H1. split; [done|]. intros j o' [[= -> ->]|Hin]%elem_of_cons; [exists e; split; [by apply elem_of_cons; left|done]|].
    destruct (H2 j o' Hin) as (e' & Hin' & Hx). exists e'. split; [by apply elem_of_cons; right|done].
Qed.

Lemma ExecuteGroups_spec items res : ExecuteGroups items = Some res -> length res = length items /\ forall i o, res !! i = Some o -> outcome_of items i o.
Proof.
  unfold ExecuteGroups. intros (grouped & Hg & (singles & Hs & [= <-])%bind_Some)%bind_Some. rewrite assign_length, length_replicate. split; [done|].
  destruct (groups_by_spec key items) as [Hnd Hgs].
  assert (Hpos : forall g, g ∈ groups_by key items -> g.2 = positions key g.1 items) by (intros [k l] Hin; by apply Hgs in Hin as [-> _]).
  destruct (run_groups_spec items _ grouped Hpos Hg) as [G1 G2]. apply run_singles_spec in Hs as [S1 S2].
  assert (Hall : NoDup (grouped ++ singles).*1).
  { rewrite fmap_app, G1, S1. apply NoDup_app. split; [by apply (groups_disjoint key items)|]. split.
    - intros i (l & ([k l'] & -> & [-> _]%Hgs)%list_elem_of_fmap & (x & Hx & Hk)%positions_elem)%elem_of_concat ([j y] & -> & [Hn Hin]%list_elem_of_filter)%list_elem_of_fmap.
      apply elem_of_lookup_imap in Hin as (j' & z & [= -> ->] & Hz). cbn in *. congruence.
    - apply (NoDup_fmap_fst_filter items). }
  intros i o Hi. assert (Hlt : (i < length items)%nat) by (apply lookup_lt_Some in Hi; by rewrite assign_length, length_replicate in Hi).
  destruct (lookup_lt_is_Some_2 items i Hlt) as [e He].
  enough (exists o', (i, o') ∈ grouped ++ singles /\ outcome_of items i o') as (o' & Hin & Ho').
  { rewrite (assign_lookup _ _ i o' Hall Hin) in Hi by (by rewrite length_replicate). by injection Hi as <-. }
  destruct (key e) as [b|] eqn:Hk.
  - assert (Hp : i ∈ positions key b items) by (apply positions_elem; eauto).
    assert (Hin : i ∈ grouped.*1).
    { rewrite G1. apply elem_of_concat. exists (positions key b items). split; [|done]. apply list_elem_of_fmap. exists (b, positions key b items). split; [done|]. apply Hgs.
      split; [done|]. intros E. rewrite E in Hp. by apply not_elem_of_nil in Hp. }
    apply list_elem_of_fmap in Hin as ([j o'] & -> & Hin). exists o'. split; [by apply elem_of_app; left|by apply G2].
  - assert (Hin : i ∈ singles.*1).
    { rewrite S1. apply list_elem_of_fmap. exists (i, e). split; [done|]. apply list_elem_of_filter. split; [done|]. apply elem_of_lookup_imap. eauto. }
    apply list_elem_of_fmap in Hin as ([j o'] & -> & Hin). exists o'. split; [by apply elem_of_app; right|].
    destruct (S2 _ _ Hin) as (e' & Hin' & Hk' & Ho'). apply elem_of_lookup_imap in Hin' as (j' & z & [= -> ->] & Hz). exists z. split; [done|]. by rewrite Hk'.
Qed.

(** ** Devices *)

(** The overrides are the backends that the router finds. *)
Definition resolved (items : list Entry) : Prop := Forall (fun e => override e = placed_backend e) items.

Lemma device_of_key e b : key e = Some b -> device e = placement b.
Proof.
  unfold key, device, placed_backend. destruct (embedding_request (request e)) eqn:He; [done|].
  destruct (embedding_backend (request e)) as [b'|] eqn:Hb; [by rewrite (embeddings_only _ _ Hb) in He|].
  destruct (override e) as [b'|]; cbn; [|destruct (resolve (request e)) as [b'|]; cbn; [|done]]; (destruct (_ && _); [|done]; by intros [= ->]).
Qed.

Lemma part_filter items d : resolved items -> part items (positions device d items) = filter (fun e => device e = Some d) items.
Proof.
  intros Hres. unfold part. rewrite at_positions. transitivity (id <$> filter (fun e => device e = Some d) items); [|apply list_fmap_id]. apply list_fmap_ext. intros i e [_ Hin]%list_elem_of_lookup_2%list_elem_of_filter.
  unfold resolved in Hres. rewrite Forall_forall in Hres. rewrite <- (Hres e Hin). by destruct e.
Qed.

(** A part is on one device and is not split again. *)
Lemma part_not_split items d : split (filter (fun e => device e = Some d) items) = None.
Proof.
  unfold split. destruct speculative; [done|]. destruct (forallb _ _); [|done]. set (l := filter _ items).
  destruct (groups_by_spec device l) as [Hnd Hgs]. destruct (groups_by device l) as [|[k1 l1] [|[k2 l2] gs]] eqn:E; [done|done|]. exfalso.
  assert (Hk : forall k ps, (k, ps) ∈ groups_by device l -> k = d).
  { intros k ps Hin. rewrite E in Hin. apply Hgs in Hin as [-> Hne]. destruct (positions device k l) as [|i ps] eqn:Ep; [done|].
    assert (Hi : i ∈ positions device k l) by (rewrite Ep; by apply elem_of_cons; left). apply positions_elem in Hi as (x & Hx & Hd).
    apply list_elem_of_lookup_2 in Hx. apply list_elem_of_filter in Hx as [Hx _]. congruence. }
  rewrite E in Hk. cbn in Hnd. apply NoDup_cons in Hnd as [Hn _]. apply Hn. rewrite (Hk k1 l1), (Hk k2 l2); [by apply elem_of_cons; left| |];
    rewrite !elem_of_cons; auto.
Qed.

(** The outcomes of a part are outcomes of the batch. *)
Lemma part_outcome items d n i o : positions device d items !! n = Some i -> outcome_of (filter (fun e => device e = Some d) items) n o -> outcome_of items i o.
Proof.
  intros Hn (e & He & Ho). pose proof (positions_rank _ _ _ _ _ Hn) as Hr. pose proof Hn as (e' & He' & Hd)%list_elem_of_lookup_2%positions_elem.
  assert (e' = e) as ->.
  { rewrite Hr, (filter_lookup_rank _ i items e') in He by done. by injection He. }
  exists e. split; [done|]. destruct (key e) as [b|] eqn:Hk; [|done].
  assert (Hb : forall x, key x = Some b -> device x = Some d) by (intros x Hx; rewrite (device_of_key x b Hx), <- (device_of_key e b Hk); done).
  destruct Ho as (outs & Hp & Ho). exists outs. rewrite list_filter_filter_l in Hp by done. split; [done|].
  rewrite Hr, <- filter_take_rank in Ho. by rewrite list_filter_filter_l in Ho by done.
Qed.

(** What [i] got when the execution on its device failed. *)
Definition failed_device (items : list Entry) (i : nat) (o : O) : Prop :=
  exists e d, items !! i = Some e /\ device e = Some d /\ ExecuteGroups (filter (fun x => device x = Some d) items) = None /\ o = failed (request e).

Definition part_results (depth : nat) (items : list Entry) (g : string * list nat) : list O :=
  default (failed <$> requests_at items g.2) (ExecuteBatch depth (part items g.2)).

Lemma device_outcomes depth items d : resolved items ->
  length (positions device d items) = length (part_results depth items (d, positions device d items)) /\
  forall n i o, positions device d items !! n = Some i -> part_results depth items (d, positions device d items) !! n = Some o ->
    outcome_of items i o \/ failed_device items i o.
Proof.
  intros Hres. unfold part_results. cbn [snd]. rewrite part_filter by done.
  assert (Eb : ExecuteBatch depth (filter (fun e => device e = Some d) items) = ExecuteGroups (filter (fun e => device e = Some d) items)).
  { destruct depth as [|depth]; cbn [ExecuteBatch]; [done|]. by rewrite part_not_split. }
  rewrite Eb. destruct (ExecuteGroups _) as [rs|] eqn:Hx; cbn [from_option]; unfold id.
  - apply ExecuteGroups_spec in Hx as [Hl Ho]. split; [by rewrite Hl, length_positions|]. intros n i o Hn Hi. left. eapply part_outcome; [done|by apply Ho].
  - rewrite requests_at_positions, !length_fmap, length_positions. split; [done|]. intros n i o Hn Hi. right.
    pose proof Hn as (e & He & Hd)%list_elem_of_lookup_2%positions_elem. exists e, d. split_and!; [done|done|done|].
    rewrite <- list_fmap_compose in Hi. apply list_lookup_fmap_Some in Hi as (e' & -> & He'). rewrite (positions_rank _ _ _ _ _ Hn) in He'.
    rewrite (filter_lookup_rank _ i items e) in He' by done. by injection He' as ->.
Qed.

(** C23: Every request of a batch gets, at its own position, the outcome of its own execution: that of
    the one batch in which all requests that decode on its backend run together, or of its own.  This
    holds whether or not the batch is split over devices: splitting changes no group and no
    outcome.  Only when the execution on a device throws do the requests of that device, and no
    others, fail. *)
Theorem batch_outcomes depth items res (Hres : resolved items) (He : ExecuteBatch (S depth) items = Some res) :
  length res = length items /\
  forall i o, res !! i = Some o -> outcome_of items i o \/ failed_device items i o.
Proof.
  cbn [ExecuteBatch] in He. destruct (split items) as [gs|] eqn:Hs; [|destruct (ExecuteGroups_spec items res He) as [H1 H2]; split; [done|]; intros i o Hi; left; by apply H2].
  assert (Hgs : gs = groups_by device items /\ forall i e, items !! i = Some e -> is_Some (device e)).
  { unfold split in Hs. destruct speculative; [done|]. destruct (forallb _ items) eqn:Hf; [|done]. destruct (_ <? _)%nat; [|done]. injection Hs as <-. split; [done|].
    intros i e Hi%list_elem_of_lookup_2%list_elem_of_In. rewrite forallb_forall in Hf. by apply Hf, bool_decide_eq_true in Hi. }
  destruct Hgs as [-> Hplaced]. destruct (groups_by_spec device items) as [Hnd Hgs]. injection He as <-. rewrite assign_length, length_replicate. split; [done|].
  set (outs := part_results depth items).
  assert (Hpart : forall d, _) by (intros d; exact (device_outcomes depth items d Hres)). fold outs in Hpart.
  change (fun g : string * list nat => zip g.2 (default (failed <$> requests_at items g.2) (ExecuteBatch depth (part items g.2)))) with (fun g => zip g.2 (outs g)).
  clearbody outs. intros i o Hi.
  assert (Hfst : forall l, (forall g, g ∈ l -> g ∈ groups_by device items) -> (concat ((fun g => zip g.2 (outs g)) <$> l)).*1 = concat l.*2).
  { induction l as [|[d ps] l IH]; intros Hl; [done|]. cbn. rewrite fmap_app, IH by (intros g Hg; apply Hl; by apply elem_of_cons; right). f_equal. apply fst_zip.
    assert ((d, ps) ∈ groups_by device items) as [-> _]%Hgs by (apply Hl; by apply elem_of_cons; left). by rewrite <- (proj1 (Hpart d)). }
  specialize (Hfst _ (fun g Hg => Hg)). set (l := concat _) in *.
  assert (Hall : NoDup l.*1) by (rewrite Hfst; apply (groups_disjoint device items); [done|]; intros [k ps] Hin; by apply Hgs in Hin as [-> _]).
  assert (Hlt : (i < length items)%nat) by (apply lookup_lt_Some in Hi; by rewrite assign_length, length_replicate in Hi).
  destruct (lookup_lt_is_Some_2 items i Hlt) as [e He]. destruct (Hplaced i e He) as [d Hd].
  assert (Hp : i ∈ positions device d items) by (apply positions_elem; eauto). apply list_elem_of_lookup in Hp as [n Hn].
  destruct (Hpart d) as [Hl Ho]. destruct (lookup_lt_is_Some_2 (outs (d, positions device d items)) n) as [o' Hout]; [rewrite <- Hl; by eapply lookup_lt_Some|].
  assert (Hin : (i, o') ∈ l).
  { apply elem_of_concat. exists (zip (positions device d items) (outs (d, positions device d items))). split.
    - apply list_elem_of_fmap. exists (d, positions device d items). split; [done|]. apply Hgs. split; [done|]. intros E. by rewrite E in Hn.
    - eapply list_elem_of_lookup_2, lookup_zip_Some. done. }
  rewrite (assign_lookup l _ i o' Hall Hin) in Hi by (by rewrite length_replicate). injection Hi as <-. by apply (Ho n).
Qed.
End Batch.

(** ** A batch on two devices *)

(** Requests are numbers; backends 1 and 2 are on one device, backend 3, which throws, on another.
    Odd requests cannot decode in a batch.  An outcome records who was executed with whom. *)
Definition sample_placement (b : nat) : option string := if (b <? 3)%nat then Some "gpu0" else Some "gpu1".
Definition sample_phased (b : nat) (l : list nat) : option (list (nat * list nat)) := if (b =? 3)%nat then None else Some ((fun r => (r, l)) <$> l).
Definition sample_single (r : nat) (_ : option nat) : option (nat * list nat) := Some (r, [r]).
Definition sample_batch : list (Entry (R := nat)) := [mkEntry 10 (Some 1); mkEntry 20 (Some 2); mkEntry 30 (Some 3); mkEntry 40 (Some 1); mkEntry 51 (Some 2)].
Definition sample_execute (fails : bool) :=
  ExecuteBatch (0, []) (fun _ => false) (fun _ => None) Nat.even (fun _ => None) (fun _ => true) sample_placement false
    (if fails then sample_phased else fun _ l => Some ((fun r => (r, l)) <$> l)) sample_single (fun r => (r, [])) 1 sample_batch.

Example failure_stays_on_its_device :
  sample_execute false = Some [(10, [10; 40]); (20, [20]); (30, [30]); (40, [10; 40]); (51, [51])] /\
  sample_execute true = Some [(10, [10; 40]); (20, [20]); (30, []); (40, [10; 40]); (51, [51])].
Proof. by vm_compute. Qed.

Lemma batch_outcomes_witness : exists res, sample_execute true = Some res /\ length res = 5%nat.
Proof.
  destruct (sample_execute true) as [res|] eqn:He; [|vm_compute in He; done]. exists res. split; [done|].
  apply (proj1 (batch_outcomes (0, []) (fun _ => false) (fun _ => None) Nat.even (fun _ => None) (fun _ => true) sample_placement false sample_phased sample_single
    (fun r => (r, [])) ltac:(intros b l outs; unfold sample_phased; destruct (b =? 3)%nat; [done|]; intros [= <-]; by rewrite length_fmap) ltac:(done) 0 sample_batch res
    ltac:(by repeat constructor) He)).
Defined.
