(* ===== verification/NativeDecode.v ===== *)
(** * runtime/backends/native/native_gpu_backend.cpp: the token loops of the native backend

    [Decode] and [Generate] of the backend that runs on its own kernels: from the first token on,
    one token at a time or in bursts that stay on the device, until the text ends.  The runtime
    below answers by the tokens that it has been fed; [fed] records where and what, [sampled]
    what it answered.  Log probabilities and metrics are left out, and so is the detour of constrained
    sampling over another backend.  Positions and counts stay far below the width of [int]. *)

From stdpp Require Import base tactics numbers list strings sets.
From Stdlib Require Import Ascii.
From S2P Require Import Prelude StringUtils GeneratedText.
From S2P Require Executor SlotManager.

Local Open Scope Z_scope.

Definition ClampBurstChunkTokens (value : Z) : Z := Z.max 0 (Z.min value 64).

Section Native.
(** The tokenizer. *)
Context (terminal : Z -> bool) (to_string : Z -> bytes).

Definition NormalizeNativeOutputPiece (token : Z) (decoded : bytes) : bytes :=
  if token <? 0 then [] else if terminal token then [] else if bool_decide (decoded <> []) then decoded else to_string token.

(** The runtime, by the tokens in the sequence, the one just fed included: the output of a step, and the tokens of
    a burst of at most so many. *)
Record Runtime := mkRuntime { run : list Z -> list Executor.UnifiedBatchOutput; BurstDecodeGreedy : list Z -> Z -> list Z }.

(** [RunUnifiedTokenStep] *)
Definition RunUnifiedTokenStep (rt : Runtime) (context : list Z) : option (Z * bytes) :=
  match run rt context with
  | o :: _ => if Executor.out_ok o && (0 <=? Executor.out_token o) then Some (Executor.out_token o, Executor.out_piece o) else None
  | [] => None
  end.

Record Loop := mkLoop {
  n_past : Z; current_token : Z; output : bytes; visible_tokens : Z; non_emitting_steps : Z; chunks : list bytes;
  fed : list (Z * Z); sampled : list Z }.

(** ** The loop *)

Section Loop.
(** The call: the sequence before it, the runtime, the limit, the stop strings, the callback when there is one, with what it
    returns by the chunks it got, [should_stop] by the tokens sampled, and the size of bursts (0: none). *)
Context (before : list Z) (rt : Runtime) (max_tokens : Z) (stops : list bytes) (on_chunk : option (list bytes -> bool))
  (should_stop : list Z -> bool) (burst : Z).

Definition max_non_emitting : Z := Z.max (i32 (max_tokens * 8)) 32.

Definition context (l : Loop) : list Z := before ++ (fed l).*2 ++ [current_token l].

(** The current token was fed at its position, and [token] answered. *)
Definition advance (token : Z) (l : Loop) : Loop :=
  mkLoop (n_past l + 1) token (output l) (visible_tokens l) (non_emitting_steps l) (chunks l) (fed l ++ [(n_past l, current_token l)]) (sampled l ++ [token]).

(** A token without text; whether there were too many of them. *)
Definition silent (l : Loop) : bool * Loop :=
  (max_non_emitting <=? non_emitting_steps l + 1,
   mkLoop (n_past l) (current_token l) (output l) (visible_tokens l) (non_emitting_steps l + 1) (chunks l) (fed l) (sampled l)).

Definition append (piece : bytes) (steps : Z) (l : Loop) : Loop :=
  mkLoop (n_past l) (current_token l) (output l ++ piece) (visible_tokens l + 1) steps (chunks l) (fed l) (sampled l).

(** A piece that may be streamed and may end the text; [steps]: the count of tokens without text from now on. *)
Definition show (piece : bytes) (steps : Z) (l : Loop) : bool * Loop :=
  let l := append piece steps l in
  let '(stop_hit, out, emit_piece) := ApplyStop piece (output l) stops in
  let emits := match on_chunk with Some _ => bool_decide (emit_piece <> []) | None => false end in
  let sent := if emits then chunks l ++ [emit_piece] else chunks l in
  let refused := match on_chunk with Some accept => emits && negb (accept sent) | None => false end in
  (refused || stop_hit, mkLoop (n_past l) (current_token l) out (visible_tokens l) (non_emitting_steps l) sent (fed l) (sampled l)).

(** The tokens of a burst, which has neither a callback nor stop strings. *)
Fixpoint take_burst (tokens : list Z) (l : Loop) : bool * Loop :=
  match tokens with
  | [] => (false, l)
  | t :: tokens' =>
      let l := advance t l in
      if terminal t then (true, l)
      else
        let piece := NormalizeNativeOutputPiece t [] in
        if bool_decide (piece = []) then let '(aborted, l) := silent l in if aborted then (true, l) else take_burst tokens' l
        else take_burst tokens' (append piece 0 l)
  end.

(** One token, fed and sampled by a step; [None]: the runtime failed. *)
Definition take_step (l : Loop) : option (bool * Loop) :=
  '(t, decoded) ← RunUnifiedTokenStep rt (context l);
  let l := advance t l in
  if terminal t then Some (true, l)
  else
    let piece := NormalizeNativeOutputPiece t decoded in
    Some (if bool_decide (piece = []) then silent l else show piece 0 l).

Definition burst_of (l : Loop) : list Z :=
  if 0 <? burst then BurstDecodeGreedy rt (context l) (Z.min (max_tokens - visible_tokens l) burst) else [].

(** [None]: out of fuel. *)
Fixpoint decode_loop (fuel : nat) (l : Loop) : option Loop :=
  match fuel with
  | O => None
  | S fuel =>
      if max_tokens <=? visible_tokens l then Some l
      else if should_stop (sampled l) then Some l
      else match burst_of l with
           | [] => match take_step l with
                   | None => Some l
                   | Some (stop, l') => if stop then Some l' else decode_loop fuel l'
                   end
           | tokens => let '(stop, l') := take_burst tokens l in if stop then Some l' else decode_loop fuel l'
           end
  end.

(** Tokens with and without text that may still come. *)
Definition fuel_of (l : Loop) : nat := Z.to_nat ((max_tokens - visible_tokens l) * max_non_emitting + (max_non_emitting - non_emitting_steps l) + 1).

(** From the first token on.  [decoded]: the piece that came with it. *)
Definition begin (past first : Z) (decoded : bytes) : option Loop :=
  let l := mkLoop past first [] 0 0 [] [] [] in
  if terminal first then Some l
  else
    let piece := NormalizeNativeOutputPiece first decoded in
    if bool_decide (piece = []) then let l := (silent l).2 in decode_loop (fuel_of l) l
    else
      let '(stop, l) := show piece 0 l in
      if stop || should_stop [] then Some l else decode_loop (fuel_of l) l.
End Loop.

(** Why there are no bursts. *)
Definition burst_eligible (greedy has_chunk_callback collect_logprobs : bool) (stops : list bytes) : bool :=
  negb collect_logprobs && negb has_chunk_callback && greedy && bool_decide (stops = []).

(** ** [Decode] *)

Definition Decode (before : list Z) (rt : Runtime) (past sequence_id max_tokens first_token : Z) (stops : list bytes)
    (on_chunk : option (list bytes -> bool)) (should_stop : list Z -> bool) (greedy collect_logprobs : bool) (burst_chunk_tokens : Z) : option Loop :=
  if (sequence_id <? 0) || (past <? 0) || (max_tokens <=? 0) || (first_token <? 0) then Some (mkLoop past first_token [] 0 0 [] [] [])
  else begin before rt max_tokens stops on_chunk should_stop
         (if burst_eligible greedy (bool_decide (is_Some on_chunk)) collect_logprobs stops then burst_chunk_tokens else 0) past first_token [].

(** ** [Generate] *)

Inductive Event := FreeSequence (sequence : Z) | Prefill (sequence past : Z) (tokens : list Z) (logits : bool).

(** The chunks of the prompt: the inputs, and the first sample when all of them were evaluated. *)
Fixpoint prefill_chunks (fuel : nat) (rt : Runtime) (prompt : list Z) (cap : nat) (start : nat) : list Event * option (Z * bytes) :=
  match fuel with
  | O => ([], None)
  | S fuel =>
      if (length prompt <=? start)%nat then ([], None)
      else
        let stop := Nat.min (start + cap) (length prompt) in
        let last := (stop =? length prompt)%nat in
        let e := Prefill 0 (Z.of_nat start) (take (stop - start) (drop start prompt)) last in
        match run rt (take stop prompt) with
        | [] => ([e], None)
        | o :: _ =>
            if negb (Executor.out_ok o) then ([e], None)
            else if last then ([e], if Executor.out_token o <? 0 then None else Some (Executor.out_token o, Executor.out_piece o))
            else let '(es, r) := prefill_chunks fuel rt prompt cap stop in (e :: es, r)
        end
  end.

(** The sequence is always number 0; it is freed before and after. *)
Definition Generate (rt : Runtime) (prompt : list Z) (max_tokens prefill_chunk_tokens : Z) (stops : list bytes)
    (on_chunk : option (list bytes -> bool)) (should_stop : list Z -> bool) (greedy collect_logprobs : bool) (burst_chunk_tokens : Z) :
    list Event * option Loop :=
  let nothing := mkLoop 0 (-1) [] 0 0 [] [] [] in
  if (max_tokens <=? 0) || bool_decide (prompt = []) then ([], Some nothing)
  else
    let '(es, first) := prefill_chunks (length prompt) rt prompt (Z.to_nat (Z.max 1 prefill_chunk_tokens)) 0 in
    ([FreeSequence 0] ++ es ++ [FreeSequence 0],
     match first with
     | None => Some nothing
     | Some (t, decoded) =>
         begin prompt rt max_tokens stops on_chunk should_stop
           (if burst_eligible greedy (bool_decide (is_Some on_chunk)) collect_logprobs stops then burst_chunk_tokens else 0)
           (Z.of_nat (length prompt)) t decoded
     end).
End Native.

(** ** What is fed *)

Section Facts.
Context (terminal : Z -> bool) (to_string : Z -> bytes) (before : list Z) (rt : Runtime) (max_tokens : Z) (stops : list bytes)
  (on_chunk : option (list bytes -> bool)) (should_stop : list Z -> bool) (burst : Z) (past first : Z).

(** A burst is no longer than asked for. *)
Definition bounded : Prop := forall h n, 0 <= n -> Z.of_nat (length (BurstDecodeGreedy rt h n)) <= n.

(** The first token and then each sample are fed, at consecutive positions; nothing follows a terminal token. *)
Record sound (l : Loop) : Prop := {
  sound_positions : (fed l).*1 = seqZ past (Z.of_nat (length (fed l)));
  sound_past : n_past l = past + Z.of_nat (length (fed l));
  sound_tokens : (fed l).*2 ++ [current_token l] = first :: sampled l;
  sound_going : Forall (fun t => terminal t = false) (fed l).*2;
  sound_visible : 0 <= visible_tokens l <= max_tokens }.

(** The loop goes on. *)
Definition going (l : Loop) : Prop := terminal (current_token l) = false /\ 0 <= non_emitting_steps l < max_non_emitting max_tokens.

Definition left_over (l : Loop) : Z :=
  (max_tokens - visible_tokens l) * max_non_emitting max_tokens + (max_non_emitting max_tokens - non_emitting_steps l).

Lemma max_non_emitting_pos : 32 <= max_non_emitting max_tokens.
Proof. unfold max_non_emitting. lia. Qed.

Lemma advance_sound t l : sound l -> terminal (current_token l) = false -> sound (advance t l).
Proof.
  intros [H1 H2 H3 H4 H5] Ht. unfold advance. constructor; cbn; [| | | |done]; rewrite ?fmap_app, ?length_app; cbn.
  - rewrite H1, H2, Nat2Z.inj_add, seqZ_app by lia. done.
  - lia.
  - rewrite H3. done.
  - by apply Forall_app_2; [|constructor].
Qed.

Lemma same_trace_sound l l' : sound l -> fed l' = fed l -> sampled l' = sampled l -> n_past l' = n_past l -> current_token l' = current_token l ->
  0 <= visible_tokens l' <= max_tokens -> sound l'.
Proof. intros [H1 H2 H3 H4 H5] E1 E2 E3 E4 E5. constructor; rewrite ?E1, ?E2, ?E3, ?E4; done. Qed.

Lemma silent_spec l stop l' : silent max_tokens l = (stop, l') -> sound l -> going l -> visible_tokens l < max_tokens ->
  sound l' /\ (stop = false -> going l' /\ left_over l' = left_over l - 1).
Proof.
  unfold silent. intros [= <- <-] Hs [Ht Hn] Hv. split; [by apply (same_trace_sound l); try done; apply Hs|]. intros Hx%Z.leb_gt. split; [split; [done|cbn; lia]|]. unfold left_over. cbn. ring.
Qed.

Lemma visible_spec l l' : sound l -> going l -> visible_tokens l < max_tokens -> fed l' = fed l -> sampled l' = sampled l -> n_past l' = n_past l ->
  current_token l' = current_token l -> visible_tokens l' = visible_tokens l + 1 -> non_emitting_steps l' = 0 -> sound l' /\ going l' /\ left_over l' <= left_over l - 1.
Proof.
  intros Hs [Ht Hn] Hv E1 E2 E3 E4 E5 E6. pose proof max_non_emitting_pos. split; [apply (same_trace_sound l); try done; destruct Hs; lia|].
  unfold going, left_over. rewrite E4, E5, E6. split; [split; [done|lia]|]. lia.
Qed.

Lemma take_burst_spec tokens l stop l' : take_burst terminal to_string max_tokens tokens l = (stop, l') -> sound l -> going l ->
  visible_tokens l + Z.of_nat (length tokens) <= max_tokens -> sound l' /\ (stop = false -> going l' /\ left_over l' <= left_over l - Z.of_nat (length tokens)).
Proof.
  revert l. induction tokens as [|t tokens IH]; intros l; cbn [take_burst]; [intros [= <- <-]; rewrite Z.sub_0_r; done|].
  cbn [length]. intros He Hs Hg Hv. pose proof (advance_sound t l Hs (proj1 Hg)) as Ha. destruct (terminal t) eqn:Ht; [by injection He as <- <-|].
  assert (Hga : going (advance t l)) by (split; [done|apply Hg]). case_bool_decide as Hp.
  - destruct (silent max_tokens (advance t l)) as [ab l1] eqn:Hsil. destruct (silent_spec _ _ _ Hsil Ha Hga) as [H1 H2]; [cbn; lia|].
    destruct ab; [by injection He as <- <-|]. destruct (H2 eq_refl) as [H3 H4].
    assert (Ev : visible_tokens l1 = visible_tokens l) by (unfold silent in Hsil; by injection Hsil as _ <-).
    destruct (IH l1 He H1 H3) as [H5 H6]; [rewrite Ev; lia|]. split; [done|]. intros Hx. destruct (H6 Hx). split; [done|]. unfold left_over in *. cbn in *. lia.
  - destruct (visible_spec (advance t l) (append (NormalizeNativeOutputPiece terminal to_string t []) 0 (advance t l)) Ha Hga) as (H1 & H2 & H3); try done; [cbn; lia|].
    destruct (IH _ He H1 H2) as [H5 H6]; [cbn; lia|]. split; [done|]. intros Hx. destruct (H6 Hx). split; [done|]. unfold left_over in *. cbn in *. lia.
Qed.

Lemma show_fields piece steps l stop l' : show stops on_chunk piece steps l = (stop, l') ->
  fed l' = fed l /\ sampled l' = sampled l /\ n_past l' = n_past l /\ current_token l' = current_token l /\ visible_tokens l' = visible_tokens l + 1 /\ non_emitting_steps l' = steps.
Proof. unfold show. destruct (ApplyStop _ _ _) as [[hit out] e]. by intros [= <- <-]. Qed.

Lemma take_step_spec l stop l' : take_step terminal to_string before rt max_tokens stops on_chunk l = Some (stop, l') -> sound l -> going l -> visible_tokens l < max_tokens ->
  sound l' /\ (stop = false -> going l' /\ left_over l' <= left_over l - 1).
Proof.
  unfold take_step. intros ([t d] & _ & He)%bind_Some Hs Hg Hv. pose proof (advance_sound t l Hs (proj1 Hg)) as Ha.
  destruct (terminal t) eqn:Ht; [by injection He as <- <-|]. assert (Hga : going (advance t l)) by (split; [done|apply Hg]). injection He as He.
  case_bool_decide as Hp.
  - destruct (silent_spec _ _ _ He Ha Hga) as [H1 H2]; [done|]. split; [done|]. intros Hx. destruct (H2 Hx). split; [done|]. unfold left_over in *. cbn in *. lia.
  - apply show_fields in He as (E1 & E2 & E3 & E4 & E5 & E6). destruct (visible_spec (advance t l) l' Ha Hga) as (H1 & H2 & H3); try done.
Qed.

Notation loop := (decode_loop terminal to_string before rt max_tokens stops on_chunk should_stop burst).

Lemma decode_loop_sound fuel l : bounded -> sound l -> going l -> (Z.to_nat (left_over l) < fuel)%nat -> exists l', loop fuel l = Some l' /\ sound l'.
Proof.
  intros Hb. revert l. induction fuel as [|fuel IH]; intros l Hs Hg Hf; [lia|]. cbn [decode_loop]. destruct (Z.leb_spec max_tokens (visible_tokens l)) as [Hv|Hv]; [eauto|].
  destruct (should_stop (sampled l)); [eauto|]. pose proof max_non_emitting_pos as HM.
  assert (Hpos : 0 < left_over l) by (destruct Hg; unfold left_over; nia).
  assert (Hlen : Z.of_nat (length (burst_of before rt max_tokens burst l)) <= max_tokens - visible_tokens l).
  { unfold burst_of. destruct (Z.ltb_spec 0 burst); [|cbn; lia]. pose proof (Hb (context before l) (Z.min (max_tokens - visible_tokens l) burst)). lia. }
  destruct (burst_of before rt max_tokens burst l) as [|t tokens] eqn:Eb.
  - destruct (take_step _ _ _ _ _ _ _ l) as [[[] l']|] eqn:Hst; [| |eauto]; destruct (take_step_spec _ _ _ Hst Hs Hg Hv) as [H1 H2]; [eauto|].
    destruct (H2 eq_refl) as [H3 H4]. apply IH; [done|done|lia].
  - destruct (take_burst _ _ _ (t :: tokens) l) as [[] l'] eqn:Ht; destruct (take_burst_spec _ _ _ _ Ht Hs Hg) as [H1 H2]; try lia; [eauto|].
    destruct (H2 eq_refl) as [H3 H4]. apply IH; [done|done|cbn [length] in H4; lia].
Qed.

Lemma begin_sound decoded : bounded -> 0 < max_tokens ->
  exists l, begin terminal to_string before rt max_tokens stops on_chunk should_stop burst past first decoded = Some l /\ sound l.
Proof.
  intros Hb Hm. pose proof max_non_emitting_pos as HM. unfold begin. set (l0 := mkLoop _ _ _ _ _ _ _ _).
  assert (H0 : sound l0) by (constructor; cbn; [done|lia|done|constructor|lia]). destruct (terminal first) eqn:Ht; [eauto|].
  assert (Hg0 : going l0) by (split; [done|cbn; lia]). case_bool_decide as Hp.
  - destruct (silent max_tokens l0) as [ab l1] eqn:Hs. cbn [snd]. destruct (silent_spec _ _ _ Hs H0 Hg0) as [H1 H2]; [cbn; lia|].
    assert (ab = false) as -> by (unfold silent in Hs; injection Hs as <- _; apply Z.leb_gt; cbn; lia). destruct (H2 eq_refl) as [H3 H4].
    apply decode_loop_sound; [done|done|done|]. assert (Hl : 0 <= left_over l1) by (destruct H1 as [_ _ _ _ Hv], H3 as [_ Hn]; unfold left_over; nia).
    unfold fuel_of, left_over in *. lia.
  - destruct (show stops on_chunk _ 0 l0) as [stop l1] eqn:Hs. apply show_fields in Hs as (E1 & E2 & E3 & E4 & E5 & E6).
    destruct (visible_spec l0 l1 H0 Hg0) as (H1 & H2 & H3); try done. destruct (stop || should_stop []); [eauto|].
    apply decode_loop_sound; [done|done|done|]. assert (Hl : 0 <= left_over l1) by (destruct H1 as [_ _ _ _ Hv], H2 as [_ Hn]; unfold left_over; nia).
    unfold fuel_of, left_over in *. lia.
Qed.
End Facts.

(** ** Bursts *)

Section Bursts.
Context (terminal : Z -> bool) (to_string : Z -> bytes) (before : list Z) (max_tokens : Z).

(** The most likely next token, [None] when the forward pass fails; the token that ends a burst; how many steps a burst manages to
    enqueue; and the piece that comes with a token. *)
Context (next : list Z -> option Z) (eos : Z) (steps : list Z -> nat) (piece : Z -> bytes).

(** The device samples from what it sampled before, without asking the host. *)
Fixpoint greedy (n : nat) (h : list Z) : list Z :=
  match n with
  | O => []
  | S n => match next h with Some t => t :: greedy n (h ++ [t]) | None => [] end
  end.

(** What comes before the token that ends a burst; the device does not stop there. *)
Fixpoint before_eos (l : list Z) : list Z :=
  match l with [] => [] | t :: l => if t =? eos then [] else t :: before_eos l end.

Definition device : Runtime :=
  mkRuntime (fun h => match next h with Some t => [Executor.mkOutput t (piece t) true None] | None => [] end)
    (fun h n => before_eos (greedy (Nat.min (steps h) (Z.to_nat n)) h)).

(** Tokens are not negative; a piece that comes with a token is its text. *)
Context (next_token : forall h t, next h = Some t -> 0 <= t) (piece_text : forall t, piece t = [] \/ piece t = to_string t).

Fixpoint chain (h tokens : list Z) : Prop :=
  match tokens with [] => True | t :: tokens => next h = Some t /\ chain (h ++ [t]) tokens end.

Lemma burst_chain n h : chain h (before_eos (greedy n h)) /\ (length (before_eos (greedy n h)) <= n)%nat.
Proof.
  revert h. induction n as [|n IH]; intros h; cbn [greedy]; [done|]. destruct (next h) as [t|] eqn:Hn; cbn [before_eos]; [|cbn; split; [done|lia]].
  destruct (t =? eos); [cbn; split; [done|lia]|]. destruct (IH (h ++ [t])) as [H1 H2]. cbn. split; [done|lia].
Qed.

Lemma device_bounded : bounded device.
Proof. intros h n Hn. cbn. pose proof (proj2 (burst_chain (Nat.min (steps h) (Z.to_nat n)) h)). lia. Qed.

Notation loop burst := (decode_loop terminal to_string before device max_tokens [] None (fun _ => false) burst).

Lemma loop_mono burst fuel k l r : loop burst fuel l = Some r -> loop burst (fuel + k) l = Some r.
Proof.
  revert l. induction fuel as [|fuel IH]; intros l; [done|]. cbn [decode_loop Nat.add]. destruct (max_tokens <=? visible_tokens l); [done|].
  destruct (burst_of before device max_tokens burst l) as [|t ts].
  - destruct (take_step _ _ _ _ _ _ _ l) as [[[] l']|]; [done|apply IH|done].
  - destruct (take_burst _ _ _ _ l) as [[] l']; [done|apply IH].
Qed.

Lemma show_appends p l : show [] None p 0 l = (false, append p 0 l).
Proof. done. Qed.

(** A token taken from a burst is the token that a step gives. *)
Lemma step_takes t l : next (context before l) = Some t ->
  take_step terminal to_string before device max_tokens [] None l =
    Some (if terminal t then (true, advance t l)
          else if bool_decide (NormalizeNativeOutputPiece terminal to_string t [] = []) then silent max_tokens (advance t l)
          else (false, append (NormalizeNativeOutputPiece terminal to_string t []) 0 (advance t l))).
Proof.
  intros Hn. unfold take_step, RunUnifiedTokenStep. cbn. rewrite Hn. cbn. pose proof (next_token _ _ Hn) as Ht. rewrite (proj2 (Z.leb_le 0 t) Ht). cbn.
  destruct (terminal t) eqn:E; [done|]. assert (Ep : NormalizeNativeOutputPiece terminal to_string t (piece t) = NormalizeNativeOutputPiece terminal to_string t []).
  { unfold NormalizeNativeOutputPiece. destruct (t <? 0); [done|]. rewrite E. destruct (piece_text t) as [->|Hp]; [done|]. rewrite Hp. by destruct (to_string t). }
  rewrite Ep. by case_bool_decide.
Qed.

Lemma burst_as_steps tokens l stop l' fuel : chain (context before l) tokens -> visible_tokens l + Z.of_nat (length tokens) <= max_tokens ->
  take_burst terminal to_string max_tokens tokens l = (stop, l') ->
  loop 0 (length tokens + fuel) l = (if stop then (if decide (tokens = []) then loop 0 fuel l' else Some l') else loop 0 fuel l').
Proof.
  revert l. induction tokens as [|t tokens IH]; intros l Hc Hv; [intros [= <- <-]; done|]. destruct Hc as [Hn Hc]. cbn [length] in *. intros Ht.
  cbn [take_burst] in Ht. cbn [Nat.add decode_loop]. destruct (Z.leb_spec max_tokens (visible_tokens l)) as [?|_]; [lia|]. change (burst_of before device max_tokens 0 l) with (@nil Z).
  rewrite (step_takes t l Hn). assert (Hca : context before (advance t l) = context before l ++ [t]) by (unfold context, advance; cbn; by rewrite fmap_app, !app_assoc).
  destruct (terminal t); [by injection Ht as <- <-|]. case_bool_decide as Hp.
  - destruct (silent max_tokens (advance t l)) as [[] l1] eqn:Hs; [by injection Ht as <- <-|]. unfold silent in Hs. injection Hs as _ <-.
    rewrite IH; [|by rewrite <- Hca in Hc|cbn; lia|exact Ht]. destruct stop; [|done].
    destruct (decide (tokens = [])) as [->|]; [by injection Ht|done].
  - rewrite IH; [|by rewrite <- Hca in Hc|cbn; lia|exact Ht]. destruct stop; [|done].
    destruct (decide (tokens = [])) as [->|]; [by injection Ht|done].
Qed.

Lemma loop_without_bursts burst fuel l r : loop burst fuel l = Some r -> exists fuel', loop 0 fuel' l = Some r.
Proof.
  revert l. induction fuel as [|fuel IH]; intros l; [done|]. cbn [decode_loop]. destruct (Z.leb_spec max_tokens (visible_tokens l)) as [Hv|Hv].
  - intros [= <-]. exists 1%nat. cbn. by rewrite (proj2 (Z.leb_le _ _) Hv).
  - destruct (burst_of before device max_tokens burst l) as [|t ts] eqn:Eb.
    + destruct (take_step _ _ _ _ _ _ _ l) as [[[] l']|] eqn:Hs.
      * intros [= <-]. exists 1%nat. cbn. rewrite (proj2 (Z.leb_gt _ _) Hv). change (burst_of before device max_tokens 0 l) with (@nil Z). by rewrite Hs.
      * intros (fuel' & Hf)%IH. exists (S fuel'). cbn. rewrite (proj2 (Z.leb_gt _ _) Hv). change (burst_of before device max_tokens 0 l) with (@nil Z). by rewrite Hs.
      * intros [= <-]. exists 1%nat. cbn. rewrite (proj2 (Z.leb_gt _ _) Hv). change (burst_of before device max_tokens 0 l) with (@nil Z). by rewrite Hs.
    + assert (Hb : chain (context before l) (t :: ts) /\ visible_tokens l + Z.of_nat (length (t :: ts)) <= max_tokens).
      { unfold burst_of in Eb. destruct (0 <? burst); [|done]. rewrite <- Eb. cbn [BurstDecodeGreedy device]. 
        pose proof (burst_chain (Nat.min (steps (context before l)) (Z.to_nat (Z.min (max_tokens - visible_tokens l) burst))) (context before l)) as [H1 H2]. split; [done|lia]. }
      destruct Hb as [Hc Hl]. destruct (take_burst _ _ _ (t :: ts) l) as [[] l'] eqn:Ht.
      * intros [= <-]. exists (length (t :: ts) + 0)%nat. by rewrite (burst_as_steps _ _ _ _ _ Hc Hl Ht), decide_False.
      * intros (fuel' & Hf)%IH. exists (length (t :: ts) + fuel')%nat. by rewrite (burst_as_steps _ _ _ _ _ Hc Hl Ht).
Qed.

End Bursts.

(** ** The two calls *)

(** [es] evaluate [prompt] from position [s] on: chunks of at most [cap] tokens without gap or overlap, of which
    only the one that ends the prompt asks for logits. *)
Inductive chunks_ok (prompt : list Z) (cap : nat) : nat -> list Event -> Prop :=
  | chunks_nil s : chunks_ok prompt cap s []
  | chunks_cons s tokens es :
      (1 <= length tokens <= cap)%nat -> tokens = take (length tokens) (drop s prompt) ->
      chunks_ok prompt cap (s + length tokens) es ->
      chunks_ok prompt cap s (Prefill 0 (Z.of_nat s) tokens (s + length tokens =? length prompt)%nat :: es).

Definition tokens_of (e : Event) : list Z := match e with Prefill _ _ tokens _ => tokens | FreeSequence _ => [] end.

Lemma prefill_chunks_spec fuel rt prompt cap s : (0 < cap)%nat -> (s < length prompt)%nat -> (length prompt - s <= fuel)%nat ->
  chunks_ok prompt cap s (prefill_chunks fuel rt prompt cap s).1 /\
  (is_Some (prefill_chunks fuel rt prompt cap s).2 -> concat (tokens_of <$> (prefill_chunks fuel rt prompt cap s).1) = drop s prompt).
Proof.
  intros Hc. revert s. induction fuel as [|fuel IH]; intros s Hs Hf; [lia|]. cbn [prefill_chunks]. rewrite (proj2 (Nat.leb_gt _ _) Hs).
  set (stop := Nat.min (s + cap) (length prompt)). set (tokens := take (stop - s) (drop s prompt)).
  assert (Hl : length tokens = (stop - s)%nat) by (unfold tokens, stop; rewrite length_take, length_drop; lia).
  assert (Hstop : (s + length tokens = stop)%nat) by (unfold stop in *; lia).
  assert (Hone : forall es, chunks_ok prompt cap stop es -> chunks_ok prompt cap s (Prefill 0 (Z.of_nat s) tokens (stop =? length prompt)%nat :: es)).
  { intros es Hes. rewrite <- Hstop at 1. apply chunks_cons; [unfold stop in *; lia|by rewrite Hl|by rewrite Hstop]. }
  assert (H1 : chunks_ok prompt cap s [Prefill 0 (Z.of_nat s) tokens (stop =? length prompt)%nat]) by (apply Hone; constructor).
  destruct (run rt (take stop prompt)) as [|o os]; [cbn [fst snd]; split; [done|by intros [? [=]]]|]. destruct (Executor.out_ok o); cbn [negb];
    [|cbn [fst snd]; split; [done|by intros [? [=]]]].
  destruct (stop =? length prompt)%nat eqn:E.
  - apply Nat.eqb_eq in E. cbn [fst snd]. split; [done|]. intros _. cbn. rewrite app_nil_r. unfold tokens. rewrite firstn_all2; [done|]. rewrite length_drop. lia.
  - apply Nat.eqb_neq in E. destruct (IH stop) as [H2 H3]; [unfold stop in *; lia|unfold stop in *; lia|]. destruct (prefill_chunks fuel rt prompt cap stop) as [es r]. cbn [fst snd] in *.
    split; [by apply Hone|]. intros Hr. cbn. rewrite (H3 Hr). unfold tokens.
    replace stop with (s + (stop - s))%nat at 2 by (unfold stop; lia). rewrite <- drop_drop. apply take_drop.
Qed.


(** ** Runs *)

(** After a token comes its successor; 9 ends the text; odd tokens have no text. *)
Definition successor (h : list Z) : option Z := (fun t => Z.max 0 (t + 1)) <$> last h.
Definition spell (t : Z) : bytes := if Z.odd t then [] else bytes_of "x".
Definition counting : Runtime := device successor 9 (fun _ => 3%nat) (fun _ => []).

Lemma counting_bounded : bounded counting.
Proof. apply device_bounded. Qed.



(** The sequence that [Generate] clears and writes is the one that the scheduler leases first. *)
Example generate_clears_leased_sequence :
  (SlotManager.AcquireSlot (SlotManager.newManager 4 0) 7 0 0).2 = Some 0 /\
  (Generate (Z.eqb 9) spell counting [1; 2] 10 16 [] None (fun _ => false) true true 0).1 =
    [FreeSequence 0; Prefill 0 0 [1; 2] true; FreeSequence 0].
Proof. by vm_compute. Qed.
