(* ===== verification/NativeMemory.v ===== *)
(** * runtime/backends/cuda/native: planning and accounting of device memory

    The plan for the KV cache (kv_cache_planner.h) and the ledger of a model's memory
    (model_memory_ledger.h and .cpp).  [size_t] is 64 bits wide; the share of the free memory is
    computed in [long double], the 80-bit format with 64 bits of precision.  The text that
    describes a ledger is left out. *)

From stdpp Require Import base tactics numbers list sets strings.
From Stdlib Require Import Floats.SpecFloat.
From S2P Require Import Prelude Float64.

Local Open Scope Z_scope.

(** ** kv_cache_planner.h *)

Definition size_max : Z := 2 ^ 64 - 1.
Definition int_max : Z := 2 ^ 31 - 1.

Definition SaturatingMul (a b : Z) : Z := if negb (a =? 0) && (size_max / a <? b) then size_max else u64 (a * b).

Definition EstimateKvBytesPerTokenPerSequence (num_layers num_kv_heads head_dim kv_element_bytes : Z) : Z :=
  let total := SaturatingMul (Z.max 0 num_layers) 2 in
  let total := SaturatingMul total (Z.max 0 num_kv_heads) in
  let total := SaturatingMul total (Z.max 0 head_dim) in
  SaturatingMul total kv_element_bytes.

Definition EstimateKvCacheBytes (max_batch max_seq bytes_per_token_per_seq : Z) : Z :=
  SaturatingMul (SaturatingMul (Z.max 0 max_batch) (Z.max 0 max_seq)) bytes_per_token_per_seq.

Definition ComputeScratchRows (max_seq_len max_batch prefill_chunk_cap : Z) : Z :=
  let seq := Z.max 0 max_seq_len in
  let batch := Z.max 1 max_batch in
  let chunk := Z.min (Z.max 1 prefill_chunk_cap) seq in
  Z.max chunk batch.

Record KvCachePlanInput := mkPlanInput {
  requested_max_batch : Z; requested_max_seq : Z; min_max_batch : Z; min_max_seq : Z; model_max_position_embeddings : Z;
  bytes_per_token_per_sequence : Z; auto_tune_enabled : bool; max_seq_overridden : bool; max_batch_overridden : bool;
  explicit_budget_bytes : Z; free_bytes : Z; budget_ratio : double }.

Record KvCachePlanOutput := mkPlanOutput {
  max_batch : Z; max_seq : Z; requested_bytes : Z; planned_bytes : Z; budget_bytes : Z; auto_tuned_seq : bool; auto_tuned_batch : bool }.

(** [long double] *)
Definition ld_of_Z (z : Z) : spec_float := binary_normalize 64 16384 z 0 false.
Definition ld_mul : spec_float -> spec_float -> spec_float := SFmul 64 16384.

Definition budget_of (i : KvCachePlanInput) : Z :=
  if 0 <? explicit_budget_bytes i then explicit_budget_bytes i
  else if (0 <? free_bytes i) && dltb (d_of_Z 0) (budget_ratio i) && dleb (budget_ratio i) (d_of_Z 1)
  then d_trunc (ld_mul (ld_of_Z (free_bytes i)) (budget_ratio i))
  else 0.

(** [std::min] with the model's limit, when there is one. *)
Definition within_model (i : KvCachePlanInput) (seq : Z) : Z :=
  if 0 <? model_max_position_embeddings i then Z.min seq (model_max_position_embeddings i) else seq.

(** How many units of [denom] bytes fit the budget, at least [least]. *)
Definition fit (budget denom least : Z) : Z := Z.max (Z.min (budget / denom) int_max) least.

Definition usable (denom : Z) : bool := negb (denom =? 0) && negb (denom =? size_max).

Definition tune_seq (i : KvCachePlanInput) (budget batch seq : Z) : Z :=
  let denom := SaturatingMul batch (bytes_per_token_per_sequence i) in
  if negb (max_seq_overridden i) && usable denom then Z.min seq (within_model i (fit budget denom (min_max_seq i))) else seq.

Definition tune_batch (i : KvCachePlanInput) (budget batch seq : Z) : Z :=
  let planned := EstimateKvCacheBytes batch seq (bytes_per_token_per_sequence i) in
  let denom := SaturatingMul seq (bytes_per_token_per_sequence i) in
  if (budget <? planned) && negb (max_batch_overridden i) && (0 <? seq) && usable denom then Z.min batch (fit budget denom (min_max_batch i)) else batch.

Definition PlanKvCache (i : KvCachePlanInput) : KvCachePlanOutput :=
  let bytes := bytes_per_token_per_sequence i in
  let batch := Z.max (requested_max_batch i) (min_max_batch i) in
  let seq := within_model i (Z.max (requested_max_seq i) (min_max_seq i)) in
  let requested := EstimateKvCacheBytes batch seq bytes in
  let budget := budget_of i in
  if negb (auto_tune_enabled i) || (bytes =? 0) || (budget =? 0) || (requested <=? budget)
  then mkPlanOutput batch seq requested requested budget false false
  else
    let seq' := tune_seq i budget batch seq in
    let batch' := tune_batch i budget batch seq' in
    mkPlanOutput batch' seq' requested (EstimateKvCacheBytes batch' seq' bytes) budget (seq' <? seq) (batch' <? batch).

(** ** Arithmetic *)

Lemma SaturatingMul_min a b : 0 <= a -> 0 <= b -> SaturatingMul a b = Z.min (a * b) size_max.
Proof.
  intros Ha Hb. unfold SaturatingMul, size_max. destruct (Z.eqb_spec a 0) as [->|Hne]; cbn [negb andb]; [by rewrite u64_small|].
  destruct (Z.ltb_spec ((2 ^ 64 - 1) / a) b) as [H|H].
  - rewrite Z.min_r; [done|]. pose proof (Z.mul_succ_div_gt (2 ^ 64 - 1) a). nia.
  - assert (a * b <= 2 ^ 64 - 1) by (pose proof (Z.mul_div_le (2 ^ 64 - 1) a); nia). rewrite u64_small by nia. lia.
Qed.

Lemma SaturatingMul_nonneg a b : 0 <= a -> 0 <= b -> 0 <= SaturatingMul a b <= size_max.
Proof. intros Ha Hb. rewrite SaturatingMul_min by done. unfold size_max. nia. Qed.

Lemma estimate_min batch seq bytes : 0 <= batch -> 0 <= seq -> 0 <= bytes ->
  EstimateKvCacheBytes batch seq bytes = Z.min (batch * seq * bytes) size_max \/ bytes = 0.
Proof.
  intros H1 H2 H3. unfold EstimateKvCacheBytes. rewrite !Z.max_r by done. destruct (decide (bytes = 0)) as [?|Hb]; [by right|left].
  rewrite (SaturatingMul_min batch seq) by done. assert (0 <= Z.min (batch * seq) size_max) by (unfold size_max; nia). rewrite SaturatingMul_min by done.
  destruct (Z.min_spec (batch * seq) size_max) as [[? ->]|[? ->]]; [done|]. unfold size_max in *. rewrite !Z.min_r; nia.
Qed.

(** ** The plan *)

(** The values that the code is called with: [int]s that are not negative, minima of at least one, [size_t]s. *)
Definition valid (i : KvCachePlanInput) : Prop :=
  0 < min_max_batch i <= int_max /\ 0 < min_max_seq i <= int_max /\ requested_max_batch i <= int_max /\ requested_max_seq i <= int_max /\
  0 <= bytes_per_token_per_sequence i < size_max /\ 0 <= budget_of i <= size_max /\ model_max_position_embeddings i <= int_max.

Lemma within_model_le i s : within_model i s <= s.
Proof. unfold within_model. destruct (0 <? _); lia. Qed.

Lemma within_model_pos i s : 0 < s -> 0 < within_model i s.
Proof. unfold within_model. destruct (Z.ltb_spec 0 (model_max_position_embeddings i)); lia. Qed.

Lemma within_model_limit i s : 0 < model_max_position_embeddings i -> within_model i s <= model_max_position_embeddings i.
Proof. intros H. unfold within_model. rewrite (proj2 (Z.ltb_lt _ _) H). lia. Qed.

(** A product that fits is what the estimate says. *)
Lemma estimate_le batch seq bytes budget : 0 <= batch -> 0 <= seq -> 0 <= bytes -> 0 <= budget -> batch * seq * bytes <= budget ->
  EstimateKvCacheBytes batch seq bytes <= budget.
Proof.
  intros H1 H2 H3 Hb H. destruct (estimate_min batch seq bytes H1 H2 H3) as [->| ->]; [lia|]. unfold EstimateKvCacheBytes.
  rewrite SaturatingMul_min; [lia|apply SaturatingMul_nonneg; lia|done].
Qed.

Lemma fit_spec budget denom least n : 0 < denom -> 0 <= budget -> least < n -> n <= fit budget denom least -> n * denom <= budget.
Proof. intros Hd Hb Hl. unfold fit. intros Hn. assert (n <= budget / denom) by lia. pose proof (Z.mul_div_le budget denom). nia. Qed.

Section Plan.
Context (i : KvCachePlanInput) (Hv : valid i).

Definition batch0 : Z := Z.max (requested_max_batch i) (min_max_batch i).
Definition seq0 : Z := within_model i (Z.max (requested_max_seq i) (min_max_seq i)).
Local Notation bytes := (bytes_per_token_per_sequence i).
Local Notation budget := (budget_of i).

Lemma batch0_pos : 0 < batch0 /\ min_max_batch i <= batch0.
Proof. unfold batch0. destruct Hv as (? & _). lia. Qed.

Lemma seq0_pos : 0 < seq0.
Proof. unfold seq0. apply within_model_pos. destruct Hv as (_ & ? & _). lia. Qed.

Lemma tune_seq_range batch : 0 < tune_seq i budget batch seq0 <= seq0.
Proof.
  pose proof seq0_pos. unfold tune_seq. destruct (_ && _); [|lia]. destruct Hv as (_ & ? & _).
  pose proof (within_model_pos i (fit budget (SaturatingMul batch bytes) (min_max_seq i))). unfold fit in *. lia.
Qed.

Lemma tune_batch_range seq : min_max_batch i <= tune_batch i budget batch0 seq <= batch0.
Proof. pose proof batch0_pos. unfold tune_batch. destruct (_ && _ && _ && _); [|lia]. unfold fit. lia. Qed.

(** Where the length was not shrunk to its minimum, it was shrunk enough. *)
Lemma tune_seq_enough : 0 < bytes -> batch0 * bytes < size_max -> max_seq_overridden i = false -> min_max_seq i < tune_seq i budget batch0 seq0 ->
  batch0 * tune_seq i budget batch0 seq0 * bytes <= budget.
Proof.
  intros Hb Hs Ho Hm. pose proof batch0_pos as [Hp _]. destruct Hv as (_ & ? & _ & _ & _ & ? & _).
  assert (Hu : usable (batch0 * bytes) = true) by (unfold usable; rewrite andb_true_iff, !negb_true_iff, !Z.eqb_neq; nia).
  assert (Et : tune_seq i budget batch0 seq0 = Z.min seq0 (within_model i (fit budget (batch0 * bytes) (min_max_seq i))))
    by (unfold tune_seq; rewrite SaturatingMul_min, Z.min_l by nia; by rewrite Ho, Hu).
  pose proof (within_model_le i (fit budget (batch0 * bytes) (min_max_seq i))). set (t := tune_seq i budget batch0 seq0) in *.
  assert (t * (batch0 * bytes) <= budget) by (apply (fit_spec _ _ (min_max_seq i)); [nia|lia|lia|lia]). lia.
Qed.

Lemma tune_batch_enough seq : 0 < bytes -> 0 < seq -> seq * bytes < size_max -> max_batch_overridden i = false ->
  EstimateKvCacheBytes (tune_batch i budget batch0 seq) seq bytes <= budget \/ tune_batch i budget batch0 seq = min_max_batch i.
Proof.
  intros Hb Hs Hl Ho. pose proof batch0_pos as [Hp Hmin]. destruct Hv as (? & _ & _ & _ & _ & ? & _). unfold tune_batch.
  destruct (Z.ltb_spec budget (EstimateKvCacheBytes batch0 seq bytes)) as [Hx|Hx]; cbn [andb]; [|by left]. rewrite Ho, (proj2 (Z.ltb_lt 0 seq) Hs). cbn [negb andb].
  rewrite SaturatingMul_min, Z.min_l by nia.
  assert (Hu : usable (seq * bytes) = true) by (unfold usable; rewrite andb_true_iff, !negb_true_iff, !Z.eqb_neq; nia). rewrite Hu.
  set (t := Z.min batch0 (fit budget (seq * bytes) (min_max_batch i))). destruct (Z.le_gt_cases t (min_max_batch i)) as [Ht|Ht]; [right; unfold t, fit in *; lia|left].
  apply estimate_le; [lia|lia|lia|lia|]. assert (t * (seq * bytes) <= budget) by (apply (fit_spec _ _ (min_max_batch i)); [nia|lia|lia|unfold t; lia]). lia.
Qed.

End Plan.

(** ** model_memory_ledger.h *)

Inductive MemoryDomain :=
  kWeights | kWeightsDequantized | kWorkspaceDevice | kWorkspaceHostPinned | kKvCache | kKvPrefixCache | kSessionMetadata | kBatchEphemeral.

#[export] Instance MemoryDomain_eq_dec : EqDecision MemoryDomain.
Proof. solve_decision. Defined.

Inductive MemoryLifetime := kModel | kPool | kSession | kBatch.

Record MemoryUsageSnapshot := mkUsage { reserved_bytes : Z; in_use_bytes : Z; high_water_bytes : Z; evictable_bytes : Z }.
Record MemoryLedgerItem := mkItem { label : string; domain : MemoryDomain; lifetime : MemoryLifetime; usage : MemoryUsageSnapshot }.

Record ModelMemoryLedger := mkLedger { model_label : string; items : list MemoryLedgerItem }.

Definition Clear : ModelMemoryLedger := mkLedger "" [].
Definition SetModelLabel (l : string) (m : ModelMemoryLedger) : ModelMemoryLedger := mkLedger l (items m).

(** The first item with the label is replaced; a new one goes to the end. *)
Fixpoint upsert (next : MemoryLedgerItem) (l : list MemoryLedgerItem) : list MemoryLedgerItem :=
  match l with
  | [] => [next]
  | it :: l' => if bool_decide (label it = label next) then next :: l' else it :: upsert next l'
  end.

Definition UpsertItem (l : string) (d : MemoryDomain) (t : MemoryLifetime) (reserved in_use high_water evictable : Z) (m : ModelMemoryLedger) : ModelMemoryLedger :=
  mkLedger (model_label m) (upsert (mkItem l d t (mkUsage reserved in_use (Z.max high_water (Z.max reserved in_use)) evictable)) (items m)).

Definition FindItem (l : string) (m : ModelMemoryLedger) : option MemoryLedgerItem := List.find (fun it => bool_decide (label it = l)) (items m).

Definition total (f : MemoryUsageSnapshot -> Z) (m : ModelMemoryLedger) : Z := foldl (fun n it => u64 (n + f (usage it))) 0 (items m).
Definition TotalReservedBytes := total reserved_bytes.
Definition TotalInUseBytes := total in_use_bytes.
Definition TotalHighWaterBytes := total high_water_bytes.
Definition TotalEvictableBytes := total evictable_bytes.

Definition add_usage (a b : MemoryUsageSnapshot) : MemoryUsageSnapshot :=
  mkUsage (u64 (reserved_bytes a + reserved_bytes b)) (u64 (in_use_bytes a + in_use_bytes b)) (u64 (high_water_bytes a + high_water_bytes b))
    (u64 (evictable_bytes a + evictable_bytes b)).

(** The summary of the item's domain, made at the end when there is none. *)
Fixpoint add_to_domain (it : MemoryLedgerItem) (out : list (MemoryDomain * MemoryUsageSnapshot)) : list (MemoryDomain * MemoryUsageSnapshot) :=
  match out with
  | [] => [(domain it, add_usage (mkUsage 0 0 0 0) (usage it))]
  | (d, u) :: out' => if decide (d = domain it) then (d, add_usage u (usage it)) :: out' else (d, u) :: add_to_domain it out'
  end.

Definition AggregateByDomain (m : ModelMemoryLedger) : list (MemoryDomain * MemoryUsageSnapshot) := foldl (fun out it => add_to_domain it out) [] (items m).

(** *** Facts *)

Lemma upsert_labels next l : NoDup (label <$> l) -> NoDup (label <$> upsert next l).
Proof.
  assert (Hin : forall x l, x ∈ label <$> upsert next l -> x = label next \/ x ∈ label <$> l).
  { intros x k. induction k as [|it k IH]; cbn [upsert]; [set_solver|]. case_bool_decide as E; cbn; [|set_solver]. set_solver. }
  induction l as [|it l IH]; intros Hnd; cbn [upsert]; [apply NoDup_singleton|]. cbn in Hnd. apply NoDup_cons in Hnd as [Hn Hnd]. case_bool_decide as E.
  - cbn. apply NoDup_cons. by rewrite <- E.
  - cbn. apply NoDup_cons. split; [|by apply IH]. intros [?|?]%Hin; [congruence|done].
Qed.

Lemma find_upsert next l : List.find (fun it => bool_decide (label it = label next)) (upsert next l) = Some next.
Proof.
  induction l as [|it l IH]; cbn [upsert]; [cbn; by rewrite bool_decide_eq_true_2|]. case_bool_decide as E; cbn; [by rewrite bool_decide_eq_true_2|].
  by rewrite bool_decide_eq_false_2.
Qed.

Lemma find_upsert_other next l x : x <> label next -> List.find (fun it => bool_decide (label it = x)) (upsert next l) = List.find (fun it => bool_decide (label it = x)) l.
Proof.
  intros Hx. induction l as [|it l IH]; cbn [upsert]; [cbn; by rewrite bool_decide_eq_false_2|]. case_bool_decide as E; cbn.
  - by rewrite (bool_decide_eq_false_2 (label next = x)), (bool_decide_eq_false_2 (label it = x)) by congruence.
  - by rewrite IH.
Qed.

(** A field of a snapshot that is added up. *)
Definition summed (f : MemoryUsageSnapshot -> Z) : Prop := forall a b, f (add_usage a b) = u64 (f a + f b).

Definition sum_of (f : MemoryUsageSnapshot -> Z) (out : list (MemoryDomain * MemoryUsageSnapshot)) : Z := foldr (fun du n => f du.2 + n) 0 out.

Lemma add_to_domain_sum f it out : summed f -> f (mkUsage 0 0 0 0) = 0 -> (sum_of f (add_to_domain it out)) mod 2 ^ 64 = (sum_of f out + f (usage it)) mod 2 ^ 64.
Proof.
  intros Hf H0. induction out as [|[d u] out IH]; cbn [add_to_domain sum_of foldr].
  - cbn. rewrite Hf, H0. unfold u64. rewrite !Z.add_0_r, Z.add_0_l, Z.mod_mod by lia. done.
  - case_decide; cbn.
    + rewrite Hf. unfold u64. rewrite Z.add_mod_idemp_l by lia. f_equal. lia.
    + fold (sum_of f (add_to_domain it out)) (sum_of f out) in *. rewrite <- Z.add_mod_idemp_r, IH, Z.add_mod_idemp_r by lia. f_equal. lia.
Qed.

Lemma add_to_domain_keys it out : (add_to_domain it out).*1 = out.*1 ++ (if decide (domain it ∈ out.*1) then [] else [domain it]).
Proof.
  induction out as [|[d u] out IH]; cbn [add_to_domain fmap list_fmap fst]; [by rewrite decide_False by apply not_elem_of_nil|]. destruct (decide (d = domain it)) as [E|E]; cbn.
  - subst d. rewrite decide_True by set_solver. by rewrite app_nil_r.
  - rewrite IH. f_equal. f_equal. destruct (decide (domain it ∈ out.*1)); [rewrite decide_True by set_solver|rewrite decide_False by set_solver]; done.
Qed.

(** The ledger.  After an update the item is found under its label, with a high-water mark that is at least what is reserved and in use; other labels
    are as before and labels stay unique.  The summaries have a line a domain, and in every column they add up,
    in 64 bits, to the total of that column. *)
Theorem ledger_adds_up m l d t reserved in_use high_water evictable (Hm : NoDup (label <$> items m)) :
  let m' := UpsertItem l d t reserved in_use high_water evictable m in
  NoDup (label <$> items m') /\
  (exists u, FindItem l m' = Some (mkItem l d t u) /\ reserved_bytes u = reserved /\ in_use_bytes u = in_use /\ reserved <= high_water_bytes u /\ in_use <= high_water_bytes u) /\
  (forall x, x <> l -> FindItem x m' = FindItem x m) /\
  NoDup (AggregateByDomain m').*1 /\
  Forall (fun f => u64 (sum_of f (AggregateByDomain m')) = total f m') [reserved_bytes; in_use_bytes; high_water_bytes; evictable_bytes].
Proof.
  intros m'. split_and!.
  - by apply upsert_labels.
  - eexists. split; [apply (find_upsert (mkItem l d t _))|]. cbn. lia.
  - intros x Hx. by apply (find_upsert_other (mkItem l d t _)).
  - unfold AggregateByDomain. assert (H : forall its out, NoDup (out : list (MemoryDomain * MemoryUsageSnapshot)).*1 -> NoDup (foldl (fun out it => add_to_domain it out) out its).*1);
      [|apply H; constructor]. intros its. induction its as [|it its IH]; intros out Ho; [done|]. cbn. apply IH. rewrite add_to_domain_keys. apply NoDup_app. split; [done|].
    case_decide; [split; [set_solver|constructor]|split; [set_solver|apply NoDup_singleton]].
  - assert (H : forall f, summed f -> f (mkUsage 0 0 0 0) = 0 -> u64 (sum_of f (AggregateByDomain m')) = total f m').
    { intros f Hf H0. unfold AggregateByDomain, total. set (its := items m'). clearbody its. clear -Hf H0.
      assert (H : forall out n, u64 (sum_of f out) = n -> u64 (sum_of f (foldl (fun out it => add_to_domain it out) out its)) = foldl (fun n it => u64 (n + f (usage it))) n its);
        [|by apply H]. induction its as [|it its IH]; intros out n Hn; [done|]. cbn. apply IH. unfold u64 in *. rewrite add_to_domain_sum by done. subst n. by rewrite Z.add_mod_idemp_l by lia. }
    repeat constructor; by apply H.
Qed.

(** ** Runs *)

(** 32 sequences of 4096 tokens of 128 KiB, and 8 GiB. *)
Definition sample_input : KvCachePlanInput := mkPlanInput 32 4096 32 128 0 131072 true false false (8 * 2 ^ 30) 0 (d_of_Z 0).


Lemma ledger_adds_up_witness : NoDup (label <$> items Clear) /\ exists u, FindItem "w" (UpsertItem "w" kWeights kModel 10 20 0 0 Clear) = Some (mkItem "w" kWeights kModel u) /\ 20 <= high_water_bytes u.
Proof.
  assert (Hn : NoDup (label <$> items Clear)) by constructor. split; [done|].
  destruct (ledger_adds_up Clear "w" kWeights kModel 10 20 0 0 Hn) as (_ & (u & H1 & _ & _ & _ & H2) & _). by exists u.
Defined.

(** With the share of 0.3 of 1 GiB of free memory the minimum does not fit: the plan exceeds the budget. *)
Example plan_exceeds_budget_at_minimum :
  let o := PlanKvCache (mkPlanInput 32 4096 32 128 0 131072 true false false 0 (2 ^ 30) (ddiv (d_of_Z 3) (d_of_Z 10))) in
  (max_batch o, max_seq o, budget_bytes o, planned_bytes o) = (32, 128, 322122547, 536870912).
Proof. by vm_compute. Qed.
