(* ===== verification/Safetensors.v ===== *)
(** * runtime/backends/cuda/native: safetensors files

    The parser of a safetensors file (safetensors_parser.h and .cpp): the length of the metadata in
    eight bytes, the metadata as JSON, the data of the tensors.  A file is its bytes, which the
    parser maps into memory; a pointer into the mapping is a position.  [size_t] is 64 bits wide.
    The JSON parser, the double that it makes of a literal and the order in which an
    [unordered_map] is walked are parameters. *)

From stdpp Require Import base tactics numbers list strings gmap pretty.
From Stdlib Require Import Ascii.
From S2P Require Import Prelude Float64 Json Gguf.

Local Open Scope Z_scope.

(** What a call does: it returns, it fails (it returns [false]), or its behaviour is undefined. *)
Inductive outcome (A : Type) := Done (a : A) | Failed | Undefined.
Arguments Done {A} a.
Arguments Failed {A}.
Arguments Undefined {A}.

(** [offset] and [byte_size] have no initial value: [extent] is [None] until they are written.
    [data_ptr] is a position in the mapping. *)
Record TensorInfo := mkInfo { name : bytes; shape : list Z; dtype : bytes; extent : option (Z * Z); data_ptr : option Z }.

Definition named (d : bytes) (l : list string) : bool := existsb (fun s => bool_decide (d = bytes_of s)) l.

Definition GetDtypeSize (d : bytes) : Z :=
  if named d ["F16"; "F16_LE"] then 2
  else if named d ["BF16"] then 2
  else if named d ["F32"; "F32_LE"] then 4
  else if named d ["F64"; "F64_LE"] then 8
  else if named d ["I8"; "I8_LE"] then 1
  else if named d ["I16"; "I16_LE"] then 2
  else if named d ["I32"; "I32_LE"] then 4
  else if named d ["I64"; "I64_LE"] then 8
  else if named d ["U8"; "U8_LE"] then 1
  else if named d ["U16"; "U16_LE"] then 2
  else if named d ["U32"; "U32_LE"] then 4
  else if named d ["U64"; "U64_LE"] then 8
  else if named d ["BOOL"; "BOOL8"] then 1
  else 1.

(** [elem_count * GetDtypeSize(dtype)] *)
Definition expected_size (t : TensorInfo) : Z := u64 (foldl (fun n d => u64 (n * d)) 1 (shape t) * GetDtypeSize (dtype t)).

Definition file_size (file : bytes) : Z := Z.of_nat (length file).
Definition metadata_len (file : bytes) : Z := le_val (take 8 file).

Definition ParseHeader (file : bytes) : bool :=
  negb (file_size file <? 8) && negb (100 * 1024 * 1024 <? metadata_len file) && negb (file_size file <? u64 (metadata_len file + 8)).

(** [(8 + metadata_len + 7) & ~7] *)
Definition data_start_of (file : bytes) : Z := Z.ldiff (u64 (u64 (8 + metadata_len file) + 7)) 7.

Definition set_data_ptr (p : Z) (t : TensorInfo) : TensorInfo := mkInfo (name t) (shape t) (dtype t) (extent t) (Some p).

(** The [size] bytes at a position of the mapping, when they are in it. *)
Definition view (file : bytes) (p size : Z) : option bytes :=
  if (0 <=? p) && (0 <=? size) && (p + size <=? file_size file) then Some (take (Z.to_nat size) (drop (Z.to_nat p) file)) else None.

Section Parser.
Context (parse : bytes -> bytes + json) (to_double : bytes -> double) (order : list bytes -> list bytes).

(** [get<size_t>()]; it throws on what is not a number. *)
Definition get_size (j : json) : option Z :=
  match j with
  | JInteger z | JUnsigned z => Some (u64 z)
  | JFloat l => Some (u64 (d_trunc (to_double l)))
  | _ => None
  end.

(** [items()]: the elements of an array are named by their index, another value has no name. *)
Definition items (j : json) : list (bytes * json) :=
  match j with
  | JObject fields => fields
  | JArray l => imap (fun i v => (bytes_of (pretty i), v)) l
  | JNull => []
  | _ => [([], j)]
  end.

(** One entry of the metadata; [None] when a conversion throws. *)
Definition read_tensor (n : bytes) (j : json) : option TensorInfo :=
  sh ← match Json.get "shape" j with Some (JArray l) => mapM get_size l | _ => Some [] end;
  dt ← match Json.get "dtype" j with Some (JString s) => Some s | Some _ => None | None => Some [] end;
  ext ← match Json.get "data_offsets" j with
        | Some (JArray (a :: b :: _)) => s ← get_size a; e ← get_size b; Some (Some (s, u64 (e - s)))
        | _ => Some None
        end;
  Some (mkInfo n sh dt ext None).

Fixpoint read_tensors (l : list (bytes * json)) (m : gmap bytes TensorInfo) : option (gmap bytes TensorInfo) :=
  match l with
  | [] => Some m
  | (n, j) :: l' =>
      if starts_with (bytes_of "__") n then read_tensors l' m
      else match j with
           | JObject _ => t ← read_tensor n j; read_tensors l' (<[n := t]> m)
           | _ => read_tensors l' m
           end
  end.

Definition ParseMetadata (file : bytes) : option (gmap bytes TensorInfo) :=
  if file_size file <? u64 (8 + metadata_len file) then None
  else match parse (take (Z.to_nat (metadata_len file)) (drop 8 file)) with
       | inl _ => None
       | inr j => read_tensors (items j) ∅
       end.

(** The walk over the tensors; the second result names those whose size is not what shape and type
    give, which is only logged. *)
Fixpoint place (file : bytes) (data_start : Z) (ns : list bytes) (m : gmap bytes TensorInfo) (warned : list bytes) : outcome (gmap bytes TensorInfo * list bytes) :=
  match ns with
  | [] => Done (m, warned)
  | n :: ns' =>
      match m !! n with
      | None => place file data_start ns' m warned
      | Some t =>
          match extent t with
          | None => Undefined
          | Some (o, s) =>
              if file_size file <? u64 (data_start + o + s) then Failed
              else place file data_start ns' (<[n := set_data_ptr (u64 (data_start + o)) t]> m)
                     (if expected_size t =? s then warned else warned ++ [n])
          end
      end
  end.

Definition GetTensorNames {A} (m : gmap bytes A) : list bytes := order (map_to_list m).*1.

Definition ParseTensorData (file : bytes) (m : gmap bytes TensorInfo) : outcome (gmap bytes TensorInfo * list bytes) :=
  place file (data_start_of file) (GetTensorNames m) m [].

(** [file] is [None] when it cannot be opened or mapped. *)
Definition Parse (file : option bytes) : outcome (gmap bytes TensorInfo * list bytes) :=
  match file with
  | None => Failed
  | Some f => if negb (ParseHeader f) then Failed
              else match ParseMetadata f with None => Failed | Some m => ParseTensorData f m end
  end.

End Parser.

(** ** Facts *)

(** The check of the bounds. *)
Definition fits (file : bytes) (data_start : Z) (t : TensorInfo) : Prop :=
  exists o s, extent t = Some (o, s) /\ u64 (data_start + o + s) <= file_size file.

Definition placed (data_start : Z) (t : TensorInfo) : TensorInfo :=
  match extent t with Some (o, _) => set_data_ptr (u64 (data_start + o)) t | None => t end.

Definition mismatched (t : TensorInfo) : bool := match extent t with Some (_, s) => negb (expected_size t =? s) | None => false end.
Definition mismatched_in (m : gmap bytes TensorInfo) (n : bytes) : Prop := exists t, m !! n = Some t /\ mismatched t = true.

Lemma place_ok file ds ns m w : NoDup ns -> (forall n t, n ∈ ns -> m !! n = Some t -> fits file ds t) ->
  exists m' w', place file ds ns m w = Done (m', w') /\ (forall n, m' !! n = if decide (n ∈ ns) then placed ds <$> m !! n else m !! n) /\
    forall n, n ∈ w' <-> n ∈ w \/ (n ∈ ns /\ mismatched_in m n).
Proof.
  revert m w. induction ns as [|n ns IH]; intros m w Hnd Hf; cbn [place]; [exists m, w; set_solver|]. apply NoDup_cons in Hnd as [Hn Hnd].
  destruct (m !! n) as [t|] eqn:Em.
  - destruct (Hf n t ltac:(left) Em) as (o & s & Ee & Hs). rewrite Ee. destruct (Z.ltb_spec (file_size file) (u64 (ds + o + s))); [lia|].
    set (m1 := <[n := _]> m). set (w1 := if expected_size t =? s then w else w ++ [n]).
    destruct (IH m1 w1 Hnd) as (m' & w' & H1 & H2 & H3).
    { intros n' t' Hn' E'. unfold m1 in E'. rewrite lookup_insert_ne in E' by set_solver. apply (Hf n'); [by right|done]. }
    exists m', w'. split; [done|]. split.
    + intros n'. rewrite H2. unfold m1. destruct (decide (n' = n)) as [->|Hne].
      * rewrite decide_False, decide_True, lookup_insert_eq, Em by set_solver. cbn. unfold placed. by rewrite Ee.
      * rewrite lookup_insert_ne by done. destruct (decide (n' ∈ ns)); [rewrite decide_True by set_solver|rewrite decide_False by set_solver]; done.
    + intros n'. rewrite H3. assert (Hw : n' ∈ w1 <-> n' ∈ w \/ (n' = n /\ mismatched t = true)).
      { unfold w1, mismatched. rewrite Ee. destruct (expected_size t =? s); cbn; set_solver. }
      assert (Hm : n' ∈ ns -> mismatched_in m1 n' <-> mismatched_in m n').
      { intros Hi. unfold mismatched_in, m1. rewrite lookup_insert_ne by set_solver. done. }
      rewrite Hw. split.
      * intros [[?|[-> ?]]|[Hi Hx]]; [by left|right; split; [left|by exists t]|right; split; [by right|by apply Hm]].
      * intros [?|[[->|Hi]%elem_of_cons Hx]]; [by do 2 left| |right; split; [done|by apply Hm]]. left. right. split; [done|]. destruct Hx as (t' & ? & ?). by simplify_eq.
  - destruct (IH m w Hnd) as (m' & w' & H1 & H2 & H3); [intros n' t' ? ?; apply (Hf n'); [by right|done]|]. exists m', w'. split; [done|]. split.
    + intros n'. rewrite H2. destruct (decide (n' = n)) as [->|Hne]; [rewrite decide_False, decide_True, Em by set_solver; done|].
      destruct (decide (n' ∈ ns)); [rewrite decide_True by set_solver|rewrite decide_False by set_solver]; done.
    + intros n'. rewrite H3. split; [set_solver|]. intros [?|[[->|Hi]%elem_of_cons Hx]]; [by left| |by right]. destruct Hx as (t' & ? & _). congruence.
Qed.

Lemma place_fits file ds ns m w m' w' : NoDup ns -> place file ds ns m w = Done (m', w') -> forall n t, n ∈ ns -> m !! n = Some t -> fits file ds t.
Proof.
  revert m w. induction ns as [|n ns IH]; intros m w Hnd Hp; [set_solver|]. apply NoDup_cons in Hnd as [Hn Hnd]. intros n' t' Hi Et. cbn [place] in Hp.
  destruct (m !! n) as [t|] eqn:Em.
  - destruct (extent t) as [[o s]|] eqn:Ee; [|done]. destruct (Z.ltb_spec (file_size file) (u64 (ds + o + s))); [done|].
    apply elem_of_cons in Hi as [->|Hi]; [simplify_eq; exists o, s; split; [done|lia]|]. eapply (IH _ _ Hnd Hp n' t' Hi). rewrite lookup_insert_ne by set_solver. done.
  - apply elem_of_cons in Hi as [->|Hi]; [congruence|]. by eapply (IH _ _ Hnd Hp n' t' Hi).
Qed.

Lemma view_length file p size b : view file p size = Some b -> Z.of_nat (length b) = size.
Proof.
  unfold view, file_size. destruct (Z.leb_spec 0 p), (Z.leb_spec 0 size), (Z.leb_spec (p + size) (Z.of_nat (length file))); cbn; intros [= <-].
  rewrite length_take, length_drop. lia.
Qed.

Lemma view_inside file p size : 0 <= p -> 0 <= size -> p + size <= file_size file -> exists b, view file p size = Some b.
Proof. intros. unfold view. rewrite !(proj2 (Z.leb_le _ _)) by lia. by eexists. Qed.

Lemma metadata_len_range file : 0 <= metadata_len file < 2 ^ 64.
Proof.
  pose proof (le_val_bounds (take 8 file)) as H. unfold metadata_len. pose proof (length_take file 8) as Hl.
  assert (256 ^ Z.of_nat (length (take 8 file)) <= 256 ^ 8) by (apply Z.pow_le_mono_r; lia). change (256 ^ 8) with (2 ^ 64) in *. lia.
Qed.

Lemma ldiff_7 z : Z.ldiff z 7 = 8 * (z / 8).
Proof. change 7 with (Z.ones 3). rewrite Z.ldiff_ones_r, Z.shiftl_mul_pow2, Z.shiftr_div_pow2 by lia. change (2 ^ 3) with 8. lia. Qed.

(** The data start after the metadata, at the next multiple of eight. *)
Lemma data_start_bounds file : ParseHeader file = true -> 8 + metadata_len file <= data_start_of file < 16 + metadata_len file /\ data_start_of file mod 8 = 0 /\ 8 + metadata_len file <= file_size file.
Proof.
  unfold ParseHeader, data_start_of. intros [[H1 H2]%andb_true_iff H3]%andb_true_iff. apply negb_true_iff, Z.ltb_ge in H1, H2, H3. pose proof (metadata_len_range file).
  rewrite (u64_small (metadata_len file + 8)) in H3 by lia. rewrite (u64_small (8 + _)), u64_small, ldiff_7 by lia.
  pose proof (Z.div_mod (8 + metadata_len file + 7) 8). pose proof (Z.mod_pos_bound (8 + metadata_len file + 7) 8). split; [lia|]. split; [|lia].
  rewrite Z.mul_comm. apply Z.mod_mul. lia.
Qed.

Section ParserFacts.
Context (parse : bytes -> bytes + json) (to_double : bytes -> double) (order : list bytes -> list bytes).
Hypothesis order_perm : forall l, order l ≡ₚ l.

Lemma names_NoDup {A} (m : gmap bytes A) : NoDup (GetTensorNames order m).
Proof. unfold GetTensorNames. rewrite order_perm. apply NoDup_fst_map_to_list. Qed.

Lemma names_elem {A} (m : gmap bytes A) n : n ∈ GetTensorNames order m <-> is_Some (m !! n).
Proof.
  unfold GetTensorNames. rewrite order_perm, list_elem_of_fmap. split.
  - intros ([k v] & -> & H%elem_of_map_to_list). by exists v.
  - intros [v H]. exists (n, v). by rewrite elem_of_map_to_list.
Qed.

(** What the walk leaves. *)
Lemma ParseTensorData_ok file m : (forall n t, m !! n = Some t -> fits file (data_start_of file) t) ->
  exists w, ParseTensorData order file m = Done (placed (data_start_of file) <$> m, w) /\ forall n, n ∈ w <-> mismatched_in m n.
Proof.
  intros Hf. destruct (place_ok file (data_start_of file) (GetTensorNames order m) m [] (names_NoDup m)) as (m' & w & H1 & H2 & H3); [intros n t _; apply Hf|].
  exists w. split.
  - unfold ParseTensorData. rewrite H1. do 2 f_equal. apply map_eq. intros n. rewrite H2, lookup_fmap. case_decide as Hd; [done|].
    rewrite names_elem in Hd. destruct (m !! n) eqn:E; [|done]. destruct Hd. by eexists.
  - intros n. rewrite H3, names_elem. split; [intros [?%elem_of_nil|[_ ?]]; done|]. intros Hx. right. split; [|done]. destruct Hx as (t & ? & _). by exists t.
Qed.

Lemma Parse_inv file m w : Parse parse to_double order (Some file) = Done (m, w) -> ParseHeader file = true /\
  exists m0, ParseMetadata parse to_double file = Some m0 /\ m = placed (data_start_of file) <$> m0 /\ (forall n, n ∈ w <-> mismatched_in m0 n) /\
    forall n t, m0 !! n = Some t -> fits file (data_start_of file) t.
Proof.
  cbn [Parse]. destruct (ParseHeader file) eqn:Hh; [|done]. cbn [negb]. destruct (ParseMetadata parse to_double file) as [m0|] eqn:Hm; [|done]. intros Hp. split; [done|]. exists m0. split; [done|].
  assert (Hf : forall n t, m0 !! n = Some t -> fits file (data_start_of file) t).
  { intros n t E. eapply place_fits; [apply (names_NoDup m0)|exact Hp| |done]. rewrite names_elem. by exists t. }
  destruct (ParseTensorData_ok file m0 Hf) as (w' & H1 & H2). rewrite H1 in Hp. by simplify_eq.
Qed.

Lemma get_size_range j z : get_size to_double j = Some z -> 0 <= z < 2 ^ 64.
Proof. destruct j; cbn; intros [= <-]; apply u64_range. Qed.

Definition in_words (t : TensorInfo) : Prop := match extent t with Some (o, s) => 0 <= o < 2 ^ 64 /\ 0 <= s < 2 ^ 64 | None => True end.

Lemma read_tensor_words n j t : read_tensor to_double n j = Some t -> in_words t /\ name t = n.
Proof.
  unfold read_tensor. intros (sh & _ & (dt & _ & (ext & He & [= <-])%bind_Some)%bind_Some)%bind_Some. split; [|done]. unfold in_words. cbn.
  destruct (Json.get "data_offsets" j) as [[| | | | | |[|a [|b l]]|]|]; simplify_eq; try done.
  apply bind_Some in He as (s & E1 & (e & _ & [= <-])%bind_Some).
  split; [by eapply get_size_range|apply u64_range].
Qed.

Lemma read_tensors_words l m m' : read_tensors to_double l m = Some m' -> map_Forall (fun n t => in_words t /\ name t = n) m -> map_Forall (fun n t => in_words t /\ name t = n) m'.
Proof.
  revert m. induction l as [|[n j] l IH]; intros m Hr Hm; cbn [read_tensors] in Hr; [by simplify_eq|]. destruct (starts_with (bytes_of "__") n); [by eapply IH|].
  destruct j as [| | | | | | |f]; try by eapply IH. destruct (read_tensor to_double n (JObject f)) as [t|] eqn:Et; [|done]. cbn in Hr. eapply IH; [exact Hr|].
  apply map_Forall_insert_2; [by eapply read_tensor_words|done].
Qed.

Lemma ParseMetadata_words file m : ParseMetadata parse to_double file = Some m -> map_Forall (fun n t => in_words t /\ name t = n) m.
Proof.
  unfold ParseMetadata. destruct (_ <? _); [done|]. destruct (parse _) as [|j]; [done|]. intros H. eapply read_tensors_words; [exact H|apply map_Forall_empty].
Qed.

(** Where a tensor of a parsed file is. *)
Lemma parsed_tensor file m w n t : Parse parse to_double order (Some file) = Done (m, w) -> m !! n = Some t ->
  name t = n /\ exists o s, extent t = Some (o, s) /\ 0 <= o < 2 ^ 64 /\ 0 <= s < 2 ^ 64 /\ data_ptr t = Some (u64 (data_start_of file + o)) /\
    u64 (data_start_of file + o + s) <= file_size file /\
    (data_start_of file + o + s < 2 ^ 64 -> exists b, view file (data_start_of file + o) s = Some b /\ Z.of_nat (length b) = s).
Proof.
  intros (Hh & m0 & Hm & -> & _ & Hf)%Parse_inv Ht. rewrite lookup_fmap in Ht. destruct (m0 !! n) as [t0|] eqn:E; [|done]. injection Ht as <-.
  destruct (ParseMetadata_words _ _ Hm n t0 E) as [Hw Hn]. destruct (Hf n t0 E) as (o & s & He & Hs). unfold placed, in_words in *. rewrite He in *. split; [done|].
  exists o, s. cbn. destruct Hw as [Ho Hs2]. split; [done|]. split; [done|]. split; [done|]. split; [done|]. split; [done|]. intros Hlt.
  pose proof (data_start_bounds _ Hh) as [Hd _]. pose proof (metadata_len_range file). rewrite u64_small in Hs by lia. destruct (view_inside file (data_start_of file + o) s) as [b Hb]; [lia..|].
  exists b. split; [done|]. by eapply view_length.
Qed.

End ParserFacts.

(** ** Writing a file *)

Record desc := mkDesc { d_name : bytes; d_shape : list Z; d_dtype : bytes; d_start : Z; d_end : Z }.

Definition describe (d : desc) : bytes * json :=
  (d_name d, JObject [(bytes_of "dtype", JString (d_dtype d)); (bytes_of "shape", JArray (JUnsigned <$> d_shape d));
                      (bytes_of "data_offsets", JArray [JUnsigned (d_start d); JUnsigned (d_end d)])]).

Definition encode (meta data : bytes) : bytes := le_bytes 8 (Z.of_nat (length meta)) ++ meta ++ data.

Definition valid_desc (data : bytes) (d : desc) : Prop :=
  starts_with (bytes_of "__") (d_name d) = false /\ Forall (fun z => 0 <= z < 2 ^ 64) (d_shape d) /\ 0 <= d_start d <= d_end d /\ d_end d <= Z.of_nat (length data).

Definition slice (data : bytes) (d : desc) : bytes := take (Z.to_nat (d_end d - d_start d)) (drop (Z.to_nat (d_start d)) data).

Definition info_of (d : desc) : TensorInfo := mkInfo (d_name d) (d_shape d) (d_dtype d) (Some (d_start d, d_end d - d_start d)) None.

Section Written.
Context (to_double : bytes -> double) (meta data : bytes).
Hypothesis (Hlen : Z.of_nat (length meta) + Z.of_nat (length data) < 2 ^ 63).

Lemma read_describe d : valid_desc data d -> read_tensor to_double (d_name d) (describe d).2 = Some (info_of d).
Proof.
  intros (_ & Hsh & Hse & He). unfold read_tensor.
  change (Json.get "shape" (describe d).2) with (Some (JArray (JUnsigned <$> d_shape d))). change (Json.get "dtype" (describe d).2) with (Some (JString (d_dtype d))).
  change (Json.get "data_offsets" (describe d).2) with (Some (JArray [JUnsigned (d_start d); JUnsigned (d_end d)])). assert (Hm : mapM (get_size to_double) (JUnsigned <$> d_shape d) = Some (d_shape d)).
  { induction Hsh as [|z l Hz _ IH]; [done|]. cbn. rewrite u64_small by done. cbn. by rewrite IH. }
  cbv beta iota. rewrite Hm. cbn. rewrite !u64_small by (rewrite ?u64_small; lia). done.
Qed.

Lemma read_described ds m : NoDup (d_name <$> ds) -> Forall (valid_desc data) ds -> Forall (fun d => m !! d_name d = None) ds ->
  exists m', read_tensors to_double (describe <$> ds) m = Some m' /\ (forall d, d ∈ ds -> m' !! d_name d = Some (info_of d)) /\
    forall n, n ∉ d_name <$> ds -> m' !! n = m !! n.
Proof.
  revert m. induction ds as [|d ds IH]; intros m Hnd Hv Hm; [exists m; set_solver|]. cbn in Hnd. apply NoDup_cons in Hnd as [Hn Hnd].
  apply Forall_cons in Hv as [Hd Hv], Hm as [_ Hm]. destruct (IH (<[d_name d := info_of d]> m)) as (m' & H1 & H2 & H3); [done|done| |].
  { rewrite Forall_forall in Hm |- *. intros d' Hd'. rewrite lookup_insert_ne; [by apply Hm|]. intros E. apply Hn. rewrite E. by apply list_elem_of_fmap_2. }
  exists m'. cbn [fmap list_fmap]. split.
  - pose proof (read_describe d Hd) as Hr. unfold describe at 1. cbn [read_tensors]. destruct Hd as (-> & _). cbn [describe snd] in Hr. rewrite Hr. done.
  - split.
    + intros d' [->|Hd']%elem_of_cons; [rewrite H3 by done; apply lookup_insert_eq|by apply H2].
    + intros n [Hn1 Hn2]%not_elem_of_cons. rewrite H3 by done. by apply lookup_insert_ne.
Qed.

Lemma encode_size : file_size (encode meta data) = 8 + Z.of_nat (length meta) + Z.of_nat (length data).
Proof. unfold file_size, encode. rewrite !length_app, le_bytes_length. lia. Qed.

Lemma encode_len : metadata_len (encode meta data) = Z.of_nat (length meta).
Proof.
  unfold metadata_len, encode. rewrite take_app_le by (rewrite le_bytes_length; lia). rewrite take_ge by (rewrite le_bytes_length; lia). apply le_val_bytes. change (256 ^ Z.of_nat 8) with (2 ^ 64). lia.
Qed.

Lemma encode_data s n : 0 <= s -> 0 <= n -> s + n <= Z.of_nat (length data) ->
  view (encode meta data) (8 + Z.of_nat (length meta) + s) n = Some (take (Z.to_nat n) (drop (Z.to_nat s) data)).
Proof.
  intros. unfold view. rewrite encode_size, !(proj2 (Z.leb_le _ _)) by lia. cbn [andb]. do 2 f_equal. unfold encode. rewrite app_assoc, drop_app_ge by (rewrite length_app, le_bytes_length; lia).
  f_equal. rewrite length_app, le_bytes_length. lia.
Qed.

End Written.

(** Reading back what was written.  Of a file whose metadata describe tensors with ranges in the data, end on a multiple of eight bytes and are at
    most 100 MiB long, the parser returns exactly the described tensors, each with its shape, its type and a pointer at
    which its bytes are found; it warns of the tensors whose range is not as long as shape and type make it. *)
Theorem safetensors_roundtrip parse to_double order meta data ds
    (Horder : forall l, order l ≡ₚ l)
    (Hparse : parse meta = inr (JObject (describe <$> ds)))
    (Hnd : NoDup (d_name <$> ds)) (Hv : Forall (valid_desc data) ds)
    (Hal : (8 + Z.of_nat (length meta)) mod 8 = 0) (Hmax : Z.of_nat (length meta) <= 100 * 1024 * 1024)
    (Hlen : Z.of_nat (length meta) + Z.of_nat (length data) < 2 ^ 63) :
  exists m w, Parse parse to_double order (Some (encode meta data)) = Done (m, w) /\
    (forall n, n ∈ GetTensorNames order m <-> n ∈ d_name <$> ds) /\
    Forall (fun d => exists t p, m !! d_name d = Some t /\ name t = d_name d /\ shape t = d_shape d /\ dtype t = d_dtype d /\
      extent t = Some (d_start d, d_end d - d_start d) /\ data_ptr t = Some p /\ view (encode meta data) p (d_end d - d_start d) = Some (slice data d)) ds /\
    Forall (fun d => d_name d ∈ w <-> expected_size (info_of d) <> d_end d - d_start d) ds.
Proof.
  destruct (read_described to_double meta data Hlen ds ∅ Hnd Hv) as (m0 & H1 & H2 & H3); [by apply Forall_true|].
  set (f := encode meta data). assert (Hh : ParseHeader f = true).
  { unfold ParseHeader, f. rewrite encode_len, encode_size, u64_small, !(proj2 (Z.ltb_ge _ _)) by lia. done. }
  assert (Hds : data_start_of f = 8 + Z.of_nat (length meta)).
  { pose proof (data_start_bounds f Hh) as [Hb [Hm8 _]]. unfold f in Hb. rewrite encode_len in Hb by done. fold f in Hb. pose proof (Z.div_mod (data_start_of f) 8). pose proof (Z.div_mod (8 + Z.of_nat (length meta)) 8). lia. }
  assert (Hpm : ParseMetadata parse to_double f = Some m0).
  { unfold ParseMetadata, f. rewrite encode_len, encode_size, u64_small, (proj2 (Z.ltb_ge _ _)) by lia. unfold encode. rewrite drop_app_ge by (rewrite le_bytes_length; lia).
    rewrite le_bytes_length, Nat.sub_diag, drop_0, Nat2Z.id, take_app_length, Hparse. exact H1. }
  assert (Hm0 : forall n t, m0 !! n = Some t -> exists d, d ∈ ds /\ n = d_name d /\ t = info_of d).
  { intros n t E. destruct (decide (n ∈ d_name <$> ds)) as [(d & -> & Hd)%list_elem_of_fmap|Hn]; [exists d; rewrite H2 in E by done; by simplify_eq|].
    rewrite H3, lookup_empty in E by done. done. }
  rewrite Forall_forall in Hv. destruct (ParseTensorData_ok order Horder f m0) as (w & Hp & Hw).
  { intros n t (d & Hd & -> & ->)%Hm0. destruct (Hv d Hd) as (_ & _ & Hse & He). exists (d_start d), (d_end d - d_start d). split; [done|].
    rewrite Hds. unfold f. rewrite encode_size, u64_small by lia. lia. }
  exists (placed (data_start_of f) <$> m0), w. split_and!.
  - cbn [Parse]. by rewrite Hh, Hpm.
  - intros n. rewrite (names_elem order Horder), lookup_fmap, fmap_is_Some. split; [intros [t (d & Hd & -> & _)%Hm0]; by apply list_elem_of_fmap_2|].
    intros (d & -> & Hd)%list_elem_of_fmap. exists (info_of d). by apply H2.
  - apply Forall_forall. intros d Hd. destruct (Hv d Hd) as (_ & _ & Hse & He). exists (placed (data_start_of f) (info_of d)), (u64 (data_start_of f + d_start d)).
    rewrite lookup_fmap, (H2 d Hd). do 6 (split; [done|]). rewrite Hds, u64_small by lia. by rewrite (encode_data meta data) by lia.
  - apply Forall_forall. intros d Hd. rewrite Hw. unfold mismatched_in. rewrite (H2 d Hd). split.
    + intros (t & [= <-] & Hx%negb_true_iff%Z.eqb_neq). exact Hx.
    + intros Hx. exists (info_of d). split; [done|]. by apply negb_true_iff, Z.eqb_neq.
Qed.

(** Tensors stay in the file.  When a file is accepted, every tensor has a range that was read from the metadata, and when the end of the range does
    not pass 2^64 the tensor's bytes are in the mapping, after the metadata. *)
Theorem parsed_tensors_in_file parse to_double order file m w n t (Horder : forall l, order l ≡ₚ l)
    (Hp : Parse parse to_double order (Some file) = Done (m, w)) (Ht : m !! n = Some t) :
  name t = n /\ exists o s p, extent t = Some (o, s) /\ data_ptr t = Some p /\
    (data_start_of file + o + s < 2 ^ 64 -> 8 + metadata_len file <= p /\ p + s <= file_size file /\ exists b, view file p s = Some b /\ Z.of_nat (length b) = s).
Proof.
  destruct (parsed_tensor parse to_double order Horder file m w n t Hp Ht) as (Hn & o & s & He & Ho & Hs & Hd & Hf & Hb). split; [done|].
  exists o, s, (u64 (data_start_of file + o)). split; [done|]. split; [done|]. intros Hlt. destruct (Parse_inv _ _ _ Horder _ _ _ Hp) as [Hh _].
  pose proof (data_start_bounds file Hh) as [Hb1 _]. pose proof (metadata_len_range file). rewrite u64_small in * by lia. split; [lia|]. split; [lia|]. by apply Hb.
Qed.

(** ** The conversion of weights on their way to the device *)

(** bf16_to_fp16 of inferflux_cuda_executor.cpp *)
Definition bf16_to_fp16 (bf16 : Z) : Z :=
  let sign := Z.land (Z.shiftr bf16 15) 1 in
  let exponent := Z.land (Z.shiftr bf16 7) 255 in
  let mantissa := Z.land bf16 127 in
  if exponent =? 255 then (if mantissa =? 0 then Z.lor (Z.shiftl sign 15) 31744 else Z.lor (Z.shiftl sign 15) 32256)
  else if exponent =? 0 then Z.shiftl sign 15
  else
    let fp16_exp := exponent - 127 + 15 in
    if 31 <=? fp16_exp then Z.lor (Z.shiftl sign 15) 31744
    else if fp16_exp <=? 0 then
      if fp16_exp <? -10 then Z.shiftl sign 15
      else let full_mantissa := Z.shiftr (Z.lor (Z.shiftl 1 10) (Z.shiftl mantissa 3)) (1 - fp16_exp) in
           Z.lor (Z.shiftl sign 15) (Z.land full_mantissa 1023)
    else Z.lor (Z.lor (Z.shiftl sign 15) (Z.shiftl fp16_exp 10)) (Z.shiftl mantissa 3).

(** What a word stands for: the magnitude in units of 2^-133, a divisor of every value of either format. *)
Inductive magnitude := Finite (units : Z) | Infinite | NotANumber.

Definition decode_word (exp_bits man_bits bias : Z) (w : Z) : bool * magnitude :=
  let e := Z.land (Z.shiftr w man_bits) (Z.ones exp_bits) in
  let m := Z.land w (Z.ones man_bits) in
  (Z.testbit w 15,
   if e =? Z.ones exp_bits then (if m =? 0 then Infinite else NotANumber)
   else if e =? 0 then Finite (m * 2 ^ (133 + 1 - bias - man_bits))
   else Finite ((m + 2 ^ man_bits) * 2 ^ (133 + e - bias - man_bits))).

Definition bf16_value := decode_word 8 7 127.
Definition fp16_value := decode_word 5 10 15.

(** The smallest normal FP16 value, the step below it, and the first value that is out of range. *)
Definition fp16_normal : Z := 2 ^ (133 - 14).
Definition fp16_step : Z := 2 ^ (133 - 24).
Definition fp16_limit : Z := 2 ^ (133 + 16).

Definition converts (w : Z) : bool :=
  let '(s, m) := bf16_value w in
  let '(s', m') := fp16_value (bf16_to_fp16 w) in
  Bool.eqb s s' && (0 <=? bf16_to_fp16 w) && (bf16_to_fp16 w <? 2 ^ 16) &&
  match m, m' with
  | NotANumber, NotANumber | Infinite, Infinite => true
  | Finite u, Infinite => fp16_limit <=? u
  | Finite u, Finite u' => (u <? fp16_limit) && (if fp16_normal <=? u then u' =? u else (u' <=? u) && (u <? u' + fp16_step))
  | _, _ => false
  end.

Fixpoint all_from (n : nat) (w : Z) : bool := match n with O => true | S n' => converts w && all_from n' (w + 1) end.

Lemma all_from_spec n w : all_from n w = true -> forall v, w <= v < w + Z.of_nat n -> converts v = true.
Proof.
  revert w. induction n as [|n IH]; intros w Ha v Hv; [lia|]. cbn [all_from] in Ha. apply andb_true_iff in Ha as [Hc Ha].
  destruct (decide (v = w)) as [->|]; [done|]. apply (IH (w + 1)); [done|lia].
Qed.

(** The exponents that give a finite FP16 number other than zero, with either sign. *)
Lemma middle_converts : all_from (41 * 128) (102 * 128) && all_from (41 * 128) (102 * 128 + 2 ^ 15) = true.
Proof. vm_compute. reflexivity. Qed.

(** The three fields of a word. *)
Lemma word_fields w : 0 <= w < 2 ^ 16 -> exists (s : bool) e m, w = Z.b2z s * 2 ^ 15 + e * 128 + m /\ 0 <= e < 256 /\ 0 <= m < 128 /\
  Z.land (Z.shiftr w 15) 1 = Z.b2z s /\ Z.testbit w 15 = s /\ Z.land (Z.shiftr w 7) 255 = e /\ Z.land w 127 = m.
Proof.
  intros Hw. exists (Z.testbit w 15), ((w / 128) mod 256), (w mod 128). rewrite Z.testbit_spec' by lia.
  assert (Hl : forall a n, 0 <= n -> Z.land a (Z.ones n) = a mod 2 ^ n) by (intros; by apply Z.land_ones).
  pose proof (Hl (Z.shiftr w 15) 1 ltac:(lia)) as L1. pose proof (Hl (Z.shiftr w 7) 8 ltac:(lia)) as L8. pose proof (Hl w 7 ltac:(lia)) as L7. rewrite Z.shiftr_div_pow2 in L1, L8 by lia.
  pose proof (Z.mod_pos_bound (w / 128) 256). pose proof (Z.mod_pos_bound w 128). split; [|rewrite !Z.shiftr_div_pow2 by lia; split_and!; try done; lia].
  pose proof (Z.div_mod w 128). pose proof (Z.div_mod (w / 128) 256). assert (E : w / 128 / 256 = w / 2 ^ 15) by (rewrite Z.div_div by lia; done).
  assert (0 <= w / 2 ^ 15 < 2) by (split; [apply Z.div_pos; lia|apply Z.div_lt_upper_bound; lia]). rewrite (Z.mod_small (w / 2 ^ 15)) by lia. lia.
Qed.

Lemma pow_between a b c : 0 <= a <= b -> b <= c -> 2 ^ a <= 2 ^ b <= 2 ^ c.
Proof. intros. split; apply Z.pow_le_mono_r; lia. Qed.

Lemma zero_converts (s : bool) u : 0 <= u < fp16_step ->
  (let '(s', m') := fp16_value (Z.shiftl (Z.b2z s) 15) in
   Bool.eqb s s' && (0 <=? Z.shiftl (Z.b2z s) 15) && (Z.shiftl (Z.b2z s) 15 <? 2 ^ 16) &&
   match m' with Finite u' => (u <? fp16_limit) && (if fp16_normal <=? u then u' =? u else (u' <=? u) && (u <? u' + fp16_step)) | Infinite => fp16_limit <=? u | NotANumber => false end) = true.
Proof.
  intros Hu. replace (fp16_value (Z.shiftl (Z.b2z s) 15)) with (s, Finite 0) by (destruct s; reflexivity). assert (fp16_step < fp16_normal < fp16_limit) by done.
  rewrite (proj2 (Z.ltb_lt u fp16_limit)), (proj2 (Z.leb_gt fp16_normal u)), (proj2 (Z.leb_le 0 u)), (proj2 (Z.ltb_lt u (0 + fp16_step))) by lia. by destruct s.
Qed.

Lemma inf_converts (s : bool) u : fp16_limit <= u ->
  (let w := Z.lor (Z.shiftl (Z.b2z s) 15) 31744 in
   let '(s', m') := fp16_value w in
   Bool.eqb s s' && (0 <=? w) && (w <? 2 ^ 16) &&
   match m' with Finite u' => (u <? fp16_limit) && (if fp16_normal <=? u then u' =? u else (u' <=? u) && (u <? u' + fp16_step)) | Infinite => fp16_limit <=? u | NotANumber => false end) = true.
Proof.
  intros Hu%Z.leb_le. cbv zeta. replace (fp16_value (Z.lor (Z.shiftl (Z.b2z s) 15) 31744)) with (s, Infinite) by (destruct s; reflexivity). rewrite Hu. by destruct s.
Qed.

Lemma all_convert w : 0 <= w < 2 ^ 16 -> converts w = true.
Proof.
  intros Hw. destruct (word_fields w Hw) as (s & e & m & Ew & He & Hm & Hs & Ht & He' & Hm').
  destruct (decide (102 <= e < 143)) as [Hmid|Hout].
  { pose proof middle_converts as [H1 H2]%andb_true_iff. destruct s; cbn [Z.b2z] in Ew; [apply (all_from_spec _ _ H2)|apply (all_from_spec _ _ H1)]; lia. }
  unfold converts, bf16_value, decode_word. change (Z.ones 8) with 255. change (Z.ones 7) with 127. rewrite Ht, He', Hm'. unfold bf16_to_fp16. rewrite Hs, He', Hm'.
  destruct (Z.eqb_spec e 255) as [->|]; [destruct (Z.eqb_spec m 0), s; by vm_compute|]. destruct (Z.eqb_spec e 0) as [->|].
  - apply zero_converts. change (2 ^ (133 + 1 - 127 - 7)) with 1. change fp16_step with (2 ^ 109). lia.
  - replace (133 + e - 127 - 7) with (e - 1) by lia. destruct (Z.leb_spec 31 (e - 127 + 15)).
    + apply inf_converts. change fp16_limit with (2 ^ 7 * 2 ^ 142). pose proof (pow_between 142 (e - 1) (e - 1)). nia.
    + rewrite (proj2 (Z.leb_le (e - 127 + 15) 0)), (proj2 (Z.ltb_lt (e - 127 + 15) (-10))) by lia. apply zero_converts.
      change fp16_step with (2 ^ 8 * (2 * 2 ^ 100)). pose proof (pow_between 0 (e - 1) 100). nia.
Qed.

(** The conversion of weights.  Of each of the 65536 words: the sign is kept, NaN gives NaN and infinity infinity; a finite value of at least 2^16 gives
    infinity, one of the normal range of FP16 is kept exactly, and a smaller one is rounded towards zero to a multiple of the smallest FP16 step. *)
Theorem bf16_conversion (w : Z) (Hw : 0 <= w < 2 ^ 16) :
  0 <= bf16_to_fp16 w < 2 ^ 16 /\ (fp16_value (bf16_to_fp16 w)).1 = (bf16_value w).1 /\
  match (bf16_value w).2 with
  | NotANumber => (fp16_value (bf16_to_fp16 w)).2 = NotANumber
  | Infinite => (fp16_value (bf16_to_fp16 w)).2 = Infinite
  | Finite u =>
      (fp16_limit <= u -> (fp16_value (bf16_to_fp16 w)).2 = Infinite) /\
      (fp16_normal <= u < fp16_limit -> (fp16_value (bf16_to_fp16 w)).2 = Finite u) /\
      (u < fp16_normal -> exists u', (fp16_value (bf16_to_fp16 w)).2 = Finite u' /\ u' <= u < u' + fp16_step)
  end.
Proof.
  assert (Hc : converts w = true).
  { by apply all_convert. }
  assert (fp16_normal < fp16_limit) by done.
  unfold converts in Hc. destruct (bf16_value w) as [s m], (fp16_value (bf16_to_fp16 w)) as [s' m']. cbn [fst snd].
  apply andb_true_iff in Hc as [[[Hs%Bool.eqb_prop H0%Z.leb_le]%andb_true_iff H1%Z.ltb_lt]%andb_true_iff Hm]. split; [done|]. split; [done|].
  destruct m as [u| |], m' as [u'| |]; try done.
  - apply andb_true_iff in Hm as [Hl%Z.ltb_lt Hm]. split; [lia|]. destruct (Z.leb_spec fp16_normal u) as [Hn|Hn]; [apply Z.eqb_eq in Hm as ->; split; [done|lia]|].
    apply andb_true_iff in Hm as [?%Z.leb_le ?%Z.ltb_lt]. split; [lia|]. intros _. exists u'. split; [done|lia].
  - apply Z.leb_le in Hm. split; [done|]. split; intros; lia.
Qed.

(** ** Runs *)

Module SafetensorsDemo.
Definition no_double (_ : bytes) : double := d_of_Z 0.
Definition stored (l : list bytes) : list bytes := l.
Definition meta : bytes := bytes_of "12345678".
Definition data : bytes := bytes_of "abcdef".
Definition tensors : list desc := [mkDesc (bytes_of "a") [2] (bytes_of "F16") 0 4; mkDesc (bytes_of "b") [1] (bytes_of "F32") 4 6].
Definition parse (_ : bytes) : bytes + json := inr (JObject (describe <$> tensors)).
(** Metadata with one tensor of 8-bit integers. *)
Definition one (start stop : Z) (_ : bytes) : bytes + json := inr (JObject [describe (mkDesc (bytes_of "t") [1] (bytes_of "I8") start stop)]).
Definition tensor_at (parse : bytes -> bytes + json) (file : bytes) : outcome (option Z * option (Z * Z) * option bytes) :=
  match Parse parse no_double stored (Some file) with
  | Done (m, _) =>
      match m !! bytes_of "t" with
      | Some t => Done (data_ptr t, extent t, p ← data_ptr t; e ← extent t; view file p e.2)
      | None => Failed
      end
  | Failed => Failed
  | Undefined => Undefined
  end.
End SafetensorsDemo.

Lemma safetensors_roundtrip_witness :
  exists m w t p, Parse SafetensorsDemo.parse SafetensorsDemo.no_double SafetensorsDemo.stored (Some (encode SafetensorsDemo.meta SafetensorsDemo.data)) = Done (m, w) /\
    m !! bytes_of "a" = Some t /\ data_ptr t = Some p /\ view (encode SafetensorsDemo.meta SafetensorsDemo.data) p 4 = Some (bytes_of "abcd") /\ bytes_of "b" ∈ w.
Proof.
  assert (Hnd : NoDup (d_name <$> SafetensorsDemo.tensors)) by (apply (bool_decide_unpack _); by vm_compute).
  assert (Hv : Forall (valid_desc SafetensorsDemo.data) SafetensorsDemo.tensors) by (repeat constructor; vm_compute; congruence).
  destruct (safetensors_roundtrip SafetensorsDemo.parse SafetensorsDemo.no_double SafetensorsDemo.stored SafetensorsDemo.meta SafetensorsDemo.data SafetensorsDemo.tensors
    (fun l => reflexivity l) eq_refl Hnd Hv eq_refl ltac:(vm_compute; congruence) ltac:(vm_compute; congruence)) as (m & w & H1 & _ & H2 & H3).
  apply Forall_cons in H2 as [(t & p & H4 & _ & _ & _ & _ & H5 & H6) _], H3 as [_ [H7 _]%Forall_cons]. exists m, w, t, p. split; [done|]. split; [done|]. split; [done|]. split; [done|].
  apply H7. vm_compute. congruence.
Defined.

Lemma parsed_tensors_in_file_witness : exists m w t b, Parse (SafetensorsDemo.one 1 2) SafetensorsDemo.no_double SafetensorsDemo.stored (Some (encode SafetensorsDemo.meta SafetensorsDemo.data)) = Done (m, w) /\
  m !! bytes_of "t" = Some t /\ view (encode SafetensorsDemo.meta SafetensorsDemo.data) 17 1 = Some b /\ length b = 1%nat.
Proof.
  assert (H : SafetensorsDemo.tensor_at (SafetensorsDemo.one 1 2) (encode SafetensorsDemo.meta SafetensorsDemo.data) = Done (Some 17, Some (1, 1), Some (bytes_of "b"))) by (vm_compute; reflexivity).
  unfold SafetensorsDemo.tensor_at in H. destruct (Parse _ _ _ _) as [[m w]| |] eqn:E; [|discriminate H..].
  destruct (m !! bytes_of "t") as [t|] eqn:Et; [|discriminate H]. injection H as Hp Hx _. exists m, w, t.
  destruct (parsed_tensors_in_file _ _ _ _ m w (bytes_of "t") t (fun l => reflexivity l) E Et) as (_ & o & s & p & He & Hd & Hb).
  rewrite Hx in He. rewrite Hp in Hd. injection He as <- <-. injection Hd as <-.
  destruct Hb as (_ & _ & b & Hv & Hl); [reflexivity|]. exists b. split; [done|]. split; [done|]. split; [done|]. lia.
Defined.

(** 1.5, 65536 and 2^-25. *)
Lemma bf16_conversion_witness : (fp16_value (bf16_to_fp16 16320)).2 = Finite (3 * 2 ^ 132) /\ (fp16_value (bf16_to_fp16 18304)).2 = Infinite /\ exists u, (fp16_value (bf16_to_fp16 13056)).2 = Finite u /\ u <= 2 ^ 108.
Proof.
  split; [|split].
  - destruct (bf16_conversion 16320 ltac:(lia)) as (_ & _ & H). by apply H.
  - destruct (bf16_conversion 18304 ltac:(lia)) as (_ & _ & H). by apply H.
  - destruct (bf16_conversion 13056 ltac:(lia)) as (_ & _ & H). destruct (proj2 (proj2 H)) as (u & Hu & Hl & _); [done|]. exists u. split; [done|]. exact Hl.
Defined.

(** Reversed offsets pass the check of the bounds, since their sum wraps around; the pointer is not in the file. *)
Example reversed_offsets_accepted :
  SafetensorsDemo.tensor_at (SafetensorsDemo.one 1000000 0) (encode SafetensorsDemo.meta SafetensorsDemo.data) = Done (Some 1000016, Some (1000000, 2 ^ 64 - 1000000), None).
Proof. by vm_compute. Qed.

(** Metadata of nine bytes: the data are looked for seven bytes further than they were written. *)
Example unaligned_header_shifts_data :
  SafetensorsDemo.tensor_at (SafetensorsDemo.one 0 1) (encode (bytes_of "123456789") (bytes_of "abcdefgh")) = Done (Some 24, Some (0, 1), Some (bytes_of "h")) /\
  SafetensorsDemo.tensor_at (SafetensorsDemo.one 1 2) (encode (bytes_of "123456789") (bytes_of "abcdefgh")) = Failed.
Proof. by vm_compute. Qed.

(** A tensor without offsets: the members that the check reads were never written. *)
Example missing_offsets_undefined :
  SafetensorsDemo.tensor_at (fun _ => inr (JObject [(bytes_of "t", JObject [])])) (encode SafetensorsDemo.meta SafetensorsDemo.data) = Undefined.
Proof. by vm_compute. Qed.
