(* ===== verification/SafetensorsModel.v ===== *)
(** * runtime/backends/cuda: a model of safetensors files, from the directory to the device

    [SafetensorsLoader] (inferflux_cuda_executor.h and .cpp): the configuration of the model, the
    shards of its weights and their upload; and [WeightMapTyped] (native/weight_map.h and .cpp),
    which looks the weights of the layers up.  Paths are byte strings and the file system is a pair
    of functions; a pointer into a shard is the shard's number with a position, a pointer into the
    device buffer is a position.  The JSON parser, the calls of the CUDA runtime and the order of an
    [unordered_map] are parameters.  Log messages are left out. *)

From stdpp Require Import base tactics numbers list strings gmap pretty sorting.
From Stdlib Require Import Ascii.
From S2P Require Import Prelude Float64 Json Gguf Safetensors.

Local Open Scope Z_scope.

(** ** Data *)

Record ModelConfig := mkConfig {
  hidden_size : Z; num_hidden_layers : Z; num_attention_heads : Z; num_key_value_heads : Z; head_dim : Z; intermediate_size : Z; vocab_size : Z;
  max_position_embeddings : Z; rope_freq_base : float; rope_freq_scale : float; rope_dim : Z; model_type : bytes; activation : bytes; torch_dtype : bytes;
  rms_norm_eps : float }.

(** 1e-6f *)
Definition default_eps : float := f_of_d (ddiv (d_of_Z 1) (d_of_Z 1000000)).
Definition default_config : ModelConfig := mkConfig 0 0 0 0 0 0 0 0 (f_of_Z 10000) (f_of_Z 1) 0 [] [] [] default_eps.

(** [cpu_data] is a shard and a position in it, [gpu_data] a position in the device buffer. *)
Record Tensor := mkTensor { t_name : bytes; t_shape : list Z; t_dtype : bytes; t_offset : Z; t_size : Z; cpu_data : option (nat * Z); gpu_data : option Z; gpu_offset : Z }.

Record Loader := mkLoader { tensors : gmap bytes Tensor; config : ModelConfig; shards : list bytes; weights_buffer : option bytes; total_gpu_size : Z }.

Definition new_loader : Loader := mkLoader ∅ default_config [] None 0.

(** ** The configuration *)

(** A step of [ParseConfig]: it ends, it throws, or the division traps; what was written before stays. *)
Inductive status := Ok | Threw | Trap.
Definition step := ModelConfig -> status * ModelConfig.

Definition andThen (a b : step) : step := fun c => match a c with (Ok, c') => b c' | r => r end.
Declare Scope step_scope.
Delimit Scope step_scope with step.
Notation "a ;; b" := (andThen a b) (at level 100, b at level 200) : step_scope.

Definition set_hidden_size z (c : ModelConfig) := mkConfig z (num_hidden_layers c) (num_attention_heads c) (num_key_value_heads c) (head_dim c) (intermediate_size c) (vocab_size c) (max_position_embeddings c) (rope_freq_base c) (rope_freq_scale c) (rope_dim c) (model_type c) (activation c) (torch_dtype c) (rms_norm_eps c).
Definition set_num_hidden_layers z (c : ModelConfig) := mkConfig (hidden_size c) z (num_attention_heads c) (num_key_value_heads c) (head_dim c) (intermediate_size c) (vocab_size c) (max_position_embeddings c) (rope_freq_base c) (rope_freq_scale c) (rope_dim c) (model_type c) (activation c) (torch_dtype c) (rms_norm_eps c).
Definition set_num_attention_heads z (c : ModelConfig) := mkConfig (hidden_size c) (num_hidden_layers c) z (num_key_value_heads c) (head_dim c) (intermediate_size c) (vocab_size c) (max_position_embeddings c) (rope_freq_base c) (rope_freq_scale c) (rope_dim c) (model_type c) (activation c) (torch_dtype c) (rms_norm_eps c).
Definition set_num_key_value_heads z (c : ModelConfig) := mkConfig (hidden_size c) (num_hidden_layers c) (num_attention_heads c) z (head_dim c) (intermediate_size c) (vocab_size c) (max_position_embeddings c) (rope_freq_base c) (rope_freq_scale c) (rope_dim c) (model_type c) (activation c) (torch_dtype c) (rms_norm_eps c).
Definition set_head_dim z (c : ModelConfig) := mkConfig (hidden_size c) (num_hidden_layers c) (num_attention_heads c) (num_key_value_heads c) z (intermediate_size c) (vocab_size c) (max_position_embeddings c) (rope_freq_base c) (rope_freq_scale c) (rope_dim c) (model_type c) (activation c) (torch_dtype c) (rms_norm_eps c).
Definition set_intermediate_size z (c : ModelConfig) := mkConfig (hidden_size c) (num_hidden_layers c) (num_attention_heads c) (num_key_value_heads c) (head_dim c) z (vocab_size c) (max_position_embeddings c) (rope_freq_base c) (rope_freq_scale c) (rope_dim c) (model_type c) (activation c) (torch_dtype c) (rms_norm_eps c).
Definition set_vocab_size z (c : ModelConfig) := mkConfig (hidden_size c) (num_hidden_layers c) (num_attention_heads c) (num_key_value_heads c) (head_dim c) (intermediate_size c) z (max_position_embeddings c) (rope_freq_base c) (rope_freq_scale c) (rope_dim c) (model_type c) (activation c) (torch_dtype c) (rms_norm_eps c).
Definition set_max_position_embeddings z (c : ModelConfig) := mkConfig (hidden_size c) (num_hidden_layers c) (num_attention_heads c) (num_key_value_heads c) (head_dim c) (intermediate_size c) (vocab_size c) z (rope_freq_base c) (rope_freq_scale c) (rope_dim c) (model_type c) (activation c) (torch_dtype c) (rms_norm_eps c).
Definition set_rope_freq_base f (c : ModelConfig) := mkConfig (hidden_size c) (num_hidden_layers c) (num_attention_heads c) (num_key_value_heads c) (head_dim c) (intermediate_size c) (vocab_size c) (max_position_embeddings c) f (rope_freq_scale c) (rope_dim c) (model_type c) (activation c) (torch_dtype c) (rms_norm_eps c).
Definition set_model_type s (c : ModelConfig) := mkConfig (hidden_size c) (num_hidden_layers c) (num_attention_heads c) (num_key_value_heads c) (head_dim c) (intermediate_size c) (vocab_size c) (max_position_embeddings c) (rope_freq_base c) (rope_freq_scale c) (rope_dim c) s (activation c) (torch_dtype c) (rms_norm_eps c).
Definition set_activation s (c : ModelConfig) := mkConfig (hidden_size c) (num_hidden_layers c) (num_attention_heads c) (num_key_value_heads c) (head_dim c) (intermediate_size c) (vocab_size c) (max_position_embeddings c) (rope_freq_base c) (rope_freq_scale c) (rope_dim c) (model_type c) s (torch_dtype c) (rms_norm_eps c).
Definition set_torch_dtype s (c : ModelConfig) := mkConfig (hidden_size c) (num_hidden_layers c) (num_attention_heads c) (num_key_value_heads c) (head_dim c) (intermediate_size c) (vocab_size c) (max_position_embeddings c) (rope_freq_base c) (rope_freq_scale c) (rope_dim c) (model_type c) (activation c) s (rms_norm_eps c).
Definition set_rms_norm_eps f (c : ModelConfig) := mkConfig (hidden_size c) (num_hidden_layers c) (num_attention_heads c) (num_key_value_heads c) (head_dim c) (intermediate_size c) (vocab_size c) (max_position_embeddings c) (rope_freq_base c) (rope_freq_scale c) (rope_dim c) (model_type c) (activation c) (torch_dtype c) f.

Section Config.
Context (to_double : bytes -> double).

(** The conversions to [int], [float] and [std::string]; the first two take booleans too. *)
Definition to_int (j : json) : option Z :=
  match j with
  | JInteger z | JUnsigned z => Some (i32 z)
  | JFloat l => Some (i32 (d_trunc (to_double l)))
  | JBool b => Some (Z.b2z b)
  | _ => None
  end.
Definition to_float (j : json) : option float :=
  match j with
  | JInteger z | JUnsigned z => Some (f_of_Z z)
  | JFloat l => Some (f_of_d (to_double l))
  | JBool b => Some (f_of_Z (Z.b2z b))
  | _ => None
  end.
Definition to_str (j : json) : option bytes := match j with JString s => Some s | _ => None end.

(** [if (config.contains(key)) { config_.field = config[key]; }] *)
Definition assign {A} (conv : json -> option A) (j : json) (key : string) (set : A -> ModelConfig -> ModelConfig) : step := fun c =>
  match Json.get key j with
  | None => (Ok, c)
  | Some v => match conv v with Some a => (Ok, set a c) | None => (Threw, c) end
  end.

(** [hidden_size / num_attention_heads] in [int]. *)
Definition divide_heads : step := fun c =>
  if (num_attention_heads c =? 0) || ((hidden_size c =? - 2 ^ 31) && (num_attention_heads c =? -1)) then (Trap, c)
  else (Ok, set_head_dim (Z.quot (hidden_size c) (num_attention_heads c)) c).

Definition read_head_dim (j : json) : step := if Json.get "head_dim" j then assign to_int j "head_dim" set_head_dim else divide_heads.

Definition read_model_type (j : json) : step :=
  if Json.get "model_type" j then assign to_str j "model_type" set_model_type
  else fun c => match Json.get "architectures" j with
                | Some (JArray (a :: _)) => match to_str a with Some s => (Ok, set_model_type s c) | None => (Threw, c) end
                | _ => (Ok, c)
                end.

Definition read_config (j : json) : step :=
  (assign to_int j "hidden_size" set_hidden_size ;;
   assign to_int j "num_hidden_layers" set_num_hidden_layers ;;
   assign to_int j "num_attention_heads" set_num_attention_heads ;;
   assign to_int j "num_key_value_heads" set_num_key_value_heads ;;
   read_head_dim j ;;
   assign to_int j "intermediate_size" set_intermediate_size ;;
   assign to_int j "vocab_size" set_vocab_size ;;
   assign to_int j "max_position_embeddings" set_max_position_embeddings ;;
   assign to_float j "rope_theta" set_rope_freq_base ;;
   read_model_type j ;;
   assign to_str j "hidden_act" set_activation ;;
   assign to_str j "torch_dtype" set_torch_dtype ;;
   assign to_float j "rms_norm_eps" set_rms_norm_eps)%step.

(** [None] when the file cannot be opened, and on a parse error the exception is caught as well. *)
Definition ParseConfig (parse : bytes -> bytes + json) (file : option bytes) : step := fun c =>
  match file with
  | None => (Threw, c)
  | Some f => match parse f with inl _ => (Threw, c) | inr j => read_config j c end
  end.
End Config.

(** ** Loading *)

Fixpoint bytes_leb (a b : bytes) : bool :=
  match a, b with
  | [], _ => true
  | _ :: _, [] => false
  | x :: a', y :: b' => if byte_val x <? byte_val y then true else if byte_val y <? byte_val x then false else bytes_leb a' b'
  end.

(** [std::set<std::string>::insert] *)
Fixpoint set_insert (x : bytes) (l : list bytes) : list bytes :=
  match l with
  | [] => [x]
  | y :: l' => if bool_decide (x = y) then l else if bytes_leb x y then x :: l else y :: set_insert x l'
  end.

Definition join (path : bytes) (file : bytes) : bytes := path ++ bytes_of "/" ++ file.

Definition tensor_of (k : nat) (i : TensorInfo) : Tensor :=
  let '(o, s) := default (0, 0) (extent i) in mkTensor (name i) (shape i) (dtype i) o s ((fun p => (k, p)) <$> data_ptr i) None 0.

Section Load.
Context (parse : bytes -> bytes + json) (to_double : bytes -> double) (order : list bytes -> list bytes).
(** [access(path, F_OK) == 0], and the contents of a file that can be opened. *)
Context (exists_file : bytes -> bool) (contents : bytes -> option bytes).

(** The paths of the shards; [None] when the index cannot be used or there are no files. *)
Definition shard_files (path : bytes) : option (list bytes) :=
  if exists_file (join path (bytes_of "model.safetensors.index.json")) then
    match parse (default [] (contents (join path (bytes_of "model.safetensors.index.json")))) with
    | inl _ => None
    | inr index =>
        match Json.get "weight_map" index with
        | None => Some []
        | Some weight_map => names ← mapM (fun it => to_str it.2) (items weight_map); Some (join path <$> foldl (fun s n => set_insert n s) [] names)
        end
    end
  else if exists_file (join path (bytes_of "model.safetensors")) then Some [join path (bytes_of "model.safetensors")]
  else None.

(** The tensors of a shard that no earlier shard had. *)
Definition add_tensors (k : nat) (m : gmap bytes TensorInfo) (acc : gmap bytes Tensor) : gmap bytes Tensor :=
  foldl (fun acc n => match m !! n with
                      | Some i => if acc !! n then acc else <[n := tensor_of k i]> acc
                      | None => acc
                      end) acc (GetTensorNames order m).

Fixpoint load_shards (paths : list bytes) (ts : gmap bytes Tensor) (fs : list bytes) : option (bool * (gmap bytes Tensor * list bytes)) :=
  match paths with
  | [] => Some (true, (ts, fs))
  | p :: paths' =>
      match Parse parse to_double order (contents p) with
      | Undefined => None
      | Failed => Some (false, (ts, fs))
      | Done (m, _) => load_shards paths' (add_tensors (length fs) m ts) (fs ++ [default [] (contents p)])
      end
  end.

(** [None] when the process has no defined behaviour. *)
Definition LoadModel (path : bytes) (l : Loader) : option (bool * Loader) :=
  match ParseConfig to_double parse (contents (join path (bytes_of "config.json"))) (config l) with
  | (Trap, _) => None
  | (_, c) =>
      match shard_files path with
      | None => Some (false, mkLoader (tensors l) c (shards l) (weights_buffer l) (total_gpu_size l))
      | Some paths =>
          '(ok, (ts, fs)) ← load_shards paths (tensors l) (shards l);
          Some (ok, mkLoader ts c fs (weights_buffer l) (total_gpu_size l))
      end
  end.
End Load.

Definition GetTensor (n : bytes) (l : Loader) : option Tensor := tensors l !! n.

(** ** Upload *)

(** [ConvertBF16ToFP16] *)
Fixpoint convert (b : bytes) : bytes :=
  match b with
  | x :: y :: b' => le_bytes 2 (bf16_to_fp16 (le_val [x; y])) ++ convert b'
  | _ => []
  end.

(** The buffer of the conversion, grown when it is too small, after the conversion of [data]. *)
Definition converted (buf data : bytes) : bytes := convert data ++ drop (length (convert data)) buf.

Definition needs_conversion (skip_bf16 : bool) (t : Tensor) : bool := bool_decide (t_dtype t = bytes_of "BF16") && negb skip_bf16.

Definition set_gpu (p : option Z) (t : Tensor) : Tensor := mkTensor (t_name t) (t_shape t) (t_dtype t) (t_offset t) (t_size t) (cpu_data t) p (gpu_offset t).
Definition set_gpu_at (p : Z) (t : Tensor) : Tensor := mkTensor (t_name t) (t_shape t) (t_dtype t) (t_offset t) (t_size t) (cpu_data t) (Some p) p.
Definition drop_cpu (t : Tensor) : Tensor := mkTensor (t_name t) (t_shape t) (t_dtype t) (t_offset t) (t_size t) None (gpu_data t) (gpu_offset t).

(** A copy to the device, when it is in the buffer. *)
Definition splice (dev : bytes) (o : Z) (data : bytes) : option bytes :=
  if (o + Z.of_nat (length data) <=? Z.of_nat (length dev)) then Some (take (Z.to_nat o) dev ++ data ++ drop (Z.to_nat o + length data) dev) else None.

Section Upload.
Context (order : list bytes -> list bytes).
(** [cudaMalloc], the copy of a tensor, the synchronization *)
Context (cuda_malloc : Z -> option bytes) (copy_ok : bytes -> bool) (sync_ok : bool) (skip_bf16 : bool).

Fixpoint upload_loop (fs : list bytes) (ns : list bytes) (ts : gmap bytes Tensor) (dev : bytes) (o : Z) (buf : bytes) : option (bool * (gmap bytes Tensor * bytes * Z)) :=
  match ns with
  | [] => Some (true, (ts, dev, o))
  | n :: ns' =>
      match ts !! n with
      | None => upload_loop fs ns' ts dev o buf
      | Some t =>
          match cpu_data t with
          | None => upload_loop fs ns' (<[n := set_gpu None t]> ts) dev o buf
          | Some (k, p) =>
              f ← fs !! k;
              data ← view f p (t_size t);
              let buf' := if needs_conversion skip_bf16 t then converted buf data else buf in
              upload_data ← view (if needs_conversion skip_bf16 t then buf' else data) 0 (t_size t);
              if negb (copy_ok n) then Some (false, (ts, dev, o))
              else dev' ← splice dev o upload_data; upload_loop fs ns' (<[n := set_gpu_at o t]> ts) dev' (u64 (o + t_size t)) buf'
          end
      end
  end.

Definition total_size (ts : gmap bytes Tensor) : Z := foldl (fun z n => match ts !! n with Some t => u64 (z + t_size t) | None => z end) 0 (GetTensorNames order ts).

Definition UploadToGPU (l : Loader) : option (bool * Loader) :=
  match cuda_malloc (total_size (tensors l)) with
  | None => Some (false, l)
  | Some dev =>
      '(ok, (ts, dev', o)) ← upload_loop (shards l) (GetTensorNames order (tensors l)) (tensors l) dev 0 [];
      if negb ok || negb sync_ok then Some (false, mkLoader ts (config l) (shards l) None (total_gpu_size l))
      else Some (true, mkLoader (drop_cpu <$> ts) (config l) [] (Some dev') o)
  end.
End Upload.

Definition FreeGPUMemory (l : Loader) : Loader :=
  match weights_buffer l with
  | None => l
  | Some _ => mkLoader ((fun t => mkTensor (t_name t) (t_shape t) (t_dtype t) (t_offset t) (t_size t) (cpu_data t) None 0) <$> tensors l) (config l) (shards l) None 0
  end.

(** ** native/weight_map.cpp *)

Record LayerWeights := mkLayer {
  q_proj : option Z; k_proj : option Z; v_proj : option Z; o_proj : option Z; input_norm : option Z; post_attn_norm : option Z; gate_proj : option Z;
  up_proj : option Z; down_proj : option Z; q_proj_bias : option Z; k_proj_bias : option Z; v_proj_bias : option Z }.

Record WeightMap := mkWeightMap { embed_tokens : option Z; final_norm : option Z; lm_head : option Z; layers : list LayerWeights }.

Definition Resolve (l : Loader) (n : bytes) : option Z := t ← GetTensor n l; gpu_data t.

Definition layer_name (i : Z) (suffix : string) : bytes := bytes_of "model.layers." ++ bytes_of (pretty i) ++ bytes_of suffix.

Definition layer_weights (l : Loader) (i : Z) : LayerWeights :=
  let r s := Resolve l (layer_name i s) in
  mkLayer (r ".self_attn.q_proj.weight") (r ".self_attn.k_proj.weight") (r ".self_attn.v_proj.weight") (r ".self_attn.o_proj.weight") (r ".input_layernorm.weight")
    (r ".post_attention_layernorm.weight") (r ".mlp.gate_proj.weight") (r ".mlp.up_proj.weight") (r ".mlp.down_proj.weight")
    (r ".self_attn.q_proj.bias") (r ".self_attn.k_proj.bias") (r ".self_attn.v_proj.bias").

Definition present (o : option Z) : bool := if o then true else false.

Definition layer_complete (w : LayerWeights) : bool :=
  forallb present [q_proj w; k_proj w; v_proj w; o_proj w; input_norm w; post_attn_norm w; gate_proj w; up_proj w; down_proj w].

Fixpoint build_layers (l : Loader) (n : nat) (i : Z) : option (list LayerWeights) :=
  match n with
  | O => Some []
  | S n' => let w := layer_weights l i in if layer_complete w then ws ← build_layers l n' (i + 1); Some (w :: ws) else None
  end.

(** [None] for [false]; with a negative number of layers [resize] throws. *)
Definition Build (l : Loader) (num_layers : Z) : option WeightMap :=
  embed ← Resolve l (bytes_of "model.embed_tokens.weight");
  norm ← Resolve l (bytes_of "model.norm.weight");
  let head := match Resolve l (bytes_of "lm_head.weight") with Some h => h | None => embed end in
  ws ← if num_layers <? 0 then None else build_layers l (Z.to_nat num_layers) 0;
  Some (mkWeightMap (Some embed) (Some norm) (Some head) ws).

(** ** Facts on loading *)

Section LoadFacts.
Context (parse : bytes -> bytes + json) (to_double : bytes -> double) (order : list bytes -> list bytes).
Context (exists_file : bytes -> bool) (contents : bytes -> option bytes).
Hypothesis order_perm : forall l, order l ≡ₚ l.

Abbreviation parsed f := (Parse parse to_double order (Some f)).

(** Earlier shards win. *)
Lemma add_tensors_spec k m acc n : add_tensors order k m acc !! n = match acc !! n with Some t => Some t | None => tensor_of k <$> m !! n end.
Proof.
  unfold add_tensors. assert (H : forall (ns : list bytes) (acc : gmap bytes Tensor), foldl (fun (acc : gmap bytes Tensor) n => match m !! n with Some i => if acc !! n then acc else <[n := tensor_of k i]> acc | None => acc end) acc ns !! n =
    match acc !! n with Some t => Some t | None => if decide (n ∈ ns) then tensor_of k <$> m !! n else None end).
  { clear acc. intros ns. induction ns as [|n' ns IH]; intros acc; cbn [foldl]; [rewrite decide_False by set_solver; by destruct (acc !! n)|]. rewrite IH. destruct (decide (n' = n)) as [->|Hne].
    - rewrite (decide_True (P := n ∈ n :: ns)) by set_solver. destruct (m !! n) as [i|] eqn:Em.
      + destruct (acc !! n) as [t|] eqn:Ea; [by rewrite Ea|]. by rewrite lookup_insert_eq.
      + destruct (acc !! n); [done|]. by destruct (decide (n ∈ ns)).
    - replace ((match m !! n' with Some i => if acc !! n' then acc else <[n' := tensor_of k i]> acc | None => acc end) !! n) with (acc !! n).
      + destruct (acc !! n); [done|]. destruct (decide (n ∈ ns)); [rewrite decide_True by set_solver|rewrite decide_False by set_solver]; done.
      + destruct (m !! n'); [|done]. destruct (acc !! n'); [done|]. by rewrite lookup_insert_ne. }
  rewrite H. destruct (acc !! n); [done|]. destruct (decide _) as [|Hn]; [done|]. rewrite (names_elem order order_perm) in Hn. destruct (m !! n); [|done]. destruct Hn. by eexists.
Qed.

(** The first of the shards from number [k] on that has the tensor, as the loader keeps it. *)
Fixpoint first_of (k : nat) (fs : list bytes) (n : bytes) : option Tensor :=
  match fs with
  | [] => None
  | f :: fs' => match parsed f with
                | Done (m, _) => match m !! n with Some i => Some (tensor_of k i) | None => first_of (S k) fs' n end
                | _ => None
                end
  end.

Definition readable (f : bytes) : Prop := exists m w, parsed f = Done (m, w).

Lemma load_shards_spec paths ts fs ts' fs' : load_shards parse to_double order contents paths ts fs = Some (true, (ts', fs')) ->
  exists new, fs' = fs ++ new /\ contents <$> paths = Some <$> new /\ Forall readable new /\
    forall n, ts' !! n = match ts !! n with Some t => Some t | None => first_of (length fs) new n end.
Proof.
  revert ts fs. induction paths as [|p paths IH]; intros ts fs Hl; cbn [load_shards] in Hl.
  - simplify_eq. exists []. rewrite app_nil_r. split; [done|]. split; [done|]. split; [done|]. intros n. by destruct (ts' !! n).
  - destruct (contents p) as [f|] eqn:Ep; [|done]. destruct (parsed f) as [[m w]| |] eqn:Ef; try done. destruct (IH _ _ Hl) as (new & -> & Hp & Hr & Hn). exists (f :: new). cbn [default].
    rewrite <- app_assoc. split; [done|]. split; [cbn; by rewrite Ep, Hp|]. split; [constructor; [by exists m, w|done]|]. intros n. rewrite Hn, add_tensors_spec. destruct (ts !! n); [done|].
    cbn [first_of]. rewrite Ef, length_app. cbn [length]. rewrite Nat.add_1_r. by destruct (m !! n).
Qed.

Lemma LoadModel_spec path l' : LoadModel parse to_double order exists_file contents path new_loader = Some (true, l') ->
  exists paths, shard_files parse exists_file contents path = Some paths /\ contents <$> paths = Some <$> shards l' /\ Forall readable (shards l') /\
    weights_buffer l' = None /\ forall n, tensors l' !! n = first_of 0 (shards l') n.
Proof.
  unfold LoadModel. destruct (ParseConfig _ _ _ _) as [[] c]; [| |done]; destruct (shard_files _ _ _ path) as [paths|]; try done.
  all: destruct (load_shards _ _ _ _ _ _ _) as [[ok [ts fs]]|] eqn:El; [|done]; cbn; intros [= -> <-]; destruct (load_shards_spec _ _ _ _ _ El) as (new & -> & Hp & Hr & Hn).
  all: exists paths; cbn in *; by split_and!.
Qed.

Lemma first_of_elem k fs n t : first_of k fs n = Some t -> exists j f m w i, fs !! j = Some f /\ parsed f = Done (m, w) /\ m !! n = Some i /\ t = tensor_of (k + j) i.
Proof.
  revert k. induction fs as [|f fs IH]; intros k Hf; cbn [first_of] in Hf; [done|]. destruct (parsed f) as [[m w]| |] eqn:Ef; try done. destruct (m !! n) as [i|] eqn:Em.
  - simplify_eq. exists 0%nat, f, m, w, i. by rewrite Nat.add_0_r.
  - destruct (IH _ Hf) as (j & f' & m' & w' & i & H1 & H2 & H3 & ->). exists (S j), f', m', w', i. split_and!; try done. f_equal. lia.
Qed.
End LoadFacts.

(** ** Facts on the upload *)

Lemma convert_length b : length (convert b) = (2 * (length b / 2))%nat.
Proof.
  assert (H : forall n b, (length b <= n)%nat -> length (convert b) = (2 * (length b / 2))%nat); [|by apply (H (length b))]. clear b.
  intros n. induction n as [|n IH]; intros b Hb; [destruct b; [done|cbn in Hb; lia]|]. destruct b as [|x [|y b]]; [done..|]. cbn [convert length] in *. rewrite length_app, le_bytes_length, IH by lia.
  replace (S (S (length b))) with (length b + 1 * 2)%nat by lia. rewrite Nat.div_add by lia. lia.
Qed.

(** The bytes of a tensor as they are copied, when they are defined. *)
Definition source (skip_bf16 : bool) (fs : list bytes) (t : Tensor) : option bytes :=
  '(k, p) ← cpu_data t;
  f ← fs !! k;
  data ← view f p (t_size t);
  if needs_conversion skip_bf16 t then (if t_size t mod 2 =? 0 then Some (convert data) else None) else Some data.

Lemma source_length skip fs t b : source skip fs t = Some b -> Z.of_nat (length b) = t_size t.
Proof.
  unfold source. intros ([k p] & _ & (f & _ & (data & Hd & H)%bind_Some)%bind_Some)%bind_Some. apply view_length in Hd. destruct (needs_conversion skip t); [|by simplify_eq].
  destruct (Z.eqb_spec (t_size t mod 2) 0) as [He|]; [|done]. simplify_eq. rewrite convert_length, Nat2Z.inj_mul, Nat2Z.inj_div. pose proof (Z.div_mod (t_size t) 2). rewrite Hd. lia.
Qed.

Lemma view_all b : view b 0 (Z.of_nat (length b)) = Some b.
Proof. unfold view, file_size. rewrite !(proj2 (Z.leb_le _ _)) by lia. cbn [andb]. by rewrite Nat2Z.id, drop_0, firstn_all. Qed.

Lemma view_prefix a b : view (a ++ b) 0 (Z.of_nat (length a)) = Some a.
Proof. unfold view, file_size. rewrite length_app, !(proj2 (Z.leb_le _ _)) by lia. cbn [andb]. by rewrite Nat2Z.id, drop_0, take_app_length. Qed.

Lemma view_middle a b c : view (a ++ b ++ c) (Z.of_nat (length a)) (Z.of_nat (length b)) = Some b.
Proof. unfold view, file_size. rewrite !length_app, !(proj2 (Z.leb_le _ _)) by lia. cbn [andb]. by rewrite !Nat2Z.id, drop_app_length, take_app_length. Qed.

(** One turn of the loop: what is copied. *)
Lemma source_copied skip fs t b buf : source skip fs t = Some b -> exists k p f data, cpu_data t = Some (k, p) /\ fs !! k = Some f /\ view f p (t_size t) = Some data /\
  view (if needs_conversion skip t then (if needs_conversion skip t then converted buf data else buf) else data) 0 (t_size t) = Some b.
Proof.
  intros Hs. pose proof (source_length _ _ _ _ Hs) as Hl. revert Hs. unfold source. intros ([k p] & Hc & (f & Hf & (data & Hd & H)%bind_Some)%bind_Some)%bind_Some.
  exists k, p, f, data. split_and!; try done. rewrite <- Hl. destruct (needs_conversion skip t).
  - destruct (t_size t mod 2 =? 0); [|done]. simplify_eq. apply view_prefix.
  - simplify_eq. apply view_all.
Qed.

Lemma splice_end pre rest data : (length data <= length rest)%nat -> splice (pre ++ rest) (Z.of_nat (length pre)) data = Some ((pre ++ data) ++ drop (length data) rest).
Proof.
  intros Hl. unfold splice. rewrite (proj2 (Z.leb_le _ _)) by (rewrite length_app; lia). rewrite Nat2Z.id, take_app_length, <- app_assoc. do 3 f_equal.
  rewrite drop_app_ge by lia. f_equal. lia.
Qed.

Section UploadFacts.
Context (copy_ok : bytes -> bool) (skip_bf16 : bool) (fs : list bytes) (fin : bytes -> bytes).
Hypothesis Hcopy : forall n, copy_ok n = true.

(** The device after the names [ns]: the weights one after the other. *)
Definition packed (ns : list bytes) : bytes := concat (fin <$> ns).

Lemma upload_loop_ok ns ts pre rest buf : NoDup ns -> (forall n, n ∈ ns -> exists t, ts !! n = Some t /\ source skip_bf16 fs t = Some (fin n)) ->
  length rest = length (packed ns) -> Z.of_nat (length pre + length rest) < 2 ^ 64 ->
  exists ts', upload_loop copy_ok skip_bf16 fs ns ts (pre ++ rest) (Z.of_nat (length pre)) buf = Some (true, (ts', pre ++ packed ns, Z.of_nat (length pre + length (packed ns)))) /\
    (forall n, n ∉ ns -> ts' !! n = ts !! n) /\
    forall a n b, ns = a ++ n :: b -> ts' !! n = set_gpu_at (Z.of_nat (length pre + length (packed a))) <$> ts !! n.
Proof.
  revert ts pre rest buf. induction ns as [|n ns IH]; intros ts pre rest buf Hnd Hs Hr Hlt.
  { cbn in Hr. apply length_zero_iff_nil in Hr as ->. exists ts. cbn. rewrite Nat.add_0_r. split_and!; [done|done|]. intros [] ? ? ?; done. }
  apply NoDup_cons in Hnd as [Hn Hnd]. destruct (Hs n ltac:(left)) as (t & Et & Hsrc). pose proof (source_length _ _ _ _ Hsrc) as Hl.
  destruct (source_copied _ _ _ _ buf Hsrc) as (k & p & f & data & Hc & Hk & Hv & Hb).
  assert (Hpk : packed (n :: ns) = fin n ++ packed ns) by done. rewrite Hpk, length_app in Hr. cbn [upload_loop]. rewrite Et, Hc, Hk. cbn [mbind option_bind]. rewrite Hv. cbn [mbind option_bind].
  rewrite Hb. cbn [mbind option_bind]. rewrite Hcopy. cbn [negb]. rewrite splice_end by lia. cbn [mbind option_bind]. rewrite u64_small by lia.
  set (ts1 := <[n := set_gpu_at _ t]> ts). set (buf' := if needs_conversion skip_bf16 t then converted buf data else buf).
  destruct (IH ts1 (pre ++ fin n) (drop (length (fin n)) rest) buf' Hnd) as (ts' & H1 & H2 & H3).
  { intros n' Hn'. destruct (Hs n' ltac:(by right)) as (t' & ? & ?). exists t'. unfold ts1. rewrite lookup_insert_ne by set_solver. done. }
  { rewrite length_drop. lia. }
  { rewrite length_app, length_drop. lia. }
  rewrite length_app, Nat2Z.inj_add, Hl in H1. exists ts'. split_and!.
  - rewrite H1, Hpk, app_assoc, (length_app (fin n)). do 4 f_equal. lia.
  - intros n' [Hne Hn']%not_elem_of_cons. rewrite H2 by done. unfold ts1. by apply lookup_insert_ne.
  - intros [|n0 a] n' b E; cbn in E; simplify_eq.
    + rewrite H2 by done. unfold ts1. rewrite lookup_insert_eq, Et. cbn. by rewrite Nat.add_0_r.
    + rewrite (H3 a n' b eq_refl). unfold ts1. rewrite lookup_insert_ne by set_solver. f_equal. f_equal. change (packed (n0 :: a)) with (fin n0 ++ packed a). rewrite !length_app. lia.
Qed.
End UploadFacts.

(** The sizes of the tensors, without wrapping around. *)
Definition sum_sizes (ts : gmap bytes Tensor) : Z := foldr (fun nt z => t_size nt.2 + z) 0 (map_to_list ts).

Lemma sum_perm (g : bytes -> Z) l k : l ≡ₚ k -> foldr (fun n z => g n + z) 0 l = foldr (fun n z => g n + z) 0 k.
Proof. induction 1; cbn; lia. Qed.

Section UploadSpec.
Context (order : list bytes -> list bytes) (cuda_malloc : Z -> option bytes) (copy_ok : bytes -> bool) (skip_bf16 : bool) (l : Loader).
Hypothesis order_perm : forall l, order l ≡ₚ l.
Hypothesis Hmalloc : forall z, 0 <= z < 2 ^ 64 -> exists dev, cuda_malloc z = Some dev /\ Z.of_nat (length dev) = z.
Hypothesis Hcopy : forall n, copy_ok n = true.
Hypothesis Hready : forall n t, tensors l !! n = Some t -> is_Some (source skip_bf16 (shards l) t).
Hypothesis Hsum : sum_sizes (tensors l) < 2 ^ 64.

Let fin (n : bytes) : bytes := default [] (t ← tensors l !! n; source skip_bf16 (shards l) t).
Let names := GetTensorNames order (tensors l).
Let size_at (n : bytes) : Z := match tensors l !! n with Some t => t_size t | None => 0 end.

Lemma fin_source n : n ∈ names -> exists t, tensors l !! n = Some t /\ source skip_bf16 (shards l) t = Some (fin n).
Proof.
  unfold names. rewrite (names_elem order order_perm). intros [t Et]. exists t. split; [done|]. unfold fin. rewrite Et. cbn. destruct (Hready n t Et) as [b ->]. done.
Qed.

Lemma packed_length ns : (forall n, n ∈ ns -> n ∈ names) -> Z.of_nat (length (packed fin ns)) = foldr (fun n z => size_at n + z) 0 ns.
Proof.
  induction ns as [|n ns IH]; intros Hi; [done|]. change (packed fin (n :: ns)) with (fin n ++ packed fin ns). rewrite length_app, Nat2Z.inj_add, IH by set_solver. cbn [foldr]. f_equal.
  destruct (fin_source n ltac:(set_solver)) as (t & Et & Hs). unfold size_at. rewrite Et. by eapply source_length.
Qed.

Lemma names_sum : foldr (fun n z => size_at n + z) 0 names = sum_sizes (tensors l).
Proof.
  unfold names, GetTensorNames, sum_sizes. rewrite (sum_perm size_at _ _ (order_perm _)).
  assert (H : forall k, (forall nt, nt ∈ k -> tensors l !! nt.1 = Some nt.2) -> foldr (fun n z => size_at n + z) 0 k.*1 = foldr (fun nt z => t_size nt.2 + z) 0 k).
    { induction k as [|[n t] k IH]; intros Hk; [done|]. cbn. rewrite IH by (intros; apply Hk; by right). f_equal. unfold size_at. pose proof (Hk (n, t) ltac:(left)) as E. cbn in E. by rewrite E. }
  apply H. intros [n t] Hi. by apply elem_of_map_to_list.
Qed.

Lemma total_size_sum : total_size order (tensors l) = sum_sizes (tensors l).
Proof.
  unfold total_size. fold names. rewrite <- names_sum. assert (H : forall ns z, (forall n, n ∈ ns -> n ∈ names) -> 0 <= z -> z + foldr (fun n z => size_at n + z) 0 ns < 2 ^ 64 ->
    foldl (fun z n => match tensors l !! n with Some t => u64 (z + t_size t) | None => z end) z ns = z + foldr (fun n z => size_at n + z) 0 ns).
  { induction ns as [|n ns IH]; intros z Hi Hz Hlt; cbn [foldl foldr] in *; [lia|]. assert (Hp : 0 <= foldr (fun n z => size_at n + z) 0 ns) by (rewrite <- packed_length; [lia|intros n' Hn'; apply Hi; by right]).
    destruct (fin_source n ltac:(set_solver)) as (t & Et & Hs%source_length). unfold size_at in *. rewrite Et in *. rewrite u64_small by lia. rewrite IH; [lia|intros n' Hn'; apply Hi; by right|lia|lia]. }
  rewrite H; [lia|done|lia|]. rewrite names_sum. lia.
Qed.

Lemma upload_spec : exists l' dev, UploadToGPU order cuda_malloc copy_ok true skip_bf16 l = Some (true, l') /\ weights_buffer l' = Some dev /\
  total_gpu_size l' = sum_sizes (tensors l) /\ Z.of_nat (length dev) = sum_sizes (tensors l) /\ shards l' = [] /\
  (forall n, tensors l !! n = None -> tensors l' !! n = None) /\
  (forall n t, tensors l !! n = Some t -> exists t' b, tensors l' !! n = Some t' /\ source skip_bf16 (shards l) t = Some b /\ gpu_data t' = Some (gpu_offset t') /\ cpu_data t' = None /\
    t_size t' = t_size t /\ view dev (gpu_offset t') (t_size t) = Some b) /\
  (forall n1 n2 t1 t2, n1 <> n2 -> tensors l' !! n1 = Some t1 -> tensors l' !! n2 = Some t2 ->
    gpu_offset t1 + t_size t1 <= gpu_offset t2 \/ gpu_offset t2 + t_size t2 <= gpu_offset t1).
Proof.
  pose proof (packed_length names (fun n H => H)) as Hpl. rewrite names_sum in Hpl. destruct (Hmalloc (sum_sizes (tensors l))) as (dev & Hm & Hd); [lia|].
  destruct (upload_loop_ok copy_ok skip_bf16 (shards l) fin Hcopy names (tensors l) [] dev [] (names_NoDup order order_perm _) fin_source ltac:(lia) ltac:(cbn; lia)) as (ts' & H1 & H2 & H3).
  exists (mkLoader (drop_cpu <$> ts') (config l) [] (Some (packed fin names)) (Z.of_nat (length (packed fin names)))), (packed fin names).
  assert (Hat : forall n t, tensors l !! n = Some t -> exists a b, names = a ++ n :: b /\ ts' !! n = Some (set_gpu_at (Z.of_nat (length (packed fin a))) t)).
  { intros n t Et. assert (Hi : n ∈ names) by (unfold names; rewrite (names_elem order order_perm); by exists t). apply list_elem_of_split in Hi as (a & b & E). exists a, b. split; [done|]. rewrite (H3 a n b E), Et. done. }
  assert (Hno : forall n, tensors l !! n = None -> ts' !! n = None).
  { intros n En. rewrite H2; [done|]. unfold names. rewrite (names_elem order order_perm), En. intros []; done. }
  split_and!; cbn [weights_buffer total_gpu_size shards tensors]; try done.
  - unfold UploadToGPU. rewrite total_size_sum, Hm. change dev with ([] ++ dev). fold names. change 0 with (Z.of_nat (length (@nil ascii))). rewrite H1. done.
  - intros n En. by rewrite lookup_fmap, Hno.
  - intros n t Et. destruct (Hat n t Et) as (a & b & E & Hx). eexists _, (fin n). rewrite lookup_fmap, Hx. split; [done|].
    destruct (fin_source n ltac:(rewrite E; set_solver)) as (t0 & Et0 & Hs). simplify_eq. split; [done|]. cbn. split_and!; try done.
    rewrite <- (source_length _ _ _ _ Hs), E. unfold packed. rewrite fmap_app, concat_app. cbn [fmap list_fmap concat]. apply view_middle.
  - assert (Hord : forall a1 n1 b1 a2 n2 b2 t1, names = a1 ++ n1 :: b1 -> names = a2 ++ n2 :: b2 -> tensors l !! n1 = Some t1 -> (length a1 < length a2)%nat ->
      Z.of_nat (length (packed fin a1)) + t_size t1 <= Z.of_nat (length (packed fin a2))).
    { intros a1 n1 b1 a2 n2 b2 t1 E1 E2 Et1 Hlt. assert (Ha : (a1 ++ [n1]) `prefix_of` a2).
      { rewrite E1, (cons_middle n1), app_assoc in E2. apply app_eq_inv in E2 as [(c & E & _)|(c & -> & _)]; [|by exists c].
        pose proof (f_equal length E) as El. rewrite !length_app in El. cbn in El. destruct c; [|cbn in El; lia]. rewrite app_nil_r in E. by rewrite E. }
      destruct Ha as [c ->]. unfold packed. rewrite !fmap_app, !concat_app, !length_app. cbn [fmap list_fmap concat]. rewrite app_nil_r.
      destruct (fin_source n1 ltac:(rewrite E1; set_solver)) as (t0 & Et0 & Hs%source_length). simplify_eq. lia. }
    intros n1 n2 t1 t2 Hne Ht1 Ht2. rewrite lookup_fmap in Ht1, Ht2.
    destruct (tensors l !! n1) as [u1|] eqn:E1; [|by rewrite Hno in Ht1]. destruct (tensors l !! n2) as [u2|] eqn:E2; [|by rewrite Hno in Ht2].
    destruct (Hat _ _ E1) as (a1 & b1 & N1 & X1), (Hat _ _ E2) as (a2 & b2 & N2 & X2). rewrite X1 in Ht1. rewrite X2 in Ht2. injection Ht1 as <-. injection Ht2 as <-. cbn.
    destruct (Nat.lt_trichotomy (length a1) (length a2)) as [Hl|[Hl|Hl]]; [left; by eapply Hord| |right; by eapply Hord].
    rewrite N1 in N2. apply app_inj_1 in N2 as [_ N2]; [|done]. congruence.
Qed.
End UploadSpec.

(** ** From the files to the device *)

(** What the loader does not check: the end of a range does not pass 2^64, and a BF16 tensor has whole words. *)
Definition sane (f : bytes) (i : TensorInfo) : Prop :=
  exists o s, extent i = Some (o, s) /\ data_start_of f + o + s < 2 ^ 64 /\ (dtype i = bytes_of "BF16" -> s mod 2 = 0).

Section Model.
Context (parse : bytes -> bytes + json) (to_double : bytes -> double) (order : list bytes -> list bytes).
Hypothesis order_perm : forall l, order l ≡ₚ l.

Lemma loaded_source skip_bf16 fs k f m w n i : fs !! k = Some f -> Parse parse to_double order (Some f) = Done (m, w) -> m !! n = Some i -> sane f i ->
  exists o s data, extent i = Some (o, s) /\ view f (data_start_of f + o) s = Some data /\ t_size (tensor_of k i) = s /\
    source skip_bf16 fs (tensor_of k i) = Some (if needs_conversion skip_bf16 (tensor_of k i) then convert data else data).
Proof.
  intros Hk Hp Hm (o & s & He & Hlt & Hev). destruct (parsed_tensor parse to_double order order_perm f m w n i Hp Hm) as (_ & o' & s' & He' & Ho & Hs & Hd & _ & Hb). rewrite He in He'. injection He' as <- <-.
  destruct (Hb Hlt) as (data & Hv & _). exists o, s, data. split; [done|]. split; [done|]. destruct (Parse_inv _ _ _ order_perm _ _ _ Hp) as [Hh _].
  pose proof (data_start_bounds f Hh) as [Hb1 _]. pose proof (metadata_len_range f).
  assert (Ht : tensor_of k i = mkTensor (name i) (shape i) (dtype i) o s (Some (k, data_start_of f + o)) None 0) by (unfold tensor_of; rewrite He, Hd, u64_small by lia; done).
  rewrite Ht. split; [done|]. unfold source. cbn [cpu_data t_size mbind option_bind]. rewrite Hk. cbn [mbind option_bind]. rewrite Hv. cbn [mbind option_bind].
  destruct (needs_conversion skip_bf16 _) eqn:En; [|done]. unfold needs_conversion in En. cbn in En. apply andb_true_iff in En as [En%bool_decide_eq_true _]. by rewrite (Hev En).
Qed.

Lemma first_of_unique k fs j f m w n i : fs !! j = Some f -> Parse parse to_double order (Some f) = Done (m, w) -> m !! n = Some i -> Forall (readable parse to_double order) fs ->
  (forall j' f' m' w', (j' < j)%nat -> fs !! j' = Some f' -> Parse parse to_double order (Some f') = Done (m', w') -> m' !! n = None) ->
  first_of parse to_double order k fs n = Some (tensor_of (k + j) i).
Proof.
  revert k j. induction fs as [|f0 fs IH]; intros k j Hj Hp Hm Hr Hno; [done|]. apply Forall_cons in Hr as [(m0 & w0 & Hp0) Hr]. cbn [first_of]. rewrite Hp0. destruct j as [|j].
  - injection Hj as ->. rewrite Hp in Hp0. injection Hp0 as <- <-. by rewrite Hm, Nat.add_0_r.
  - rewrite (Hno 0%nat f0 m0 w0) by (done || lia). rewrite (IH (S k) j) by (done || (intros j' f' m' w' Hlt; apply (Hno (S j')); lia)). do 2 f_equal. lia.
Qed.
End Model.

(** C37: The weights of a model reach the device.  When a model directory is loaded, its ranges and the total of its sizes are below 2^64 and the CUDA calls
    succeed, the upload succeeds, the shards are released, and every tensor of every shard, of the first shard that has it,
    is found at the device address that it resolves to: byte for byte, or word for word converted from BF16; the
    tensors do not overlap and fill the buffer. *)
Theorem model_reaches_device parse to_double order exists_file contents path cuda_malloc copy_ok skip_bf16 l
    (Horder : forall l, order l ≡ₚ l)
    (Hload : LoadModel parse to_double order exists_file contents path new_loader = Some (true, l))
    (Hsane : forall f m w n i, f ∈ shards l -> Parse parse to_double order (Some f) = Done (m, w) -> m !! n = Some i -> sane f i)
    (Hsum : sum_sizes (tensors l) < 2 ^ 64)
    (Hmalloc : forall z, 0 <= z < 2 ^ 64 -> exists dev, cuda_malloc z = Some dev /\ Z.of_nat (length dev) = z)
    (Hcopy : forall n, copy_ok n = true) :
  exists l' dev, UploadToGPU order cuda_malloc copy_ok true skip_bf16 l = Some (true, l') /\ weights_buffer l' = Some dev /\ shards l' = [] /\
    total_gpu_size l' = Z.of_nat (length dev) /\
    (forall j f m w n i, shards l !! j = Some f -> Parse parse to_double order (Some f) = Done (m, w) -> m !! n = Some i ->
      (forall j' f' m' w', (j' < j)%nat -> shards l !! j' = Some f' -> Parse parse to_double order (Some f') = Done (m', w') -> m' !! n = None) ->
      exists o s data p, extent i = Some (o, s) /\ view f (data_start_of f + o) s = Some data /\ Resolve l' n = Some p /\
        view dev p s = Some (if bool_decide (dtype i = bytes_of "BF16") && negb skip_bf16 then convert data else data)) /\
    (forall n1 n2 t1 t2, n1 <> n2 -> tensors l' !! n1 = Some t1 -> tensors l' !! n2 = Some t2 ->
      gpu_offset t1 + t_size t1 <= gpu_offset t2 \/ gpu_offset t2 + t_size t2 <= gpu_offset t1).
Proof.
  destruct (LoadModel_spec _ _ _ _ _ Horder _ _ Hload) as (paths & _ & _ & Hr & _ & Hfirst).
  assert (Hready : forall n t, tensors l !! n = Some t -> is_Some (source skip_bf16 (shards l) t)).
  { intros n t Et. rewrite Hfirst in Et. apply first_of_elem in Et as (j & f & m & w & i & Hj & Hp & Hm & ->).
    destruct (loaded_source parse to_double order Horder skip_bf16 (shards l) j f m w n i Hj Hp Hm) as (? & ? & ? & _ & _ & _ & Hs); [|by eexists].
    eapply Hsane; [|done..]. by eapply list_elem_of_lookup_2. }
  destruct (upload_spec order cuda_malloc copy_ok skip_bf16 l Horder Hmalloc Hcopy Hready Hsum) as (l' & dev & H1 & H2 & H3 & H4 & H5 & _ & H6 & H7).
  exists l', dev. split; [done|]. split; [done|]. split; [done|]. split; [lia|]. split; [|done]. intros j f m w n i Hj Hp Hm Hno.
  assert (Et : tensors l !! n = Some (tensor_of j i)) by (rewrite Hfirst; by eapply (first_of_unique parse to_double order 0 (shards l) j)).
  destruct (loaded_source parse to_double order Horder skip_bf16 (shards l) j f m w n i Hj Hp Hm) as (o & s & data & He & Hv & Hsz & Hs).
  { eapply Hsane; [|done..]. by eapply list_elem_of_lookup_2. }
  destruct (H6 n _ Et) as (t' & b & Et' & Hb & Hg & _ & _ & Hview). rewrite Hs in Hb. injection Hb as <-. exists o, s, data, (gpu_offset t'). split; [done|]. split; [done|].
  split; [unfold Resolve, GetTensor; by rewrite Et'|]. rewrite <- Hsz, Hview. unfold needs_conversion, tensor_of. by rewrite He.
Qed.

(** The tensors that a layer must have. *)
Definition required : list string :=
  [".self_attn.q_proj.weight"; ".self_attn.k_proj.weight"; ".self_attn.v_proj.weight"; ".self_attn.o_proj.weight"; ".input_layernorm.weight";
   ".post_attention_layernorm.weight"; ".mlp.gate_proj.weight"; ".mlp.up_proj.weight"; ".mlp.down_proj.weight"]%string.

Definition resolved (l : Loader) (n : bytes) : Prop := is_Some (Resolve l n).

Lemma layer_complete_iff l i : layer_complete (layer_weights l i) = true <-> Forall (fun s => resolved l (layer_name i s)) required.
Proof.
  assert (Hp : forall o, present o = true <-> is_Some o) by (intros []; split; try done; by intros [? ?]).
  unfold layer_complete. cbn [layer_weights q_proj k_proj v_proj o_proj input_norm post_attn_norm gate_proj up_proj down_proj].
  change (forallb present (map (fun s => Resolve l (layer_name i s)) required) = true <-> Forall (fun s => resolved l (layer_name i s)) required).
  rewrite forallb_forall, Forall_forall. unfold resolved. split.
  - intros H s Hs. apply Hp, H, (List.in_map (fun s => Resolve l (layer_name i s))). by apply list_elem_of_In.
  - intros H x (s & <- & Hs)%List.in_map_iff. apply Hp, H. by apply list_elem_of_In.
Qed.

Lemma build_layers_spec l n i : match build_layers l n i with
  | Some ws => length ws = n /\ forall k, (k < n)%nat -> ws !! k = Some (layer_weights l (i + Z.of_nat k)) /\ layer_complete (layer_weights l (i + Z.of_nat k)) = true
  | None => exists k, (k < n)%nat /\ layer_complete (layer_weights l (i + Z.of_nat k)) = false
  end.
Proof.
  revert i. induction n as [|n IH]; intros i; cbn [build_layers]; [split; [done|lia]|]. destruct (layer_complete (layer_weights l i)) eqn:E.
  - specialize (IH (i + 1)). destruct (build_layers l n (i + 1)) as [ws|]; cbn.
    + destruct IH as [Hl Hk]. split; [lia|]. intros [|k] Hlt; [rewrite Z.add_0_r; done|]. replace (i + Z.of_nat (S k)) with (i + 1 + Z.of_nat k) by lia. apply Hk. lia.
    + destruct IH as (k & Hk & Hc). exists (S k). split; [lia|]. by replace (i + Z.of_nat (S k)) with (i + 1 + Z.of_nat k) by lia.
  - exists 0%nat. split; [lia|]. by rewrite Z.add_0_r.
Qed.

(** The weight map.  It is built exactly when the embedding, the final norm and the nine weights of every layer have been uploaded; it then
    holds the address of each, the biases that exist, and for the output head the embedding when the model has no head of its own. *)
Theorem weight_map_complete l num_layers (Hn : 0 <= num_layers) :
  (is_Some (Build l num_layers) <->
    resolved l (bytes_of "model.embed_tokens.weight") /\ resolved l (bytes_of "model.norm.weight") /\
    forall i, 0 <= i < num_layers -> Forall (fun s => resolved l (layer_name i s)) required) /\
  (forall w, Build l num_layers = Some w ->
    embed_tokens w = Resolve l (bytes_of "model.embed_tokens.weight") /\ final_norm w = Resolve l (bytes_of "model.norm.weight") /\
    lm_head w = (match Resolve l (bytes_of "lm_head.weight") with Some h => Some h | None => embed_tokens w end) /\
    Z.of_nat (length (layers w)) = num_layers /\ forall i, (i < length (layers w))%nat -> layers w !! i = Some (layer_weights l (Z.of_nat i))).
Proof.
  unfold Build, resolved at 1 2. rewrite (proj2 (Z.ltb_ge num_layers 0)) by lia. pose proof (build_layers_spec l (Z.to_nat num_layers) 0) as Hb.
  set (head := Resolve l (bytes_of "lm_head.weight")) in *.
  destruct (Resolve l (bytes_of "model.embed_tokens.weight")) as [e|]; cbn [mbind option_bind]; [|split; [split; [by intros []|by intros [[] _]]|done]].
  destruct (Resolve l (bytes_of "model.norm.weight")) as [n|]; cbn [mbind option_bind]; [|split; [split; [by intros []|by intros [_ [[] _]]]|done]].
  destruct (build_layers l (Z.to_nat num_layers) 0) as [ws|]; cbn [mbind option_bind].
  - destruct Hb as [Hl Hk]. split.
    + split; [intros _|by eexists]. split; [by eexists|]. split; [by eexists|]. intros i Hi. apply layer_complete_iff. destruct (Hk (Z.to_nat i)) as [_ Hc]; [lia|]. by rewrite Z2Nat.id in Hc by lia.
    + intros w Hw. apply (inj Some) in Hw as <-. cbn [embed_tokens final_norm lm_head layers]. split; [done|]. split; [done|]. split; [by destruct head|]. split; [lia|]. intros i Hi. apply Hk. lia.
  - destruct Hb as (k & Hk & Hc). split; [|done]. split; [by intros []|]. intros (_ & _ & H). specialize (H (Z.of_nat k) ltac:(lia)). apply layer_complete_iff in H. rewrite Z.add_0_l in Hc. congruence.
Qed.

(** *** Facts on the configuration *)

Lemma andThen_Ok (a b : step) c c' : andThen a b c = (Ok, c') -> exists c1, a c = (Ok, c1) /\ b c1 = (Ok, c').
Proof. unfold andThen. destruct (a c) as [[] c1]; [|done..]. intros H. by exists c1. Qed.

Section ConfigFacts.
Context {A B : Type} (conv : json -> option A) (j : json) (key : string) (set : A -> ModelConfig -> ModelConfig) (to_double : bytes -> double).

Lemma assign_keeps (f : ModelConfig -> B) c c' : assign conv j key set c = (Ok, c') -> (forall a c, f (set a c) = f c) -> f c' = f c.
Proof. intros H Hf. revert H. unfold assign. destruct (Json.get key j) as [v|]; [destruct (conv v)|]; intros [= <-]; [apply Hf|done]. Qed.

Lemma assign_sets (f : ModelConfig -> A) d c c' : assign conv j key set c = (Ok, c') -> (forall a c, f (set a c) = a) ->
  f c' = match Json.get key j with Some v => default d (conv v) | None => f c end.
Proof. intros H Hf. revert H. unfold assign. destruct (Json.get key j) as [v|]; [destruct (conv v)|]; intros [= <-]; [apply Hf|done]. Qed.

Lemma head_dim_keeps (f : ModelConfig -> B) c c' : read_head_dim to_double j c = (Ok, c') -> (forall a c, f (set_head_dim a c) = f c) -> f c' = f c.
Proof.
  intros H Hf. revert H. unfold read_head_dim, assign, divide_heads. destruct (Json.get "head_dim" j) as [v|]; [destruct (to_int to_double v)|destruct (_ || _)]; intros [= <-]; apply Hf.
Qed.

Lemma model_type_keeps (f : ModelConfig -> B) c c' : read_model_type j c = (Ok, c') -> (forall a c, f (set_model_type a c) = f c) -> f c' = f c.
Proof.
  intros H Hf. revert H. unfold read_model_type, assign. destruct (Json.get "model_type" j) as [v|]; [destruct (to_str v); intros [= <-]; apply Hf|].
  destruct (Json.get "architectures" j) as [[| | | | | |[|a k]|]|]; try (intros [= <-]; done). destruct (to_str a); intros [= <-]; apply Hf.
Qed.

Lemma head_dim_sets c c' : read_head_dim to_double j c = (Ok, c') ->
  head_dim c' = match Json.get "head_dim" j with Some v => default 0 (to_int to_double v) | None => Z.quot (hidden_size c) (num_attention_heads c) end.
Proof.
  unfold read_head_dim, assign, divide_heads. destruct (Json.get "head_dim" j) as [v|]; [destruct (to_int to_double v)|destruct (_ || _)]; intros [= <-]; done.
Qed.
End ConfigFacts.

Lemma andThen_safe (a b : step) c : (a c).1 <> Trap -> (forall c1, a c = (Ok, c1) -> (b c1).1 <> Trap) -> (andThen a b c).1 <> Trap.
Proof. unfold andThen. destruct (a c) as [[] c1]; cbn; [|done..]. intros _ H. by apply H. Qed.

Lemma assign_safe {A} (conv : json -> option A) j key set c : (assign conv j key set c).1 <> Trap.
Proof. unfold assign. destruct (Json.get key j) as [v|]; [destruct (conv v)|]; done. Qed.

Lemma model_type_safe j c : (read_model_type j c).1 <> Trap.
Proof.
  unfold read_model_type. destruct (Json.get "model_type" j); [apply assign_safe|]. destruct (Json.get "architectures" j) as [[| | | | | |[|a k]|]|]; try done. by destruct (to_str a).
Qed.

Lemma head_dim_safe to_double j c : is_Some (Json.get "head_dim" j) \/ 0 < num_attention_heads c -> (read_head_dim to_double j c).1 <> Trap.
Proof.
  intros H. unfold read_head_dim. destruct (Json.get "head_dim" j); [apply assign_safe|]. destruct H as [[]|H]; [done|]. unfold divide_heads.
  destruct (Z.eqb_spec (num_attention_heads c) 0), (Z.eqb_spec (num_attention_heads c) (-1)); [lia..|]. by rewrite andb_false_r.
Qed.

(** The steps that do not write the field. *)
Ltac keep f :=
  repeat match goal with
    | |- context [f ?c'] =>
        match goal with
        | H : assign _ _ _ _ _ = (Ok, c') |- _ => rewrite (assign_keeps _ _ _ _ f _ _ H (fun _ _ => eq_refl))
        | H : read_head_dim _ _ _ = (Ok, c') |- _ => rewrite (head_dim_keeps _ _ f _ _ H (fun _ _ => eq_refl))
        | H : read_model_type _ _ = (Ok, c') |- _ => rewrite (model_type_keeps _ f _ _ H (fun _ _ => eq_refl))
        end
    end.

(** The step that writes it. *)
Ltac written f d :=
  keep f;
  match goal with
  | |- f ?c' = _ => match goal with H : assign _ _ _ _ _ = (Ok, c') |- _ => rewrite (assign_sets _ _ _ _ f d _ _ H (fun _ _ => eq_refl)) end
  end;
  keep f; reflexivity.

(** The configuration.  When reading it ends normally, a number that the file has under a key is the value of the field, in 32 bits, and a field
    without a key keeps its value; without a head dimension it is the hidden size divided by the number of heads.  When the file gives a head
    dimension, or a number of heads that is positive, the reading ends or throws, and never divides by zero. *)
Theorem config_reads_fields to_double j c :
  (forall c', read_config to_double j c = (Ok, c') ->
    Forall (fun kf : string * (ModelConfig -> Z) => kf.2 c' = match Json.get kf.1 j with Some v => default 0 (to_int to_double v) | None => kf.2 c end)
      [("hidden_size", hidden_size); ("num_hidden_layers", num_hidden_layers); ("num_attention_heads", num_attention_heads);
       ("num_key_value_heads", num_key_value_heads); ("intermediate_size", intermediate_size); ("vocab_size", vocab_size);
       ("max_position_embeddings", max_position_embeddings)]%string /\
    head_dim c' = (match Json.get "head_dim" j with Some v => default 0 (to_int to_double v) | None => Z.quot (hidden_size c') (num_attention_heads c') end) /\
    torch_dtype c' = (match Json.get "torch_dtype" j with Some v => default [] (to_str v) | None => torch_dtype c end)) /\
  (is_Some (Json.get "head_dim" j) \/ (exists v z, Json.get "num_attention_heads" j = Some v /\ to_int to_double v = Some z /\ 0 < z) ->
    (read_config to_double j c).1 <> Trap).
Proof.
  split.
  - intros c' H. unfold read_config in H.
    repeat match goal with H : andThen _ _ _ = (Ok, _) |- _ => apply andThen_Ok in H as (? & ? & H) end.
    split; [|split].
    + constructor; cbn [fst snd]; [written hidden_size 0|].
      constructor; cbn [fst snd]; [written num_hidden_layers 0|].
      constructor; cbn [fst snd]; [written num_attention_heads 0|].
      constructor; cbn [fst snd]; [written num_key_value_heads 0|].
      constructor; cbn [fst snd]; [written intermediate_size 0|].
      constructor; cbn [fst snd]; [written vocab_size 0|].
      constructor; cbn [fst snd]; [written max_position_embeddings 0|]. constructor.
    + keep head_dim. keep hidden_size. keep num_attention_heads. match goal with H : read_head_dim _ _ _ = _ |- _ => rewrite (head_dim_sets _ _ _ _ H) end.
      destruct (Json.get "head_dim" j); [done|]. keep hidden_size. keep num_attention_heads. done.
    + written torch_dtype (@nil ascii).
  - intros Hh. unfold read_config. do 4 (apply andThen_safe; [apply assign_safe|intros ? ?]). apply andThen_safe.
    + apply head_dim_safe. destruct Hh as [?|(v & z & Hv & Hz & Hp)]; [by left|right]. keep num_attention_heads.
      match goal with H : assign _ _ "num_attention_heads" _ _ = _ |- _ => rewrite (assign_sets _ _ _ _ num_attention_heads 0 _ _ H (fun _ _ => eq_refl)) end. by rewrite Hv, Hz.
    + intros ? _. do 4 (apply andThen_safe; [apply assign_safe|intros ? _]). apply andThen_safe; [apply model_type_safe|intros ? _].
      do 2 (apply andThen_safe; [apply assign_safe|intros ? _]). apply assign_safe.
Qed.

(** ** Runs *)

Module ModelDemo.
(** A directory with one file, of one BF16 tensor with the values 1.5 and 65536. *)
Definition weights : bytes := le_bytes 2 16320 ++ le_bytes 2 18304.
Definition embed : desc := mkDesc (bytes_of "model.embed_tokens.weight") [2] (bytes_of "BF16") 0 4.
Definition parse (_ : bytes) : bytes + json := inr (JObject [describe embed]).
Definition file : bytes := encode SafetensorsDemo.meta weights.
Definition path : bytes := bytes_of "/m".
Definition exists_file (p : bytes) : bool := bool_decide (p = join path (bytes_of "model.safetensors")).
Definition contents (p : bytes) : option bytes := if exists_file p then Some file else None.
Definition cuda_malloc (z : Z) : option bytes := Some (repeat "000"%char (Z.to_nat z)).
Definition loaded : option (bool * Loader) := LoadModel parse SafetensorsDemo.no_double SafetensorsDemo.stored exists_file contents path new_loader.
End ModelDemo.

(** What the parser makes of the file. *)
Lemma demo_parsed : exists m w, Parse ModelDemo.parse SafetensorsDemo.no_double SafetensorsDemo.stored (Some ModelDemo.file) = Done (m, w) /\
  forall n, m !! n = if decide (n = d_name ModelDemo.embed) then Some (set_data_ptr 16 (info_of ModelDemo.embed)) else None.
Proof.
  destruct (read_described SafetensorsDemo.no_double SafetensorsDemo.meta ModelDemo.weights ltac:(by vm_compute) [ModelDemo.embed] ∅) as (m0 & H1 & H2 & H3).
  { apply NoDup_singleton. }
  { repeat constructor; vm_compute; congruence. }
  { repeat constructor. }
  assert (Hp : ParseMetadata ModelDemo.parse SafetensorsDemo.no_double ModelDemo.file = Some m0).
  { unfold ParseMetadata. replace (file_size ModelDemo.file <? u64 (8 + metadata_len ModelDemo.file)) with false by (vm_compute; reflexivity). exact H1. }
  assert (Hat : forall n, m0 !! n = if decide (n = d_name ModelDemo.embed) then Some (info_of ModelDemo.embed) else None).
  { intros n. destruct (decide (n = d_name ModelDemo.embed)) as [->|Hn]; [apply H2; left|]. rewrite H3 by set_solver. apply lookup_empty. }
  assert (Hd : data_start_of ModelDemo.file = 16) by (vm_compute; reflexivity).
  destruct (ParseTensorData_ok SafetensorsDemo.stored (fun l => reflexivity l) ModelDemo.file m0) as (w & Hw & _).
  { intros n t. rewrite Hat. case_decide; [|done]. intros [= <-]. exists 0, 4. split; [done|]. rewrite Hd. vm_compute. congruence. }
  eexists _, w. split; [cbn [Parse]; replace (ParseHeader ModelDemo.file) with true by (vm_compute; reflexivity); cbn [negb]; rewrite Hp; exact Hw|].
  intros n. rewrite lookup_fmap, Hat. case_decide; [|done]. by rewrite Hd.
Qed.

Lemma demo_loaded : exists l, ModelDemo.loaded = Some (true, l) /\ shards l = [ModelDemo.file] /\ sum_sizes (tensors l) = 4.
Proof.
  assert (H : match ModelDemo.loaded with Some (true, l) => Some (shards l, sum_sizes (tensors l)) | _ => None end = Some ([ModelDemo.file], 4)) by (vm_compute; reflexivity).
  destruct ModelDemo.loaded as [[[] l]|]; [|discriminate H..]. injection H as H1 H2. by exists l.
Qed.

Lemma model_reaches_device_witness : exists l l' dev p,
  ModelDemo.loaded = Some (true, l) /\ UploadToGPU SafetensorsDemo.stored ModelDemo.cuda_malloc (fun _ => true) true false l = Some (true, l') /\ weights_buffer l' = Some dev /\
  Resolve l' (bytes_of "model.embed_tokens.weight") = Some p /\ view dev p 4 = Some (le_bytes 2 15872 ++ le_bytes 2 31744).
Proof.
  destruct demo_loaded as (l & Hl & Hs & Hsum), demo_parsed as (m & w & Hp & Hm).
  destruct (model_reaches_device _ _ _ _ _ _ ModelDemo.cuda_malloc (fun _ => true) false l (fun l => reflexivity l) Hl) as (l' & dev & H1 & H2 & _ & _ & H3 & _).
  - intros f m' w' n i Hf Hp' Hi. rewrite Hs in Hf. apply list_elem_of_singleton in Hf as ->. rewrite Hp in Hp'. injection Hp' as <- <-. rewrite Hm in Hi.
    case_decide; [|done]. injection Hi as <-. exists 0, 4. split; [done|]. split; [by vm_compute|by intros _].
  - by rewrite Hsum.
  - intros z Hz. eexists. split; [done|]. rewrite repeat_length. lia.
  - done.
  - exists l, l', dev. destruct (H3 0%nat ModelDemo.file m w (d_name ModelDemo.embed) (set_data_ptr 16 (info_of ModelDemo.embed))) as (o & s & data & p & He & Hd & Hr & Hv);
      [by rewrite Hs|done|by rewrite Hm, decide_True|lia|].
    exists p. split; [done|]. split; [done|]. split; [done|]. split; [done|]. injection He as <- <-. change (4 - 0) with 4 in Hd, Hv. rewrite Hv. f_equal.
    assert (E : view ModelDemo.file (data_start_of ModelDemo.file + 0) 4 = Some ModelDemo.weights) by (vm_compute; reflexivity). rewrite E in Hd. injection Hd as <-. reflexivity.
Defined.

Lemma weight_map_complete_witness : is_Some (Build new_loader 0) <-> resolved new_loader (bytes_of "model.embed_tokens.weight") /\ resolved new_loader (bytes_of "model.norm.weight") /\
  forall i, 0 <= i < 0 -> Forall (fun s => resolved new_loader (layer_name i s)) required.
Proof. exact (proj1 (weight_map_complete new_loader 0 ltac:(lia))). Defined.

Lemma config_reads_fields_witness : exists c, read_config SafetensorsDemo.no_double (JObject [(bytes_of "hidden_size", JUnsigned 4096); (bytes_of "num_attention_heads", JUnsigned 32)]) default_config = (Ok, c) /\ head_dim c = 128.
Proof.
  destruct (read_config SafetensorsDemo.no_double (JObject [(bytes_of "hidden_size", JUnsigned 4096); (bytes_of "num_attention_heads", JUnsigned 32)]) default_config) as [s c] eqn:E.
  assert (s = Ok) as -> by (vm_compute in E; congruence). exists c. split; [done|].
  destruct (proj1 (config_reads_fields _ _ _) c E) as (H & H2 & _). apply Forall_cons in H as [H0 H]. apply Forall_cons in H as [_ H]. apply Forall_cons in H as [H1 _]. cbn in H0, H1, H2.
  rewrite H2, H0, H1. reflexivity.
Defined.

(** Without a head dimension and without a number of heads the process divides by zero. *)
Example config_without_heads_traps : (read_config SafetensorsDemo.no_double (JObject [(bytes_of "hidden_size", JUnsigned 4096)]) default_config).1 = Trap.
Proof. by vm_compute. Qed.

(** A value of the wrong type is reported as a failure to load the file, and the loader goes on with half of it. *)
Example config_half_read :
  let r := read_config SafetensorsDemo.no_double (JObject [(bytes_of "hidden_size", JUnsigned 4096); (bytes_of "num_hidden_layers", JNull); (bytes_of "num_attention_heads", JUnsigned 32)]) default_config in
  (r.1, hidden_size r.2, num_hidden_layers r.2, num_attention_heads r.2) = (Threw, 4096, 0, 0).
Proof. by vm_compute. Qed.
