(* ===== verification/PipelinedBurst.v ===== *)
(** * Bursts of a batch that stay on the device

    [NativeExecuteUnifiedBatchBurst] of runtime/backends/cuda/inferflux_cuda_executor.cpp with its controller
    (native/decode_burst.h and .cu), and the sink that the batch executor gives it
    (runtime/execution/batch_executor.cpp).  The device is enqueued several decode steps ahead; a
    kernel makes of each sample the input of the next step.  A sequence has its own rows in the KV cache;
    of a row, the token that it was computed from.  The host reads the samples slot by slot.  The
    executor does not offer these bursts yet: whether it does is an argument.  Timing, metrics
    and the wait for a slot are left out, and allocations succeed. *)

From stdpp Require Import base tactics numbers list strings gmap.
From Stdlib Require Import Ascii.
From S2P Require Import Prelude StringUtils GeneratedText Executor StepExecutor.

Local Open Scope Z_scope.

(** ** The device *)

Record Lane := mkLane { token_id : Z; lane_past : Z; kv_len : Z; done : bool; steps_left : Z; rows : gmap Z Z }.

Section Device.
(** The most likely token after others, and the ids that the kernel ends a sequence at. *)
Context (next : list Z -> Z) (eos_ids : list Z).

(** The rows that attention sees. *)
Definition attended (len : Z) (m : gmap Z Z) : list Z := (fun i => default (-1) (m !! i)) <$> seqZ 0 len.

(** The forward pass writes the row of its token and samples. *)
Definition forward (l : Lane) : Lane * Z :=
  let m := <[lane_past l := token_id l]> (rows l) in
  (mkLane (token_id l) (lane_past l) (kv_len l) (done l) (steps_left l) m, next (attended (kv_len l) m)).

Definition DecodeTokenFeedKernel (sampled : Z) (l : Lane) : Lane :=
  if done l || (steps_left l <=? 0) then l
  else if existsb (Z.eqb sampled) eos_ids then mkLane (token_id l) (lane_past l) (kv_len l) true (steps_left l) (rows l)
  else mkLane sampled (lane_past l + 1) (lane_past l + 1 + 1) (done l) (steps_left l - 1) (rows l).

Definition EnqueueStep (l : Lane) : Lane * Z := let '(l, t) := forward l in (DecodeTokenFeedKernel t l, t).

(** The slots of a sequence after [n] steps, and its state. *)
Fixpoint ring (n : nat) (l : Lane) : list Z * Lane :=
  match n with
  | O => ([], l)
  | S n => let '(l, t) := EnqueueStep l in let '(ts, l) := ring n l in (t :: ts, l)
  end.

(** [BeginChunk], and the metadata that the first forward pass uploads. *)
Definition begin_chunk (token past budget : Z) (m : gmap Z Z) : Lane := mkLane token past (past + 1) false budget m.
End Device.

(** ** The executor *)

Definition kMaxRingSlots : Z := 32.
Definition kMaxBurstBatch : Z := 64.
(** [UnifiedBurstOptions] *)
Definition max_tokens_per_seq : Z := 8.
Definition max_batch_tokens : Z := 256.

Definition step_budget (decode_burst_chunk batch max_seq_len past : Z) : Z :=
  let k_chunk := Z.min max_tokens_per_seq kMaxRingSlots in
  let k_chunk := Z.min k_chunk (Z.max 1 decode_burst_chunk) in
  let k_chunk := Z.min k_chunk (Z.max 1 (Z.quot max_batch_tokens batch)) in
  let headroom := Z.max 1 (max_seq_len - past - 1) in
  Z.max 1 (Z.min k_chunk headroom).

Definition BurstSlotWithinBudget (slot_idx budget : Z) : bool := (0 <=? slot_idx) && (slot_idx <? budget).

(** A sequence while its slots are read; [flag]: its cancellation flag by the slot. *)
Record Entry := mkEntry {
  e_req : Request; e_plan : FairnessSlicePlan; e_flag : nat -> bool; e_budget : Z; e_ring : list Z; e_run : Run;
  e_stopped : bool; e_finished : bool; e_last : Z }.

Section Executor.
Context (terminal : Z -> bool) (piece_of : Z -> bytes).

(** [VisibleTokenPiece] *)
Definition VisibleTokenPiece (t : Z) : bytes := if (t <? 0) || terminal t then [] else piece_of t.

(** The sink: the current token was fed, and the sample is emitted; whether the sequence goes on. *)
Definition sink (q : Request) (plan : FairnessSlicePlan) (cancelled : bool) (t : Z) (piece : bytes) (r : Run) : bool * Run :=
  let r := feed (MakeUnifiedBatchInput q (pos r) [current_token r] true) r in
  let r := move (pos r + 1) (offset r) (prefilled r) r in
  let r := accept q plan t piece None cancelled true r in
  if negb (active r) then (false, r)
  else if reached_limit plan r then (false, stopped r)
  else (true, r).

(** Slot [i] of a sequence. *)
Definition consume_entry (i : nat) (e : Entry) : Entry :=
  if e_stopped e || negb (BurstSlotWithinBudget (Z.of_nat i) (e_budget e)) then e
  else
    let t := default (-1) (e_ring e !! i) in
    if (t <? 0) || terminal t then mkEntry (e_req e) (e_plan e) (e_flag e) (e_budget e) (e_ring e) (e_run e) true true (-1)
    else
      let '(goes_on, r) := sink (e_req e) (e_plan e) (e_flag e i) t (VisibleTokenPiece t) (e_run e) in
      mkEntry (e_req e) (e_plan e) (e_flag e) (e_budget e) (e_ring e) r (negb goes_on) (e_finished e || negb goes_on) t.

(** The slots in order, until no sequence is left. *)
Fixpoint consume (n i : nat) (es : list Entry) : list Entry :=
  match n with
  | O => es
  | S n => let es := consume_entry i <$> es in if forallb e_stopped es then es else consume n (S i) es
  end.

(** What the batch executor does when the burst has succeeded. *)
Definition settle_entry (e : Entry) : Run := if e_finished e then stopped (e_run e) else e_run e.

(** How many steps were enqueued: the first, and those after it until one fails. *)
Fixpoint enqueued_from (ok : nat -> bool) (n i : nat) : nat :=
  match n with O => O | S n => if ok i then S (enqueued_from ok n (S i)) else O end.

Definition enqueued (graph_ready : bool) (enqueue_ok : nat -> bool) (budgets : list Z) : nat :=
  let steps := if graph_ready then foldr Z.max 1 budgets else 1 in
  S (enqueued_from enqueue_ok (Z.to_nat (steps - 1)) 1).

(** A decoding request: its rows in the cache, and whether it samples greedily. *)
Record Decoding := mkDecoding { d_req : Request; d_plan : FairnessSlicePlan; d_flag : nat -> bool; d_run : Run; d_rows : gmap Z Z; d_greedy : bool }.

(** [BurstStepEligible]; each request has an input of one token that wants logits. *)
Definition BurstStepEligible (ds : list Decoding) : bool :=
  negb (bool_decide (ds = [])) &&
  forallb (fun d => negb (in_prefill (d_run d)) && d_greedy d && (in_top_n (MakeUnifiedBatchInput (d_req d) (pos (d_run d)) [current_token (d_run d)] true) <? 0)) ds.

Section Burst.
Context (next : list Z -> Z) (eos_token : Z) (max_batch max_seq decode_burst_chunk : Z) (graph_ready : bool) (enqueue_ok : nat -> bool) (forward_ok : bool).

Definition budget_of (ds : list Decoding) (d : Decoding) : Z := step_budget decode_burst_chunk (Z.of_nat (length ds)) (Z.max 1 max_seq) (pos (d_run d)).
Definition enqueued_of (ds : list Decoding) : nat := enqueued graph_ready enqueue_ok (budget_of ds <$> ds).

Definition entry_of (ds : list Decoding) (d : Decoding) : Entry :=
  let l := begin_chunk (current_token (d_run d)) (pos (d_run d)) (budget_of ds d) (d_rows d) in
  mkEntry (d_req d) (d_plan d) (d_flag d) (budget_of ds d) (ring next [eos_token] (enqueued_of ds) l).1 (d_run d) false false (-1).

(** The sequence of a request is in the cache and has room for a row. *)
Definition in_kv_range (d : Decoding) : bool :=
  (0 <=? sequence_id (d_req d)) && (sequence_id (d_req d) <? max_batch) && (pos (d_run d) <? Z.max 1 max_seq).

(** [None]: not executed, and no token was emitted; the caller takes single steps. *)
Definition NativeExecuteUnifiedBatchBurst (supported : bool) (ds : list Decoding) : option (list Run) :=
  if negb supported || negb (BurstStepEligible ds) then None
  else if (Z.max 1 max_batch <? Z.of_nat (length ds)) || (kMaxBurstBatch <? Z.of_nat (length ds)) then None
  else if negb (forallb in_kv_range ds) then None
  else if negb forward_ok then None
  else Some (settle_entry <$> consume (enqueued_of ds) 0 (entry_of ds <$> ds)).
End Burst.
End Executor.

(** ** What single steps would do *)

Section Steps.
Context (terminal : Z -> bool) (piece_of : Z -> bytes) (next : list Z -> Z) (q : Request) (plan : FairnessSlicePlan) (flag : nat -> bool).

(** At most [n] steps of the stepwise executor, after the tokens [h]; a token that ends the text is not counted. *)
Fixpoint by_steps (n i : nat) (h : list Z) (r : Run) : Run :=
  match n with
  | O => r
  | S n =>
      let t := next (h ++ [current_token r]) in
      if (t <? 0) || terminal t then stopped r
      else
        let r' := step_process q plan (flag i) (MakeUnifiedBatchInput q (pos r) [current_token r] true) (mkOutput t (VisibleTokenPiece terminal piece_of t) true None) r in
        if active r' then by_steps n (S i) (h ++ [current_token r]) r' else r'
  end.
End Steps.

(** ** Facts on the device *)

Lemma attended_snoc p tok m : 0 <= p -> attended (p + 1) (<[p := tok]> m) = attended p m ++ [tok].
Proof.
  intros Hp. unfold attended. rewrite seqZ_app by lia. rewrite fmap_app, Z.add_0_l. change (seqZ p 1) with [p]. f_equal; [|cbn [fmap list_fmap]; by rewrite lookup_insert_eq].
  apply list_fmap_ext. intros i x Hx%lookup_seqZ. rewrite lookup_insert_ne by lia. done.
Qed.

Lemma attended_beyond p k tok m : p <= k -> attended p (<[k := tok]> m) = attended p m.
Proof. intros Hk. apply list_fmap_ext. intros i x Hx%lookup_seqZ. rewrite lookup_insert_ne by lia. done. Qed.

Section DeviceFacts.
Context (next : list Z -> Z) (eos_ids : list Z).

(** The tokens before the one that is about to be fed. *)
Definition history (l : Lane) : list Z := attended (lane_past l) (rows l).

Definition lane_ok (l : Lane) : Prop := 0 <= lane_past l /\ kv_len l = lane_past l + 1.

Lemma sampled_next l : lane_ok l -> (EnqueueStep next eos_ids l).2 = next (history l ++ [token_id l]).
Proof. intros [Hp Hk]. unfold EnqueueStep. cbn. by rewrite Hk, attended_snoc. Qed.

Lemma enqueue_ok_lane l : lane_ok l -> lane_ok (EnqueueStep next eos_ids l).1.
Proof.
  intros [Hp Hk]. unfold EnqueueStep, DecodeTokenFeedKernel, lane_ok. cbn. destruct (done l || _); [done|]. destruct (existsb _ _); [done|]. cbn. lia.
Qed.

Definition frozen (l : Lane) : Prop := done l = true \/ steps_left l <= 0.

Lemma feed_frozen t l : frozen l -> DecodeTokenFeedKernel eos_ids t l = l.
Proof. unfold DecodeTokenFeedKernel. intros [->|H%Z.leb_le]; [done|]. by rewrite H, orb_true_r. Qed.

(** A step that samples another token: the lane goes on behind it. *)
Lemma enqueue_advances l t : lane_ok l -> (EnqueueStep next eos_ids l).2 = t -> done l = false -> 0 < steps_left l -> existsb (Z.eqb t) eos_ids = false ->
  let l' := (EnqueueStep next eos_ids l).1 in
  token_id l' = t /\ done l' = false /\ steps_left l' = steps_left l - 1 /\ lane_past l' = lane_past l + 1 /\ history l' = history l ++ [token_id l].
Proof.
  intros [Hp Hk] <- Hd Hs He. unfold EnqueueStep in *. cbn in *. unfold DecodeTokenFeedKernel. cbn. rewrite Hd, (proj2 (Z.leb_gt _ _) Hs), He. cbn.
  split_and!; try done. unfold history. cbn. by apply attended_snoc.
Qed.

(** Steps of a frozen lane repeat the same one. *)
Lemma frozen_again l : frozen l -> let l' := (EnqueueStep next eos_ids l).1 in frozen l' /\ (EnqueueStep next eos_ids l').1 = l' /\ (EnqueueStep next eos_ids l').2 = (EnqueueStep next eos_ids l).2.
Proof.
  intros Hf. assert (E : forall l, frozen l -> EnqueueStep next eos_ids l = forward next l).
  { intros k Hk. unfold EnqueueStep. destruct (forward next k) as [k' t] eqn:Ef. rewrite feed_frozen; [done|]. unfold forward in Ef. injection Ef as <- _. exact Hk. }
  assert (Hf' : frozen (forward next l).1) by exact Hf. rewrite (E l Hf). cbv zeta. rewrite (E _ Hf'). split; [done|].
  unfold forward. cbn. by rewrite insert_insert_eq.
Qed.

(** The rows that steps may change. *)
Lemma ring_rows n l : lane_ok l -> forall i, i < lane_past l \/ lane_past l + Z.max 0 (steps_left l) < i -> rows (ring next eos_ids n l).2 !! i = rows l !! i.
Proof.
  revert l. induction n as [|n IH]; intros l Hl i Hi; [done|]. cbn [ring]. destruct (EnqueueStep next eos_ids l) as [l' t] eqn:E. destruct (ring next eos_ids n l') as [ts l''] eqn:Er. cbn.
  pose proof (enqueue_ok_lane l Hl) as Hl'. rewrite E in Hl'. specialize (IH l' Hl'). rewrite Er in IH. cbn in IH.
  assert (Hr : rows l' = <[lane_past l := token_id l]> (rows l) /\ lane_past l <= lane_past l' /\ lane_past l' + Z.max 0 (steps_left l') <= lane_past l + Z.max 0 (steps_left l)).
  { unfold EnqueueStep in E. cbn in E. injection E as <- _. unfold DecodeTokenFeedKernel. cbn. destruct (done l); cbn; [split; [done|lia]|].
    destruct (Z.leb_spec (steps_left l) 0); cbn; [split; [done|lia]|]. destruct (existsb _ _); cbn; (split; [done|lia]). }
  destruct Hr as (Hr & H1 & H2). rewrite IH by lia. rewrite Hr. apply lookup_insert_ne. lia.
Qed.
End DeviceFacts.

(** ** Facts on the host *)

Section HostFacts.
Context (terminal : Z -> bool) (piece_of : Z -> bytes).

Fixpoint alone (n i : nat) (e : Entry) : Entry := match n with O => e | S n => alone n (S i) (consume_entry terminal piece_of i e) end.

Lemma consume_stopped i e : e_stopped e = true -> consume_entry terminal piece_of i e = e.
Proof. unfold consume_entry. by intros ->. Qed.

Lemma alone_stopped n i e : e_stopped e = true -> alone n i e = e.
Proof. intros Hs. revert i. induction n as [|n IH]; intros i; [done|]. cbn. by rewrite consume_stopped. Qed.

Lemma alone_spent n i e : e_budget e <= Z.of_nat i -> alone n i e = e.
Proof.
  revert i. induction n as [|n IH]; intros i Hi; [done|]. cbn. assert (E : consume_entry terminal piece_of i e = e).
  { unfold consume_entry, BurstSlotWithinBudget. destruct (Z.ltb_spec (Z.of_nat i) (e_budget e)); [lia|]. by rewrite andb_false_r, orb_true_r. }
  rewrite E. apply IH. lia.
Qed.

(** The sequences do not see one another. *)
Lemma consume_each n i es : consume terminal piece_of n i es = alone n i <$> es.
Proof.
  revert i es. induction n as [|n IH]; intros i es; cbn [consume]; [by rewrite list_fmap_id|]. destruct (forallb e_stopped _) eqn:Ha.
  - apply list_fmap_ext. intros j e Hj. cbn. rewrite alone_stopped; [done|]. rewrite forallb_forall in Ha. apply Ha, list_elem_of_In, list_elem_of_fmap_2. by eapply list_elem_of_lookup_2.
  - rewrite IH, <- list_fmap_compose. done.
Qed.

Lemma sink_steps q plan c t r : in_prefill r = false -> (t <? 0) = false -> active r = true ->
  let r' := step_process q plan c (MakeUnifiedBatchInput q (pos r) [current_token r] true) (mkOutput t (VisibleTokenPiece terminal piece_of t) true None) r in
  sink q plan c t (VisibleTokenPiece terminal piece_of t) r = (active r', r').
Proof.
  intros Hp Ht Ha. unfold sink, step_process, limited. cbn [in_prefill feed]. rewrite Hp. cbn [out_ok out_token out_piece out_logprob negb orb]. rewrite Ht.
  set (r' := accept _ _ _ _ _ _ _ _). destruct (active r') eqn:Ea; cbn [negb]; [destruct (reached_limit plan r'); [done|by rewrite Ea]|].
  destruct (reached_limit plan r'); [|by rewrite Ea]. cbn. f_equal. destruct r'. cbn in *. by subst.
Qed.

Lemma step_keeps q plan c i res r : in_prefill r = false -> out_ok res = true -> (out_token res <? 0) = false ->
  current_token (step_process q plan c i res r) = out_token res /\ in_prefill (step_process q plan c i res r) = false.
Proof.
  intros Hp Ho Ht. unfold step_process. cbn [in_prefill feed]. rewrite Hp, Ho, Ht. cbn [negb orb]. unfold limited, accept. repeat case_match; done.
Qed.

Context (next : list Z -> Z) (eos_token : Z).
Hypothesis eos_terminal : terminal eos_token = true.

(** One sequence: what its slots make of its run is what single steps make of it. *)
Lemma alone_by_steps n : forall i e l, (forall j, e_ring e !! (i + j)%nat = (ring next [eos_token] n l).1 !! j) -> lane_ok l -> done l = false -> steps_left l = e_budget e - Z.of_nat i ->
  current_token (e_run e) = token_id l -> active (e_run e) = true -> in_prefill (e_run e) = false -> e_stopped e = false -> e_finished e = false ->
  settle_entry (alone n i e) = by_steps terminal piece_of next (e_req e) (e_plan e) (e_flag e) (Nat.min n (Z.to_nat (e_budget e - Z.of_nat i))) i (history l) (e_run e).
Proof.
  induction n as [|n IH]; intros i e l Hr Hl Hd Hs Hc Ha Hp Hst Hf; [cbn; unfold settle_entry; by rewrite Hf|].
  destruct (Z.le_gt_cases (e_budget e) (Z.of_nat i)) as [Hb|Hb].
  { rewrite alone_spent by done. replace (Z.to_nat _) with 0%nat by lia. rewrite Nat.min_0_r. cbn. unfold settle_entry. by rewrite Hf. }
  replace (Z.to_nat (e_budget e - Z.of_nat i)) with (S (Z.to_nat (e_budget e - Z.of_nat (S i)))) by lia. cbn [Nat.min by_steps alone]. cbv zeta.
  pose proof (sampled_next next [eos_token] l Hl) as Ht. rewrite Hc, <- Ht. pose proof (enqueue_ok_lane next [eos_token] l Hl) as Hl'.
  pose proof (enqueue_advances next [eos_token] l _ Hl eq_refl Hd ltac:(lia)) as Hadv.
  cbn [ring] in Hr. destruct (EnqueueStep next [eos_token] l) as [l' t] eqn:El. destruct (ring next [eos_token] n l') as [ts l''] eqn:Er. cbn [fst snd] in *.
  pose proof (Hr 0%nat) as H0. rewrite Nat.add_0_r in H0. cbn in H0.
  assert (Hw : BurstSlotWithinBudget (Z.of_nat i) (e_budget e) = true) by (unfold BurstSlotWithinBudget; apply andb_true_iff; split; [apply Z.leb_le; lia|by apply Z.ltb_lt]).
  unfold consume_entry at 1. rewrite Hst, Hw, H0. cbn [orb negb]. change (default (-1) (Some t)) with t. cbv zeta. destruct ((t <? 0) || terminal t) eqn:Hterm; [rewrite alone_stopped by done; done|].
  apply orb_false_iff in Hterm as [Hneg Hterm]. rewrite <- Hc. rewrite (sink_steps _ _ _ _ _ Hp Hneg Ha). set (r' := step_process _ _ _ _ _ _).
  destruct (step_keeps (e_req e) (e_plan e) (e_flag e i) (MakeUnifiedBatchInput (e_req e) (pos (e_run e)) [current_token (e_run e)] true)
    (mkOutput t (VisibleTokenPiece terminal piece_of t) true None) (e_run e) Hp eq_refl Hneg) as [Hc' Hp']. fold r' in Hc', Hp'. cbn in Hc'.
  destruct (active r') eqn:Ea; cbn [negb].
  - destruct Hadv as (A1 & A2 & A3 & A4 & A5).
    { cbn. rewrite orb_false_r. apply Z.eqb_neq. intros ->. congruence. }
    rewrite Hc, <- A5. rewrite (IH (S i) (mkEntry _ _ _ _ _ r' false (e_finished e || false) t) l'); cbn [e_run e_req e_plan e_flag e_budget]; try done.
    + intros j. cbn. rewrite Er. specialize (Hr (S j)). rewrite <- plus_n_Sm in Hr. exact Hr.
    + rewrite A3. lia.
    + by rewrite A1.
    + cbn. by rewrite Hf.
  - rewrite alone_stopped by done. unfold settle_entry. cbn. rewrite orb_true_r. destruct r'. cbn in *. by subst.
Qed.
End HostFacts.

Lemma step_budget_bounds chunk batch max_seq past : 1 <= step_budget chunk batch max_seq past <= 8.
Proof. unfold step_budget, max_tokens_per_seq, kMaxRingSlots. lia. Qed.

Lemma step_budget_room chunk batch max_seq past : past + 1 < max_seq -> past + step_budget chunk batch max_seq past < max_seq.
Proof. unfold step_budget. lia. Qed.

(** Pipelined bursts and single steps.  When a burst is executed, every request of the batch ends up exactly as after as many
    steps of the stepwise executor with a backend that samples greedily after the tokens in its rows: text, stream,
    counts and position, up to the first token that ends the text, the first stop, or the end of its budget of one
    to eight steps; whatever the other requests of the batch do, and however far the device runs ahead. *)
Theorem pipelined_burst_agrees_with_steps terminal piece_of next eos_token max_batch max_seq chunk graph_ready enqueue_ok forward_ok supported ds rs
    (Heos : terminal eos_token = true)
    (Hds : Forall (fun d => active (d_run d) = true /\ 0 <= pos (d_run d)) ds)
    (Hb : NativeExecuteUnifiedBatchBurst terminal piece_of next eos_token max_batch max_seq chunk graph_ready enqueue_ok forward_ok supported ds = Some rs) :
  let steps d := Nat.min (enqueued_of max_seq chunk graph_ready enqueue_ok ds) (Z.to_nat (budget_of max_seq chunk ds d)) in
  rs = (fun d => by_steps terminal piece_of next (d_req d) (d_plan d) (d_flag d) (steps d) 0 (attended (pos (d_run d)) (d_rows d)) (d_run d)) <$> ds /\
  Forall (fun d => (1 <= steps d <= 8)%nat) ds.
Proof.
  intros steps. unfold NativeExecuteUnifiedBatchBurst in Hb. destruct (negb supported || negb (BurstStepEligible ds)) eqn:He; [done|].
  apply orb_false_iff in He as [_ He%negb_false_iff]. unfold BurstStepEligible in He. apply andb_true_iff in He as [_ He]. rewrite forallb_forall in He.
  destruct (_ || _); [done|]. destruct (negb (forallb _ _)); [done|]. destruct (negb forward_ok); [done|]. apply (inj Some) in Hb as <-. split.
  - rewrite consume_each. apply list_eq. intros j. rewrite !list_lookup_fmap. destruct (ds !! j) as [d|] eqn:Hj; [|done]. cbn [fmap option_fmap option_map]. f_equal.
    destruct (proj1 (Forall_lookup _ _) Hds j d Hj) as [Ha Hp].
    assert (Hpre : in_prefill (d_run d) = false).
    { specialize (He d). rewrite <- list_elem_of_In in He. specialize (He ltac:(by eapply list_elem_of_lookup_2)).
      apply andb_true_iff in He as [[He%negb_true_iff _]%andb_true_iff _]. done. }
    set (n := enqueued_of max_seq chunk graph_ready enqueue_ok ds). set (b := budget_of max_seq chunk ds d).
    pose proof (alone_by_steps terminal piece_of next eos_token Heos n 0 (entry_of next eos_token max_seq chunk graph_ready enqueue_ok ds d)
      (begin_chunk (current_token (d_run d)) (pos (d_run d)) b (d_rows d))) as H.
    cbn [entry_of e_run e_req e_plan e_flag e_budget e_stopped e_finished e_ring] in H. change (Z.of_nat 0) with 0 in H. rewrite Z.sub_0_r in H. by apply H.
  - apply Forall_forall. intros d _. unfold steps, budget_of. pose proof (step_budget_bounds chunk (Z.of_nat (length ds)) (Z.max 1 max_seq) (pos (d_run d))). unfold enqueued_of, enqueued. lia.
Qed.

(** Running ahead does no harm.  However many steps are enqueued, the device changes the rows of a sequence only from its position on, and, when there is
    room for another row behind that position, only within the sequence.  Once a sequence is frozen, by its budget or a token that ends it, a
    further step leaves it as it is and samples the same token again. *)
Theorem running_ahead_is_safe next eos_token chunk batch max_seq token past m n
    (Hp : 0 <= past) (Hroom : past + 1 < max_seq) :
  let l := begin_chunk token past (step_budget chunk batch max_seq past) m in
  (forall i, i < past \/ max_seq <= i -> rows (ring next [eos_token] n l).2 !! i = m !! i) /\
  attended past (rows (ring next [eos_token] n l).2) = attended past m /\
  (forall k, frozen k -> let k' := (EnqueueStep next [eos_token] k).1 in
     frozen k' /\ (EnqueueStep next [eos_token] k').1 = k' /\ (EnqueueStep next [eos_token] k').2 = (EnqueueStep next [eos_token] k).2).
Proof.
  intros l. assert (Hl : lane_ok l) by (split; [done|reflexivity]). pose proof (step_budget_room chunk batch max_seq past Hroom) as Hb. pose proof (step_budget_bounds chunk batch max_seq past).
  assert (Hr : forall i, i < past \/ max_seq <= i -> rows (ring next [eos_token] n l).2 !! i = m !! i).
  { intros i Hi. apply (ring_rows next [eos_token] n l Hl). cbn. lia. }
  split; [done|]. split; [|intros k Hk; by apply frozen_again].
  apply list_fmap_ext. intros i x Hx%lookup_seqZ. by rewrite Hr by lia.
Qed.

(** ** Runs *)

Module BurstDemo.
Definition request (n : Z) : Request := mkRequest (bytes_of "m") (bytes_of "m") n [1; 2] [1; 2] 16 [] false false 0 0.
Definition run_at (p : Z) : Run := mkRun true 1 0 7 false p 2 [] true (mkText [] (bytes_of "a") [] true) [] [].
Definition decoding (n p : Z) : Decoding := mkDecoding (request n) (mkPlan 16 128 false) (fun _ => false) (run_at p) ({[ 0 := 1; 1 := 2 ]} : gmap Z Z) true.
(** Ten follows nine, and so on; 12 ends the text. *)
Definition next (h : list Z) : Z := default 0 (last h) + 1.
Definition outcome (max_seq : Z) (ds : list Decoding) : option (list Run) :=
  NativeExecuteUnifiedBatchBurst (Z.eqb 12) (fun _ => bytes_of "x") next 12 4 max_seq 8 true (fun _ => true) true true ds.
End BurstDemo.

Lemma pipelined_burst_agrees_with_steps_witness : exists rs, BurstDemo.outcome 100 [BurstDemo.decoding 0 2; BurstDemo.decoding 1 3] = Some rs /\
  completion ∘ out <$> rs = [bytes_of "axxxx"; bytes_of "axxxx"] /\ active <$> rs = [false; false].
Proof.
  destruct (BurstDemo.outcome 100 [BurstDemo.decoding 0 2; BurstDemo.decoding 1 3]) as [rs|] eqn:E; [|vm_compute in E; congruence]. exists rs. split; [done|].
  destruct (pipelined_burst_agrees_with_steps (Z.eqb 12) _ _ 12 _ _ _ _ _ _ _ [BurstDemo.decoding 0 2; BurstDemo.decoding 1 3] rs eq_refl ltac:(repeat constructor; cbn; lia) E) as [-> _].
  split; vm_compute; reflexivity.
Defined.

Lemma running_ahead_is_safe_witness : rows (ring BurstDemo.next [12] 20 (begin_chunk 7 2 (step_budget 8 2 8 2) ({[ 0 := 1; 1 := 2 ]} : gmap Z Z))).2 !! 8 = None.
Proof.
  destruct (running_ahead_is_safe BurstDemo.next 12 8 2 8 7 2 ({[ 0 := 1; 1 := 2 ]} : gmap Z Z) 20 ltac:(lia) ltac:(lia)) as [H _]. rewrite H by lia. reflexivity.
Defined.

(** At the last row of a sequence the budget is one step, and not none: when another sequence of the batch takes two, the
    second step writes the row behind the sequence, which is the first of the next one. *)
Example last_row_overrun :
  step_budget 8 2 8 7 = 1 /\ step_budget 8 2 8 2 = 5 /\ rows (ring BurstDemo.next [12] 5 (begin_chunk 7 7 1 ∅)).2 !! 8 = Some 8.
Proof. vm_compute. done. Qed.
